(* ===== verification/_CoqProject ===== *)
-Q . S2P
Prelude.v
UcTypes.v
BitOps.v
HostUtils.v
TcgOps.v
TcgSem.v
TcgOptimize.v
TcgValues.v
TcgFields.v
TcgMasks.v
TcgCopies.v
TcgPhases.v
TcgInputs.v
TcgSimplify.v
TcgFold.v
TcgBranch.v
TcgSwitch.v
TcgCorrect.v
TcgRuns.v
TcgTheorems.v
TcgBlocks.v
TcgPasses.v
TcgReach.v
TcgLiveness.v
TcgGenCode.v
TcgPipeline.v
SearchData.v
RamList.v
RamPlaces.v
LinkedList.v
Hooks.v
AesTables.v
AesSpec.v
Aes.v
AesCbc.v
FlatView.v
PhysMap.v
Dispatch.v
SoftTlb.v
TlbCoherence.v
TlbRuns.v
Qht.v
QhtProofs.v
Bitmap.v
BitmapProofs.v
BitmapSearch.v
BitmapSets.v
BitmapTheorems.v
TbPages.v
TbCache.v
TbLists.v
TbPageLists.v
TbJumps.v
TbInvariant.v
TbInvalidate.v
TbLink.v
TbSteps.v
TbTheorems.v
SoftmmuAccess.v
AccessProofs.v
AccessRuns.v
Regions.v
UcMem.v
MemInv.v
MemCommit.v
MemMap.v
MemAccess.v
MemCut.v
MemUnmap.v
MemCases.v
