(* ===== verification/Prelude.v ===== *)
(** * Verification of the Unicorn engine core shipped with rnidbg

    rnidbg runs Android native code on the CPU emulator in [unicorn/], a C
    library: the engine API in [uc.c], on top of parts of QEMU in
    [unicorn/qemu/].  This development models the parts of that library that
    keep state of their own and decide what the emulated program sees: the
    lists and hooks of the engine, the memory API, the memory topology under
    it from the region tree to the software TLB and the helpers that load and
    store, the passes of the TCG that rewrite the intermediate code of a
    translation block, the cache of translated blocks, the placement of RAM,
    and the AES cipher.

    ** How the parts interact

    [uc_mem_map] and its relatives keep a sorted array of blocks and change a
    tree of memory regions.  The tree is rendered into a flat view, a sorted
    list of ranges; a dispatch structure, a radix tree over page numbers with
    subpages for shared pages, is built from the view and answers physical
    addresses; the software TLB caches the answers per virtual page for the
    generated code, whose loads and stores end in helpers that call the user's
    hooks.  [uc_mem_read] and [uc_mem_write] go through the view.  The guest's
    code becomes a list of TCG operations, which is optimized, rid of
    unreachable and of dead operations, and then given to the register
    allocator.  The block of host code that comes out is kept in a cache: it is
    found by its address in a hash table and in a small cache by address,
    jumps of other blocks are patched to it, and it is on the lists of the
    pages of RAM that it was translated from, so that a store to such a page,
    which the TLB sends to a helper, invalidates it.  RAM has a second
    numbering, [ram_addr_t], kept in a list of blocks.
    Hooks are kept in linked lists, one per kind, and share their objects.

    ** Files

    - [Prelude]: machine integers ([wrap], [uint], [sint]), the tactics
      [bool_to_prop], [case_if] and [inv_opt], lemmas on lists.
    - [UcTypes]: error codes and constants ([unicorn.h], [uc_priv.h]).
    - [BitOps]: counts of bits, rotations, bit fields and byte swaps
      ([host-utils.h], [bitops.h], [bswap.h]); [HostUtils]: 128-bit
      multiplication, division and shifts ([qemu/util/host-utils.c]).
    - [TcgOps]: opcodes, operations and temps ([tcg-opc.h], [tcg.h]);
      [TcgSem]: what an operation does, after [tcg/README], with helpers and
      memory as an interface.
    - [TcgOptimize]: [qemu/tcg/optimize.c]; its proof in [TcgValues] and
      [TcgFields] (meaning of the opcodes), [TcgMasks] (known-zero bits),
      [TcgCopies] (lists of copies), [TcgPhases], [TcgInputs], [TcgSimplify],
      [TcgFold], [TcgBranch], [TcgSwitch] (one file per phase), [TcgCorrect],
      [TcgRuns], [TcgTheorems] (one operation, a run, the results).
    - [TcgPasses]: [reachable_code_pass] and [liveness_pass_1] of
      [qemu/tcg/tcg.c]; [TcgBlocks]: observable behaviour of a block and
      refinement; [TcgReach], [TcgLiveness]: the proofs; [TcgGenCode],
      [TcgPipeline]: the passes as [tcg_gen_code] composes them.
    - [SearchData]: the table behind the code of a block that leads from host
      to guest addresses ([qemu/accel/tcg/translate-all.c]).
    - [Qht]: the hash table ([qemu/util/qht.c]); [QhtProofs]: its interface
      [HashTable] with its laws, and that the table has them.
    - [Bitmap]: arrays of bits ([qemu/util/bitmap.c], [qemu/util/bitops.c],
      [bitmap.h], [bitops.h]); [BitmapProofs] (words and ranges),
      [BitmapSearch], [BitmapSets] (whole bitmaps, counts, copies),
      [BitmapTheorems] (the results).
    - [TbPages]: page descriptors; [TbCache]: translation blocks, page lists,
      jumps, linking, lookup and invalidation ([translate-all.c],
      [cpu-exec.c], [tb-lookup.h], [tb-hash.h]) over [HashTable]; [TbLists]
      (lists of tagged pointers), [TbPageLists], [TbJumps], [TbInvariant]
      (the invariant and invalidation of one block), [TbInvalidate] (by
      address), [TbLink] (linking, chaining, lookups, flushes), [TbSteps]
      (new blocks, all operations in any order), [TbTheorems] (the results).
    - [RamList]: the list of RAM blocks ([qemu/exec.c]); [RamPlaces]: where
      blocks are placed and found.
    - [LinkedList]: [list.c] on a store of nodes; [Hooks]: [uc_hook_add],
      [uc_hook_del] and [clear_deleted_hooks] of [uc.c] over the interface
      [ListSpec] that [LinkedList] implements.
    - [AesTables], [AesSpec], [Aes], [AesCbc]: [qemu/crypto/aes.c], its
      reference (FIPS-197), and CBC mode on a memory with overlapping buffers.
    - [FlatView]: rendering, simplification and comparison of views
      ([qemu/softmmu/memory.c]).
    - [PhysMap]: the radix tree; [Dispatch]: sections, subpages, construction,
      lookup and translation ([qemu/exec.c]).
    - [SoftTlb]: the TLB ([qemu/accel/tcg/cputlb.c]); [TlbCoherence]: its
      invariant, one lemma per operation; [TlbRuns]: runs of operations.
    - [SoftmmuAccess]: the load and store helpers of [cputlb.c] with their
      hooks; [AccessProofs], [AccessRuns]: what they read, write and report.
    - [Regions]: the mutable region tree, the commit of a change, copy on
      write, and the accesses through the view ([memory.c], [exec.c]); [UcMem]:
      the memory API of [uc.c]; [MemInv]: its invariant; [MemCommit]: when a
      commit succeeds; [MemMap], [MemAccess], [MemCut], [MemUnmap]: what each
      call does; [MemCases]: calls at the edges.

    ** Conventions

    A [w]-bit integer is a [Z] with its wrap-around written out.  A pointer is
    a number into a store; using a freed or null pointer, reading out of an
    array and a failed assertion give [None].  Host memory allocation, the
    user's callbacks, the clock and the contents of fresh memory are arguments
    of the definitions; where a theorem needs something of them it is a
    hypothesis, and its witness gives a concrete instance.

    ** What is shown

    - Topology: the view of any tree serves each of the 2^64 addresses from
      the region the tree gives it to; the dispatch structure answers as the
      tree does after any lookups; compaction and filling of the radix tree
      keep to their pages and to the nodes reserved; all subpages are freed
      once; the topology passes emit the difference of two views.
    - TLB: in every state that filling, flushing, victim swaps and dirty marks
      can reach, an answer is the translation last installed for the page and
      not flushed since, at most one entry answers, flushes return as long as
      the smallest table can be allocated and are complete also for large
      pages, the tables stay within their limits,
      and a page filled from the dispatch structure leads a load to the host
      byte that the tree serves.
    - Loads and stores: in the normal case a load reads and a store writes the
      bytes of the RAM the page leads to, also across a page boundary, in the
      byte order of the access; an access to memory that is not mapped, or that
      lacks the permission, sets the error and changes no memory, whether its
      page was in the TLB, among the victims or is filled.
    - TCG: the optimizer succeeds on well-formed operations, and every run of a
      block is a run of the optimized one; folding, conditions and known-zero
      bits agree with the meaning of the operations.  The block that all three
      passes give has every observable behaviour of the original: globals,
      memory, barriers and where it goes.
    - Translation blocks: in every state that generating, chaining, looking up,
      invalidating and flushing blocks can reach, page lists, hash table, jumps
      and jump cache have the linked blocks and no others; of the blocks with
      instructions a write or a range unlinks exactly those with code there
      (blocks without any, which Unicorn makes too, go with their page), so
      that neither a lookup nor a jump leads to code that was overwritten; a
      block for the same code is linked once; no operation fails.  The hash table gives back what was put
      in through growth and removal, and the unwind data gives the guest
      instruction of every host address of a block.
    - Bitmaps: setting and clearing ranges changes exactly their bits, the
      atomic variants agree with the plain ones, searches return the first or
      last bit, a free area is the lowest that fits, and tests, combinations,
      counts and copies at offsets are those of sets of bits; the bitmap of a
      page with code is one of these.
    - 128-bit arithmetic: products, quotients and shifts are exact where they
      fit, and the error results are what the code tests.
    - RAM blocks: from the empty list on, no sequence of allocations and frees
      makes two blocks share an address, as long as the blocks before the first
      free come from the biggest to the smallest and only the last of them has
      a size that is not a multiple of 64 pages ([ram_places_overlap] shows
      what happens otherwise); addresses and host pointers are translated into
      each other.
    - Memory API: outside of snapshots, mapping, unmapping, protecting,
      reading and writing change exactly the cells of their range and report
      errors without a change; what is written is read back.  The limits of the
      code are in the statements: every commit needs a section number per
      block, so that mapping ends the process when there is one block fewer
      than a page has bytes; a block that ends at the last address is never
      cut; and a cut for which the host refuses memory loses cells of the
      block.
    - Lists and hooks: every list operation keeps head, tail and links
      consistent and frees what it unlinks; hooks are registered in exactly
      their lists, freed once, and adding, deleting and clearing is the
      identity.
    - AES: the tables hold the products their comments announce, the key
      schedule is the key expansion of the standard, the table-driven rounds
      are the cipher, decryption inverts encryption, CBC is right for every
      length also in place.
    - Examples on concrete engines document what the code does at its edges
      (see [MemCases] and the last part of [TlbRuns]).

    ** Bounds and fuel

    Loops whose recursion is not structural take fuel that the theorems prove
    sufficient: the loops over blocks take more rounds than there are blocks,
    walks of the radix tree as many as it has levels, [widen] one more than
    the width of an address, [flush_modes] one more than the number of modes,
    [alloc_tlb] 64 halvings of a size below 2^64.  The theorems on runs of the
    TLB allow 2^50 steps, because the code's count of used entries may drift
    by ten at each and is multiplied by 100 in 64 bits.

    A run of a block takes fuel for its jumps; the theorems on behaviours hold
    for every amount of it, so for every finite run.  The walk over the copies
    of a temp takes as many rounds as there are temps.  A block has fewer than
    2^15 operations, which keeps the 16-bit counters of labels exact.

    The loops over the words of a bitmap take one round more than it has
    words, the search for a free area one more than it has bits.

    A list of blocks has at most two entries for each block, which bounds the
    walks over it.  The theorems on the cache of blocks take pages of at least
    64 bytes, writes of at most eight bytes in one word, and blocks on one
    page or on two that are different pages of RAM, as a translator makes them;
    a block may be without instructions.

    The memory API and the dispatch structure are shown for pages of 2 to
    65536 bytes and addresses of 32 to 64 bits.  The small records of the
    engine (regions, hooks, the array of blocks) are taken to be obtained;
    refusals are modelled for the memory of RAM blocks, for the copy of a block
    that is cut, and for the tables of the TLB.

    ** Not modelled

    The CPU targets, the register allocator and the back ends of the TCG (they
    need semantics of the guest and host instructions), the emulation loop,
    the allocation of the code buffer, blocks that are made for one run only
    ([CF_NOCACHE]) and the stop of a block that overwrites itself, engine
    creation, registers and contexts (so also [cpu_restore_state], which the
    load and store helpers call around hooks), IOMMU regions (the engine
    creates none), floating point, the operating system wrappers, the GLib
    copy, and everything in Rust and C++.
    Of the memory regions the shortcut [flatview_update], which edits a range
    of the view in place and builds the dispatch structure for the same ranges,
    is not modelled: a commit renders the view again, and a lookup uses the view
    of the current tree.  Of the liveness analysis the register preferences,
    which only guide the allocator, and [liveness_pass_2], for targets with
    indirect globals, are left out. *)

From Stdlib Require Export Lia ZArith.
From stdpp Require Export base tactics numbers option gmap.
From stdpp Require Export list sorting.

#[global] Open Scope Z_scope.

(** ** Machine integers

    A [w]-bit unsigned C integer is a [Z] in [0, 2^w); the wrap-around of the
    C operators is written out with [wrap]. *)

Definition wrap (w z : Z) : Z := z mod 2 ^ w.

Abbreviation u8 := (wrap 8).
Abbreviation u16 := (wrap 16).
Abbreviation u32 := (wrap 32).
Abbreviation u64 := (wrap 64).

(** The range of a [w]-bit unsigned integer. *)
Definition uint (w z : Z) : Prop := 0 <= z < 2 ^ w.

(** The value of the [w]-bit pattern [z] read as two's complement. *)
Definition sint (w z : Z) : Z :=
  let m := wrap w z in if m <? 2 ^ (w - 1) then m else m - 2 ^ w.

Lemma wrap_range w z : 0 <= w -> uint w (wrap w z).
Proof. intros Hw. apply Z.mod_pos_bound, Z.pow_pos_nonneg; lia. Qed.

Lemma wrap_id w z : uint w z -> wrap w z = z.
Proof. apply Z.mod_small. Qed.

Lemma wrap_wrap w z : 0 <= w -> wrap w (wrap w z) = wrap w z.
Proof. intros Hw. apply wrap_id. by apply wrap_range. Qed.

Lemma sint_range w z : 0 < w -> - 2 ^ (w - 1) <= sint w z < 2 ^ (w - 1).
Proof.
  intros Hw. unfold sint. pose proof (wrap_range w z ltac:(lia)) as Hr. unfold uint in Hr.
  assert (2 ^ w = 2 * 2 ^ (w - 1)) by (rewrite <- Z.pow_succ_r by lia; f_equal; lia).
  destruct (Z.ltb_spec (wrap w z) (2 ^ (w - 1))); lia.
Qed.

Lemma wrap_add_l w a b : wrap w (wrap w a + b) = wrap w (a + b).
Proof. apply Zplus_mod_idemp_l. Qed.

Lemma wrap_add_r w a b : wrap w (a + wrap w b) = wrap w (a + b).
Proof. apply Zplus_mod_idemp_r. Qed.

Lemma wrap_sub_l w a b : wrap w (wrap w a - b) = wrap w (a - b).
Proof. apply Zminus_mod_idemp_l. Qed.

Lemma wrap_sub_r w a b : wrap w (a - wrap w b) = wrap w (a - b).
Proof. apply Zminus_mod_idemp_r. Qed.

(** [wrap] is a projection onto [uint], and arithmetic may be wrapped late. *)
Create HintDb cint.
#[export] Hint Rewrite wrap_add_l wrap_add_r wrap_sub_l wrap_sub_r : cint.
#[export] Hint Resolve wrap_range : cint.

(** Low and high bits do not meet. *)

Lemma land_low b A I : 0 <= b -> A mod 2 ^ b = 0 -> 0 <= I < 2 ^ b -> Z.land A I = 0.
Proof.
  intros Hb HA HI. rewrite <- (Z.mod_small I (2 ^ b)), <- Z.land_ones by lia.
  rewrite (Z.land_comm I), Z.land_assoc, Z.land_ones, HA by lia. done.
Qed.

Lemma lor_low b A I : 0 <= b -> A mod 2 ^ b = 0 -> 0 <= I < 2 ^ b -> Z.lor A I = A + I.
Proof. intros. symmetry. apply Z.add_nocarry_lor. by apply (land_low b). Qed.

Lemma land_nonneg_le x y : 0 <= x -> 0 <= Z.land x y <= x.
Proof.
  intros Hx. split; [apply Z.land_nonneg; by left|].
  destruct (decide (x = 0)) as [->|Hn]; [by rewrite Z.land_0_l|].
  apply Z.ldiff_le; [done|]. rewrite Z.ldiff_land.
  apply Z.bits_inj'. intros i Hi. rewrite !Z.land_spec, Z.lnot_spec, Z.bits_0 by done.
  by destruct (Z.testbit x i), (Z.testbit y i).
Qed.

Lemma lor_bound n x y : 0 <= n -> 0 <= x < 2 ^ n -> 0 <= y < 2 ^ n -> 0 <= Z.lor x y < 2 ^ n.
Proof.
  intros Hn Hx Hy. split; [apply Z.lor_nonneg; lia|].
  assert (Z.lor x y = Z.land (Z.lor x y) (Z.ones n)) as ->.
  { rewrite Z.land_lor_distr_l, !Z.land_ones, !Z.mod_small by lia. done. }
  rewrite Z.land_ones by done. apply Z.mod_pos_bound. lia.
Qed.

(** ** Boolean tests of the C code *)

(** Turn the boolean comparisons of the source into propositions. *)
Ltac bool_to_prop :=
  repeat match goal with
  | H : (_ && _)%bool = true |- _ => apply andb_true_iff in H as [? ?]
  | H : (_ || _)%bool = false |- _ => apply orb_false_iff in H as [? ?]
  | H : negb _ = true |- _ => apply negb_true_iff in H
  | H : negb _ = false |- _ => apply negb_false_iff in H
  | H : (_ =? _) = true |- _ => apply Z.eqb_eq in H
  | H : (_ =? _) = false |- _ => apply Z.eqb_neq in H
  | H : (_ <? _) = true |- _ => apply Z.ltb_lt in H
  | H : (_ <? _) = false |- _ => apply Z.ltb_ge in H
  | H : (_ <=? _) = true |- _ => apply Z.leb_le in H
  | H : (_ <=? _) = false |- _ => apply Z.leb_gt in H
  end.

(** Case split on the [if] or [match] the goal is stuck on. *)
Ltac case_if :=
  match goal with
  | |- context [if ?b then _ else _] => destruct b eqn:?
  end; bool_to_prop.

(** Split every successful bind of an option computation in a hypothesis. *)
Ltac inv_opt :=
  repeat match goal with
  | H : mbind _ _ = Some _ |- _ =>
      apply bind_Some in H; destruct H as (? & ? & ?); simplify_eq
  | H : Some _ = Some _ |- _ => injection H as H; subst
  | H : None = Some _ |- _ => discriminate H
  end.

(** ** Lists *)

Lemma list_filter_all {A} (P : A -> Prop) `{!forall x, Decision (P x)} (l : list A) :
  Forall P l -> filter P l = l.
Proof. induction 1; [done|]. rewrite filter_cons_True by done. by f_equal. Qed.

(** Filters that agree on the elements of the list. *)
Lemma list_filter_iff_in {A} (P Q : A -> Prop) `{!forall x, Decision (P x)}
    `{!forall x, Decision (Q x)} (l : list A) :
  (forall x, x ∈ l -> (P x <-> Q x)) -> filter P l = filter Q l.
Proof.
  induction l as [|x l IH]; intros HPQ; [done|].
  assert (filter P l = filter Q l) as E by (apply IH; intros; apply HPQ; by right).
  destruct (decide (P x)) as [HP|HP].
  - rewrite !filter_cons_True; [by rewrite E|apply HPQ; [left|done]|done].
  - rewrite !filter_cons_False; [done|rewrite <- HPQ; [done|left]|done].
Qed.

Lemma list_elem_of_concat {A} (x : A) (xss : list (list A)) :
  x ∈ concat xss <-> exists xs, xs ∈ xss /\ x ∈ xs.
Proof. rewrite list_elem_of_In, in_concat. by setoid_rewrite list_elem_of_In. Qed.

Lemma elem_of_concat_lookup {A} (xss : list (list A)) j xs x :
  xss !! j = Some xs -> x ∈ xs -> x ∈ concat xss.
Proof.
  intros Hj Hx. apply list_elem_of_concat. exists xs. split; [|done].
  by eapply list_elem_of_lookup_2.
Qed.

(** Two positions of a sorted list are related. *)
Lemma StronglySorted_lookup {A} (R : relation A) (l : list A) i j x y :
  StronglySorted R l -> l !! i = Some x -> l !! j = Some y -> (i < j)%nat -> R x y.
Proof.
  intros Hs. revert i j. induction Hs as [|z l Hs IH HF]; intros [|i] [|j] Hi Hj Hij;
    simplify_eq/=; try lia; [|eapply IH; eauto; lia].
  rewrite Forall_forall in HF. apply HF. by eapply list_elem_of_lookup_2.
Qed.

(** A filter that keeps less, and not [y], is shorter. *)
Lemma filter_length_lt {A} (P Q : A -> Prop) `{!forall x, Decision (P x)}
    `{!forall x, Decision (Q x)} (l : list A) y :
  (forall x, x ∈ l -> P x -> Q x) -> y ∈ l -> ~ P y -> Q y ->
  (length (filter P l) < length (filter Q l))%nat.
Proof.
  intros HPQ Hy HnP HQ. induction l as [|x l IH]; [by apply elem_of_nil in Hy|].
  assert (length (filter P l) <= length (filter Q l))%nat as Hle.
  { clear IH Hy. induction l as [|z l IH]; [done|].
    assert (length (filter P l) <= length (filter Q l))%nat.
    { apply IH. intros x' Hx'. apply HPQ. set_solver. }
    assert (P z -> Q z) as Hz by (apply HPQ; set_solver).
    rewrite !filter_cons. repeat case_decide; simpl; first [lia|tauto]. }
  assert (P x -> Q x) as Hx by (apply HPQ; left).
  rewrite !filter_cons. apply elem_of_cons in Hy as [-> | Hy].
  - repeat case_decide; simpl; first [lia|tauto].
  - specialize (IH ltac:(intros; apply HPQ; [by right|done]) Hy).
    repeat case_decide; simpl; first [lia|tauto].
Qed.

(** A list stays sorted for a relation that agrees on its elements. *)
Lemma StronglySorted_impl_in {A} (R R' : relation A) (l : list A) :
  (forall x y, x ∈ l -> y ∈ l -> R x y -> R' x y) -> StronglySorted R l -> StronglySorted R' l.
Proof.
  intros H Hs. induction Hs as [|x l Hs IH HF]; constructor.
  - apply IH. intros y z Hy Hz. apply H; by right.
  - rewrite Forall_forall in *. intros y Hy. apply H; [left|by right|by apply HF].
Qed.

(** A list over [0, n) split at [l]. *)
Lemma fmap_seqZ_app {A} (f : Z -> A) l n :
  0 <= l <= n ->
  f <$> seqZ 0 n = (f <$> seqZ 0 l) ++ ((fun i => f (l + i)) <$> seqZ 0 (n - l)).
Proof.
  intros Hl. replace n with (l + (n - l)) at 1 by lia.
  rewrite seqZ_app, fmap_app by lia. f_equal.
  replace (0 + l) with (l + 0) by lia. rewrite <- fmap_add_seqZ, <- list_fmap_compose. done.
Qed.
