(* ===== verification/UcTypes.v ===== *)
(** * Error codes and constants of [unicorn.h] and [uc_priv.h] *)

From S2P Require Import Prelude.

(** [uc_err], in the order of the enumeration. *)
Inductive uc_err :=
| UC_ERR_OK
| UC_ERR_NOMEM
| UC_ERR_ARCH
| UC_ERR_HANDLE
| UC_ERR_MODE
| UC_ERR_VERSION
| UC_ERR_READ_UNMAPPED
| UC_ERR_WRITE_UNMAPPED
| UC_ERR_FETCH_UNMAPPED
| UC_ERR_HOOK
| UC_ERR_INSN_INVALID
| UC_ERR_MAP
| UC_ERR_WRITE_PROT
| UC_ERR_READ_PROT
| UC_ERR_FETCH_PROT
| UC_ERR_ARG
| UC_ERR_READ_UNALIGNED
| UC_ERR_WRITE_UNALIGNED
| UC_ERR_FETCH_UNALIGNED
| UC_ERR_HOOK_EXIST
| UC_ERR_RESOURCE
| UC_ERR_EXCEPTION
| UC_ERR_OVERFLOW.

#[export] Instance uc_err_eq_dec : EqDecision uc_err.
Proof. solve_decision. Defined.

(** Bits of [uc_hook_type] the hook code tests by name. *)
Definition UC_HOOK_INSN : Z := 2 ^ 1.
Definition UC_HOOK_CODE : Z := 2 ^ 2.
Definition UC_HOOK_TCG_OPCODE : Z := 2 ^ 16.

(** Indices of [uc_hook_idx]. *)
Definition UC_HOOK_INSN_IDX : nat := 1.
Definition UC_HOOK_CODE_IDX : nat := 2.
Definition UC_HOOK_TCG_OPCODE_IDX : nat := 16.
Definition UC_HOOK_MAX : nat := 18.

(** [uc_prot]. *)
Definition UC_PROT_NONE : Z := 0.
Definition UC_PROT_READ : Z := 1.
Definition UC_PROT_WRITE : Z := 2.
Definition UC_PROT_EXEC : Z := 4.
Definition UC_PROT_ALL : Z := 7.
