(* ===== verification/BitOps.v ===== *)
(** * Bit operations ([qemu/include/qemu/bitops.h], [host-utils.h], [bswap.h])

    Counting, rotating and swapping bits of 32- and 64-bit words, and bit
    fields of 64-bit words. *)

From S2P Require Import Prelude.

(** ** Counts *)

Definition clz32 (val : Z) : Z := if val =? 0 then 32 else 31 - Z.log2 val.

Definition clz64 (val : Z) : Z := if val =? 0 then 64 else 63 - Z.log2 val.

(** The lowest of the first [n] bits that is set, [n] if there is none. *)
Definition first_set (n val : Z) : Z := default n (head (filter (fun i => Z.testbit val i = true) (seqZ 0 n))).

Definition ctz32 (val : Z) : Z := first_set 32 val.

Definition ctz64 (val : Z) : Z := first_set 64 val.

(** How many of the first [n] bits are set. *)
Definition count_set (n v : Z) : Z := foldr (fun i k => k + (if Z.testbit v i then 1 else 0)) 0 (seqZ 0 n).

Definition ctpop16 (v : Z) : Z := count_set 16 v.

Definition ctpop32 (v : Z) : Z := count_set 32 v.

Definition ctpop64 (v : Z) : Z := count_set 64 v.

(** ** Rotations *)

Definition rol32 (word shift : Z) : Z := Z.lor (u32 (Z.shiftl word shift)) (Z.shiftr word (Z.land (32 - shift) 31)).
Definition ror32 (word shift : Z) : Z := Z.lor (Z.shiftr word shift) (u32 (Z.shiftl word (Z.land (32 - shift) 31))).
Definition rol64 (word shift : Z) : Z := Z.lor (u64 (Z.shiftl word shift)) (Z.shiftr word (Z.land (64 - shift) 63)).
Definition ror64 (word shift : Z) : Z := Z.lor (Z.shiftr word shift) (u64 (Z.shiftl word (Z.land (64 - shift) 63))).

(** ** Byte order *)

Definition bswap16 (x : Z) : Z := Z.lor (Z.shiftl (Z.land x 0x00ff) 8) (Z.shiftr (Z.land x 0xff00) 8).

Definition bswap32 (x : Z) : Z :=
  Z.lor (Z.lor (Z.lor (Z.shiftl (Z.land x 0x000000ff) 24) (Z.shiftl (Z.land x 0x0000ff00) 8))
               (Z.shiftr (Z.land x 0x00ff0000) 8))
        (Z.shiftr (Z.land x 0xff000000) 24).

Definition bswap64 (x : Z) : Z :=
  Z.lor (Z.lor (Z.lor (Z.lor (Z.lor (Z.lor (Z.lor
    (Z.shiftl (Z.land x 0x00000000000000ff) 56) (Z.shiftl (Z.land x 0x000000000000ff00) 40))
    (Z.shiftl (Z.land x 0x0000000000ff0000) 24)) (Z.shiftl (Z.land x 0x00000000ff000000) 8))
    (Z.shiftr (Z.land x 0x000000ff00000000) 8)) (Z.shiftr (Z.land x 0x0000ff0000000000) 24))
    (Z.shiftr (Z.land x 0x00ff000000000000) 40)) (Z.shiftr (Z.land x 0xff00000000000000) 56).

(** ** Bit fields *)

(** [~0ULL >> (64 - length)] *)
Definition field_mask (length : Z) : Z := Z.shiftr (2 ^ 64 - 1) (64 - length).

Definition extract64 (value start length : Z) : Z := Z.land (Z.shiftr value start) (field_mask length).

(** The bit pattern of the signed result. *)
Definition sextract64 (value start length : Z) : Z :=
  u64 (Z.shiftr (sint 64 (u64 (Z.shiftl value (64 - length - start)))) (64 - length)).

Definition deposit64 (value start length fieldval : Z) : Z :=
  let mask := u64 (Z.shiftl (field_mask length) start) in
  Z.lor (Z.land value (u64 (Z.lnot mask))) (Z.land (u64 (Z.shiftl fieldval start)) mask).

(** ** Lemmas *)

Lemma StronglySorted_filter_seqZ (P : Z -> Prop) `{!forall x, Decision (P x)} a n :
  StronglySorted Z.lt (filter P (seqZ a n)).
Proof.
  destruct (decide (n <= 0)); [rewrite seqZ_nil by lia; constructor|].
  replace n with (Z.of_nat (Z.to_nat n)) by lia. revert a.
  induction (Z.to_nat n) as [|k IH]; intros a; [constructor|].
  rewrite Nat2Z.inj_succ, seqZ_cons by lia. rewrite filter_cons.
  replace (Z.pred (Z.succ (Z.of_nat k))) with (Z.of_nat k) by lia.
  case_decide; [|apply IH]. constructor; [apply IH|]. apply Forall_forall. intros x Hx.
  apply list_elem_of_filter in Hx as [_ Hx]. apply elem_of_seqZ in Hx. lia.
Qed.

(** The lowest set bit. *)
Lemma first_set_spec n w :
  0 < w < 2 ^ n -> 0 <= first_set n w < n /\ Z.testbit w (first_set n w) = true /\
  forall j, 0 <= j < first_set n w -> Z.testbit w j = false.
Proof.
  intros Hw. unfold first_set. destruct (filter (fun i => Z.testbit w i = true) (seqZ 0 n)) as [|i l] eqn:E.
  - exfalso. assert (Z.testbit w (Z.log2 w) = true) as Hb by (apply Z.bit_log2; lia).
    assert (Z.log2 w ∈ filter (fun i => Z.testbit w i = true) (seqZ 0 n)) as Hin.
    { apply list_elem_of_filter. split; [done|]. apply elem_of_seqZ.
      pose proof (Z.log2_nonneg w). pose proof (Z.log2_lt_pow2 w n). lia. }
    rewrite E in Hin. by apply elem_of_nil in Hin.
  - cbn. assert (i ∈ filter (fun i => Z.testbit w i = true) (seqZ 0 n)) as Hin by (rewrite E; left).
    apply list_elem_of_filter in Hin as [Hb Hi]. apply elem_of_seqZ in Hi. split; [lia|]. split; [done|].
    intros j Hj. apply not_true_iff_false. intros Hbj.
    assert (j ∈ i :: l) as Hjl.
    { rewrite <- E. apply list_elem_of_filter. split; [done|]. apply elem_of_seqZ. lia. }
    assert (StronglySorted Z.lt (i :: l)) as Hs.
    { rewrite <- E. apply StronglySorted_filter_seqZ. }
    apply elem_of_cons in Hjl as [-> |Hjl]; [lia|]. inversion Hs as [|? ? _ HF]; subst.
    rewrite Forall_forall in HF. specialize (HF j Hjl). lia.
Qed.
