(* ===== verification/HostUtils.v ===== *)
(** * 128-bit arithmetic ([qemu/util/host-utils.c])

    The multiplications and divisions that hosts without a 128-bit integer type
    use, and the 128-bit shifts.  A 128-bit number is a pair of 64-bit halves,
    the low one first. *)

From S2P Require Import Prelude.

(** ** Data *)

(** The number with the halves [low] and [high]. *)
Definition pair128 (low high : Z) : Z := high * 2 ^ 64 + low.

(** The halves of the [union] [LL]. *)
Definition ll_low (ll : Z) : Z := u32 ll.
Definition ll_high (ll : Z) : Z := u32 (Z.shiftr ll 32).
Definition mk_ll (high low : Z) : Z := high * 2 ^ 32 + low.

(** ** Operations *)

Definition mul64 (a b : Z) : Z * Z :=
  let rl := u64 (ll_low a * ll_low b) in
  let rm := u64 (ll_low a * ll_high b) in
  let rn := u64 (ll_high a * ll_low b) in
  let rh := u64 (ll_high a * ll_high b) in
  let c := u64 (ll_high rl + ll_low rm + ll_low rn) in
  let rl := mk_ll (u32 c) (ll_low rl) in
  let c := Z.shiftr c 32 in
  let c := u64 (c + ll_high rm + ll_high rn + ll_low rh) in
  let rh := mk_ll (u32 (ll_high rh + u32 (Z.shiftr c 32))) (u32 c) in
  (rl, rh).

Definition mulu64 (a b : Z) : Z * Z := mul64 a b.

(** [a] and [b] are the bit patterns of the signed arguments. *)
Definition muls64 (a b : Z) : Z * Z :=
  let '(plow, rh) := mul64 a b in
  let rh := if sint 64 b <? 0 then u64 (rh - a) else rh in
  let rh := if sint 64 a <? 0 then u64 (rh - b) else rh in
  (plow, rh).

(** The loop of [divu128], [n] rounds from the end. *)
Fixpoint div_loop (n : nat) (divisor dhi dlo : Z) : Z * Z :=
  match n with
  | O => (dlo, dhi)
  | S n =>
    let carry := Z.shiftr dhi 63 in
    let dhi := Z.lor (u64 (Z.shiftl dhi 1)) (Z.shiftr dlo 63) in
    let sub := negb (carry =? 0) || (divisor <=? dhi) in
    let dhi := if sub then u64 (dhi - divisor) else dhi in
    let dlo := Z.lor (u64 (Z.shiftl dlo 1)) (if sub then 1 else 0) in
    div_loop n divisor dhi dlo
  end.

(** The return value, [*plow] and [*phigh]. *)
Definition divu128 (plow phigh divisor : Z) : Z * Z * Z :=
  if divisor =? 0 then (1, plow, phigh)
  else if phigh =? 0 then (0, plow / divisor, plow mod divisor)
  else if divisor <? phigh then (1, plow, phigh)
  else let '(dlo, dhi) := div_loop 64 divisor phigh plow in (0, dlo, dhi).

(** On bit patterns of the signed arguments. *)
Definition divs128 (plow phigh divisor : Z) : Z * Z * Z :=
  let sgn_dvdnd := sint 64 phigh <? 0 in
  let sgn_divsr := sint 64 divisor <? 0 in
  let '(plow, phigh) :=
    if sgn_dvdnd then
      let plow := u64 (Z.lnot plow) in
      let phigh := u64 (Z.lnot phigh) in
      if plow =? u64 (-1) then (0, u64 (phigh + 1)) else (u64 (plow + 1), phigh)
    else (plow, phigh) in
  let divisor := if sgn_divsr then u64 (0 - divisor) else divisor in
  let '(overflow, plow, phigh) := divu128 plow phigh divisor in
  let plow := if xorb sgn_dvdnd sgn_divsr then u64 (0 - plow) else plow in
  let overflow :=
    if overflow =? 0 then
      if xorb (sint 64 plow <? 0) (xorb sgn_dvdnd sgn_divsr) then 1 else overflow
    else overflow in
  (overflow, plow, phigh).

(** [*plow] and [*phigh]. *)
Definition urshift (plow phigh shift : Z) : Z * Z :=
  let shift := Z.land shift 127 in
  if shift =? 0 then (plow, phigh) else
  let h := Z.shiftr phigh (Z.land shift 63) in
  if 64 <=? shift then (h, 0)
  else (Z.lor (Z.shiftr plow (Z.land shift 63)) (u64 (Z.shiftl phigh (64 - Z.land shift 63))), h).

(** [*plow], [*phigh] and [*overflow]. *)
Definition ulshift (plow phigh shift : Z) (overflow : bool) : Z * Z * bool :=
  let shift := Z.land shift 127 in
  if shift =? 0 then (plow, phigh, overflow) else
  let '(low, high) := urshift plow phigh (128 - shift) in
  let overflow := if negb (Z.lor low high =? 0) then true else overflow in
  if 64 <=? shift then (0, u64 (Z.shiftl plow (Z.land shift 63)), overflow)
  else (u64 (Z.shiftl plow shift),
        Z.lor (Z.shiftr plow (64 - Z.land shift 63)) (u64 (Z.shiftl phigh (Z.land shift 63))), overflow).

(** ** Lemmas on halves *)

Lemma pow64 : 2 ^ 64 = 2 ^ 32 * 2 ^ 32.
Proof. reflexivity. Qed.

(** The low and the high half of a 64-bit number. *)
Lemma ll_split x : uint 64 x ->
  exists h l, ll_high x = h /\ ll_low x = l /\ x = h * 2 ^ 32 + l /\ 0 <= h < 2 ^ 32 /\ 0 <= l < 2 ^ 32.
Proof.
  intros Hx. unfold uint in Hx. exists (x / 2 ^ 32), (x mod 2 ^ 32). unfold ll_high, ll_low, wrap.
  pose proof (Z.div_mod x (2 ^ 32)). pose proof (Z.mod_pos_bound x (2 ^ 32)).
  assert (0 <= x / 2 ^ 32 < 2 ^ 32) by (split; [apply Z.div_pos; lia|apply Z.div_lt_upper_bound; lia]).
  rewrite Z.shiftr_div_pow2, (Z.mod_small (x / 2 ^ 32)) by lia. split_and!; lia.
Qed.

Lemma mul32_bound x y : 0 <= x < 2 ^ 32 -> 0 <= y < 2 ^ 32 -> 0 <= x * y <= (2 ^ 32 - 1) * (2 ^ 32 - 1).
Proof. intros. split; [lia|]. apply Z.mul_le_mono_nonneg; lia. Qed.

(** The product of two 64-bit numbers, in halves. *)
Lemma mul64_ok a b : uint 64 a -> uint 64 b ->
  exists low high, mul64 a b = (low, high) /\ uint 64 low /\ uint 64 high /\ pair128 low high = a * b.
Proof.
  intros Ha Hb. destruct (ll_split a Ha) as (ah & al & Eah & Eal & -> & Hah & Hal).
  destruct (ll_split b Hb) as (bh & bl & Ebh & Ebl & -> & Hbh & Hbl). unfold mul64.
  rewrite Eah, Eal, Ebh, Ebl. clear Ha Hb Eah Eal Ebh Ebl.
  pose proof (mul32_bound al bl Hal Hbl) as Bl. pose proof (mul32_bound al bh Hal Hbh) as Bm.
  pose proof (mul32_bound ah bl Hah Hbl) as Bn. pose proof (mul32_bound ah bh Hah Hbh) as Bh.
  replace ((ah * 2 ^ 32 + al) * (bh * 2 ^ 32 + bl)) with
    (ah * bh * 2 ^ 64 + (al * bh + ah * bl) * 2 ^ 32 + al * bl) by (rewrite pow64; ring).
  set (rl := al * bl) in *. set (rm := al * bh) in *. set (rn := ah * bl) in *. set (rh := ah * bh) in *.
  clearbody rl rm rn rh. rewrite (wrap_id 64 rl), (wrap_id 64 rm), (wrap_id 64 rn), (wrap_id 64 rh) by (unfold uint; lia).
  destruct (ll_split rl) as (rlh & rll & -> & -> & -> & ? & ?); [unfold uint; lia|].
  destruct (ll_split rm) as (rmh & rml & -> & -> & -> & ? & ?); [unfold uint; lia|].
  destruct (ll_split rn) as (rnh & rnl & -> & -> & -> & ? & ?); [unfold uint; lia|].
  destruct (ll_split rh) as (rhh & rhl & -> & -> & -> & ? & ?); [unfold uint; lia|].
  rewrite !(wrap_id 64 (_ + rnl)) by (unfold uint; lia).
  set (c := rlh + rml + rnl) in *. pose proof (Z.div_mod c (2 ^ 32)) as Dc. pose proof (Z.mod_pos_bound c (2 ^ 32)) as Mc.
  rewrite !Z.shiftr_div_pow2 by lia. unfold wrap at 1 3 4. set (ch := c / 2 ^ 32) in *. set (cl := c mod 2 ^ 32) in *.
  assert (0 <= ch < 4) as Hch by (unfold ch, c; split; [apply Z.div_pos; lia|apply Z.div_lt_upper_bound; lia]).
  set (d := ch + rmh + rnh + rhl) in *. unfold wrap. rewrite !(Z.mod_small d (2 ^ 64)) by lia.
  pose proof (Z.div_mod d (2 ^ 32)) as Dd. pose proof (Z.mod_pos_bound d (2 ^ 32)) as Md.
  set (dh := d / 2 ^ 32) in *. set (dl := d mod 2 ^ 32) in *.
  assert (0 <= dh < 4) as Hdh by (unfold dh, d; split; [apply Z.div_pos; lia|apply Z.div_lt_upper_bound; lia]).
  assert (0 <= rhh + dh < 2 ^ 32) as Hrh by lia.
  rewrite (Z.mod_small dh), (Z.mod_small (rhh + dh)) by lia.
  eexists _, _. split; [reflexivity|]. unfold mk_ll, pair128, uint. lia.
Qed.

Lemma pair_mod x low : 0 <= low < 2 ^ 64 -> (x * 2 ^ 64 + low) mod 2 ^ 128 = pair128 low (u64 x).
Proof.
  intros Hl. unfold pair128, wrap. pose proof (Z.div_mod x (2 ^ 64)) as D. pose proof (Z.mod_pos_bound x (2 ^ 64)) as M.
  symmetry. apply (Z.mod_unique _ _ (x / 2 ^ 64)); [left|]; change (2 ^ 128) with (2 ^ 64 * 2 ^ 64); lia.
Qed.

Lemma sint_pattern x : uint 64 x -> sint 64 x = x - (if sint 64 x <? 0 then 2 ^ 64 else 0).
Proof.
  intros Hx. unfold sint. rewrite wrap_id by done. unfold uint in Hx. change (2 ^ (64 - 1)) with (2 ^ 63).
  destruct (x <? 2 ^ 63) eqn:E1; bool_to_prop.
  - rewrite (proj2 (Z.ltb_ge x 0)) by lia. lia.
  - rewrite (proj2 (Z.ltb_lt (x - 2 ^ 64) 0)) by lia. lia.
Qed.

Lemma muls64_ok a b : uint 64 a -> uint 64 b ->
  exists low high, muls64 a b = (low, high) /\ uint 64 low /\ uint 64 high /\
    pair128 low high = (sint 64 a * sint 64 b) mod 2 ^ 128.
Proof.
  intros Ha Hb. destruct (mul64_ok a b Ha Hb) as (low & high & E & Hl & Hh & Eab). unfold muls64. rewrite E.
  pose proof (sint_pattern a Ha) as Sa. pose proof (sint_pattern b Hb) as Sb. unfold pair128 in Eab.
  set (da := if sint 64 a <? 0 then 1 else 0). set (db := if sint 64 b <? 0 then 1 else 0).
  assert (sint 64 a = a - da * 2 ^ 64) as Sa' by (unfold da; destruct (sint 64 a <? 0); lia).
  assert (sint 64 b = b - db * 2 ^ 64) as Sb' by (unfold db; destruct (sint 64 b <? 0); lia).
  exists low, (u64 (high - db * a - da * b)). split; [|split; [done|split; [apply wrap_range; lia|]]].
  - f_equal. unfold da, db. destruct (sint 64 b <? 0), (sint 64 a <? 0); rewrite ?wrap_sub_l; [f_equal; lia..|].
    symmetry. rewrite !Z.mul_0_l, !Z.sub_0_r. by apply wrap_id.
  - rewrite <- pair_mod by exact Hl. rewrite Sa', Sb'.
    replace ((a - da * 2 ^ 64) * (b - db * 2 ^ 64)) with
      ((high - db * a - da * b) * 2 ^ 64 + low + da * db * 2 ^ 128).
    + by rewrite Z.mod_add.
    + change (2 ^ 128) with (2 ^ 64 * 2 ^ 64). replace low with (a * b - high * 2 ^ 64) by lia. ring.
Qed.

(** One round of the division: the next bit of the dividend is taken in and
    the divisor subtracted if it fits. *)
Lemma div_round D dhi dlo :
  0 < D < 2 ^ 64 -> 0 <= dhi < D -> uint 64 dlo ->
  let t := 2 * dhi + dlo / 2 ^ 63 in
  let dhi1 := Z.lor (u64 (Z.shiftl dhi 1)) (Z.shiftr dlo 63) in
  let sub := negb (Z.shiftr dhi 63 =? 0) || (D <=? dhi1) in
  sub = (D <=? t) /\ (if sub then u64 (dhi1 - D) else dhi1) = t - (if D <=? t then D else 0).
Proof.
  intros HD Hd Hl. unfold uint in Hl. cbn zeta. rewrite !Z.shiftr_div_pow2, Z.shiftl_mul_pow2 by lia.
  change (2 ^ 1) with 2. set (b := dlo / 2 ^ 63).
  assert (0 <= b < 2) as Hb by (unfold b; split; [apply Z.div_pos; lia|apply Z.div_lt_upper_bound; lia]).
  set (c := dhi / 2 ^ 63). pose proof (Z.div_mod dhi (2 ^ 63)) as Dc. pose proof (Z.mod_pos_bound dhi (2 ^ 63)) as Mc.
  fold c in Dc. assert (0 <= c < 2) as Hc by (unfold c; split; [apply Z.div_pos; lia|apply Z.div_lt_upper_bound; lia]).
  assert (u64 (dhi * 2) = 2 * (dhi mod 2 ^ 63)) as Eu.
  { unfold wrap. symmetry. apply (Z.mod_unique _ _ c); [left|]; lia. }
  assert (Z.lor (2 * (dhi mod 2 ^ 63)) b = 2 * (dhi mod 2 ^ 63) + b) as El.
  { apply (lor_low 1); [lia| |change (2 ^ 1) with 2; lia]. rewrite Z.mul_comm. by apply Z.mod_mul. }
  rewrite Eu, El. set (r := dhi mod 2 ^ 63) in *. clearbody r b c.
  assert (c = 0 \/ c = 1) as [-> | ->] by lia.
  - cbn [Z.eqb negb orb]. replace (2 * dhi + b) with (2 * r + b) by lia. split; [done|].
    destruct (D <=? 2 * r + b) eqn:E1; bool_to_prop; [|lia]. apply wrap_id. unfold uint. lia.
  - cbn [Z.eqb negb orb]. rewrite (proj2 (Z.leb_le D (2 * dhi + b))) by lia. split; [done|].
    unfold wrap. symmetry. apply (Z.mod_unique _ _ (-1)); [left|]; lia.
Qed.

(** [n] rounds of long division: the top [n] bits of [dlo] are taken in, and as
    many bits of the quotient put in at its low end. *)
Lemma div_loop_ok n D dhi dlo :
  0 < D < 2 ^ 64 -> 0 <= dhi < D -> uint 64 dlo -> (n <= 64)%nat ->
  let k := Z.of_nat n in
  let N := dhi * 2 ^ k + dlo / 2 ^ (64 - k) in
  div_loop n D dhi dlo = (dlo mod 2 ^ (64 - k) * 2 ^ k + N / D, N mod D).
Proof.
  intros HD. revert dhi dlo. induction n as [|n IH]; intros dhi dlo Hd Hl Hn; cbn zeta.
  { unfold uint in Hl. cbn [div_loop]. change (Z.of_nat 0) with 0. rewrite Z.sub_0_r, Z.pow_0_r, !Z.mul_1_r.
    rewrite (Z.mod_small dlo), (Z.div_small dlo), Z.add_0_r, (Z.div_small dhi), (Z.mod_small dhi) by lia. f_equal. lia. }
  destruct (div_round D dhi dlo HD Hd Hl) as [Es Ed]. cbn [div_loop]. cbn zeta in Es, Ed. rewrite Ed, Es. clear Es Ed.
  unfold uint in Hl. set (b := dlo / 2 ^ 63). set (M := dlo mod 2 ^ 63).
  pose proof (Z.div_mod dlo (2 ^ 63) ltac:(lia)) as D1. pose proof (Z.mod_pos_bound dlo (2 ^ 63) ltac:(lia)) as HM.
  fold b M in D1. fold M in HM.
  assert (0 <= b < 2) as Hb by (unfold b; split; [apply Z.div_pos; lia|apply Z.div_lt_upper_bound; lia]).
  set (t := 2 * dhi + b). set (q := if D <=? t then 1 else 0).
  assert (t - (if D <=? t then D else 0) = t - q * D) as -> by (unfold q; destruct (D <=? t); lia).
  assert (0 <= q < 2) as Hq by (unfold q; destruct (D <=? t); lia).
  assert (0 <= t - q * D < D) as Ht by (unfold q; destruct (D <=? t) eqn:E1; bool_to_prop; lia).
  assert (Z.lor (u64 (Z.shiftl dlo 1)) q = 2 * M + q) as ->.
  { rewrite Z.shiftl_mul_pow2 by lia. replace (u64 (dlo * 2 ^ 1)) with (2 * M).
    - apply (lor_low 1); [lia| |change (2 ^ 1) with 2; lia]. rewrite Z.mul_comm. by apply Z.mod_mul.
    - unfold wrap. apply (Z.mod_unique _ _ b); [left|]; lia. }
  rewrite IH by (unfold uint; lia). cbn zeta. set (k := Z.of_nat n).
  replace (Z.of_nat (S n)) with (k + 1) by lia. replace (64 - (k + 1)) with (63 - k) by lia.
  pose proof (Z.pow_pos_nonneg 2 (63 - k) ltac:(lia) ltac:(lia)) as Pk. pose proof (Z.pow_pos_nonneg 2 k ltac:(lia) ltac:(lia)) as P0.
  assert (2 ^ (64 - k) = 2 * 2 ^ (63 - k)) as E64 by (rewrite <- Z.pow_succ_r by lia; f_equal; lia).
  assert (2 ^ 63 = 2 ^ k * 2 ^ (63 - k)) as E63 by (rewrite <- Z.pow_add_r by lia; f_equal; lia).
  set (W := 2 ^ (63 - k)) in *. pose proof (Z.div_mod M W ltac:(lia)) as DM. pose proof (Z.mod_pos_bound M W ltac:(lia)) as MM.
  set (X := M / W) in *. set (Y := M mod W) in *. rewrite E64.
  assert ((2 * M + q) / (2 * W) = X) as -> by (symmetry; apply (Z.div_unique _ _ _ (2 * Y + q)); [left|]; lia).
  assert ((2 * M + q) mod (2 * W) = 2 * Y + q) as -> by (symmetry; apply (Z.mod_unique _ _ X); [left|]; lia).
  assert (dlo / W = b * 2 ^ k + X) as -> by (symmetry; apply (Z.div_unique _ _ _ Y); [left; lia|rewrite D1, E63; lia]).
  assert (dlo mod W = Y) as -> by (symmetry; apply (Z.mod_unique _ _ (b * 2 ^ k + X)); [left; lia|rewrite D1, E63; lia]).
  replace (dhi * 2 ^ (k + 1) + (b * 2 ^ k + X)) with ((t - q * D) * 2 ^ k + X + q * 2 ^ k * D)
    by (unfold t; rewrite Z.pow_add_r by lia; lia).
  rewrite Z.div_add, Z.mod_add by lia. f_equal. rewrite Z.pow_add_r by lia. lia.
Qed.

Lemma divu128_ok plow phigh divisor :
  uint 64 plow -> uint 64 phigh -> uint 64 divisor -> phigh < divisor ->
  let n := pair128 plow phigh in divu128 plow phigh divisor = (0, n / divisor, n mod divisor).
Proof.
  intros Hl Hh HD Hlt. unfold uint in HD, Hh. cbn zeta. unfold divu128, pair128.
  rewrite (proj2 (Z.eqb_neq divisor 0)), (proj2 (Z.ltb_ge divisor phigh)) by lia.
  destruct (phigh =? 0) eqn:E0; bool_to_prop; [by subst|].
  rewrite (div_loop_ok 64 divisor phigh plow) by (done || lia). cbn zeta.
  change (Z.of_nat 64) with 64. change (2 ^ (64 - 64)) with 1. by rewrite Z.mod_1_r, Z.div_1_r.
Qed.

(** The value of a signed 128-bit number. *)
Definition spair128 (low high : Z) : Z := sint 64 high * 2 ^ 64 + low.

(** The complement plus one that [divs128] takes of a negative dividend. *)
Lemma negate128 plow phigh :
  uint 64 plow -> uint 64 phigh -> sint 64 phigh < 0 ->
  let lo := u64 (Z.lnot plow) in
  let hi := u64 (Z.lnot phigh) in
  let r := if lo =? u64 (-1) then (0, u64 (hi + 1)) else (u64 (lo + 1), hi) in
  uint 64 r.1 /\ uint 64 r.2 /\ pair128 r.1 r.2 = - spair128 plow phigh.
Proof.
  intros Hl Hh Hs. pose proof (sint_pattern phigh Hh) as Sp. rewrite (proj2 (Z.ltb_lt _ _) Hs) in Sp.
  assert (2 ^ 63 <= phigh) as Hp.
  { unfold sint in Hs. rewrite wrap_id in Hs by done. change (2 ^ (64 - 1)) with (2 ^ 63) in Hs.
    unfold uint in Hh. destruct (phigh <? 2 ^ 63) eqn:E1; bool_to_prop; lia. }
  assert (forall x, uint 64 x -> u64 (Z.lnot x) = 2 ^ 64 - 1 - x) as Hn.
  { intros x Hx. unfold uint in Hx. unfold wrap, Z.lnot. symmetry. apply (Z.mod_unique _ _ (-1)); [left|]; lia. }
  unfold spair128, pair128. rewrite Sp. cbn zeta. rewrite !Hn by done. change (u64 (-1)) with (2 ^ 64 - 1).
  unfold uint in *. destruct (2 ^ 64 - 1 - plow =? 2 ^ 64 - 1) eqn:E1; bool_to_prop; cbn [fst snd];
    rewrite wrap_id by (unfold uint; lia); lia.
Qed.

Lemma sint_id x : - 2 ^ 63 <= x < 2 ^ 63 -> sint 64 (u64 x) = x.
Proof.
  intros Hx. unfold sint. rewrite wrap_wrap by lia. change (2 ^ (64 - 1)) with (2 ^ 63). unfold wrap.
  destruct (Z_lt_le_dec x 0).
  - replace (x mod 2 ^ 64) with (x + 2 ^ 64) by (apply (Z.mod_unique _ _ (-1)); [left|]; lia).
    rewrite (proj2 (Z.ltb_ge _ _)) by lia. lia.
  - rewrite Z.mod_small, (proj2 (Z.ltb_lt _ _)) by lia. done.
Qed.

Lemma quot_sign n d : d <> 0 -> if xorb (n <? 0) (d <? 0) then Z.quot n d <= 0 else 0 <= Z.quot n d.
Proof.
  intros Hd. pose proof (Z.quot_opp_opp n d Hd). pose proof (Z.quot_opp_l n d Hd). pose proof (Z.quot_opp_r n d Hd).
  destruct (Z.ltb_spec n 0), (Z.ltb_spec d 0); cbn [xorb].
  - pose proof (Z.quot_pos (- n) (- d)). lia.
  - pose proof (Z.quot_pos (- n) d). lia.
  - pose proof (Z.quot_pos n (- d)). lia.
  - apply Z.quot_pos; lia.
Qed.

Lemma divs128_ok plow phigh divisor :
  uint 64 plow -> uint 64 phigh -> uint 64 divisor ->
  let n := spair128 plow phigh in
  let d := sint 64 divisor in
  d <> 0 -> - 2 ^ 63 <= Z.quot n d < 2 ^ 63 -> (Z.quot n d = 0 -> (n <? 0) = (d <? 0)) ->
  divs128 plow phigh divisor = (0, u64 (Z.quot n d), Z.abs n mod Z.abs d).
Proof.
  intros Hl Hh HD. cbn zeta. set (n := spair128 plow phigh). set (d := sint 64 divisor). intros Hd0 Hq Hz.
  assert ((sint 64 phigh <? 0) = (n <? 0)) as Esn.
  { unfold n, spair128. unfold uint in Hl. destruct (sint 64 phigh <? 0) eqn:E1; bool_to_prop; symmetry.
    - apply Z.ltb_lt. lia. - apply Z.ltb_ge. lia. }
  assert (exists lo hi, (if n <? 0 then
      let plow := u64 (Z.lnot plow) in let phigh := u64 (Z.lnot phigh) in
      if plow =? u64 (-1) then (0, u64 (phigh + 1)) else (u64 (plow + 1), phigh)
    else (plow, phigh)) = (lo, hi) /\ uint 64 lo /\ uint 64 hi /\ pair128 lo hi = Z.abs n) as (lo & hi & Ep & Hlo & Hhi & En).
  { destruct (n <? 0) eqn:E1; bool_to_prop.
    - pose proof (negate128 plow phigh Hl Hh) as Hneg. cbn zeta in Hneg |- *.
      destruct Hneg as (H1 & H2 & H3); [done|].
      eexists _, _. split; [apply surjective_pairing|]. split; [done|]. split; [done|]. rewrite H3. fold n. lia.
    - exists plow, phigh. split; [done|]. split; [done|]. split; [done|]. rewrite Z.abs_eq by lia.
      unfold n, spair128, pair128. assert (sint 64 phigh = phigh) as ->; [|done].
      rewrite sint_pattern, (proj2 (Z.ltb_ge _ 0)) by done. lia. }
  assert ((if d <? 0 then u64 (0 - divisor) else divisor) = Z.abs d /\ uint 64 (Z.abs d)) as [Edv Hdv].
  { pose proof (sint_pattern divisor HD) as Sd. pose proof (sint_range 64 divisor ltac:(lia)) as Hrange. unfold uint in *. change (sint 64 divisor) with d in Sd, Hrange.
    clearbody d. destruct (Z.ltb_spec d 0) as [E1|E1]; [|rewrite Z.abs_eq by lia; lia].
    rewrite Z.abs_neq by lia. split; [|lia]. unfold wrap. symmetry. apply (Z.mod_unique _ _ (-1)); [left|]; lia. }
  assert (Z.abs (Z.quot n d) = Z.abs n / Z.abs d) as Eq.
  { rewrite <- Z.quot_abs by done. apply Z.quot_div_nonneg; lia. }
  assert (hi < Z.abs d) as Hlt.
  { apply (Z.mul_lt_mono_pos_r (2 ^ 64)); [lia|]. pose proof (Z.div_mod (Z.abs n) (Z.abs d) ltac:(lia)) as Dn.
    pose proof (Z.mod_pos_bound (Z.abs n) (Z.abs d) ltac:(lia)). unfold pair128, uint in *. nia. }
  unfold divs128. cbn zeta in Ep |- *. rewrite Esn, Ep. change (sint 64 divisor) with d. rewrite Edv.
  rewrite (divu128_ok lo hi (Z.abs d) Hlo Hhi Hdv Hlt), En. cbn zeta. cbn [Z.eqb]. rewrite <- Eq.
  pose proof (quot_sign n d Hd0) as Hsg. pose proof (wrap_id 64 (Z.quot n d)) as Hid. unfold uint in Hid.
  destruct (xorb (n <? 0) (d <? 0)) eqn:Ex.
  - rewrite Z.abs_neq, Z.sub_opp_r, Z.add_0_l, sint_id by lia.
    rewrite (proj2 (Z.ltb_lt _ _)); [done|]. destruct (decide (Z.quot n d = 0)) as [E0|]; [|lia].
    rewrite (Hz E0), xorb_nilpotent in Ex. done.
  - rewrite Z.abs_eq by lia. rewrite <- (Hid ltac:(lia)) at 1. rewrite sint_id, (proj2 (Z.ltb_ge _ _)) by lia.
    cbn [xorb]. by rewrite <- (Hid ltac:(lia)) at 1.
Qed.

(** ** Shifts *)

Lemma land_low_bits x k : 0 <= k -> Z.land x (2 ^ k - 1) = x mod 2 ^ k.
Proof. intros Hk. rewrite <- Z.land_ones by done. f_equal. rewrite Z.ones_equiv. lia. Qed.

Lemma urshift_ok plow phigh shift :
  uint 64 plow -> uint 64 phigh ->
  let '(low, high) := urshift plow phigh shift in
  uint 64 low /\ uint 64 high /\ pair128 low high = pair128 plow phigh / 2 ^ (shift mod 128).
Proof.
  intros Hl Hh. unfold urshift. change (Z.land shift 127) with (Z.land shift (2 ^ 7 - 1)). rewrite land_low_bits by lia.
  change (2 ^ 7) with 128. pose proof (Z.mod_pos_bound shift 128 ltac:(lia)) as Hs. set (s := shift mod 128) in *. clearbody s.
  destruct (Z.eqb_spec s 0) as [-> |H0]; [by rewrite Z.pow_0_r, Z.div_1_r|].
  change (Z.land s 63) with (Z.land s (2 ^ 6 - 1)). rewrite land_low_bits, !Z.shiftr_div_pow2 by
    (try apply Z.mod_pos_bound; lia). change (2 ^ 6) with 64. unfold pair128, uint in *.
  destruct (Z.leb_spec 64 s) as [H64|H64].
  - assert (s mod 64 = s - 64) as -> by (symmetry; apply (Z.mod_unique _ _ 1); [left|]; lia).
    pose proof (Z.pow_pos_nonneg 2 (s - 64) ltac:(lia) ltac:(lia)).
    assert (0 <= phigh / 2 ^ (s - 64) <= phigh) by (split; [apply Z.div_pos; lia|apply Z.div_le_upper_bound; nia]).
    split; [lia|]. split; [lia|]. replace (2 ^ s) with (2 ^ 64 * 2 ^ (s - 64)) by (rewrite <- Z.pow_add_r by lia; f_equal; lia).
    rewrite <- Z.div_div, (Z.add_comm (phigh * _)), Z.div_add, (Z.div_small plow), !Z.add_0_l by lia. done.
  - rewrite (Z.mod_small s) by lia. rewrite Z.shiftl_mul_pow2 by lia.
    pose proof (Z.pow_pos_nonneg 2 s ltac:(lia) ltac:(lia)) as Ps. pose proof (Z.pow_pos_nonneg 2 (64 - s) ltac:(lia) ltac:(lia)) as Pc.
    assert (2 ^ 64 = 2 ^ s * 2 ^ (64 - s)) as E64 by (rewrite <- Z.pow_add_r by lia; f_equal; lia).
    pose proof (Z.div_mod phigh (2 ^ s) ltac:(lia)) as Dh. pose proof (Z.mod_pos_bound phigh (2 ^ s) ltac:(lia)) as Mh.
    set (hd := phigh / 2 ^ s) in *. set (hm := phigh mod 2 ^ s) in *.
    assert (u64 (phigh * 2 ^ (64 - s)) = hm * 2 ^ (64 - s)) as ->.
    { unfold wrap. rewrite E64. rewrite Z.mul_mod_distr_r by lia. done. }
    assert (0 <= plow / 2 ^ s < 2 ^ (64 - s)) as Hld by (split; [apply Z.div_pos; lia|apply Z.div_lt_upper_bound; lia]).
    assert (Z.lor (plow / 2 ^ s) (hm * 2 ^ (64 - s)) = hm * 2 ^ (64 - s) + plow / 2 ^ s) as ->.
    { rewrite Z.lor_comm. apply (lor_low (64 - s)); [lia|apply Z.mod_mul; lia|done]. }
    assert (0 <= hd) by (apply Z.div_pos; lia). split; [nia|]. split; [nia|].
    replace (phigh * 2 ^ 64 + plow) with (plow + (hd * 2 ^ 64 + hm * 2 ^ (64 - s)) * 2 ^ s) by (rewrite Dh, E64; ring).
    rewrite Z.div_add by lia. lia.
Qed.

Lemma shl_wrap x s : 0 <= s <= 64 -> u64 (Z.shiftl x s) = x mod 2 ^ (64 - s) * 2 ^ s.
Proof.
  intros Hs. rewrite Z.shiftl_mul_pow2 by lia. unfold wrap.
  replace (2 ^ 64) with (2 ^ (64 - s) * 2 ^ s) by (rewrite <- Z.pow_add_r by lia; f_equal; lia).
  apply Z.mul_mod_distr_r; apply Z.pow_nonzero; lia.
Qed.

Lemma ulshift_halves plow phigh s :
  uint 64 plow -> uint 64 phigh -> 0 < s < 64 ->
  let high := Z.lor (Z.shiftr plow (64 - s)) (u64 (Z.shiftl phigh s)) in
  uint 64 high /\ pair128 (u64 (Z.shiftl plow s)) high = (pair128 plow phigh * 2 ^ s) mod 2 ^ 128.
Proof.
  intros Hl Hh Hs. cbn zeta. pose proof (wrap_range 64 (Z.shiftl plow s) ltac:(lia)) as Hlow.
  rewrite !shl_wrap in * by lia. rewrite Z.shiftr_div_pow2 by lia. unfold uint in *.
  pose proof (Z.pow_pos_nonneg 2 s ltac:(lia) ltac:(lia)) as Ps.
  pose proof (Z.pow_pos_nonneg 2 (64 - s) ltac:(lia) ltac:(lia)) as Pc.
  assert (2 ^ 64 = 2 ^ (64 - s) * 2 ^ s) as E64 by (rewrite <- Z.pow_add_r by lia; f_equal; lia).
  set (C := 2 ^ (64 - s)) in *. pose proof (Z.div_mod plow C ltac:(lia)) as Dl. pose proof (Z.mod_pos_bound plow C ltac:(lia)) as Ml.
  pose proof (Z.mod_pos_bound phigh C ltac:(lia)) as Mh.
  assert (0 <= plow / C < 2 ^ s) as Hd by (split; [apply Z.div_pos; lia|apply Z.div_lt_upper_bound; lia]).
  assert (Z.lor (plow / C) (phigh mod C * 2 ^ s) = phigh mod C * 2 ^ s + plow / C) as ->.
  { rewrite Z.lor_comm. apply (lor_low s); [lia|apply Z.mod_mul; lia|done]. }
  assert (phigh mod C * 2 ^ s + plow / C = u64 (phigh * 2 ^ s + plow / C)) as Ex.
  { unfold wrap. rewrite E64. apply (Z.mod_unique _ _ (phigh / C)); [left; nia|].
    pose proof (Z.div_mod phigh C ltac:(lia)) as Dh. rewrite Dh at 1. ring. }
  split; [rewrite Ex; apply wrap_range; lia|]. rewrite Ex, <- pair_mod by exact Hlow. f_equal. unfold pair128.
  replace (plow mod C) with (plow - C * (plow / C)) by lia. rewrite E64. ring.
Qed.

Lemma ulshift_ok plow phigh shift overflow :
  uint 64 plow -> uint 64 phigh ->
  let n := pair128 plow phigh * 2 ^ (shift mod 128) in
  let '(low, high, over) := ulshift plow phigh shift overflow in
  uint 64 low /\ uint 64 high /\ pair128 low high = n mod 2 ^ 128 /\ over = overflow || (2 ^ 128 <=? n).
Proof.
  intros Hl Hh. cbn zeta. unfold ulshift. change (Z.land shift 127) with (Z.land shift (2 ^ 7 - 1)).
  rewrite land_low_bits by lia. change (2 ^ 7) with 128. pose proof (Z.mod_pos_bound shift 128 ltac:(lia)) as Hs.
  set (s := shift mod 128) in *. clearbody s. assert (0 <= pair128 plow phigh < 2 ^ 128) as Hp.
  { unfold pair128, uint in *. change (2 ^ 128) with (2 ^ 64 * 2 ^ 64). lia. }
  destruct (Z.eqb_spec s 0) as [-> |H0].
  { rewrite Z.pow_0_r, Z.mul_1_r, Z.mod_small, (proj2 (Z.leb_gt _ _)), orb_false_r by lia. done. }
  pose proof (urshift_ok plow phigh (128 - s) Hl Hh) as Hu. rewrite (Z.mod_small (128 - s)) in Hu by lia.
  destruct (urshift plow phigh (128 - s)) as [lo hi]. destruct Hu as (Hlo & Hhi & Eu).
  set (n := pair128 plow phigh * 2 ^ s). pose proof (Z.pow_pos_nonneg 2 s ltac:(lia) ltac:(lia)) as Ps.
  assert ((if negb (Z.lor lo hi =? 0) then true else overflow) = overflow || (2 ^ 128 <=? n)) as ->.
  { replace (2 ^ 128 <=? n) with (negb (Z.lor lo hi =? 0)); [destruct (Z.lor lo hi =? 0); cbn; by rewrite ?orb_false_r, ?orb_true_r|].
    pose proof (Z.pow_pos_nonneg 2 (128 - s) ltac:(lia) ltac:(lia)) as Pc.
    assert (2 ^ 128 = 2 ^ (128 - s) * 2 ^ s) as E128 by (rewrite <- Z.pow_add_r by lia; f_equal; lia).
    rewrite E128. unfold n. destruct (Z.eqb_spec (Z.lor lo hi) 0) as [Ez|Ez]; cbn [negb]; symmetry.
    - apply Z.lor_eq_0_iff in Ez as [-> ->]. apply Z.leb_gt, Z.mul_lt_mono_pos_r; [lia|].
      apply Z.div_small_iff in Eu || (symmetry in Eu; apply Z.div_small_iff in Eu); lia.
    - apply Z.leb_le, Z.mul_le_mono_nonneg_r; [lia|]. apply Z.nlt_ge. intros Hlt. apply Ez.
      rewrite Z.div_small in Eu by lia. unfold pair128, uint in *. assert (hi = 0 /\ lo = 0) as [-> ->] by lia. done. }
  change (Z.land s 63) with (Z.land s (2 ^ 6 - 1)). rewrite land_low_bits by lia. change (2 ^ 6) with 64.
  destruct (Z.leb_spec 64 s) as [H64|H64].
  - assert (s mod 64 = s - 64) as -> by (symmetry; apply (Z.mod_unique _ _ 1); [left|]; lia).
    split; [by split|]. split; [apply wrap_range; lia|]. split; [|done].
    replace n with (plow * 2 ^ (s - 64) * 2 ^ 64 + 0 + phigh * 2 ^ (s - 64) * 2 ^ 128).
    + rewrite Z.mod_add, pair_mod, Z.shiftl_mul_pow2 by lia. done.
    + unfold n, pair128. replace (2 ^ s) with (2 ^ (s - 64) * 2 ^ 64) by (rewrite <- Z.pow_add_r by lia; f_equal; lia).
      change (2 ^ 128) with (2 ^ 64 * 2 ^ 64). ring.
  - rewrite (Z.mod_small s 64) by lia. destruct (ulshift_halves plow phigh s Hl Hh ltac:(lia)) as [H1 H2].
    split; [apply wrap_range; lia|]. done.
Qed.

(** ** Claims *)

(** The portable multiplications give the full 128-bit product of their
    arguments, unsigned and signed. *)
Theorem mul128_correct a b :
  uint 64 a -> uint 64 b ->
  (exists low high, mulu64 a b = (low, high) /\ uint 64 low /\ uint 64 high /\ pair128 low high = a * b) /\
  (exists low high, muls64 a b = (low, high) /\ uint 64 low /\ uint 64 high /\
     pair128 low high = (sint 64 a * sint 64 b) mod 2 ^ 128).
Proof. intros Ha Hb. split; [by apply mul64_ok|by apply muls64_ok]. Qed.

(** The portable division of a 128-bit by a 64-bit number: when the high
    half is below the divisor, quotient and remainder are exact; a zero divisor
    and a larger high half are reported and change nothing.  The signed
    division gives the truncated quotient whenever it fits, except for a
    quotient of 0 with operands of different signs. *)
Theorem div128_correct plow phigh divisor :
  uint 64 plow -> uint 64 phigh -> uint 64 divisor ->
  (phigh < divisor ->
   divu128 plow phigh divisor = (0, pair128 plow phigh / divisor, pair128 plow phigh mod divisor)) /\
  (divisor = 0 \/ divisor < phigh -> divu128 plow phigh divisor = (1, plow, phigh)) /\
  let n := spair128 plow phigh in
  let d := sint 64 divisor in
  (d <> 0 -> - 2 ^ 63 <= Z.quot n d < 2 ^ 63 -> (Z.quot n d = 0 -> (n <? 0) = (d <? 0)) ->
   divs128 plow phigh divisor = (0, u64 (Z.quot n d), Z.abs n mod Z.abs d)).
Proof.
  intros Hl Hh HD. split; [intros Hlt; by apply divu128_ok|]. split; [|cbn zeta; intros; by apply divs128_ok].
  intros Hov. unfold divu128, uint in *. destruct (Z.eqb_spec divisor 0) as [|Hd]; [done|].
  destruct Hov as [|Hov]; [done|]. rewrite (proj2 (Z.eqb_neq phigh 0)), (proj2 (Z.ltb_lt _ _) Hov) by lia. done.
Qed.

(** The 128-bit shifts are division and multiplication by a power of two
    for every shift count taken modulo 128, and the left shift reports exactly
    the loss of a set bit. *)
Theorem shift128_correct plow phigh shift overflow :
  uint 64 plow -> uint 64 phigh ->
  (let '(low, high) := urshift plow phigh shift in
   uint 64 low /\ uint 64 high /\ pair128 low high = pair128 plow phigh / 2 ^ (shift mod 128)) /\
  (let n := pair128 plow phigh * 2 ^ (shift mod 128) in
   let '(low, high, over) := ulshift plow phigh shift overflow in
   uint 64 low /\ uint 64 high /\ pair128 low high = n mod 2 ^ 128 /\ over = overflow || (2 ^ 128 <=? n)).
Proof. intros Hl Hh. split; [by apply urshift_ok|by apply ulshift_ok]. Qed.

Lemma mul128_correct_witness :
  exists low high, muls64 (2 ^ 64 - 3) 5 = (low, high) /\ pair128 low high = 2 ^ 128 - 15.
Proof.
  assert (uint 64 (2 ^ 64 - 3) /\ uint 64 5) as [H1 H2] by (unfold uint; lia).
  destruct (mul128_correct (2 ^ 64 - 3) 5 H1 H2) as [_ (low & high & E & _ & _ & Ep)].
  exists low, high. split; [exact E|]. rewrite Ep. reflexivity.
Defined.

Lemma div128_correct_witness : divu128 7 3 10 = (0, pair128 7 3 / 10, pair128 7 3 mod 10).
Proof.
  assert (uint 64 7 /\ uint 64 3 /\ uint 64 10) as (H1 & H2 & H3) by (unfold uint; lia).
  exact (proj1 (div128_correct 7 3 10 H1 H2 H3) ltac:(lia)).
Defined.

Lemma shift128_correct_witness :
  let '(low, high) := urshift 7 3 1 in pair128 low high = pair128 7 3 / 2.
Proof.
  assert (uint 64 7 /\ uint 64 3) as [H1 H2] by (unfold uint; lia).
  destruct (shift128_correct 7 3 1 false H1 H2) as [H _]. destruct (urshift 7 3 1) as [low high]. exact (proj2 (proj2 H)).
Defined.

(** The comment of [divu128] promises the result 1 when the quotient does not
    fit in 64 bits; a high half equal to the divisor is not reported.  [divs128]
    reports an overflow for the quotient 0 of -1 and 2. *)
Example div128_overflow_tests :
  divu128 0 5 5 = (0, 2 ^ 64 - 1, 5) /\ pair128 0 5 / 5 = 2 ^ 64 /\
  divs128 (2 ^ 64 - 1) (2 ^ 64 - 1) 2 = (1, 0, 1) /\ Z.quot (-1) 2 = 0.
Proof. vm_compute. done. Qed.
