(* ===== verification/TcgOps.v ===== *)
(** * The intermediate language of the code generator ([qemu/tcg])

    Opcodes and their definitions ([tcg-opc.h]), temporaries, and operations
    ([tcg.h]) on a 64-bit host, and what the operations mean: the instruction
    reference in [tcg/README], as a function on the values of the temporaries.

    An operation is run on a state of temporaries, a memory that only the
    environment looks into, and the memory barriers issued since guest memory
    was last accessed.  What the reference calls undefined or unspecified has
    no result. *)

From S2P Require Import Prelude HostUtils.

(** ** Opcodes *)

(** The suffixes [_i32], [_i64] and [_vec]. *)
Inductive width := W32 | W64.
Inductive op_type := Int (w : width) | Vec.

#[global] Instance width_eq_dec : EqDecision width.
Proof. solve_decision. Defined.
#[global] Instance op_type_eq_dec : EqDecision op_type.
Proof. solve_decision. Defined.

(** Vector operations that no pass over the operations interprets. *)
Inductive vec_opcode :=
| dup2_vec | ld_vec | st_vec | dupm_vec | abs_vec | ssadd_vec | usadd_vec | sssub_vec | ussub_vec
| smin_vec | umin_vec | smax_vec | umax_vec | shli_vec | shri_vec | sari_vec | shls_vec | shrs_vec | sars_vec
| shlv_vec | shrv_vec | sarv_vec | cmp_vec | bitsel_vec | cmpsel_vec.

Inductive TCGOpcode :=
| op_discard | op_set_label | op_call | op_br | op_mb
| op_mov (t : op_type) | op_movi (w : width) | op_dupi_vec | op_dup_vec
| op_setcond (w : width) | op_movcond (w : width) | op_brcond (w : width)
| op_brcond2_i32 | op_setcond2_i32
| op_ld8u (w : width) | op_ld8s (w : width) | op_ld16u (w : width) | op_ld16s (w : width)
| op_ld32u_i64 | op_ld32s_i64 | op_ld (w : width)
| op_st8 (w : width) | op_st16 (w : width) | op_st32_i64 | op_st (w : width)
| op_add (t : op_type) | op_sub (t : op_type) | op_mul (t : op_type)
| op_div (w : width) | op_divu (w : width) | op_rem (w : width) | op_remu (w : width)
| op_div2 (w : width) | op_divu2 (w : width)
| op_and (t : op_type) | op_or (t : op_type) | op_xor (t : op_type)
| op_shl (w : width) | op_shr (w : width) | op_sar (w : width) | op_rotl (w : width) | op_rotr (w : width)
| op_deposit (w : width) | op_extract (w : width) | op_sextract (w : width) | op_extract2 (w : width)
| op_add2 (w : width) | op_sub2 (w : width) | op_mulu2 (w : width) | op_muls2 (w : width)
| op_muluh (w : width) | op_mulsh (w : width)
| op_ext8s (w : width) | op_ext8u (w : width) | op_ext16s (w : width) | op_ext16u (w : width)
| op_ext32s_i64 | op_ext32u_i64 | op_ext_i32_i64 | op_extu_i32_i64 | op_extrl_i64_i32 | op_extrh_i64_i32
| op_bswap16 (w : width) | op_bswap32 (w : width) | op_bswap64_i64
| op_not (t : op_type) | op_neg (t : op_type) | op_andc (t : op_type) | op_orc (t : op_type)
| op_eqv (w : width) | op_nand (w : width) | op_nor (w : width)
| op_clz (w : width) | op_ctz (w : width) | op_ctpop (w : width)
| op_insn_start | op_exit_tb | op_goto_tb | op_goto_ptr
| op_qemu_ld (w : width) | op_qemu_st (w : width)
| op_vec (v : vec_opcode).

#[global] Instance vec_opcode_eq_dec : EqDecision vec_opcode.
Proof. solve_decision. Defined.
#[global] Instance TCGOpcode_eq_dec : EqDecision TCGOpcode.
Proof. solve_decision. Defined.

(** [TCGOpDef]: the number of outputs, inputs and constants, and the flags
    [TCG_OPF_BB_END], [TCG_OPF_64BIT] and [TCG_OPF_VECTOR]. *)
Record TCGOpDef := mk_def {
  nb_oargs : nat; nb_iargs : nat; nb_cargs : nat;
  opf_bb_end : bool; opf_64bit : bool; opf_vector : bool
}.

Definition is64 (w : width) : bool := match w with W32 => false | W64 => true end.

Definition def_w (o i c : nat) (w : width) : TCGOpDef := mk_def o i c false (is64 w) false.
Definition def_vec (o i c : nat) : TCGOpDef := mk_def o i c false false true.
Definition def_t (o i c : nat) (t : op_type) : TCGOpDef :=
  match t with Int w => def_w o i c w | Vec => def_vec o i c end.

Definition vec_op_def (v : vec_opcode) : TCGOpDef :=
  match v with
  | dup2_vec => def_vec 1 2 0
  | ld_vec => def_vec 1 1 1
  | st_vec => def_vec 0 2 1
  | dupm_vec => def_vec 1 1 1
  | abs_vec => def_vec 1 1 0
  | shli_vec | shri_vec | sari_vec => def_vec 1 1 1
  | cmp_vec => def_vec 1 2 1
  | bitsel_vec => def_vec 1 3 0
  | cmpsel_vec => def_vec 1 4 1
  | _ => def_vec 1 2 0
  end.

(** [tcg_op_defs]; a 64-bit host has [TLADDR_ARGS] = [DATA64_ARGS] = 1.  The
    constants of [insn_start] are those of a target without extra words. *)
Definition tcg_op_defs (opc : TCGOpcode) : TCGOpDef :=
  match opc with
  | op_discard => mk_def 1 0 0 false false false
  | op_set_label => mk_def 0 0 1 true false false
  | op_call => mk_def 0 0 3 false false false
  | op_br => mk_def 0 0 1 true false false
  | op_mb => mk_def 0 0 1 false false false
  | op_mov t | op_not t | op_neg t => def_t 1 1 0 t
  | op_movi w => def_w 1 0 1 w
  | op_dupi_vec => def_vec 1 0 1
  | op_dup_vec => def_vec 1 1 0
  | op_setcond w => def_w 1 2 1 w
  | op_movcond w => def_w 1 4 1 w
  | op_brcond w => mk_def 0 2 2 true (is64 w) false
  | op_brcond2_i32 => mk_def 0 4 2 true false false
  | op_setcond2_i32 => def_w 1 4 1 W32
  | op_ld8u w | op_ld8s w | op_ld16u w | op_ld16s w | op_ld w => def_w 1 1 1 w
  | op_ld32u_i64 | op_ld32s_i64 => def_w 1 1 1 W64
  | op_st8 w | op_st16 w | op_st w => def_w 0 2 1 w
  | op_st32_i64 => def_w 0 2 1 W64
  | op_add t | op_sub t | op_mul t | op_and t | op_or t | op_xor t | op_andc t | op_orc t => def_t 1 2 0 t
  | op_div w | op_divu w | op_rem w | op_remu w | op_shl w | op_shr w | op_sar w | op_rotl w | op_rotr w
  | op_muluh w | op_mulsh w | op_eqv w | op_nand w | op_nor w | op_clz w | op_ctz w => def_w 1 2 0 w
  | op_div2 w | op_divu2 w => def_w 2 3 0 w
  | op_deposit w => def_w 1 2 2 w
  | op_extract w | op_sextract w => def_w 1 1 2 w
  | op_extract2 w => def_w 1 2 1 w
  | op_add2 w | op_sub2 w => def_w 2 4 0 w
  | op_mulu2 w | op_muls2 w => def_w 2 2 0 w
  | op_ext8s w | op_ext8u w | op_ext16s w | op_ext16u w | op_bswap16 w | op_bswap32 w | op_ctpop w => def_w 1 1 0 w
  | op_ext32s_i64 | op_ext32u_i64 | op_ext_i32_i64 | op_extu_i32_i64 | op_bswap64_i64 => def_w 1 1 0 W64
  | op_extrl_i64_i32 | op_extrh_i64_i32 => def_w 1 1 0 W32
  | op_insn_start => mk_def 0 0 1 false false false
  | op_exit_tb | op_goto_tb => mk_def 0 0 1 true false false
  | op_goto_ptr => mk_def 0 1 0 true false false
  | op_qemu_ld w => def_w 1 1 1 w
  | op_qemu_st w => def_w 0 2 1 w
  | op_vec v => vec_op_def v
  end.

(** The flags [TCG_OPF_BB_EXIT] and [TCG_OPF_SIDE_EFFECTS]. *)
Definition opf_bb_exit (opc : TCGOpcode) : bool :=
  match opc with op_exit_tb | op_goto_tb | op_goto_ptr => true | _ => false end.
Definition opf_side_effects (opc : TCGOpcode) : bool :=
  match opc with op_qemu_ld _ | op_qemu_st _ => true | _ => false end.

(** ** Conditions *)

Definition TCG_COND_EQ : Z := 8.
Definition TCG_COND_NE : Z := 9.
Definition TCG_COND_LT : Z := 2.
Definition TCG_COND_GE : Z := 3.
Definition TCG_COND_LE : Z := 10.
Definition TCG_COND_GT : Z := 11.
Definition TCG_COND_LTU : Z := 4.
Definition TCG_COND_GEU : Z := 5.
Definition TCG_COND_LEU : Z := 12.
Definition TCG_COND_GTU : Z := 13.

Definition tcg_invert_cond (c : Z) : Z := Z.lxor c 1.
Definition tcg_swap_cond (c : Z) : Z := if negb (Z.land c 6 =? 0) then Z.lxor c 9 else c.

(** ** Temporaries and operations *)

Inductive TCGType := TYPE_I32 | TYPE_I64 | TYPE_V64 | TYPE_V128 | TYPE_V256.

#[global] Instance TCGType_eq_dec : EqDecision TCGType.
Proof. solve_decision. Defined.

Record TCGTemp := mk_temp { ts_type : TCGType; temp_global : bool; temp_local : bool }.

(** A pointer to the temp [i] of [s->temps] is the number [i + 1]; 0 is the
    null pointer.  The arguments of an operation are an array of words, which
    hold pointers to temps and constants. *)
Record TCGOp := mk_op { opc : TCGOpcode; param1 : Z; param2 : Z; args : nat -> Z }.

Definition set_arg (i : nat) (x : Z) (a : nat -> Z) : nat -> Z := fun j => if (j =? i)%nat then x else a j.

Definition with_opc (c : TCGOpcode) (o : TCGOp) : TCGOp := mk_op c (param1 o) (param2 o) (args o).
Definition with_arg (i : nat) (x : Z) (o : TCGOp) : TCGOp := mk_op (opc o) (param1 o) (param2 o) (set_arg i x (args o)).

Definition TCGOP_CALLI (o : TCGOp) : nat := Z.to_nat (param1 o).
Definition TCGOP_CALLO (o : TCGOp) : nat := Z.to_nat (param2 o).
Definition TCGOP_VECL (o : TCGOp) : Z := param1 o.
Definition TCGOP_VECE (o : TCGOp) : Z := param2 o.

(** The numbers of outputs and inputs; those of a call are its own. *)
Definition op_oargs (o : TCGOp) : nat :=
  match opc o with op_call => TCGOP_CALLO o | c => nb_oargs (tcg_op_defs c) end.
Definition op_iargs (o : TCGOp) : nat :=
  match opc o with op_call => TCGOP_CALLI o | c => nb_iargs (tcg_op_defs c) end.

Definition TCG_CALL_NO_READ_GLOBALS : Z := 1.
Definition TCG_CALL_NO_WRITE_GLOBALS : Z := 2.
Definition TCG_CALL_NO_SIDE_EFFECTS : Z := 4.
Definition TCG_CALL_NO_RETURN : Z := 8.

Definition MO_SIZE : Z := 3.
Definition MO_SIGN : Z := 4.
Definition get_memop (oi : Z) : Z := Z.shiftr oi 4.
