(* ===== verification/TcgSem.v ===== *)
(** * What the operations of the intermediate language mean

    The instruction reference of [tcg/README], and runs of a list of
    operations with its branches and labels. *)

From S2P Require Import Prelude BitOps HostUtils TcgOps.

(** ** Values *)

Definition bits (w : width) : Z := match w with W32 => 32 | W64 => 64 end.

Definition type_bits (ty : TCGType) : Z :=
  match ty with TYPE_I32 => 32 | TYPE_I64 => 64 | TYPE_V64 => 64 | TYPE_V128 => 128 | TYPE_V256 => 256 end.

(** The elements of a value: how many, and of how many bits. *)
Definition lanes (o : TCGOp) (t : op_type) : nat * Z :=
  match t with
  | Int w => (1%nat, bits w)
  | Vec => let e := 8 * 2 ^ TCGOP_VECE o in (Z.to_nat (64 * 2 ^ TCGOP_VECL o / e), e)
  end.

(** An operation on every element. *)
Fixpoint vmap2 (n : nat) (e : Z) (f : Z -> Z -> Z) (x y : Z) : Z :=
  match n with
  | O => 0
  | S n => wrap e (f (wrap e x) (wrap e y)) + 2 ^ e * vmap2 n e f (x / 2 ^ e) (y / 2 ^ e)
  end.

Definition lift2 (l : nat * Z) (f : Z -> Z -> Z) (x y : Z) : Z := vmap2 l.1 l.2 f x y.
Definition lift1 (l : nat * Z) (f : Z -> Z) (x : Z) : Z := vmap2 l.1 l.2 (fun x _ => f x) x 0.

(** [c] repeated in a vector of [n] words of 64 bits. *)
Fixpoint repeat64 (n : nat) (c : Z) : Z :=
  match n with
  | O => 0
  | S n => u64 c + 2 ^ 64 * repeat64 n c
  end.

Definition vec_words (o : TCGOp) : nat := Z.to_nat (2 ^ TCGOP_VECL o).

(** ** Conditions *)

Definition eval_cond (n c x y : Z) : option bool :=
  let sx := sint n x in
  let sy := sint n y in
  let x := wrap n x in
  let y := wrap n y in
  if c =? TCG_COND_EQ then Some (x =? y)
  else if c =? TCG_COND_NE then Some (negb (x =? y))
  else if c =? TCG_COND_LT then Some (sx <? sy)
  else if c =? TCG_COND_GE then Some (sy <=? sx)
  else if c =? TCG_COND_LE then Some (sx <=? sy)
  else if c =? TCG_COND_GT then Some (sy <? sx)
  else if c =? TCG_COND_LTU then Some (x <? y)
  else if c =? TCG_COND_GEU then Some (y <=? x)
  else if c =? TCG_COND_LEU then Some (x <=? y)
  else if c =? TCG_COND_GTU then Some (y <? x)
  else None.

(** The 64-bit value of two 32-bit words. *)
Definition pair64 (low high : Z) : Z := u32 low + 2 ^ 32 * u32 high.

(** ** Operations that only compute *)

(** Shifts have a result for counts below the width. *)
Definition shift_sem (n : Z) (f : Z -> Z -> Z) (x y : Z) : option (list Z) :=
  if wrap n y <? n then Some [wrap n (f (wrap n x) (wrap n y))] else None.

(** Divisions have one unless the divisor is 0 or the quotient overflows. *)
Definition divs_sem (n : Z) (f : Z -> Z -> Z) (x y : Z) : option (list Z) :=
  if (sint n y =? 0) || ((sint n x =? - 2 ^ (n - 1)) && (sint n y =? -1)) then None
  else Some [wrap n (f (sint n x) (sint n y))].

Definition divu_sem (n : Z) (f : Z -> Z -> Z) (x y : Z) : option (list Z) :=
  if wrap n y =? 0 then None else Some [wrap n (f (wrap n x) (wrap n y))].

(** The bit field of [len] bits at [pos] lies in the word. *)
Definition field_ok (n pos len : Z) : bool := (0 <=? pos) && (0 <? len) && (pos + len <=? n).

Definition deposit_sem (pos len x y : Z) : Z :=
  Z.lor (Z.ldiff x (Z.shiftl (Z.ones len) pos)) (Z.shiftl (wrap len y) pos).

(** Double-word results, the low word first. *)
Definition split_sem (n v : Z) : option (list Z) := Some [wrap n v; wrap n (v / 2 ^ n)].

Definition bool_val (b : bool) : Z := if b then 1 else 0.

(** The outputs of an operation from the values of its inputs; the constants
    are read from its arguments. *)
Definition op_sem (o : TCGOp) (ins : list Z) : option (list Z) :=
  let a := args o in
  let int1 w (f : Z -> Z) (x : Z) := Some [wrap (bits w) (f (wrap (bits w) x))] in
  let int2 w (f : Z -> Z -> Z) (x y : Z) := Some [wrap (bits w) (f (wrap (bits w) x) (wrap (bits w) y))] in
  match opc o, ins with
  | op_mov t, [x] => Some [lift1 (lanes o t) id x]
  | op_movi w, [] => Some [wrap (bits w) (a 1%nat)]
  | op_dupi_vec, [] => Some [repeat64 (vec_words o) (a 1%nat)]
  | op_dup_vec, [x] => Some [lift1 (lanes o Vec) (fun _ => x) 0]
  | op_not t, [x] => Some [lift1 (lanes o t) Z.lnot x]
  | op_neg t, [x] => Some [lift1 (lanes o t) Z.opp x]
  | op_add t, [x; y] => Some [lift2 (lanes o t) Z.add x y]
  | op_sub t, [x; y] => Some [lift2 (lanes o t) Z.sub x y]
  | op_mul t, [x; y] => Some [lift2 (lanes o t) Z.mul x y]
  | op_and t, [x; y] => Some [lift2 (lanes o t) Z.land x y]
  | op_or t, [x; y] => Some [lift2 (lanes o t) Z.lor x y]
  | op_xor t, [x; y] => Some [lift2 (lanes o t) Z.lxor x y]
  | op_andc t, [x; y] => Some [lift2 (lanes o t) Z.ldiff x y]
  | op_orc t, [x; y] => Some [lift2 (lanes o t) (fun x y => Z.lor x (Z.lnot y)) x y]
  | op_eqv w, [x; y] => int2 w (fun x y => Z.lnot (Z.lxor x y)) x y
  | op_nand w, [x; y] => int2 w (fun x y => Z.lnot (Z.land x y)) x y
  | op_nor w, [x; y] => int2 w (fun x y => Z.lnot (Z.lor x y)) x y
  | op_div w, [x; y] => divs_sem (bits w) Z.quot x y
  | op_rem w, [x; y] => divs_sem (bits w) Z.rem x y
  | op_divu w, [x; y] => divu_sem (bits w) Z.div x y
  | op_remu w, [x; y] => divu_sem (bits w) Z.modulo x y
  | op_shl w, [x; y] => shift_sem (bits w) Z.shiftl x y
  | op_shr w, [x; y] => shift_sem (bits w) Z.shiftr x y
  | op_sar w, [x; y] => shift_sem (bits w) (fun x y => Z.shiftr (sint (bits w) x) y) x y
  | op_rotl w, [x; y] => shift_sem (bits w) (fun x y => Z.lor (Z.shiftl x y) (Z.shiftr x (bits w - y))) x y
  | op_rotr w, [x; y] => shift_sem (bits w) (fun x y => Z.lor (Z.shiftr x y) (Z.shiftl x (bits w - y))) x y
  | op_deposit w, [x; y] =>
    if field_ok (bits w) (a 3%nat) (a 4%nat) then int2 w (deposit_sem (a 3%nat) (a 4%nat)) x y else None
  | op_extract w, [x] =>
    if field_ok (bits w) (a 2%nat) (a 3%nat)
    then int1 w (fun x => wrap (a 3%nat) (Z.shiftr x (a 2%nat))) x else None
  | op_sextract w, [x] =>
    if field_ok (bits w) (a 2%nat) (a 3%nat)
    then int1 w (fun x => sint (a 3%nat) (Z.shiftr x (a 2%nat))) x else None
  | op_extract2 w, [x; y] =>
    if (0 <? a 3%nat) && (a 3%nat <? bits w)
    then int2 w (fun x y => Z.shiftr (x + 2 ^ bits w * y) (a 3%nat)) x y else None
  | op_setcond w, [x; y] => b ← eval_cond (bits w) (a 3%nat) x y; Some [bool_val b]
  | op_movcond w, [c1; c2; v1; v2] =>
    b ← eval_cond (bits w) (a 5%nat) c1 c2; Some [wrap (bits w) (if b : bool then v1 else v2)]
  | op_setcond2_i32, [al; ah; bl; bh] =>
    b ← eval_cond 64 (a 5%nat) (pair64 al ah) (pair64 bl bh); Some [bool_val b]
  | op_muluh w, [x; y] => int2 w (fun x y => x * y / 2 ^ bits w) x y
  | op_mulsh w, [x; y] => int2 w (fun x y => sint (bits w) x * sint (bits w) y / 2 ^ bits w) x y
  | op_mulu2 w, [x; y] => split_sem (bits w) (wrap (bits w) x * wrap (bits w) y)
  | op_muls2 w, [x; y] => split_sem (bits w) (sint (bits w) x * sint (bits w) y)
  | op_add2 w, [al; ah; bl; bh] =>
    split_sem (bits w) (wrap (bits w) al + 2 ^ bits w * wrap (bits w) ah
                        + (wrap (bits w) bl + 2 ^ bits w * wrap (bits w) bh))
  | op_sub2 w, [al; ah; bl; bh] =>
    split_sem (bits w) (wrap (bits w) al + 2 ^ bits w * wrap (bits w) ah
                        - (wrap (bits w) bl + 2 ^ bits w * wrap (bits w) bh))
  | op_ext8s w, [x] => int1 w (sint 8) x
  | op_ext8u w, [x] => int1 w (wrap 8) x
  | op_ext16s w, [x] => int1 w (sint 16) x
  | op_ext16u w, [x] => int1 w (wrap 16) x
  | op_ext32s_i64, [x] | op_ext_i32_i64, [x] => int1 W64 (sint 32) x
  | op_ext32u_i64, [x] | op_extu_i32_i64, [x] => int1 W64 (wrap 32) x
  | op_extrl_i64_i32, [x] => Some [u32 x]
  | op_extrh_i64_i32, [x] => Some [u32 (Z.shiftr (u64 x) 32)]
  | op_bswap16 w, [x] => if wrap (bits w) x <? 2 ^ 16 then int1 w bswap16 x else None
  | op_bswap32 w, [x] => if wrap (bits w) x <? 2 ^ 32 then int1 w bswap32 x else None
  | op_bswap64_i64, [x] => int1 W64 bswap64 x
  | op_clz w, [x; y] =>
    int2 w (fun x y => if x =? 0 then y else bits w - 1 - Z.log2 x) x y
  | op_ctz w, [x; y] => int2 w (fun x y => if x =? 0 then y else first_set (bits w) x) x y
  | op_ctpop w, [x] => int1 w (count_set (bits w)) x
  | _, _ => None
  end.

(** ** Runs *)

Record machine (M : Type) := mk_machine { regs : gmap Z Z; barrier : Z; memory : M }.
Arguments mk_machine {M} _ _ _.
Arguments regs {M} _.
Arguments barrier {M} _.
Arguments memory {M} _.

(** How a translation block is left. *)
Inductive tb_exit := Exit_tb (v : Z) | Goto_tb (n : Z) | Goto_ptr (p : Z) | Exception.

Inductive op_result (M : Type) :=
| Next (st : machine M)
| Jump (label : Z) (st : machine M)
| Stop (e : tb_exit) (st : machine M).
Arguments Next {M} _.
Arguments Jump {M} _ _.
Arguments Stop {M} _ _.

(** The rest of the machine.  Loads and stores of host memory take an address
    and a size in bytes; those of guest memory the barriers issued since the last
    access, the address and the [TCGMemOpIdx], and raise an exception by [None];
    helpers take the constants and values of a call and the globals, and give
    outputs and globals; [opaque_sem] are the operations without a meaning here. *)
Class TcgEnv (M : Type) := {
  host_ld : M -> Z -> Z -> Z;
  host_st : M -> Z -> Z -> Z -> M;
  guest_ld : Z -> Z -> Z -> M -> option Z * M;
  guest_st : Z -> Z -> Z -> Z -> M -> bool * M;
  helper : Z -> list Z -> list Z -> list Z -> M -> option (list Z * list Z) * M;
  tb_linked : M -> Z -> bool;
  opaque_sem : TCGOpcode -> Z -> Z -> list Z -> list Z -> M -> option (list Z * M)
}.

(** What the code generator knows of the temps and the host. *)
Record TCGContext := mk_ctx {
  temps : Z -> TCGTemp;
  nb_globals : Z;
  nb_temps : Z;
  have_neg : op_type -> bool;
  have_not : op_type -> bool;
  can_emit_neg_vec : TCGType -> Z -> bool
}.

Section runs.
Context {M : Type} `{!TcgEnv M} (s : TCGContext).

Definition rd (r : gmap Z Z) (t : Z) : Z := default 0 (r !! t).

(** A temp keeps as many bits as its type has. *)
Definition wr (t v : Z) (r : gmap Z Z) : gmap Z Z := <[t := wrap (type_bits (ts_type (temps s t))) v]> r.

(** Outputs are written in order. *)
Fixpoint wr_list (ts vs : list Z) (r : gmap Z Z) : gmap Z Z :=
  match ts, vs with
  | t :: ts, v :: vs => wr_list ts vs (wr t v r)
  | _, _ => r
  end.

Definition outputs (o : TCGOp) : list Z := args o <$> seq 0 (op_oargs o).
Definition inputs (o : TCGOp) : list Z := args o <$> seq (op_oargs o) (op_iargs o).
Definition constants (o : TCGOp) : list Z :=
  args o <$> seq (op_oargs o + op_iargs o) (nb_cargs (tcg_op_defs (opc o))).

Definition with_regs (r : gmap Z Z) (st : machine M) : machine M := mk_machine r (barrier st) (memory st).

Definition is_global (t : Z) : bool := (1 <=? t) && (t <=? nb_globals s).

(** The globals a helper sees, and those it leaves. *)
Definition globals_of (r : gmap Z Z) : list Z := rd r <$> seqZ 1 (nb_globals s).
Definition set_globals (g : list Z) (r : gmap Z Z) : gmap Z Z := wr_list (seqZ 1 (nb_globals s)) g r.

Definition call_flags (o : TCGOp) : Z := args o (op_oargs o + op_iargs o + 1)%nat.

Definition call_keeps_globals (o : TCGOp) : bool :=
  negb (Z.land (call_flags o) (Z.lor TCG_CALL_NO_READ_GLOBALS TCG_CALL_NO_WRITE_GLOBALS) =? 0).

Definition call_flag (o : TCGOp) (f : Z) : bool := negb (Z.land (call_flags o) f =? 0).

(** A helper that does not read globals is given none; one without side effects
    does not access guest memory. *)
Definition call_globals (o : TCGOp) (r : gmap Z Z) : list Z :=
  if call_flag o TCG_CALL_NO_READ_GLOBALS then [] else globals_of r.
Definition call_barrier (o : TCGOp) (b : Z) : Z := if call_flag o TCG_CALL_NO_SIDE_EFFECTS then b else 0.

(** The value of a memory access of [oi] bits. *)
Definition memop_value (oi v : Z) : Z :=
  let n := 8 * 2 ^ Z.land (get_memop oi) MO_SIZE in
  if Z.land (get_memop oi) MO_SIGN =? 0 then wrap n v else sint n v.

Definition step (o : TCGOp) (st : machine M) : option (op_result M) :=
  let ins := rd (regs st) <$> inputs o in
  let a := args o in
  let x i := default 0 (ins !! i) in
  let load n := host_ld (memory st) (u64 (x 0%nat + a 2%nat)) n in
  let store n := Some (Next (mk_machine (regs st) (barrier st)
                   (host_st (memory st) (u64 (x 1%nat + a 2%nat)) n (wrap (8 * n) (x 0%nat))))) in
  let result v := Some (Next (with_regs (wr (a 0%nat) v (regs st)) st)) in
  match opc o with
  | op_discard | op_set_label | op_insn_start => Some (Next st)
  | op_br => Some (Jump (a 0%nat) st)
  | op_mb => Some (Next (mk_machine (regs st) (Z.lor (barrier st) (a 0%nat)) (memory st)))
  | op_brcond w =>
    b ← eval_cond (bits w) (a 2%nat) (x 0%nat) (x 1%nat);
    Some (if b : bool then Jump (a 3%nat) st else Next st)
  | op_brcond2_i32 =>
    b ← eval_cond 64 (a 4%nat) (pair64 (x 0%nat) (x 1%nat)) (pair64 (x 2%nat) (x 3%nat));
    Some (if b : bool then Jump (a 5%nat) st else Next st)
  | op_exit_tb => Some (Stop (Exit_tb (a 0%nat)) st)
  | op_goto_tb => Some (if tb_linked (memory st) (a 0%nat) then Stop (Goto_tb (a 0%nat)) st else Next st)
  | op_goto_ptr => Some (Stop (Goto_ptr (x 0%nat)) st)
  | op_call =>
    match helper (barrier st) (constants o) ins (call_globals o (regs st)) (memory st) with
    | (Some (outs, g), m) =>
      let r := if call_keeps_globals o then regs st else set_globals g (regs st) in
      if decide (length outs = length (outputs o))
      then Some (Next (mk_machine (wr_list (outputs o) outs r) (call_barrier o (barrier st)) m)) else None
    | (None, m) => Some (Stop Exception (mk_machine (regs st) 0 m))
    end
  | op_qemu_ld _ =>
    let oi := a (op_oargs o + op_iargs o)%nat in
    match guest_ld (barrier st) (x 0%nat) oi (memory st) with
    | (Some v, m) => Some (Next (mk_machine (wr (a 0%nat) (memop_value oi v) (regs st)) 0 m))
    | (None, m) => Some (Stop Exception (mk_machine (regs st) 0 m))
    end
  | op_qemu_st _ =>
    let '(ok, m) := guest_st (barrier st) (x 0%nat) (x 1%nat) (a 2%nat) (memory st) in
    Some (if ok then Next (mk_machine (regs st) 0 m) else Stop Exception (mk_machine (regs st) 0 m))
  | op_ld8u _ => result (u8 (load 1))
  | op_ld8s w => result (wrap (bits w) (sint 8 (load 1)))
  | op_ld16u _ => result (u16 (load 2))
  | op_ld16s w => result (wrap (bits w) (sint 16 (load 2)))
  | op_ld32u_i64 => result (u32 (load 4))
  | op_ld32s_i64 => result (u64 (sint 32 (load 4)))
  | op_ld W32 => result (load 4)
  | op_ld W64 => result (load 8)
  | op_st8 _ => store 1
  | op_st16 _ => store 2
  | op_st32_i64 | op_st W32 => store 4
  | op_st W64 => store 8
  | op_div2 _ | op_divu2 _ | op_vec _ =>
    '(outs, m) ← opaque_sem (opc o) (param1 o) (param2 o) (constants o) ins (memory st);
    if decide (length outs = length (outputs o))
    then Some (Next (mk_machine (wr_list (outputs o) outs (regs st)) (barrier st) m)) else None
  | _ => outs ← op_sem o ins; Some (Next (with_regs (wr_list (outputs o) outs (regs st)) st))
  end.

(** A list of operations up to the first jump. *)
Fixpoint run_block (ops : list TCGOp) (st : machine M) : option (op_result M) :=
  match ops with
  | [] => Some (Next st)
  | o :: ops =>
    match step o st with
    | Some (Next st) => run_block ops st
    | r => r
    end
  end.

(** The operations after a label. *)
Fixpoint find_label (l : Z) (ops : list TCGOp) : option (list TCGOp) :=
  match ops with
  | [] => None
  | o :: ops => if bool_decide (opc o = op_set_label) && (args o 0%nat =? l) then Some ops else find_label l ops
  end.

(** A run of [ops] in the program [prog], with at most [fuel] jumps. *)
Fixpoint run (fuel : nat) (prog ops : list TCGOp) (st : machine M) : option (op_result M) :=
  match run_block ops st with
  | Some (Jump l st) =>
    match fuel with
    | O => None
    | S fuel => ops ← find_label l prog; run fuel prog ops st
    end
  | r => r
  end.
End runs.
