(* ===== verification/TcgOptimize.v ===== *)
(** * The optimizer of the intermediate language ([qemu/tcg/optimize.c])

    [tcg_optimize] walks over the operations once.  For the temps used since
    the start of the basic block it knows whether they are constant, which bits
    may be set, and, in circular doubly linked lists, which are copies of each
    other.  With that it replaces inputs by their copies, folds constants, turns
    operations into moves or constants, drops branches and merges memory
    barriers.

    The host has 64-bit registers ([TCG_TARGET_REG_BITS] = 64).  [None] is
    [tcg_abort]. *)

From S2P Require Import Prelude BitOps HostUtils TcgOps TcgSem.

(** ** What is known of a temp *)

Record tcg_temp_info := mk_info {
  is_const : bool;
  prev_copy : Z;
  next_copy : Z;
  val : Z;
  mask : Z
}.

(** The array [infos] with the bitmap [temps_used]: a temp has an entry when
    its bit is set. *)
Abbreviation temp_infos := (gmap Z tcg_temp_info).

(** [-1] as a [tcg_target_ulong]. *)
Definition all_ones : Z := 2 ^ 64 - 1.

Definition not64 (x : Z) : Z := u64 (Z.lnot x).

Definition fresh_info (ts : Z) : tcg_temp_info := mk_info false ts ts 0 all_ones.

Definition ts_info (inf : temp_infos) (ts : Z) : tcg_temp_info := default (fresh_info ts) (inf !! ts).

Definition arg_is_const (inf : temp_infos) (t : Z) : bool := is_const (ts_info inf t).
Definition arg_val (inf : temp_infos) (t : Z) : Z := val (ts_info inf t).
Definition arg_mask (inf : temp_infos) (t : Z) : Z := mask (ts_info inf t).
Definition ts_is_copy (inf : temp_infos) (ts : Z) : bool := negb (next_copy (ts_info inf ts) =? ts).

(** [arg_is_const(arg) && arg_info(arg)->val == v] *)
Definition const_is (inf : temp_infos) (t v : Z) : bool := arg_is_const inf t && (arg_val inf t =? v).

Definition set_next (t n : Z) (inf : temp_infos) : temp_infos :=
  let i := ts_info inf t in <[t := mk_info (is_const i) (prev_copy i) n (val i) (mask i)]> inf.
Definition set_prev (t p : Z) (inf : temp_infos) : temp_infos :=
  let i := ts_info inf t in <[t := mk_info (is_const i) p (next_copy i) (val i) (mask i)]> inf.
Definition set_const (t : Z) (b : bool) (v : Z) (inf : temp_infos) : temp_infos :=
  let i := ts_info inf t in <[t := mk_info b (prev_copy i) (next_copy i) v (mask i)]> inf.
Definition set_mask (t m : Z) (inf : temp_infos) : temp_infos :=
  let i := ts_info inf t in <[t := mk_info (is_const i) (prev_copy i) (next_copy i) (val i) m]> inf.

Definition reset_ts (ts : Z) (inf : temp_infos) : temp_infos :=
  let ti := ts_info inf ts in
  let inf := set_prev (next_copy ti) (prev_copy ti) inf in
  let inf := set_next (prev_copy ti) (next_copy ti) inf in
  let ti := ts_info inf ts in
  <[ts := mk_info false ts ts (val ti) all_ones]> inf.

Definition init_ts_info (ts : Z) (inf : temp_infos) : temp_infos :=
  match inf !! ts with Some _ => inf | None => <[ts := fresh_info ts]> inf end.

(** The loop over the copies of [ts] from [i] on, for the first one with [p]. *)
Fixpoint copies_loop (fuel : nat) (inf : temp_infos) (p : Z -> bool) (ts i : Z) : option Z :=
  match fuel with
  | O => None
  | S fuel =>
    if i =? ts then None
    else if p i then Some i
    else copies_loop fuel inf p ts (next_copy (ts_info inf i))
  end.

Definition copies (inf : temp_infos) (p : Z -> bool) (ts : Z) : option Z :=
  copies_loop (S (size inf)) inf p ts (next_copy (ts_info inf ts)).

Section optimize.
Context (s : TCGContext).

Definition find_better_copy (inf : temp_infos) (ts : Z) : Z :=
  if temp_global (temps s ts) then ts else
  match copies inf (fun i => temp_global (temps s i)) ts with
  | Some i => i
  | None =>
    if negb (temp_local (temps s ts)) then
      match copies inf (fun _ => temp_local (temps s ts)) ts with
      | Some i => i
      | None => ts
      end
    else ts
  end.

Definition ts_are_copies (inf : temp_infos) (ts1 ts2 : Z) : bool :=
  if ts1 =? ts2 then true
  else if negb (ts_is_copy inf ts1) || negb (ts_is_copy inf ts2) then false
  else match copies inf (fun i => i =? ts2) ts1 with Some _ => true | None => false end.

(** ** New operations *)

Definition move_type (d : TCGOpDef) : op_type := if opf_vector d then Vec else if opf_64bit d then Int W64 else Int W32.

(** Bits above 32 are garbage after a 32-bit operation. *)
Definition garbage_high (t : op_type) (m : Z) : Z :=
  match t with Int W32 => Z.lor m (not64 0xffffffff) | _ => m end.

Definition tcg_opt_gen_movi (inf : temp_infos) (op : TCGOp) (dst v : Z) : temp_infos * TCGOp :=
  let t := move_type (tcg_op_defs (opc op)) in
  let new_op := match t with Vec => op_dupi_vec | Int w => op_movi w end in
  let op := with_arg 1 v (with_arg 0 dst (with_opc new_op op)) in
  let inf := reset_ts dst inf in
  let inf := set_const dst true v inf in
  (set_mask dst (garbage_high t v) inf, op).

Definition tcg_opt_gen_mov (inf : temp_infos) (op : TCGOp) (dst src : Z) : temp_infos * list TCGOp :=
  if ts_are_copies inf dst src then (inf, []) else
  let t := move_type (tcg_op_defs (opc op)) in
  let op := with_arg 1 src (with_arg 0 dst (with_opc (op_mov t) op)) in
  let inf := reset_ts dst inf in
  let inf := set_mask dst (garbage_high t (arg_mask inf src)) inf in
  if decide (ts_type (temps s src) = ts_type (temps s dst)) then
    let sn := next_copy (ts_info inf src) in
    let inf := set_next dst sn inf in
    let inf := set_prev dst src inf in
    let inf := set_prev sn dst inf in
    let inf := set_next src dst inf in
    (set_const dst (arg_is_const inf src) (arg_val inf src) inf, [op])
  else (inf, [op]).

(** ** Constant folding *)

(** The bit pattern of a signed number, as it is converted to a [TCGArg]. *)
Definition s64 (n x : Z) : Z := u64 (sint n x).

Definition do_constant_folding_2 (op : TCGOpcode) (x y : Z) : option Z :=
  match op with
  | op_add (Int _) => Some (u64 (x + y))
  | op_sub (Int _) => Some (u64 (x - y))
  | op_mul (Int _) => Some (u64 (x * y))
  | op_and (Int _) => Some (Z.land x y)
  | op_or (Int _) => Some (Z.lor x y)
  | op_xor (Int _) => Some (Z.lxor x y)
  | op_shl W32 => Some (u32 (Z.shiftl (u32 x) (Z.land y 31)))
  | op_shl W64 => Some (u64 (Z.shiftl x (Z.land y 63)))
  | op_shr W32 => Some (Z.shiftr (u32 x) (Z.land y 31))
  | op_shr W64 => Some (Z.shiftr x (Z.land y 63))
  | op_sar W32 => Some (u64 (Z.shiftr (sint 32 x) (Z.land y 31)))
  | op_sar W64 => Some (u64 (Z.shiftr (sint 64 x) (Z.land y 63)))
  | op_rotr W32 => Some (ror32 (u32 x) (Z.land y 31))
  | op_rotr W64 => Some (ror64 x (Z.land y 63))
  | op_rotl W32 => Some (rol32 (u32 x) (Z.land y 31))
  | op_rotl W64 => Some (rol64 x (Z.land y 63))
  | op_not (Int _) => Some (not64 x)
  | op_neg (Int _) => Some (u64 (- x))
  | op_andc (Int _) => Some (Z.land x (not64 y))
  | op_orc (Int _) => Some (Z.lor x (not64 y))
  | op_eqv _ => Some (not64 (Z.lxor x y))
  | op_nand _ => Some (not64 (Z.land x y))
  | op_nor _ => Some (not64 (Z.lor x y))
  | op_clz W32 => Some (if negb (u32 x =? 0) then clz32 (u32 x) else y)
  | op_clz W64 => Some (if negb (x =? 0) then clz64 x else y)
  | op_ctz W32 => Some (if negb (u32 x =? 0) then ctz32 (u32 x) else y)
  | op_ctz W64 => Some (if negb (x =? 0) then ctz64 x else y)
  | op_ctpop W32 => Some (ctpop32 (u32 x))
  | op_ctpop W64 => Some (ctpop64 x)
  | op_ext8s _ => Some (s64 8 x)
  | op_ext16s _ => Some (s64 16 x)
  | op_ext8u _ => Some (u8 x)
  | op_ext16u _ => Some (u16 x)
  | op_bswap16 _ => Some (bswap16 (u16 x))
  | op_bswap32 _ => Some (bswap32 (u32 x))
  | op_bswap64_i64 => Some (bswap64 x)
  | op_ext_i32_i64 | op_ext32s_i64 => Some (s64 32 x)
  | op_extu_i32_i64 | op_extrl_i64_i32 | op_ext32u_i64 => Some (u32 x)
  | op_extrh_i64_i32 => Some (Z.shiftr x 32)
  | op_muluh W32 => Some (Z.shiftr (u32 x * u32 y) 32)
  | op_mulsh W32 => Some (u64 (Z.shiftr (sint 32 x * sint 32 y) 32))
  | op_muluh W64 => Some (mulu64 x y).2
  | op_mulsh W64 => Some (muls64 x y).2
  | op_div W32 => Some (u64 (Z.quot (sint 32 x) (if negb (sint 32 y =? 0) then sint 32 y else 1)))
  | op_divu W32 => Some (u32 x / (if negb (u32 y =? 0) then u32 y else 1))
  | op_div W64 => Some (u64 (Z.quot (sint 64 x) (if negb (sint 64 y =? 0) then sint 64 y else 1)))
  | op_divu W64 => Some (x / (if negb (y =? 0) then y else 1))
  | op_rem W32 => Some (u64 (Z.rem (sint 32 x) (if negb (sint 32 y =? 0) then sint 32 y else 1)))
  | op_remu W32 => Some (u32 x mod (if negb (u32 y =? 0) then u32 y else 1))
  | op_rem W64 => Some (u64 (Z.rem (sint 64 x) (if negb (sint 64 y =? 0) then sint 64 y else 1)))
  | op_remu W64 => Some (x mod (if negb (y =? 0) then y else 1))
  | _ => None
  end.

Definition do_constant_folding (op : TCGOpcode) (x y : Z) : option Z :=
  res ← do_constant_folding_2 op x y;
  Some (if opf_64bit (tcg_op_defs op) then res else s64 32 res).

(** [do_constant_folding_cond_32] and [do_constant_folding_cond_64]. *)
Definition do_constant_folding_cond_n (n x y c : Z) : option bool :=
  let x := wrap n x in
  let y := wrap n y in
  if c =? TCG_COND_EQ then Some (x =? y)
  else if c =? TCG_COND_NE then Some (negb (x =? y))
  else if c =? TCG_COND_LT then Some (sint n x <? sint n y)
  else if c =? TCG_COND_GE then Some (sint n y <=? sint n x)
  else if c =? TCG_COND_LE then Some (sint n x <=? sint n y)
  else if c =? TCG_COND_GT then Some (sint n y <? sint n x)
  else if c =? TCG_COND_LTU then Some (x <? y)
  else if c =? TCG_COND_GEU then Some (y <=? x)
  else if c =? TCG_COND_LEU then Some (x <=? y)
  else if c =? TCG_COND_GTU then Some (y <? x)
  else None.

Definition do_constant_folding_cond_eq (c : Z) : option bool :=
  if (c =? TCG_COND_GT) || (c =? TCG_COND_LTU) || (c =? TCG_COND_LT) || (c =? TCG_COND_GTU) || (c =? TCG_COND_NE)
  then Some false
  else if (c =? TCG_COND_GE) || (c =? TCG_COND_GEU) || (c =? TCG_COND_LE) || (c =? TCG_COND_LEU) || (c =? TCG_COND_EQ)
  then Some true
  else None.

(** The comparisons with 0 that are decided. *)
Definition cond_zero (c : Z) : option bool :=
  if c =? TCG_COND_LTU then Some false else if c =? TCG_COND_GEU then Some true else None.

(** [Some None] is the result 2: the condition cannot be simplified. *)
Definition do_constant_folding_cond (inf : temp_infos) (op : TCGOpcode) (x y c : Z) : option (option bool) :=
  if arg_is_const inf x && arg_is_const inf y then
    Some <$> do_constant_folding_cond_n (if opf_64bit (tcg_op_defs op) then 64 else 32) (arg_val inf x) (arg_val inf y) c
  else if ts_are_copies inf x y then Some <$> do_constant_folding_cond_eq c
  else if const_is inf y 0 then Some (cond_zero c)
  else Some None.

Definition do_constant_folding_cond2 (inf : temp_infos) (al ah bl bh c : Z) : option (option bool) :=
  let rest :=
    if ts_are_copies inf al bl && ts_are_copies inf ah bh then Some <$> do_constant_folding_cond_eq c else Some None in
  if arg_is_const inf bl && arg_is_const inf bh then
    let b := deposit64 (arg_val inf bl) 32 32 (arg_val inf bh) in
    if arg_is_const inf al && arg_is_const inf ah then
      let a := deposit64 (arg_val inf al) 32 32 (arg_val inf ah) in
      Some <$> do_constant_folding_cond_n 64 a b c
    else if (b =? 0) && ((c =? TCG_COND_LTU) || (c =? TCG_COND_GEU)) then Some (cond_zero c)
    else rest
  else rest.

(** ** Order of the inputs *)

(** Swap the arguments [p1] and [p2] of the operation; [dest] is the output. *)
Definition swap_commutative (inf : temp_infos) (dest : Z) (p1 p2 : nat) (op : TCGOp) : TCGOp * bool :=
  let a1 := args op p1 in
  let a2 := args op p2 in
  let sum := bool_val (arg_is_const inf a1) - bool_val (arg_is_const inf a2) in
  if (0 <? sum) || ((sum =? 0) && (dest =? a2)) then (with_arg p2 a1 (with_arg p1 a2 op), true) else (op, false).

Definition swap_commutative2 (inf : temp_infos) (p1 p2 : nat) (op : TCGOp) : TCGOp * bool :=
  let b p := bool_val (arg_is_const inf (args op p)) in
  let sum := b p1 + b (S p1) - b p2 - b (S p2) in
  if 0 <? sum then
    (with_arg (S p2) (args op (S p1)) (with_arg (S p1) (args op (S p2))
       (with_arg p2 (args op p1) (with_arg p1 (args op p2) op))), true)
  else (op, false).

Definition swap_cond_if (b : bool) (i : nat) (op : TCGOp) : TCGOp :=
  if b then with_arg i (tcg_swap_cond (args op i)) op else op.
Definition invert_cond_if (b : bool) (i : nat) (op : TCGOp) : TCGOp :=
  if b then with_arg i (tcg_invert_cond (args op i)) op else op.

Definition canonicalize (inf : temp_infos) (op : TCGOp) : TCGOp :=
  let a := args op in
  match opc op with
  | op_add _ | op_mul _ | op_and _ | op_or _ | op_xor _ | op_eqv _ | op_nand _ | op_nor _ | op_muluh _ | op_mulsh _ =>
    (swap_commutative inf (a 0%nat) 1 2 op).1
  | op_brcond _ => let '(op, b) := swap_commutative inf all_ones 0 1 op in swap_cond_if b 2 op
  | op_setcond _ => let '(op, b) := swap_commutative inf (a 0%nat) 1 2 op in swap_cond_if b 3 op
  | op_movcond _ =>
    let '(op, b) := swap_commutative inf all_ones 1 2 op in
    let op := swap_cond_if b 5 op in
    let '(op, b) := swap_commutative inf (a 0%nat) 4 3 op in
    invert_cond_if b 5 op
  | op_add2 _ =>
    let op := (swap_commutative inf (a 0%nat) 2 4 op).1 in (swap_commutative inf (a 1%nat) 3 5 op).1
  | op_mulu2 _ | op_muls2 _ => (swap_commutative inf (a 0%nat) 2 3 op).1
  | op_brcond2_i32 => let '(op, b) := swap_commutative2 inf 0 2 op in swap_cond_if b 4 op
  | op_setcond2_i32 => let '(op, b) := swap_commutative2 inf 1 3 op in swap_cond_if b 5 op
  | _ => op
  end.

(** ** Simplifications

    Each gives what is known after the operation and the operations that
    replace it ([continue] in the loop), or [None] to go on. *)

Definition simplified : Type := option (temp_infos * list TCGOp).

Definition to_movi (inf : temp_infos) (op : TCGOp) (v : Z) : simplified :=
  let '(inf, op) := tcg_opt_gen_movi inf op (args op 0%nat) v in Some (inf, [op]).

Definition to_mov (inf : temp_infos) (op : TCGOp) (src : Z) : simplified :=
  Some (tcg_opt_gen_mov inf op (args op 0%nat) src).

(** The operation becomes [c] of its argument [i]. *)
Definition to_unary (inf : temp_infos) (op : TCGOp) (c : TCGOpcode) (i : nat) : simplified :=
  Some (reset_ts (args op 0%nat) inf, [with_arg 1 (args op i) (with_opc c op)]).

Definition vec_type (o : TCGOp) : TCGType :=
  if TCGOP_VECL o =? 0 then TYPE_V64 else if TCGOP_VECL o =? 1 then TYPE_V128 else TYPE_V256.

Definition try_not (inf : temp_infos) (op : TCGOp) (i : nat) : simplified :=
  let t := move_type (tcg_op_defs (opc op)) in
  if have_not s t then to_unary inf op (op_not t) i else None.

(** "shift/rot r, 0, a => movi r, 0", "sub r, 0, a => neg r, a" and the
    operations that are a [not]. *)
Definition simplify_first (inf : temp_infos) (op : TCGOp) : simplified :=
  let a := args op in
  match opc op with
  | op_shl _ | op_shr _ | op_sar _ | op_rotl _ | op_rotr _ =>
    if const_is inf (a 1%nat) 0 then to_movi inf op 0 else None
  | op_sub t =>
    if arg_is_const inf (a 2%nat) then None else
    let have := match t with
                | Int _ => have_neg s t
                | Vec => have_neg s t && can_emit_neg_vec s (vec_type op) (TCGOP_VECE op)
                end in
    if negb have then None
    else if const_is inf (a 1%nat) 0 then to_unary inf op (op_neg t) 2 else None
  | op_xor _ | op_nand _ =>
    if negb (arg_is_const inf (a 1%nat)) && const_is inf (a 2%nat) all_ones then try_not inf op 1 else None
  | op_nor _ =>
    if negb (arg_is_const inf (a 1%nat)) && const_is inf (a 2%nat) 0 then try_not inf op 1 else None
  | op_andc _ =>
    if negb (arg_is_const inf (a 2%nat)) && const_is inf (a 1%nat) all_ones then try_not inf op 2 else None
  | op_orc _ | op_eqv _ =>
    if negb (arg_is_const inf (a 2%nat)) && const_is inf (a 1%nat) 0 then try_not inf op 2 else None
  | _ => None
  end.

(** "op r, a, const => mov r, a" *)
Definition simplify_neutral (inf : temp_infos) (op : TCGOp) : simplified :=
  let a := args op in
  match opc op with
  | op_add _ | op_sub _ | op_or _ | op_xor _ | op_andc _ | op_shl _ | op_shr _ | op_sar _ | op_rotl _ | op_rotr _ =>
    if negb (arg_is_const inf (a 1%nat)) && const_is inf (a 2%nat) 0 then to_mov inf op (a 1%nat) else None
  | op_and _ | op_orc _ | op_eqv _ =>
    if negb (arg_is_const inf (a 1%nat)) && const_is inf (a 2%nat) all_ones then to_mov inf op (a 1%nat) else None
  | _ => None
  end.

(** [and_const:] the mask of the output and the affected bits for [x & m]. *)
Definition and_const (inf : temp_infos) (x m : Z) : Z * Z :=
  (Z.land (arg_mask inf x) m, Z.land (arg_mask inf x) (not64 m)).

(** The bits of the output that may be set, and those of the first input that
    the operation may change. *)
Definition known_zeros (inf : temp_infos) (op : TCGOp) : Z * Z :=
  let a := args op in
  let m i := arg_mask inf (a i) in
  let v i := arg_val inf (a i) in
  let const i := arg_is_const inf (a i) in
  let unknown := (all_ones, all_ones) in
  match opc op with
  | op_ext8s _ => if negb (Z.land (m 1%nat) 0x80 =? 0) then unknown else and_const inf (a 1%nat) 0xff
  | op_ext8u _ => and_const inf (a 1%nat) 0xff
  | op_ext16s _ => if negb (Z.land (m 1%nat) 0x8000 =? 0) then unknown else and_const inf (a 1%nat) 0xffff
  | op_ext16u _ => and_const inf (a 1%nat) 0xffff
  | op_ext32s_i64 => if negb (Z.land (m 1%nat) 0x80000000 =? 0) then unknown else and_const inf (a 1%nat) 0xffffffff
  | op_ext32u_i64 => and_const inf (a 1%nat) 0xffffffff
  | op_and (Int _) =>
    if const 2%nat then and_const inf (a 1%nat) (m 2%nat) else (Z.land (m 1%nat) (m 2%nat), all_ones)
  | op_ext_i32_i64 =>
    if negb (Z.land (m 1%nat) 0x80000000 =? 0) then unknown else (u32 (m 1%nat), all_ones)
  | op_extu_i32_i64 => (u32 (m 1%nat), all_ones)
  | op_andc (Int _) =>
    if const 2%nat then and_const inf (a 1%nat) (not64 (m 2%nat)) else (m 1%nat, all_ones)
  | op_sar W32 =>
    if const 2%nat then (u64 (Z.shiftr (sint 32 (m 1%nat)) (Z.land (v 2%nat) 31)), all_ones) else unknown
  | op_sar W64 =>
    if const 2%nat then (u64 (Z.shiftr (sint 64 (m 1%nat)) (Z.land (v 2%nat) 63)), all_ones) else unknown
  | op_shr W32 =>
    if const 2%nat then (Z.shiftr (u32 (m 1%nat)) (Z.land (v 2%nat) 31), all_ones) else unknown
  | op_shr W64 =>
    if const 2%nat then (Z.shiftr (m 1%nat) (Z.land (v 2%nat) 63), all_ones) else unknown
  | op_extrl_i64_i32 => (u32 (m 1%nat), all_ones)
  | op_extrh_i64_i32 => (Z.shiftr (m 1%nat) 32, all_ones)
  | op_shl _ =>
    if const 2%nat then (u64 (Z.shiftl (m 1%nat) (Z.land (v 2%nat) 63)), all_ones) else unknown
  | op_neg (Int _) => (u64 (- (Z.land (m 1%nat) (u64 (- m 1%nat)))), all_ones)
  | op_deposit _ => (deposit64 (m 1%nat) (a 3%nat) (a 4%nat) (m 2%nat), all_ones)
  | op_extract _ =>
    let k := extract64 (m 1%nat) (a 2%nat) (a 3%nat) in
    (k, if a 2%nat =? 0 then Z.land (m 1%nat) (not64 k) else all_ones)
  | op_sextract _ =>
    let k := sextract64 (m 1%nat) (a 2%nat) (a 3%nat) in
    (k, if (a 2%nat =? 0) && (0 <=? sint 64 k) then Z.land (m 1%nat) (not64 k) else all_ones)
  | op_or (Int _) | op_xor (Int _) => (Z.lor (m 1%nat) (m 2%nat), all_ones)
  | op_clz W32 | op_ctz W32 => (Z.lor (m 2%nat) 31, all_ones)
  | op_clz W64 | op_ctz W64 => (Z.lor (m 2%nat) 63, all_ones)
  | op_ctpop W32 => (Z.lor 32 31, all_ones)
  | op_ctpop W64 => (Z.lor 64 63, all_ones)
  | op_setcond _ | op_setcond2_i32 => (1, all_ones)
  | op_movcond _ => (Z.lor (m 3%nat) (m 4%nat), all_ones)
  | op_ld8u _ => (0xff, all_ones)
  | op_ld16u _ => (0xffff, all_ones)
  | op_ld32u_i64 => (0xffffffff, all_ones)
  | op_qemu_ld _ =>
    let mop := get_memop (a (op_oargs op + op_iargs op)%nat) in
    if Z.land mop MO_SIGN =? 0
    then (u64 (u64 (Z.shiftl 2 (Z.shiftl 8 (Z.land mop MO_SIZE) - 1)) - 1), all_ones) else unknown
  | _ => unknown
  end.

(** The mask to record, and the simplification when no bit can be set or none
    is affected. *)
Definition output_mask (op : TCGOp) (k : Z) : Z :=
  if opf_64bit (tcg_op_defs (opc op)) then k else Z.lor k (not64 0xffffffff).

Definition simplify_zeros (inf : temp_infos) (op : TCGOp) (k affected : Z) : simplified :=
  let low x := if opf_64bit (tcg_op_defs (opc op)) then x else Z.land x 0xffffffff in
  if low k =? 0 then to_movi inf op 0
  else if low affected =? 0 then to_mov inf op (args op 1%nat)
  else None.

(** "op r, a, 0 => movi r, 0", "op r, a, a => mov r, a" and "op r, a, a =>
    movi r, 0" *)
Definition simplify_last (inf : temp_infos) (op : TCGOp) : simplified :=
  let a := args op in
  let zero := match opc op with
              | op_and _ | op_mul _ | op_muluh _ | op_mulsh _ => const_is inf (a 2%nat) 0
              | _ => false
              end in
  let same := ts_are_copies inf (a 1%nat) (a 2%nat) in
  if zero then to_movi inf op 0 else
  match opc op with
  | op_or _ | op_and _ => if same then to_mov inf op (a 1%nat) else None
  | op_andc _ | op_sub _ | op_xor _ => if same then to_movi inf op 0 else None
  | _ => None
  end.

(** ** Folding *)

(** [do_default:] nothing is known of the outputs but the mask of the first,
    and nothing of any temp after the end of a basic block. *)
Definition reset_outputs (inf : temp_infos) (op : TCGOp) (k : Z) : temp_infos :=
  foldl (fun inf i => let inf := reset_ts (args op i) inf in if (i =? 0)%nat then set_mask (args op i) k inf else inf)
    inf (seq 0 (op_oargs op)).

Definition do_default (inf : temp_infos) (op : TCGOp) (k : Z) : temp_infos :=
  if opf_bb_end (tcg_op_defs (opc op)) then ∅ else reset_outputs inf op k.

Definition dup_const (vece c : Z) : Z :=
  if vece =? 0 then u64 (0x0101010101010101 * u8 c)
  else if vece =? 1 then u64 (0x0001000100010001 * u16 c)
  else if vece =? 2 then u64 (0x0000000100000001 * u32 c)
  else if vece =? 3 then c else 0.

Definition folded : Type := option (temp_infos * list TCGOp).

(** A result that was computed, or [do_default]. *)
Definition fold_or_default (inf : temp_infos) (op : TCGOp) (k : Z) (const : bool) (res : option Z) : folded :=
  if const then tmp ← res; to_movi inf op tmp else Some (do_default inf op k, [op]).

Definition fold_movcond (inf : temp_infos) (op : TCGOp) (k : Z) (w : width) : folded :=
  let a := args op in
  tmp ← do_constant_folding_cond inf (opc op) (a 1%nat) (a 2%nat) (a 5%nat);
  match tmp with
  | Some b => to_mov inf op (a (if b : bool then 3%nat else 4%nat))
  | None =>
    let to_setcond cond := Some (do_default inf op k, [with_opc (op_setcond w) (with_arg 3 cond op)]) in
    if arg_is_const inf (a 3%nat) && arg_is_const inf (a 4%nat) then
      let tv := arg_val inf (a 3%nat) in
      let fv := arg_val inf (a 4%nat) in
      if (fv =? 1) && (tv =? 0) then to_setcond (tcg_invert_cond (a 5%nat))
      else if (tv =? 1) && (fv =? 0) then to_setcond (a 5%nat)
      else Some (do_default inf op k, [op])
    else Some (do_default inf op k, [op])
  end.

(** Two words [movi rh, high; movi rl, low]. *)
Definition fold_pair (inf : temp_infos) (op : TCGOp) (low high : Z) : folded :=
  let rl := args op 0%nat in
  let rh := args op 1%nat in
  let op2 := mk_op (op_movi W32) 0 0 (fun _ => 0) in
  let '(inf, op) := tcg_opt_gen_movi inf op rl low in
  let '(inf, op2) := tcg_opt_gen_movi inf op2 rh high in
  Some (inf, [op2; op]).

Definition word64 (inf : temp_infos) (l h : Z) : Z := Z.lor (u64 (Z.shiftl (u32 (arg_val inf h)) 32)) (u32 (arg_val inf l)).

Definition fold_brcond (inf : temp_infos) (op : TCGOp) (k : Z) : folded :=
  let a := args op in
  tmp ← do_constant_folding_cond inf (opc op) (a 0%nat) (a 1%nat) (a 2%nat);
  match tmp with
  | Some true => Some (∅, [with_arg 0 (a 3%nat) (with_opc op_br op)])
  | Some false => Some (inf, [])
  | None => Some (do_default inf op k, [op])
  end.

Definition fold_brcond2 (inf : temp_infos) (op : TCGOp) (k : Z) : folded :=
  let a := args op in
  let brcond_true := Some (∅, [with_arg 0 (a 5%nat) (with_opc op_br op)]) in
  let brcond_false := Some (inf, []) in
  let brcond_high :=
    Some (∅, [with_arg 3 (a 5%nat) (with_arg 2 (a 4%nat) (with_arg 1 (a 3%nat) (with_arg 0 (a 1%nat)
                (with_opc (op_brcond W32) op))))]) in
  let brcond_low :=
    Some (∅, [with_arg 3 (a 5%nat) (with_arg 2 (a 4%nat) (with_arg 1 (a 2%nat) (with_opc (op_brcond W32) op)))]) in
  let default := Some (do_default inf op k, [op]) in
  let cond := do_constant_folding_cond inf (op_brcond W32) in
  tmp ← do_constant_folding_cond2 inf (a 0%nat) (a 1%nat) (a 2%nat) (a 3%nat) (a 4%nat);
  match tmp with
  | Some true => brcond_true
  | Some false => brcond_false
  | None =>
    if ((a 4%nat =? TCG_COND_LT) || (a 4%nat =? TCG_COND_GE)) && const_is inf (a 2%nat) 0 && const_is inf (a 3%nat) 0
    then brcond_high
    else if a 4%nat =? TCG_COND_EQ then
      lo ← cond (a 0%nat) (a 2%nat) TCG_COND_EQ;
      match lo with
      | Some false => brcond_false
      | Some true => brcond_high
      | None =>
        hi ← cond (a 1%nat) (a 3%nat) TCG_COND_EQ;
        match hi with
        | Some false => brcond_false
        | Some true => brcond_low
        | None => default
        end
      end
    else if a 4%nat =? TCG_COND_NE then
      lo ← cond (a 0%nat) (a 2%nat) TCG_COND_NE;
      match lo with
      | Some false => brcond_high
      | Some true => brcond_true
      | None =>
        hi ← cond (a 1%nat) (a 3%nat) TCG_COND_NE;
        match hi with
        | Some false => brcond_low
        | Some true => brcond_true
        | None => default
        end
      end
    else default
  end.

Definition fold_setcond2 (inf : temp_infos) (op : TCGOp) (k : Z) : folded :=
  let a := args op in
  let setcond_const b := to_movi inf op (bool_val b) in
  let reset := set_mask (a 0%nat) 1 (reset_ts (a 0%nat) inf) in
  let setcond_high :=
    Some (reset, [with_arg 3 (a 5%nat) (with_arg 2 (a 4%nat) (with_arg 1 (a 2%nat) (with_opc (op_setcond W32) op)))]) in
  let setcond_low :=
    Some (reset, [with_arg 3 (a 5%nat) (with_arg 2 (a 3%nat) (with_opc (op_setcond W32) op))]) in
  let default := Some (do_default inf op k, [op]) in
  let cond := do_constant_folding_cond inf (op_setcond W32) in
  tmp ← do_constant_folding_cond2 inf (a 1%nat) (a 2%nat) (a 3%nat) (a 4%nat) (a 5%nat);
  match tmp with
  | Some b => setcond_const b
  | None =>
    if ((a 5%nat =? TCG_COND_LT) || (a 5%nat =? TCG_COND_GE)) && const_is inf (a 3%nat) 0 && const_is inf (a 4%nat) 0
    then setcond_high
    else if a 5%nat =? TCG_COND_EQ then
      lo ← cond (a 1%nat) (a 3%nat) TCG_COND_EQ;
      match lo with
      | Some false => setcond_const false
      | Some true => setcond_high
      | None =>
        hi ← cond (a 2%nat) (a 4%nat) TCG_COND_EQ;
        match hi with
        | Some false => setcond_high
        | Some true => setcond_low
        | None => default
        end
      end
    else if a 5%nat =? TCG_COND_NE then
      lo ← cond (a 1%nat) (a 3%nat) TCG_COND_NE;
      match lo with
      | Some false => setcond_high
      | Some true => setcond_const true
      | None =>
        hi ← cond (a 2%nat) (a 4%nat) TCG_COND_NE;
        match hi with
        | Some false => setcond_low
        | Some true => setcond_const true
        | None => default
        end
      end
    else default
  end.

(** A call may write the globals. *)
Definition fold_call (inf : temp_infos) (op : TCGOp) (k : Z) : folded :=
  let inf :=
    if call_keeps_globals op then inf
    else foldl (fun inf t => match inf !! t with Some _ => reset_ts t inf | None => inf end) inf (seqZ 1 (nb_globals s)) in
  Some (reset_outputs inf op k, [op]).

(** The last switch. *)
Definition fold_op (inf : temp_infos) (op : TCGOp) (k : Z) : folded :=
  let a := args op in
  let v i := arg_val inf (a i) in
  let const i := arg_is_const inf (a i) in
  match opc op with
  | op_mov _ => to_mov inf op (a 1%nat)
  | op_movi _ | op_dupi_vec => to_movi inf op (a 1%nat)
  | op_dup_vec => fold_or_default inf op k (const 1%nat) (Some (dup_const (TCGOP_VECE op) (v 1%nat)))
  | op_not (Int _) | op_neg (Int _) | op_ext8s _ | op_ext8u _ | op_ext16s _ | op_ext16u _ | op_ctpop _
  | op_bswap16 _ | op_bswap32 _ | op_bswap64_i64 | op_ext32s_i64 | op_ext32u_i64 | op_ext_i32_i64
  | op_extu_i32_i64 | op_extrl_i64_i32 | op_extrh_i64_i32 =>
    fold_or_default inf op k (const 1%nat) (do_constant_folding (opc op) (v 1%nat) 0)
  | op_add (Int _) | op_sub (Int _) | op_mul (Int _) | op_or (Int _) | op_and (Int _) | op_xor (Int _)
  | op_shl _ | op_shr _ | op_sar _ | op_rotl _ | op_rotr _ | op_andc (Int _) | op_orc (Int _)
  | op_eqv _ | op_nand _ | op_nor _ | op_muluh _ | op_mulsh _ | op_div _ | op_divu _ | op_rem _ | op_remu _ =>
    fold_or_default inf op k (const 1%nat && const 2%nat) (do_constant_folding (opc op) (v 1%nat) (v 2%nat))
  | op_clz _ | op_ctz _ =>
    if const 1%nat then
      if negb (v 1%nat =? 0) then tmp ← do_constant_folding (opc op) (v 1%nat) 0; to_movi inf op tmp
      else to_mov inf op (a 2%nat)
    else Some (do_default inf op k, [op])
  | op_deposit _ =>
    fold_or_default inf op k (const 1%nat && const 2%nat) (Some (deposit64 (v 1%nat) (a 3%nat) (a 4%nat) (v 2%nat)))
  | op_extract _ => fold_or_default inf op k (const 1%nat) (Some (extract64 (v 1%nat) (a 2%nat) (a 3%nat)))
  | op_sextract _ => fold_or_default inf op k (const 1%nat) (Some (sextract64 (v 1%nat) (a 2%nat) (a 3%nat)))
  | op_extract2 w =>
    fold_or_default inf op k (const 1%nat && const 2%nat)
      (Some (match w with
             | W64 => Z.lor (Z.shiftr (v 1%nat) (a 3%nat)) (u64 (Z.shiftl (v 2%nat) (64 - a 3%nat)))
             | W32 => s64 32 (Z.lor (Z.shiftr (u32 (v 1%nat)) (a 3%nat)) (u32 (Z.shiftl (u32 (v 2%nat)) (32 - a 3%nat))))
             end))
  | op_setcond _ =>
    tmp ← do_constant_folding_cond inf (opc op) (a 1%nat) (a 2%nat) (a 3%nat);
    match tmp with
    | Some b => to_movi inf op (bool_val b)
    | None => Some (do_default inf op k, [op])
    end
  | op_brcond _ => fold_brcond inf op k
  | op_movcond w => fold_movcond inf op k w
  | op_add2 W32 | op_sub2 W32 =>
    if const 2%nat && const 3%nat && const 4%nat && const 5%nat then
      let x := word64 inf (a 2%nat) (a 3%nat) in
      let y := word64 inf (a 4%nat) (a 5%nat) in
      let r := u64 (if decide (opc op = op_add2 W32) then x + y else x - y) in
      fold_pair inf op (s64 32 r) (s64 32 (Z.shiftr r 32))
    else Some (do_default inf op k, [op])
  | op_mulu2 W32 =>
    if const 2%nat && const 3%nat then
      let r := u64 (u32 (v 2%nat) * u32 (v 3%nat)) in
      fold_pair inf op (s64 32 r) (s64 32 (Z.shiftr r 32))
    else Some (do_default inf op k, [op])
  | op_brcond2_i32 => fold_brcond2 inf op k
  | op_setcond2_i32 => fold_setcond2 inf op k
  | op_call => fold_call inf op k
  | _ => Some (do_default inf op k, [op])
  end.

(** ** The loop *)

(** The temps an operation uses. *)
Definition init_args (inf : temp_infos) (op : TCGOp) : temp_infos :=
  foldl (fun inf i =>
           let ts := args op i in
           if bool_decide (opc op = op_call) && (ts =? 0) then inf else init_ts_info ts inf)
    inf (seq 0 (op_oargs op + op_iargs op)).

Definition copy_propagation (inf : temp_infos) (op : TCGOp) : TCGOp :=
  foldl (fun op i =>
           let ts := args op i in
           if negb (ts =? 0) && ts_is_copy inf ts then with_arg i (find_better_copy inf ts) op else op)
    op (seq (op_oargs op) (op_iargs op)).

(** The passes over one operation up to the fences; [true]: the rest of the
    loop body is skipped. *)
Definition simplify_op (inf : temp_infos) (op : TCGOp) : option (temp_infos * list TCGOp * bool) :=
  let inf := init_args inf op in
  let op := canonicalize inf (copy_propagation inf op) in
  let '(k, affected) := known_zeros inf op in
  match simplify_first inf op with
  | Some (inf, ops) => Some (inf, ops, true)
  | None =>
  match simplify_neutral inf op with
  | Some (inf, ops) => Some (inf, ops, true)
  | None =>
  match simplify_zeros inf op k affected with
  | Some (inf, ops) => Some (inf, ops, true)
  | None =>
  match simplify_last inf op with
  | Some (inf, ops) => Some (inf, ops, true)
  | None => '(inf, ops) ← fold_op inf op (output_mask op k); Some (inf, ops, false)
  end end end end.

(** What is known, the operations so far, and the place of [prev_mb] in them. *)
Record opt_state := mk_opt { o_infos : temp_infos; o_out : list TCGOp; o_mb : option nat }.

(** Opcodes that touch guest memory, and those that end the block, end the
    search for fences to merge. *)
Definition ends_fence (c : TCGOpcode) : bool :=
  match c with
  | op_qemu_ld _ | op_qemu_st _ | op_call => true
  | _ => opf_bb_end (tcg_op_defs c)
  end.

Definition optimize_op (st : opt_state) (op : TCGOp) : option opt_state :=
  '(inf, ops, skip) ← simplify_op (o_infos st) op;
  let out := o_out st in
  if skip : bool then Some (mk_opt inf (out ++ ops) (o_mb st)) else
  match o_mb st with
  | Some p =>
    if decide (opc op = op_mb) then
      Some (mk_opt inf (alter (fun mb => with_arg 0 (Z.lor (args mb 0%nat) (args op 0%nat)) mb) p out) (Some p))
    else Some (mk_opt inf (out ++ ops) (if ends_fence (opc op) then None else Some p))
  | None =>
    Some (mk_opt inf (out ++ ops) (if decide (opc op = op_mb) then Some (length out) else None))
  end.

Fixpoint optimize_loop (st : opt_state) (ops : list TCGOp) : option opt_state :=
  match ops with
  | [] => Some st
  | op :: ops => st ← optimize_op st op; optimize_loop st ops
  end.

Definition tcg_optimize (ops : list TCGOp) : option (list TCGOp) :=
  o_out <$> optimize_loop (mk_opt ∅ [] None) ops.
End optimize.
