(* ===== verification/TcgValues.v ===== *)
(** * Words, bits and elements

    The lemmas on the values of temps that the proof of the optimizer uses:
    wrapping of the bitwise operators, bit fields, elements of vectors, and that
    constant folding computes what the operations mean. *)

From S2P Require Import Prelude BitOps HostUtils TcgOps TcgSem TcgOptimize.

(** ** Wrapping and bits *)

Lemma wrap_spec n x i : 0 <= n -> 0 <= i -> Z.testbit (wrap n x) i = (i <? n) && Z.testbit x i.
Proof.
  intros Hn Hi. unfold wrap. destruct (Z.ltb_spec i n).
  - by rewrite Z.mod_pow2_bits_low.
  - by rewrite Z.mod_pow2_bits_high.
Qed.

(** Equality of words bit by bit. *)
Ltac bitwise :=
  apply Z.bits_inj'; intros ?i ?Hi;
  repeat first [rewrite wrap_spec by lia | rewrite Z.land_spec | rewrite Z.lor_spec | rewrite Z.lxor_spec
               | rewrite Z.ldiff_spec | rewrite Z.lnot_spec by lia];
  repeat match goal with |- context [?a <? ?b] => destruct (Z.ltb_spec a b) end;
  repeat match goal with |- context [Z.testbit ?x ?i] => destruct (Z.testbit x i) end; try reflexivity; try lia.

Section wrap.
Context (n : Z) (Hn : 0 <= n).

Lemma wrap_mul_l a b : wrap n (wrap n a * b) = wrap n (a * b).
Proof. apply Zmult_mod_idemp_l. Qed.
Lemma wrap_mul_r a b : wrap n (a * wrap n b) = wrap n (a * b).
Proof. apply Zmult_mod_idemp_r. Qed.
Lemma wrap_opp a : wrap n (- wrap n a) = wrap n (- a).
Proof. rewrite <- !Z.sub_0_l. apply wrap_sub_r. Qed.
Lemma wrap_land a b : wrap n (Z.land a b) = Z.land (wrap n a) (wrap n b).
Proof. bitwise. Qed.
Lemma wrap_lor a b : wrap n (Z.lor a b) = Z.lor (wrap n a) (wrap n b).
Proof. bitwise. Qed.
Lemma wrap_lxor a b : wrap n (Z.lxor a b) = Z.lxor (wrap n a) (wrap n b).
Proof. bitwise. Qed.
Lemma wrap_ldiff a b : wrap n (Z.ldiff a b) = Z.ldiff (wrap n a) (wrap n b).
Proof. bitwise. Qed.
Lemma wrap_lnot a : wrap n (Z.lnot (wrap n a)) = wrap n (Z.lnot a).
Proof. bitwise. Qed.
End wrap.

Lemma wrap_le n m x : 0 <= n <= m -> wrap n (wrap m x) = wrap n x.
Proof. intros H. bitwise. Qed.

Lemma sint_wrap n x : 0 <= n -> sint n (wrap n x) = sint n x.
Proof. intros H. unfold sint. by rewrite wrap_wrap. Qed.

Lemma wrap_sint n x : 0 <= n -> wrap n (sint n x) = wrap n x.
Proof.
  intros H. unfold sint. cbn zeta. destruct (wrap n x <? 2 ^ (n - 1)); [by apply wrap_wrap|].
  unfold wrap at 1. replace (wrap n x - 2 ^ n) with (wrap n x + -1 * 2 ^ n) by lia.
  rewrite Z.mod_add by (apply Z.pow_nonzero; lia). by apply (wrap_wrap n x).
Qed.

Lemma wrap_s64 n x : 0 <= n <= 64 -> wrap n (s64 n x) = wrap n x.
Proof. intros H. unfold s64. rewrite wrap_le by lia. apply wrap_sint; lia. Qed.

Lemma s64_range n x : uint 64 (s64 n x).
Proof. apply wrap_range. lia. Qed.

(** ** Elements of vectors *)

Definition el (e : Z) (k : nat) (x : Z) : Z := wrap e (x / 2 ^ (e * Z.of_nat k)).

Section elements.
Context (e : Z) (He : 0 < e).

Lemma el_0 x : el e 0 x = wrap e x.
Proof. unfold el. by rewrite Z.mul_0_r, Z.pow_0_r, Z.div_1_r. Qed.

Lemma el_S k x : el e (S k) x = el e k (x / 2 ^ e).
Proof.
  unfold el. rewrite Z.div_div by (try apply Z.pow_nonzero; try apply Z.pow_pos_nonneg; lia).
  rewrite <- Z.pow_add_r by lia. do 2 f_equal. f_equal. lia.
Qed.

Lemma vmap2_range n f x y : 0 <= vmap2 n e f x y < 2 ^ (e * Z.of_nat n).
Proof.
  revert x y. induction n as [|n IH]; intros x y; [by rewrite Z.mul_0_r|]. cbn [vmap2].
  specialize (IH (x / 2 ^ e) (y / 2 ^ e)). pose proof (wrap_range e (f (wrap e x) (wrap e y)) ltac:(lia)) as Hr.
  unfold uint in Hr. replace (e * Z.of_nat (S n)) with (e + e * Z.of_nat n) by lia. rewrite Z.pow_add_r by lia. nia.
Qed.

Lemma vmap2_el n f x y k : (k < n)%nat -> el e k (vmap2 n e f x y) = wrap e (f (el e k x) (el e k y)).
Proof.
  revert x y k. induction n as [|n IH]; intros x y k Hk; [lia|]. cbn [vmap2].
  pose proof (wrap_range e (f (wrap e x) (wrap e y)) ltac:(lia)) as Hr. pose proof (Z.pow_pos_nonneg 2 e).
  unfold uint in Hr. destruct k as [|k].
  - rewrite !el_0. unfold wrap at 1. rewrite Z.mul_comm, Z.mod_add by lia. by apply Z.mod_small.
  - rewrite !el_S. rewrite (Z.mul_comm (2 ^ e)), Z.div_add, (Z.div_small (wrap _ _)), Z.add_0_l by lia. apply IH. lia.
Qed.

(** A number is its elements. *)
Lemma el_eq n x y :
  0 <= x < 2 ^ (e * Z.of_nat n) -> 0 <= y < 2 ^ (e * Z.of_nat n) ->
  (forall k, (k < n)%nat -> el e k x = el e k y) -> x = y.
Proof.
  revert x y. induction n as [|n IH]; intros x y Hx Hy Hk; [rewrite Z.mul_0_r in *; lia|].
  replace (e * Z.of_nat (S n)) with (e + e * Z.of_nat n) in * by lia. rewrite Z.pow_add_r in * by lia.
  pose proof (Z.pow_pos_nonneg 2 e ltac:(lia) ltac:(lia)) as Pe.
  pose proof (Hk 0%nat ltac:(lia)) as H0. rewrite !el_0 in H0. unfold wrap in H0.
  assert (x / 2 ^ e = y / 2 ^ e) as Hd.
  { apply IH.
    - split; [apply Z.div_pos; lia|apply Z.div_lt_upper_bound; lia].
    - split; [apply Z.div_pos; lia|apply Z.div_lt_upper_bound; lia].
    - intros k Hkn. rewrite <- !el_S. apply Hk. lia. }
  rewrite (Z.div_mod x (2 ^ e)), (Z.div_mod y (2 ^ e)), Hd, H0 by lia. done.
Qed.

Lemma vmap2_eq n f x y z :
  0 <= z < 2 ^ (e * Z.of_nat n) -> (forall k, (k < n)%nat -> wrap e (f (el e k x) (el e k y)) = el e k z) ->
  vmap2 n e f x y = z.
Proof.
  intros Hz Hk. apply (el_eq n); [apply vmap2_range|done|]. intros k Hkn. rewrite vmap2_el by done. by apply Hk.
Qed.

Lemma el_range k x : uint e (el e k x).
Proof. apply wrap_range. lia. Qed.

Lemma el_zero k : el e k 0 = 0.
Proof. unfold el. rewrite Z.div_0_l by (apply Z.pow_nonzero; lia). by rewrite wrap_id by (split; [lia|apply Z.pow_pos_nonneg; lia]). Qed.

Lemma el_ones n k : (k < n)%nat -> el e k (2 ^ (e * Z.of_nat n) - 1) = 2 ^ e - 1.
Proof.
  intros Hk. unfold el. replace (2 ^ (e * Z.of_nat n) - 1) with (Z.ones (e * Z.of_nat n)) by (rewrite Z.ones_equiv; lia).
  rewrite <- Z.shiftr_div_pow2 by lia. replace (2 ^ e - 1) with (Z.ones e) by (rewrite Z.ones_equiv; lia).
  apply Z.bits_inj'. intros i Hi. rewrite wrap_spec, Z.shiftr_spec, !Z.testbit_ones_nonneg by nia.
  destruct (Z.ltb_spec i e), (Z.ltb_spec (i + e * Z.of_nat k) (e * Z.of_nat n)); try done; nia.
Qed.
End elements.

(** ** Constant folding *)

Definition op_width (c : TCGOpcode) : width := if opf_64bit (tcg_op_defs c) then W64 else W32.

(** A constant [t] for the value [z]: the words agree, and a 32-bit constant is
    0 when its low word is. *)
Definition const_for (w : width) (t z : Z) : Prop :=
  uint 64 t /\ wrap (bits w) t = z /\ (w = W32 -> u32 t = 0 -> t = 0).

Lemma s64_zero x : u32 (s64 32 x) = 0 -> s64 32 x = 0.
Proof.
  rewrite wrap_s64 by lia. intros H. unfold s64, sint. rewrite H. reflexivity.
Qed.

Lemma fold_finish c vx vy r z :
  do_constant_folding_2 c vx vy = Some r ->
  (op_width c = W64 -> uint 64 r /\ r = z) -> (op_width c = W32 -> u32 r = z) ->
  exists t, do_constant_folding c vx vy = Some t /\ const_for (op_width c) t z.
Proof.
  intros Hr H64 H32. unfold do_constant_folding. rewrite Hr. cbn [mbind option_bind]. unfold op_width in *.
  destruct (opf_64bit (tcg_op_defs c)).
  - destruct H64 as [Hu ->]; [done|]. exists z. split; [done|]. split; [done|]. split; [by apply wrap_id|done].
  - exists (s64 32 r). split; [done|]. split; [apply s64_range|]. split; [|intros _; apply s64_zero].
    change (bits W32) with 32. rewrite wrap_s64 by lia. by apply H32.
Qed.

(** Counts. *)
Lemma count_set_range n x : 0 <= n -> 0 <= count_set n x <= n.
Proof.
  intros Hn. unfold count_set. assert (forall l, 0 <= foldr (fun i k => k + (if Z.testbit x i then 1 else 0)) 0 l <= Z.of_nat (length l)) as H.
  { induction l as [|i l IH]; [done|]. cbn [foldr length]. destruct (Z.testbit x i); lia. }
  specialize (H (seqZ 0 n)). rewrite length_seqZ in H. lia.
Qed.

Lemma log2_range n x : 0 < x < 2 ^ n -> 0 <= n - 1 - Z.log2 x < n.
Proof. intros H. pose proof (Z.log2_nonneg x). pose proof (proj1 (Z.log2_lt_pow2 x n ltac:(lia)) ltac:(lia)). lia. Qed.

Lemma small_uint n x : 7 <= n -> 0 <= x <= 64 -> wrap n x = x.
Proof. intros Hn Hx. apply wrap_id. pose proof (Z.pow_le_mono_r 2 7 n). unfold uint. lia. Qed.

(** Rotations by less than the width. *)
Lemma land_count n k y : n = 2 ^ k -> 0 <= k -> 0 <= y < n -> Z.land y (n - 1) = y.
Proof. intros -> Hk Hy. rewrite land_low_bits by done. by apply Z.mod_small. Qed.

Lemma land_rest n k y : n = 2 ^ k -> 0 <= k -> 0 <= y < n -> Z.land (n - y) (n - 1) = if y =? 0 then 0 else n - y.
Proof.
  intros -> Hk Hy. rewrite land_low_bits by done. destruct (Z.eqb_spec y 0) as [-> |].
  - rewrite Z.sub_0_r. apply Z.mod_same. lia.
  - apply Z.mod_small. lia.
Qed.

Lemma shift_out n x : uint n x -> 0 <= n -> Z.shiftr x n = 0.
Proof. intros Hx Hn. rewrite Z.shiftr_div_pow2 by done. by apply Z.div_small. Qed.

Lemma shl_out n x : 0 <= n -> wrap n (Z.shiftl x n) = 0.
Proof. intros Hn. rewrite Z.shiftl_mul_pow2 by done. apply Z.mod_mul. apply Z.pow_nonzero; lia. Qed.

Lemma shiftr_range n x k : uint n x -> 0 <= k -> 0 <= n -> uint n (Z.shiftr x k).
Proof.
  intros Hx Hk Hn. unfold uint in *. rewrite Z.shiftr_div_pow2 by done. pose proof (Z.pow_pos_nonneg 2 k).
  split; [apply Z.div_pos; lia|]. apply Z.div_lt_upper_bound; nia.
Qed.

Lemma rol_ok n k word y : n = 2 ^ k -> 0 <= k -> uint n word -> 0 <= y < n ->
  Z.lor (wrap n (Z.shiftl word y)) (Z.shiftr word (Z.land (n - y) (n - 1))) =
  wrap n (Z.lor (Z.shiftl word y) (Z.shiftr word (n - y))).
Proof.
  intros En Hk Hw Hy. rewrite (land_rest n k) by done. rewrite wrap_lor by lia.
  rewrite (wrap_id n (Z.shiftr word (n - y))) by (apply shiftr_range; (done || lia)).
  destruct (Z.eqb_spec y 0) as [-> |]; [|done].
  rewrite Z.sub_0_r, Z.shiftr_0_r, Z.shiftl_0_r, shift_out, Z.lor_0_r, wrap_id by (done || lia). apply Z.lor_diag.
Qed.

Lemma ror_ok n k word y : n = 2 ^ k -> 0 <= k -> uint n word -> 0 <= y < n ->
  Z.lor (Z.shiftr word y) (wrap n (Z.shiftl word (Z.land (n - y) (n - 1)))) =
  wrap n (Z.lor (Z.shiftr word y) (Z.shiftl word (n - y))).
Proof.
  intros En Hk Hw Hy. rewrite (land_rest n k) by done. rewrite wrap_lor by lia.
  rewrite (wrap_id n (Z.shiftr word y)) by (apply shiftr_range; (done || lia)).
  destruct (Z.eqb_spec y 0) as [-> |]; [|done].
  rewrite Z.sub_0_r, Z.shiftr_0_r, Z.shiftl_0_r, shl_out, Z.lor_0_r, wrap_id by (done || lia). apply Z.lor_diag.
Qed.

Lemma lift2_int o w f x y : lift2 (lanes o (Int w)) f x y = wrap (bits w) (f (wrap (bits w) x) (wrap (bits w) y)).
Proof. unfold lift2, lanes. cbn [fst snd vmap2]. by rewrite Z.mul_0_r, Z.add_0_r. Qed.

Lemma lift1_int o w f x : lift1 (lanes o (Int w)) f x = wrap (bits w) (f (wrap (bits w) x)).
Proof. unfold lift1, lanes. cbn [fst snd vmap2]. by rewrite Z.mul_0_r, Z.add_0_r. Qed.

Definition folds2 (c : TCGOpcode) : bool :=
  match c with
  | op_add (Int _) | op_sub (Int _) | op_mul (Int _) | op_or (Int _) | op_and (Int _) | op_xor (Int _)
  | op_shl _ | op_shr _ | op_sar _ | op_rotl _ | op_rotr _ | op_andc (Int _) | op_orc (Int _)
  | op_eqv _ | op_nand _ | op_nor _ | op_muluh _ | op_mulsh _ | op_div _ | op_divu _ | op_rem _ | op_remu _ => true
  | _ => false
  end.

(** Case distinction on the opcode and its width. *)
Ltac case_opc o Eo :=
  destruct (opc o) eqn:Eo; try discriminate;
  repeat match goal with t : op_type |- _ => destruct t; try discriminate end;
  repeat match goal with w : width |- _ => destruct w end; try discriminate.

(** An operation only sees the bits of its width. *)
Lemma sint_ext n x x' : 0 <= n -> wrap n x = wrap n x' -> sint n x = sint n x'.
Proof. intros Hn E. rewrite <- (sint_wrap n x), <- (sint_wrap n x'), E by done. done. Qed.

Lemma bits_pos w : 32 <= bits w <= 64.
Proof. by destruct w. Qed.

Lemma sem2_ext o x y x' y' : folds2 (opc o) = true ->
  let n := bits (op_width (opc o)) in
  wrap n x = wrap n x' -> wrap n y = wrap n y' -> op_sem o [x; y] = op_sem o [x'; y'].
Proof.
  intros Hf. cbn zeta. intros Ex Ey. pose proof (bits_pos (op_width (opc o))) as Hn.
  pose proof (sint_ext (bits (op_width (opc o))) x x' ltac:(lia) Ex) as Sx. pose proof (sint_ext (bits (op_width (opc o))) y y' ltac:(lia) Ey) as Sy.
  unfold op_sem, shift_sem, divs_sem, divu_sem. cbv zeta.
  case_opc o Eo; unfold op_width in *; cbn [tcg_op_defs def_w def_t opf_64bit is64 bits] in *;
    rewrite ?lift2_int; cbn [bits]; rewrite ?Ex, ?Ey, ?Sx, ?Sy; reflexivity.
Qed.

Lemma fold_exact c vx vy r z :
  do_constant_folding_2 c vx vy = Some r ->
  (op_width c = W64 -> r = z) -> (op_width c = W32 -> u32 r = z) -> uint (bits (op_width c)) z ->
  exists t, do_constant_folding c vx vy = Some t /\ const_for (op_width c) t z.
Proof.
  intros Hr H64 H32 Hz. eapply fold_finish; [done| |done]. intros Hw. rewrite Hw in Hz. by rewrite H64.
Qed.

(** The count of a shift that is in range. *)
Lemma shift_count n k w y : n = 2 ^ k -> 0 <= k <= w -> wrap w y < n -> Z.land y (n - 1) = wrap w y.
Proof.
  intros -> Hk Hy. rewrite land_low_bits by lia. pose proof (wrap_range w y ltac:(lia)) as Hr. unfold uint in Hr.
  change (y mod 2 ^ k) with (wrap k y). rewrite <- (wrap_le k w y) by lia. apply Z.mod_small. lia.
Qed.

Lemma mul_high a b : uint 64 a -> uint 64 b ->
  (mulu64 a b).2 = u64 (a * b / 2 ^ 64) /\ (muls64 a b).2 = u64 (sint 64 a * sint 64 b / 2 ^ 64).
Proof.
  intros Ha Hb. destruct (mul64_ok a b Ha Hb) as (l & h & Eu & Hl & Hh & Ep). split.
  - unfold mulu64. rewrite Eu, <- Ep. cbn [snd]. unfold pair128, uint in *.
    rewrite Z.add_comm, Z.div_add, Z.div_small, Z.add_0_l by lia. symmetry. by apply wrap_id.
  - destruct (muls64_ok a b Ha Hb) as (l' & h' & -> & Hl' & Hh' & Ep'). cbn [snd].
    set (p := sint 64 a * sint 64 b) in *. pose proof (Z.div_mod p (2 ^ 64) ltac:(lia)) as D.
    pose proof (Z.mod_pos_bound p (2 ^ 64) ltac:(lia)) as B.
    rewrite D, (Z.mul_comm (2 ^ 64)), pair_mod in Ep' by lia. unfold pair128 in Ep'.
    pose proof (wrap_range 64 (p / 2 ^ 64) ltac:(lia)) as Hw. unfold uint in *. nia.
Qed.

Lemma div_range n a b : uint n a -> 0 < b -> uint n (a / b).
Proof. unfold uint. intros Ha Hb. split; [apply Z.div_pos; lia|apply Z.div_lt_upper_bound; nia]. Qed.

Lemma fold2_ok o vx vy z :
  folds2 (opc o) = true -> uint 64 vx -> uint 64 vy -> op_sem o [vx; vy] = Some [z] ->
  exists t, do_constant_folding (opc o) vx vy = Some t /\ const_for (op_width (opc o)) t z.
Proof.
  intros Hf Hx Hy Hs. unfold op_sem, shift_sem, divs_sem, divu_sem in Hs. cbv zeta in Hs.
  case_opc o Eo; rewrite ?lift2_int in Hs; cbn [bits] in Hs;
    repeat match type of Hs with (if ?b then _ else _) = _ => destruct b eqn:?; try discriminate Hs end;
    injection Hs as <-; (eapply fold_exact; [reflexivity|..]); cbn [op_width tcg_op_defs def_w def_t opf_64bit is64 bits];
    try (intros; discriminate); try (apply wrap_range; lia); intros _;
    rewrite ?(wrap_id 64 vx), ?(wrap_id 64 vy) by done; try done; try (unfold not64; bitwise; fail).
  all: try (rewrite wrap_le by lia; rewrite ?wrap_add_l, ?wrap_add_r, ?wrap_sub_l, ?wrap_sub_r, ?wrap_mul_l, ?wrap_mul_r by lia; done).
  all: bool_to_prop; repeat match goal with
    | H : sint _ _ <> 0 |- _ => rewrite (proj2 (Z.eqb_neq _ _) H); clear H
    | H : wrap 64 ?y <> 0 |- _ => rewrite (wrap_id 64 y) in H by done
    | H : wrap 32 _ <> 0 |- _ => rewrite (proj2 (Z.eqb_neq _ _) H); clear H
    | H : ?y <> 0, Hy : uint 64 ?y |- _ => rewrite (proj2 (Z.eqb_neq _ _) H)
    | H : wrap 32 ?y < 32 |- context [Z.land ?y 31] => rewrite (shift_count 32 5 32 y eq_refl ltac:(lia) H : Z.land y 31 = _)
    | H : wrap 64 ?y < 64 |- context [Z.land ?y 63] =>
        rewrite (shift_count 64 6 64 y eq_refl ltac:(lia) H : Z.land y 63 = _), (wrap_id 64 y) in * by done end;
    cbn [negb]; rewrite ?wrap_le, ?wrap_wrap, ?sint_wrap by lia; try done.
  all: try (rewrite Z.shiftr_div_pow2 by lia; done).
  all: try (apply mul_high; done).
  - symmetry. apply wrap_id, div_range; [done|]. unfold uint in Hy. lia.
  - symmetry. apply wrap_id. unfold uint in *. pose proof (Z.mod_pos_bound vx vy). lia.
  - by rewrite wrap_land, !wrap_id by (done || lia).
  - by rewrite wrap_lor, !wrap_id by (done || lia).
  - by rewrite wrap_lxor, !wrap_id by (done || lia).
  - symmetry. apply wrap_id, shiftr_range; [done|apply Hy|lia].
  - pose proof (wrap_range 32 vy ltac:(lia)). unfold uint in *. unfold rol32. rewrite (rol_ok 32 5) by (try apply wrap_range; lia).
    by rewrite wrap_wrap by lia.
  - unfold uint in Hy. unfold rol64. by rewrite (rol_ok 64 6) by (done || lia).
  - pose proof (wrap_range 32 vy ltac:(lia)). unfold uint in *. unfold ror32. rewrite (ror_ok 32 5) by (try apply wrap_range; lia).
    by rewrite wrap_wrap by lia.
  - unfold uint in Hy. unfold ror64. by rewrite (ror_ok 64 6) by (done || lia).
  - unfold not64. by rewrite wrap_lor, (wrap_id 64 vx) by (done || lia).
Qed.

Definition folds1 (c : TCGOpcode) : bool :=
  match c with
  | op_not (Int _) | op_neg (Int _) | op_ext8s _ | op_ext8u _ | op_ext16s _ | op_ext16u _ | op_ctpop _
  | op_bswap16 _ | op_bswap32 _ | op_bswap64_i64 | op_ext32s_i64 | op_ext32u_i64 | op_ext_i32_i64
  | op_extu_i32_i64 | op_extrl_i64_i32 | op_extrh_i64_i32 => true
  | _ => false
  end.

(** The width at which an operation reads its inputs. *)
Definition in_width (c : TCGOpcode) : width :=
  match c with
  | op_ext_i32_i64 | op_extu_i32_i64 => W32
  | op_extrl_i64_i32 | op_extrh_i64_i32 => W64
  | _ => op_width c
  end.

Lemma sint_le n m x : 0 <= n <= m -> sint n (wrap m x) = sint n x.
Proof. intros H. apply sint_ext; [lia|]. by apply wrap_le. Qed.

Lemma sem1_ext o x x' : folds1 (opc o) = true ->
  wrap (bits (in_width (opc o))) x = wrap (bits (in_width (opc o))) x' -> op_sem o [x] = op_sem o [x'].
Proof.
  intros Hf Ex. unfold op_sem. cbv zeta.
  case_opc o Eo; unfold in_width, op_width in *; cbn [tcg_op_defs def_w def_t opf_64bit is64 bits] in *;
    rewrite ?lift1_int; cbn [bits]; rewrite ?Ex; try reflexivity.
  - by rewrite !(sint_le 32 64), (sint_ext 32 x x') by (done || lia).
  - by rewrite !(wrap_le 32 64), Ex by lia.
  - rewrite <- (wrap_le 32 64 x), Ex by lia. by rewrite wrap_le by lia.
Qed.

Lemma bswap16_wrap x : bswap16 (u16 x) = bswap16 x.
Proof.
  unfold bswap16. change 0x00ff with (Z.land (2 ^ 16 - 1) 0xff). change 0xff00 with (Z.land (2 ^ 16 - 1) 0xff00).
  rewrite !Z.land_assoc, !land_low_bits by lia. unfold wrap. by rewrite !Zmod_mod.
Qed.

Lemma bswap32_wrap x : bswap32 (u32 x) = bswap32 x.
Proof.
  unfold bswap32. change 0x000000ff with (Z.land (2 ^ 32 - 1) 0xff). change 0x0000ff00 with (Z.land (2 ^ 32 - 1) 0xff00).
  change 0x00ff0000 with (Z.land (2 ^ 32 - 1) 0xff0000). change 0xff000000 with (Z.land (2 ^ 32 - 1) 0xff000000).
  rewrite !Z.land_assoc, !land_low_bits by lia. unfold wrap. by rewrite !Zmod_mod.
Qed.

(** A swap fits in its word. *)
Lemma lor_uint n x y : 0 <= n -> uint n x -> uint n y -> uint n (Z.lor x y).
Proof. intros Hn Hx Hy. by apply lor_bound. Qed.

Lemma part_up n x m k M : 0 <= m < M -> 0 <= k -> M * 2 ^ k <= 2 ^ n -> uint n (Z.shiftl (Z.land x m) k).
Proof.
  intros Hm Hk HM. rewrite Z.land_comm. pose proof (land_nonneg_le m x ltac:(lia)). rewrite Z.shiftl_mul_pow2 by done.
  pose proof (Z.pow_pos_nonneg 2 k). unfold uint. nia.
Qed.

Lemma part_down n x m k M : 0 <= m < M -> 0 <= k -> M <= 2 ^ n -> uint n (Z.shiftr (Z.land x m) k).
Proof.
  intros Hm Hk HM. rewrite Z.land_comm. pose proof (land_nonneg_le m x ltac:(lia)). rewrite Z.shiftr_div_pow2 by done.
  pose proof (Z.pow_pos_nonneg 2 k). unfold uint. split; [apply Z.div_pos; lia|]. apply Z.div_lt_upper_bound; nia.
Qed.

Lemma bswap16_range x : uint 16 (bswap16 x).
Proof.
  unfold bswap16. apply lor_uint; [lia|apply (part_up _ _ _ _ (2 ^ 8))|apply (part_down _ _ _ _ (2 ^ 16))]; by vm_compute.
Qed.

Lemma bswap32_range x : uint 32 (bswap32 x).
Proof.
  unfold bswap32. repeat (apply lor_uint; [lia|..]); first [apply (part_up _ _ _ _ (2 ^ 8)); by vm_compute
    |apply (part_up _ _ _ _ (2 ^ 16)); by vm_compute|apply (part_down _ _ _ _ (2 ^ 32)); by vm_compute].
Qed.

Lemma bswap64_range x : uint 64 (bswap64 x).
Proof.
  unfold bswap64. repeat (apply lor_uint; [lia|..]); first [apply (part_up _ _ _ _ (2 ^ 8)); by vm_compute
    |apply (part_up _ _ _ _ (2 ^ 16)); by vm_compute|apply (part_up _ _ _ _ (2 ^ 24)); by vm_compute
    |apply (part_up _ _ _ _ (2 ^ 32)); by vm_compute|apply (part_down _ _ _ _ (2 ^ 64)); by vm_compute].
Qed.

Lemma fold1_ok o vx z :
  folds1 (opc o) = true -> uint 64 vx -> op_sem o [vx] = Some [z] ->
  exists t, do_constant_folding (opc o) vx 0 = Some t /\ const_for (op_width (opc o)) t z.
Proof.
  intros Hf Hx Hs. unfold op_sem in Hs. cbv zeta in Hs.
  case_opc o Eo; rewrite ?lift1_int in Hs; cbn [bits] in Hs;
    repeat match type of Hs with (if ?b then _ else _) = _ => destruct b eqn:?; try discriminate Hs end;
    injection Hs as <-; (eapply fold_exact; [reflexivity|..]); cbn [op_width tcg_op_defs def_w def_t opf_64bit is64 bits];
    try (intros; discriminate); try (apply wrap_range; lia); intros _;
    rewrite ?(wrap_id 64 vx) by done; try done; try (bitwise; fail); try (unfold not64; bitwise; fail).
  all: unfold s64; rewrite ?(wrap_le 32 64), ?sint_le, ?wrap_opp, ?wrap_wrap by lia; try done.
  - by rewrite bswap16_wrap, <- (bswap16_wrap (u32 vx)), wrap_le, bswap16_wrap by lia.
  - rewrite bswap16_wrap. symmetry. apply wrap_id. pose proof (bswap16_range vx). unfold uint in *. lia.
  - rewrite bswap32_wrap. symmetry. apply wrap_id. pose proof (bswap32_range vx). unfold uint in *. lia.
  - symmetry. exact (wrap_id 64 _ (bswap64_range vx)).
  - symmetry. exact (small_uint 64 _ ltac:(lia) (count_set_range 64 vx ltac:(lia))).
Qed.
