(* ===== verification/TcgFields.v ===== *)
(** * Bit fields, conditions and repeated elements

    More on the values of temps: which bits the field operations move, that
    conditions are folded, swapped and inverted correctly, and constants that
    are repeated in a vector. *)

From S2P Require Import Prelude BitOps HostUtils TcgOps TcgSem TcgOptimize TcgValues.

(** ** Bits *)

Lemma sint_spec n x i : 0 < n -> 0 <= i -> Z.testbit (sint n x) i = Z.testbit x (Z.min i (n - 1)).
Proof.
  intros Hn Hi. assert (forall j, 0 <= j < n -> Z.testbit (sint n x) j = Z.testbit x j) as Hlow.
  { intros j Hj. pose proof (wrap_sint n x ltac:(lia)) as E. apply (f_equal (fun z => Z.testbit z j)) in E.
    rewrite !wrap_spec, (proj2 (Z.ltb_lt j n)) in E by lia. done. }
  destruct (Z.lt_ge_cases i n); [rewrite Hlow by lia; f_equal; lia|].
  rewrite Z.min_r, <- (Hlow (n - 1)) by lia. pose proof (sint_range n x ltac:(lia)) as Hr.
  assert (forall j, n - 1 <= j -> Z.testbit (sint n x) j = Z.testbit (sint n x / 2 ^ (n - 1)) (j - (n - 1))) as Hs.
  { intros j Hj. rewrite <- Z.shiftr_div_pow2, Z.shiftr_spec by lia. f_equal. lia. }
  rewrite (Hs i), (Hs (n - 1)) by lia. pose proof (Z.pow_pos_nonneg 2 (n - 1)).
  assert (sint n x / 2 ^ (n - 1) = 0 \/ sint n x / 2 ^ (n - 1) = -1) as [-> | ->]; [|by rewrite !Z.testbit_0_l|].
  - destruct (Z.lt_ge_cases (sint n x) 0); [right|left; apply Z.div_small; lia].
    symmetry. apply (Z.div_unique _ _ _ (sint n x + 2 ^ (n - 1))); lia.
  - by rewrite !Z.bits_m1 by lia.
Qed.

Lemma field_mask_ones len : 0 < len <= 64 -> field_mask len = Z.ones len.
Proof.
  intros H. unfold field_mask. change (2 ^ 64 - 1) with (Z.ones 64). rewrite Z.shiftr_div_pow2, Z.ones_div_pow2 by lia.
  f_equal. lia.
Qed.

Section fields.
Context (pos len : Z) (Hf : 0 <= pos /\ 0 < len /\ pos + len <= 64).

Lemma extract64_spec v i : 0 <= i -> Z.testbit (extract64 v pos len) i = (i <? len) && Z.testbit v (pos + i).
Proof.
  intros Hi. unfold extract64. rewrite field_mask_ones, Z.land_spec, Z.shiftr_spec, Z.testbit_ones_nonneg by lia.
  rewrite (Z.add_comm i). apply andb_comm.
Qed.

Lemma sextract64_spec v i : 0 <= i ->
  Z.testbit (sextract64 v pos len) i = (i <? 64) && Z.testbit v (pos + Z.min i (len - 1)).
Proof.
  intros Hi. unfold sextract64. rewrite wrap_spec by lia. destruct (Z.ltb_spec i 64); [cbn [andb]|done].
  rewrite Z.shiftr_spec, sint_spec, wrap_spec, (proj2 (Z.ltb_lt _ 64)) by lia. cbn [andb].
  rewrite Z.shiftl_spec by lia. f_equal. lia.
Qed.

Lemma deposit64_spec v f i : uint 64 v -> 0 <= i ->
  Z.testbit (deposit64 v pos len f) i = if (pos <=? i) && (i <? pos + len) then Z.testbit f (i - pos) else Z.testbit v i.
Proof.
  intros Hv Hi. unfold deposit64. cbv zeta. rewrite field_mask_ones by lia.
  rewrite Z.lor_spec, !Z.land_spec, !wrap_spec, Z.lnot_spec, wrap_spec, !Z.shiftl_spec by lia.
  destruct (Z.ltb_spec i 64).
  - destruct (Z.leb_spec pos i); cbn [andb].
    + rewrite Z.testbit_ones_nonneg by lia. destruct (Z.ltb_spec (i - pos) len), (Z.ltb_spec i (pos + len)); try lia; cbn;
        rewrite ?andb_false_r, ?andb_true_r, ?orb_false_r; done.
    + rewrite (Z.testbit_neg_r (Z.ones len)) by lia. cbn. by rewrite andb_true_r, andb_false_r, orb_false_r.
  - rewrite andb_false_r. cbn. destruct (Z.ltb_spec i (pos + len)); [lia|]. rewrite andb_false_r.
    symmetry. apply (Z.bits_above_log2); [apply Hv|]. destruct (decide (v = 0)) as [-> |]; [cbn; lia|].
    unfold uint in Hv. pose proof (proj1 (Z.log2_lt_pow2 v 64 ltac:(lia)) ltac:(lia)). lia.
Qed.
End fields.

(** ** Folding of counts and fields *)

Lemma const_small w t : uint (bits w) t -> const_for w t t.
Proof.
  intros H. split; [destruct w; unfold uint in *; cbn in *; lia|]. split; [by apply wrap_id|].
  intros ->. by rewrite wrap_id.
Qed.

Lemma first_set_range n x : 0 < x < 2 ^ n -> 0 <= first_set n x < n.
Proof. intros H. by apply first_set_spec. Qed.

Definition counts_zeros (c : TCGOpcode) : bool := match c with op_clz _ | op_ctz _ => true | _ => false end.

(** A count of zeros is folded when the word is not 0, and is the second input
    when it is. *)
Lemma fold_count_ok o vx x y z :
  counts_zeros (opc o) = true -> let w := op_width (opc o) in
  uint 64 vx -> wrap (bits w) vx = wrap (bits w) x -> (w = W32 -> u32 vx = 0 -> vx = 0) ->
  op_sem o [x; y] = Some [z] ->
  if vx =? 0 then z = wrap (bits w) y
  else exists t, do_constant_folding (opc o) vx 0 = Some t /\ const_for w t z.
Proof.
  intros Hc. cbv zeta. intros Hv Ex H0 Hs. unfold op_sem in Hs. cbv zeta in Hs.
  case_opc o Eo; cbn [op_width tcg_op_defs def_w opf_64bit is64 bits] in *; injection Hs as <-; rewrite <- Ex;
    (destruct (Z.eqb_spec vx 0) as [-> |Hnz]; [match goal with |- context [wrap ?n 0] => change (wrap n 0) with 0 end; cbn [Z.eqb]; by rewrite wrap_wrap by lia|]).
  all: try rewrite (wrap_id 64 vx) by done.
  all: try (assert (0 < u32 vx < 2 ^ 32) as Hr by (pose proof (wrap_range 32 vx ltac:(lia)) as R; unfold uint in R;
              destruct (decide (u32 vx = 0)); [specialize (H0 eq_refl); tauto|lia])).
  all: try (assert (0 < vx < 2 ^ 64) as Hr by (unfold uint in Hv; lia)).
  all: eapply fold_exact; [reflexivity|..]; cbn [op_width tcg_op_defs def_w opf_64bit is64 bits]; try (intros; discriminate);
    try (apply wrap_range; lia); intros _.
  all: repeat match goal with |- context [?a =? 0] => destruct (Z.eqb_spec a 0); [lia|] end; cbn [negb];
    unfold clz32, clz64, ctz32, ctz64;
    repeat match goal with |- context [?a =? 0] => destruct (Z.eqb_spec a 0); [lia|] end.
  - done.
  - pose proof (log2_range 64 vx Hr). symmetry. apply small_uint; lia.
  - done.
  - pose proof (first_set_range 64 vx Hr). symmetry. apply small_uint; lia.
Qed.

Lemma field_ok_true n pos len : field_ok n pos len = true -> 0 <= pos /\ 0 < len /\ pos + len <= n.
Proof. unfold field_ok. intros H. bool_to_prop. lia. Qed.

Lemma deposit_sem_spec pos len x y i : 0 <= pos -> 0 <= len -> 0 <= i ->
  Z.testbit (deposit_sem pos len x y) i =
  if (pos <=? i) && (i <? pos + len) then Z.testbit y (i - pos) else Z.testbit x i.
Proof.
  intros Hp Hl Hi. unfold deposit_sem. rewrite Z.lor_spec, Z.ldiff_spec, !Z.shiftl_spec by lia.
  destruct (Z.leb_spec pos i); cbn [andb].
  - rewrite wrap_spec, Z.testbit_ones_nonneg by lia.
    destruct (Z.ltb_spec (i - pos) len), (Z.ltb_spec i (pos + len)); try lia; cbn;
      by rewrite ?andb_false_r, ?andb_true_r, ?orb_false_r.
  - rewrite !(Z.testbit_neg_r _ (i - pos)) by lia. cbn. by rewrite andb_true_r, orb_false_r.
Qed.

(** Bits of equal words. *)
Lemma same_bit n v x i : wrap n v = wrap n x -> 0 <= i < n -> Z.testbit v i = Z.testbit x i.
Proof.
  intros E Hi. apply (f_equal (fun z => Z.testbit z i)) in E. rewrite !wrap_spec, (proj2 (Z.ltb_lt i n)) in E by lia. done.
Qed.

Lemma land_uint n x y : 0 <= n -> uint n x -> uint n (Z.land x y).
Proof. intros Hn Hx. pose proof (land_nonneg_le x y). unfold uint in *. lia. Qed.

Lemma deposit64_range pos len v f : uint 64 v -> uint 64 (deposit64 v pos len f).
Proof.
  intros Hv. unfold deposit64. cbv zeta. apply lor_uint; [lia|by apply land_uint|apply land_uint; [lia|]]. apply wrap_range. lia.
Qed.

Lemma uint_high n x i : uint n x -> 0 <= n <= i -> Z.testbit x i = false.
Proof. intros Hx Hi. rewrite <- (wrap_id n x Hx), wrap_spec by lia. destruct (Z.ltb_spec i n); [lia|done]. Qed.

(** The bits of a double word. *)
Lemma join_spec n x y i : 0 <= n -> uint n x -> 0 <= i ->
  Z.testbit (x + 2 ^ n * y) i = if i <? n then Z.testbit x i else Z.testbit y (i - n).
Proof.
  intros Hn Hx Hi. pose proof (Z.pow_pos_nonneg 2 n). rewrite (Z.mul_comm (2 ^ n)). destruct (Z.ltb_spec i n).
  - rewrite <- (Z.mod_pow2_bits_low _ n i), Z.mod_add, Z.mod_small by (done || lia). done.
  - replace i with (i - n + n) at 1 by lia. rewrite <- Z.shiftr_spec, Z.shiftr_div_pow2, Z.div_add, Z.div_small by (done || lia). done.
Qed.

Section fold_fields.
Context (o : TCGOp) (w : width).
Local Notation n := (bits w).
Local Notation a := (args o).

Lemma fold_deposit_ok vx vy x y z :
  opc o = op_deposit w -> uint 64 vx -> wrap n vx = wrap n x -> wrap n vy = wrap n y -> op_sem o [x; y] = Some [z] ->
  wrap n (deposit64 vx (a 3%nat) (a 4%nat) vy) = z.
Proof.
  intros Eo Hv Ex Ey. unfold op_sem. rewrite Eo. destruct (field_ok _ _ _) eqn:Hf; [|done]. intros [= <-].
  apply field_ok_true in Hf. pose proof (bits_pos w) as Hn. apply Z.bits_inj'. intros i Hi.
  rewrite !wrap_spec, deposit64_spec, deposit_sem_spec by (done || lia).
  destruct (Z.ltb_spec i n); [cbn [andb]|done].
  destruct (Z.leb_spec (a 3%nat) i); cbn [andb]; [|rewrite wrap_spec by lia; rewrite (proj2 (Z.ltb_lt i n)) by lia; by apply (same_bit n)].
  destruct (Z.ltb_spec i (a 3%nat + a 4%nat)); rewrite wrap_spec by lia; rewrite (proj2 (Z.ltb_lt _ n)) by lia; apply (same_bit n); (done || lia).
Qed.

Lemma fold_extract_ok vx x z :
  opc o = op_extract w -> wrap n vx = wrap n x -> op_sem o [x] = Some [z] -> const_for w (extract64 vx (a 2%nat) (a 3%nat)) z.
Proof.
  intros Eo Ex. unfold op_sem. rewrite Eo. destruct (field_ok _ _ _) eqn:Hf; [|done]. intros [= <-].
  apply field_ok_true in Hf. pose proof (bits_pos w) as Hn.
  assert (extract64 vx (a 2%nat) (a 3%nat) = wrap n (wrap (a 3%nat) (Z.shiftr (wrap n x) (a 2%nat)))) as ->; [|apply const_small, wrap_range; lia].
  apply Z.bits_inj'. intros i Hi. rewrite extract64_spec, !wrap_spec, Z.shiftr_spec, wrap_spec by lia.
  destruct (Z.ltb_spec i (a 3%nat)); [|by rewrite andb_false_r]. rewrite !(proj2 (Z.ltb_lt _ n)) by lia. cbn [andb].
  rewrite (Z.add_comm i). apply (same_bit n); (done || lia).
Qed.

Lemma fold_sextract_ok vx x z :
  opc o = op_sextract w -> wrap n vx = wrap n x -> op_sem o [x] = Some [z] -> const_for w (sextract64 vx (a 2%nat) (a 3%nat)) z.
Proof.
  intros Eo Ex. unfold op_sem. rewrite Eo. destruct (field_ok _ _ _) eqn:Hf; [|done]. intros [= <-].
  apply field_ok_true in Hf. pose proof (bits_pos w) as Hn. split; [apply wrap_range; lia|]. split.
  - apply Z.bits_inj'. intros i Hi. rewrite !wrap_spec, sextract64_spec, sint_spec, Z.shiftr_spec, wrap_spec by lia.
    destruct (Z.ltb_spec i n); [|done]. rewrite (proj2 (Z.ltb_lt _ 64)), (proj2 (Z.ltb_lt _ n)) by lia. cbn [andb].
    rewrite (Z.add_comm (Z.min _ _)). apply (same_bit n); (done || lia).
  - intros -> H0. apply Z.bits_inj'. intros i Hi. rewrite Z.testbit_0_l, sextract64_spec by lia. cbn [bits] in *.
    destruct (Z.ltb_spec i 64); [cbn [andb]|done].
    apply (f_equal (fun z => Z.testbit z (Z.min i (a 3%nat - 1)))) in H0. rewrite Z.testbit_0_l, wrap_spec, sextract64_spec in H0 by lia.
    rewrite (proj2 (Z.ltb_lt _ 32)), (proj2 (Z.ltb_lt _ 64)) in H0 by lia. cbn [andb] in H0. rewrite <- H0. f_equal. lia.
Qed.

Lemma fold_extract2_ok vx vy x y z :
  opc o = op_extract2 w -> uint 64 vx -> wrap n vx = wrap n x -> wrap n vy = wrap n y -> op_sem o [x; y] = Some [z] ->
  const_for w (match w with
             | W64 => Z.lor (Z.shiftr vx (a 3%nat)) (u64 (Z.shiftl vy (64 - a 3%nat)))
             | W32 => s64 32 (Z.lor (Z.shiftr (u32 vx) (a 3%nat)) (u32 (Z.shiftl (u32 vy) (32 - a 3%nat))))
             end) z.
Proof.
  intros Eo Hv Ex Ey. unfold op_sem. rewrite Eo. destruct ((0 <? a 3%nat) && _) eqn:Hf; [|done]. intros [= <-]. bool_to_prop.
  pose proof (bits_pos w) as Hn.
  assert (forall u v, wrap n u = wrap n x -> uint n u -> wrap n v = wrap n y ->
    Z.lor (Z.shiftr u (a 3%nat)) (wrap n (Z.shiftl v (n - a 3%nat))) =
    wrap n (Z.shiftr (wrap n x + 2 ^ n * wrap n y) (a 3%nat))) as Hj.
  { intros u v Eu Hu Ev. apply Z.bits_inj'. intros i Hi.
    rewrite Z.lor_spec, !wrap_spec, !Z.shiftr_spec, join_spec, Z.shiftl_spec by (try apply wrap_range; lia).
    rewrite <- Eu, <- Ev, (wrap_id n u) by done. destruct (Z.ltb_spec (i + a 3%nat) n).
    - rewrite (proj2 (Z.ltb_lt i n)), (Z.testbit_neg_r v) by lia. by rewrite orb_false_r.
    - rewrite (uint_high n u) by (done || lia). destruct (Z.ltb_spec i n); [cbn [andb orb]|done].
      rewrite wrap_spec, (proj2 (Z.ltb_lt _ n)) by lia. cbn [andb]. f_equal. lia. }
  destruct w; cbn [bits] in *.
  - split; [apply s64_range|]. split; [|intros _; apply s64_zero]. rewrite wrap_s64 by lia.
    rewrite Hj by (try apply wrap_range; try rewrite wrap_wrap; (done || lia)). rewrite !wrap_wrap by lia. done.
  - rewrite Hj by done. apply const_small, wrap_range. lia.
Qed.
End fold_fields.

(** ** Conditions *)

Definition all_conds : list Z :=
  [TCG_COND_EQ; TCG_COND_NE; TCG_COND_LT; TCG_COND_GE; TCG_COND_LE; TCG_COND_GT; TCG_COND_LTU; TCG_COND_GEU; TCG_COND_LEU; TCG_COND_GTU].

Definition cond_valid (c : Z) : bool := bool_decide (c ∈ all_conds).

(** One goal for each condition. *)
Ltac case_cond Hc :=
  unfold cond_valid in Hc; apply bool_decide_eq_true in Hc; unfold all_conds in Hc;
  repeat (apply elem_of_cons in Hc; destruct Hc as [-> |Hc]); [..|by apply elem_of_nil in Hc].

Lemma cond_swap_ok n c x y : cond_valid c = true -> eval_cond n (tcg_swap_cond c) y x = eval_cond n c x y.
Proof.
  intros Hc. case_cond Hc;
    match goal with |- context [tcg_swap_cond ?c] => let d := eval vm_compute in (tcg_swap_cond c) in change (tcg_swap_cond c) with d end;
    unfold eval_cond; cbn; rewrite ?(Z.eqb_sym (wrap n y)); done.
Qed.

Lemma cond_invert_ok n c x y : cond_valid c = true -> eval_cond n (tcg_invert_cond c) x y = negb <$> eval_cond n c x y.
Proof.
  intros Hc. case_cond Hc;
    match goal with |- context [tcg_invert_cond ?c] => let d := eval vm_compute in (tcg_invert_cond c) in change (tcg_invert_cond c) with d end;
    unfold eval_cond; cbn; rewrite ?negb_involutive, <- ?Z.ltb_antisym, <- ?Z.leb_antisym; done.
Qed.

Lemma cond_swap_valid c : cond_valid c = true -> cond_valid (tcg_swap_cond c) = true.
Proof. intros Hc. by case_cond Hc. Qed.
Lemma cond_invert_valid c : cond_valid c = true -> cond_valid (tcg_invert_cond c) = true.
Proof. intros Hc. by case_cond Hc. Qed.

Lemma eval_cond_total n c x y : cond_valid c = true -> exists b, eval_cond n c x y = Some b.
Proof. intros Hc. case_cond Hc; eexists; reflexivity. Qed.

Lemma fold_cond_n_ok n vx vy x y c : 0 <= n -> wrap n vx = wrap n x -> wrap n vy = wrap n y ->
  do_constant_folding_cond_n n vx vy c = eval_cond n c x y.
Proof.
  intros Hn Ex Ey. unfold do_constant_folding_cond_n, eval_cond. cbv zeta.
  by rewrite !sint_wrap, Ex, Ey, (sint_ext n vx x), (sint_ext n vy y) by done.
Qed.

Lemma fold_cond_eq_ok n c x : cond_valid c = true -> do_constant_folding_cond_eq c = eval_cond n c x x.
Proof.
  intros Hc. case_cond Hc; unfold eval_cond; cbn; rewrite ?Z.eqb_refl, ?Z.ltb_irrefl, ?Z.leb_refl; done.
Qed.

Lemma cond_zero_ok n c x y b : 0 <= n -> wrap n y = 0 -> cond_zero c = Some b -> eval_cond n c x y = Some b.
Proof.
  intros Hn Hy. unfold cond_zero. pose proof (wrap_range n x Hn) as Hx. unfold uint in Hx.
  destruct (Z.eqb_spec c TCG_COND_LTU) as [-> |]; [|destruct (Z.eqb_spec c TCG_COND_GEU) as [-> |]; [|done]];
    intros [= <-]; unfold eval_cond; cbn; rewrite Hy; f_equal; [apply Z.ltb_ge|apply Z.leb_le]; lia.
Qed.

(** Comparisons of two double words by one of their words. *)
Lemma pair64_range l h : uint 64 (pair64 l h).
Proof. unfold pair64, uint. pose proof (wrap_range 32 l ltac:(lia)). pose proof (wrap_range 32 h ltac:(lia)). unfold uint in *. lia. Qed.

Lemma pair64_eq al ah bl bh : pair64 al ah = pair64 bl bh <-> u32 al = u32 bl /\ u32 ah = u32 bh.
Proof.
  unfold pair64. pose proof (wrap_range 32 al ltac:(lia)). pose proof (wrap_range 32 bl ltac:(lia)). unfold uint in *. lia.
Qed.

Lemma pair64_sign l h : (sint 64 (pair64 l h) <? 0) = (sint 32 h <? 0).
Proof.
  pose proof (pair64_range l h) as Hp. unfold sint. cbv zeta. rewrite (wrap_id 64 _ Hp). unfold pair64, uint in *.
  pose proof (wrap_range 32 l ltac:(lia)). pose proof (wrap_range 32 h ltac:(lia)). unfold uint in *.
  change (2 ^ (64 - 1)) with (2 ^ 63). change (2 ^ (32 - 1)) with (2 ^ 31).
  destruct (Z.ltb_spec (u32 l + 2 ^ 32 * u32 h) (2 ^ 63)), (Z.ltb_spec (u32 h) (2 ^ 31)); try lia;
    apply eq_true_iff_eq; rewrite !Z.ltb_lt; lia.
Qed.

Lemma deposit_pair vl vh l h : uint 64 vl -> u32 vl = u32 l -> u32 vh = u32 h -> deposit64 vl 32 32 vh = pair64 l h.
Proof.
  intros Hv El Eh. apply Z.bits_inj'. intros i Hi. unfold pair64.
  rewrite deposit64_spec, join_spec by (try apply wrap_range; (done || lia)). rewrite <- El, <- Eh.
  destruct (Z.ltb_spec i 32), (Z.leb_spec 32 i); try lia; cbn [andb]; rewrite wrap_spec by lia.
  - by rewrite (proj2 (Z.ltb_lt i 32)) by lia.
  - destruct (Z.ltb_spec i (32 + 32)), (Z.ltb_spec (i - 32) 32); try lia; [done|]. apply (uint_high 64); (done || lia).
Qed.

(** ** Constants repeated in a vector *)

Lemma repeat64_range n c : 0 <= repeat64 n c < 2 ^ (64 * Z.of_nat n).
Proof.
  induction n as [|n IH]; [done|]. cbn [repeat64]. pose proof (wrap_range 64 c ltac:(lia)) as Hc. unfold uint in Hc.
  replace (64 * Z.of_nat (S n)) with (64 + 64 * Z.of_nat n) by lia. rewrite Z.pow_add_r by lia. nia.
Qed.

Lemma repeat64_zero n : repeat64 n 0 = 0.
Proof. induction n as [|n IH]; [done|]. cbn [repeat64]. by rewrite IH. Qed.

Lemma repeat64_ones n : repeat64 n all_ones = 2 ^ (64 * Z.of_nat n) - 1.
Proof.
  induction n as [|n IH]; [done|]. cbn [repeat64]. rewrite IH. change (u64 all_ones) with (2 ^ 64 - 1).
  replace (64 * Z.of_nat (S n)) with (64 + 64 * Z.of_nat n) by lia. rewrite Z.pow_add_r by lia. lia.
Qed.

Lemma vmap2_const_app e c m n x y x' y' : 0 < e ->
  vmap2 (m + n) e (fun _ _ => c) x y = vmap2 m e (fun _ _ => c) x' y' + 2 ^ (e * Z.of_nat m) * vmap2 n e (fun _ _ => c) x' y'.
Proof.
  intros He. assert (forall k u v u' v', vmap2 k e (fun _ _ => c) u v = vmap2 k e (fun _ _ => c) u' v') as Hany.
  { induction k as [|k IH]; intros; [done|]. cbn [vmap2]. f_equal. f_equal. apply IH. }
  revert x y x' y'. induction m as [|m IH]; intros x y x' y'.
  - rewrite Z.mul_0_r, Z.pow_0_r, Z.mul_1_l. cbn [plus vmap2]. apply Hany.
  - cbn [plus vmap2]. rewrite (IH _ _ (x' / 2 ^ e) (y' / 2 ^ e)), (Hany n _ _ x' y').
    replace (e * Z.of_nat (S m)) with (e + e * Z.of_nat m) by lia. rewrite Z.pow_add_r by lia. lia.
Qed.

(** The elements of a vector operation fill it. *)
Definition vec_ok (o : TCGOp) : bool :=
  (0 <=? TCGOP_VECL o) && (TCGOP_VECL o <=? 2) && (0 <=? TCGOP_VECE o) && (TCGOP_VECE o <=? 3).

(** One goal for each size of the vector and of its elements. *)
Ltac case_vec o H :=
  unfold vec_ok in H; bool_to_prop;
  assert (TCGOP_VECL o = 0 \/ TCGOP_VECL o = 1 \/ TCGOP_VECL o = 2) as HL by lia;
  assert (TCGOP_VECE o = 0 \/ TCGOP_VECE o = 1 \/ TCGOP_VECE o = 2 \/ TCGOP_VECE o = 3) as HE by lia.

Lemma lanes_fill o : vec_ok o = true ->
  0 < (lanes o Vec).2 /\ (lanes o Vec).2 * Z.of_nat (lanes o Vec).1 = 64 * Z.of_nat (vec_words o) /\
  64 * Z.of_nat (vec_words o) = type_bits (vec_type o).
Proof.
  intros H. case_vec o H. unfold lanes, vec_words, vec_type. cbn [fst snd].
  destruct HL as [-> |[-> | ->]], HE as [-> |[-> |[-> | ->]]]; vm_compute; done.
Qed.

Lemma dup_const_ok o c : vec_ok o = true -> uint 64 c ->
  lift1 (lanes o Vec) (fun _ => c) 0 = repeat64 (vec_words o) (dup_const (TCGOP_VECE o) c).
Proof.
  intros H Hc. case_vec o H. unfold lift1, lanes, vec_words. cbn [fst snd].
  set (e := 8 * 2 ^ TCGOP_VECE o). set (q := Z.to_nat (64 / e)).
  assert (Z.to_nat (64 * 2 ^ TCGOP_VECL o / e) = (Z.to_nat (2 ^ TCGOP_VECL o) * q)%nat /\ e * Z.of_nat q = 64 /\ 0 < e) as (-> & Eq & He).
  { subst q e. destruct HL as [-> |[-> | ->]], HE as [-> |[-> |[-> | ->]]]; vm_compute; done. }
  assert (vmap2 q e (fun _ _ => c) 0 0 = u64 (dup_const (TCGOP_VECE o) c)) as Hw.
  { subst q e. unfold dup_const. pose proof (wrap_range 8 c ltac:(lia)). pose proof (wrap_range 16 c ltac:(lia)).
    pose proof (wrap_range 32 c ltac:(lia)). unfold uint in *. rewrite ?(wrap_wrap 64) by lia.
    destruct HE as [-> |[-> |[-> | ->]]]; cbn -[wrap vmap2];
      match goal with |- vmap2 ?n ?e _ _ _ = _ =>
        let n' := eval vm_compute in n in let e' := eval vm_compute in e in change n with n'; change e with e' end; cbn [vmap2].
    - rewrite (wrap_wrap 64), (wrap_id 64) by (unfold uint; lia). lia.
    - rewrite (wrap_wrap 64), (wrap_id 64) by (unfold uint; lia). lia.
    - rewrite (wrap_wrap 64), (wrap_id 64) by (unfold uint; lia). lia.
    - lia. }
  induction (Z.to_nat (2 ^ TCGOP_VECL o)) as [|k IH]; [done|]. cbn [Nat.mul repeat64].
  rewrite (vmap2_const_app e c q (k * q) 0 0 0 0) by done. by rewrite IH, Hw, Eq.
Qed.
