(* ===== verification/TcgMasks.v ===== *)
(** * Bits that are known to be zero

    [known_zeros] computes a mask of the bits the output of an operation may
    have, and of the bits of its first input that it may change.  Both are
    correct for every operation on words, given masks of the inputs. *)

From S2P Require Import Prelude BitOps HostUtils TcgOps TcgSem TcgOptimize TcgValues TcgFields.

(** All bits of [x] are in [m]. *)
Definition within (m x : Z) : Prop := Z.land x m = x.

Lemma within_spec m x : within m x <-> forall i, 0 <= i -> Z.testbit x i = true -> Z.testbit m i = true.
Proof.
  split.
  - intros H i Hi Hx. apply (f_equal (fun z => Z.testbit z i)) in H. rewrite Z.land_spec, Hx in H. done.
  - intros H. apply Z.bits_inj'. intros i Hi. rewrite Z.land_spec. specialize (H i Hi).
    destruct (Z.testbit x i); [by rewrite H|done].
Qed.

Lemma within_lor m m' x : within m x -> within (Z.lor m m') x.
Proof.
  rewrite !within_spec. intros H i Hi Hx. rewrite Z.lor_spec. by rewrite H.
Qed.

Lemma within_wrap m n x : 0 <= n -> within m x -> within m (wrap n x).
Proof. rewrite !within_spec. intros Hn H i Hi. rewrite wrap_spec by lia. intros Hx. bool_to_prop. by apply H. Qed.

Lemma all_ones_spec i : 0 <= i -> Z.testbit all_ones i = (i <? 64).
Proof. intros Hi. change all_ones with (Z.ones 64). by rewrite Z.testbit_ones_nonneg by lia. Qed.

Lemma within_all x : uint 64 x -> within all_ones x.
Proof.
  intros Hx. apply within_spec. intros i Hi Hb. rewrite all_ones_spec by done. apply Z.ltb_lt.
  destruct (Z.lt_ge_cases i 64); [done|]. rewrite (uint_high 64 x) in Hb by (done || lia). done.
Qed.

Lemma not64_spec x i : 0 <= i -> Z.testbit (not64 x) i = (i <? 64) && negb (Z.testbit x i).
Proof. intros Hi. unfold not64. by rewrite wrap_spec, Z.lnot_spec by lia. Qed.

(** Bits of words, one by one. *)
Ltac bspec :=
  repeat first [rewrite wrap_spec by lia | rewrite Z.land_spec | rewrite Z.lor_spec | rewrite Z.lxor_spec
               | rewrite Z.ldiff_spec | rewrite Z.lnot_spec by lia | rewrite not64_spec by lia
               | rewrite sint_spec by lia | rewrite Z.shiftr_spec by lia | rewrite Z.shiftl_spec by lia
               | rewrite all_ones_spec by lia | rewrite Z.testbit_0_l].

(** The value [x] of a temp is what is known of it, to [n] bits. *)
Definition known (inf : temp_infos) (t n x : Z) : Prop :=
  0 <= x /\ within (arg_mask inf t) x /\ uint 64 (arg_mask inf t) /\ uint 64 (arg_val inf t) /\
  (arg_is_const inf t = true -> wrap n (arg_val inf t) = wrap n x /\ wrap n (arg_mask inf t) = wrap n x).

(** A word whose low bits are all 0. *)
Definition low_zero (n x : Z) : Prop := forall i, 0 <= i < n -> Z.testbit x i = false.

Lemma low_zero_all n : 0 < n <= 64 -> ~ low_zero n all_ones.
Proof. intros Hn H. specialize (H 0 ltac:(lia)). rewrite all_ones_spec in H by lia. done. Qed.

Section extend.
Context (n m x : Z) (Hn : 32 <= n <= 64) (Hm : within m x).

(** The bits an [and] with [m'] leaves. *)
Lemma and_mask_ok m' y : 0 <= m' -> (forall i, 0 <= i < n -> Z.testbit y i = true -> Z.testbit m' i = true) ->
  within (Z.land m m') (wrap n (Z.land (wrap n x) y)).
Proof.
  intros Hm' Hy. rewrite within_spec in *. intros i Hi. bspec. intros H. bool_to_prop.
  rewrite Hm, Hy by (done || lia). done.
Qed.

Lemma and_affected_ok m' y : (forall i, 0 <= i < n -> Z.testbit m' i = true -> Z.testbit y i = true) ->
  low_zero n (Z.land m (not64 m')) -> wrap n (Z.land (wrap n x) y) = wrap n x.
Proof.
  intros Hy H. apply Z.bits_inj'. intros i Hi. bspec. destruct (Z.ltb_spec i n); [cbn [andb]|done].
  specialize (H i ltac:(lia)). revert H. bspec. rewrite (proj2 (Z.ltb_lt i 64)) by lia. cbn [andb].
  rewrite within_spec in Hm. specialize (Hm i Hi). specialize (Hy i ltac:(lia)).
  destruct (Z.testbit x i); [|done]. rewrite Hm by done. cbn [andb]. destruct (Z.testbit m' i); [|done]. intros _. by rewrite Hy.
Qed.
End extend.

(** ** Operations on words *)

Definition word_op (c : TCGOpcode) : bool :=
  folds1 c || folds2 c || counts_zeros c ||
  match c with
  | op_mov (Int _) | op_movi _ | op_deposit _ | op_extract _ | op_sextract _ | op_extract2 _
  | op_setcond _ | op_movcond _ | op_setcond2_i32 => true
  | _ => false
  end.

(** The values of the inputs one by one. *)
Ltac inv_ins o Eo H :=
  unfold inputs, op_oargs, op_iargs in H; rewrite Eo in H;
  cbn [tcg_op_defs def_w def_t nb_oargs nb_iargs seq fmap list_fmap] in H;
  repeat match type of H with
    | Forall2 _ (_ :: _) _ => let x := fresh "x" in let K := fresh "K" in
        apply Forall2_cons_inv_l in H as (x & ? & K & H & ->)
    | Forall2 _ [] _ => apply Forall2_nil_inv_l in H as -> end.

Lemma bool_val_range n b : 0 < n -> uint n (bool_val b).
Proof. intros Hn. unfold uint. assert (2 ^ 1 <= 2 ^ n) by (apply Z.pow_le_mono_r; lia). destruct b; cbn; lia. Qed.

Lemma word_op_range o ins z : word_op (opc o) = true -> op_sem o ins = Some [z] -> uint (bits (op_width (opc o))) z.
Proof.
  intros Hw Hs. unfold op_sem, shift_sem, divs_sem, divu_sem in Hs. cbv zeta in Hs.
  assert (forall w, 0 <= bits w) as Hb by (by intros []).
  case_opc o Eo; destruct ins as [|x1 [|x2 [|x3 [|x4 [|]]]]]; try discriminate Hs;
    repeat match type of Hs with
      | (if ?b then _ else _) = _ => destruct b; try discriminate Hs
      | mbind _ ?e = _ => destruct e; cbn [mbind option_bind] in Hs; try discriminate Hs end;
    rewrite ?lift1_int, ?lift2_int in Hs; injection Hs as <-; try (apply wrap_range, Hb); try (apply wrap_range; cbn; lia);
    apply bool_val_range; cbn; lia.
Qed.

Lemma zeros_unknown n w x z : uint (bits w) z ->
  within all_ones z /\ uint 64 all_ones /\ (low_zero (bits w) all_ones -> z = wrap n x).
Proof.
  intros Hz. pose proof (bits_pos w). split; [|split].
  - apply within_all. destruct w; unfold uint in *; cbn in *; lia.
  - by vm_compute.
  - intros H'. by apply low_zero_all in H'; [|lia].
Qed.

Lemma within_ones k x : 0 <= k -> uint k x -> within (2 ^ k - 1) x.
Proof. intros Hk Hx. unfold within. rewrite land_low_bits by done. by apply Z.mod_small. Qed.

Lemma low_ones_spec k i : 0 <= k -> 0 <= i -> Z.testbit (2 ^ k - 1) i = (i <? k).
Proof. intros Hk Hi. replace (2 ^ k - 1) with (Z.ones k) by (rewrite Z.ones_equiv; lia). by rewrite Z.testbit_ones_nonneg. Qed.

(** Extension from [k] bits, when the sign is known to be 0 if it is extended. *)
Lemma extend_ok n k m x y : 32 <= n <= 64 -> 0 < k <= n -> within m x ->
  (y = wrap k (wrap n x) \/ (Z.land m (2 ^ (k - 1)) = 0 /\ y = sint k (wrap n x))) ->
  within (Z.land m (2 ^ k - 1)) (wrap n y) /\ (low_zero n (Z.land m (not64 (2 ^ k - 1))) -> wrap n y = wrap n x).
Proof.
  intros Hn Hk Hm Hy. assert (y = Z.land (wrap n x) (2 ^ k - 1)) as ->.
  { rewrite land_low_bits by lia. destruct Hy as [-> |[Hs ->]]; [done|]. apply Z.bits_inj'. intros i Hi. fold (wrap k (wrap n x)).
    bspec. destruct (Z.ltb_spec i k).
    - rewrite Z.min_l by lia. done.
    - rewrite Z.min_r by lia. cbn [andb]. apply andb_false_intro2. apply not_true_iff_false. intros Hb.
      rewrite within_spec in Hm. apply Hm in Hb; [|lia]. apply (f_equal (fun z => Z.testbit z (k - 1))) in Hs.
      rewrite Z.land_spec, Hb, Z.pow2_bits_true, Z.testbit_0_l in Hs by lia. done. }
  split.
  - pose proof (Z.pow_pos_nonneg 2 k). apply and_mask_ok; (done || lia).
  - by apply and_affected_ok.
Qed.

(** The lowest bit of [m]. *)
Lemma lowest_bit m : 0 < m < 2 ^ 64 -> exists j q, 0 <= j < 64 /\ m = q * 2 ^ j /\ Z.land m (u64 (- m)) = 2 ^ j.
Proof.
  intros Hr. destruct (first_set_spec 64 m Hr) as (Hj & Hb & Hlo). set (j := first_set 64 m) in *.
  pose proof (Z.pow_pos_nonneg 2 j ltac:(lia) ltac:(lia)) as Pj.
  assert (m = Z.shiftr m j * 2 ^ j) as Em.
  { rewrite <- Z.shiftl_mul_pow2 by lia. apply Z.bits_inj'. intros i Hi. rewrite Z.shiftl_spec by lia.
    destruct (Z.lt_ge_cases i j); [rewrite (Z.testbit_neg_r _ (i - j)), Hlo by lia; done|]. rewrite Z.shiftr_spec by lia. f_equal. lia. }
  exists j, (Z.shiftr m j). split; [done|]. split; [done|]. set (q := Z.shiftr m j) in *.
  assert (Z.testbit q 0 = true) as Hq by (unfold q; by rewrite Z.shiftr_spec, Z.add_0_l by lia).
  assert (forall i, 0 < i -> Z.testbit (q - 1) i = Z.testbit q i) as Hq1.
  { intros i Hi. rewrite Z.bit0_odd in Hq. apply Z.odd_spec in Hq as [r ->]. replace (2 * r + 1 - 1) with (2 * r) by lia.
    replace i with (Z.succ (i - 1)) by lia. by rewrite Z.testbit_even_succ, Z.testbit_odd_succ by lia. }
  apply Z.bits_inj'. intros i Hi. bspec. rewrite Z.bits_opp, Z.pow2_bits_eqb by lia.
  replace (Z.pred m) with (2 ^ j - 1 + 2 ^ j * (q - 1)) by (rewrite Em; lia).
  rewrite join_spec by (unfold uint; lia). destruct (Z.ltb_spec i j).
  - rewrite Hlo by lia. symmetry. apply Z.eqb_neq. lia.
  - destruct (Z.eqb_spec j i) as [<- |].
    + rewrite Hb, Z.sub_diag, (proj2 (Z.ltb_lt j 64)) by lia. rewrite Z.bit0_odd in *.
      by rewrite Z.odd_sub, Hq.
    + rewrite Hq1 by lia. unfold q. rewrite Z.shiftr_spec by lia. replace (i - j + j) with i by lia.
      by destruct (Z.testbit m i), (i <? 64).
Qed.

(** The bits from the lowest one of [m] on. *)
Lemma neg_mask_ok n m x : 32 <= n <= 64 -> within m x -> uint 64 m ->
  within (u64 (- Z.land m (u64 (- m)))) (wrap n (- wrap n x)).
Proof.
  intros Hn Hm Hu. destruct (decide (m = 0)) as [-> |Hz].
  - assert (x = 0) as -> by (unfold within in Hm; by rewrite Z.land_0_r in Hm).
    assert (wrap n 0 = 0) as E by (apply wrap_id; split; [lia|apply Z.pow_pos_nonneg; lia]). by rewrite E, Z.opp_0, E.
  - destruct (lowest_bit m ltac:(unfold uint in Hu; lia)) as (j & q & Hj & Em & ->). rewrite wrap_opp by lia.
    assert (wrap j (- x) = 0) as E0.
    { rewrite <- wrap_opp by lia. assert (wrap j x = 0) as ->; [|unfold wrap; apply Z.mod_0_l, Z.pow_nonzero; lia].
      apply Z.bits_inj'. intros i Hi. bspec. destruct (Z.ltb_spec i j); [cbn [andb]|done]. apply not_true_iff_false. intros Hb.
      rewrite within_spec in Hm. apply Hm in Hb; [|done]. rewrite Em, Z.mul_pow2_bits_low in Hb by lia. done. }
    apply within_spec. intros i Hi. rewrite !wrap_spec by lia. intros Hb. bool_to_prop.
    rewrite (proj2 (Z.ltb_lt i 64)), Z.bits_opp by lia. cbn [andb]. rewrite <- Z.sub_1_r, low_ones_spec by lia.
    destruct (Z.ltb_spec i j); [|done]. apply (f_equal (fun z => Z.testbit z i)) in E0.
    rewrite wrap_spec, (proj2 (Z.ltb_lt i j)), Z.testbit_0_l in E0 by lia. cbn [andb] in E0. congruence.
Qed.

(** ** Masks of the results *)

(** [k] has the bits of the result [z], and the result is the input [x] when no
    low bit of [affected] is set. *)
Definition masks (n k affected x z : Z) : Prop :=
  within k z /\ uint 64 k /\ (low_zero n affected -> z = wrap n x).

Section masks.
Context (n : Z) (Hn : 32 <= n <= 64).

Lemma masks_plain k x z : within k z -> uint 64 k -> masks n k all_ones x z.
Proof. intros. split; [done|]. split; [done|]. intros H'. by apply low_zero_all in H'; [|lia]. Qed.

Lemma masks_extend k m x y z : 0 < k <= n -> within m x -> uint 64 m ->
  (y = wrap k (wrap n x) \/ (Z.land m (2 ^ (k - 1)) = 0 /\ y = sint k (wrap n x))) -> z = wrap n y ->
  masks n (Z.land m (2 ^ k - 1)) (Z.land m (not64 (2 ^ k - 1))) x z.
Proof.
  intros Hk Hm Hu Hy ->. destruct (extend_ok n k m x y Hn Hk Hm Hy). split; [done|]. split; [|done]. apply land_uint; (done || lia).
Qed.

Lemma masks_and m m' x y : within m x -> uint 64 m -> uint 64 m' -> wrap n m' = wrap n y ->
  masks n (Z.land m m') (Z.land m (not64 m')) x (wrap n (Z.land (wrap n x) (wrap n y))).
Proof.
  intros Hm Hu Hu' E. split; [|split; [apply land_uint; (done || lia)|]].
  - apply and_mask_ok; try done; [apply Hu'|]. intros i Hi Hb. rewrite <- E, wrap_spec in Hb by lia. by bool_to_prop.
  - apply and_affected_ok; try done. intros i Hi Hb. rewrite <- E, wrap_spec, Hb, (proj2 (Z.ltb_lt i n)) by lia. done.
Qed.

Lemma mask_and m m' x y : within m x -> within m' y -> within (Z.land m m') (wrap n (Z.land (wrap n x) (wrap n y))).
Proof.
  rewrite !within_spec. intros Hx Hy i Hi. bspec. intros Hb. bool_to_prop. rewrite Hx, Hy by (done || lia). done.
Qed.

Lemma masks_andc m m' x y : within m x -> uint 64 m -> wrap n m' = wrap n y ->
  masks n (Z.land m (not64 m')) (Z.land m (not64 (not64 m'))) x (wrap n (Z.ldiff (wrap n x) (wrap n y))).
Proof.
  intros Hm Hu E. pose proof (masks_and m (not64 m') x (not64 m') Hm Hu ltac:(apply wrap_range; lia) eq_refl) as H.
  replace (wrap n (Z.ldiff (wrap n x) (wrap n y))) with (wrap n (Z.land (wrap n x) (wrap n (not64 m')))); [done|].
  rewrite <- E. apply Z.bits_inj'. intros i Hi. bspec. destruct (Z.ltb_spec i n); [|done]. rewrite (proj2 (Z.ltb_lt i 64)) by lia. done.
Qed.

Lemma mask_or m m' x y : within m x -> within m' y ->
  within (Z.lor m m') (wrap n (Z.lor (wrap n x) (wrap n y))) /\ within (Z.lor m m') (wrap n (Z.lxor (wrap n x) (wrap n y))).
Proof.
  rewrite !within_spec. intros Hx Hy. split; intros i Hi; bspec; specialize (Hx i Hi); specialize (Hy i Hi);
    destruct (Z.testbit x i), (Z.testbit y i), (Z.testbit m i), (Z.testbit m' i), (i <? n); naive_solver.
Qed.

Lemma mask_shl m x c : within m x -> 0 <= c -> within (u64 (Z.shiftl m c)) (wrap n (Z.shiftl (wrap n x) c)).
Proof.
  rewrite !within_spec. intros Hx Hc i Hi. bspec. destruct (Z.lt_ge_cases i c); [rewrite (Z.testbit_neg_r (wrap n x)) by lia; by rewrite andb_false_r|].
  bspec. intros Hb. bool_to_prop. rewrite Hx, (proj2 (Z.ltb_lt i 64)) by (done || lia). done.
Qed.

Lemma mask_shr m x c : within m x -> 0 <= c -> within (Z.shiftr (wrap n m) c) (wrap n (Z.shiftr (wrap n x) c)).
Proof.
  rewrite !within_spec. intros Hx Hc i Hi. bspec. intros Hb. bool_to_prop. rewrite Hx, (proj2 (Z.ltb_lt _ n)) by (done || lia). done.
Qed.

Lemma mask_sar m x c : within m x -> 0 <= c -> within (u64 (Z.shiftr (sint n m) c)) (wrap n (Z.shiftr (sint n (wrap n x)) c)).
Proof.
  rewrite !within_spec. intros Hx Hc i Hi. bspec. intros Hb. bool_to_prop. rewrite Hx, (proj2 (Z.ltb_lt _ 64)) by (done || lia). done.
Qed.

Lemma mask_shr_high m x c : within m x -> 0 <= c -> within (Z.shiftr m c) (Z.shiftr (wrap n x) c).
Proof. rewrite !within_spec. intros Hx Hc i Hi. bspec. intros Hb. bool_to_prop. by rewrite Hx by (done || lia). Qed.

Lemma mask_ldiff m x y : within m x -> within m (Z.ldiff (wrap n x) y).
Proof. rewrite !within_spec. intros Hx i Hi. bspec. intros Hb. bool_to_prop. by rewrite Hx by (done || lia). Qed.

Lemma mask_same m x : within m x -> within (wrap n m) (wrap n x).
Proof. rewrite !within_spec. intros Hx i Hi. bspec. intros Hb. bool_to_prop. rewrite Hx, (proj2 (Z.ltb_lt i n)) by (done || lia). done. Qed.

(** A count of bits below [2 ^ k], or the second input of the operation. *)
Lemma mask_count m y v k (b : bool) : within m y -> 0 <= k -> (b = false -> uint k v) ->
  within (Z.lor m (2 ^ k - 1)) (if b then wrap n y else v).
Proof.
  intros Hm Hk Hv. destruct b.
  - apply within_lor, within_wrap; (done || lia).
  - rewrite Z.lor_comm. apply within_lor, within_ones; auto.
Qed.
End masks.

Section field_masks.
Context (n pos len : Z) (Hn : 32 <= n <= 64) (Hf : 0 <= pos /\ 0 < len /\ pos + len <= n).

Lemma mask_deposit m m' x y : within m x -> within m' y -> uint 64 m ->
  within (deposit64 m pos len m') (wrap n (deposit_sem pos len (wrap n x) (wrap n y))).
Proof.
  rewrite !within_spec. intros Hx Hy Hu i Hi. rewrite wrap_spec, deposit64_spec, deposit_sem_spec by (done || lia).
  destruct (Z.leb_spec pos i), (Z.ltb_spec i (pos + len)); cbn [andb]; bspec; intros Hb; bool_to_prop;
    first [apply Hx|apply Hy]; (done || lia).
Qed.

Lemma masks_extract m x : within m x ->
  masks n (extract64 m pos len) (if pos =? 0 then Z.land m (not64 (extract64 m pos len)) else all_ones) x
    (wrap n (wrap len (Z.shiftr (wrap n x) pos))).
Proof.
  intros Hm. pose proof Hm as Hx. rewrite within_spec in Hx.
  assert (uint 64 (extract64 m pos len)) as Hu.
  { unfold extract64. rewrite field_mask_ones, Z.land_ones by lia.
    pose proof (Z.mod_pos_bound (Z.shiftr m pos) (2 ^ len) ltac:(apply Z.pow_pos_nonneg; lia)). unfold uint.
    pose proof (Z.pow_le_mono_r 2 len 64). lia. }
  split; [|split; [done|]].
  - apply within_spec. intros i Hi. rewrite extract64_spec by lia. bspec. rewrite Z.add_comm. intros Hb. bool_to_prop.
    rewrite Hx, (proj2 (Z.ltb_lt _ len)) by (done || lia). done.
  - destruct (Z.eqb_spec pos 0) as [E|]; [|intros H'; by apply low_zero_all in H'; [|lia]]. intros H. apply Z.bits_inj'. intros i Hi. bspec.
    rewrite E, Z.add_0_r. destruct (Z.ltb_spec i n); [cbn [andb]|done]. destruct (Z.ltb_spec i len); [done|]. cbn [andb].
    specialize (H i ltac:(lia)). revert H. bspec. rewrite extract64_spec, (proj2 (Z.ltb_lt i 64)), (proj2 (Z.ltb_ge i len)) by lia.
    cbn [andb negb]. rewrite andb_true_r. intros H. symmetry. apply not_true_iff_false. intros Hb. apply Hx in Hb; [congruence|lia].
Qed.

Lemma masks_sextract m x : within m x ->
  masks n (sextract64 m pos len)
    (if (pos =? 0) && (0 <=? sint 64 (sextract64 m pos len)) then Z.land m (not64 (sextract64 m pos len)) else all_ones) x
    (wrap n (sint len (Z.shiftr (wrap n x) pos))).
Proof.
  intros Hm. pose proof Hm as Hx. rewrite within_spec in Hx. split; [|split; [apply wrap_range; lia|]].
  - apply within_spec. intros i Hi. rewrite sextract64_spec by lia. bspec. rewrite Z.add_comm. intros Hb. bool_to_prop.
    rewrite Hx, (proj2 (Z.ltb_lt _ 64)) by (done || lia). done.
  - destruct (_ && _) eqn:E; [|intros H'; by apply low_zero_all in H'; [|lia]]. bool_to_prop. intros Ha.
    assert (Z.testbit m (len - 1) = false) as Hsign.
    { pose proof (sint_range 64 (sextract64 m pos len) ltac:(lia)). assert (Z.testbit (sint 64 (sextract64 m pos len)) 63 = false) as Hb.
      { apply (uint_high 63); [unfold uint; lia|lia]. }
      rewrite sint_spec in Hb by lia. change (Z.min 63 (64 - 1)) with 63 in Hb. rewrite sextract64_spec, Z.min_r in Hb by lia.
      rewrite <- Hb. change (63 <? 64) with true. cbn [andb]. f_equal. lia. }
    assert (Z.testbit x (len - 1) = false) as Hxs by (apply not_true_iff_false; intros Hb; apply Hx in Hb; [congruence|lia]).
    apply Z.bits_inj'. intros i Hi. bspec. destruct (Z.ltb_spec i n); [cbn [andb]|done].
    destruct (Z.lt_ge_cases i len); [rewrite Z.min_l, (proj2 (Z.ltb_lt _ n)) by lia; cbn [andb]; f_equal; lia|].
    rewrite Z.min_r by lia. replace (len - 1 + pos) with (len - 1) by lia. rewrite Hxs, andb_false_r.
    specialize (Ha i ltac:(lia)). revert Ha. bspec. rewrite sextract64_spec, (proj2 (Z.ltb_lt i 64)), Z.min_r by lia.
    replace (pos + (len - 1)) with (len - 1) by lia. rewrite Hsign. cbn [andb negb]. rewrite andb_true_r. intros Ha.
    symmetry. apply not_true_iff_false. intros Hb. apply Hx in Hb; [congruence|lia].
Qed.
End field_masks.

(** A constant shift count. *)
Lemma const_count k j n v y : k = 2 ^ j -> 0 <= j <= n -> wrap n v = wrap n y -> wrap n y < k ->
  Z.land v (k - 1) = wrap n y /\ 0 <= wrap n y.
Proof.
  intros Hk Hj E Hy. split; [|apply wrap_range; lia]. rewrite <- E in *. by apply (shift_count k j).
Qed.

Lemma u32_uint64 x : uint 64 (u32 x).
Proof. pose proof (wrap_range 32 x ltac:(lia)). unfold uint in *. lia. Qed.

Lemma mask_low m x y n : 32 <= n <= 64 -> within m x ->
  (y = u32 (wrap n x) \/ (Z.land m 0x80000000 = 0 /\ y = sint 32 (wrap n x))) -> within (u32 m) (wrap n y).
Proof.
  intros Hn Hm Hy. destruct (extend_ok n 32 m x y Hn ltac:(lia) Hm Hy) as [H _].
  change (2 ^ 32 - 1) with (Z.ones 32) in H. rewrite Z.land_ones in H by lia. done.
Qed.

(** What [known] gives for an input. *)
Ltac use_known :=
  repeat match goal with K : known _ _ _ _ |- _ => destruct K as (? & ? & ? & ? & ?) end.

Lemma known_zeros_ok inf o ins z :
  word_op (opc o) = true -> Forall2 (fun t x => known inf t (bits (in_width (opc o))) x) (inputs o) ins ->
  op_sem o ins = Some [z] ->
  masks (bits (op_width (opc o))) (known_zeros inf o).1 (known_zeros inf o).2 (default 0 (ins !! 0%nat)) z.
Proof.
  intros Hw Hk Hs. pose proof (word_op_range o ins z Hw Hs) as Hz. pose proof (bits_pos (op_width (opc o))) as Hn.
  assert (forall x, masks (bits (op_width (opc o))) all_ones all_ones x z) as Hun.
  { intros x. apply masks_plain; [done|apply within_all|by vm_compute]. destruct (op_width (opc o)); unfold uint in *; cbn in *; lia. }
  unfold known_zeros. case_opc o Eo; try apply Hun;
    inv_ins o Eo Hk; unfold op_sem, shift_sem, divs_sem, divu_sem in Hs; rewrite Eo in Hs; cbv zeta in Hs;
    cbn [in_width op_width tcg_op_defs def_w def_t opf_64bit is64 bits] in *; rewrite ?lift1_int, ?lift2_int in Hs; cbn [bits] in Hs;
    cbn [lookup list_lookup default id]; unfold and_const; use_known;
    repeat match type of Hs with
      | (if ?b then _ else _) = _ => destruct b eqn:?; try discriminate Hs
      | mbind _ ?e = _ => destruct e as [[]|]; cbn [mbind option_bind] in Hs; try discriminate Hs end;
    injection Hs as <-;
    repeat match goal with
      | |- context [arg_is_const ?i ?t] => destruct (arg_is_const i t); cbn [fst snd]; try apply Hun
      | |- context [negb ?b] => destruct b eqn:?; cbn [negb fst snd]; try apply Hun end;
    bool_to_prop; repeat match goal with H : true = true -> _ |- _ => destruct (H eq_refl) as [? ?]; clear H end.
  all: cbn [fst snd]; match goal with
    | |- masks _ 1 _ _ _ => apply masks_plain; [done|done|by vm_compute]
    | |- masks _ _ (Z.land _ (not64 (arg_mask _ _))) _ _ => apply masks_and; done
    | |- masks _ _ (Z.land _ (not64 (not64 _))) _ _ => apply masks_andc; done
    | |- masks _ (Z.land _ ?k) (Z.land _ (not64 ?k)) _ (wrap _ ?y) =>
        let l := eval vm_compute in (Z.log2_up k) in change k with (2 ^ l - 1); apply (masks_extend _ Hn l _ _ y);
        [lia|done|done|first [left; reflexivity|right; split; [done|reflexivity]]|done]
    | |- masks _ (extract64 _ _ _) _ _ _ => apply masks_extract; (done || apply field_ok_true; done)
    | |- masks _ (sextract64 _ _ _) _ _ _ => apply masks_sextract; (done || apply field_ok_true; done)
    | |- masks _ (deposit64 _ _ _ _) _ _ _ =>
        apply masks_plain; [done|apply mask_deposit; (done || apply field_ok_true; done)|by apply deposit64_range]
    | |- masks _ (u64 (- _)) _ _ _ => apply masks_plain; [done|apply neg_mask_ok; done|apply wrap_range; lia]
    | |- masks _ (Z.land _ (arg_mask _ _)) all_ones _ _ => apply masks_plain; [done|apply mask_and; done|apply land_uint; (done || lia)]
    | |- masks _ _ _ _ (wrap _ (Z.lor _ _)) => apply masks_plain; [done|apply mask_or; done|apply lor_uint; (done || lia)]
    | |- masks _ _ _ _ (wrap _ (Z.lxor _ _)) => apply masks_plain; [done|apply mask_or; done|apply lor_uint; (done || lia)]
    | |- masks _ (u64 (Z.shiftl _ _)) _ _ _ =>
        apply masks_plain; [done| |apply wrap_range; lia]
    | |- masks _ (u64 (Z.shiftr _ _)) _ _ _ =>
        apply masks_plain; [done| |apply wrap_range; lia]
    | |- masks _ (Z.shiftr _ (Z.land _ _)) _ _ _ =>
        apply masks_plain; [done| |apply shiftr_range; [|apply Z.land_nonneg; lia|lia]]
    | |- masks _ (Z.lor _ (arg_mask _ _)) _ _ _ => apply masks_plain; [done| |apply lor_uint; (done || lia)]
    | |- masks _ (Z.lor _ _) _ _ _ => apply masks_plain; [done| |apply lor_uint; first [done|lia|by vm_compute]]
    | _ => apply masks_plain; try done end.
  all: try (apply u32_uint64); try done.
  all: try (apply shiftr_range; (done || lia)).
  all: try (match goal with |- within (u32 _) (wrap ?n ?y) => eapply (mask_low _ _ _ n); [lia|eassumption|];
              first [left; reflexivity|right; split; [done|reflexivity]] end).
  all: try (match goal with E : wrap ?n (arg_val _ ?t) = wrap ?n ?y, L : wrap ?n ?y < ?k |- context [Z.land (arg_val _ ?t) 63] =>
              destruct (const_count 64 6 n (arg_val inf t) y eq_refl ltac:(lia) E ltac:(lia)) as [Ec Hc]; rewrite (Ec : Z.land _ 63 = _) end).
  all: try (match goal with E : wrap ?n (arg_val _ ?t) = wrap ?n ?y, L : wrap ?n ?y < ?k |- context [Z.land (arg_val _ ?t) 31] =>
              destruct (const_count 32 5 n (arg_val inf t) y eq_refl ltac:(lia) E ltac:(lia)) as [Ec Hc]; rewrite (Ec : Z.land _ 31 = _) end).
  all: try (apply mask_shl; (done || lia)); try (apply mask_shr; (done || lia)); try (apply mask_sar; (done || lia)).
  all: try (apply mask_same; done); try (apply within_lor, within_wrap; (done || lia)); try (rewrite Z.lor_comm; apply within_lor, within_wrap; (done || lia)).
  all: apply within_wrap; [lia|]; try (apply mask_shr_high; (done || lia)); try (apply mask_ldiff; (done || lia)).
  - apply (mask_count 32 Hn _ _ _ 5); [done|lia|]. intros Hb. bool_to_prop. pose proof (log2_range 32 (u32 x)) as R.
    pose proof (wrap_range 32 x ltac:(lia)). unfold uint in *. lia.
  - apply (mask_count 64 Hn _ _ _ 6); [done|lia|]. intros Hb. bool_to_prop. pose proof (log2_range 64 (u64 x)) as R.
    pose proof (wrap_range 64 x ltac:(lia)). unfold uint in *. lia.
  - apply (mask_count 32 Hn _ _ _ 5); [done|lia|]. intros Hb. bool_to_prop. pose proof (first_set_range 32 (u32 x)) as R.
    pose proof (wrap_range 32 x ltac:(lia)). unfold uint in *. lia.
  - apply (mask_count 64 Hn _ _ _ 6); [done|lia|]. intros Hb. bool_to_prop. pose proof (first_set_range 64 (u64 x)) as R.
    pose proof (wrap_range 64 x ltac:(lia)). unfold uint in *. lia.
  - pose proof (count_set_range 32 (u32 x) ltac:(lia)). apply (within_ones 6); [lia|]. unfold uint. lia.
  - pose proof (count_set_range 64 (u64 x) ltac:(lia)). apply (within_ones 7); [lia|]. unfold uint. lia.
Qed.
