(* ===== verification/TcgCopies.v ===== *)
(** * What the optimizer knows is true

    The lists of copies are rings, everything recorded of a temp holds for its
    value, and the operations on the records keep this when the temps change as
    they do.  The walk over the copies ends and finds every copy. *)

From S2P Require Import Prelude BitOps HostUtils TcgOps TcgSem TcgOptimize TcgValues TcgFields TcgMasks.

(** ** Rings of copies *)

(** [next_copy] and [prev_copy] lead to known temps and back. *)
Definition ring (inf : temp_infos) : Prop :=
  forall t i, inf !! t = Some i ->
    (exists j, inf !! next_copy i = Some j /\ prev_copy j = t) /\ (exists j, inf !! prev_copy i = Some j /\ next_copy j = t).

Definition with_links (p n : Z) (i : tcg_temp_info) : tcg_temp_info := mk_info (is_const i) p n (val i) (mask i).

(** The record [i] when [t], with the record [ti], has left its ring. *)
Definition unlink (t : Z) (ti i : tcg_temp_info) : tcg_temp_info :=
  with_links (if decide (prev_copy i = t) then prev_copy ti else prev_copy i)
             (if decide (next_copy i = t) then next_copy ti else next_copy i) i.

Lemma ts_info_some inf t i : inf !! t = Some i -> ts_info inf t = i.
Proof. intros E. unfold ts_info. by rewrite E. Qed.

Lemma set_prev_some inf t p i : inf !! t = Some i -> set_prev t p inf = <[t := with_links p (next_copy i) i]> inf.
Proof. intros E. unfold set_prev. by rewrite (ts_info_some inf t i E). Qed.
Lemma set_next_some inf t n i : inf !! t = Some i -> set_next t n inf = <[t := with_links (prev_copy i) n i]> inf.
Proof. intros E. unfold set_next. by rewrite (ts_info_some inf t i E). Qed.
Lemma set_mask_some inf t m i : inf !! t = Some i ->
  set_mask t m inf = <[t := mk_info (is_const i) (prev_copy i) (next_copy i) (val i) m]> inf.
Proof. intros E. unfold set_mask. by rewrite (ts_info_some inf t i E). Qed.
Lemma set_const_some inf t b v i : inf !! t = Some i ->
  set_const t b v inf = <[t := mk_info b (prev_copy i) (next_copy i) v (mask i)]> inf.
Proof. intros E. unfold set_const. by rewrite (ts_info_some inf t i E). Qed.

(** Lookups in a map with insertions. *)
Ltac lookups :=
  repeat match goal with
    | |- context [<[?a := _]> _ !! ?a] => rewrite lookup_insert_eq
    | |- context [<[?a := _]> _ !! ?b] => rewrite (lookup_insert_ne _ a b) by (done || congruence)
  end.

Section ring.
Context (inf : temp_infos) (Hring : ring inf).

Lemma ring_next t i j : inf !! t = Some i -> inf !! next_copy i = Some j -> prev_copy j = t.
Proof. intros Ht Hj. destruct (Hring t i Ht) as [(j' & Ej & <-) _]. by simplify_eq. Qed.
Lemma ring_prev t i j : inf !! t = Some i -> inf !! prev_copy i = Some j -> next_copy j = t.
Proof. intros Ht Hj. destruct (Hring t i Ht) as [_ (j' & Ej & <-)]. by simplify_eq. Qed.

Lemma reset_lookup t ti u : inf !! t = Some ti ->
  reset_ts t inf !! u = if decide (u = t) then Some (mk_info false t t (val ti) all_ones) else unlink t ti <$> inf !! u.
Proof.
  intros Ht. destruct (Hring t ti Ht) as [(jn & Hn & En) (jp & Hp & Ep)]. unfold reset_ts. rewrite (ts_info_some inf t ti Ht). cbv zeta.
  rewrite (set_prev_some inf _ _ jn Hn). set (inf1 := <[next_copy ti := _]> inf).
  assert (exists jp', inf1 !! prev_copy ti = Some jp' /\ next_copy jp' = t /\ is_const jp' = is_const jp /\ val jp' = val jp /\ mask jp' = mask jp /\
            prev_copy jp' = if decide (prev_copy ti = next_copy ti) then prev_copy ti else prev_copy jp) as (jp' & Hp' & Np & Cp & Vp & Mp & Pp).
  { unfold inf1. destruct (decide (prev_copy ti = next_copy ti)) as [E|E].
    - rewrite E in *. simplify_eq. exists (with_links (next_copy ti) (next_copy jn) jn). by rewrite lookup_insert_eq.
    - exists jp. by rewrite lookup_insert_ne by congruence. }
  rewrite (set_next_some inf1 _ _ jp' Hp'). destruct (decide (u = t)) as [-> |Hu].
  - rewrite lookup_insert_eq. do 2 f_equal. destruct (decide (prev_copy ti = t)) as [E|E].
    + rewrite E in *. rewrite (ts_info_some _ t _ (lookup_insert_eq _ _ _)). cbn. simplify_eq. done.
    + destruct (decide (next_copy ti = t)) as [E'|E'].
      * rewrite E' in *. by simplify_eq.
      * erewrite ts_info_some; [done|]. unfold inf1. lookups. done.
  - rewrite lookup_insert_ne by congruence. destruct (decide (u = prev_copy ti)) as [-> |Hup].
    + rewrite lookup_insert_eq, Hp. cbn. f_equal. unfold with_links, unlink. rewrite Cp, Vp, Mp, Pp. unfold with_links.
      rewrite (decide_True (P := next_copy jp = t)) by done. f_equal.
      destruct (decide (prev_copy ti = next_copy ti)) as [E|E].
      * rewrite E in *. simplify_eq. by rewrite decide_True by done.
      * rewrite decide_False; [done|]. intros Epj. apply E. apply (ring_prev (prev_copy ti) jp ti) in Hp as En'; congruence.
    + rewrite lookup_insert_ne by congruence. unfold inf1. destruct (decide (u = next_copy ti)) as [-> |Hun].
      * rewrite lookup_insert_eq, Hn. cbn. f_equal. unfold unlink. f_equal; [by rewrite decide_True by done|].
        rewrite decide_False; [done|]. intros Enj. apply Hup. symmetry. apply (ring_next (next_copy ti) jn ti); congruence.
      * rewrite lookup_insert_ne by congruence. destruct (inf !! u) as [i|] eqn:Eu; [|done]. cbn. f_equal. unfold unlink.
        destruct i as [c p n v m]. unfold with_links. cbn. f_equal.
        -- rewrite decide_False; [done|]. intros ->. apply Hun. symmetry. by apply (ring_prev u _ ti Eu).
        -- rewrite decide_False; [done|]. intros ->. apply Hup. symmetry. by apply (ring_next u _ ti Eu).
Qed.

(** The links of another temp after [t] has left. *)
Lemma unlink_next t ti u i : inf !! t = Some ti -> inf !! u = Some i -> u <> t -> next_copy i = t ->
  prev_copy ti = u /\ next_copy ti <> t /\ prev_copy ti <> t.
Proof.
  intros Ht Hu Hne En. assert (prev_copy ti = u) as Ep by (apply (ring_next u i ti Hu); by rewrite En).
  split; [done|]. split; [|congruence]. intros E. apply Hne. rewrite <- Ep. apply (ring_next t ti ti Ht). by rewrite E.
Qed.
Lemma unlink_prev t ti u i : inf !! t = Some ti -> inf !! u = Some i -> u <> t -> prev_copy i = t ->
  next_copy ti = u /\ prev_copy ti <> t /\ next_copy ti <> t.
Proof.
  intros Ht Hu Hne En. assert (next_copy ti = u) as Ep by (apply (ring_prev u i ti Hu); by rewrite En).
  split; [done|]. split; [|congruence]. intros E. apply Hne. rewrite <- Ep. apply (ring_prev t ti ti Ht). by rewrite E.
Qed.

Lemma reset_ring t ti : inf !! t = Some ti -> ring (reset_ts t inf).
Proof.
  intros Ht u i'. rewrite (reset_lookup t ti u Ht). destruct (decide (u = t)) as [-> |Hu].
  - intros [= <-]. cbn. rewrite (reset_lookup t ti t Ht), decide_True by done. by split; eexists.
  - destruct (inf !! u) as [i|] eqn:Eu; [|done]. intros [= <-]. cbn. split.
    + destruct (decide (next_copy i = t)) as [En|En].
      * destruct (unlink_next t ti u i Ht Eu Hu En) as (Ep & Nn & _). destruct (Hring t ti Ht) as [(jn & Hn & Ejn) _].
        exists (unlink t ti jn). rewrite (reset_lookup t ti _ Ht), decide_False, Hn by done. split; [done|]. cbn. by rewrite decide_True by done.
      * destruct (Hring u i Eu) as [(j & Hj & Ej) _]. exists (unlink t ti j).
        rewrite (reset_lookup t ti _ Ht), decide_False, Hj by done. split; [done|]. cbn. rewrite decide_False by congruence. done.
    + destruct (decide (prev_copy i = t)) as [En|En].
      * destruct (unlink_prev t ti u i Ht Eu Hu En) as (Ep & Nn & _). destruct (Hring t ti Ht) as [_ (jp & Hp & Ejp)].
        exists (unlink t ti jp). rewrite (reset_lookup t ti _ Ht), decide_False, Hp by done. split; [done|]. cbn. by rewrite decide_True by done.
      * destruct (Hring u i Eu) as [_ (j & Hj & Ej)]. exists (unlink t ti j).
        rewrite (reset_lookup t ti _ Ht), decide_False, Hj by done. split; [done|]. cbn. rewrite decide_False by congruence. done.
Qed.
End ring.

(** ** What is recorded *)

Definition is_int (ty : TCGType) : bool := match ty with TYPE_I32 | TYPE_I64 => true | _ => false end.

(** The value of a temp that is the constant [v]. *)
Definition const_value (ty : TCGType) (v : Z) : Z :=
  match ty with
  | TYPE_I32 => u32 v
  | TYPE_I64 => u64 v
  | TYPE_V64 => repeat64 1 v
  | TYPE_V128 => repeat64 2 v
  | TYPE_V256 => repeat64 4 v
  end.

(** The mask has the bits of the value, and those of a constant. *)
Definition facts (ty : TCGType) (b : bool) (v m x : Z) : Prop :=
  uint 64 v /\ uint 64 m /\ (is_int ty = true -> within m x) /\
  (b = true -> x = const_value ty v /\ (is_int ty = true -> wrap (type_bits ty) m = x) /\ (ty = TYPE_I32 -> u32 v = 0 -> v = 0)).

Section sound.
Context (s : TCGContext).

Definition valid (t : Z) : bool := (1 <=? t) && (t <=? nb_temps s).

Definition ty (t : Z) : TCGType := ts_type (temps s t).

(** Every temp has a value of its type. *)
Definition regs_ok (r : gmap Z Z) : Prop := forall t, valid t = true -> exists v, r !! t = Some v /\ uint (type_bits (ty t)) v.

Definition info_ok (r : gmap Z Z) (t : Z) (i : tcg_temp_info) : Prop :=
  valid t = true /\ ty (next_copy i) = ty t /\ rd r (next_copy i) = rd r t /\ facts (ty t) (is_const i) (val i) (mask i) (rd r t).

(** Copies are equal and of one type, and constants and masks are right. *)
Definition sound (inf : temp_infos) (r : gmap Z Z) : Prop :=
  regs_ok r /\ ring inf /\ forall t i, inf !! t = Some i -> info_ok r t i.

Lemma sound_empty r : regs_ok r -> sound ∅ r.
Proof. intros H. split; [done|]. split; by intros t i; rewrite lookup_empty. Qed.

Lemma rd_range r t : regs_ok r -> valid t = true -> uint (type_bits (ty t)) (rd r t).
Proof. intros Hr Hv. destruct (Hr t Hv) as (v & E & H). unfold rd. by rewrite E. Qed.

Lemma int_bits t : is_int t = true -> type_bits t <= 64.
Proof. by destruct t. Qed.

Lemma fresh_facts t v x : uint (type_bits t) x -> uint 64 v -> facts t false v all_ones x.
Proof.
  intros Hx Hv. split; [done|]. split; [by vm_compute|]. split; [|done]. intros Ht. apply within_all.
  pose proof (int_bits t Ht). unfold uint in *. pose proof (Z.pow_le_mono_r 2 (type_bits t) 64). lia.
Qed.

Lemma reset_sound inf r r' t :
  sound inf r -> t ∈ dom inf -> regs_ok r' -> (forall u, u <> t -> rd r' u = rd r u) -> sound (reset_ts t inf) r'.
Proof.
  intros (Hr & Hring & Hi) [ti Ht]%elem_of_dom Hr' Hrd. split; [done|]. split; [by apply (reset_ring inf Hring t ti)|].
  destruct (Hi t ti Ht) as (Hv & Ty & Eq & Hf). intros u i'. rewrite (reset_lookup inf Hring t ti u Ht).
  destruct (decide (u = t)) as [-> |Hu].
  - intros [= <-]. split; [done|]. cbn. split; [done|]. split; [done|]. apply fresh_facts; [by apply rd_range|apply Hf].
  - destruct (inf !! u) as [i|] eqn:Eu; [|done]. intros [= <-]. destruct (Hi u i Eu) as (Hv' & Ty' & Eq' & Hf'). split; [done|].
    cbn. rewrite (Hrd u Hu). destruct (decide (next_copy i = t)) as [En|En].
    + destruct (unlink_next inf Hring t ti u i Ht Eu Hu En) as (Ep & Nn & _). rewrite En in *. rewrite Ty, (Hrd _ Nn), Eq. done.
    + rewrite (Hrd _ En). done.
Qed.

(** Changing what is recorded of one temp, and not its links. *)
Lemma record_sound inf r t i b v m :
  sound inf r -> inf !! t = Some i -> facts (ty t) b v m (rd r t) ->
  sound (<[t := mk_info b (prev_copy i) (next_copy i) v m]> inf) r.
Proof.
  intros (Hr & Hring & Hi) Ht Hf. split; [done|]. split.
  - intros u j Hu. assert (exists j0, inf !! u = Some j0 /\ prev_copy j0 = prev_copy j /\ next_copy j0 = next_copy j) as (j0 & Hj0 & Ep & En).
    { destruct (decide (u = t)) as [-> |]; [rewrite lookup_insert_eq in Hu; simplify_eq; by exists i|].
      rewrite lookup_insert_ne in Hu by congruence. by exists j. }
    destruct (Hring u j0 Hj0) as [(jn & Hn & En') (jp & Hp & Ep')]. rewrite <- Ep, <- En. split.
    + destruct (decide (next_copy j0 = t)) as [E|]; [|exists jn; by rewrite lookup_insert_ne by congruence].
      rewrite E in *. rewrite lookup_insert_eq. eexists. split; [done|]. cbn. congruence.
    + destruct (decide (prev_copy j0 = t)) as [E|]; [|exists jp; by rewrite lookup_insert_ne by congruence].
      rewrite E in *. rewrite lookup_insert_eq. eexists. split; [done|]. cbn. congruence.
  - intros u j. destruct (decide (u = t)) as [-> |].
    + rewrite lookup_insert_eq. intros [= <-]. destruct (Hi t i Ht) as (Hv & Ty & Eq & _). done.
    + rewrite lookup_insert_ne by congruence. apply Hi.
Qed.

(** [dst] joins the ring of [src], of which it is a copy. *)
Definition join_ring (src dst : Z) (inf : temp_infos) : temp_infos :=
  let sn := next_copy (ts_info inf src) in set_next src dst (set_prev sn dst (set_prev dst src (set_next dst sn inf))).

Lemma join_lookup inf src dst si di u :
  ring inf -> inf !! src = Some si -> inf !! dst = Some di -> next_copy di = dst -> prev_copy di = dst -> src <> dst ->
  join_ring src dst inf !! u =
    if decide (u = dst) then Some (with_links src (next_copy si) di)
    else (fun i => with_links (if decide (u = next_copy si) then dst else prev_copy i) (if decide (u = src) then dst else next_copy i) i) <$> inf !! u.
Proof.
  intros Hring Hs Hd En Ep Hne. unfold join_ring. rewrite (ts_info_some inf src si Hs). cbv zeta.
  destruct (Hring src si Hs) as [(jn & Hn & Ejn) _].
  assert (next_copy si <> dst) as Hnd by (intros E; rewrite E in *; simplify_eq; congruence).
  rewrite (set_next_some inf dst _ di Hd), (set_prev_some _ dst src _ (lookup_insert_eq inf dst _)).
  erewrite set_prev_some by (rewrite !lookup_insert_ne by congruence; exact Hn).
  destruct (decide (next_copy si = src)) as [E|E].
  - rewrite E in *. assert (jn = si) as -> by congruence. erewrite set_next_some by apply lookup_insert_eq.
    destruct (decide (u = dst)) as [-> |]; [lookups; done|]. destruct (decide (u = src)) as [-> |]; [lookups; by rewrite Hs|].
    lookups. destruct (inf !! u) as [[]|]; done.
  - erewrite set_next_some by (rewrite !lookup_insert_ne by congruence; exact Hs).
    destruct (decide (u = dst)) as [-> |]; [lookups; done|]. destruct (decide (u = src)) as [-> |].
    + lookups. rewrite Hs. cbn. by rewrite decide_False by congruence.
    + destruct (decide (u = next_copy si)) as [-> |]; lookups; [by rewrite Hn|]. destruct (inf !! u) as [[]|]; done.
Qed.

Lemma join_sound inf r src dst di :
  sound inf r -> src ∈ dom inf -> inf !! dst = Some di -> next_copy di = dst -> prev_copy di = dst -> src <> dst ->
  ty src = ty dst -> rd r src = rd r dst -> sound (join_ring src dst inf) r.
Proof.
  intros (Hr & Hring & Hi) [si Hs]%elem_of_dom Hd En Ep Hne Ty Eq. pose proof (join_lookup inf src dst si di) as L.
  destruct (Hring src si Hs) as [(jn & Hn & Ejn) _].
  assert (next_copy si <> dst) as Hsn by (intros E; rewrite E in *; simplify_eq; congruence).
  assert (forall u i, inf !! u = Some i -> u <> dst -> next_copy i <> dst /\ prev_copy i <> dst) as Hoff.
  { intros u i Hu Hud. split; intros E.
    - apply Hud. rewrite <- Ep. symmetry. apply (ring_next inf Hring u i di Hu). by rewrite E.
    - apply Hud. rewrite <- En. symmetry. apply (ring_prev inf Hring u i di Hu). by rewrite E. }
  split; [done|]. split.
  - intros u i'. rewrite (L u) by done. destruct (decide (u = dst)) as [-> |Hu].
    + intros [= <-]. cbn. split.
      * exists (with_links dst (if decide (next_copy si = src) then dst else next_copy jn) jn).
        rewrite (L _) by done. rewrite decide_False, Hn by done. cbn. by rewrite decide_True by done.
      * exists (with_links (if decide (src = next_copy si) then dst else prev_copy si) dst si).
        rewrite (L _) by done. rewrite decide_False, Hs by done. cbn. by rewrite (decide_True (P := src = src)) by done.
    + destruct (inf !! u) as [i|] eqn:Eu; [|done]. intros [= <-]. cbn. destruct (Hoff u i Eu Hu) as [Nn Np]. split.
      * destruct (decide (u = src)) as [-> |Hus].
        -- assert (i = si) as -> by congruence. rewrite (L dst) by done. rewrite decide_True by done. by eexists.
        -- destruct (Hring u i Eu) as [(j & Hj & Ej) _]. rewrite (L _) by done. rewrite decide_False, Hj by done. cbn.
           eexists. split; [done|]. cbn. rewrite decide_False; [done|]. intros E. apply Hus. congruence.
      * destruct (decide (u = next_copy si)) as [-> |Hun].
        -- rewrite (L dst) by done. rewrite decide_True by done. by eexists.
        -- destruct (Hring u i Eu) as [_ (j & Hj & Ej)]. rewrite (L _) by done. rewrite decide_False, Hj by done. cbn.
           eexists. split; [done|]. cbn. rewrite decide_False; [done|]. intros E. apply Hun. congruence.
  - intros u i'. rewrite (L u) by done. destruct (Hi src si Hs) as (Vs & Tys & Eqs & _). destruct (Hi dst di Hd) as (Vd & _ & _ & Fd).
    destruct (decide (u = dst)) as [-> |Hu].
    + intros [= <-]. split; [done|]. cbn. rewrite Tys, Ty, Eqs, Eq. done.
    + destruct (inf !! u) as [i|] eqn:Eu; [|done]. intros [= <-]. destruct (Hi u i Eu) as (Vu & Tu & Equ & Fu). split; [done|]. cbn.
      destruct (decide (u = src)) as [-> |]; done.
Qed.

(** The type of the output of a move. *)
Definition type_for (t : op_type) (y : TCGType) : bool :=
  match t, y with
  | Int W32, TYPE_I32 | Int W64, TYPE_I64 => true
  | Vec, _ => negb (is_int y)
  | _, _ => false
  end.

Lemma garbage_range t m : uint 64 m -> uint 64 (garbage_high t m).
Proof. intros Hm. destruct t as [[]|]; try done. apply lor_uint; [lia|done|by vm_compute]. Qed.

Lemma garbage_within t m x : within m x -> within (garbage_high t m) x.
Proof. intros H. destruct t as [[]|]; try done. by apply within_lor. Qed.

Lemma garbage_low t y m : type_for t y = true -> is_int y = true -> wrap (type_bits y) (garbage_high t m) = wrap (type_bits y) m.
Proof.
  intros Ht Hy. destruct t as [[]|], y; try done. cbn [garbage_high type_bits]. rewrite wrap_lor by lia.
  change (u32 (not64 4294967295)) with 0. by rewrite Z.lor_0_r.
Qed.

Lemma const_value_int y v : is_int y = true -> const_value y v = wrap (type_bits y) v.
Proof. by destruct y. Qed.

Lemma movi_facts t y v : type_for t y = true -> uint 64 v -> (y = TYPE_I32 -> u32 v = 0 -> v = 0) ->
  facts y true v (garbage_high t v) (const_value y v).
Proof.
  intros Ht Hv H0. split; [done|]. split; [by apply garbage_range|]. split.
  - intros Hy. rewrite const_value_int by done. apply garbage_within, within_wrap; [by destruct y|]. apply Z.land_diag.
  - intros _. split; [done|]. split; [|done]. intros Hy. rewrite (garbage_low t y) by done. by rewrite const_value_int.
Qed.

(** A copy of a temp of the same type, or of the low word of a temp. *)
Lemma mov_facts t y b v m x : type_for t y = true -> uint (type_bits y) x -> facts y b v m x -> facts y b v (garbage_high t m) x.
Proof.
  intros Ht Hx (Hv & Hm & Hw & Hc). split; [done|]. split; [by apply garbage_range|]. split.
  - intros Hy. by apply garbage_within, Hw.
  - intros Hb. destruct (Hc Hb) as (Ex & Em & H0). split; [done|]. split; [|done]. intros Hy. rewrite (garbage_low t y) by done. by apply Em.
Qed.

Lemma mov_low_facts w y y' b v v' m x : is_int y = true -> facts y b v m x -> uint 64 v' ->
  facts y' false v' (garbage_high (Int w) m) (wrap (bits w) x).
Proof.
  intros Hy (Hv & Hm & Hw & Hc) Hv'. split; [done|]. split; [by apply garbage_range|]. split; [|done].
  intros Hy'. apply garbage_within, within_wrap; [by destruct w|]. auto.
Qed.

Lemma gen_movi_sound inf r r' op t v :
  sound inf r -> t ∈ dom inf -> regs_ok r' -> (forall u, u <> t -> rd r' u = rd r u) ->
  type_for (move_type (tcg_op_defs (opc op))) (ty t) = true -> uint 64 v -> (ty t = TYPE_I32 -> u32 v = 0 -> v = 0) ->
  rd r' t = const_value (ty t) v -> sound (tcg_opt_gen_movi inf op t v).1 r'.
Proof.
  intros Hs Ht Hr' Hrd Hty Hv H0 Hx. pose proof (reset_sound inf r r' t Hs Ht Hr' Hrd) as Hs'.
  destruct Hs as (_ & Hring & _). apply elem_of_dom in Ht as [ti Ht].
  pose proof (reset_lookup inf Hring t ti t Ht) as L. rewrite decide_True in L by done.
  unfold tcg_opt_gen_movi. cbn [fst]. rewrite (set_const_some _ _ _ _ _ L). cbn [prev_copy next_copy mask].
  rewrite (set_mask_some _ _ _ _ (lookup_insert_eq _ _ _)), insert_insert_eq. cbn [is_const prev_copy next_copy val].
  apply (record_sound _ _ t (mk_info false t t (val ti) all_ones)); [done|done|]. rewrite Hx. by apply movi_facts.
Qed.

(** The value a move of type [t] gives. *)
Definition mov_value (t : op_type) (x : Z) : Z := match t with Int w => wrap (bits w) x | Vec => x end.

(** Sources that a move of type [t] may have. *)
Definition src_for (t : op_type) (y : TCGType) : bool := match t with Int W32 => is_int y | _ => type_for t y end.

Lemma sound_facts inf r t i : sound inf r -> inf !! t = Some i -> facts (ty t) (is_const i) (val i) (mask i) (rd r t).
Proof. intros (_ & _ & Hi) Ht. by destruct (Hi t i Ht) as (_ & _ & _ & H). Qed.

Lemma mov_value_id t y x : type_for t y = true -> uint (type_bits y) x -> mov_value t x = x.
Proof. intros Ht Hx. destruct t as [[]|]; [| |done]; destruct y; try done; by apply wrap_id. Qed.

(** A mov that was not dropped. *)
Lemma gen_mov_sound inf r r' op dst src :
  sound inf r -> dst ∈ dom inf -> src ∈ dom inf -> src <> dst -> regs_ok r' -> (forall u, u <> dst -> rd r' u = rd r u) ->
  let t := move_type (tcg_op_defs (opc op)) in
  type_for t (ty dst) = true -> src_for t (ty src) = true -> (t = Vec -> ty src = ty dst) ->
  ts_are_copies inf dst src = false -> rd r' dst = mov_value t (rd r src) ->
  sound (tcg_opt_gen_mov s inf op dst src).1 r'.
Proof.
  intros Hs Hd Hsrc Hne Hr' Hrd t Hty Hst Hvec Hnc Hx. unfold tcg_opt_gen_mov. rewrite Hnc. fold t.
  pose proof (reset_sound inf r r' dst Hs Hd Hr' Hrd) as Hs1. pose proof Hs as (Hr & Hring & Hi).
  apply elem_of_dom in Hd as [di Hd]. apply elem_of_dom in Hsrc as [si Hsi].
  pose proof (sound_facts _ _ _ _ Hs Hsi) as Fs. pose proof (sound_facts _ _ _ _ Hs Hd) as Fd.
  pose proof (reset_lookup inf Hring dst di) as L. pose proof (L dst Hd) as Ld. rewrite decide_True in Ld by done.
  pose proof (L src Hd) as Ls. rewrite decide_False, Hsi in Ls by done. cbn [fmap option_fmap option_map] in Ls.
  unfold arg_mask. rewrite (ts_info_some _ _ _ Ls). cbn [mask unlink with_links].
  rewrite (set_mask_some _ _ _ _ Ld). cbn [is_const prev_copy next_copy val].
  assert (facts (ty dst) false (val di) (garbage_high t (mask si)) (rd r' dst)) as F1.
  { destruct t as [w|] eqn:Et; rewrite Hx; cbn [mov_value].
    - apply (mov_low_facts w (ty src) (ty dst) (is_const si) (val si)); [destruct w, (ty src); done|done|apply Fd].
    - split; [apply Fd|]. split; [apply Fs|]. split; [|done]. cbn in Hty. by destruct (ty dst). }
  pose proof (record_sound _ r' dst _ false (val di) (garbage_high t (mask si)) Hs1 Ld F1) as Hs2. cbn [prev_copy next_copy] in Hs2.
  set (inf2 := <[dst := _]> (reset_ts dst inf)) in *. case_decide as Ety; [|done].
  assert (inf2 !! dst = Some (mk_info false dst dst (val di) (garbage_high t (mask si)))) as L2 by apply lookup_insert_eq.
  assert (inf2 !! src = Some (unlink dst di si)) as L2s by (unfold inf2; by rewrite lookup_insert_ne by congruence).
  assert (rd r' src = rd r' dst) as Eq.
  { rewrite Hx, (Hrd src Hne). symmetry. apply (mov_value_id t (ty dst)); [done|]. unfold ty. rewrite <- Ety.
    apply rd_range; [done|]. by destruct (Hi src si Hsi). }
  pose proof (join_sound inf2 r' src dst _ Hs2 (elem_of_dom_2 _ _ _ L2s) L2 eq_refl eq_refl Hne Ety Eq) as Hs3.
  fold (join_ring src dst inf2). cbn [fst]. set (inf3 := join_ring src dst inf2) in *.
  pose proof (join_lookup inf2 src dst _ _ dst ltac:(apply Hs2) L2s L2 eq_refl eq_refl Hne) as L3. rewrite decide_True in L3 by done.
  pose proof (join_lookup inf2 src dst _ _ src ltac:(apply Hs2) L2s L2 eq_refl eq_refl Hne) as L3s. rewrite decide_False, L2s in L3s by done.
  fold inf3 in L3, L3s. cbn [fmap option_fmap option_map] in L3s. unfold arg_is_const, arg_val. rewrite (ts_info_some _ _ _ L3s).
  cbn [is_const val with_links unlink]. rewrite (set_const_some _ _ _ _ _ L3). apply (record_sound _ _ dst _ _ _ _ Hs3 L3). cbn [mask with_links].
  rewrite <- Eq, (Hrd src Hne). change (ty src = ty dst) in Ety. apply mov_facts; [done| |by rewrite <- Ety].
  rewrite <- Ety. apply rd_range; [done|]. by destruct (Hi src si Hsi).
Qed.

(** ** The walk over the copies *)

Lemma copies_loop_sound inf r p fuel ts i j :
  sound inf r -> i ∈ dom inf -> copies_loop fuel inf p ts i = Some j ->
  p j = true /\ j ∈ dom inf /\ ty j = ty i /\ rd r j = rd r i.
Proof.
  intros Hs. pose proof Hs as (_ & Hring & Hi). revert i. induction fuel as [|fuel IH]; intros i Hin; [done|]. cbn [copies_loop].
  destruct (i =? ts); [done|]. destruct (p i) eqn:Ep; [by intros [= <-]|]. apply elem_of_dom in Hin as [ii Hii].
  rewrite (ts_info_some _ _ _ Hii). destruct (Hi i ii Hii) as (_ & Ty & Eq & _). destruct (Hring i ii Hii) as [(jn & Hn & _) _].
  intros H. apply IH in H as (? & ? & Ty' & Eq'); [|by apply elem_of_dom_2 in Hn]. rewrite Ty', Eq', Ty, Eq. done.
Qed.

Lemma copies_sound inf r p ts j : sound inf r -> ts ∈ dom inf -> copies inf p ts = Some j ->
  p j = true /\ j ∈ dom inf /\ ty j = ty ts /\ rd r j = rd r ts.
Proof.
  intros Hs [i Hts]%elem_of_dom. pose proof Hs as (_ & Hring & Hi). unfold copies. rewrite (ts_info_some _ _ _ Hts).
  destruct (Hi ts i Hts) as (_ & Ty & Eq & _). destruct (Hring ts i Hts) as [(jn & Hn & _) _].
  intros H. apply (copies_loop_sound _ _ _ _ _ _ _ Hs) in H as (? & ? & Ty' & Eq'); [|by apply elem_of_dom_2 in Hn].
  rewrite Ty', Eq', Ty, Eq. done.
Qed.

Lemma are_copies_sound inf r t1 t2 : sound inf r -> t1 ∈ dom inf -> ts_are_copies inf t1 t2 = true ->
  ty t1 = ty t2 /\ rd r t1 = rd r t2.
Proof.
  intros Hs Hd. unfold ts_are_copies. destruct (Z.eqb_spec t1 t2) as [-> |]; [done|]. destruct (_ || _); [done|].
  destruct (copies inf _ t1) as [j|] eqn:E; [|done]. intros _. apply (copies_sound _ _ _ _ _ Hs Hd) in E as (Ej & _ & Ty & Eq).
  apply Z.eqb_eq in Ej as ->. by rewrite Ty, Eq.
Qed.

Lemma better_copy_sound inf r t : sound inf r -> t ∈ dom inf ->
  let u := find_better_copy s inf t in u ∈ dom inf /\ ty u = ty t /\ rd r u = rd r t.
Proof.
  intros Hs Hd. unfold find_better_copy. destruct (temp_global _); [done|].
  destruct (copies inf _ t) as [i|] eqn:E; [by destruct (copies_sound _ _ _ _ _ Hs Hd E) as (_ & H)|].
  destruct (negb _); [|done]. destruct (copies inf (fun _ => temp_local (temps s t)) t) as [i|] eqn:E'; [|done].
  by destruct (copies_sound _ _ _ _ _ Hs Hd E') as (_ & H).
Qed.

(** The temps an operation uses become known. *)
Lemma init_sound inf r t : sound inf r -> valid t = true -> sound (init_ts_info t inf) r /\ t ∈ dom (init_ts_info t inf) /\ dom inf ⊆ dom (init_ts_info t inf).
Proof.
  intros Hs Hv. unfold init_ts_info. destruct (inf !! t) as [i|] eqn:E; [split; [done|]; split; [by apply elem_of_dom_2 in E|done]|].
  pose proof Hs as (Hr & Hring & Hi). split; [|rewrite dom_insert_L; set_solver].
  assert (forall u j, inf !! u = Some j -> next_copy j <> t /\ prev_copy j <> t) as Hoff.
  { intros u j Hu. destruct (Hring u j Hu) as [(jn & Hn & _) (jp & Hp & _)]. split; congruence. }
  split; [done|]. split.
  - intros u j. destruct (decide (u = t)) as [-> |Hu].
    + rewrite lookup_insert_eq. intros [= <-]. cbn. rewrite lookup_insert_eq. by split; eexists.
    + rewrite lookup_insert_ne by congruence. intros Huj. destruct (Hoff u j Huj) as [Nn Np].
      rewrite !lookup_insert_ne by congruence. by apply Hring.
  - intros u j. destruct (decide (u = t)) as [-> |Hu].
    + rewrite lookup_insert_eq. intros [= <-]. split; [done|]. split; [done|]. split; [done|]. cbn. apply fresh_facts; [by apply rd_range|by vm_compute].
    + rewrite lookup_insert_ne by congruence. apply Hi.
Qed.

(** Registers that take the value of one temp from others. *)
Lemma regs_patch r r' t : regs_ok r -> regs_ok r' -> valid t = true ->
  exists r1, regs_ok r1 /\ rd r1 t = rd r' t /\ forall u, u <> t -> rd r1 u = rd r u.
Proof.
  intros Hr Hr' Hv. destruct (Hr' t Hv) as (v & Ev & Hvr). exists (<[t := v]> r). split; [|split].
  - intros u Hu. destruct (decide (u = t)) as [-> |]; [rewrite lookup_insert_eq; by eexists|].
    rewrite lookup_insert_ne by congruence. by apply Hr.
  - unfold rd. by rewrite lookup_insert_eq, Ev.
  - intros u Hu. unfold rd. by rewrite lookup_insert_ne by congruence.
Qed.

Lemma sound_rd inf r r' : sound inf r -> regs_ok r' -> (forall u, u ∈ dom inf -> rd r' u = rd r u) -> sound inf r'.
Proof.
  intros (Hr & Hring & Hi) Hr' Hrd. split; [done|]. split; [done|]. intros u i Hu. destruct (Hring u i Hu) as [(jn & Hn & _) _].
  unfold info_ok. rewrite !Hrd by (by eapply elem_of_dom_2). by apply Hi.
Qed.

Lemma reset_dom inf t : ring inf -> t ∈ dom inf -> dom (reset_ts t inf) = dom inf.
Proof.
  intros Hring [ti Ht]%elem_of_dom. apply set_eq. intros u. rewrite !elem_of_dom, (reset_lookup inf Hring t ti u Ht).
  case_decide as E; [subst; rewrite Ht; by split; eexists|]. by rewrite fmap_is_Some.
Qed.

(** Temps that are forgotten may take any value. *)
Lemma forget_sound ts inf r r' :
  sound inf r -> regs_ok r' -> Forall (fun t => valid t = true) ts -> (forall u, u ∉ ts -> rd r' u = rd r u) ->
  sound (foldl (fun inf t => match inf !! t with Some _ => reset_ts t inf | None => inf end) inf ts) r'.
Proof.
  revert inf r. induction ts as [|t ts IH]; intros inf r Hs Hr' Hv Hrd; cbn [foldl].
  - apply (sound_rd _ r); [done|done|]. intros u _. apply Hrd, not_elem_of_nil.
  - apply Forall_cons in Hv as [Hvt Hv]. destruct (regs_patch r r' t ltac:(apply Hs) Hr' Hvt) as (r1 & Hr1 & Ht & H1).
    apply (IH _ r1); try done.
    + destruct (inf !! t) eqn:E.
      * apply (reset_sound inf r); try done. by apply elem_of_dom_2 in E.
      * apply (sound_rd _ r); [done|done|]. intros u Hu. apply H1. intros ->. by apply not_elem_of_dom in E.
    + intros u Hu. destruct (decide (u = t)) as [-> |]; [done|]. rewrite H1 by done. apply Hrd. set_solver.
Qed.

Lemma foldl_reset_eq (f : nat -> Z) l inf : ring inf -> (forall i, i ∈ l -> f i ∈ dom inf) -> (forall i, i ∈ l -> i <> 0%nat) -> forall k,
  foldl (fun inf i => let inf := reset_ts (f i) inf in if (i =? 0)%nat then set_mask (f i) k inf else inf) inf l =
  foldl (fun inf t => match inf !! t with Some _ => reset_ts t inf | None => inf end) inf (f <$> l).
Proof.
  intros Hring Hd Hl k. revert inf Hring Hd. induction l as [|i l IH]; intros inf Hring Hd; [done|]. cbn [foldl fmap list_fmap].
  rewrite (proj2 (Nat.eqb_neq i 0)) by (apply Hl; left). pose proof (Hd i ltac:(left)) as [ti Hti]%elem_of_dom. rewrite Hti.
  apply IH.
  - intros j Hj. apply Hl. by right.
  - by apply (reset_ring inf Hring (f i) ti).
  - intros j Hj. rewrite reset_dom; [apply Hd; by right|done|apply Hd; left].
Qed.

Lemma reset_outputs_sound inf op k r r' :
  sound inf r -> (forall t, t ∈ outputs op -> t ∈ dom inf) -> regs_ok r' -> (forall u, u ∉ outputs op -> rd r' u = rd r u) ->
  uint 64 k -> (is_int (ty (args op 0%nat)) = true -> op_oargs op <> 0%nat -> within k (rd r' (args op 0%nat))) ->
  sound (reset_outputs inf op k) r'.
Proof.
  unfold outputs, reset_outputs. intros Hs Hd Hr' Hrd Hk Hw. destruct (op_oargs op) as [|n]; cbn [seq foldl].
  - apply (sound_rd _ r); [done|done|]. intros u _. apply Hrd, not_elem_of_nil.
  - cbn [seq fmap list_fmap] in Hd, Hrd. change (0 =? 0)%nat with true. cbv iota.
    set (t := args op 0%nat) in *. pose proof (Hd t ltac:(left)) as Ht.
    assert (forall u, u ∈ dom inf -> valid u = true) as Hvd.
    { intros u [i Hi]%elem_of_dom. by destruct Hs as (_ & _ & H), (H u i Hi). }
    destruct (regs_patch r r' t ltac:(apply Hs) Hr' (Hvd t Ht)) as (r1 & Hr1 & Et & H1).
    pose proof (reset_sound inf r r1 t Hs Ht Hr1 H1) as Hs1. pose proof Hs as (_ & Hring & _). pose proof Ht as [ti Hti]%elem_of_dom.
    pose proof (reset_lookup inf Hring t ti t Hti) as L. rewrite decide_True in L by done.
    assert (sound (set_mask t k (reset_ts t inf)) r1) as Hs2.
    { rewrite (set_mask_some _ _ _ _ L). apply (record_sound _ _ _ _ _ _ _ Hs1 L). cbn [is_const val].
      split; [by apply (sound_facts _ _ _ _ Hs Hti)|]. split; [done|]. split; [rewrite Et; intros; by apply Hw|done]. }
    assert (dom (set_mask t k (reset_ts t inf)) = dom inf) as Ed.
    { rewrite (set_mask_some _ _ _ _ L), dom_insert_L, reset_dom by done. set_solver. }
    rewrite (foldl_reset_eq (args op)).
    + apply (forget_sound _ _ r1); try done.
      * apply Forall_forall. intros u Hu. apply Hvd, Hd. by right.
      * intros u Hu. destruct (decide (u = t)) as [-> |]; [done|]. rewrite H1 by done. apply Hrd. set_solver.
    + apply Hs2.
    + intros i Hi. rewrite Ed. apply Hd. right. by apply list_elem_of_fmap_2.
    + intros i Hi. apply elem_of_seq in Hi. lia.
Qed.
End sound.

(** ** The walk ends *)

Section walk.
Context (inf : temp_infos) (Hring : ring inf).

Definition next (t : Z) : Z := next_copy (ts_info inf t).

Lemma next_dom t : t ∈ dom inf -> next t ∈ dom inf.
Proof.
  intros [i Hi]%elem_of_dom. unfold next. rewrite (ts_info_some _ _ _ Hi). destruct (Hring t i Hi) as [(j & Hj & _) _].
  by apply elem_of_dom_2 in Hj.
Qed.

Lemma next_inj t u : t ∈ dom inf -> u ∈ dom inf -> next t = next u -> t = u.
Proof.
  intros [i Hi]%elem_of_dom [j Hj]%elem_of_dom. unfold next. rewrite (ts_info_some _ _ _ Hi), (ts_info_some _ _ _ Hj). intros E.
  destruct (Hring t i Hi) as [(a & Ha & <-) _], (Hring u j Hj) as [(b & Hb & <-) _]. congruence.
Qed.

Lemma iter_dom k t : t ∈ dom inf -> Nat.iter k next t ∈ dom inf.
Proof. intros Ht. induction k as [|k IH]; [done|]. by apply next_dom. Qed.

Lemma iter_cancel a b t : t ∈ dom inf -> Nat.iter a next t = Nat.iter (a + b) next t -> Nat.iter b next t = t.
Proof.
  intros Ht. induction a as [|a IH]; [done|]. intros E. apply IH, next_inj; [by apply iter_dom|by apply iter_dom|]. exact E.
Qed.

Lemma iter_shift k t : Nat.iter k next (next t) = next (Nat.iter k next t).
Proof. by rewrite <- Nat.iter_succ_r, Nat.iter_succ. Qed.

Lemma loop_none fuel p ts i : copies_loop fuel inf p ts i = None ->
  (exists k, (k < fuel)%nat /\ Nat.iter k next i = ts /\ forall j, (j < k)%nat -> p (Nat.iter j next i) = false) \/
  (forall j, (j < fuel)%nat -> Nat.iter j next i <> ts).
Proof.
  revert i. induction fuel as [|fuel IH]; intros i; [right; lia|]. cbn [copies_loop].
  destruct (Z.eqb_spec i ts) as [-> |Hne]; [left; exists 0%nat; split; [lia|]; split; [done|lia]|].
  destruct (p i) eqn:Ep; [done|]. change (next_copy (ts_info inf i)) with (next i). intros [(k & Hk & Ek & Hp)|H]%IH.
  - left. exists (S k). split; [lia|]. split; [by rewrite Nat.iter_succ_r|]. intros [|j] Hj; [done|].
    rewrite Nat.iter_succ_r. apply Hp. lia.
  - right. intros [|j] Hj; [done|]. rewrite Nat.iter_succ_r. apply H. lia.
Qed.

(** A ring is not longer than the number of known temps. *)
Lemma ring_bound ts : ts ∈ dom inf -> exists k, (0 < k <= size inf)%nat /\ Nat.iter k next ts = ts.
Proof.
  intros Hts. destruct (decide (Exists (fun k => Nat.iter k next ts = ts) (seq 1 (size inf)))) as [[k [Hk Ek]]%Exists_exists|Hno].
  { apply elem_of_seq in Hk. exists k. split; [lia|done]. }
  exfalso. rewrite Exists_exists in Hno.
  assert (NoDup ((fun k => Nat.iter k next ts) <$> seq 0 (S (size inf)))) as Hnd.
  { apply NoDup_fmap_2_strong; [|apply NoDup_seq]. intros a b Ha Hb E. apply elem_of_seq in Ha, Hb. cbn beta in E.
    destruct (Nat.lt_trichotomy a b) as [L|[L|L]]; [|done|].
    - exfalso. apply Hno. exists (b - a)%nat. split; [apply elem_of_seq; lia|]. apply (iter_cancel a); [done|]. rewrite E. f_equal. lia.
    - exfalso. apply Hno. exists (a - b)%nat. split; [apply elem_of_seq; lia|]. apply (iter_cancel b); [done|]. rewrite <- E. f_equal. lia. }
  assert (size (list_to_set (C := gset Z) ((fun k => Nat.iter k next ts) <$> seq 0 (S (size inf)))) <= size (dom inf))%nat as Hsz.
  { apply subseteq_size. intros u. rewrite elem_of_list_to_set. intros (k & -> & _)%list_elem_of_fmap. by apply iter_dom. }
  rewrite size_list_to_set, length_fmap, length_seq, size_dom in Hsz by done. lia.
Qed.

(** The bound on the loop is enough: a walk that finds nothing has seen all copies. *)
Lemma copies_complete p ts : ts ∈ dom inf -> copies inf p ts = None ->
  forall k, Nat.iter k next ts = ts \/ p (Nat.iter k next ts) = false.
Proof.
  intros Hts H. apply loop_none in H. fold (next ts) in H.
  destruct H as [(m & Hm & Em & Hp)|H].
  - rewrite iter_shift in Em. change (next (Nat.iter m next ts)) with (Nat.iter (S m) next ts) in Em.
    assert (forall q, Nat.iter (q * S m) next ts = ts) as Hper.
    { induction q as [|q IH]; [done|]. change (S q * S m)%nat with (S m + q * S m)%nat. rewrite Nat.iter_add, IH. done. }
    intros k. rewrite (Nat.div_mod_eq k (S m)), Nat.mul_comm, Nat.add_comm, Nat.iter_add, Hper.
    pose proof (Nat.mod_upper_bound k (S m) ltac:(lia)). destruct (k mod S m)%nat as [|j]; [by left|]. right.
    rewrite Nat.iter_succ_r. apply Hp. lia.
  - destruct (ring_bound ts Hts) as (k & Hk & Ek). exfalso. apply (H (k - 1)%nat); [lia|]. rewrite iter_shift.
    change (Nat.iter (S (k - 1)) next ts = ts). replace (S (k - 1)) with k by lia. done.
Qed.
(** What a walk finds is a copy that passes the test. *)
Lemma copies_found p ts j : copies inf p ts = Some j -> p j = true /\ j <> ts /\ exists k, j = Nat.iter k next ts.
Proof.
  unfold copies. change (next_copy (ts_info inf ts)) with (Nat.iter 1 next ts). generalize (S (size inf)) 1%nat. induction n as [|fuel IH]; intros k; [done|].
  cbn [copies_loop]. destruct (Z.eqb_spec (Nat.iter k next ts) ts) as [|Hne]; [done|]. destruct (p (Nat.iter k next ts)) eqn:Ep; [|apply (IH (S k))].
  intros [= <-]. split; [done|]. split; [done|]. by exists k.
Qed.
End walk.
