(* ===== verification/TcgPhases.v ===== *)
(** * Replacing one operation

    When an operation may be replaced by others: a step of the operation is a
    run of its replacement, and what is recorded afterwards is true.  The
    building blocks of the optimizer, [tcg_opt_gen_movi], [tcg_opt_gen_mov],
    unary operations and [do_default], are replacements under conditions on
    values only; copy propagation and the order of the inputs keep a step. *)

From S2P Require Import Prelude BitOps HostUtils TcgOps TcgSem TcgOptimize TcgValues TcgFields TcgMasks TcgCopies.

(** ** Well-formed operations *)

(** Operations that only compute. *)
Definition pure_op (c : TCGOpcode) : bool :=
  match c with
  | op_discard | op_set_label | op_insn_start | op_br | op_mb | op_brcond _ | op_brcond2_i32 | op_exit_tb | op_goto_tb
  | op_goto_ptr | op_call | op_qemu_ld _ | op_qemu_st _ | op_ld8u _ | op_ld8s _ | op_ld16u _ | op_ld16s _ | op_ld32u_i64
  | op_ld32s_i64 | op_ld _ | op_st8 _ | op_st16 _ | op_st32_i64 | op_st _ | op_div2 _ | op_divu2 _ | op_vec _ => false
  | _ => true
  end.

(** Conditional branches. *)
Definition branches (c : TCGOpcode) : bool := match c with op_brcond _ | op_brcond2_i32 => true | _ => false end.

(** The type of the outputs of an operation. *)
Definition out_type (o : TCGOp) : TCGType :=
  match move_type (tcg_op_defs (opc o)) with Int W32 => TYPE_I32 | Int W64 => TYPE_I64 | Vec => vec_type o end.

Definition out_ok (o : TCGOp) (y : TCGType) : bool :=
  match opc o with op_discard | op_call => true | _ => bool_decide (y = out_type o) end.

(** The types its inputs may have: an operation on 32-bit words may read the
    low half of a 64-bit temp. *)
Definition in_ok (o : TCGOp) (y : TCGType) : bool :=
  match opc o with
  | op_clz W32 | op_ctz W32 => bool_decide (y = TYPE_I32)
  | op_dup_vec => is_int y && (8 * 2 ^ TCGOP_VECE o <=? type_bits y)
  | c =>
    if negb (pure_op c || branches c) then true
    else match move_type (tcg_op_defs c) with
         | Vec => bool_decide (y = vec_type o)
         | Int _ => match in_width c with W32 => is_int y | W64 => bool_decide (y = TYPE_I64) end
         end
  end.

(** Constants: conditions are known ones, and a 32-bit constant is 0 when its
    low word is.  Double-word results go to two temps. *)
Definition consts_ok (o : TCGOp) : bool :=
  let a := args o in
  match opc o with
  | op_movi W32 => (0 <=? a 1%nat) && (a 1%nat <? 2 ^ 64) && (negb (u32 (a 1%nat) =? 0) || (a 1%nat =? 0))
  | op_movi W64 | op_dupi_vec => (0 <=? a 1%nat) && (a 1%nat <? 2 ^ 64)
  | op_brcond _ => cond_valid (a 2%nat)
  | op_setcond _ => cond_valid (a 3%nat)
  | op_brcond2_i32 => cond_valid (a 4%nat)
  | op_movcond _ | op_setcond2_i32 => cond_valid (a 5%nat)
  | op_add2 _ | op_sub2 _ | op_mulu2 _ => negb (a 0%nat =? a 1%nat)
  | _ => true
  end.

Section phases.
Context {M : Type} `{!TcgEnv M} (s : TCGContext).

Definition wf_op (o : TCGOp) : bool :=
  forallb (fun t => valid s t && out_ok o (ty s t)) (outputs o) &&
  forallb (fun t => valid s t && in_ok o (ty s t)) (inputs o) && consts_ok o &&
  (if opf_vector (tcg_op_defs (opc o)) then vec_ok o else true).

(** ** Steps *)

Lemma step_pure o (st : machine M) : pure_op (opc o) = true ->
  step s o st = outs ← op_sem o (rd (regs st) <$> inputs o); Some (Next (with_regs (wr_list s (outputs o) outs (regs st)) st)).
Proof. intros H. unfold step. destruct (opc o); done. Qed.

(** Two operations that differ in their inputs only. *)
Definition alike (o o' : TCGOp) : Prop :=
  opc o = opc o' /\ param1 o = param1 o' /\ param2 o = param2 o' /\
  forall j, (j < op_oargs o \/ op_oargs o + op_iargs o <= j)%nat -> args o j = args o' j.

Lemma alike_count o o' : alike o o' -> op_oargs o = op_oargs o' /\ op_iargs o = op_iargs o'.
Proof.
  intros (Ec & E1 & E2 & _). unfold op_oargs, op_iargs, TCGOP_CALLO, TCGOP_CALLI. by rewrite Ec, E1, E2.
Qed.

Lemma alike_outputs o o' : alike o o' -> outputs o = outputs o' /\ constants o = constants o'.
Proof.
  intros H. destruct (alike_count o o' H) as [Eo Ei]. destruct H as (Ec & _ & _ & Ha). unfold outputs, constants. rewrite <- Eo, <- Ei, <- Ec.
  split; apply list_fmap_ext; intros i j Hj; apply Ha; apply list_elem_of_lookup_2, elem_of_seq in Hj; lia.
Qed.

Lemma op_sem_alike o o' ins : alike o o' -> op_sem o ins = op_sem o' ins.
Proof.
  intros (Ec & E1 & E2 & Ha). unfold op_sem, lanes, vec_words, TCGOP_VECE, TCGOP_VECL. rewrite <- Ec, E1, E2. cbv zeta.
  unfold op_oargs, op_iargs in Ha. destruct (opc o); try reflexivity;
    destruct ins as [|? [|? [|? [|? [|]]]]]; try reflexivity;
    repeat match goal with |- context [args o ?k] => rewrite (Ha k) by (cbn; repeat case_match; cbn; lia) end; reflexivity.
Qed.

(** A step only depends on the values of the inputs. *)
Lemma step_alike o o' (st : machine M) : alike o o' -> rd (regs st) <$> inputs o = rd (regs st) <$> inputs o' -> step s o st = step s o' st.
Proof.
  intros Hl Ei. destruct (alike_count o o' Hl) as [Co Ci]. destruct (alike_outputs o o' Hl) as [Eo Ec]. pose proof (fun ins => op_sem_alike o o' ins Hl) as Es.
  destruct (pure_op (opc o)) eqn:Hp.
  - rewrite !step_pure by (done || by destruct Hl as [<- _]). by rewrite Ei, Es, Eo.
  - pose proof Hl as (Eopc & E1 & E2 & Ha). unfold step, call_keeps_globals, call_globals, call_barrier, call_flag, call_flags. rewrite <- Co, <- Ci, <- Eo, <- Ec, <- Ei, <- Eopc, E1, E2. cbv zeta.
    unfold op_oargs, op_iargs in *. destruct (opc o); try discriminate; try reflexivity;
      repeat match goal with |- context [args o ?k] => rewrite (Ha k) by (cbn; repeat case_match; cbn; lia) end; reflexivity.
Qed.

(** ** Registers after a step *)

Lemma wr_ok t v r : regs_ok s r -> regs_ok s (wr s t v r).
Proof.
  intros Hr u Hu. unfold wr. destruct (decide (u = t)) as [-> |].
  - rewrite lookup_insert_eq. eexists. split; [done|]. apply wrap_range. by destruct (ts_type (temps s t)).
  - rewrite lookup_insert_ne by congruence. by apply Hr.
Qed.

Lemma wr_rd t v r u : rd (wr s t v r) u = if decide (u = t) then wrap (type_bits (ty s t)) v else rd r u.
Proof. unfold rd, wr. case_decide as E; [subst; by rewrite lookup_insert_eq|by rewrite lookup_insert_ne by congruence]. Qed.

Lemma wr_list_ok ts vs r : regs_ok s r -> regs_ok s (wr_list s ts vs r).
Proof. revert vs r. induction ts as [|t ts IH]; intros [|v vs] r Hr; cbn; try done. by apply IH, wr_ok. Qed.

Lemma wr_list_rd ts vs r u : u ∉ ts -> rd (wr_list s ts vs r) u = rd r u.
Proof.
  revert vs r. induction ts as [|t ts IH]; intros [|v vs] r Hu; cbn; try done. rewrite IH by set_solver.
  rewrite wr_rd, decide_False by set_solver. done.
Qed.

Lemma set_globals_ok f r : regs_ok s r -> regs_ok s (set_globals s f r).
Proof. apply wr_list_ok. Qed.

Lemma set_globals_rd f r u : u ∉ seqZ 1 (nb_globals s) -> rd (set_globals s f r) u = rd r u.
Proof. apply wr_list_rd. Qed.

Definition res_state (res : op_result M) : machine M := match res with Next st | Jump _ st | Stop _ st => st end.

(** The temps a step may write. *)
Definition written (o : TCGOp) : list Z :=
  match opc o with
  | op_call => if call_keeps_globals o then outputs o else seqZ 1 (nb_globals s) ++ outputs o
  | _ => outputs o
  end.

Lemma step_regs o (st : machine M) res : regs_ok s (regs st) -> step s o st = Some res ->
  regs_ok s (regs (res_state res)) /\ forall u, u ∉ written o -> rd (regs (res_state res)) u = rd (regs st) u.
Proof.
  intros Hr H. destruct (pure_op (opc o)) eqn:Hp.
  - rewrite step_pure in H by done. destruct (op_sem o _) as [outs|]; [|done]. injection H as <-. cbn. split; [by apply wr_list_ok|].
    intros u Hu. apply wr_list_rd. intros Hin. apply Hu. unfold written. by destruct (opc o).
  - unfold written. unfold step in H. cbv zeta in H. destruct (opc o) eqn:Eo; try discriminate;
      repeat match type of H with
        | context [match ?e with Some _ => _ | None => _ end] => destruct e as [?|]; try discriminate
        | context [match ?e with pair _ _ => _ end] => destruct e as [? ?]
        | mbind _ ?e = _ => destruct e; cbn [mbind option_bind] in H; try discriminate
        | context [if ?e then _ else _] => destruct e; try discriminate
        | context [match ?w with W32 => _ | W64 => _ end] => destruct w end;
      injection H as <-; cbn [res_state regs with_regs]; (split; [first [done|by apply wr_ok|by apply wr_list_ok|by apply wr_list_ok, set_globals_ok]|]);
      intros u Hu; try done; try (by apply wr_list_rd);
      try (rewrite wr_rd, decide_False; [done|intros ->; apply Hu; unfold outputs, op_oargs; rewrite Eo; left]).
    rewrite wr_list_rd, set_globals_rd by set_solver. done.
Qed.

(** ** Replacements *)

(** The operations [out.2] do what [op] does when [inf] is true, and then
    [out.1] is true. *)
Definition replaces (inf : temp_infos) (op : TCGOp) (out : temp_infos * list TCGOp) : Prop :=
  forall (st : machine M) res, sound s inf (regs st) -> step s op st = Some res ->
    run_block s out.2 st = Some res /\ forall st', res = Next st' -> sound s out.1 (regs st').

Definition one_output (o : TCGOp) : Prop := pure_op (opc o) = true /\ op_oargs o = 1%nat.

Lemma op_sem_one o ins outs : one_output o -> op_sem o ins = Some outs -> exists z, outs = [z].
Proof.
  intros [Hp Ho] H. unfold op_oargs in Ho. unfold op_sem, shift_sem, divs_sem, divu_sem, split_sem in H. cbv zeta in H.
  destruct (opc o); try discriminate; destruct ins as [|? [|? [|? [|? [|]]]]]; try discriminate;
    repeat match type of H with
      | (if ?b then _ else _) = _ => destruct b; try discriminate H
      | mbind _ ?e = _ => destruct e; cbn [mbind option_bind] in H; try discriminate H end;
    injection H as <-; by eexists.
Qed.

(** The one output of a step. *)
Lemma step_one o (st : machine M) res : one_output o -> step s o st = Some res ->
  exists z, op_sem o (rd (regs st) <$> inputs o) = Some [z] /\ res = Next (with_regs (wr s (args o 0%nat) z (regs st)) st).
Proof.
  intros Ho H. rewrite step_pure in H by apply Ho. destruct (op_sem o _) as [outs|] eqn:E; [|done]. injection H as <-.
  destruct (op_sem_one o _ _ Ho E) as [z ->]. exists z. split; [done|]. unfold outputs. rewrite (proj2 Ho). done.
Qed.

Lemma run_one o (st : machine M) z : one_output o -> op_sem o (rd (regs st) <$> inputs o) = Some [z] ->
  run_block s [o] st = Some (Next (with_regs (wr s (args o 0%nat) z (regs st)) st)).
Proof. intros Ho E. cbn [run_block]. rewrite step_pure, E by apply Ho. unfold outputs. rewrite (proj2 Ho). done. Qed.

(** The output is known, valid and of the right type. *)
Definition dst_ok (inf : temp_infos) (op : TCGOp) : Prop :=
  let t := args op 0%nat in
  t ∈ dom inf /\ ty s t = out_type op /\ (opf_vector (tcg_op_defs (opc op)) = true -> vec_ok op = true).

Lemma out_type_for op : type_for (move_type (tcg_op_defs (opc op))) (out_type op) = true.
Proof. unfold out_type. destruct (move_type _) as [[]|]; try done. unfold vec_type. by repeat case_match. Qed.

Lemma move_vector d : move_type d = Vec -> opf_vector d = true.
Proof. unfold move_type. by destruct (opf_vector d), (opf_64bit d). Qed.

Lemma const_vec op v : vec_ok op = true -> const_value (vec_type op) v = repeat64 (vec_words op) v.
Proof.
  intros H. case_vec op H. unfold vec_type, vec_words. by destruct HL as [-> |[-> | ->]].
Qed.

Lemma wr_ext t v v' r : wrap (type_bits (ty s t)) v = wrap (type_bits (ty s t)) v' -> wr s t v r = wr s t v' r.
Proof. unfold wr, ty. by intros ->. Qed.

Lemma const_value_wrap y v : wrap (type_bits y) (const_value y v) = const_value y v.
Proof.
  destruct y; cbn [const_value type_bits]; try (apply wrap_wrap; lia); apply wrap_id; unfold uint;
    [pose proof (repeat64_range 1 v)|pose proof (repeat64_range 2 v)|pose proof (repeat64_range 4 v)]; cbn in *; lia.
Qed.

(** The operation becomes a constant. *)
Lemma movi_replaces inf op v :
  one_output op -> dst_ok inf op -> uint 64 v -> (out_type op = TYPE_I32 -> u32 v = 0 -> v = 0) ->
  (forall (st : machine M) z, sound s inf (regs st) -> op_sem op (rd (regs st) <$> inputs op) = Some [z] ->
     wrap (type_bits (out_type op)) z = const_value (out_type op) v) ->
  exists out, to_movi inf op v = Some out /\ replaces inf op out.
Proof.
  intros Ho (Hd & Ht & Hvec) Hv H0 Hz. unfold to_movi. destruct (tcg_opt_gen_movi inf op (args op 0%nat) v) as [inf' op'] eqn:Eg.
  eexists. split; [done|]. intros st res Hs Hstep. destruct (step_one op st res Ho Hstep) as (z & Ez & ->).
  specialize (Hz st z Hs Ez). rewrite <- Ht in Hz. set (dst := args op 0%nat) in *. set (r' := wr s dst z (regs st)).
  assert (inf' = (tcg_opt_gen_movi inf op dst v).1 /\ op' = (tcg_opt_gen_movi inf op dst v).2) as [-> ->] by (by rewrite Eg).
  split; cbn [fst snd].
  - rewrite (run_one _ st (const_value (ty s dst) v)).
    + unfold r'. do 3 f_equal. apply wr_ext. by rewrite const_value_wrap.
    + unfold tcg_opt_gen_movi. cbn [snd]. destruct (move_type _) as [w|]; done.
    + rewrite Ht. unfold tcg_opt_gen_movi, out_type. cbn [snd]. destruct (move_type _) as [[]|] eqn:Em; cbn; try done.
      rewrite const_vec; [done|]. apply Hvec. by apply move_vector.
  - intros st' [= <-]. cbn [regs with_regs]. apply (gen_movi_sound s inf (regs st)); try done.
    + by apply wr_ok, Hs.
    + intros u Hu. unfold r'. by rewrite wr_rd, decide_False.
    + rewrite Ht. apply out_type_for.
    + by rewrite Ht.
    + unfold r'. rewrite wr_rd, decide_True by done. done.
Qed.

Lemma lift1_id_vec op x : vec_ok op = true -> uint (type_bits (vec_type op)) x -> lift1 (lanes op Vec) id x = x.
Proof.
  intros Hv Hx. destruct (lanes_fill op Hv) as (He & Hfill & Hty). unfold lift1. apply vmap2_eq; [done|by rewrite Hfill, Hty|].
  intros k Hk. apply wrap_id, el_range. done.
Qed.

Lemma with_regs_id (st : machine M) : with_regs (regs st) st = st.
Proof. by destruct st. Qed.

Lemma wr_same r t z : regs_ok s r -> valid s t = true -> wrap (type_bits (ty s t)) z = rd r t -> wr s t z r = r.
Proof.
  intros Hr Hv E. destruct (Hr t Hv) as (v & Ev & _). unfold wr. change (ts_type (temps s t)) with (ty s t). rewrite E.
  apply insert_id. unfold rd. by rewrite Ev.
Qed.

Lemma dom_valid inf r t : sound s inf r -> t ∈ dom inf -> valid s t = true.
Proof. intros (_ & _ & H) [i Hi]%elem_of_dom. by destruct (H t i Hi). Qed.

(** The operation becomes a move, or nothing when the output is a copy already. *)
Lemma mov_replaces inf op src :
  one_output op -> dst_ok inf op -> src ∈ dom inf ->
  let t := move_type (tcg_op_defs (opc op)) in
  src_for t (ty s src) = true -> (t = Vec -> ty s src = out_type op) ->
  (forall (st : machine M) z, sound s inf (regs st) -> op_sem op (rd (regs st) <$> inputs op) = Some [z] ->
     wrap (type_bits (out_type op)) z = mov_value t (rd (regs st) src)) ->
  exists out, to_mov s inf op src = Some out /\ replaces inf op out.
Proof.
  intros Ho (Hd & Ht & Hvec) Hsrc t Hst Hsv Hz. unfold to_mov. eexists. split; [done|].
  intros st res Hs Hstep. destruct (step_one op st res Ho Hstep) as (z & Ez & ->). specialize (Hz st z Hs Ez).
  rewrite <- Ht in Hz. set (dst := args op 0%nat) in *. pose proof (dom_valid _ _ _ Hs Hd) as Vd. pose proof (dom_valid _ _ _ Hs Hsrc) as Vs.
  pose proof Hs as (Hr & _). pose proof (out_type_for op) as Hfor. rewrite <- Ht in Hfor. fold t in Hfor.
  destruct (ts_are_copies inf dst src) eqn:Ecop.
  - destruct (are_copies_sound s _ _ _ _ Hs Hd Ecop) as [Ety Eq]. unfold tcg_opt_gen_mov. rewrite Ecop. cbn [fst snd run_block].
    rewrite wr_same; try done.
    + rewrite with_regs_id. split; [done|]. intros st' [= <-]. done.
    + rewrite Hz, Eq. apply (mov_value_id t (ty s dst)); [done|]. rewrite Ety. by apply rd_range.
  - assert (src <> dst) as Hne by (intros ->; unfold ts_are_copies in Ecop; by rewrite Z.eqb_refl in Ecop).
    split.
    + unfold tcg_opt_gen_mov. rewrite Ecop. fold t. set (o' := with_arg 1 src (with_arg 0 dst (with_opc (op_mov t) op))).
      assert (forall a b : temp_infos, (if decide (ts_type (temps s src) = ts_type (temps s dst)) then (a, [o']) else (b, [o'])).2 = [o']) as E2 by (intros; by case_decide).
      cbv zeta. fold o'. rewrite E2, (run_one o' st (mov_value t (rd (regs st) src))).
      * do 3 f_equal. apply wr_ext. rewrite Hz. rewrite <- Hz at 1. rewrite wrap_wrap; [done|]. by destruct (ty s dst).
      * split; [done|]. subst o'. unfold op_oargs. cbn. by destruct t as [[]|].
      * assert (inputs o' = [src]) as -> by (unfold inputs, op_oargs, op_iargs, o'; cbn; by destruct t as [[]|]).
        unfold op_sem. cbn [opc o' with_arg with_opc fmap list_fmap]. do 2 f_equal. destruct t as [w|] eqn:Et; cbn [mov_value].
        -- rewrite lift1_int. unfold id. by rewrite wrap_wrap by (by destruct w).
        -- assert (vec_ok op = true) as Hvo by (apply Hvec; by apply move_vector). rewrite (lift1_id_vec o'); [done|exact Hvo|].
           change (vec_type o') with (vec_type op). pose proof (rd_range s _ _ Hr Vs) as R. rewrite (Hsv eq_refl) in R.
           unfold out_type in R. fold t in R. by rewrite Et in R.
    + intros st' [= <-]. cbn [regs with_regs]. apply (gen_mov_sound s inf (regs st)); try done.
      * by apply wr_ok.
      * intros u Hu. by rewrite wr_rd, decide_False.
      * intros E. fold t in E. by rewrite Ht, Hsv.
      * by rewrite wr_rd, decide_True by done.
Qed.

(** The operation becomes [c] of its argument [i]. *)
Lemma unary_replaces inf op c i :
  one_output op -> dst_ok inf op -> (exists t, c = op_not t \/ c = op_neg t) ->
  (forall (st : machine M) z, sound s inf (regs st) -> op_sem op (rd (regs st) <$> inputs op) = Some [z] ->
     op_sem (with_opc c op) [rd (regs st) (args op i)] = Some [z]) ->
  exists out, to_unary inf op c i = Some out /\ replaces inf op out.
Proof.
  intros Ho (Hd & Ht & Hvec) Hc Hz. unfold to_unary. eexists. split; [done|].
  intros st res Hs Hstep. destruct (step_one op st res Ho Hstep) as (z & Ez & ->). specialize (Hz st z Hs Ez). cbn [fst snd].
  set (o' := with_arg 1 (args op i) (with_opc c op)).
  assert (one_output o' /\ inputs o' = [args op i]) as [Ho' Ei].
  { unfold one_output, inputs, op_oargs, op_iargs, o'. cbn. by destruct Hc as ([[]|] & [-> | ->]). }
  split.
  - rewrite (run_one o' st z); [done|done|]. rewrite Ei. cbn [fmap list_fmap]. rewrite <- Hz. apply op_sem_alike.
    split; [done|]. split; [done|]. split; [done|]. intros j Hj. unfold o'. cbn. unfold set_arg. destruct (Nat.eqb_spec j 1) as [-> |]; [|done].
    exfalso. unfold op_oargs, op_iargs in Hj. cbn in Hj. destruct Hc as ([[]|] & [-> | ->]); cbn in Hj; lia.
  - intros st' [= <-]. cbn [regs with_regs]. apply (reset_sound s inf (regs st)); try done.
    + by apply wr_ok, Hs.
    + intros u Hu. by rewrite wr_rd, decide_False.
Qed.

(** ** [do_default] *)

(** Every mask that has all bits. *)
Definition full (k : Z) : Prop := uint 64 k /\ forall x, uint 64 x -> within k x.

Lemma full_ones : full all_ones.
Proof. split; [by vm_compute|]. intros x. apply within_all. Qed.

Lemma rd_int r t : regs_ok s r -> valid s t = true -> is_int (ty s t) = true -> uint 64 (rd r t).
Proof.
  intros Hr Hv Hi. pose proof (rd_range s r t Hr Hv) as R. pose proof (int_bits _ Hi). unfold uint in *.
  pose proof (Z.pow_le_mono_r 2 (type_bits (ty s t)) 64). lia.
Qed.

Lemma default_replaces inf op k :
  opc op <> op_call -> (forall t, t ∈ outputs op -> t ∈ dom inf) -> uint 64 k ->
  (forall (st st' : machine M), sound s inf (regs st) -> step s op st = Some (Next st') ->
     is_int (ty s (args op 0%nat)) = true -> op_oargs op <> 0%nat -> within k (rd (regs st') (args op 0%nat))) ->
  forall o', (forall (st : machine M), sound s inf (regs st) -> step s o' st = step s op st) -> replaces inf op (do_default inf op k, [o']).
Proof.
  intros Hc Hd Hk Hw o' Ho' st res Hs Hstep. cbn [fst snd run_block]. rewrite Ho', Hstep by done. split; [by destruct res|].
  intros st' ->. destruct (step_regs op st (Next st') ltac:(apply Hs) Hstep) as [Hr' Hrd]. cbn [res_state] in *.
  unfold do_default. destruct (opf_bb_end _); [by apply sound_empty|].
  assert (written op = outputs op) as Ew by (unfold written; by destruct (opc op)).
  destruct (decide (op_oargs op = 0%nat)) as [E0|E0].
  - unfold reset_outputs. rewrite E0. cbn [seq foldl]. apply (sound_rd s _ (regs st)); [done|done|].
    intros u _. apply Hrd. rewrite Ew. unfold outputs. rewrite E0. apply not_elem_of_nil.
  - apply (reset_outputs_sound s _ _ _ (regs st)); try done; [by rewrite <- Ew|]. intros Hi _. by apply (Hw st).
Qed.
End phases.
