(* ===== verification/TcgInputs.v ===== *)
(** * The inputs of an operation

    Before an operation is simplified its temps become known, its inputs are
    replaced by copies, and the inputs of commutative operations are put in
    order.  The step of the operation stays the same. *)

From S2P Require Import Prelude BitOps HostUtils TcgOps TcgSem TcgOptimize TcgValues TcgFields TcgMasks TcgCopies TcgPhases.

Section inputs.
Context {M : Type} `{!TcgEnv M} (s : TCGContext).

(** The temps of the operation are known and have the right types. *)
Definition ready (inf : temp_infos) (o : TCGOp) : Prop :=
  (forall t, t ∈ outputs o -> t ∈ dom inf /\ out_ok o (ty s t) = true) /\
  (forall t, t ∈ inputs o -> t ∈ dom inf /\ in_ok o (ty s t) = true) /\
  consts_ok o = true /\ (opf_vector (tcg_op_defs (opc o)) = true -> vec_ok o = true).

Lemma wf_op_spec o : wf_op s o = true ->
  (forall t, t ∈ outputs o -> valid s t = true /\ out_ok o (ty s t) = true) /\
  (forall t, t ∈ inputs o -> valid s t = true /\ in_ok o (ty s t) = true) /\
  consts_ok o = true /\ (opf_vector (tcg_op_defs (opc o)) = true -> vec_ok o = true).
Proof.
  unfold wf_op. rewrite !andb_true_iff, !forallb_forall. intros [[[Ho Hi] Hc] Hv].
  split; [|split; [|split; [done|by intros E; rewrite E in Hv]]].
  - intros t Ht. apply andb_true_iff, Ho, list_elem_of_In, Ht.
  - intros t Ht. apply andb_true_iff, Hi, list_elem_of_In, Ht.
Qed.

(** ** Temps become known *)

Lemma init_args_fold inf r (f : nat -> Z) (b : bool) l :
  sound s inf r -> (forall i, i ∈ l -> valid s (f i) = true) ->
  let inf' := foldl (fun inf i => if b && (f i =? 0) then inf else init_ts_info (f i) inf) inf l in
  sound s inf' r /\ dom inf ⊆ dom inf' /\ forall i, i ∈ l -> f i ∈ dom inf'.
Proof.
  revert inf. induction l as [|i l IH]; intros inf Hs Hv; cbn [foldl]; [split; [done|]; split; [done|]; by intros i ?%elem_of_nil|].
  pose proof (Hv i ltac:(left)) as Hvi. assert ((f i =? 0) = false) as -> by (unfold valid in Hvi; bool_to_prop; lia). rewrite andb_false_r.
  destruct (init_sound s inf r (f i) Hs Hvi) as (Hs1 & Hin & Hsub). destruct (IH _ Hs1) as (Hs2 & Hsub2 & Hl).
  { intros j Hj. apply Hv. by right. }
  split; [done|]. split; [by etransitivity|]. intros j [-> |Hj]%elem_of_cons; [by apply Hsub2|by apply Hl].
Qed.

Lemma init_args_ok inf r op : sound s inf r -> wf_op s op = true -> sound s (init_args inf op) r /\ ready (init_args inf op) op.
Proof.
  intros Hs Hwf. destruct (wf_op_spec op Hwf) as (Ho & Hi & Hc & Hv). unfold init_args.
  assert (forall i, i ∈ seq 0 (op_oargs op + op_iargs op) -> args op i ∈ outputs op ++ inputs op) as Hargs.
  { intros i Hin. apply elem_of_seq in Hin. apply elem_of_app. unfold outputs, inputs.
    destruct (decide (i < op_oargs op)%nat); [left|right]; apply list_elem_of_fmap_2, elem_of_seq; lia. }
  destruct (init_args_fold inf r (args op) (bool_decide (opc op = op_call)) (seq 0 (op_oargs op + op_iargs op)) Hs) as (Hs' & _ & Hd).
  { intros i Hin. apply Hargs, elem_of_app in Hin as [H|H]; [by apply Ho|by apply Hi]. }
  split; [done|]. split; [|split; [|done]].
  - intros t Ht. split; [|by apply Ho]. unfold outputs in Ht. apply list_elem_of_fmap in Ht as (i & -> & Hin%elem_of_seq). apply Hd, elem_of_seq. lia.
  - intros t Ht. split; [|by apply Hi]. unfold inputs in Ht. apply list_elem_of_fmap in Ht as (i & -> & Hin%elem_of_seq). apply Hd, elem_of_seq. lia.
Qed.

(** ** Copy propagation *)

Lemma copy_fold inf a n op :
  let op' := foldl (fun op i => let ts := args op i in if negb (ts =? 0) && ts_is_copy inf ts then with_arg i (find_better_copy s inf ts) op else op) op (seq a n) in
  opc op' = opc op /\ param1 op' = param1 op /\ param2 op' = param2 op /\
  forall j, args op' j = args op j \/ (a <= j < a + n)%nat /\ args op' j = find_better_copy s inf (args op j).
Proof.
  revert a op. induction n as [|n IH]; intros a op; cbn [seq foldl]; [split_and!; try done; by left|]. cbv zeta.
  set (op1 := if negb (args op a =? 0) && ts_is_copy inf (args op a) then _ else op).
  assert (opc op1 = opc op /\ param1 op1 = param1 op /\ param2 op1 = param2 op /\
    (forall j, j <> a -> args op1 j = args op j) /\ (args op1 a = args op a \/ args op1 a = find_better_copy s inf (args op a))) as (E1 & E2 & E3 & E4 & E5).
  { unfold op1. destruct (_ && _); split_and!; try done; cbn; unfold set_arg; [|by rewrite Nat.eqb_refl; right|by left].
    intros j Hj. by rewrite (proj2 (Nat.eqb_neq j a)). }
  destruct (IH (S a) op1) as (F1 & F2 & F3 & F4). cbv zeta in *. rewrite F1, F2, F3. split_and!; try done.
  intros j. destruct (decide (j = a)) as [-> |Hj].
  - destruct (F4 a) as [-> |[? _]]; [|lia]. destruct E5 as [-> | ->]; [by left|right; split; [lia|done]].
  - rewrite <- (E4 j Hj). destruct (F4 j) as [-> |[? ->]]; [by left|right; split; [lia|done]].
Qed.

Lemma out_ok_alike o o' y : opc o = opc o' -> param1 o = param1 o' -> param2 o = param2 o' -> out_ok o y = out_ok o' y /\ in_ok o y = in_ok o' y /\ vec_ok o = vec_ok o'.
Proof.
  intros E1 E2 E3. unfold out_ok, in_ok, out_type, vec_type, vec_ok, TCGOP_VECL, TCGOP_VECE. by rewrite E1, E2, E3.
Qed.

Lemma consts_ok_alike o o' : alike o o' -> consts_ok o = consts_ok o'.
Proof.
  intros (Ec & E1 & E2 & Ha). unfold consts_ok. rewrite <- Ec. cbv zeta. unfold op_oargs, op_iargs in Ha.
  destruct (opc o); try reflexivity; repeat match goal with w : width |- _ => destruct w end;
    repeat match goal with |- context [args o ?k] => rewrite (Ha k) by (cbn; lia) end; reflexivity.
Qed.

Lemma copy_alike inf op : let op' := copy_propagation s inf op in
  alike op op' /\ forall j, args op' j = args op j \/ (op_oargs op <= j < op_oargs op + op_iargs op)%nat /\ args op' j = find_better_copy s inf (args op j).
Proof.
  cbv zeta. pose proof (copy_fold inf (op_oargs op) (op_iargs op) op) as E. cbv zeta in E.
  match type of E with context [foldl ?f ?o ?l] => change (foldl f o l) with (copy_propagation s inf op) in E end.
  destruct E as (E1 & E2 & E3 & E4). split; [|done]. split_and!; try done. intros j Hj. destruct (E4 j) as [-> |[? _]]; [done|lia].
Qed.

Lemma copy_propagation_ok inf op (st : machine M) : sound s inf (regs st) -> ready inf op ->
  let op' := copy_propagation s inf op in ready inf op' /\ step s op' st = step s op st.
Proof.
  intros Hs (Ho & Hi & Hc & Hv). cbv zeta. destruct (copy_alike inf op) as [Ha E4]. set (op' := copy_propagation s inf op) in *.
  pose proof Ha as (E1 & E2 & E3 & _). symmetry in E1, E2, E3.
  destruct (alike_count op op' Ha) as [Co Ci]. destruct (alike_outputs op op' Ha) as [Eo Ek].
  pose proof (fun y => out_ok_alike op op' y (eq_sym E1) (eq_sym E2) (eq_sym E3)) as Hok.
  assert (forall j, (op_oargs op <= j < op_oargs op + op_iargs op)%nat ->
    args op' j ∈ dom inf /\ ty s (args op' j) = ty s (args op j) /\ rd (regs st) (args op' j) = rd (regs st) (args op j)) as Hin.
  { intros j Hj. assert (args op j ∈ dom inf) as Hd by (apply Hi; unfold inputs; apply list_elem_of_fmap_2, elem_of_seq; lia).
    destruct (E4 j) as [-> |[_ ->]]; [done|]. by apply better_copy_sound. }
  split.
  - split; [|split; [|split]].
    + intros t. rewrite <- Eo. intros Ht. destruct (Hok (ty s t)) as (<- & _ & _). by apply Ho.
    + intros t Ht. unfold inputs in Ht. rewrite <- Co, <- Ci in Ht. apply list_elem_of_fmap in Ht as (j & -> & Hj%elem_of_seq).
      destruct (Hin j Hj) as (Hd & -> & _). split; [done|]. destruct (Hok (ty s (args op j))) as (_ & <- & _). apply Hi. unfold inputs.
      by apply list_elem_of_fmap_2, elem_of_seq.
    + by rewrite <- (consts_ok_alike op op' Ha).
    + rewrite E1. destruct (Hok TYPE_I32) as (_ & _ & <-). done.
  - symmetry. apply step_alike; [done|]. unfold inputs. rewrite <- Co, <- Ci, <- !list_fmap_compose. apply list_fmap_ext.
    intros k j Hj. apply list_elem_of_lookup_2, elem_of_seq in Hj. cbn. by destruct (Hin j Hj) as (_ & _ & ->).
Qed.

(** ** The order of the inputs *)

Lemma vmap2_comm n e f x y : (forall x y, f x y = f y x) -> vmap2 n e f x y = vmap2 n e f y x.
Proof. intros Hf. revert x y. induction n as [|n IH]; intros x y; [done|]. cbn [vmap2]. by rewrite Hf, IH. Qed.

Definition swapped (p1 p2 : nat) (op : TCGOp) : TCGOp := with_arg p2 (args op p1) (with_arg p1 (args op p2) op).

Lemma swap_cases inf d p1 p2 op :
  swap_commutative inf d p1 p2 op = (swapped p1 p2 op, true) \/ swap_commutative inf d p1 p2 op = (op, false).
Proof. unfold swap_commutative. destruct (_ || _); auto. Qed.

Lemma swap2_cases inf p1 p2 op :
  (exists op', swap_commutative2 inf p1 p2 op = (op', true) /\ opc op' = opc op /\ param1 op' = param1 op /\ param2 op' = param2 op /\
     forall j, args op' j = if (j =? S p2)%nat then args op (S p1) else if (j =? S p1)%nat then args op (S p2)
                            else if (j =? p2)%nat then args op p1 else if (j =? p1)%nat then args op p2 else args op j) \/
  swap_commutative2 inf p1 p2 op = (op, false).
Proof. unfold swap_commutative2. destruct (_ <? _); [left; eexists; split; [done|]; done|by right]. Qed.

(** Membership in a list of arguments. *)
Ltac in_list := intros ?t ?Ht; rewrite !elem_of_cons in *; tauto.

(** The inputs and outputs of an operation of known opcode. *)
Ltac ins_outs Eo :=
  unfold inputs, outputs, op_oargs, op_iargs, swapped, swap_cond_if, invert_cond_if, with_arg, set_arg; cbn [opc args param1 param2]; rewrite ?Eo;
  cbn [tcg_op_defs def_w def_t def_vec nb_oargs nb_iargs seq fmap list_fmap Nat.eqb plus].

Lemma commutes_sem c o o' x y :
  match c with op_add _ | op_mul _ | op_and _ | op_or _ | op_xor _ | op_eqv _ | op_nand _ | op_nor _ | op_muluh _ | op_mulsh _
             | op_mulu2 _ | op_muls2 _ => true | _ => false end = true ->
  opc o = c -> opc o' = c -> param1 o = param1 o' -> param2 o = param2 o' -> op_sem o' [y; x] = op_sem o [x; y].
Proof.
  intros Hc E E' E1 E2. unfold op_sem, lift2, lanes, TCGOP_VECE, TCGOP_VECL. rewrite E, E', E1, E2. cbv zeta. unfold split_sem.
  destruct c; try discriminate;
    first [do 2 f_equal; apply vmap2_comm; intros; first [apply Z.add_comm|apply Z.mul_comm|apply Z.land_comm|apply Z.lor_comm|apply Z.lxor_comm]
          |by rewrite Z.lxor_comm|by rewrite Z.land_comm|by rewrite Z.lor_comm|by rewrite Z.mul_comm|rewrite Z.mul_comm; done].
Qed.

Lemma ready_permute inf o o' :
  ready inf o -> opc o' = opc o -> param1 o' = param1 o -> param2 o' = param2 o -> outputs o' = outputs o ->
  (forall t, t ∈ inputs o' -> t ∈ inputs o) -> consts_ok o' = true -> ready inf o'.
Proof.
  intros (Ho & Hi & Hc & Hv) E1 E2 E3 Eo Hin Hc'. pose proof (fun y => out_ok_alike o' o y E1 E2 E3) as Hok.
  split; [|split; [|split; [done|]]].
  - intros t. rewrite Eo. intros Ht. destruct (Hok (ty s t)) as (-> & _ & _). by apply Ho.
  - intros t Ht. destruct (Hok (ty s t)) as (_ & -> & _). by apply Hi, Hin.
  - rewrite E1. destruct (Hok TYPE_I32) as (_ & _ & ->). done.
Qed.

(** The operation [o'] may stand for [o]. *)
Definition stands_for (inf : temp_infos) (o o' : TCGOp) : Prop :=
  (ready inf o -> ready inf o') /\ (consts_ok o = true -> consts_ok o' = true) /\ forall st : machine M, consts_ok o = true -> step s o' st = step s o st.

Lemma stands_for_refl inf o : stands_for inf o o.
Proof. by split. Qed.

Lemma stands_for_intro inf o o' :
  opc o' = opc o -> param1 o' = param1 o -> param2 o' = param2 o -> outputs o' = outputs o ->
  (forall t, t ∈ inputs o' -> t ∈ inputs o) -> (consts_ok o = true -> consts_ok o' = true) ->
  (forall st : machine M, consts_ok o = true -> step s o' st = step s o st) -> stands_for inf o o'.
Proof. intros E1 E2 E3 Eo Hi Hc Hs. split; [|by split]. intros Hr. apply (ready_permute inf o); try done. apply Hc, Hr. Qed.

(** A pure operation: the outputs computed are the same. *)
Lemma stands_for_pure inf o o' :
  pure_op (opc o) = true -> opc o' = opc o -> param1 o' = param1 o -> param2 o' = param2 o -> outputs o' = outputs o ->
  (forall t, t ∈ inputs o' -> t ∈ inputs o) -> (consts_ok o = true -> consts_ok o' = true) ->
  (consts_ok o = true -> forall r : gmap Z Z, op_sem o' (rd r <$> inputs o') = op_sem o (rd r <$> inputs o)) -> stands_for inf o o'.
Proof.
  intros Hp E1 E2 E3 Eo Hi Hc Hs. apply stands_for_intro; try done. intros st Hk. rewrite !step_pure by (by rewrite ?E1). by rewrite Eo, Hs.
Qed.

Lemma swap_commutes inf o : 
  match opc o with op_add _ | op_mul _ | op_and _ | op_or _ | op_xor _ | op_eqv _ | op_nand _ | op_nor _ | op_muluh _ | op_mulsh _
                 => true | _ => false end = true -> stands_for inf o (swapped 1 2 o).
Proof.
  intros Hc. apply stands_for_pure; try done; [by destruct (opc o)|..]; destruct (opc o) eqn:Eo; try discriminate;
    repeat match goal with t : op_type |- _ => destruct t as [[]|] | w : width |- _ => destruct w end; ins_outs Eo; try reflexivity; try in_list.
  all: try (unfold consts_ok; cbn [opc args]; by rewrite Eo).
  all: intros _ r; eapply (commutes_sem _ o); [|exact Eo|reflexivity|done|done]; done.
Qed.

Lemma swap_mul2 inf o w : opc o = op_mulu2 w \/ opc o = op_muls2 w -> stands_for inf o (swapped 2 3 o).
Proof.
  intros Hc. apply stands_for_pure; try done; [by destruct Hc as [-> | ->]|..]; destruct Hc as [Eo|Eo]; destruct w; ins_outs Eo; try reflexivity; try in_list.
  all: try (unfold consts_ok; cbn [opc args]; by rewrite Eo).
  all: intros _ r; eapply (commutes_sem _ o); [|exact Eo|reflexivity|done|done]; done.
Qed.

Lemma swap_add2 inf o w p : opc o = op_add2 w -> p = 2%nat \/ p = 3%nat -> stands_for inf o (swapped p (p + 2) o).
Proof.
  intros Eo Hp. apply stands_for_pure; try done; [by rewrite Eo|..]; destruct Hp as [-> | ->]; destruct w; ins_outs Eo; try reflexivity; try in_list.
  all: try (unfold consts_ok; cbn [opc args]; by rewrite Eo).
  all: intros _ r; unfold op_sem, split_sem; cbn [opc]; rewrite Eo; cbv zeta; cbn [bits];
    match goal with |- Some [wrap _ ?a; _] = Some [wrap _ ?b; _] => replace a with b by lia end; done.
Qed.

(** Conditions are swapped with the inputs. *)
Lemma swap_brcond inf o w : opc o = op_brcond w -> stands_for inf o (swap_cond_if true 2 (swapped 0 1 o)).
Proof.
  intros Eo. apply stands_for_intro; try done; destruct w; ins_outs Eo; try reflexivity; try in_list.
  1, 2: unfold consts_ok; cbn [opc args Nat.eqb]; rewrite Eo; apply cond_swap_valid.
  all: intros st; unfold consts_ok, step; cbv zeta; ins_outs Eo; intros Hc; cbn [lookup list_lookup default]; by rewrite cond_swap_ok.
Qed.

Lemma swap_setcond inf o w : opc o = op_setcond w -> stands_for inf o (swap_cond_if true 3 (swapped 1 2 o)).
Proof.
  intros Eo. apply stands_for_pure; try done; [by rewrite Eo|..]; destruct w; ins_outs Eo; try reflexivity; try in_list.
  all: unfold consts_ok; cbn [opc args Nat.eqb]; rewrite Eo; intros Hc.
  1, 2: by apply cond_swap_valid.
  all: intros r; unfold op_sem; cbn [opc]; rewrite Eo; cbv zeta; cbn [args Nat.eqb]; by rewrite cond_swap_ok.
Qed.

Lemma swap_movcond_inputs inf o w : opc o = op_movcond w -> stands_for inf o (swap_cond_if true 5 (swapped 1 2 o)).
Proof.
  intros Eo. apply stands_for_pure; try done; [by rewrite Eo|..]; destruct w; ins_outs Eo; try reflexivity; try in_list.
  all: unfold consts_ok; cbn [opc args Nat.eqb]; rewrite Eo; intros Hc.
  1, 2: by apply cond_swap_valid.
  all: intros r; unfold op_sem; cbn [opc]; rewrite Eo; cbv zeta; cbn [args Nat.eqb]; by rewrite cond_swap_ok.
Qed.

Lemma swap_movcond_values inf o w : opc o = op_movcond w -> stands_for inf o (invert_cond_if true 5 (swapped 4 3 o)).
Proof.
  intros Eo. apply stands_for_pure; try done; [by rewrite Eo|..]; destruct w; ins_outs Eo; try reflexivity; try in_list.
  all: unfold consts_ok; cbn [opc args Nat.eqb]; rewrite Eo; intros Hc.
  1, 2: by apply cond_invert_valid.
  all: intros r; unfold op_sem; cbn [opc]; rewrite Eo; cbv zeta; cbn [args Nat.eqb]; rewrite cond_invert_ok by done;
    match goal with |- context [eval_cond ?n ?c ?x ?y] => destruct (eval_cond n c x y) as [[]|] end; done.
Qed.

Lemma swap_pairs_brcond2 inf o o' b : opc o = op_brcond2_i32 -> swap_commutative2 inf 0 2 o = (o', b) -> stands_for inf o (swap_cond_if b 4 o').
Proof.
  intros Eo Es. destruct (swap2_cases inf 0 2 o) as [(o1 & E1 & F1 & F2 & F3 & Ha)|E1]; rewrite E1 in Es; injection Es as <- <-; [|apply stands_for_refl].
  rewrite Eo in F1. apply stands_for_intro; try done; [by rewrite Eo|..]; ins_outs Eo; rewrite ?F1; cbn [tcg_op_defs nb_oargs nb_iargs seq fmap list_fmap];
    rewrite ?Ha; cbn [Nat.eqb]; try done; try in_list.
  - unfold consts_ok; cbn [opc args Nat.eqb]; rewrite Eo. apply cond_swap_valid.
  - intros st. unfold consts_ok, step. cbv zeta. ins_outs Eo.
    rewrite !Ha. cbn [Nat.eqb lookup list_lookup default]. intros Hc. by rewrite cond_swap_ok.
Qed.

Lemma swap_pairs_setcond2 inf o o' b : opc o = op_setcond2_i32 -> swap_commutative2 inf 1 3 o = (o', b) -> stands_for inf o (swap_cond_if b 5 o').
Proof.
  intros Eo Es. destruct (swap2_cases inf 1 3 o) as [(o1 & E1 & F1 & F2 & F3 & Ha)|E1]; rewrite E1 in Es; injection Es as <- <-; [|apply stands_for_refl].
  rewrite Eo in F1. apply stands_for_pure; try done; [by rewrite Eo|by rewrite Eo|..]; ins_outs Eo; rewrite ?F1;
    cbn [tcg_op_defs def_w nb_oargs nb_iargs seq fmap list_fmap]; rewrite ?Ha; cbn [Nat.eqb]; try done; try in_list.
  - unfold consts_ok; cbn [opc args Nat.eqb]; rewrite Eo. apply cond_swap_valid.
  - unfold consts_ok. rewrite Eo. intros Hc r. unfold op_sem. cbn [opc]. rewrite Eo. cbv zeta. cbn [args Nat.eqb]. by rewrite cond_swap_ok.
Qed.

Lemma stands_for_trans inf o1 o2 o3 : stands_for inf o1 o2 -> stands_for inf o2 o3 -> stands_for inf o1 o3.
Proof. intros (R1 & C1 & S1) (R2 & C2 & S2). split; [auto|]. split; [auto|]. intros st H. rewrite S2, S1 by auto. done. Qed.

Lemma canonicalize_ok inf op : stands_for inf op (canonicalize inf op).
Proof.
  unfold canonicalize. destruct (opc op) eqn:Eo; try apply stands_for_refl;
    try (destruct (swap_cases inf (args op 0%nat) 1 2 op) as [-> | ->]; [apply swap_commutes; by rewrite Eo|apply stands_for_refl]).
  - destruct (swap_cases inf (args op 0%nat) 1 2 op) as [-> | ->]; [by apply (swap_setcond _ _ w)|apply stands_for_refl].
  - destruct (swap_cases inf all_ones 1 2 op) as [-> | ->].
    + set (op1 := swap_cond_if true 5 (swapped 1 2 op)). assert (stands_for inf op op1) as H1 by by apply (swap_movcond_inputs _ _ w).
      destruct (swap_cases inf (args op 0%nat) 4 3 op1) as [-> | ->]; [|done]. apply (stands_for_trans _ _ op1); [done|].
      by apply (swap_movcond_values _ _ w).
    + destruct (swap_cases inf (args op 0%nat) 4 3 (swap_cond_if false 5 op)) as [-> | ->]; [by apply (swap_movcond_values _ _ w)|apply stands_for_refl].
  - destruct (swap_cases inf all_ones 0 1 op) as [-> | ->]; [by apply (swap_brcond _ _ w)|apply stands_for_refl].
  - destruct (swap_commutative2 inf 0 2 op) as [op' b] eqn:E. by apply (swap_pairs_brcond2 inf op).
  - destruct (swap_commutative2 inf 1 3 op) as [op' b] eqn:E. by apply (swap_pairs_setcond2 inf op).
  - destruct (swap_cases inf (args op 0%nat) 2 4 op) as [-> | ->]; cbn [fst].
    + assert (stands_for inf op (swapped 2 4 op)) as H1 by (apply (swap_add2 _ _ w 2); auto).
      destruct (swap_cases inf (args op 1%nat) 3 5 (swapped 2 4 op)) as [-> | ->]; [|done]. apply (stands_for_trans _ _ (swapped 2 4 op)); [done|].
      apply (swap_add2 _ _ w 3); auto.
    + destruct (swap_cases inf (args op 1%nat) 3 5 op) as [-> | ->]; [apply (swap_add2 _ _ w 3); auto|apply stands_for_refl].
  - destruct (swap_cases inf (args op 0%nat) 2 3 op) as [-> | ->]; [apply (swap_mul2 _ _ w); auto|apply stands_for_refl].
  - destruct (swap_cases inf (args op 0%nat) 2 3 op) as [-> | ->]; [apply (swap_mul2 _ _ w); auto|apply stands_for_refl].
Qed.
End inputs.
