(* ===== verification/TcgSimplify.v ===== *)
(** * Algebraic simplifications

    The simplifications before constant folding: operations with an input that
    is 0 or all ones, with equal inputs, or whose result has no bit that may be
    set or changes no bit of the first input.  Each replaces the operation. *)

From S2P Require Import Prelude BitOps HostUtils TcgOps TcgSem TcgOptimize TcgValues TcgFields TcgMasks TcgCopies TcgPhases TcgInputs.

Section simplify.
Context {M : Type} `{!TcgEnv M} (s : TCGContext).

(** ** What is known of the inputs *)

(** Inputs of an operation on values of type [t]. *)
Definition input_for (o : TCGOp) (t : op_type) (y : TCGType) : Prop :=
  match t with Int W32 => is_int y = true | Int W64 => y = TYPE_I64 | Vec => y = vec_type o end.

Lemma sound_known inf r t w : sound s inf r -> t ∈ dom inf -> is_int (ty s t) = true -> (w = W64 -> ty s t = TYPE_I64) ->
  known inf t (bits w) (rd r t).
Proof.
  intros Hs Hd Hi Hw. pose proof (rd_int s r t ltac:(apply Hs) (dom_valid s _ _ _ Hs Hd) Hi) as Hx. apply elem_of_dom in Hd as [i Hti].
  destruct (sound_facts s _ _ _ _ Hs Hti) as (Hv & Hm & Hwi & Hc). unfold known, arg_mask, arg_val, arg_is_const. rewrite (ts_info_some _ _ _ Hti).
  split; [apply Hx|]. split; [auto|]. split; [done|]. split; [done|]. intros Hb. destruct (Hc Hb) as (Ev & Em & _). specialize (Em Hi).
  rewrite const_value_int in Ev by done.
  assert (0 <= bits w <= type_bits (ty s t)) as Hle by (destruct w; [by destruct (ty s t)|by rewrite Hw]).
  rewrite <- (wrap_le (bits w) (type_bits (ty s t)) (val i)), <- Ev, <- (wrap_le (bits w) (type_bits (ty s t)) (mask i)), Em by done. done.
Qed.

(** The elements of an input that is 0 or all ones. *)
Lemma lanes_const inf r o t x v : sound s inf r -> x ∈ dom inf -> (t = Vec -> vec_ok o = true) -> input_for o t (ty s x) ->
  const_is inf x v = true -> v = 0 \/ v = all_ones ->
  forall k, (k < (lanes o t).1)%nat -> el (lanes o t).2 k (rd r x) = wrap (lanes o t).2 (sint 64 v).
Proof.
  intros Hs Hd Hvec Hin Hc Hv k Hk. unfold const_is in Hc. bool_to_prop.
  destruct t as [w|].
  - assert (is_int (ty s x) = true /\ (w = W64 -> ty s x = TYPE_I64)) as [Hi Hw] by (destruct w; cbn in Hin; [done|by rewrite Hin]).
    destruct (sound_known inf r x w Hs Hd Hi Hw) as (_ & _ & _ & _ & Hk'). destruct (Hk' ltac:(done)) as [E _]. cbn [lanes fst snd] in *.
    assert (k = 0%nat) as -> by lia. rewrite el_0, <- E, H0. destruct w, Hv as [-> | ->]; reflexivity.
  - specialize (Hvec eq_refl). destruct (lanes_fill o Hvec) as (He & Hfill & Hty). cbn in Hin.
    apply elem_of_dom in Hd as [i Hi]. destruct (sound_facts s _ _ _ _ Hs Hi) as (_ & _ & _ & Hcv).
    unfold arg_is_const, arg_val in *. rewrite (ts_info_some _ _ _ Hi) in *. destruct (Hcv ltac:(done)) as (-> & _ & _).
    rewrite Hin, const_vec, H0 by done. destruct Hv as [-> | ->].
    + rewrite repeat64_zero, el_zero by done. symmetry. change (sint 64 0) with 0. unfold wrap. apply Z.mod_0_l, Z.pow_nonzero; lia.
    + rewrite repeat64_ones, <- Hfill, el_ones by done. change (sint 64 all_ones) with (-1). unfold wrap.
      pose proof (Z.pow_pos_nonneg 2 (lanes o Vec).2). apply (Z.mod_unique _ _ (-1)); lia.
Qed.

(** Elements of a moved value. *)
Lemma lanes_pos o t : (t = Vec -> vec_ok o = true) -> 0 < (lanes o t).2 <= 64 /\ (0 < (lanes o t).1)%nat.
Proof.
  intros Hv. destruct t as [[]|]; [cbn; lia|cbn; lia|]. specialize (Hv eq_refl). case_vec o Hv. unfold lanes. cbn [fst snd].
  destruct HL as [-> |[-> | ->]], HE as [-> |[-> |[-> | ->]]]; vm_compute; (split; [split|]); first [done|lia].
Qed.

Lemma mov_value_eq o t x z : (t = Vec -> vec_ok o = true /\ uint (type_bits (vec_type o)) x) ->
  (forall k, (k < (lanes o t).1)%nat -> el (lanes o t).2 k z = el (lanes o t).2 k x) ->
  0 <= z < 2 ^ ((lanes o t).2 * Z.of_nat (lanes o t).1) -> z = mov_value t x.
Proof.
  intros Hv Hk Hz. destruct (lanes_pos o t ltac:(intros E; by apply Hv)) as [He Hn]. apply (el_eq (lanes o t).2 ltac:(lia) (lanes o t).1); [done|..].
  - destruct t as [w|]; cbn [mov_value lanes fst snd].
    + rewrite Z.mul_1_r. apply wrap_range. by destruct w.
    + destruct (Hv eq_refl) as [Hv' Hx]. destruct (lanes_fill o Hv') as (_ & Hf & Ht). cbn [lanes fst snd] in *. by rewrite Hf, Ht.
  - intros k Hlt. rewrite Hk by done. destruct t as [w|]; [|done]. cbn [mov_value lanes fst snd] in *. assert (k = 0%nat) as -> by lia.
    rewrite !el_0. symmetry. apply wrap_wrap. by destruct w.
Qed.

(** ** Operations with two inputs *)

(** What an operation does with each element. *)
Definition lane_fn (c : TCGOpcode) : option (Z -> Z -> Z) :=
  match c with
  | op_add _ => Some Z.add
  | op_sub _ => Some Z.sub
  | op_mul _ => Some Z.mul
  | op_and _ => Some Z.land
  | op_or _ => Some Z.lor
  | op_xor _ => Some Z.lxor
  | op_andc _ => Some Z.ldiff
  | op_orc _ => Some (fun x y => Z.lor x (Z.lnot y))
  | op_eqv _ => Some (fun x y => Z.lnot (Z.lxor x y))
  | op_nand _ => Some (fun x y => Z.lnot (Z.land x y))
  | op_nor _ => Some (fun x y => Z.lnot (Z.lor x y))
  | _ => None
  end.

Definition binary (c : TCGOpcode) : bool :=
  match c with
  | op_shl _ | op_shr _ | op_sar _ | op_rotl _ | op_rotr _ | op_muluh _ | op_mulsh _ => true
  | _ => bool_decide (is_Some (lane_fn c))
  end.

Local Notation mt o := (move_type (tcg_op_defs (opc o))).

Lemma lane_sem o f x y z : lane_fn (opc o) = Some f -> op_sem o [x; y] = Some [z] -> z = lift2 (lanes o (mt o)) f x y.
Proof.
  intros Hf Hz. unfold op_sem in Hz. cbv zeta in Hz. destruct (opc o) eqn:Eo; try discriminate; injection Hf as <-; injection Hz as <-;
    repeat match goal with t : op_type |- _ => destruct t as [[]|] | w : width |- _ => destruct w end; try reflexivity; symmetry; apply lift2_int.
Qed.

Lemma binary_ready inf o : binary (opc o) = true -> ready s inf o ->
  one_output o /\ dst_ok s inf o /\ inputs o = [args o 1%nat; args o 2%nat] /\ (mt o = Vec -> vec_ok o = true) /\
  (args o 1%nat ∈ dom inf /\ input_for o (mt o) (ty s (args o 1%nat))) /\ (args o 2%nat ∈ dom inf /\ input_for o (mt o) (ty s (args o 2%nat))).
Proof.
  intros Hb (Ho & Hi & Hc & Hv).
  assert (one_output o /\ inputs o = [args o 1%nat; args o 2%nat] /\ outputs o = [args o 0%nat] /\
    (forall y, out_ok o y = bool_decide (y = out_type o)) /\ (forall y, in_ok o y = true -> input_for o (mt o) y)) as (H1 & Ei & Eo & Hok & Hin).
  { unfold one_output, inputs, outputs, op_oargs, op_iargs, out_ok, in_ok, input_for.
    destruct (opc o); try discriminate; repeat match goal with t : op_type |- _ => destruct t as [[]|] | w : width |- _ => destruct w end;
      split_and!; try done; intros y Hy; try done; by apply bool_decide_eq_true in Hy. }
  rewrite Ei in Hi. rewrite Eo in Ho. destruct (Ho (args o 0%nat) ltac:(left)) as [Hd Hty]. rewrite Hok in Hty. apply bool_decide_eq_true in Hty.
  destruct (Hi (args o 1%nat) ltac:(left)) as [Hd1 H2]. destruct (Hi (args o 2%nat) ltac:(right; left)) as [Hd2 H3].
  split_and!; try done; auto. intros E. by apply Hv, move_vector.
Qed.

Lemma input_src o y : input_for o (mt o) y -> src_for (mt o) y = true /\ (mt o = Vec -> y = out_type o).
Proof.
  unfold input_for, out_type. pose proof (out_type_for o) as H. unfold out_type in H.
  destruct (mt o) as [[]|]; [done| |]; intros ->; split; try done.
Qed.

Lemma lanes_width o : (mt o = Vec -> vec_ok o = true) -> (lanes o (mt o)).2 * Z.of_nat (lanes o (mt o)).1 = type_bits (out_type o).
Proof.
  intros Hv. unfold out_type. destruct (mt o) as [[]|] eqn:E; try done. destruct (lanes_fill o (Hv eq_refl)) as (_ & -> & ->). done.
Qed.

Lemma lift2_fits o f x y : (mt o = Vec -> vec_ok o = true) -> uint (type_bits (out_type o)) (lift2 (lanes o (mt o)) f x y).
Proof. intros Hv. destruct (lanes_pos o (mt o) Hv) as [He _]. unfold uint. rewrite <- lanes_width by done. apply vmap2_range. lia. Qed.

Lemma const_value_zero y : const_value y 0 = 0.
Proof. by destruct y. Qed.

(** The result is 0 in every element. *)
Lemma zero_replaces inf o :
  binary (opc o) = true -> ready s inf o ->
  (forall (st : machine M) z, sound s inf (regs st) -> op_sem o [rd (regs st) (args o 1%nat); rd (regs st) (args o 2%nat)] = Some [z] -> z = 0) ->
  forall out, to_movi inf o 0 = Some out -> replaces s inf o out.
Proof.
  intros Hb Hr Hz out Hout. destruct (binary_ready inf o Hb Hr) as (H1 & Hd & Ei & _).
  destruct (movi_replaces s inf o 0 H1 Hd) as (out' & E & Hrep); [by vm_compute|done|..].
  - intros st z Hs Hsem. rewrite Ei in Hsem. rewrite (Hz st z Hs Hsem), const_value_zero. apply wrap_id. split; [lia|]. by destruct (out_type o).
  - rewrite E in Hout. by injection Hout as <-.
Qed.

(** The result is the first input. *)
Lemma first_replaces inf o :
  binary (opc o) = true -> ready s inf o ->
  (forall (st : machine M) z, sound s inf (regs st) -> op_sem o [rd (regs st) (args o 1%nat); rd (regs st) (args o 2%nat)] = Some [z] ->
     z = mov_value (mt o) (rd (regs st) (args o 1%nat))) ->
  forall out, to_mov s inf o (args o 1%nat) = Some out -> replaces s inf o out.
Proof.
  intros Hb Hr Hz out Hout. destruct (binary_ready inf o Hb Hr) as (H1 & Hd & Ei & Hv & [Hd1 Hi1] & _). destruct (input_src o _ Hi1) as [Hs1 Hs2].
  destruct (mov_replaces s inf o (args o 1%nat) H1 Hd Hd1 Hs1 Hs2) as (out' & E & Hrep).
  - intros st z Hs Hsem. rewrite Ei in Hsem. rewrite (Hz st z Hs Hsem). apply wrap_id.
    pose proof (rd_range s _ _ ltac:(apply Hs) (dom_valid s _ _ _ Hs Hd1)) as R. unfold input_for, out_type in *. destruct (mt o) as [[]|]; cbn [mov_value].
    + apply wrap_range. cbn. lia.
    + apply wrap_range. cbn. lia.
    + by rewrite Hi1 in R.
  - rewrite E in Hout. by injection Hout as <-.
Qed.

(** ** Element by element *)

Section lanes.
Context (o : TCGOp) (f : Z -> Z -> Z) (Hf : lane_fn (opc o) = Some f) (Hv : mt o = Vec -> vec_ok o = true).
Local Notation e := (lanes o (mt o)).2.
Local Notation n := (lanes o (mt o)).1.

Lemma lanes_zero x y z : op_sem o [x; y] = Some [z] ->
  (forall k, (k < n)%nat -> wrap e (f (el e k x) (el e k y)) = 0) -> z = 0.
Proof.
  intros Hz Hk. destruct (lanes_pos o (mt o) Hv) as [He _]. rewrite (lane_sem o f x y z Hf Hz). apply vmap2_eq; [lia| |].
  - split; [lia|]. apply Z.pow_pos_nonneg; lia.
  - intros k Hlt. rewrite el_zero by lia. by apply Hk.
Qed.

Lemma lanes_first x y z : op_sem o [x; y] = Some [z] -> (mt o = Vec -> uint (type_bits (vec_type o)) x) ->
  (forall k, (k < n)%nat -> wrap e (f (el e k x) (el e k y)) = el e k x) -> z = mov_value (mt o) x.
Proof.
  intros Hz Hx Hk. destruct (lanes_pos o (mt o) Hv) as [He _]. rewrite (lane_sem o f x y z Hf Hz). apply (mov_value_eq o); [auto| |apply vmap2_range; lia].
  intros k Hlt. unfold lift2. rewrite vmap2_el by (done || lia). by apply Hk.
Qed.

Lemma lanes_unary c g x y z i : op_sem o [x; y] = Some [z] -> (c = op_not (mt o) /\ g = Z.lnot \/ c = op_neg (mt o) /\ g = Z.opp) ->
  (forall k, (k < n)%nat -> wrap e (f (el e k x) (el e k y)) = wrap e (g (el e k (if i : bool then x else y)))) ->
  op_sem (with_opc c o) [if i then x else y] = Some [z].
Proof.
  intros Hz Hc Hk. destruct (lanes_pos o (mt o) Hv) as [He _]. rewrite (lane_sem o f x y z Hf Hz). unfold lift2.
  assert (lift1 (lanes o (mt o)) g (if i then x else y) = vmap2 n e f x y) as E.
  { unfold lift1. symmetry. apply vmap2_eq; [lia|apply vmap2_range; lia|]. intros k Hlt. rewrite vmap2_el by (done || lia). by apply Hk. }
  unfold op_sem. cbn [opc with_opc]. destruct Hc as [[-> ->]|[-> ->]]; by rewrite <- E.
Qed.
End lanes.

(** Operations on words and their values modulo the width. *)
Ltac lane_bits := apply Z.bits_inj'; intros ?j ?Hj; bspec; rewrite ?low_ones_spec by lia;
  repeat match goal with |- context [?a <? ?b] => destruct (Z.ltb_spec a b) end;
  repeat match goal with |- context [Z.testbit ?x ?i] => destruct (Z.testbit x i) eqn:? end; try reflexivity; try lia.

(** Elements that are 0 or all ones. *)
Lemma input_const inf r o x v : sound s inf r -> x ∈ dom inf -> (mt o = Vec -> vec_ok o = true) -> input_for o (mt o) (ty s x) ->
  const_is inf x v = true -> v = 0 \/ v = all_ones -> forall k, (k < (lanes o (mt o)).1)%nat ->
  el (lanes o (mt o)).2 k (rd r x) = if v =? 0 then 0 else 2 ^ (lanes o (mt o)).2 - 1.
Proof.
  intros Hs Hd Hv Hi Hc Hz k Hk. rewrite (lanes_const inf r o (mt o) x v) by done. destruct (lanes_pos o (mt o) Hv) as [He _].
  pose proof (Z.pow_pos_nonneg 2 (lanes o (mt o)).2). destruct Hz as [-> | ->]; cbn [Z.eqb].
  - apply Z.mod_0_l. lia.
  - change (sint 64 all_ones) with (-1). change (all_ones =? 0) with false. cbv iota. symmetry. apply (Z.mod_unique _ _ (-1)); lia.
Qed.

(** A shift by 0, or of 0. *)
Definition shifts (c : TCGOpcode) : bool :=
  match c with op_shl _ | op_shr _ | op_sar _ | op_rotl _ | op_rotr _ => true | _ => false end.

Lemma shift_zero o w x y z : shifts (opc o) = true -> mt o = Int w -> op_sem o [x; y] = Some [z] ->
  (wrap (bits w) x = 0 -> z = 0) /\ (wrap (bits w) y = 0 -> z = wrap (bits w) x).
Proof.
  intros Hc Hw Hz. unfold op_sem, shift_sem in Hz. cbv zeta in Hz. destruct (opc o) eqn:Eo; try discriminate; destruct w0; destruct w; try discriminate;
    cbn [bits] in *; destruct (_ <? _) eqn:Hlt; try discriminate; injection Hz as <-; (split; intros E; rewrite E);
    rewrite ?Z.shiftl_0_l, ?Z.shiftr_0_l, ?Z.shiftl_0_r, ?Z.shiftr_0_r; try reflexivity; rewrite ?sint_wrap, ?wrap_sint, ?wrap_wrap by lia; try reflexivity.
  all: rewrite Z.sub_0_r, ?shift_out, ?Z.lor_0_r, ?wrap_wrap by (try apply wrap_range; lia); try reflexivity.
  all: rewrite wrap_lor, shl_out, Z.lor_0_r by lia; apply wrap_wrap; lia.
Qed.

(** ** The phases *)

(** A temp whose constant is 0 reads as 0. *)
Lemma word_zero inf r o w x : sound s inf r -> x ∈ dom inf -> mt o = Int w -> input_for o (mt o) (ty s x) -> const_is inf x 0 = true ->
  wrap (bits w) (rd r x) = 0.
Proof.
  intros Hs Hd Ht Hi Hc. pose proof (input_const inf r o x 0 Hs Hd) as H. rewrite Ht in *.
  specialize (H ltac:(done) Hi Hc ltac:(by left) 0%nat ltac:(cbn; lia)). by rewrite el_0 in H.
Qed.

(** Replacement by a [not] or a [neg]. *)
Lemma unary_ok inf o f c g (i : bool) :
  lane_fn (opc o) = Some f -> ready s inf o -> (c = op_not (mt o) /\ g = Z.lnot \/ c = op_neg (mt o) /\ g = Z.opp) ->
  (forall (st : machine M) k, sound s inf (regs st) -> (k < (lanes o (mt o)).1)%nat ->
     let x := el (lanes o (mt o)).2 k (rd (regs st) (args o 1%nat)) in let y := el (lanes o (mt o)).2 k (rd (regs st) (args o 2%nat)) in
     wrap (lanes o (mt o)).2 (f x y) = wrap (lanes o (mt o)).2 (g (if i then x else y))) ->
  forall out, to_unary inf o c (if i then 1 else 2)%nat = Some out -> replaces s inf o out.
Proof.
  intros Hf Hr Hc Hk out Hout. assert (binary (opc o) = true) as Hb by (by destruct (opc o)).
  destruct (binary_ready inf o Hb Hr) as (H1 & Hd & Ei & Hv & _).
  destruct (unary_replaces s inf o c (if i then 1 else 2)%nat H1 Hd) as (out' & E & Hrep).
  - exists (mt o). destruct Hc as [[-> _]|[-> _]]; auto.
  - intros st z Hs Hz. rewrite Ei in Hz. cbn [fmap list_fmap] in Hz.
    replace (rd (regs st) (args o (if i then 1 else 2)%nat)) with (if i then rd (regs st) (args o 1%nat) else rd (regs st) (args o 2%nat)) by (by destruct i).
    apply (lanes_unary o f Hf Hv c g _ _ z i Hz Hc). intros k Hlt. rewrite (Hk st k Hs Hlt). by destruct i.
  - rewrite E in Hout. by injection Hout as <-.
Qed.

Lemma try_not_ok inf o f (i : bool) v :
  lane_fn (opc o) = Some f -> ready s inf o -> v = 0 \/ v = all_ones -> const_is inf (args o (if i then 2 else 1)%nat) v = true ->
  (forall e x, 0 < e -> uint e x -> let c := if v =? 0 then 0 else 2 ^ e - 1 in
     wrap e (if i then f x c else f c x) = wrap e (Z.lnot x)) ->
  forall out, try_not s inf o (if i then 1 else 2)%nat = Some out -> replaces s inf o out.
Proof.
  intros Hf Hr Hv Hc Hx out Hout. unfold try_not in Hout. destruct (have_not s _); [|done].
  assert (binary (opc o) = true) as Hb by (by destruct (opc o)). destruct (binary_ready inf o Hb Hr) as (_ & _ & _ & Hvec & [Hd1 Hi1] & [Hd2 Hi2]).
  destruct (lanes_pos o (mt o) Hvec) as [He _]. apply (unary_ok inf o f (op_not (mt o)) Z.lnot i Hf Hr); [by left| |done].
  intros st k Hs Hk. cbv zeta. destruct i.
  - rewrite (input_const inf (regs st) o (args o 2%nat) v Hs Hd2 Hvec Hi2 Hc Hv k Hk). apply (Hx (lanes o (mt o)).2); [lia|]. apply el_range. lia.
  - rewrite (input_const inf (regs st) o (args o 1%nat) v Hs Hd1 Hvec Hi1 Hc Hv k Hk). apply (Hx (lanes o (mt o)).2); [lia|]. apply el_range. lia.
Qed.

Lemma shift_type o : shifts (opc o) = true -> exists w, mt o = Int w.
Proof. intros H. unfold move_type. destruct (opc o); try discriminate; destruct w; by eexists. Qed.

Lemma shift_of_zero inf o out : shifts (opc o) = true -> ready s inf o -> const_is inf (args o 1%nat) 0 = true ->
  to_movi inf o 0 = Some out -> replaces s inf o out.
Proof.
  intros Hsh Hr Hc. assert (binary (opc o) = true) as Hb by (by destruct (opc o)).
  destruct (binary_ready inf o Hb Hr) as (_ & _ & _ & _ & [Hd Hi] & _). destruct (shift_type o Hsh) as [w Hw].
  apply (zero_replaces inf o Hb Hr). intros st z Hs Hz. destruct (shift_zero o w _ _ z Hsh Hw Hz) as [H _]. apply H.
  by apply (word_zero inf _ o w).
Qed.

Lemma simplify_first_ok inf o out : ready s inf o -> simplify_first s inf o = Some out -> replaces s inf o out.
Proof.
  intros Hr. unfold simplify_first.
  destruct (opc o) eqn:Eo; try discriminate;
    try (destruct (const_is inf (args o 1%nat) 0) eqn:Hc; [|discriminate]; apply shift_of_zero; [by rewrite Eo|done|done]);
    try (match goal with |- (if ?b then try_not s inf o ?i else None) = _ -> _ =>
           destruct b eqn:Hc; [|discriminate]; apply andb_prop in Hc as [_ Hc];
           match type of Hc with const_is inf _ ?v = _ =>
             eapply (try_not_ok inf o _ (i =? 1)%nat v); [rewrite Eo; reflexivity|done|auto|done|] end end;
         intros e x He Hx; cbv zeta; cbn [Nat.eqb]; change (0 =? 0) with true; change (all_ones =? 0) with false; cbv iota; lane_bits; fail).
  destruct (arg_is_const inf (args o 2%nat)); [discriminate|]. destruct (negb _); [discriminate|].
  destruct (const_is inf (args o 1%nat) 0) eqn:Hc; [|discriminate].
  assert (mt o = t) as Et by (rewrite Eo; by destruct t as [[]|]).
  assert (binary (opc o) = true) as Hb by (by rewrite Eo). destruct (binary_ready inf o Hb Hr) as (_ & _ & _ & Hvec & [Hd1 Hi1] & _).
  apply (unary_ok inf o Z.sub (op_neg t) Z.opp false); [by rewrite Eo|done|right; by rewrite Et|].
  intros st k Hs Hk. cbv zeta. rewrite (input_const inf (regs st) o (args o 1%nat) 0 Hs Hd1 Hvec Hi1 Hc ltac:(by left) k Hk). done.
Qed.

(** The vector in a temp of the type of the operation. *)
Lemma input_range inf r o x : sound s inf r -> x ∈ dom inf -> input_for o (mt o) (ty s x) -> mt o = Vec -> uint (type_bits (vec_type o)) (rd r x).
Proof.
  intros Hs Hd Hi Ht. pose proof (rd_range s r x ltac:(apply Hs) (dom_valid s _ _ _ Hs Hd)) as R. rewrite Ht in Hi. by rewrite Hi in R.
Qed.

(** The second input has no effect. *)
Lemma neutral_lanes inf o f v out :
  lane_fn (opc o) = Some f -> ready s inf o -> v = 0 \/ v = all_ones -> const_is inf (args o 2%nat) v = true ->
  (forall e x, 0 < e -> uint e x -> wrap e (f x (if v =? 0 then 0 else 2 ^ e - 1)) = wrap e x) ->
  to_mov s inf o (args o 1%nat) = Some out -> replaces s inf o out.
Proof.
  intros Hf Hr Hv Hc Hx. assert (binary (opc o) = true) as Hb by (by destruct (opc o)).
  destruct (binary_ready inf o Hb Hr) as (_ & _ & _ & Hvec & [Hd1 Hi1] & [Hd2 Hi2]). destruct (lanes_pos o (mt o) Hvec) as [He _].
  apply (first_replaces inf o Hb Hr). intros st z Hs Hz. apply (lanes_first o f Hf Hvec _ _ z Hz); [by apply (input_range inf)|].
  intros k Hk. rewrite (input_const inf (regs st) o (args o 2%nat) v Hs Hd2 Hvec Hi2 Hc Hv k Hk), Hx; [|lia|apply el_range; lia].
  apply wrap_id, el_range. lia.
Qed.

Lemma shift_by_zero inf o out : shifts (opc o) = true -> ready s inf o -> const_is inf (args o 2%nat) 0 = true ->
  to_mov s inf o (args o 1%nat) = Some out -> replaces s inf o out.
Proof.
  intros Hsh Hr Hc. assert (binary (opc o) = true) as Hb by (by destruct (opc o)).
  destruct (binary_ready inf o Hb Hr) as (_ & _ & _ & _ & _ & [Hd Hi]). destruct (shift_type o Hsh) as [w Hw].
  apply (first_replaces inf o Hb Hr). intros st z Hs Hz. destruct (shift_zero o w _ _ z Hsh Hw Hz) as [_ H]. rewrite Hw. apply H.
  by apply (word_zero inf _ o w).
Qed.

Lemma simplify_neutral_ok inf o out : ready s inf o -> simplify_neutral s inf o = Some out -> replaces s inf o out.
Proof.
  intros Hr. unfold simplify_neutral.
  destruct (opc o) eqn:Eo; try discriminate;
    (match goal with |- (if ?b then _ else None) = _ -> _ => destruct b eqn:Hc; [|discriminate]; apply andb_prop in Hc as [_ Hc] end);
    try (apply shift_by_zero; [by rewrite Eo|done|done]);
    (match type of Hc with const_is inf _ ?v = _ => eapply (neutral_lanes inf o _ v); [rewrite Eo; reflexivity|done|auto|done|] end);
    intros e x He Hx; change (0 =? 0) with true; change (all_ones =? 0) with false; cbv iota; rewrite ?Z.add_0_r, ?Z.sub_0_r; try done; lane_bits.
Qed.

(** An input that is 0. *)
Lemma times_zero inf o out :
  match opc o with op_and _ | op_mul _ | op_muluh _ | op_mulsh _ => true | _ => false end = true -> ready s inf o ->
  const_is inf (args o 2%nat) 0 = true -> to_movi inf o 0 = Some out -> replaces s inf o out.
Proof.
  intros Ho Hr Hc. assert (binary (opc o) = true) as Hb by (by destruct (opc o)).
  destruct (binary_ready inf o Hb Hr) as (_ & _ & _ & Hvec & _ & [Hd Hi]). apply (zero_replaces inf o Hb Hr). intros st z Hs Hz.
  destruct (lane_fn (opc o)) as [f|] eqn:Ef.
  - apply (lanes_zero o f Ef Hvec _ _ z Hz). intros k Hk.
    rewrite (input_const inf (regs st) o (args o 2%nat) 0 Hs Hd Hvec Hi Hc ltac:(by left) k Hk). change (0 =? 0) with true. cbv iota.
    destruct (opc o); try discriminate; injection Ef as <-; rewrite ?Z.mul_0_r, ?Z.land_0_r; apply Z.mod_0_l, Z.pow_nonzero; try lia; apply lanes_pos in Hvec; lia.
  - destruct (opc o) eqn:Eo; try discriminate; destruct w;
      (pose proof (word_zero inf (regs st) o) as H0; rewrite Eo in H0; specialize (H0 _ (args o 2%nat) Hs Hd eq_refl Hi Hc); cbn [bits] in H0);
      unfold op_sem in Hz; rewrite Eo in Hz; cbv zeta in Hz; injection Hz as <-; cbn [bits];
      rewrite ?sint_wrap, ?H0 by lia;
      try (match goal with |- context [_ * sint ?n ?x] => assert (sint n x = 0) as -> by (unfold sint; by rewrite H0) end); by rewrite Z.mul_0_r.
Qed.

(** Equal inputs. *)
Lemma same_zero inf o out :
  match opc o with op_andc _ | op_sub _ | op_xor _ => true | _ => false end = true -> ready s inf o ->
  ts_are_copies inf (args o 1%nat) (args o 2%nat) = true -> to_movi inf o 0 = Some out -> replaces s inf o out.
Proof.
  intros Ho Hr Hc. assert (binary (opc o) = true) as Hb by (by destruct (opc o)).
  destruct (binary_ready inf o Hb Hr) as (_ & _ & _ & Hvec & [Hd _] & _). apply (zero_replaces inf o Hb Hr). intros st z Hs Hz.
  destruct (are_copies_sound s _ _ _ _ Hs Hd Hc) as [_ Eq]. rewrite Eq in Hz. destruct (lane_fn (opc o)) as [f|] eqn:Ef; [|by destruct (opc o)].
  apply (lanes_zero o f Ef Hvec _ _ z Hz). intros k Hk.
  destruct (opc o); try discriminate; injection Ef as <-; rewrite ?Z.sub_diag, ?Z.ldiff_diag, ?Z.lxor_nilpotent; apply Z.mod_0_l, Z.pow_nonzero; try lia; apply lanes_pos in Hvec; lia.
Qed.

Lemma same_first inf o out :
  match opc o with op_or _ | op_and _ => true | _ => false end = true -> ready s inf o ->
  ts_are_copies inf (args o 1%nat) (args o 2%nat) = true -> to_mov s inf o (args o 1%nat) = Some out -> replaces s inf o out.
Proof.
  intros Ho Hr Hc. assert (binary (opc o) = true) as Hb by (by destruct (opc o)).
  destruct (binary_ready inf o Hb Hr) as (_ & _ & _ & Hvec & [Hd Hi] & _). apply (first_replaces inf o Hb Hr). intros st z Hs Hz.
  destruct (are_copies_sound s _ _ _ _ Hs Hd Hc) as [_ Eq]. rewrite <- Eq in Hz. destruct (lane_fn (opc o)) as [f|] eqn:Ef; [|by destruct (opc o)].
  destruct (lanes_pos o (mt o) Hvec) as [He _]. apply (lanes_first o f Ef Hvec _ _ z Hz); [by apply (input_range inf)|]. intros k Hk.
  destruct (opc o); try discriminate; injection Ef as <-; rewrite ?Z.land_diag, ?Z.lor_diag; apply wrap_id, el_range; lia.
Qed.

Lemma simplify_last_ok inf o out : ready s inf o -> simplify_last s inf o = Some out -> replaces s inf o out.
Proof.
  intros Hr. unfold simplify_last. cbv zeta.
  destruct (match opc o with op_and _ | op_mul _ | op_muluh _ | op_mulsh _ => const_is inf (args o 2%nat) 0 | _ => false end) eqn:Hz.
  - apply times_zero; [by destruct (opc o)|done|by destruct (opc o)].
  - destruct (opc o) eqn:Eo; try discriminate; (destruct (ts_are_copies _ _ _) eqn:Hc; [|discriminate]);
      first [apply same_first; [by rewrite Eo|done|done]|apply same_zero; [by rewrite Eo|done|done]].
Qed.

(** ** Known zeros *)

Definition low_word (c : TCGOpcode) (x : Z) : Z := if opf_64bit (tcg_op_defs c) then x else Z.land x 0xffffffff.

Lemma low_word_zero c x : (low_word c x =? 0) = true -> low_zero (bits (op_width c)) x.
Proof.
  unfold low_word, op_width. intros H i Hi. apply Z.eqb_eq in H. destruct (opf_64bit _); [by rewrite H, Z.testbit_0_l|].
  apply (f_equal (fun z => Z.testbit z i)) in H. change 0xffffffff with (2 ^ 32 - 1) in H. cbn [bits] in Hi.
  rewrite Z.land_spec, low_ones_spec, (proj2 (Z.ltb_lt i 32)), Z.testbit_0_l, andb_true_r in H by lia. done.
Qed.

Lemma word_move o : word_op (opc o) = true -> mt o = Int (op_width (opc o)).
Proof.
  intros H. unfold move_type, op_width. destruct (opc o); try discriminate;
    repeat match goal with t : op_type |- _ => destruct t as [[]|] | w : width |- _ => destruct w end; done.
Qed.

Lemma word_ready inf o : word_op (opc o) = true -> ready s inf o ->
  one_output o /\ dst_ok s inf o /\
  (forall t, t ∈ inputs o -> t ∈ dom inf /\ is_int (ty s t) = true /\ (in_width (opc o) = W64 -> ty s t = TYPE_I64) /\
     (counts_zeros (opc o) = true -> op_width (opc o) = W32 -> ty s t = TYPE_I32)).
Proof.
  intros Hw (Ho & Hi & Hc & Hv).
  assert (one_output o /\ outputs o = [args o 0%nat] /\ (forall y, out_ok o y = bool_decide (y = out_type o)) /\
    (forall y, in_ok o y = true -> is_int y = true /\ (in_width (opc o) = W64 -> y = TYPE_I64) /\
       (counts_zeros (opc o) = true -> op_width (opc o) = W32 -> y = TYPE_I32))) as (H1 & Eo & Hok & Hin).
  { unfold one_output, outputs, op_oargs, out_ok, in_ok. destruct (opc o); try discriminate;
      repeat match goal with t : op_type |- _ => destruct t as [[]|] | w : width |- _ => destruct w end; try discriminate;
      (split; [done|]; split; [done|]; split; [done|]); intros y Hy; cbn in Hy;
      repeat match type of Hy with bool_decide _ = true => apply bool_decide_eq_true in Hy as -> end;
      (split; [done|]; split; [by intros|by intros]). }
  rewrite Eo in Ho. destruct (Ho (args o 0%nat) ltac:(left)) as [Hd Hty]. rewrite Hok in Hty. apply bool_decide_eq_true in Hty.
  split; [done|]. split; [done|]. intros t Ht. destruct (Hi t Ht) as [Hdt Hit]. split; [done|]. by apply Hin.
Qed.

Lemma word_known inf o (st : machine M) : word_op (opc o) = true -> ready s inf o -> sound s inf (regs st) ->
  Forall2 (fun t x => known inf t (bits (in_width (opc o))) x) (inputs o) (rd (regs st) <$> inputs o).
Proof.
  intros Hw Hr Hs. destruct (word_ready inf o Hw Hr) as (_ & _ & Hi). apply Forall2_fmap_r, Forall_Forall2_diag, Forall_forall.
  intros t Ht. destruct (Hi t Ht) as (Hd & Hint & Hty & _). by apply sound_known.
Qed.

Lemma out_type_width o w : mt o = Int w -> type_bits (out_type o) = bits w /\ is_int (out_type o) = true.
Proof. intros H. unfold out_type. rewrite H. by destruct w. Qed.

(** An operation that may leave its first input unchanged reads it at the width of the result. *)
Lemma affected_first inf o : word_op (opc o) = true -> (known_zeros inf o).2 <> all_ones ->
  in_width (opc o) = op_width (opc o) /\ args o 1%nat ∈ inputs o /\ forall r, default 0 ((rd r <$> inputs o) !! 0%nat) = rd r (args o 1%nat).
Proof.
  intros Hw Hne. unfold known_zeros in Hne. cbv zeta in Hne. unfold inputs, op_oargs, op_iargs.
  destruct (opc o); try discriminate; repeat match goal with t : op_type |- _ => destruct t as [[]|] | w : width |- _ => destruct w end;
    cbn [fst snd] in Hne; try done; repeat case_match; cbn [fst snd] in Hne; try done; (split; [done|]; split; [left|done]).
Qed.

Lemma simplify_zeros_ok inf o out : word_op (opc o) = true -> ready s inf o ->
  simplify_zeros s inf o (known_zeros inf o).1 (known_zeros inf o).2 = Some out -> replaces s inf o out.
Proof.
  intros Hw Hr. destruct (word_ready inf o Hw Hr) as (H1 & Hd & Hi). pose proof (word_move o Hw) as Hm. destruct (out_type_width o _ Hm) as [Ew Hint].
  unfold simplify_zeros. cbv zeta. fold (low_word (opc o) (known_zeros inf o).1). fold (low_word (opc o) (known_zeros inf o).2).
  pose proof (bits_pos (op_width (opc o))) as Hn.
  destruct (low_word (opc o) (known_zeros inf o).1 =? 0) eqn:Ek; [|destruct (low_word (opc o) (known_zeros inf o).2 =? 0) eqn:Ea; [|discriminate]]; intros Hout.
  - destruct (movi_replaces s inf o 0 H1 Hd) as (out' & E & Hrep); [by vm_compute|done|..]; [|rewrite E in Hout; by injection Hout as <-].
    intros st z Hs Hz. destruct (known_zeros_ok inf o _ z Hw (word_known inf o st Hw Hr Hs) Hz) as (Hin & _ & _).
    rewrite const_value_zero, Ew. apply low_word_zero in Ek. apply Z.bits_inj'. intros i Hpos. rewrite wrap_spec, Z.testbit_0_l by lia.
    destruct (Z.ltb_spec i (bits (op_width (opc o)))); [cbn [andb]|done]. apply not_true_iff_false. intros Hb.
    rewrite within_spec in Hin. apply Hin in Hb; [|done]. rewrite Ek in Hb by lia. done.
  - apply low_word_zero in Ea. assert ((known_zeros inf o).2 <> all_ones) as Hne by (intros E; rewrite E in Ea; by apply low_zero_all in Ea; [|lia]).
    destruct (affected_first inf o Hw Hne) as (Ewd & Hin1 & Hfst). destruct (Hi _ Hin1) as (Hd1 & Hint1 & Hty1 & _).
    destruct (mov_replaces s inf o (args o 1%nat) H1 Hd Hd1) as (out' & E & Hrep); [| | |rewrite E in Hout; by injection Hout as <-].
    + rewrite Hm. destruct (op_width (opc o)); [done|]. by rewrite Hty1.
    + by rewrite Hm.
    + intros st z Hs Hz. destruct (known_zeros_ok inf o _ z Hw (word_known inf o st Hw Hr Hs) Hz) as (_ & _ & Haff).
      rewrite (Haff Ea), Hfst, Ew, Hm, wrap_wrap by lia. done.
Qed.
End simplify.
