(* ===== verification/TcgFold.v ===== *)
(** * Constant folding and the default

    The last switch of the optimizer: moves and constants, folding of operations
    with constant inputs, conditions that are known, and [do_default] for the
    rest.  Each case replaces the operation. *)

From S2P Require Import Prelude BitOps HostUtils TcgOps TcgSem TcgOptimize TcgValues TcgFields TcgMasks TcgCopies TcgPhases TcgInputs TcgSimplify.

Section fold.
Context {M : Type} `{!TcgEnv M} (s : TCGContext).

Local Notation mt o := (move_type (tcg_op_defs (opc o))).

(** Only states in which the operation has a result matter. *)
Lemma replaces_intro inf op out :
  (forall (st : machine M) res, sound s inf (regs st) -> step s op st = Some res -> replaces s inf op out) -> replaces (M := M) s inf op out.
Proof. intros H st res Hs Hstep. by apply (H st res). Qed.

(** ** Words *)

Section word.
Context (inf : temp_infos) (o : TCGOp) (Hw : word_op (opc o) = true) (Hr : ready s inf o).
Local Notation w := (op_width (opc o)).

Lemma movi_word v out : uint 64 v -> (w = W32 -> u32 v = 0 -> v = 0) ->
  (forall (st : machine M) z, sound s inf (regs st) -> op_sem o (rd (regs st) <$> inputs o) = Some [z] -> wrap (bits w) v = z) ->
  to_movi inf o v = Some out -> replaces (M := M) s inf o out.
Proof.
  intros Hv H0 Hz Hout. destruct (word_ready s inf o Hw Hr) as (H1 & Hd & _). pose proof (word_move o Hw) as Hm. destruct (out_type_width o _ Hm) as [Ew Hint].
  destruct (movi_replaces s inf o v H1 Hd Hv) as (out' & E & Hrep); [| |rewrite E in Hout; by injection Hout as <-].
  - intros Ho. apply H0. unfold out_type in Ho. rewrite Hm in Ho. by destruct w.
  - intros st z Hs Hsem. rewrite const_value_int, Ew by done. rewrite <- (Hz st z Hs Hsem) at 1. apply wrap_wrap. by destruct w.
Qed.

(** The result is the input [i]. *)
Lemma mov_word i out : args o i ∈ inputs o -> in_width (opc o) = w ->
  (forall (st : machine M) z, sound s inf (regs st) -> op_sem o (rd (regs st) <$> inputs o) = Some [z] -> z = wrap (bits w) (rd (regs st) (args o i))) ->
  to_mov s inf o (args o i) = Some out -> replaces (M := M) s inf o out.
Proof.
  intros Hin Hwid Hz Hout. destruct (word_ready s inf o Hw Hr) as (H1 & Hd & Hi). destruct (Hi _ Hin) as (Hd1 & Hint1 & Hty & _).
  pose proof (word_move o Hw) as Hm. destruct (out_type_width o _ Hm) as [Ew Hint].
  destruct (mov_replaces s inf o (args o i) H1 Hd Hd1) as (out' & E & Hrep); [| | |rewrite E in Hout; by injection Hout as <-].
  - rewrite Hm. destruct w; [done|]. by rewrite Hty.
  - by rewrite Hm.
  - intros st z Hs Hsem. rewrite (Hz st z Hs Hsem), Ew, Hm, wrap_wrap by (by destruct w). done.
Qed.

Lemma output_mask_within k z : within k z -> within (output_mask o k) z.
Proof. intros H. unfold output_mask. destruct (opf_64bit _); [done|]. by apply within_lor. Qed.

Lemma output_mask_range k : uint 64 k -> uint 64 (output_mask o k).
Proof. intros H. unfold output_mask. destruct (opf_64bit _); [done|]. apply lor_uint; [lia|done|by vm_compute]. Qed.

Lemma default_word o' : (forall (st : machine M), sound s inf (regs st) -> step s o' st = step s o st) ->
  replaces (M := M) s inf o (do_default inf o (output_mask o (known_zeros inf o).1), [o']).
Proof.
  intros Ho'. apply replaces_intro. intros st0 res0 Hs0 Hstep0. destruct (word_ready s inf o Hw Hr) as (H1 & Hd & Hi).
  assert (uint 64 (known_zeros inf o).1) as Hk.
  { destruct (step_one s o st0 res0 H1 Hstep0) as (z & Ez & _). apply (known_zeros_ok inf o _ z Hw (word_known s inf o st0 Hw Hr Hs0) Ez). }
  pose proof (word_move o Hw) as Hm. destruct (out_type_width o _ Hm) as [Ew Hint].
  apply default_replaces; [by intros E; rewrite E in Hw|by destruct Hr as (H & _); intros t Ht; apply H|by apply output_mask_range| |done].
  intros st st' Hs Hstep _ _. destruct (step_one s o st _ H1 Hstep) as (z & Ez & [= ->]). cbn [regs with_regs]. rewrite wr_rd, decide_True by done.
  destruct (known_zeros_ok inf o _ z Hw (word_known s inf o st Hw Hr Hs) Ez) as (Hin & _ & _).
  apply within_wrap; [by destruct (ty s (args o 0%nat))|]. by apply output_mask_within.
Qed.
End word.

(** ** Everything else *)

(** The mask of an unsigned load of [8 << size] bits. *)
Lemma size_cases mop : exists n, Z.land mop MO_SIZE = n /\ (n = 0 \/ n = 1 \/ n = 2 \/ n = 3).
Proof.
  eexists. split; [done|]. unfold MO_SIZE. change 3 with (2 ^ 2 - 1). rewrite land_low_bits by lia.
  pose proof (Z.mod_pos_bound mop (2 ^ 2) ltac:(lia)). lia.
Qed.

Lemma qemu_ld_mask n : n = 0 \/ n = 1 \/ n = 2 \/ n = 3 ->
  u64 (u64 (Z.shiftl 2 (Z.shiftl 8 n - 1)) - 1) = 2 ^ (8 * 2 ^ n) - 1 /\ 0 <= 8 * 2 ^ n <= 64.
Proof. by intros [-> |[-> |[-> | ->]]]; vm_compute. Qed.

Lemma zeros_other inf o : word_op (opc o) = false -> simplify_zeros s inf o (known_zeros inf o).1 (known_zeros inf o).2 = None.
Proof.
  intros Hw. unfold simplify_zeros, known_zeros. cbv zeta.
  destruct (opc o) eqn:Eo; try discriminate; repeat match goal with t : op_type |- _ => destruct t as [[]|] | w : width |- _ => destruct w end; try discriminate; try reflexivity;
    try (match goal with v : vec_opcode |- _ => destruct v; reflexivity end).
  all: destruct (Z.land _ MO_SIGN =? 0); cbn [fst snd]; [|reflexivity]; match goal with |- context [Z.land ?m MO_SIZE] => destruct (size_cases m) as (n & -> & Hn) end;
    destruct Hn as [-> |[-> |[-> | ->]]]; reflexivity.
Qed.

(** The mask of a load. *)
Lemma load_mask inf o (st st' : machine M) : word_op (opc o) = false -> step s o st = Some (Next st') -> opc o <> op_call -> op_oargs o <> 0%nat ->
  valid s (args o 0%nat) = true -> is_int (ty s (args o 0%nat)) = true -> regs_ok s (regs st') ->
  within (known_zeros inf o).1 (rd (regs st') (args o 0%nat)) /\ uint 64 (known_zeros inf o).1.
Proof.
  intros Hw Hstep Hc Ho Hv Hi Hr. pose proof (rd_int s _ _ Hr Hv Hi) as Hx. pose proof full_ones as [Hfr Hf]. unfold known_zeros. cbv zeta.
  assert (0 <= type_bits (ty s (args o 0%nat))) as Hb by (by destruct (ty s (args o 0%nat))).
  destruct (opc o) eqn:Eo; try discriminate; try (split; [by apply Hf|done]);
    repeat match goal with t : op_type |- _ => destruct t as [[]|] | w : width |- _ => destruct w end; try discriminate; try (split; [by apply Hf|done]).
  all: unfold step in Hstep; rewrite Eo in Hstep; cbv zeta in Hstep.
  all: try (injection Hstep as <-; cbn [regs with_regs fst]; split; [|by vm_compute]; rewrite wr_rd, decide_True by done; apply within_wrap; [done|];
            match goal with |- within ?k (wrap ?n _) => change k with (2 ^ n - 1); apply within_ones; [lia|apply wrap_range; lia] end).
  all: destruct (guest_ld _ _ _ _) as [[v|] m]; [|discriminate]; injection Hstep as <-; cbn [regs fst] in *;
    destruct (Z.land _ MO_SIGN =? 0) eqn:Es; [|split; [by apply Hf|done]]; cbn [fst];
    rewrite wr_rd, decide_True by done; unfold memop_value; rewrite Es;
    match goal with |- context [Z.land ?m MO_SIZE] => destruct (size_cases m) as (n & -> & Hn) end;
    destruct (qemu_ld_mask n Hn) as [-> Hn2];
    (split; [apply within_wrap; [done|]; apply within_ones; [lia|apply wrap_range; lia]|]);
    destruct Hn as [-> |[-> |[-> | ->]]]; by vm_compute.
Qed.

Lemma default_other inf o : word_op (opc o) = false -> opc o <> op_call -> ready s inf o ->
  replaces (M := M) s inf o (do_default inf o (output_mask o (known_zeros inf o).1), [o]).
Proof.
  intros Hw Hc Hr. apply replaces_intro. intros st0 res0 Hs0 Hstep0.
  assert (uint 64 (known_zeros inf o).1) as Hk.
  { unfold known_zeros. cbv zeta. destruct (opc o) eqn:Eo; try discriminate; cbn [fst]; try apply full_ones;
      repeat match goal with t : op_type |- _ => destruct t as [[]|] | w : width |- _ => destruct w end; try discriminate; cbn [fst]; try apply full_ones;
      try (unfold uint; lia).
    all: destruct (Z.land _ MO_SIGN =? 0); cbn [fst]; [|apply full_ones]; match goal with |- context [Z.land ?m MO_SIZE] => destruct (size_cases m) as (n & -> & Hn) end;
      destruct Hn as [-> |[-> |[-> | ->]]]; by vm_compute. }
  destruct Hr as (Hd & _). apply default_replaces; [done|intros t Ht; by apply Hd|by apply output_mask_range| |done].
  intros st st' Hs Hstep Hi Ho. apply output_mask_within.
  destruct (step_regs s o st (Next st') ltac:(apply Hs) Hstep) as [Hr' _]. apply (load_mask inf o st st'); try done.
  apply (dom_valid s inf (regs st)); [done|]. apply Hd. unfold outputs. destruct (op_oargs o); [done|]. cbn. left.
Qed.

(** ** Constant inputs *)

Section consts.
Context (inf : temp_infos) (o : TCGOp) (Hr : ready s inf o).
Local Notation a := (args o).
Local Notation k := (output_mask o (known_zeros inf o).1).
Local Notation w := (op_width (opc o)).

Lemma inputs1 : folds1 (opc o) = true \/ (exists w, opc o = op_extract w \/ opc o = op_sextract w) -> inputs o = [a 1%nat].
Proof.
  intros H. unfold inputs, op_oargs, op_iargs. destruct H as [H|[w0 [-> | ->]]]; [|done|done].
  destruct (opc o); try discriminate; repeat match goal with t : op_type |- _ => destruct t as [[]|] end; done.
Qed.

Lemma inputs2 : folds2 (opc o) = true \/ counts_zeros (opc o) = true \/ (exists w, opc o = op_deposit w \/ opc o = op_extract2 w \/ opc o = op_setcond w) ->
  inputs o = [a 1%nat; a 2%nat].
Proof.
  intros H. unfold inputs, op_oargs, op_iargs. destruct H as [H|[H|[w0 [-> |[-> | ->]]]]]; [| |done|done|done];
    destruct (opc o); try discriminate; repeat match goal with t : op_type |- _ => destruct t as [[]|] end; done.
Qed.

(** The value of a constant input. *)
Lemma const_input (st : machine M) i : word_op (opc o) = true -> sound s inf (regs st) -> a i ∈ inputs o -> arg_is_const inf (a i) = true ->
  uint 64 (arg_val inf (a i)) /\ wrap (bits (in_width (opc o))) (arg_val inf (a i)) = wrap (bits (in_width (opc o))) (rd (regs st) (a i)).
Proof.
  intros Hw Hs Hin Hc. destruct (word_ready s inf o Hw Hr) as (_ & _ & Hi). destruct (Hi _ Hin) as (Hd & Hint & Hty & _).
  destruct (sound_known s inf (regs st) (a i) (in_width (opc o)) Hs Hd Hint Hty) as (_ & _ & _ & Hv & H). by destruct (H Hc).
Qed.

(** [v] is a constant for the result in every state in which there is one. *)
Lemma fold_const_case v out : word_op (opc o) = true ->
  (forall (st : machine M) z, sound s inf (regs st) -> op_sem o (rd (regs st) <$> inputs o) = Some [z] -> const_for w v z) ->
  to_movi inf o v = Some out -> replaces (M := M) s inf o out.
Proof.
  intros Hw Hz Hout. apply replaces_intro. intros st res Hs Hstep. destruct (word_ready s inf o Hw Hr) as (H1 & _).
  destruct (step_one s o st res H1 Hstep) as (z & Ez & _). destruct (Hz st z Hs Ez) as (Hv & _ & H0).
  apply (movi_word inf o Hw Hr v out Hv H0); [|done]. intros st' z' Hs' Ez'. by destruct (Hz st' z' Hs' Ez') as (_ & E & _).
Qed.

Lemma fold1_case out : folds1 (opc o) = true ->
  fold_or_default inf o k (arg_is_const inf (a 1%nat)) (do_constant_folding (opc o) (arg_val inf (a 1%nat)) 0) = Some out -> replaces (M := M) s inf o out.
Proof.
  intros Hf. assert (word_op (opc o) = true) as Hw by (unfold word_op; by rewrite Hf). unfold fold_or_default.
  destruct (arg_is_const inf (a 1%nat)) eqn:Hc; [|intros [= <-]; by apply default_word]. pose proof (inputs1 (or_introl Hf)) as Ei.
  destruct (do_constant_folding _ _ _) as [t|] eqn:Et; [|discriminate]. cbn [mbind option_bind]. apply fold_const_case; [done|].
  intros st z Hs. rewrite Ei. cbn [fmap list_fmap]. destruct (const_input st 1 Hw Hs ltac:(rewrite Ei; left) Hc) as [Hv E].
  rewrite (sem1_ext o _ _ Hf (eq_sym E)). intros Ez. destruct (fold1_ok o _ z Hf Hv Ez) as (t' & Et' & Hct). congruence.
Qed.

(** Two constant inputs. *)
Lemma const_inputs2 (st : machine M) : word_op (opc o) = true -> in_width (opc o) = w -> inputs o = [a 1%nat; a 2%nat] ->
  arg_is_const inf (a 1%nat) && arg_is_const inf (a 2%nat) = true -> sound s inf (regs st) ->
  uint 64 (arg_val inf (a 1%nat)) /\ uint 64 (arg_val inf (a 2%nat)) /\
  wrap (bits w) (arg_val inf (a 1%nat)) = wrap (bits w) (rd (regs st) (a 1%nat)) /\ wrap (bits w) (arg_val inf (a 2%nat)) = wrap (bits w) (rd (regs st) (a 2%nat)).
Proof.
  intros Hw Hwid Ei Hc Hs. apply andb_prop in Hc as [Hc1 Hc2]. rewrite <- Hwid.
  destruct (const_input st 1 Hw Hs ltac:(rewrite Ei; left) Hc1), (const_input st 2 Hw Hs ltac:(rewrite Ei; right; left) Hc2). done.
Qed.

Lemma fold2_case out : folds2 (opc o) = true ->
  fold_or_default inf o k (arg_is_const inf (a 1%nat) && arg_is_const inf (a 2%nat)) (do_constant_folding (opc o) (arg_val inf (a 1%nat)) (arg_val inf (a 2%nat))) = Some out ->
  replaces (M := M) s inf o out.
Proof.
  intros Hf. assert (word_op (opc o) = true) as Hw by (unfold word_op; by rewrite Hf, orb_true_r). unfold fold_or_default.
  destruct (arg_is_const inf (a 1%nat) && arg_is_const inf (a 2%nat)) eqn:Hc; [|intros [= <-]; by apply default_word].
  pose proof (inputs2 (or_introl Hf)) as Ei. assert (in_width (opc o) = w) as Hwid by (by destruct (opc o)).
  destruct (do_constant_folding _ _ _) as [t|] eqn:Et; [|discriminate]. cbn [mbind option_bind]. apply fold_const_case; [done|].
  intros st z Hs. rewrite Ei. cbn [fmap list_fmap]. destruct (const_inputs2 st Hw Hwid Ei Hc Hs) as (V1 & V2 & E1 & E2).
  rewrite (sem2_ext o _ _ _ _ Hf (eq_sym E1) (eq_sym E2)). intros Ez. destruct (fold2_ok o _ _ z Hf V1 V2 Ez) as (t' & Et' & Hct). congruence.
Qed.

(** A 32-bit constant is 0 when its low word is. *)
Lemma const_zero (st : machine M) t : sound s inf (regs st) -> t ∈ dom inf -> ty s t = TYPE_I32 -> arg_is_const inf t = true ->
  u32 (arg_val inf t) = 0 -> arg_val inf t = 0.
Proof.
  intros Hs [i Hi]%elem_of_dom Hty. unfold arg_is_const, arg_val. rewrite (ts_info_some _ _ _ Hi). intros Hc.
  destruct (sound_facts s _ _ _ _ Hs Hi) as (_ & _ & _ & H). destruct (H Hc) as (_ & _ & H0). by apply H0.
Qed.

Lemma count_case out : counts_zeros (opc o) = true ->
  (if arg_is_const inf (a 1%nat) then
     if negb (arg_val inf (a 1%nat) =? 0) then tmp ← do_constant_folding (opc o) (arg_val inf (a 1%nat)) 0; to_movi inf o tmp
     else to_mov s inf o (a 2%nat)
   else Some (do_default inf o k, [o])) = Some out -> replaces (M := M) s inf o out.
Proof.
  intros Hf. assert (word_op (opc o) = true) as Hw by (unfold word_op; by rewrite Hf, !orb_true_r).
  destruct (arg_is_const inf (a 1%nat)) eqn:Hc; [|intros [= <-]; by apply default_word].
  pose proof (inputs2 (or_intror (or_introl Hf))) as Ei. assert (in_width (opc o) = w) as Hwid by (by destruct (opc o)).
  destruct (word_ready s inf o Hw Hr) as (_ & _ & Hi). destruct (Hi (a 1%nat) ltac:(rewrite Ei; left)) as (Hd1 & _ & _ & Hty1).
  assert (forall (st : machine M) z, sound s inf (regs st) -> op_sem o (rd (regs st) <$> inputs o) = Some [z] ->
    if arg_val inf (a 1%nat) =? 0 then z = wrap (bits w) (rd (regs st) (a 2%nat))
    else exists t, do_constant_folding (opc o) (arg_val inf (a 1%nat)) 0 = Some t /\ const_for w t z) as Hcount.
  { intros st z Hs. rewrite Ei. cbn [fmap list_fmap]. destruct (const_input st 1 Hw Hs ltac:(rewrite Ei; left) Hc) as [Hv E]. rewrite Hwid in E.
    apply fold_count_ok; try done. intros H32. by apply (const_zero st); auto. }
  destruct (arg_val inf (a 1%nat) =? 0); cbn [negb].
  - apply mov_word; try done. rewrite Ei. right. left.
  - destruct (do_constant_folding _ _ _) as [t|] eqn:Et; [|discriminate]. cbn [mbind option_bind]. apply fold_const_case; [done|].
    intros st z Hs Ez. destruct (Hcount st z Hs Ez) as (t' & Et' & Hct). congruence.
Qed.

(** Bit fields. *)
Lemma deposit_case w0 out : opc o = op_deposit w0 -> (low_word (opc o) (known_zeros inf o).1 =? 0) = false ->
  fold_or_default inf o k (arg_is_const inf (a 1%nat) && arg_is_const inf (a 2%nat))
    (Some (deposit64 (arg_val inf (a 1%nat)) (a 3%nat) (a 4%nat) (arg_val inf (a 2%nat)))) = Some out -> replaces (M := M) s inf o out.
Proof.
  intros Eo Hnz. assert (word_op (opc o) = true) as Hw by (by rewrite Eo). assert (w = w0) as Ew by (rewrite Eo; by destruct w0). unfold fold_or_default.
  destruct (arg_is_const inf (a 1%nat) && arg_is_const inf (a 2%nat)) eqn:Hc; [|intros [= <-]; by apply default_word].
  assert (inputs o = [a 1%nat; a 2%nat]) as Ei by (apply inputs2; eauto). assert (in_width (opc o) = w) as Hwid by (by rewrite Eo).
  cbn [mbind option_bind]. apply fold_const_case; [done|].
  intros st z Hs. rewrite Ei. cbn [fmap list_fmap]. destruct (const_inputs2 st Hw Hwid Ei Hc Hs) as (V1 & V2 & E1 & E2). intros Ez.
  rewrite Ew in E1, E2. split; [by apply deposit64_range|]. rewrite Ew. split; [by apply (fold_deposit_ok o w0 _ _ _ _ z Eo V1 E1 E2 Ez)|].
  intros -> H0. exfalso. pose proof (word_known s inf o st Hw Hr Hs) as Hk. rewrite Ei, Hwid, Ew in Hk. cbn [fmap list_fmap bits] in *.
  apply Forall2_cons in Hk as [K1 Hk]. apply Forall2_cons in Hk as [K2 _]. destruct K1 as (_ & _ & M1 & _ & F1), K2 as (_ & _ & _ & _ & F2).
  apply andb_prop in Hc as [Hc1 Hc2]. destruct (F1 Hc1) as [_ G1], (F2 Hc2) as [_ G2].
  pose proof (fold_deposit_ok o W32 _ _ _ _ z Eo M1 G1 G2 Ez) as Hm. pose proof (fold_deposit_ok o W32 _ _ _ _ z Eo V1 E1 E2 Ez) as Hv.
  cbn [bits] in Hm, Hv. assert (z = 0) as -> by congruence. unfold low_word, known_zeros in Hnz. rewrite Eo in Hnz. cbn [tcg_op_defs def_w opf_64bit is64 fst] in Hnz.
  change 0xffffffff with (Z.ones 32) in Hnz. rewrite Z.land_ones in Hnz by lia. unfold wrap in Hm. rewrite Hm in Hnz. done.
Qed.

Lemma extract_case w0 out : opc o = op_extract w0 ->
  fold_or_default inf o k (arg_is_const inf (a 1%nat)) (Some (extract64 (arg_val inf (a 1%nat)) (a 2%nat) (a 3%nat))) = Some out -> replaces (M := M) s inf o out.
Proof.
  intros Eo. assert (word_op (opc o) = true) as Hw by (by rewrite Eo). assert (w = w0) as Ew by (rewrite Eo; by destruct w0). unfold fold_or_default.
  destruct (arg_is_const inf (a 1%nat)) eqn:Hc; [|intros [= <-]; by apply default_word]. assert (inputs o = [a 1%nat]) as Ei by (apply inputs1; eauto).
  cbn [mbind option_bind]. apply fold_const_case; [done|]. intros st z Hs. rewrite Ei. cbn [fmap list_fmap].
  destruct (const_input st 1 Hw Hs ltac:(rewrite Ei; left) Hc) as [Hv E]. replace (in_width (opc o)) with w0 in E by (rewrite <- Ew; by rewrite Eo).
  rewrite Ew. by apply (fold_extract_ok o w0).
Qed.

Lemma sextract_case w0 out : opc o = op_sextract w0 ->
  fold_or_default inf o k (arg_is_const inf (a 1%nat)) (Some (sextract64 (arg_val inf (a 1%nat)) (a 2%nat) (a 3%nat))) = Some out -> replaces (M := M) s inf o out.
Proof.
  intros Eo. assert (word_op (opc o) = true) as Hw by (by rewrite Eo). assert (w = w0) as Ew by (rewrite Eo; by destruct w0). unfold fold_or_default.
  destruct (arg_is_const inf (a 1%nat)) eqn:Hc; [|intros [= <-]; by apply default_word]. assert (inputs o = [a 1%nat]) as Ei by (apply inputs1; eauto).
  cbn [mbind option_bind]. apply fold_const_case; [done|]. intros st z Hs. rewrite Ei. cbn [fmap list_fmap].
  destruct (const_input st 1 Hw Hs ltac:(rewrite Ei; left) Hc) as [Hv E]. replace (in_width (opc o)) with w0 in E by (rewrite <- Ew; by rewrite Eo).
  rewrite Ew. by apply (fold_sextract_ok o w0).
Qed.

Lemma extract2_case w0 out : opc o = op_extract2 w0 ->
  fold_or_default inf o k (arg_is_const inf (a 1%nat) && arg_is_const inf (a 2%nat))
      (Some (match w0 with
             | W64 => Z.lor (Z.shiftr (arg_val inf (a 1%nat)) (a 3%nat)) (u64 (Z.shiftl (arg_val inf (a 2%nat)) (64 - a 3%nat)))
             | W32 => s64 32 (Z.lor (Z.shiftr (u32 (arg_val inf (a 1%nat))) (a 3%nat)) (u32 (Z.shiftl (u32 (arg_val inf (a 2%nat))) (32 - a 3%nat))))
             end)) = Some out -> replaces (M := M) s inf o out.
Proof.
  intros Eo. assert (word_op (opc o) = true) as Hw by (by rewrite Eo). assert (w = w0) as Ew by (rewrite Eo; by destruct w0). unfold fold_or_default.
  destruct (arg_is_const inf (a 1%nat) && arg_is_const inf (a 2%nat)) eqn:Hc; [|intros [= <-]; by apply default_word].
  assert (inputs o = [a 1%nat; a 2%nat]) as Ei by (apply inputs2; eauto 6). assert (in_width (opc o) = w) as Hwid by (by rewrite Eo).
  cbn [mbind option_bind]. apply fold_const_case; [done|]. intros st z Hs. rewrite Ei. cbn [fmap list_fmap].
  destruct (const_inputs2 st Hw Hwid Ei Hc Hs) as (V1 & V2 & E1 & E2). rewrite Ew in *. by apply (fold_extract2_ok o w0).
Qed.
End consts.
End fold.
