(* ===== verification/TcgBranch.v ===== *)
(** * Conditions, double words, moves and calls

    The remaining cases of the last switch of the optimizer, and the whole
    switch. *)

From S2P Require Import Prelude BitOps HostUtils TcgOps TcgSem TcgOptimize TcgValues TcgFields TcgMasks TcgCopies TcgPhases TcgInputs TcgSimplify TcgFold.

Section branch.
Context {M : Type} `{!TcgEnv M} (s : TCGContext).

Local Notation mt o := (move_type (tcg_op_defs (opc o))).

(** ** Conditions that are known *)

(** A temp that may be compared at width [w]. *)
Definition word_temp (inf : temp_infos) (w : width) (t : Z) : Prop :=
  t ∈ dom inf /\ is_int (ty s t) = true /\ (w = W64 -> ty s t = TYPE_I64).

Lemma temp_known inf r w t : sound s inf r -> word_temp inf w t -> known inf t (bits w) (rd r t).
Proof. intros Hs (Hd & Hi & Hw). by apply (sound_known s). Qed.

Lemma temp_const inf r w t : sound s inf r -> word_temp inf w t -> arg_is_const inf t = true ->
  uint 64 (arg_val inf t) /\ wrap (bits w) (arg_val inf t) = wrap (bits w) (rd r t).
Proof. intros Hs Ht Hc. destruct (temp_known inf r w t Hs Ht) as (_ & _ & _ & Hv & H). by destruct (H Hc). Qed.

Lemma temp_zero inf r w t : sound s inf r -> word_temp inf w t -> const_is inf t 0 = true -> wrap (bits w) (rd r t) = 0.
Proof.
  intros Hs Ht Hc. unfold const_is in Hc. apply andb_prop in Hc as [Hc Hz]. apply Z.eqb_eq in Hz.
  destruct (temp_const inf r w t Hs Ht Hc) as [_ <-]. rewrite Hz. by destruct w.
Qed.

Lemma fold_cond_ok inf r c w x y cc b :
  sound s inf r -> op_width c = w -> word_temp inf w x -> word_temp inf w y -> cond_valid cc = true ->
  do_constant_folding_cond inf c x y cc = Some (Some b) -> eval_cond (bits w) cc (rd r x) (rd r y) = Some b.
Proof.
  intros Hs Hw Hx Hy Hcc. unfold do_constant_folding_cond. pose proof (bits_pos w) as Hn.
  replace (if opf_64bit (tcg_op_defs c) then 64 else 32) with (bits w) by (rewrite <- Hw; unfold op_width; by destruct (opf_64bit _)).
  destruct (arg_is_const inf x && arg_is_const inf y) eqn:Hc.
  - apply andb_prop in Hc as [Cx Cy]. destruct (temp_const inf r w x Hs Hx Cx) as [_ Ex], (temp_const inf r w y Hs Hy Cy) as [_ Ey].
    rewrite (fold_cond_n_ok (bits w) _ _ (rd r x) (rd r y)) by (done || lia). by destruct (eval_cond _ _ _ _) as [[]|]; intros [= <-].
  - destruct (ts_are_copies inf x y) eqn:Ec.
    + destruct (are_copies_sound s inf r x y Hs ltac:(apply Hx) Ec) as [_ E]. rewrite E, (fold_cond_eq_ok (bits w) cc (rd r y)) by done.
      by destruct (eval_cond _ _ _ _) as [[]|]; intros [= <-].
    + destruct (const_is inf y 0) eqn:Ez; [|done]. intros [= E]. apply (cond_zero_ok (bits w) _ _ _ b ltac:(lia)); [|done]. by apply (temp_zero inf).
Qed.

Lemma fold_cond_total inf c x y cc : cond_valid cc = true -> exists res, do_constant_folding_cond inf c x y cc = Some res.
Proof.
  intros Hcc. unfold do_constant_folding_cond. destruct (arg_is_const inf x && arg_is_const inf y).
  - match goal with |- context [do_constant_folding_cond_n ?m _ _ _] => set (n := m) end. assert (0 <= n) as Hn by (subst n; by destruct (opf_64bit _)).
    rewrite (fold_cond_n_ok n _ _ (arg_val inf x) (arg_val inf y)) by done. destruct (eval_cond_total n cc (arg_val inf x) (arg_val inf y) Hcc) as [b ->]. by eexists.
  - destruct (ts_are_copies inf x y).
    + rewrite (fold_cond_eq_ok 64 cc 0) by done. destruct (eval_cond_total 64 cc 0 0 Hcc) as [b ->]. by eexists.
    + destruct (const_is inf y 0); by eexists.
Qed.

(** Comparisons of double words. *)
Lemma fold_cond2_ok inf r al ah bl bh cc b :
  sound s inf r -> Forall (word_temp inf W32) [al; ah; bl; bh] -> cond_valid cc = true ->
  do_constant_folding_cond2 inf al ah bl bh cc = Some (Some b) ->
  eval_cond 64 cc (pair64 (rd r al) (rd r ah)) (pair64 (rd r bl) (rd r bh)) = Some b.
Proof.
  intros Hs HF Hcc. rewrite !Forall_cons in HF. destruct HF as (Hal & Hah & Hbl & Hbh & _). unfold do_constant_folding_cond2. cbv zeta.
  assert ((if ts_are_copies inf al bl && ts_are_copies inf ah bh then Some <$> do_constant_folding_cond_eq cc else Some None) = Some (Some b) ->
    eval_cond 64 cc (pair64 (rd r al) (rd r ah)) (pair64 (rd r bl) (rd r bh)) = Some b) as Hrest.
  { destruct (_ && _) eqn:Ec; [|done]. apply andb_prop in Ec as [El Eh]. destruct (are_copies_sound s inf r al bl Hs ltac:(apply Hal) El) as [_ ->].
    destruct (are_copies_sound s inf r ah bh Hs ltac:(apply Hah) Eh) as [_ ->]. rewrite (fold_cond_eq_ok 64 cc (pair64 (rd r bl) (rd r bh))) by done.
    by destruct (eval_cond _ _ _ _) as [[]|]; intros [= <-]. }
  destruct (arg_is_const inf bl && arg_is_const inf bh) eqn:Cb; [|done]. apply andb_prop in Cb as [Cbl Cbh].
  destruct (temp_const inf r W32 bl Hs Hbl Cbl) as [Vbl Ebl], (temp_const inf r W32 bh Hs Hbh Cbh) as [_ Ebh]. cbn [bits] in *.
  rewrite (deposit_pair _ _ _ _ Vbl Ebl Ebh). destruct (arg_is_const inf al && arg_is_const inf ah) eqn:Ca.
  - apply andb_prop in Ca as [Cal Cah]. destruct (temp_const inf r W32 al Hs Hal Cal) as [Val Eal], (temp_const inf r W32 ah Hs Hah Cah) as [_ Eah]. cbn [bits] in *.
    rewrite (deposit_pair _ _ _ _ Val Eal Eah), (fold_cond_n_ok 64 _ _ (pair64 (rd r al) (rd r ah)) (pair64 (rd r bl) (rd r bh))) by (done || lia).
    by destruct (eval_cond _ _ _ _) as [[]|]; intros [= <-].
  - destruct ((pair64 (rd r bl) (rd r bh) =? 0) && _) eqn:Ez; [|done]. apply andb_prop in Ez as [Ez _]. apply Z.eqb_eq in Ez. intros [= E].
    rewrite Ez. by apply (cond_zero_ok 64 cc _ 0 b).
Qed.

(** ** Branches *)

(** The inputs of an operation that compares words. *)
Lemma compare_ready inf o t : ready s inf o -> word_op (opc o) || branches (opc o) = true -> in_width (opc o) = op_width (opc o) ->
  t ∈ inputs o -> word_temp inf (op_width (opc o)) t.
Proof.
  intros Hr Hc Hw Ht. destruct (word_op (opc o)) eqn:Hwo.
  - destruct (word_ready s inf o Hwo Hr) as (_ & _ & Hi). destruct (Hi t Ht) as (Hd & Hint & Hty & _). split; [done|]. split; [done|]. by rewrite <- Hw.
  - destruct Hr as (_ & Hi & _). destruct (Hi t Ht) as [Hd Hin]. split; [done|]. revert Hin. unfold in_ok.
    destruct (opc o); try discriminate; repeat match goal with w : width |- _ => destruct w end; cbn; intros Hin;
      repeat match type of Hin with bool_decide _ = true => apply bool_decide_eq_true in Hin as -> end; done.
Qed.

Lemma step_brcond o w (st : machine M) : opc o = op_brcond w ->
  step s o st = b ← eval_cond (bits w) (args o 2%nat) (rd (regs st) (args o 0%nat)) (rd (regs st) (args o 1%nat));
    Some (if b : bool then Jump (args o 3%nat) st else Next st).
Proof. intros Eo. unfold step, inputs, op_oargs, op_iargs. by rewrite Eo. Qed.

Lemma step_brcond2 o (st : machine M) : opc o = op_brcond2_i32 ->
  step s o st = b ← eval_cond 64 (args o 4%nat) (pair64 (rd (regs st) (args o 0%nat)) (rd (regs st) (args o 1%nat)))
                            (pair64 (rd (regs st) (args o 2%nat)) (rd (regs st) (args o 3%nat)));
    Some (if b : bool then Jump (args o 5%nat) st else Next st).
Proof. intros Eo. unfold step, inputs, op_oargs, op_iargs. by rewrite Eo. Qed.

(** A branch that is always taken, one that is never taken, and another test. *)
Lemma replaces_br inf o l : (forall (st : machine M) res, sound s inf (regs st) -> step s o st = Some res -> res = Jump l st) ->
  replaces (M := M) s inf o (∅, [with_arg 0 l (with_opc op_br o)]).
Proof. intros H st res Hs Hstep. rewrite (H st res Hs Hstep). by split. Qed.

Lemma replaces_nothing inf o : (forall (st : machine M) res, sound s inf (regs st) -> step s o st = Some res -> res = Next st) ->
  replaces (M := M) s inf o (inf, []).
Proof. intros H st res Hs Hstep. rewrite (H st res Hs Hstep). split; [done|]. by intros st' [= <-]. Qed.

Lemma replaces_test inf o o' : (forall st : machine M, sound s inf (regs st) -> step s o' st = step s o st) -> replaces (M := M) s inf o (∅, [o']).
Proof.
  intros H st res Hs Hstep. cbn [fst snd run_block]. rewrite H, Hstep by done. split; [by destruct res|]. intros st' ->.
  apply sound_empty. by apply (step_regs s o st (Next st')); [apply Hs|].
Qed.

Lemma brcond_case inf o w k out : opc o = op_brcond w -> ready s inf o -> k = output_mask o (known_zeros inf o).1 ->
  fold_brcond inf o k = Some out -> replaces (M := M) s inf o out.
Proof.
  intros Eo Hr -> . pose proof Hr as (_ & _ & Hc & _). unfold consts_ok in Hc. rewrite Eo in Hc.
  assert (op_width (opc o) = w) as Ew by (rewrite Eo; by destruct w).
  assert (inputs o = [args o 0%nat; args o 1%nat]) as Ei by (unfold inputs, op_oargs, op_iargs; by rewrite Eo).
  assert (forall t, t ∈ inputs o -> word_temp inf w t) as Hi.
  { intros t Ht. rewrite <- Ew. apply compare_ready; try done; by rewrite Eo. }
  rewrite Ei in Hi. unfold fold_brcond. destruct (do_constant_folding_cond _ _ _ _ _) as [[b|]|] eqn:Ef; [| |discriminate]; cbn [mbind option_bind].
  - assert (forall (st : machine M) res, sound s inf (regs st) -> step s o st = Some res -> res = if b then Jump (args o 3%nat) st else Next st) as Hres.
    { intros st res Hs. rewrite (step_brcond o w st Eo).
      rewrite (fold_cond_ok inf (regs st) (opc o) w _ _ _ b Hs Ew (Hi _ ltac:(left)) (Hi _ ltac:(right; left)) Hc Ef). cbn. by intros [= <-]. }
    destruct b; intros [= <-]; [by apply replaces_br|by apply replaces_nothing].
  - intros [= <-]. apply default_other; [by rewrite Eo|by rewrite Eo|done].
Qed.

(** ** Comparisons of double words *)

Section pairs.
Context (al ah bl bh : Z).
Local Notation cond2 c := (eval_cond 64 c (pair64 al ah) (pair64 bl bh)).

Lemma pair_eqb : (u64 (pair64 al ah) =? u64 (pair64 bl bh)) = (u32 al =? u32 bl) && (u32 ah =? u32 bh).
Proof.
  rewrite !(wrap_id 64) by apply pair64_range. apply eq_true_iff_eq. rewrite andb_true_iff, !Z.eqb_eq. apply pair64_eq.
Qed.

Lemma cond2_sign c : c = TCG_COND_LT \/ c = TCG_COND_GE -> u32 bl = 0 -> u32 bh = 0 -> cond2 c = eval_cond 32 c ah bh.
Proof.
  intros Hc Hl Hh. assert (pair64 bl bh = 0) as -> by (unfold pair64; by rewrite Hl, Hh).
  assert (sint 32 bh = 0) as E by (unfold sint; by rewrite Hh). pose proof (pair64_sign al ah) as Hs.
  destruct Hc as [-> | ->]; unfold eval_cond; cbn -[sint]; rewrite E; change (sint 64 0) with 0; f_equal; [done|].
  by rewrite !Z.leb_antisym, Hs.
Qed.

(** Equality of double words when one comparison of words is known. *)
Lemma cond2_eq b :
  (eval_cond 32 TCG_COND_EQ al bl = Some b -> cond2 TCG_COND_EQ = if b then eval_cond 32 TCG_COND_EQ ah bh else Some false) /\
  (eval_cond 32 TCG_COND_EQ ah bh = Some b -> cond2 TCG_COND_EQ = if b then eval_cond 32 TCG_COND_EQ al bl else Some false).
Proof.
  unfold eval_cond. cbn -[wrap]. rewrite pair_eqb. split; intros [= <-]; destruct (u32 al =? u32 bl), (u32 ah =? u32 bh); done.
Qed.

Lemma cond2_ne b :
  (eval_cond 32 TCG_COND_NE al bl = Some b -> cond2 TCG_COND_NE = if b then Some true else eval_cond 32 TCG_COND_NE ah bh) /\
  (eval_cond 32 TCG_COND_NE ah bh = Some b -> cond2 TCG_COND_NE = if b then Some true else eval_cond 32 TCG_COND_NE al bl).
Proof.
  unfold eval_cond. cbn -[wrap]. rewrite pair_eqb. split; intros [= <-]; destruct (u32 al =? u32 bl), (u32 ah =? u32 bh); done.
Qed.
End pairs.

(** What the optimizer finds out about a comparison of double words. *)
Section compare.
Context (inf : temp_infos) (c al ah bl bh : Z) (Hi : Forall (word_temp inf W32) [al; ah; bl; bh]).

Definition pair_cond (st : machine M) : option bool :=
  eval_cond 64 c (pair64 (rd (regs st) al) (rd (regs st) ah)) (pair64 (rd (regs st) bl) (rd (regs st) bh)).
Definition low_cond (st : machine M) : option bool := eval_cond 32 c (rd (regs st) al) (rd (regs st) bl).
Definition high_cond (st : machine M) : option bool := eval_cond 32 c (rd (regs st) ah) (rd (regs st) bh).

Lemma compare_known b : cond_valid c = true -> do_constant_folding_cond2 inf al ah bl bh c = Some (Some b) ->
  forall st : machine M, sound s inf (regs st) -> pair_cond st = Some b.
Proof. intros Hc H st Hs. by apply (fold_cond2_ok inf). Qed.

Lemma compare_sign : ((c =? TCG_COND_LT) || (c =? TCG_COND_GE)) && const_is inf bl 0 && const_is inf bh 0 = true ->
  forall st : machine M, sound s inf (regs st) -> pair_cond st = high_cond st.
Proof.
  intros H st Hs. rewrite !andb_true_iff, orb_true_iff, !Z.eqb_eq in H. destruct H as [[Hc Hl] Hh].
  rewrite !Forall_cons in Hi. destruct Hi as (_ & _ & Hbl & Hbh & _).
  apply cond2_sign; [done|by apply (temp_zero inf (regs st) W32)|by apply (temp_zero inf (regs st) W32)].
Qed.

Lemma compare_word op x y b (st : machine M) : op = op_brcond W32 \/ op = op_setcond W32 -> sound s inf (regs st) -> x ∈ [al; ah; bl; bh] -> y ∈ [al; ah; bl; bh] ->
  cond_valid c = true -> do_constant_folding_cond inf op x y c = Some (Some b) -> eval_cond 32 c (rd (regs st) x) (rd (regs st) y) = Some b.
Proof.
  intros Ho Hs Hx Hy Hc. rewrite Forall_forall in Hi. apply (fold_cond_ok inf (regs st) op W32); auto. by destruct Ho as [-> | ->].
Qed.

Lemma compare_low op b : op = op_brcond W32 \/ op = op_setcond W32 -> c = TCG_COND_EQ \/ c = TCG_COND_NE -> do_constant_folding_cond inf op al bl c = Some (Some b) ->
  forall st : machine M, sound s inf (regs st) -> pair_cond st = if Bool.eqb b (c =? TCG_COND_NE) then Some b else high_cond st.
Proof.
  intros Ho Hc H st Hs. assert (cond_valid c = true) as Hv by (by destruct Hc as [-> | ->]).
  pose proof (compare_word op al bl b st Ho Hs ltac:(set_solver) ltac:(set_solver) Hv H) as E. unfold pair_cond, high_cond.
  destruct Hc as [-> | ->]; [rewrite (proj1 (cond2_eq _ _ _ _ b) E)|rewrite (proj1 (cond2_ne _ _ _ _ b) E)]; by destruct b.
Qed.

Lemma compare_high op b : op = op_brcond W32 \/ op = op_setcond W32 -> c = TCG_COND_EQ \/ c = TCG_COND_NE -> do_constant_folding_cond inf op ah bh c = Some (Some b) ->
  forall st : machine M, sound s inf (regs st) ->
    high_cond st = Some b /\ pair_cond st = if Bool.eqb b (c =? TCG_COND_NE) then Some b else low_cond st.
Proof.
  intros Ho Hc H st Hs. assert (cond_valid c = true) as Hv by (by destruct Hc as [-> | ->]).
  pose proof (compare_word op ah bh b st Ho Hs ltac:(set_solver) ltac:(set_solver) Hv H) as E. unfold pair_cond, low_cond, high_cond. split; [done|].
  destruct Hc as [-> | ->]; [rewrite (proj2 (cond2_eq _ _ _ _ b) E)|rewrite (proj2 (cond2_ne _ _ _ _ b) E)]; by destruct b.
Qed.
End compare.

(** One goal for each way a comparison of double words is simplified. *)
Ltac case_conds :=
  repeat match goal with
    | |- (mbind _ ?e) = Some _ -> _ => destruct e as [[[]|]|] eqn:?; cbn [mbind option_bind]; [..|discriminate]
    | |- (if ?a =? ?b then _ else _) = Some _ -> _ => destruct (Z.eqb_spec a b) as [?Ec|]
    | |- (if ?b then _ else _) = Some _ -> _ => destruct b eqn:? end.

Lemma brcond2_case inf o k out : opc o = op_brcond2_i32 -> ready s inf o -> k = output_mask o (known_zeros inf o).1 ->
  fold_brcond2 inf o k = Some out -> replaces (M := M) s inf o out.
Proof.
  intros Eo Hr ->. pose proof Hr as (_ & _ & Hc & _). unfold consts_ok in Hc. rewrite Eo in Hc. set (a := args o) in *.
  assert (Forall (word_temp inf W32) [a 0%nat; a 1%nat; a 2%nat; a 3%nat]) as Hi.
  { apply Forall_forall. intros t Ht. replace W32 with (op_width (opc o)) by (by rewrite Eo). apply compare_ready; try done; try by rewrite Eo.
    unfold inputs, op_oargs, op_iargs. by rewrite Eo. }
  pose proof (step_brcond2 o) as Hstep. fold a in Hstep.
  set (pc := pair_cond (a 4%nat) (a 0%nat) (a 1%nat) (a 2%nat) (a 3%nat)).
  assert (forall st : machine M, step s o st = b ← pc st; Some (if b : bool then Jump (a 5%nat) st else Next st)) as Hs' by (intros st; by apply Hstep).
  assert ((forall st : machine M, sound s inf (regs st) -> pc st = Some true) -> replaces (M := M) s inf o (∅, [with_arg 0 (a 5%nat) (with_opc op_br o)])) as Htrue.
  { intros H. apply replaces_br. intros st res Hs. rewrite Hs', H by done. by intros [= <-]. }
  assert ((forall st : machine M, sound s inf (regs st) -> pc st = Some false) -> replaces (M := M) s inf o (inf, [])) as Hfalse.
  { intros H. apply replaces_nothing. intros st res Hs. rewrite Hs', H by done. by intros [= <-]. }
  assert ((forall st : machine M, sound s inf (regs st) -> pc st = high_cond (a 4%nat) (a 1%nat) (a 3%nat) st) ->
    replaces (M := M) s inf o (∅, [with_arg 3 (a 5%nat) (with_arg 2 (a 4%nat) (with_arg 1 (a 3%nat) (with_arg 0 (a 1%nat) (with_opc (op_brcond W32) o))))])) as Hhigh.
  { intros H. apply replaces_test. intros st Hs. by rewrite Hs', H, (step_brcond _ W32). }
  assert ((forall st : machine M, sound s inf (regs st) -> pc st = low_cond (a 4%nat) (a 0%nat) (a 2%nat) st) ->
    replaces (M := M) s inf o (∅, [with_arg 3 (a 5%nat) (with_arg 2 (a 4%nat) (with_arg 1 (a 2%nat) (with_opc (op_brcond W32) o)))])) as Hlow.
  { intros H. apply replaces_test. intros st Hs. by rewrite Hs', H, (step_brcond _ W32). }
  assert (replaces (M := M) s inf o (do_default inf o (output_mask o (known_zeros inf o).1), [o])) as Hdef by (apply default_other; [by rewrite Eo|by rewrite Eo|done]).
  unfold fold_brcond2. fold a. cbv zeta. case_conds; intros [= <-]; try done;
    try (apply Htrue; by apply (compare_known inf)); try (apply Hfalse; by apply (compare_known inf)); try (apply Hhigh; by apply (compare_sign inf));
    (match goal with H : do_constant_folding_cond _ _ _ _ _ = Some (Some _), E : a 4%nat = _ |- _ => rewrite <- E in H;
         assert (a 4%nat = TCG_COND_EQ \/ a 4%nat = TCG_COND_NE) as Hcc by (rewrite E; auto);
         first [apply Htrue|apply Hfalse|apply Hhigh|apply Hlow]; intros st Hs;
         first [pose proof (compare_low inf _ _ _ _ _ Hi _ _ (or_introl eq_refl) Hcc H st Hs) as Ep
               |destruct (compare_high inf _ _ _ _ _ Hi _ _ (or_introl eq_refl) Hcc H st Hs) as [_ Ep]]; fold pc in Ep; rewrite Ep; by rewrite E end).
Qed.

(** ** Values of conditions *)

Lemma bool_const w b : const_for w (bool_val b) (bool_val b).
Proof. apply const_small, bool_val_range. by destruct w. Qed.

Lemma setcond_case inf o w out : opc o = op_setcond w -> ready s inf o ->
  (tmp ← do_constant_folding_cond inf (opc o) (args o 1%nat) (args o 2%nat) (args o 3%nat);
   match tmp with
   | Some b => to_movi inf o (bool_val b)
   | None => Some (do_default inf o (output_mask o (known_zeros inf o).1), [o])
   end) = Some out -> replaces (M := M) s inf o out.
Proof.
  intros Eo Hr. pose proof Hr as (_ & _ & Hc & _). unfold consts_ok in Hc. rewrite Eo in Hc.
  assert (word_op (opc o) = true) as Hw by (by rewrite Eo). assert (op_width (opc o) = w) as Ew by (rewrite Eo; by destruct w).
  assert (inputs o = [args o 1%nat; args o 2%nat]) as Ei by (apply inputs2; eauto 6).
  destruct (do_constant_folding_cond _ _ _ _ _) as [[b|]|] eqn:Ef; [| |discriminate]; cbn [mbind option_bind].
  - apply fold_const_case; try done. intros st z Hs. rewrite Ei. cbn [fmap list_fmap].
    assert (forall t, t ∈ inputs o -> word_temp inf w t) as Hi.
    { intros t Ht. rewrite <- Ew. apply compare_ready; try done; by rewrite ?Hw, ?Eo. }
    rewrite Ei in Hi. unfold op_sem. rewrite Eo. cbv zeta.
    rewrite (fold_cond_ok inf (regs st) (opc o) w _ _ _ b Hs Ew (Hi _ ltac:(left)) (Hi _ ltac:(right; left)) Hc Ef). cbn [mbind option_bind].
    intros [= <-]. apply bool_const.
  - intros [= <-]. by apply default_word.
Qed.

Lemma setcond2_case inf o k out : opc o = op_setcond2_i32 -> ready s inf o -> k = output_mask o (known_zeros inf o).1 ->
  fold_setcond2 inf o k = Some out -> replaces (M := M) s inf o out.
Proof.
  intros Eo Hr ->. pose proof Hr as (Hd & _ & Hc & _). unfold consts_ok in Hc. rewrite Eo in Hc. set (a := args o) in *.
  assert (word_op (opc o) = true) as Hw by (by rewrite Eo).
  assert (inputs o = [a 1%nat; a 2%nat; a 3%nat; a 4%nat]) as Ei by (unfold inputs, op_oargs, op_iargs; by rewrite Eo).
  assert (Forall (word_temp inf W32) [a 1%nat; a 2%nat; a 3%nat; a 4%nat]) as Hi.
  { apply Forall_forall. intros t Ht. replace W32 with (op_width (opc o)) by (by rewrite Eo). apply compare_ready; try done; try by rewrite Eo. by rewrite Ei. }
  set (pc := pair_cond (a 5%nat) (a 1%nat) (a 2%nat) (a 3%nat) (a 4%nat)).
  assert (forall st : machine M, op_sem o (rd (regs st) <$> inputs o) = b ← pc st; Some [bool_val b]) as Hsem.
  { intros st. rewrite Ei. unfold op_sem. by rewrite Eo. }
  assert (forall b, (forall st : machine M, sound s inf (regs st) -> pc st = Some b) -> to_movi inf o (bool_val b) = Some out -> replaces (M := M) s inf o out) as Hconst.
  { intros b H. apply fold_const_case; try done. intros st z Hs. rewrite Hsem, H by done. intros [= <-]. apply bool_const. }
  assert (forall o', opc o' = op_setcond W32 -> args o' 0%nat = a 0%nat ->
    (forall st : machine M, sound s inf (regs st) -> pc st = eval_cond 32 (args o' 3%nat) (rd (regs st) (args o' 1%nat)) (rd (regs st) (args o' 2%nat))) ->
    replaces (M := M) s inf o (set_mask (a 0%nat) 1 (reset_ts (a 0%nat) inf), [o'])) as Htest.
  { intros o' Eo' E0 H. assert (set_mask (a 0%nat) 1 (reset_ts (a 0%nat) inf) = do_default inf o 1) as -> by (unfold do_default, reset_outputs, op_oargs; by rewrite Eo).
    assert (one_output o) as H1 by (unfold one_output, op_oargs; by rewrite Eo).
    apply default_replaces; [by rewrite Eo|by intros t Ht; apply Hd|by vm_compute|..].
    - intros st st' Hs Hstep _ _. destruct (step_one s o st _ H1 Hstep) as (z & Ez & [= ->]). cbn [regs with_regs]. rewrite wr_rd, decide_True by done.
      apply within_wrap; [by destruct (ty s (args o 0%nat))|]. rewrite Hsem in Ez. destruct (pc st) as [b|]; [|done]. injection Ez as <-. by destruct b.
    - intros st Hs. rewrite !step_pure by (by rewrite ?Eo, ?Eo'). rewrite Hsem, H by done.
      assert (inputs o' = [args o' 1%nat; args o' 2%nat]) as -> by (unfold inputs, op_oargs, op_iargs; by rewrite Eo').
      assert (outputs o' = outputs o) as -> by (unfold outputs, op_oargs; rewrite Eo, Eo'; cbn; by rewrite E0).
      unfold op_sem. rewrite Eo'. cbn. by destruct (eval_cond _ _ _ _). }
  unfold fold_setcond2. fold a. cbv zeta. case_conds;
    try (intros [= <-]; by apply default_word);
    try (apply Hconst; by apply (compare_known inf));
    try (intros [= <-]; apply Htest; [done|done|]; by apply (compare_sign inf));
    (match goal with H : do_constant_folding_cond _ _ _ _ _ = Some (Some _), E : a 5%nat = _ |- _ => rewrite <- E in H;
         assert (a 5%nat = TCG_COND_EQ \/ a 5%nat = TCG_COND_NE) as Hcc by (rewrite E; auto);
         first [apply Hconst|intros [= <-]; apply Htest; [done|done|]]; intros st Hs;
         first [pose proof (compare_low inf _ _ _ _ _ Hi _ _ (or_intror eq_refl) Hcc H st Hs) as Ep
               |destruct (compare_high inf _ _ _ _ _ Hi _ _ (or_intror eq_refl) Hcc H st Hs) as [Eh Ep]]; fold pc in Ep; rewrite Ep;
         unfold low_cond, high_cond in *; cbn [args with_arg with_opc set_arg Nat.eqb]; rewrite ?E in *; try done end).
Qed.
End branch.
