(* ===== verification/TcgSwitch.v ===== *)
(** * The last switch of the optimizer

    Conditional moves, double words, moves, constants, vectors and calls; and
    the whole switch: whatever [fold_op] gives replaces the operation. *)

From S2P Require Import Prelude BitOps HostUtils TcgOps TcgSem TcgOptimize TcgValues TcgFields TcgMasks TcgCopies TcgPhases TcgInputs TcgSimplify TcgFold TcgBranch.

Section switch.
Context {M : Type} `{!TcgEnv M} (s : TCGContext).

Local Notation mt o := (move_type (tcg_op_defs (opc o))).

(** ** Conditional moves *)

Lemma movcond_case inf o w k out : opc o = op_movcond w -> ready s inf o -> k = output_mask o (known_zeros inf o).1 ->
  fold_movcond s inf o k w = Some out -> replaces (M := M) s inf o out.
Proof.
  intros Eo Hr ->. pose proof Hr as (_ & _ & Hc & _). unfold consts_ok in Hc. rewrite Eo in Hc. set (a := args o) in *.
  assert (word_op (opc o) = true) as Hw by (by rewrite Eo). assert (op_width (opc o) = w) as Ew by (rewrite Eo; by destruct w).
  assert (inputs o = [a 1%nat; a 2%nat; a 3%nat; a 4%nat]) as Ei by (unfold inputs, op_oargs, op_iargs; by rewrite Eo).
  assert (forall t, t ∈ [a 1%nat; a 2%nat; a 3%nat; a 4%nat] -> word_temp s inf w t) as Hi.
  { intros t Ht. rewrite <- Ew. apply compare_ready; try done; try by rewrite ?Hw, ?Eo. by rewrite Ei. }
  assert (forall st : machine M, op_sem o (rd (regs st) <$> inputs o) =
    b ← eval_cond (bits w) (a 5%nat) (rd (regs st) (a 1%nat)) (rd (regs st) (a 2%nat));
    Some [wrap (bits w) (if b : bool then rd (regs st) (a 3%nat) else rd (regs st) (a 4%nat))]) as Hsem.
  { intros st. rewrite Ei. unfold op_sem. by rewrite Eo. }
  unfold fold_movcond. fold a. cbv zeta. destruct (do_constant_folding_cond _ _ _ _ _) as [[b|]|] eqn:Ef; [| |discriminate]; cbn [mbind option_bind].
  - apply mov_word; try done.
    + rewrite Ei. destruct b; [do 2 right; left|do 3 right; left].
    + by rewrite Eo.
    + intros st z Hs. rewrite Hsem.
      rewrite (fold_cond_ok s inf (regs st) (opc o) w _ _ _ b Hs Ew (Hi _ ltac:(left)) (Hi _ ltac:(right; left)) Hc Ef), Ew.
      cbn [mbind option_bind]. intros [= <-]. by destruct b.
  - assert (forall c, (forall st : machine M, sound s inf (regs st) -> op_sem o (rd (regs st) <$> inputs o) =
        b ← eval_cond (bits w) c (rd (regs st) (a 1%nat)) (rd (regs st) (a 2%nat)); Some [bool_val b]) ->
      replaces (M := M) s inf o (do_default inf o (output_mask o (known_zeros inf o).1), [with_opc (op_setcond w) (with_arg 3 c o)])) as Hset.
    { intros c H. apply default_word; [done|done|]. intros st Hs. rewrite !step_pure by (done || by rewrite Eo). rewrite H by done.
      set (o' := with_opc (op_setcond w) (with_arg 3 c o)). assert (inputs o' = [a 1%nat; a 2%nat]) as -> by done.
      assert (outputs o' = outputs o) as -> by (unfold outputs, op_oargs; by rewrite Eo). unfold op_sem. cbn. by destruct (eval_cond _ _ _ _). }
    assert (replaces (M := M) s inf o (do_default inf o (output_mask o (known_zeros inf o).1), [o])) as Hdef by (by apply default_word).
    destruct (arg_is_const inf (a 3%nat) && arg_is_const inf (a 4%nat)) eqn:Hcs; [|by intros [= <-]]. apply andb_prop in Hcs as [C3 C4].
    assert (forall st : machine M, sound s inf (regs st) -> wrap (bits w) (arg_val inf (a 3%nat)) = wrap (bits w) (rd (regs st) (a 3%nat)) /\
      wrap (bits w) (arg_val inf (a 4%nat)) = wrap (bits w) (rd (regs st) (a 4%nat))) as Hv.
    { intros st Hs. split; apply (temp_const s inf); try done; apply Hi; [do 2 right; left|do 3 right; left]. }
    destruct ((arg_val inf (a 4%nat) =? 1) && _) eqn:E1; [|clear E1; destruct ((arg_val inf (a 3%nat) =? 1) && _) eqn:E1; [|by intros [= <-]]]; bool_to_prop; intros [= <-]; apply Hset; intros st Hs;
      rewrite Hsem; destruct (Hv st Hs) as [V3 V4]; rewrite ?cond_invert_ok by done; destruct (eval_cond _ _ _ _) as [[]|]; try done; cbn;
      rewrite <- ?V3, <- ?V4; do 3 f_equal; repeat match goal with H : arg_val _ _ = _ |- _ => rewrite H end; by destruct w.
Qed.

(** ** Double words *)

Definition folds_pair (c : TCGOpcode) : bool := match c with op_add2 W32 | op_sub2 W32 | op_mulu2 W32 => true | _ => false end.

Lemma movi_dom inf o t v : ring inf -> t ∈ dom inf -> dom (tcg_opt_gen_movi inf o t v).1 = dom inf.
Proof.
  intros Hring Ht. pose proof (reset_dom inf t Hring Ht) as Hd. unfold tcg_opt_gen_movi. cbn [fst]. unfold set_mask, set_const.
  rewrite !dom_insert_L, Hd. set_solver.
Qed.

Lemma step_movi o (st : machine M) : opc o = op_movi W32 ->
  step s o st = Some (Next (with_regs (wr s (args o 0%nat) (u32 (args o 1%nat)) (regs st)) st)).
Proof. intros Eo. rewrite step_pure by (by rewrite Eo). unfold inputs, outputs, op_oargs, op_iargs, op_sem. by rewrite Eo. Qed.

Definition new_movi : TCGOp := mk_op (op_movi W32) 0 0 (fun _ => 0).

Lemma fold_pair_eq inf o x y :
  let g := tcg_opt_gen_movi inf o (args o 0%nat) x in
  let g2 := tcg_opt_gen_movi g.1 new_movi (args o 1%nat) y in fold_pair inf o x y = Some (g2.1, [g2.2; g.2]).
Proof.
  unfold fold_pair. cbv zeta. fold new_movi. destruct (tcg_opt_gen_movi inf o (args o 0%nat) x) as [i1 o1]. cbn [fst snd].
  by destruct (tcg_opt_gen_movi i1 new_movi (args o 1%nat) y).
Qed.

Lemma step_gen_movi inf o t v (st : machine M) : mt o = Int W32 ->
  step s (tcg_opt_gen_movi inf o t v).2 st = Some (Next (with_regs (wr s t (u32 v) (regs st)) st)).
Proof. intros Hm. rewrite step_movi; [done|]. cbn. by rewrite Hm. Qed.

Lemma pair_replaces inf o x y out : folds_pair (opc o) = true -> ready s inf o ->
  (forall (st : machine M) outs, sound s inf (regs st) -> op_sem o (rd (regs st) <$> inputs o) = Some outs -> outs = [u32 x; u32 y]) ->
  fold_pair inf o (s64 32 x) (s64 32 y) = Some out -> replaces (M := M) s inf o out.
Proof.
  intros Hf (Ho & _ & Hc & _) Hz. rewrite fold_pair_eq. intros <-%(inj Some) st res Hs Hstep. set (rl := args o 0%nat) in *. set (rh := args o 1%nat) in *.
  assert (pure_op (opc o) = true /\ outputs o = [rl; rh] /\ (forall z, out_ok o z = bool_decide (z = TYPE_I32)) /\ rl <> rh /\ mt o = Int W32)
    as (Hp & Eo & Hok & Hne & Hm).
  { unfold outputs, op_oargs, out_ok, out_type, consts_ok in *. cbv zeta in Hc. fold rl rh in Hc.
    destruct (opc o); try discriminate; destruct w; try discriminate; split_and!; try done; by apply Z.eqb_neq, negb_true_iff. }
  rewrite Eo in Ho. destruct (Ho rl ltac:(left)) as [Dl Tl], (Ho rh ltac:(right; left)) as [Dh Th]. rewrite Hok in Tl, Th.
  apply bool_decide_eq_true in Tl, Th. rewrite step_pure in Hstep by done. destruct (op_sem o _) as [outs|] eqn:Es; [|done].
  rewrite (Hz st outs Hs Es), Eo in Hstep. injection Hstep as <-. cbn [fst snd].
  assert (forall v, u32 (s64 32 v) = u32 v) as Hu by (intros v; apply wrap_s64; lia).
  assert (forall r : gmap Z Z, forall t v, ty s t = TYPE_I32 -> regs_ok s r -> rd (wr s t (u32 v) r) t = const_value (ty s t) (s64 32 v)) as Hrd.
  { intros r t v Ht Hr. rewrite wr_rd, decide_True, Ht by done. cbn. by rewrite Hu, wrap_wrap by lia. }
  split.
  - cbn [run_block]. rewrite step_gen_movi by done. rewrite step_gen_movi by done. cbn [regs with_regs]. fold rl rh. rewrite !Hu. cbn [wr_list].
    unfold wr. rewrite (insert_insert_ne _ rl rh) by congruence. done.
  - intros st' [= <-]. cbn [regs with_regs wr_list]. fold rl rh. set (g := tcg_opt_gen_movi inf o rl (s64 32 x)).
    assert (sound s g.1 (wr s rl (u32 x) (regs st))) as H1.
    { apply (gen_movi_sound s inf (regs st)); try done; [by apply wr_ok, Hs|intros u Hur; by rewrite wr_rd, decide_False|by rewrite Hm, Tl|apply s64_range|
        intros _; apply s64_zero|by apply Hrd; [|apply Hs]]. }
    assert (rh ∈ dom g.1) as Dh' by (unfold g; rewrite movi_dom; [done|apply Hs|done]).
    apply (gen_movi_sound s g.1 (wr s rl (u32 x) (regs st))); try done; [apply wr_ok, wr_ok, Hs|intros u Hur; by rewrite wr_rd, decide_False|
        by rewrite Th|apply s64_range|intros _; apply s64_zero|by apply Hrd; [|apply wr_ok, Hs]].
Qed.

Lemma word64_pair inf l h : word64 inf l h = pair64 (arg_val inf l) (arg_val inf h).
Proof.
  unfold word64, pair64. pose proof (wrap_range 32 (arg_val inf l) ltac:(lia)) as Hl. pose proof (wrap_range 32 (arg_val inf h) ltac:(lia)) as Hh.
  rewrite (wrap_id 64) by (rewrite Z.shiftl_mul_pow2 by lia; unfold uint in *; lia). apply Z.bits_inj'. intros i Hi.
  rewrite join_spec, Z.lor_spec, Z.shiftl_spec by (done || lia). destruct (Z.ltb_spec i 32).
  - by rewrite (Z.testbit_neg_r _ (i - 32)) by lia.
  - rewrite (uint_high 32 (u32 (arg_val inf l)) i) by (done || lia). apply orb_false_r.
Qed.

(** The halves of a double word. *)
Lemma halves v : u32 (u64 v) = u32 v /\ u32 (Z.shiftr (u64 v) 32) = u32 (v / 2 ^ 32).
Proof.
  split; [apply wrap_le; lia|]. rewrite <- Z.shiftr_div_pow2 by lia. apply Z.bits_inj'. intros i Hi. bspec.
  destruct (Z.ltb_spec i 32), (Z.ltb_spec (i + 32) 64); try done; lia.
Qed.

Lemma u32_ext v x : u32 v = u32 x -> forall y, u32 (v + y) = u32 (x + y) /\ u32 (v * y) = u32 (x * y).
Proof. intros E y. rewrite <- (wrap_add_l 32 v), <- (wrap_mul_l 32 v), E, wrap_add_l, wrap_mul_l by lia. done. Qed.

Lemma pair_case inf o k out : folds_pair (opc o) = true -> ready s inf o -> k = output_mask o (known_zeros inf o).1 ->
  fold_op s inf o k = Some out -> replaces (M := M) s inf o out.
Proof.
  intros Hf Hr ->. assert (word_op (opc o) = false /\ opc o <> op_call) as [Hw Hnc] by (destruct (opc o); try discriminate; destruct w; done).
  pose proof (default_other (M := M) s inf o Hw Hnc Hr) as Hdef.
  assert (forall (st : machine M) t, sound s inf (regs st) -> t ∈ inputs o -> arg_is_const inf t = true -> u32 (arg_val inf t) = u32 (rd (regs st) t)) as Hv.
  { intros st t Hs Ht Hc. destruct Hr as (_ & Hi & _). destruct (Hi t Ht) as [Hd Hin].
    apply (temp_const s inf (regs st) W32); try done. split; [done|]. split; [|done]. revert Hin. unfold in_ok. destruct (opc o); try discriminate; by destruct w. }
  unfold fold_op. destruct (opc o) eqn:Eo; try discriminate; destruct w; try discriminate;
    (match goal with |- (if ?b then _ else _) = _ -> _ => destruct b eqn:Hc end; [|by intros [= <-]]); rewrite !andb_true_iff in Hc.
  1, 2: assert (inputs o = [args o 2%nat; args o 3%nat; args o 4%nat; args o 5%nat]) as Ei by (unfold inputs, op_oargs, op_iargs; by rewrite Eo);
    destruct Hc as [[[C2 C3] C4] C5].
  3: assert (inputs o = [args o 2%nat; args o 3%nat]) as Ei by (unfold inputs, op_oargs, op_iargs; by rewrite Eo); destruct Hc as [C2 C3].
  all: cbv zeta; apply pair_replaces; [by rewrite Eo|done|].
  all: intros st outs Hs; rewrite Ei; cbn [fmap list_fmap]; unfold op_sem, split_sem; rewrite Eo; cbv zeta; cbn [bits]; intros [= <-].
  all: rewrite (proj1 (halves _)), (proj2 (halves _)).
  all: rewrite ?word64_pair, <- ?(Hv st (args o 2%nat) Hs), <- ?(Hv st (args o 3%nat) Hs) by (rewrite ?Ei; first [done|left|right; left]).
  1, 2: rewrite <- (Hv st (args o 4%nat) Hs), <- (Hv st (args o 5%nat) Hs) by (rewrite ?Ei; first [done|do 2 right; left|do 3 right; left]).
  all: done.
Qed.

(** ** Moves and constants *)

Lemma mov_case inf o t out : opc o = op_mov t -> ready s inf o -> to_mov s inf o (args o 1%nat) = Some out -> replaces (M := M) s inf o out.
Proof.
  intros Eo Hr. destruct t as [w|].
  - apply mov_word; [by rewrite Eo|done|unfold inputs, op_oargs, op_iargs; rewrite Eo; by destruct w; left|by rewrite Eo; destruct w|].
    intros st z Hs. unfold inputs, op_oargs, op_iargs, op_sem. rewrite Eo. destruct w; cbn [tcg_op_defs def_t def_w nb_oargs nb_iargs seq fmap list_fmap];
      rewrite lift1_int; cbn [bits op_width tcg_op_defs def_t def_w opf_64bit is64]; unfold id; rewrite wrap_wrap by lia; by intros [= <-].
  - intros Hout. destruct Hr as (Ho & Hi & _ & Hv). unfold outputs, inputs, op_oargs, op_iargs in Ho, Hi. rewrite Eo in Ho, Hi, Hv. cbn in Ho, Hi, Hv.
    specialize (Hv eq_refl). destruct (Ho (args o 0%nat) ltac:(left)) as [D0 T0], (Hi (args o 1%nat) ltac:(left)) as [D1 T1].
    unfold out_ok, in_ok in T0, T1. rewrite Eo in T0, T1. cbn in T0, T1. apply bool_decide_eq_true in T0, T1.
    assert (out_type o = vec_type o) as Et by (unfold out_type; by rewrite Eo).
    destruct (mov_replaces (M := M) s inf o (args o 1%nat)) as (out' & E & Hrep); [..|rewrite E in Hout; by injection Hout as <-].
    + split; [by rewrite Eo|]. unfold op_oargs. by rewrite Eo.
    + by split; [|split].
    + done.
    + rewrite Eo, T1. cbn. unfold vec_type. by repeat case_match.
    + by rewrite Et.
    + intros st z Hs. unfold inputs, op_oargs, op_iargs, op_sem. rewrite Eo. cbn [tcg_op_defs def_t def_vec nb_oargs nb_iargs seq fmap list_fmap move_type opf_vector mov_value].
      pose proof (rd_range s (regs st) (args o 1%nat) ltac:(apply Hs) (dom_valid s _ _ _ Hs D1)) as R. rewrite T1 in R.
      rewrite lift1_id_vec by done. intros [= <-]. rewrite Et. by apply wrap_id.
Qed.

Lemma movi_case inf o w out : opc o = op_movi w -> ready s inf o -> to_movi inf o (args o 1%nat) = Some out -> replaces (M := M) s inf o out.
Proof.
  intros Eo Hr. pose proof Hr as (_ & _ & Hc & _). unfold consts_ok in Hc. rewrite Eo in Hc.
  assert (uint 64 (args o 1%nat) /\ (w = W32 -> u32 (args o 1%nat) = 0 -> args o 1%nat = 0)) as [Hu H0].
  { unfold uint. destruct w.
    - rewrite !andb_true_iff, orb_true_iff, negb_true_iff, Z.leb_le, Z.ltb_lt, Z.eqb_neq, Z.eqb_eq in Hc. split; [lia|]. intros _ E. lia.
    - rewrite andb_true_iff, Z.leb_le, Z.ltb_lt in Hc. done. }
  apply movi_word; [by rewrite Eo|done|done|rewrite Eo; by destruct w|].
  intros st z Hs. unfold inputs, op_oargs, op_iargs, op_sem. rewrite Eo. destruct w; by intros [= <-].
Qed.

(** Constants in vectors. *)
Lemma vec_const inf o v out : opc o = op_dupi_vec \/ opc o = op_dup_vec -> ready s inf o -> uint 64 v ->
  (forall (st : machine M) z, sound s inf (regs st) -> op_sem o (rd (regs st) <$> inputs o) = Some [z] -> z = repeat64 (vec_words o) v) ->
  to_movi inf o v = Some out -> replaces (M := M) s inf o out.
Proof.
  intros Eo (Ho & _ & _ & Hv) Hu Hz Hout.
  assert (one_output o /\ outputs o = [args o 0%nat] /\ (forall y, out_ok o y = bool_decide (y = out_type o)) /\ out_type o = vec_type o /\ vec_ok o = true) as (H1 & E1 & Hok & Et & Hvec).
  { unfold one_output, outputs, op_oargs, out_ok, out_type in *. destruct Eo as [E|E]; rewrite E in *; split_and!; try done; by apply Hv. }
  rewrite E1 in Ho. destruct (Ho _ ltac:(left)) as [D0 T0]. rewrite Hok in T0. apply bool_decide_eq_true in T0.
  destruct (movi_replaces (M := M) s inf o v H1) as (out' & E & Hrep); [by split; [|split]|done| | |rewrite E in Hout; by injection Hout as <-].
  - rewrite Et. unfold vec_type. by repeat case_match.
  - intros st z Hs Es. rewrite (Hz st z Hs Es), Et, <- const_vec by done. apply const_value_wrap.
Qed.

Lemma dupi_case inf o out : opc o = op_dupi_vec -> ready s inf o -> to_movi inf o (args o 1%nat) = Some out -> replaces (M := M) s inf o out.
Proof.
  intros Eo Hr. pose proof Hr as (_ & _ & Hc & _). unfold consts_ok in Hc. rewrite Eo, andb_true_iff, Z.leb_le, Z.ltb_lt in Hc.
  apply vec_const; [auto|done|done|]. intros st z Hs. unfold inputs, op_oargs, op_iargs, op_sem. rewrite Eo. by intros [= <-].
Qed.

Lemma vmap2_const_ext n e c c' x y : wrap e c = wrap e c' -> vmap2 n e (fun _ _ => c) x y = vmap2 n e (fun _ _ => c') x y.
Proof. intros E. revert x y. induction n as [|n IH]; intros x y; [done|]. cbn [vmap2]. by rewrite E, IH. Qed.

Lemma dup_const_range vece c : uint 64 c -> uint 64 (dup_const vece c).
Proof. intros Hc. unfold dup_const. repeat case_match; try (apply wrap_range; lia); [done|]. by vm_compute. Qed.

Lemma dup_case inf o out : opc o = op_dup_vec -> ready s inf o ->
  fold_or_default inf o (output_mask o (known_zeros inf o).1) (arg_is_const inf (args o 1%nat)) (Some (dup_const (TCGOP_VECE o) (arg_val inf (args o 1%nat)))) = Some out ->
  replaces (M := M) s inf o out.
Proof.
  intros Eo Hr. unfold fold_or_default. destruct (arg_is_const inf (args o 1%nat)) eqn:Hc; [|intros [= <-]; apply default_other; [by rewrite Eo|by rewrite Eo|done]].
  cbn [mbind option_bind]. intros Hout. apply replaces_intro. intros st0 res0 Hs0 _. revert Hout.
  pose proof Hr as (_ & Hi & _ & Hv). assert (vec_ok o = true) as Hvec by (apply Hv; by rewrite Eo).
  assert (inputs o = [args o 1%nat]) as Ei by (unfold inputs, op_oargs, op_iargs; by rewrite Eo). rewrite Ei in Hi. destruct (Hi _ ltac:(left)) as [D1 T1].
  unfold in_ok in T1. rewrite Eo in T1. apply andb_prop in T1 as [T1 Te]. apply Z.leb_le in Te. pose proof D1 as [i Hix]%elem_of_dom.
  unfold arg_is_const, arg_val in *. rewrite (ts_info_some _ _ _ Hix) in *. destruct (sound_facts s _ _ _ _ Hs0 Hix) as (Hu & _ & _ & _).
  apply vec_const; [auto|done|by apply dup_const_range|].
  intros st z Hs. rewrite Ei. unfold op_sem. rewrite Eo. cbn [fmap list_fmap]. intros [= <-]. rewrite <- (dup_const_ok o (val i) Hvec Hu).
  destruct (sound_facts s _ _ _ _ Hs Hix) as (_ & _ & _ & Hcv). destruct (Hcv Hc) as (Ex & _ & _). rewrite const_value_int in Ex by done.
  unfold lift1. apply vmap2_const_ext. rewrite Ex. apply wrap_le. destruct (lanes_fill o Hvec) as (He & _ & _). cbn [lanes snd] in *. lia.
Qed.

(** ** Calls *)

Lemma forget_dom inf ts : ring inf ->
  let inf' := foldl (fun inf t => match inf !! t with Some _ => reset_ts t inf | None => inf end) inf ts in dom inf' = dom inf.
Proof.
  revert inf. induction ts as [|t ts IH]; intros inf Hring; [done|]. cbn [foldl]. destruct (inf !! t) eqn:E; [|by apply IH].
  rewrite IH by (by apply (reset_ring inf Hring t t0)). apply reset_dom; [done|]. by apply elem_of_dom_2 in E.
Qed.

Lemma call_case inf o out : nb_globals s <= nb_temps s -> opc o = op_call -> ready s inf o ->
  fold_call s inf o (output_mask o (known_zeros inf o).1) = Some out -> replaces (M := M) s inf o out.
Proof.
  intros Hg Eo (Ho & _) [= <-] st res Hs Hstep. cbn [fst snd run_block]. rewrite Hstep. split; [by destruct res|]. intros st' ->.
  assert (output_mask o (known_zeros inf o).1 = Z.lor all_ones (not64 0xffffffff)) as -> by (unfold output_mask, known_zeros; by rewrite Eo).
  unfold step in Hstep. rewrite Eo in Hstep. cbv zeta in Hstep. destruct (helper _ _ _ _ _) as [[[outs g]|] m]; [|discriminate].
  destruct (decide _); [|discriminate]. injection Hstep as <-. cbn [regs].
  set (r1 := if call_keeps_globals o then regs st else set_globals s g (regs st)).
  assert (regs_ok s r1) as Hr1 by (unfold r1; destruct (call_keeps_globals o); [apply Hs|apply set_globals_ok, Hs]).
  set (inf1 := if call_keeps_globals o then inf else _).
  assert (sound s inf1 r1 /\ dom inf1 = dom inf) as [Hs1 Hd1].
  { unfold inf1, r1. destruct (call_keeps_globals o) eqn:Ek; [done|]. split; [|apply forget_dom, Hs].
    apply (forget_sound s _ _ (regs st)); [done|by apply set_globals_ok, Hs| |intros u Hu; by apply set_globals_rd].
    apply Forall_forall. intros t Ht. apply elem_of_seqZ in Ht. unfold valid. apply andb_true_intro. rewrite !Z.leb_le. lia. }
  pose proof (wr_list_ok s (outputs o) outs r1 Hr1) as Hr2.
  apply (reset_outputs_sound s _ _ _ r1); [done|intros t Ht; rewrite Hd1; by apply Ho|done|intros u Hu; by apply wr_list_rd|by vm_compute|].
  intros Hint Hn. apply within_lor, full_ones. apply (rd_int s); try done. apply (dom_valid s inf (regs st)); [done|]. apply Ho. unfold outputs.
  destruct (op_oargs o); [done|]. left.
Qed.

(** ** The whole switch *)

Lemma fold_op_ok inf o out : nb_globals s <= nb_temps s -> ready s inf o ->
  (low_word (opc o) (known_zeros inf o).1 =? 0) = false ->
  fold_op s inf o (output_mask o (known_zeros inf o).1) = Some out -> replaces (M := M) s inf o out.
Proof.
  intros Hg Hr Hnz Hout. destruct (folds_pair (opc o)) eqn:Hp; [by apply (pair_case inf o _ out Hp Hr eq_refl)|]. revert Hout.
  destruct (folds1 (opc o)) eqn:H1.
  { intros Hout. apply (fold1_case s inf o Hr out H1). rewrite <- Hout. unfold fold_op. destruct (opc o); try discriminate;
      repeat match goal with t : op_type |- _ => destruct t as [?|]; try discriminate end; done. }
  destruct (folds2 (opc o)) eqn:H2.
  { intros Hout. apply (fold2_case s inf o Hr out H2). rewrite <- Hout. unfold fold_op. destruct (opc o); try discriminate;
      repeat match goal with t : op_type |- _ => destruct t as [?|]; try discriminate end; done. }
  destruct (counts_zeros (opc o)) eqn:H3.
  { intros Hout. apply (count_case s inf o Hr out H3). rewrite <- Hout. unfold fold_op. destruct (opc o); try discriminate; done. }
  unfold fold_op. cbv zeta. destruct (opc o) eqn:Eo; try discriminate;
    repeat match goal with t : op_type |- _ => destruct t as [?|]; try discriminate end;
    try (intros [= <-]; apply default_other; [by rewrite Eo|by rewrite Eo|done]);
    try (match goal with w : width |- _ => destruct w; try discriminate; intros [= <-]; apply default_other; [by rewrite Eo|by rewrite Eo|done] end).
  - by apply call_case.
  - by apply (mov_case _ _ (Int w)).
  - by apply (mov_case _ _ Vec).
  - by apply (movi_case _ _ w).
  - by apply dupi_case.
  - by apply dup_case.
  - intros Hout. apply (setcond_case s inf o w); [done|done|]. by rewrite Eo.
  - by apply (movcond_case inf o w).
  - by apply (brcond_case s inf o w).
  - by apply (brcond2_case s inf o).
  - by apply (setcond2_case s inf o).
  - apply (deposit_case s inf o Hr w); [done|by rewrite Eo].
  - by apply (extract_case s inf o Hr w).
  - by apply (sextract_case s inf o Hr w).
  - by apply (extract2_case s inf o Hr w).
Qed.
End switch.
