(* ===== verification/TcgCorrect.v ===== *)
(** * The optimizer is correct

    One operation: the passes over it replace it.  The loop without the merging
    of barriers keeps every run, jumps included, since nothing is known after a
    label.  Merging barriers keeps every run, since only accesses to guest
    memory and calls see them. *)

From S2P Require Import Prelude BitOps HostUtils TcgOps TcgSem TcgOptimize TcgValues TcgFields TcgMasks TcgCopies TcgPhases TcgInputs TcgSimplify TcgFold TcgBranch TcgSwitch.

Section correct.
Context {M : Type} `{!TcgEnv M} (s : TCGContext) (Hglobals : nb_globals s <= nb_temps s).

(** ** One operation *)

Lemma simplify_op_ok inf op inf' ops skip (st : machine M) res :
  wf_op s op = true -> simplify_op s inf op = Some (inf', ops, skip) -> sound s inf (regs st) -> step s op st = Some res ->
  run_block s ops st = Some res /\ forall st', res = Next st' -> sound s inf' (regs st').
Proof.
  intros Hwf Hout Hs Hstep. destruct (init_args_ok s inf (regs st) op Hs Hwf) as [Hs1 Hr1]. unfold simplify_op in Hout. cbv zeta in Hout.
  set (inf1 := init_args inf op) in *. destruct (copy_propagation_ok s inf1 op st Hs1 Hr1) as [Hr2 E2]. set (op2 := copy_propagation s inf1 op) in *.
  destruct (canonicalize_ok s inf1 op2 (M := M)) as (Hr3 & _ & E3). specialize (Hr3 Hr2). specialize (E3 st ltac:(apply Hr2)). set (op3 := canonicalize inf1 op2) in *.
  assert (forall out, replaces s inf1 op3 out -> run_block s out.2 st = Some res /\ forall st', res = Next st' -> sound s out.1 (regs st')) as Hrep.
  { intros out H. apply H; [done|]. by rewrite E3, E2. }
  rewrite (surjective_pairing (known_zeros inf1 op3)) in Hout.
  destruct (simplify_first s inf1 op3) as [[i1 o1]|] eqn:P1.
  { injection Hout as <- <- <-. by apply (Hrep (i1, o1)), simplify_first_ok. }
  destruct (simplify_neutral s inf1 op3) as [[i1 o1]|] eqn:P2.
  { injection Hout as <- <- <-. by apply (Hrep (i1, o1)), simplify_neutral_ok. }
  destruct (simplify_zeros s inf1 op3 _ _) as [[i1 o1]|] eqn:P3.
  { injection Hout as <- <- <-. apply (Hrep (i1, o1)). destruct (word_op (opc op3)) eqn:Hw; [by apply simplify_zeros_ok|]. by rewrite zeros_other in P3. }
  destruct (simplify_last s inf1 op3) as [[i1 o1]|] eqn:P4.
  { injection Hout as <- <- <-. by apply (Hrep (i1, o1)), simplify_last_ok. }
  destruct (fold_op s inf1 op3 _) as [[i1 o1]|] eqn:P5; [|discriminate]. injection Hout as <- <- <-.
  apply (Hrep (i1, o1)), fold_op_ok; try done. unfold simplify_zeros in P3. cbv zeta in P3. unfold low_word.
  destruct (opf_64bit _); destruct (_ =? 0); done.
Qed.

(** ** Nothing aborts *)

Lemma folding_total c x y : folds1 c || folds2 c || counts_zeros c = true -> exists t, do_constant_folding c x y = Some t.
Proof.
  intros H. unfold do_constant_folding. destruct c; try discriminate;
    repeat match goal with t : op_type |- _ => destruct t as [?|]; try discriminate | w : width |- _ => destruct w end; by eexists.
Qed.

Lemma to_movi_total inf op v : exists out, to_movi inf op v = Some out.
Proof. unfold to_movi. destruct (tcg_opt_gen_movi inf op (args op 0%nat) v). by eexists. Qed.

Lemma fold_or_default_total inf op k b r : (b = true -> exists v, r = Some v) -> exists out, fold_or_default inf op k b r = Some out.
Proof.
  intros H. unfold fold_or_default. destruct b; [|by eexists]. destruct (H eq_refl) as [v ->]. cbn. apply to_movi_total.
Qed.

Lemma cond2_total inf al ah bl bh c : cond_valid c = true -> exists res, do_constant_folding_cond2 inf al ah bl bh c = Some res.
Proof.
  intros Hc. unfold do_constant_folding_cond2. cbv zeta. rewrite (fold_cond_eq_ok 64 c 0) by done. destruct (eval_cond_total 64 c 0 0 Hc) as [b ->].
  assert (exists r : option bool, (if ts_are_copies inf al bl && ts_are_copies inf ah bh then Some <$> Some b else Some None) = Some r) as [r ->] by (destruct (_ && _); by eexists).
  destruct (arg_is_const inf bl && arg_is_const inf bh); [|by eexists]. destruct (arg_is_const inf al && arg_is_const inf ah).
  - match goal with |- context [do_constant_folding_cond_n 64 ?x ?y c] => rewrite (fold_cond_n_ok 64 x y x y) by (done || lia); destruct (eval_cond_total 64 c x y Hc) as [b' ->] end.
    by eexists.
  - destruct (_ && (_ || _)); by eexists.
Qed.

(** Conditions of the operation are known ones, so folding one gives a result. *)
Ltac total_conds :=
  repeat match goal with
    | |- context [do_constant_folding_cond ?i ?o ?x ?y ?c] => destruct (fold_cond_total i o x y c ltac:(done)) as [[[]|] ->]; cbn [mbind option_bind]
    | |- exists _, (if ?b then _ else _) = _ => destruct b
    | |- exists _, to_movi ?i ?o ?v = _ => apply to_movi_total
    | |- exists _, Some _ = _ => by eexists end.

Lemma fold_op_total inf op k : consts_ok op = true -> exists out, fold_op s inf op k = Some out.
Proof.
  intros Hc. unfold consts_ok in Hc. cbv zeta in Hc. unfold fold_op, to_mov, fold_pair. cbv zeta.
  destruct (opc op) eqn:Eo; repeat match goal with t : op_type |- _ => destruct t as [?|] end; try (by eexists); try apply to_movi_total;
    try (apply fold_or_default_total; intros _; first [by eexists|by apply folding_total]).
  all: try (destruct w; try (by eexists); total_conds; repeat case_match; by eexists).
  - unfold fold_movcond, to_mov. cbv zeta. total_conds.
  - unfold fold_brcond. cbv zeta. total_conds.
  - unfold fold_brcond2. cbv zeta. destruct (cond2_total inf (args op 0%nat) (args op 1%nat) (args op 2%nat) (args op 3%nat) _ Hc) as [[[]|] ->];
      cbn [mbind option_bind]; total_conds.
  - unfold fold_setcond2. cbv zeta. destruct (cond2_total inf (args op 1%nat) (args op 2%nat) (args op 3%nat) (args op 4%nat) _ Hc) as [[[]|] ->];
      cbn [mbind option_bind]; total_conds.
Qed.

Lemma simplify_op_total inf op : wf_op s op = true -> exists out, simplify_op s inf op = Some out.
Proof.
  intros Hwf. destruct (wf_op_spec s op Hwf) as (_ & _ & Hc & _). unfold simplify_op. cbv zeta. set (inf1 := init_args inf op).
  assert (consts_ok (canonicalize inf1 (copy_propagation s inf1 op)) = true) as Hc'.
  { apply (canonicalize_ok s inf1 (M := M)). rewrite <- (consts_ok_alike op); [done|]. apply copy_alike. }
  set (op3 := canonicalize _ _) in *. destruct (known_zeros inf1 op3) as [k affected].
  destruct (simplify_first _ _ _) as [[]|]; [by eexists|]. destruct (simplify_neutral _ _ _) as [[]|]; [by eexists|].
  destruct (simplify_zeros _ _ _ _ _) as [[]|]; [by eexists|]. destruct (simplify_last _ _ _) as [[]|]; [by eexists|].
  destruct (fold_op_total inf1 op3 (output_mask op3 k) Hc') as [[i o] ->]. by eexists.
Qed.

(** ** What an operation is replaced by *)

Lemma canonicalize_opc inf op : opc (canonicalize inf op) = opc op.
Proof.
  unfold canonicalize, swap_commutative, swap_commutative2. cbv zeta. destruct (opc op) eqn:Eo; try done;
    repeat match goal with |- context [if ?b then (_, _) else (_, _)] => destruct b end; done.
Qed.


(** Replacements are the operation itself, operations that only compute, or
    branches for a conditional branch. *)
Definition shaped (c : TCGOpcode) (o : TCGOp) : Prop :=
  opc o = c \/ pure_op (opc o) = true \/ (branches c = true /\ (opc o = op_br \/ opc o = op_brcond W32)).

Lemma movi_shape inf o v out c : to_movi inf o v = Some out -> Forall (shaped c) out.2.
Proof.
  unfold to_movi, tcg_opt_gen_movi. intros [= <-]. apply Forall_singleton. right. left. cbn. by destruct (move_type _).
Qed.

Lemma mov_shape inf o src out c : to_mov s inf o src = Some out -> Forall (shaped c) out.2.
Proof.
  unfold to_mov, tcg_opt_gen_mov. intros [= <-]. destruct (ts_are_copies _ _ _); [constructor|]. case_decide; apply Forall_singleton; right; by left.
Qed.

Lemma unary_shape inf o c i out c' : to_unary inf o c i = Some out -> pure_op c = true -> Forall (shaped c') out.2.
Proof. intros [= <-] Hp. apply Forall_singleton. right. by left. Qed.

Lemma same_shape (i : temp_infos) o c out : Some (i, [o]) = Some out -> opc o = c -> Forall (shaped c) out.2.
Proof. intros [= <-] E. apply Forall_singleton. by left. Qed.

(** The phases before the last only touch operations that compute. *)
Lemma first_shape inf o out : simplify_first s inf o = Some out -> Forall (shaped (opc o)) out.2 /\ pure_op (opc o) = true.
Proof.
  unfold simplify_first, try_not. cbv zeta. destruct (opc o) eqn:Eo; try discriminate; repeat case_match; try discriminate; intros Hout; (split; [|done]);
    first [by eapply movi_shape|by eapply unary_shape].
Qed.

Lemma neutral_shape inf o out : simplify_neutral s inf o = Some out -> Forall (shaped (opc o)) out.2 /\ pure_op (opc o) = true.
Proof.
  unfold simplify_neutral. cbv zeta. destruct (opc o) eqn:Eo; try discriminate; repeat case_match; try discriminate; intros Hout; (split; [|done]); by eapply mov_shape.
Qed.

Lemma last_shape inf o out : simplify_last s inf o = Some out -> Forall (shaped (opc o)) out.2 /\ pure_op (opc o) = true.
Proof.
  unfold simplify_last. cbv zeta. destruct (opc o) eqn:Eo; try discriminate; repeat case_match; try discriminate; intros Hout; (split; [|done]);
    first [by eapply mov_shape|by eapply movi_shape].
Qed.

Lemma zeros_shape inf o out : simplify_zeros s inf o (known_zeros inf o).1 (known_zeros inf o).2 = Some out ->
  Forall (shaped (opc o)) out.2 /\ pure_op (opc o) = true.
Proof.
  intros H. destruct (word_op (opc o)) eqn:Hw; [|by rewrite zeros_other in H]. split; [|by destruct (opc o)].
  unfold simplify_zeros in H. cbv zeta in H. repeat case_match; try discriminate; first [by eapply mov_shape|by eapply movi_shape].
Qed.

Lemma pair_shape inf o x y out c : fold_pair inf o x y = Some out -> Forall (shaped c) out.2.
Proof.
  rewrite fold_pair_eq. intros <-%(inj Some). cbn [snd]. apply Forall_cons. split; [|apply Forall_singleton]; right; left; cbn; [done|by destruct (move_type _)].
Qed.

Lemma branch_shape (i : temp_infos) o c out : Some (i, [o]) = Some out -> branches c = true -> opc o = op_br \/ opc o = op_brcond W32 -> Forall (shaped c) out.2.
Proof. intros [= <-] Hb Ho. apply Forall_singleton. by right; right. Qed.

Lemma pure_shape (i : temp_infos) o c out : Some (i, [o]) = Some out -> pure_op (opc o) = true -> Forall (shaped c) out.2.
Proof. intros [= <-] Ho. apply Forall_singleton. by right; left. Qed.

Lemma nil_shape (i : temp_infos) c out : Some (i, []) = Some out -> Forall (shaped c) out.2.
Proof. by intros [= <-]. Qed.

Ltac shape Eo :=
  let H := fresh in intros H;
  lazymatch type of H with
  | to_mov _ _ _ _ = _ => exact (mov_shape _ _ _ _ _ H)
  | to_movi _ _ _ = _ => exact (movi_shape _ _ _ _ _ H)
  | fold_pair _ _ _ _ = _ => exact (pair_shape _ _ _ _ _ _ H)
  | Some (_, []) = _ => exact (nil_shape _ _ _ H)
  | Some (_, [with_opc (op_setcond _) _]) = _ => exact (pure_shape _ _ _ _ H eq_refl)
  | Some (_, [with_arg _ _ ?o]) = _ =>
    first [exact (pure_shape _ _ _ _ H eq_refl)|apply (branch_shape _ _ _ _ H); [reflexivity|first [left; reflexivity|right; reflexivity]]]
  | Some (_, [_]) = _ => exact (same_shape _ _ _ _ H Eo)
  end.

Lemma fold_shape inf o k out : fold_op s inf o k = Some out -> Forall (shaped (opc o)) out.2.
Proof.
  unfold fold_op, fold_or_default, fold_movcond, fold_brcond, fold_brcond2, fold_setcond2, fold_call. cbv zeta.
  destruct (opc o) eqn:Eo; try (shape Eo; fail);
    repeat match goal with
      | |- mbind _ ?e = _ -> _ => destruct e as [?|]; cbn [mbind option_bind]; [|discriminate]
      | |- (if ?b then _ else _) = _ -> _ => destruct b
      | |- match ?e with _ => _ end = _ -> _ => destruct e end; shape Eo.
Qed.

Lemma simplify_shape inf op inf' ops skip : simplify_op s inf op = Some (inf', ops, skip) ->
  Forall (shaped (opc op)) ops /\ (skip = true -> pure_op (opc op) = true).
Proof.
  unfold simplify_op. cbv zeta. set (inf1 := init_args inf op). set (op3 := canonicalize _ _).
  assert (opc op3 = opc op) as E.
  { unfold op3. destruct (copy_alike s inf1 op) as [(E & _) _]. by rewrite canonicalize_opc. }
  rewrite (surjective_pairing (known_zeros inf1 op3)), <- E.
  destruct (simplify_first s inf1 op3) as [[i1 o1]|] eqn:P1; [intros [= <- <- <-]; by destruct (first_shape _ _ _ P1)|].
  destruct (simplify_neutral s inf1 op3) as [[i1 o1]|] eqn:P2; [intros [= <- <- <-]; by destruct (neutral_shape _ _ _ P2)|].
  destruct (simplify_zeros s inf1 op3 _ _) as [[i1 o1]|] eqn:P3; [intros [= <- <- <-]; by destruct (zeros_shape _ _ _ P3)|].
  destruct (simplify_last s inf1 op3) as [[i1 o1]|] eqn:P4; [intros [= <- <- <-]; by destruct (last_shape _ _ _ P4)|].
  destruct (fold_op s inf1 op3 _) as [[i1 o1]|] eqn:P5; [|discriminate]. intros [= <- <- <-]. by apply fold_shape in P5.
Qed.
End correct.
