(* ===== verification/TcgRuns.v ===== *)
(** * Runs of optimized operations

    The loop over the operations, first without and then with the merging of
    memory barriers, keeps every run of a translation block. *)

From S2P Require Import Prelude BitOps HostUtils TcgOps TcgSem TcgOptimize TcgValues TcgFields TcgMasks TcgCopies TcgPhases TcgInputs TcgSimplify TcgFold TcgBranch TcgSwitch TcgCorrect.

(** ** Operations that no barrier is seen by *)

(** Opcodes that neither touch guest memory nor are a barrier nor end a block. *)
Definition quiet (c : TCGOpcode) : bool := negb (ends_fence c) && negb (bool_decide (c = op_mb)).

Section runs.
Context {M : Type} `{!TcgEnv M} (s : TCGContext) (Hglobals : nb_globals s <= nb_temps s).

(** ** Without barriers *)

(** The operations as they are replaced one by one. *)
Fixpoint opt_ops (inf : temp_infos) (ops : list TCGOp) : option (list TCGOp) :=
  match ops with
  | [] => Some []
  | op :: ops => '(inf, o, _) ← simplify_op s inf op; rest ← opt_ops inf ops; Some (o ++ rest)
  end.

Lemma opt_ops_cons inf op ops out : opt_ops inf (op :: ops) = Some out ->
  exists inf' o skip rest, simplify_op s inf op = Some (inf', o, skip) /\ opt_ops inf' ops = Some rest /\ out = o ++ rest.
Proof.
  cbn [opt_ops]. destruct (simplify_op s inf op) as [[[inf' o] skip]|]; [|done]. cbn [mbind option_bind].
  destruct (opt_ops inf' ops) as [rest|] eqn:E; [|done]. intros [= <-]. by exists inf', o, skip, rest.
Qed.

Lemma opt_ops_total inf ops : Forall (fun o => wf_op s o = true) ops -> exists out, opt_ops inf ops = Some out.
Proof.
  intros H. revert inf. induction H as [|op ops Hw _ IH]; intros inf; [by eexists|]. cbn [opt_ops].
  destruct (simplify_op_total (M := M) s inf op Hw) as [[[inf' o] skip] ->]. cbn [mbind option_bind]. destruct (IH inf') as [rest ->]. by eexists.
Qed.

Lemma run_block_app a b (st : machine M) :
  run_block s (a ++ b) st = match run_block s a st with Some (Next st') => run_block s b st' | r => r end.
Proof.
  revert st. induction a as [|o a IH]; intros st; [done|]. cbn [app run_block]. by destruct (step s o st) as [[]|].
Qed.

Lemma sim_block ops : Forall (fun o => wf_op s o = true) ops -> forall inf out (st : machine M) res,
  opt_ops inf ops = Some out -> sound s inf (regs st) -> run_block s ops st = Some res ->
  run_block s out st = Some res /\ regs_ok s (regs (res_state res)).
Proof.
  induction 1 as [|op ops Hw _ IH]; intros inf out st res Hout Hs.
  - injection Hout as <-. intros [= <-]. split; [done|apply Hs].
  - apply opt_ops_cons in Hout as (inf' & o & skip & rest & E1 & E2 & ->). cbn [run_block]. destruct (step s op st) as [r|] eqn:Estep; [|done]. intros Hrun.
    destruct (simplify_op_ok s Hglobals inf op inf' o skip st r Hw E1 Hs Estep) as [Eo Hs'].
    destruct (step_regs s op st r ltac:(apply Hs) Estep) as [Hr' _]. rewrite run_block_app, Eo. destruct r as [st'|l st'|e st'].
    + apply (IH inf'); [done|by apply Hs'|done].
    + injection Hrun as <-. done.
    + injection Hrun as <-. done.
Qed.

(** A label is kept, and nothing is known after it. *)
Lemma label_simplified inf op : opc op = op_set_label -> simplify_op s inf op = Some (∅, [op], false).
Proof.
  intros Eo. unfold simplify_op, init_args, copy_propagation, op_oargs, op_iargs. rewrite Eo. cbn [tcg_op_defs nb_oargs nb_iargs plus seq foldl].
  unfold canonicalize. rewrite Eo. unfold simplify_first, simplify_neutral, simplify_last, simplify_zeros, known_zeros, fold_op, do_default. by rewrite Eo.
Qed.

Lemma shaped_label c o : shaped c o -> c <> op_set_label -> opc o <> op_set_label.
Proof. intros [-> |[H|[_ [-> | ->]]]] Hc; try done. by intros E; rewrite E in H. Qed.

Lemma find_label_skip l a b : Forall (fun o => opc o <> op_set_label) a -> find_label l (a ++ b) = find_label l b.
Proof.
  induction 1 as [|o a Ho _ IH]; [done|]. cbn [app find_label]. by rewrite bool_decide_eq_false_2.
Qed.

Lemma sim_label l ops : forall inf out ops', opt_ops inf ops = Some out -> find_label l ops = Some ops' ->
  exists out', opt_ops ∅ ops' = Some out' /\ find_label l out = Some out'.
Proof.
  induction ops as [|op ops IH]; intros inf out ops' Hout Hl; [done|].
  apply opt_ops_cons in Hout as (inf' & o & skip & rest & E1 & E2 & ->). cbn [find_label] in Hl.
  destruct (decide (opc op = op_set_label)) as [Eo|Eo].
  - rewrite label_simplified in E1 by done. injection E1 as <- <- <-. cbn [app find_label]. destruct (_ && _).
    + injection Hl as <-. by exists rest.
    + by apply (IH ∅).
  - rewrite bool_decide_eq_false_2 in Hl by done. cbn [andb] in Hl. destruct (simplify_shape s _ _ _ _ _ E1) as [Hsh _].
    rewrite find_label_skip; [by apply (IH inf')|]. eapply Forall_impl; [exact Hsh|]. intros x Hx. by apply (shaped_label (opc op)).
Qed.

Lemma find_label_wf l ops ops' : Forall (fun o => wf_op s o = true) ops -> find_label l ops = Some ops' -> Forall (fun o => wf_op s o = true) ops'.
Proof.
  induction 1 as [|op ops _ Hw IH]; [done|]. cbn [find_label]. destruct (_ && _); [by intros [= <-]|done].
Qed.

Lemma sim_run prog pout : Forall (fun o => wf_op s o = true) prog -> opt_ops ∅ prog = Some pout ->
  forall fuel ops inf out (st : machine M) res, Forall (fun o => wf_op s o = true) ops -> opt_ops inf ops = Some out -> sound s inf (regs st) ->
  run s fuel prog ops st = Some res -> run s fuel pout out st = Some res.
Proof.
  intros Hwp Hp. induction fuel as [|fuel IH]; intros ops inf out st res Hw Hout Hs; cbn [run];
    (destruct (run_block s ops st) as [r|] eqn:Eb; [|done]); destruct (sim_block ops Hw inf out st r Hout Hs Eb) as [-> Hr'];
    destruct r as [st'|l st'|e st']; try done.
  destruct (find_label l prog) as [ops'|] eqn:El; [|done]. cbn [mbind option_bind]. destruct (sim_label l prog ∅ pout ops' Hp El) as (out' & E1 & ->).
  cbn [mbind option_bind]. apply (IH ops' ∅ out'); [by apply (find_label_wf l prog)|done|by apply sound_empty].
Qed.

(** ** Merging barriers *)

(** A quiet operation goes on, and neither uses nor changes the barriers. *)
Lemma quiet_step o r b b' (m : M) : quiet (opc o) = true ->
  match step s o (mk_machine r b m) with
  | Some (Next st) => barrier st = b /\ step s o (mk_machine r b' m) = Some (Next (mk_machine (regs st) b' (memory st)))
  | None => step s o (mk_machine r b' m) = None
  | _ => False
  end.
Proof.
  intros Hq. destruct (pure_op (opc o)) eqn:Hp.
  - rewrite !step_pure by done. cbn [regs]. by destruct (op_sem o _).
  - unfold step. cbv zeta. cbn [regs memory barrier]. destruct (opc o) eqn:Eo; try discriminate; try done;
      try (destruct w; done); try (destruct (opaque_sem _ _ _ _ _ _) as [[outs m']|]; [|done]; cbn [mbind option_bind]; by destruct (decide _)).
Qed.

(** [merged b u v]: [v] is [u] with barriers merged, and has already issued the
    barriers [b] that [u] will issue before any operation can tell. *)
Inductive merged : Z -> list TCGOp -> list TCGOp -> Prop :=
| merged_nil : merged 0 [] []
| merged_drop b mb u v : opc mb = op_mb -> merged b u v -> merged (Z.lor (args mb 0%nat) b) (mb :: u) v
| merged_mb b b' mb mb' u v : opc mb = op_mb -> opc mb' = op_mb -> merged b' u v -> Z.lor b (args mb' 0%nat) = Z.lor (args mb 0%nat) b' -> merged b (mb :: u) (mb' :: v)
| merged_quiet b o u v : quiet (opc o) = true -> merged b u v -> merged b (o :: u) (o :: v)
| merged_op o u v : merged 0 u v -> merged 0 (o :: u) (o :: v).

Lemma merged_block b u v : merged b u v -> forall r c (m : M), run_block s v (mk_machine r (Z.lor c b) m) = run_block s u (mk_machine r c m).
Proof.
  induction 1 as [|b mb u v Em _ IH|b b' mb mb' u v Em Em' _ IH Eb|b o u v Hq _ IH|o u v _ IH]; intros r c m.
  - by rewrite Z.lor_0_r.
  - cbn [run_block]. assert (step s mb (mk_machine r c m) = Some (Next (mk_machine r (Z.lor c (args mb 0%nat)) m))) as -> by (unfold step; by rewrite Em).
    by rewrite <- IH, Z.lor_assoc.
  - cbn [run_block]. assert (forall d, step s mb (mk_machine r d m) = Some (Next (mk_machine r (Z.lor d (args mb 0%nat)) m))) as -> by (intros d; unfold step; by rewrite Em).
    assert (forall d, step s mb' (mk_machine r d m) = Some (Next (mk_machine r (Z.lor d (args mb' 0%nat)) m))) as -> by (intros d; unfold step; by rewrite Em').
    by rewrite <- IH, <- !Z.lor_assoc, Eb.
  - cbn [run_block]. pose proof (quiet_step o r c (Z.lor c b) m Hq) as H. destruct (step s o (mk_machine r c m)) as [[st|l st|e st]|]; try done; [|by rewrite H].
    destruct H as [Hb ->]. rewrite IH. destruct st as [r' c' m']. cbn in Hb. by subst.
  - rewrite Z.lor_0_r. cbn [run_block]. destruct (step s o (mk_machine r c m)) as [[[r' c' m']|l st|e st]|]; try done.
    rewrite <- (IH r' c' m'), Z.lor_0_r. done.
Qed.

Lemma merged_label l b u v : merged b u v -> forall u', find_label l u = Some u' -> exists v', find_label l v = Some v' /\ merged 0 u' v'.
Proof.
  induction 1 as [|b mb u v Em _ IH|b b' mb mb' u v Em Em' _ IH Eb|b o u v Hq _ IH|o u v Hm IH]; intros u'; cbn [find_label]; [done|..].
  - rewrite bool_decide_eq_false_2 by (by rewrite Em). apply IH.
  - rewrite !bool_decide_eq_false_2 by (by rewrite ?Em, ?Em'). apply IH.
  - destruct (decide (opc o = op_set_label)) as [E|E]; [by rewrite E in Hq|]. rewrite bool_decide_eq_false_2 by done. apply IH.
  - destruct (_ && _); [|by apply IH]. intros [= <-]. by exists v.
Qed.

Lemma merged_run U V : merged 0 U V -> forall fuel u v (st : machine M) res, merged 0 u v -> run s fuel U u st = Some res -> run s fuel V v st = Some res.
Proof.
  intros HM. induction fuel as [|fuel IH]; intros u v [r c m] res Hm; cbn [run]; rewrite <- (merged_block 0 u v Hm), Z.lor_0_r;
    destruct (run_block s v (mk_machine r c m)) as [[st'|l st'|e st']|]; try done.
  destruct (find_label l U) as [u'|] eqn:E; [|done]. destruct (merged_label l 0 U V HM u' E) as (v' & -> & Hm'). cbn [mbind option_bind]. by apply IH.
Qed.

Lemma merged_prefix b l u v : Forall (fun o => quiet (opc o) = true) l -> merged b u v -> merged b (l ++ u) (l ++ v).
Proof. induction 1 as [|o l Hq _ IH]; intros Hm; [done|]. by apply merged_quiet, IH. Qed.

Lemma merged_prefix0 l u v : merged 0 u v -> merged 0 (l ++ u) (l ++ v).
Proof. intros Hm. induction l as [|o l IH]; [done|]. by apply merged_op. Qed.

(** ** The loop *)

(** The operations [u] as they are replaced, and the list [out] that the loop
    has built from them; a barrier at [p] may still get more bits. *)
Definition built (u out : list TCGOp) (p : option nat) : Prop :=
  match p with
  | None => forall u2 v2, merged 0 u2 v2 -> merged 0 (u ++ u2) (out ++ v2)
  | Some p => exists mb, out !! p = Some mb /\ opc mb = op_mb /\
      forall mb' b u2 v2, opc mb' = op_mb -> args mb' 0%nat = Z.lor (args mb 0%nat) b -> merged b u2 v2 -> merged 0 (u ++ u2) (<[p := mb']> out ++ v2)
  end.

Lemma built_merged u out p : built u out p -> merged 0 u out.
Proof.
  destruct p as [p|]; cbn [built].
  - intros (mb & Hp & Em & H). specialize (H mb 0 [] [] Em (eq_sym (Z.lor_0_r _)) merged_nil). by rewrite !app_nil_r, list_insert_id in H.
  - intros H. specialize (H [] [] merged_nil). by rewrite !app_nil_r in H.
Qed.

(** Operations after which the barrier is closed, or that it may pass. *)
Lemma built_close u out p ops : built u out p -> built (u ++ ops) (out ++ ops) None.
Proof.
  intros H u2 v2 Hm. rewrite <- !app_assoc. destruct p as [p|]; cbn [built] in H.
  - destruct H as (mb & Hp & Em & H). specialize (H mb 0 (ops ++ u2) (ops ++ v2) Em (eq_sym (Z.lor_0_r _))). rewrite list_insert_id in H by done.
    by apply H, merged_prefix0.
  - by apply H, merged_prefix0.
Qed.

Lemma built_quiet u out p ops : Forall (fun o => quiet (opc o) = true) ops -> built u out p -> built (u ++ ops) (out ++ ops) p.
Proof.
  intros Hq H. destruct p as [p|]; [|by apply (built_close u out None)]. destruct H as (mb & Hp & Em & H). exists mb.
  pose proof (lookup_lt_Some _ _ _ Hp) as Hlt. split; [by rewrite lookup_app_l|]. split; [done|]. intros mb' b u2 v2 Em' Ea Hm.
  rewrite insert_app_l, <- !app_assoc by done. apply (H mb' b); [done|done|]. by apply merged_prefix.
Qed.

Lemma built_mb u out op : opc op = op_mb -> built u out None -> built (u ++ [op]) (out ++ [op]) (Some (length out)).
Proof.
  intros Eo H. exists op. split; [apply list_lookup_middle; done|]. split; [done|]. intros mb' b u2 v2 Em' Ea Hm.
  rewrite insert_app_r_alt, Nat.sub_diag, <- !app_assoc by lia. apply H. cbn [app insert list_insert]. apply (merged_mb 0 b); [done|done|done|]. by rewrite Z.lor_0_l.
Qed.

Lemma built_merge u out p op : opc op = op_mb -> built u out (Some p) ->
  built (u ++ [op]) (alter (fun mb => with_arg 0 (Z.lor (args mb 0%nat) (args op 0%nat)) mb) p out) (Some p).
Proof.
  intros Eo (mb & Hp & Em & H). set (mb1 := with_arg 0 (Z.lor (args mb 0%nat) (args op 0%nat)) mb). exists mb1.
  split; [by rewrite list_lookup_alter_eq, Hp|]. split; [done|]. intros mb' b u2 v2 Em' Ea Hm. rewrite <- app_assoc.
  assert (<[p := mb']> (alter (fun mb => with_arg 0 (Z.lor (args mb 0%nat) (args op 0%nat)) mb) p out) = <[p := mb']> out) as ->.
  { apply list_eq. intros i. destruct (decide (i = p)) as [-> |].
    - rewrite !list_lookup_insert_eq; [done|by apply lookup_lt_Some in Hp|rewrite length_alter; by apply lookup_lt_Some in Hp].
    - by rewrite !list_lookup_insert_ne, list_lookup_alter_ne by done. }
  apply (H mb' (Z.lor (args op 0%nat) b)); [done| |by apply merged_drop]. rewrite Ea. cbn. by rewrite Z.lor_assoc.
Qed.

(** A barrier is kept as it is. *)
Lemma mb_simplified inf op : opc op = op_mb -> exists inf', simplify_op s inf op = Some (inf', [op], false).
Proof.
  intros Eo. unfold simplify_op, init_args, copy_propagation, op_oargs, op_iargs. rewrite Eo. cbn [tcg_op_defs nb_oargs nb_iargs plus seq foldl].
  unfold canonicalize. rewrite Eo. unfold simplify_first, simplify_neutral, simplify_last, simplify_zeros, known_zeros, fold_op, do_default. rewrite Eo.
  by eexists.
Qed.

Lemma pure_quiet c : pure_op c = true -> quiet c = true.
Proof.
  intros H. destruct c; try discriminate; repeat match goal with t : op_type |- _ => destruct t as [[]|] | w : width |- _ => destruct w end; done.
Qed.

Lemma shaped_quiet c o : shaped c o -> quiet c = true -> quiet (opc o) = true.
Proof. intros [-> |[H|[H _]]] Hq; [done|by apply pure_quiet|by destruct c]. Qed.

Lemma loop_built ops : forall st u out1, opt_ops (o_infos st) ops = Some out1 -> built u (o_out st) (o_mb st) ->
  exists st', optimize_loop s st ops = Some st' /\ built (u ++ out1) (o_out st') (o_mb st').
Proof.
  induction ops as [|op ops IH]; intros st u out1 Hout Hb.
  - injection Hout as <-. exists st. by rewrite app_nil_r.
  - apply opt_ops_cons in Hout as (inf' & o & skip & rest & E1 & E2 & ->). destruct (simplify_shape s _ _ _ _ _ E1) as [Hsh Hskip].
    assert (quiet (opc op) = true -> Forall (fun o => quiet (opc o) = true) o) as Hq.
    { intros H. eapply Forall_impl; [exact Hsh|]. intros x Hx. by apply (shaped_quiet (opc op)). }
    cbn [optimize_loop]. unfold optimize_op. rewrite E1. cbn [mbind option_bind]. rewrite app_assoc. destruct skip.
    + cbn [mbind option_bind]. apply IH; [done|]. cbn [o_out o_mb]. apply built_quiet; [|done]. by apply Hq, pure_quiet, Hskip.
    + destruct (o_mb st) as [p|] eqn:Ep.
      * destruct (decide (opc op = op_mb)) as [Em|Em]; cbn [mbind option_bind]; (apply IH; [done|]); cbn [o_out o_mb].
        -- destruct (mb_simplified (o_infos st) op Em) as [i Ei]. rewrite Ei in E1. injection E1 as <- <-. by apply built_merge.
        -- destruct (ends_fence (opc op)) eqn:Ef; [by apply (built_close _ _ (Some p))|]. apply built_quiet; [|done]. apply Hq. unfold quiet.
           by rewrite Ef, bool_decide_eq_false_2.
      * cbn [mbind option_bind]. apply IH; [done|]. cbn [o_out o_mb]. destruct (decide (opc op = op_mb)) as [Em|Em].
        -- destruct (mb_simplified (o_infos st) op Em) as [i Ei]. rewrite Ei in E1. injection E1 as <- <-. by apply built_mb.
        -- by apply (built_close _ _ None).
Qed.
End runs.
