(* ===== verification/TcgTheorems.v ===== *)
(** * The optimizer keeps what a translation block does

    The theorems on [tcg/optimize.c]: constant folding computes what the
    operations mean, conditions are swapped, inverted and decided rightly, the
    masks of possibly set bits hold, a walk over the copies of a temp ends, and
    the optimized operations run as the ones they replace. *)

From S2P Require Import Prelude BitOps HostUtils TcgOps TcgSem TcgOptimize TcgValues TcgFields TcgMasks TcgCopies TcgPhases TcgCorrect TcgRuns.

(** ** Theorems *)

(** C16: [tcg_optimize] never aborts on well-formed operations, and a run of the
    operations is a run of the optimized ones: it takes the same jumps, leaves the
    block in the same way and ends with the same temps, barriers and memory,
    whatever host memory, guest memory and helpers do. *)
Theorem tcg_optimize_correct {M} `{!TcgEnv M} (s : TCGContext) (ops : list TCGOp) :
  nb_globals s <= nb_temps s -> forallb (wf_op s) ops = true ->
  exists ops', tcg_optimize s ops = Some ops' /\
    forall fuel (st : machine M) res, regs_ok s (regs st) ->
      run s fuel ops ops st = Some res -> run s fuel ops' ops' st = Some res.
Proof.
  intros Hg Hw. rewrite forallb_forall, <- List.Forall_forall in Hw.
  destruct (opt_ops_total (M := M) s ∅ ops Hw) as [u Hu].
  destruct (loop_built s ops (mk_opt ∅ [] None) [] u Hu) as (st' & E & Hb); [by intros u2 v2|].
  exists (o_out st'). split; [unfold tcg_optimize; by rewrite E|]. intros fuel st res Hr Hrun. apply built_merged in Hb.
  apply (merged_run s u _ Hb fuel u _ st res Hb). by apply (sim_run s Hg ops u Hw Hu fuel ops ∅ u st res Hw Hu (sound_empty s _ Hr)).
Qed.

(** Constants are folded to what the operation computes: for every opcode
    that folds and every constants for which the operation has a result,
    [do_constant_folding] gives a word whose low bits are that result, and that
    is 0 for a 32-bit result 0. *)
Theorem tcg_constant_folding_correct (o : TCGOp) (x y : Z) :
  uint 64 x -> uint 64 y ->
  (folds1 (opc o) = true -> forall z, op_sem o [x] = Some [z] ->
     exists t, do_constant_folding (opc o) x 0 = Some t /\ const_for (op_width (opc o)) t z) /\
  (folds2 (opc o) = true -> forall z, op_sem o [x; y] = Some [z] ->
     exists t, do_constant_folding (opc o) x y = Some t /\ const_for (op_width (opc o)) t z).
Proof. intros Hx Hy. split; intros Hf z Hz; [by apply fold1_ok|by apply fold2_ok]. Qed.

(** A swapped condition holds for the swapped values, an inverted one when
    the condition does not hold, and comparisons of constants, of copies and with
    0 are decided as they come out. *)
Theorem tcg_conditions_correct (n c x y : Z) :
  0 <= n -> cond_valid c = true ->
  eval_cond n (tcg_swap_cond c) y x = eval_cond n c x y /\
  eval_cond n (tcg_invert_cond c) x y = negb <$> eval_cond n c x y /\
  (forall vx vy, wrap n vx = wrap n x -> wrap n vy = wrap n y -> do_constant_folding_cond_n n vx vy c = eval_cond n c x y) /\
  do_constant_folding_cond_eq c = eval_cond n c x x /\
  (forall b, wrap n y = 0 -> cond_zero c = Some b -> eval_cond n c x y = Some b).
Proof.
  intros Hn Hc. split; [by apply cond_swap_ok|]. split; [by apply cond_invert_ok|]. split; [intros vx vy Ex Ey; by apply fold_cond_n_ok|].
  split; [by apply fold_cond_eq_ok|]. intros b. by apply cond_zero_ok.
Qed.

(** The masks of an operation hold: no bit outside the mask is set in its
    result, and when no bit is affected the result is the first input. *)
Theorem tcg_known_zeros_correct (inf : temp_infos) (o : TCGOp) (ins : list Z) (z : Z) :
  word_op (opc o) = true -> Forall2 (fun t x => known inf t (bits (in_width (opc o))) x) (inputs o) ins ->
  op_sem o ins = Some [z] ->
  masks (bits (op_width (opc o))) (known_zeros inf o).1 (known_zeros inf o).2 (default 0 (ins !! 0%nat)) z.
Proof. apply known_zeros_ok. Qed.

(** The walk over the copies of a temp ends before its bound: it finds a
    copy that passes the test, or none of the copies does. *)
Theorem tcg_copies_walk_ends (inf : temp_infos) (p : Z -> bool) (ts : Z) :
  ring inf -> ts ∈ dom inf ->
  match copies inf p ts with
  | Some j => p j = true /\ j <> ts /\ exists k, j = Nat.iter k (next inf) ts
  | None => forall k, Nat.iter k (next inf) ts = ts \/ p (Nat.iter k (next inf) ts) = false
  end.
Proof.
  intros Hr Hts. destruct (copies inf p ts) as [j|] eqn:E; [|by apply copies_complete]. by apply copies_found.
Qed.

(** ** A translation block *)

(** Two 32-bit globals (temps 1 and 2) and three temps. *)
Definition demo_ctx : TCGContext :=
  mk_ctx (fun t => mk_temp TYPE_I32 (t <=? 2) false) 2 5 (fun _ => true) (fun _ => true) (fun _ _ => true).

(** Guest memory as a log of the stores; a store also logs the barriers it saw. *)
#[local] Instance log_env : TcgEnv (list (Z * Z * Z)) := {
  host_ld _ _ _ := 0;
  host_st m _ _ _ := m;
  guest_ld _ _ _ m := (Some 0, m);
  guest_st b x a _ m := (true, m ++ [(b, a, x)]);
  helper _ _ _ _ m := (None, m);
  tb_linked _ _ := false;
  opaque_sem _ _ _ _ _ _ := None
}.

Definition demo_op (c : TCGOpcode) (l : list Z) : TCGOp := mk_op c 0 0 (fun i => default 0 (l !! i)).

(** [t3 = 5; t4 = t3 + t3; t5 = g1; two barriers; if (t4 > t3) goto 7;
    g2 = t4 - t4; 7: mem[g1 via t5] = t4; g2 = t5 ^ g1; exit]. *)
Definition demo_block : list TCGOp := [
  demo_op op_insn_start [64]; demo_op (op_movi W32) [3; 5]; demo_op (op_add (Int W32)) [4; 3; 3]; demo_op (op_mov (Int W32)) [5; 1];
  demo_op op_mb [1]; demo_op op_mb [4]; demo_op (op_brcond W32) [4; 3; TCG_COND_GT; 7]; demo_op (op_sub (Int W32)) [2; 4; 4];
  demo_op op_set_label [7]; demo_op (op_mov (Int W32)) [5; 1]; demo_op (op_qemu_st W32) [4; 5; 0]; demo_op (op_xor (Int W32)) [2; 5; 1]; demo_op op_exit_tb [3]].

Definition demo_state : machine (list (Z * Z * Z)) :=
  mk_machine (list_to_map [(1, 0x1000); (2, 8); (3, 0); (4, 0); (5, 0)]) 0 [].

Definition shown (n : nat) (o : TCGOp) : TCGOpcode * list Z := (opc o, args o <$> seq 0 n).

(** The sum is folded, the barriers are one, the branch is always taken, the
    store uses the global instead of its copy, and the exclusive or is 0. *)
Example demo_optimized : map (shown 2) <$> tcg_optimize demo_ctx demo_block = Some [
  (op_insn_start, [64; 0]); (op_movi W32, [3; 5]); (op_movi W32, [4; 10]); (op_mov (Int W32), [5; 1]);
  (op_mb, [5; 0]); (op_br, [7; 3]); (op_movi W32, [2; 0]);
  (op_set_label, [7; 0]); (op_mov (Int W32), [5; 1]); (op_qemu_st W32, [4; 1]); (op_movi W32, [2; 0]); (op_exit_tb, [3; 0])].
Proof. vm_compute. reflexivity. Qed.

Lemma demo_regs_ok : regs_ok demo_ctx (regs demo_state).
Proof.
  intros t Ht. unfold valid in Ht. cbn in Ht.
  assert (t = 1 \/ t = 2 \/ t = 3 \/ t = 4 \/ t = 5) as [-> |[-> |[-> |[-> | ->]]]] by lia; by eexists.
Qed.

Lemma tcg_optimize_correct_witness :
  exists ops', tcg_optimize demo_ctx demo_block = Some ops' /\
    match run demo_ctx 1 ops' ops' demo_state with
    | Some (Stop (Exit_tb v) st) => v = 3 /\ memory st = [(5, 0x1000, 10)] /\ rd (regs st) 2 = 0
    | _ => False
    end.
Proof.
  destruct (tcg_optimize_correct (M := list (Z * Z * Z)) demo_ctx demo_block) as (ops' & E & H); [done|by vm_compute|].
  exists ops'. split; [exact E|]. destruct (run demo_ctx 1 demo_block demo_block demo_state) as [res|] eqn:Er; [|by vm_compute in Er].
  rewrite (H 1%nat demo_state res demo_regs_ok Er). vm_compute in Er. injection Er as <-.
  split; [reflexivity|]. split; reflexivity.
Defined.

Lemma tcg_constant_folding_correct_witness :
  exists t, do_constant_folding (op_sar W32) 0x80000000 4 = Some t /\ const_for W32 t 0xf8000000.
Proof.
  apply (proj2 (tcg_constant_folding_correct (demo_op (op_sar W32) [1; 2; 3]) 0x80000000 4 ltac:(by vm_compute) ltac:(by vm_compute))); by vm_compute.
Defined.

Lemma tcg_conditions_correct_witness : eval_cond 32 (tcg_swap_cond TCG_COND_LT) 3 0xffffffff = Some true.
Proof. by rewrite (proj1 (tcg_conditions_correct 32 TCG_COND_LT 0xffffffff 3 ltac:(lia) eq_refl)). Defined.

(** A byte that was loaded, masked by 0x0f. *)
Definition demo_infos : temp_infos := {[ 3 := mk_info false 3 3 0 0xff; 4 := mk_info true 4 4 0x0f 0x0f ]}.

Lemma tcg_known_zeros_correct_witness : masks 32 0x0f 0xf0 0xa5 0x05.
Proof.
  apply (tcg_known_zeros_correct demo_infos (demo_op (op_and (Int W32)) [5; 3; 4]) [0xa5; 0x0f] 0x05); [done| |by vm_compute].
  repeat constructor; by vm_compute.
Defined.

Definition demo_ring : temp_infos := {[ 1 := mk_info false 3 2 0 all_ones; 2 := mk_info false 1 3 0 all_ones; 3 := mk_info false 2 1 0 all_ones ]}.

Lemma tcg_copies_walk_ends_witness : 3 <> 1 /\ exists k, 3 = Nat.iter k (next demo_ring) 1.
Proof.
  refine (proj2 (tcg_copies_walk_ends demo_ring (fun i => 2 <? i) 1 _ _)); [|by apply (elem_of_dom_2 _ _ (mk_info false 3 2 0 all_ones))].
  intros t i Hi. unfold demo_ring in *. rewrite !lookup_insert_Some, lookup_singleton_Some in Hi.
  destruct Hi as [[<- <-]|[_ [[<- <-]|[_ [<- <-]]]]]; split; by eexists.
Defined.
