(* ===== verification/TcgBlocks.v ===== *)
(** * What a translation block guarantees

    "After the end of a basic block, the content of temporaries is destroyed,
    but local temporaries and globals are preserved" ([tcg/README]), and a
    discarded temp has no value any more.  [must] is what holds of every run of
    a list of operations, whatever values destroyed temps get; a list refines
    another when it guarantees whatever the other does about the exit, memory,
    barriers and globals. *)

From S2P Require Import Prelude BitOps HostUtils TcgOps TcgSem TcgOptimize TcgMasks TcgCopies TcgPhases TcgInputs TcgCorrect TcgRuns.

(** ** Helpers and opaque operations *)

(** What the flags of a call promise of the helper ([tcg.h]).  A helper that
    never returns can neither be left out nor keep exceptions from the globals.
    The constants of a call are its function, its flags and its description. *)
Definition has_flag (cs : list Z) (f : Z) : bool := negb (Z.land (default 0 (cs !! 1%nat)) f =? 0).

Class HelperLaws (M : Type) `{!TcgEnv M} := {
  helper_suppressed b cs ins g m : has_flag cs TCG_CALL_NO_SIDE_EFFECTS = true ->
    exists outs, helper b cs ins g m = (Some (outs, g), m);
  helper_silent b cs ins g m : has_flag cs TCG_CALL_NO_READ_GLOBALS = true -> exists res m', helper b cs ins g m = (Some res, m');
  helper_noreturn b cs ins g m : has_flag cs TCG_CALL_NO_RETURN = true ->
    has_flag cs TCG_CALL_NO_SIDE_EFFECTS = false -> has_flag cs TCG_CALL_NO_READ_GLOBALS = false ->
    exists m', helper b cs ins g m = (None, m');
  opaque_reads c p1 p2 cs ins m outs m' : nb_oargs (tcg_op_defs c) <> 0%nat -> opaque_sem c p1 p2 cs ins m = Some (outs, m') -> m' = m
}.

(** The flags of a call do not contradict each other. *)
Definition flags_ok (o : TCGOp) : bool :=
  match opc o with
  | op_call => negb (call_flag o TCG_CALL_NO_RETURN && (call_flag o TCG_CALL_NO_SIDE_EFFECTS || call_flag o TCG_CALL_NO_READ_GLOBALS))
  | _ => true
  end.

Lemma call_has_flag o f : opc o = op_call -> has_flag (constants o) f = call_flag o f.
Proof.
  intros Eo. unfold has_flag, constants. rewrite Eo. cbn [tcg_op_defs nb_cargs seq fmap list_fmap lookup list_lookup default]. unfold call_flag, call_flags.
  by rewrite Nat.add_1_r.
Qed.

Section blocks.
Context {M : Type} `{!TcgEnv M} (s : TCGContext).

(** ** Destroyed temps *)

(** The temps that keep their value after an operation. *)
Definition survives (o : TCGOp) (t : Z) : bool :=
  match opc o with
  | op_discard => negb (t =? args o 0%nat)
  | c =>
    if opf_bb_exit c then is_global s t
    else if opf_bb_end (tcg_op_defs c) then is_global s t || temp_local (temps s t)
    else true
  end.

Definition destroys (o : TCGOp) (st st' : machine M) : Prop :=
  barrier st' = barrier st /\ memory st' = memory st /\ regs_ok s (regs st') /\
  forall t, survives o t = true -> regs st' !! t = regs st !! t.

Lemma destroys_refl o st : regs_ok s (regs st) -> destroys o st st.
Proof. done. Qed.

(** Opcodes that destroy something. *)
Definition kills (c : TCGOpcode) : bool := bool_decide (c = op_discard) || opf_bb_end (tcg_op_defs c).

Lemma kills_survives o t : kills (opc o) = false -> survives o t = true.
Proof.
  unfold kills, survives. intros [H1 H2]%orb_false_iff. destruct (opc o); first [discriminate|by rewrite H2|done].
Qed.

Lemma pure_kills c : pure_op c = true -> kills c = false.
Proof. by destruct c; first [discriminate|repeat match goal with t : op_type |- _ => destruct t as [[]|] end]. Qed.

Lemma destroys_none o st st' : kills (opc o) = false -> destroys o st st' -> st' = st.
Proof.
  intros Hk (Hb & Hm & _ & Hr). assert (regs st' = regs st) as Er by (apply map_eq; intros t; by apply Hr, kills_survives).
  destruct st, st'. cbn in *. by subst.
Qed.

(** ** Guarantees *)

Inductive must (prog : list TCGOp) (Q : op_result M -> Prop) : list TCGOp -> machine M -> Prop :=
| must_nil st : Q (Next st) -> must prog Q [] st
| must_next o ops st st1 :
    step s o st = Some (Next st1) -> (forall st2, destroys o st1 st2 -> must prog Q ops st2) -> must prog Q (o :: ops) st
| must_jump o ops st l st1 ops' :
    step s o st = Some (Jump l st1) -> find_label l prog = Some ops' ->
    (forall st2, destroys o st1 st2 -> must prog Q ops' st2) -> must prog Q (o :: ops) st
| must_stop o ops st e st1 : step s o st = Some (Stop e st1) -> Q (Stop e st1) -> must prog Q (o :: ops) st.

(** What can be seen of a result. *)
Definition same (st st' : machine M) : Prop :=
  barrier st' = barrier st /\ memory st' = memory st /\ forall t, is_global s t = true -> regs st' !! t = regs st !! t.

Definition alike_results (res res' : op_result M) : Prop :=
  match res, res' with
  | Next st, Next st' => same st st'
  | Stop e st, Stop e' st' => e = e' /\ same st st'
  | _, _ => False
  end.

Definition observable (Q : op_result M -> Prop) : Prop := forall res res', alike_results res res' -> Q res -> Q res'.

(** [new] guarantees what [old] does. *)
Definition refines (old new : list TCGOp) : Prop :=
  forall Q st, observable Q -> regs_ok s (regs st) -> must old Q old st -> must new Q new st.

#[export] Instance refines_preorder : PreOrder refines.
Proof.
  split; [by intros ops Q st|]. intros a b c Hab Hbc Q st HQ Hr Hm. by apply Hbc, Hab.
Qed.

(** A guarantee holds of the run in which nothing is destroyed. *)
Lemma must_run prog Q ops st : must prog Q ops st -> regs_ok s (regs st) -> exists fuel res, run s fuel prog ops st = Some res /\ Q res.
Proof.
  intros Hm. induction Hm as [st HQ|o ops st st1 E _ IH|o ops st l st1 ops' E El _ IH|o ops st e st1 E HQ]; intros Hr.
  - by exists 0%nat, (Next st).
  - pose proof (step_regs s o st _ Hr E) as [Hr1 _]. destruct (IH st1 (destroys_refl o st1 Hr1) Hr1) as (fuel & res & Erun & HQ).
    exists fuel, res. split; [|done]. destruct fuel; cbn [run run_block] in *; by rewrite E.
  - pose proof (step_regs s o st _ Hr E) as [Hr1 _]. destruct (IH st1 (destroys_refl o st1 Hr1) Hr1) as (fuel & res & Erun & HQ).
    exists (S fuel), res. split; [|done]. cbn [run run_block]. rewrite E, El. done.
  - exists 0%nat, (Stop e st1). split; [|done]. cbn [run run_block]. by rewrite E.
Qed.

(** ** Optimized operations *)

Lemma discard_simplified inf op : opc op = op_discard ->
  simplify_op s inf op = Some (reset_outputs (init_args inf op) op (output_mask op all_ones), [op], false).
Proof.
  intros Eo. unfold simplify_op, copy_propagation, op_oargs, op_iargs. rewrite Eo. cbn [tcg_op_defs nb_oargs nb_iargs plus seq foldl].
  unfold canonicalize. rewrite Eo. unfold simplify_first, simplify_neutral, simplify_last, simplify_zeros, known_zeros, fold_op, do_default. by rewrite Eo.
Qed.
(** The end of a basic block is kept, or becomes another one, and nothing is
    known after it; or it is dropped. *)
Lemma fold_end inf o k inf' ops : kills (opc o) = true -> opc o <> op_discard -> fold_op s inf o k = Some (inf', ops) ->
  ops = [] \/ exists o', ops = [o'] /\ inf' = ∅ /\ forall t, survives o' t = survives o t.
Proof.
  intros Hk Hd. unfold fold_op, do_default, fold_brcond, fold_brcond2. cbv zeta.
  destruct (opc o) eqn:Eo; try done; try (by destruct t as [[]|]); try (by destruct v); cbn [tcg_op_defs opf_bb_end];
    repeat match goal with
      | |- mbind _ ?e = _ -> _ => destruct e as [?|]; cbn [mbind option_bind]; [|discriminate]
      | |- (if ?b then _ else _) = _ -> _ => destruct b
      | |- match ?e with _ => _ end = _ -> _ => destruct e end;
    intros [= <- <-]; first [by left|right; eexists; split; [done|]; split; [first [done|unfold do_default; by rewrite Eo]|]; intros x; unfold survives; cbn [opc with_opc with_arg]; by rewrite ?Eo].
Qed.

Lemma simplify_end inf op inf' ops skip : kills (opc op) = true -> opc op <> op_discard -> simplify_op s inf op = Some (inf', ops, skip) ->
  ops = [] \/ exists o', ops = [o'] /\ inf' = ∅ /\ forall t, survives o' t = survives op t.
Proof.
  unfold simplify_op. cbv zeta. set (inf1 := init_args inf op). set (op3 := canonicalize _ _). intros Hk Hd.
  assert (opc op3 = opc op) as E.
  { unfold op3. destruct (copy_alike s inf1 op) as [(E & _) _]. by rewrite canonicalize_opc. }
  rewrite (surjective_pairing (known_zeros inf1 op3)). rewrite <- E in Hk, Hd. assert (pure_op (opc op3) <> true) as Hp by (intros Hp; by rewrite pure_kills in Hk).
  destruct (simplify_first s inf1 op3) as [[]|] eqn:P1; [by destruct (first_shape _ _ _ _ P1)|].
  destruct (simplify_neutral s inf1 op3) as [[]|] eqn:P2; [by destruct (neutral_shape _ _ _ _ P2)|].
  destruct (simplify_zeros s inf1 op3 _ _) as [[]|] eqn:P3; [by destruct (zeros_shape _ _ _ _ P3)|].
  destruct (simplify_last s inf1 op3) as [[]|] eqn:P4; [by destruct (last_shape _ _ _ _ P4)|].
  destruct (fold_op s inf1 op3 _) as [[i1 o1]|] eqn:P5; [|discriminate]. intros [= <- <- <-].
  destruct (fold_end _ _ _ _ _ Hk Hd P5) as [->|(o' & -> & -> & Hs)]; [by left|right]. exists o'. split; [done|]. split; [done|]. intros t. rewrite Hs.
  unfold survives. rewrite E. by destruct (opc op).
Qed.
(** Only the end of a basic block jumps. *)
Lemma jump_kills o (st : machine M) l st1 : step s o st = Some (Jump l st1) -> kills (opc o) = true.
Proof.
  destruct (pure_op (opc o)) eqn:Hp; [rewrite step_pure by done; by destruct (op_sem o _)|].
  unfold step. cbv zeta. intros H. destruct (opc o) eqn:Eo; try discriminate; try done;
    first [destruct w; discriminate|repeat case_match; discriminate|
           destruct (opaque_sem _ _ _ _ _ _) as [[outs m']|]; [|discriminate]; cbn [mbind option_bind] in H; by case_decide].
Qed.

(** Operations that destroy nothing run as they do. *)
Lemma must_block prog Q a b (st : machine M) res :
  Forall (fun o => kills (opc o) = false) a -> regs_ok s (regs st) -> run_block s a st = Some res ->
  match res with Next st1 => must prog Q b st1 | Stop e st1 => Q (Stop e st1) | _ => True end -> must prog Q (a ++ b) st.
Proof.
  intros Ha. revert st. induction Ha as [|o a Hk _ IH]; intros st Hr; cbn [run_block app]; [by intros [= <-]|].
  destruct (step s o st) as [[st1|l st1|e st1]|] eqn:E; [| | |done].
  - intros Hrun HQ. apply (must_next _ _ _ _ _ st1); [done|]. intros st2 Hd. rewrite (destroys_none o st1 st2) by done.
    apply IH; [|done|done]. by apply (step_regs s o st (Next st1)).
  - by rewrite (jump_kills _ _ _ _ E) in Hk.
  - intros [= <-]. by apply must_stop.
Qed.

Lemma shaped_kills c o : shaped c o -> kills c = false -> kills (opc o) = false.
Proof. intros [-> |[H|[H _]]] Hk; [done|by apply pure_kills|]. unfold kills in Hk. apply orb_false_iff in Hk as [_ Hk]. by destruct c. Qed.

(** A discarded temp may have any value afterwards. *)
Lemma discard_sound inf op r r' : opc op = op_discard -> wf_op s op = true -> sound s inf r -> regs_ok s r' ->
  (forall t, survives op t = true -> rd r' t = rd r t) -> sound s (reset_outputs (init_args inf op) op (output_mask op all_ones)) r'.
Proof.
  intros Eo Hw Hs Hr' Hrd. destruct (init_args_ok s inf r op Hs Hw) as [Hs1 [Hdom _]]. pose proof (wf_op_spec s op Hw) as (Hv & _).
  assert (outputs op = [args op 0%nat]) as Eout by (unfold outputs, op_oargs; by rewrite Eo).
  assert (output_mask op all_ones = all_ones) as -> by (unfold output_mask; by rewrite Eo).
  apply (reset_outputs_sound s _ op _ r); [done|intros t Ht; by destruct (Hdom t Ht)|done| |done|].
  - intros u Hu. apply Hrd. unfold survives. rewrite Eo. rewrite Eout in Hu. apply negb_true_iff, Z.eqb_neq. set_solver.
  - intros Hi _. apply within_all, (rd_int s); [done| |done]. apply (Hv (args op 0%nat)). rewrite Eout. set_solver.
Qed.

Lemma destroys_ext o o' st st' : (forall t, survives o' t = survives o t) -> destroys o st st' -> destroys o' st st'.
Proof. intros Hs (Hb & Hm & Hr & Ht). split; [done|]. split; [done|]. split; [done|]. intros t. rewrite Hs. apply Ht. Qed.

Section optimized.
Context (Hglobals : nb_globals s <= nb_temps s) (prog pout : list TCGOp) (Q : op_result M -> Prop).
Context (Hprog : Forall (fun o => wf_op s o = true) prog) (Hpout : opt_ops s ∅ prog = Some pout).

Lemma must_optimized ops (st : machine M) : must prog Q ops st -> forall inf out,
  Forall (fun o => wf_op s o = true) ops -> opt_ops s inf ops = Some out -> sound s inf (regs st) -> must pout Q out st.
Proof.
  intros Hm. induction Hm as [st HQ|op ops st st1 E Hm IH|op ops st l st1 ops' E El Hm IH|op ops st e st1 E HQ]; intros inf out Hwf Hout Hs.
  { injection Hout as <-. by apply must_nil. }
  all: apply Forall_cons in Hwf as [Hw Hwf]; apply opt_ops_cons in Hout as (inf' & o & skip & rest & E1 & E2 & ->).
  all: destruct (simplify_op_ok s Hglobals inf op inf' o skip st _ Hw E1 Hs E) as [Eo Hs'].
  all: pose proof (step_regs s op st _ ltac:(apply Hs) E) as [Hr1 _]; cbn [res_state] in Hr1.
  all: destruct (kills (opc op)) eqn:Hk;
    [destruct (decide (opc op = op_discard)) as [Ed|Ed];
       [rewrite (discard_simplified inf op Ed) in E1; injection E1 as <- <- <-; cbn [run_block] in Eo
       |destruct (simplify_end _ _ _ _ _ Hk Ed E1) as [-> |(o' & -> & -> & Hsv)]; cbn [run_block] in Eo]
    |].
  - apply (must_next _ _ _ _ _ st1); [done|]. intros st2 Hd. apply (IH st2 Hd _ rest Hwf E2). destruct Hd as (_ & _ & Hr2 & Hrd).
    apply (discard_sound inf op (regs st1)); [done|done| |done|intros t Ht; unfold rd; by rewrite Hrd].
    unfold step in E. rewrite Ed in E. injection E as <-. done.
  - injection Eo as ->. by apply (IH st1 (destroys_refl op st1 Hr1) inf' rest Hwf E2), Hs'.
  - destruct (step s o' st) as [[st1'|l' st1'|e' st1']|] eqn:E'; try done. injection Eo as ->. apply (must_next _ _ _ _ _ st1); [done|].
    intros st2 Hd. apply (IH st2) with ∅; [by apply (destroys_ext o')|exact Hwf|exact E2|]. by apply sound_empty, Hd.
  - apply (must_block _ _ _ _ _ (Next st1)); [|apply Hs|done|].
    + eapply Forall_impl; [apply (simplify_shape s _ _ _ _ _ E1)|]. intros x Hx. by apply (shaped_kills (opc op)).
    + by apply (IH st1 (destroys_refl op st1 Hr1) inf' rest Hwf E2), Hs'.
  - by rewrite E in Eo; unfold step in E; rewrite Ed in E.
  - done.
  - destruct (step s o' st) as [[st1'|l' st1'|e' st1']|] eqn:E'; try done. injection Eo as -> ->. destruct (sim_label s l prog ∅ pout ops' Hpout El) as (out' & E3 & E4).
    apply (must_jump _ _ _ _ _ l st1 out'); [done|done|]. intros st2 Hd. apply (IH st2) with ∅; [by apply (destroys_ext o')|by apply (find_label_wf s l prog)|exact E3|].
    by apply sound_empty, Hd.
  - by rewrite (jump_kills _ _ _ _ E) in Hk.
  - by unfold step in E; rewrite Ed in E.
  - done.
  - destruct (step s o' st) as [[st1'|l' st1'|e' st1']|] eqn:E'; try done. injection Eo as -> ->. by apply (must_stop _ _ _ _ _ e st1).
  - apply (must_block _ _ _ _ _ (Stop e st1)); [|apply Hs|done|done].
    eapply Forall_impl; [apply (simplify_shape s _ _ _ _ _ E1)|]. intros x Hx. by apply (shaped_kills (opc op)).
Qed.
End optimized.

(** The state with the barriers that were issued early. *)
Definition ahead (b : Z) (st : machine M) : machine M := mk_machine (regs st) (Z.lor (barrier st) b) (memory st).

Lemma ahead_0 st : ahead 0 st = st.
Proof. destruct st. unfold ahead. cbn. by rewrite Z.lor_0_r. Qed.

Lemma step_mb o (st : machine M) : opc o = op_mb -> step s o st = Some (Next (mk_machine (regs st) (Z.lor (barrier st) (args o 0%nat)) (memory st))).
Proof. intros E. unfold step. by rewrite E. Qed.

Lemma mb_destroys o (st st' : machine M) : opc o = op_mb -> destroys o st st' -> st' = st.
Proof. intros E. apply destroys_none. by rewrite E. Qed.

(** A choice for the state that is ahead is one for the other. *)
Lemma destroys_ahead o b (st st' : machine M) : destroys o (ahead b st) st' -> exists st2, destroys o st st2 /\ st' = ahead b st2.
Proof.
  intros (Hb & Hm & Hr & Ht). exists (mk_machine (regs st') (barrier st) (memory st')). split; [done|]. destruct st'. cbn in *. by subst.
Qed.

Lemma quiet_ahead o b (st : machine M) : quiet (opc o) = true ->
  match step s o st with
  | Some (Next st1) => step s o (ahead b st) = Some (Next (ahead b st1))
  | None => True
  | _ => False
  end.
Proof.
  intros Hq. destruct st as [r c m]. pose proof (quiet_step s o r c (Z.lor c b) m Hq) as H. unfold ahead. cbn [regs barrier memory].
  destruct (step s o (mk_machine r c m)) as [[st1|l st1|e st1]|]; [|done|done|done]. destruct H as [-> ->]. done.
Qed.

Lemma must_merged prog out Q ops (st : machine M) : merged 0 prog out -> must prog Q ops st ->
  forall b v, merged b ops v -> regs_ok s (regs st) -> must out Q v (ahead b st).
Proof.
  intros HM Hm. induction Hm as [st HQ|o ops st st1 E Hm IH|o ops st l st1 ops' E El Hm IH|o ops st e st1 E HQ]; intros b v Hv Hr.
  { inversion Hv; subst. rewrite ahead_0. by apply must_nil. }
  all: pose proof (step_regs s o st _ Hr E) as [Hr1 _]; cbn [res_state] in Hr1.
  all: inversion Hv as [|b' mb u v' Em Hv'|? b' mb mb' u v' Em Em' Hv' Eb|? ? u v' Hq Hv'|? u v' Hv']; subst.
  all: try (pose proof (quiet_ahead o b st Hq) as Hst; rewrite E in Hst; try done).
  all: try (rewrite step_mb in E by done; first [discriminate E|injection E as <-]).
  all: try rewrite ahead_0.
  - specialize (IH _ (destroys_refl o _ Hr1) b' v Hv' Hr1). unfold ahead in *. cbn [regs barrier memory] in *. by rewrite <- Z.lor_assoc in IH.
  - apply (must_next _ _ _ _ _ _ (step_mb mb' _ Em')). intros st2 ->%(mb_destroys mb' _ st2 Em').
    specialize (IH _ (destroys_refl o _ Hr1) b' v' Hv' Hr1). unfold ahead in *. cbn [regs barrier memory] in *. by rewrite <- !Z.lor_assoc, Eb in *.
  - apply (must_next _ _ _ _ _ _ Hst). intros st2 (st3 & Hd & ->)%destroys_ahead. apply (IH st3 Hd); [done|]. by apply Hd.
  - apply (must_next _ _ _ _ _ _ E). intros st2 Hd. rewrite <- (ahead_0 st2). apply (IH st2 Hd); [done|]. by apply Hd.
  - destruct (merged_label l 0 prog out HM ops' El) as (v1 & E1 & Hv1). apply (must_jump _ _ _ _ _ l st1 v1 E E1). intros st2 Hd. rewrite <- (ahead_0 st2).
    apply (IH st2 Hd); [done|]. by apply Hd.
  - by apply (must_stop _ _ _ _ _ e st1 E).
Qed.

(** The optimizer keeps guarantees. *)
Lemma optimize_refines ops : nb_globals s <= nb_temps s -> Forall (fun o => wf_op s o = true) ops ->
  exists ops', tcg_optimize s ops = Some ops' /\ refines ops ops'.
Proof.
  intros Hg Hw. destruct (opt_ops_total (M := M) s ∅ ops Hw) as [u Hu].
  destruct (loop_built s ops (mk_opt ∅ [] None) [] u Hu) as (st' & E & Hb); [by intros u2 v2|]. apply built_merged in Hb.
  exists (o_out st'). split; [unfold tcg_optimize; by rewrite E|]. intros Q st _ Hr Hm. rewrite <- (ahead_0 st).
  apply (must_merged u _ Q u st Hb); [|done|done]. by apply (must_optimized Hg ops u Q Hw Hu ops st Hm ∅ u Hw Hu (sound_empty s _ Hr)).
Qed.
End blocks.
