(* ===== verification/TcgPasses.v ===== *)
(** * Unreachable and dead operations ([qemu/tcg/tcg.c])

    [reachable_code_pass] removes what cannot be reached, labels that no branch
    names, and branches to the next operation.  [liveness_pass_1] walks
    backwards with a state for every temp, removes operations whose outputs are
    not used, takes the low or high half of double-word operations, and notes
    in the life of every operation which arguments die or go to memory.  The
    register preferences, which only guide the allocator, are left out. *)

From S2P Require Import Prelude TcgOps TcgSem TcgOptimize.

(** ** Removing operations *)

(** The label of a branch. *)
Definition op_label (o : TCGOp) : option Z :=
  match opc o with
  | op_br => Some (args o 0%nat)
  | op_brcond _ => Some (args o 3%nat)
  | op_brcond2_i32 => Some (args o 5%nat)
  | _ => None
  end.

(** The counters [refs] of the labels, of 16 bits; [tcg_op_remove] keeps them. *)
Definition tcg_op_remove (refs : Z -> Z) (o : TCGOp) : Z -> Z :=
  match op_label o with
  | Some l => fun k => if k =? l then u16 (refs k - 1) else refs k
  | None => refs
  end.

(** ** Reachable code *)

(** [dead], the operations kept so far, and the counters. *)
Record reach_state := mk_reach { r_dead : bool; r_out : list TCGOp; r_refs : Z -> Z }.

Definition reach_keep (dead : bool) (st : reach_state) (o : TCGOp) : reach_state :=
  mk_reach dead (r_out st ++ [o]) (r_refs st).
Definition reach_remove (dead : bool) (st : reach_state) (o : TCGOp) : reach_state :=
  mk_reach dead (r_out st) (tcg_op_remove (r_refs st) o).

(** [if (remove)] for an operation that is removed when it is dead. *)
Definition reach_if (dead : bool) (st : reach_state) (o : TCGOp) : reach_state :=
  if r_dead st then reach_remove dead st o else reach_keep dead st o.

(** A round of the loop; [None]: the operation before a first label is read. *)
Definition reach_op (st : reach_state) (o : TCGOp) : option reach_state :=
  match opc o with
  | op_set_label =>
    let label := args o 0%nat in
    if r_refs st label =? 0 then Some (reach_remove (r_dead st) st o)
    else if r_refs st label =? 1 then
      op_prev ← last (r_out st);
      if bool_decide (opc op_prev = op_br) && (args op_prev 0%nat =? label) then
        let st := mk_reach false (removelast (r_out st)) (tcg_op_remove (r_refs st) op_prev) in
        Some (reach_remove false st o)
      else Some (reach_keep false st o)
    else Some (reach_keep false st o)
  | op_br | op_exit_tb | op_goto_ptr => Some (reach_if true st o)
  | op_call => Some (reach_if (r_dead st || call_flag o TCG_CALL_NO_RETURN) st o)
  | op_insn_start => Some (reach_keep (r_dead st) st o)
  | _ => Some (reach_if (r_dead st) st o)
  end.

Fixpoint reach_loop (st : reach_state) (ops : list TCGOp) : option reach_state :=
  match ops with
  | [] => Some st
  | o :: ops => st ← reach_op st o; reach_loop st ops
  end.

Definition reachable_code_pass (refs : Z -> Z) (ops : list TCGOp) : option (list TCGOp) :=
  r_out <$> reach_loop (mk_reach false [] refs) ops.

(** ** Liveness *)

Definition TS_DEAD : Z := 1.
Definition TS_MEM : Z := 2.
Definition DEAD_ARG : Z := 4.
Definition SYNC_ARG : Z := 1.

(** The field [state] of every temp. *)
Abbreviation temp_states := (Z -> Z).

Definition set_state (t x : Z) (st : temp_states) : temp_states := fun u => if u =? t then x else st u.

Section liveness.
Context (s : TCGContext) (have_high : TCGOpcode -> bool).

Definition la_func_end : temp_states := fun t => if is_global s t then Z.lor TS_DEAD TS_MEM else TS_DEAD.

Definition la_bb_end : temp_states := fun t =>
  if is_global s t then Z.lor TS_DEAD TS_MEM
  else if temp_local (temps s t) then Z.lor TS_DEAD TS_MEM else TS_DEAD.

Definition la_global_sync (st : temp_states) : temp_states := fun t => if is_global s t then Z.lor (st t) TS_MEM else st t.

Definition la_global_kill (st : temp_states) : temp_states := fun t => if is_global s t then Z.lor TS_DEAD TS_MEM else st t.

Definition has_bit (x b : Z) : bool := negb (Z.land x b =? 0).

(** [arg_life |= b << i] in a [TCGLifeData]. *)
Definition add_life (b : Z) (i : nat) (life : Z) : Z := u16 (Z.lor life (Z.shiftl b (Z.of_nat i))).

(** Output args are dead. *)
Fixpoint la_outputs (i : nat) (ts : list Z) (st : temp_states) (life : Z) : temp_states * Z :=
  match ts with
  | [] => (st, life)
  | t :: ts =>
    let life := if has_bit (st t) TS_DEAD then add_life DEAD_ARG i life else life in
    let life := if has_bit (st t) TS_MEM then add_life SYNC_ARG i life else life in
    la_outputs (S i) ts (set_state t TS_DEAD st) life
  end.

(** Record arguments that die in this opcode; a call may have null arguments. *)
Fixpoint la_dying (i : nat) (ts : list Z) (st : temp_states) (life : Z) : Z :=
  match ts with
  | [] => life
  | t :: ts => la_dying (S i) ts st (if negb (t =? 0) && has_bit (st t) TS_DEAD then add_life DEAD_ARG i life else life)
  end.

(** Input arguments are live for preceding opcodes; the state of the null
    pointer is no temp's. *)
Fixpoint la_inputs (ts : list Z) (st : temp_states) : temp_states :=
  match ts with
  | [] => st
  | t :: ts => la_inputs ts (if has_bit (st t) TS_DEAD then set_state t (Z.ldiff (st t) TS_DEAD) st else st)
  end.

(** An operation that stays; [at_op] is what it does to the globals and at the end
    of a block. *)
Definition la_keep (at_op : temp_states -> temp_states) (o : TCGOp) (st : temp_states) : temp_states * list (TCGOp * Z) :=
  let '(st, life) := la_outputs 0 (outputs o) st 0 in
  let st := at_op st in
  let life := la_dying (op_oargs o) (inputs o) st life in
  (la_inputs (inputs o) st, [(o, life)]).

Definition la_call (o : TCGOp) (st : temp_states) : temp_states :=
  if negb (call_keeps_globals o) then la_global_kill st
  else if negb (call_flag o TCG_CALL_NO_READ_GLOBALS) then la_global_sync st
  else st.

Definition la_flags (c : TCGOpcode) (st : temp_states) : temp_states :=
  if opf_bb_exit c then la_func_end
  else if opf_bb_end (tcg_op_defs c) then la_bb_end
  else if opf_side_effects c then la_global_sync st
  else st.

Definition is_dead (st : temp_states) (t : Z) : bool := st t =? TS_DEAD.

(** [do_addsub2:] *)
Definition la_addsub2 (opc_new : TCGOpcode) (o : TCGOp) (st : temp_states) : temp_states * list (TCGOp * Z) :=
  if is_dead st (args o 1%nat) then
    if is_dead st (args o 0%nat) then (st, [])
    else la_keep (la_flags (opc o)) (with_arg 2 (args o 4%nat) (with_arg 1 (args o 2%nat) (with_opc opc_new o))) st
  else la_keep (la_flags (opc o)) o st.

(** [do_mul2:] *)
Definition la_mul2 (opc_new opc_new2 : TCGOpcode) (o : TCGOp) (st : temp_states) : temp_states * list (TCGOp * Z) :=
  if is_dead st (args o 1%nat) then
    if is_dead st (args o 0%nat) then (st, [])
    else la_keep (la_flags (opc o)) (with_arg 2 (args o 3%nat) (with_arg 1 (args o 2%nat) (with_opc opc_new o))) st
  else if is_dead st (args o 0%nat) && have_high opc_new2 then
    la_keep (la_flags (opc o))
      (with_arg 2 (args o 3%nat) (with_arg 1 (args o 2%nat) (with_arg 0 (args o 1%nat) (with_opc opc_new2 o)))) st
  else la_keep (la_flags (opc o)) o st.

Definition la_op (o : TCGOp) (st : temp_states) : temp_states * list (TCGOp * Z) :=
  match opc o with
  | op_call =>
    if call_flag o TCG_CALL_NO_SIDE_EFFECTS && forallb (is_dead st) (outputs o) then (st, [])
    else la_keep (la_call o) o st
  | op_insn_start => (st, [(o, 0)])
  | op_discard => (set_state (args o 0%nat) TS_DEAD st, [(o, 0)])
  | op_add2 w => la_addsub2 (op_add (Int w)) o st
  | op_sub2 w => la_addsub2 (op_sub (Int w)) o st
  | op_mulu2 w => la_mul2 (op_mul (Int w)) (op_muluh w) o st
  | op_muls2 w => la_mul2 (op_mul (Int w)) (op_mulsh w) o st
  | c =>
    if negb (opf_side_effects c) && negb (op_oargs o =? 0)%nat && forallb (is_dead st) (outputs o) then (st, [])
    else la_keep (la_flags c) o st
  end.

(** The loop from the last operation to the first. *)
Fixpoint la_loop (ops : list TCGOp) : temp_states * list (TCGOp * Z) :=
  match ops with
  | [] => (la_func_end, [])
  | o :: ops =>
    let '(st, out) := la_loop ops in
    let '(st, new) := la_op o st in
    (st, new ++ out)
  end.

(** The operations that stay, with their life. *)
Definition liveness_pass_1 (ops : list TCGOp) : list (TCGOp * Z) := (la_loop ops).2.
End liveness.
