(* ===== verification/TcgReach.v ===== *)
(** * Removing unreachable operations keeps guarantees

    The list that [reachable_code_pass] leaves is related to the original one
    place by place: operations after an unconditional exit may be missing, as
    may labels that no branch names and a branch to the next label. *)

From S2P Require Import Prelude TcgOps TcgSem TcgOptimize TcgCopies TcgPhases TcgRuns TcgBlocks TcgPasses.

(** ** Labels *)

(** The branches to a label. *)
Definition label_refs (ops : list TCGOp) (l : Z) : Z := Z.of_nat (length (filter (fun o => op_label o = Some l) ops)).

Definition named (ops : list TCGOp) (l : Z) : Prop := exists o, o ∈ ops /\ op_label o = Some l.

Lemma label_refs_app a b l : label_refs (a ++ b) l = label_refs a l + label_refs b l.
Proof. unfold label_refs. rewrite filter_app, length_app. lia. Qed.

Lemma label_refs_cons o b l : label_refs (o :: b) l = (if decide (op_label o = Some l) then 1 else 0) + label_refs b l.
Proof. unfold label_refs. rewrite filter_cons. case_decide; cbn [length]; lia. Qed.

Lemma label_refs_range ops l : 0 <= label_refs ops l <= Z.of_nat (length ops).
Proof. unfold label_refs. pose proof (length_filter (fun o => op_label o = Some l) ops). lia. Qed.

Lemma label_refs_named ops l : label_refs ops l = 0 -> ~ named ops l.
Proof.
  intros H (o & Ho & El). unfold label_refs in H. assert (o ∈ filter (fun o => op_label o = Some l) ops) as Hin by (by apply list_elem_of_filter).
  destruct (filter _ ops); [by apply elem_of_nil in Hin|done].
Qed.

(** The labels that are set. *)
Definition labels (ops : list TCGOp) : list Z := (fun o => args o 0%nat) <$> filter (fun o => opc o = op_set_label) ops.

Lemma find_label_at l a o u : opc o = op_set_label -> args o 0%nat = l -> NoDup (labels (a ++ o :: u)) -> find_label l (a ++ o :: u) = Some u.
Proof.
  intros Eo El. unfold labels. induction a as [|x a IH]; cbn [app find_label]; intros Hnd.
  - by rewrite bool_decide_eq_true_2, El, Z.eqb_refl.
  - rewrite filter_cons in Hnd. case_decide as Ex.
    + cbn [fmap list_fmap] in Hnd. apply NoDup_cons in Hnd as [Hx Hnd]. rewrite bool_decide_eq_true_2 by done. cbn [andb].
      destruct (Z.eqb_spec (args x 0%nat) l) as [E|E]; [|by apply IH]. destruct Hx. apply list_elem_of_fmap. exists o. split; [congruence|].
      apply list_elem_of_filter. split; [done|]. set_solver.
    + rewrite bool_decide_eq_false_2 by done. by apply IH.
Qed.

(** Operations that never go on to the next one. *)
Definition ends (o : TCGOp) : bool :=
  match opc o with
  | op_br | op_exit_tb | op_goto_ptr => true
  | op_call => call_flag o TCG_CALL_NO_RETURN
  | _ => false
  end.

Definition no_label (final : list TCGOp) (o : TCGOp) : Prop := opc o = op_set_label -> ~ named final (args o 0%nat).

Lemma jump_label {M} `{!TcgEnv M} (s : TCGContext) o (st : machine M) l st1 : step s o st = Some (Jump l st1) -> op_label o = Some l.
Proof.
  intros E. pose proof (jump_kills s o st l st1 E) as Hk. unfold step in E. cbv zeta in E. unfold op_label.
  destruct (opc o); try discriminate; try (by destruct t as [[]|]); try (by destruct v); try (by injection E as <-);
    try (match type of E with mbind _ ?x = _ => destruct x as [[]|]; [|discriminate|discriminate] end; by injection E as <-).
  by destruct (tb_linked _ _).
Qed.

(** ** Place by place *)

Section reach.
Context (prog final : list TCGOp).

(** [reaches dead u v]: [v] is what is left of [u], which is not reached from
    above when [dead]. *)
Inductive reaches : bool -> list TCGOp -> list TCGOp -> Prop :=
| reaches_nil d : reaches d [] []
| reaches_keep o u v : reaches (ends o) u v -> reaches false (o :: u) (o :: v)
| reaches_drop o u v : no_label final o -> reaches true u v -> reaches true (o :: u) v
| reaches_insn o u v : opc o = op_insn_start -> reaches true u v -> reaches true (o :: u) (o :: v)
| reaches_label o u v : opc o = op_set_label -> reaches false u v -> reaches true (o :: u) (o :: v)
| reaches_unnamed o u v : opc o = op_set_label -> no_label final o -> reaches false u v -> reaches false (o :: u) v
| reaches_next o seg o' u v : opc o = op_br -> opc o' = op_set_label -> find_label (args o 0%nat) prog = Some u ->
    Forall (no_label final) seg -> no_label final o' -> reaches false u v -> reaches false (o :: seg ++ o' :: u) v.

Lemma find_label_unnamed l a b : Forall (no_label final) a -> named final l -> find_label l (a ++ b) = find_label l b.
Proof.
  intros Ha Hl. induction Ha as [|o a Ho _ IH]; [done|]. cbn [app find_label]. destruct (decide (opc o = op_set_label)) as [E|E].
  - destruct (Z.eqb_spec (args o 0%nat) l) as [<-|]; [by apply Ho in E|]. by rewrite andb_false_r.
  - by rewrite bool_decide_eq_false_2.
Qed.

Lemma reaches_find l d u v : reaches d u v -> named final l -> forall u1, find_label l u = Some u1 ->
  exists v1, find_label l v = Some v1 /\ reaches false u1 v1.
Proof.
  intros H Hl. induction H as [d|o u v H IH|o u v Hn H IH|o u v Eo H IH|o u v Eo H IH|o u v Eo Hn H IH|o seg o' u v Eo Eo' Ef Hseg Hn H IH]; intros u1.
  - done.
  - cbn [find_label]. destruct (_ && _) eqn:E; [|apply IH]. intros [= <-]. exists v. split; [done|].
    apply andb_prop in E as [E%bool_decide_eq_true _]. unfold ends in H. by rewrite E in H.
  - change (o :: u) with ([o] ++ u). rewrite find_label_unnamed by (done || by apply Forall_singleton). apply IH.
  - cbn [find_label]. rewrite bool_decide_eq_false_2 by (by rewrite Eo). apply IH.
  - cbn [find_label]. destruct (_ && _); [|apply IH]. intros [= <-]. by exists v.
  - change (o :: u) with ([o] ++ u). rewrite find_label_unnamed by (done || by apply Forall_singleton). apply IH.
  - cbn [find_label]. rewrite bool_decide_eq_false_2 by (by rewrite Eo). cbn [andb].
    change (o' :: u) with ([o'] ++ u). rewrite !find_label_unnamed by (done || by apply Forall_singleton). apply IH.
Qed.

Lemma find_label_suffix l a b : find_label l a = Some b -> exists c, a = c ++ b.
Proof.
  induction a as [|o a IH]; [done|]. cbn [find_label]. destruct (_ && _).
  - intros [= <-]. by exists [o].
  - intros [c ->]%IH. by exists (o :: c).
Qed.

Section runs.
Context {M : Type} `{!TcgEnv M} `{!HelperLaws M} (s : TCGContext) (Q : op_result M -> Prop).
Context (Hreach : reaches false prog final).

Lemma ends_next o (st st1 : machine M) : flags_ok o = true -> ends o = true -> step s o st = Some (Next st1) -> False.
Proof.
  unfold flags_ok, ends, step. cbv zeta. destruct (opc o) eqn:Eo; try done. intros Hf He. rewrite He in Hf. cbn in Hf. apply negb_true_iff, orb_false_iff in Hf as [H1 H2].
  destruct (helper_noreturn (barrier st) (constants o) (rd (regs st) <$> inputs o) (call_globals s o (regs st)) (memory st)) as [m' ->];
    by rewrite ?call_has_flag by done.
Qed.

Lemma must_reaches ops (st : machine M) : must s prog Q ops st -> regs_ok s (regs st) -> Forall (fun o => flags_ok o = true) prog -> Forall (fun o => flags_ok o = true) ops ->
  forall v, reaches false ops v -> (exists a, final = a ++ v) -> must s final Q v st.
Proof.
  intros Hm Hr HF. revert Hr. induction Hm as [st HQ|o ops st st1 E Hm IH|o ops st l st1 ops' E El Hm IH|o ops st e st1 E HQ]; intros Hr Hok v Hv [a Ea].
  { inversion Hv; subst. by apply must_nil. }
  all: apply Forall_cons in Hok as [Ho Hok].
  all: pose proof (step_regs s o st _ Hr E) as [Hr1 _]; cbn [res_state] in Hr1.
  all: inversion Hv as [|? u v' Hv'| | | |? u ? Eo Hn Hv'|? seg o' u ? Eo Eo' Ef Hseg Hn Hv']; subst.
  all: try (unfold step in E; rewrite Eo in E; first [discriminate E|injection E as <- <-|injection E as <-]).
  - destruct (ends o) eqn:He; [by destruct (ends_next o st st1 Ho He)|]. apply (must_next _ _ _ _ _ _ st1 E). intros st2 Hd.
    apply (IH st2 Hd); [by apply Hd|done|done|]. exists (a ++ [o]). by rewrite <- app_assoc.
  - apply (IH _ (destroys_refl s o _ Hr1)); [done|done|done|]. by exists a.
  - assert (named final l) as Hl.
    { exists o. split; [rewrite Ea; apply elem_of_app; right; left|]. by apply (jump_label s o st l st1). }
    destruct (reaches_find l false prog final Hreach Hl ops' El) as (v1 & E1 & Hv1). apply (must_jump _ _ _ _ _ _ l st1 v1 E E1).
    intros st2 Hd. apply (IH st2 Hd); [by apply Hd| |done|].
    + destruct (find_label_suffix _ _ _ El) as [c Ec]. rewrite Ec in HF. by apply Forall_app in HF as [_ HF].
    + by apply (find_label_suffix l).
  - rewrite Ef in El. injection El as <-. apply (IH _ (destroys_refl s o _ Hr1)); [done| |done|by exists a].
    apply Forall_app in Hok as [_ Hok]. by apply Forall_cons in Hok as [_ Hok].
  - by apply (must_stop _ _ _ _ _ _ e st1 E).
Qed.
End runs.
End reach.

(** ** The loop *)

Section loop.
Context (prog final : list TCGOp) (Hlen : Z.of_nat (length prog) < 2 ^ 16) (Hlabels : NoDup (labels prog)).

(** The last operation kept, when it is a branch: what follows it so far is not
    reached, and without it the operations up to its place are [out0]. *)
Definition last_branch (dead : bool) (out rest : list TCGOp) : Prop :=
  forall out0 o, out = out0 ++ [o] -> opc o = op_br ->
    dead = true /\ (forall p, last out0 = Some p -> opc p <> op_br) /\
    exists a seg, prog = a ++ o :: seg ++ rest /\ Forall (no_label final) seg /\
      forall v, reaches prog final false (o :: seg ++ rest) v -> reaches prog final false prog (out0 ++ v).

Record reach_inv (rest : list TCGOp) (st : reach_state) : Prop := {
  inv_prog : exists a, prog = a ++ rest;
  inv_size : (length (r_out st) + length rest <= length prog)%nat;
  inv_refs : forall l, r_refs st l = label_refs (r_out st ++ rest) l;
  inv_reach : forall v, reaches prog final (r_dead st) rest v -> reaches prog final false prog (r_out st ++ v);
  inv_branch : last_branch (r_dead st) (r_out st) rest
}.

Lemma inv_suffix o rest st : reach_inv (o :: rest) st -> exists a, prog = a ++ rest.
Proof. intros [[a ->] _ _ _ _]. exists (a ++ [o]). by rewrite <- app_assoc. Qed.

Lemma remove_refs a o b refs l : (length a + S (length b) <= length prog)%nat -> (forall k, refs k = label_refs (a ++ o :: b) k) ->
  tcg_op_remove refs o l = label_refs (a ++ b) l.
Proof.
  intros Hsz Hr. pose proof (label_refs_range a l). pose proof (label_refs_range b l). unfold tcg_op_remove.
  destruct (op_label o) as [k|] eqn:El; [destruct (Z.eqb_spec l k) as [-> |Hne]|]; rewrite Hr, !label_refs_app, label_refs_cons, El.
  - rewrite decide_True by done. rewrite wrap_id; [lia|]. unfold uint. lia.
  - rewrite decide_False by congruence. lia.
  - rewrite decide_False by done. lia.
Qed.

Lemma inv_keep o rest st : reach_inv (o :: rest) st -> r_dead st = false -> reach_inv rest (reach_keep (ends o) st o).
Proof.
  intros H Hd. pose proof H as [[a Ea] Hsz Hr Ha Hb]. cbn [length] in Hsz. split; cbn [reach_keep r_out r_dead r_refs].
  - by apply (inv_suffix o rest st).
  - rewrite length_app. cbn. lia.
  - intros l. by rewrite <- app_assoc.
  - intros v Hv. rewrite <- app_assoc. apply Ha. rewrite Hd. by apply reaches_keep.
  - intros out0 x [<- <-]%app_inj_tail Eo. split; [unfold ends; by rewrite Eo|]. split.
    + intros p [l El]%last_Some Ep. by destruct (Hb l p El Ep) as [Hd' _]; rewrite Hd in Hd'.
    + exists a, []. split; [done|]. split; [done|]. intros v Hv. apply Ha. by rewrite Hd.
Qed.

Lemma inv_drop o rest st : reach_inv (o :: rest) st -> r_dead st = true -> no_label final o -> reach_inv rest (reach_remove true st o).
Proof.
  intros H Hd Hn. pose proof H as [[a Ea] Hsz Hr Ha Hb]. cbn [length] in Hsz. split; cbn [reach_remove r_out r_dead r_refs].
  - by apply (inv_suffix o rest st).
  - lia.
  - intros l. by apply remove_refs.
  - intros v Hv. apply Ha. rewrite Hd. by apply reaches_drop.
  - intros out0 x Eout Eo. destruct (Hb out0 x Eout Eo) as (_ & Hl & b & seg & Eb & Hseg & Hv). split; [done|]. split; [done|]. exists b, (seg ++ [o]).
    rewrite <- !app_assoc. split; [done|]. split; [|done]. apply Forall_app. by split; [|apply Forall_singleton].
Qed.

(** An operation that is kept in dead code: what follows it is reached when it is a label. *)
Lemma inv_dead o rest st : reach_inv (o :: rest) st -> r_dead st = true -> opc o = op_insn_start \/ opc o = op_set_label ->
  reach_inv rest (reach_keep (bool_decide (opc o = op_insn_start)) st o).
Proof.
  intros H Hd Eo. pose proof H as [[a Ea] Hsz Hr Ha Hb]. cbn [length] in Hsz. split; cbn [reach_keep r_out r_dead r_refs].
  - by apply (inv_suffix o rest st).
  - rewrite length_app. cbn. lia.
  - intros l. by rewrite <- app_assoc.
  - intros v Hv. rewrite <- app_assoc. apply Ha. rewrite Hd. destruct Eo as [Eo|Eo]; rewrite Eo in Hv; [by apply reaches_insn|by apply reaches_label].
  - intros out0 x [<- <-]%app_inj_tail Ex. rewrite Ex in Eo. by destruct Eo.
Qed.

Lemma inv_unnamed o rest st : reach_inv (o :: rest) st -> r_dead st = false -> opc o = op_set_label -> no_label final o ->
  reach_inv rest (reach_remove false st o).
Proof.
  intros H Hd Eo Hn. pose proof H as [[a Ea] Hsz Hr Ha Hb]. cbn [length] in Hsz. split; cbn [reach_remove r_out r_dead r_refs].
  - by apply (inv_suffix o rest st).
  - lia.
  - intros l. by apply remove_refs.
  - intros v Hv. apply Ha. rewrite Hd. by apply reaches_unnamed.
  - intros out0 x Eout Ex. destruct (Hb out0 x Eout Ex) as [Hd' _]. by rewrite Hd in Hd'.
Qed.

Lemma inv_next o rest st out0 p : reach_inv (o :: rest) st -> r_out st = out0 ++ [p] -> opc p = op_br -> opc o = op_set_label ->
  args p 0%nat = args o 0%nat -> no_label final o -> reach_inv rest (mk_reach false out0 (tcg_op_remove (tcg_op_remove (r_refs st) p) o)).
Proof.
  intros H Eout Ep Eo El Hn. pose proof H as [_ Hsz Hr Ha Hb]. rewrite Eout, length_app in Hsz. cbn [length] in Hsz.
  destruct (Hb out0 p Eout Ep) as (Hd & Hl & a & seg & Ea & Hseg & Hv). split; cbn [r_out r_dead r_refs].
  - by apply (inv_suffix o rest st).
  - lia.
  - intros l. apply remove_refs; [lia|]. intros k. apply remove_refs; [cbn [length]; lia|]. intros k'. rewrite Hr, Eout. by rewrite <- app_assoc.
  - intros v Hrest. apply Hv, reaches_next; try done. rewrite El. replace prog with ((a ++ p :: seg) ++ o :: rest) by (by rewrite <- app_assoc).
    apply find_label_at; [done|done|]. rewrite <- app_assoc. cbn [app]. by rewrite <- Ea.
  - intros out1 x -> Ex. exfalso. apply (Hl x); [by rewrite last_snoc|done].
Qed.

(** A round. *)
Lemma inv_op o rest st st' : reach_inv (o :: rest) st -> reach_op st o = Some st' ->
  (forall l, named final l -> named (r_out st' ++ rest) l) -> reach_inv rest st'.
Proof.
  intros H Hop Hn. pose proof (inv_refs _ _ H) as Hr.
  assert (opc o <> op_set_label -> reach_inv rest (reach_if (r_dead st || ends o) st o)) as Hif.
  { intros Hl. unfold reach_if. destruct (r_dead st) eqn:Hd; cbn [orb]; [apply inv_drop; [done|done|intros E; done]|by apply inv_keep]. }
  assert (opc o = op_set_label -> reach_inv rest (reach_keep false st o)) as Hlab.
  { intros Eo. destruct (r_dead st) eqn:Hd.
    - pose proof (inv_dead o rest st H Hd (or_intror Eo)) as H'. by rewrite bool_decide_eq_false_2 in H' by (by rewrite Eo).
    - pose proof (inv_keep o rest st H Hd) as H'. unfold ends in H'. by rewrite Eo in H'. }
  unfold reach_op in Hop. unfold ends in Hif. destruct (opc o) eqn:Eo; try (injection Hop as <-); try (by rewrite ?orb_true_r, ?orb_false_r in Hif; apply Hif).
  - destruct (Z.eqb_spec (r_refs st (args o 0%nat)) 0) as [E0|E0].
    + injection Hop as <-. assert (no_label final o) as Hno.
      { intros _ Hnm%Hn. cbn [reach_remove r_out] in Hnm. revert Hnm. apply label_refs_named. rewrite Hr, label_refs_app, label_refs_cons in E0.
        rewrite label_refs_app. pose proof (label_refs_range (r_out st) (args o 0%nat)). pose proof (label_refs_range rest (args o 0%nat)). case_decide; lia. }
      destruct (r_dead st) eqn:Hd; [by apply inv_drop|by apply inv_unnamed].
    + destruct (Z.eqb_spec (r_refs st (args o 0%nat)) 1) as [E1|E1]; [|injection Hop as <-; by apply Hlab].
      destruct (last (r_out st)) as [p|] eqn:Ep; [|done]. cbn [mbind option_bind] in Hop. destruct (_ && _) eqn:Eb; injection Hop as <-; [|by apply Hlab].
      apply andb_prop in Eb as [Eb%bool_decide_eq_true El%Z.eqb_eq]. apply last_Some in Ep as [out0 Eout]. unfold reach_remove in *. cbn [r_out r_refs] in *.
      rewrite Eout, removelast_last in *. apply (inv_next o rest st out0 p); try done.
      intros _ Hnm%Hn. revert Hnm. apply label_refs_named. rewrite Hr, <- app_assoc, label_refs_app in E1. cbn [app] in E1. rewrite label_refs_cons in E1.
      rewrite decide_True in E1 by (unfold op_label; by rewrite Eb, El). rewrite label_refs_cons in E1. rewrite label_refs_app.
      unfold op_label in E1. rewrite Eo, decide_False in E1 by done. lia.
  - destruct (r_dead st) eqn:Hd.
    + pose proof (inv_dead o rest st H Hd (or_introl Eo)) as H'. by rewrite bool_decide_eq_true_2 in H'.
    + pose proof (inv_keep o rest st H Hd) as H'. unfold ends in H'. by rewrite Eo in H'.
Qed.

Lemma reach_op_kept st o st' x : reach_op st o = Some st' -> x ∈ r_out st' -> x ∈ r_out st ++ [o].
Proof.
  assert (x ∈ removelast (r_out st) -> x ∈ r_out st ++ [o]) as Hrm.
  { destruct (r_out st) as [|y l _] using rev_ind; [by intros ?%elem_of_nil|]. rewrite removelast_last. set_solver. }
  unfold reach_op, reach_if, reach_keep, reach_remove. destruct (opc o); intros Hop; repeat match type of Hop with
    | (if ?b then _ else _) = _ => destruct b | mbind _ ?e = _ => destruct e; cbn [mbind option_bind] in Hop; [|discriminate Hop] end;
    injection Hop as <-; try (destruct (r_dead st)); cbn [r_out]; try exact Hrm; set_solver.
Qed.

Lemma loop_named ops st st' l : reach_loop st ops = Some st' -> named (r_out st') l -> named (r_out st ++ ops) l.
Proof.
  revert st. induction ops as [|o ops IH]; intros st; cbn [reach_loop]; [intros [= <-]; by rewrite app_nil_r|].
  destruct (reach_op st o) as [st1|] eqn:E; [|done]. cbn [mbind option_bind]. intros Hl Hn. destruct (IH st1 Hl Hn) as (x & Hx & Ex). exists x. split; [|done].
  apply elem_of_app in Hx as [Hx|Hx]; [|set_solver]. pose proof (reach_op_kept _ _ _ _ E Hx). set_solver.
Qed.

Lemma loop_reaches ops st st' : reach_loop st ops = Some st' -> final = r_out st' -> reach_inv ops st -> reaches prog final false prog final.
Proof.
  revert st. induction ops as [|o ops IH]; intros st; cbn [reach_loop].
  - intros [= <-] Ef H. pose proof (inv_reach _ _ H [] (reaches_nil _ _ _)) as Hv. by rewrite app_nil_r, <- Ef in Hv.
  - destruct (reach_op st o) as [st1|] eqn:E; [|done]. cbn [mbind option_bind]. intros Hl Ef H. apply (IH st1 Hl Ef). apply (inv_op o ops st st1 H E).
    intros l Hn. apply (loop_named ops st1 st' l Hl). by rewrite <- Ef.
Qed.
End loop.

(** ** The pass *)

(** The first operation is neither a label nor a branch. *)
Definition starts_ok (ops : list TCGOp) : bool :=
  match ops with o :: _ => negb (bool_decide (opc o = op_set_label)) && negb (bool_decide (opc o = op_br)) | [] => true end.

(** It is never removed, so there always is an operation before a label. *)
Lemma reach_op_first o0 l st o : r_out st = o0 :: l -> opc o0 <> op_br -> exists st' l', reach_op st o = Some st' /\ r_out st' = o0 :: l'.
Proof.
  intros Eout Hb. assert (exists l', removelast (o0 :: l) = o0 :: l' \/ l = []) as [l' Hl'] by (destruct l; [exists []; by right|eexists; by left]).
  unfold reach_op, reach_if. destruct (opc o); repeat (case_match; try discriminate);
    first [eexists _, _; split; [done|cbn [r_out reach_keep reach_remove]; by rewrite Eout; cbn [app]]|idtac].
  all: rewrite ?Eout in *.
  all: destruct (last (o0 :: l)) as [p|] eqn:Ep; [|by apply last_None in Ep]; cbn [mbind option_bind]; destruct (_ && _) eqn:Eb;
    [|by eexists _, _; split; [done|cbn [r_out reach_keep]; rewrite Eout; cbn [app]]].
  all: destruct Hl' as [Hl'| ->]; [eexists _, l'; split; [done|cbn [r_out reach_remove]; by rewrite Hl']|].
  all: injection Ep as <-; apply andb_prop in Eb as [Eb%bool_decide_eq_true _]; done.
Qed.

Lemma loop_total o0 ops : opc o0 <> op_br -> forall st l, r_out st = o0 :: l -> exists st', reach_loop st ops = Some st'.
Proof.
  intros Hb. induction ops as [|o ops IH]; intros st l El; [by eexists|]. cbn [reach_loop].
  destruct (reach_op_first o0 l st o El Hb) as (st1 & l1 & -> & E1). apply (IH st1 l1 E1).
Qed.

Lemma reachable_total refs ops : starts_ok ops = true -> exists ops', reachable_code_pass refs ops = Some ops'.
Proof.
  unfold reachable_code_pass. destruct ops as [|o ops]; [by eexists|]. intros [H1%negb_true_iff%bool_decide_eq_false H2%negb_true_iff%bool_decide_eq_false]%andb_prop.
  cbn [reach_loop]. assert (exists st1, reach_op (mk_reach false [] refs) o = Some st1 /\ r_out st1 = [o]) as (st1 & -> & E1).
  { unfold reach_op, reach_if. destruct (opc o); try done; by eexists. }
  cbn [mbind option_bind]. destruct (loop_total o ops H2 st1 [] E1) as [st' ->]. by eexists.
Qed.

Lemma reachable_reaches ops ops' : Z.of_nat (length ops) < 2 ^ 16 -> NoDup (labels ops) ->
  reachable_code_pass (label_refs ops) ops = Some ops' -> reaches ops ops' false ops ops'.
Proof.
  intros Hlen Hnd. unfold reachable_code_pass. destruct (reach_loop _ ops) as [st'|] eqn:E; [|done]. intros [= <-].
  apply (loop_reaches ops (r_out st') Hlen Hnd ops _ st' E eq_refl). split; cbn [r_out r_refs r_dead]; [by exists []|cbn; lia|done|done|].
  intros [|] o Eo; discriminate Eo.
Qed.

Section refines.
Context {M : Type} `{!TcgEnv M} `{!HelperLaws M} (s : TCGContext).

Lemma reachable_refines ops : Z.of_nat (length ops) < 2 ^ 16 -> NoDup (labels ops) -> starts_ok ops = true -> Forall (fun o => flags_ok o = true) ops ->
  exists ops', reachable_code_pass (label_refs ops) ops = Some ops' /\ refines s ops ops'.
Proof.
  intros Hlen Hnd Hst Hf. destruct (reachable_total (label_refs ops) ops Hst) as [ops' E]. exists ops'. split; [done|].
  pose proof (reachable_reaches ops ops' Hlen Hnd E) as Hr. intros Q st _ Hreg Hm. apply (must_reaches ops ops' s Q Hr ops st Hm Hreg Hf Hf); [done|by exists []].
Qed.
End refines.
