(* ===== verification/TcgLiveness.v ===== *)
(** * Removing dead operations keeps guarantees

    Two states agree on the temps whose state is not [TS_DEAD]: those that are
    used later or have to be in memory.  A kept operation keeps states that
    agree in step, a removed one changes nothing that is needed, and a
    destroyed temp may get the same value in both. *)

From S2P Require Import Prelude BitOps HostUtils TcgOps TcgSem TcgOptimize TcgValues TcgFields TcgMasks TcgCopies TcgPhases TcgRuns TcgBlocks TcgPasses TcgReach.

Section steps.
Context {M : Type} `{!TcgEnv M} (s : TCGContext).

(** ** Writes on both sides *)

(** The temps [ws] and those that were equal are equal afterwards. *)
Definition both (ws : list Z) (r r' r1 r1' : gmap Z Z) : Prop := forall t, t ∈ ws \/ r !! t = r' !! t -> r1 !! t = r1' !! t.

Lemma wr_lookup t v r u : wr s t v r !! u = if decide (u = t) then Some (wrap (type_bits (ty s t)) v) else r !! u.
Proof. unfold wr. case_decide; [subst; by rewrite lookup_insert_eq|by rewrite lookup_insert_ne by congruence]. Qed.

Lemma both_refl r r' : both [] r r' r r'.
Proof. intros t [H|H]; [by apply elem_of_nil in H|done]. Qed.

Lemma both_wr t v r r' : both [t] r r' (wr s t v r) (wr s t v r').
Proof. intros u. rewrite !wr_lookup, list_elem_of_singleton. case_decide; naive_solver. Qed.

Lemma both_trans a b r r' r1 r1' r2 r2' : both a r r' r1 r1' -> both b r1 r1' r2 r2' -> both (a ++ b) r r' r2 r2'.
Proof. intros H1 H2 t Ht. apply H2. rewrite elem_of_app in Ht. destruct Ht as [[Ht|Ht]|Ht]; auto. Qed.

Lemma both_weaken a b r r' r1 r1' : both a r r' r1 r1' -> (forall t, t ∈ b -> t ∈ a) -> both b r r' r1 r1'.
Proof. intros H Hab t [Ht|Ht]; apply H; auto. Qed.

Lemma both_list ts vs r r' : length vs = length ts -> both ts r r' (wr_list s ts vs r) (wr_list s ts vs r').
Proof.
  revert vs r r'. induction ts as [|t ts IH]; intros [|v vs] r r' Hl; try discriminate; cbn [wr_list]; [apply both_refl|].
  apply (both_trans [t] ts _ _ (wr s t v r) (wr s t v r')); [apply both_wr|]. apply IH. cbn in Hl. lia.
Qed.

Lemma both_globals g r r' : both [] r r' (set_globals s g r) (set_globals s g r').
Proof.
  unfold set_globals. revert g r r'. induction (seqZ 1 (nb_globals s)) as [|t ts IH]; intros [|v vs] r r'; cbn [wr_list]; try apply both_refl.
  apply (both_trans [] [] _ _ (wr s t v r) (wr s t v r')); [|apply IH]. by apply (both_weaken [t]); [apply both_wr|intros u ?%elem_of_nil].
Qed.

Lemma wr_list_other ts vs r u : u ∉ ts -> wr_list s ts vs r !! u = r !! u.
Proof.
  revert vs r. induction ts as [|t ts IH]; intros [|v vs] r Hu; cbn; try done. rewrite IH by set_solver. rewrite wr_lookup, decide_False by set_solver. done.
Qed.

Lemma op_sem_length o ins outs : pure_op (opc o) = true -> op_sem o ins = Some outs -> length outs = length (outputs o).
Proof.
  unfold outputs. rewrite length_fmap, length_seq. unfold op_oargs, op_sem, shift_sem, divs_sem, divu_sem, split_sem. cbv zeta. intros Hp H.
  destruct (opc o); try discriminate; destruct ins as [|? [|? [|? [|? [|]]]]]; try discriminate;
    repeat match type of H with
      | (if ?b then _ else _) = _ => destruct b; try discriminate H
      | mbind _ ?e = _ => destruct e; cbn [mbind option_bind] in H; try discriminate H end;
    injection H as <-; try done; by destruct t as [[]|].
Qed.

(** ** Steps on both sides *)

(** The states of two results, where [ws] were written. *)
Definition in_step (ws : list Z) (st st' : machine M) (res res' : op_result M) : Prop :=
  match res, res' with
  | Next a, Next b => both ws (regs st) (regs st') (regs a) (regs b) /\ barrier a = barrier b /\ memory a = memory b
  | Jump l a, Jump l' b => l = l' /\ a = st /\ b = st'
  | Stop e a, Stop e' b => e = e' /\ regs a = regs st /\ regs b = regs st' /\ barrier a = barrier b /\ memory a = memory b
  | _, _ => False
  end.

(** Steps from states with the same inputs, and the same globals where they are read. *)
Lemma step_both o (st st' : machine M) res : opc o <> op_discard ->
  barrier st = barrier st' -> memory st = memory st' -> (forall t, t ∈ inputs o -> rd (regs st) t = rd (regs st') t) ->
  (opc o = op_call -> call_globals s o (regs st) = call_globals s o (regs st')) -> step s o st = Some res ->
  exists res', step s o st' = Some res' /\ in_step (outputs o) st st' res res'.
Proof.
  intros Hd Eb Em Ei Eg H. assert (rd (regs st') <$> inputs o = rd (regs st) <$> inputs o) as Ein.
  { apply list_fmap_ext. intros i t Ht. symmetry. apply Ei. by eapply list_elem_of_lookup_2. }
  destruct st as [r b m], st' as [r' b' m']. cbn [barrier memory regs] in *. subst b' m'. destruct (pure_op (opc o)) eqn:Hp.
  - rewrite step_pure in * by done. cbn [regs] in *. rewrite Ein. destruct (op_sem o _) as [outs|] eqn:Eo; [|done]. injection H as <-. eexists. split; [done|].
    split; [|done]. apply both_list. by apply op_sem_length in Eo.
  - unfold step in *. cbn [regs barrier memory] in *. rewrite Ein. cbv zeta in *.
    assert (forall t v, outputs o = [t] -> both (outputs o) r r' (wr s t v r) (wr s t v r')) as Hw by (intros t v ->; apply both_wr).
    assert (outputs o = [] -> both (outputs o) r r' r r') as H0 by (intros ->; apply both_refl).
    destruct (opc o) eqn:Eo; try discriminate; try done;
      try (injection H as <-; eexists; split; [done|]; done);
      try (injection H as <-; eexists; (split; [done|]); (split; [first [apply Hw|apply H0]; unfold outputs, op_oargs; by rewrite Eo|done]));
      try (destruct w; injection H as <-; eexists; (split; [done|]); (split; [first [apply Hw|apply H0]; unfold outputs, op_oargs; by rewrite Eo|done]));
      try (destruct (opaque_sem _ _ _ _ _ _) as [[outs m1]|]; [|done]; cbn [mbind option_bind] in *; case_decide as El; [|done]; injection H as <-;
           eexists; split; [done|]; split; [by apply both_list|done]);
      try (destruct (eval_cond _ _ _ _) as [[]|]; [| |done]; injection H as <-; eexists; (split; [done|]);
           [done|split; [apply H0; unfold outputs, op_oargs; by rewrite Eo|done]]).
    + rewrite <- Eg by done. destruct (helper _ _ _ _ _) as [[[outs g]|] m1]; [|by injection H as <-; eexists].
      case_decide as El; [|done]. injection H as <-. eexists. split; [done|]. split; [|done]. cbn [regs].
      apply (both_trans [] _ _ _ (if call_keeps_globals o then r else set_globals s g r) (if call_keeps_globals o then r' else set_globals s g r')).
      * destruct (call_keeps_globals o); [apply both_refl|apply both_globals].
      * by apply both_list.
    + destruct (tb_linked m _); injection H as <-; eexists; (split; [done|]); [done|split; [apply H0; unfold outputs, op_oargs; by rewrite Eo|done]].
    + destruct (guest_ld _ _ _ _) as [[v|] m1]; injection H as <-; eexists; (split; [done|]); [split; [apply Hw; unfold outputs, op_oargs; by rewrite Eo|done]|done].
    + destruct (guest_st _ _ _ _ _) as [[] m1]; injection H as <-; eexists; (split; [done|]); [split; [apply H0; unfold outputs, op_oargs; by rewrite Eo|done]|done].
Qed.
(** ** What is needed *)

Definition needed (n : temp_states) (t : Z) : Prop := n t <> TS_DEAD.

Definition agree (n : temp_states) (st st' : machine M) : Prop :=
  barrier st = barrier st' /\ memory st = memory st' /\ forall t, needed n t -> regs st !! t = regs st' !! t.

Lemma la_outputs_state i ts n life u : (la_outputs i ts n life).1 u = if decide (u ∈ ts) then TS_DEAD else n u.
Proof.
  revert i n life. induction ts as [|t ts IH]; intros i n life; cbn [la_outputs]; [by rewrite decide_False by apply not_elem_of_nil|]. rewrite IH.
  unfold set_state. destruct (decide (u ∈ ts)) as [H|H]; [by rewrite decide_True by set_solver|]. destruct (Z.eqb_spec u t) as [-> |Hne].
  - by rewrite decide_True by set_solver.
  - by rewrite decide_False by set_solver.
Qed.

Lemma live_state x : (if has_bit x TS_DEAD then Z.ldiff x TS_DEAD else x) <> TS_DEAD.
Proof.
  unfold has_bit, TS_DEAD. destruct (Z.eqb_spec (Z.land x 1) 0) as [E|E]; cbn [negb]; intros Hx; [by rewrite Hx in E|].
  apply (f_equal (fun z => Z.testbit z 0)) in Hx. by rewrite Z.ldiff_spec, andb_false_r in Hx.
Qed.

Lemma la_inputs_needed ts n t : t ∈ ts \/ needed n t -> needed (la_inputs ts n) t.
Proof.
  revert n. induction ts as [|u ts IH]; intros n H; cbn [la_inputs]; [destruct H as [H|H]; [by apply elem_of_nil in H|done]|]. apply IH.
  destruct (decide (t = u)) as [-> |Hne].
  - right. pose proof (live_state (n u)). unfold needed. destruct (has_bit (n u) TS_DEAD); [|done]. unfold set_state. by rewrite Z.eqb_refl.
  - destruct H as [H|H]; [left; set_solver|right]. unfold needed in *. destruct (has_bit (n u) TS_DEAD); [|done]. unfold set_state. by rewrite (proj2 (Z.eqb_neq t u)).
Qed.

(** What an operation does to the states besides its arguments. *)
Definition op_states (o : TCGOp) : temp_states -> temp_states :=
  match opc o with op_call => la_call s o | c => la_flags s c end.

Lemma keep_needed n f o t : t ∈ inputs o \/ needed (f (la_outputs 0 (outputs o) n 0).1) t -> needed (la_keep f o n).1 t.
Proof. unfold la_keep. destruct (la_outputs 0 (outputs o) n 0) as [n1 life]. cbn. apply la_inputs_needed. Qed.

Lemma lor_mem x : Z.lor x TS_MEM <> TS_DEAD.
Proof. intros H. apply (f_equal (fun z => Z.testbit z 1)) in H. by rewrite Z.lor_spec, orb_true_r in H. Qed.

(** Globals are needed by whatever may leave the block. *)
Lemma globals_needed n o t : is_global s t = true -> opf_bb_exit (opc o) = true \/ opf_side_effects (opc o) = true \/
  (opc o = op_call /\ call_flag o TCG_CALL_NO_READ_GLOBALS = false) -> needed (op_states o n) t.
Proof.
  unfold needed, op_states, la_call, la_flags, la_func_end, la_global_sync, la_global_kill. intros Hg [H|[H|[H H']]].
  - destruct (opc o); try discriminate; by rewrite H, Hg.
  - destruct (opc o); try discriminate; cbn; rewrite Hg; apply lor_mem.
  - rewrite H, H'. cbn [negb]. destruct (negb (call_keeps_globals o)); rewrite Hg; [done|apply lor_mem].
Qed.

(** What survives an operation that stays was needed before it. *)
Lemma survivors_needed n o t : opc o <> op_discard -> survives s o t = true -> t ∉ outputs o -> needed n t \/ kills (opc o) = true ->
  needed (op_states o (la_outputs 0 (outputs o) n 0).1) t.
Proof.
  intros Hd Hs Ho Hn. set (n1 := (la_outputs 0 (outputs o) n 0).1).
  assert (needed n t -> needed n1 t) as H1 by (unfold needed, n1; by rewrite la_outputs_state, decide_False).
  assert (forall m, needed m t -> needed (la_global_sync s m) t) as H2.
  { intros m Hm. unfold needed, la_global_sync in *. destruct (is_global s t); [apply lor_mem|done]. }
  clearbody n1. unfold op_states, survives, kills in *. destruct (decide (opc o = op_call)) as [Ec|Ec].
  - rewrite Ec in *. destruct Hn as [Hn|Hn]; [|done]. unfold la_call.
    destruct (negb (call_keeps_globals o)); [|destruct (negb _); auto]. unfold needed, la_global_kill. destruct (is_global s t); [done|by apply H1].
  - rewrite bool_decide_eq_false_2 in Hn by done. cbn [orb] in Hn.
    assert (needed (la_flags s (opc o) n1) t) as H3; [|by destruct (opc o)].
    assert ((if opf_bb_exit (opc o) then is_global s t else if opf_bb_end (tcg_op_defs (opc o)) then is_global s t || temp_local (temps s t) else true) = true) as Hs'
      by (destruct (opc o); done).
    unfold la_flags. destruct (opf_bb_exit (opc o)); [unfold needed, la_func_end; by rewrite Hs'|]. destruct (opf_bb_end (tcg_op_defs (opc o))).
    + unfold needed, la_bb_end. destruct (is_global s t); [done|]. cbn [orb] in Hs'. by rewrite Hs'.
    + destruct Hn as [Hn|Hn]; [|done]. destruct (opf_side_effects (opc o)); auto.
Qed.

(** ** Kept operations *)

Context `{!HelperLaws M}.

(** What leaves a block early. *)
Lemma stop_ops o (st : machine M) e st1 : step s o st = Some (Stop e st1) ->
  opf_bb_exit (opc o) = true \/ opf_side_effects (opc o) = true \/ (opc o = op_call /\ call_flag o TCG_CALL_NO_READ_GLOBALS = false).
Proof.
  destruct (pure_op (opc o)) eqn:Hp; [rewrite step_pure by done; by destruct (op_sem o _)|].
  intros H. destruct (decide (opc o = op_call)) as [Ec|Ec].
  - right. right. split; [done|]. apply not_true_is_false. intros Hf. unfold step in H. rewrite Ec in H. cbv zeta in H.
    destruct (helper_silent (barrier st) (constants o) (rd (regs st) <$> inputs o) (call_globals s o (regs st)) (memory st)) as ([outs g] & m' & E);
      [by rewrite call_has_flag|]. rewrite E in H. by case_decide.
  - unfold step in H. cbv zeta in H. destruct (opc o); try discriminate; try done; auto;
      first [destruct w; discriminate|destruct (eval_cond _ _ _ _) as [[]|]; discriminate
            |destruct (opaque_sem _ _ _ _ _ _) as [[outs m']|]; [|discriminate]; cbn [mbind option_bind] in H; by case_decide].
Qed.

(** Two results after which the needed temps [n] are equal. *)
Definition kept (o : TCGOp) (n : temp_states) (res res' : op_result M) : Prop :=
  let eq a b := barrier a = barrier b /\ memory a = memory b /\
    forall t, survives s o t = true -> needed n t \/ kills (opc o) = true -> regs a !! t = regs b !! t in
  match res, res' with
  | Next a, Next b => eq a b
  | Jump l a, Jump l' b => l = l' /\ eq a b
  | Stop e a, Stop e' b => e = e' /\ same s a b
  | _, _ => False
  end.

Lemma kept_step n o (st st' : machine M) res : opc o <> op_discard -> agree (la_keep (op_states o) o n).1 st st' -> step s o st = Some res ->
  exists res', step s o st' = Some res' /\ kept o n res res'.
Proof.
  intros Hd (Eb & Em & Ht) H.
  assert (forall t, t ∈ inputs o \/ needed (op_states o (la_outputs 0 (outputs o) n 0).1) t -> regs st !! t = regs st' !! t) as Hin
    by (intros t Hn; by apply Ht, keep_needed).
  destruct (step_both o st st' res) as (res' & E & Hres); try done.
  - intros t Hi. unfold rd. by rewrite Hin by auto.
  - intros Ec. unfold call_globals. destruct (call_flag o TCG_CALL_NO_READ_GLOBALS) eqn:Hf; [done|]. unfold globals_of. apply list_fmap_ext.
    intros i t Hi. apply list_elem_of_lookup_2, elem_of_seqZ in Hi. unfold rd. rewrite Hin; [done|]. right. apply globals_needed; [unfold is_global; lia|auto].
  - exists res'. split; [done|]. unfold kept. destruct res as [a|l a|e a], res' as [b|l' b|e' b]; try done; cbn [in_step] in Hres.
    + destruct Hres as (Hb & E1 & E2). split; [done|]. split; [done|]. intros t Hs Hn. apply Hb. destruct (decide (t ∈ outputs o)) as [Ho|Ho]; [by left|right].
      apply Hin. right. by apply survivors_needed.
    + destruct Hres as (-> & -> & ->). split; [done|]. split; [done|]. split; [done|]. intros t Hs Hn. apply Hin. right. apply survivors_needed; try done.
      pose proof (jump_kills s o st l' st H) as Hk. destruct (opc o) eqn:Eo; try done; unfold outputs, op_oargs; rewrite Eo; cbn; try apply not_elem_of_nil;
        first [by destruct t0 as [[]|]|by destruct v].
    + destruct Hres as (-> & Ra & Rb & E1 & E2). split; [done|]. split; [done|]. split; [done|]. intros t Hg. rewrite Ra, Rb. symmetry. apply Hin. right.
      apply globals_needed; [done|]. by apply (stop_ops o st e' a).
Qed.

(** ** Removed operations *)

Lemma wr_unchanged t r : regs_ok s r -> valid s t = true -> wr s t (rd r t) r = r.
Proof.
  intros Hr Hv. destruct (Hr t Hv) as (v & E & Hu). unfold wr, rd. rewrite E. cbn [default]. change (ts_type (temps s t)) with (ty s t).
  rewrite wrap_id by done. by apply insert_id.
Qed.

Lemma set_globals_same r : nb_globals s <= nb_temps s -> regs_ok s r -> set_globals s (globals_of s r) r = r.
Proof.
  intros Hg Hr. unfold set_globals, globals_of. assert (forall t, t ∈ seqZ 1 (nb_globals s) -> valid s t = true) as Hv.
  { intros t Ht%elem_of_seqZ. unfold valid. lia. }
  induction (seqZ 1 (nb_globals s)) as [|t ts IH]; [done|]. cbn [fmap list_fmap wr_list]. rewrite wr_unchanged by (done || apply Hv; set_solver).
  apply IH. intros u Hu. apply Hv. set_solver.
Qed.

(** A step that only changes outputs. *)
Definition only_outputs (o : TCGOp) (st : machine M) (res : op_result M) : Prop :=
  exists a, res = Next a /\ barrier a = barrier st /\ memory a = memory st /\ forall t, t ∉ outputs o -> regs a !! t = regs st !! t.

Lemma removed_step o (st : machine M) res : opc o <> op_call -> opc o <> op_discard -> opf_side_effects (opc o) = false -> op_oargs o <> 0%nat ->
  step s o st = Some res -> only_outputs o st res.
Proof.
  intros Hc Hd Hs Ho H. assert (forall t v, outputs o = [t] -> forall u, u ∉ outputs o -> wr s t v (regs st) !! u = regs st !! u) as Hw.
  { intros t v -> u Hu. rewrite wr_lookup, decide_False by set_solver. done. }
  destruct (pure_op (opc o)) eqn:Hp.
  - rewrite step_pure in H by done. destruct (op_sem o _) as [outs|]; [|done]. injection H as <-. eexists. split; [done|]. split; [done|]. split; [done|].
    intros t Ht. by apply wr_list_other.
  - unfold op_oargs in Ho. unfold step in H. cbv zeta in H. destruct (opc o) eqn:Eo; try discriminate; try done;
      try (injection H as <-; eexists; split; [done|]; split; [done|]; split; [done|]; apply Hw; unfold outputs, op_oargs; by rewrite Eo);
      try (destruct w; injection H as <-; eexists; (split; [done|]); (split; [done|]); (split; [done|]); apply Hw; unfold outputs, op_oargs; by rewrite Eo).
    all: destruct (opaque_sem _ _ _ _ _ _) as [[outs m1]|] eqn:Eq; [|done]; cbn [mbind option_bind] in H; case_decide; [|done]; injection H as <-.
    all: apply opaque_reads in Eq as ->; [|done]; eexists; split; [done|]; split; [done|]; split; [done|]; intros t Ht; by apply wr_list_other.
Qed.

Lemma removed_call o (st : machine M) res : nb_globals s <= nb_temps s -> regs_ok s (regs st) -> opc o = op_call -> call_flag o TCG_CALL_NO_SIDE_EFFECTS = true ->
  step s o st = Some res -> only_outputs o st res.
Proof.
  intros Hg Hr Ec Hf H. unfold step in H. rewrite Ec in H. cbv zeta in H.
  destruct (helper_suppressed (barrier st) (constants o) (rd (regs st) <$> inputs o) (call_globals s o (regs st)) (memory st)) as [outs E];
    [by rewrite call_has_flag|]. rewrite E in H. case_decide; [|done]. injection H as <-. eexists. split; [done|]. cbn [barrier memory regs].
  split; [unfold call_barrier; by rewrite Hf|]. split; [done|]. intros t Ht. rewrite wr_list_other by done.
  destruct (call_keeps_globals o) eqn:Hk; [done|]. unfold call_globals. destruct (call_flag o TCG_CALL_NO_READ_GLOBALS) eqn:Hn; [|by rewrite set_globals_same].
  exfalso. unfold call_keeps_globals, call_flag in *. apply negb_false_iff, Z.eqb_eq in Hk. apply negb_true_iff, Z.eqb_neq in Hn. apply Hn.
  rewrite Z.land_lor_distr_r in Hk. by apply Z.lor_eq_0_iff in Hk as [Hk _].
Qed.

(** ** Halves of double words *)

(** The operation [o'] computes what [o] does for every temp but [dead]. *)
Definition half_of (o o' : TCGOp) (dead : Z) : Prop :=
  forall (st : machine M) res, step s o st = Some res ->
    exists a b, res = Next a /\ step s o' st = Some (Next b) /\ barrier a = barrier b /\ memory a = memory b /\
      forall t, t <> dead -> regs a !! t = regs b !! t.

(** Both outputs of [o], and the one output of [o']. *)
Lemma half_intro o o' (i j : nat) : pure_op (opc o) = true -> pure_op (opc o') = true -> outputs o = [args o 0%nat; args o 1%nat] -> outputs o' = [args o i] ->
  args o 0%nat <> args o 1%nat -> (i = 0 /\ j = 1 \/ i = 1 /\ j = 0)%nat ->
  (forall r outs, op_sem o (rd r <$> inputs o) = Some outs -> exists x y, outs = [x; y] /\ op_sem o' (rd r <$> inputs o') = Some [if (i =? 0)%nat then x else y]) ->
  half_of o o' (args o j).
Proof.
  intros Hp Hp' Eo Eo' Hne Hij H st res Hst. rewrite step_pure in Hst by done. destruct (op_sem o _) as [outs|] eqn:Es; [|done]. injection Hst as <-.
  destruct (H _ _ Es) as (x & y & -> & Es'). eexists _, _. split; [done|]. rewrite step_pure, Es' by done. split; [done|]. split; [done|]. split; [done|].
  intros t Ht. cbn [regs with_regs]. rewrite Eo, Eo'. cbn [wr_list]. rewrite !wr_lookup. destruct Hij as [[-> ->]|[-> ->]]; cbn [Nat.eqb] in *; repeat case_decide; congruence.
Qed.

Lemma wrap_double n a b k : 0 <= n -> wrap n (a + 2 ^ n * b + k) = wrap n (a + k).
Proof. intros Hn. replace (a + 2 ^ n * b + k) with (a + k + b * 2 ^ n) by ring. unfold wrap. by rewrite Z.mod_add by (apply Z.pow_nonzero; lia). Qed.

Lemma inputs4 o : op_oargs o = 2%nat -> op_iargs o = 4%nat -> inputs o = [args o 2%nat; args o 3%nat; args o 4%nat; args o 5%nat].
Proof. unfold inputs. by intros -> ->. Qed.

Lemma double_inputs o : op_oargs o = 2%nat -> op_iargs o = 2%nat -> inputs o = [args o 2%nat; args o 3%nat].
Proof. unfold inputs. by intros -> ->. Qed.

Definition low_add (c : TCGOpcode) (o : TCGOp) : TCGOp := with_arg 2 (args o 4%nat) (with_arg 1 (args o 2%nat) (with_opc c o)).

Lemma addsub_low o w c : args o 0%nat <> args o 1%nat -> (opc o = op_add2 w /\ c = op_add (Int w) \/ opc o = op_sub2 w /\ c = op_sub (Int w)) ->
  half_of o (low_add c o) (args o 1%nat).
Proof.
  intros Hne Hc. assert (forall x, op_oargs x = 1%nat -> outputs x = [args x 0%nat]) as H1 by (intros x Hx; unfold outputs; by rewrite Hx).
  pose proof (bits_pos w) as Hb. apply (half_intro _ _ 0 1); try done; try lia; unfold outputs, op_oargs; cbn [opc with_arg with_opc low_add];
    try (destruct Hc as [[Ho ->]|[Ho ->]]; by rewrite ?Ho).
  intros r outs. rewrite (inputs4 o) by (unfold op_oargs, op_iargs; destruct Hc as [[-> _]|[-> _]]; done).
  assert (inputs (low_add c o) = [args o 2%nat; args o 4%nat]) as -> by (unfold inputs, op_oargs, op_iargs; destruct Hc as [[_ ->]|[_ ->]]; done).
  cbn [fmap list_fmap]. unfold op_sem, split_sem. cbn [opc with_arg with_opc low_add]. destruct Hc as [[-> ->]|[-> ->]]; intros [= <-]; eexists _, _; (split; [done|]);
    rewrite lift2_int; cbn [Nat.eqb]; do 2 f_equal.
  - match goal with |- wrap ?n (?a + ?b) = wrap ?n (?a + 2 ^ ?n * ?h + (?b + 2 ^ ?n * ?k)) => replace (a + 2 ^ n * h + (b + 2 ^ n * k)) with (a + 2 ^ n * (h + k) + b) by ring end.
    by rewrite wrap_double by lia.
  - match goal with |- wrap ?n (?a - ?b) = wrap ?n (?a + 2 ^ ?n * ?h - (?b + 2 ^ ?n * ?k)) => replace (a + 2 ^ n * h - (b + 2 ^ n * k)) with (a + 2 ^ n * (h - k) + - b) by ring end.
    by rewrite wrap_double by lia.
Qed.

Definition low_mul (c : TCGOpcode) (o : TCGOp) : TCGOp := with_arg 2 (args o 3%nat) (with_arg 1 (args o 2%nat) (with_opc c o)).
Definition high_mul (c : TCGOpcode) (o : TCGOp) : TCGOp :=
  with_arg 2 (args o 3%nat) (with_arg 1 (args o 2%nat) (with_arg 0 (args o 1%nat) (with_opc c o))).

Lemma mul_low o w : args o 0%nat <> args o 1%nat -> opc o = op_mulu2 w \/ opc o = op_muls2 w -> half_of o (low_mul (op_mul (Int w)) o) (args o 1%nat).
Proof.
  intros Hne Hc. pose proof (bits_pos w) as Hb. apply (half_intro _ _ 0 1); try done; try lia; unfold outputs, op_oargs; cbn [opc with_arg with_opc low_mul];
    try (destruct Hc as [Ho|Ho]; by rewrite ?Ho).
  intros r outs. rewrite (double_inputs o) by (unfold op_oargs, op_iargs; destruct Hc as [-> | ->]; done).
  change (inputs (low_mul (op_mul (Int w)) o)) with [args o 2%nat; args o 3%nat]. cbn [fmap list_fmap]. unfold op_sem, split_sem. cbn [opc with_arg with_opc low_mul].
  rewrite lift2_int. destruct Hc as [-> | ->]; intros [= <-]; eexists _, _; (split; [done|]); cbn [Nat.eqb]; [done|]. do 2 f_equal.
  rewrite <- (wrap_mul_l _ (sint _ _)), <- (wrap_mul_r _ _ (sint _ _)), !wrap_sint by lia. done.
Qed.

Lemma mul_high_half o w c : args o 0%nat <> args o 1%nat -> (opc o = op_mulu2 w /\ c = op_muluh w \/ opc o = op_muls2 w /\ c = op_mulsh w) ->
  half_of o (high_mul c o) (args o 0%nat).
Proof.
  intros Hne Hc. pose proof (bits_pos w) as Hb. apply (half_intro _ _ 1 0); try done; try lia; unfold outputs, op_oargs; cbn [opc with_arg with_opc high_mul];
    try (destruct Hc as [[Ho ->]|[Ho ->]]; by rewrite ?Ho).
  intros r outs. rewrite (double_inputs o) by (unfold op_oargs, op_iargs; destruct Hc as [[-> _]|[-> _]]; done).
  assert (inputs (high_mul c o) = [args o 2%nat; args o 3%nat]) as -> by (unfold inputs, op_oargs, op_iargs; destruct Hc as [[_ ->]|[_ ->]]; done).
  cbn [fmap list_fmap]. unfold op_sem, split_sem. cbn [opc with_arg with_opc high_mul].
  destruct Hc as [[-> ->]|[-> ->]]; intros [= <-]; eexists _, _; (split; [done|]); cbn [Nat.eqb]; [done|]. by rewrite !sint_wrap by lia.
Qed.

(** ** The walk *)

Context (have_high : TCGOpcode -> bool) (Hglobals : nb_globals s <= nb_temps s).

(** How an operation is treated, with the states [n] after and [n'] before it. *)
Inductive treated (o : TCGOp) (n n' : temp_states) : list TCGOp -> Prop :=
| treated_removed : n' = n -> kills (opc o) = false ->
    (forall st res, regs_ok s (regs st) -> step s o st = Some res -> only_outputs o st res) -> (forall t, t ∈ outputs o -> n t = TS_DEAD) -> treated o n n' []
| treated_kept : opc o <> op_discard -> n' = (la_keep (op_states o) o n).1 -> treated o n n' [o]
| treated_half o' dead : kills (opc o) = false -> kills (opc o') = false -> opc o' <> op_discard -> half_of o o' dead -> n dead = TS_DEAD ->
    n' = (la_keep (op_states o') o' n).1 -> treated o n n' [o']
| treated_insn : opc o = op_insn_start -> n' = n -> treated o n n' [o]
| treated_discard : opc o = op_discard -> n' = set_state (args o 0%nat) TS_DEAD n -> treated o n n' [o].

Lemma la_keep_ops f o n : (la_keep f o n).2.*1 = [o].
Proof. unfold la_keep. by destruct (la_outputs 0 (outputs o) n 0). Qed.

Lemma all_dead n ts : forallb (is_dead n) ts = true -> forall t, t ∈ ts -> n t = TS_DEAD.
Proof. rewrite forallb_forall. intros H t Ht. apply Z.eqb_eq, H. by apply list_elem_of_In. Qed.

Ltac dead_outputs Eo :=
  let t := fresh "t" in let Ht := fresh "Ht" in
  intros t Ht; unfold outputs, op_oargs in Ht; rewrite Eo in Ht; cbn in Ht; set_unfold in Ht; destruct Ht as [-> |[-> |[]]]; assumption.

Lemma addsub2_treated o w c n : (opc o = op_add2 w /\ c = op_add (Int w) \/ opc o = op_sub2 w /\ c = op_sub (Int w)) ->
  treated o n (la_addsub2 s c o n).1 (la_addsub2 s c o n).2.*1.
Proof.
  intros Hc. unfold la_addsub2, is_dead. destruct (Z.eqb_spec (n (args o 1%nat)) TS_DEAD) as [E1|E1].
  - destruct (Z.eqb_spec (n (args o 0%nat)) TS_DEAD) as [E0|E0].
    + cbn. apply treated_removed; [done|by destruct Hc as [[-> _]|[-> _]]| |].
      * intros st res _. apply removed_step; by destruct Hc as [[E _]|[E _]]; unfold op_oargs; rewrite E.
      * destruct Hc as [[E _]|[E _]]; dead_outputs E.
    + rewrite la_keep_ops. fold (low_add c o). apply (treated_half _ _ _ _ (args o 1%nat)); [by destruct Hc as [[-> _]|[-> _]]|by destruct Hc as [[_ ->]|[_ ->]]
        |by destruct Hc as [[_ ->]|[_ ->]]|apply (addsub_low o w c); [congruence|done]|done|]. unfold op_states. by destruct Hc as [[-> ->]|[-> ->]].
  - rewrite la_keep_ops. apply treated_kept; [by destruct Hc as [[-> _]|[-> _]]|]. unfold op_states. by destruct Hc as [[-> _]|[-> _]].
Qed.

Lemma mul2_treated o w c n : (opc o = op_mulu2 w /\ c = op_muluh w \/ opc o = op_muls2 w /\ c = op_mulsh w) ->
  treated o n (la_mul2 s have_high (op_mul (Int w)) c o n).1 (la_mul2 s have_high (op_mul (Int w)) c o n).2.*1.
Proof.
  intros Hc. unfold la_mul2, is_dead. destruct (Z.eqb_spec (n (args o 1%nat)) TS_DEAD) as [E1|E1].
  - destruct (Z.eqb_spec (n (args o 0%nat)) TS_DEAD) as [E0|E0].
    + cbn. apply treated_removed; [done|by destruct Hc as [[-> _]|[-> _]]| |].
      * intros st res _. apply removed_step; by destruct Hc as [[E _]|[E _]]; unfold op_oargs; rewrite E.
      * destruct Hc as [[E _]|[E _]]; dead_outputs E.
    + rewrite la_keep_ops. fold (low_mul (op_mul (Int w)) o). apply (treated_half _ _ _ _ (args o 1%nat)); [by destruct Hc as [[-> _]|[-> _]]|done|done|
        apply mul_low; [congruence|by destruct Hc as [[-> _]|[-> _]]; auto]|done|]. unfold op_states. by destruct Hc as [[-> _]|[-> _]].
  - destruct (Z.eqb_spec (n (args o 0%nat)) TS_DEAD) as [E0|E0]; cbn [andb]; [destruct (have_high c)|]; rewrite la_keep_ops.
    2,3: apply treated_kept; [by destruct Hc as [[-> _]|[-> _]]|]; unfold op_states; by destruct Hc as [[-> _]|[-> _]].
    fold (high_mul c o). apply (treated_half _ _ _ _ (args o 0%nat)); [by destruct Hc as [[-> _]|[-> _]]|by destruct Hc as [[_ ->]|[_ ->]]
      |by destruct Hc as [[_ ->]|[_ ->]]|apply (mul_high_half o w c); [congruence|done]|done|]. unfold op_states. by destruct Hc as [[-> ->]|[-> ->]].
Qed.

Lemma la_op_treated o n : treated o n (la_op s have_high o n).1 (la_op s have_high o n).2.*1.
Proof.
  assert (opc o <> op_call -> opc o <> op_discard -> let c := opc o in
    let r := if negb (opf_side_effects c) && negb (op_oargs o =? 0)%nat && forallb (is_dead n) (outputs o) then (n, []) else la_keep (la_flags s c) o n in
    treated o n r.1 r.2.*1) as Hgen.
  { intros Hc Hd. cbv zeta. destruct (_ && _) eqn:E.
    - apply andb_prop in E as [[E1%negb_true_iff E2%negb_true_iff%Nat.eqb_neq]%andb_prop E3]. apply treated_removed; [done| | |by apply all_dead].
      + unfold kills. rewrite bool_decide_eq_false_2 by done. unfold op_oargs in E2. destruct (opc o); try done; try (by destruct t as [[]|]); by destruct v.
      + intros st res _. by apply removed_step.
    - rewrite la_keep_ops. apply treated_kept; [done|]. unfold op_states. by destruct (opc o). }
  unfold la_op. destruct (opc o) eqn:Eo; try (by apply Hgen); try (by apply (addsub2_treated o w); auto); try (by apply (mul2_treated o w); auto).
  - by apply treated_discard.
  - destruct (_ && _) eqn:E.
    + apply andb_prop in E as [E1 E2]. apply treated_removed; [done|by rewrite Eo|intros st res Hr; by apply removed_call|by apply all_dead].
    + rewrite la_keep_ops. apply treated_kept; [by rewrite Eo|]. unfold op_states. by rewrite Eo.
  - by apply treated_insn.
Qed.

Definition live_states (ops : list TCGOp) : temp_states := (la_loop s have_high ops).1.
Definition live_ops (ops : list TCGOp) : list TCGOp := (la_loop s have_high ops).2.*1.

Lemma la_loop_cons o ops : exists n', live_ops (o :: ops) = (la_op s have_high o (live_states ops)).2.*1 ++ live_ops ops /\
  live_states (o :: ops) = n' /\ treated o (live_states ops) n' (la_op s have_high o (live_states ops)).2.*1.
Proof.
  pose proof (la_op_treated o (live_states ops)) as H. unfold live_ops, live_states in *. cbn [la_loop]. destruct (la_loop s have_high ops) as [n out]. cbn [fst snd] in *.
  destruct (la_op s have_high o n) as [n' new]. cbn [fst snd] in *. exists n'. split; [apply fmap_app|]. split; [reflexivity|exact H].
Qed.

(** Labels stay where they are. *)
Lemma live_label l ops ops' : find_label l ops = Some ops' -> find_label l (live_ops ops) = Some (live_ops ops').
Proof.
  induction ops as [|o ops IH]; [done|]. destruct (la_loop_cons o ops) as (n' & -> & _ & Ht). cbn [find_label].
  assert (forall x, kills (opc x) = false -> opc x <> op_set_label) as Hk by (intros x Hx E; by rewrite E in Hx).
  destruct (decide (opc o = op_set_label)) as [E|E].
  - inversion Ht; try (by rewrite E in *); cbn [app find_label]. destruct (_ && _); [by intros [= <-]|done].
  - rewrite bool_decide_eq_false_2 by done. cbn [andb]. intros H%IH. inversion Ht as [| | | |]; subst; cbn [app find_label]; [done|..];
      (rewrite bool_decide_eq_false_2; [done|]); first [done|by apply Hk].
Qed.

(** The destroyed temps may have the values they have on the other side. *)
Lemma destroys_pick o (a b : machine M) : regs_ok s (regs a) -> regs_ok s (regs b) ->
  exists st2, destroys s o a st2 /\ forall t, regs st2 !! t = if survives s o t then regs a !! t else regs b !! t.
Proof.
  intros Ha Hb. set (r := filter (fun x => survives s o x.1 = true) (regs a) ∪ filter (fun x => survives s o x.1 = false) (regs b)).
  assert (forall t, r !! t = if survives s o t then regs a !! t else regs b !! t) as Hr.
  { intros t. unfold r. rewrite lookup_union, !map_lookup_filter. destruct (survives s o t) eqn:E.
    - destruct (regs a !! t); cbn; [rewrite option_guard_True by done|]; destruct (regs b !! t); cbn; rewrite ?option_guard_False by (cbn; by rewrite E); done.
    - destruct (regs a !! t); cbn; [rewrite option_guard_False by (cbn; by rewrite E)|]; destruct (regs b !! t); cbn; rewrite ?option_guard_True by done; done. }
  exists (mk_machine r (barrier a) (memory a)). split; [|done]. split; [done|]. split; [done|]. split.
  - intros t Hv. cbn. rewrite Hr. destruct (survives s o t); auto.
  - intros t Ht. cbn. by rewrite Hr, Ht.
Qed.

(** After an operation that both sides run. *)
Lemma agree_after o n n' (a b b2 : machine M) : barrier a = barrier b -> memory a = memory b -> regs_ok s (regs a) -> destroys s o b b2 ->
  (forall t, survives s o t = true -> needed n t -> regs a !! t = regs b !! t) -> (forall t, needed n' t -> survives s o t = true -> needed n t) ->
  exists a2, destroys s o a a2 /\ agree n' a2 b2.
Proof.
  intros Eb Em Ha Hd Ht Hn. pose proof Hd as (Eb2 & Em2 & Hb2 & Hs). destruct (destroys_pick o a b2 Ha Hb2) as (a2 & Hd2 & Hr). exists a2. split; [done|].
  destruct Hd2 as (Eb3 & Em3 & _). split; [congruence|]. split; [congruence|]. intros t Hnt. rewrite Hr. destruct (survives s o t) eqn:E; [|done].
  rewrite Hs by done. apply Ht; auto.
Qed.

(** What both sides can reach after an operation. *)
Definition simulated (o : TCGOp) (n : temp_states) (res res' : op_result M) : Prop :=
  match res, res' with
  | Next a, Next b => forall b2, destroys s o b b2 -> exists a2, destroys s o a a2 /\ agree n a2 b2
  | Jump l a, Jump l' b => l = l' /\ forall n2 b2, destroys s o b b2 -> exists a2, destroys s o a a2 /\ agree n2 a2 b2
  | Stop e a, Stop e' b => e = e' /\ same s a b
  | _, _ => False
  end.

Lemma kept_simulated o n (st : machine M) res res' : regs_ok s (regs st) -> step s o st = Some res -> kept o n res res' -> simulated o n res res'.
Proof.
  intros Hr E Hk. pose proof (step_regs s o st res Hr E) as [Hr1 _]. destruct res as [a|l a|e a], res' as [b|l' b|e' b]; try done; cbn [kept simulated res_state] in *.
  - intros b2 Hd. destruct Hk as (Eb & Em & Ht). apply (agree_after o n n a b b2); auto.
  - destruct Hk as (-> & Eb & Em & Ht). split; [done|]. intros n2 b2 Hd. apply (agree_after o (fun _ => 0) n2 a b b2); try done.
    intros t Hs _. apply Ht; [done|]. right. by apply (jump_kills s o st l' a).
Qed.

Lemma treated_step o n n' new (st st' : machine M) res : treated o n n' new -> regs_ok s (regs st) -> regs_ok s (regs st') -> agree n' st st' -> step s o st = Some res ->
  (new = [] /\ exists a, res = Next a /\ agree n a st') \/
  (exists o' res', new = [o'] /\ (forall t, survives s o' t = survives s o t) /\ step s o' st' = Some res' /\ simulated o n res res').
Proof.
  intros Ht Hr Hr' Hag E. destruct Ht as [-> Hk Hst Hdead|Hd ->|o' dead Hk Hk' Hd' Hh Hdead ->|Eo ->|Eo ->].
  - left. split; [done|]. destruct (Hst st res Hr E) as (a & -> & Eb & Em & Hout). exists a. split; [done|]. destruct Hag as (Eb' & Em' & Hag).
    split; [congruence|]. split; [congruence|]. intros t Hn. rewrite Hout; [by apply Hag|]. intros Hin. by apply Hn, Hdead.
  - right. destruct (kept_step n o st st' res Hd Hag E) as (res' & E' & Hk). exists o, res'. split; [done|]. split; [done|]. split; [done|].
    by apply (kept_simulated o n st).
  - right. destruct (Hh st res E) as (a & c & -> & Ec & Eb & Em & Hac). destruct (kept_step n o' st st' (Next c) Hd' Hag Ec) as (res' & E' & Hkept).
    destruct res' as [b|l b|e b]; try done. destruct Hkept as (Eb' & Em' & Hcb).
    exists o', (Next b). split; [done|]. split; [intros t; by rewrite !kills_survives|]. split; [done|]. intros b2 Hd. pose proof (step_regs s o st _ Hr E) as [Hr1 _].
    apply (agree_after o n n a b b2); [congruence|congruence|done|done| |done]. intros t Hs Hn. rewrite Hac by (intros ->; done). apply Hcb; [by apply kills_survives|by left].
  - right. unfold step in E. rewrite Eo in E. injection E as <-. exists o, (Next st'). unfold step. rewrite Eo. split; [done|]. split; [done|]. split; [done|].
    destruct Hag as (Eb & Em & Hag). intros b2 Hd. apply (agree_after o n n st st' b2); auto.
  - right. unfold step in E. rewrite Eo in E. injection E as <-. exists o, (Next st'). unfold step. rewrite Eo. split; [done|]. split; [done|]. split; [done|].
    destruct Hag as (Eb & Em & Hag). intros b2 Hd. apply (agree_after o n n st st' b2); auto. intros t Hs Hn. apply Hag. unfold needed, set_state.
    unfold survives in Hs. rewrite Eo in Hs. apply negb_true_iff in Hs. by rewrite Hs.
Qed.

Section walk.
Context (prog : list TCGOp) (Q : op_result M -> Prop) (HQ : observable s Q).

Lemma must_live ops (st : machine M) : must s prog Q ops st -> regs_ok s (regs st) ->
  forall st', regs_ok s (regs st') -> agree (live_states ops) st st' -> must s (live_ops prog) Q (live_ops ops) st'.
Proof.
  intros Hm. induction Hm as [st Hq|o ops st st1 E Hm IH|o ops st l st1 ops' E El Hm IH|o ops st e st1 E Hq]; intros Hr st' Hr' Hag.
  { apply must_nil. apply (HQ (Next st)); [|done]. destruct Hag as (Eb & Em & Ht). split; [done|]. split; [done|]. intros t Hg. symmetry. apply Ht.
    unfold needed, live_states. cbn. unfold la_func_end. by rewrite Hg. }
  all: destruct (la_loop_cons o ops) as (n' & -> & En' & Htr); rewrite En' in Hag; clear En'.
  all: pose proof (step_regs s o st _ Hr E) as [Hr1 _]; cbn [res_state] in Hr1.
  all: destruct (treated_step _ _ _ _ st st' _ Htr Hr Hr' Hag E) as [(-> & a & Ea & Ha)|(o' & res' & -> & Hs & E' & Hsim)]; try discriminate.
  all: try (destruct res' as [b|l' b|e' b]; cbn [simulated] in Hsim; try done); cbn [app].
  - injection Ea as <-. by apply (IH st1 (destroys_refl s o st1 Hr1)).
  - apply (must_next _ _ _ _ _ _ b E'). intros b2 Hd. destruct (Hsim b2) as (a2 & Hd2 & Ha2); [by apply (destroys_ext s o')|].
    apply (IH a2 Hd2); [by apply Hd2|by apply Hd|done].
  - destruct Hsim as [<- Hsim]. apply (must_jump _ _ _ _ _ _ l b _ E' (live_label l prog ops' El)). intros b2 Hd.
    destruct (Hsim (live_states ops') b2) as (a2 & Hd2 & Ha2); [by apply (destroys_ext s o')|]. apply (IH a2 Hd2); [by apply Hd2|by apply Hd|done].
  - destruct Hsim as [<- Hsim]. apply (must_stop _ _ _ _ _ _ e b E'). by apply (HQ (Stop e st1)).
Qed.
End walk.

Lemma liveness_refines ops : refines s ops (liveness_pass_1 s have_high ops).*1.
Proof. intros Q st HQ Hr Hm. by apply (must_live ops Q HQ ops st Hm Hr st Hr). Qed.
End steps.
