(* ===== verification/TcgGenCode.v ===== *)
(** * The passes before register allocation ([tcg_gen_code])

    [tcg_gen_code] optimizes the operations, removes unreachable ones and then
    dead ones.  What each pass needs of its input the pass before it leaves:
    labels stay unique, the flags of calls and the first operation are kept. *)

From S2P Require Import Prelude BitOps HostUtils TcgOps TcgSem TcgOptimize TcgCopies TcgPhases TcgInputs TcgCorrect TcgRuns TcgBlocks TcgPasses TcgReach TcgLiveness.

Definition tcg_gen_code_passes (s : TCGContext) (have_high : TCGOpcode -> bool) (ops : list TCGOp) : option (list (TCGOp * Z)) :=
  ops ← tcg_optimize s ops;
  ops ← reachable_code_pass (label_refs ops) ops;
  Some (liveness_pass_1 s have_high ops).

(** The opcodes that the optimizer leaves alone. *)
Definition fixed_op (c : TCGOpcode) : bool :=
  negb (pure_op c || branches c || bool_decide (c = op_mb) || bool_decide (c = op_br) || bool_decide (c = op_set_label)).

(** A block begins with such an operation. *)
Definition first_fixed (ops : list TCGOp) : bool := match ops with o :: _ => fixed_op (opc o) | [] => true end.

(** ** What the optimizer keeps *)

Section kept.
Context (s : TCGContext).

Lemma fixed_simplified inf op inf' ops skip : fixed_op (opc op) = true -> simplify_op s inf op = Some (inf', ops, skip) ->
  exists o', ops = [o'] /\ alike op o'.
Proof.
  unfold simplify_op. cbv zeta. set (inf1 := init_args inf op). intros Hf. apply negb_true_iff in Hf.
  do 4 apply orb_false_iff in Hf as [Hf ?]. pose proof Hf as Hp. destruct (copy_alike s inf1 op) as [Ha _]. set (op2 := copy_propagation s inf1 op) in *.
  assert (canonicalize inf1 op2 = op2) as ->.
  { destruct Ha as (E & _). unfold canonicalize. rewrite <- E. by destruct (opc op). }
  assert (opc op2 = opc op) as E by (by destruct Ha as (E & _)).
  rewrite (surjective_pairing (known_zeros inf1 op2)). rewrite <- E in *.
  destruct (simplify_first s inf1 op2) as [[]|] eqn:P1; [by destruct (first_shape _ _ _ _ P1) as [_ P]; rewrite P in Hp|].
  destruct (simplify_neutral s inf1 op2) as [[]|] eqn:P2; [by destruct (neutral_shape _ _ _ _ P2) as [_ P]; rewrite P in Hp|].
  destruct (simplify_zeros s inf1 op2 _ _) as [[]|] eqn:P3; [by destruct (zeros_shape _ _ _ _ P3) as [_ P]; rewrite P in Hp|].
  destruct (simplify_last s inf1 op2) as [[]|] eqn:P4; [by destruct (last_shape _ _ _ _ P4) as [_ P]; rewrite P in Hp|].
  intros Hout. exists op2. split; [|done]. unfold fold_op, fold_call in Hout. cbv zeta in Hout. destruct (opc op2); try discriminate; by injection Hout.
Qed.

Lemma opt_labels ops : forall inf out, opt_ops s inf ops = Some out -> labels out = labels ops.
Proof.
  induction ops as [|op ops IH]; intros inf out Hout; [by injection Hout as <-|].
  apply opt_ops_cons in Hout as (inf' & o & skip & rest & E1 & E2 & ->). unfold labels in *. rewrite filter_app, filter_cons, fmap_app, (IH _ _ E2).
  case_decide as Eo.
  - rewrite label_simplified in E1 by done. injection E1 as <- <- <-. by rewrite filter_cons, decide_True.
  - destruct (simplify_shape s _ _ _ _ _ E1) as [Hsh _]. assert (filter (fun o => opc o = op_set_label) o = []) as ->; [|done].
    clear E1. induction Hsh as [|x l Hx _ IHl]; [done|]. rewrite filter_cons, decide_False; [done|]. by apply (shaped_label (opc op)).
Qed.

Lemma alike_flags o o' : alike o o' -> flags_ok o' = flags_ok o.
Proof.
  intros Ha. destruct (alike_count o o' Ha) as [Eo Ei]. destruct Ha as (E & _ & _ & Ha). unfold flags_ok, call_flag, call_flags. rewrite <- E, <- Eo, <- Ei.
  destruct (opc o); try done. by rewrite (Ha (op_oargs o + op_iargs o + 1)%nat) by lia.
Qed.

Lemma opt_flags ops : Forall (fun o => flags_ok o = true) ops -> forall inf out, opt_ops s inf ops = Some out -> Forall (fun o => flags_ok o = true) out.
Proof.
  induction 1 as [|op ops Hf _ IH]; intros inf out Hout; [by injection Hout as <-|].
  apply opt_ops_cons in Hout as (inf' & o & skip & rest & E1 & E2 & ->). apply Forall_app. split; [|by apply (IH inf')].
  destruct (decide (opc op = op_call)) as [Ec|Ec].
  - destruct (fixed_simplified inf op inf' o skip) as (o' & -> & Ha); [by rewrite Ec|done|]. apply Forall_singleton. by rewrite (alike_flags op).
  - destruct (simplify_shape s _ _ _ _ _ E1) as [Hsh _]. eapply Forall_impl; [exact Hsh|]. intros x [E|[E|[E [E'|E']]]]; unfold flags_ok; [rewrite E|destruct (opc x)|rewrite E'|rewrite E']; try done.
    by destruct (opc op).
Qed.

Lemma opt_first ops : first_fixed ops = true -> forall inf out, opt_ops s inf ops = Some out -> first_fixed out = true.
Proof.
  destruct ops as [|op ops]; intros Hf inf out Hout; [by injection Hout as <-|].
  apply opt_ops_cons in Hout as (inf' & o & skip & rest & E1 & E2 & ->). destruct (fixed_simplified inf op inf' o skip Hf E1) as (o' & -> & (E & _)).
  cbn [app first_fixed] in *. by rewrite <- E.
Qed.

(** An operation becomes two at most. *)
Lemma mov_short inf o src out : to_mov s inf o src = Some out -> (length out.2 <= 2)%nat.
Proof. unfold to_mov, tcg_opt_gen_mov. intros [= <-]. destruct (ts_are_copies _ _ _); [cbn; lia|]. case_decide; cbn; lia. Qed.

Lemma movi_short inf o v out : to_movi inf o v = Some out -> (length out.2 <= 2)%nat.
Proof. unfold to_movi, tcg_opt_gen_movi. intros [= <-]. cbn. lia. Qed.

Lemma pair_short inf o x y out : fold_pair inf o x y = Some out -> (length out.2 <= 2)%nat.
Proof. unfold fold_pair, tcg_opt_gen_movi. cbv zeta. intros <-%(inj Some). cbn. lia. Qed.

Lemma some_short (i : temp_infos) (l : list TCGOp) out : Some (i, l) = Some out -> (length l <= 2)%nat -> (length out.2 <= 2)%nat.
Proof. by intros <-%(inj Some). Qed.

Ltac short :=
  let H := fresh in intros H;
  lazymatch type of H with
  | to_mov _ _ _ _ = _ => exact (mov_short _ _ _ _ H)
  | to_movi _ _ _ = _ => exact (movi_short _ _ _ _ H)
  | fold_pair _ _ _ _ = _ => exact (pair_short _ _ _ _ _ H)
  | Some (_, _) = _ => refine (some_short _ _ _ H _); cbn; lia
  end.

(** The branches of a phase. *)
Ltac branch :=
  repeat match goal with
    | |- mbind _ ?e = _ -> _ => destruct e as [?|]; cbn [mbind option_bind]; [|discriminate]
    | |- (if ?b then _ else _) = _ -> _ => destruct b
    | |- None = _ -> _ => discriminate
    | |- match ?e with _ => _ end = _ -> _ => destruct e end.

Lemma simplify_short inf op inf' ops skip : simplify_op s inf op = Some (inf', ops, skip) -> (length ops <= 2)%nat.
Proof.
  unfold simplify_op. cbv zeta. set (inf1 := init_args inf op). set (op3 := canonicalize _ _). destruct (known_zeros inf1 op3) as [k aff].
  assert (forall out, simplify_first s inf1 op3 = Some out -> (length out.2 <= 2)%nat) as H1.
  { intros out. unfold simplify_first, try_not, to_unary. cbv zeta. destruct (opc op3); branch; try discriminate; short. }
  assert (forall out, simplify_neutral s inf1 op3 = Some out -> (length out.2 <= 2)%nat) as H2.
  { intros out. unfold simplify_neutral. cbv zeta. destruct (opc op3); branch; try discriminate; short. }
  assert (forall out, simplify_zeros s inf1 op3 k aff = Some out -> (length out.2 <= 2)%nat) as H3.
  { intros out. unfold simplify_zeros. cbv zeta. branch; try discriminate; short. }
  assert (forall out, simplify_last s inf1 op3 = Some out -> (length out.2 <= 2)%nat) as H4.
  { intros out. unfold simplify_last. cbv zeta. destruct (opc op3); branch; try discriminate; short. }
  assert (forall out, fold_op s inf1 op3 (output_mask op3 k) = Some out -> (length out.2 <= 2)%nat) as H5.
  { intros out. unfold fold_op, fold_or_default, fold_movcond, fold_brcond, fold_brcond2, fold_setcond2, fold_call. cbv zeta. destruct (opc op3); branch; short. }
  destruct (simplify_first s inf1 op3) as [[]|]; [intros [= <- <- <-]; by apply (H1 _ eq_refl)|].
  destruct (simplify_neutral s inf1 op3) as [[]|]; [intros [= <- <- <-]; by apply (H2 _ eq_refl)|].
  destruct (simplify_zeros s inf1 op3 k aff) as [[]|]; [intros [= <- <- <-]; by apply (H3 _ eq_refl)|].
  destruct (simplify_last s inf1 op3) as [[]|]; [intros [= <- <- <-]; by apply (H4 _ eq_refl)|].
  destruct (fold_op s inf1 op3 _) as [[]|]; [|done]. intros [= <- <- <-]. by apply (H5 _ eq_refl).
Qed.

Lemma opt_length ops : forall inf out, opt_ops s inf ops = Some out -> (length out <= 2 * length ops)%nat.
Proof.
  induction ops as [|op ops IH]; intros inf out Hout; [by injection Hout as <-|].
  apply opt_ops_cons in Hout as (inf' & o & skip & rest & E1 & E2 & ->). apply simplify_short in E1. apply IH in E2. rewrite length_app. cbn [length]. lia.
Qed.
End kept.

(** ** What merging barriers keeps *)

Lemma merged_labels b u v : merged b u v -> labels v = labels u.
Proof.
  unfold labels. induction 1 as [|b mb u v E _ IH|b b' mb mb' u v E E' _ IH _|b o u v _ _ IH|o u v _ IH]; rewrite ?filter_cons; [done|..].
  - rewrite decide_False by (by rewrite E). done.
  - rewrite !decide_False by (by rewrite ?E, ?E'). done.
  - case_decide; cbn [fmap list_fmap]; by rewrite ?IH.
  - case_decide; cbn [fmap list_fmap]; by rewrite ?IH.
Qed.

Lemma merged_flags b u v : merged b u v -> Forall (fun o => flags_ok o = true) u -> Forall (fun o => flags_ok o = true) v.
Proof.
  induction 1 as [|b mb u v E _ IH|b b' mb mb' u v E E' _ IH _|b o u v _ _ IH|o u v _ IH]; [done|..]; intros [H1 H2]%Forall_cons; [by apply IH|..];
    apply Forall_cons; (split; [|by apply IH]); [unfold flags_ok; by rewrite E'|done|done].
Qed.

Lemma merged_length b u v : merged b u v -> (length v <= length u)%nat.
Proof. induction 1; cbn [length]; lia. Qed.

Lemma merged_first b u v : merged b u v -> first_fixed u = true -> first_fixed v = true.
Proof.
  destruct 1 as [|b mb u v E _|b b' mb mb' u v E E' _ _|b o u v _ _|o u v _]; try done; cbn [first_fixed]; by rewrite E.
Qed.

Lemma fixed_starts ops : first_fixed ops = true -> starts_ok ops = true.
Proof.
  destruct ops as [|o ops]; [done|]. cbn. unfold fixed_op. rewrite negb_true_iff. intros Hf. do 4 apply orb_false_iff in Hf as [Hf ?]. apply andb_true_intro.
  by split; apply negb_true_iff.
Qed.

(** ** All passes *)

Section passes.
Context {M : Type} `{!TcgEnv M} `{!HelperLaws M} (s : TCGContext) (have_high : TCGOpcode -> bool).

(** What the translator has to give: well-formed operations, calls with
    consistent flags, labels that are set once, and a beginning. *)
Definition block_ok (ops : list TCGOp) : bool :=
  forallb (wf_op s) ops && forallb flags_ok ops && bool_decide (NoDup (labels ops)) && (Z.of_nat (length ops) <? 2 ^ 15) && first_fixed ops.

Lemma passes_refine ops : nb_globals s <= nb_temps s -> block_ok ops = true ->
  exists out, tcg_gen_code_passes s have_high ops = Some out /\ refines s ops out.*1.
Proof.
  intros Hg Hok. unfold block_ok in Hok. do 4 apply andb_prop in Hok as [Hok ?].
  match goal with H : (_ <? _) = true |- _ => apply Z.ltb_lt in H as Hlen end. match goal with H : bool_decide _ = true |- _ => apply bool_decide_eq_true in H as Hnd end.
  match goal with H : forallb flags_ok _ = true |- _ => rewrite forallb_forall, <- List.Forall_forall in H; rename H into Hf end.
  rewrite forallb_forall, <- List.Forall_forall in Hok. rename Hok into Hw.
  destruct (opt_ops_total (M := M) s ∅ ops Hw) as [u Hu].
  destruct (loop_built s ops (mk_opt ∅ [] None) [] u Hu) as (st' & E & Hb); [by intros u2 v2|]. apply built_merged in Hb. cbn [app] in Hb.
  destruct (optimize_refines (M := M) s ops Hg Hw) as (ops1 & E1 & R1). unfold tcg_gen_code_passes. rewrite E1. cbn [mbind option_bind].
  assert (ops1 = o_out st') as -> by (unfold tcg_optimize in E1; rewrite E in E1; by injection E1).
  pose proof (opt_length s ops _ _ Hu). pose proof (merged_length _ _ _ Hb).
  destruct (reachable_refines (M := M) s (o_out st')) as (ops2 & E2 & R2).
  - lia.
  - by rewrite (merged_labels _ _ _ Hb), (opt_labels s ops _ _ Hu).
  - by apply fixed_starts, (merged_first _ _ _ Hb), (opt_first s ops ltac:(done) _ _ Hu).
  - by apply (merged_flags _ _ _ Hb), (opt_flags s ops ltac:(done) _ _ Hu).
  - rewrite E2. cbn [mbind option_bind]. eexists. split; [done|]. transitivity (o_out st'); [done|]. transitivity ops2; [done|]. by apply liveness_refines.
Qed.
End passes.
