(* ===== verification/TcgPipeline.v ===== *)
(** * A translation block through the passes

    The theorems on [reachable_code_pass], [liveness_pass_1] and the passes of
    [tcg_gen_code] in sequence, with a block that all of them change. *)

From S2P Require Import Prelude TcgOps TcgSem TcgOptimize TcgCopies TcgPhases TcgRuns TcgTheorems TcgBlocks TcgPasses TcgReach TcgLiveness TcgGenCode.

(** ** Theorems *)

(** C17: the passes of [tcg_gen_code] before register allocation succeed on a
    block with well-formed operations, consistent calls and unique labels, and
    the operations they leave guarantee whatever the block guarantees about its
    exit, memory, barriers and globals, for every value that destroyed temps
    may get; in particular the operations run to such a result. *)
Theorem tcg_gen_code_passes_correct {M} `{!TcgEnv M} `{!HelperLaws M} (s : TCGContext) (have_high : TCGOpcode -> bool) (ops : list TCGOp) :
  nb_globals s <= nb_temps s -> block_ok s ops = true ->
  exists out, tcg_gen_code_passes s have_high ops = Some out /\
    forall (Q : op_result M -> Prop) st, observable s Q -> regs_ok s (regs st) -> must s ops Q ops st ->
      must s out.*1 Q out.*1 st /\ exists fuel res, run s fuel out.*1 out.*1 st = Some res /\ Q res.
Proof.
  intros Hg Hok. destruct (passes_refine s have_high ops Hg Hok) as (out & E & Hr). exists out. split; [done|]. intros Q st HQ Hst Hm.
  pose proof (Hr Q st HQ Hst Hm) as Hm'. split; [done|]. by apply (must_run s _ Q).
Qed.

(** [reachable_code_pass] succeeds when labels are set once, their counters
    are the branches to them and the first operation is neither a label nor a
    branch; what it removes cannot be told from any run. *)
Theorem reachable_code_pass_correct {M} `{!TcgEnv M} `{!HelperLaws M} (s : TCGContext) (ops : list TCGOp) :
  Z.of_nat (length ops) < 2 ^ 16 -> NoDup (labels ops) -> starts_ok ops = true -> forallb flags_ok ops = true ->
  exists ops', reachable_code_pass (label_refs ops) ops = Some ops' /\
    forall (Q : op_result M -> Prop) st, observable s Q -> regs_ok s (regs st) -> must s ops Q ops st -> must s ops' Q ops' st.
Proof.
  intros Hlen Hnd Hst Hf. rewrite forallb_forall, <- List.Forall_forall in Hf. by apply reachable_refines.
Qed.

(** C18: [liveness_pass_1] only removes operations, or halves of double-word
    operations, whose results are not used: everything the operations guarantee
    still holds. *)
Theorem liveness_pass_1_correct {M} `{!TcgEnv M} `{!HelperLaws M} (s : TCGContext) (have_high : TCGOpcode -> bool) (ops : list TCGOp) :
  nb_globals s <= nb_temps s ->
  forall (Q : op_result M -> Prop) st, observable s Q -> regs_ok s (regs st) -> must s ops Q ops st ->
    must s (liveness_pass_1 s have_high ops).*1 Q (liveness_pass_1 s have_high ops).*1 st.
Proof. intros Hg. by apply liveness_refines. Qed.

(** ** A block *)

(** Helpers that keep to the promises of their flags. *)
#[local] Instance block_env : TcgEnv (list (Z * Z)) := {
  host_ld _ _ _ := 0;
  host_st m _ _ _ := m;
  guest_ld _ _ _ m := (Some 0, m);
  guest_st _ x a _ m := (true, m ++ [(a, x)]);
  helper _ cs _ g m := if has_flag cs TCG_CALL_NO_SIDE_EFFECTS || has_flag cs TCG_CALL_NO_READ_GLOBALS then (Some ([0], g), m) else (None, m);
  tb_linked _ _ := false;
  opaque_sem _ _ _ _ _ _ := None
}.

#[local] Instance block_laws : HelperLaws (list (Z * Z)).
Proof.
  split; cbn.
  - intros b cs ins g m ->. by eexists.
  - intros b cs ins g m ->. rewrite orb_true_r. by eexists _, _.
  - intros b cs ins g m _ -> ->. by eexists.
  - done.
Qed.

(** A call without side effects whose result is not used. *)
Definition unused_call (t : Z) : TCGOp := mk_op op_call 0 1 (fun i => default 0 ([t; 0x1234; 5; 0] !! i)).

(** [g2 = 5; (t4,t5) = (g1,g1) + (g2,g2); call t3; mem[g1] = t4;
    if (g2 == g2) goto 7; g1 = t3; 7: g1 = 9; 8: exit]. *)
Definition block : list TCGOp := [
  demo_op op_insn_start [64]; demo_op (op_movi W32) [2; 5]; demo_op (op_add2 W32) [4; 5; 1; 1; 2; 2]; unused_call 3;
  demo_op (op_qemu_st W32) [4; 1; 0]; demo_op (op_brcond W32) [2; 2; TCG_COND_EQ; 7]; demo_op (op_mov (Int W32)) [1; 3];
  demo_op op_set_label [7]; demo_op (op_movi W32) [1; 9]; demo_op op_set_label [8]; demo_op op_exit_tb [3]].

Definition block_state : machine (list (Z * Z)) :=
  mk_machine (list_to_map [(1, 0x1000); (2, 8); (3, 0); (4, 0); (5, 0)]) 0 [].

Lemma block_regs_ok : regs_ok demo_ctx (regs block_state).
Proof. exact demo_regs_ok. Qed.

(** The high half of the sum, the call, the branch with what it skips, and both
    labels are gone; [g2] dies in the sum and the sum in the store, and the globals
    go to memory. *)
Example block_passes : map (fun x => (shown 3 x.1, x.2)) <$> tcg_gen_code_passes demo_ctx (fun _ => true) block = Some [
  (op_insn_start, [64; 0; 0], 0); (op_movi W32, [2; 5; 0], 1); (op_add (Int W32), [4; 1; 2], 16);
  (op_qemu_st W32, [4; 1; 0], 12); (op_movi W32, [1; 9; 0], 5); (op_exit_tb, [3; 0; 0], 0)].
Proof. vm_compute. reflexivity. Qed.

(** The store, whatever the temps hold after the branch. *)
Definition stored_sum (res : op_result (list (Z * Z))) : Prop :=
  match res with Stop (Exit_tb v) st => v = 3 /\ memory st = [(0x1000, 0x1005)] | _ => False end.

Lemma stored_observable : observable demo_ctx stored_sum.
Proof. intros [st|l st|[v| | |] st] [st'|l' st'|[v'| | |] st']; cbn; try naive_solver. intros [[= <-] (_ & Hm & _)] [-> Hs]. by rewrite Hm. Qed.

Ltac run_op := eapply must_next; [vm_compute; reflexivity|intros ? ->%destroys_none; [|reflexivity]].

Lemma block_must : must demo_ctx block stored_sum block block_state.
Proof.
  unfold block at 2. do 5 run_op. eapply must_jump; [vm_compute; reflexivity|vm_compute; reflexivity|]. intros st2 (_ & Hm & _).
  eapply must_next; [reflexivity|]. intros st3 ->%destroys_none; [|reflexivity]. eapply must_next; [reflexivity|]. intros st4 (_ & Hm4 & _).
  eapply must_stop; [reflexivity|]. cbn. split; [done|]. rewrite Hm4. cbn [memory with_regs]. rewrite Hm. reflexivity.
Qed.

Lemma tcg_gen_code_passes_correct_witness :
  exists out, tcg_gen_code_passes demo_ctx (fun _ => true) block = Some out /\
    exists fuel res, run demo_ctx fuel out.*1 out.*1 block_state = Some res /\ stored_sum res.
Proof.
  destruct (tcg_gen_code_passes_correct demo_ctx (fun _ => true) block) as (out & E & H); [done|by vm_compute|].
  exists out. split; [exact E|]. exact (proj2 (H stored_sum block_state stored_observable block_regs_ok block_must)).
Defined.

Lemma reachable_code_pass_correct_witness :
  exists ops', reachable_code_pass (label_refs block) block = Some ops' /\ must demo_ctx ops' stored_sum ops' block_state.
Proof.
  destruct (reachable_code_pass_correct demo_ctx block) as (ops' & E & H); [done| |done|by vm_compute|].
  - apply (bool_decide_unpack _). by vm_compute.
  - exists ops'. split; [exact E|]. exact (H stored_sum block_state stored_observable block_regs_ok block_must).
Defined.

Lemma liveness_pass_1_correct_witness :
  must demo_ctx (liveness_pass_1 demo_ctx (fun _ => true) block).*1 stored_sum (liveness_pass_1 demo_ctx (fun _ => true) block).*1 block_state.
Proof. exact (liveness_pass_1_correct demo_ctx (fun _ => true) block ltac:(done) stored_sum block_state stored_observable block_regs_ok block_must). Defined.
