(* ===== verification/SearchData.v ===== *)
(** * Unwind data of a translation block ([qemu/accel/tcg/translate-all.c])

    When an instruction faults, the guest state is found from the host program
    counter: behind the code of a block stands a table with a line for every
    guest instruction, its [insn_start] data and the end of its host code.  The
    lines are stored as signed LEB128 differences to the line before.

    [L] is [TARGET_LONG_BITS]; the shift by [L] or more bits, which C leaves
    undefined, and reads past an array give [None]. *)

From S2P Require Import Prelude.

(** A line of the table: [gen_insn_data[i]] and [gen_insn_end_off[i]]. *)
Abbreviation insn_line := (list Z * Z)%type.

Section search.
Context (L : Z).

(** ** Signed LEB128 *)

Fixpoint encode_loop (fuel : nat) (val : Z) : option (list Z) :=
  match fuel with
  | O => None
  | S fuel =>
    let byte := Z.land val 0x7f in
    let val := Z.shiftr val 7 in
    let more := negb ((val =? 0) && (Z.land byte 0x40 =? 0) || (val =? -1) && negb (Z.land byte 0x40 =? 0)) in
    if more then bs ← encode_loop fuel val; Some (Z.lor byte 0x80 :: bs)
    else Some [byte]
  end.

(** The bytes written at [p]; [val] is a [target_long]. *)
Definition encode_sleb128 (val : Z) : option (list Z) := encode_loop (Z.to_nat L) val.

Fixpoint decode_loop (bytes : list Z) (val shift : Z) : option (Z * list Z) :=
  match bytes with
  | [] => None
  | byte :: bytes =>
    if L <=? shift then None else
    let val := Z.lor val (wrap L (Z.shiftl (Z.land byte 0x7f) shift)) in
    let shift := shift + 7 in
    if negb (Z.land byte 0x80 =? 0) then decode_loop bytes val shift
    else if (shift <? L) && negb (Z.land byte 0x40 =? 0)
    then Some (Z.lor val (wrap L (Z.shiftl (-1) shift)), bytes)
    else Some (val, bytes)
  end.

(** The value and the bytes behind it. *)
Definition decode_sleb128 (bytes : list Z) : option (Z * list Z) :=
  '(val, bytes) ← decode_loop bytes 0 0; Some (sint L val, bytes).

(** ** The table *)

Fixpoint encode_words (prev data : list Z) : option (list Z) :=
  match prev, data with
  | p :: prev, d :: data =>
    bs ← encode_sleb128 (sint L (d - p));
    rest ← encode_words prev data;
    Some (bs ++ rest)
  | _, _ => Some []
  end.

Definition encode_line (prev line : insn_line) : option (list Z) :=
  bs ← encode_words prev.1 line.1;
  rest ← encode_sleb128 (sint L (line.2 - prev.2));
  Some (bs ++ rest).

(** The loop over the lines from [p]; the inner [None] is the result -1. *)
Fixpoint encode_lines (highwater : Z) (prev : insn_line) (lines : list insn_line) (p : Z) : option (option (list Z)) :=
  match lines with
  | [] => Some (Some [])
  | line :: lines =>
    bs ← encode_line prev line;
    let p := p + Z.of_nat (length bs) in
    if highwater <? p then Some None
    else rest ← encode_lines highwater line lines p; Some (option_map (app bs) rest)
  end.

Fixpoint insn_lines (i : nat) (n : nat) (gen_insn_data : list (list Z)) (gen_insn_end_off : list Z) : option (list insn_line) :=
  match n with
  | O => Some []
  | S n =>
    d ← gen_insn_data !! i; e ← gen_insn_end_off !! i;
    lines ← insn_lines (S i) n gen_insn_data gen_insn_end_off;
    Some ((d, e) :: lines)
  end.

(** [TARGET_INSN_START_WORDS] words; the first line is seeded with [tb->pc]. *)
Definition seed (words : nat) (pc : Z) : list Z := pc :: replicate (words - 1) 0.

Definition encode_search (words icount : nat) (pc : Z) (gen_insn_data : list (list Z)) (gen_insn_end_off : list Z)
    (highwater block : Z) : option (option (list Z)) :=
  lines ← insn_lines 0 icount gen_insn_data gen_insn_end_off;
  encode_lines highwater (seed words pc, 0) lines block.

(** ** Looking an address up *)

Fixpoint decode_words (data : list Z) (p : list Z) : option (list Z * list Z) :=
  match data with
  | [] => Some ([], p)
  | d :: data =>
    '(v, p) ← decode_sleb128 p;
    '(data, p) ← decode_words data p;
    Some (wrap L (d + v) :: data, p)
  end.

(** The loop over the instructions from [i]; the inner [None] is the result -1. *)
Fixpoint restore_loop (n : nat) (i : Z) (data : list Z) (host_pc searched_pc : Z) (p : list Z) : option (option (Z * list Z)) :=
  match n with
  | O => Some None
  | S n =>
    '(data, p) ← decode_words data p;
    '(v, p) ← decode_sleb128 p;
    let host_pc := u64 (host_pc + v) in
    if searched_pc <? host_pc then Some (Some (i, data))
    else restore_loop n (i + 1) data host_pc searched_pc p
  end.

Definition GETPC_ADJ : Z := 2.

(** [p] is the memory behind the code.  The result is what is added to the
    instruction counter, and the data for [restore_state_to_opc]. *)
Definition cpu_restore_state_from_tb (words icount : nat) (pc tc_ptr : Z) (use_icount : bool) (p : list Z)
    (searched_pc : Z) (reset_icount : bool) : option (option (Z * list Z)) :=
  let searched_pc := u64 (searched_pc - GETPC_ADJ) in
  if searched_pc <? tc_ptr then Some None
  else
    res ← restore_loop icount 0 (seed words pc) tc_ptr searched_pc p;
    Some ('(i, data) ← res; Some (if reset_icount && use_icount then Z.of_nat icount - i else 0, data)).

(** ** Round trip of a number *)

(** A number is its low seven bits and the rest; facts on a byte by evaluation. *)
Lemma byte_facts :
  forallb (fun b => (Z.land b 0x40 =? if b <? 64 then 0 else 64) && (Z.land (Z.lor b 0x80) 0x7f =? b) &&
                    (Z.land (Z.lor b 0x80) 0x80 =? 0x80) && (Z.land b 0x80 =? 0) && (Z.land b 0x7f =? b)) (seqZ 0 128) = true.
Proof. vm_compute. reflexivity. Qed.

Lemma byte_bits b : 0 <= b < 128 ->
  Z.land b 0x40 = (if b <? 64 then 0 else 64) /\ Z.land (Z.lor b 0x80) 0x7f = b /\
  Z.land (Z.lor b 0x80) 0x80 = 0x80 /\ Z.land b 0x80 = 0 /\ Z.land b 0x7f = b.
Proof.
  intros Hb. pose proof byte_facts as H. rewrite forallb_forall in H. specialize (H b).
  rewrite <- list_elem_of_In, elem_of_seqZ in H. specialize (H ltac:(lia)). bool_to_prop. repeat (split; [done|]). done.
Qed.

(** A round of the encoder: the byte, the rest, and whether the rest is more
    than the sign. *)
Lemma encode_round fuel v :
  encode_loop (S fuel) v =
  if decide (-64 <= v < 64) then Some [v mod 128]
  else bs ← encode_loop fuel (v / 128); Some (Z.lor (v mod 128) 0x80 :: bs).
Proof.
  cbn [encode_loop]. change 0x7f with (Z.ones 7). rewrite Z.land_ones, Z.shiftr_div_pow2 by lia. change (2 ^ 7) with 128.
  pose proof (Z.mod_pos_bound v 128 ltac:(lia)) as Hb. destruct (byte_bits (v mod 128) Hb) as [-> _].
  pose proof (Z.div_mod v 128 ltac:(lia)) as Hv. set (q := v / 128) in *. set (b := v mod 128) in *. clearbody q b.
  destruct (Z.ltb_spec b 64), (Z.eqb_spec q 0), (Z.eqb_spec q (-1)); case_decide; try lia; reflexivity.
Qed.

(** Enough rounds for a number of [7 * fuel] bits. *)
Lemma encode_total fuel v :
  (0 < fuel)%nat -> - 2 ^ (7 * Z.of_nat fuel - 1) <= v < 2 ^ (7 * Z.of_nat fuel - 1) -> exists bs, encode_loop fuel v = Some bs.
Proof.
  revert v. induction fuel as [|fuel IH]; intros v Hf Hv; [lia|]. rewrite encode_round. case_decide as Hd; [by eexists|].
  destruct fuel as [|fuel]; [simpl in Hv; lia|].
  destruct (IH (v / 128)) as [bs ->]; [lia| |by eexists].
  set (k := 7 * Z.of_nat (S fuel) - 1) in *.
  assert (2 ^ (7 * Z.of_nat (S (S fuel)) - 1) = 128 * 2 ^ k) as E.
  { change 128 with (2 ^ 7). rewrite <- Z.pow_add_r by lia. f_equal. lia. }
  rewrite E in Hv. split; [apply Z.div_le_lower_bound; lia|apply Z.div_lt_upper_bound; lia].
Qed.

Lemma wrap_low_part a b k : 0 <= k <= L -> 0 <= a < 2 ^ k -> Z.lor a (wrap L (b * 2 ^ k)) = a + wrap L (b * 2 ^ k).
Proof.
  intros Hk Ha. rewrite Z.lor_comm, (lor_low k); [lia|lia| |done].
  unfold wrap. replace L with (L - k + k) by lia. rewrite Z.pow_add_r by lia.
  rewrite Z.mul_mod_distr_r by (apply Z.pow_nonzero; lia). apply Z.mod_mul, Z.pow_nonzero; lia.
Qed.

Lemma part_bound acc v P M : 0 <= acc < P -> 0 <= v < 128 -> 128 * P <= M -> 0 <= acc + v * P < M.
Proof. nia. Qed.

(** The decoder adds the number at [shift]; a number of the bits that are left
    never shifts too far. *)
Lemma decode_encoded rest fuel : forall v bs acc shift,
  0 < L -> 0 <= shift < L -> 0 <= acc < 2 ^ shift -> - 2 ^ (L - 1 - shift) <= v < 2 ^ (L - 1 - shift) ->
  encode_loop fuel v = Some bs -> decode_loop (bs ++ rest) acc shift = Some (wrap L (acc + v * 2 ^ shift), rest).
Proof.
  induction fuel as [|fuel IH]; intros v bs acc shift HL Hs Ha Hv He; [done|]. rewrite encode_round in He.
  pose proof (Z.mod_pos_bound v 128 ltac:(lia)) as Hb. destruct (byte_bits (v mod 128) Hb) as (B1 & B2 & B3 & B4 & B5).
  pose proof (Z.div_mod v 128 ltac:(lia)) as Ev. case_decide as Hd.
  - injection He as <-. cbn [app decode_loop]. rewrite (proj2 (Z.leb_gt _ _)), B4, B5, B1 by lia. cbn [Z.eqb negb].
    rewrite Z.shiftl_mul_pow2, wrap_low_part by lia.
    assert (2 ^ (shift + 7) = 128 * 2 ^ shift) as E7 by (rewrite Z.pow_add_r by lia; lia).
    assert (0 < 2 ^ shift) as Hp by (apply Z.pow_pos_nonneg; lia).
    destruct (Z.ltb_spec (shift + 7) L) as [Hsh|Hsh]; cbn [andb].
    + assert (128 * 2 ^ shift <= 2 ^ L) as HLs by (rewrite <- E7; apply Z.pow_le_mono_r; lia).
      rewrite (wrap_id L (v mod 128 * _)) by (unfold uint; nia).
      destruct (Z.ltb_spec (v mod 128) 64); cbn [Z.eqb negb].
      * assert (v mod 128 = v) as -> by lia. rewrite wrap_id; [done|]. apply (part_bound _ _ (2 ^ shift)); lia.
      * assert (v mod 128 = v + 128) as -> by lia. rewrite Z.shiftl_mul_pow2 by lia. rewrite wrap_low_part; [|lia|rewrite E7; apply (part_bound _ _ (2 ^ shift)); lia].
        do 2 f_equal. unfold wrap. rewrite E7, <- (Z.mod_unique_pos (-1 * (128 * 2 ^ shift)) (2 ^ L) (-1) (2 ^ L - 128 * 2 ^ shift)) by lia.
        pose proof (part_bound acc (v + 128) (2 ^ shift) (128 * 2 ^ shift)). apply (Z.mod_unique_pos _ _ (-1)); lia.
    + do 2 f_equal. assert (0 <= acc < 2 ^ L) as HaL by (pose proof (Z.pow_le_mono_r 2 shift L); lia).
      rewrite <- (wrap_id L (acc + _)), wrap_add_r.
      2: { rewrite <- wrap_low_part by lia. apply lor_bound; [lia|done|apply wrap_range; lia]. }
      unfold wrap. replace (acc + v * 2 ^ shift) with (acc + v mod 128 * 2 ^ shift + (v / 128 * 2 ^ (shift + 7 - L)) * 2 ^ L).
      * by rewrite Z.mod_add by (apply Z.pow_nonzero; lia).
      * rewrite <- Z.mul_assoc, <- Z.pow_add_r by lia. replace (shift + 7 - L + L) with (shift + 7) by lia. rewrite E7. nia.
  - apply bind_Some in He as (bs' & He & [= <-]). cbn [app decode_loop].
    rewrite (proj2 (Z.leb_gt _ _)), B2, B3 by lia. cbn [Z.eqb negb]. rewrite Z.shiftl_mul_pow2, wrap_low_part by lia.
    assert (2 ^ (shift + 7) = 128 * 2 ^ shift) as E7 by (rewrite Z.pow_add_r by lia; lia).
    assert (0 < 2 ^ shift) as Hp by (apply Z.pow_pos_nonneg; lia).
    assert (shift + 7 <= L - 1) as Hsh.
    { destruct (decide (shift + 7 <= L - 1)); [done|]. pose proof (Z.pow_le_mono_r 2 (L - 1 - shift) 6). lia. }
    assert (2 ^ (L - 1 - shift) = 128 * 2 ^ (L - 1 - (shift + 7))) as E8.
    { change 128 with (2 ^ 7). rewrite <- Z.pow_add_r by lia. f_equal. lia. }
    assert (128 * 2 ^ shift <= 2 ^ L) as HLs by (rewrite <- E7; apply Z.pow_le_mono_r; lia).
    pose proof (part_bound acc (v mod 128) (2 ^ shift) (128 * 2 ^ shift)).
    rewrite wrap_id by (unfold uint; nia). rewrite (IH (v / 128)); [do 3 f_equal; rewrite E7; nia|lia|lia|lia| |done].
    rewrite E8 in Hv. split; [apply Z.div_le_lower_bound; lia|apply Z.div_lt_upper_bound; lia].
Qed.

Lemma sint_signed v : 0 < L -> - 2 ^ (L - 1) <= v < 2 ^ (L - 1) -> sint L (wrap L v) = v.
Proof.
  intros HL Hv. assert (2 ^ L = 2 * 2 ^ (L - 1)) as E by (rewrite <- Z.pow_succ_r by lia; f_equal; lia).
  unfold sint. rewrite wrap_wrap by lia. destruct (decide (0 <= v)).
  - rewrite wrap_id by (unfold uint; lia). destruct (Z.ltb_spec v (2 ^ (L - 1))); lia.
  - unfold wrap. rewrite <- (Z.mod_unique_pos v (2 ^ L) (-1) (v + 2 ^ L)) by lia.
    destruct (Z.ltb_spec (v + 2 ^ L) (2 ^ (L - 1))); lia.
Qed.

Lemma sleb128_ok v :
  0 < L -> - 2 ^ (L - 1) <= v < 2 ^ (L - 1) ->
  exists bs, encode_sleb128 v = Some bs /\ forall rest, decode_sleb128 (bs ++ rest) = Some (v, rest).
Proof.
  intros HL Hv. destruct (encode_total (Z.to_nat L) v) as [bs Hbs]; [lia| |].
  { pose proof (Z.pow_le_mono_r 2 (L - 1) (7 * Z.of_nat (Z.to_nat L) - 1)). lia. }
  exists bs. split; [done|]. intros rest. unfold decode_sleb128.
  rewrite (decode_encoded rest (Z.to_nat L) v bs); [|lia|lia|lia|by rewrite Z.sub_0_r|done].
  cbn [mbind option_bind]. by rewrite Z.add_0_l, Z.mul_1_r, sint_signed.
Qed.

(** ** Round trip of the table *)

(** A difference that is taken modulo [2^L] gives the word back. *)
Lemma delta_word p d : 0 < L -> uint L d -> wrap L (p + sint L (d - p)) = d.
Proof.
  intros HL Hd. unfold sint. destruct (_ <? _).
  - rewrite wrap_add_r. replace (p + (d - p)) with d by lia. by apply wrap_id.
  - rewrite Z.add_sub_assoc. unfold wrap at 1. rewrite Zminus_mod, Z_mod_same_full, Z.sub_0_r, Zmod_mod.
    change (wrap L (p + wrap L (d - p)) = d). rewrite wrap_add_r. replace (p + (d - p)) with d by lia. by apply wrap_id.
Qed.

Lemma words_ok prev data :
  0 < L -> length prev = length data -> Forall (uint L) data ->
  exists bs, encode_words prev data = Some bs /\ forall rest, decode_words prev (bs ++ rest) = Some (data, rest).
Proof.
  intros HL Hlen Hd. revert prev Hlen. induction Hd as [|d data Hd _ IH]; intros [|p prev] Hlen; try done; [by exists []|].
  destruct (IH prev) as (rest & Hr & Hdec); [by injection Hlen|].
  destruct (sleb128_ok (sint L (d - p)) HL (sint_range _ _ HL)) as (bs & Hb & Hbd).
  exists (bs ++ rest). cbn [encode_words decode_words]. rewrite Hb, Hr. split; [done|]. intros tail.
  rewrite <- app_assoc, Hbd. cbn [mbind option_bind]. rewrite Hdec. cbn [mbind option_bind]. by rewrite delta_word.
Qed.

(** A line of the table: all words, and an end of 16 bits. *)
Definition line_ok (words : nat) (l : insn_line) : Prop := length l.1 = words /\ Forall (uint L) l.1 /\ uint 16 l.2.

Lemma line_roundtrip words prev line tc rest :
  17 <= L -> length prev.1 = words -> uint 16 prev.2 -> line_ok words line -> 0 <= tc -> tc + 2 ^ 16 <= 2 ^ 64 ->
  exists bs, encode_line prev line = Some bs /\
  ('(data, p) ← decode_words prev.1 (bs ++ rest); '(v, p) ← decode_sleb128 p; Some (data, u64 (tc + prev.2 + v), p))
    = Some (line.1, tc + line.2, rest).
Proof.
  intros HL Hp Hp2 (Hl & Hw & Hl2) Htc Htc2.
  destruct (words_ok prev.1 line.1) as (bs & Hb & Hbd); [lia|congruence|done|].
  pose proof (Z.pow_le_mono_r 2 16 (L - 1) ltac:(lia) ltac:(lia)) as H16. unfold uint in *.
  assert (- 2 ^ (L - 1) <= line.2 - prev.2 < 2 ^ (L - 1)) as Hr by lia.
  assert (sint L (line.2 - prev.2) = line.2 - prev.2) as Es.
  { rewrite <- (sint_signed _ ltac:(lia) Hr) at 2. unfold sint. by rewrite wrap_wrap by lia. }
  destruct (sleb128_ok (sint L (line.2 - prev.2))) as (cs & Hc & Hcd); [lia|by rewrite Es|].
  exists (bs ++ cs). unfold encode_line. rewrite Hb, Hc. split; [done|].
  rewrite <- app_assoc, Hbd. cbn [mbind option_bind]. rewrite Hcd. cbn [mbind option_bind]. rewrite Es. do 3 f_equal.
  rewrite wrap_id; [lia|unfold uint; lia].
Qed.

(** The lines are read back up to the one that is searched. *)
Lemma restore_lines words tc sp hw rest lines : forall prev p bs i,
  17 <= L -> 0 <= tc -> tc + 2 ^ 16 <= 2 ^ 64 -> length prev.1 = words -> uint 16 prev.2 -> Forall (line_ok words) lines ->
  encode_lines hw prev lines p = Some (Some bs) ->
  restore_loop (length lines) i prev.1 (tc + prev.2) sp (bs ++ rest) =
  Some ('(k, l) ← list_find (fun l => sp < tc + l.2) lines; Some (i + Z.of_nat k, l.1)).
Proof.
  induction lines as [|l lines IH]; intros prev p bs i HL Htc Htc2 Hp Hp2 Hok He; [done|].
  apply Forall_cons in Hok as [Hl Hok]. cbn [encode_lines] in He. apply bind_Some in He as (b1 & Hb1 & He).
  destruct (hw <? _); [done|]. apply bind_Some in He as ([b2|] & Hb2 & [= <-]).
  destruct (line_roundtrip words prev l tc (b2 ++ rest)) as (b1' & E & Hd); [done..|]. rewrite Hb1 in E. injection E as <-.
  cbn [length restore_loop]. rewrite <- app_assoc.
  apply bind_Some in Hd as ([data q] & Hd1 & Hd). rewrite Hd1. cbn [mbind option_bind].
  apply bind_Some in Hd as ([v q'] & Hd2 & Hd). rewrite Hd2. cbn [mbind option_bind]. injection Hd as -> -> ->.
  cbn [list_find]. destruct (Z.ltb_spec sp (tc + l.2)); [rewrite decide_True by done|rewrite decide_False by lia].
  - cbn. by rewrite Z.add_0_r.
  - destruct Hl as (? & ? & ?). rewrite (IH l (p + Z.of_nat (length b1)) b2) by done. destruct (list_find _ lines) as [[k x]|]; [|done].
    cbn. do 3 f_equal. lia.
Qed.

Lemma insn_lines_length i n d e lines : insn_lines i n d e = Some lines -> length lines = n.
Proof.
  revert i lines. induction n as [|n IH]; intros i lines H; [by injection H as <-|].
  cbn in H. apply bind_Some in H as (x & _ & H). apply bind_Some in H as (y & _ & H).
  apply bind_Some in H as (ls & H & [= <-]). cbn. f_equal. by apply (IH (S i)).
Qed.
End search.

(** C15: The unwind data of a translation block are read back: for a host address
    behind the start of the block's code, [cpu_restore_state_from_tb] decodes
    from the bytes that [encode_search] wrote the guest data of the first
    instruction whose host code ends behind the address, and reports failure
    when there is none; whatever bytes follow the table.  A signed number of
    [TARGET_LONG_BITS] bits is always encoded and decoded to itself. *)
Theorem search_data_roundtrip L words icount pc gen_insn_data gen_insn_end_off lines hw block bs tc use_icount reset_icount sp rest :
  17 <= L -> (0 < words)%nat -> uint L pc ->
  insn_lines 0 icount gen_insn_data gen_insn_end_off = Some lines -> Forall (line_ok L words) lines ->
  encode_search L words icount pc gen_insn_data gen_insn_end_off hw block = Some (Some bs) ->
  0 <= tc -> tc + 2 ^ 16 <= 2 ^ 64 -> tc + GETPC_ADJ <= sp < 2 ^ 64 ->
  cpu_restore_state_from_tb L words icount pc tc use_icount (bs ++ rest) sp reset_icount =
  Some ('(i, line) ← list_find (fun l => sp - GETPC_ADJ < tc + l.2) lines;
        Some (if reset_icount && use_icount then Z.of_nat icount - Z.of_nat i else 0, line.1)) /\
  (forall v tail, - 2 ^ (L - 1) <= v < 2 ^ (L - 1) ->
   exists bytes, encode_sleb128 L v = Some bytes /\ decode_sleb128 L (bytes ++ tail) = Some (v, tail)).
Proof.
  intros HL Hw Hpc Hlines Hok He Htc Htc2 Hsp. split.
  - unfold cpu_restore_state_from_tb, encode_search in *. rewrite Hlines in He. cbn [mbind option_bind] in He.
    unfold GETPC_ADJ in *. rewrite (wrap_id 64) by (unfold uint; lia). destruct (Z.ltb_spec (sp - 2) tc); [lia|].
    rewrite <- (insn_lines_length _ _ _ _ _ Hlines) at 1.
    pose proof (restore_lines L words tc (sp - 2) hw rest lines (seed words pc, 0) block bs 0) as Hr. cbn [fst snd] in Hr.
    rewrite Z.add_0_r in Hr. rewrite Hr; [|done..| |done|done|done].
    + cbn [mbind option_bind]. by destruct (list_find _ lines) as [[k l]|].
    + unfold seed. cbn. rewrite length_replicate. lia.
  - intros v tail Hv. destruct (sleb128_ok L v ltac:(lia) Hv) as (bytes & H1 & H2). exists bytes. by split.
Qed.

(** Three instructions of an ARM guest, of 4, 4 and 2 bytes, with a second word. *)
Definition demo_data : list (list Z) := [[0x10000; 0]; [0x10004; 0x60]; [0x10008; 0]].
Definition demo_ends : list Z := [0x21; 0x145; 0x160].
Definition demo_lines : list insn_line := zip demo_data demo_ends.
Definition demo_bytes : list Z := [0; 0; 33; 4; 0xe0; 0; 0xa4; 2; 4; 0xa0; 0x7f; 27].

Lemma search_data_roundtrip_witness :
  cpu_restore_state_from_tb 32 2 3 0x10000 0x7f0000000000 true (demo_bytes ++ [0xff]) 0x7f0000000023 true = Some (Some (2, [0x10004; 0x60])) /\
  (exists bytes, encode_sleb128 32 (-129) = Some bytes /\ decode_sleb128 32 (bytes ++ [5]) = Some (-129, [5])).
Proof.
  destruct (search_data_roundtrip 32 2 3 0x10000 demo_data demo_ends demo_lines (2 ^ 62) 0x7f0000000160 demo_bytes 0x7f0000000000 true true
    0x7f0000000023 [0xff]) as [H1 H2].
  1-2: lia.
  1: split; lia.
  1: reflexivity.
  1: repeat constructor; unfold uint; cbn; lia.
  1: vm_compute; reflexivity.
  1-3: unfold GETPC_ADJ; lia.
  split; [rewrite H1; vm_compute; reflexivity|apply (H2 (-129) [5]); lia].
Defined.
