(* ===== verification/RamList.v ===== *)
(** * The list of RAM blocks ([qemu/exec.c])

    Every block of guest RAM has a place in the space of [ram_addr_t], which
    numbers all RAM of an engine; translated code and dirty pages are found by
    these numbers.  [find_ram_offset] chooses the place of a new block: after the
    last block of the list until a block was freed, and then the smallest gap
    that fits.  The list is kept sorted from the biggest to the smallest block.

    A pointer to a block is a number, 0 is the null pointer.  [None] is
    [abort], a failed assertion or the use of a block that is gone. *)

From S2P Require Import Prelude UcTypes.

(** ** Data *)

Record RAMBlock := mk_block {
  rb_ptr : Z;
  rb_mr : Z;
  rb_host : Z;
  rb_offset : Z;
  rb_used_length : Z;
  rb_max_length : Z;
  rb_prealloc : bool
}.

Record RAMList := mk_ramlist {
  ram_blocks : list RAMBlock;
  mru_block : Z;
  ram_freed : bool;
  ram_last : Z
}.

Definition RAM_ADDR_MAX : Z := 2 ^ 64 - 1.
Definition RAM_ADDR_INVALID : Z := 2 ^ 64 - 1.

(** [ROUND_UP(n, d)] for a power of two [d]. *)
Definition ROUND_UP (n d : Z) : Z := Z.land (u64 (n + d - 1)) (u64 (- d)).

(** The block a pointer of the list points to. *)
Definition block_at (l : RAMList) (p : Z) : option RAMBlock := head (filter (fun b => rb_ptr b = p) (ram_blocks l)).

Definition with_mru (p : Z) (l : RAMList) : RAMList := mk_ramlist (ram_blocks l) p (ram_freed l) (ram_last l).

Section ram.
(** The sizes of a target page (and its logarithm) and of a host page. *)
Context (TARGET_PAGE_BITS qemu_host_page_size : Z).

Definition target_page_size : Z := 2 ^ TARGET_PAGE_BITS.

(** [BITS_PER_LONG << TARGET_PAGE_BITS] *)
Definition ram_align : Z := Z.shiftl 64 TARGET_PAGE_BITS.

(** ** Lookups *)

(** [addr - block->offset < block->max_length] *)
Definition in_block (addr : Z) (b : RAMBlock) : bool := u64 (addr - rb_offset b) <? rb_max_length b.

Definition qemu_get_ram_block (l : RAMList) (addr : Z) : option (RAMBlock * RAMList) :=
  let search := b ← head (filter (fun b => in_block addr b = true) (ram_blocks l)); Some (b, with_mru (rb_ptr b) l) in
  if mru_block l =? 0 then search
  else
    b ← block_at l (mru_block l);
    if in_block addr b then Some (b, l) else search.

Definition offset_in_ramblock (b : RAMBlock) (offset : Z) : bool := negb (rb_host b =? 0) && (offset <? rb_used_length b).

Definition ramblock_ptr (b : RAMBlock) (offset : Z) : option Z :=
  if offset_in_ramblock b offset then Some (u64 (rb_host b + offset)) else None.

(** The pointer, and the list with its new [mru_block]. *)
Definition qemu_map_ram_ptr (l : RAMList) (ram_block : option RAMBlock) (addr : Z) : option (Z * RAMList) :=
  match ram_block with
  | Some b => p ← ramblock_ptr b addr; Some (p, l)
  | None => '(b, l) ← qemu_get_ram_block l addr; p ← ramblock_ptr b (u64 (addr - rb_offset b)); Some (p, l)
  end.

(** Also the size that is left. *)
Definition qemu_ram_ptr_length (l : RAMList) (ram_block : option RAMBlock) (addr size : Z) : option (Z * Z * RAMList) :=
  if size =? 0 then Some (0, size, l)
  else
    '(b, addr, l) ← match ram_block with
                    | Some b => Some (b, addr, l)
                    | None => '(b, l) ← qemu_get_ram_block l addr; Some (b, u64 (addr - rb_offset b), l)
                    end;
    p ← ramblock_ptr b addr;
    Some (p, Z.min size (u64 (rb_max_length b - addr)), l).

(** [host - block->host < block->max_length] *)
Definition host_in_block (host : Z) (b : RAMBlock) : bool := negb (rb_host b =? 0) && (u64 (host - rb_host b) <? rb_max_length b).

(** The block and the offset in it; the inner [None] is the null pointer. *)
Definition qemu_ram_block_from_host (l : RAMList) (ptr : Z) (round_offset : bool) : option (option (RAMBlock * Z)) :=
  let found b :=
    let offset := u64 (ptr - rb_host b) in
    Some (Some (b, if round_offset then Z.land offset (u64 (- target_page_size)) else offset)) in
  let search :=
    match head (filter (fun b => host_in_block ptr b = true) (ram_blocks l)) with
    | Some b => found b
    | None => Some None
    end in
  if mru_block l =? 0 then search
  else
    b ← block_at l (mru_block l);
    if host_in_block ptr b then found b else search.

Definition qemu_ram_addr_from_host (l : RAMList) (ptr : Z) : option Z :=
  res ← qemu_ram_block_from_host l ptr false;
  Some (match res with Some (b, offset) => u64 (rb_offset b + offset) | None => RAM_ADDR_INVALID end).

(** ** Places *)

Definition find_ram_offset_last (l : RAMList) (size : Z) : option Z :=
  block ← block_at l (ram_last l);
  let result := u64 (rb_offset block + rb_max_length block) in
  if RAM_ADDR_MAX <? u64 (result + size) then None else Some result.

(** The closest following block. *)
Definition next_offset (bs : list RAMBlock) (candidate : Z) : Z :=
  foldl (fun next b => if candidate <=? rb_offset b then Z.min next (rb_offset b) else next) RAM_ADDR_MAX bs.

Definition candidate_of (b : RAMBlock) : Z := ROUND_UP (u64 (rb_offset b + rb_max_length b)) ram_align.

(** A round of the loop over the blocks, with [offset] and [mingap]. *)
Definition gap_step (bs : list RAMBlock) (size : Z) (acc : Z * Z) (block : RAMBlock) : Z * Z :=
  let candidate := candidate_of block in
  let gap := u64 (next_offset bs candidate - candidate) in
  if (size <=? gap) && (gap <? acc.2) then (candidate, gap) else acc.

Definition find_ram_offset (l : RAMList) (size : Z) : option Z :=
  if size =? 0 then None
  else if bool_decide (ram_blocks l = []) then Some 0
  else if negb (ram_freed l) then find_ram_offset_last l size
  else
    let '(offset, _) := foldl (gap_step (ram_blocks l) size) (RAM_ADDR_MAX, RAM_ADDR_MAX) (ram_blocks l) in
    if offset =? RAM_ADDR_MAX then None else Some offset.

(** ** Adding and freeing *)

(** Before the first smaller block; [true]: it became the last one. *)
Fixpoint insert_block (b : RAMBlock) (bs : list RAMBlock) : list RAMBlock * bool :=
  match bs with
  | [] => ([b], true)
  | x :: bs => if rb_max_length x <? rb_max_length b then (b :: x :: bs, false)
               else let '(bs, tail) := insert_block b bs in (x :: bs, tail)
  end.

(** [QLIST_INSERT_AFTER] the block [p]. *)
Fixpoint insert_after (p : Z) (b : RAMBlock) (bs : list RAMBlock) : option (list RAMBlock) :=
  match bs with
  | [] => None
  | x :: bs => if rb_ptr x =? p then Some (x :: b :: bs) else bs ← insert_after p b bs; Some (x :: bs)
  end.

Definition with_place (offset host : Z) (b : RAMBlock) : RAMBlock :=
  mk_block (rb_ptr b) (rb_mr b) host offset (rb_used_length b) (rb_max_length b) (rb_prealloc b).

(** [phys_mem_alloc] gives 0 when there is no memory.  The block, with its
    place, and the new list; or [UC_ERR_NOMEM]. *)
Definition ram_block_add (phys_mem_alloc : Z -> Z) (l : RAMList) (new_block : RAMBlock) : option (uc_err * RAMBlock * RAMList) :=
  offset ← find_ram_offset l (rb_max_length new_block);
  let host := if rb_host new_block =? 0 then phys_mem_alloc (rb_max_length new_block) else rb_host new_block in
  let b := with_place offset host new_block in
  if host =? 0 then Some (UC_ERR_NOMEM, b, l)
  else if ram_freed l || (target_page_size <? rb_max_length b) then
    let '(bs, tail) := insert_block b (ram_blocks l) in
    Some (UC_ERR_OK, b, mk_ramlist bs 0 (ram_freed l) (if tail then rb_ptr b else ram_last l))
  else if ram_last l =? 0 then Some (UC_ERR_OK, b, mk_ramlist (b :: ram_blocks l) 0 (ram_freed l) (rb_ptr b))
  else
    bs ← insert_after (ram_last l) b (ram_blocks l);
    Some (UC_ERR_OK, b, mk_ramlist bs 0 (ram_freed l) (rb_ptr b)).

(** [g_malloc0] gives 0 when there is no memory. *)
Definition qemu_ram_alloc_from_ptr (g_malloc0 : Z) (phys_mem_alloc : Z -> Z) (l : RAMList) (size host mr : Z) :
    option (option RAMBlock * uc_err * RAMList) :=
  let len := if host =? 0 then ROUND_UP size qemu_host_page_size else size in
  if g_malloc0 =? 0 then Some (None, UC_ERR_OK, l)
  else
    '(err, b, l) ← ram_block_add phys_mem_alloc l (mk_block g_malloc0 mr host 0 len len (negb (host =? 0)));
    Some (if bool_decide (err = UC_ERR_OK) then Some b else None, err, l).

Definition qemu_ram_alloc (g_malloc0 : Z) (phys_mem_alloc : Z -> Z) (l : RAMList) (size mr : Z) : option (option RAMBlock * uc_err * RAMList) :=
  qemu_ram_alloc_from_ptr g_malloc0 phys_mem_alloc l size 0 mr.

(** The host memory that [reclaim_ramblock] gives back. *)
Definition reclaim_ramblock (b : RAMBlock) : option (Z * Z) := if rb_prealloc b then None else Some (rb_host b, rb_max_length b).

Definition qemu_ram_free (l : RAMList) (p : Z) : option (option (Z * Z) * RAMList) :=
  if p =? 0 then Some (None, l)
  else
    b ← block_at l p;
    Some (reclaim_ramblock b, mk_ramlist (filter (fun b => rb_ptr b <> p) (ram_blocks l)) 0 true 0).
End ram.

(** ** Blocks that overlap *)

Definition empty_ramlist : RAMList := mk_ramlist [] 0 false 0.

(** Allocate blocks of [n] pages of 4 KiB, one after the other. *)
Fixpoint alloc_pages (l : RAMList) (p : Z) (ns : list Z) : option RAMList :=
  match ns with
  | [] => Some l
  | n :: ns => '(_, _, l) ← qemu_ram_alloc 12 0x1000 p (fun _ => 0x7f0000000000 + p * 2 ^ 32) l (n * 0x1000) 0; alloc_pages l (p + 1) ns
  end.

Definition places (l : RAMList) : list (Z * Z * Z) := (fun b => (rb_ptr b, rb_offset b, rb_max_length b)) <$> ram_blocks l.
