(* ===== verification/RamPlaces.v ===== *)
(** * Places of RAM blocks

    What keeps the blocks of the RAM list apart: once a block was freed, new
    blocks get aligned places in gaps that nothing else uses; before that, only
    blocks that come from the biggest to the smallest stay apart.  The lookups
    by [ram_addr_t] and by host pointer find the block that is meant. *)

From S2P Require Import Prelude UcTypes RamList.

(** ** Blocks that are apart *)

Definition b_end (b : RAMBlock) : Z := rb_offset b + rb_max_length b.

Definition apart (x y : RAMBlock) : Prop := b_end x <= rb_offset y \/ b_end y <= rb_offset x.

Record block_ok (b : RAMBlock) : Prop := {
  bo_ptr : rb_ptr b <> 0;
  bo_offset : 0 <= rb_offset b;
  bo_length : 0 < rb_max_length b;
  bo_end : b_end b <= RAM_ADDR_MAX
}.

Record ram_ok (l : RAMList) : Prop := {
  ro_blocks : forall b, b ∈ ram_blocks l -> block_ok b;
  ro_ptrs : NoDup (rb_ptr <$> ram_blocks l);
  ro_apart : forall x y, x ∈ ram_blocks l -> y ∈ ram_blocks l -> rb_ptr x <> rb_ptr y -> apart x y;
  ro_mru : mru_block l = 0 \/ exists b, b ∈ ram_blocks l /\ rb_ptr b = mru_block l
}.

(** The list is sorted from the biggest to the smallest block. *)
Definition by_size (bs : list RAMBlock) : Prop := StronglySorted (fun x y => rb_max_length y <= rb_max_length x) bs.

Lemma ptr_inj l x y : ram_ok l -> x ∈ ram_blocks l -> y ∈ ram_blocks l -> rb_ptr x = rb_ptr y -> x = y.
Proof.
  intros Hl Hx Hy E. apply list_elem_of_lookup in Hx as [i Hi], Hy as [j Hj].
  assert (i = j) as ->; [|congruence].
  apply (NoDup_lookup _ i j (rb_ptr x) (ro_ptrs _ Hl)); rewrite list_lookup_fmap;
    [by rewrite Hi|rewrite Hj; simpl; by rewrite E].
Qed.

Lemma block_at_found l p b : ram_ok l -> block_at l p = Some b <-> b ∈ ram_blocks l /\ rb_ptr b = p.
Proof.
  intros Hl. unfold block_at. split.
  - intros Hb%head_Some_elem_of. apply list_elem_of_filter in Hb. tauto.
  - intros [Hb Hp]. assert (b ∈ filter (fun b => rb_ptr b = p) (ram_blocks l)) as Hf by by apply list_elem_of_filter.
    destruct (filter _ _) as [|c t] eqn:E; [by apply elem_of_nil in Hf|]. simpl. f_equal.
    assert (c ∈ filter (fun b => rb_ptr b = p) (ram_blocks l)) as Hc by (rewrite E; left).
    apply list_elem_of_filter in Hc as [Hc ?]. apply (ptr_inj l); [done..|congruence].
Qed.

(** The test of the C code says that the address is in the block. *)
Lemma in_block_iff b addr : block_ok b -> 0 <= addr < 2 ^ 64 -> in_block addr b = true <-> rb_offset b <= addr < b_end b.
Proof.
  intros [_ Ho Hl He] Ha. unfold in_block, b_end, RAM_ADDR_MAX in *. rewrite Z.ltb_lt.
  destruct (decide (rb_offset b <= addr)).
  - rewrite wrap_id by (unfold uint; lia). lia.
  - split; [|lia]. unfold wrap. rewrite <- (Z.mod_unique_pos (addr - rb_offset b) (2 ^ 64) (-1) (addr - rb_offset b + 2 ^ 64)); lia.
Qed.

(** [ROUND_UP] to a power of two: the next multiple, or 0 when it does not fit. *)
Lemma round_up_spec k n :
  0 <= k < 64 -> 0 <= n < 2 ^ 64 ->
  exists q, ROUND_UP n (2 ^ k) = q * 2 ^ k /\ 0 <= q * 2 ^ k < 2 ^ 64 /\
  (n <= q * 2 ^ k < n + 2 ^ k \/ q = 0 /\ 2 ^ 64 - 2 ^ k < n).
Proof.
  intros Hk Hn. unfold ROUND_UP.
  assert (0 < 2 ^ k) as Hp by (apply Z.pow_pos_nonneg; lia).
  assert (2 ^ k <= 2 ^ 63) as Hq by (apply Z.pow_le_mono_r; lia).
  assert (u64 (- 2 ^ k) = 2 ^ 64 - 2 ^ k) as ->.
  { unfold wrap. rewrite <- (Z.mod_unique_pos (- 2 ^ k) (2 ^ 64) (-1) (2 ^ 64 - 2 ^ k)); lia. }
  set (m := u64 (n + 2 ^ k - 1)). assert (0 <= m < 2 ^ 64) as Hm by (apply wrap_range; lia).
  assert (Z.land m (2 ^ 64 - 2 ^ k) = m / 2 ^ k * 2 ^ k) as ->.
  { replace (2 ^ 64 - 2 ^ k) with (Z.shiftl (Z.ones (64 - k)) k).
    - rewrite <- Z.shiftl_mul_pow2, <- Z.shiftr_div_pow2 by lia.
      apply Z.bits_inj'. intros i Hi. rewrite Z.land_spec, !Z.shiftl_spec by lia.
      destruct (decide (i < k)); [rewrite !(Z.testbit_neg_r _ (i - k)) by lia; by rewrite andb_false_r|].
      rewrite Z.shiftr_spec by lia. replace (i - k + k) with i by lia.
      destruct (decide (i < 64)).
      + rewrite Z.ones_spec_low by lia. apply andb_true_r.
      + replace m with (wrap 64 m) by (by apply wrap_id). unfold wrap.
        rewrite Z.mod_pow2_bits_high by lia. done.
    - rewrite Z.ones_equiv, Z.shiftl_mul_pow2, Z.mul_pred_l, <- Z.pow_add_r by lia. f_equal. f_equal. lia. }
  exists (m / 2 ^ k). split; [done|].
  pose proof (Z.div_mod m (2 ^ k) ltac:(lia)). pose proof (Z.mod_pos_bound m (2 ^ k) Hp).
  assert (0 <= m / 2 ^ k) by (apply Z.div_pos; lia). split; [nia|].
  destruct (decide (n + 2 ^ k - 1 < 2 ^ 64)).
  - left. assert (m = n + 2 ^ k - 1) by (apply wrap_id; unfold uint; lia). nia.
  - right. assert (m = n + 2 ^ k - 1 - 2 ^ 64).
    { unfold m, wrap. symmetry. apply (Z.mod_unique_pos _ _ 1); lia. }
    split; [apply Z.div_small; lia|lia].
Qed.

(** ** The search for the smallest gap *)

Lemma next_offset_spec bs c :
  next_offset bs c <= RAM_ADDR_MAX /\
  (forall b, b ∈ bs -> c <= rb_offset b -> next_offset bs c <= rb_offset b) /\
  (next_offset bs c = RAM_ADDR_MAX \/ exists b, b ∈ bs /\ c <= rb_offset b /\ next_offset bs c = rb_offset b).
Proof.
  unfold next_offset. generalize RAM_ADDR_MAX as m. induction bs as [|x bs IH]; intros m; simpl.
  { split; [done|]. split; [by intros ? ?%elem_of_nil|by left]. }
  destruct (IH (if c <=? rb_offset x then Z.min m (rb_offset x) else m)) as (H1 & H2 & H3).
  set (r := foldl _ _ _) in *. destruct (Z.leb_spec c (rb_offset x)).
  - split; [lia|]. split; [intros b [-> |Hb]%elem_of_cons ?; [lia|by apply H2]|].
    destruct H3 as [H3|(b & Hb & ?)]; [|right; exists b; split; [by right|done]].
    destruct (Z.min_spec m (rb_offset x)) as [[_ E]|[_ E]]; rewrite E in H3; [by left|right].
    exists x. split; [left|done].
  - split; [done|]. split; [intros b [-> |Hb]%elem_of_cons ?; [lia|by apply H2]|].
    destruct H3 as [H3|(b & Hb & ?)]; [by left|right; exists b; split; [by right|done]].
Qed.

(** A fold that keeps the least fitting gap. *)
Lemma foldl_gap (cand gap : RAMBlock -> Z) size bs o m :
  let r := foldl (fun acc b => if (size <=? gap b) && (gap b <? acc.2) then (cand b, gap b) else acc) (o, m) bs in
  r.2 <= m /\ (forall b, b ∈ bs -> size <= gap b -> r.2 <= gap b) /\
  (r = (o, m) \/ exists b, b ∈ bs /\ r = (cand b, gap b) /\ size <= gap b < m).
Proof.
  revert o m. induction bs as [|x bs IH]; intros o m; simpl.
  { split; [done|]. split; [by intros ? ?%elem_of_nil|by left]. }
  destruct (Z.leb_spec size (gap x)); simpl; [destruct (Z.ltb_spec (gap x) m)|].
  1: destruct (IH (cand x) (gap x)) as (H1 & H2 & H3).
  2-3: destruct (IH o m) as (H1 & H2 & H3).
  all: split; [lia|]; split; [intros b [-> |Hb]%elem_of_cons ?; [lia|by apply H2]|].
  - destruct H3 as [H3|(b & Hb & H3 & ?)]; right; [exists x|exists b]; repeat split; try done; try lia; by constructor.
  - destruct H3 as [H3|(b & Hb & ?)]; [by left|right; exists b; split; [by right|done]].
  - destruct H3 as [H3|(b & Hb & ?)]; [by left|right; exists b; split; [by right|done]].
Qed.

(** An element of a list for which [f] is greatest. *)
Lemma list_argmax {A} (P : A -> Prop) `{!forall x, Decision (P x)} (f : A -> Z) (l : list A) x :
  x ∈ l -> P x -> exists m, m ∈ l /\ P m /\ forall y, y ∈ l -> P y -> f y <= f m.
Proof.
  enough ((forall y, y ∈ l -> ~ P y) \/ exists m, m ∈ l /\ P m /\ forall y, y ∈ l -> P y -> f y <= f m) as [Hno|?]
    by (intros Hx HP; first [done|by destruct (Hno x)]).
  induction l as [|z l IH]; [left; by intros ? ?%elem_of_nil|].
  destruct (decide (P z)) as [Hz|Hz], IH as [IH|(m & Hm & HPm & Hmax)].
  - right. exists z. split; [left|]. split; [done|]. intros y [-> |Hy]%elem_of_cons HPy; [done|by destruct (IH y)].
  - right. destruct (decide (f m <= f z)).
    + exists z. split; [left|]. split; [done|]. intros y [-> |Hy]%elem_of_cons HPy; [done|]. specialize (Hmax y Hy HPy). lia.
    + exists m. split; [by right|]. split; [done|]. intros y [-> |Hy]%elem_of_cons HPy; [lia|by apply Hmax].
  - left. intros y [-> |Hy]%elem_of_cons; [done|by apply IH].
  - right. exists m. split; [by right|]. split; [done|]. intros y [-> |Hy]%elem_of_cons HPy; [done|by apply Hmax].
Qed.

(** Two multiples are a multiple apart. *)
Lemma multiples_apart a c x : 0 < a -> (a | c) -> (a | x) -> x < c -> x + a <= c.
Proof. intros Ha [d ->] [e ->] H. assert (e < d) by nia. nia. Qed.

Section places.
Context (TB host_page : Z) (HTB : 0 <= TB <= 57).

Abbreviation align := (ram_align TB).
Abbreviation cand := (candidate_of TB).

Definition aligned (bs : list RAMBlock) : Prop := forall b, b ∈ bs -> (align | rb_offset b).

Lemma align_pow : align = 2 ^ (TB + 6).
Proof. unfold ram_align. rewrite Z.shiftl_mul_pow2, Z.pow_add_r by lia. lia. Qed.

Lemma align_range : 64 <= align <= 2 ^ 63 /\ 2 ^ 64 = 2 ^ (58 - TB) * align.
Proof.
  rewrite align_pow. split; [|rewrite <- Z.pow_add_r by lia; f_equal; lia].
  change 64 with (2 ^ 6). split; apply Z.pow_le_mono_r; lia.
Qed.

(** The candidate of a block: aligned, and right after the block, or 0. *)
Lemma candidate_spec b :
  block_ok b -> (align | cand b) /\ 0 <= cand b < RAM_ADDR_MAX /\ (b_end b <= cand b < b_end b + align \/ cand b = 0 /\ 2 ^ 64 - align < b_end b).
Proof.
  intros [_ Ho Hl He]. destruct align_range as [Ha H64].
  unfold candidate_of, b_end, RAM_ADDR_MAX in *. rewrite (wrap_id 64) by (unfold uint; lia).
  destruct (round_up_spec (TB + 6) (rb_offset b + rb_max_length b)) as (q & E & Hq & Hc); [lia..|].
  rewrite align_pow in *. rewrite E. split; [by apply Z.divide_factor_r|]. split; [|lia].
  enough (q * 2 ^ (TB + 6) <> 2 ^ 64 - 1) by lia. rewrite H64. generalize (2 ^ (58 - TB)) as k. intros k Hk.
  assert (2 ^ (TB + 6) | 1) as Hd by (exists (k - q); rewrite Z.mul_sub_distr_r; lia).
  apply Z.divide_1_r_nonneg in Hd; lia.
Qed.

(** The bytes from the candidate to the next block belong to no block. *)
Lemma gap_free l b x :
  ram_ok l -> aligned (ram_blocks l) -> b ∈ ram_blocks l -> x ∈ ram_blocks l ->
  b_end x <= cand b \/ next_offset (ram_blocks l) (cand b) <= rb_offset x.
Proof.
  intros Hl Hal Hb Hx. destruct (candidate_spec b (ro_blocks _ Hl _ Hb)) as (Hd & Hr & Hc).
  pose proof (ro_blocks _ Hl _ Hx) as [_ Hx1 Hx2 _].
  destruct (next_offset_spec (ram_blocks l) (cand b)) as (_ & Hn & _).
  destruct (decide (cand b <= rb_offset x)); [right; by apply Hn|left].
  destruct Hc as [Hc|Hc]; [|lia].
  destruct (decide (rb_ptr x = rb_ptr b)) as [E|E]; [rewrite (ptr_inj _ _ _ Hl Hx Hb E); lia|].
  destruct (ro_apart _ Hl _ _ Hx Hb E) as [?|?]; [unfold b_end in *; pose proof (ro_blocks _ Hl _ Hb) as [_ ? ? _]; lia|].
  destruct align_range as [? _]. pose proof (multiples_apart align _ _ ltac:(lia) Hd (Hal _ Hx)). lia.
Qed.

(** A place for [size] bytes after some block. *)
Definition room (l : RAMList) (size p : Z) : Prop :=
  (align | p) /\ p + size <= RAM_ADDR_MAX /\
  (exists b, b ∈ ram_blocks l /\ b_end b <= p) /\
  forall b, b ∈ ram_blocks l -> b_end b <= p \/ p + size <= rb_offset b.

Abbreviation gap_of l b := (u64 (next_offset (ram_blocks l) (cand b) - cand b)).

Lemma gap_of_eq l b : ram_ok l -> b ∈ ram_blocks l -> gap_of l b = next_offset (ram_blocks l) (cand b) - cand b /\ 0 <= gap_of l b.
Proof.
  intros Hl Hb. destruct (candidate_spec b (ro_blocks _ Hl _ Hb)) as (Hd & Hr & Hc).
  destruct (next_offset_spec (ram_blocks l) (cand b)) as (H1 & _ & H3). unfold RAM_ADDR_MAX in *.
  rewrite wrap_id; [|unfold uint]; destruct H3 as [H3|(x & ? & ? & H3)]; lia.
Qed.

(** A place the search may give: aligned, in the range, and used by no block. *)
Record good_place (l : RAMList) (size off : Z) : Prop := {
  gp_aligned : (align | off);
  gp_range : 0 <= off /\ off + size <= RAM_ADDR_MAX;
  gp_free : forall b, b ∈ ram_blocks l -> b_end b <= off \/ off + size <= rb_offset b;
  gp_least : forall b, b ∈ ram_blocks l -> size <= next_offset (ram_blocks l) (cand b) - cand b ->
    next_offset (ram_blocks l) off - off <= next_offset (ram_blocks l) (cand b) - cand b
}.

Lemma find_ram_offset_eq l size :
  0 < size -> ram_freed l = true -> ram_blocks l <> [] ->
  find_ram_offset TB l size =
  let r := foldl (fun acc b => if (size <=? gap_of l b) && (gap_of l b <? acc.2) then (cand b, gap_of l b) else acc)
             (RAM_ADDR_MAX, RAM_ADDR_MAX) (ram_blocks l) in
  if r.1 =? RAM_ADDR_MAX then None else Some r.1.
Proof.
  intros Hs Hf Hn. unfold find_ram_offset, gap_step. rewrite Hf, bool_decide_eq_false_2 by done.
  destruct (Z.eqb_spec size 0); [lia|]. simpl. by destruct (foldl _ _ _).
Qed.

Lemma find_freed_ok l size off :
  ram_ok l -> aligned (ram_blocks l) -> ram_freed l = true -> 0 < size <= RAM_ADDR_MAX ->
  find_ram_offset TB l size = Some off -> good_place l size off.
Proof.
  intros Hl Hal Hf Hs. destruct (decide (ram_blocks l = [])) as [E|E].
  { unfold find_ram_offset. rewrite E, bool_decide_eq_true_2 by done. destruct (Z.eqb_spec size 0); [lia|].
    intros [= <-]. split; [apply Z.divide_0_r|lia|rewrite E; by intros ? ?%elem_of_nil..]. }
  rewrite find_ram_offset_eq by (done || lia).
  pose proof (foldl_gap cand (fun b => gap_of l b) size (ram_blocks l) RAM_ADDR_MAX RAM_ADDR_MAX) as (_ & Hmin & Hr).
  cbv beta zeta in *. set (r := foldl _ _ _) in *.
  destruct (Z.eqb_spec r.1 RAM_ADDR_MAX) as [|Hne]; [done|]. intros [= <-].
  destruct Hr as [Hr|(b & Hb & Hr & Hfit)]; [by rewrite Hr in Hne|]. rewrite Hr in *; simpl in *.
  destruct (gap_of_eq l b Hl Hb) as [Eg _]. rewrite Eg in *.
  destruct (candidate_spec b (ro_blocks _ Hl _ Hb)) as (Hd & Hrg & _).
  destruct (next_offset_spec (ram_blocks l) (cand b)) as (H1 & _). split; [done|lia| |].
  - intros x Hx. destruct (gap_free l b x) as [?|?]; [done..|by left|right; lia].
  - intros x Hx Hsx. destruct (gap_of_eq l x Hl Hx) as [Ex _]. rewrite <- Ex. apply Hmin; [done|]. by rewrite Ex.
Qed.

(** The search finds a place when there is one after some block. *)
Lemma find_freed_finds l size p :
  ram_ok l -> ram_freed l = true -> 0 < size -> room l size p -> exists off, find_ram_offset TB l size = Some off.
Proof.
  intros Hl Hf Hs (Hp & Hpm & (b0 & Hb0 & Hp0) & Hfree).
  destruct (list_argmax (fun b => b_end b <= p) b_end (ram_blocks l) b0 Hb0 Hp0) as (b & Hb & Hbp & Hlast).
  assert (ram_blocks l <> []) as Hne by (intros E; rewrite E in Hb; by apply elem_of_nil in Hb).
  rewrite find_ram_offset_eq by done.
  pose proof (foldl_gap cand (fun b => gap_of l b) size (ram_blocks l) RAM_ADDR_MAX RAM_ADDR_MAX) as (_ & Hmin & Hr).
  cbv beta zeta in *. set (r := foldl _ _ _) in *.
  destruct (candidate_spec b (ro_blocks _ Hl _ Hb)) as (Hd & Hrg & Hc).
  destruct (next_offset_spec (ram_blocks l) (cand b)) as (H1 & H2 & H3).
  destruct align_range as [Ha H64]. pose proof (ro_blocks _ Hl _ Hb) as [_ Hb1 Hb2 _].
  assert (b_end b <= cand b <= p) as Hcp.
  { destruct Hc as [Hc|[_ Hc]].
    - split; [lia|]. destruct (decide (cand b <= p)); [done|]. pose proof (multiples_apart align _ _ ltac:(lia) Hd Hp). lia.
    - pose proof (multiples_apart align (2 ^ 64) p ltac:(lia) ltac:(rewrite H64; apply Z.divide_factor_r) Hp).
      unfold RAM_ADDR_MAX in *. lia. }
  assert (p + size <= next_offset (ram_blocks l) (cand b)) as Hnext.
  { destruct H3 as [-> |(x & Hx & Hxc & ->)]; [done|].
    destruct (Hfree x Hx) as [Hxp|?]; [|done]. specialize (Hlast x Hx Hxp).
    pose proof (ro_blocks _ Hl _ Hx) as [_ ? ? _]. unfold b_end in *. lia. }
  destruct (gap_of_eq l b Hl Hb) as [Eg _]. specialize (Hmin b Hb). rewrite Eg in Hmin.
  destruct Hr as [Hr|(x & Hx & Hr & _)]; rewrite Hr in *; simpl in *; [unfold b_end in *; lia|].
  destruct (candidate_spec x (ro_blocks _ Hl _ Hx)) as (_ & Hx' & _).
  destruct (Z.eqb_spec (cand x) RAM_ADDR_MAX); [lia|by eexists].
Qed.

(** ** Adding and freeing *)

Lemma insert_block_spec b bs :
  (insert_block b bs).1 ≡ₚ b :: bs /\ (by_size bs -> by_size (insert_block b bs).1) /\
  ((insert_block b bs).2 = true <-> Forall (fun x => rb_max_length b <= rb_max_length x) bs) /\
  ((insert_block b bs).2 = true -> (insert_block b bs).1 = bs ++ [b]).
Proof.
  induction bs as [|x bs (IHp & IHs & IHt & IHe)]; simpl.
  { split; [done|]. split; [intros _; repeat constructor|]. split; [|done]. split; [by constructor|done]. }
  destruct (Z.ltb_spec (rb_max_length x) (rb_max_length b)) as [Hlt|Hge].
  - simpl. split; [done|]. split.
    + intros Hs. constructor; [done|]. apply StronglySorted_inv in Hs as [_ Hs].
      constructor; [lia|]. eapply Forall_impl; [exact Hs|]. simpl. intros. lia.
    + split; [|done]. split; [done|]. intros Hf%Forall_inv. lia.
  - destruct (insert_block b bs) as [bs' tail]. simpl in *. split; [rewrite IHp; constructor|]. split.
    + intros [Hs Hx]%StronglySorted_inv. constructor; [by apply IHs|]. rewrite IHp. by constructor.
    + split; [|intros; by f_equal; apply IHe]. rewrite IHt, Forall_cons. tauto.
Qed.

Lemma ram_ok_add l b bs freed last :
  ram_ok l -> block_ok b -> rb_ptr b ∉ rb_ptr <$> ram_blocks l -> (forall x, x ∈ ram_blocks l -> apart x b) ->
  bs ≡ₚ b :: ram_blocks l -> ram_ok (mk_ramlist bs 0 freed last).
Proof.
  intros [Hb Hp Ha _] Hok Hnew Hap E. split; simpl; [| | |by left].
  - intros x. rewrite E. intros [-> |Hx]%elem_of_cons; [done|by apply Hb].
  - rewrite E. simpl. by constructor.
  - intros x y. rewrite !E. intros [-> |Hx]%elem_of_cons [-> |Hy]%elem_of_cons Hne; [done| | |by apply Ha].
    + destruct (Hap y Hy); [by right|by left].
    + by apply Hap.
Qed.

(** What holds of the list once a block was freed, when the blocks that were
    left have aligned places. *)
Record ram_inv (l : RAMList) : Prop := {
  ri_ok : ram_ok l;
  ri_aligned : aligned (ram_blocks l);
  ri_sorted : by_size (ram_blocks l);
  ri_freed : ram_freed l = true
}.

(** The outcome of an allocation: a new block, placed, or nothing changed. *)
Definition alloc_outcome (l : RAMList) (g len mr : Z) (r : option RAMBlock) (err : uc_err) (l' : RAMList) : Prop :=
  match r with
  | Some b => err = UC_ERR_OK /\ ram_blocks l' ≡ₚ b :: ram_blocks l /\ mru_block l' = 0 /\
              rb_ptr b = g /\ rb_mr b = mr /\ rb_max_length b = len /\ rb_used_length b = len /\ rb_host b <> 0 /\
              good_place l len (rb_offset b)
  | None => l' = l /\ (g = 0 \/ err = UC_ERR_NOMEM)
  end.

Definition alloc_len (size host : Z) : Z := if host =? 0 then ROUND_UP size host_page else size.

Lemma alloc_len_range size host : uint 64 size -> 0 <= alloc_len size host <= RAM_ADDR_MAX.
Proof.
  unfold alloc_len, ROUND_UP, RAM_ADDR_MAX, uint. intros H. destruct (host =? 0); [|lia].
  pose proof (wrap_range 64 (size + host_page - 1) ltac:(lia)) as Hw. unfold uint in Hw.
  pose proof (land_nonneg_le (u64 (size + host_page - 1)) (u64 (- host_page)) ltac:(lia)). lia.
Qed.

Lemma ram_alloc_ok l g mem size host mr r err l' :
  ram_inv l -> g ∉ rb_ptr <$> ram_blocks l -> uint 64 size ->
  qemu_ram_alloc_from_ptr TB host_page g mem l size host mr = Some (r, err, l') ->
  ram_inv l' /\ alloc_outcome l g (alloc_len size host) mr r err l'.
Proof.
  intros Hl Hg Hs. unfold qemu_ram_alloc_from_ptr. change (if host =? 0 then _ else _) with (alloc_len size host).
  pose proof (alloc_len_range size host Hs) as Hlen. set (len := alloc_len size host) in *.
  destruct (Z.eqb_spec g 0) as [->|Hg0]; [intros [= <- <- <-]; split; [done|split; [done|by left]]|].
  intros H. apply bind_Some in H as ([[e b] l1] & Hadd & [= <- <- <-]).
  unfold ram_block_add in Hadd. apply bind_Some in Hadd as (off & Hoff & Hadd). simpl in *.
  set (hp := if host =? 0 then _ else _) in *.
  destruct (Z.eqb_spec hp 0) as [Hh|Hh].
  { injection Hadd as <- <- <-. split; [done|]. simpl. split; [done|by right]. }
  assert (len <> 0) as Hl0 by (intros E; unfold find_ram_offset in Hoff; by rewrite E in Hoff).
  pose proof (find_freed_ok l len off (ri_ok _ Hl) (ri_aligned _ Hl) (ri_freed _ Hl) ltac:(lia) Hoff) as Hgood.
  rewrite (ri_freed _ Hl) in Hadd. cbn [orb] in Hadd. set (nb := with_place _ _ _) in *.
  destruct (insert_block_spec nb (ram_blocks l)) as (Hperm & Hsort & _ & _).
  destruct (insert_block nb (ram_blocks l)) as [bs tail]. injection Hadd as <- <- <-. simpl in *.
  split; [|by repeat (split; [done|])]. destruct Hgood as [G1 G2 G3 _].
  split; simpl; [|intros x; rewrite Hperm; intros [-> |Hx]%elem_of_cons; [done|by apply (ri_aligned _ Hl)]|apply Hsort, Hl|done].
  apply (ram_ok_add l nb); [apply Hl| |done| |done].
  - by split; unfold b_end; simpl; try lia.
  - intros x Hx. unfold apart. by apply G3.
Qed.

Lemma ram_free_ok l p :
  ram_ok l -> p <> 0 -> forall r l', qemu_ram_free l p = Some (r, l') ->
  ram_ok l' /\ ram_freed l' = true /\ mru_block l' = 0 /\
  exists b, rb_ptr b = p /\ r = reclaim_ramblock b /\ ram_blocks l ≡ₚ b :: ram_blocks l' /\
  (forall x, x ∈ ram_blocks l' <-> x ∈ ram_blocks l /\ rb_ptr x <> p).
Proof.
  intros Hl Hp r l'. unfold qemu_ram_free. destruct (Z.eqb_spec p 0); [done|].
  intros H. apply bind_Some in H as (b & Hb & [= <- <-]). apply block_at_found in Hb as [Hb Ebp]; [|done].
  assert (forall x, x ∈ filter (fun b => rb_ptr b <> p) (ram_blocks l) <-> x ∈ ram_blocks l /\ rb_ptr x <> p) as Hin.
  { intros x. rewrite list_elem_of_filter. tauto. }
  split; [|split; [done|]; split; [done|]].
  - split; simpl; [| | |by left].
    + intros x [Hx _]%Hin. by apply Hl.
    + eapply sublist_NoDup; [apply (ro_ptrs _ Hl)|]. apply fmap_sublist, sublist_filter.
    + intros x y [Hx _]%Hin [Hy _]%Hin. by apply Hl.
  - exists b. split; [done|]. split; [done|]. split; [|done]. apply NoDup_Permutation.
    + eapply NoDup_fmap_1, Hl.
    + constructor; [by intros [_ Hn]%Hin|]. eapply NoDup_filter, NoDup_fmap_1, Hl.
    + intros x. rewrite elem_of_cons, Hin. destruct (decide (rb_ptr x = p)) as [E|E]; split; intros Hx.
      * left. apply (ptr_inj l); [done..|congruence].
      * destruct Hx as [-> |[? ?]]; done.
      * tauto.
      * destruct Hx as [-> |[? ?]]; done.
Qed.

Lemma by_size_filter (P : RAMBlock -> Prop) `{!forall x, Decision (P x)} bs : by_size bs -> by_size (filter P bs).
Proof.
  induction 1 as [|x bs Hs IH HF]; [constructor|]. rewrite filter_cons. destruct (decide (P x)); [|done].
  constructor; [done|]. rewrite Forall_forall in *. intros y [_ Hy]%list_elem_of_filter. by apply HF.
Qed.

(** ** Lookups *)

(** The block with an address, whatever block was used last. *)
Lemma get_block_ok l addr :
  ram_ok l -> uint 64 addr ->
  match qemu_get_ram_block l addr with
  | Some (b, l') => b ∈ ram_blocks l /\ rb_offset b <= addr < b_end b /\ mru_block l' = rb_ptr b /\
                    ram_blocks l' = ram_blocks l /\ ram_freed l' = ram_freed l /\ ram_last l' = ram_last l
  | None => forall b, b ∈ ram_blocks l -> ~ rb_offset b <= addr < b_end b
  end.
Proof.
  intros Hl Ha. unfold qemu_get_ram_block.
  assert (forall b, b ∈ ram_blocks l -> in_block addr b = true <-> rb_offset b <= addr < b_end b) as Hin.
  { intros b Hb. apply in_block_iff; [by apply Hl|done]. }
  set (search := mbind _ _).
  assert (match search with
          | Some (b, l') => b ∈ ram_blocks l /\ rb_offset b <= addr < b_end b /\ mru_block l' = rb_ptr b /\
                            ram_blocks l' = ram_blocks l /\ ram_freed l' = ram_freed l /\ ram_last l' = ram_last l
          | None => forall b, b ∈ ram_blocks l -> ~ rb_offset b <= addr < b_end b
          end) as Hsearch.
  { unfold search. destruct (filter _ _) as [|b t] eqn:E; simpl.
    - intros b Hb Hr. assert (b ∈ filter (fun b => in_block addr b = true) (ram_blocks l)) as Hf
        by (apply list_elem_of_filter; split; [by apply Hin|done]).
      rewrite E in Hf. by apply elem_of_nil in Hf.
    - assert (b ∈ filter (fun b => in_block addr b = true) (ram_blocks l)) as Hf by (rewrite E; left).
      apply list_elem_of_filter in Hf as [Hf Hb]. by repeat (split; [by try apply Hin|]). }
  destruct (Z.eqb_spec (mru_block l) 0) as [|Hm]; [done|].
  destruct (ro_mru _ Hl) as [?|(b & Hb & Hbm)]; [done|].
  rewrite (proj2 (block_at_found l (mru_block l) b Hl)) by done. simpl.
  destruct (in_block addr b) eqn:E; [|done]. apply Hin in E; [|done]. by repeat (split; [done|]).
Qed.

(** ** Before the first free *)

(** The last block of the list is the one that ends last. *)
Record packed (l : RAMList) : Prop := {
  pk_ok : ram_ok l;
  pk_freed : ram_freed l = false;
  pk_last : (ram_blocks l = [] /\ ram_last l = 0) \/
    exists bs b, ram_blocks l = bs ++ [b] /\ ram_last l = rb_ptr b /\ forall x, x ∈ bs -> b_end x <= rb_offset b
}.

Lemma packed_empty : packed empty_ramlist.
Proof.
  split; [|done|by left]. split; simpl; [by intros ? ?%elem_of_nil|by constructor|by intros ? ? ?%elem_of_nil|by left].
Qed.

Lemma insert_after_last b c bs :
  NoDup (rb_ptr <$> bs ++ [c]) -> insert_after (rb_ptr c) b (bs ++ [c]) = Some ((bs ++ [c]) ++ [b]).
Proof.
  induction bs as [|x bs IH]; simpl; [by rewrite Z.eqb_refl|]. intros [Hx Hn]%NoDup_cons.
  destruct (Z.eqb_spec (rb_ptr x) (rb_ptr c)) as [E|_].
  - destruct Hx. rewrite E, fmap_app. apply elem_of_app. right. left.
  - by rewrite (IH Hn).
Qed.

(** Its end is the place of the next block. *)
Lemma find_last_ok l len off :
  packed l -> 0 < len <= RAM_ADDR_MAX -> (forall b, b ∈ ram_blocks l -> b_end b + len <= RAM_ADDR_MAX) ->
  find_ram_offset TB l len = Some off ->
  (forall x, x ∈ ram_blocks l -> b_end x <= off) /\ 0 <= off /\ off + len <= RAM_ADDR_MAX.
Proof.
  intros [Hl Hfr Hlast] Hlen Hroom. unfold find_ram_offset. destruct (Z.eqb_spec len 0); [lia|].
  destruct Hlast as [[E1 E2]|(bs & c & E1 & E2 & Hc)].
  { rewrite E1, bool_decide_eq_true_2 by done. intros [= <-]. split; [by intros ? ?%elem_of_nil|lia]. }
  rewrite bool_decide_eq_false_2 by (rewrite E1; by destruct bs). rewrite Hfr. cbn [negb].
  assert (c ∈ ram_blocks l) as Hin by (rewrite E1; apply elem_of_app; right; left).
  unfold find_ram_offset_last. rewrite E2, (proj2 (block_at_found l (rb_ptr c) c Hl)) by done. cbn [mbind option_bind].
  specialize (Hroom c Hin). pose proof (ro_blocks _ Hl _ Hin) as [_ Ho Hm He]. unfold b_end, RAM_ADDR_MAX in *.
  rewrite (wrap_id 64 (rb_offset c + rb_max_length c)), wrap_id by (unfold uint; lia).
  destruct (Z.ltb_spec (2 ^ 64 - 1) (rb_offset c + rb_max_length c + len)); [done|]. intros [= <-].
  split; [|lia]. intros x Hx. rewrite E1 in Hx. apply elem_of_app in Hx as [Hx|Hx%list_elem_of_singleton]; [|by subst].
  specialize (Hc x Hx). lia.
Qed.

(** A block that is not bigger than the others, or than a page, is put at the
    end of the list. *)
Lemma packed_add mem l nb err b l' :
  packed l -> rb_max_length nb <= target_page_size TB \/ (forall x, x ∈ ram_blocks l -> rb_max_length nb <= rb_max_length x) ->
  ram_block_add TB mem l nb = Some (err, b, l') ->
  exists off host, find_ram_offset TB l (rb_max_length nb) = Some off /\ b = with_place off host nb /\
  (err = UC_ERR_NOMEM /\ l' = l \/ err = UC_ERR_OK /\ l' = mk_ramlist (ram_blocks l ++ [b]) 0 false (rb_ptr nb)).
Proof.
  intros [Hl Hfr Hlast] Hsmall Hadd. unfold ram_block_add in Hadd. apply bind_Some in Hadd as (off & Hoff & Hadd).
  set (host := if rb_host nb =? 0 then _ else _) in *. exists off, host. split; [done|].
  destruct (host =? 0); [injection Hadd as <- <- <-; by split; [|left]|].
  rewrite Hfr in Hadd. cbn [orb] in Hadd. set (b' := with_place _ _ _) in *.
  enough (Some (UC_ERR_OK, b', mk_ramlist (ram_blocks l ++ [b']) 0 false (rb_ptr nb)) = Some (err, b, l'))
    as [= <- <- <-] by (by split; [|right]).
  rewrite <- Hadd. clear Hadd. destruct (target_page_size TB <? rb_max_length b') eqn:Ep.
  - bool_to_prop. destruct Hsmall as [?|Hsmall]; [simpl in *; lia|].
    destruct (insert_block_spec b' (ram_blocks l)) as (_ & _ & Ht & He).
    assert ((insert_block b' (ram_blocks l)).2 = true) as Htr by (apply Ht, Forall_forall; done).
    specialize (He Htr). destruct (insert_block b' (ram_blocks l)) as [bs tl]. simpl in *. by subst.
  - destruct Hlast as [[E1 E2]|(bs & c & E1 & E2 & _)]; rewrite E1, E2; [done|].
    pose proof (ro_ptrs _ Hl) as Hnd. rewrite E1 in Hnd. rewrite (insert_after_last b' c bs Hnd).
    assert (rb_ptr c <> 0) as Hc%Z.eqb_neq by (apply (ro_blocks _ Hl); rewrite E1; apply elem_of_app; right; left).
    by rewrite Hc.
Qed.

Lemma packed_alloc l g mem size host mr r err l' :
  packed l -> g ∉ rb_ptr <$> ram_blocks l -> uint 64 size ->
  (alloc_len size host <= target_page_size TB \/ forall b, b ∈ ram_blocks l -> alloc_len size host <= rb_max_length b) ->
  (forall b, b ∈ ram_blocks l -> b_end b + alloc_len size host <= RAM_ADDR_MAX) ->
  qemu_ram_alloc_from_ptr TB host_page g mem l size host mr = Some (r, err, l') ->
  packed l' /\ match r with Some b => ram_blocks l' = ram_blocks l ++ [b] | None => l' = l end.
Proof.
  intros Hpk Hg Hs Hsmall Hroom. unfold qemu_ram_alloc_from_ptr.
  change (if host =? 0 then _ else _) with (alloc_len size host).
  pose proof (alloc_len_range size host Hs) as Hlen. set (len := alloc_len size host) in *.
  destruct (Z.eqb_spec g 0) as [->|Hg0]; [intros [= <- <- <-]; by split|].
  intros H. apply bind_Some in H as ([[e b] l1] & Hadd & [= <- <- <-]).
  apply packed_add in Hadd as (off & hp & Hoff & -> & [[-> ->]|[-> ->]]); [by split| |done..].
  assert (len <> 0) as Hl0 by (intros E; unfold find_ram_offset in Hoff; simpl in Hoff; by rewrite E in Hoff).
  destruct (find_last_ok l len off Hpk ltac:(lia) Hroom Hoff) as (Hbefore & Hoffr).
  split; [|done]. set (nb := with_place _ _ _). split; [|done|].
  - apply (ram_ok_add l nb); [apply Hpk| |done| |simpl; by rewrite Permutation_app_comm].
    + by split; unfold b_end; simpl; try lia.
    + intros x Hx. left. by apply Hbefore.
  - right. exists (ram_blocks l), nb. by repeat (split; [done|]).
Qed.
(** ** Runs *)

(** What the code needs of the blocks that come before the first free: none is
    bigger than one before it, only the last may have a size that is not a
    multiple of 64 pages, and the addresses suffice. *)
Definition in_order (l : RAMList) (len : Z) : Prop :=
  forall b, b ∈ ram_blocks l -> len <= rb_max_length b /\ (align | rb_max_length b) /\ b_end b + len <= RAM_ADDR_MAX.

(** What an engine does with its list: blocks are allocated with pointers that
    are not in use, freed, and looked up. *)
Inductive ordered_step : RAMList -> RAMList -> Prop :=
  | ordered_alloc l g mem size host mr r err l' :
      (ram_freed l = false -> in_order l (alloc_len size host)) ->
      g ∉ rb_ptr <$> ram_blocks l -> uint 64 size ->
      qemu_ram_alloc_from_ptr TB host_page g mem l size host mr = Some (r, err, l') -> ordered_step l l'
  | ordered_free l p r l' : qemu_ram_free l p = Some (r, l') -> ordered_step l l'
  | ordered_get l addr b l' : uint 64 addr -> qemu_get_ram_block l addr = Some (b, l') -> ordered_step l l'.

Record run_inv (l : RAMList) : Prop := {
  rn_ok : ram_ok l;
  rn_aligned : aligned (ram_blocks l);
  rn_sorted : by_size (ram_blocks l);
  rn_packed : ram_freed l = false -> packed l
}.

Lemma run_inv_later l : run_inv l -> ram_freed l = true -> ram_inv l.
Proof. by intros [] ?; split. Qed.

Lemma run_inv_of l : ram_inv l -> run_inv l.
Proof. intros [? ? ? Hf]. by split; [..|rewrite Hf]. Qed.

Lemma run_inv_empty : run_inv empty_ramlist.
Proof.
  split; [apply packed_empty|by intros b ?%elem_of_nil|constructor|intros _; apply packed_empty].
Qed.

Lemma by_size_snoc bs b : by_size bs -> (forall x, x ∈ bs -> rb_max_length b <= rb_max_length x) -> by_size (bs ++ [b]).
Proof.
  induction 1 as [|x bs Hs IH HF]; intros Hb; simpl; [repeat constructor|]. constructor.
  - apply IH. intros y Hy. apply Hb. by right.
  - rewrite Forall_app. split; [done|]. repeat constructor. apply Hb. by left.
Qed.

Lemma first_place l len off :
  packed l -> aligned (ram_blocks l) -> in_order l len -> find_ram_offset TB l len = Some off -> (align | off).
Proof.
  intros [Hl Hfr Hlast] Hal Hord. unfold find_ram_offset. destruct (len =? 0); [done|].
  destruct Hlast as [[E1 E2]|(bs & c & E1 & E2 & Hc)].
  { rewrite E1, bool_decide_eq_true_2 by done. intros [= <-]. apply Z.divide_0_r. }
  rewrite bool_decide_eq_false_2 by (rewrite E1; by destruct bs). rewrite Hfr. cbn [negb].
  assert (c ∈ ram_blocks l) as Hin by (rewrite E1; apply elem_of_app; right; left).
  unfold find_ram_offset_last. rewrite E2, (proj2 (block_at_found l (rb_ptr c) c Hl)) by done. cbn [mbind option_bind].
  destruct (Hord c Hin) as (_ & Hd & _). pose proof (ro_blocks _ Hl _ Hin) as [_ Ho Hm He]. unfold b_end, RAM_ADDR_MAX in *.
  rewrite (wrap_id 64 (rb_offset c + rb_max_length c)) by (unfold uint; lia).
  destruct (_ <? _); [done|]. intros [= <-]. apply Z.divide_add_r; [by apply Hal|done].
Qed.

Lemma run_inv_first l g mem size host mr r err l' :
  run_inv l -> ram_freed l = false -> in_order l (alloc_len size host) -> g ∉ rb_ptr <$> ram_blocks l -> uint 64 size ->
  qemu_ram_alloc_from_ptr TB host_page g mem l size host mr = Some (r, err, l') -> run_inv l'.
Proof.
  intros Hl Hf Hord Hg Hs Ha. pose proof (rn_packed _ Hl Hf) as Hpk.
  destruct (packed_alloc l g mem size host mr r err l' Hpk Hg Hs) as [Hpk' Hbs];
    [right; apply Hord|apply Hord|done|].
  destruct r as [b|]; [|by subst]. unfold qemu_ram_alloc_from_ptr in Ha. destruct (g =? 0); [done|].
  change (if host =? 0 then _ else _) with (alloc_len size host) in Ha.
  apply bind_Some in Ha as ([[e b'] l1] & Hadd & Heq). case_bool_decide; [|done]. injection Heq as -> <- <-.
  unfold ram_block_add in Hadd. apply bind_Some in Hadd as (off & Hoff & Hadd). cbn [rb_max_length] in Hoff.
  assert (rb_offset b = off /\ rb_max_length b = alloc_len size host) as [Eo El].
  { destruct (_ =? 0); [by injection Hadd as <- <- <-|]. destruct (_ || _).
    - destruct (insert_block _ _). by injection Hadd as <- <- <-.
    - destruct (_ =? 0); [by injection Hadd as <- <- <-|]. apply bind_Some in Hadd as (? & _ & Hadd). by injection Hadd as <- <- <-. }
  split; [apply Hpk'| | |done]; rewrite Hbs.
  - intros x [Hx| ->%list_elem_of_singleton]%elem_of_app; [by apply Hl|]. rewrite Eo. by apply (first_place l (alloc_len size host) off Hpk (rn_aligned _ Hl)).
  - apply by_size_snoc; [apply Hl|]. intros x Hx. rewrite El. by apply Hord.
Qed.

Lemma run_inv_free l p r l' : run_inv l -> qemu_ram_free l p = Some (r, l') -> run_inv l'.
Proof.
  intros Hl Hf. destruct (decide (p = 0)) as [->|Hp]; [by injection Hf as <- <-|].
  destruct (ram_free_ok l p (rn_ok _ Hl) Hp r l' Hf) as (Hok & Hfr & _ & _).
  unfold qemu_ram_free in Hf. destruct (Z.eqb_spec p 0); [done|]. apply bind_Some in Hf as (b & Hb & [= <- <-]).
  split; [done| | |by rewrite Hfr]; simpl.
  - intros x [_ Hx]%list_elem_of_filter. by apply (rn_aligned _ Hl).
  - apply by_size_filter, Hl.
Qed.

Lemma run_inv_get l addr b l' : run_inv l -> uint 64 addr -> qemu_get_ram_block l addr = Some (b, l') -> run_inv l'.
Proof.
  intros [Hl Hal Hs Hp] Ha Hg. pose proof (get_block_ok l addr Hl Ha) as H. rewrite Hg in H.
  destruct H as (Hb & _ & Hm & Hbs & Hfr & Hla).
  assert (ram_ok l') as Hok.
  { destruct Hl as [B1 B2 B3 _]. split; rewrite ?Hbs; [done..|]. right. exists b. by rewrite Hm. }
  split; [done|by rewrite Hbs..|]. rewrite Hfr. intros Hp'. destruct (Hp Hp') as [_ _ Hlast].
  split; [done|by rewrite Hfr|]. by rewrite Hbs, Hla.
Qed.

Lemma run_inv_steps l l' : rtc ordered_step l l' -> run_inv l -> run_inv l'.
Proof.
  induction 1 as [|l l1 l' Hs _ IH]; [done|]. intros Hl. apply IH. clear IH.
  destruct Hs as [l g mem size host mr r err l1 Hord Hg Hs Ha| |]; [|by eapply run_inv_free|by eapply run_inv_get].
  destruct (ram_freed l) eqn:Hf; [|by eapply run_inv_first; eauto].
  apply run_inv_of. by eapply ram_alloc_ok; eauto using run_inv_later.
Qed.
End places.

(** ** Host pointers *)

(** The host memory of the blocks: each within the address space of the host,
    no two of them share a byte, and all of a block is used. *)
Record hosts_ok (l : RAMList) : Prop := {
  ho_range : forall b, b ∈ ram_blocks l -> 0 < rb_host b /\ rb_host b + rb_max_length b <= 2 ^ 64 /\ rb_used_length b = rb_max_length b;
  ho_apart : forall x y, x ∈ ram_blocks l -> y ∈ ram_blocks l -> rb_ptr x <> rb_ptr y ->
    rb_host x + rb_max_length x <= rb_host y \/ rb_host y + rb_max_length y <= rb_host x
}.

Lemma host_in_block_iff l b p :
  ram_ok l -> hosts_ok l -> b ∈ ram_blocks l -> uint 64 p -> host_in_block p b = true <-> rb_host b <= p < rb_host b + rb_max_length b.
Proof.
  intros Hl Hh Hb Hp. destruct (ho_range _ Hh _ Hb) as (H1 & H2 & _). destruct (ro_blocks _ Hl _ Hb) as [_ _ H3 _].
  unfold host_in_block, uint in *. rewrite (proj2 (Z.eqb_neq _ _)) by lia. cbn [negb andb]. rewrite Z.ltb_lt.
  destruct (decide (rb_host b <= p)).
  - rewrite wrap_id by (unfold uint; lia). lia.
  - split; [|lia]. unfold wrap. rewrite <- (Z.mod_unique_pos (p - rb_host b) (2 ^ 64) (-1) (p - rb_host b + 2 ^ 64)); lia.
Qed.

(** The block of a host pointer is found whatever block was used last. *)
Lemma block_from_host_ok TB l b p :
  ram_ok l -> hosts_ok l -> b ∈ ram_blocks l -> rb_host b <= p < rb_host b + rb_max_length b ->
  qemu_ram_block_from_host TB l p false = Some (Some (b, p - rb_host b)).
Proof.
  intros Hl Hh Hb Hp. pose proof (ho_range _ Hh _ Hb) as (H1 & H2 & _).
  assert (uint 64 p) as Hu by (unfold uint; lia).
  assert (forall c, c ∈ ram_blocks l -> host_in_block p c = true -> c = b) as Huniq.
  { intros c Hc E. apply (host_in_block_iff l) in E; [|done..]. destruct (decide (rb_ptr c = rb_ptr b)) as [Ep|Ep].
    - by apply (ptr_inj l).
    - destruct (ho_apart _ Hh _ _ Hc Hb Ep); lia. }
  assert (u64 (p - rb_host b) = p - rb_host b) as Ew by (apply wrap_id; unfold uint; lia).
  assert (host_in_block p b = true) as Hin by (by apply (host_in_block_iff l)).
  assert (head (filter (fun b => host_in_block p b = true) (ram_blocks l)) = Some b) as Hs.
  { destruct (filter _ _) as [|c t] eqn:E.
    - assert (b ∈ filter (fun b => host_in_block p b = true) (ram_blocks l)) as Hf by by apply list_elem_of_filter.
      rewrite E in Hf. by apply elem_of_nil in Hf.
    - assert (c ∈ filter (fun b => host_in_block p b = true) (ram_blocks l)) as [Hf Hc]%list_elem_of_filter by (rewrite E; left).
      simpl. f_equal. by apply Huniq. }
  unfold qemu_ram_block_from_host. rewrite Hs, Ew.
  destruct (Z.eqb_spec (mru_block l) 0) as [|Hm]; [done|].
  destruct (ro_mru _ Hl) as [?|(c & Hc & Hcm)]; [done|].
  rewrite (proj2 (block_at_found l (mru_block l) c Hl)) by done. simpl.
  destruct (host_in_block p c) eqn:E; [|done]. by rewrite (Huniq c Hc E), Ew.
Qed.

Lemma ram_ptr_roundtrip_ok TB l b addr :
  ram_ok l -> hosts_ok l -> b ∈ ram_blocks l -> rb_offset b <= addr < b_end b ->
  exists l', qemu_map_ram_ptr l None addr = Some (rb_host b + (addr - rb_offset b), l') /\
  ram_blocks l' = ram_blocks l /\
  qemu_ram_addr_from_host TB l' (rb_host b + (addr - rb_offset b)) = Some addr.
Proof.
  intros Hl Hh Hb Ha. pose proof (ro_blocks _ Hl _ Hb) as [_ Hb1 Hb2 Hb3].
  pose proof (ho_range _ Hh _ Hb) as (H1 & H2 & Hu). unfold b_end, RAM_ADDR_MAX in *.
  assert (uint 64 addr) as Hua by (unfold uint; lia).
  pose proof (get_block_ok l addr Hl Hua) as Hg. unfold qemu_map_ram_ptr.
  destruct (qemu_get_ram_block l addr) as [[c l']|]; [|by destruct (Hg b Hb)].
  destruct Hg as (Hc & Hca & Hm & Hbs & Hfr & _).
  assert (c = b) as ->.
  { destruct (decide (rb_ptr c = rb_ptr b)); [by apply (ptr_inj l)|].
    destruct (ro_apart _ Hl c b) as [?|?]; [done..| |]; unfold b_end in *; lia. }
  exists l'. cbn [mbind option_bind]. unfold ramblock_ptr, offset_in_ramblock.
  rewrite (proj2 (Z.eqb_neq _ _)), (wrap_id 64 (addr - rb_offset b)) by (unfold uint; lia). cbn [negb andb].
  rewrite (proj2 (Z.ltb_lt _ _)), wrap_id by (unfold uint; lia). split; [done|]. split; [done|].
  assert (ram_ok l') as Hl'.
  { destruct Hl as [O1 O2 O3 _]. split; rewrite ?Hbs; [done..|]. right. exists b. by rewrite Hm. }
  assert (hosts_ok l') as Hh' by (destruct Hh; by split; rewrite ?Hbs).
  unfold qemu_ram_addr_from_host. rewrite (block_from_host_ok TB l' b) by (rewrite ?Hbs; done || lia).
  cbn [mbind option_bind]. rewrite wrap_id by (unfold uint; lia). do 2 f_equal. lia.
Qed.

(** ** Results *)

(** C36: Once a block was freed and the blocks that are left have aligned
    places, an allocation that does not abort adds one block to the list, of
    the rounded size, at an aligned place that no other block uses and whose gap
    is the smallest of those that fit, and keeps the list in order; when the
    host has no memory the list is unchanged and the error is
    [UC_ERR_NOMEM].  It does not abort when some aligned place after a block has
    room. *)
Theorem ram_alloc_correct TB host_page l g mem size host mr :
  0 <= TB <= 57 -> ram_inv TB l -> g ∉ rb_ptr <$> ram_blocks l -> uint 64 size ->
  (forall r err l', qemu_ram_alloc_from_ptr TB host_page g mem l size host mr = Some (r, err, l') ->
   ram_inv TB l' /\ alloc_outcome TB l g (alloc_len host_page size host) mr r err l') /\
  (0 < alloc_len host_page size host -> (exists p, room TB l (alloc_len host_page size host) p) ->
   exists r err l', qemu_ram_alloc_from_ptr TB host_page g mem l size host mr = Some (r, err, l')).
Proof.
  intros HTB Hl Hg Hs. split; [intros r err l'; by apply ram_alloc_ok|]. intros Hlen [p Hp].
  destruct (find_freed_finds TB HTB l _ p (ri_ok _ _ Hl) (ri_freed _ _ Hl) Hlen Hp) as [off Hoff].
  unfold qemu_ram_alloc_from_ptr. destruct (g =? 0); [by do 3 eexists|].
  unfold ram_block_add. cbn [rb_max_length rb_host]. change (if host =? 0 then ROUND_UP _ _ else _) with (alloc_len host_page size host).
  rewrite Hoff, (ri_freed _ _ Hl). cbn [mbind option_bind orb].
  destruct (_ =? 0); [by do 3 eexists|]. destruct (insert_block _ _). by do 3 eexists.
Qed.

(** Block 1 of two pages, after block 2 was allocated and freed. *)
Definition freed_list : RAMList := mk_ramlist [mk_block 1 0 0x7f0100000000 0 0x2000 0x2000 false] 0 true 0.

Lemma freed_list_reached :
  (l ← alloc_pages empty_ramlist 1 [2; 1]; '(_, l) ← qemu_ram_free l 2; Some l) = Some freed_list.
Proof. vm_compute. reflexivity. Qed.

Lemma freed_list_ok : ram_inv 12 freed_list.
Proof.
  split; [|intros b ->%list_elem_of_singleton; apply Z.divide_0_r|repeat constructor|done].
  split; [|repeat constructor; set_solver| |by left].
  - intros b ->%list_elem_of_singleton. by split.
  - intros x y ->%list_elem_of_singleton ->%list_elem_of_singleton. done.
Qed.

Lemma freed_list_hosts : hosts_ok freed_list.
Proof.
  split; [intros b ->%list_elem_of_singleton; simpl; lia|].
  intros x y ->%list_elem_of_singleton ->%list_elem_of_singleton. done.
Qed.

Definition some_memory (size : Z) : Z := 0x7f0500000000.

Lemma ram_alloc_correct_witness :
  ram_inv 12 (mk_ramlist [mk_block 1 0 0x7f0100000000 0 0x2000 0x2000 false; mk_block 5 7 0x7f0500000000 0x40000 0x1000 0x1000 false] 0 true 5).
Proof.
  destruct (ram_alloc_correct 12 0x1000 freed_list 5 some_memory 0xfff 0 7 ltac:(lia) freed_list_ok ltac:(vm_compute; set_solver)
    ltac:(split; reflexivity || lia)) as [H _].
  apply (H (Some (mk_block 5 7 0x7f0500000000 0x40000 0x1000 0x1000 false)) UC_ERR_OK). vm_compute. reflexivity.
Defined.

(** C37: From the empty list on, as long as the blocks that are allocated before
    the first free come from the biggest to the smallest, only the last of them
    has a size that is not a multiple of 64 pages and the addresses suffice, and
    then in any order and with any sizes, sequences of allocations, frees and
    lookups keep every two blocks apart, every block in the range of
    [ram_addr_t] at a multiple of 64 pages, the list sorted by size, and the block
    used last one of the list.  ([ram_places_overlap] below shows two sequences
    out of that order where blocks share addresses.) *)
Theorem ram_runs_keep_apart TB host_page l :
  0 <= TB <= 57 -> rtc (ordered_step TB host_page) empty_ramlist l ->
  ram_ok l /\ aligned TB (ram_blocks l) /\ by_size (ram_blocks l).
Proof.
  intros HTB Hr. destruct (run_inv_steps TB host_page HTB _ _ Hr (run_inv_empty TB)) as [H1 H2 H3 _]. done.
Qed.

(** 128 pages and two pages; after the first is freed a block of four pages
    follows, at the next multiple of 64 pages after the two. *)
Definition run_block (g host off len : Z) : RAMBlock := mk_block g 0 host off len len false.

Lemma ram_runs_keep_apart_witness :
  rtc (ordered_step 12 0x1000) empty_ramlist
    (mk_ramlist [run_block 3 0x7f0500000000 0xc0000 0x4000; run_block 2 0x7f0500000000 0x80000 0x2000] 0 true 0) /\
  apart (run_block 3 0x7f0500000000 0xc0000 0x4000) (run_block 2 0x7f0500000000 0x80000 0x2000).
Proof.
  pose (b1 := run_block 1 0x7f0500000000 0 0x80000). pose (b2 := run_block 2 0x7f0500000000 0x80000 0x2000).
  pose (b3 := run_block 3 0x7f0500000000 0xc0000 0x4000).
  assert (rtc (ordered_step 12 0x1000) empty_ramlist (mk_ramlist [b3; b2] 0 true 0)) as Hr.
  { apply (rtc_l _ _ (mk_ramlist [b1] 0 false 1)).
    { apply (ordered_alloc _ _ _ 1 some_memory 0x80000 0 0 (Some b1) UC_ERR_OK);
        [by intros _ b ?%elem_of_nil|by intros ?%elem_of_nil|split; reflexivity || lia|vm_compute; reflexivity]. }
    apply (rtc_l _ _ (mk_ramlist [b1; b2] 0 false 2)).
    { apply (ordered_alloc _ _ _ 2 some_memory 0x1fff 0 0 (Some b2) UC_ERR_OK);
        [|vm_compute; set_solver|split; reflexivity || lia|vm_compute; reflexivity].
      intros _ b ->%list_elem_of_singleton. vm_compute. split; [by intros ?|]. split; [by exists 2|by intros ?]. }
    apply (rtc_l _ _ (mk_ramlist [b1; b2] 2 false 2)).
    { apply (ordered_get _ _ _ 0x80123 b2); [split; reflexivity || lia|vm_compute; reflexivity]. }
    apply (rtc_l _ _ (mk_ramlist [b2] 0 true 0)).
    { apply (ordered_free _ _ _ 1 (Some (0x7f0500000000, 0x80000))). vm_compute. reflexivity. }
    apply rtc_once. apply (ordered_alloc _ _ _ 3 some_memory 0x4000 0 0 (Some b3) UC_ERR_OK);
      [done|vm_compute; set_solver|split; reflexivity || lia|vm_compute; reflexivity]. }
  split; [exact Hr|].
  destruct (ram_runs_keep_apart 12 0x1000 _ ltac:(lia) Hr) as (H & _ & _).
  apply (ro_apart _ H); [left|right; left|done].
Defined.

(** Before the first free, as long as no block is bigger than one of those
    before it (unless it is a page or less) and the addresses suffice, each new
    block is put after all others, in the list and in the space of addresses,
    and so no two blocks overlap. *)
Theorem ram_first_blocks_apart TB host_page l g mem size host mr r err l' :
  0 <= TB <= 57 -> packed l -> g ∉ rb_ptr <$> ram_blocks l -> uint 64 size ->
  (alloc_len host_page size host <= target_page_size TB \/
   forall b, b ∈ ram_blocks l -> alloc_len host_page size host <= rb_max_length b) ->
  (forall b, b ∈ ram_blocks l -> b_end b + alloc_len host_page size host <= RAM_ADDR_MAX) ->
  qemu_ram_alloc_from_ptr TB host_page g mem l size host mr = Some (r, err, l') ->
  packed l' /\ match r with Some b => ram_blocks l' = ram_blocks l ++ [b] | None => l' = l end.
Proof. intros HTB. by apply packed_alloc. Qed.

Lemma ram_first_blocks_apart_witness :
  packed (mk_ramlist [mk_block 5 7 0x7f0500000000 0 0x3000 0x3000 false] 0 false 5).
Proof.
  refine (proj1 (ram_first_blocks_apart 12 0x1000 empty_ramlist 5 some_memory 0x2001 0 7
    (Some (mk_block 5 7 0x7f0500000000 0 0x3000 0x3000 false)) UC_ERR_OK _ ltac:(lia) packed_empty _ _ _ _ _)).
  - by intros ?%elem_of_nil.
  - split; reflexivity || lia.
  - right. by intros b ?%elem_of_nil.
  - by intros b ?%elem_of_nil.
  - vm_compute. reflexivity.
Defined.

(** The host pointer of an address of a block is the block's host memory at
    the same offset, and from it [qemu_ram_addr_from_host] gives the address
    back, whatever block was used last. *)
Theorem ram_ptr_roundtrip TB l b addr :
  ram_ok l -> hosts_ok l -> b ∈ ram_blocks l -> rb_offset b <= addr < b_end b ->
  exists l', qemu_map_ram_ptr l None addr = Some (rb_host b + (addr - rb_offset b), l') /\
  ram_blocks l' = ram_blocks l /\
  qemu_ram_addr_from_host TB l' (rb_host b + (addr - rb_offset b)) = Some addr.
Proof. apply ram_ptr_roundtrip_ok. Qed.

Lemma ram_ptr_roundtrip_witness :
  exists l', qemu_map_ram_ptr freed_list None 0x1234 = Some (0x7f0100001234, l') /\ ram_blocks l' = ram_blocks freed_list /\
  qemu_ram_addr_from_host 12 l' 0x7f0100001234 = Some 0x1234.
Proof.
  apply (ram_ptr_roundtrip 12 freed_list (mk_block 1 0 0x7f0100000000 0 0x2000 0x2000 false) 0x1234
    (ri_ok _ _ freed_list_ok) freed_list_hosts); [left|unfold b_end; simpl; lia].
Defined.

(** Blocks that share addresses.  Two pages, four pages, one page: the second
    block becomes the first of the list and not its last, so the third one gets
    its place again.  And after a free: the places handed out before were not
    aligned, and the gap from the rounded end of the first block, at page 128,
    is given to the last one, although the second block has pages 65 to 129. *)
Example ram_places_overlap :
  places <$> alloc_pages empty_ramlist 1 [2; 4; 1] = Some [(2, 0x2000, 0x4000); (1, 0, 0x2000); (3, 0x2000, 0x1000)] /\
  (l ← alloc_pages empty_ramlist 1 [65; 65; 1]; '(_, l) ← qemu_ram_free l 3; l ← alloc_pages l 4 [10; 60]; Some (places l))
    = Some [(1, 0, 0x41000); (2, 0x41000, 0x41000); (5, 0x80000, 0x3c000); (4, 0xc0000, 0xa000)].
Proof. vm_compute. split; reflexivity. Qed.
