(* ===== verification/LinkedList.v ===== *)
(** * The singly linked list of [unicorn/list.c]

    The nodes live in a store of their own (a finite map from addresses to
    nodes), so that the aliasing between [head], [tail] and the [next] fields
    is the one of the C code.  A read through a dangling or null pointer, like
    a callback that fails, makes an operation return [None]. *)

From S2P Require Import Prelude.

Abbreviation ptr := Z (only parsing).
Abbreviation NULL := 0 (only parsing).

Record list_item := ListItem { next : ptr; data : ptr }.

Section LinkedList.

(** The memory the [delete_fn] callback works on. *)
Context {W : Type}.

Record llist := LList {
  head : ptr;
  tail : ptr;
  delete_fn : option (ptr -> W -> option W);
  nodes : gmap ptr list_item
}.

(** [if (list->delete_fn) list->delete_fn(data)]. *)
Definition call_delete_fn (f : option (ptr -> W -> option W)) (d : ptr) (w : W) : option W :=
  match f with
  | Some f => f d w
  | None => Some w
  end.

(** [calloc] zeroes the structure. *)
Definition list_new : llist := LList NULL NULL None ∅.

Definition set_nodes (l : llist) (h : gmap ptr list_item) : llist :=
  LList (head l) (tail l) (delete_fn l) h.

Definition set_head (l : llist) (p : ptr) : llist :=
  LList p (tail l) (delete_fn l) (nodes l).

Definition set_tail (l : llist) (p : ptr) : llist :=
  LList (head l) p (delete_fn l) (nodes l).

(** [p->next = q] for a live node [p]. *)
Definition set_next (p q : ptr) (l : llist) : option llist :=
  it ← nodes l !! p; Some (set_nodes l (<[p := ListItem q (data it)]> (nodes l))).

(** The [while] loop of [list_clear]. *)
Fixpoint list_clear_loop (fuel : nat) (l : llist) (cur : ptr) (w : W) : option (llist * W) :=
  match fuel with
  | O => None
  | S fuel =>
      if cur =? NULL then Some (l, w) else
      it ← nodes l !! cur;
      w ← call_delete_fn (delete_fn l) (data it) w;
      list_clear_loop fuel (set_nodes l (delete cur (nodes l))) (next it) w
  end.

Definition list_clear (l : llist) (w : W) : option (llist * W) :=
  '(l, w) ← list_clear_loop (S (size (nodes l))) l (head l) w;
  Some (set_tail (set_head l NULL) NULL, w).

(** [m] is what [malloc] returns: null, or the address of a fresh node. *)
Definition list_insert (m : ptr) (l : llist) (d : ptr) : ptr * llist :=
  if m =? NULL then (NULL, l) else
  let l := set_nodes l (<[m := ListItem (head l) d]> (nodes l)) in
  let l := if tail l =? NULL then set_tail l m else l in
  (m, set_head l m).

Definition list_append (m : ptr) (l : llist) (d : ptr) : option (ptr * llist) :=
  if m =? NULL then Some (NULL, l) else
  let l := set_nodes l (<[m := ListItem NULL d]> (nodes l)) in
  l ← (if head l =? NULL then Some (set_head l m) else set_next (tail l) m l);
  Some (m, set_tail l m).

(** The [while] loop of [list_remove]. *)
Fixpoint list_remove_loop (fuel : nat) (l : llist) (d cur prev : ptr) (w : W) :
    option (bool * llist * W) :=
  match fuel with
  | O => None
  | S fuel =>
      if cur =? NULL then Some (false, l, w) else
      it ← nodes l !! cur;
      if data it =? d then
        l ← (if cur =? head l then Some (set_head l (next it)) else set_next prev (next it) l);
        let l := if cur =? tail l then set_tail l prev else l in
        w ← call_delete_fn (delete_fn l) (data it) w;
        Some (true, set_nodes l (delete cur (nodes l)), w)
      else list_remove_loop fuel l d (next it) cur w
  end.

Definition list_remove (l : llist) (d : ptr) (w : W) : option (bool * llist * W) :=
  if head l =? NULL then Some (false, l, w) else
  list_remove_loop (S (size (nodes l))) l d (head l) NULL w.

(** The [while] loop of [list_exists]. *)
Fixpoint list_exists_loop (fuel : nat) (l : llist) (d cur : ptr) : option bool :=
  match fuel with
  | O => None
  | S fuel =>
      if cur =? NULL then Some false else
      it ← nodes l !! cur;
      if data it =? d then Some true else list_exists_loop fuel l d (next it)
  end.

Definition list_exists (l : llist) (d : ptr) : option bool :=
  if head l =? NULL then Some false else
  list_exists_loop (S (size (nodes l))) l d (head l).

(** ** Representation predicate *)

(** The nodes [xs] (address and payload) form a chain from [p] to [q]. *)
Fixpoint lseg (h : gmap ptr list_item) (p : ptr) (xs : list (ptr * ptr)) (q : ptr) : Prop :=
  match xs with
  | [] => p = q
  | (a, d) :: xs => p = a /\ a <> NULL /\ exists n, h !! a = Some (ListItem n d) /\ lseg h n xs q
  end.

(** [l] holds exactly the nodes [xs], and [tail] is the address of the last. *)
Record wf (l : llist) (xs : list (ptr * ptr)) : Prop := {
  wf_chain : lseg (nodes l) (head l) xs NULL;
  wf_tail : tail l = default NULL (last xs.*1);
  wf_nodup : NoDup xs.*1;
  wf_dom : dom (nodes l) = list_to_set xs.*1
}.

(** [l] represents the sequence of payloads [ds]. *)
Definition repr (l : llist) (ds : list ptr) : Prop := exists xs, wf l xs /\ ds = xs.*2.

(** The first occurrence of [d] is removed. *)
Fixpoint remove_first (d : ptr) (ds : list ptr) : list ptr :=
  match ds with
  | [] => []
  | x :: ds => if x =? d then ds else x :: remove_first d ds
  end.

Lemma lseg_app h p xs ys q :
  lseg h p (xs ++ ys) q <-> exists m, lseg h p xs m /\ lseg h m ys q.
Proof.
  revert p. induction xs as [|[a d] xs IH]; intros p; simpl.
  - split; [eauto|]. by intros (m & -> & ?).
  - setoid_rewrite IH. naive_solver.
Qed.

(** A chain only depends on its own nodes. *)
Lemma lseg_frame h h' p xs q :
  (forall a, a ∈ xs.*1 -> h' !! a = h !! a) -> lseg h p xs q -> lseg h' p xs q.
Proof.
  revert p. induction xs as [|[a d] xs IH]; intros p Hf; [done|].
  intros (-> & Ha & n & Hn & Hs). split_and!; [done..|]. exists n. split.
  - rewrite Hf; [done|]. set_solver.
  - apply IH; [|done]. intros b Hb. apply Hf. set_solver.
Qed.

Lemma lseg_insert h p xs q a it :
  a ∉ xs.*1 -> lseg h p xs q -> lseg (<[a := it]> h) p xs q.
Proof. intros Ha. apply lseg_frame. intros b Hb. rewrite lookup_insert_ne; set_solver. Qed.

Lemma lseg_delete h p xs q a :
  a ∉ xs.*1 -> lseg h p xs q -> lseg (delete a h) p xs q.
Proof. intros Ha. apply lseg_frame. intros b Hb. rewrite lookup_delete_ne; set_solver. Qed.

Lemma lseg_head_null h xs : lseg h NULL xs NULL -> xs = [].
Proof. destruct xs as [|[a d] xs]; [done|]. by intros (-> & ? & _). Qed.

(** Redirecting the last node of a chain. *)
Lemma lseg_snoc_next h p xs a d q q' :
  NoDup (xs ++ [(a, d)]).*1 ->
  lseg h p (xs ++ [(a, d)]) q -> lseg (<[a := ListItem q' d]> h) p (xs ++ [(a, d)]) q'.
Proof.
  rewrite fmap_app, NoDup_app. intros (_ & Hd & _).
  rewrite !lseg_app. intros (m & Hs & -> & Ha & n & Hn & _).
  exists a. split.
  - apply lseg_insert; [|done]. intros Hin. by apply (Hd a Hin), list_elem_of_here.
  - split_and!; [done..|]. exists q'. by rewrite lookup_insert_eq.
Qed.

Lemma wf_size l xs : wf l xs -> size (nodes l) = length xs.
Proof.
  intros [_ _ Hnd Hdom]. rewrite <- (size_dom (nodes l)), Hdom.
  rewrite size_list_to_set by done. by rewrite length_fmap.
Qed.

Lemma wf_head_null l xs : wf l xs -> head l = NULL <-> xs = [].
Proof.
  intros [Hc _ _ _]. split.
  - intros H. rewrite H in Hc. by apply lseg_head_null in Hc.
  - by intros ->.
Qed.

Lemma wf_fresh l xs m : wf l xs -> nodes l !! m = None -> m ∉ xs.*1.
Proof. intros [_ _ _ Hd] Hm. rewrite <- (elem_of_list_to_set (C := gset Z)), <- Hd. by apply not_elem_of_dom. Qed.

Lemma list_new_wf : wf list_new [].
Proof. split; try done. by apply NoDup_nil. Qed.

(** ** Functional specifications *)

Lemma lseg_nonnull h p xs q a : lseg h p xs q -> a ∈ xs.*1 -> a <> NULL.
Proof.
  intros Hc ([b d] & -> & Hin)%list_elem_of_fmap.
  apply list_elem_of_split in Hin as (l1 & l2 & ->).
  by apply lseg_app in Hc as (? & _ & _ & ? & _).
Qed.

Lemma wf_tail_null l xs : wf l xs -> tail l = NULL <-> xs = [].
Proof.
  intros [Hc Ht _ _]. rewrite Ht. split; [|by intros ->].
  destruct (last xs.*1) as [t|] eqn:E; simpl; intros H.
  - by apply last_Some_elem_of, (lseg_nonnull _ _ _ _ _ Hc) in E.
  - by apply last_None, fmap_nil_inv in E.
Qed.

Lemma list_insert_null l d : list_insert NULL l d = (NULL, l).
Proof. done. Qed.

Lemma list_insert_wf l xs m d :
  wf l xs -> m <> NULL -> nodes l !! m = None ->
  exists l', list_insert m l d = (m, l') /\ wf l' ((m, d) :: xs) /\ delete_fn l' = delete_fn l.
Proof.
  intros Hwf Hm Hfr. pose proof (wf_fresh _ _ _ Hwf Hfr) as Hni.
  pose proof (wf_tail_null _ _ Hwf) as Htn.
  destruct Hwf as [Hc Ht Hnd Hdom].
  unfold list_insert. rewrite (proj2 (Z.eqb_neq m NULL) Hm); simpl.
  eexists; split_and!; [done| |by destruct (tail l =? NULL)].
  assert (Hn : nodes (if tail l =? NULL then set_tail (set_nodes l (<[m:=ListItem (head l) d]> (nodes l))) m
      else set_nodes l (<[m:=ListItem (head l) d]> (nodes l))) = <[m := ListItem (head l) d]> (nodes l))
    by (by destruct (tail l =? NULL)).
  split; simpl; rewrite ?Hn.
  - split_and!; [done..|]. exists (head l).
    rewrite lookup_insert_eq. split; [done|]. by apply lseg_insert.
  - destruct (tail l =? NULL) eqn:E; bool_to_prop; simpl.
    + by rewrite (proj1 Htn E).
    + rewrite Ht. destruct xs; [naive_solver|done].
  - by constructor.
  - by rewrite dom_insert_L, Hdom.
Qed.

Lemma list_append_wf l xs m d :
  wf l xs -> m <> NULL -> nodes l !! m = None ->
  exists l', list_append m l d = Some (m, l') /\ wf l' (xs ++ [(m, d)]) /\ delete_fn l' = delete_fn l.
Proof.
  intros Hwf Hm Hfr. pose proof (wf_fresh _ _ _ Hwf Hfr) as Hni.
  pose proof (wf_head_null _ _ Hwf) as Hhn. destruct Hwf as [Hc Ht Hnd Hdom].
  unfold list_append. rewrite (proj2 (Z.eqb_neq m NULL) Hm); simpl.
  destruct (head l =? NULL) eqn:E; bool_to_prop; simpl.
  - rewrite (proj1 Hhn E) in *. eexists; split_and!; [done| |done]. split; simpl.
    + split_and!; [done..|]. exists NULL. by rewrite lookup_insert_eq.
    + done.
    + apply NoDup_singleton.
    + rewrite dom_insert_L, Hdom. set_solver.
  - destruct xs as [|[t dt] ys _] using rev_ind; [naive_solver|].
    rewrite fmap_app in Ht. simpl in Ht. rewrite last_snoc in Ht. simpl in Ht.
    assert (t <> m) by set_solver.
    assert (Hc' := Hc). apply lseg_app in Hc' as (? & _ & -> & ? & n & Hn & _).
    unfold set_next; simpl. rewrite Ht, lookup_insert_ne, Hn by done. simpl.
    eexists; split_and!; [done| |done]. split; simpl.
    + apply lseg_app. exists m. split.
      * apply (lseg_snoc_next _ _ _ _ _ NULL); [done|]. by apply lseg_insert.
      * split_and!; [done..|]. exists NULL.
        rewrite lookup_insert_ne, lookup_insert_eq by done. done.
    + rewrite fmap_app. simpl. by rewrite last_snoc.
    + rewrite fmap_app. apply NoDup_app. split_and!; [done| |apply NoDup_singleton].
      intros a Ha Hin. set_solver.
    + rewrite dom_insert_lookup_L by (rewrite lookup_insert_ne by done; eauto).
      rewrite dom_insert_L, Hdom. rewrite (fmap_app _ (ys ++ _)). set_solver.
Qed.

Lemma list_exists_loop_spec l d xs cur fuel :
  lseg (nodes l) cur xs NULL -> (length xs < fuel)%nat ->
  list_exists_loop fuel l d cur = Some (bool_decide (d ∈ xs.*2)).
Proof.
  revert cur xs. induction fuel as [|fuel IH]; intros cur [|[a x] xs] Hc Hf; simpl in *;
    try lia.
  - by subst cur.
  - destruct Hc as (-> & Ha & n & Hn & Hc). apply Z.eqb_neq in Ha. rewrite Ha, Hn. simpl.
    destruct (x =? d) eqn:E; bool_to_prop.
    + subst. symmetry. f_equal. apply bool_decide_eq_true_2. set_solver.
    + rewrite (IH n xs) by (done || lia). f_equal. apply bool_decide_ext. set_solver.
Qed.

Lemma list_exists_wf l xs d : wf l xs -> list_exists l d = Some (bool_decide (d ∈ xs.*2)).
Proof.
  intros Hwf. unfold list_exists. destruct (head l =? NULL) eqn:E; bool_to_prop.
  - apply (wf_head_null _ _ Hwf) in E as ->. done.
  - apply list_exists_loop_spec; [apply Hwf|]. rewrite (wf_size _ _ Hwf). lia.
Qed.

(** Unlinking the node [a] that follows the chain [pre]. *)
Definition unlink (l : llist) (a n prev : ptr) : option llist :=
  l ← (if a =? head l then Some (set_head l n) else set_next prev n l);
  let l := if a =? tail l then set_tail l prev else l in
  Some (set_nodes l (delete a (nodes l))).

Lemma wf_mid l pre a d suf :
  wf l (pre ++ (a, d) :: suf) ->
  exists n, nodes l !! a = Some (ListItem n d) /\ a <> NULL
    /\ lseg (nodes l) (head l) pre a /\ lseg (nodes l) n suf NULL
    /\ (a ∉ pre.*1) /\ (a ∉ suf.*1) /\ NoDup (pre ++ suf).*1.
Proof.
  intros [Hc _ Hnd _]. apply lseg_app in Hc as (? & Hp & -> & ? & n & Hn & Hs).
  exists n. rewrite fmap_app, fmap_cons in Hnd. simpl in Hnd.
  rewrite fmap_app. apply NoDup_app in Hnd as (? & Hd & [? ?]%NoDup_cons).
  split_and!; [done..| |done|].
  - intros Hin. apply (Hd _ Hin). set_solver.
  - apply NoDup_app. split_and!; [done| |done]. intros b Hb ?. apply (Hd _ Hb). set_solver.
Qed.

Lemma unlink_wf l pre a d suf n :
  wf l (pre ++ (a, d) :: suf) -> nodes l !! a = Some (ListItem n d) ->
  exists l', unlink l a n (default NULL (last pre.*1)) = Some l'
    /\ wf l' (pre ++ suf) /\ delete_fn l' = delete_fn l.
Proof.
  intros Hwf Hn. destruct (wf_mid _ _ _ _ _ Hwf) as (n' & Hn' & Ha & Hp & Hs & Hap & Has & Hnd).
  rewrite Hn in Hn'. injection Hn' as <-. destruct Hwf as [Hc Ht _ Hdom].
  assert (Hlast : last (pre ++ (a, d) :: suf).*1 = last (a :: suf.*1)).
  { rewrite fmap_app. apply last_app_cons. }
  assert (Htl : (if a =? tail l then default NULL (last pre.*1) else tail l)
                = default NULL (last (pre ++ suf).*1)).
  { rewrite Ht, Hlast. destruct suf as [|[b e] suf _] using rev_ind.
    - simpl. by rewrite Z.eqb_refl, app_nil_r.
    - rewrite !fmap_app. simpl. rewrite app_assoc, app_comm_cons, !last_snoc. simpl.
      destruct (Z.eqb_spec a b); [set_solver|done]. }
  assert (Hdel : forall h : gmap Z list_item, dom h = dom (nodes l) ->
    dom (delete a h) = list_to_set (C := gset Z) (pre ++ suf).*1).
  { intros h Hh. rewrite dom_delete_L, Hh, Hdom, !fmap_app, fmap_cons. simpl. set_solver. }
  destruct pre as [|[b e] pre _] using rev_ind.
  - simpl in Hp. unfold unlink. rewrite Hp, Z.eqb_refl. simpl.
    eexists; split_and!; [done| |by destruct (a =? tail l)].
    destruct (a =? tail l); (split; simpl; [|done..|by apply Hdel]); by apply lseg_delete.
  - assert (Hb := Hp). apply lseg_app in Hb as (? & _ & -> & Hb0 & n' & Hb & ->).
    assert (Hba : b <> a) by set_solver.
    assert (Hh : a <> head l).
    { intros Heq. rewrite <- Heq in Hp. destruct pre as [|[c f] pre]; simpl in Hp; set_solver. }
    apply Z.eqb_neq in Hh. unfold unlink, set_next. rewrite Hh.
    replace (default NULL (last (pre ++ [(b, e)]).*1)) with b in *
      by (rewrite fmap_app; simpl; by rewrite last_snoc).
    rewrite Hb. simpl. eexists; split_and!; [done| |by destruct (a =? tail l)].
    assert (Hc' : lseg (delete a (<[b:=ListItem n e]> (nodes l))) (head l) ((pre ++ [(b, e)]) ++ suf) NULL).
    { apply lseg_app. exists n. split; apply lseg_delete; [done| |done|].
      - by eapply lseg_snoc_next; [rewrite fmap_app, NoDup_app in Hnd; apply Hnd|].
      - apply lseg_insert; [|done]. rewrite fmap_app, NoDup_app in Hnd.
        apply (proj1 (proj2 Hnd)). set_solver. }
    destruct (a =? tail l); (split; simpl; [done..|]); apply Hdel, dom_insert_lookup_L; eauto.
Qed.

(** [list_remove] unlinks and frees the first node with payload [d] and hands
    [d] to the callback, or changes nothing. *)
Lemma list_remove_loop_none l d xs cur prev w fuel :
  lseg (nodes l) cur xs NULL -> (length xs < fuel)%nat -> d ∉ xs.*2 ->
  list_remove_loop fuel l d cur prev w = Some (false, l, w).
Proof.
  revert cur prev xs. induction fuel as [|fuel IH]; intros cur prev [|[a x] xs] Hc Hf Hd;
    simpl in *; try lia; [by subst cur|].
  destruct Hc as (-> & Ha & n & Hn & Hc). apply Z.eqb_neq in Ha. rewrite Ha, Hn. simpl.
  assert (x <> d) as Hx%Z.eqb_neq by set_solver. rewrite Hx.
  apply (IH _ _ xs); [done|lia|set_solver].
Qed.

Lemma list_remove_loop_some l d pre s1 a s2 cur w fuel :
  wf l (pre ++ s1 ++ (a, d) :: s2) -> d ∉ s1.*2 ->
  lseg (nodes l) cur (s1 ++ (a, d) :: s2) NULL -> (length s1 < fuel)%nat ->
  exists l', wf l' (pre ++ s1 ++ s2) /\ delete_fn l' = delete_fn l /\
    list_remove_loop fuel l d cur (default NULL (last pre.*1)) w =
    (w ← call_delete_fn (delete_fn l) d w; Some (true, l', w)).
Proof.
  revert pre s1 cur. induction fuel as [|fuel IH]; intros pre [|[b x] s1] cur Hwf Hd Hc Hf;
    simpl in *; try lia; destruct Hc as (-> & Ha & n & Hn & Hc);
    apply Z.eqb_neq in Ha; rewrite Ha, Hn; simpl.
  - rewrite Z.eqb_refl. destruct (unlink_wf _ _ _ _ _ _ Hwf Hn) as (l' & Hu & Hwf' & Hdf).
    exists l'. split_and!; [done..|]. unfold unlink in Hu.
    destruct (if a =? head l then _ else _) as [l1|] eqn:E1; simplify_eq/=.
    destruct (a =? tail l1); simpl in *; unfold call_delete_fn; simpl; by rewrite Hdf.
  - assert (x <> d) as Hx%Z.eqb_neq by set_solver. rewrite Hx.
    specialize (IH (pre ++ [(b, x)]) s1 n). rewrite <- !app_assoc in IH. simpl in IH.
    rewrite fmap_app in IH. simpl in IH. rewrite last_snoc in IH. simpl in IH.
    apply IH; [done|set_solver|done|lia].
Qed.

Lemma list_remove_wf_absent l xs d w :
  wf l xs -> d ∉ xs.*2 -> list_remove l d w = Some (false, l, w).
Proof.
  intros Hwf Hd. unfold list_remove. case_if; [done|].
  apply (list_remove_loop_none _ _ xs); [apply Hwf| |done]. rewrite (wf_size _ _ Hwf). lia.
Qed.

Lemma list_remove_wf l s1 a d s2 w :
  wf l (s1 ++ (a, d) :: s2) -> d ∉ s1.*2 ->
  exists l', wf l' (s1 ++ s2) /\ delete_fn l' = delete_fn l /\
    list_remove l d w = (w ← call_delete_fn (delete_fn l) d w; Some (true, l', w)).
Proof.
  intros Hwf Hd. unfold list_remove. case_if.
  { apply (wf_head_null _ _ Hwf) in Heqb. by destruct s1. }
  apply (list_remove_loop_some l d [] s1 a s2 (head l)); [done|done|apply Hwf|].
  rewrite (wf_size _ _ Hwf), length_app. simpl. lia.
Qed.

(** The callbacks of [list_clear], in list order. *)
Fixpoint delete_all (f : option (ptr -> W -> option W)) (ds : list ptr) (w : W) : option W :=
  match ds with
  | [] => Some w
  | d :: ds => w ← call_delete_fn f d w; delete_all f ds w
  end.

Lemma list_clear_loop_spec l xs cur w fuel :
  lseg (nodes l) cur xs NULL -> NoDup xs.*1 -> (length xs < fuel)%nat ->
  dom (nodes l) = list_to_set xs.*1 ->
  list_clear_loop fuel l cur w = (w ← delete_all (delete_fn l) xs.*2 w; Some (set_nodes l ∅, w)).
Proof.
  revert l cur xs w. induction fuel as [|fuel IH]; intros l cur [|[a x] xs] w Hc Hnd Hf Hdom;
    simpl in *; try lia.
  - subst cur. simpl. apply dom_empty_inv_L in Hdom. unfold set_nodes. rewrite <- Hdom. by destruct l.
  - destruct Hc as (-> & Ha & n & Hn & Hc). apply Z.eqb_neq in Ha. rewrite Ha, Hn. simpl.
    apply NoDup_cons in Hnd as [Hni Hnd].
    destruct (call_delete_fn (delete_fn l) x w) as [w'|]; simpl; [|done].
    rewrite (IH _ _ xs); [done| |done|lia|].
    + by apply lseg_delete.
    + simpl. rewrite dom_delete_L, Hdom. set_solver.
Qed.

Lemma list_clear_wf l xs w :
  wf l xs ->
  list_clear l w = (w ← delete_all (delete_fn l) xs.*2 w; Some (LList NULL NULL (delete_fn l) ∅, w)).
Proof.
  intros Hwf. unfold list_clear.
  rewrite (list_clear_loop_spec l xs) by (apply Hwf || rewrite (wf_size _ _ Hwf); lia).
  by destruct (delete_all (delete_fn l) xs.*2 w).
Qed.

(** The header [for (cur = list.head; cur != NULL && (x = cur->data); cur = cur->next)]
    the engine walks its lists with: the payloads the body sees, when the body
    leaves the list alone. *)
Fixpoint list_walk_loop (fuel : nat) (l : llist) (cur : ptr) : option (list ptr) :=
  match fuel with
  | O => None
  | S fuel =>
      if cur =? NULL then Some [] else
      it ← nodes l !! cur;
      if data it =? NULL then Some [] else
      ds ← list_walk_loop fuel l (next it); Some (data it :: ds)
  end.

Definition list_walk (l : llist) : option (list ptr) :=
  list_walk_loop (S (size (nodes l))) l (head l).

Lemma list_walk_loop_spec l xs cur fuel :
  lseg (nodes l) cur xs NULL -> (length xs < fuel)%nat -> Forall (fun d => d <> NULL) xs.*2 ->
  list_walk_loop fuel l cur = Some xs.*2.
Proof.
  revert cur xs. induction fuel as [|fuel IH]; intros cur [|[a x] xs] Hc Hf Hd;
    simpl in *; try lia; [by subst cur|].
  destruct Hc as (-> & Ha & n & Hn & Hc). apply Z.eqb_neq in Ha. rewrite Ha, Hn. simpl.
  apply Forall_cons in Hd as [Hx%Z.eqb_neq Hd]. rewrite Hx.
  by rewrite (IH _ xs) by (done || lia).
Qed.

Lemma list_walk_wf l xs :
  wf l xs -> Forall (fun d => d <> NULL) xs.*2 -> list_walk l = Some xs.*2.
Proof.
  intros Hwf Hd. apply list_walk_loop_spec; [apply Hwf| |done]. rewrite (wf_size _ _ Hwf). lia.
Qed.

End LinkedList.

Arguments llist : clear implicits.

(** ** What the list promises to its clients

    The hook code of [uc.c] is proved against this interface: the operations
    of [list.c] and their effect on the sequence of payloads. *)

Class ListSpec (W L : Type) := {
  ls_delete_fn : L -> option (ptr -> W -> option W);
  ls_fresh : L -> ptr -> Prop;
  ls_repr : L -> list ptr -> Prop;
  ls_insert : ptr -> L -> ptr -> ptr * L;
  ls_append : ptr -> L -> ptr -> option (ptr * L);
  ls_remove : L -> ptr -> W -> option (bool * L * W);
  ls_exists : L -> ptr -> option bool;
  ls_clear : L -> W -> option (L * W);
  ls_walk : L -> option (list ptr);
  ls_insert_null l d : ls_insert NULL l d = (NULL, l);
  ls_append_null l d : ls_append NULL l d = Some (NULL, l);
  ls_insert_ok l ds m d :
    ls_repr l ds -> m <> NULL -> ls_fresh l m ->
    exists l', ls_insert m l d = (m, l') /\ ls_repr l' (d :: ds) /\ ls_delete_fn l' = ls_delete_fn l;
  ls_append_ok l ds m d :
    ls_repr l ds -> m <> NULL -> ls_fresh l m ->
    exists l', ls_append m l d = Some (m, l') /\ ls_repr l' (ds ++ [d]) /\ ls_delete_fn l' = ls_delete_fn l;
  ls_remove_absent l ds d w : ls_repr l ds -> d ∉ ds -> ls_remove l d w = Some (false, l, w);
  ls_remove_present l ds d w :
    ls_repr l ds -> d ∈ ds ->
    exists l', ls_repr l' (remove_first d ds) /\ ls_delete_fn l' = ls_delete_fn l /\
      ls_remove l d w = (w ← call_delete_fn (ls_delete_fn l) d w; Some (true, l', w));
  ls_exists_ok l ds d : ls_repr l ds -> ls_exists l d = Some (bool_decide (d ∈ ds));
  ls_clear_ok l ds w :
    ls_repr l ds ->
    exists l', ls_repr l' [] /\ ls_delete_fn l' = ls_delete_fn l /\
      ls_clear l w = (w ← delete_all (ls_delete_fn l) ds w; Some (l', w));
  ls_walk_ok l ds : ls_repr l ds -> Forall (fun d => d <> NULL) ds -> ls_walk l = Some ds
}.

(** Splitting a list of payloads at the first occurrence. *)
Lemma payload_split d (xs : list (ptr * ptr)) :
  d ∈ xs.*2 -> exists s1 a s2, xs = s1 ++ (a, d) :: s2 /\ d ∉ s1.*2.
Proof.
  induction xs as [|[a x] xs IH]; simpl; [set_solver|]. intros Hd.
  destruct (decide (x = d)) as [->|Hne]; [by exists [], a, xs; split; [|set_solver]|].
  destruct IH as (s1 & b & s2 & -> & Hs); [set_solver|].
  exists ((a, x) :: s1), b, s2. split; [done|set_solver].
Qed.

Lemma remove_first_app d s1 s2 : d ∉ s1 -> remove_first d (s1 ++ d :: s2) = s1 ++ s2.
Proof.
  induction s1 as [|x s1 IH]; simpl; [by rewrite Z.eqb_refl|]. intros Hd.
  assert (x <> d) as Hx%Z.eqb_neq by set_solver. rewrite Hx, IH by set_solver. done.
Qed.

#[export] Program Instance llist_spec (W : Type) : ListSpec W (llist W) := {|
  ls_delete_fn := delete_fn;
  ls_fresh l m := nodes l !! m = None;
  ls_repr := repr;
  ls_insert := list_insert;
  ls_append := list_append;
  ls_remove := list_remove;
  ls_exists := list_exists;
  ls_clear := list_clear;
  ls_walk := list_walk
|}.
Next Obligation. done. Qed.
Next Obligation. done. Qed.
Next Obligation.
  intros W l ds m d (xs & Hwf & ->) Hm Hf.
  destruct (list_insert_wf _ _ _ d Hwf Hm Hf) as (l' & ? & ? & ?).
  exists l'. split_and!; [done| |done]. by exists ((m, d) :: xs).
Qed.
Next Obligation.
  intros W l ds m d (xs & Hwf & ->) Hm Hf.
  destruct (list_append_wf _ _ _ d Hwf Hm Hf) as (l' & ? & ? & ?).
  exists l'. split_and!; [done| |done]. exists (xs ++ [(m, d)]). by rewrite fmap_app.
Qed.
Next Obligation. intros W l ds d w (xs & Hwf & ->) Hd. by apply (list_remove_wf_absent _ xs). Qed.
Next Obligation.
  intros W l ds d w (xs & Hwf & ->) Hd. apply payload_split in Hd as (s1 & a & s2 & -> & Hs).
  destruct (list_remove_wf _ _ _ _ _ w Hwf Hs) as (l' & Hwf' & ? & ?).
  exists l'. split_and!; [|done..]. exists (s1 ++ s2). split; [done|].
  rewrite !fmap_app. simpl. by apply remove_first_app.
Qed.
Next Obligation. intros W l ds d (xs & Hwf & ->). by apply list_exists_wf. Qed.
Next Obligation.
  intros W l ds w (xs & Hwf & ->). eexists. split_and!; [| |by apply list_clear_wf]; [|done].
  exists []. split; [|done]. split; try done. by apply NoDup_nil.
Qed.
Next Obligation. intros W l ds (xs & Hwf & ->) Hd. by apply list_walk_wf. Qed.

(** ** Properties *)

(** Removing a payload from a well-formed list ends, touches only live
    nodes, unlinks and frees the first node with that payload (keeping [head],
    [tail] and the [next] chain consistent), hands the payload to [delete_fn]
    exactly once and returns true; when the payload is absent the list and the
    world stay as they are and the result is false. *)
Theorem list_remove_correct {W} (l : llist W) ds d w :
  repr l ds ->
  (d ∉ ds -> list_remove l d w = Some (false, l, w)) /\
  (d ∈ ds -> exists l', repr l' (remove_first d ds) /\ delete_fn l' = delete_fn l /\
     list_remove l d w = (w ← call_delete_fn (delete_fn l) d w; Some (true, l', w))).
Proof. intros Hr. split; intros Hd; [exact (ls_remove_absent l ds d w Hr Hd)|exact (ls_remove_present l ds d w Hr Hd)]. Qed.

Example list_abc : llist (list ptr) :=
  LList 16 48 (Some (fun d w => Some (d :: w)))
    {[16 := ListItem 32 100; 32 := ListItem 48 200; 48 := ListItem NULL 300]}.

Lemma list_abc_repr : repr list_abc [100; 200; 300].
Proof.
  exists [(16, 100); (32, 200); (48, 300)]. split; [|done]. split; simpl.
  - repeat (split_and!; [done..|]; eexists; split; [by vm_compute|]). done.
  - done.
  - by apply (bool_decide_unpack _).
  - by apply (bool_decide_unpack _).
Qed.

Lemma list_remove_correct_witness :
  exists l', repr l' [100; 200] /\ delete_fn l' = delete_fn list_abc /\
    list_remove list_abc 300 [] = Some (true, l', [300]).
Proof.
  apply (list_remove_correct list_abc [100; 200; 300] 300 [] list_abc_repr).
  by apply (bool_decide_unpack _).
Defined.

(** Inserting at the head and appending at the tail give the expected
    sequences on every well-formed list, the empty one included, and leave the
    list alone when [malloc] returns null. *)
Theorem list_insert_append_correct {W} (l : llist W) ds m d :
  repr l ds ->
  (m <> NULL -> nodes l !! m = None ->
    (exists l', list_insert m l d = (m, l') /\ repr l' (d :: ds)) /\
    (exists l', list_append m l d = Some (m, l') /\ repr l' (ds ++ [d]))) /\
  list_insert NULL l d = (NULL, l) /\ list_append NULL l d = Some (NULL, l).
Proof.
  intros Hr. split_and!; [|done..]. intros Hm Hf. split.
  - destruct (@ls_insert_ok W _ (llist_spec W) l ds m d Hr Hm Hf) as (l' & ? & ? & _). by exists l'.
  - destruct (@ls_append_ok W _ (llist_spec W) l ds m d Hr Hm Hf) as (l' & ? & ? & _). by exists l'.
Qed.

Lemma list_insert_append_correct_witness :
  exists l', list_append 64 list_abc 400 = Some (64, l') /\ repr l' [100; 200; 300; 400].
Proof.
  refine (proj2 (proj1 (list_insert_append_correct list_abc [100; 200; 300] 64 400 list_abc_repr) _ _)).
  - done.
  - by vm_compute.
Defined.

(** [list_clear] ends, visits and frees every node once in list order,
    calls [delete_fn] on each payload in that order and leaves an empty list;
    [list_exists] answers membership. *)
Theorem list_clear_exists_correct {W} (l : llist W) ds w d :
  repr l ds ->
  (exists l', repr l' [] /\ nodes l' = ∅ /\
    list_clear l w = (w ← delete_all (delete_fn l) ds w; Some (l', w))) /\
  list_exists l d = Some (bool_decide (d ∈ ds)).
Proof.
  intros (xs & Hwf & ->). split; [|by apply list_exists_wf].
  eexists. split_and!; [| |by apply list_clear_wf]; [|done].
  exists []. split; [|done]. split; try done. by apply NoDup_nil.
Qed.

Lemma list_clear_exists_correct_witness :
  exists l', repr l' [] /\ nodes l' = ∅ /\ list_clear list_abc [] = Some (l', [300; 200; 100]).
Proof. exact (proj1 (list_clear_exists_correct list_abc [100; 200; 300] [] 0 list_abc_repr)). Defined.
