(* ===== verification/Hooks.v ===== *)
(** * Hook registration of [unicorn/uc.c]

    A hook object is shared by up to [UC_HOOK_MAX] hook lists and by the list
    of hooks to delete; it carries a reference count and is freed when the
    count drops to zero.  The code is modelled over the list interface
    [ListSpec]; dereferencing a freed hook gives [None]. *)

From S2P Require Import Prelude UcTypes LinkedList.

(** [struct hook]; [hooked_regions] holds the (start, length) keys of the hash
    table. *)
Record hook := Hook {
  hk_type : Z;
  insn : Z;
  refs : Z;
  op : Z;
  op_flags : Z;
  to_delete : bool;
  hk_begin : Z;
  hk_end : Z;
  callback : ptr;
  user_data : ptr;
  hooked_regions : list (Z * Z)
}.

Abbreviation hook_heap := (gmap ptr hook).

Definition set_refs (hk : hook) (n : Z) : hook :=
  Hook (hk_type hk) (insn hk) n (op hk) (op_flags hk) (to_delete hk) (hk_begin hk) (hk_end hk)
    (callback hk) (user_data hk) (hooked_regions hk).

(** [g_hash_table_remove_all(hook->hooked_regions); hook->to_delete = true]. *)
Definition mark_deleted (hk : hook) : hook :=
  Hook (hk_type hk) (insn hk) (refs hk) (op hk) (op_flags hk) true (hk_begin hk) (hk_end hk)
    (callback hk) (user_data hk) [].

(** [hook->insn = ...] and [hook->op = ...; hook->op_flags = ...]. *)
Definition set_insn (hk : hook) (i : Z) : hook :=
  Hook (hk_type hk) i (refs hk) (op hk) (op_flags hk) (to_delete hk) (hk_begin hk) (hk_end hk)
    (callback hk) (user_data hk) (hooked_regions hk).

Definition set_op (hk : hook) (o f : Z) : hook :=
  Hook (hk_type hk) (insn hk) (refs hk) o f (to_delete hk) (hk_begin hk) (hk_end hk)
    (callback hk) (user_data hk) (hooked_regions hk).

(** [HOOK_BOUND_CHECK]. *)
Definition HOOK_BOUND_CHECK (hk : hook) (addr : Z) : bool :=
  (((hk_begin hk <=? addr) && (addr <=? hk_end hk)) || (hk_end hk <? hk_begin hk))
  && negb (to_delete hk).

(** The [delete_fn] of the hook lists. *)
Definition hook_delete (h : ptr) (hs : hook_heap) : option hook_heap :=
  hk ← hs !! h;
  let hk := set_refs hk (refs hk - 1) in
  Some (if refs hk =? 0 then delete h hs else <[h := hk]> hs).

(** [free(hook)]: the object must be live. *)
Definition free_hook (h : ptr) (hs : hook_heap) : option hook_heap :=
  _ ← hs !! h; Some (delete h hs).

(** ** Reference counting *)

(** Occurrences of a hook in a list of references. *)
Fixpoint occ (h : ptr) (xs : list ptr) : Z :=
  match xs with
  | [] => 0
  | x :: xs => (if x =? h then 1 else 0) + occ h xs
  end.

Lemma occ_app h xs ys : occ h (xs ++ ys) = occ h xs + occ h ys.
Proof. induction xs as [|x xs IH]; simpl; lia. Qed.

Lemma occ_nonneg h xs : 0 <= occ h xs.
Proof. induction xs as [|x xs IH]; simpl; [lia|]. case_if; lia. Qed.

Lemma occ_pos h xs : 0 < occ h xs <-> h ∈ xs.
Proof.
  induction xs as [|x xs IH]; simpl; [set_solver by lia|].
  rewrite elem_of_cons, <- IH. pose proof (occ_nonneg h xs). case_if; intuition (congruence || lia).
Qed.

Lemma occ_zero h xs : occ h xs = 0 <-> h ∉ xs.
Proof. rewrite <- occ_pos. pose proof (occ_nonneg h xs). lia. Qed.

#[export] Instance occ_perm h : Proper ((≡ₚ) ==> (=)) (occ h).
Proof. intros xs ys Hp. induction Hp; simpl; lia. Qed.

Lemma remove_first_perm h xs : h ∈ xs -> xs ≡ₚ h :: remove_first h xs.
Proof.
  induction xs as [|x xs IH]; simpl; [set_solver|]. intros Hin.
  case_if; [by subst|]. rewrite IH at 1 by set_solver. constructor.
Qed.

Lemma concat_insert_perm {A} (dss : list (list A)) i ds ds' x :
  dss !! i = Some ds -> ds' ≡ₚ x :: ds -> concat (<[i := ds']> dss) ≡ₚ x :: concat dss.
Proof.
  revert i. induction dss as [|d dss IH]; intros [|i] Hi Hp; simplify_eq/=.
  - by rewrite Hp.
  - rewrite IH by done. by rewrite Permutation_middle.
Qed.

(** The heap holds exactly the hooks referenced from [xs], each with its
    number of references. *)
Definition counted (hs : hook_heap) (xs : list ptr) : Prop :=
  forall h, match hs !! h with
    | Some hk => refs hk = occ h xs /\ 0 < occ h xs
    | None => occ h xs = 0
    end.

#[export] Instance counted_perm hs : Proper ((≡ₚ) ==> iff) (counted hs).
Proof.
  intros xs ys Hp. unfold counted. pose proof (fun h => occ_perm h _ _ Hp) as E.
  split; intros H h; specialize (H h); [rewrite <- E|rewrite E]; done.
Qed.

(** [hs'] arises from [hs] by changing reference counts and freeing hooks. *)
Definition shrinks (hs hs' : hook_heap) : Prop :=
  forall h hk', hs' !! h = Some hk' -> exists hk, hs !! h = Some hk /\ hk' = set_refs hk (refs hk').

#[export] Instance shrinks_preorder : PreOrder shrinks.
Proof.
  split.
  - intros hs h hk Hh. exists hk. by destruct hk.
  - intros a b c Hab Hbc h hk Hh. destruct (Hbc _ _ Hh) as (hk1 & H1 & E1).
    destruct (Hab _ _ H1) as (hk0 & H0 & E0). exists hk0. split; [done|].
    rewrite E1, E0. by destruct hk0.
Qed.

Lemma counted_live hs xs h : counted hs xs -> h ∈ xs -> exists hk, hs !! h = Some hk.
Proof.
  intros Hc Hin%occ_pos. specialize (Hc h). destruct (hs !! h) as [hk|]; [eauto|lia].
Qed.

Lemma hook_delete_counted hs xs h :
  counted hs (h :: xs) ->
  exists hs', hook_delete h hs = Some hs' /\ counted hs' xs /\ shrinks hs hs'.
Proof.
  intros Hc. assert (Hh := Hc h). unfold hook_delete.
  destruct (hs !! h) as [hk|] eqn:E; simpl in *; rewrite Z.eqb_refl in Hh;
    pose proof (occ_nonneg h xs); [|lia].
  destruct Hh as [Hr _]. eexists; split; [done|].
  destruct (refs hk - 1 =? 0) eqn:E0; bool_to_prop; split.
  - intros k. specialize (Hc k). simpl in Hc. destruct (decide (h = k)) as [<-|Hne].
    + rewrite lookup_delete_eq. lia.
    + rewrite lookup_delete_ne by done. by apply Z.eqb_neq in Hne; rewrite Hne in Hc.
  - intros k hk' Hk. rewrite lookup_delete_Some in Hk. exists hk'. split; [naive_solver|].
    by destruct hk'.
  - intros k. specialize (Hc k). simpl in Hc. destruct (decide (h = k)) as [<-|Hne].
    + rewrite lookup_insert_eq. simpl. lia.
    + rewrite lookup_insert_ne by done. by apply Z.eqb_neq in Hne; rewrite Hne in Hc.
  - intros k hk' Hk. destruct (decide (h = k)) as [<-|Hne].
    + rewrite lookup_insert_eq in Hk. simplify_eq. exists hk. split; [done|]. by destruct hk.
    + rewrite lookup_insert_ne in Hk by done. exists hk'. split; [done|]. by destruct hk'.
Qed.

(** Clearing a list drops its references one by one. *)
Lemma delete_all_counted hs ds xs :
  counted hs (ds ++ xs) ->
  exists hs', delete_all (Some hook_delete) ds hs = Some hs' /\ counted hs' xs /\ shrinks hs hs'.
Proof.
  revert hs. induction ds as [|d ds IH]; intros hs Hc; simpl in *.
  - by exists hs.
  - destruct (hook_delete_counted _ _ _ Hc) as (hs1 & -> & Hc1 & Hs1). simpl.
    destruct (IH _ Hc1) as (hs2 & -> & Hc2 & Hs2). exists hs2. split_and!; [done..|].
    by etrans.
Qed.

Section Hooks.

Context {L : Type} `{LS : !ListSpec hook_heap L}.

(** What [malloc] returns for the list node the [k]-th hook list is about to
    link; the nodes of [hooks_to_del] come after the [UC_HOOK_MAX] lists. *)
Variable malloc : nat -> L -> ptr.

(** Target callbacks: which instructions and opcodes may be hooked. *)
Variable insn_hook_validate : option (Z -> bool).
Variable opcode_hook_invalidate : option (Z -> Z -> bool).

(** The hook part of [struct uc_struct]. [tb_invalidations] records the calls
    of [uc->uc_invalidate_tb]. *)
Record engine := Engine {
  hook_lists : list L;
  hooks_count : list Z;
  hooks_to_del : L;
  insert_mode : bool;
  heap : hook_heap;
  tb_invalidations : list (Z * Z)
}.

Definition set_heap (e : engine) (hs : hook_heap) : engine :=
  Engine (hook_lists e) (hooks_count e) (hooks_to_del e) (insert_mode e) hs (tb_invalidations e).

Definition set_list (e : engine) (i : nat) (l : L) : engine :=
  Engine (<[i := l]> (hook_lists e)) (hooks_count e) (hooks_to_del e) (insert_mode e) (heap e)
    (tb_invalidations e).

Definition set_to_del (e : engine) (l : L) : engine :=
  Engine (hook_lists e) (hooks_count e) l (insert_mode e) (heap e) (tb_invalidations e).

(** [uc->hooks_count[i] += d]. *)
Definition count_add (e : engine) (i : nat) (d : Z) : engine :=
  Engine (hook_lists e) (alter (fun c => c + d) i (hooks_count e)) (hooks_to_del e) (insert_mode e)
    (heap e) (tb_invalidations e).

(** [hook_invalidate_region] over all regions of a hook. *)
Definition invalidate_regions (e : engine) (rs : list (Z * Z)) : engine :=
  Engine (hook_lists e) (hooks_count e) (hooks_to_del e) (insert_mode e) (heap e)
    (tb_invalidations e ++ rs).

(** [h->refs++] after a successful list operation. *)
Definition ref_hook (item h : ptr) (hs : hook_heap) : option hook_heap :=
  if item =? NULL then Some hs else
  hk ← hs !! h; Some (<[h := set_refs hk (refs hk + 1)]> hs).

Definition hook_insert (m : ptr) (l : L) (h : ptr) (hs : hook_heap) : option (ptr * L * hook_heap) :=
  let '(item, l) := ls_insert m l h in
  hs ← ref_hook item h hs; Some (item, l, hs).

Definition hook_append (m : ptr) (l : L) (h : ptr) (hs : hook_heap) : option (ptr * L * hook_heap) :=
  '(item, l) ← ls_append m l h;
  hs ← ref_hook item h hs; Some (item, l, hs).

(** The insertion into [uc->hook[i]] that the three paths of [uc_hook_add]
    share: [hook_insert] or [hook_append] as [uc->hook_insert] says, [free]
    and failure when there is no memory, the counter otherwise. *)
Definition link_hook (i : nat) (h : ptr) (e : engine) : option (bool * engine) :=
  l ← hook_lists e !! i;
  '(item, l, hs) ←
    (if insert_mode e then hook_insert (malloc i l) l h (heap e)
     else hook_append (malloc i l) l h (heap e));
  if item =? NULL then
    hs ← free_hook h hs; Some (false, set_heap e hs)
  else Some (true, count_add (set_heap (set_list e i l) hs) i 1).

(** The loop over the bits of [type]; [type] is a signed 32-bit [int]. *)
Fixpoint hook_add_loop (fuel : nat) (i : nat) (type : Z) (h : ptr) (e : engine) :
    option (bool * engine) :=
  match fuel with
  | O => None
  | S fuel =>
      if 0 <? Z.shiftr type (Z.of_nat i) then
        if negb (Z.land (Z.shiftr type (Z.of_nat i)) 1 =? 0) then
          if (i <? UC_HOOK_MAX)%nat then
            '(ok, e) ← link_hook i h e;
            if (ok : bool) then hook_add_loop fuel (S i) type h e else Some (false, e)
          else hook_add_loop fuel (S i) type h e
        else hook_add_loop fuel (S i) type h e
      else Some (true, e)
  end.

Definition new_hook (type : Z) (cb ud : ptr) (b e : Z) : hook :=
  Hook type 0 0 0 0 false b e cb ud [].

(** The outcome of a single-list path. *)
Definition add_single (idx : nat) (h : ptr) (e : engine) : option (uc_err * engine) :=
  '(ok, e) ← link_hook idx h e;
  Some (if (ok : bool) then UC_ERR_OK else UC_ERR_NOMEM, e).

(** [uc_hook_add]. [h] is what [calloc] returns, [va1] and [va2] are the
    variadic arguments. The handle [*hh] is [h]. *)
Definition uc_hook_add (h : ptr) (type : Z) (cb ud : ptr) (hbegin hend va1 va2 : Z) (e : engine) :
    option (uc_err * engine) :=
  if h =? NULL then Some (UC_ERR_NOMEM, e) else
  let hk := new_hook type cb ud hbegin hend in
  if negb (Z.land type UC_HOOK_INSN =? 0) then
    let e := set_heap e (<[h := set_insn hk va1]> (heap e)) in
    if default true ((fun f => f va1) <$> insn_hook_validate)
    then add_single UC_HOOK_INSN_IDX h e
    else hs ← free_hook h (heap e); Some (UC_ERR_HOOK, set_heap e hs)
  else if negb (Z.land type UC_HOOK_TCG_OPCODE =? 0) then
    let e := set_heap e (<[h := set_op hk va1 va2]> (heap e)) in
    if default true ((fun f => f va1 va2) <$> opcode_hook_invalidate)
    then add_single UC_HOOK_TCG_OPCODE_IDX h e
    else hs ← free_hook h (heap e); Some (UC_ERR_HOOK, set_heap e hs)
  else
    let e := set_heap e (<[h := hk]> (heap e)) in
    '(ok, e) ← hook_add_loop 33 0 type h e;
    if (ok : bool) then
      hk ← heap e !! h;
      if refs hk =? 0 then hs ← free_hook h (heap e); Some (UC_ERR_OK, set_heap e hs)
      else Some (UC_ERR_OK, e)
    else Some (UC_ERR_NOMEM, e).

(** One iteration of the [for] loop of [uc_hook_del]. *)
Definition hook_del_step (h : ptr) (i : nat) (e : engine) : option engine :=
  l ← hook_lists e !! i;
  found ← ls_exists l h;
  if (found : bool) then
    hk ← heap e !! h;
    let e := invalidate_regions e (hooked_regions hk) in
    let e := count_add (set_heap e (<[h := mark_deleted hk]> (heap e))) i (-1) in
    '(_, d, hs) ← hook_append (malloc (UC_HOOK_MAX + i) (hooks_to_del e)) (hooks_to_del e) h (heap e);
    Some (set_heap (set_to_del e d) hs)
  else Some e.

Fixpoint hook_del_loop (n : nat) (h : ptr) (i : nat) (e : engine) : option engine :=
  match n with
  | O => Some e
  | S n => e ← hook_del_step h i e; hook_del_loop n h (S i) e
  end.

Definition uc_hook_del (h : ptr) (e : engine) : option (uc_err * engine) :=
  e ← hook_del_loop UC_HOOK_MAX h 0 e; Some (UC_ERR_OK, e).

(** The inner loop of [clear_deleted_hooks]: remove the hook from the first
    list that holds it. *)
Fixpoint remove_from_lists (n : nat) (h : ptr) (i : nat) (e : engine) : option engine :=
  match n with
  | O => Some e
  | S n =>
      l ← hook_lists e !! i;
      '(removed, l, hs) ← ls_remove l h (heap e);
      let e := set_heap (set_list e i l) hs in
      if (removed : bool) then Some e else remove_from_lists n h (S i) e
  end.

Fixpoint clear_loop (ds : list ptr) (e : engine) : option engine :=
  match ds with
  | [] => Some e
  | h :: ds =>
      hk ← heap e !! h;
      if to_delete hk then
        e ← remove_from_lists UC_HOOK_MAX h 0 e;
        clear_loop ds e
      else None
  end.

(** [clear_deleted_hooks]; a failed [assert] gives [None]. The walked list
    [hooks_to_del] is not changed by the loop body. *)
Definition clear_deleted_hooks (e : engine) : option engine :=
  ds ← ls_walk (hooks_to_del e);
  e ← clear_loop ds e;
  '(d, hs) ← ls_clear (hooks_to_del e) (heap e);
  Some (set_heap (set_to_del e d) hs).

(** ** The invariant *)

(** A list of the engine, with its [delete_fn], represents [ds]. *)
Definition hook_list (l : L) (ds : list ptr) : Prop :=
  ls_repr l ds /\ ls_delete_fn l = Some hook_delete.

(** The hook lists represent [dss] and the list of hooks to delete [dd]. *)
Record hooks_inv (e : engine) (dss : list (list ptr)) (dd : list ptr) : Prop := {
  inv_lists : Forall2 hook_list (hook_lists e) dss;
  inv_len : length dss = UC_HOOK_MAX;
  inv_counts : length (hooks_count e) = UC_HOOK_MAX;
  inv_del : hook_list (hooks_to_del e) dd;
  inv_nodup : Forall NoDup dss;
  inv_nonnull : Forall (fun h => h <> NULL) (concat dss ++ dd);
  inv_counted : counted (heap e) (concat dss ++ dd);
  inv_marked h hk : heap e !! h = Some hk -> to_delete hk = true <-> h ∈ dd;
  inv_pending h : h ∈ dd -> occ h (concat dss) <= occ h dd
}.

(** *** Clearing *)

Lemma remove_first_notin h ds : NoDup ds -> h ∉ remove_first h ds.
Proof.
  induction 1 as [|x ds Hx Hnd IH]; simpl; [set_solver|]. case_if; [by subst|set_solver].
Qed.

Lemma remove_first_subset h ds x : x ∈ remove_first h ds -> x ∈ ds.
Proof. induction ds as [|y ds IH]; simpl; [done|]. case_if; set_solver. Qed.

Lemma remove_first_nodup h ds : NoDup ds -> NoDup (remove_first h ds).
Proof.
  induction 1 as [|x ds Hx Hnd IH]; simpl; [constructor|]. case_if; [done|].
  constructor; [|done]. intros Hin. by apply Hx, (remove_first_subset h).
Qed.

Lemma remove_first_filter h ds (P : ptr -> Prop) `{!forall x, Decision (P x)} :
  ~ P h -> filter P (remove_first h ds) = filter P ds.
Proof.
  intros HP. induction ds as [|x ds IH]; simpl; [done|]. case_if.
  - subst. by rewrite filter_cons_False.
  - rewrite !filter_cons, IH. done.
Qed.

(** How one round of [clear_deleted_hooks] changes the represented lists. *)
Definition removed_once (h : ptr) (dss dss' : list (list ptr)) : Prop :=
  (dss' = dss /\ h ∉ concat dss) \/
  (exists j ds, dss !! j = Some ds /\ h ∈ ds /\ dss' = <[j := remove_first h ds]> dss).

Lemma concat_insert_remove (dss : list (list ptr)) j ds h :
  dss !! j = Some ds -> h ∈ ds -> concat dss ≡ₚ h :: concat (<[j := remove_first h ds]> dss).
Proof.
  intros Hj Hin. rewrite <- (concat_insert_perm (<[j := remove_first h ds]> dss) j (remove_first h ds) ds).
  - by rewrite list_insert_insert_eq, list_insert_id.
  - apply list_lookup_insert_eq. by eapply lookup_lt_Some.
  - by apply remove_first_perm.
Qed.

Lemma remove_from_lists_ok n h i e dss dd :
  (i + n = length dss)%nat ->
  Forall2 hook_list (hook_lists e) dss -> counted (heap e) (concat dss ++ dd) -> h ∈ dd ->
  h ∉ concat (take i dss) ->
  exists e' dss', remove_from_lists n h i e = Some e' /\ removed_once h dss dss' /\
    Forall2 hook_list (hook_lists e') dss' /\ counted (heap e') (concat dss' ++ dd) /\
    shrinks (heap e) (heap e') /\ hooks_to_del e' = hooks_to_del e /\
    hooks_count e' = hooks_count e.
Proof.
  clear malloc.
  revert i e. induction n as [|n IH]; intros i e Hlen Hl Hc Hin Hni; simpl.
  - exists e, dss. split_and!; try done. left. split; [done|].
    by rewrite take_ge in Hni by lia.
  - destruct (lookup_lt_is_Some_2 dss i) as [ds Hds]; [lia|].
    destruct (Forall2_lookup_r _ _ _ _ _ Hl Hds) as (l & Hli & Hr & Hf).
    rewrite Hli. simpl. destruct (decide (h ∈ ds)) as [Hhd|Hhd].
    + destruct (ls_remove_present l ds h (heap e) Hr Hhd) as (l' & Hr' & Hf' & Hrem).
      rewrite Hrem, Hf. simpl.
      rewrite (concat_insert_remove _ _ _ _ Hds Hhd) in Hc. simpl in Hc.
      destruct (hook_delete_counted _ _ _ Hc) as (hs' & -> & Hc' & Hs'). simpl.
      exists (set_heap (set_list e i l') hs'), (<[i := remove_first h ds]> dss).
      split_and!; try done.
      * right. by exists i, ds.
      * apply Forall2_insert; [done|]. split; [done|congruence].
    + rewrite (ls_remove_absent l ds h (heap e) Hr Hhd). simpl.
      replace (set_heap (set_list e i l) (heap e)) with e.
      * apply IH; [lia|done..|]. erewrite take_S_r by done.
        rewrite concat_app. simpl. rewrite app_nil_r. set_solver.
      * unfold set_heap, set_list. simpl. rewrite list_insert_id by done. by destruct e.
Qed.

Lemma removed_once_occ h dss dss' k :
  removed_once h dss dss' ->
  occ k (concat dss') = if k =? h then Z.max 0 (occ k (concat dss) - 1) else occ k (concat dss).
Proof.
  intros [[-> Hni]|(j & ds & Hj & Hin & ->)].
  - case_if; [|done]. subst. apply occ_zero in Hni. lia.
  - pose proof (occ_nonneg k (concat (<[j:=remove_first h ds]> dss))) as Hnn.
    rewrite (occ_perm k _ _ (concat_insert_remove dss j ds h Hj Hin)). simpl.
    destruct (Z.eqb_spec k h), (Z.eqb_spec h k); subst; lia || congruence.
Qed.

Lemma removed_once_filter h dss dss' (P : ptr -> Prop) `{!forall x, Decision (P x)} :
  removed_once h dss dss' -> ~ P h -> filter P <$> dss' = filter P <$> dss.
Proof.
  intros [[-> _]|(j & ds & Hj & Hin & ->)] HP; [done|].
  rewrite list_fmap_insert, remove_first_filter by done.
  apply list_insert_id. rewrite list_lookup_fmap, Hj. done.
Qed.

#[local] Arguments remove_from_lists : simpl never.
#[local] Arguments Nat.add : simpl never.

Lemma clear_loop_ok ds e dss dd :
  length dss = UC_HOOK_MAX -> Forall2 hook_list (hook_lists e) dss ->
  counted (heap e) (concat dss ++ dd) ->
  (forall h, h ∈ ds -> h ∈ dd) ->
  (forall h hk, h ∈ dd -> heap e !! h = Some hk -> to_delete hk = true) ->
  exists e' dss', clear_loop ds e = Some e' /\
    Forall2 hook_list (hook_lists e') dss' /\ counted (heap e') (concat dss' ++ dd) /\
    (forall k, occ k (concat dss') = Z.max 0 (occ k (concat dss) - occ k ds)) /\
    (forall (P : ptr -> Prop) (D : forall x, Decision (P x)), (forall h, h ∈ ds -> ~ P h) ->
       filter P <$> dss' = filter P <$> dss) /\
    shrinks (heap e) (heap e') /\ hooks_to_del e' = hooks_to_del e /\
    hooks_count e' = hooks_count e.
Proof.
  revert e dss. induction ds as [|h ds IH]; intros e dss Hlen Hl Hc Hsub Hmk; simpl.
  - exists e, dss. split_and!; try done. intros k. pose proof (occ_nonneg k (concat dss)). lia.
  - assert (h ∈ dd) as Hh by set_solver.
    destruct (counted_live _ _ h Hc) as (hk & Hk); [set_solver|].
    rewrite Hk. simpl. rewrite (Hmk _ _ Hh Hk).
    destruct (remove_from_lists_ok UC_HOOK_MAX h 0 e dss dd) as
      (e1 & dss1 & -> & Hro & Hl1 & Hc1 & Hs1 & Hd1 & Hn1); [done..|set_solver|]. simpl.
    destruct (IH e1 dss1) as (e2 & dss2 & -> & Hl2 & Hc2 & Ho2 & Hf2 & Hs2 & Hd2 & Hn2);
      [|done|done|set_solver| |].
    { rewrite <- Hlen. destruct Hro as [[-> _]|(j & d & _ & _ & ->)]; [done|apply length_insert]. }
    { intros k hk' Hk' (hk0 & Hk0 & ->)%Hs1. simpl. by eapply Hmk. }
    exists e2, dss2. split_and!; try done.
    + intros k. rewrite Ho2, (removed_once_occ h dss dss1 k) by done. rewrite (Z.eqb_sym h k).
      pose proof (occ_nonneg k ds). case_if; lia.
    + intros P D HP. rewrite Hf2 by set_solver. apply (removed_once_filter h); [done|]. set_solver.
    + by etrans.
    + by rewrite Hd2.
    + by rewrite Hn2.
Qed.

Lemma clear_deleted_hooks_ok e dss dd :
  hooks_inv e dss dd ->
  exists e', clear_deleted_hooks e = Some e' /\
    hooks_inv e' (filter (.∉ dd) <$> dss) [] /\ shrinks (heap e) (heap e') /\
    hooks_count e' = hooks_count e.
Proof.
  intros [Hl Hlen Hcnt [Hr Hf] Hnd Hnn Hc Hmk Hp]. unfold clear_deleted_hooks.
  apply Forall_app in Hnn as [Hnl Hnn]. rewrite (ls_walk_ok _ _ Hr Hnn). simpl.
  destruct (clear_loop_ok dd e dss dd) as (e1 & dss1 & -> & Hl1 & Hc1 & Ho1 & Hf1 & Hs1 & Hd1 & Hn1);
    [done..| |]. { intros h hk Hin Hk. by apply (Hmk _ _ Hk). }
  simpl. rewrite Hd1.
  destruct (ls_clear_ok _ _ (heap e1) Hr) as (d' & Hr' & Hf' & ->). rewrite Hf.
  rewrite (Permutation_app_comm (concat dss1)) in Hc1.
  destruct (delete_all_counted _ _ _ Hc1) as (hs & -> & Hc2 & Hs2). simpl.
  assert (Hnone : forall h, h ∈ dd -> h ∉ concat dss1).
  { intros h Hin. apply occ_zero. rewrite Ho1. specialize (Hp h Hin). lia. }
  assert (Hdss : dss1 = filter (.∉ dd) <$> dss).
  { rewrite <- (Hf1 (.∉ dd) _) by set_solver. symmetry. rewrite <- (list_fmap_id dss1) at 2.
    apply list_fmap_ext. intros i ds Hi. apply list_filter_all, Forall_forall.
    intros h Hh Hin. apply (Hnone h Hin). by eapply elem_of_concat_lookup. }
  eexists. split_and!; [done| |by etrans|done]. rewrite <- Hdss.
  split; simpl; try done.
  - by rewrite Hdss, length_fmap.
  - by rewrite Hn1.
  - split; [done|congruence].
  - rewrite Hdss. apply Forall_fmap. eapply Forall_impl; [done|]. intros ds. apply NoDup_filter.
  - rewrite app_nil_r. apply Forall_forall. intros h Hh.
    assert (Hpos : 0 < occ h (concat dss1)) by (by apply occ_pos).
    rewrite Ho1 in Hpos. pose proof (occ_nonneg h dd).
    rewrite Forall_forall in Hnl. apply Hnl, occ_pos. lia.
  - by rewrite app_nil_r.
  - intros h hk Hk. split; [|set_solver]. intros Htd.
    destruct (Hs2 _ _ Hk) as (hk1 & Hk1 & E1). destruct (Hs1 _ _ Hk1) as (hk0 & Hk0 & E0).
    assert (h ∈ dd) as Hin by (apply (Hmk _ _ Hk0); rewrite E1, E0 in Htd; done).
    specialize (Hc2 h). rewrite Hk in Hc2. apply Hnone, occ_zero in Hin. lia.
  - set_solver.
Qed.

(** *** Deleting *)

(** [malloc] succeeds and returns fresh nodes. *)
Hypothesis malloc_ok : forall k l, malloc k l <> NULL /\ ls_fresh l (malloc k l).

(** Like [counted], for a live hook [h] that may have no reference yet. *)
Definition counted_but (h : ptr) (hs : hook_heap) (xs : list ptr) : Prop :=
  (exists hk, hs !! h = Some hk /\ refs hk = occ h xs) /\
  (forall k, k <> h -> match hs !! k with
    | Some hk => refs hk = occ k xs /\ 0 < occ k xs
    | None => occ k xs = 0 end).

Lemma counted_counted_but h hs xs : counted hs xs -> h ∈ xs -> counted_but h hs xs.
Proof.
  intros Hc Hin. split; [|intros k _; apply Hc]. destruct (counted_live _ _ _ Hc Hin) as (hk & Hk).
  exists hk. split; [done|]. specialize (Hc h). rewrite Hk in Hc. apply Hc.
Qed.

(** One more reference to [h]. *)
Lemma ref_counted hs xs h m :
  m <> NULL -> counted_but h hs xs ->
  exists hs' hk, ref_hook m h hs = Some hs' /\ counted hs' (h :: xs) /\
    hs !! h = Some hk /\ hs' = <[h := set_refs hk (refs hk + 1)]> hs.
Proof.
  intros Hm [(hk & Hk & Hr) Hc]. unfold ref_hook. apply Z.eqb_neq in Hm. rewrite Hm, Hk. simpl.
  eexists _, hk. split_and!; [done| |done..]. intros k. simpl.
  destruct (decide (h = k)) as [<-|Hne].
  - rewrite lookup_insert_eq, Z.eqb_refl. simpl. pose proof (occ_nonneg h xs). lia.
  - rewrite lookup_insert_ne by done. specialize (Hc k ltac:(congruence)).
    apply Z.eqb_neq in Hne. by rewrite Hne.
Qed.

(** Number of hooks of a list that are not marked as deleted. *)
Fixpoint live (hs : hook_heap) (ds : list ptr) : Z :=
  match ds with
  | [] => 0
  | h :: ds => (if decide ((to_delete <$> hs !! h) = Some false) then 1 else 0) + live hs ds
  end.

Lemma hook_append_ok l ds h hs xs :
  hook_list l ds -> forall k, counted_but h hs xs ->
  exists l' hk, hook_append (malloc k l) l h hs =
      Some (malloc k l, l', <[h := set_refs hk (refs hk + 1)]> hs) /\
    hook_list l' (ds ++ [h]) /\ hs !! h = Some hk /\
    counted (<[h := set_refs hk (refs hk + 1)]> hs) (h :: xs).
Proof.
  intros [Hr Hf] k Hc. destruct (malloc_ok k l) as [Hm Hfr].
  destruct (ls_append_ok l ds (malloc k l) h Hr Hm Hfr) as (l' & Happ & Hr' & Hf').
  destruct (ref_counted hs xs h (malloc k l) Hm Hc) as (hs' & hk & Hrf & Hc' & Hk & ->).
  exists l', hk. split_and!; try done; [|by split; [|congruence]].
  unfold hook_append. rewrite Happ. simpl. by rewrite Hrf.
Qed.

(** The flags after [h] has been marked, and those of the other hooks. *)
Definition marks (h : ptr) (b : bool) (hs hs' : hook_heap) : Prop :=
  forall k, to_delete <$> hs' !! k =
    if decide (k = h) then orb b <$> (to_delete <$> hs !! k) else to_delete <$> hs !! k.

Lemma hook_del_step_ok e dss dd h i ds :
  Forall2 hook_list (hook_lists e) dss -> hook_list (hooks_to_del e) dd ->
  counted (heap e) (concat dss ++ dd) -> dss !! i = Some ds ->
  exists e', hook_del_step h i e = Some e' /\
    hook_lists e' = hook_lists e /\
    hook_list (hooks_to_del e') (if decide (h ∈ ds) then dd ++ [h] else dd) /\
    counted (heap e') (concat dss ++ (if decide (h ∈ ds) then dd ++ [h] else dd)) /\
    marks h (bool_decide (h ∈ ds)) (heap e) (heap e') /\
    hooks_count e' = if decide (h ∈ ds) then alter (fun c => c - 1) i (hooks_count e) else hooks_count e.
Proof.
  intros Hl Hd Hc Hi. unfold hook_del_step.
  destruct (Forall2_lookup_r _ _ _ _ _ Hl Hi) as (l & -> & Hr & _). simpl.
  rewrite (ls_exists_ok l ds h Hr). simpl. case_bool_decide as Hin.
  - assert (Hall : h ∈ concat dss ++ dd).
    { apply elem_of_app. left. by eapply elem_of_concat_lookup. }
    destruct (counted_live _ _ _ Hc Hall) as (hk & Hk). rewrite Hk. simpl.
    set (e1 := count_add _ _ _).
    destruct (hook_append_ok (hooks_to_del e) dd h (heap e1) (concat dss ++ dd) Hd (UC_HOOK_MAX + i))
      as (d' & hk' & Happ & Hd' & Hk' & Hc').
    { split; [|intros k Hne; simpl; rewrite lookup_insert_ne by done; apply Hc].
      exists (mark_deleted hk). simpl. rewrite lookup_insert_eq. split; [done|].
      specialize (Hc h). rewrite Hk in Hc. apply Hc. }
    simpl in Hk'. rewrite lookup_insert_eq in Hk'. injection Hk' as <-.
    simpl in Happ. rewrite Happ. simpl.
    rewrite !decide_True by done. eexists. split_and!; [done|done|done| | |done].
    + simpl. rewrite app_assoc, (Permutation_app_comm _ [h]). done.
    + intros k. simpl. rewrite insert_insert_eq. case_decide; subst.
      * by rewrite lookup_insert_eq, Hk.
      * by rewrite lookup_insert_ne.
  - rewrite !decide_False by done. exists e. split_and!; try done.
    intros k. case_decide; [|done]. by destruct (heap e !! k).
Qed.

Lemma marks_trans h a b hs1 hs2 hs3 :
  marks h a hs1 hs2 -> marks h b hs2 hs3 -> marks h (a || b) hs1 hs3.
Proof.
  intros H1 H2 k. rewrite (H2 k). specialize (H1 k). case_decide; [|done].
  rewrite H1. destruct (to_delete <$> hs1 !! k); simpl; [|done]. f_equal. by destruct a, b.
Qed.

Lemma occ_nodup h ds : NoDup ds -> occ h ds = if decide (h ∈ ds) then 1 else 0.
Proof.
  induction 1 as [|x ds Hx Hnd IH]; simpl; [done|].
  rewrite IH. destruct (Z.eqb_spec x h) as [->|Hne].
  - by rewrite decide_False, decide_True by set_solver.
  - repeat case_decide; set_solver.
Qed.

Lemma hook_del_loop_ok n h i e dss dd :
  (i + n = length dss)%nat -> length (hooks_count e) = length dss ->
  Forall2 hook_list (hook_lists e) dss -> Forall NoDup dss ->
  hook_list (hooks_to_del e) dd -> counted (heap e) (concat dss ++ dd) ->
  exists e' dd', hook_del_loop n h i e = Some e' /\
    hook_lists e' = hook_lists e /\ hook_list (hooks_to_del e') (dd ++ dd') /\
    Forall (eq h) dd' /\ occ h dd' = occ h (concat (drop i dss)) /\
    counted (heap e') (concat dss ++ dd ++ dd') /\
    marks h (bool_decide (h ∈ concat (drop i dss))) (heap e) (heap e') /\
    length (hooks_count e') = length dss /\
    (forall j ds, dss !! j = Some ds -> hooks_count e' !! j =
       (fun c => c - if decide (i <= j)%nat then occ h ds else 0) <$> hooks_count e !! j).
Proof.
  revert i e dd. induction n as [|n IH]; intros i e dd Hlen Hcl Hl Hnd Hd Hc; simpl.
  - exists e, []. rewrite drop_ge by lia. rewrite app_nil_r. split_and!; try done.
    + intros k. case_decide; [|done]. by destruct (heap e !! k).
    + intros j ds Hj. apply lookup_lt_Some in Hj. case_decide; [lia|].
      destruct (hooks_count e !! j); simpl; f_equal; lia.
  - destruct (lookup_lt_is_Some_2 dss i) as [ds Hds]; [lia|].
    destruct (hook_del_step_ok e dss dd h i ds Hl Hd Hc Hds) as (e1 & -> & Hl1 & Hd1 & Hc1 & Hm1 & Hn1).
    simpl. set (dd1 := if decide (h ∈ ds) then dd ++ [h] else dd) in *.
    destruct (IH (S i) e1 dd1) as (e2 & dd2 & -> & Hl2 & Hd2 & Hf2 & Ho2 & Hc2 & Hm2 & Hcl2 & Hn2);
      [lia| |by rewrite Hl1|done..|].
    { rewrite Hn1. case_decide; by rewrite ?length_alter. }
    rewrite (drop_S dss ds) by done. simpl.
    assert (Hnds : NoDup ds) by (by eapply Forall_lookup_1).
    exists e2, ((if decide (h ∈ ds) then [h] else []) ++ dd2).
    assert (Heq : dd1 ++ dd2 = dd ++ (if decide (h ∈ ds) then [h] else []) ++ dd2).
    { unfold dd1. case_decide; [by rewrite <- app_assoc|done]. }
    rewrite <- !Heq. split_and!; try done.
    + congruence.
    + apply Forall_app. split; [|done]. case_decide; by repeat constructor.
    + rewrite !occ_app, Ho2, (occ_nodup h ds) by done. case_decide; simpl; [rewrite Z.eqb_refl|]; lia.
    + replace (bool_decide (h ∈ ds ++ concat (drop (S i) dss)))
        with (bool_decide (h ∈ ds) || bool_decide (h ∈ concat (drop (S i) dss))).
      * by eapply marks_trans.
      * rewrite <- bool_decide_or. apply bool_decide_ext. by rewrite elem_of_app.
    + intros j ds' Hj. rewrite (Hn2 _ _ Hj), Hn1.
      destruct (decide (i = j)) as [<-|Hne].
      * simplify_eq. rewrite (occ_nodup h ds) by done. repeat case_decide; try lia;
          rewrite ?list_lookup_alter_eq; destruct (hooks_count e !! i); simpl; f_equal; lia.
      * replace ((if decide (h ∈ ds) then alter (fun c => c - 1) i (hooks_count e) else hooks_count e) !! j)
          with (hooks_count e !! j) by (case_decide; [by rewrite list_lookup_alter_ne|done]).
        repeat case_decide; try lia; done.
Qed.

#[local] Arguments hook_del_loop : simpl never.

Lemma marks_true h b hs hs' k :
  marks h b hs hs' ->
  to_delete <$> hs' !! k = Some true <->
  to_delete <$> hs !! k = Some true \/ (k = h /\ b = true /\ is_Some (hs !! k)).
Proof.
  intros Hm. rewrite (Hm k). case_decide as E; [subst k|naive_solver].
  destruct (hs !! h) as [hk|]; simpl; [|naive_solver].
  destruct b, (to_delete hk); naive_solver.
Qed.

Lemma uc_hook_del_ok h e dss dd :
  hooks_inv e dss dd ->
  exists e' dd', uc_hook_del h e = Some (UC_ERR_OK, e') /\ hooks_inv e' dss (dd ++ dd') /\
    Forall (eq h) dd' /\ occ h dd' = occ h (concat dss) /\
    marks h (bool_decide (h ∈ concat dss)) (heap e) (heap e') /\
    (forall j ds, dss !! j = Some ds ->
      hooks_count e' !! j = (fun c => c - occ h ds) <$> hooks_count e !! j).
Proof.
  intros [Hl Hlen Hcnt Hd Hnd Hnn Hc Hmk Hp]. unfold uc_hook_del.
  destruct (hook_del_loop_ok UC_HOOK_MAX h 0 e dss dd) as
    (e' & dd' & -> & Hl' & Hd' & Hf' & Ho' & Hc' & Hm' & Hcl' & Hn'); [done|congruence|done..|].
  rewrite drop_0 in *. exists e', dd'. simpl.
  assert (Hdd : forall k, k ∈ dd' <-> k = h /\ h ∈ concat dss).
  { intros k. rewrite Forall_forall in Hf'. split.
    - intros Hk. split; [by apply eq_sym, Hf'|]. apply occ_pos. rewrite <- Ho'. apply occ_pos.
      by rewrite <- (Hf' k Hk) in Hk.
    - intros [-> Hk]. apply occ_pos. rewrite Ho'. by apply occ_pos. }
  split_and!; try done. split; try done.
  - by rewrite Hl'.
  - congruence.
  - apply Forall_app in Hnn as [Hn1 Hn2]. rewrite !Forall_app. split_and!; [done..|].
    apply Forall_forall. intros k [-> Hk]%Hdd. by rewrite Forall_forall in Hn1; apply Hn1.
  - intros k hk Hk. rewrite elem_of_app, Hdd.
    assert (Heq : to_delete hk = true <-> to_delete <$> heap e' !! k = Some true)
      by (rewrite Hk; simpl; split; congruence).
    rewrite Heq, (marks_true _ _ _ _ _ Hm'), bool_decide_eq_true.
    destruct (heap e !! k) as [hk0|] eqn:Hk0; simpl.
    + rewrite <- (Hmk _ _ Hk0). split; (intros [?|(?&?)]; [left; simpl; congruence|right]);
        [tauto|by split_and!; [| |eauto]].
    + specialize (Hm' k). rewrite Hk, Hk0 in Hm'. by case_decide.
  - intros k. rewrite elem_of_app, Hdd, occ_app. intros [Hk|[-> Hk]].
    + specialize (Hp k Hk). pose proof (occ_nonneg k dd'). lia.
    + rewrite Ho'. pose proof (occ_nonneg h dd). lia.
Qed.

(** *** Adding *)

(** Where a hook list gets its new member. *)
Definition linked (mode : bool) (h : ptr) (ds : list ptr) : list ptr :=
  if mode then h :: ds else ds ++ [h].

Lemma linked_perm mode h ds : linked mode h ds ≡ₚ h :: ds.
Proof. destruct mode; simpl; [done|]. by rewrite Permutation_app_comm. Qed.

Lemma link_hook_ok i h e dss dd ds :
  Forall2 hook_list (hook_lists e) dss -> counted_but h (heap e) (concat dss ++ dd) ->
  dss !! i = Some ds ->
  exists e' hk, link_hook i h e = Some (true, e') /\
    Forall2 hook_list (hook_lists e') (<[i := linked (insert_mode e) h ds]> dss) /\
    heap e !! h = Some hk /\ heap e' = <[h := set_refs hk (refs hk + 1)]> (heap e) /\
    counted (heap e') (concat (<[i := linked (insert_mode e) h ds]> dss) ++ dd) /\
    hooks_to_del e' = hooks_to_del e /\ insert_mode e' = insert_mode e /\
    hooks_count e' = alter (fun c => c + 1) i (hooks_count e).
Proof.
  intros Hl Hc Hi. destruct (Forall2_lookup_r _ _ _ _ _ Hl Hi) as (l & Hli & [Hr Hf]).
  unfold link_hook. rewrite Hli. simpl.
  destruct (malloc_ok i l) as [Hm Hfr].
  assert (Hperm : concat (<[i := linked (insert_mode e) h ds]> dss) ++ dd ≡ₚ h :: (concat dss ++ dd)).
  { rewrite (concat_insert_perm dss i ds) by (done || apply linked_perm). done. }
  destruct (ref_counted (heap e) (concat dss ++ dd) h (malloc i l) Hm Hc) as (hs' & hk & Hrf & Hc' & Hk & ->).
  assert (Hlk : exists l', hook_list l' (linked (insert_mode e) h ds) /\
    (if insert_mode e then hook_insert (malloc i l) l h (heap e)
     else hook_append (malloc i l) l h (heap e)) =
    Some (malloc i l, l', <[h := set_refs hk (refs hk + 1)]> (heap e))).
  { unfold hook_insert, hook_append, linked. destruct (insert_mode e).
    - destruct (ls_insert_ok l ds (malloc i l) h Hr Hm Hfr) as (l' & -> & Hr' & Hf').
      exists l'. rewrite Hrf. split; [by split; [|congruence]|done].
    - destruct (ls_append_ok l ds (malloc i l) h Hr Hm Hfr) as (l' & -> & Hr' & Hf').
      exists l'. simpl. rewrite Hrf. split; [by split; [|congruence]|done]. }
  destruct Hlk as (l' & Hl' & ->). simpl. apply Z.eqb_neq in Hm. rewrite Hm.
  eexists _, hk. split_and!; try done.
  - apply Forall2_insert; done.
  - simpl. by rewrite Hperm.
Qed.

Lemma shiftr_land_1 z i : 0 <= i -> negb (Z.land (Z.shiftr z i) 1 =? 0) = Z.testbit z i.
Proof.
  intros Hi. rewrite <- (Z.add_0_l i) at 2. rewrite <- Z.shiftr_spec by lia.
  change 1 with (Z.ones 1). rewrite Z.land_ones by lia. change (2 ^ 1) with 2.
  rewrite <- Z.bit0_mod. by destruct (Z.testbit (Z.shiftr z i) 0).
Qed.

Lemma testbit_shiftr_0 z i j : 0 <= z -> Z.shiftr z i = 0 -> 0 <= i <= j -> Z.testbit z j = false.
Proof.
  intros Hz Hs Hij. replace j with ((j - i) + i) by lia. rewrite <- Z.shiftr_spec by lia.
  by rewrite Hs, Z.bits_0.
Qed.

(** The bits still to be handled, from [i] on. *)
Definition bit_from (i : nat) (type : Z) (j : nat) : bool :=
  (i <=? j)%nat && Z.testbit type (Z.of_nat j).

Lemma bit_from_S i type j :
  (i = j -> Z.testbit type (Z.of_nat i) = false) -> bit_from (S i) type j = bit_from i type j.
Proof.
  intros Hb. unfold bit_from. destruct (decide (i = j)) as [<-|Hne].
  - rewrite Hb by done. by rewrite !andb_false_r.
  - f_equal. destruct (Nat.leb_spec (S i) j), (Nat.leb_spec i j); lia || done.
Qed.

Lemma bit_from_next i type j : j <> i -> bit_from (S i) type j = bit_from i type j.
Proof. intros Hne. apply bit_from_S. congruence. Qed.

Lemma bit_from_self i type : bit_from (S i) type i = false.
Proof. unfold bit_from. destruct (Nat.leb_spec (S i) i); [lia|done]. Qed.

(** What linking [h] into the lists [j] with [b j] does to the engine. *)
Record linked_result (b : nat -> bool) (h : ptr) (e : engine) (dss : list (list ptr)) (dd : list ptr)
    (e' : engine) (dss' : list (list ptr)) (n : nat) : Prop := {
  lr_lists : Forall2 hook_list (hook_lists e') dss';
  lr_len : length dss' = length dss;
  lr_lookup j ds : dss !! j = Some ds ->
    dss' !! j = Some (if b j then linked (insert_mode e) h ds else ds);
  lr_perm : concat dss' ≡ₚ replicate n h ++ concat dss;
  lr_counted : counted_but h (heap e') (concat dss' ++ dd);
  lr_heap : exists hk, heap e !! h = Some hk /\
    heap e' = <[h := set_refs hk (refs hk + Z.of_nat n)]> (heap e);
  lr_del : hooks_to_del e' = hooks_to_del e;
  lr_counts j : (j < length dss)%nat -> hooks_count e' !! j =
    (fun c => c + Z.b2z (b j)) <$> hooks_count e !! j;
  lr_counts_len : length (hooks_count e') = length (hooks_count e)
}.

Lemma linked_result_done b h e dss dd :
  (forall j, b j = false) ->
  Forall2 hook_list (hook_lists e) dss -> counted_but h (heap e) (concat dss ++ dd) ->
  linked_result b h e dss dd e dss 0.
Proof.
  intros Hno Hl Hc. split; try done.
  - intros j ds Hj. by rewrite Hno.
  - destruct Hc as [(hk & Hk & _) _]. exists hk. split; [done|].
    rewrite Z.add_0_r. symmetry. apply insert_id. rewrite Hk. by destruct hk.
  - intros j _. rewrite Hno. simpl. destruct (hooks_count e !! j); simpl; f_equal; lia.
Qed.

Lemma linked_result_ext b b' h e dss dd e' dss' n :
  (forall j, (j < length dss)%nat -> b j = b' j) ->
  linked_result b h e dss dd e' dss' n -> linked_result b' h e dss dd e' dss' n.
Proof.
  intros Hb [? ? Hj ? ? ? ? Hn ?]. split; try done.
  - intros j ds Hd. rewrite <- Hb by (by eapply lookup_lt_Some). by apply Hj.
  - intros j Hjl. rewrite <- Hb by done. by apply Hn.
Qed.

Lemma linked_result_link b b1 i h e dss dd ds e1 e' dss' n hk :
  dss !! i = Some ds -> b i = true -> b1 i = false -> (forall j, j <> i -> b1 j = b j) ->
  heap e !! h = Some hk -> heap e1 = <[h := set_refs hk (refs hk + 1)]> (heap e) ->
  hooks_to_del e1 = hooks_to_del e -> insert_mode e1 = insert_mode e ->
  hooks_count e1 = alter (fun c => c + 1) i (hooks_count e) ->
  linked_result b1 h e1 (<[i := linked (insert_mode e) h ds]> dss) dd e' dss' n ->
  linked_result b h e dss dd e' dss' (S n).
Proof.
  intros Hds Hb Hb1 Hbb Hk Hh1 Hd1 Hm1 Hn1 [? Hlen Hj2 Hp2 ? (hk1 & Hk2 & Hh2) Hd2 Hn2 Hcl2].
  rewrite length_insert in Hlen, Hn2. split; try done.
  - intros j ds' Hj. rewrite Hm1 in Hj2. destruct (decide (i = j)) as [<-|Hne].
    + simplify_eq. rewrite (Hj2 i (linked (insert_mode e) h ds)), Hb, Hb1; [done|].
      apply list_lookup_insert_eq. by eapply lookup_lt_Some.
    + rewrite <- Hbb by congruence. apply Hj2. by rewrite list_lookup_insert_ne.
  - rewrite Hp2, (concat_insert_perm dss i ds) by (done || apply linked_perm).
    simpl. by rewrite Permutation_middle.
  - exists hk. split; [done|]. rewrite Hh2, Hh1, insert_insert_eq.
    rewrite Hh1, lookup_insert_eq in Hk2. injection Hk2 as <-.
    f_equal. unfold set_refs. simpl. f_equal. lia.
  - by rewrite Hd2.
  - intros j Hjl. rewrite (Hn2 j Hjl), Hn1. destruct (decide (i = j)) as [<-|Hne].
    + rewrite list_lookup_alter_eq, Hb, Hb1. destruct (hooks_count e !! i); simpl; f_equal; lia.
    + by rewrite list_lookup_alter_ne, Hbb by congruence.
  - rewrite Hcl2, Hn1. apply length_alter.
Qed.

Lemma shiftr_pos_small type i : 0 <= type < 2 ^ 31 -> 0 < Z.shiftr type (Z.of_nat i) -> (i <= 30)%nat.
Proof.
  intros Ht Hs. destruct (decide (i <= 30)%nat); [done|]. rewrite Z.shiftr_div_pow2 in Hs by lia.
  rewrite Z.div_small in Hs; [lia|]. split; [lia|].
  apply Z.lt_le_trans with (2 ^ 31); [lia|]. apply Z.pow_le_mono_r; lia.
Qed.

Lemma hook_add_loop_ok fuel i type h e dss dd :
  (i <= 32 < i + fuel)%nat -> 0 <= type < 2 ^ 31 -> length dss = UC_HOOK_MAX ->
  Forall2 hook_list (hook_lists e) dss -> counted_but h (heap e) (concat dss ++ dd) ->
  exists e' dss' n, hook_add_loop fuel i type h e = Some (true, e') /\
    linked_result (bit_from i type) h e dss dd e' dss' n.
Proof.
  revert i e dss. induction fuel as [|fuel IH]; intros i e dss Hfuel Ht Hlen Hl Hc; [lia|].
  simpl. rewrite shiftr_land_1 by lia. destruct (0 <? Z.shiftr type (Z.of_nat i)) eqn:Hs; bool_to_prop.
  - apply shiftr_pos_small in Hs; [|done].
    assert (Hskip : ((i < UC_HOOK_MAX)%nat -> Z.testbit type (Z.of_nat i) = false) ->
      exists e' dss' n, hook_add_loop fuel (S i) type h e = Some (true, e') /\
        linked_result (bit_from i type) h e dss dd e' dss' n).
    { intros Hb. destruct (IH (S i) e dss) as (e' & dss' & n & ? & ?); [lia|done..|].
      exists e', dss', n. split; [done|]. eapply linked_result_ext; [|done].
      intros j Hj. apply bit_from_S. intros <-. apply Hb. lia. }
    destruct (Z.testbit type (Z.of_nat i)) eqn:Hb; simpl; [|apply Hskip; done].
    destruct (Nat.ltb_spec i UC_HOOK_MAX) as [Hm|Hm]; [|apply Hskip; lia].
    destruct (lookup_lt_is_Some_2 dss i) as [ds Hds]; [lia|].
    destruct (link_hook_ok i h e dss dd ds Hl Hc Hds) as (e1 & hk & -> & Hl1 & Hk & Hh1 & Hc1 & Hd1 & Hm1 & Hn1).
    simpl. destruct (IH (S i) e1 (<[i := linked (insert_mode e) h ds]> dss)) as (e2 & dss2 & n & -> & Hr);
      [lia|done|by rewrite length_insert|done| |].
    { apply counted_counted_but; [done|]. apply elem_of_app. left.
      rewrite (concat_insert_perm dss i ds) by (done || apply linked_perm). set_solver. }
    exists e2, dss2, (S n). split; [done|].
    eapply (linked_result_link _ (bit_from (S i) type) i); try done.
    + unfold bit_from. by rewrite Hb, Nat.leb_refl.
    + apply bit_from_self.
    + intros j. apply bit_from_next.
  - exists e, dss, O. split; [done|]. apply linked_result_done; [|done..]. intros j.
    unfold bit_from. destruct (Nat.leb_spec i j); [|done]. simpl.
    apply (testbit_shiftr_0 _ (Z.of_nat i)); [lia| |lia].
    pose proof (proj2 (Z.shiftr_nonneg type (Z.of_nat i))). lia.
Qed.

#[local] Arguments hook_add_loop : simpl never.

(** Where [uc_hook_add] registers a hook of the given type. *)
Definition registered (type : Z) (j : nat) : bool :=
  if negb (Z.land type UC_HOOK_INSN =? 0) then (j =? UC_HOOK_INSN_IDX)%nat
  else if negb (Z.land type UC_HOOK_TCG_OPCODE =? 0) then (j =? UC_HOOK_TCG_OPCODE_IDX)%nat
  else Z.testbit type (Z.of_nat j).

Definition registered_lists (type : Z) (mode : bool) (h : ptr) (dss : list (list ptr)) : list (list ptr) :=
  imap (fun j ds => if registered type j then linked mode h ds else ds) dss.

Lemma add_single_ok idx h e dss dd :
  (idx < UC_HOOK_MAX)%nat -> length dss = UC_HOOK_MAX ->
  Forall2 hook_list (hook_lists e) dss -> counted_but h (heap e) (concat dss ++ dd) ->
  exists e' dss', add_single idx h e = Some (UC_ERR_OK, e') /\
    linked_result (fun j => (j =? idx)%nat) h e dss dd e' dss' 1.
Proof.
  intros Hi Hlen Hl Hc. destruct (lookup_lt_is_Some_2 dss idx) as [ds Hds]; [lia|].
  destruct (link_hook_ok idx h e dss dd ds Hl Hc Hds) as (e1 & hk & Hlk & Hl1 & Hk & Hh1 & Hc1 & Hd1 & Hm1 & Hn1).
  unfold add_single. rewrite Hlk. simpl. eexists _, _. split; [done|].
  eapply (linked_result_link _ (fun _ => false) idx); try done.
  - apply Nat.eqb_refl.
  - intros j Hj. symmetry. by apply Nat.eqb_neq.
  - apply linked_result_done; [done..|]. apply counted_counted_but; [done|].
    apply elem_of_app. left. rewrite (concat_insert_perm dss idx ds) by (done || apply linked_perm). set_solver.
Qed.

(** A fresh hook with no reference yet. *)
Lemma counted_fresh hs xs h hk :
  counted hs xs -> hs !! h = None -> refs hk = 0 -> counted_but h (<[h := hk]> hs) xs.
Proof.
  intros Hc Hh Hr. split.
  - exists hk. rewrite lookup_insert_eq. specialize (Hc h). rewrite Hh in Hc. split; [done|lia].
  - intros k Hk. rewrite lookup_insert_ne by done. apply Hc.
Qed.

Lemma linked_result_lists b h e dss dd e' dss' n :
  linked_result b h e dss dd e' dss' n ->
  dss' = imap (fun j ds => if b j then linked (insert_mode e) h ds else ds) dss.
Proof.
  intros [_ Hlen' Hj' _ _ _ _ _ _]. apply list_eq. intros j.
  rewrite list_lookup_imap. destruct (dss !! j) as [ds|] eqn:E; simpl.
  - by apply Hj'.
  - apply lookup_ge_None. apply lookup_ge_None in E. lia.
Qed.

Lemma linked_result_nodup b h e dss dd e' dss' n :
  linked_result b h e dss dd e' dss' n -> Forall NoDup dss -> h ∉ concat dss -> Forall NoDup dss'.
Proof.
  intros Hr Hnd Hfd. rewrite (linked_result_lists _ _ _ _ _ _ _ _ Hr).
  apply Forall_lookup. intros j ds. rewrite list_lookup_imap.
  destruct (dss !! j) as [ds0|] eqn:E; simpl; [|done]. intros [= <-].
  assert (NoDup ds0) by (by eapply Forall_lookup_1). destruct (b j); [|done].
  rewrite linked_perm. apply NoDup_cons. split; [|done]. intros Hin. apply Hfd.
  by eapply elem_of_concat_lookup.
Qed.

(** The invariant after the new hook [h] was linked and, when nothing refers
    to it, freed. *)
Lemma linked_result_inv b h hk e dss dd e' dss' n hs :
  hooks_inv e dss dd -> h <> NULL -> heap e !! h = None ->
  linked_result b h (set_heap e (<[h := hk]> (heap e))) dss dd e' dss' n ->
  counted hs (concat dss' ++ dd) ->
  (forall k hk', hs !! k = Some hk' -> if decide (k = h) then to_delete hk' = false else heap e !! k = Some hk') ->
  hooks_inv (set_heap e' hs) dss' dd.
Proof.
  intros [Hl Hlen Hcnt Hd Hnd Hnn Hc Hmk Hp] Hh Hfr Hr Hcs Hfl.
  assert (Hfd : h ∉ concat dss ++ dd).
  { apply occ_zero. specialize (Hc h). by rewrite Hfr in Hc. }
  pose proof (linked_result_nodup _ _ _ _ _ _ _ _ Hr Hnd) as Hnd'.
  destruct Hr as [Hl' Hlen' Hj' Hp' _ _ Hd' Hn' Hcl']. simpl in Hd', Hcl'. split; simpl; try done.
  - congruence.
  - congruence.
  - congruence.
  - apply Hnd'. set_solver.
  - rewrite Hp', <- app_assoc. apply Forall_app. split; [by apply Forall_replicate|done].
  - intros k hk0 Hk0. apply Hfl in Hk0. case_decide as E; [|by apply Hmk].
    rewrite Hk0. set_solver.
  - intros k Hk. rewrite Hp', occ_app. assert (k <> h) by set_solver.
    assert (occ k (replicate n h) = 0) as -> by (apply occ_zero; intros ?%elem_of_replicate; naive_solver).
    by apply Hp.
Qed.

Lemma set_heap_same e : set_heap e (heap e) = e.
Proof. by destruct e. Qed.

(** A hook that got a reference stays. *)
Lemma linked_result_kept b h hk e dss dd e' dss' n :
  hooks_inv e dss dd -> h <> NULL -> heap e !! h = None -> to_delete hk = false ->
  linked_result b h (set_heap e (<[h := hk]> (heap e))) dss dd e' dss' (S n) ->
  hooks_inv e' dss' dd.
Proof.
  intros Hi Hh Hfr Htd Hr. rewrite <- (set_heap_same e').
  eapply linked_result_inv; [done..| |].
  - destruct Hr as [_ _ _ Hp' [(hk1 & Hk1 & Hr1) Hc'] _ _ _ _].
    intros k. destruct (decide (k = h)) as [->|Hne]; [|by apply Hc'].
    rewrite Hk1. split; [done|]. apply occ_pos. rewrite Hp'. set_solver.
  - destruct Hr as [_ _ _ _ _ (hk' & Hk' & ->) _ _ _]. simpl in Hk'.
    rewrite lookup_insert_eq in Hk'. injection Hk' as <-. simpl. rewrite insert_insert_eq.
    intros k hk0 Hk0. case_decide as E; [subst k|by rewrite lookup_insert_ne in Hk0].
    rewrite lookup_insert_eq in Hk0. by injection Hk0 as <-.
Qed.

(** A hook without any reference is freed, and nothing else changes. *)
Lemma linked_result_freed b h hk e dss dd e' dss' :
  hooks_inv e dss dd -> h <> NULL -> heap e !! h = None ->
  linked_result b h (set_heap e (<[h := hk]> (heap e))) dss dd e' dss' 0 ->
  hooks_inv (set_heap e' (heap e)) dss' dd.
Proof.
  intros Hi Hh Hfr Hr. eapply linked_result_inv; [done..| |].
  - rewrite (lr_perm _ _ _ _ _ _ _ _ Hr). apply Hi.
  - intros k hk0 Hk0. case_decide; [congruence|done].
Qed.

(** The target accepts the instruction or the opcode. *)
Definition accepted (type va1 va2 : Z) : bool :=
  if negb (Z.land type UC_HOOK_INSN =? 0) then default true ((fun f => f va1) <$> insn_hook_validate)
  else if negb (Z.land type UC_HOOK_TCG_OPCODE =? 0)
  then default true ((fun f => f va1 va2) <$> opcode_hook_invalidate)
  else true.

Lemma uc_hook_add_ok h type cb ud b en va1 va2 e dss dd :
  hooks_inv e dss dd -> h <> NULL -> heap e !! h = None -> 0 <= type < 2 ^ 31 ->
  accepted type va1 va2 = true ->
  exists e', uc_hook_add h type cb ud b en va1 va2 e = Some (UC_ERR_OK, e') /\
    hooks_inv e' (registered_lists type (insert_mode e) h dss) dd /\
    (forall j, (j < UC_HOOK_MAX)%nat -> hooks_count e' !! j =
      (fun c => c + Z.b2z (registered type j)) <$> hooks_count e !! j).
Proof.
  intros Hi Hh Hfr Ht. unfold uc_hook_add, accepted, registered_lists, registered.
  apply Z.eqb_neq in Hh as Hh'. rewrite Hh'. pose proof (inv_len _ _ _ Hi) as Hlen.
  assert (Hcb : forall hk, refs hk = 0 -> counted_but h (<[h := hk]> (heap e)) (concat dss ++ dd))
    by (intros hk; apply counted_fresh; [apply Hi|done]).
  destruct (negb (Z.land type UC_HOOK_INSN =? 0)).
  { intros ->. edestruct (add_single_ok UC_HOOK_INSN_IDX h) as (e' & dss' & -> & Hr);
      [compute; lia|exact Hlen|apply Hi|by apply Hcb|].
    exists e'. rewrite <- Hlen. split_and!; [done| |apply Hr].
    pose proof (linked_result_lists _ _ _ _ _ _ _ _ Hr) as Hls. simpl in Hls. rewrite <- Hls.
    eapply linked_result_kept; last exact Hr; done. }
  destruct (negb (Z.land type UC_HOOK_TCG_OPCODE =? 0)).
  { intros ->. edestruct (add_single_ok UC_HOOK_TCG_OPCODE_IDX h) as (e' & dss' & -> & Hr);
      [compute; lia|exact Hlen|apply Hi|by apply Hcb|].
    exists e'. rewrite <- Hlen. split_and!; [done| |apply Hr].
    pose proof (linked_result_lists _ _ _ _ _ _ _ _ Hr) as Hls. simpl in Hls. rewrite <- Hls.
    eapply linked_result_kept; last exact Hr; done. }
  intros _. set (hk := new_hook type cb ud b en).
  destruct (hook_add_loop_ok 33 0 type h (set_heap e (<[h := hk]> (heap e))) dss dd)
    as (e' & dss' & n & Hloop & Hr); [lia|done|exact Hlen|apply Hi|by apply (Hcb hk)|].
  rewrite Hloop. simpl. pose proof (lr_heap _ _ _ _ _ _ _ _ Hr) as (hk' & Hk' & Hhp).
  simpl in Hk'. rewrite lookup_insert_eq in Hk'. injection Hk' as <-.
  simpl in Hhp. rewrite insert_insert_eq in Hhp. unfold free_hook. rewrite Hhp, lookup_insert_eq. simpl.
  assert (Hls : imap (fun j ds => if Z.testbit type (Z.of_nat j) then linked (insert_mode e) h ds else ds) dss = dss')
    by (symmetry; exact (linked_result_lists _ _ _ _ _ _ _ _ Hr)).
  rewrite Hls, <- Hlen. destruct n as [|n]; simpl.
  - exists (set_heap e' (heap e)). rewrite delete_insert_eq, delete_id by done.
    split_and!; [done| |apply Hr]. eapply linked_result_freed; last exact Hr; done.
  - exists e'. split_and!; [done| |apply Hr]. eapply linked_result_kept; last exact Hr; done.
Qed.

(** ** Properties *)

(** [uc_hook_add] registers a new hook in exactly the hook lists its type
    asks for (one list for an instruction or opcode hook, the set bits below
    [UC_HOOK_MAX] otherwise), at the head or at the tail as [hook_insert] says,
    increments exactly their counters, frees a hook no list took, and keeps
    every reference count equal to the number of list entries. *)
Theorem hook_add_registers h type cb ud b en va1 va2 e dss dd :
  hooks_inv e dss dd -> h <> NULL -> heap e !! h = None -> 0 <= type < 2 ^ 31 ->
  accepted type va1 va2 = true ->
  exists e', uc_hook_add h type cb ud b en va1 va2 e = Some (UC_ERR_OK, e') /\
    hooks_inv e' (registered_lists type (insert_mode e) h dss) dd /\
    (forall j, (j < UC_HOOK_MAX)%nat -> hooks_count e' !! j =
      (fun c => c + Z.b2z (registered type j)) <$> hooks_count e !! j).
Proof. apply uc_hook_add_ok. Qed.

(** C31: [clear_deleted_hooks] never touches a freed hook, never fails its
    assertion, removes exactly the hooks marked as deleted from every hook list
    (keeping the order of the others), frees exactly those, and leaves nothing
    to delete. *)
Theorem clear_deleted_hooks_correct e dss dd :
  hooks_inv e dss dd ->
  exists e', clear_deleted_hooks e = Some e' /\
    hooks_inv e' (filter (.∉ dd) <$> dss) [] /\
    (forall h, h ∈ dd -> heap e' !! h = None).
Proof.
  intros Hi. destruct (clear_deleted_hooks_ok _ _ _ Hi) as (e' & ? & Hi' & _).
  exists e'. split_and!; [done..|]. intros h Hh. pose proof (inv_counted _ _ _ Hi' h) as Hc.
  destruct (heap e' !! h); [|done]. exfalso. destruct Hc as [_ Hc]. rewrite app_nil_r in Hc.
  apply occ_pos, list_elem_of_concat in Hc as (ds & Hds & Hin).
  apply list_elem_of_fmap in Hds as (ds0 & -> & _).
  apply list_elem_of_filter in Hin as [Hn _]. done.
Qed.

Lemma registered_lists_filter type mode h dss (dd : list ptr) :
  h ∉ concat dss -> (forall k, k ∈ dd -> k = h) ->
  (h ∈ concat (registered_lists type mode h dss) -> h ∈ dd) ->
  filter (.∉ dd) <$> registered_lists type mode h dss = dss.
Proof.
  intros Hh Hdd Hin. apply list_eq. intros j.
  unfold registered_lists in *. rewrite list_lookup_fmap, list_lookup_imap.
  destruct (dss !! j) as [ds|] eqn:E; simpl; [|done]. f_equal.
  assert (Hds : Forall (.∉ dd) ds).
  { apply Forall_forall. intros k Hk ?%Hdd. subst k. by apply Hh; eapply elem_of_concat_lookup. }
  destruct (registered type j) eqn:R; [|by apply list_filter_all].
  assert (Hhd : h ∈ dd).
  { apply Hin, (elem_of_concat_lookup _ j (linked mode h ds)).
    - by rewrite list_lookup_imap, E; simpl; rewrite R.
    - rewrite linked_perm. set_solver. }
  destruct mode; simpl.
  - rewrite filter_cons_False by (intros H; apply (H Hhd)). by apply list_filter_all.
  - rewrite filter_app, filter_cons_False, filter_nil, app_nil_r by (intros H; apply (H Hhd)).
    by apply list_filter_all.
Qed.

Lemma registered_occ type mode h (dss : list (list ptr)) j ds :
  h ∉ concat dss -> dss !! j = Some ds ->
  occ h (if registered type j then linked mode h ds else ds) = Z.b2z (registered type j).
Proof.
  intros Hno Hds. assert (Hz : occ h ds = 0).
  { apply occ_zero. intros Hin. by apply Hno; eapply elem_of_concat_lookup. }
  destruct (registered type j); [|done]. rewrite linked_perm. simpl. rewrite Z.eqb_refl. lia.
Qed.

(** C32: adding a hook, deleting it and clearing the deleted hooks is a round
    trip: every hook list is back to what it was, the hook is freed, and no
    counter has moved. *)
Theorem hook_add_del_clear_roundtrip h type cb ud b en va1 va2 e dss :
  hooks_inv e dss [] -> h <> NULL -> heap e !! h = None -> 0 <= type < 2 ^ 31 ->
  accepted type va1 va2 = true ->
  exists e1 e2 e3, uc_hook_add h type cb ud b en va1 va2 e = Some (UC_ERR_OK, e1) /\
    uc_hook_del h e1 = Some (UC_ERR_OK, e2) /\ clear_deleted_hooks e2 = Some e3 /\
    hooks_inv e3 dss [] /\ heap e3 !! h = None /\ hooks_count e3 = hooks_count e.
Proof.
  intros Hi Hh Hfr Ht Ha.
  assert (Hno : h ∉ concat dss).
  { pose proof (inv_counted _ _ _ Hi h) as Hc. rewrite Hfr, app_nil_r in Hc. by apply occ_zero. }
  destruct (uc_hook_add_ok h type cb ud b en va1 va2 e dss [] Hi Hh Hfr Ht Ha) as (e1 & Hadd & Hi1 & Hn1).
  destruct (uc_hook_del_ok h e1 _ [] Hi1) as (e2 & dd & Hdel & Hi2 & Hdd & Hocc & _ & Hn2).
  destruct (clear_deleted_hooks_ok e2 _ dd Hi2) as (e3 & Hcl & Hi3 & _ & Hn3).
  assert (Hf : filter (.∉ dd) <$> registered_lists type (insert_mode e) h dss = dss).
  { apply registered_lists_filter; [done| |].
    - intros k Hk. rewrite Forall_forall in Hdd. by rewrite (Hdd k).
    - intros Hin. apply occ_pos. rewrite Hocc. by apply occ_pos. }
  simpl in Hi3. rewrite Hf in Hi3. exists e1, e2, e3. split_and!; [done..| |].
  - pose proof (inv_counted _ _ _ Hi3 h) as Hc. destruct (heap e3 !! h); [|done]. exfalso.
    destruct Hc as [_ Hc]. rewrite app_nil_r in Hc. by apply Hno, occ_pos.
  - apply list_eq. intros j. rewrite Hn3. pose proof (inv_counts _ _ _ Hi) as Hlc.
    pose proof (inv_counts _ _ _ Hi2) as Hlc2. pose proof (inv_len _ _ _ Hi) as Hl.
    destruct (decide (j < UC_HOOK_MAX)%nat) as [Hj|Hj];
      [|by rewrite !lookup_ge_None_2 by lia].
    destruct (lookup_lt_is_Some_2 dss j) as [ds Hds]; [lia|].
    rewrite (Hn2 j (if registered type j then linked (insert_mode e) h ds else ds))
      by (unfold registered_lists; by rewrite list_lookup_imap, Hds).
    rewrite (Hn1 j Hj), (registered_occ type (insert_mode e) h dss j ds) by done.
    destruct (hooks_count e !! j); simpl; f_equal. lia.
Qed.

End Hooks.

(** ** The engine over the lists of [list.c] *)

Abbreviation hook_llist := (llist hook_heap).

(** [uc_init_engine]: empty lists whose [delete_fn] is [hook_delete]. *)
Definition uc_init_hooks : @engine hook_llist :=
  let l := LList NULL NULL (Some hook_delete) ∅ in
  Engine (replicate UC_HOOK_MAX l) (replicate UC_HOOK_MAX 0) l false ∅ [].

(** An allocator that always finds a fresh node. *)
Definition malloc_fresh (k : nat) (l : hook_llist) : ptr := fresh ({[NULL]} ∪ dom (nodes l)).

Lemma malloc_fresh_ok k l : malloc_fresh k l <> NULL /\ ls_fresh l (malloc_fresh k l).
Proof.
  unfold malloc_fresh. pose proof (is_fresh ({[NULL]} ∪ dom (nodes l))) as Hf. split.
  - set_solver.
  - apply not_elem_of_dom. set_solver.
Qed.

Lemma uc_init_hooks_inv : hooks_inv uc_init_hooks (replicate UC_HOOK_MAX []) [].
Proof.
  assert (Hl : hook_list (LList NULL NULL (Some hook_delete) ∅) []).
  { split; [|done]. exists []. split; [|done]. split; try done. by apply NoDup_nil. }
  split; try done.
  - apply Forall2_replicate; done.
  - apply Forall_replicate. constructor.
Qed.

Lemma hook_add_registers_witness :
  exists e', uc_hook_add malloc_fresh None None 4096 5 0 0 1 0 0 0 uc_init_hooks = Some (UC_ERR_OK, e') /\
    hooks_inv e' ([[4096]; []; [4096]] ++ replicate 15 []) [] /\
    (forall j, (j < UC_HOOK_MAX)%nat -> hooks_count e' !! j =
      (fun c => c + Z.b2z (registered 5 j)) <$> replicate UC_HOOK_MAX 0 !! j).
Proof.
  exact (hook_add_registers malloc_fresh None None malloc_fresh_ok 4096 5 0 0 1 0 0 0
    uc_init_hooks (replicate UC_HOOK_MAX []) [] uc_init_hooks_inv ltac:(done) ltac:(done) ltac:(done) eq_refl).
Defined.

Lemma clear_deleted_hooks_correct_witness :
  exists e dss dd, hooks_inv e dss dd /\ (4096 ∈ dd) /\
    exists e', clear_deleted_hooks e = Some e' /\
      hooks_inv e' (filter (.∉ dd) <$> dss) [] /\
      (forall h, h ∈ dd -> heap e' !! h = None).
Proof.
  destruct (uc_hook_add_ok malloc_fresh None None malloc_fresh_ok 4096 5 0 0 1 0 0 0
    uc_init_hooks (replicate UC_HOOK_MAX []) [] uc_init_hooks_inv) as (e1 & _ & Hi1 & _); [done..|].
  destruct (uc_hook_del_ok malloc_fresh malloc_fresh_ok 4096 e1 _ [] Hi1) as (e2 & dd & _ & Hi2 & _ & Ho & _).
  exists e2, (registered_lists 5 false 4096 (replicate UC_HOOK_MAX [])), dd.
  split_and!; [exact Hi2| |exact (clear_deleted_hooks_correct e2 _ dd Hi2)].
  apply occ_pos. rewrite Ho. by vm_compute.
Defined.

Lemma hook_add_del_clear_roundtrip_witness :
  exists e1 e2 e3, uc_hook_add malloc_fresh None None 4096 5 0 0 1 0 0 0 uc_init_hooks = Some (UC_ERR_OK, e1) /\
    uc_hook_del malloc_fresh 4096 e1 = Some (UC_ERR_OK, e2) /\ clear_deleted_hooks e2 = Some e3 /\
    hooks_inv e3 (replicate UC_HOOK_MAX []) [] /\ heap e3 !! 4096 = None /\
    hooks_count e3 = replicate UC_HOOK_MAX 0.
Proof.
  exact (hook_add_del_clear_roundtrip malloc_fresh None None malloc_fresh_ok 4096 5 0 0 1 0 0 0
    uc_init_hooks (replicate UC_HOOK_MAX []) uc_init_hooks_inv ltac:(done) ltac:(done) ltac:(done) eq_refl).
Defined.

(** *** What goes wrong *)

(** [malloc] fails for the third hook list. *)
Definition malloc_fails_at_2 (k : nat) (l : hook_llist) : ptr :=
  if (k =? 2)%nat then NULL else malloc_fresh k l.

(** When [malloc] fails for a later list, [uc_hook_add] frees the hook
    although an earlier list already refers to it: the list keeps a dangling
    pointer, and deleting that hook dereferences it. *)
Theorem hook_add_nomem_dangles :
  match uc_hook_add malloc_fails_at_2 None None 4096 5 0 0 1 0 0 0 uc_init_hooks with
  | Some (err, e') =>
      err = UC_ERR_NOMEM /\ (l ← hook_lists e' !! 0%nat; list_walk l) = Some [4096] /\
      heap e' !! 4096 = None /\ uc_hook_del malloc_fresh 4096 e' = None
  | None => False
  end.
Proof. vm_compute. done. Qed.

(** Two code hooks, the first of them deleted twice before the lists are cleared. *)
Definition double_delete : option (@engine hook_llist) :=
  '(_, e) ← uc_hook_add malloc_fresh None None 4096 UC_HOOK_CODE 0 0 1 0 0 0 uc_init_hooks;
  '(_, e) ← uc_hook_add malloc_fresh None None 8192 UC_HOOK_CODE 0 0 1 0 0 0 e;
  '(_, e) ← uc_hook_del malloc_fresh 4096 e;
  '(_, e) ← uc_hook_del malloc_fresh 4096 e;
  clear_deleted_hooks e.

(** A hook stays in its lists until they are cleared, so that deleting it
    twice decrements [hooks_count] twice: the counter of the code hooks is zero
    while one of them is still registered. *)
Theorem hook_double_delete_miscounts :
  match double_delete with
  | Some e =>
      hooks_count e !! UC_HOOK_CODE_IDX = Some 0 /\
      (l ← hook_lists e !! UC_HOOK_CODE_IDX; list_walk l) = Some [8192]
  | None => False
  end.
Proof. vm_compute. done. Qed.
