(* ===== verification/AesSpec.v ===== *)
(** * The AES cipher as FIPS-197 describes it

    The reference the implementation in [qemu/crypto/aes.c] is compared with:
    multiplication in GF(2^8), the S-box as an affine map of the inverse, the
    four steps of a round on a block of sixteen bytes (column after column),
    the cipher, the equivalent inverse cipher and the key expansion.  The main
    lemma of this file is that the equivalent inverse cipher inverts the
    cipher for every sequence of round keys. *)

From Stdlib Require Import Btauto.
From S2P Require Import Prelude.

(** ** Bytes, exhaustive checks and exclusive or *)

Abbreviation byte := (uint 8).

Lemma byte_forall (P : Z -> bool) x :
  forallb P (seqZ 0 256) = true -> byte x -> P x = true.
Proof.
  intros HP Hx. eapply forallb_forall in HP; [exact HP|].
  apply list_elem_of_In, elem_of_seqZ. unfold uint in Hx. lia.
Qed.

Lemma byte_eq (f g : Z -> Z) x :
  forallb (fun x => f x =? g x) (seqZ 0 256) = true -> byte x -> f x = g x.
Proof. intros H Hx. by apply Z.eqb_eq, (byte_forall (fun x => f x =? g x)). Qed.

Lemma byte_decide (P : Z -> Prop) `{forall x, Decision (P x)} x :
  forallb (fun x => bool_decide (P x)) (seqZ 0 256) = true -> byte x -> P x.
Proof.
  intros H0 Hx. apply (bool_decide_eq_true (P x)).
  exact (byte_forall (fun x => bool_decide (P x)) x H0 Hx).
Qed.

(** Prove an equation about the byte [x] by evaluating both sides on all
    bytes. *)
Ltac by_bytes x :=
  match goal with
  | |- ?l = ?r =>
    let l' := eval pattern x in l in
    let r' := eval pattern x in r in
    match l' with
    | ?f _ =>
      match r' with
      | ?g _ => apply (byte_eq f g x); [vm_compute; reflexivity | assumption]
      end
    end
  end.

Lemma testbit_high w x n : uint w x -> 0 <= w <= n -> Z.testbit x n = false.
Proof.
  intros [H0 H1] Hn. destruct (decide (x = 0)) as [->|]; [apply Z.bits_0|].
  apply Z.bits_above_log2; [done|]. apply Z.lt_le_trans with w; [|lia].
  apply Z.log2_lt_pow2; lia.
Qed.

Lemma uint_testbit w x :
  0 <= w -> 0 <= x -> (forall n, w <= n -> Z.testbit x n = false) -> uint w x.
Proof.
  intros Hw Hx H. unfold uint. split; [done|].
  destruct (decide (x = 0)) as [->|]; [apply Z.pow_pos_nonneg; lia|].
  apply Z.log2_lt_pow2; [lia|]. apply Z.nle_gt. intros Hle.
  apply H in Hle. rewrite Z.bit_log2 in Hle by lia. done.
Qed.

Lemma lxor_uint w x y : 0 <= w -> uint w x -> uint w y -> uint w (Z.lxor x y).
Proof.
  intros Hw Hx Hy. apply uint_testbit; [done| |].
  - apply Z.lxor_nonneg. unfold uint in *. lia.
  - intros n Hn. rewrite Z.lxor_spec, (testbit_high w x), (testbit_high w y) by (done || lia).
    done.
Qed.

(** Reading an entry of a list of [w]-bit integers. *)
Lemma Forall_uint_total w l (i : nat) : 0 < w -> Forall (uint w) l -> uint w (l !!! i).
Proof.
  intros Hw Hl. destruct (l !! i) as [x|] eqn:E.
  - rewrite (list_lookup_total_correct _ _ _ E). by eapply Forall_lookup_1.
  - rewrite list_lookup_total_alt, E. change (uint w 1).
    split; [done|]. by apply Z.pow_gt_1.
Qed.

Lemma lxor_byte x y : byte x -> byte y -> byte (Z.lxor x y).
Proof. apply lxor_uint. lia. Qed.

Create HintDb aes.
#[export] Hint Resolve lxor_byte : aes.

(** Normalise equations between exclusive ors bit by bit. *)
Ltac xor_solve :=
  apply Z.bits_inj'; intros ? ?; rewrite ?Z.lxor_spec; btauto.

(** ** The field GF(2^8) *)

Definition xtime (x : Z) : Z :=
  if Z.testbit x 7 then Z.lxor (2 * x) 0x11b else 2 * x.

(** Multiplication by the polynomial whose coefficients are the bits of [p]. *)
Fixpoint gmul (p : positive) (x : Z) : Z :=
  match p with
  | xH => x
  | xO p => xtime (gmul p x)
  | xI p => Z.lxor x (xtime (gmul p x))
  end.

Definition gmulZ (x y : Z) : Z :=
  match y with Zpos p => gmul p x | _ => 0 end.

(** [x^254], the inverse of [x] (and 0 for 0), by repeated squaring:
    [254 = 2 + 4 + 8 + 16 + 32 + 64 + 128]. *)
Definition ginv (x : Z) : Z :=
  let sq x := gmulZ x x in
  let x2 := sq x in let x4 := sq x2 in let x8 := sq x4 in let x16 := sq x8 in
  let x32 := sq x16 in let x64 := sq x32 in let x128 := sq x64 in
  gmulZ x2 (gmulZ x4 (gmulZ x8 (gmulZ x16 (gmulZ x32 (gmulZ x64 x128))))).

Definition rotl8 (x n : Z) : Z :=
  Z.land (Z.lor (Z.shiftl x n) (Z.shiftr x (8 - n))) 0xff.

(** The S-box: the affine map of FIPS-197 5.1.1 after the inverse. *)
Definition sbox_ref (x : Z) : Z :=
  let b := ginv x in
  Z.lxor (Z.lxor (Z.lxor (Z.lxor (Z.lxor b (rotl8 b 1)) (rotl8 b 2)) (rotl8 b 3))
            (rotl8 b 4)) 0x63.

Lemma xtime_byte x : byte x -> byte (xtime x).
Proof.
  intros Hx. enough (((0 <=? xtime x) && (xtime x <? 256)) = true)
    by (bool_to_prop; unfold uint; lia).
  by apply (byte_forall (fun x => (0 <=? xtime x) && (xtime x <? 256)));
    [vm_compute|].
Qed.
#[export] Hint Resolve xtime_byte : aes.

Lemma xtime_lxor x y : xtime (Z.lxor x y) = Z.lxor (xtime x) (xtime y).
Proof.
  unfold xtime. rewrite Z.lxor_spec.
  assert (2 * Z.lxor x y = Z.lxor (2 * x) (2 * y)) as ->.
  { rewrite !(Z.mul_comm 2). change 2 with (2 ^ 1).
    rewrite <- !Z.shiftl_mul_pow2 by lia. apply Z.shiftl_lxor. }
  destruct (Z.testbit x 7), (Z.testbit y 7); simpl; xor_solve.
Qed.

Lemma gmul_byte p x : byte x -> byte (gmul p x).
Proof. intros Hx. induction p; simpl; auto with aes. Qed.
#[export] Hint Resolve gmul_byte : aes.

Lemma gmul_lxor p x y : gmul p (Z.lxor x y) = Z.lxor (gmul p x) (gmul p y).
Proof.
  induction p as [p IH|p IH|]; simpl; [..|done]; rewrite IH, xtime_lxor; [|done].
  xor_solve.
Qed.

(** [ginv] is the inverse of the field. *)
Lemma ginv_correct x : byte x -> x <> 0 -> gmulZ x (ginv x) = 1.
Proof.
  intros Hx Hn. enough ((if x =? 0 then 1 else gmulZ x (ginv x)) = 1) as E.
  { destruct (x =? 0) eqn:?; bool_to_prop; done. }
  by_bytes x.
Qed.

(** ** Blocks *)

(** A block: sixteen bytes; byte [r] of column [c] is at index [r + 4 * c]. *)
Definition is_block (s : list Z) : Prop := length s = 16%nat /\ Forall byte s.

Lemma block_inv (P : list Z -> Prop) :
  (forall b0 b1 b2 b3 b4 b5 b6 b7 b8 b9 b10 b11 b12 b13 b14 b15,
     byte b0 -> byte b1 -> byte b2 -> byte b3 -> byte b4 -> byte b5 -> byte b6 ->
     byte b7 -> byte b8 -> byte b9 -> byte b10 -> byte b11 -> byte b12 ->
     byte b13 -> byte b14 -> byte b15 ->
     P [b0; b1; b2; b3; b4; b5; b6; b7; b8; b9; b10; b11; b12; b13; b14; b15]) ->
  forall s, is_block s -> P s.
Proof.
  intros H s [Hl Hf].
  do 16 (destruct s as [|? s]; [discriminate Hl|]).
  destruct s; [|discriminate Hl]. decompose_Forall. by apply H.
Qed.

Ltac destruct_block :=
  match goal with
  | H : is_block ?s |- _ => revert H; revert s; apply block_inv; intros
  end.

(** ** The steps of a round *)

Definition SubBytes (S : Z -> Z) (s : list Z) : list Z := map S s.

(** Row [r] rotates left by [r] columns. *)
Definition ShiftRows (s : list Z) : list Z :=
  map (fun i => s !!! ((i + 4 * (i mod 4)) mod 16)%nat) (seq 0 16).

Definition InvShiftRows (s : list Z) : list Z :=
  map (fun i => s !!! ((i + 12 * (i mod 4)) mod 16)%nat) (seq 0 16).

(** Every column times the polynomial with the circulant row [c0 c1 c2 c3]. *)
Definition mix (c0 c1 c2 c3 : positive) (s : list Z) : list Z :=
  map (fun i =>
    let a k := s !!! (4 * (i / 4) + (i + k) mod 4)%nat in
    Z.lxor (Z.lxor (Z.lxor (gmul c0 (a 0%nat)) (gmul c1 (a 1%nat)))
      (gmul c2 (a 2%nat))) (gmul c3 (a 3%nat))) (seq 0 16).

Definition MixColumns : list Z -> list Z := mix 2 3 1 1.
Definition InvMixColumns : list Z -> list Z := mix 14 11 13 9.

Definition AddRoundKey (k s : list Z) : list Z := zip_with Z.lxor s k.

(** ** The cipher and the equivalent inverse cipher *)

Definition round (S : Z -> Z) (s k : list Z) : list Z :=
  AddRoundKey k (MixColumns (ShiftRows (SubBytes S s))).

Definition last_round (S : Z -> Z) (s k : list Z) : list Z :=
  AddRoundKey k (ShiftRows (SubBytes S s)).

Definition inv_round (Si : Z -> Z) (s k : list Z) : list Z :=
  AddRoundKey k (InvMixColumns (InvShiftRows (SubBytes Si s))).

Definition inv_last_round (Si : Z -> Z) (s k : list Z) : list Z :=
  AddRoundKey k (InvShiftRows (SubBytes Si s)).

(** [Cipher S k0 ks kn]: the first key, one full round per key of [ks], the
    last round. *)
Definition Cipher (S : Z -> Z) (k0 : list Z) (ks : list (list Z)) (kn : list Z)
    (s : list Z) : list Z :=
  last_round S (fold_left (round S) ks (AddRoundKey k0 s)) kn.

Definition EqInvCipher (Si : Z -> Z) (k0 : list Z) (ks : list (list Z))
    (kn : list Z) (s : list Z) : list Z :=
  inv_last_round Si (fold_left (inv_round Si) ks (AddRoundKey k0 s)) kn.

(** ** The steps keep blocks and invert each other *)

Ltac block_goal := split; [done|]; cbn;
  repeat first [apply Forall_nil_2 | apply Forall_cons_2]; auto 12 with aes.

Lemma ShiftRows_block s : is_block s -> is_block (ShiftRows s).
Proof. intros. destruct_block. block_goal. Qed.

Lemma InvShiftRows_block s : is_block s -> is_block (InvShiftRows s).
Proof. intros. destruct_block. block_goal. Qed.

Lemma mix_block c0 c1 c2 c3 s : is_block s -> is_block (mix c0 c1 c2 c3 s).
Proof. intros. destruct_block. block_goal. Qed.

Lemma SubBytes_block S s :
  (forall x, byte x -> byte (S x)) -> is_block s -> is_block (SubBytes S s).
Proof. intros. destruct_block. block_goal. Qed.

Lemma AddRoundKey_block k s : is_block k -> is_block s -> is_block (AddRoundKey k s).
Proof.
  intros [Hk Hk'] [Hs Hs']. split; [unfold AddRoundKey; rewrite length_zip_with; lia|].
  apply Forall_lookup. intros i x Hx. apply lookup_zip_with_Some in Hx.
  destruct Hx as (a & b & -> & Ha & Hb). rewrite Forall_lookup in Hs', Hk'.
  eauto with aes.
Qed.

#[export] Hint Resolve ShiftRows_block InvShiftRows_block mix_block SubBytes_block
  AddRoundKey_block : aes.

Lemma InvShiftRows_ShiftRows s : is_block s -> InvShiftRows (ShiftRows s) = s.
Proof. intros. destruct_block. reflexivity. Qed.

Lemma SubBytes_inv S Si s :
  (forall x, byte x -> Si (S x) = x) -> is_block s -> SubBytes Si (SubBytes S s) = s.
Proof. intros HS ?. destruct_block. cbn. by rewrite !HS. Qed.

Lemma InvSub_Shift_comm Si s :
  is_block s -> SubBytes Si (ShiftRows s) = ShiftRows (SubBytes Si s).
Proof. intros. destruct_block. reflexivity. Qed.

Lemma AddRoundKey_invol k s : is_block k -> is_block s -> AddRoundKey k (AddRoundKey k s) = s.
Proof.
  intros [Hk _] [Hs _]. apply list_eq. intros i. unfold AddRoundKey.
  rewrite !lookup_zip_with. destruct (s !! i) as [x|] eqn:Hi; simpl; [|done].
  destruct (lookup_lt_is_Some_2 k i) as [y Hy].
  { apply lookup_lt_Some in Hi. lia. }
  rewrite Hy. simpl. f_equal. rewrite Z.lxor_assoc, Z.lxor_nilpotent. apply Z.lxor_0_r.
Qed.

(** One byte of the product of the two circulant matrices is the identity:
    the coefficients, checked on all bytes. *)
Lemma gmul_inv_coeffs x :
  byte x ->
  let x4 a b c d := Z.lxor (Z.lxor (Z.lxor a b) c) d in
  x4 (gmul 14 (gmul 2 x)) (gmul 11 x) (gmul 13 x) (gmul 9 (gmul 3 x)) = x /\
  x4 (gmul 14 (gmul 3 x)) (gmul 11 (gmul 2 x)) (gmul 13 x) (gmul 9 x) = 0 /\
  x4 (gmul 14 x) (gmul 11 (gmul 3 x)) (gmul 13 (gmul 2 x)) (gmul 9 x) = 0 /\
  x4 (gmul 14 x) (gmul 11 x) (gmul 13 (gmul 3 x)) (gmul 9 (gmul 2 x)) = 0.
Proof.
  intros Hx x4. repeat apply conj; by_bytes x.
Qed.

(** One output byte of InvMixColumns after MixColumns, from a column that
    starts with [a]. *)
Lemma mix_col_inv a b c d :
  byte a -> byte b -> byte c -> byte d ->
  let x4 a b c d := Z.lxor (Z.lxor (Z.lxor a b) c) d in
  let m a b c d := x4 (gmul 2 a) (gmul 3 b) (gmul 1 c) (gmul 1 d) in
  x4 (gmul 14 (m a b c d)) (gmul 11 (m b c d a)) (gmul 13 (m c d a b))
     (gmul 9 (m d a b c)) = a.
Proof.
  intros Ha Hb Hc Hd x4 m. unfold m, x4.
  rewrite !gmul_lxor.
  change (gmul 1) with (fun x : Z => x). cbv beta.
  destruct (gmul_inv_coeffs a Ha) as (Ea & _).
  destruct (gmul_inv_coeffs b Hb) as (_ & Eb & _).
  destruct (gmul_inv_coeffs c Hc) as (_ & _ & Ec & _).
  destruct (gmul_inv_coeffs d Hd) as (_ & _ & _ & Ed). cbv zeta in *.
  match type of (conj Ea (conj Eb (conj Ec Ed))) with
  | ?p = _ /\ ?q = _ /\ ?r = _ /\ ?t = _ => transitivity (x4 p q r t)
  end; [unfold x4; xor_solve|].
  rewrite Ea, Eb, Ec, Ed. unfold x4. by rewrite !Z.lxor_0_r.
Qed.

Lemma InvMixColumns_MixColumns s : is_block s -> InvMixColumns (MixColumns s) = s.
Proof. intros. destruct_block. cbn -[gmul Z.lxor]. by rewrite !mix_col_inv. Qed.

(** Mixing is linear, so it commutes with adding a round key. *)
Lemma mix_AddRoundKey c0 c1 c2 c3 k s :
  is_block k -> is_block s ->
  mix c0 c1 c2 c3 (AddRoundKey k s)
  = AddRoundKey (mix c0 c1 c2 c3 k) (mix c0 c1 c2 c3 s).
Proof.
  intros Hk Hs. destruct_block. destruct_block. cbn -[gmul Z.lxor].
  rewrite !gmul_lxor.
  repeat apply (f_equal2 cons); [xor_solve..|done].
Qed.

(** ** The inverse cipher *)

Lemma fold_left_nil {A B} (f : A -> B -> A) a : fold_left f [] a = a.
Proof. reflexivity. Qed.

Lemma fold_left_cons {A B} (f : A -> B -> A) x xs a :
  fold_left f (x :: xs) a = fold_left f xs (f a x).
Proof. reflexivity. Qed.

Section Inverse.
Context (S Si : Z -> Z).
Hypothesis S_byte : forall x, byte x -> byte (S x).
Hypothesis Si_S : forall x, byte x -> Si (S x) = x.

Lemma round_block s k : is_block s -> is_block k -> is_block (round S s k).
Proof. unfold round, MixColumns. auto with aes. Qed.

Lemma rounds_block ks s :
  is_block s -> Forall is_block ks -> is_block (fold_left (round S) ks s).
Proof.
  intros Hs Hks. revert s Hs. induction Hks; intros s Hs; simpl; auto using round_block.
Qed.

(** Undoing the byte steps of a round. *)
Lemma inv_sub_shift s :
  is_block s -> InvShiftRows (SubBytes Si (ShiftRows (SubBytes S s))) = s.
Proof.
  intros Hs. rewrite InvSub_Shift_comm, SubBytes_inv, InvShiftRows_ShiftRows;
    auto with aes.
Qed.

Lemma inv_round_round s k :
  is_block s -> is_block k ->
  inv_round Si (ShiftRows (SubBytes S (round S s k))) (InvMixColumns k)
  = ShiftRows (SubBytes S s).
Proof.
  intros Hs Hk. unfold inv_round. rewrite inv_sub_shift by auto using round_block.
  unfold round, InvMixColumns, MixColumns.
  rewrite mix_AddRoundKey by auto 10 with aes.
  change (mix 14 11 13 9 (mix 2 3 1 1 ?x)) with (InvMixColumns (MixColumns x)).
  rewrite InvMixColumns_MixColumns by auto 10 with aes.
  by apply AddRoundKey_invol; auto 10 with aes.
Qed.

(** The decryption rounds with transformed keys, in reverse order, peel off
    the encryption rounds. *)
Lemma inv_rounds ks s :
  is_block s -> Forall is_block ks ->
  fold_left (inv_round Si) (map InvMixColumns (rev ks))
    (ShiftRows (SubBytes S (fold_left (round S) ks s)))
  = ShiftRows (SubBytes S s).
Proof.
  intros Hs Hks. induction ks as [|k ks IH] using rev_ind; [done|].
  apply Forall_app in Hks as [Hks Hk]. inversion_clear Hk.
  rewrite rev_unit, fold_left_app, map_cons, !fold_left_cons, fold_left_nil.
  rewrite inv_round_round by auto using rounds_block. auto.
Qed.

Lemma EqInvCipher_Cipher k0 ks kn s :
  is_block k0 -> Forall is_block ks -> is_block kn -> is_block s ->
  EqInvCipher Si kn (map InvMixColumns (rev ks)) k0 (Cipher S k0 ks kn s) = s.
Proof.
  intros Hk0 Hks Hkn Hs. unfold EqInvCipher, Cipher, last_round.
  rewrite AddRoundKey_invol by auto 10 using rounds_block with aes.
  rewrite inv_rounds by auto with aes. unfold inv_last_round.
  rewrite inv_sub_shift by auto with aes. by apply AddRoundKey_invol.
Qed.

Lemma Cipher_block k0 ks kn s :
  is_block k0 -> Forall is_block ks -> is_block kn -> is_block s ->
  is_block (Cipher S k0 ks kn s).
Proof. intros. unfold Cipher, last_round. auto 10 using rounds_block with aes. Qed.
End Inverse.

(** ** Words of four bytes, most significant first *)

Definition pack (a b c d : Z) : Z :=
  Z.lxor (Z.lxor (Z.lxor (Z.shiftl a 24) (Z.shiftl b 16)) (Z.shiftl c 8)) d.

(** Byte [k] of a word. *)
Definition byte_of (k : Z) (w : Z) : Z := Z.land (Z.shiftr w (24 - 8 * k)) 0xff.

Definition bytes_of (w : Z) : list Z :=
  [byte_of 0 w; byte_of 1 w; byte_of 2 w; byte_of 3 w].

Lemma testbit_ff n : 0 <= n -> Z.testbit 0xff n = (n <? 8).
Proof. intros. change 0xff with (Z.ones 8). by rewrite Z.testbit_ones_nonneg. Qed.

Lemma byte_of_byte k w : byte (byte_of k w).
Proof.
  unfold byte_of. change 0xff with (Z.ones 8). rewrite Z.land_ones by lia.
  apply wrap_range. lia.
Qed.
#[export] Hint Resolve byte_of_byte : aes.

Lemma pack_xor a b c d a' b' c' d' :
  Z.lxor (pack a b c d) (pack a' b' c' d')
  = pack (Z.lxor a a') (Z.lxor b b') (Z.lxor c c') (Z.lxor d d').
Proof.
  unfold pack. rewrite !Z.shiftl_lxor. xor_solve.
Qed.

(** A value shifted past a small one: exclusive or is addition. *)
Lemma shiftl_lxor_add x y k :
  0 <= k -> 0 <= y < 2 ^ k -> Z.lxor (Z.shiftl x k) y = x * 2 ^ k + y.
Proof.
  intros Hk Hy. rewrite <- Z.shiftl_mul_pow2 by done. symmetry.
  apply Z.add_nocarry_lxor, Z.bits_inj'. intros n Hn.
  rewrite Z.land_spec, Z.shiftl_spec, Z.bits_0 by done.
  destruct (decide (n < k)); [by rewrite Z.testbit_neg_r by lia|].
  by rewrite (testbit_high k y), andb_false_r by (done || lia).
Qed.

Lemma pack_sum a b c d :
  byte a -> byte b -> byte c -> byte d ->
  pack a b c d = ((a * 2 ^ 8 + b) * 2 ^ 8 + c) * 2 ^ 8 + d.
Proof.
  intros Ha Hb Hc Hd. unfold uint in *.
  rewrite <- !shiftl_lxor_add by lia. unfold pack.
  by rewrite !Z.shiftl_lxor, !Z.shiftl_shiftl by lia.
Qed.

Lemma byte_of_div k w : k <= 3 -> byte_of k w = (w / 2 ^ (24 - 8 * k)) mod 2 ^ 8.
Proof.
  intros. unfold byte_of. change 0xff with (Z.ones 8).
  by rewrite Z.land_ones, Z.shiftr_div_pow2 by lia.
Qed.

Lemma pack_bytes w :
  uint 32 w -> pack (byte_of 0 w) (byte_of 1 w) (byte_of 2 w) (byte_of 3 w) = w.
Proof.
  intros Hw. rewrite pack_sum by auto with aes. rewrite !byte_of_div by lia.
  unfold uint in Hw. cbn [Z.sub Z.mul Z.add Z.opp Z.pow_pos Z.pow Pos.iter Pos.mul] in *.
  Z.to_euclidean_division_equations. lia.
Qed.

Lemma bytes_of_pack a b c d :
  byte a -> byte b -> byte c -> byte d -> bytes_of (pack a b c d) = [a; b; c; d].
Proof.
  intros Ha Hb Hc Hd. unfold bytes_of. rewrite !byte_of_div, pack_sum by (done || lia).
  unfold uint in *. repeat f_equal; Z.to_euclidean_division_equations; lia.
Qed.

Lemma pack_uint a b c d :
  byte a -> byte b -> byte c -> byte d -> uint 32 (pack a b c d).
Proof. intros. rewrite pack_sum by done. unfold uint in *. lia. Qed.
#[export] Hint Resolve pack_uint : aes.

(** A shift by 24 needs no mask on a 32-bit word. *)
Lemma byte_of_0 w : uint 32 w -> Z.shiftr w 24 = byte_of 0 w.
Proof.
  intros Hw. rewrite byte_of_div, Z.shiftr_div_pow2 by lia. unfold uint in Hw.
  symmetry. apply Z.mod_small. Z.to_euclidean_division_equations. lia.
Qed.

(** ** Key expansion *)

Definition SubWord (S : Z -> Z) (w : Z) : Z :=
  pack (S (byte_of 0 w)) (S (byte_of 1 w)) (S (byte_of 2 w)) (S (byte_of 3 w)).

Definition RotWord (w : Z) : Z :=
  pack (byte_of 1 w) (byte_of 2 w) (byte_of 3 w) (byte_of 0 w).

(** [Rcon i] is the word of the field element [x^(i-1)]. *)
Definition Rcon (i : nat) : Z := pack (Nat.iter (i - 1) xtime 1) 0 0 0.

(** The word that follows the words [w] of the schedule. *)
Definition ke_next (S : Z -> Z) (Nk : nat) (w : list Z) : Z :=
  let i := length w in
  let temp := w !!! (i - 1)%nat in
  Z.lxor (w !!! (i - Nk)%nat)
    (if (i mod Nk =? 0)%nat then Z.lxor (SubWord S (RotWord temp)) (Rcon (i / Nk))
     else if ((6 <? Nk)%nat && (i mod Nk =? 4)%nat)%bool then SubWord S temp
     else temp).

Definition ke_step (S : Z -> Z) (Nk : nat) (w : list Z) : list Z :=
  w ++ [ke_next S Nk w].

(** [Nk] key words extended to the [4 * (Nr + 1)] words of the schedule. *)
Definition KeyExpansion (S : Z -> Z) (Nk Nr : nat) (key : list Z) : list Z :=
  Nat.iter (4 * (Nr + 1) - Nk) (ke_step S Nk) key.

(** The bytes of round key [r] of a schedule. *)
Definition round_key (w : list Z) (r : nat) : list Z :=
  bytes_of (w !!! (4 * r)%nat) ++ bytes_of (w !!! (4 * r + 1)%nat) ++
  bytes_of (w !!! (4 * r + 2)%nat) ++ bytes_of (w !!! (4 * r + 3)%nat).

Lemma round_key_block w r : is_block (round_key w r).
Proof. block_goal. Qed.
#[export] Hint Resolve round_key_block : aes.

Lemma round_keys_block w rs : Forall is_block (map (round_key w) rs).
Proof. apply Forall_map, Forall_true. auto with aes. Qed.
#[export] Hint Resolve round_keys_block : aes.

(** Encryption with the schedule [w] of [Nr] rounds. *)
Definition aes_encrypt (w : list Z) (Nr : nat) (s : list Z) : list Z :=
  Cipher sbox_ref (round_key w 0) (map (round_key w) (seq 1 (Nr - 1)))
    (round_key w Nr) s.

(** The inverse affine map, then the inverse: the inverse S-box. *)
Definition isbox_ref (x : Z) : Z :=
  ginv (Z.lxor (Z.lxor (Z.lxor (rotl8 x 1) (rotl8 x 3)) (rotl8 x 6)) 0x05).

(** The round keys of the equivalent inverse cipher: reversed, the inner ones
    transformed by InvMixColumns. *)
Definition aes_decrypt (w : list Z) (Nr : nat) (s : list Z) : list Z :=
  EqInvCipher isbox_ref (round_key w Nr)
    (map InvMixColumns (rev (map (round_key w) (seq 1 (Nr - 1)))))
    (round_key w 0) s.

Lemma sbox_ref_byte x : byte x -> byte (sbox_ref x).
Proof.
  intros Hx. enough (sbox_ref x = Z.land (sbox_ref x) (Z.ones 8)) as ->.
  { rewrite Z.land_ones by lia. apply wrap_range. lia. }
  by_bytes x.
Qed.

Lemma isbox_ref_sbox_ref x : byte x -> isbox_ref (sbox_ref x) = x.
Proof. intros Hx. by_bytes x. Qed.

Lemma aes_encrypt_block w Nr s : is_block s -> is_block (aes_encrypt w Nr s).
Proof.
  intros Hs. apply Cipher_block; auto using sbox_ref_byte with aes.
Qed.

Lemma aes_decrypt_encrypt w Nr s :
  is_block s -> aes_decrypt w Nr (aes_encrypt w Nr s) = s.
Proof.
  intros Hs. unfold aes_decrypt, aes_encrypt.
  apply EqInvCipher_Cipher; auto using sbox_ref_byte, isbox_ref_sbox_ref with aes.
Qed.
