(* ===== verification/Aes.v ===== *)
(** * The AES implementation of [qemu/crypto/aes.c]

    Key schedules, block encryption and decryption with the round tables.  A
    [u32] is a [Z]; [rd_key] is the array of the [AES_KEY] structure and [rk]
    an offset into it; a block is the list of its sixteen bytes ([AES_encrypt]
    and [AES_decrypt] read all of [in] before they write [out], so the two may
    overlap and a function of the bytes read says all).  The theorems: the
    tables hold the field products their comments announce, the key schedule
    is the key expansion of FIPS-197, the table-driven rounds are the cipher
    and the equivalent inverse cipher, and decryption inverts encryption. *)

From S2P Require Import Prelude AesTables AesSpec.

Definition AES_MAXNR : Z := 14.

Record AES_KEY := { rd_key : list Z; rounds : Z }.

(** [pt[0] << 24 ^ pt[1] << 16 ^ pt[2] << 8 ^ pt[3]], from offset [o]. *)
Definition GETU32 (pt : list Z) (o : nat) : Z :=
  Z.lxor (Z.lxor (Z.lxor (Z.shiftl (pt !!! o) 24) (Z.shiftl (pt !!! (o + 1)%nat) 16))
    (Z.shiftl (pt !!! (o + 2)%nat) 8)) (pt !!! (o + 3)%nat).

(** The four bytes stored by the macro. *)
Definition PUTU32 (st : Z) : list Z :=
  [u8 (Z.shiftr st 24); u8 (Z.shiftr st 16); u8 (Z.shiftr st 8); u8 st].

(** A table entry. *)
Definition tab (t : list Z) (i : Z) : Z := t !!! Z.to_nat i.

Definition xor5 (a b c d e : Z) : Z := Z.lxor (Z.lxor (Z.lxor (Z.lxor a b) c) d) e.

(** ** Key schedule *)

(** [x ^ SubWord (RotWord temp) ^ rc], as written out in the key schedule. *)
Definition sub_rot (x temp rc : Z) : Z :=
  Z.lxor (xor5 x
    (Z.land (tab AES_Te4 (Z.land (Z.shiftr temp 16) 0xff)) 0xff000000)
    (Z.land (tab AES_Te4 (Z.land (Z.shiftr temp 8) 0xff)) 0x00ff0000)
    (Z.land (tab AES_Te4 (Z.land temp 0xff)) 0x0000ff00)
    (Z.land (tab AES_Te4 (Z.shiftr temp 24)) 0x000000ff)) rc.

Definition sub_word (x temp : Z) : Z :=
  xor5 x
    (Z.land (tab AES_Te4 (Z.shiftr temp 24)) 0xff000000)
    (Z.land (tab AES_Te4 (Z.land (Z.shiftr temp 16) 0xff)) 0x00ff0000)
    (Z.land (tab AES_Te4 (Z.land (Z.shiftr temp 8) 0xff)) 0x0000ff00)
    (Z.land (tab AES_Te4 (Z.land temp 0xff)) 0x000000ff).

(** [rk[o + d] = rk[o + a] ^ rk[o + b]]. *)
Definition xor_to (o d a b : nat) (rk : list Z) : list Z :=
  <[(o + d)%nat := Z.lxor (rk !!! (o + a)%nat) (rk !!! (o + b)%nat)]> rk.

(** The three [while (1)] loops; [o] is the offset of the pointer [rk], [i]
    the index into [rcon]. *)
Fixpoint expand128 (fuel i o : nat) (rk : list Z) : option (list Z) :=
  match fuel with
  | O => None
  | S fuel =>
    let temp := rk !!! (o + 3)%nat in
    let rk := <[(o + 4)%nat := sub_rot (rk !!! o) temp (rcon !!! i)]> rk in
    let rk := xor_to o 5 1 4 rk in
    let rk := xor_to o 6 2 5 rk in
    let rk := xor_to o 7 3 6 rk in
    let i := S i in
    if (i =? 10)%nat then Some rk else expand128 fuel i (o + 4) rk
  end.

Fixpoint expand192 (fuel i o : nat) (rk : list Z) : option (list Z) :=
  match fuel with
  | O => None
  | S fuel =>
    let temp := rk !!! (o + 5)%nat in
    let rk := <[(o + 6)%nat := sub_rot (rk !!! o) temp (rcon !!! i)]> rk in
    let rk := xor_to o 7 1 6 rk in
    let rk := xor_to o 8 2 7 rk in
    let rk := xor_to o 9 3 8 rk in
    let i := S i in
    if (i =? 8)%nat then Some rk else
    let rk := xor_to o 10 4 9 rk in
    let rk := xor_to o 11 5 10 rk in
    expand192 fuel i (o + 6) rk
  end.

Fixpoint expand256 (fuel i o : nat) (rk : list Z) : option (list Z) :=
  match fuel with
  | O => None
  | S fuel =>
    let temp := rk !!! (o + 7)%nat in
    let rk := <[(o + 8)%nat := sub_rot (rk !!! o) temp (rcon !!! i)]> rk in
    let rk := xor_to o 9 1 8 rk in
    let rk := xor_to o 10 2 9 rk in
    let rk := xor_to o 11 3 10 rk in
    let i := S i in
    if (i =? 7)%nat then Some rk else
    let temp := rk !!! (o + 11)%nat in
    let rk := <[(o + 12)%nat := sub_word (rk !!! (o + 4)%nat) temp]> rk in
    let rk := xor_to o 13 5 12 rk in
    let rk := xor_to o 14 6 13 rk in
    let rk := xor_to o 15 7 14 rk in
    expand256 fuel i (o + 8) rk
  end.

(** [rk[i] = GETU32(userKey + 4 * i)] for [n] words from [from]. *)
Definition load_words (userKey : list Z) (from n : nat) (rk : list Z) : list Z :=
  fold_left (fun rk i => <[i := GETU32 userKey (4 * i)]> rk) (seq from n) rk.

(** A null pointer is [None]; the result pairs the status with the key, and
    is [None] when the function does not return ([abort]). *)
Definition AES_set_encrypt_key (userKey : option (list Z)) (bits : Z)
    (key : option AES_KEY) : option (Z * option AES_KEY) :=
  match userKey, key with
  | Some userKey, Some key =>
    if (negb (bits =? 128) && negb (bits =? 192) && negb (bits =? 256))%bool
    then Some (-2, Some key)
    else
      let nr := if bits =? 128 then 10 else if bits =? 192 then 12 else 14 in
      let ret r := rk ← r; Some (0, Some {| rd_key := rk; rounds := nr |}) in
      let rk := load_words userKey 0 4 (rd_key key) in
      if bits =? 128 then ret (expand128 10 0 0 rk) else
      let rk := load_words userKey 4 2 rk in
      if bits =? 192 then ret (expand192 8 0 0 rk) else
      let rk := load_words userKey 6 2 rk in
      if bits =? 256 then ret (expand256 7 0 0 rk) else
      None
  | _, _ => Some (-1, key)
  end.

(** [temp = rk[i + k]; rk[i + k] = rk[j + k]; rk[j + k] = temp]. *)
Definition swap_word (i j k : nat) (rk : list Z) : list Z :=
  let temp := rk !!! (i + k)%nat in
  let rk := <[(i + k)%nat := rk !!! (j + k)%nat]> rk in
  <[(j + k)%nat := temp]> rk.

(** [for (i = 0, j = 4 * rounds; i < j; i += 4, j -= 4)]. *)
Fixpoint invert_order (fuel i j : nat) (rk : list Z) : option (list Z) :=
  match fuel with
  | O => None
  | S fuel =>
    if (i <? j)%nat then
      let rk := swap_word i j 0 rk in
      let rk := swap_word i j 1 rk in
      let rk := swap_word i j 2 rk in
      let rk := swap_word i j 3 rk in
      invert_order fuel (i + 4) (j - 4) rk
    else Some rk
  end.

(** The inverse MixColumn of one word, through the tables. *)
Definition inv_mix_word (w : Z) : Z :=
  let te4 i := Z.land (tab AES_Te4 i) 0xff in
  Z.lxor (Z.lxor (Z.lxor
    (tab AES_Td0 (te4 (Z.shiftr w 24)))
    (tab AES_Td1 (te4 (Z.land (Z.shiftr w 16) 0xff))))
    (tab AES_Td2 (te4 (Z.land (Z.shiftr w 8) 0xff))))
    (tab AES_Td3 (te4 (Z.land w 0xff))).

(** [rk += 4] and the four words, for [i] from 1 while [i < rounds]; [n] is
    [rounds - i]. *)
Fixpoint inv_mix_loop (n o : nat) (rk : list Z) : list Z :=
  match n with
  | O => rk
  | S n =>
    let o := (o + 4)%nat in
    let rk := <[o := inv_mix_word (rk !!! o)]> rk in
    let rk := <[(o + 1)%nat := inv_mix_word (rk !!! (o + 1)%nat)]> rk in
    let rk := <[(o + 2)%nat := inv_mix_word (rk !!! (o + 2)%nat)]> rk in
    let rk := <[(o + 3)%nat := inv_mix_word (rk !!! (o + 3)%nat)]> rk in
    inv_mix_loop n o rk
  end.

Definition AES_set_decrypt_key (userKey : option (list Z)) (bits : Z)
    (key : option AES_KEY) : option (Z * option AES_KEY) :=
  '(status, key) ← AES_set_encrypt_key userKey bits key;
  if status <? 0 then Some (status, key) else
  key ← key;
  rk ← invert_order (S (Z.to_nat (rounds key))) 0 (Z.to_nat (4 * rounds key)) (rd_key key);
  let rk := inv_mix_loop (Z.to_nat (rounds key - 1)) 0 rk in
  Some (0, Some {| rd_key := rk; rounds := rounds key |}).

(** ** Blocks *)

(** The cipher state [s0, s1, s2, s3]. *)
Definition words : Type := Z * Z * Z * Z.

(** "map byte array block to cipher state and add initial round key" *)
Definition load_block (inp : list Z) (rk : list Z) : words :=
  (Z.lxor (GETU32 inp 0) (rk !!! 0%nat), Z.lxor (GETU32 inp 4) (rk !!! 1%nat),
   Z.lxor (GETU32 inp 8) (rk !!! 2%nat), Z.lxor (GETU32 inp 12) (rk !!! 3%nat)).

(** One column of a full round: the bytes of [a], [b], [c], [d] selected by the
    row shift, through four tables, and the round key word. *)
Definition tcol (t0 t1 t2 t3 : list Z) (a b c d k : Z) : Z :=
  xor5 (tab t0 (Z.shiftr a 24)) (tab t1 (Z.land (Z.shiftr b 16) 0xff))
    (tab t2 (Z.land (Z.shiftr c 8) 0xff)) (tab t3 (Z.land d 0xff)) k.

(** One column of the last round. *)
Definition lcol (t4 : list Z) (a b c d k : Z) : Z :=
  xor5 (Z.land (tab t4 (Z.shiftr a 24)) 0xff000000)
    (Z.land (tab t4 (Z.land (Z.shiftr b 16) 0xff)) 0x00ff0000)
    (Z.land (tab t4 (Z.land (Z.shiftr c 8) 0xff)) 0x0000ff00)
    (Z.land (tab t4 (Z.land d 0xff)) 0x000000ff) k.

Definition enc_round (s : words) (rk : list Z) (o : nat) : words :=
  let '(s0, s1, s2, s3) := s in
  (tcol AES_Te0 AES_Te1 AES_Te2 AES_Te3 s0 s1 s2 s3 (rk !!! o),
   tcol AES_Te0 AES_Te1 AES_Te2 AES_Te3 s1 s2 s3 s0 (rk !!! (o + 1)%nat),
   tcol AES_Te0 AES_Te1 AES_Te2 AES_Te3 s2 s3 s0 s1 (rk !!! (o + 2)%nat),
   tcol AES_Te0 AES_Te1 AES_Te2 AES_Te3 s3 s0 s1 s2 (rk !!! (o + 3)%nat)).

(** The [for (;;)] loop of two rounds a turn: [r] counts down, [o] is the
    offset of [rk].  Result: the offset and [t0] to [t3] at the [break];
    [None] for a count that starts at 0, where the code leaves the array. *)
Fixpoint enc_loop (r o : nat) (s : words) (rk : list Z) : option (nat * words) :=
  match r with
  | O => None
  | S r =>
    let t := enc_round s rk (o + 4) in
    let o := (o + 8)%nat in
    if (r =? 0)%nat then Some (o, t) else enc_loop r o (enc_round t rk o) rk
  end.

Definition enc_last (t : words) (rk : list Z) (o : nat) : list Z :=
  let '(t0, t1, t2, t3) := t in
  PUTU32 (lcol AES_Te4 t0 t1 t2 t3 (rk !!! o)) ++
  PUTU32 (lcol AES_Te4 t1 t2 t3 t0 (rk !!! (o + 1)%nat)) ++
  PUTU32 (lcol AES_Te4 t2 t3 t0 t1 (rk !!! (o + 2)%nat)) ++
  PUTU32 (lcol AES_Te4 t3 t0 t1 t2 (rk !!! (o + 3)%nat)).

Definition AES_encrypt (inp : list Z) (key : AES_KEY) : option (list Z) :=
  let rk := rd_key key in
  let s := load_block inp rk in
  '(o, t) ← enc_loop (Z.to_nat (Z.shiftr (rounds key) 1)) 0 s rk;
  Some (enc_last t rk o).

(** The variant compiled with [FULL_UNROLL]. *)
Definition AES_encrypt_unrolled (inp : list Z) (key : AES_KEY) : list Z :=
  let rk := rd_key key in
  let s := load_block inp rk in
  let t := enc_round s rk 4 in
  let s := enc_round t rk 8 in
  let t := enc_round s rk 12 in
  let s := enc_round t rk 16 in
  let t := enc_round s rk 20 in
  let s := enc_round t rk 24 in
  let t := enc_round s rk 28 in
  let s := enc_round t rk 32 in
  let t := enc_round s rk 36 in
  let t :=
    if 10 <? rounds key then
      let s := enc_round t rk 40 in
      let t := enc_round s rk 44 in
      if 12 <? rounds key then
        let s := enc_round t rk 48 in enc_round s rk 52
      else t
    else t in
  enc_last t rk (Z.to_nat (Z.shiftl (rounds key) 2)).

Definition dec_round (s : words) (rk : list Z) (o : nat) : words :=
  let '(s0, s1, s2, s3) := s in
  (tcol AES_Td0 AES_Td1 AES_Td2 AES_Td3 s0 s3 s2 s1 (rk !!! o),
   tcol AES_Td0 AES_Td1 AES_Td2 AES_Td3 s1 s0 s3 s2 (rk !!! (o + 1)%nat),
   tcol AES_Td0 AES_Td1 AES_Td2 AES_Td3 s2 s1 s0 s3 (rk !!! (o + 2)%nat),
   tcol AES_Td0 AES_Td1 AES_Td2 AES_Td3 s3 s2 s1 s0 (rk !!! (o + 3)%nat)).

Fixpoint dec_loop (r o : nat) (s : words) (rk : list Z) : option (nat * words) :=
  match r with
  | O => None
  | S r =>
    let t := dec_round s rk (o + 4) in
    let o := (o + 8)%nat in
    if (r =? 0)%nat then Some (o, t) else dec_loop r o (dec_round t rk o) rk
  end.

Definition dec_last (t : words) (rk : list Z) (o : nat) : list Z :=
  let '(t0, t1, t2, t3) := t in
  PUTU32 (lcol AES_Td4 t0 t3 t2 t1 (rk !!! o)) ++
  PUTU32 (lcol AES_Td4 t1 t0 t3 t2 (rk !!! (o + 1)%nat)) ++
  PUTU32 (lcol AES_Td4 t2 t1 t0 t3 (rk !!! (o + 2)%nat)) ++
  PUTU32 (lcol AES_Td4 t3 t2 t1 t0 (rk !!! (o + 3)%nat)).

Definition AES_decrypt (inp : list Z) (key : AES_KEY) : option (list Z) :=
  let rk := rd_key key in
  let s := load_block inp rk in
  '(o, t) ← dec_loop (Z.to_nat (Z.shiftr (rounds key) 1)) 0 s rk;
  Some (dec_last t rk o).

(** The variant compiled with [FULL_UNROLL]. *)
Definition AES_decrypt_unrolled (inp : list Z) (key : AES_KEY) : list Z :=
  let rk := rd_key key in
  let s := load_block inp rk in
  let t := dec_round s rk 4 in
  let s := dec_round t rk 8 in
  let t := dec_round s rk 12 in
  let s := dec_round t rk 16 in
  let t := dec_round s rk 20 in
  let s := dec_round t rk 24 in
  let t := dec_round s rk 28 in
  let s := dec_round t rk 32 in
  let t := dec_round s rk 36 in
  let t :=
    if 10 <? rounds key then
      let s := dec_round t rk 40 in
      let t := dec_round s rk 44 in
      if 12 <? rounds key then
        let s := dec_round t rk 48 in dec_round s rk 52
      else t
    else t in
  dec_last t rk (Z.to_nat (Z.shiftl (rounds key) 2)).

(** ** What the tables hold *)

Section Tables.
Context (x : Z) (Hx : byte x).
Let S := sbox_ref x.
Let Si := isbox_ref x.

Lemma tab_sbox : tab AES_sbox x = S.
Proof. unfold S. by_bytes x. Qed.
Lemma tab_isbox : tab AES_isbox x = Si.
Proof. unfold Si. by_bytes x. Qed.

Lemma tab_Te0 : tab AES_Te0 x = pack (gmul 2 S) (gmul 1 S) (gmul 1 S) (gmul 3 S).
Proof. rewrite <- tab_sbox. by_bytes x. Qed.
Lemma tab_Te1 : tab AES_Te1 x = pack (gmul 3 S) (gmul 2 S) (gmul 1 S) (gmul 1 S).
Proof. rewrite <- tab_sbox. by_bytes x. Qed.
Lemma tab_Te2 : tab AES_Te2 x = pack (gmul 1 S) (gmul 3 S) (gmul 2 S) (gmul 1 S).
Proof. rewrite <- tab_sbox. by_bytes x. Qed.
Lemma tab_Te3 : tab AES_Te3 x = pack (gmul 1 S) (gmul 1 S) (gmul 3 S) (gmul 2 S).
Proof. rewrite <- tab_sbox. by_bytes x. Qed.
Lemma tab_Te4 : tab AES_Te4 x = pack S S S S.
Proof. rewrite <- tab_sbox. by_bytes x. Qed.

Lemma tab_Td0 : tab AES_Td0 x = pack (gmul 14 Si) (gmul 9 Si) (gmul 13 Si) (gmul 11 Si).
Proof. rewrite <- tab_isbox. by_bytes x. Qed.
Lemma tab_Td1 : tab AES_Td1 x = pack (gmul 11 Si) (gmul 14 Si) (gmul 9 Si) (gmul 13 Si).
Proof. rewrite <- tab_isbox. by_bytes x. Qed.
Lemma tab_Td2 : tab AES_Td2 x = pack (gmul 13 Si) (gmul 11 Si) (gmul 14 Si) (gmul 9 Si).
Proof. rewrite <- tab_isbox. by_bytes x. Qed.
Lemma tab_Td3 : tab AES_Td3 x = pack (gmul 9 Si) (gmul 13 Si) (gmul 11 Si) (gmul 14 Si).
Proof. rewrite <- tab_isbox. by_bytes x. Qed.
Lemma tab_Td4 : tab AES_Td4 x = pack Si Si Si Si.
Proof. rewrite <- tab_isbox. by_bytes x. Qed.
End Tables.

Lemma isbox_ref_byte x : byte x -> byte (isbox_ref x).
Proof.
  intros Hx. enough (isbox_ref x = Z.land (isbox_ref x) (Z.ones 8)) as ->.
  { rewrite Z.land_ones by lia. apply wrap_range. lia. }
  by_bytes x.
Qed.
#[export] Hint Resolve sbox_ref_byte isbox_ref_byte : aes.

(** The masks of the last round select one byte of a [Te4] or [Td4] entry. *)
Lemma pack_masks x :
  byte x ->
  Z.land (pack x x x x) 0xff000000 = pack x 0 0 0 /\
  Z.land (pack x x x x) 0x00ff0000 = pack 0 x 0 0 /\
  Z.land (pack x x x x) 0x0000ff00 = pack 0 0 x 0 /\
  Z.land (pack x x x x) 0x000000ff = pack 0 0 0 x.
Proof. intros Hx. repeat apply conj; by_bytes x. Qed.

(** The index expressions of the source are the bytes of a word. *)
Lemma index_bytes w :
  uint 32 w ->
  Z.shiftr w 24 = byte_of 0 w /\ Z.land (Z.shiftr w 16) 0xff = byte_of 1 w /\
  Z.land (Z.shiftr w 8) 0xff = byte_of 2 w /\ Z.land w 0xff = byte_of 3 w.
Proof.
  intros Hw. repeat apply conj; [by apply byte_of_0|done|done|].
  unfold byte_of. by rewrite Z.shiftr_0_r.
Qed.

Ltac index_bytes :=
  repeat match goal with
  | H : uint 32 ?w |- context [Z.shiftr ?w 24] => rewrite (proj1 (index_bytes w H))
  | H : uint 32 ?w |- context [Z.land (Z.shiftr ?w 16) 0xff] =>
      rewrite (proj1 (proj2 (index_bytes w H)))
  | H : uint 32 ?w |- context [Z.land (Z.shiftr ?w 8) 0xff] =>
      rewrite (proj1 (proj2 (proj2 (index_bytes w H))))
  | H : uint 32 ?w |- context [Z.land ?w 0xff] =>
      rewrite (proj2 (proj2 (proj2 (index_bytes w H))))
  end.

(** ** Columns of a round on bytes *)

Definition xor4 (a b c d : Z) : Z := Z.lxor (Z.lxor (Z.lxor a b) c) d.

(** The column [a b c d] times the circulant [c0 c1 c2 c3], as a word. *)
Definition mix_word (c0 c1 c2 c3 : positive) (a b c d : Z) : Z :=
  pack (xor4 (gmul c0 a) (gmul c1 b) (gmul c2 c) (gmul c3 d))
       (xor4 (gmul c0 b) (gmul c1 c) (gmul c2 d) (gmul c3 a))
       (xor4 (gmul c0 c) (gmul c1 d) (gmul c2 a) (gmul c3 b))
       (xor4 (gmul c0 d) (gmul c1 a) (gmul c2 b) (gmul c3 c)).

(** Four table words added up are the mixed column. *)
Lemma mix_word_sum c0 c1 c2 c3 a b c d :
  Z.lxor (Z.lxor (Z.lxor
    (pack (gmul c0 a) (gmul c3 a) (gmul c2 a) (gmul c1 a))
    (pack (gmul c1 b) (gmul c0 b) (gmul c3 b) (gmul c2 b)))
    (pack (gmul c2 c) (gmul c1 c) (gmul c0 c) (gmul c3 c)))
    (pack (gmul c3 d) (gmul c2 d) (gmul c1 d) (gmul c0 d))
  = mix_word c0 c1 c2 c3 a b c d.
Proof. rewrite !pack_xor. unfold mix_word, xor4. f_equal; xor_solve. Qed.

Section Columns.
Context (a b c d k : Z).
Context (Ha : uint 32 a) (Hb : uint 32 b) (Hc : uint 32 c) (Hd : uint 32 d).

Lemma tcol_Te :
  tcol AES_Te0 AES_Te1 AES_Te2 AES_Te3 a b c d k =
  Z.lxor (mix_word 2 3 1 1 (sbox_ref (byte_of 0 a)) (sbox_ref (byte_of 1 b))
            (sbox_ref (byte_of 2 c)) (sbox_ref (byte_of 3 d))) k.
Proof.
  unfold tcol, xor5. index_bytes.
  rewrite tab_Te0, tab_Te1, tab_Te2, tab_Te3 by auto with aes.
  by rewrite mix_word_sum.
Qed.

Lemma tcol_Td :
  tcol AES_Td0 AES_Td1 AES_Td2 AES_Td3 a b c d k =
  Z.lxor (mix_word 14 11 13 9 (isbox_ref (byte_of 0 a)) (isbox_ref (byte_of 1 b))
            (isbox_ref (byte_of 2 c)) (isbox_ref (byte_of 3 d))) k.
Proof.
  unfold tcol, xor5. index_bytes.
  rewrite tab_Td0, tab_Td1, tab_Td2, tab_Td3 by auto with aes.
  by rewrite mix_word_sum.
Qed.

(** The last round, for [Te4] and [Td4]. *)
Lemma lcol_sub t4 S :
  (forall x, byte x -> tab t4 x = pack (S x) (S x) (S x) (S x)) ->
  (forall x, byte x -> byte (S x)) ->
  lcol t4 a b c d k =
  Z.lxor (pack (S (byte_of 0 a)) (S (byte_of 1 b)) (S (byte_of 2 c))
            (S (byte_of 3 d))) k.
Proof.
  intros Ht HS. unfold lcol, xor5. index_bytes. rewrite !Ht by auto with aes.
  destruct (pack_masks (S (byte_of 0 a))) as (-> & _); [auto with aes|].
  destruct (pack_masks (S (byte_of 1 b))) as (_ & -> & _); [auto with aes|].
  destruct (pack_masks (S (byte_of 2 c))) as (_ & _ & -> & _); [auto with aes|].
  destruct (pack_masks (S (byte_of 3 d))) as (_ & _ & _ & ->); [auto with aes|].
  by rewrite !pack_xor, !Z.lxor_0_r, !Z.lxor_0_l.
Qed.
End Columns.

(** ** Rounds *)

(** The cipher state that holds the sixteen bytes [s]. *)
Definition words_of (s : list Z) : words :=
  (pack (s !!! 0%nat) (s !!! 1%nat) (s !!! 2%nat) (s !!! 3%nat),
   pack (s !!! 4%nat) (s !!! 5%nat) (s !!! 6%nat) (s !!! 7%nat),
   pack (s !!! 8%nat) (s !!! 9%nat) (s !!! 10%nat) (s !!! 11%nat),
   pack (s !!! 12%nat) (s !!! 13%nat) (s !!! 14%nat) (s !!! 15%nat)).

(** A key schedule array: every word has 32 bits. *)
Definition words32 (rk : list Z) : Prop := Forall (uint 32) rk.

Lemma words32_total rk i : words32 rk -> uint 32 (rk !!! i).
Proof. by apply Forall_uint_total. Qed.

(** A round key word, by its bytes. *)
Lemma word_pack rk i :
  words32 rk ->
  rk !!! i = pack (byte_of 0 (rk !!! i)) (byte_of 1 (rk !!! i))
                  (byte_of 2 (rk !!! i)) (byte_of 3 (rk !!! i)).
Proof. intros H. symmetry. apply pack_bytes. by apply words32_total. Qed.

Lemma byte_of_pack a b c d :
  byte a -> byte b -> byte c -> byte d ->
  byte_of 0 (pack a b c d) = a /\ byte_of 1 (pack a b c d) = b /\
  byte_of 2 (pack a b c d) = c /\ byte_of 3 (pack a b c d) = d.
Proof.
  intros Ha Hb Hc Hd. pose proof (bytes_of_pack a b c d Ha Hb Hc Hd) as E.
  unfold bytes_of in E. by simplify_eq.
Qed.

(** Compute the bytes of packed words in the goal. *)
Ltac unpack :=
  repeat match goal with
  | |- context [byte_of 0 (pack ?a ?b ?c ?d)] =>
      rewrite (proj1 (byte_of_pack a b c d ltac:(assumption) ltac:(assumption)
                        ltac:(assumption) ltac:(assumption)))
  | |- context [byte_of 1 (pack ?a ?b ?c ?d)] =>
      rewrite (proj1 (proj2 (byte_of_pack a b c d ltac:(assumption) ltac:(assumption)
                        ltac:(assumption) ltac:(assumption))))
  | |- context [byte_of 2 (pack ?a ?b ?c ?d)] =>
      rewrite (proj1 (proj2 (proj2 (byte_of_pack a b c d ltac:(assumption)
                        ltac:(assumption) ltac:(assumption) ltac:(assumption)))))
  | |- context [byte_of 3 (pack ?a ?b ?c ?d)] =>
      rewrite (proj2 (proj2 (proj2 (byte_of_pack a b c d ltac:(assumption)
                        ltac:(assumption) ltac:(assumption) ltac:(assumption)))))
  end.

(** The words of round key [r] are those of a block of bytes. *)
Lemma round_key_words rk r :
  words32 rk ->
  let k := round_key rk r in
  rk !!! (4 * r)%nat = pack (k !!! 0%nat) (k !!! 1%nat) (k !!! 2%nat) (k !!! 3%nat) /\
  rk !!! (4 * r + 1)%nat
    = pack (k !!! 4%nat) (k !!! 5%nat) (k !!! 6%nat) (k !!! 7%nat) /\
  rk !!! (4 * r + 2)%nat
    = pack (k !!! 8%nat) (k !!! 9%nat) (k !!! 10%nat) (k !!! 11%nat) /\
  rk !!! (4 * r + 3)%nat
    = pack (k !!! 12%nat) (k !!! 13%nat) (k !!! 14%nat) (k !!! 15%nat).
Proof.
  intros Hk k. unfold k. cbn -[pack byte_of Nat.mul].
  by rewrite !pack_bytes by by apply words32_total.
Qed.

(** Replace the words of round key [r] in the goal by the bytes of a block. *)
Ltac key_bytes rk r Hk :=
  let Hkb := fresh "Hkb" in
  pose proof (round_key_block rk r) as Hkb;
  destruct (round_key_words rk r Hk) as (-> & -> & -> & ->);
  revert Hkb; generalize (round_key rk r); intros ? Hkb.

Lemma enc_round_spec s rk r :
  is_block s -> words32 rk ->
  enc_round (words_of s) rk (4 * r) = words_of (round sbox_ref s (round_key rk r)).
Proof.
  intros Hs Hk. unfold enc_round. key_bytes rk r Hk.
  destruct_block. destruct_block.
  cbn -[pack sbox_ref Z.lxor gmul byte_of tcol].
  rewrite !tcol_Te by auto with aes. unpack.
  unfold mix_word. rewrite !pack_xor.
  unfold xor4, words_of. cbn -[pack sbox_ref Z.lxor gmul]. reflexivity.
Qed.

Lemma dec_round_spec s rk r :
  is_block s -> words32 rk ->
  dec_round (words_of s) rk (4 * r) = words_of (inv_round isbox_ref s (round_key rk r)).
Proof.
  intros Hs Hk. unfold dec_round. key_bytes rk r Hk.
  destruct_block. destruct_block.
  cbn -[pack isbox_ref Z.lxor gmul byte_of tcol].
  rewrite !tcol_Td by auto with aes. unpack.
  unfold mix_word. rewrite !pack_xor.
  unfold xor4, words_of. cbn -[pack isbox_ref Z.lxor gmul]. reflexivity.
Qed.

Lemma PUTU32_bytes w : uint 32 w -> PUTU32 w = bytes_of w.
Proof.
  intros Hw. unfold PUTU32, bytes_of, wrap. rewrite !byte_of_div by lia.
  rewrite !Z.shiftr_div_pow2 by lia.
  change (2 ^ (24 - 8 * 3)) with 1. by rewrite Z.div_1_r.
Qed.

Lemma enc_last_spec s rk r :
  is_block s -> words32 rk ->
  enc_last (words_of s) rk (4 * r) = last_round sbox_ref s (round_key rk r).
Proof.
  intros Hs Hk. unfold enc_last. key_bytes rk r Hk.
  destruct_block. destruct_block.
  cbn -[pack sbox_ref Z.lxor PUTU32 byte_of lcol].
  rewrite !(fun a b c d k Ha Hb Hc Hd =>
    lcol_sub a b c d k Ha Hb Hc Hd AES_Te4 sbox_ref tab_Te4 sbox_ref_byte) by auto with aes.
  unpack. rewrite !pack_xor, !PUTU32_bytes, !bytes_of_pack by auto with aes.
  cbn -[sbox_ref Z.lxor]. reflexivity.
Qed.

Lemma dec_last_spec s rk r :
  is_block s -> words32 rk ->
  dec_last (words_of s) rk (4 * r) = inv_last_round isbox_ref s (round_key rk r).
Proof.
  intros Hs Hk. unfold dec_last. key_bytes rk r Hk.
  destruct_block. destruct_block.
  cbn -[pack isbox_ref Z.lxor PUTU32 byte_of lcol].
  rewrite !(fun a b c d k Ha Hb Hc Hd =>
    lcol_sub a b c d k Ha Hb Hc Hd AES_Td4 isbox_ref tab_Td4 isbox_ref_byte) by auto with aes.
  unpack. rewrite !pack_xor, !PUTU32_bytes, !bytes_of_pack by auto with aes.
  cbn -[isbox_ref Z.lxor]. reflexivity.
Qed.

(** ** Blocks *)

Lemma load_block_spec s rk :
  is_block s -> words32 rk ->
  load_block s rk = words_of (AddRoundKey (round_key rk 0) s).
Proof.
  intros Hs Hk. unfold load_block.
  change (rk !!! 0%nat) with (rk !!! (4 * 0)%nat).
  change (rk !!! 1%nat) with (rk !!! (4 * 0 + 1)%nat).
  change (rk !!! 2%nat) with (rk !!! (4 * 0 + 2)%nat).
  change (rk !!! 3%nat) with (rk !!! (4 * 0 + 3)%nat).
  key_bytes rk 0%nat Hk. destruct_block. destruct_block.
  unfold GETU32. cbn -[pack Z.lxor Z.shiftl]. unfold words_of.
  cbn -[pack Z.lxor]. rewrite <- !pack_xor. reflexivity.
Qed.

(** Both loops, for any round function on words that implements a round on
    bytes: from round [r0] a count of [n + 1] runs rounds [r0 + 1] to
    [r0 + 2 * n + 1], then stops with [rk] on the key of the last round. *)
Section Loop.
Context (rnd : words -> list Z -> nat -> words) (R : list Z -> list Z -> list Z).
Context (loop : nat -> nat -> words -> list Z -> option (nat * words)).
Hypothesis loop_unfold : forall r o s rk,
  loop (S r) o s rk =
    let t := rnd s rk (o + 4)%nat in
    if (r =? 0)%nat then Some ((o + 8)%nat, t)
    else loop r (o + 8)%nat (rnd t rk (o + 8)%nat) rk.
Hypothesis rnd_spec : forall s rk r, is_block s -> words32 rk ->
  rnd (words_of s) rk (4 * r)%nat = words_of (R s (round_key rk r)).
Hypothesis R_block : forall s k, is_block s -> is_block k -> is_block (R s k).

Lemma loop_spec rk n r0 s :
  is_block s -> words32 rk ->
  loop (S n) (4 * r0) (words_of s) rk =
  Some ((4 * (r0 + 2 * (n + 1)))%nat,
        words_of (fold_left R (map (round_key rk) (seq (r0 + 1) (2 * n + 1))) s)).
Proof.
  intros Hs Hk. revert r0 s Hs. induction n as [|n IH]; intros r0 s Hs;
    rewrite loop_unfold; cbv zeta;
    replace (4 * r0 + 4)%nat with (4 * (r0 + 1))%nat by lia;
    replace (4 * r0 + 8)%nat with (4 * (r0 + 2))%nat by lia;
    rewrite rnd_spec by done.
  - reflexivity.
  - rewrite rnd_spec, IH by auto with aes.
    change (S n =? 0)%nat with false. cbv iota.
    replace (2 * S n + 1)%nat with (S (S (2 * n + 1))) by lia.
    cbn [seq map]. rewrite !fold_left_cons.
    replace (S (r0 + 1)) with (r0 + 2)%nat by lia.
    replace (S (r0 + 2)) with (r0 + 2 + 1)%nat by lia.
    replace (r0 + 2 * (S n + 1))%nat with (r0 + 2 + 2 * (n + 1))%nat by lia.
    reflexivity.
Qed.
End Loop.

Lemma inv_round_block s k :
  is_block s -> is_block k -> is_block (inv_round isbox_ref s k).
Proof. unfold inv_round, InvMixColumns. auto 10 with aes. Qed.

Lemma inv_rounds_block ks s :
  is_block s -> Forall is_block ks -> is_block (fold_left (inv_round isbox_ref) ks s).
Proof.
  intros Hs Hks. revert s Hs. induction Hks; intros s Hs; simpl;
    auto using inv_round_block.
Qed.

(** A key structure the setup functions produce. *)
Definition key_ok (key : AES_KEY) : Prop :=
  length (rd_key key) = 60%nat /\ words32 (rd_key key) /\
  (rounds key = 10 \/ rounds key = 12 \/ rounds key = 14).

(** The count [rounds >> 1] is at least one. *)
Lemma key_ok_rounds key :
  key_ok key ->
  exists n, Z.to_nat (Z.shiftr (rounds key) 1) = S n /\
            Z.to_nat (rounds key) = (2 * (n + 1))%nat /\
            (4 * Z.to_nat (rounds key) + 4 <= 60)%nat.
Proof.
  intros (_ & _ & [-> | [-> | ->]]); [exists 4%nat|exists 5%nat|exists 6%nat];
    (split; [done|split; [done|cbn; lia]]).
Qed.

Lemma AES_encrypt_spec key s :
  key_ok key -> is_block s ->
  AES_encrypt s key = Some (aes_encrypt (rd_key key) (Z.to_nat (rounds key)) s).
Proof.
  intros Hkey Hs. pose proof Hkey as (_ & Hk & _).
  destruct (key_ok_rounds key Hkey) as (n & Hn & Hr & _).
  unfold AES_encrypt. rewrite Hn, load_block_spec by done.
  rewrite (loop_spec enc_round (round sbox_ref) enc_loop
    ltac:(done) enc_round_spec (round_block sbox_ref sbox_ref_byte) _ _ 0)
    by auto with aes.
  cbn [mbind option_bind]. rewrite Hr. unfold aes_encrypt, Cipher.
  rewrite enc_last_spec by (done || apply rounds_block; auto with aes).
  replace (2 * (n + 1) - 1)%nat with (2 * n + 1)%nat by lia. reflexivity.
Qed.

(** [AES_decrypt] is the equivalent inverse cipher with the round keys of the
    array in the order of the array. *)
Lemma AES_decrypt_spec key s :
  key_ok key -> is_block s ->
  let rk := round_key (rd_key key) in
  let nr := Z.to_nat (rounds key) in
  AES_decrypt s key =
  Some (EqInvCipher isbox_ref (rk 0%nat) (map rk (seq 1 (nr - 1))) (rk nr) s).
Proof.
  intros Hkey Hs rk nr. pose proof Hkey as (_ & Hk & _). unfold rk, nr.
  destruct (key_ok_rounds key Hkey) as (n & Hn & Hr & _).
  unfold AES_decrypt. rewrite Hn, load_block_spec by done.
  rewrite (loop_spec dec_round (inv_round isbox_ref) dec_loop
    ltac:(done) dec_round_spec inv_round_block _ _ 0) by auto with aes.
  cbn [mbind option_bind]. rewrite Hr. unfold EqInvCipher.
  rewrite dec_last_spec; [|apply inv_rounds_block; auto with aes|done].
  replace (2 * (n + 1) - 1)%nat with (2 * n + 1)%nat by lia. reflexivity.
Qed.

(** ** Key schedule *)

Lemma SubWord_uint w : uint 32 (SubWord sbox_ref w).
Proof. unfold SubWord. auto 10 with aes. Qed.

Lemma RotWord_uint w : uint 32 (RotWord w).
Proof. unfold RotWord. auto 10 with aes. Qed.

Lemma sub_rot_spec x temp rc :
  uint 32 temp ->
  sub_rot x temp rc = Z.lxor x (Z.lxor (SubWord sbox_ref (RotWord temp)) rc).
Proof.
  intros Ht. unfold SubWord, RotWord.
  destruct (byte_of_pack (byte_of 1 temp) (byte_of 2 temp) (byte_of 3 temp)
    (byte_of 0 temp)) as (-> & -> & -> & ->); auto with aes.
  unfold sub_rot, xor5. index_bytes. rewrite !tab_Te4 by auto with aes.
  destruct (pack_masks (sbox_ref (byte_of 1 temp))) as (-> & _); [auto with aes|].
  destruct (pack_masks (sbox_ref (byte_of 2 temp))) as (_ & -> & _); [auto with aes|].
  destruct (pack_masks (sbox_ref (byte_of 3 temp))) as (_ & _ & -> & _); [auto with aes|].
  destruct (pack_masks (sbox_ref (byte_of 0 temp))) as (_ & _ & _ & ->); [auto with aes|].
  rewrite !Z.lxor_assoc. f_equal. rewrite <- !Z.lxor_assoc. f_equal.
  by rewrite !pack_xor, !Z.lxor_0_r, !Z.lxor_0_l.
Qed.

Lemma sub_word_spec x temp :
  uint 32 temp -> sub_word x temp = Z.lxor x (SubWord sbox_ref temp).
Proof.
  intros Ht. unfold SubWord.
  rewrite <- (Z.lxor_0_r (pack _ _ _ _)).
  rewrite <- (lcol_sub temp temp temp temp 0 Ht Ht Ht Ht AES_Te4 sbox_ref tab_Te4
    sbox_ref_byte).
  unfold sub_word, lcol, xor5. rewrite Z.lxor_0_r. xor_solve.
Qed.

Lemma rcon_spec i : (i < 10)%nat -> rcon !!! i = Rcon (S i).
Proof. intros Hi. do 10 (destruct i as [|i]; [reflexivity|]). lia. Qed.

Lemma Rcon_uint i : (i < 10)%nat -> uint 32 (Rcon (S i)).
Proof.
  intros Hi. rewrite <- rcon_spec by done. apply words32_total.
  repeat first [apply Forall_nil_2 | apply Forall_cons_2; [by split|]].
Qed.

Section Schedule.
Context (Nk : nat) (key : list Z).
Context (HNk : (4 <= Nk)%nat) (Hlen : length key = Nk).

(** The first [n] words of the key expansion. *)
Definition sched_words (n : nat) : list Z := Nat.iter (n - Nk) (ke_step sbox_ref Nk) key.

(** The array holds the first [n] words of the key expansion. *)
Definition sched (n : nat) (rk : list Z) : Prop :=
  length rk = 60%nat /\ words32 rk /\ sched_words n `prefix_of` rk.

Lemma sched_words_length n : (Nk <= n)%nat -> length (sched_words n) = n.
Proof.
  intros Hn. unfold sched_words.
  assert (forall m, length (Nat.iter m (ke_step sbox_ref Nk) key) = (Nk + m)%nat) as E.
  { intros m. induction m as [|m IH]; simpl; [lia|].
    unfold ke_step at 1. rewrite length_app, IH. simpl. lia. }
  rewrite E. lia.
Qed.

Lemma sched_words_S n :
  (Nk <= n)%nat ->
  sched_words (S n) = sched_words n ++ [ke_next sbox_ref Nk (sched_words n)].
Proof.
  intros Hn. unfold sched_words. replace (S n - Nk)%nat with (S (n - Nk)) by lia.
  reflexivity.
Qed.

Lemma sched_read n rk j :
  sched n rk -> (Nk <= n)%nat -> (j < n)%nat -> sched_words n !!! j = rk !!! j.
Proof.
  intros (_ & _ & [k ->]) Hn Hj. symmetry. apply lookup_total_app_l.
  by rewrite sched_words_length.
Qed.

(** Writing the next word of the expansion at its place. *)
Lemma sched_write n rk v :
  sched n rk -> (Nk <= n < 60)%nat -> uint 32 v ->
  v = ke_next sbox_ref Nk (sched_words n) ->
  sched (S n) (<[n := v]> rk).
Proof.
  intros (Hl & Hw & [k Hk]) Hn Hv Ev. split; [by rewrite length_insert|]. split.
  { by apply Forall_insert. }
  rewrite Hk in *. rewrite length_app, sched_words_length in Hl by lia.
  destruct k as [|x k]; simpl in Hl; [lia|]. exists k.
  rewrite sched_words_S, <- Ev, <- app_assoc by lia. simpl.
  pose proof (sched_words_length n ltac:(lia)) as E.
  rewrite <- E at 1. rewrite insert_app_r_alt by lia. by rewrite Nat.sub_diag.
Qed.

Lemma mod_block i c : (c < Nk)%nat -> ((Nk * i + c) mod Nk = c)%nat.
Proof.
  intros Hc. rewrite Nat.add_comm, Nat.mul_comm, Nat.Div0.mod_add.
  by apply Nat.mod_small.
Qed.

(** The first word of a group: rotated, substituted, with a constant. *)
Lemma sched_first i rk :
  let o := (Nk * i)%nat in
  sched (o + Nk) rk -> (i < 10)%nat -> (o + Nk < 60)%nat ->
  sched (S (o + Nk))
    (<[(o + Nk)%nat := sub_rot (rk !!! o) (rk !!! (o + (Nk - 1))%nat) (rcon !!! i)]> rk).
Proof.
  intros o Hs Hi Ho. pose proof Hs as (_ & Hw & _).
  rewrite sub_rot_spec, rcon_spec by (done || by apply words32_total).
  apply sched_write; [done|lia| |].
  { apply lxor_uint; [lia|by apply words32_total|].
    apply lxor_uint; [lia|apply SubWord_uint|by apply Rcon_uint]. }
  unfold ke_next. rewrite sched_words_length by lia.
  replace ((o + Nk) mod Nk)%nat with 0%nat.
  2:{ replace (o + Nk)%nat with (Nk * S i + 0)%nat by lia. by rewrite mod_block by lia. }
  cbn [Nat.eqb].
  rewrite !(sched_read _ rk) by (done || lia).
  replace ((o + Nk) / Nk)%nat with (S i).
  2:{ replace (o + Nk)%nat with (S i * Nk)%nat by lia. by rewrite Nat.div_mul by lia. }
  do 2 f_equal; [f_equal; lia|]. do 4 f_equal. lia.
Qed.

(** A word that is the sum of its predecessor and of the one [Nk] before. *)
Lemma sched_xor i c d p n rk :
  let o := (Nk * i)%nat in
  sched n rk -> (0 < c < Nk)%nat -> ((6 <? Nk) && (c =? 4))%nat = false ->
  (d = Nk + c)%nat -> (p = d - 1)%nat -> (n = o + d)%nat -> (n < 60)%nat ->
  sched (S n) (xor_to o d c p rk).
Proof.
  intros o Hs Hc H4 -> -> -> Ho. pose proof Hs as (_ & Hw & _). unfold xor_to.
  apply sched_write; [done|lia|apply lxor_uint; [lia|by apply words32_total..]|].
  unfold ke_next. rewrite sched_words_length by lia.
  replace ((o + (Nk + c)) mod Nk)%nat with c.
  2:{ replace (o + (Nk + c))%nat with (Nk * S i + c)%nat by lia.
      by rewrite mod_block by lia. }
  rewrite H4. replace (c =? 0)%nat with false by (symmetry; apply Nat.eqb_neq; lia).
  rewrite !(sched_read _ rk) by (done || lia). do 2 f_equal; lia.
Qed.

(** The extra substitution of 256-bit keys. *)
Lemma sched_sub i d p n rk :
  let o := (Nk * i)%nat in
  sched n rk -> (6 < Nk)%nat -> (d = Nk + 4)%nat -> (p = d - 1)%nat ->
  (n = o + d)%nat -> (n < 60)%nat ->
  sched (S n)
    (<[(o + d)%nat := sub_word (rk !!! (o + 4)%nat) (rk !!! (o + p)%nat)]> rk).
Proof.
  intros o Hs Hc -> -> -> Ho. pose proof Hs as (_ & Hw & _).
  rewrite sub_word_spec by by apply words32_total.
  apply sched_write; [done|lia| |].
  { apply lxor_uint; [lia|by apply words32_total|apply SubWord_uint]. }
  unfold ke_next. rewrite sched_words_length by lia.
  replace ((o + (Nk + 4)) mod Nk)%nat with 4%nat.
  2:{ replace (o + (Nk + 4))%nat with (Nk * S i + 4)%nat by lia.
      by rewrite mod_block by lia. }
  replace (6 <? Nk)%nat with true by (symmetry; by apply Nat.ltb_lt).
  cbn [Nat.eqb andb].
  rewrite !(sched_read _ rk) by (done || lia). do 2 f_equal; [f_equal; lia|].
  do 2 f_equal. lia.
Qed.
End Schedule.

(** One more word by exclusive or, with the numbers of the source. *)
Ltac sched_xor_step H i c d p :=
  lazymatch type of H with
  | sched ?Nk ?key ?n ?rk =>
    apply (sched_xor Nk key ltac:(lia) ltac:(assumption) i c d p n rk) in H;
    [|lia|reflexivity|lia|lia|lia|lia]
  end.

(** The test that ends a loop of [m] turns. *)
Ltac last_turn := replace (S _ =? _)%nat with true by (symmetry; apply Nat.eqb_eq; lia).
Ltac next_turn := replace (S _ =? _)%nat with false by (symmetry; apply Nat.eqb_neq; lia).

Lemma expand128_spec key n i o rk :
  length key = 4%nat -> (i + S n = 10)%nat -> o = (4 * i)%nat ->
  sched 4 key (o + 4) rk ->
  exists rk', expand128 (S n) i o rk = Some rk' /\ sched 4 key 44 rk'.
Proof.
  intros Hl. revert i o rk. induction n as [|n IH]; intros i o rk Hi -> Hs;
    (apply (sched_first 4 key ltac:(lia) Hl) in Hs; [|lia|lia]);
    sched_xor_step Hs i 1%nat 5%nat 4%nat; sched_xor_step Hs i 2%nat 6%nat 5%nat;
    sched_xor_step Hs i 3%nat 7%nat 6%nat;
    cbn [expand128]; cbv zeta; change (4 - 1)%nat with 3%nat in Hs.
  - last_turn. eexists. split; [reflexivity|].
    by replace 44%nat with (S (S (S (S (4 * i + 4))))) by lia.
  - next_turn. apply IH; [lia|lia|].
    by replace (4 * i + 4 + 4)%nat with (S (S (S (S (4 * i + 4))))) by lia.
Qed.

Lemma expand192_spec key n i o rk :
  length key = 6%nat -> (i + S n = 8)%nat -> o = (6 * i)%nat ->
  sched 6 key (o + 6) rk ->
  exists rk', expand192 (S n) i o rk = Some rk' /\ sched 6 key 52 rk'.
Proof.
  intros Hl. revert i o rk. induction n as [|n IH]; intros i o rk Hi -> Hs;
    (apply (sched_first 6 key ltac:(lia) Hl) in Hs; [|lia|lia]);
    sched_xor_step Hs i 1%nat 7%nat 6%nat; sched_xor_step Hs i 2%nat 8%nat 7%nat;
    sched_xor_step Hs i 3%nat 9%nat 8%nat;
    cbn [expand192]; cbv zeta; change (6 - 1)%nat with 5%nat in Hs.
  - last_turn. eexists. split; [reflexivity|].
    by replace 52%nat with (S (S (S (S (6 * i + 6))))) by lia.
  - sched_xor_step Hs i 4%nat 10%nat 9%nat; sched_xor_step Hs i 5%nat 11%nat 10%nat.
    next_turn. apply IH; [lia|lia|].
    by replace (6 * i + 6 + 6)%nat with (S (S (S (S (S (S (6 * i + 6))))))) by lia.
Qed.

Lemma expand256_spec key n i o rk :
  length key = 8%nat -> (i + S n = 7)%nat -> o = (8 * i)%nat ->
  sched 8 key (o + 8) rk ->
  exists rk', expand256 (S n) i o rk = Some rk' /\ sched 8 key 60 rk'.
Proof.
  intros Hl. revert i o rk. induction n as [|n IH]; intros i o rk Hi -> Hs;
    (apply (sched_first 8 key ltac:(lia) Hl) in Hs; [|lia|lia]);
    sched_xor_step Hs i 1%nat 9%nat 8%nat; sched_xor_step Hs i 2%nat 10%nat 9%nat;
    sched_xor_step Hs i 3%nat 11%nat 10%nat;
    cbn [expand256]; cbv zeta; change (8 - 1)%nat with 7%nat in Hs.
  - last_turn. eexists. split; [reflexivity|].
    by replace 60%nat with (S (S (S (S (8 * i + 8))))) by lia.
  - apply (sched_sub 8 key ltac:(lia) Hl i 12 11) in Hs; [|lia|lia|lia|lia|lia].
    sched_xor_step Hs i 5%nat 13%nat 12%nat; sched_xor_step Hs i 6%nat 14%nat 13%nat;
    sched_xor_step Hs i 7%nat 15%nat 14%nat.
    next_turn. apply IH; [lia|lia|].
    by replace (8 * i + 8 + 8)%nat with
      (S (S (S (S (S (S (S (S (8 * i + 8))))))))) by lia.
Qed.

(** The key bytes as big-endian words. *)
Definition key_words (userKey : list Z) (Nk : nat) : list Z :=
  map (fun i => GETU32 userKey (4 * i)) (seq 0 Nk).

Lemma GETU32_uint userKey o : Forall byte userKey -> uint 32 (GETU32 userKey o).
Proof.
  intros Hf. assert (forall i, byte (userKey !!! i)) as Hb.
  { intros i. by apply Forall_uint_total. }
  unfold GETU32. apply (pack_uint _ _ _ _ (Hb _) (Hb _) (Hb _) (Hb _)).
Qed.

(** The array starts with the first [n] key words. *)
Definition loaded (userKey : list Z) (n : nat) (rk : list Z) : Prop :=
  length rk = 60%nat /\ words32 rk /\ key_words userKey n `prefix_of` rk.

Lemma load_words_spec userKey m n rk :
  Forall byte userKey -> (n + m <= 60)%nat -> loaded userKey n rk ->
  loaded userKey (n + m) (load_words userKey n m rk).
Proof.
  intros Hb. unfold load_words. revert n rk. induction m as [|m IH]; intros n rk Hn Hl.
  { by rewrite Nat.add_0_r. }
  cbn [seq]. rewrite fold_left_cons. replace (n + S m)%nat with (S n + m)%nat by lia.
  apply IH; [lia|]. destruct Hl as (Hlen & Hw & [k Hk]).
  split; [by rewrite length_insert|]. split; [apply Forall_insert; auto using GETU32_uint|].
  assert (length (key_words userKey n) = n) as Ek.
  { unfold key_words. by rewrite length_map, length_seq. }
  rewrite Hk, length_app, Ek in Hlen. destruct k as [|x k]; simpl in Hlen; [lia|].
  exists k. rewrite Hk, insert_app_r_alt by lia. rewrite Ek, Nat.sub_diag.
  unfold key_words. rewrite seq_S, map_app, <- app_assoc. reflexivity.
Qed.

Lemma loaded_sched userKey Nk rk :
  loaded userKey Nk rk -> sched Nk (key_words userKey Nk) Nk rk.
Proof. unfold loaded, sched, sched_words. by rewrite Nat.sub_diag. Qed.

(** A key size in words with its number of rounds. *)
Definition key_size (Nk Nr : nat) : Prop :=
  (Nk = 4 /\ Nr = 10 \/ Nk = 6 /\ Nr = 12 \/ Nk = 8 /\ Nr = 14)%nat.

(** The result of a key setup: status 0, [nr] rounds, and the array starts with
    the FIPS-197 key expansion of the key. *)
Definition encrypt_schedule (userKey : list Z) (Nk Nr : nat) (key : AES_KEY) : Prop :=
  key_ok key /\ rounds key = Z.of_nat Nr /\
  KeyExpansion sbox_ref Nk Nr (key_words userKey Nk) `prefix_of` rd_key key.

Lemma sched_result userKey Nk Nr rk :
  key_size Nk Nr ->
  sched Nk (key_words userKey Nk) (4 * (Nr + 1)) rk ->
  encrypt_schedule userKey Nk Nr {| rd_key := rk; rounds := Z.of_nat Nr |}.
Proof.
  unfold key_size. intros Hn (Hl & Hw & Hp). split; [|done].
  repeat split; [done|done|]. simpl. lia.
Qed.

Lemma key_words_length userKey n : length (key_words userKey n) = n.
Proof. unfold key_words. by rewrite length_map, length_seq. Qed.

Lemma set_encrypt_key_spec userKey Nk Nr key :
  key_size Nk Nr ->
  Forall byte userKey -> length (rd_key key) = 60%nat -> words32 (rd_key key) ->
  exists key', AES_set_encrypt_key (Some userKey) (32 * Z.of_nat Nk) (Some key)
                 = Some (0, Some key') /\
               encrypt_schedule userKey Nk Nr key'.
Proof.
  intros Hn Hb Hl Hw.
  assert (loaded userKey 0 (rd_key key)) as H0 by (repeat split; [done..|by eexists]).
  apply (load_words_spec userKey 4 0) in H0; [|done|lia]. cbn [Nat.add] in H0.
  destruct Hn as [[-> ->]|Hn].
  { apply loaded_sched in H0. apply (expand128_spec _ 9 0 0) in H0 as (rk' & E & Hs);
      [|apply key_words_length|done..].
    eexists. split; [|eapply sched_result, Hs; unfold key_size; lia]. unfold AES_set_encrypt_key.
    change (32 * Z.of_nat 4) with 128. cbn [Z.eqb Pos.eqb negb andb]. cbv zeta.
    by rewrite E. }
  apply (load_words_spec userKey 2 4) in H0; [|done|lia]. cbn [Nat.add] in H0.
  destruct Hn as [[-> ->]|[-> ->]].
  { apply loaded_sched in H0. apply (expand192_spec _ 7 0 0) in H0 as (rk' & E & Hs);
      [|apply key_words_length|done..].
    eexists. split; [|eapply sched_result, Hs; unfold key_size; lia]. unfold AES_set_encrypt_key.
    change (32 * Z.of_nat 6) with 192. cbn [Z.eqb Pos.eqb negb andb]. cbv zeta.
    by rewrite E. }
  apply (load_words_spec userKey 2 6) in H0; [|done|lia]. cbn [Nat.add] in H0.
  apply loaded_sched in H0. apply (expand256_spec _ 6 0 0) in H0 as (rk' & E & Hs);
    [|apply key_words_length|done..].
  eexists. split; [|eapply sched_result, Hs; unfold key_size; lia]. unfold AES_set_encrypt_key.
    change (32 * Z.of_nat 8) with 256. cbn [Z.eqb Pos.eqb negb andb]. cbv zeta.
    by rewrite E.
Qed.

(** *** The decryption schedule *)

(** The transposition of two indices. *)
Definition transp (a b k : nat) : nat :=
  if decide (k = a) then b else if decide (k = b) then a else k.

Lemma swap_word_lookup i j c rk k :
  (i + c < length rk)%nat -> (j + c < length rk)%nat ->
  swap_word i j c rk !!! k = rk !!! transp (i + c) (j + c) k.
Proof.
  intros Hi Hj. unfold swap_word, transp.
  destruct (decide (k = j + c)%nat) as [->|Hk].
  - rewrite list_lookup_total_insert_eq by by rewrite length_insert.
    case_decide as E; [by rewrite E|done].
  - rewrite list_lookup_total_insert_ne by done. case_decide as E; [subst|].
    + by rewrite list_lookup_total_insert_eq.
    + by rewrite list_lookup_total_insert_ne.
Qed.

Lemma swap_word_length i j c rk : length (swap_word i j c rk) = length rk.
Proof. unfold swap_word. by rewrite !length_insert. Qed.

Lemma transp_word a b q c d :
  (c < 4)%nat -> (d < 4)%nat ->
  transp (4 * a + d) (4 * b + d) (4 * q + c)
  = (4 * (if decide (c = d) then transp a b q else q) + c)%nat.
Proof. intros Hc Hd. unfold transp. repeat case_decide; lia. Qed.

(** Swapping the four words exchanges round keys [a] and [b]. *)
Lemma swap_round_lookup a b rk q c :
  (4 * a + 4 <= length rk)%nat -> (4 * b + 4 <= length rk)%nat -> (c < 4)%nat ->
  let i := (4 * a)%nat in let j := (4 * b)%nat in
  swap_word i j 3 (swap_word i j 2 (swap_word i j 1 (swap_word i j 0 rk)))
    !!! (4 * q + c)%nat
  = rk !!! (4 * transp a b q + c)%nat.
Proof.
  intros Ha Hb Hc i j. unfold i, j.
  rewrite !swap_word_lookup by (rewrite ?swap_word_length; lia).
  rewrite !transp_word by lia. do 3 f_equal.
  destruct c as [|[|[|[|c]]]]; [..|lia]; repeat (case_decide; [|lia || done]); done.
Qed.

(** Round key [q] of the array, after the order of the round keys [a] to [b]
    is inverted. *)
Lemma invert_order_spec fuel a b rk :
  (b - a + 2 <= 2 * fuel)%nat -> (4 * b + 4 <= length rk)%nat ->
  exists rk', invert_order fuel (4 * a) (4 * b) rk = Some rk' /\
    length rk' = length rk /\
    forall q c, (c < 4)%nat ->
      rk' !!! (4 * q + c)%nat
      = rk !!! (4 * (if decide (a <= q <= b)%nat then a + b - q else q) + c)%nat.
Proof.
  revert a b rk. induction fuel as [|fuel IH]; intros a b rk Hf Hl; [lia|].
  cbn [invert_order]. destruct (4 * a <? 4 * b)%nat eqn:E.
  - apply Nat.ltb_lt in E.
    set (rk4 := swap_word _ _ 3 _).
    assert (length rk4 = length rk) as Hl4 by (unfold rk4; by rewrite !swap_word_length).
    assert (forall q c, (c < 4)%nat ->
      rk4 !!! (4 * q + c)%nat = rk !!! (4 * transp a b q + c)%nat) as H4
      by (intros; apply swap_round_lookup; lia).
    clearbody rk4. destruct (IH (S a) (b - 1)%nat rk4) as (rk' & E' & Hl' & Hk); [lia|lia|].
    replace (4 * a + 4)%nat with (4 * S a)%nat by lia.
    replace (4 * b - 4)%nat with (4 * (b - 1))%nat by lia.
    exists rk'. split; [done|]. split; [lia|]. intros q c Hc.
    rewrite Hk, H4 by done. do 3 f_equal.
    unfold transp. repeat case_decide; lia.
  - apply Nat.ltb_ge in E. eexists. split; [done|]. split; [done|]. intros q c Hc.
    do 3 f_equal. case_decide; lia.
Qed.

Lemma inv_mix_word_spec w :
  uint 32 w ->
  inv_mix_word w =
  mix_word 14 11 13 9 (byte_of 0 w) (byte_of 1 w) (byte_of 2 w) (byte_of 3 w).
Proof.
  intros Hw. unfold inv_mix_word. index_bytes. rewrite !tab_Te4 by auto with aes.
  rewrite !(fun x Hx => proj2 (proj2 (proj2 (pack_masks x Hx)))) by auto with aes.
  assert (forall x, pack 0 0 0 x = x) as E by (intros; unfold pack; by rewrite !Z.shiftl_0_l).
  rewrite !E, tab_Td0, tab_Td1, tab_Td2, tab_Td3, !isbox_ref_sbox_ref by auto with aes.
  apply mix_word_sum.
Qed.

Lemma xor4_byte a b c d : byte a -> byte b -> byte c -> byte d -> byte (xor4 a b c d).
Proof. unfold xor4. auto with aes. Qed.
#[export] Hint Resolve xor4_byte : aes.

Lemma inv_mix_word_uint w : uint 32 w -> uint 32 (inv_mix_word w).
Proof. intros Hw. rewrite inv_mix_word_spec by done. unfold mix_word. auto 10 with aes. Qed.

(** InvMixColumns of a round key, word by word. *)
Lemma InvMixColumns_round_key rk rk' r :
  words32 rk ->
  (forall c, (c < 4)%nat ->
     rk' !!! (4 * r + c)%nat = inv_mix_word (rk !!! (4 * r + c)%nat)) ->
  round_key rk' r = InvMixColumns (round_key rk r).
Proof.
  intros Hw E. unfold round_key.
  pose proof (E 0%nat ltac:(lia)) as E0. rewrite !Nat.add_0_r in E0.
  rewrite E0, !E by lia. rewrite !inv_mix_word_spec by by apply words32_total.
  unfold mix_word. rewrite !bytes_of_pack by auto 10 with aes.
  unfold xor4, InvMixColumns, bytes_of, mix. cbn -[gmul byte_of Z.lxor Nat.mul].
  reflexivity.
Qed.

Lemma inv_mix_loop_spec n a rk :
  (4 * (a + n) + 4 <= length rk)%nat ->
  let rk' := inv_mix_loop n (4 * a) rk in
  length rk' = length rk /\
  forall q c, (c < 4)%nat ->
    rk' !!! (4 * q + c)%nat =
    if decide (a < q <= a + n)%nat then inv_mix_word (rk !!! (4 * q + c)%nat)
    else rk !!! (4 * q + c)%nat.
Proof.
  revert a rk. induction n as [|n IH]; intros a rk Hl.
  { split; [done|]. intros q c Hc. case_decide; [lia|done]. }
  cbn [inv_mix_loop]. cbv zeta.
  replace (4 * a + 4)%nat with (4 * S a)%nat by lia.
  set (rk4 := <[(4 * S a + 3)%nat := _]> _).
  assert (length rk4 = length rk) as Hl4 by (unfold rk4; by rewrite !length_insert).
  assert (forall q c, (c < 4)%nat -> rk4 !!! (4 * q + c)%nat =
    if decide (q = S a) then inv_mix_word (rk !!! (4 * q + c)%nat)
    else rk !!! (4 * q + c)%nat) as H4.
  { intros q c Hc. unfold rk4.
    destruct (decide (q = S a)) as [->|Hq].
    - destruct c as [|[|[|[|c]]]]; [..|lia]; rewrite ?Nat.add_0_r;
        repeat first [rewrite list_lookup_total_insert_eq by (rewrite ?length_insert; lia)
                     |rewrite list_lookup_total_insert_ne by lia]; reflexivity.
    - by rewrite !list_lookup_total_insert_ne by lia. }
  clearbody rk4. destruct (IH (S a) rk4) as [Hl' Hk]; [lia|]. split; [lia|].
  intros q c Hc. rewrite Hk, !H4 by done. repeat case_decide; lia || done.
Qed.

(** The array [rk'] holds, in reverse order, the round keys of [rk], the inner
    ones transformed by InvMixColumns. *)
Definition decrypt_keys (Nr : nat) (rk rk' : list Z) : Prop :=
  forall r, (r <= Nr)%nat ->
    round_key rk' r =
    if decide (0 < r < Nr)%nat then InvMixColumns (round_key rk (Nr - r))
    else round_key rk (Nr - r).

Lemma round_key_eq rk rk' r r' :
  (forall c, (c < 4)%nat -> rk' !!! (4 * r' + c)%nat = rk !!! (4 * r + c)%nat) ->
  round_key rk' r' = round_key rk r.
Proof.
  intros E. unfold round_key. pose proof (E 0%nat ltac:(lia)) as E0.
  rewrite !Nat.add_0_r in E0. by rewrite E0, !E by lia.
Qed.

Lemma words32_intro rk :
  (forall q c, (c < 4)%nat -> uint 32 (rk !!! (4 * q + c)%nat)) -> words32 rk.
Proof.
  intros H. apply Forall_lookup. intros i x Hi.
  apply list_lookup_total_correct in Hi as <-.
  pose proof (Nat.div_mod_eq i 4) as E. rewrite E. apply H.
  apply Nat.mod_upper_bound. lia.
Qed.

Lemma decrypt_keys_intro Nr rk rk1 :
  (2 <= Nr)%nat -> (4 * Nr + 4 <= length rk)%nat -> words32 rk ->
  length rk1 = length rk ->
  (forall q c, (c < 4)%nat -> rk1 !!! (4 * q + c)%nat =
     rk !!! (4 * (if decide (0 <= q <= Nr)%nat then 0 + Nr - q else q) + c)%nat) ->
  let rk2 := inv_mix_loop (Nr - 1) 0 rk1 in
  length rk2 = length rk /\ words32 rk2 /\ decrypt_keys Nr rk rk2.
Proof.
  intros Hr Hl Hw Hl1 H1 rk2.
  destruct (inv_mix_loop_spec (Nr - 1) 0 rk1) as [Hl2 H2]; [lia|].
  change (4 * 0)%nat with 0%nat in *. fold rk2 in Hl2, H2. cbn [Nat.add] in H2.
  assert (words32 rk1) as Hw1.
  { apply words32_intro. intros q c Hc. rewrite H1 by done. by apply words32_total. }
  split; [lia|]. split.
  { apply words32_intro. intros q c Hc. rewrite H2 by done.
    case_decide; [apply inv_mix_word_uint|]; by apply words32_total. }
  intros r Hle.
  assert (round_key rk1 r = round_key rk (Nr - r)) as E1.
  { apply round_key_eq. intros c Hc. rewrite H1 by done. do 3 f_equal. case_decide; lia. }
  case_decide.
  - rewrite <- E1. apply InvMixColumns_round_key; [done|]. intros c Hc. rewrite H2 by done.
    case_decide; [done|lia].
  - rewrite <- E1. apply round_key_eq. intros c Hc. rewrite H2 by done.
    case_decide; [lia|done].
Qed.

Lemma set_decrypt_key_spec userKey Nk Nr key :
  key_size Nk Nr ->
  Forall byte userKey -> length (rd_key key) = 60%nat -> words32 (rd_key key) ->
  exists ke kd,
    AES_set_encrypt_key (Some userKey) (32 * Z.of_nat Nk) (Some key) = Some (0, Some ke) /\
    encrypt_schedule userKey Nk Nr ke /\
    AES_set_decrypt_key (Some userKey) (32 * Z.of_nat Nk) (Some key) = Some (0, Some kd) /\
    key_ok kd /\ rounds kd = Z.of_nat Nr /\ decrypt_keys Nr (rd_key ke) (rd_key kd).
Proof.
  intros Hn Hb Hl Hw.
  destruct (set_encrypt_key_spec userKey Nk Nr key Hn Hb Hl Hw) as (ke & E & Hs).
  pose proof Hs as ((Hle & Hwe & Hre) & Hrr & _). unfold key_size in Hn.
  destruct (invert_order_spec (S Nr) 0 Nr (rd_key ke)) as (rk1 & E1 & Hl1 & H1); [lia|lia|].
  destruct (decrypt_keys_intro Nr (rd_key ke) rk1) as (Hl2 & Hw2 & Hd);
    [lia|lia|done|done|done|].
  exists ke. eexists. split; [done|]. split; [done|]. split.
  { unfold AES_set_decrypt_key. rewrite E. cbn [mbind option_bind]. cbn [Z.ltb Z.compare].
    rewrite Hrr, Nat2Z.id. replace (Z.to_nat (4 * Z.of_nat Nr)) with (4 * Nr)%nat by lia.
    change (4 * 0)%nat with 0%nat in E1. rewrite E1. cbn [option_bind].
    reflexivity. }
  cbn [rounds rd_key].
  replace (Z.to_nat (Z.of_nat Nr - 1)) with (Nr - 1)%nat by lia.
  split; [|done]. split; [by transitivity (length (rd_key ke))|]. split; [done|simpl; lia].
Qed.

(** The round keys of the schedule are those of the key expansion. *)
Lemma schedule_round_key userKey Nk Nr ke r :
  key_size Nk Nr -> encrypt_schedule userKey Nk Nr ke -> (r <= Nr)%nat ->
  round_key (rd_key ke) r
  = round_key (KeyExpansion sbox_ref Nk Nr (key_words userKey Nk)) r.
Proof.
  unfold key_size. intros Hn (_ & _ & [k ->]) Hr. apply round_key_eq. intros c Hc.
  apply lookup_total_app_l.
  pose proof (sched_words_length Nk (key_words userKey Nk) ltac:(lia)
    (key_words_length _ _)    (4 * (Nr + 1))) as E.
  unfold sched_words in E. unfold KeyExpansion. rewrite E; lia.
Qed.

Lemma aes_encrypt_ext w w' Nr s :
  (forall r, (r <= Nr)%nat -> round_key w r = round_key w' r) ->
  aes_encrypt w Nr s = aes_encrypt w' Nr s.
Proof.
  intros E. unfold aes_encrypt. rewrite !E by lia. f_equal.
  apply map_ext_in. intros r Hr%in_seq. apply E. lia.
Qed.

Lemma AES_decrypt_schedule Nk Nr ke kd s :
  key_size Nk Nr -> key_ok kd -> rounds kd = Z.of_nat Nr ->
  decrypt_keys Nr (rd_key ke) (rd_key kd) -> is_block s ->
  AES_decrypt s kd = Some (aes_decrypt (rd_key ke) Nr s).
Proof.
  intros Hn Hok Hr Hd Hs. rewrite AES_decrypt_spec by done. cbv zeta.
  rewrite Hr, Nat2Z.id. unfold aes_decrypt. do 2 f_equal.
  - rewrite Hd by lia. case_decide; [lia|]. by rewrite Nat.sub_0_r.
  - rewrite <- map_rev, map_map.
    assert (rev (seq 1 (Nr - 1)) = map (fun r => (Nr - r)%nat) (seq 1 (Nr - 1))) as ->
      by (by destruct Hn as [[-> ->]|[[-> ->]|[-> ->]]]).
    rewrite map_map. apply map_ext_in. intros r Hin%in_seq.
    rewrite Hd by lia. by case_decide; [|lia].
  - rewrite Hd by lia. case_decide; [lia|]. by rewrite Nat.sub_diag.
Qed.

(** ** Properties *)

(** Every table of aes.c holds what its comment announces: [AES_sbox] and
    [AES_isbox] are the S-box (affine map of the field inverse) and its
    inverse, [AES_Te0] to [AES_Te4] are the S-box output times
    [02 01 01 03], [03 02 01 01], [01 03 02 01], [01 01 03 02] and
    [01 01 01 01], [AES_Td0] to [AES_Td4] the inverse S-box output times
    [0e 09 0d 0b], [0b 0e 09 0d], [0d 0b 0e 09], [09 0d 0b 0e] and
    [01 01 01 01], row [x] of [AES_imc] is [x] times the same four rows, and
    [AES_shifts] and [AES_ishifts] are the two row shifts. *)
Theorem aes_tables_correct x :
  byte x ->
  let S := sbox_ref x in
  let Si := isbox_ref x in
  let row a b c d y := pack (gmul a y) (gmul b y) (gmul c y) (gmul d y) in
  (tab AES_sbox x = S /\ tab AES_isbox x = Si) /\
  (tab AES_Te0 x = row 2 1 1 3 S /\ tab AES_Te1 x = row 3 2 1 1 S /\
   tab AES_Te2 x = row 1 3 2 1 S /\ tab AES_Te3 x = row 1 1 3 2 S /\
   tab AES_Te4 x = row 1 1 1 1 S)%positive /\
  (tab AES_Td0 x = row 14 9 13 11 Si /\ tab AES_Td1 x = row 11 14 9 13 Si /\
   tab AES_Td2 x = row 13 11 14 9 Si /\ tab AES_Td3 x = row 9 13 11 14 Si /\
   tab AES_Td4 x = row 1 1 1 1 Si)%positive /\
  AES_imc !!! Z.to_nat x =
    [row 14 9 13 11 x; row 11 14 9 13 x; row 13 11 14 9 x; row 9 13 11 14 x]%positive /\
  (forall s, map (tab s) AES_shifts = ShiftRows s /\
             map (tab s) AES_ishifts = InvShiftRows s).
Proof.
  intros Hx S Si row. split; [split; [by apply tab_sbox|by apply tab_isbox]|].
  split; [eauto 10 using tab_Te0, tab_Te1, tab_Te2, tab_Te3, tab_Te4|].
  split; [eauto 10 using tab_Td0, tab_Td1, tab_Td2, tab_Td3, tab_Td4|].
  split; [|by intros s].
  apply (byte_decide (fun x => AES_imc !!! Z.to_nat x =
    [row 14 9 13 11 x; row 11 14 9 13 x; row 13 11 14 9 x; row 9 13 11 14 x]%positive));
    [by vm_compute|done].
Qed.

Lemma aes_tables_correct_witness : tab AES_Te0 0x53 = 0xc1eded2c.
Proof.
  destruct (aes_tables_correct 0x53) as (_ & (-> & _) & _); [by split|]. reflexivity.
Defined.

(** [AES_set_encrypt_key] refuses null pointers with -1 and other key sizes
    with -2, without touching the key; for 128, 192 and 256 bits it returns 0,
    sets 10, 12 or 14 rounds and leaves in [rd_key] the key expansion of
    FIPS-197, whatever the array held before. *)
Theorem aes_set_encrypt_key_correct :
  (forall userKey bits key, userKey = None \/ key = None ->
     AES_set_encrypt_key userKey bits key = Some (-1, key)) /\
  (forall userKey bits key, bits <> 128 -> bits <> 192 -> bits <> 256 ->
     AES_set_encrypt_key (Some userKey) bits (Some key) = Some (-2, Some key)) /\
  (forall userKey Nk Nr key,
     key_size Nk Nr -> Forall byte userKey -> length userKey = (4 * Nk)%nat ->
     length (rd_key key) = 60%nat -> words32 (rd_key key) ->
     exists ke,
       AES_set_encrypt_key (Some userKey) (32 * Z.of_nat Nk) (Some key) = Some (0, Some ke) /\
       rounds ke = Z.of_nat Nr /\ length (rd_key ke) = 60%nat /\
       take (4 * (Nr + 1)) (rd_key ke)
       = KeyExpansion sbox_ref Nk Nr (key_words userKey Nk)).
Proof.
  split; [|split].
  - intros userKey bits key [-> | ->]; [done|]. by destruct userKey.
  - intros userKey bits key H1%Z.eqb_neq H2%Z.eqb_neq H3%Z.eqb_neq.
    unfold AES_set_encrypt_key. by rewrite H1, H2, H3.
  - intros userKey Nk Nr key Hn Hb _ Hl Hw.
    destruct (set_encrypt_key_spec userKey Nk Nr key Hn Hb Hl Hw) as (ke & E & Hs).
    exists ke. pose proof Hs as ((Hl' & _) & Hr & [k Hk]). split_and!; [done..|].
    rewrite Hk. apply take_app_length'. symmetry.
    apply (sched_words_length Nk (key_words userKey Nk) ltac:(unfold key_size in Hn; lia)
      (key_words_length _ _)). unfold key_size in Hn. lia.
Qed.

(** The key structure before a setup, and the example keys of FIPS-197. *)
Definition zero_key : AES_KEY := {| rd_key := replicate 60 0; rounds := 0 |}.
Definition fips_key (n : nat) : list Z := seqZ 0 (Z.of_nat n).
Definition fips_plain : list Z := map (fun i => 0x11 * i) (seqZ 0 16).

Lemma fips_key_bytes n : (n <= 256)%nat -> Forall byte (fips_key n).
Proof.
  intros Hn. apply Forall_forall. intros x Hx%elem_of_seqZ. unfold uint. lia.
Qed.

Lemma zero_key_words : words32 (rd_key zero_key).
Proof. apply Forall_replicate. by split. Qed.

Lemma fips_plain_block : is_block fips_plain.
Proof.
  split; [done|]. repeat first [apply Forall_nil_2 | apply Forall_cons_2; [by split|]].
Qed.

Lemma aes_set_encrypt_key_correct_witness :
  exists ke,
    AES_set_encrypt_key (Some (fips_key 16)) 128 (Some zero_key) = Some (0, Some ke) /\
    rounds ke = 10 /\ length (rd_key ke) = 60%nat /\
    take 44 (rd_key ke) = KeyExpansion sbox_ref 4 10 (key_words (fips_key 16) 4).
Proof.
  apply (proj2 (proj2 aes_set_encrypt_key_correct) (fips_key 16) 4 10 zero_key)%nat;
    [left; done|apply fips_key_bytes; lia|done|done|apply zero_key_words].
Defined.

(** C33: encryption is AES: after [AES_set_encrypt_key] with a key of 128, 192
    or 256 bits, [AES_encrypt] returns for every block the FIPS-197 cipher of
    it under that key. *)
Theorem aes_encrypt_correct userKey Nk Nr key s :
  key_size Nk Nr -> Forall byte userKey -> length userKey = (4 * Nk)%nat ->
  length (rd_key key) = 60%nat -> words32 (rd_key key) -> is_block s ->
  exists ke,
    AES_set_encrypt_key (Some userKey) (32 * Z.of_nat Nk) (Some key) = Some (0, Some ke) /\
    AES_encrypt s ke
    = Some (aes_encrypt (KeyExpansion sbox_ref Nk Nr (key_words userKey Nk)) Nr s).
Proof.
  intros Hn Hb _ Hl Hw Hs.
  destruct (set_encrypt_key_spec userKey Nk Nr key Hn Hb Hl Hw) as (ke & E & Hke).
  exists ke. split; [done|]. pose proof Hke as (Hok & Hr & _).
  rewrite AES_encrypt_spec, Hr, Nat2Z.id by done. f_equal. apply aes_encrypt_ext.
  intros r Hle. by apply schedule_round_key.
Qed.

Lemma aes_encrypt_correct_witness :
  aes_encrypt (KeyExpansion sbox_ref 4 10 (key_words (fips_key 16) 4)) 10 fips_plain
  = [0x69; 0xc4; 0xe0; 0xd8; 0x6a; 0x7b; 0x04; 0x30;
     0xd8; 0xcd; 0xb7; 0x80; 0x70; 0xb4; 0xc5; 0x5a].
Proof.
  destruct (aes_encrypt_correct (fips_key 16) 4 10 zero_key fips_plain)%nat
    as (ke & E & Hc);
    [left; done|apply fips_key_bytes; lia|done|done|apply zero_key_words|
     apply fips_plain_block|].
  vm_compute in E. injection E as <-. apply (inj Some). rewrite <- Hc. vm_compute. reflexivity.
Defined.

(** C34: decryption inverts encryption: with the schedules of
    [AES_set_encrypt_key] and [AES_set_decrypt_key] for the same key, both
    functions return on every block and [AES_decrypt] recovers the block
    [AES_encrypt] was given. *)
Theorem aes_decrypt_inverts userKey Nk Nr key s :
  key_size Nk Nr -> Forall byte userKey -> length userKey = (4 * Nk)%nat ->
  length (rd_key key) = 60%nat -> words32 (rd_key key) -> is_block s ->
  exists ke kd c,
    AES_set_encrypt_key (Some userKey) (32 * Z.of_nat Nk) (Some key) = Some (0, Some ke) /\
    AES_set_decrypt_key (Some userKey) (32 * Z.of_nat Nk) (Some key) = Some (0, Some kd) /\
    AES_encrypt s ke = Some c /\ is_block c /\ AES_decrypt c kd = Some s.
Proof.
  intros Hn Hb _ Hl Hw Hs.
  destruct (set_decrypt_key_spec userKey Nk Nr key Hn Hb Hl Hw)
    as (ke & kd & Ee & (Hoke & Hre & _) & Ed & Hokd & Hrd & Hd).
  exists ke, kd, (aes_encrypt (rd_key ke) Nr s). split; [done|]. split; [done|].
  split; [by rewrite AES_encrypt_spec, Hre, Nat2Z.id by done|].
  split; [by apply aes_encrypt_block|].
  erewrite AES_decrypt_schedule by eauto using aes_encrypt_block.
  by rewrite aes_decrypt_encrypt.
Qed.

Lemma aes_decrypt_inverts_witness :
  exists ke kd c,
    AES_set_encrypt_key (Some (fips_key 24)) 192 (Some zero_key) = Some (0, Some ke) /\
    AES_set_decrypt_key (Some (fips_key 24)) 192 (Some zero_key) = Some (0, Some kd) /\
    AES_encrypt fips_plain ke = Some c /\ is_block c /\ AES_decrypt c kd = Some fips_plain.
Proof.
  apply (aes_decrypt_inverts (fips_key 24) 6 12 zero_key fips_plain)%nat;
    [right; left; done|apply fips_key_bytes; lia|done|done|apply zero_key_words|
     apply fips_plain_block].
Defined.

(** The [FULL_UNROLL] variants of both block functions compute what the
    compiled loops compute, for every key the setup functions produce. *)
Theorem aes_unrolled_equivalent key s :
  key_ok key ->
  AES_encrypt s key = Some (AES_encrypt_unrolled s key) /\
  AES_decrypt s key = Some (AES_decrypt_unrolled s key).
Proof.
  destruct key as [rk nr]. intros (_ & _ & Hr). simpl in Hr.
  unfold AES_encrypt, AES_decrypt, AES_encrypt_unrolled, AES_decrypt_unrolled.
  cbn [rd_key rounds]. generalize (load_block s rk). intros w.
  destruct Hr as [-> | [-> | ->]]; split;
    cbn -[enc_round dec_round enc_last dec_last]; reflexivity.
Qed.

Lemma aes_unrolled_equivalent_witness :
  AES_encrypt fips_plain {| rd_key := replicate 60 7; rounds := 14 |}
  = Some (AES_encrypt_unrolled fips_plain {| rd_key := replicate 60 7; rounds := 14 |}).
Proof.
  apply aes_unrolled_equivalent. split; [done|]. split; [apply Forall_replicate; by split|].
  simpl. lia.
Defined.
