(* ===== verification/AesCbc.v ===== *)
(** * CBC mode of [qemu/crypto/aes.c]

    [AES_cbc_encrypt] on a byte memory in which the input, the output and the
    initialisation vector may overlap.  The theorems: encryption is cipher
    block chaining of the zero-padded input for every length, also in place;
    decryption inverts it; the call changes only the output blocks and the
    vector. *)

From S2P Require Import Prelude AesSpec Aes.

(** ** Memory *)

Definition mem : Type := Z -> Z.

(** [n] bytes from [p]. *)
Definition read (m : mem) (p : Z) (n : nat) : list Z :=
  map (fun i => m (p + Z.of_nat i)) (seq 0 n).

Definition store (m : mem) (p v : Z) : mem := fun a => if a =? p then v else m a.

Definition write (m : mem) (p : Z) (bs : list Z) : mem := fun a =>
  if (p <=? a) && (a <? p + Z.of_nat (length bs)) then bs !!! Z.to_nat (a - p) else m a.

(** [memcpy], for regions that do not overlap. *)
Definition memcpy (m : mem) (dst src : Z) (n : nat) : mem := write m dst (read m src n).

Definition AES_BLOCK_SIZE : Z := 16.

(** ** The code *)

(** [for (n = 0; n < 16; ++n) tmp[n] = in[n] ^ ivec[n]] *)
Definition xor_block (m : mem) (inp ivec : Z) : list Z :=
  map (fun n => Z.lxor (m (inp + n)) (m (ivec + n))) (seqZ 0 AES_BLOCK_SIZE).

(** The [while (len >= AES_BLOCK_SIZE)] loop of encryption; the result is the
    memory and the values of [in], [out] and [len] after it. *)
Fixpoint cbc_enc_loop (fuel : nat) (m : mem) (inp out len : Z) (key : AES_KEY) (ivec : Z)
    : option (mem * Z * Z * Z) :=
  match fuel with
  | O => None
  | S fuel =>
    if AES_BLOCK_SIZE <=? len then
      let tmp := xor_block m inp ivec in
      c ← AES_encrypt tmp key;
      let m := write m out c in
      let m := memcpy m ivec out 16 in
      cbc_enc_loop fuel m (inp + AES_BLOCK_SIZE) (out + AES_BLOCK_SIZE)
        (len - AES_BLOCK_SIZE) key ivec
    else Some (m, inp, out, len)
  end.

(** The last, incomplete block of encryption. *)
Definition cbc_enc_tail (m : mem) (inp out len : Z) (key : AES_KEY) (ivec : Z)
    : option mem :=
  if len =? 0 then Some m else
  let tmp := map (fun n => if n <? len then Z.lxor (m (inp + n)) (m (ivec + n))
                           else m (ivec + n)) (seqZ 0 AES_BLOCK_SIZE) in
  tmp ← AES_encrypt tmp key;
  let m := write m out tmp in
  Some (write m ivec tmp).

(** [for (n = 0; n < cnt; ++n) out[n] ^= ivec[n]] *)
Definition xor_into (m : mem) (out ivec cnt : Z) : mem :=
  fold_left (fun m n => store m (out + n) (Z.lxor (m (out + n)) (m (ivec + n))))
    (seqZ 0 cnt) m.

Fixpoint cbc_dec_loop (fuel : nat) (m : mem) (inp out len : Z) (key : AES_KEY) (ivec : Z)
    : option (mem * Z * Z * Z) :=
  match fuel with
  | O => None
  | S fuel =>
    if AES_BLOCK_SIZE <=? len then
      let tmp := read m inp 16 in
      d ← AES_decrypt (read m inp 16) key;
      let m := write m out d in
      let m := xor_into m out ivec AES_BLOCK_SIZE in
      let m := write m ivec tmp in
      cbc_dec_loop fuel m (inp + AES_BLOCK_SIZE) (out + AES_BLOCK_SIZE)
        (len - AES_BLOCK_SIZE) key ivec
    else Some (m, inp, out, len)
  end.

Definition cbc_dec_tail (m : mem) (inp out len : Z) (key : AES_KEY) (ivec : Z)
    : option mem :=
  if len =? 0 then Some m else
  tmp ← AES_decrypt (read m inp 16) key;
  let m := fold_left (fun m n => store m (out + n)
             (Z.lxor (tmp !!! Z.to_nat n) (m (ivec + n)))) (seqZ 0 len) m in
  Some (write m ivec tmp).

Definition AES_cbc_encrypt (m : mem) (inp out length : Z) (key : AES_KEY) (ivec : Z)
    (enc : bool) : option mem :=
  let fuel := S (Z.to_nat (length / AES_BLOCK_SIZE)) in
  if enc then
    '(m, inp, out, len) ← cbc_enc_loop fuel m inp out length key ivec;
    cbc_enc_tail m inp out len key ivec
  else
    '(m, inp, out, len) ← cbc_dec_loop fuel m inp out length key ivec;
    cbc_dec_tail m inp out len key ivec.

(** ** Cipher block chaining *)

Fixpoint cbc_encrypt (E : list Z -> list Z) (iv : list Z) (bs : list (list Z))
    : list (list Z) :=
  match bs with
  | [] => []
  | b :: bs => let c := E (AddRoundKey iv b) in c :: cbc_encrypt E c bs
  end.

Fixpoint cbc_decrypt (D : list Z -> list Z) (iv : list Z) (cs : list (list Z))
    : list (list Z) :=
  match cs with
  | [] => []
  | c :: cs => AddRoundKey iv (D c) :: cbc_decrypt D c cs
  end.

(** The blocks at [p], [n] of them. *)
Definition blocks (m : mem) (p : Z) (n : nat) : list (list Z) :=
  map (fun i => read m (p + 16 * Z.of_nat i) 16) (seq 0 n).

(** The first [len] bytes at [p], padded with zeros to a block. *)
Definition padded (m : mem) (p len : Z) : list Z :=
  map (fun n => if n <? len then m (p + n) else 0) (seqZ 0 16).

(** The whole input: [len / 16] blocks and the padded rest. *)
Definition plain_blocks (m : mem) (p len : Z) : list (list Z) :=
  blocks m p (Z.to_nat (len / 16)) ++
  (if len mod 16 =? 0 then [] else [padded m (p + 16 * (len / 16)) (len mod 16)]).

(** ** Reading and writing *)

Definition mem_ok (m : mem) : Prop := forall a, byte (m a).

Definition outside (a p n : Z) : Prop := a < p \/ p + n <= a.

Lemma length_read m p n : length (read m p n) = n.
Proof. unfold read. by rewrite length_map, length_seq. Qed.

Lemma read_block m p : mem_ok m -> is_block (read m p 16).
Proof.
  intros Hm. split; [apply length_read|]. apply Forall_map, Forall_true. intros. apply Hm.
Qed.

Lemma read_ext m m' p p' n :
  (forall i, 0 <= i < Z.of_nat n -> m (p + i) = m' (p' + i)) -> read m p n = read m' p' n.
Proof. intros H. apply map_ext_in. intros i Hi%in_seq. apply H. lia. Qed.

Lemma lookup_read m p n i :
  0 <= i < Z.of_nat n -> read m p n !!! Z.to_nat i = m (p + i).
Proof.
  intros Hi. apply list_lookup_total_correct. unfold read.
  rewrite list_lookup_fmap, lookup_seq_lt by lia. simpl. do 2 f_equal. lia.
Qed.

Lemma in_range a p n : p <= a < p + n -> ((p <=? a) && (a <? p + n))%bool = true.
Proof. intros Ha. apply andb_true_iff. lia. Qed.

Lemma write_in m p bs a :
  p <= a < p + Z.of_nat (length bs) -> write m p bs a = bs !!! Z.to_nat (a - p).
Proof. intros Ha. unfold write. by rewrite in_range by done. Qed.

Lemma write_out m p bs a : outside a p (Z.of_nat (length bs)) -> write m p bs a = m a.
Proof.
  unfold outside, write. intros Ha. destruct (_ && _) eqn:E; [bool_to_prop; lia|done].
Qed.

Lemma write_ok m p bs : mem_ok m -> Forall byte bs -> mem_ok (write m p bs).
Proof.
  intros Hm Hb a. unfold write. case_if; [|done]. by apply Forall_uint_total.
Qed.

Lemma read_write m p bs : read (write m p bs) p (length bs) = bs.
Proof.
  apply list_eq_same_length with (length bs); [done|apply length_read|].
  intros i x y Hi Hx Hy. apply list_lookup_total_correct in Hx as <-, Hy as <-.
  rewrite <- (Nat2Z.id i) at 1. rewrite lookup_read by lia.
  rewrite write_in by lia. f_equal. lia.
Qed.

(** The region of [n] bytes at [a] and that of [k] bytes at [b] are disjoint. *)
Definition disj (a n b k : Z) : Prop := a + n <= b \/ b + k <= a.

Lemma read_write_disj m p bs q n :
  disj p (Z.of_nat (length bs)) q (Z.of_nat n) -> read (write m p bs) q n = read m q n.
Proof.
  unfold disj. intros H. apply read_ext. intros i Hi. apply write_out.
  unfold outside. lia.
Qed.

Lemma blocks_S m p n : blocks m p (S n) = read m p 16 :: blocks m (p + 16) n.
Proof.
  unfold blocks. cbn [seq]. rewrite map_cons, <- seq_shift, map_map. f_equal.
  - by rewrite Z.add_0_r.
  - apply map_ext. intros i. f_equal. lia.
Qed.

Lemma blocks_ext m m' p n :
  (forall a, p <= a < p + 16 * Z.of_nat n -> m a = m' a) -> blocks m p n = blocks m' p n.
Proof.
  intros H. apply map_ext_in. intros i Hi%in_seq. apply read_ext. intros j Hj.
  apply H. lia.
Qed.

Lemma length_blocks m p n : length (blocks m p n) = n.
Proof. unfold blocks. by rewrite length_map, length_seq. Qed.

Lemma blocks_is_block m p n : mem_ok m -> Forall is_block (blocks m p n).
Proof. intros Hm. apply Forall_map, Forall_true. intros. by apply read_block. Qed.

(** The vector after chaining through the blocks [cs]. *)
Definition last_block (iv : list Z) (cs : list (list Z)) : list Z := default iv (last cs).

Lemma last_block_cons iv c cs : last_block iv (c :: cs) = last_block c cs.
Proof. unfold last_block. rewrite last_cons. by destruct (last cs). Qed.

Lemma last_block_app iv cs ds : last_block iv (cs ++ ds) = last_block (last_block iv cs) ds.
Proof.
  revert iv. induction cs as [|c cs IH]; intros iv; simpl; [done|].
  by rewrite !last_block_cons, IH.
Qed.

Lemma xor_block_spec m inp ivec :
  xor_block m inp ivec = AddRoundKey (read m ivec 16) (read m inp 16).
Proof. reflexivity. Qed.

Lemma cbc_encrypt_app E iv bs bs' :
  cbc_encrypt E iv (bs ++ bs') =
  cbc_encrypt E iv bs ++ cbc_encrypt E (last_block iv (cbc_encrypt E iv bs)) bs'.
Proof.
  revert iv. induction bs as [|b bs IH]; intros iv; simpl; [done|].
  by rewrite IH, last_block_cons.
Qed.

(** The number of blocks of [len] bytes, the incomplete one included. *)
Definition nblocks (len : Z) : Z := (len + 15) / 16.

(** Conditions on the pointers: the vector is apart from both buffers, and the
    output starts at or below the input (in place, say) or after its end. *)
Definition buffers_ok (inp out len ivec : Z) : Prop :=
  disj out (16 * nblocks len) ivec 16 /\ disj inp (16 * nblocks len) ivec 16 /\
  (out <= inp \/ inp + 16 * nblocks len <= out).

Lemma nblocks_cases len :
  0 <= len ->
  exists n t, len = 16 * Z.of_nat n + t /\ 0 <= t < 16 /\ len / 16 = Z.of_nat n /\
    len mod 16 = t /\ nblocks len = Z.of_nat n + (if t =? 0 then 0 else 1).
Proof.
  intros Hl. exists (Z.to_nat (len / 16)), (len mod 16). unfold nblocks.
  rewrite Z2Nat.id by (apply Z.div_pos; lia). split; [by apply Z.div_mod|].
  split; [by apply Z.mod_pos_bound|]. split_and!; [done..|].
  destruct (_ =? 0) eqn:E; bool_to_prop; Z.to_euclidean_division_equations; lia.
Qed.

Lemma blocks_snoc m p n :
  blocks m p (n + 1) = blocks m p n ++ [read m (p + 16 * Z.of_nat n) 16].
Proof. unfold blocks. rewrite Nat.add_1_r, seq_S, map_app. reflexivity. Qed.

Section Encrypt.
Context (key : AES_KEY) (E : list Z -> list Z).
Hypothesis HE : forall s, is_block s -> AES_encrypt s key = Some (E s) /\ is_block (E s).

(** One turn of the encryption loop. *)
Lemma cbc_enc_step m inp out ivec :
  mem_ok m -> disj out 16 ivec 16 ->
  let b := E (AddRoundKey (read m ivec 16) (read m inp 16)) in
  exists m1,
    AES_encrypt (xor_block m inp ivec) key = Some b /\
    memcpy (write m out b) ivec out 16 = m1 /\
    mem_ok m1 /\ read m1 out 16 = b /\ read m1 ivec 16 = b /\
    (forall a, outside a out 16 -> outside a ivec 16 -> m1 a = m a).
Proof.
  intros Hm Hd b. rewrite xor_block_spec.
  destruct (HE (AddRoundKey (read m ivec 16) (read m inp 16))) as [Eb [Hl Hb]].
  { apply AddRoundKey_block; by apply read_block. }
  fold b in Eb, Hl, Hb. eexists. split; [done|]. split; [done|].
  unfold memcpy.
  assert (read (write m out b) out 16 = b) as Eo by (rewrite <- Hl; apply read_write).
  rewrite Eo. assert (read (write (write m out b) ivec b) ivec 16 = b) as Ei
    by (rewrite <- Hl; apply read_write).
  split; [by repeat apply write_ok|]. split; [|split; [done|]].
  - rewrite read_write_disj by (rewrite Hl; unfold disj in *; lia). done.
  - intros a Ha Ha'. by rewrite !write_out by (rewrite Hl; done).
Qed.

Lemma cbc_enc_loop_spec n fuel m inp out t ivec :
  (n < fuel)%nat -> mem_ok m -> 0 <= t < 16 ->
  let k := 16 * Z.of_nat n in
  disj out k ivec 16 -> disj inp k ivec 16 -> out <= inp \/ inp + k <= out ->
  exists m',
    cbc_enc_loop fuel m inp out (k + t) key ivec = Some (m', inp + k, out + k, t) /\
    mem_ok m' /\
    let cs := cbc_encrypt E (read m ivec 16) (blocks m inp n) in
    blocks m' out n = cs /\ read m' ivec 16 = last_block (read m ivec 16) cs /\
    (forall a, outside a out k -> outside a ivec 16 -> m' a = m a).
Proof.
  revert fuel m inp out. induction n as [|n IH];
    intros [|fuel] m inp out Hf Hm Ht k Ho Hi Hio; try lia; cbn [cbc_enc_loop].
  - exists m. unfold AES_BLOCK_SIZE. replace (16 <=? k + t) with false by lia.
    split; [repeat f_equal; lia|]. split; [done|]. by split_and!.
  - destruct (cbc_enc_step m inp out ivec) as (m1 & Eb & E1 & Hm1 & Hr1 & Hv1 & Hf1);
      [done|unfold disj in *; lia|].
    destruct (IH fuel m1 (inp + 16) (out + 16)) as (m' & El & Hm' & Hb' & Hv' & Hf');
      [lia|done|done|unfold disj in *; lia..|].
    exists m'. unfold AES_BLOCK_SIZE in *. replace (16 <=? k + t) with true by lia.
    rewrite Eb. cbn [mbind option_bind]. rewrite E1.
    replace (k + t - 16) with (16 * Z.of_nat n + t) by lia. rewrite El.
    replace (inp + k) with (inp + 16 + 16 * Z.of_nat n) by lia.
    replace (out + k) with (out + 16 + 16 * Z.of_nat n) by lia.
    split; [done|]. split; [done|].
    rewrite !blocks_S. cbn [cbc_encrypt]. rewrite last_block_cons.
    assert (blocks m1 (inp + 16) n = blocks m (inp + 16) n) as Eb1.
    { apply blocks_ext. intros a Ha. apply Hf1; unfold outside, disj in *; lia. }
    rewrite <- Eb1, <- Hv1. split; [|split; [done|]].
    + rewrite Hb'. f_equal. rewrite Hv1, <- Hr1. apply read_ext.
      intros i Hin. apply Hf'; unfold outside, disj in *; lia.
    + intros a Ha Ha'. rewrite Hf', Hf1 by (unfold outside in *; lia). done.
Qed.

(** The incomplete block. *)
Lemma cbc_enc_tail_spec m inp out t ivec :
  mem_ok m -> 0 < t < 16 -> disj out 16 ivec 16 ->
  exists m',
    cbc_enc_tail m inp out t key ivec = Some m' /\ mem_ok m' /\
    let c := E (AddRoundKey (read m ivec 16) (padded m inp t)) in
    read m' out 16 = c /\ read m' ivec 16 = c /\
    (forall a, outside a out 16 -> outside a ivec 16 -> m' a = m a).
Proof.
  intros Hm Ht Hd. unfold cbc_enc_tail. replace (t =? 0) with false by lia.
  replace (map _ _) with (AddRoundKey (read m ivec 16) (padded m inp t)).
  2:{ cbn -[Z.lxor Z.add Z.ltb]. repeat apply (f_equal2 cons); [..|done];
        destruct (_ <? t); try done; apply Z.lxor_0_l. }
  destruct (HE (AddRoundKey (read m ivec 16) (padded m inp t))) as [Eb [Hl Hb]].
  { apply AddRoundKey_block; [by apply read_block|]. split; [done|].
    apply Forall_map, Forall_true. intros n. case_if; [done|]. by split. }
  rewrite Eb. cbn [mbind option_bind]. eexists. split; [done|].
  set (c := E _) in *. split; [by repeat apply write_ok|]. split; [|split].
  - rewrite read_write_disj by (rewrite Hl; unfold disj in *; lia).
    rewrite <- Hl. apply read_write.
  - rewrite <- Hl. apply read_write.
  - intros a Ha Ha'. by rewrite !write_out by (rewrite Hl; done).
Qed.

Lemma cbc_enc_spec m inp out len ivec :
  mem_ok m -> 0 <= len -> buffers_ok inp out len ivec ->
  exists m',
    AES_cbc_encrypt m inp out len key ivec true = Some m' /\ mem_ok m' /\
    let cs := cbc_encrypt E (read m ivec 16) (plain_blocks m inp len) in
    blocks m' out (Z.to_nat (nblocks len)) = cs /\
    read m' ivec 16 = last_block (read m ivec 16) cs /\
    (forall a, outside a out (16 * nblocks len) -> outside a ivec 16 -> m' a = m a).
Proof.
  intros Hm Hlen (Ho & Hi & Hio).
  destruct (nblocks_cases len Hlen) as (n & t & El & Ht & Eq & Et & En).
  unfold AES_cbc_encrypt, plain_blocks, AES_BLOCK_SIZE. rewrite Eq, Et, En, Nat2Z.id in *.
  destruct (cbc_enc_loop_spec n (S n) m inp out t ivec)
    as (m1 & E1 & Hm1 & Hb1 & Hv1 & Hf1); [lia|done|done|unfold disj in *;
    destruct (t =? 0); lia..|].
  rewrite El, E1. cbn [mbind option_bind].
  destruct (t =? 0) eqn:Et0; bool_to_prop.
  - exists m1. unfold cbc_enc_tail. subst t. rewrite app_nil_r, Z.add_0_r, Nat2Z.id.
    by split_and!.
  - destruct (cbc_enc_tail_spec m1 (inp + 16 * Z.of_nat n) (out + 16 * Z.of_nat n) t ivec)
      as (m' & E' & Hm' & Hb' & Hv' & Hf'); [done|lia|unfold disj in *; lia|].
    exists m'. split; [done|]. split; [done|].
    assert (padded m1 (inp + 16 * Z.of_nat n) t = padded m (inp + 16 * Z.of_nat n) t) as Ep.
    { apply map_ext_in. intros i Hin%list_elem_of_In%elem_of_seqZ. case_if; [|done].
      apply Hf1; unfold outside, disj in *; lia. }
    rewrite cbc_encrypt_app, last_block_app, <- Hv1, <- Ep.
    replace (Z.to_nat (Z.of_nat n + 1)) with (n + 1)%nat by lia.
    rewrite blocks_snoc. cbn [cbc_encrypt]. split; [|split].
    + rewrite Hb', <- Hb1. f_equal. apply blocks_ext. intros a Ha.
      apply Hf'; unfold outside, disj in *; lia.
    + done.
    + intros a Ha Ha'. rewrite Hf', Hf1 by (unfold outside in *; lia). done.
Qed.
End Encrypt.

(** ** Decryption *)

(** A loop that stores [g m n] at [out + n] for [n] below [cnt], where no value
    depends on a place written before. *)
Lemma fold_store (g : mem -> Z -> Z) out cnt m :
  (forall m' n, 0 <= n < Z.of_nat cnt ->
     (forall a, outside a out n -> m' a = m a) -> g m' n = g m n) ->
  forall a,
    fold_left (fun m n => store m (out + n) (g m n)) (seqZ 0 (Z.of_nat cnt)) m a
    = if (out <=? a) && (a <? out + Z.of_nat cnt) then g m (a - out) else m a.
Proof.
  induction cnt as [|cnt IH]; intros Hg a.
  { simpl. case_if; [bool_to_prop; lia|done]. }
  rewrite seqZ_S, Nat2Z.inj_succ.
  rewrite fold_left_app, fold_left_cons, fold_left_nil. rewrite !Z.add_0_l.
  specialize (IH ltac:(intros; apply Hg; [lia|done])).
  unfold store at 1. destruct (a =? out + Z.of_nat cnt) eqn:Ea; bool_to_prop.
  - subst a. rewrite in_range by (clear; lia).
    replace (out + Z.of_nat cnt - out) with (Z.of_nat cnt) by lia. apply Hg; [lia|].
    intros a Ha. rewrite IH. unfold outside in Ha. case_if; [bool_to_prop; lia|done].
  - rewrite IH. destruct (out <=? a) eqn:E1; [|done]. simpl.
    destruct (a <? out + Z.of_nat cnt) eqn:E2, (a <? out + Z.succ (Z.of_nat cnt)) eqn:E3;
      bool_to_prop; lia || done.
Qed.

Lemma cbc_decrypt_app D iv cs cs' :
  cbc_decrypt D iv (cs ++ cs') = cbc_decrypt D iv cs ++ cbc_decrypt D (last_block iv cs) cs'.
Proof.
  revert iv. induction cs as [|c cs IH]; intros iv; simpl; [done|].
  by rewrite IH, last_block_cons.
Qed.

Lemma lookup_AddRoundKey k s i :
  length k = 16%nat -> length s = 16%nat -> (i < 16)%nat ->
  AddRoundKey k s !!! i = Z.lxor (s !!! i) (k !!! i).
Proof.
  intros Hk Hs Hi. unfold AddRoundKey. apply list_lookup_total_correct.
  rewrite lookup_zip_with, !list_lookup_lookup_total_lt by lia. done.
Qed.

(** Byte [i] of a region, from its blocks. *)
Lemma blocks_byte m p n i :
  0 <= i < 16 * Z.of_nat n ->
  (blocks m p n !!! Z.to_nat (i / 16)) !!! Z.to_nat (i mod 16) = m (p + i).
Proof.
  intros Hi. assert (blocks m p n !!! Z.to_nat (i / 16) = read m (p + 16 * (i / 16)) 16) as ->.
  { apply list_lookup_total_correct. unfold blocks.
    rewrite list_lookup_fmap, lookup_seq_lt by (Z.to_euclidean_division_equations; lia).
    simpl. do 3 f_equal. Z.to_euclidean_division_equations; lia. }
  rewrite lookup_read by (apply Z.mod_pos_bound; lia). f_equal.
  rewrite (Z.div_mod i 16) at 3 by lia. lia.
Qed.

Section Decrypt.
Context (key : AES_KEY) (D : list Z -> list Z).
Hypothesis HD : forall s, is_block s -> AES_decrypt s key = Some (D s) /\ is_block (D s).

(** One turn of the decryption loop. *)
Lemma cbc_dec_step m inp out ivec :
  mem_ok m -> disj out 16 ivec 16 ->
  let c := read m inp 16 in
  exists m1,
    AES_decrypt c key = Some (D c) /\
    write (xor_into (write m out (D c)) out ivec 16) ivec c = m1 /\
    mem_ok m1 /\ read m1 out 16 = AddRoundKey (read m ivec 16) (D c) /\
    read m1 ivec 16 = c /\
    (forall a, outside a out 16 -> outside a ivec 16 -> m1 a = m a).
Proof.
  intros Hm Hd c. assert (is_block c) as Hc by by apply read_block.
  destruct (HD c Hc) as [Ed [Hl Hb]]. pose proof Hc as [Hlc Hbc].
  eexists. split; [done|]. split; [done|].
  assert (forall a, xor_into (write m out (D c)) out ivec 16 a =
    if (out <=? a) && (a <? out + 16)
    then Z.lxor (D c !!! Z.to_nat (a - out)) (m (ivec + (a - out))) else m a) as Hx.
  { intros a. unfold xor_into. change 16 with (Z.of_nat 16) at 1.
    rewrite (fold_store (fun m n => Z.lxor (m (out + n)) (m (ivec + n)))).
    - change (Z.of_nat 16) with 16. case_if.
      + rewrite write_in, write_out by (rewrite Hl; unfold outside, disj in *; lia).
        do 3 f_equal. lia.
      + apply write_out. rewrite Hl. unfold outside. lia.
    - intros m' n Hn Hm'. f_equal; apply Hm'; unfold outside, disj in *; lia. }
  split; [|split; [|split]].
  - apply write_ok; [|done]. intros a. rewrite Hx. case_if; [|done].
    apply lxor_byte; [|done]. by apply Forall_uint_total.
  - rewrite read_write_disj by (rewrite Hlc; unfold disj in *; lia).
    apply list_eq_same_length with 16%nat.
    { unfold AddRoundKey. rewrite length_zip_with, length_read. lia. }
    { apply length_read. }
    intros i x y Hi Hx1 Hy. apply list_lookup_total_correct in Hx1 as <-, Hy as <-.
    rewrite lookup_AddRoundKey by (done || apply length_read).
    rewrite <- (Nat2Z.id i). rewrite !lookup_read, Hx by lia.
    case_if; [bool_to_prop; do 3 f_equal; lia|bool_to_prop; lia].
  - rewrite <- Hlc. apply read_write.
  - intros a Ha Ha'. rewrite write_out, Hx by (by rewrite Hlc).
    case_if; [|done]. bool_to_prop. unfold outside in Ha. lia.
Qed.

Lemma cbc_dec_loop_spec n fuel m inp out t ivec :
  (n < fuel)%nat -> mem_ok m -> 0 <= t < 16 ->
  let k := 16 * Z.of_nat n in
  disj out k ivec 16 -> disj inp k ivec 16 -> out <= inp \/ inp + k <= out ->
  exists m',
    cbc_dec_loop fuel m inp out (k + t) key ivec = Some (m', inp + k, out + k, t) /\
    mem_ok m' /\
    blocks m' out n = cbc_decrypt D (read m ivec 16) (blocks m inp n) /\
    read m' ivec 16 = last_block (read m ivec 16) (blocks m inp n) /\
    (forall a, outside a out k -> outside a ivec 16 -> m' a = m a).
Proof.
  revert fuel m inp out. induction n as [|n IH];
    intros [|fuel] m inp out Hf Hm Ht k Ho Hi Hio; try lia; cbn [cbc_dec_loop].
  - exists m. unfold AES_BLOCK_SIZE. replace (16 <=? k + t) with false by lia.
    split; [repeat f_equal; lia|]. split; [done|]. by split_and!.
  - destruct (cbc_dec_step m inp out ivec) as (m1 & Eb & E1 & Hm1 & Hr1 & Hv1 & Hf1);
      [done|unfold disj in *; lia|].
    destruct (IH fuel m1 (inp + 16) (out + 16)) as (m' & El & Hm' & Hb' & Hv' & Hf');
      [lia|done|done|unfold disj in *; lia..|].
    exists m'. unfold AES_BLOCK_SIZE in *. replace (16 <=? k + t) with true by lia.
    rewrite Eb. cbn [mbind option_bind]. rewrite E1.
    replace (k + t - 16) with (16 * Z.of_nat n + t) by lia. rewrite El.
    replace (inp + k) with (inp + 16 + 16 * Z.of_nat n) by lia.
    replace (out + k) with (out + 16 + 16 * Z.of_nat n) by lia.
    split; [done|]. split; [done|].
    rewrite !blocks_S. cbn [cbc_decrypt]. rewrite last_block_cons.
    assert (blocks m1 (inp + 16) n = blocks m (inp + 16) n) as Eb1.
    { apply blocks_ext. intros a Ha. apply Hf1; unfold outside, disj in *; lia. }
    rewrite <- Eb1. rewrite Hv1 in Hb', Hv'. split; [|split; [done|]].
    + rewrite Hb'. f_equal. rewrite <- Hr1. apply read_ext.
      intros i Hin. apply Hf'; unfold outside, disj in *; lia.
    + intros a Ha Ha'. rewrite Hf', Hf1 by (unfold outside in *; lia). done.
Qed.

(** The incomplete block: [t] bytes of the decrypted block are stored, and the
    vector receives the output of the block function. *)
Lemma cbc_dec_tail_spec m inp out t ivec :
  mem_ok m -> 0 < t < 16 -> disj out t ivec 16 ->
  exists m',
    cbc_dec_tail m inp out t key ivec = Some m' /\
    read m' out (Z.to_nat t)
      = take (Z.to_nat t) (AddRoundKey (read m ivec 16) (D (read m inp 16))) /\
    read m' ivec 16 = D (read m inp 16) /\
    (forall a, outside a out t -> outside a ivec 16 -> m' a = m a).
Proof.
  intros Hm Ht Hd. unfold cbc_dec_tail. replace (t =? 0) with false by lia.
  destruct (HD (read m inp 16)) as [-> [Hl Hb]]; [by apply read_block|].
  cbn [mbind option_bind]. set (c := D _) in *. eexists. split; [done|].
  assert (forall a, fold_left (fun m n => store m (out + n)
    (Z.lxor (c !!! Z.to_nat n) (m (ivec + n)))) (seqZ 0 t) m a =
    if (out <=? a) && (a <? out + t)
    then Z.lxor (c !!! Z.to_nat (a - out)) (m (ivec + (a - out))) else m a) as Hx.
  { intros a. rewrite <- (Z2Nat.id t) by lia.
    apply (fold_store (fun m n => Z.lxor (c !!! Z.to_nat n) (m (ivec + n)))).
    intros m' n Hn Hm'. f_equal; apply Hm'; unfold outside, disj in *; lia. }
  split; [|split].
  - rewrite read_write_disj by (rewrite Hl; unfold disj in *; lia).
    apply list_eq_same_length with (Z.to_nat t).
    { unfold AddRoundKey. rewrite length_take, length_zip_with, length_read. lia. }
    { apply length_read. }
    intros i x y Hi Hx1 Hy. rewrite lookup_take_lt in Hy by done.
    apply list_lookup_total_correct in Hx1 as <-, Hy as <-.
    rewrite lookup_AddRoundKey by (lia || done || apply length_read).
    rewrite <- (Nat2Z.id i). rewrite !lookup_read, Hx by lia.
    rewrite in_range by lia. do 3 f_equal; lia.
  - rewrite <- Hl. apply read_write.
  - intros a Ha Ha'. rewrite write_out, Hx by (by rewrite Hl).
    case_if; [|done]. bool_to_prop. unfold outside in Ha. lia.
Qed.

Lemma cbc_dec_spec m inp out len ivec :
  mem_ok m -> 0 <= len -> buffers_ok inp out len ivec ->
  exists m',
    AES_cbc_encrypt m inp out len key ivec false = Some m' /\
    let ps := cbc_decrypt D (read m ivec 16) (blocks m inp (Z.to_nat (nblocks len))) in
    (forall i, 0 <= i < len ->
       m' (out + i) = (ps !!! Z.to_nat (i / 16)) !!! Z.to_nat (i mod 16)) /\
    (len mod 16 = 0 -> read m' ivec 16
       = last_block (read m ivec 16) (blocks m inp (Z.to_nat (nblocks len)))) /\
    (forall a, outside a out len -> outside a ivec 16 -> m' a = m a).
Proof.
  intros Hm Hlen (Ho & Hi & Hio).
  destruct (nblocks_cases len Hlen) as (n & t & El & Ht & Eq & Et & En).
  unfold AES_cbc_encrypt, AES_BLOCK_SIZE. rewrite Eq, Et, En, Nat2Z.id in *.
  destruct (cbc_dec_loop_spec n (S n) m inp out t ivec)
    as (m1 & E1 & Hm1 & Hb1 & Hv1 & Hf1); [lia|done|done|unfold disj in *;
    destruct (t =? 0); lia..|].
  rewrite El, E1. cbn [mbind option_bind].
  destruct (t =? 0) eqn:Et0; bool_to_prop.
  - exists m1. unfold cbc_dec_tail. subst t. rewrite !Z.add_0_r, Nat2Z.id.
    split_and!; [done| |done|done]. intros i Hir. rewrite <- Hb1, blocks_byte by lia. done.
  - destruct (cbc_dec_tail_spec m1 (inp + 16 * Z.of_nat n) (out + 16 * Z.of_nat n) t ivec)
      as (m' & E' & Hb' & Hv' & Hf'); [done|lia|unfold disj in *; lia|].
    exists m'. split; [done|].
    replace (Z.to_nat (Z.of_nat n + 1)) with (n + 1)%nat by lia.
    rewrite blocks_snoc, cbc_decrypt_app, <- Hb1, <- Hv1. cbn [cbc_decrypt].
    rewrite <- (read_ext m1 m (inp + 16 * Z.of_nat n) _ 16)
      by (intros i Hin; apply Hf1; unfold outside, disj in *; lia).
    split; [|split; [lia|]].
    + intros i Hir. destruct (decide (i < 16 * Z.of_nat n)) as [Hlt|Hge].
      * rewrite lookup_total_app_l, blocks_byte
          by (rewrite ?length_blocks; Z.to_euclidean_division_equations; lia).
        apply Hf'; unfold outside, disj in *; lia.
      * assert (i / 16 = Z.of_nat n /\ i mod 16 = i - 16 * Z.of_nat n) as [-> ->]
          by (Z.to_euclidean_division_equations; lia).
        rewrite Nat2Z.id, lookup_total_app_r, length_blocks, Nat.sub_diag
          by (by rewrite length_blocks).
        cbn [lookup_total list_lookup_total].
        replace (out + i) with (out + 16 * Z.of_nat n + (i - 16 * Z.of_nat n)) by lia.
        rewrite <- (lookup_read m' _ (Z.to_nat t)), Hb' by lia.
        apply list_lookup_total_correct. rewrite lookup_take_lt by lia.
        apply list_lookup_lookup_total_lt. unfold AddRoundKey.
        rewrite length_zip_with, length_read.
        destruct (HD (read m1 (inp + 16 * Z.of_nat n) 16)) as [_ [-> _]];
          [by apply read_block|lia].
    + intros a Ha Ha'. rewrite Hf', Hf1 by (unfold outside in *; lia). done.
Qed.
End Decrypt.

(** ** Round trip *)

Lemma padded_block m p t : mem_ok m -> is_block (padded m p t).
Proof.
  intros Hm. split; [done|]. apply Forall_map, Forall_true. intros n.
  case_if; [done|]. by split.
Qed.

Lemma plain_blocks_is_block m p len : mem_ok m -> Forall is_block (plain_blocks m p len).
Proof.
  intros Hm. apply Forall_app. split; [by apply blocks_is_block|].
  case_if; auto using padded_block.
Qed.

(** The plaintext blocks hold the input bytes. *)
Lemma plain_blocks_byte m p len i :
  0 <= i < len ->
  (plain_blocks m p len !!! Z.to_nat (i / 16)) !!! Z.to_nat (i mod 16) = m (p + i).
Proof.
  intros Hi. destruct (nblocks_cases len ltac:(lia)) as (n & t & El & Ht & Eq & Et & _).
  unfold plain_blocks. rewrite Eq, Et, Nat2Z.id.
  destruct (decide (i < 16 * Z.of_nat n)) as [Hlt|Hge].
  - rewrite lookup_total_app_l, blocks_byte
      by (rewrite ?length_blocks; Z.to_euclidean_division_equations; lia). done.
  - assert (i / 16 = Z.of_nat n /\ i mod 16 = i - 16 * Z.of_nat n) as [-> ->]
      by (Z.to_euclidean_division_equations; lia).
    rewrite Nat2Z.id, lookup_total_app_r, length_blocks, Nat.sub_diag
      by (by rewrite length_blocks).
    replace (t =? 0) with false by lia. cbn [lookup_total list_lookup_total].
    apply list_lookup_total_correct. unfold padded.
    rewrite list_lookup_fmap, lookup_seqZ_lt by lia. cbn [fmap option_fmap option_map].
    rewrite !Z2Nat.id, Z.add_0_l by lia.
    replace (i - 16 * Z.of_nat n <? t) with true by lia. do 2 f_equal. lia.
Qed.

Lemma cbc_decrypt_encrypt E D iv bs :
  (forall s, is_block s -> is_block (E s) /\ D (E s) = s) ->
  is_block iv -> Forall is_block bs ->
  cbc_decrypt D iv (cbc_encrypt E iv bs) = bs.
Proof.
  intros HED Hiv Hbs. revert iv Hiv. induction Hbs as [|b bs Hb Hbs IH]; intros iv Hiv;
    simpl; [done|].
  assert (is_block (AddRoundKey iv b)) as Hx by by apply AddRoundKey_block.
  destruct (HED _ Hx) as [Hc ->]. rewrite AddRoundKey_invol by done. f_equal. by apply IH.
Qed.

(** [AES_cbc_encrypt] with [enc] set is cipher block chaining with AES: for
    every length it returns, the output holds the chained encryption of the
    input blocks, the incomplete last one padded with zeros, the vector holds
    the last cipher block, and no other byte of memory changes.  The output
    may be the input, overlap it from below or be apart from it. *)
Theorem cbc_encrypt_correct key m inp out len ivec :
  key_ok key -> mem_ok m -> 0 <= len -> buffers_ok inp out len ivec ->
  exists m',
    AES_cbc_encrypt m inp out len key ivec true = Some m' /\
    let cs := cbc_encrypt (aes_encrypt (rd_key key) (Z.to_nat (rounds key)))
                (read m ivec 16) (plain_blocks m inp len) in
    blocks m' out (Z.to_nat (nblocks len)) = cs /\
    read m' ivec 16 = last_block (read m ivec 16) cs /\
    (forall a, outside a out (16 * nblocks len) -> outside a ivec 16 -> m' a = m a).
Proof.
  intros Hk Hm Hlen Hb.
  destruct (cbc_enc_spec key (aes_encrypt (rd_key key) (Z.to_nat (rounds key))))
    with m inp out len ivec as (m' & E & _ & H); [|done..|by exists m'].
  intros s Hs. split; [by apply AES_encrypt_spec|by apply aes_encrypt_block].
Qed.

(** Memory whose byte [a] is [a mod 256]. *)
Definition ramp : mem := fun a => a mod 256.
Definition flat_key : AES_KEY := {| rd_key := replicate 60 0; rounds := 10 |}.

Lemma ramp_ok : mem_ok ramp.
Proof. intros a. by apply wrap_range. Qed.

Lemma flat_key_ok : key_ok flat_key.
Proof. split; [done|]. split; [apply Forall_replicate; by split|]. simpl. lia. Qed.

Lemma flat_buffers_ok : buffers_ok 0x1000 0x1000 37 0x2000.
Proof. unfold buffers_ok, disj. change (nblocks 37) with 3. lia. Qed.

Lemma cbc_encrypt_correct_witness :
  exists m',
    AES_cbc_encrypt ramp 0x1000 0x1000 37 flat_key 0x2000 true = Some m' /\
    let cs := cbc_encrypt (aes_encrypt (rd_key flat_key) (Z.to_nat (rounds flat_key)))
                (read ramp 0x2000 16) (plain_blocks ramp 0x1000 37) in
    blocks m' 0x1000 (Z.to_nat (nblocks 37)) = cs /\
    read m' 0x2000 16 = last_block (read ramp 0x2000 16) cs /\
    (forall a, outside a 0x1000 (16 * nblocks 37) -> outside a 0x2000 16 -> m' a = ramp a).
Proof.
  exact (cbc_encrypt_correct flat_key ramp 0x1000 0x1000 37 0x2000 flat_key_ok ramp_ok
           ltac:(done) flat_buffers_ok).
Defined.

(** C35: CBC decryption inverts CBC encryption: with the schedules made from one
    key, encrypting [len] bytes (any length), resetting the vector and
    decrypting the result restores the [len] input bytes; both calls return,
    also when they work in place. *)
Theorem cbc_roundtrip userKey Nk Nr key m inp out dst len ivec :
  key_size Nk Nr -> Forall byte userKey -> length userKey = (4 * Nk)%nat ->
  length (rd_key key) = 60%nat -> words32 (rd_key key) ->
  mem_ok m -> 0 <= len -> buffers_ok inp out len ivec -> buffers_ok out dst len ivec ->
  exists ke kd m1 m2,
    AES_set_encrypt_key (Some userKey) (32 * Z.of_nat Nk) (Some key) = Some (0, Some ke) /\
    AES_set_decrypt_key (Some userKey) (32 * Z.of_nat Nk) (Some key) = Some (0, Some kd) /\
    AES_cbc_encrypt m inp out len ke ivec true = Some m1 /\
    AES_cbc_encrypt (write m1 ivec (read m ivec 16)) out dst len kd ivec false = Some m2 /\
    forall i, 0 <= i < len -> m2 (dst + i) = m (inp + i).
Proof.
  intros Hn Hb _ Hl Hw Hm Hlen Hio Hod.
  destruct (set_decrypt_key_spec userKey Nk Nr key Hn Hb Hl Hw)
    as (ke & kd & Ee & (Hoke & Hre & _) & Ed & Hokd & Hrd & Hd).
  set (E := aes_encrypt (rd_key ke) Nr). set (D := aes_decrypt (rd_key ke) Nr).
  destruct (cbc_enc_spec ke E) with m inp out len ivec
    as (m1 & E1 & Hm1 & Hb1 & _ & Hf1); [|done..|].
  { intros s Hs. split; [|by apply aes_encrypt_block].
    by rewrite AES_encrypt_spec, Hre, Nat2Z.id by done. }
  set (iv := read m ivec 16) in *. assert (is_block iv) as Hiv by by apply read_block.
  destruct (cbc_dec_spec kd D) with (write m1 ivec iv) out dst len ivec
    as (m2 & E2 & Hb2 & _); [|by apply write_ok; [|apply Hiv]|done|done|].
  { intros s Hs. split; [by eapply AES_decrypt_schedule|].
    unfold D, aes_decrypt, EqInvCipher, inv_last_round.
    apply AddRoundKey_block; [auto with aes|]. apply InvShiftRows_block, SubBytes_block;
      [auto with aes|]. apply inv_rounds_block; [auto with aes|].
    apply Forall_map, Forall_rev. eapply Forall_impl; [apply round_keys_block|].
    intros k Hk. unfold InvMixColumns. simpl. auto with aes. }
  exists ke, kd, m1, m2. split_and!; [done..|]. intros i Hi. rewrite Hb2 by done.
  replace (read (write m1 ivec iv) ivec 16) with iv by (symmetry; apply (read_write m1 ivec iv)).
  replace (blocks (write m1 ivec iv) out (Z.to_nat (nblocks len))) with
    (blocks m1 out (Z.to_nat (nblocks len))).
  2:{ apply blocks_ext. intros a Ha. symmetry. apply write_out.
      rewrite (proj1 Hiv). assert (0 <= nblocks len) by (apply Z.div_pos; lia).
      destruct Hio as ([Hdj|Hdj] & _); unfold outside; lia. }
  rewrite Hb1, cbc_decrypt_encrypt; [by apply plain_blocks_byte|..|done|].
  - intros s Hs. split; [by apply aes_encrypt_block|by apply aes_decrypt_encrypt].
  - by apply plain_blocks_is_block.
Qed.

Lemma cbc_roundtrip_witness :
  exists ke kd m1 m2,
    AES_set_encrypt_key (Some (fips_key 32)) 256 (Some zero_key) = Some (0, Some ke) /\
    AES_set_decrypt_key (Some (fips_key 32)) 256 (Some zero_key) = Some (0, Some kd) /\
    AES_cbc_encrypt ramp 0x1000 0x1000 37 ke 0x2000 true = Some m1 /\
    AES_cbc_encrypt (write m1 0x2000 (read ramp 0x2000 16)) 0x1000 0x1000 37 kd 0x2000 false
      = Some m2 /\
    forall i, 0 <= i < 37 -> m2 (0x1000 + i) = ramp (0x1000 + i).
Proof.
  exact (cbc_roundtrip (fips_key 32) 8 14 zero_key ramp 0x1000 0x1000 0x1000 37 0x2000
           ltac:(right; right; done) (fips_key_bytes 32 ltac:(lia)) eq_refl eq_refl
           zero_key_words ramp_ok ltac:(done) flat_buffers_ok flat_buffers_ok).
Defined.

(** With an incomplete last block the two directions leave different
    vectors: encryption leaves the last cipher block in [ivec], decryption of
    that same block leaves the output of [AES_decrypt] there instead, so a
    decryption that continues after such a call uses another vector than the
    encryption did. *)
Theorem cbc_decrypt_tail_vector :
  match AES_cbc_encrypt ramp 0x1000 0x1000 5 flat_key 0x2000 true with
  | Some m1 =>
    match AES_cbc_encrypt (write m1 0x2000 (read ramp 0x2000 16)) 0x1000 0x1000 5
            flat_key 0x2000 false with
    | Some m2 =>
      read m1 0x2000 16 = read m1 0x1000 16 /\
      read m2 0x2000 16 <> read m1 0x2000 16
    | None => False
    end
  | None => False
  end.
Proof. vm_compute. by split. Qed.
