(* ===== verification/FlatView.v ===== *)
(** * Flat views of the memory topology ([qemu/softmmu/memory.c])

    A tree of memory regions with priorities is rendered into a sorted list of
    disjoint ranges, simplified, and compared with the previous view to tell
    the listeners what changed.  [Int128] values are integers: they stay far
    below 2^127 here; [int128_get64], whose assertion aborts the program when
    the value does not fit, is partial.  The theorems: the view serves every
    address from the region the tree gives it to (children before their
    parent, in list order), it is sorted, disjoint and within its allocation,
    simplification keeps all of that and leaves nothing to merge, and the two
    topology passes emit the difference of two views. *)

From S2P Require Import Prelude.

(** ** Address ranges *)

Record AddrRange := addrrange_make { ar_start : Z; ar_size : Z }.

#[global] Instance AddrRange_eq_dec : EqDecision AddrRange.
Proof. solve_decision. Defined.

Definition int128_2_64 : Z := 2 ^ 64.

(** [uint64_t r = a; assert(r == a)]. *)
Definition int128_get64 (a : Z) : option Z :=
  if (0 <=? a) && (a <? int128_2_64) then Some a else None.

Definition addrrange_equal (r1 r2 : AddrRange) : bool :=
  (ar_start r1 =? ar_start r2) && (ar_size r1 =? ar_size r2).

Definition addrrange_end (r : AddrRange) : Z := ar_start r + ar_size r.

Definition addrrange_contains (range : AddrRange) (addr : Z) : bool :=
  (ar_start range <=? addr) && (addr <? addrrange_end range).

Definition addrrange_intersects (r1 r2 : AddrRange) : bool :=
  addrrange_contains r1 (ar_start r2) || addrrange_contains r2 (ar_start r1).

Definition addrrange_intersection (r1 r2 : AddrRange) : AddrRange :=
  let start := Z.max (ar_start r1) (ar_start r2) in
  let end_ := Z.min (addrrange_end r1) (addrrange_end r2) in
  addrrange_make start (end_ - start).

(** ** Regions and views *)

(** A memory region: the pointer that identifies it, its offset in the
    container, its size and flags, and its subregions in list order (highest
    priority first). *)
Inductive MemoryRegion :=
  mk_region (mr : Z) (addr size : Z) (enabled terminates readonly : bool)
    (subregions : list MemoryRegion).

Record FlatRange := mk_flat {
  fr_mr : Z;
  offset_in_region : Z;
  fr_addr : AddrRange;
  fr_readonly : bool
}.

#[global] Instance FlatRange_eq_dec : EqDecision FlatRange.
Proof. solve_decision. Defined.

(** [nr] is the length of [ranges]. *)
Record FlatView := mk_view { ranges : list FlatRange; nr_allocated : Z }.

Definition nr (view : FlatView) : nat := length (ranges view).

Definition flatview_new : FlatView := mk_view [] 0.

Definition flatrange_equal (a b : FlatRange) : bool :=
  (fr_mr a =? fr_mr b) && addrrange_equal (fr_addr a) (fr_addr b) &&
  (offset_in_region a =? offset_in_region b) &&
  Bool.eqb (fr_readonly a) (fr_readonly b).

(** Grow the array when it is full, shift the tail, store the range. *)
Definition flatview_insert (view : FlatView) (pos : nat) (range : FlatRange) : FlatView :=
  let alloc := if Z.of_nat (nr view) =? nr_allocated view
               then Z.max (u32 (2 * Z.of_nat (nr view))) 10 else nr_allocated view in
  mk_view (take pos (ranges view) ++ range :: drop pos (ranges view)) alloc.

Definition can_merge (r1 r2 : FlatRange) : bool :=
  (addrrange_end (fr_addr r1) =? ar_start (fr_addr r2)) &&
  (fr_mr r1 =? fr_mr r2) &&
  (offset_in_region r1 + ar_size (fr_addr r1) =? offset_in_region r2) &&
  Bool.eqb (fr_readonly r1) (fr_readonly r2).

(** [view->ranges[i].addr.size += s]. *)
Definition add_size (i : nat) (s : Z) (l : list FlatRange) : list FlatRange :=
  alter (fun r => mk_flat (fr_mr r) (offset_in_region r)
    (addrrange_make (ar_start (fr_addr r)) (ar_size (fr_addr r) + s)) (fr_readonly r)) i l.

(** The inner loop of [flatview_simplify]. *)
Fixpoint merge_loop (fuel i j : nat) (l : list FlatRange) : option (nat * list FlatRange) :=
  match fuel with
  | O => None
  | S fuel =>
    match l !! (j - 1)%nat, l !! j with
    | Some r1, Some r2 =>
      if can_merge r1 r2
      then merge_loop fuel i (S j) (add_size i (ar_size (fr_addr r2)) l)
      else Some (j, l)
    | _, _ => Some (j, l)
    end
  end.

(** The outer loop; the [memmove] drops the entries from [i] to [j]. *)
Fixpoint simplify_loop (fuel i : nat) (l : list FlatRange) : option (list FlatRange) :=
  match fuel with
  | O => None
  | S fuel =>
    if (i <? length l)%nat then
      '(j, l) ← merge_loop (S (length l)) i (S i) l;
      let i := S i in
      simplify_loop fuel i (take i l ++ drop j l)
    else Some l
  end.

Definition flatview_simplify (view : FlatView) : option FlatView :=
  l ← simplify_loop (S (nr view)) 0 (ranges view);
  Some (mk_view l (nr_allocated view)).

(** The loop that renders a region into the gaps of the view. *)
Fixpoint render_loop (fuel : nat) (mr : Z) (readonly : bool) (view : FlatView) (i : nat)
    (base offset remain : Z) : option (FlatView * nat * Z * Z * Z) :=
  match fuel with
  | O => None
  | S fuel =>
    if ((i <? nr view)%nat && negb (remain =? 0))%bool then
      r ← ranges view !! i;
      if addrrange_end (fr_addr r) <=? base
      then render_loop fuel mr readonly view (S i) base offset remain
      else
        '(view, i, base, offset, remain) ←
          (if base <? ar_start (fr_addr r) then
             let now := Z.min remain (ar_start (fr_addr r) - base) in
             let view := flatview_insert view i
               (mk_flat mr offset (addrrange_make base now) readonly) in
             n ← int128_get64 now;
             Some (view, S i, base + now, u64 (offset + n), remain - now)
           else Some (view, i, base, offset, remain));
        r ← ranges view !! i;
        let now := Z.min (base + remain) (addrrange_end (fr_addr r)) - base in
        n ← int128_get64 now;
        render_loop fuel mr readonly view (S i) (base + now) (u64 (offset + n)) (remain - now)
    else Some (view, i, base, offset, remain)
  end.

(** [QTAILQ_FOREACH] with an effect that may abort. *)
Definition foreach {A B} (f : A -> B -> option B) : list A -> B -> option B :=
  fix go l b := match l with [] => Some b | x :: l => b ← f x b; go l b end.

(** [render_memory_region]: children first, then the region itself. *)
Fixpoint render_memory_region (region : MemoryRegion) (view : FlatView) (base : Z)
    (clip : AddrRange) (readonly : bool) : option FlatView :=
  let '(mk_region mr addr size enabled terminates ro subregions) := region in
  if negb enabled then Some view else
  let base := base + addr in
  let readonly := readonly || ro in
  let tmp := addrrange_make base size in
  if negb (addrrange_intersects tmp clip) then Some view else
  let clip := addrrange_intersection tmp clip in
  view ← foreach (fun subregion view =>
    render_memory_region subregion view base clip readonly) subregions view;
  if negb terminates then Some view else
  offset ← int128_get64 (ar_start clip - base);
  '(view, i, base, offset, remain) ←
    render_loop (S (nr view)) mr readonly view 0 (ar_start clip) offset (ar_size clip);
  if remain =? 0 then Some view
  else Some (flatview_insert view i (mk_flat mr offset (addrrange_make base remain) readonly)).

(** ** Roots, topologies and lookups *)

Definition is_enabled (region : MemoryRegion) : bool :=
  let '(mk_region _ _ _ enabled _ _ _) := region in enabled.
Definition mr_addr (region : MemoryRegion) : Z :=
  let '(mk_region _ addr _ _ _ _ _) := region in addr.
Definition mr_size (region : MemoryRegion) : Z :=
  let '(mk_region _ _ size _ _ _ _) := region in size.

(** The scan for an only enabled child: [found] counts the enabled children,
    [next] is the child to descend to. *)
Fixpoint only_child (size : Z) (subs : list MemoryRegion) (found : nat)
    (next : option MemoryRegion) : nat * option MemoryRegion :=
  match subs with
  | [] => (found, next)
  | child :: subs =>
    if is_enabled child then
      let found := S found in
      if (1 <? found)%nat then (found, None)
      else
        let next := if (mr_addr child =? 0) && (mr_size child <=? size)
                    then Some child else next in
        only_child size subs found next
    else only_child size subs found next
  end.

Fixpoint depth (region : MemoryRegion) : nat :=
  let '(mk_region _ _ _ _ _ _ subs) := region in
  S (foldr (fun s n => depth s `max` n)%nat 0%nat subs).

(** The [while (mr->enabled)] loop; the outer [None] is out of fuel. *)
Fixpoint flatview_root_loop (fuel : nat) (region : MemoryRegion)
    : option (option MemoryRegion) :=
  match fuel with
  | O => None
  | S fuel =>
    let '(mk_region mr addr size enabled terminates ro subs) := region in
    if negb enabled then Some None else
    if negb terminates then
      let '(found, next) := only_child size subs 0 None in
      if (found =? 0)%nat then Some None
      else match next with
           | Some child => flatview_root_loop fuel child
           | None => Some (Some region)
           end
    else Some (Some region)
  end.

Definition memory_region_get_flatview_root (region : MemoryRegion) : option MemoryRegion :=
  default None (flatview_root_loop (depth region) region).

(** The ranges of [generate_memory_topology]; the dispatch tables built from
    them are another component. *)
Definition generate_memory_topology (mr : option MemoryRegion) : option FlatView :=
  let view := flatview_new in
  view ← (match mr with
          | Some region =>
            render_memory_region region view 0 (addrrange_make 0 int128_2_64) false
          | None => Some view
          end);
  flatview_simplify view.

(** Events sent to the listeners of an address space. *)
Inductive listener_event :=
| region_del (fr : FlatRange)
| region_nop (fr : FlatRange)
| region_add (fr : FlatRange).

#[global] Instance listener_event_eq_dec : EqDecision listener_event.
Proof. solve_decision. Defined.

(** [address_space_update_topology_pass]: the events of one pass. *)
Fixpoint topology_pass (fuel : nat) (old new : list FlatRange) (iold inew : nat)
    (adding : bool) : option (list listener_event) :=
  match fuel with
  | O => None
  | S fuel =>
    match old !! iold, new !! inew with
    | None, None => Some []
    | Some frold, frnew =>
      let drop_old :=
        evs ← topology_pass fuel old new (S iold) inew adding;
        Some (if adding then evs else region_del frold :: evs) in
      match frnew with
      | None => drop_old
      | Some frnew =>
        if (ar_start (fr_addr frold) <? ar_start (fr_addr frnew)) ||
           ((ar_start (fr_addr frold) =? ar_start (fr_addr frnew)) &&
            negb (flatrange_equal frold frnew))
        then drop_old
        else if flatrange_equal frold frnew then
          evs ← topology_pass fuel old new (S iold) (S inew) adding;
          Some (if adding then region_nop frnew :: evs else evs)
        else
          evs ← topology_pass fuel old new iold (S inew) adding;
          Some (if adding then region_add frnew :: evs else evs)
      end
    | None, Some frnew =>
      evs ← topology_pass fuel old new iold (S inew) adding;
      Some (if adding then region_add frnew :: evs else evs)
    end
  end.

Definition address_space_update_topology_pass (old_view new_view : FlatView)
    (adding : bool) : option (list listener_event) :=
  topology_pass (S (nr old_view + nr new_view)) (ranges old_view) (ranges new_view)
    0 0 adding.

Definition cmp_flatrange_addr (addr : AddrRange) (fr : FlatRange) : Z :=
  if addrrange_end addr <=? ar_start (fr_addr fr) then -1
  else if addrrange_end (fr_addr fr) <=? ar_start addr then 1
  else 0.

(** The C library's [bsearch] over the indices [l] to [u]. *)
Fixpoint bsearch (fuel : nat) (cmp : FlatRange -> Z) (rs : list FlatRange) (l u : nat)
    : option nat :=
  match fuel with
  | O => None
  | S fuel =>
    if (l <? u)%nat then
      let idx := ((l + u) / 2)%nat in
      r ← rs !! idx;
      let c := cmp r in
      if c <? 0 then bsearch fuel cmp rs l idx
      else if 0 <? c then bsearch fuel cmp rs (S idx) u
      else Some idx
    else None
  end.

Definition flatview_lookup (view : FlatView) (addr : AddrRange) : option nat :=
  bsearch (S (nr view)) (cmp_flatrange_addr addr) (ranges view) 0 (nr view).

(** [while (fr > view->ranges && addrrange_intersects(fr[-1].addr, range)) --fr] *)
Fixpoint find_first (rs : list FlatRange) (range : AddrRange) (i : nat) : nat :=
  match i with
  | O => O
  | S i' =>
    match rs !! i' with
    | Some fr => if addrrange_intersects (fr_addr fr) range
                 then find_first rs range i' else i
    | None => i
    end
  end.

(** A section of the result: region, offset in it, absolute start and size. *)
Record MemoryRegionSection := mk_section {
  sec_mr : Z;
  offset_within_region : Z;
  sec_size : Z;
  offset_within_address_space : Z;
  sec_readonly : bool
}.

(** [memory_region_find_rcu] from the point where the view is known: [addr] is
    absolute; [None] is a section without a region. *)
Definition memory_region_find (view : FlatView) (addr size : Z)
    : option MemoryRegionSection :=
  let range := addrrange_make addr size in
  i ← flatview_lookup view range;
  fr ← ranges view !! find_first (ranges view) range i;
  let range := addrrange_intersection range (fr_addr fr) in
  d ← int128_get64 (ar_start range - ar_start (fr_addr fr));
  s ← int128_get64 (ar_start range);
  Some (mk_section (fr_mr fr) (u64 (offset_in_region fr + d)) (ar_size range) s
          (fr_readonly fr)).

(** ** Specification *)

Definition or_else {A} (x y : option A) : option A :=
  match x with Some _ => x | None => y end.

Definition first_some {A B} (f : A -> option B) : list A -> option B :=
  fix go l := match l with [] => None | x :: l => or_else (f x) (go l) end.

(** The answer for an address: region, offset in it, read-only. *)
Definition serves : Type := Z * Z * bool.

(** The region of the tree that serves address [a]: the first subregion that
    serves it, else the region itself if it is a leaf of the rendering. *)
Fixpoint resolve (region : MemoryRegion) (base : Z) (readonly : bool) (a : Z)
    : option serves :=
  let '(mk_region mr addr size enabled terminates ro subregions) := region in
  let base := base + addr in
  let readonly := readonly || ro in
  if enabled && addrrange_contains (addrrange_make base size) a then
    or_else (first_some (fun s => resolve s base readonly a) subregions)
      (if terminates then Some (mr, a - base, readonly) else None)
  else None.

(** The range of a list that holds address [a]. *)
Fixpoint view_lookup (l : list FlatRange) (a : Z) : option serves :=
  match l with
  | [] => None
  | r :: l =>
    if addrrange_contains (fr_addr r) a
    then Some (fr_mr r, offset_in_region r + (a - ar_start (fr_addr r)), fr_readonly r)
    else view_lookup l a
  end.

(** Ranges that are not empty, in order, without overlap, from [lo] on. *)
Fixpoint sorted_from (lo : Z) (l : list FlatRange) : Prop :=
  match l with
  | [] => True
  | r :: l =>
    lo <= ar_start (fr_addr r) /\ 0 < ar_size (fr_addr r) /\
    sorted_from (addrrange_end (fr_addr r)) l
  end.

(** A region tree of this program: sizes and offsets of 64 bits (a container
    may span all 2^64 addresses). *)
Fixpoint region_ok (region : MemoryRegion) : Prop :=
  let '(mk_region mr addr size enabled terminates ro subregions) := region in
  0 <= addr < 2 ^ 64 /\ 0 <= size <= 2 ^ 64 /\ (terminates = true -> size < 2 ^ 64) /\
  foldr (fun s P => region_ok s /\ P) True subregions.

(** Induction over the tree. *)
Lemma MemoryRegion_tree_ind (P : MemoryRegion -> Prop) :
  (forall mr addr size enabled terminates ro subs,
     Forall P subs -> P (mk_region mr addr size enabled terminates ro subs)) ->
  forall region, P region.
Proof.
  intros H. fix IH 1. intros [mr addr size enabled terminates ro subs]. apply H.
  induction subs as [|s subs IHs]; constructor; [apply IH|apply IHs].
Qed.

(** Sortedness of a concrete list. *)
Ltac sorted_tac := cbn; unfold addrrange_end; cbn; lia.

(** ** Ranges *)

Lemma contains_spec r a :
  addrrange_contains r a = true <-> ar_start r <= a < addrrange_end r.
Proof. unfold addrrange_contains. rewrite andb_true_iff, Z.leb_le, Z.ltb_lt. done. Qed.

Lemma contains_false r a :
  addrrange_contains r a = false <-> ~ (ar_start r <= a < addrrange_end r).
Proof. rewrite <- contains_spec. by destruct (addrrange_contains r a). Qed.

(** The intersection of two ranges that intersect. *)
Lemma intersection_contains r1 r2 a :
  addrrange_contains (addrrange_intersection r1 r2) a
  = addrrange_contains r1 a && addrrange_contains r2 a.
Proof.
  apply eq_true_iff_eq. rewrite andb_true_iff, !contains_spec.
  unfold addrrange_intersection, addrrange_end. simpl. lia.
Qed.

Lemma intersects_false r1 r2 a :
  0 <= ar_size r1 -> 0 <= ar_size r2 -> addrrange_intersects r1 r2 = false ->
  addrrange_contains r1 a && addrrange_contains r2 a = false.
Proof.
  intros H1 H2 H. apply orb_false_iff in H as [Ha%contains_false Hb%contains_false].
  apply andb_false_iff. rewrite !contains_false. unfold addrrange_end in *. lia.
Qed.

Lemma intersects_size r1 r2 :
  0 <= ar_size r1 -> 0 <= ar_size r2 -> addrrange_intersects r1 r2 = true ->
  0 <= ar_size (addrrange_intersection r1 r2).
Proof.
  intros H1 H2 H. apply orb_true_iff in H. rewrite !contains_spec in H.
  unfold addrrange_intersection, addrrange_end in *. simpl. lia.
Qed.

(** ** The rendering loop on lists *)

Definition gap (r : FlatRange) (base remain : Z) : Z :=
  Z.min remain (ar_start (fr_addr r) - base).

(** What the loop and the final insertion make of the ranges [l]. *)
Fixpoint fill (mr : Z) (ro : bool) (l : list FlatRange) (base off remain : Z)
    : list FlatRange :=
  match l with
  | [] => if remain =? 0 then [] else [mk_flat mr off (addrrange_make base remain) ro]
  | r :: l =>
    if remain =? 0 then r :: l else
    if addrrange_end (fr_addr r) <=? base then r :: fill mr ro l base off remain else
    let cover b o rem :=
      let now := Z.min (b + rem) (addrrange_end (fr_addr r)) - b in
      r :: fill mr ro l (b + now) (u64 (o + now)) (rem - now) in
    if base <? ar_start (fr_addr r) then
      let now := gap r base remain in
      mk_flat mr off (addrrange_make base now) ro ::
      cover (base + now) (u64 (off + now)) (remain - now)
    else cover base off remain
  end.

(** The insertion after the loop. *)
Definition render_end (mr : Z) (ro : bool) (res : FlatView * nat * Z * Z * Z) : FlatView :=
  let '(view, i, base, off, remain) := res in
  if remain =? 0 then view
  else flatview_insert view i (mk_flat mr off (addrrange_make base remain) ro).

Lemma get64_Some a : 0 <= a < 2 ^ 64 -> int128_get64 a = Some a.
Proof.
  intros Ha. unfold int128_get64, int128_2_64.
  by replace ((0 <=? a) && (a <? 2 ^ 64)) with true by lia.
Qed.

Lemma insert_ranges view pre post fr :
  ranges view = pre ++ post ->
  ranges (flatview_insert view (length pre) fr) = pre ++ fr :: post.
Proof.
  intros E. unfold flatview_insert. simpl. rewrite E, take_app_length, drop_app_length.
  done.
Qed.

Lemma fill_done mr ro l base off : fill mr ro l base off 0 = l.
Proof. by destruct l. Qed.

Lemma render_loop_fill mr ro post pre fuel view base off remain :
  (length post < fuel)%nat -> ranges view = pre ++ post -> 0 <= remain < 2 ^ 64 ->
  (forall r, r ∈ post -> 0 < ar_size (fr_addr r)) ->
  exists res,
    render_loop fuel mr ro view (length pre) base off remain = Some res /\
    ranges (render_end mr ro res) = pre ++ fill mr ro post base off remain.
Proof.
  revert pre fuel view base off remain.
  induction post as [|r post IH]; intros pre [|fuel] view base off remain Hf E Hrem Hpos;
    simpl in Hf; try lia; cbn [render_loop]; unfold nr at 1; rewrite E, length_app.
  - rewrite Nat.add_0_r, Nat.ltb_irrefl. eexists. split; [done|]. simpl.
    destruct (remain =? 0); [done|]. by apply insert_ranges.
  - cbn [length]. replace (length pre <? length pre + S (length post))%nat with true
      by (symmetry; apply Nat.ltb_lt; lia).
    destruct (remain =? 0) eqn:Er; cbn [andb negb].
    { eexists. split; [done|]. cbn [render_end]. rewrite Er. simpl. by rewrite Er. }
    bool_to_prop. rewrite list_lookup_middle by done. cbn [mbind option_bind fill].
    replace (remain =? 0) with false by lia.
    assert (0 < ar_size (fr_addr r)) as Hr by (apply Hpos; set_solver).
    assert (forall r', r' ∈ post -> 0 < ar_size (fr_addr r')) as Hpost
      by (intros; apply Hpos; set_solver).
    destruct (addrrange_end (fr_addr r) <=? base) eqn:Ee.
    { replace (S (length pre)) with (length (pre ++ [r])) by (rewrite length_app; simpl; lia).
      destruct (IH (pre ++ [r]) fuel view base off remain) as (res & -> & Hres);
        [lia|by rewrite <- app_assoc|lia|done|].
      eexists. split; [done|]. by rewrite Hres, <- app_assoc. }
    bool_to_prop. destruct (base <? ar_start (fr_addr r)) eqn:Eb; bool_to_prop.
    + fold (gap r base remain). set (now := gap r base remain).
      assert (0 < now <= remain /\ base + now <= ar_start (fr_addr r)) as Hnow
        by (unfold now, gap; lia).
      rewrite get64_Some by lia. cbn [mbind option_bind].
      set (view' := flatview_insert _ _ _).
      assert (ranges view' =
        (pre ++ [mk_flat mr off (addrrange_make base now) ro]) ++ r :: post) as E'.
      { unfold view'. rewrite (insert_ranges _ pre (r :: post)), <- app_assoc by done. done. }
      rewrite E'.
      replace (S (length pre)) with
        (length (pre ++ [mk_flat mr off (addrrange_make base now) ro]))
        by (rewrite length_app; simpl; lia).
      rewrite list_lookup_middle by done. cbn [mbind option_bind].
      set (now' := _ - (base + now)).
      assert (0 <= now' <= remain - now) as Hnow'
        by (unfold now', addrrange_end in *; lia).
      rewrite get64_Some by lia. cbn [mbind option_bind].
      set (pre' := pre ++ [_]) in *.
      replace (S (length pre')) with (length (pre' ++ [r])) by (rewrite length_app; simpl; lia).
      edestruct (IH (pre' ++ [r]) fuel view') as (res & -> & Hres);
        [lia|by rewrite <- app_assoc| |done|].
      2:{ eexists. split; [done|]. rewrite Hres. unfold pre'. by rewrite <- !app_assoc. }
      lia.
    + cbn [mbind option_bind]. rewrite E, list_lookup_middle by done.
      cbn [mbind option_bind].
      set (now := _ - base).
      assert (0 <= now <= remain) as Hnow by (unfold now, addrrange_end in *; lia).
      rewrite get64_Some by lia. cbn [mbind option_bind].
      replace (S (length pre)) with (length (pre ++ [r])) by (rewrite length_app; simpl; lia).
      edestruct (IH (pre ++ [r]) fuel view) as (res & -> & Hres);
        [lia|by rewrite <- app_assoc| |done|].
      2:{ eexists. split; [done|]. rewrite Hres. by rewrite <- !app_assoc. }
      lia.
Qed.

Lemma lookup_below lo l a : sorted_from lo l -> a < lo -> view_lookup l a = None.
Proof.
  revert lo. induction l as [|r l IH]; intros lo Hs Ha; simpl in *; [done|].
  destruct Hs as (Hlo & Hpos & Hs).
  replace (addrrange_contains (fr_addr r) a) with false
    by (symmetry; apply contains_false; lia).
  apply (IH (addrrange_end (fr_addr r))); [done|]. unfold addrrange_end. lia.
Qed.

Lemma sorted_from_le lo lo' l : lo' <= lo -> sorted_from lo l -> sorted_from lo' l.
Proof. destruct l; simpl; [done|]. intros ? (? & ?). split; [lia|done]. Qed.

Lemma sorted_from_pos lo l r : sorted_from lo l -> r ∈ l -> 0 < ar_size (fr_addr r).
Proof.
  revert lo. induction l as [|r' l IH]; intros lo Hs Hr; [by apply not_elem_of_nil in Hr|].
  destruct Hs as (_ & Hp & Hs). apply elem_of_cons in Hr as [-> |Hr]; eauto.
Qed.

Lemma u64_step off n :
  0 <= off -> 0 <= n -> off + n <= 2 ^ 64 ->
  u64 (off + n) = off + n \/ off + n = 2 ^ 64 /\ u64 (off + n) = 0.
Proof.
  intros H0 Hn Hle. destruct (decide (off + n < 2 ^ 64)).
  - left. apply wrap_id. unfold uint. lia.
  - right. assert (off + n = 2 ^ 64) as -> by lia. done.
Qed.

(** The filled list serves what the ranges served, and the region serves the
    rest of [base, base + remain). *)
Definition fills (mr : Z) (ro : bool) (base off remain a : Z) : option serves :=
  if (base <=? a) && (a <? base + remain) then Some (mr, off + (a - base), ro) else None.

(** The ranges [F] made of [l], from [lo] on, as [fill] should make them. *)
Definition filled (mr : Z) (ro : bool) (l : list FlatRange) (lo base off remain : Z)
    (F : list FlatRange) : Prop :=
  (lo <= base -> sorted_from lo F) /\
  forall a, view_lookup F a = or_else (view_lookup l a) (fills mr ro base off remain a).

Lemma contains_cases r a :
  addrrange_contains r a = true /\ ar_start r <= a < addrrange_end r \/
  addrrange_contains r a = false /\ (a < ar_start r \/ addrrange_end r <= a).
Proof.
  destruct (addrrange_contains r a) eqn:E; [left; by apply contains_spec in E|].
  apply contains_false in E. right. lia.
Qed.

(** The offset after a gap: exact unless nothing is left to render. *)
Lemma gap_offset off now remain :
  0 <= off -> 0 <= now <= remain -> off + remain <= 2 ^ 64 ->
  0 <= u64 (off + now) /\ u64 (off + now) + (remain - now) <= 2 ^ 64 /\
  (remain - now = 0 \/ u64 (off + now) = off + now).
Proof. intros H0 Hn Hle. destruct (u64_step off now) as [E|[E E']]; lia. Qed.

(** Past the gap, the same addresses are left to serve. *)
Lemma fills_rest mr ro base off now remain a :
  0 <= now <= remain -> a < base \/ base + now <= a ->
  remain - now = 0 \/ u64 (off + now) = off + now ->
  or_else None (fills mr ro (base + now) (u64 (off + now)) (remain - now) a)
  = or_else None (fills mr ro base off remain a).
Proof.
  intros Hn Ha Hof. unfold or_else, fills. repeat case_if; try lia; [|done].
  destruct Hof as [?| ->]; [lia|]. do 3 f_equal. lia.
Qed.

(** The part of the loop body that moves past the range [r]. *)
Lemma cover_spec mr ro r l base off remain :
  0 < ar_size (fr_addr r) -> sorted_from (addrrange_end (fr_addr r)) l ->
  base < addrrange_end (fr_addr r) -> ar_start (fr_addr r) <= base \/ remain = 0 ->
  0 <= remain -> 0 <= off -> off + remain <= 2 ^ 64 ->
  (forall base off remain, 0 <= remain -> 0 <= off -> off + remain <= 2 ^ 64 ->
     filled mr ro l (addrrange_end (fr_addr r)) base off remain (fill mr ro l base off remain)) ->
  let now := Z.min (base + remain) (addrrange_end (fr_addr r)) - base in
  let F := r :: fill mr ro l (base + now) (u64 (off + now)) (remain - now) in
  sorted_from (ar_start (fr_addr r)) F /\
  forall a, view_lookup F a = or_else (view_lookup (r :: l) a) (fills mr ro base off remain a).
Proof.
  intros Hpos Hs Hb Hc Hrem Hoff Hle IH now F.
  assert (0 <= now <= remain) as Hnow by (unfold now; lia).
  destruct (decide (remain - now = 0)) as [E0|E0].
  - unfold F. rewrite E0, fill_done. split; [split; [lia|done]|]. intros a.
    destruct (view_lookup (r :: l) a) eqn:El; [done|]. simpl in El |- *.
    destruct (contains_cases (fr_addr r) a) as [[E Ha]|[E Ha]]; rewrite E in *; [done|].
    unfold fills. case_if; [lia|done].
  - unfold F. assert (u64 (off + now) = off + now) as -> by (apply wrap_id; unfold uint; lia).
    destruct (IH (base + now) (off + now) (remain - now)) as [Hs' Hl']; [lia..|].
    split; [split; [lia|split; [done|apply Hs'; lia]]|]. intros a. simpl. rewrite Hl'.
    destruct (contains_cases (fr_addr r) a) as [[-> Ha]|[-> Ha]]; [done|].
    destruct (view_lookup l a) eqn:El; [done|]. unfold fills. simpl.
    repeat case_if; try lia; [|done]. do 3 f_equal. lia.
Qed.

Lemma fill_spec mr ro l lo base off remain :
  sorted_from lo l -> 0 <= remain -> 0 <= off -> off + remain <= 2 ^ 64 ->
  filled mr ro l lo base off remain (fill mr ro l base off remain).
Proof.
  unfold filled. revert lo base off remain.
  induction l as [|r l IH]; intros lo base off remain Hs Hrem Hoff Hle.
  { simpl. unfold fills, addrrange_contains, addrrange_end.
    destruct (remain =? 0) eqn:Er; bool_to_prop; simpl; (split; [intros; repeat split; lia|]);
      intros a; simpl; [case_if; [lia|done]|done]. }
  pose proof Hs as (Hlo & Hpos & Hs'). cbn [fill].
  destruct (remain =? 0) eqn:Er; bool_to_prop.
  { subst remain. split; [done|]. intros a. unfold fills, or_else.
    destruct (view_lookup (r :: l) a); [done|]. case_if; [lia|done]. }
  destruct (addrrange_end (fr_addr r) <=? base) eqn:Ee; bool_to_prop.
  { destruct (IH (addrrange_end (fr_addr r)) base off remain) as [Hs1 Hl1]; [done..|].
    split; [intros; simpl; by auto|]. intros a. simpl. rewrite Hl1.
    by destruct (addrrange_contains _ _). }
  destruct (base <? ar_start (fr_addr r)) eqn:Eb; bool_to_prop; cbv zeta.
  - set (now := gap r base remain).
    assert (now = Z.min remain (ar_start (fr_addr r) - base)) as Enow by done. clearbody now.
    destruct (gap_offset off now remain) as (Ho0 & Ho1 & Hof); [lia..|].
    destruct (cover_spec mr ro r l (base + now) (u64 (off + now)) (remain - now))
      as [Hs1 Hl1]; [done|done|unfold addrrange_end; lia|lia..|intros; by apply IH|].
    split; [intros; split; [done|split; [simpl; lia|]]; eapply sorted_from_le, Hs1;
      unfold addrrange_end; simpl; lia|].
    intros a. cbn [view_lookup]. cbn [view_lookup] in Hl1. rewrite Hl1. simpl.
    destruct (contains_cases (addrrange_make base now) a) as [[-> Ha]|[-> Ha]];
      unfold addrrange_end in Ha; simpl in Ha.
    + replace (addrrange_contains (fr_addr r) a) with false
        by (symmetry; apply contains_false; lia).
      rewrite (lookup_below _ _ _ Hs') by (unfold addrrange_end; lia).
      unfold fills. simpl. case_if; [done|lia].
    + destruct (addrrange_contains (fr_addr r) a); [done|].
      destruct (view_lookup l a); [done|]. apply fills_rest; [lia|lia|done].
  - destruct (cover_spec mr ro r l base off remain) as [Hs1 Hl1];
      [auto..|intros; by apply IH|].
    split; [|done]. intros. eapply sorted_from_le, Hs1. lia.
Qed.

(** ** Rendering a tree *)

(** [view'] serves what [view] serves and, below it, what [f] gives. *)
Definition extends (view view' : FlatView) (f : Z -> option serves) : Prop :=
  sorted_from 0 (ranges view') /\
  forall a, view_lookup (ranges view') a = or_else (view_lookup (ranges view) a) (f a).

Lemma extends_trans v1 v2 v3 f g :
  extends v1 v2 f -> extends v2 v3 g -> extends v1 v3 (fun a => or_else (f a) (g a)).
Proof.
  intros [_ H1] [Hs H2]. split; [done|]. intros a. rewrite H2, H1.
  by destruct (view_lookup _ a), (f a).
Qed.

Lemma extends_nothing v f :
  sorted_from 0 (ranges v) -> (forall a, f a = None) -> extends v v f.
Proof. intros Hs Hf. split; [done|]. intros a. rewrite Hf. by destruct (view_lookup _ a). Qed.

Lemma extends_ext v v' f g :
  (forall a, f a = g a) -> extends v v' f -> extends v v' g.
Proof. intros E [Hs Hl]. split; [done|]. intros a. by rewrite <- E. Qed.

(** Rendering one leaf. *)
Lemma render_leaf mr ro view clip base offset :
  sorted_from 0 (ranges view) -> 0 <= ar_start clip -> 0 <= ar_size clip < 2 ^ 64 ->
  0 <= offset -> offset + ar_size clip <= 2 ^ 64 -> ar_start clip - base = offset ->
  exists res,
    render_loop (S (nr view)) mr ro view 0 (ar_start clip) offset (ar_size clip) = Some res /\
    extends view (render_end mr ro res)
      (fun a => if addrrange_contains clip a then Some (mr, a - base, ro) else None).
Proof.
  intros Hs Hst Hsz Hoff Hle Eo.
  destruct (render_loop_fill mr ro (ranges view) [] (S (nr view)) view (ar_start clip)
    offset (ar_size clip)) as (res & E & Hr); [unfold nr; lia|done|lia| |].
  { intros r Hin. by eapply sorted_from_pos. }
  exists res. split; [done|]. simpl in Hr.
  destruct (fill_spec mr ro (ranges view) 0 (ar_start clip) offset (ar_size clip))
    as [Hf Hl]; [done|lia..|].
  split; rewrite Hr; [auto|]. intros a. rewrite Hl. f_equal. unfold fills.
  destruct (contains_cases clip a) as [[-> Ha]|[-> Ha]]; unfold addrrange_end in Ha.
  - case_if; [do 3 f_equal; lia|lia].
  - case_if; [lia|done].
Qed.

Lemma foreach_extends {A} (f : A -> FlatView -> option FlatView) (g : A -> Z -> option serves)
    l view :
  sorted_from 0 (ranges view) ->
  Forall (fun x => forall view, sorted_from 0 (ranges view) ->
    exists view', f x view = Some view' /\ extends view view' (g x)) l ->
  exists view', foreach f l view = Some view' /\
    extends view view' (fun a => first_some (fun x => g x a) l).
Proof.
  intros Hs Hl. revert view Hs. induction Hl as [|x l Hx Hl IH]; intros view Hs; simpl.
  { exists view. split; [done|]. by apply extends_nothing. }
  destruct (Hx view Hs) as (v1 & -> & H1). simpl.
  destruct (IH v1) as (v2 & -> & H2); [apply H1|]. exists v2. split; [done|].
  by eapply extends_trans.
Qed.

Lemma region_ok_subs subs :
  foldr (fun s P => region_ok s /\ P) True subs <-> Forall region_ok subs.
Proof.
  induction subs as [|s subs IH]; simpl; [done|]. rewrite IH, Forall_cons. done.
Qed.

Lemma first_some_None {A B} (l : list A) : first_some (fun _ => @None B) l = None.
Proof. by induction l. Qed.

Lemma render_memory_region_ok region :
  region_ok region ->
  forall view base clip ro,
    sorted_from 0 (ranges view) -> 0 <= base -> 0 <= ar_start clip -> 0 <= ar_size clip ->
    exists view',
      render_memory_region region view base clip ro = Some view' /\
      extends view view'
        (fun a => if addrrange_contains clip a then resolve region base ro a else None).
Proof.
  induction region as [mr addr size enabled terminates ro0 subs IH]
    using MemoryRegion_tree_ind.
  intros (Ha & Hsz & Ht & Hsub%region_ok_subs) view base clip ro Hs Hb Hc Hcs.
  cbn [render_memory_region resolve].
  destruct enabled; cbn [negb andb].
  2:{ exists view. split; [done|]. apply extends_nothing; [done|]. intros a. by case_if. }
  set (tmp := addrrange_make (base + addr) size). set (ro' := ro || ro0).
  destruct (addrrange_intersects tmp clip) eqn:Ei; cbn [negb].
  2:{ exists view. split; [done|]. apply extends_nothing; [done|]. intros a.
      pose proof (intersects_false tmp clip a ltac:(simpl; lia) Hcs Ei) as E.
      apply andb_false_iff in E as [-> | ->]; [by case_if|done]. }
  set (clip' := addrrange_intersection tmp clip).
  assert (0 <= ar_size clip') as Hc' by (apply intersects_size; simpl; done || lia).
  assert (0 <= ar_start clip' - (base + addr) /\
    ar_start clip' - (base + addr) + ar_size clip' <= size) as Hoff
    by (unfold clip', addrrange_intersection, addrrange_end; simpl; lia).
  destruct (foreach_extends
    (fun s view => render_memory_region s view (base + addr) clip' ro')
    (fun s a => if addrrange_contains clip' a then resolve s (base + addr) ro' a else None)
    subs view) as (v1 & -> & H1); [done| |].
  { apply Forall_forall. intros s Hin v Hv. rewrite Forall_forall in IH, Hsub.
    apply IH; auto with lia. }
  cbn [mbind option_bind].
  assert (forall a, addrrange_contains clip' a
    = addrrange_contains tmp a && addrrange_contains clip a) as Ec
    by (intros; apply intersection_contains).
  assert (forall a, first_some (fun s => if addrrange_contains clip' a
      then resolve s (base + addr) ro' a else None) subs
    = if addrrange_contains clip' a
      then first_some (fun s => resolve s (base + addr) ro' a) subs else None) as Ef.
  { intros a. case_if; [done|apply first_some_None]. }
  destruct terminates; cbn [negb].
  - rewrite get64_Some by lia. cbn [mbind option_bind].
    destruct (render_leaf mr ro' v1 clip' (base + addr) (ar_start clip' - (base + addr)))
      as (res & -> & H2); [apply H1|lia|lia|lia|lia|done|].
    cbn [mbind option_bind]. exists (render_end mr ro' res). split.
    { destruct res as [[[[? ?] ?] ?] ?]. simpl. by case_if. }
    eapply extends_ext, extends_trans, H2; [|exact H1]. intros a. cbv beta.
    rewrite Ef, Ec. by destruct (addrrange_contains tmp a), (addrrange_contains clip a).
  - exists v1. split; [done|]. eapply extends_ext, H1. intros a. cbv beta. rewrite Ef, Ec.
    destruct (addrrange_contains tmp a), (addrrange_contains clip a); simpl; try done.
    by destruct (first_some _ _).
Qed.

(** ** Simplification *)

Definition grow (r : FlatRange) (s : Z) : FlatRange :=
  mk_flat (fr_mr r) (offset_in_region r)
    (addrrange_make (ar_start (fr_addr r)) (ar_size (fr_addr r) + s)) (fr_readonly r).

(** The run of ranges merged into [acc]; [prev] is the last one merged. *)
Fixpoint absorb (acc prev : FlatRange) (l : list FlatRange) : FlatRange * list FlatRange :=
  match l with
  | x :: l' =>
    if can_merge prev x then absorb (grow acc (ar_size (fr_addr x))) x l' else (acc, l)
  | [] => (acc, [])
  end.

Fixpoint simp (fuel : nat) (l : list FlatRange) : list FlatRange :=
  match fuel, l with
  | S fuel, r :: l => let '(r', rest) := absorb r r l in r' :: simp fuel rest
  | _, _ => []
  end.

Lemma add_size_middle pre acc post s :
  add_size (length pre) s (pre ++ acc :: post) = pre ++ grow acc s :: post.
Proof. unfold add_size. by rewrite alter_app_r_alt, Nat.sub_diag by lia. Qed.

Lemma merge_loop_absorb post fuel pre acc mid prev :
  (length post < fuel)%nat -> last (acc :: mid) = Some prev ->
  exists mid',
    let '(acc', rest) := absorb acc prev post in
    merge_loop fuel (length pre) (length pre + 1 + length mid)%nat
      (pre ++ acc :: mid ++ post)
    = Some ((length pre + 1 + length mid')%nat, pre ++ acc' :: mid' ++ rest).
Proof.
  revert fuel acc mid prev.
  induction post as [|x post IH]; intros [|fuel] acc mid prev Hf Hprev; simpl in Hf; try lia;
    cbn [merge_loop absorb];
    assert ((pre ++ acc :: mid) !! (length pre + 1 + length mid - 1)%nat = Some prev) as E1
      by (rewrite <- Hprev, lookup_app_r, last_lookup by lia; f_equal; simpl; lia).
  - exists mid. rewrite app_nil_r.
    replace ((pre ++ acc :: mid) !! (length pre + 1 + length mid)%nat) with (@None FlatRange).
    { by rewrite E1. }
    symmetry. apply lookup_ge_None. rewrite length_app. simpl. lia.
  - replace (pre ++ acc :: mid ++ x :: post) with ((pre ++ acc :: mid) ++ x :: post)
      by by rewrite <- app_assoc.
    rewrite lookup_app_l by (rewrite length_app; simpl; lia). rewrite E1.
    rewrite list_lookup_middle by (rewrite length_app; simpl; lia).
    destruct (can_merge prev x) eqn:Em.
    + destruct (IH fuel (grow acc (ar_size (fr_addr x))) (mid ++ [x]) x) as [mid' Hm];
        [lia|by rewrite app_comm_cons, last_snoc|].
      exists mid'. destruct (absorb _ x post) as [acc' rest]. rewrite <- Hm.
      rewrite <- app_assoc. simpl. rewrite add_size_middle, length_app. simpl.
      rewrite <- app_assoc. simpl. f_equal. lia.
    + exists mid. by rewrite <- app_assoc.
Qed.

Lemma absorb_length acc prev l : (length (snd (absorb acc prev l)) <= length l)%nat.
Proof.
  revert acc prev. induction l as [|x l IH]; intros acc prev; simpl; [lia|].
  case_if; [|simpl; lia]. etransitivity; [apply IH|]. lia.
Qed.

Lemma simplify_loop_simp fuel pre post :
  (length post < fuel)%nat ->
  simplify_loop fuel (length pre) (pre ++ post) = Some (pre ++ simp fuel post).
Proof.
  revert pre post. induction fuel as [|fuel IH]; intros pre post Hf; [lia|].
  cbn [simplify_loop]. rewrite length_app. destruct post as [|r post]; simpl in Hf |- *.
  { rewrite Nat.add_0_r, Nat.ltb_irrefl. done. }
  replace (length pre <? length pre + S (length post))%nat with true
    by (symmetry; apply Nat.ltb_lt; lia).
  destruct (merge_loop_absorb post (S (length pre + S (length post))) pre r [] r)
    as [mid' Hm]; [lia|done|].
  pose proof (absorb_length r r post) as Hlen.
  destruct (absorb r r post) as [r' rest]. simpl in Hm, Hlen.
  replace (length pre + 1 + 0)%nat with (S (length pre)) in Hm by lia.
  simpl in Hm |- *. rewrite Hm. cbn [mbind option_bind].
  replace (pre ++ r' :: mid' ++ rest) with ((pre ++ [r']) ++ mid' ++ rest)
    by by rewrite <- app_assoc.
  rewrite take_app_length' by (rewrite length_app; simpl; lia).
  rewrite app_assoc, drop_app_length' by (rewrite !length_app; simpl; lia).
  replace (S (length pre)) with (length (pre ++ [r'])) by (rewrite length_app; simpl; lia).
  rewrite IH by lia. by rewrite <- app_assoc.
Qed.

(** Nothing to merge in a list that follows [prev]. *)
Fixpoint unmergeable (prev : FlatRange) (l : list FlatRange) : Prop :=
  match l with
  | [] => True
  | x :: l => can_merge prev x = false /\ unmergeable x l
  end.

(** [prev] is the last part of [acc]. *)
Definition tail_of (acc prev : FlatRange) : Prop :=
  addrrange_end (fr_addr acc) = addrrange_end (fr_addr prev) /\
  offset_in_region acc + ar_size (fr_addr acc)
    = offset_in_region prev + ar_size (fr_addr prev) /\
  fr_mr acc = fr_mr prev /\ fr_readonly acc = fr_readonly prev.

Lemma can_merge_spec r1 r2 :
  can_merge r1 r2 = true <->
  addrrange_end (fr_addr r1) = ar_start (fr_addr r2) /\ fr_mr r1 = fr_mr r2 /\
  offset_in_region r1 + ar_size (fr_addr r1) = offset_in_region r2 /\
  fr_readonly r1 = fr_readonly r2.
Proof.
  unfold can_merge. rewrite !andb_true_iff, !Z.eqb_eq, Bool.eqb_true_iff. tauto.
Qed.

(** Merging depends only on the end of the left range and the start of the
    right one. *)
Lemma can_merge_ext r1 r1' r2 r2' :
  tail_of r1 r1' -> ar_start (fr_addr r2) = ar_start (fr_addr r2') ->
  offset_in_region r2 = offset_in_region r2' -> fr_mr r2 = fr_mr r2' ->
  fr_readonly r2 = fr_readonly r2' -> can_merge r1 r2 = can_merge r1' r2'.
Proof.
  intros (E1 & E2 & E3 & E4) E5 E6 E7 E8. apply eq_true_iff_eq.
  rewrite !can_merge_spec, E1, E2, E3, E4, E5, E6, E7, E8. done.
Qed.

(** The range [r'] starts as [r] does. *)
Definition head_of (r' r : FlatRange) : Prop :=
  ar_start (fr_addr r') = ar_start (fr_addr r) /\
  offset_in_region r' = offset_in_region r /\ fr_mr r' = fr_mr r /\
  fr_readonly r' = fr_readonly r.

Lemma absorb_spec l acc prev :
  tail_of acc prev -> 0 < ar_size (fr_addr acc) ->
  sorted_from (addrrange_end (fr_addr acc)) l ->
  let '(acc', rest) := absorb acc prev l in
  head_of acc' acc /\ 0 < ar_size (fr_addr acc') /\
  sorted_from (addrrange_end (fr_addr acc')) rest /\
  match rest with x :: _ => can_merge acc' x = false | [] => True end /\
  forall a, view_lookup (acc' :: rest) a = view_lookup (acc :: l) a.
Proof.
  revert acc prev. induction l as [|x l IH]; intros acc prev Ht Hp Hs; cbn [absorb];
    [by repeat split|].
  destruct Hs as (Hlo & Hx & Hs). destruct (can_merge prev x) eqn:Em.
  - apply can_merge_spec in Em as (E1 & E2 & E3 & E4). destruct Ht as (T1 & T2 & T3 & T4).
    unfold addrrange_end in *.
    specialize (IH (grow acc (ar_size (fr_addr x))) x).
    destruct (absorb _ x l) as [acc' rest].
    destruct IH as (Hh & Hp' & Hs' & Hm & Hl).
    + repeat split; simpl; unfold addrrange_end; simpl; congruence || lia.
    + simpl. lia.
    + unfold addrrange_end. simpl. eapply sorted_from_le, Hs. lia.
    + split; [exact Hh|]. split; [done|]. split; [done|]. split; [done|].
      intros a. rewrite Hl. simpl. rewrite T3, E2, T4, E4.
      destruct (contains_cases (fr_addr acc) a) as [[C1 Ha]|[C1 Ha]];
      destruct (contains_cases (fr_addr x) a) as [[C2 Hb]|[C2 Hb]];
      destruct (contains_cases (addrrange_make (ar_start (fr_addr acc))
         (ar_size (fr_addr acc) + ar_size (fr_addr x))) a) as [[C3 Hc]|[C3 Hc]];
      rewrite ?C1, ?C2, ?C3; unfold addrrange_end in *; simpl in *; try lia; try done.
      do 3 f_equal. lia.
  - split; [by repeat split|]. split; [done|]. split; [by repeat split|]. split; [|done].
    by rewrite (can_merge_ext acc prev x x).
Qed.

Lemma simp_spec fuel l lo :
  (length l < fuel)%nat -> sorted_from lo l ->
  sorted_from lo (simp fuel l) /\
  (forall a, view_lookup (simp fuel l) a = view_lookup l a) /\
  match simp fuel l with
  | [] => l = []
  | r :: l' => unmergeable r l' /\ exists x l0, l = x :: l0 /\ head_of r x
  end.
Proof.
  revert l lo. induction fuel as [|fuel IH]; intros l lo Hf Hs; [lia|].
  destruct l as [|r l]; [done|]. simpl in Hf |- *. destruct Hs as (Hlo & Hp & Hs).
  pose proof (absorb_length r r l) as Hlen.
  pose proof (absorb_spec l r r ltac:(by repeat split) Hp Hs) as Ha.
  destruct (absorb r r l) as [r' rest]. destruct Ha as ((H1 & H2) & Hp' & Hs' & Hm & Hl).
  simpl in Hlen. destruct (IH rest (addrrange_end (fr_addr r'))) as (Ss & Sl & Su);
    [lia|done|].
  split; [|split].
  - split; [lia|]. split; done.
  - intros a. transitivity (view_lookup (r' :: rest) a); [simpl; by rewrite Sl|apply Hl].
  - split; [|by exists r, l]. destruct (simp fuel rest) as [|y l']; [done|].
    destruct Su as (Su & x & l0 & -> & Hx & Hx1 & Hx2 & Hx3). split; [|done].
    rewrite <- Hm. by apply can_merge_ext.
Qed.

Lemma flatview_simplify_ok view :
  sorted_from 0 (ranges view) ->
  exists view', flatview_simplify view = Some view' /\
    sorted_from 0 (ranges view') /\
    (forall a, view_lookup (ranges view') a = view_lookup (ranges view) a) /\
    (forall r l, ranges view' = r :: l -> unmergeable r l).
Proof.
  intros Hs. unfold flatview_simplify.
  assert (simplify_loop (S (nr view)) 0 (ranges view)
    = Some (simp (S (nr view)) (ranges view))) as ->
    by (apply (simplify_loop_simp (S (nr view)) [] (ranges view)); unfold nr; lia).
  eexists. split; [done|]. cbn [ranges app].
  destruct (simp_spec (S (nr view)) (ranges view) 0) as (H1 & H2 & H3); [unfold nr; lia|done|].
  split; [done|]. split; [done|]. intros r l El. rewrite El in H3. apply H3.
Qed.

(** ** Topology passes *)

Lemma addrrange_equal_spec r1 r2 : addrrange_equal r1 r2 = true <-> r1 = r2.
Proof.
  unfold addrrange_equal. rewrite andb_true_iff, !Z.eqb_eq.
  destruct r1, r2; simpl. split; [by intros [-> ->]|]. by intros [= -> ->].
Qed.

Lemma flatrange_equal_spec a b : flatrange_equal a b = true <-> a = b.
Proof.
  unfold flatrange_equal.
  rewrite !andb_true_iff, !Z.eqb_eq, Bool.eqb_true_iff, addrrange_equal_spec.
  destruct a, b; simpl. split; [by intros [[[-> ->] ->] ->]|]. by intros [= -> -> -> ->].
Qed.

(** A range that starts before a sorted list is not in it. *)
Lemma sorted_notin lo l r : sorted_from lo l -> ar_start (fr_addr r) < lo -> r ∉ l.
Proof.
  revert lo. induction l as [|x l IH]; intros lo Hs Hr; [apply not_elem_of_nil|].
  destruct Hs as (Hlo & Hp & Hs). apply not_elem_of_cons. split; [intros ->; lia|].
  apply (IH _ Hs). unfold addrrange_end. lia.
Qed.

Lemma sorted_tail lo r l :
  sorted_from lo (r :: l) -> sorted_from (ar_start (fr_addr r) + 1) l.
Proof.
  intros (_ & Hp & Hs). eapply sorted_from_le, Hs. unfold addrrange_end. lia.
Qed.

Lemma sorted_head_notin lo x l r :
  sorted_from lo (x :: l) -> ar_start (fr_addr r) <= ar_start (fr_addr x) -> r <> x ->
  r ∉ x :: l.
Proof.
  intros Hs Hr Hne. apply not_elem_of_cons. split; [done|].
  eapply sorted_notin; [by eapply sorted_tail|]. lia.
Qed.

(** What a pass should emit. *)
Definition pass_events (old new : list FlatRange) (adding : bool) : list listener_event :=
  if adding
  then map (fun r => if decide (r ∈ old) then region_nop r else region_add r) new
  else map region_del (filter (fun r => r ∉ new) old).

Lemma pass_events_del old new adding r :
  sorted_from (ar_start (fr_addr r) + 1) old -> r ∉ new ->
  pass_events (r :: old) new adding =
  (if adding then pass_events old new adding else region_del r :: pass_events old new adding).
Proof.
  intros Hs Hr. unfold pass_events. destruct adding.
  - apply map_ext_in. intros x Hx%list_elem_of_In.
    assert (x <> r) by (by intros ->).
    do 2 case_decide; try done; set_solver.
  - by rewrite filter_cons_True.
Qed.

Lemma pass_events_add old new adding r :
  r ∉ old ->
  pass_events old (r :: new) adding =
  (if adding then region_add r :: pass_events old new adding else pass_events old new adding).
Proof.
  intros Hr. unfold pass_events. destruct adding; simpl.
  - by rewrite decide_False.
  - f_equal. apply list_filter_iff_in. intros x Hx. rewrite not_elem_of_cons.
    split; [tauto|]. intros ?. split; [by intros ->|done].
Qed.

Lemma pass_events_nop old new adding r :
  sorted_from (ar_start (fr_addr r) + 1) old -> sorted_from (ar_start (fr_addr r) + 1) new ->
  pass_events (r :: old) (r :: new) adding =
  (if adding then region_nop r :: pass_events old new adding else pass_events old new adding).
Proof.
  intros Ho Hn.
  assert (r ∉ old) by (eapply sorted_notin; [done|lia]).
  assert (r ∉ new) by (eapply sorted_notin; [done|lia]).
  unfold pass_events. destruct adding.
  - simpl. rewrite decide_True by set_solver. f_equal.
    apply map_ext_in. intros x Hx%list_elem_of_In. assert (x <> r) by (by intros ->).
    do 2 case_decide; try done; set_solver.
  - rewrite filter_cons_False by set_solver. f_equal. apply list_filter_iff_in.
    intros x Hx. rewrite not_elem_of_cons. split; [tauto|]. intros ?.
    split; [by intros ->|done].
Qed.

Lemma lookup_length_head {A} (l p s : list A) : l = p ++ s -> l !! length p = head s.
Proof. intros ->. rewrite lookup_app_r, Nat.sub_diag by lia. by destruct s. Qed.

Lemma topology_pass_spec fuel old new po o pn n adding lo lo' :
  old = po ++ o -> new = pn ++ n -> (length o + length n < fuel)%nat ->
  sorted_from lo o -> sorted_from lo' n ->
  topology_pass fuel old new (length po) (length pn) adding = Some (pass_events o n adding).
Proof.
  revert po o pn n lo lo'. induction fuel as [|fuel IH];
    intros po o pn n lo lo' Eo En Hf Ho Hn; [lia|]. cbn [topology_pass].
  rewrite (lookup_length_head old po o Eo), (lookup_length_head new pn n En).
  destruct o as [|x o].
  { destruct n as [|y n]; simpl; [by destruct adding|].
    assert (topology_pass fuel old new (length po) (length (pn ++ [y])) adding
      = Some (pass_events [] n adding)) as E.
    { eapply IH; [done|by rewrite <- app_assoc|simpl in *; lia|done|apply Hn]. }
    rewrite last_length in E. rewrite E. simpl. by destruct adding. }
  assert (sorted_from (ar_start (fr_addr x) + 1) o) as Ho' by by eapply sorted_tail.
  assert (forall n', n = n' -> (x ∉ n') ->
    (evs ← topology_pass fuel old new (S (length po)) (length pn) adding;
     Some (if adding then evs else region_del x :: evs))
    = Some (pass_events (x :: o) n' adding)) as Hdel.
  { intros n' <- Hx. assert (topology_pass fuel old new (length (po ++ [x])) (length pn) adding
      = Some (pass_events o n adding)) as E.
    { eapply IH; [by rewrite <- app_assoc|done|simpl in *; lia|done|done]. }
    rewrite last_length in E. rewrite E. simpl. rewrite pass_events_del by done.
    by destruct adding. }
  destruct n as [|y n]; cbn [head]; [apply Hdel; [done|apply not_elem_of_nil]|].
  destruct (flatrange_equal x y) eqn:Exy.
  - apply flatrange_equal_spec in Exy as <-. rewrite Z.ltb_irrefl, andb_false_r. simpl.
    assert (topology_pass fuel old new (length (po ++ [x])) (length (pn ++ [x])) adding
      = Some (pass_events o n adding)) as E.
    { eapply IH; [by rewrite <- app_assoc..|simpl in *; lia|apply Ho|apply Hn]. }
    rewrite !last_length in E. rewrite E. simpl.
    rewrite pass_events_nop by (done || by eapply sorted_tail). by destruct adding.
  - assert (x <> y) as Hxy by (intros ->; by rewrite (proj2 (flatrange_equal_spec y y)) in Exy).
    rewrite andb_true_r. case_if.
    + apply Hdel; [done|]. eapply sorted_head_notin; [done|lia|done].
    + assert (topology_pass fuel old new (length po) (length (pn ++ [y])) adding
        = Some (pass_events (x :: o) n adding)) as E.
      { eapply IH; [done|by rewrite <- app_assoc|simpl in *; lia|done|apply Hn]. }
      rewrite last_length in E. rewrite E. simpl.
      rewrite pass_events_add by (eapply sorted_head_notin; [done|lia|done]).
      by destruct adding.
Qed.

(** ** Lookups *)

Lemma sorted_lookup lo l i j r1 r2 :
  sorted_from lo l -> (i < j)%nat -> l !! i = Some r1 -> l !! j = Some r2 ->
  addrrange_end (fr_addr r1) <= ar_start (fr_addr r2).
Proof.
  revert lo i j. induction l as [|r l IH]; intros lo i j Hs Hij Hi Hj; [done|].
  destruct Hs as (Hlo & Hp & Hs). destruct j as [|j]; [lia|]. destruct i as [|i]; simpl in *.
  - simplify_eq. clear IH. revert Hs j Hij Hj. generalize (addrrange_end (fr_addr r1)) as e.
    clear. induction l as [|x l IH]; intros e Hs j _ Hj; [done|].
    destruct Hs as (Hlo & Hp & Hs). destruct j as [|j]; simpl in Hj; simplify_eq; [done|].
    transitivity (addrrange_end (fr_addr x)); [unfold addrrange_end; lia|].
    eapply IH; [done| |done]. lia.
  - eapply IH; [done| |done|done]. lia.
Qed.

Lemma sorted_nonempty lo l i r :
  sorted_from lo l -> l !! i = Some r -> 0 < ar_size (fr_addr r) /\ lo <= ar_start (fr_addr r).
Proof.
  revert lo i. induction l as [|x l IH]; intros lo i Hs Hi; [done|].
  destruct Hs as (Hlo & Hp & Hs). destruct i; simpl in Hi; simplify_eq; [done|].
  destruct (IH _ _ Hs Hi). unfold addrrange_end in *. lia.
Qed.

(** The ranges [r] and [q] overlap. *)
Definition overlaps (q : AddrRange) (r : FlatRange) : Prop :=
  ar_start (fr_addr r) < addrrange_end q /\ ar_start q < addrrange_end (fr_addr r).

Lemma cmp_flatrange_cases q r :
  cmp_flatrange_addr q r = -1 /\ addrrange_end q <= ar_start (fr_addr r) \/
  cmp_flatrange_addr q r = 1 /\ addrrange_end (fr_addr r) <= ar_start q \/
  cmp_flatrange_addr q r = 0 /\ overlaps q r.
Proof. unfold cmp_flatrange_addr, overlaps. repeat case_if; lia. Qed.

Lemma bsearch_spec q rs lo fuel l u :
  sorted_from lo rs -> 0 < ar_size q -> (u - l < fuel)%nat -> (u <= length rs)%nat ->
  (forall i r, rs !! i = Some r -> (i < l)%nat -> addrrange_end (fr_addr r) <= ar_start q) ->
  (forall i r, rs !! i = Some r -> (u <= i)%nat -> addrrange_end q <= ar_start (fr_addr r)) ->
  match bsearch fuel (cmp_flatrange_addr q) rs l u with
  | Some i => exists r, rs !! i = Some r /\ overlaps q r
  | None => forall i r, rs !! i = Some r -> ~ overlaps q r
  end.
Proof.
  intros Hs Hq. revert l u. induction fuel as [|fuel IH]; intros l u Hf Hu Hl Hr; [lia|].
  cbn [bsearch]. destruct (l <? u)%nat eqn:Elu.
  2:{ apply Nat.ltb_ge in Elu. intros i r Hi. unfold overlaps, addrrange_end.
      destruct (decide (i < l)%nat) as [Hil|Hil].
      - specialize (Hl i r Hi Hil). unfold addrrange_end in Hl. lia.
      - specialize (Hr i r Hi ltac:(lia)). unfold addrrange_end in Hr. lia. }
  apply Nat.ltb_lt in Elu. set (idx := ((l + u) / 2)%nat).
  assert (l <= idx < u)%nat as Hidx.
  { unfold idx. split; [apply Nat.div_le_lower_bound; lia|apply Nat.Div0.div_lt_upper_bound; lia]. }
  clearbody idx. destruct (lookup_lt_is_Some_2 rs idx) as [r Er]; [lia|]. rewrite Er.
  cbn [mbind option_bind].
  destruct (sorted_nonempty _ _ _ _ Hs Er) as [Hpos _].
  destruct (cmp_flatrange_cases q r) as [[-> H]|[[-> H]|[-> H]]]; simpl.
  - apply IH; [lia|lia|done|]. intros i r' Hi Hge.
    destruct (decide (i = idx)) as [->|Hne]; [by simplify_eq|].
    pose proof (sorted_lookup lo rs idx i r r' Hs ltac:(lia) Er Hi).
    unfold addrrange_end in *. lia.
  - apply IH; [lia|lia| |done]. intros i r' Hi Hlt.
    destruct (decide (i = idx)) as [->|Hne]; [by simplify_eq|].
    pose proof (sorted_lookup lo rs i idx r' r Hs ltac:(lia) Hi Er).
    unfold addrrange_end in *. lia.
  - by exists r.
Qed.

Lemma intersects_overlaps q r :
  0 < ar_size q -> 0 < ar_size (fr_addr r) ->
  addrrange_intersects (fr_addr r) q = true <-> overlaps q r.
Proof.
  intros Hq Hr. unfold addrrange_intersects, overlaps.
  rewrite orb_true_iff, !contains_spec. unfold addrrange_end. lia.
Qed.

(** The first range that overlaps the query. *)
Lemma find_first_spec q rs lo i r :
  sorted_from lo rs -> 0 < ar_size q -> rs !! i = Some r -> overlaps q r ->
  exists r', rs !! find_first rs q i = Some r' /\ overlaps q r' /\
    forall j x, (j < find_first rs q i)%nat -> rs !! j = Some x ->
      addrrange_end (fr_addr x) <= ar_start q.
Proof.
  intros Hs Hq. revert r. induction i as [|i IH]; intros r Hi Ho; cbn [find_first].
  { exists r. split; [done|]. split; [done|]. lia. }
  destruct (lookup_lt_is_Some_2 rs i) as [x Ex]; [apply lookup_lt_Some in Hi; lia|].
  rewrite Ex. destruct (sorted_nonempty _ _ _ _ Hs Ex) as [Hpos _].
  destruct (addrrange_intersects (fr_addr x) q) eqn:E.
  - apply intersects_overlaps in E; [|done..]. by eapply IH.
  - exists r. split; [done|]. split; [done|]. intros j y Hj Ey.
    pose proof (sorted_lookup lo rs i (S i) x r Hs ltac:(lia) Ex Hi) as Hxr.
    assert (~ overlaps q x) as Hn by (rewrite <- intersects_overlaps by done; by rewrite E).
    unfold overlaps, addrrange_end in *.
    destruct (decide (j = i)) as [->|Hne]; [simplify_eq; lia|].
    pose proof (sorted_lookup lo rs j i y x Hs ltac:(lia) Ey Ex) as Hyx.
    unfold addrrange_end in *. lia.
Qed.

(** What the range [r] answers for an address in it. *)
Definition serve (r : FlatRange) (a : Z) : serves :=
  (fr_mr r, offset_in_region r + (a - ar_start (fr_addr r)), fr_readonly r).

Lemma view_lookup_at lo l i r a :
  sorted_from lo l -> l !! i = Some r -> addrrange_contains (fr_addr r) a = true ->
  view_lookup l a = Some (serve r a).
Proof.
  revert lo i. induction l as [|x l IH]; intros lo i Hs Hi Hc; [done|]. simpl.
  destruct i as [|i]; [simpl in Hi; simplify_eq; by rewrite Hc|].
  destruct (addrrange_contains (fr_addr x) a) eqn:E; [|eapply IH; [apply Hs|done|done]].
  apply contains_spec in E, Hc.
  pose proof (sorted_lookup lo (x :: l) 0 (S i) x r Hs ltac:(lia) eq_refl Hi). lia.
Qed.

Lemma view_lookup_None l a :
  (forall i r, l !! i = Some r -> addrrange_contains (fr_addr r) a = false) ->
  view_lookup l a = None.
Proof.
  induction l as [|x l IH]; intros H; [done|]. simpl. rewrite (H 0%nat x) by done.
  apply IH. intros i r Hi. by apply (H (S i)).
Qed.

(** Addresses and offsets of a view fit in 64 bits. *)
Definition view_fits (l : list FlatRange) : Prop :=
  forall i r, l !! i = Some r ->
    0 <= ar_start (fr_addr r) /\ addrrange_end (fr_addr r) <= 2 ^ 64 /\
    0 <= offset_in_region r /\ offset_in_region r + ar_size (fr_addr r) <= 2 ^ 64.

Lemma first_some_inv {A B} (f : A -> option B) l y :
  first_some f l = Some y -> exists x, x ∈ l /\ f x = Some y.
Proof.
  induction l as [|x l IH]; simpl; [done|]. destruct (f x) as [z|] eqn:E; simpl.
  - intros [= <-]. exists x. split; [left|done].
  - intros (x' & Hin & E')%IH. exists x'. split; [by right|done].
Qed.

Lemma resolve_offset region base ro a mr off ro' :
  region_ok region -> resolve region base ro a = Some (mr, off, ro') -> 0 <= off < 2 ^ 64.
Proof.
  revert base ro. induction region as [id addr size enabled terminates ro0 subs IH]
    using MemoryRegion_tree_ind. intros base ro (Ha & Hsz & Ht & Hsub%region_ok_subs).
  cbn [resolve]. case_if; [|done].
  destruct (first_some _ subs) as [x|] eqn:Ef; simpl.
  - intros [= ->]. apply first_some_inv in Ef as (s & Hin & E).
    rewrite Forall_forall in IH, Hsub. by eapply IH; [| |exact E]; auto.
  - destruct terminates; [|done]. intros [= <- <- <-].
    match goal with H : addrrange_contains _ _ = true |- _ => apply contains_spec in H end.
    unfold addrrange_end in *. simpl in *. specialize (Ht eq_refl). lia.
Qed.

Lemma generated_fits l region :
  region_ok region -> sorted_from 0 l ->
  (forall a, view_lookup l a = if addrrange_contains (addrrange_make 0 int128_2_64) a
                               then resolve region 0 false a else None) ->
  view_fits l.
Proof.
  intros Hok Hs Hl i r Hi. destruct (sorted_nonempty _ _ _ _ Hs Hi) as [Hpos Hlo].
  assert (forall a, addrrange_contains (fr_addr r) a = true ->
    0 <= a < 2 ^ 64 /\ 0 <= offset_in_region r + (a - ar_start (fr_addr r)) < 2 ^ 64) as H.
  { intros a Ha. pose proof (view_lookup_at _ _ _ _ _ Hs Hi Ha) as E. rewrite Hl in E.
    destruct (addrrange_contains (addrrange_make 0 int128_2_64) a) eqn:Ec; [|done].
    apply contains_spec in Ec. apply resolve_offset in E; [|done].
    unfold addrrange_end, int128_2_64 in Ec. simpl in Ec. lia. }
  destruct (H (ar_start (fr_addr r))) as [H1 H2].
  { apply contains_spec. unfold addrrange_end. lia. }
  destruct (H (addrrange_end (fr_addr r) - 1)) as [H3 H4].
  { apply contains_spec. unfold addrrange_end. lia. }
  unfold addrrange_end in *. lia.
Qed.

(** ** Allocation *)

(** The array is large enough for its ranges, below 2^31 of them. *)
Definition cap_ok (view : FlatView) : Prop :=
  Z.of_nat (nr view) < 2 ^ 31 -> Z.of_nat (nr view) <= nr_allocated view.

Lemma insert_nr view pos fr : nr (flatview_insert view pos fr) = S (nr view).
Proof. unfold nr, flatview_insert. simpl. rewrite length_app, length_take. simpl.
  rewrite length_drop. lia. Qed.

Lemma insert_cap view pos fr : cap_ok view -> cap_ok (flatview_insert view pos fr).
Proof.
  unfold cap_ok. rewrite insert_nr. intros H Hn. unfold flatview_insert. simpl.
  destruct (Z.of_nat (nr view) =? nr_allocated view) eqn:E; bool_to_prop; [|lia].
  rewrite wrap_id by (unfold uint; lia). lia.
Qed.

Lemma render_loop_cap fuel mr ro view i base off remain view' i' base' off' remain' :
  render_loop fuel mr ro view i base off remain = Some (view', i', base', off', remain') ->
  cap_ok view -> cap_ok view'.
Proof.
  revert view i base off remain. induction fuel as [|fuel IH]; intros view i base off remain;
    cbn [render_loop]; [done|]. case_if; [|by intros [= <- <- <- <- <-]].
  destruct (ranges view !! i) as [r|]; cbn [mbind option_bind]; [|done].
  case_if; [apply IH|]. case_if.
  - destruct (int128_get64 _) as [n|]; cbn [mbind option_bind]; [|done].
    intros E Hc. apply bind_Some in E as (r' & _ & E). apply bind_Some in E as (n' & _ & E).
    eapply IH; [exact E|]. by apply insert_cap.
  - cbn [mbind option_bind]. intros E Hc. apply bind_Some in E as (r' & _ & E).
    apply bind_Some in E as (n' & _ & E). by eapply IH.
Qed.

Lemma render_cap region :
  forall view base clip ro view',
    render_memory_region region view base clip ro = Some view' -> cap_ok view -> cap_ok view'.
Proof.
  induction region as [mr addr size enabled terminates ro0 subs IH] using MemoryRegion_tree_ind.
  intros view base clip ro view'. cbn [render_memory_region].
  case_if; [by intros [= <-]|]. case_if; [by intros [= <-]|].
  intros E Hc. apply bind_Some in E as (v1 & E1 & E).
  assert (cap_ok v1) as Hc1.
  { revert view Hc E1. induction IH as [|s subs Hs Hsub IH1]; intros view Hc; simpl.
    - by intros [= <-].
    - intros E1. apply bind_Some in E1 as (v2 & E2 & E1). eapply IH1; [|exact E1].
      by eapply Hs. }
  revert E. case_if; [by intros [= <-]|]. intros E. apply bind_Some in E as (off & _ & E).
  apply bind_Some in E as ([[[[v2 i] b] o] rem] & E2 & E).
  assert (cap_ok v2) by by eapply render_loop_cap.
  revert E. case_if; intros [= <-]; [done|]. by apply insert_cap.
Qed.

Lemma unmergeable_lookup r l i r1 r2 :
  unmergeable r l -> (r :: l) !! i = Some r1 -> (r :: l) !! S i = Some r2 ->
  can_merge r1 r2 = false.
Proof.
  revert r i. induction l as [|x l IH]; intros r i Hu Hi Hj; [by destruct i|].
  destruct Hu as [Hm Hu]. destruct i as [|i]; simpl in Hi, Hj; [by simplify_eq|].
  by eapply (IH x i).
Qed.

(** ** Flat view roots *)

(** Containers that the root search may skip carry no read-only flag. *)
Fixpoint plain_containers (region : MemoryRegion) : Prop :=
  let '(mk_region mr addr size enabled terminates ro subs) := region in
  (terminates = false -> ro = false) /\
  foldr (fun s P => plain_containers s /\ P) True subs.

Lemma resolve_disabled s base ro a : is_enabled s = false -> resolve s base ro a = None.
Proof. destruct s. simpl. by intros ->. Qed.

Lemma only_child_spec size subs found next f n :
  only_child size subs found next = (f, n) -> (found <= 1)%nat -> (found = 0%nat -> next = None) ->
  (f = 0%nat -> found = 0%nat /\ forall s, s ∈ subs -> is_enabled s = false) /\
  (forall c, n = Some c ->
     found = 1%nat /\ next = Some c /\ (forall s, s ∈ subs -> is_enabled s = false) \/
     found = 0%nat /\ mr_addr c = 0 /\ mr_size c <= size /\ is_enabled c = true /\ c ∈ subs /\
       forall base ro a, first_some (fun s => resolve s base ro a) subs = resolve c base ro a).
Proof.
  revert found next. induction subs as [|s subs IH]; intros found next E Hf Hn; simpl in E.
  { simplify_eq. split; [intros ->; split; [done|by intros ? ?%not_elem_of_nil]|].
    intros c ->. left. split; [destruct f as [|[|]]; try lia; by specialize (Hn eq_refl)|].
    split; [done|]. by intros ? ?%not_elem_of_nil. }
  destruct (is_enabled s) eqn:Es.
  - destruct found as [|found]; [|simpl in E; simplify_eq; by split].
    simpl in E. apply IH in E as [H0 Hc]; [|lia|lia]. split; [intros ->; naive_solver|].
    intros c ->. specialize (Hc c eq_refl) as [(_ & Ec & Hd)|(? & _)]; [|lia].
    revert Ec. case_if; [|by rewrite Hn]. intros [= <-]. right.
    split_and!; [done|lia|lia|done|left|].
    intros base ro a. simpl. destruct (resolve s base ro a) eqn:Er; [done|]. simpl.
    clear -Hd. induction subs as [|x subs IH]; [done|]. simpl.
    rewrite resolve_disabled by (apply Hd; left). apply IH. intros y Hy. apply Hd. by right.
  - apply IH in E as [H0 Hc]; [|done|done]. split.
    { intros ->. destruct H0 as [-> H0]; [done|]. split; [done|].
      intros x Hx. apply elem_of_cons in Hx as [-> |Hx]; auto. }
    intros c ->. destruct (Hc c eq_refl) as [(-> & -> & Hd)|(-> & H1 & H2 & H3 & Hin & Hr)].
    + left. split_and!; [done|done|]. intros x Hx.
      apply elem_of_cons in Hx as [-> |Hx]; auto.
    + right. split_and!; [done..|by right|]. intros base ro a. simpl.
      by rewrite resolve_disabled, Hr.
Qed.

Lemma depth_sub mr addr size en t ro subs s :
  s ∈ subs -> (depth s < depth (mk_region mr addr size en t ro subs))%nat.
Proof.
  intros Hin. simpl. induction subs as [|x subs IH]; [by apply not_elem_of_nil in Hin|].
  simpl. apply elem_of_cons in Hin as [-> |Hin]; [lia|]. specialize (IH Hin). lia.
Qed.

Lemma plain_sub subs s :
  foldr (fun s P => plain_containers s /\ P) True subs -> s ∈ subs -> plain_containers s.
Proof.
  induction subs as [|x subs IH]; intros H Hin; [by apply not_elem_of_nil in Hin|].
  apply elem_of_cons in Hin as [-> |Hin]; [apply H|]. apply IH; [apply H|done].
Qed.

Lemma flatview_root_loop_ok fuel region :
  (depth region <= fuel)%nat -> plain_containers region -> mr_addr region = 0 ->
  exists root, flatview_root_loop fuel region = Some root /\
    forall a, resolve region 0 false a =
      match root with Some r => resolve r 0 false a | None => None end.
Proof.
  revert region. induction fuel as [|fuel IH];
    intros [mr addr size en t ro subs] Hd Hp Ha; [simpl in Hd; lia|]. simpl in Ha. subst addr.
  cbn [flatview_root_loop]. destruct en; simpl negb; cbv iota; [|by exists None].
  destruct t; simpl negb; cbv iota; [by eexists|].
  destruct Hp as [Hro Hps]. rewrite (Hro eq_refl) in *.
  destruct (only_child size subs 0 None) as [found next] eqn:Eoc.
  apply only_child_spec in Eoc as [H0 Hc]; [|lia|done].
  destruct (found =? 0)%nat eqn:Ef.
  - apply Nat.eqb_eq in Ef. destruct (H0 Ef) as [_ Hd0]. exists None. split; [done|].
    intros a. simpl. case_if; [|done].
    replace (first_some _ subs) with (@None serves); [done|]. symmetry. clear -Hd0.
    induction subs as [|x subs IH]; [done|]. simpl.
    rewrite resolve_disabled by (apply Hd0; left). apply IH. intros y Hy. apply Hd0. by right.
  - destruct next as [c|]; [|by eexists].
    destruct (Hc c eq_refl) as [(? & _)|(_ & Hca & Hcs & Hce & Hin & Hr)]; [lia|].
    destruct (IH c) as (root & E & Hroot); [|by eapply plain_sub|done|].
    { pose proof (depth_sub mr 0 size true false false subs c Hin). lia. }
    exists root. split; [done|]. intros a. rewrite <- Hroot. cbn [resolve]. rewrite Hr.
    case_if; [by destruct (resolve c _ _ a)|].
    destruct c as [cm ca cs ce ct cro csubs]. simpl in Hca, Hcs, Hce. subst ca ce.
    cbn [resolve andb]. case_if; [|done]. exfalso. cbn [andb] in *.
    match goal with H : addrrange_contains _ _ = true |- _ => apply contains_spec in H end.
    match goal with H : addrrange_contains _ _ = false |- _ => apply contains_false in H end.
    unfold addrrange_end in *. simpl in *. lia.
Qed.

Lemma generate_memory_topology_ok region :
  region_ok region ->
  exists view,
    generate_memory_topology (Some region) = Some view /\
    sorted_from 0 (ranges view) /\ view_fits (ranges view) /\
    (forall a, view_lookup (ranges view) a =
       if addrrange_contains (addrrange_make 0 int128_2_64) a
       then resolve region 0 false a else None) /\
    (forall i r1 r2, ranges view !! i = Some r1 -> ranges view !! S i = Some r2 ->
       can_merge r1 r2 = false).
Proof.
  intros Hok. unfold generate_memory_topology.
  destruct (render_memory_region_ok region Hok flatview_new 0
    (addrrange_make 0 int128_2_64) false) as (v1 & -> & Hs & Hl); [done..|].
  cbn [mbind option_bind].
  destruct (flatview_simplify_ok v1 Hs) as (v2 & -> & Hs2 & Hl2 & Hm).
  assert (forall a, view_lookup (ranges v2) a =
    if addrrange_contains (addrrange_make 0 int128_2_64) a
    then resolve region 0 false a else None) as Hv.
  { intros a. rewrite Hl2, Hl. done. }
  exists v2. split_and!; [done|done|by eapply generated_fits|done|].
  intros i r1 r2 Hi Hj. destruct (ranges v2) as [|r l] eqn:E; [done|].
  eapply unmergeable_lookup; eauto.
Qed.

(** ** Properties *)

(** C1: the flat view of a memory topology is the topology: for every region
    tree [generate_memory_topology] succeeds with a sorted list of disjoint
    ranges that gives each of the 2^64 addresses to the region the tree gives
    it to (the first enabled subregion that serves it, else the region itself
    when it terminates), with the right offset and read-only flag; addresses
    and offsets fit in 64 bits and no two neighbours could be merged. *)
Theorem generate_memory_topology_correct region :
  region_ok region ->
  exists view,
    generate_memory_topology (Some region) = Some view /\
    sorted_from 0 (ranges view) /\ view_fits (ranges view) /\
    (forall a, view_lookup (ranges view) a =
       if addrrange_contains (addrrange_make 0 int128_2_64) a
       then resolve region 0 false a else None) /\
    (forall i r1 r2, ranges view !! i = Some r1 -> ranges view !! S i = Some r2 ->
       can_merge r1 r2 = false).
Proof. exact (generate_memory_topology_ok region). Qed.

(** A container of all addresses with two overlapping areas of memory, the
    first of them with a read-only hole, and a disabled one. *)
Definition example_tree : MemoryRegion :=
  mk_region 1 0 (2 ^ 64) true false false
    [mk_region 2 0x1000 0x4000 true true false
       [mk_region 3 0x1000 0x1000 true true true []];
     mk_region 4 0x4000 0x2000 true true false [];
     mk_region 5 0x0 0x10000 false true false []].

Lemma example_tree_ok : region_ok example_tree.
Proof. simpl. lia. Qed.

Lemma generate_memory_topology_correct_witness :
  match generate_memory_topology (Some example_tree) with
  | Some view => view_lookup (ranges view) 0x2004 = resolve example_tree 0 false 0x2004
  | None => False
  end.
Proof.
  destruct (generate_memory_topology_correct example_tree example_tree_ok)
    as (view & -> & _ & _ & Hl & _).
  rewrite Hl. reflexivity.
Defined.

(** C2: ranges already in the view obscure the region that is rendered: after
    [render_memory_region] every address the view served is served as before,
    every other address of the clip as the region serves it, and the array of
    ranges stays within its allocation. *)
Theorem render_memory_region_correct region view base clip ro :
  region_ok region -> sorted_from 0 (ranges view) -> cap_ok view ->
  0 <= base -> 0 <= ar_start clip -> 0 <= ar_size clip ->
  exists view',
    render_memory_region region view base clip ro = Some view' /\
    sorted_from 0 (ranges view') /\ cap_ok view' /\
    forall a, view_lookup (ranges view') a =
      match view_lookup (ranges view) a with
      | Some x => Some x
      | None => if addrrange_contains clip a then resolve region base ro a else None
      end.
Proof.
  intros Hok Hs Hc Hb Hcs Hcz.
  destruct (render_memory_region_ok region Hok view base clip ro Hs Hb Hcs Hcz)
    as (view' & E & Hs' & Hl).
  exists view'. split_and!; [done|done|by eapply render_cap|].
  intros a. rewrite Hl. by destruct (view_lookup (ranges view) a).
Qed.

Definition example_view : FlatView :=
  mk_view [mk_flat 9 0 (addrrange_make 0x2800 0x1000) false] 10.

Lemma render_memory_region_correct_witness :
  exists view',
    render_memory_region example_tree example_view 0 (addrrange_make 0 int128_2_64) false
      = Some view' /\
    view_lookup (ranges view') 0x2900 = Some (9, 0x100, false).
Proof.
  destruct (render_memory_region_correct example_tree example_view 0
    (addrrange_make 0 int128_2_64) false) as (view' & E & _ & _ & Hl);
    [apply example_tree_ok|simpl; lia|intros _; done|done|done|done|].
  exists view'. split; [done|]. rewrite Hl. reflexivity.
Defined.

(** [flatview_simplify] ends on every sorted view, serves every address as
    before and leaves no two neighbours that could be merged. *)
Theorem flatview_simplify_correct view :
  sorted_from 0 (ranges view) ->
  exists view', flatview_simplify view = Some view' /\
    sorted_from 0 (ranges view') /\
    (forall a, view_lookup (ranges view') a = view_lookup (ranges view) a) /\
    (forall i r1 r2, ranges view' !! i = Some r1 -> ranges view' !! S i = Some r2 ->
       can_merge r1 r2 = false).
Proof.
  intros Hs. destruct (flatview_simplify_ok view Hs) as (v & E & Hs' & Hl & Hm).
  exists v. split_and!; [done..|]. intros i r1 r2 Hi Hj.
  destruct (ranges v) as [|r l] eqn:El; [done|]. eapply unmergeable_lookup; eauto.
Qed.

Lemma flatview_simplify_correct_witness :
  let view := mk_view [mk_flat 7 0 (addrrange_make 0x1000 0x1000) false;
                       mk_flat 7 0x1000 (addrrange_make 0x2000 0x1000) false;
                       mk_flat 7 0x2000 (addrrange_make 0x3000 0x1000) true] 10 in
  exists view', flatview_simplify view = Some view' /\
    view_lookup (ranges view') 0x2010 = view_lookup (ranges view) 0x2010.
Proof.
  intros view. destruct (flatview_simplify_correct view) as (v & E & _ & Hl & _);
    [sorted_tac|]. exists v. by split.
Defined.

(** The two passes of [address_space_update_topology_pass] emit the
    difference of two views: the deleting pass reports, in order, exactly the
    old ranges that are not in the new view; the adding pass goes through the
    new ranges in order and reports those that were in the old view as
    unchanged and the others as added. *)
Theorem topology_pass_difference old_view new_view adding :
  sorted_from 0 (ranges old_view) -> sorted_from 0 (ranges new_view) ->
  address_space_update_topology_pass old_view new_view adding =
  Some (if adding
        then map (fun r => if decide (r ∈ ranges old_view) then region_nop r
                           else region_add r) (ranges new_view)
        else map region_del (filter (fun r => r ∉ ranges new_view) (ranges old_view))).
Proof.
  intros Ho Hn. unfold address_space_update_topology_pass.
  apply (topology_pass_spec _ _ _ [] _ [] _ adding 0 0); [done|done|unfold nr; lia|done|done].
Qed.

Lemma topology_pass_difference_witness :
  let r1 := mk_flat 1 0 (addrrange_make 0x1000 0x1000) false in
  let r2 := mk_flat 2 0 (addrrange_make 0x2000 0x1000) false in
  let r3 := mk_flat 2 0 (addrrange_make 0x2000 0x800) false in
  address_space_update_topology_pass (mk_view [r1; r2] 10) (mk_view [r1; r3] 10) false
    = Some [region_del r2] /\
  address_space_update_topology_pass (mk_view [r1; r2] 10) (mk_view [r1; r3] 10) true
    = Some [region_nop r1; region_add r3].
Proof.
  intros r1 r2 r3. split; rewrite topology_pass_difference by sorted_tac; reflexivity.
Defined.

(** [memory_region_find] returns the first part of [addr, addr + size) that
    a view serves: no address before it is served, and every address of the
    section is served by the reported region at the reported offset; without a
    result no address of the range is served. *)
Theorem memory_region_find_correct view addr size :
  sorted_from 0 (ranges view) -> view_fits (ranges view) -> 0 < size -> 0 <= addr ->
  match memory_region_find view addr size with
  | Some sec =>
    let s := offset_within_address_space sec in
    addr <= s /\ 0 < sec_size sec /\ s + sec_size sec <= addr + size /\
    (forall a, addr <= a < s -> view_lookup (ranges view) a = None) /\
    (forall a, s <= a < s + sec_size sec -> view_lookup (ranges view) a =
       Some (sec_mr sec, offset_within_region sec + (a - s), sec_readonly sec))
  | None => forall a, addr <= a < addr + size -> view_lookup (ranges view) a = None
  end.
Proof.
  intros Hs Hfit Hsz Ha. unfold memory_region_find, flatview_lookup.
  set (q := addrrange_make addr size).
  pose proof (bsearch_spec q (ranges view) 0 (S (nr view)) 0 (nr view) Hs Hsz
    ltac:(lia) ltac:(done) ltac:(intros; lia)) as Hb.
  destruct (bsearch _ _ _ _ _) as [i|]; cbn [mbind option_bind].
  - destruct Hb as (r & Hi & Ho).
    { intros j x Hj Hle. apply lookup_lt_Some in Hj. unfold nr in Hle. lia. }
    destruct (find_first_spec q (ranges view) 0 i r Hs Hsz Hi Ho)
      as (r' & Hr' & Ho' & Hbefore). rewrite Hr'. cbn [mbind option_bind].
    generalize dependent (find_first (ranges view) q i). intros k Hr' Hbefore.
    pose proof (Hfit _ _ Hr') as Hf. pose proof (sorted_nonempty _ _ _ _ Hs Hr') as [Hp _].
    unfold overlaps, addrrange_end, q in *. simpl in *. unfold addrrange_end. simpl.
    rewrite !get64_Some by lia. cbn [mbind option_bind]. simpl.
    rewrite wrap_id by (unfold uint; lia).
    split; [lia|]. split; [lia|]. split; [lia|]. split.
    + intros a Hin. apply view_lookup_None. intros j x Hj. apply contains_false.
      unfold addrrange_end. destruct (lt_dec j k) as [Hlt|Hge].
      * specialize (Hbefore j x Hlt Hj). lia.
      * destruct (decide (j = k)) as [->|Hne]; [simplify_eq; lia|].
        pose proof (sorted_lookup _ _ k j r' x Hs ltac:(lia) Hr' Hj) as Hnext.
        unfold addrrange_end in Hnext. lia.
    + intros a Hin. rewrite (view_lookup_at _ _ _ _ a Hs Hr').
      * unfold serve. do 3 f_equal. lia.
      * apply contains_spec. unfold addrrange_end. lia.
  - intros a Hin. apply view_lookup_None. intros j x Hj. apply contains_false. intros Hc.
    eapply Hb; [|exact Hj|].
    + intros k y Hk Hle. apply lookup_lt_Some in Hk. unfold nr in Hle. lia.
    + unfold overlaps, addrrange_end, q in *. simpl. lia.
Qed.

Lemma memory_region_find_correct_witness :
  match memory_region_find example_view 0x2000 0x1000 with
  | Some sec => offset_within_address_space sec = 0x2800 /\
      view_lookup (ranges example_view) 0x2000 = None
  | None => False
  end.
Proof.
  pose proof (memory_region_find_correct example_view 0x2000 0x1000) as H.
  change (memory_region_find example_view 0x2000 0x1000)
    with (Some (mk_section 9 0 0x800 0x2800 false)) in *.
  split; [done|]. apply H; [sorted_tac| |done|done|simpl; lia].
  intros i r Hi. destruct i; [|done]. injection Hi as <-. sorted_tac.
Defined.

(** [memory_region_get_flatview_root] only skips containers that change
    nothing: rendering the root it returns (or nothing, when it returns none)
    serves every address as the whole tree does. *)
Theorem flatview_root_correct region a :
  plain_containers region -> mr_addr region = 0 ->
  resolve region 0 false a =
  match memory_region_get_flatview_root region with
  | Some root => resolve root 0 false a
  | None => None
  end.
Proof.
  intros Hp Ha. unfold memory_region_get_flatview_root.
  destruct (flatview_root_loop_ok (depth region) region) as (root & -> & Hr); [done..|].
  apply Hr.
Qed.

Lemma flatview_root_correct_witness :
  let ram := mk_region 2 0 0x4000 true true false [] in
  let tree := mk_region 1 0 (2 ^ 64) true false false [ram] in
  memory_region_get_flatview_root tree = Some ram /\
  resolve tree 0 false 0x123 = resolve ram 0 false 0x123.
Proof.
  intros ram tree. split; [done|].
  refine (flatview_root_correct tree 0x123 _ _); done.
Defined.
