(* ===== verification/PhysMap.v ===== *)
(** * The page table of an address space ([qemu/exec.c])

    The dispatch structure of a flat view maps page numbers to section numbers
    with a radix tree of 512-entry nodes.  This file models the tree: node
    allocation, [phys_page_set], [phys_page_compact] and the walk of
    [phys_page_find].  An entry is addressed by its place ([&d->phys_map] or
    [&nodes[k][i]]), as the code passes pointers to entries; reading or
    writing outside the array, and a failed assertion, is [None].

    The invariant gives every node the range of pages it stands for and its
    level.  The theorems: [phys_page_set] assigns exactly the pages asked for
    and stays within the nodes it reserves; [phys_page_compact] changes the
    answer of a walk only on pages that have no section. *)

From S2P Require Import Prelude.

(** ** Data *)

(** [skip]: levels to skip to the next node, 0 for a leaf; [ptr]: a section
    number for a leaf, a node number otherwise. *)
Record PhysPageEntry := mk_entry { skip : Z; ptr : Z }.

#[global] Instance PhysPageEntry_eq_dec : EqDecision PhysPageEntry.
Proof. solve_decision. Defined.

(** [((uint32_t)~0) >> 6] *)
Definition PHYS_MAP_NODE_NIL : Z := Z.shiftr (2 ^ 32 - 1) 6.

Definition ADDR_SPACE_BITS : Z := 64.
Definition P_L2_BITS : Z := 9.
Definition P_L2_SIZE : nat := 512.
Definition PHYS_SECTION_UNASSIGNED : Z := 0.

Definition P_L2_LEVELS (TARGET_PAGE_BITS : Z) : nat :=
  Z.to_nat ((ADDR_SPACE_BITS - TARGET_PAGE_BITS - 1) / P_L2_BITS + 1).

Abbreviation Node := (list PhysPageEntry).

(** The root entry of an [AddressSpaceDispatch], the initialised nodes of its
    [PhysPageMap] ([nodes_nb] is their number), the capacity of the array and
    the engine's [alloc_hint]. *)
Record page_table := mk_table {
  phys_map : PhysPageEntry;
  nodes : list Node;
  nodes_nb_alloc : Z;
  alloc_hint : Z
}.

(** The place of an entry: what a [PhysPageEntry *] points to. *)
Inductive place := root | slot (k i : nat).

#[global] Instance place_eq_dec : EqDecision place.
Proof. solve_decision. Defined.

Definition node_entry (ns : list Node) (k i : nat) : option PhysPageEntry :=
  p ← ns !! k; p !! i.

Definition entry (t : page_table) (lp : place) : option PhysPageEntry :=
  match lp with
  | root => Some (phys_map t)
  | slot k i => node_entry (nodes t) k i
  end.

Definition set_entry (t : page_table) (lp : place) (e : PhysPageEntry) : page_table :=
  match lp with
  | root => mk_table e (nodes t) (nodes_nb_alloc t) (alloc_hint t)
  | slot k i => mk_table (phys_map t) (alter (fun p => <[i := e]> p) k (nodes t))
                  (nodes_nb_alloc t) (alloc_hint t)
  end.

(** ** Filling the tree *)

Definition phys_map_node_reserve (t : page_table) (n : Z) : page_table :=
  let nb := Z.of_nat (length (nodes t)) in
  if nodes_nb_alloc t <? u32 (nb + n) then
    let alloc := Z.max (alloc_hint t) (u32 (nb + n)) in
    mk_table (phys_map t) (nodes t) alloc alloc
  else t.

Definition phys_map_node_alloc (t : page_table) (leaf : bool) : option (Z * page_table) :=
  let ret := Z.of_nat (length (nodes t)) in
  if (ret =? PHYS_MAP_NODE_NIL) || (ret =? nodes_nb_alloc t) then None else
  let e := mk_entry (if leaf then 0 else 1)
             (if leaf then PHYS_SECTION_UNASSIGNED else PHYS_MAP_NODE_NIL) in
  Some (ret, mk_table (phys_map t) (nodes t ++ [replicate P_L2_SIZE e])
               (nodes_nb_alloc t) (alloc_hint t)).

(** The loop of [phys_page_set_level] over the last [n] entries of node [k];
    [descend] is the recursive call. *)
Fixpoint set_slots (descend : page_table -> place -> Z -> Z -> option (page_table * Z * Z))
    (step leaf : Z) (k n : nat) (t : page_table) (index nb : Z)
    : option (page_table * Z * Z) :=
  match n with
  | O => Some (t, index, nb)
  | S n' =>
    if nb =? 0 then Some (t, index, nb) else
    let lp := slot k (P_L2_SIZE - n) in
    if (Z.land index (step - 1) =? 0) && (step <=? nb) then
      set_slots descend step leaf k n' (set_entry t lp (mk_entry 0 leaf))
        (u64 (index + step)) (nb - step)
    else
      '(t, index, nb) ← descend t lp index nb;
      set_slots descend step leaf k n' t index nb
  end.

(** Returns the tree, [*index] and [*nb]. *)
Fixpoint phys_page_set_level (t : page_table) (lp : place) (index nb leaf : Z) (level : nat)
    : option (page_table * Z * Z) :=
  let step := u64 (Z.shiftl 1 (Z.of_nat level * P_L2_BITS)) in
  e ← entry t lp;
  t ← (if negb (skip e =? 0) && (ptr e =? PHYS_MAP_NODE_NIL) then
         '(ret, t) ← phys_map_node_alloc t (level =? 0)%nat;
         Some (set_entry t lp (mk_entry (skip e) ret))
       else Some t);
  e ← entry t lp;
  let k := Z.to_nat (ptr e) in
  _ ← nodes t !! k;
  let i := Z.to_nat (Z.land (Z.shiftr index (Z.of_nat level * P_L2_BITS))
                       (Z.of_nat P_L2_SIZE - 1)) in
  set_slots
    (match level with
     | O => fun _ _ _ _ => None
     | S level => fun t lp index nb => phys_page_set_level t lp index nb leaf level
     end) step leaf k (P_L2_SIZE - i) t index nb.

Definition phys_page_set (TARGET_PAGE_BITS : Z) (t : page_table) (index nb leaf : Z)
    : option page_table :=
  let t := phys_map_node_reserve t (3 * Z.of_nat (P_L2_LEVELS TARGET_PAGE_BITS)) in
  '(t, _, _) ← phys_page_set_level t root index nb leaf (P_L2_LEVELS TARGET_PAGE_BITS - 1);
  Some t.

(** ** Walking the tree *)

(** The loop of [phys_page_find]: [Some None] is the early return of the
    unassigned section, [Some (Some s)] ends at an entry that points to [s]. *)
Fixpoint find_loop (fuel : nat) (ns : list Node) (lp : PhysPageEntry) (i index : Z)
    : option (option Z) :=
  match fuel with
  | O => None
  | S fuel =>
    if skip lp =? 0 then Some (Some (ptr lp)) else
    let i := i - skip lp in
    if i <? 0 then Some (Some (ptr lp)) else
    if ptr lp =? PHYS_MAP_NODE_NIL then Some None else
    lp ← node_entry ns (Z.to_nat (ptr lp))
           (Z.to_nat (Z.land (Z.shiftr index (i * P_L2_BITS)) (Z.of_nat P_L2_SIZE - 1)));
    find_loop fuel ns lp i index
  end.

Definition phys_page_walk (TARGET_PAGE_BITS : Z) (t : page_table) (index : Z)
    : option (option Z) :=
  let n := P_L2_LEVELS TARGET_PAGE_BITS in
  find_loop (S n) (nodes t) (phys_map t) (Z.of_nat n) index.

(** ** Compaction *)

(** The loop of [phys_page_compact] over the last [n] entries of node [k],
    with [valid_ptr] and [valid]. *)
Fixpoint compact_slots (compact : page_table -> place -> option page_table)
    (k n : nat) (t : page_table) (valid_ptr valid : nat)
    : option (page_table * nat * nat) :=
  match n with
  | O => Some (t, valid_ptr, valid)
  | S n' =>
    let i := (P_L2_SIZE - n)%nat in
    e ← entry t (slot k i);
    if ptr e =? PHYS_MAP_NODE_NIL then compact_slots compact k n' t valid_ptr valid else
    t ← (if negb (skip e =? 0) then compact t (slot k i) else Some t);
    compact_slots compact k n' t i (S valid)
  end.

(** [levels] is [P_L2_LEVELS]; [fuel] bounds the depth of the recursion. *)
Fixpoint phys_page_compact (levels fuel : nat) (t : page_table) (lp : place)
    : option page_table :=
  match fuel with
  | O => None
  | S fuel =>
    e ← entry t lp;
    if ptr e =? PHYS_MAP_NODE_NIL then Some t else
    let k := Z.to_nat (ptr e) in
    '(t, valid_ptr, valid) ←
      compact_slots (phys_page_compact levels fuel) k P_L2_SIZE t P_L2_SIZE 0;
    if negb (valid =? 1)%nat then Some t else
    if negb (valid_ptr <? P_L2_SIZE)%nat then None else
    e ← entry t lp;
    c ← entry t (slot k valid_ptr);
    if (2 ^ 6 <=? Z.of_nat levels) && (2 ^ 6 <=? skip e + skip c) then Some t else
    if skip c =? 0 then Some (set_entry t lp (mk_entry 0 (ptr c)))
    else Some (set_entry t lp (mk_entry (skip e + skip c) (ptr c)))
  end.

Definition address_space_dispatch_compact (TARGET_PAGE_BITS : Z) (t : page_table)
    : option page_table :=
  let levels := P_L2_LEVELS TARGET_PAGE_BITS in
  if negb (skip (phys_map t) =? 0) then phys_page_compact levels (S levels) t root
  else Some t.

(** An empty tree: [address_space_dispatch_new]. *)
Definition empty_table (hint : Z) : page_table :=
  mk_table (mk_entry 1 PHYS_MAP_NODE_NIL) [] 0 hint.

(** ** Page numbers

    An entry at height [h] stands for [pw h] pages. *)

Definition pw (h : nat) : Z := 2 ^ (9 * Z.of_nat h).

Lemma pw_0 : pw 0 = 1.
Proof. done. Qed.

Lemma pw_S h : pw (S h) = 512 * pw h.
Proof.
  unfold pw. replace (9 * Z.of_nat (S h)) with (9 + 9 * Z.of_nat h) by lia.
  by rewrite Z.pow_add_r by lia.
Qed.

Lemma pw_pos h : 0 < pw h.
Proof. apply Z.pow_pos_nonneg; lia. Qed.

Lemma pw_le h h' : (h <= h')%nat -> pw h <= pw h'.
Proof. intros. apply Z.pow_le_mono_r; lia. Qed.

(** The index of page [p] in a node of level [l]. *)
Definition page_idx (l : nat) (p : Z) : nat :=
  Z.to_nat (Z.land (Z.shiftr p (Z.of_nat l * P_L2_BITS)) (Z.of_nat P_L2_SIZE - 1)).

Lemma page_idx_div l p : page_idx l p = Z.to_nat ((p / pw l) mod 512).
Proof.
  unfold page_idx, pw. rewrite Z.shiftr_div_pow2 by (unfold P_L2_BITS; lia).
  replace (Z.of_nat P_L2_SIZE - 1) with (Z.ones 9) by done.
  rewrite Z.land_ones by lia. do 4 f_equal. unfold P_L2_BITS. lia.
Qed.

Lemma page_idx_lt l p : (page_idx l p < P_L2_SIZE)%nat.
Proof.
  rewrite page_idx_div. pose proof (Z.mod_pos_bound (p / pw l) 512). unfold P_L2_SIZE. lia.
Qed.

(** In the range of a node the index is the position of the page's slot. *)
Lemma page_idx_iff l q p i :
  (i < P_L2_SIZE)%nat -> q * pw (S l) <= p < q * pw (S l) + pw (S l) ->
  page_idx l p = i <->
  q * pw (S l) + Z.of_nat i * pw l <= p < q * pw (S l) + Z.of_nat i * pw l + pw l.
Proof.
  unfold P_L2_SIZE. rewrite page_idx_div, pw_S. intros Hi Hp. pose proof (pw_pos l) as Hw.
  assert (p / pw l = q * 512 + (p - q * 512 * pw l) / pw l) as E.
  { rewrite <- Z.div_add_l by lia. f_equal. lia. }
  set (x := p - q * 512 * pw l) in *.
  assert (0 <= x / pw l < 512) as Hx.
  { split; [apply Z.div_pos; lia|apply Z.div_lt_upper_bound; lia]. }
  assert ((p / pw l) mod 512 = x / pw l) as ->.
  { rewrite E, Z.add_comm, Z.mul_comm. rewrite (Z.mul_comm 512 q).
    rewrite Z.mod_add by lia. by apply Z.mod_small. }
  pose proof (Z.mul_div_le x (pw l) Hw). pose proof (Z.mul_succ_div_gt x (pw l) Hw).
  split; [intros <-; rewrite Z2Nat.id by lia; lia|]. intros Hr.
  assert (x / pw l = Z.of_nat i); [|lia].
  symmetry. apply (Z.div_unique _ _ _ (x - Z.of_nat i * pw l)); lia.
Qed.

(** ** Trees with levels

    [lv] gives the level of each node: an entry at height [h] leads to a node
    of level [h - skip], whose entries are at that height.  [Q] holds of the
    section numbers in the leaves. *)

Inductive entry_ok (lv : list nat) (Q : Z -> Prop) (h : nat) : PhysPageEntry -> Prop :=
  | ok_leaf s : Q s -> entry_ok lv Q h (mk_entry 0 s)
  | ok_nil n : (1 <= n <= h)%nat -> entry_ok lv Q h (mk_entry (Z.of_nat n) PHYS_MAP_NODE_NIL)
  | ok_child n k : (1 <= n <= h)%nat -> Z.of_nat k <> PHYS_MAP_NODE_NIL ->
      lv !! k = Some (h - n)%nat -> entry_ok lv Q h (mk_entry (Z.of_nat n) (Z.of_nat k)).

Record levels_ok (lv : list nat) (Q : Z -> Prop) (ns : list Node) : Prop := mk_levels_ok {
  levels_nodes : forall k l, lv !! k = Some l -> exists p, ns !! k = Some p /\ length p = P_L2_SIZE;
  levels_entries : forall k l i e, lv !! k = Some l -> node_entry ns k i = Some e ->
    entry_ok lv Q l e
}.

Lemma levels_entry lv Q ns k l i :
  levels_ok lv Q ns -> lv !! k = Some l -> (i < P_L2_SIZE)%nat ->
  exists e, node_entry ns k i = Some e /\ entry_ok lv Q l e.
Proof.
  intros H Hk Hi. destruct (levels_nodes _ _ _ H _ _ Hk) as (p & Hp & Hlen).
  destruct (lookup_lt_is_Some_2 p i) as [e He]; [lia|].
  assert (node_entry ns k i = Some e) as E by (unfold node_entry; rewrite Hp; exact He).
  exists e. split; [done|]. by eapply levels_entries.
Qed.

(** The section a walk ends at, from an entry at height [h]. *)
Definition walk (ns : list Node) (e : PhysPageEntry) (h : nat) (p : Z) : option Z :=
  default PHYS_SECTION_UNASSIGNED <$> find_loop (S h) ns e (Z.of_nat h) p.

Lemma find_loop_leaf f ns s h p :
  find_loop (S f) ns (mk_entry 0 s) (Z.of_nat h) p = Some (Some s).
Proof. done. Qed.

Lemma find_loop_nil f ns n h p :
  (1 <= n <= h)%nat ->
  find_loop (S f) ns (mk_entry (Z.of_nat n) PHYS_MAP_NODE_NIL) (Z.of_nat h) p = Some None.
Proof.
  intros Hn. cbn [find_loop skip ptr]. rewrite Z.eqb_refl.
  repeat (case_if; [lia|]). done.
Qed.

Lemma find_loop_child f ns n k h p e :
  (1 <= n <= h)%nat -> Z.of_nat k <> PHYS_MAP_NODE_NIL ->
  node_entry ns k (page_idx (h - n) p) = Some e ->
  find_loop (S f) ns (mk_entry (Z.of_nat n) (Z.of_nat k)) (Z.of_nat h) p =
  find_loop f ns e (Z.of_nat (h - n)) p.
Proof.
  intros Hn Hk He. cbn [find_loop skip ptr]. do 3 (case_if; [lia|]).
  rewrite Nat2Z.id. replace (Z.of_nat h - Z.of_nat n) with (Z.of_nat (h - n)) by lia.
  unfold page_idx in He. by rewrite He.
Qed.

(** On such a tree the walk ends, whatever fuel exceeds the height. *)
Lemma find_loop_total lv Q ns h e f p :
  levels_ok lv Q ns -> entry_ok lv Q h e -> (h < f)%nat ->
  exists r, find_loop f ns e (Z.of_nat h) p = Some r /\ walk ns e h p = Some (default PHYS_SECTION_UNASSIGNED r) /\
    (forall s, r = Some s -> Q s).
Proof.
  intros Hl. revert e f. induction h as [h IH] using lt_wf_ind. intros e [|f] He Hf; [lia|].
  unfold walk. destruct He as [s Hs|n Hn|n k Hn Hk Hlv].
  - exists (Some s). split_and!; [done|done|]. by intros ? [= <-].
  - exists None. rewrite !find_loop_nil by done. done.
  - destruct (levels_entry _ _ _ _ _ (page_idx (h - n) p) Hl Hlv) as (e & He & Hok);
      [apply page_idx_lt|].
    rewrite !(find_loop_child _ _ _ _ _ _ e) by done.
    destruct (IH (h - n)%nat ltac:(lia) e f Hok ltac:(lia)) as (r & E1 & E2 & Hr).
    destruct (IH (h - n)%nat ltac:(lia) e h Hok ltac:(lia)) as (r' & E1' & E2' & _).
    exists r. rewrite E1, E1'. split_and!; [done| |done].
    change (Some (default PHYS_SECTION_UNASSIGNED r') = Some (default PHYS_SECTION_UNASSIGNED r)). congruence.
Qed.

Lemma walk_leaf ns s h p : walk ns (mk_entry 0 s) h p = Some s.
Proof. done. Qed.

Lemma walk_nil ns n h p :
  (1 <= n <= h)%nat ->
  walk ns (mk_entry (Z.of_nat n) PHYS_MAP_NODE_NIL) h p = Some PHYS_SECTION_UNASSIGNED.
Proof. intros Hn. unfold walk. by rewrite find_loop_nil. Qed.

Lemma walk_child lv Q ns n k h p e :
  levels_ok lv Q ns -> (1 <= n <= h)%nat -> Z.of_nat k <> PHYS_MAP_NODE_NIL ->
  lv !! k = Some (h - n)%nat -> node_entry ns k (page_idx (h - n) p) = Some e ->
  walk ns (mk_entry (Z.of_nat n) (Z.of_nat k)) h p = walk ns e (h - n) p.
Proof.
  intros Hl Hn Hk Hlv He. unfold walk at 1. rewrite (find_loop_child _ _ _ _ _ _ e) by done.
  destruct (find_loop_total lv Q ns (h - n) e h p Hl) as (r & -> & -> & _); [|lia|done].
  by eapply levels_entries.
Qed.

(** ** Trees that are being filled

    [gh] gives for each node the first page it stands for and its level.  No
    level is skipped yet.  An entry that stands for the pages from [b] on, at
    height [h], is a leaf, a free page, empty, or leads to the node of its
    pages. *)

Section filling.
Context (L : nat) (Q : Z -> Prop).

Implicit Types (gh : list (Z * nat)) (t : page_table) (lp : place).

Inductive slot_ok gh (h : nat) (b : Z) : PhysPageEntry -> Prop :=
  | so_leaf s : Q s -> slot_ok gh h b (mk_entry 0 s)
  | so_free : h = 0%nat -> slot_ok gh h b (mk_entry 0 PHYS_SECTION_UNASSIGNED)
  | so_nil : (0 < h)%nat -> slot_ok gh h b (mk_entry 1 PHYS_MAP_NODE_NIL)
  | so_child k : (0 < h)%nat -> gh !! k = Some (b, pred h) ->
      slot_ok gh h b (mk_entry 1 (Z.of_nat k)).

(** Place [lp] stands for the pages from [b] on, at height [h]. *)
Definition loc_at gh lp (b : Z) (h : nat) : Prop :=
  match lp with
  | root => b = 0 /\ h = L
  | slot k i => exists b0, gh !! k = Some (b0, h) /\ b = b0 + Z.of_nat i * pw h /\
                  (i < P_L2_SIZE)%nat
  end.

Definition node_base (b : Z) (l : nat) : Prop :=
  (exists q, b = q * pw (S l)) /\ 0 <= b /\ b + pw (S l) <= pw L /\ (l < L)%nat.

Record tree_ok gh t : Prop := mk_tree_ok {
  tree_nodes : length gh = length (nodes t);
  tree_small : Z.of_nat (length gh) <= PHYS_MAP_NODE_NIL;
  tree_len : forall k p, nodes t !! k = Some p -> length p = P_L2_SIZE;
  tree_base : forall k b l, gh !! k = Some (b, l) -> node_base b l;
  tree_slots : forall lp b h e, loc_at gh lp b h -> entry t lp = Some e -> slot_ok gh h b e;
  tree_parent : forall k b l, gh !! k = Some (b, l) ->
    exists lp, loc_at gh lp b (S l) /\ entry t lp = Some (mk_entry 1 (Z.of_nat k))
}.

Definition page_at t (p : Z) : option Z := walk (nodes t) (phys_map t) L p.

Definition leaf_ok (s : Z) : Prop := Q s \/ s = PHYS_SECTION_UNASSIGNED.

Lemma node_not_nil gh t k x :
  tree_ok gh t -> gh !! k = Some x -> Z.of_nat k <> PHYS_MAP_NODE_NIL.
Proof. intros Ht Hk%lookup_lt_Some. pose proof (tree_small _ _ Ht). lia. Qed.

Lemma slot_entry_ok gh t h b e :
  tree_ok gh t -> slot_ok gh h b e -> entry_ok (gh.*2) leaf_ok h e.
Proof.
  intros Ht [s Hs|Hh|Hh|k Hh Hg].
  - constructor. by left.
  - constructor. by right.
  - apply (ok_nil _ _ _ 1). lia.
  - apply (ok_child _ _ _ 1); [lia|by eapply node_not_nil|].
    rewrite list_lookup_fmap, Hg. simpl. f_equal. lia.
Qed.

Lemma tree_levels gh t : tree_ok gh t -> levels_ok (gh.*2) leaf_ok (nodes t).
Proof.
  intros Ht. split.
  - intros k l Hk. destruct (lookup_lt_is_Some_2 (nodes t) k) as [p Hp].
    { apply lookup_lt_Some in Hk. rewrite length_fmap in Hk. by rewrite <- (tree_nodes _ _ Ht). }
    exists p. split; [done|]. by eapply tree_len.
  - intros k l i e Hk He. apply list_lookup_fmap_Some_1 in Hk as ([b l'] & -> & Hg).
    apply (slot_entry_ok gh t l' (b + Z.of_nat i * pw l')); [done|].
    apply (tree_slots _ _ Ht (slot k i)); [|done].
    exists b. split_and!; [done|done|]. unfold node_entry in He.
    destruct (nodes t !! k) as [p|] eqn:Hp; [|done]. apply lookup_lt_Some in He.
    by rewrite (tree_len _ _ Ht k p Hp) in He.
Qed.

Lemma tree_entry gh t lp b h :
  tree_ok gh t -> loc_at gh lp b h -> exists e, entry t lp = Some e /\ slot_ok gh h b e.
Proof.
  intros Ht Hlp. assert (exists e, entry t lp = Some e) as [e He].
  { destruct lp as [|k i]; [by eexists|]. destruct Hlp as (b0 & Hk & _ & Hi).
    destruct (levels_entry _ _ _ k h i (tree_levels _ _ Ht)) as (e & He & _); [|done|by exists e].
    by rewrite list_lookup_fmap, Hk. }
  exists e. split; [done|]. by eapply tree_slots.
Qed.

Lemma loc_range gh t lp b h :
  tree_ok gh t -> loc_at gh lp b h -> 0 <= b /\ b + pw h <= pw L /\ (h <= L)%nat.
Proof.
  intros Ht. destruct lp as [|k i]; [intros [-> ->]; lia|].
  intros (b0 & Hk & -> & Hi). destruct (tree_base _ _ Ht _ _ _ Hk) as (_ & Hb & Hle & Hl).
  rewrite pw_S in Hle. unfold P_L2_SIZE in Hi. pose proof (pw_pos h). nia.
Qed.

(** The slot of page [p] in a node that stands for it. *)
Lemma loc_slot gh t k b l p :
  tree_ok gh t -> gh !! k = Some (b, l) -> b <= p < b + pw (S l) ->
  loc_at gh (slot k (page_idx l p)) (b + Z.of_nat (page_idx l p) * pw l) l /\
  b + Z.of_nat (page_idx l p) * pw l <= p < b + Z.of_nat (page_idx l p) * pw l + pw l.
Proof.
  intros Ht Hk Hp. destruct (tree_base _ _ Ht _ _ _ Hk) as ((q & ->) & _).
  split; [eexists; split_and!; [done|done|apply page_idx_lt]|].
  by apply page_idx_iff; [apply page_idx_lt| |].
Qed.

Lemma loc_slot_inv gh t k i b h p :
  tree_ok gh t -> loc_at gh (slot k i) b h -> b <= p < b + pw h -> page_idx h p = i.
Proof.
  intros Ht (b0 & Hk & -> & Hi) Hp. destruct (tree_base _ _ Ht _ _ _ Hk) as ((q & ->) & _).
  apply (page_idx_iff h q); [done| |done]. rewrite pw_S in *. pose proof (pw_pos h).
  unfold P_L2_SIZE in Hi. nia.
Qed.

Lemma tree_walk_child gh t k h p b :
  tree_ok gh t -> gh !! k = Some (b, h) ->
  exists e, entry t (slot k (page_idx h p)) = Some e /\
    walk (nodes t) (mk_entry 1 (Z.of_nat k)) (S h) p = walk (nodes t) e h p.
Proof.
  intros Ht Hk. assert (gh.*2 !! k = Some h) as Hlv by (by rewrite list_lookup_fmap, Hk).
  destruct (levels_entry _ _ _ k h (page_idx h p) (tree_levels _ _ Ht) Hlv) as (e & He & _);
    [apply page_idx_lt|].
  exists e. split; [done|].
  pose proof (walk_child _ _ (nodes t) 1 k (S h) p e (tree_levels _ _ Ht) ltac:(lia)
    (node_not_nil _ _ _ _ Ht Hk)) as E.
  replace (S h - 1)%nat with h in E by lia. by apply E.
Qed.

(** Every place lies on the walks to the pages it stands for. *)
Lemma reach gh t lp b h e p :
  tree_ok gh t -> loc_at gh lp b h -> entry t lp = Some e -> b <= p < b + pw h ->
  page_at t p = walk (nodes t) e h p.
Proof.
  intros Ht. remember (L - h)%nat as d eqn:Hd. revert lp b h e Hd.
  induction d as [d IH] using lt_wf_ind. intros lp b h e Hd Hlp He Hp.
  destruct lp as [|k i]; [destruct Hlp as [-> ->]; simpl in He; by simplify_eq|].
  pose proof Hlp as (b0 & Hk & Hb & Hi).
  destruct (tree_base _ _ Ht _ _ _ Hk) as (_ & _ & _ & Hl).
  destruct (tree_parent _ _ Ht _ _ _ Hk) as (lp' & Hlp' & He').
  rewrite (IH (L - S h)%nat ltac:(lia) lp' b0 (S h) _ eq_refl Hlp' He').
  - destruct (tree_walk_child gh t k h p b0 Ht Hk) as (e2 & He2 & ->).
    rewrite (loc_slot_inv gh t k i b h p Ht Hlp Hp) in He2. simpl in He, He2. congruence.
  - rewrite pw_S. pose proof (pw_pos h). unfold P_L2_SIZE in Hi. nia.
Qed.

(** A walk depends only on the places that stand for its page. *)
Lemma walk_frame gh gh' t t' p :
  tree_ok gh t -> tree_ok gh' t' -> (forall k x, gh !! k = Some x -> gh' !! k = Some x) ->
  (forall k i b h, loc_at gh (slot k i) b h -> b <= p < b + pw h ->
     entry t' (slot k i) = entry t (slot k i)) ->
  forall h b e, slot_ok gh h b e -> b <= p < b + pw h ->
  walk (nodes t') e h p = walk (nodes t) e h p.
Proof.
  intros Ht Ht' Hgh Hsame h. induction h as [|h IH]; intros b e He Hp.
  - destruct He; [done|done|lia|lia].
  - destruct He as [s Hs| |Hh|k Hh Hg]; [done|done| |].
    + by rewrite !(walk_nil _ 1) by lia.
    + simpl in Hg. destruct (tree_walk_child gh t k h p b Ht Hg) as (e & He & ->).
      destruct (tree_walk_child gh' t' k h p b Ht') as (e' & He' & ->); [by apply Hgh|].
      destruct (loc_slot gh t k b h p Ht Hg Hp) as [Hloc Hr].
      rewrite (Hsame _ _ _ _ Hloc Hr), He in He'. simplify_eq.
      eapply IH; [|done]. by eapply tree_slots.
Qed.

(** *** Writing one entry *)

Lemma entry_set t lp lp' e :
  is_Some (entry t lp) ->
  entry (set_entry t lp e) lp' = if decide (lp' = lp) then Some e else entry t lp'.
Proof.
  intros Hs. case_decide as Hd.
  - subst lp'. destruct lp as [|k i]; [done|]. simpl in *. unfold node_entry in *.
    rewrite list_lookup_alter_eq. destruct Hs as [x Hs], (nodes t !! k) as [p|]; [|done].
    simpl in *. apply list_lookup_insert_eq. by eapply lookup_lt_Some.
  - destruct lp as [|k i], lp' as [|k' i']; [done|done|done|]. simpl. unfold node_entry.
    destruct (decide (k' = k)) as [->|Hk]; [|by rewrite list_lookup_alter_ne by done].
    rewrite list_lookup_alter_eq. destruct (nodes t !! k) as [p|]; [|done]. simpl.
    rewrite list_lookup_insert_ne; [done|congruence].
Qed.

Lemma set_entry_nodes t lp e : length (nodes (set_entry t lp e)) = length (nodes t).
Proof. destruct lp; [done|]. apply length_alter. Qed.

Lemma set_entry_alloc t lp e : nodes_nb_alloc (set_entry t lp e) = nodes_nb_alloc t.
Proof. by destruct lp. Qed.

Lemma set_entry_len t lp e k p :
  (forall k p, nodes t !! k = Some p -> length p = P_L2_SIZE) ->
  nodes (set_entry t lp e) !! k = Some p -> length p = P_L2_SIZE.
Proof.
  intros Hlen. destruct lp as [|k' i]; [apply Hlen|]. simpl.
  destruct (decide (k = k')) as [->|Hk]; [|rewrite list_lookup_alter_ne by done; apply Hlen].
  rewrite list_lookup_alter_eq. destruct (nodes t !! k') as [p'|] eqn:E; [|done].
  intros [= <-]. rewrite length_insert. by eapply Hlen.
Qed.

Lemma loc_at_mono gh gh' lp b h :
  (forall k x, gh !! k = Some x -> gh' !! k = Some x) -> loc_at gh lp b h -> loc_at gh' lp b h.
Proof.
  intros Hgh. destruct lp as [|k i]; [done|]. intros (b0 & Hk & H).
  exists b0. split; [by apply Hgh|done].
Qed.

Lemma slot_ok_mono gh gh' h b e :
  (forall k x, gh !! k = Some x -> gh' !! k = Some x) -> slot_ok gh h b e -> slot_ok gh' h b e.
Proof.
  intros Hgh [s Hs|Hh|Hh|k Hh Hg]; [by apply so_leaf|by apply so_free|by apply so_nil|].
  by apply so_child; [|apply Hgh].
Qed.

(** A place stands for one range of pages. *)
Lemma loc_at_fun gh lp b h b' h' :
  loc_at gh lp b h -> loc_at gh lp b' h' -> b = b' /\ h = h'.
Proof.
  destruct lp as [|k i]; [by intros [-> ->] [-> ->]|].
  intros (b0 & Hk & -> & _) (b1 & Hk' & -> & _). by simplify_eq.
Qed.

(** Outside the pages of the place written, walks are the same. *)
Lemma page_at_frame gh gh' t t' lp b h p :
  tree_ok gh t -> tree_ok gh' t' -> (forall k x, gh !! k = Some x -> gh' !! k = Some x) ->
  loc_at gh lp b h -> (forall lp' b' h', loc_at gh lp' b' h' -> lp' <> lp ->
    entry t' lp' = entry t lp') ->
  0 <= p < pw L -> ~ (b <= p < b + pw h) -> page_at t' p = page_at t p.
Proof.
  intros Ht Ht' Hgh Hlp Hsame Hp Hnp.
  assert (lp <> root) as Hr by (intros ->; destruct Hlp as [-> ->]; lia).
  unfold page_at.
  assert (phys_map t' = phys_map t) as ->.
  { pose proof (Hsame root 0 L ltac:(done) ltac:(done)) as E. simpl in E. congruence. }
  eapply (walk_frame gh gh' t t' p Ht Ht' Hgh _ L 0); [|lia].
  - by apply (tree_slots _ _ Ht root 0 L).
Unshelve.
  intros k i b' h' Hloc Hr'. eapply Hsame; [done|]. intros <-.
  destruct (loc_at_fun _ _ _ _ _ _ Hlp Hloc) as [-> ->]. lia.
Qed.

Lemma set_leaf_ok gh t lp b h s :
  tree_ok gh t -> loc_at gh lp b h -> Q s ->
  (forall k x, gh !! k = Some x -> entry t lp <> Some (mk_entry 1 (Z.of_nat k))) ->
  let t' := set_entry t lp (mk_entry 0 s) in
  tree_ok gh t' /\
  forall p, 0 <= p < pw L ->
    page_at t' p = if decide (b <= p < b + pw h) then Some s else page_at t p.
Proof.
  intros Ht Hlp Hs Hnc t'. destruct (tree_entry gh t lp b h Ht Hlp) as (e0 & He0 & _).
  assert (forall lp', entry t' lp' = if decide (lp' = lp) then Some (mk_entry 0 s)
                                     else entry t lp') as Hent.
  { intros lp'. apply entry_set. by exists e0. }
  assert (tree_ok gh t') as Ht'.
  { split.
    - unfold t'. rewrite set_entry_nodes. apply Ht.
    - apply Ht.
    - intros k p. apply set_entry_len. apply Ht.
    - apply Ht.
    - intros lp' b' h' e Hloc. rewrite Hent. case_decide; [|by eapply tree_slots].
      intros [= <-]. by constructor.
    - intros k b' l Hk. destruct (tree_parent _ _ Ht _ _ _ Hk) as (lp' & Hloc & He).
      exists lp'. split; [done|]. rewrite Hent. case_decide; [|done]. subst lp'.
      by destruct (Hnc _ _ Hk). }
  split; [done|]. intros p Hp. case_decide as Hd.
  - rewrite (reach gh t' lp b h (mk_entry 0 s) p Ht' Hlp); [done| |done].
    rewrite Hent. by rewrite decide_True.
  - eapply (page_at_frame gh gh t t' lp b h); try done.
    intros lp' b' h' _ Hne. rewrite Hent. by rewrite decide_False.
Qed.

(** *** Allocating a node *)

#[local] Arguments replicate : simpl never.

Definition fresh (l : nat) : PhysPageEntry :=
  if (l =? 0)%nat then mk_entry 0 PHYS_SECTION_UNASSIGNED else mk_entry 1 PHYS_MAP_NODE_NIL.

Lemma fresh_ok gh l b : slot_ok gh l b (fresh l).
Proof.
  unfold fresh. destruct (Nat.eqb_spec l 0); [by apply so_free|apply so_nil; lia].
Qed.

Lemma walk_fresh ns l p : walk ns (fresh l) l p = Some PHYS_SECTION_UNASSIGNED.
Proof.
  unfold fresh. destruct (Nat.eqb_spec l 0); [done|]. apply (walk_nil _ 1). lia.
Qed.

Lemma loc_base gh t lp b l :
  tree_ok gh t -> loc_at gh lp b (S l) -> node_base b l.
Proof.
  intros Ht Hlp. pose proof (loc_range _ _ _ _ _ Ht Hlp) as (H1 & H2 & H3).
  split; [|lia]. destruct lp as [|k i]; [destruct Hlp as [-> _]; by exists 0|].
  destruct Hlp as (b0 & Hk & -> & Hi).
  destruct (tree_base _ _ Ht _ _ _ Hk) as ((q & ->) & _).
  exists (q * 512 + Z.of_nat i). rewrite (pw_S (S l)). lia.
Qed.

(** The table with a new node for the empty entry at [lp]. *)
Definition add_node t lp (l : nat) : page_table :=
  set_entry (mk_table (phys_map t) (nodes t ++ [replicate P_L2_SIZE (fresh l)])
               (nodes_nb_alloc t) (alloc_hint t))
    lp (mk_entry 1 (Z.of_nat (length (nodes t)))).

Lemma node_alloc_run t (l : nat) :
  Z.of_nat (length (nodes t)) < nodes_nb_alloc t <= PHYS_MAP_NODE_NIL ->
  phys_map_node_alloc t (l =? 0)%nat =
  Some (Z.of_nat (length (nodes t)),
    mk_table (phys_map t) (nodes t ++ [replicate P_L2_SIZE (fresh l)])
      (nodes_nb_alloc t) (alloc_hint t)).
Proof.
  intros H. unfold phys_map_node_alloc, fresh.
  destruct (Z.eqb_spec (Z.of_nat (length (nodes t))) PHYS_MAP_NODE_NIL); [lia|].
  destruct (Z.eqb_spec (Z.of_nat (length (nodes t))) (nodes_nb_alloc t)); [lia|].
  by destruct (l =? 0)%nat.
Qed.

Lemma lookup_snoc_cases {A} (l : list A) x k y :
  (l ++ [x]) !! k = Some y -> l !! k = Some y \/ (k = length l /\ y = x).
Proof.
  intros [Hk|[Hk E]]%lookup_app_Some; [by left|right].
  destruct (k - length l)%nat eqn:En; simplify_eq/=. split; [lia|done].
Qed.

Lemma entry_add_node gh t lp b l lp' :
  tree_ok gh t -> loc_at gh lp b (S l) ->
  entry (add_node t lp l) lp' =
  if decide (lp' = lp) then Some (mk_entry 1 (Z.of_nat (length (nodes t)))) else
  match lp' with
  | slot k i => if decide (k = length (nodes t) /\ (i < P_L2_SIZE)%nat)
                then Some (fresh l) else entry t lp'
  | root => entry t lp'
  end.
Proof.
  intros Ht Hlp. destruct (tree_entry gh t lp b _ Ht Hlp) as (e0 & He0 & _).
  set (t1 := mk_table (phys_map t) (nodes t ++ [replicate P_L2_SIZE (fresh l)])
               (nodes_nb_alloc t) (alloc_hint t)).
  assert (forall lp', entry t1 lp' =
    match lp' with
    | slot k i => if decide (k = length (nodes t) /\ (i < P_L2_SIZE)%nat)
                  then Some (fresh l) else entry t lp'
    | root => entry t lp'
    end) as E1.
  { intros [|k i]; [done|]. simpl. unfold node_entry. case_decide as Hd.
    - destruct Hd as [-> Hi]. rewrite lookup_app_r, Nat.sub_diag by lia. simpl.
      by apply lookup_replicate_2.
    - destruct (nodes t !! k) as [p|] eqn:E; [by rewrite (lookup_app_l_Some _ _ _ _ E)|].
      apply lookup_ge_None in E. rewrite lookup_app_r by done. simpl.
      destruct (k - length (nodes t))%nat as [|n] eqn:En; [|done]. simpl.
      apply lookup_ge_None. rewrite length_replicate. lia. }
  unfold add_node. fold t1. rewrite entry_set; [by rewrite E1|].
  rewrite E1. destruct lp as [|k i]; [by eexists|]. case_decide; by eexists.
Qed.

Lemma add_node_ok gh t lp b l :
  tree_ok gh t -> loc_at gh lp b (S l) -> entry t lp = Some (mk_entry 1 PHYS_MAP_NODE_NIL) ->
  Z.of_nat (length (nodes t)) < PHYS_MAP_NODE_NIL ->
  tree_ok (gh ++ [(b, l)]) (add_node t lp l) /\
  forall p, 0 <= p < pw L -> page_at (add_node t lp l) p = page_at t p.
Proof.
  intros Ht Hlp He Hn. pose proof (tree_nodes _ _ Ht) as Hlen.
  set (gh' := gh ++ [(b, l)]).
  assert (forall k x, gh !! k = Some x -> gh' !! k = Some x) as Hgh.
  { intros k x. apply lookup_app_l_Some. }
  pose proof (fun lp' => entry_add_node gh t lp b l lp' Ht Hlp) as Hent.
  assert (forall lp' b' h', loc_at gh lp' b' h' -> lp' <> lp ->
    entry (add_node t lp l) lp' = entry t lp') as Hold.
  { intros lp' b' h' Hloc Hne. rewrite Hent, decide_False by done.
    destruct lp' as [|k i]; [done|]. destruct Hloc as (b0 & Hk & _).
    apply lookup_lt_Some in Hk. rewrite decide_False; [done|lia]. }
  assert (forall lp' b' h', loc_at gh' lp' b' h' -> loc_at gh lp' b' h' \/
    exists i, lp' = slot (length gh) i /\ h' = l) as Hloc'.
  { intros [|k i] b' h'; [by left|]. intros (b0 & Hk & H).
    apply lookup_snoc_cases in Hk as [Hk|[-> [= -> ->]]]; [left; by exists b0|right].
    by exists i. }
  assert (tree_ok gh' (add_node t lp l)) as Ht'.
  { split.
    - unfold add_node. rewrite set_entry_nodes. simpl. unfold gh'. rewrite !length_app. simpl. lia.
    - unfold gh'. rewrite length_app. simpl. lia.
    - intros k p. apply set_entry_len. simpl. intros k' p' Hk'.
      apply lookup_snoc_cases in Hk' as [Hk'|[_ ->]]; [by eapply (tree_len _ _ Ht)|].
      apply length_replicate.
    - intros k b' l' Hk. apply lookup_snoc_cases in Hk as [Hk|[_ [= -> ->]]];
        [by eapply tree_base|by eapply loc_base].
    - intros lp' b' h' e Hl'. destruct (decide (lp' = lp)) as [->|Hne].
      + rewrite Hent, decide_True by done. intros [= <-].
        destruct (loc_at_fun _ _ _ _ _ _ (loc_at_mono _ _ _ _ _ Hgh Hlp) Hl') as [<- <-].
        apply so_child; [lia|]. simpl. unfold gh'. rewrite <- Hlen.
        by apply list_lookup_middle.
      + destruct (Hloc' _ _ _ Hl') as [Hl|(i & -> & ->)].
        * rewrite (Hold _ _ _ Hl Hne). intros He'.
          by eapply slot_ok_mono, tree_slots.
        * rewrite Hent, decide_False by done. rewrite Hlen. destruct Hl' as (? & _ & _ & Hi).
          rewrite decide_True by done. intros [= <-]. apply fresh_ok.
    - intros k b' l' Hk. apply lookup_snoc_cases in Hk as [Hk|[-> [= -> ->]]].
      + destruct (tree_parent _ _ Ht _ _ _ Hk) as (lp' & Hl' & He').
        exists lp'. split; [by eapply loc_at_mono|]. rewrite (Hold _ _ _ Hl'); [done|].
        intros ->. rewrite He in He'. pose proof (node_not_nil _ _ _ _ Ht Hk). congruence.
      + exists lp. split; [by eapply loc_at_mono|].
        by rewrite Hent, decide_True, Hlen. }
  split; [done|]. intros p Hp. destruct (decide (b <= p < b + pw (S l))) as [Hin|Hout].
  - rewrite (reach _ _ lp b (S l) _ p Ht' (loc_at_mono _ _ _ _ _ Hgh Hlp)
      (eq_trans (Hent lp) (decide_True _ _ eq_refl)) Hin).
    rewrite (reach _ _ lp b (S l) _ p Ht Hlp He Hin), (walk_nil _ 1) by lia.
    destruct (tree_walk_child gh' (add_node t lp l) (length (nodes t)) l p b Ht') as (e & He' & ->).
    { unfold gh'. rewrite <- Hlen. by apply list_lookup_middle. }
    rewrite Hent in He'. rewrite decide_False in He'.
    + rewrite decide_True in He' by (split; [done|apply page_idx_lt]).
      injection He' as <-. apply walk_fresh.
    + intros <-. destruct Hlp as (b0 & Hk & _). apply lookup_lt_Some in Hk. lia.
  - by eapply (page_at_frame gh gh' t _ lp b (S l)).
Qed.

(** *** Filling a range *)

Definition is_free t (p : Z) : Prop := page_at t p = Some PHYS_SECTION_UNASSIGNED.

(** Every node below level [m] has a page in use. *)
Definition busy gh t (m : nat) : Prop :=
  forall k b l, gh !! k = Some (b, l) -> (l < m)%nat ->
    exists p, b <= p < b + pw (S l) /\ ~ is_free t p.

Context (HL : pw L < 2 ^ 64) (leaf : Z).
Context (HQ : forall s, Q s -> s <> PHYS_SECTION_UNASSIGNED) (Hleaf : Q leaf).

(** From [t] to [t'], exactly the pages in [index, index') were given to
    [leaf], with at most [c] new nodes, all below level [m]. *)
Record filled (m : nat) (c : Z) gh t gh' t' (index index' : Z) : Prop := mk_filled {
  filled_new : exists new, gh' = gh ++ new /\ Forall (fun x => (snd x < m)%nat) new;
  filled_ok : tree_ok gh' t';
  filled_pages : forall p, 0 <= p < pw L ->
    page_at t' p = if decide (index <= p < index') then Some leaf else page_at t p;
  filled_cost : Z.of_nat (length (nodes t')) <= Z.of_nat (length (nodes t)) + c;
  filled_alloc : nodes_nb_alloc t' = nodes_nb_alloc t;
  filled_hint : alloc_hint t' = alloc_hint t
}.

Lemma filled_trans m c1 c2 gh t gh1 t1 gh2 t2 i i1 i2 :
  filled m c1 gh t gh1 t1 i i1 -> filled m c2 gh1 t1 gh2 t2 i1 i2 -> i <= i1 <= i2 ->
  filled m (c1 + c2) gh t gh2 t2 i i2.
Proof.
  intros [(n1 & -> & Hn1) Ht1 Hp1 Hc1 Ha1 Hh1] [(n2 & -> & Hn2) Ht2 Hp2 Hc2 Ha2 Hh2] Hi. split.
  - exists (n1 ++ n2). split; [by rewrite app_assoc|by apply Forall_app].
  - done.
  - intros p Hp. rewrite Hp2, Hp1 by done. repeat case_decide; done || lia.
  - lia.
  - congruence.
  - congruence.
Qed.

Lemma filled_weaken m m' c c' gh t gh' t' i i' :
  (m <= m')%nat -> c <= c' -> filled m c gh t gh' t' i i' -> filled m' c' gh t gh' t' i i'.
Proof.
  intros Hm Hc [(n1 & -> & Hn1) Ht1 Hp1 Hc1 Ha1 Hh1]. split; [|done|done|lia|done|done].
  exists n1. split; [done|]. eapply Forall_impl; [done|]. simpl. lia.
Qed.

Lemma filled_nothing m c gh t i i' :
  tree_ok gh t -> 0 <= c -> i' <= i -> filled m c gh t gh t i i'.
Proof.
  intros Ht Hc Hi. split; [|done| |lia|done|done].
  - exists []. by rewrite app_nil_r.
  - intros p Hp. rewrite decide_False; [done|lia].
Qed.

Lemma filled_mono m c gh t gh' t' i i' k x :
  filled m c gh t gh' t' i i' -> gh !! k = Some x -> gh' !! k = Some x.
Proof. intros [(n1 & -> & _) _ _ _ _ _]. apply lookup_app_l_Some. Qed.

(** Pages in use stay in use. *)
Lemma filled_used m c gh t gh' t' i i' p :
  filled m c gh t gh' t' i i' -> 0 <= p < pw L -> ~ is_free t p -> ~ is_free t' p.
Proof.
  intros Hf Hp Hn. unfold is_free. rewrite (filled_pages _ _ _ _ _ _ _ _ Hf) by done.
  case_decide; [|done]. intros [= E]. by apply (HQ leaf).
Qed.

Lemma node_page_range gh t k b l p :
  tree_ok gh t -> gh !! k = Some (b, l) -> b <= p < b + pw (S l) -> 0 <= p < pw L.
Proof. intros Ht Hk. pose proof (tree_base _ _ Ht _ _ _ Hk) as (_ & ? & ? & _). lia. Qed.

(** The nodes stay busy, those that were and the new ones that are. *)
Lemma busy_filled m m' c gh t gh' t' i i' :
  tree_ok gh t -> busy gh t m -> filled m' c gh t gh' t' i i' ->
  (forall k b l, (length gh <= k)%nat -> gh' !! k = Some (b, l) -> (l < m)%nat ->
     exists p, b <= p < b + pw (S l) /\ ~ is_free t' p) ->
  busy gh' t' m.
Proof.
  intros Ht Hb Hf Hnew k b l Hk Hl. destruct (decide (length gh <= k)%nat); [by eapply Hnew|].
  destruct (lookup_lt_is_Some_2 gh k) as [[b' l'] Hk']; [lia|].
  rewrite (filled_mono _ _ _ _ _ _ _ _ _ _ Hf Hk') in Hk. simplify_eq.
  destruct (Hb _ _ _ Hk' Hl) as (p & Hp & Hfree). exists p. split; [done|].
  eapply filled_used; [done| |done]. by eapply node_page_range.
Qed.

Definition level_cost (l : nat) (b index nb : Z) : Z :=
  if (index =? b) || (b + pw (S l) <=? index + nb) then Z.of_nat l + 1 else 2 * Z.of_nat l + 1.

Definition slots_cost (l i : nat) (b index nb : Z) : Z :=
  if nb =? 0 then 0 else
  (if index =? b + Z.of_nat i * pw l then 0 else Z.of_nat l) +
  (if b + pw (S l) <=? index + nb then 0 else Z.of_nat l).

(** What [phys_page_set_level] does at level [l]. *)
Definition level_spec (l : nat) : Prop :=
  forall gh t lp b index nb,
    tree_ok gh t -> loc_at gh lp b (S l) -> busy gh t (S l) ->
    b <= index < b + pw (S l) -> 0 < nb -> index + nb <= pw L ->
    (forall p, index <= p < index + nb -> is_free t p) ->
    Z.of_nat (length (nodes t)) + level_cost l b index nb <= nodes_nb_alloc t ->
    nodes_nb_alloc t <= PHYS_MAP_NODE_NIL ->
    let index' := Z.min (index + nb) (b + pw (S l)) in
    exists gh' t',
      phys_page_set_level t lp index nb leaf l = Some (t', index', index + nb - index') /\
      filled (S l) (level_cost l b index nb) gh t gh' t' index index' /\ busy gh' t' (S l).

Lemma step_pw l : (l < L)%nat -> u64 (Z.shiftl 1 (Z.of_nat l * P_L2_BITS)) = pw l.
Proof.
  intros Hl. rewrite Z.shiftl_mul_pow2 by (unfold P_L2_BITS; lia).
  replace (1 * 2 ^ (Z.of_nat l * P_L2_BITS)) with (pw l)
    by (unfold pw, P_L2_BITS; rewrite Z.mul_1_l; f_equal; lia).
  apply wrap_id. pose proof (pw_pos l). pose proof (pw_le l L). unfold uint. lia.
Qed.

(** The alignment test, for an index within a slot. *)
Lemma aligned_test l q i index :
  q * pw (S l) + Z.of_nat i * pw l <= index < q * pw (S l) + Z.of_nat i * pw l + pw l ->
  (Z.land index (pw l - 1) =? 0) = (index =? q * pw (S l) + Z.of_nat i * pw l).
Proof.
  intros H. pose proof (pw_pos l) as Hw. unfold pw at 1.
  replace (2 ^ (9 * Z.of_nat l) - 1) with (Z.ones (9 * Z.of_nat l)) by (rewrite Z.ones_equiv; lia).
  rewrite Z.land_ones by lia. fold (pw l).
  set (x := index - (q * pw (S l) + Z.of_nat i * pw l)).
  assert (index mod pw l = x) as ->.
  { symmetry. apply (Z.mod_unique _ _ (q * 512 + Z.of_nat i)); [lia|].
    unfold x. rewrite pw_S. lia. }
  unfold x.
  destruct (Z.eqb_spec index (q * pw (S l) + Z.of_nat i * pw l)); [apply Z.eqb_eq|apply Z.eqb_neq];
    lia.
Qed.

Lemma slot_child gh h b k :
  slot_ok gh h b (mk_entry 1 (Z.of_nat k)) -> Z.of_nat k <> PHYS_MAP_NODE_NIL ->
  (0 < h)%nat /\ gh !! k = Some (b, pred h).
Proof.
  intros Hs Hn. remember (mk_entry 1 (Z.of_nat k)) as e eqn:E.
  destruct Hs as [s Hs| | |k' Hh Hg]; [congruence|congruence|congruence|].
  injection E as E. assert (k' = k) as -> by lia. done.
Qed.

(** A whole slot is given to the leaf. *)
Lemma whole_slot gh t k i b l :
  tree_ok gh t -> loc_at gh (slot k i) b l -> busy gh t l ->
  (forall p, b <= p < b + pw l -> is_free t p) ->
  let t' := set_entry t (slot k i) (mk_entry 0 leaf) in
  filled l 0 gh t gh t' b (b + pw l) /\ busy gh t' l.
Proof.
  intros Ht Hlp Hb Hfree t'.
  destruct (set_leaf_ok gh t (slot k i) b l leaf Ht Hlp Hleaf) as [Ht' Hp].
  { intros k' [b' l'] Hk' He. pose proof (tree_slots _ _ Ht _ _ _ _ Hlp He) as Hs.
    destruct (slot_child _ _ _ _ Hs (node_not_nil _ _ _ _ Ht Hk')) as [Hl Hg].
    destruct (Hb k' b (pred l) Hg) as (p & Hp & Hn); [lia|]. apply Hn, Hfree.
    replace (S (pred l)) with l in Hp by lia. done. }
  assert (filled l 0 gh t gh t' b (b + pw l)) as Hf.
  { split; [exists []; by rewrite app_nil_r|done|done| |by apply set_entry_alloc|done].
    unfold t'. rewrite set_entry_nodes. lia. }
  split; [done|]. apply (busy_filled l l 0 gh t gh t' b (b + pw l)); [done..|].
  intros k' b' l' Hlen Hk'.
  apply lookup_lt_Some in Hk'. lia.
Qed.

Lemma slots_cost_nonneg l i b index nb : 0 <= slots_cost l i b index nb.
Proof. unfold slots_cost. repeat case_if; lia. Qed.

Lemma slots_cost_whole l i b index nb :
  index = b + Z.of_nat i * pw l -> 0 < nb ->
  slots_cost l (S i) b (index + pw l) (nb - pw l) <= slots_cost l i b index nb.
Proof.
  intros -> Hnb. unfold slots_cost.
  replace (b + Z.of_nat (S i) * pw l) with (b + Z.of_nat i * pw l + pw l) by lia.
  rewrite !Z.eqb_refl. repeat case_if; lia.
Qed.

Lemma slots_cost_part l i b index nb :
  let si := b + Z.of_nat i * pw (S l) in
  (i < P_L2_SIZE)%nat -> si <= index < si + pw (S l) -> 0 < nb ->
  (index = si -> nb < pw (S l)) ->
  let index' := Z.min (index + nb) (si + pw (S l)) in
  level_cost l si index nb + slots_cost (S l) (S i) b index' (index + nb - index') <=
  slots_cost (S l) i b index nb.
Proof.
  intros si Hi Hin Hnb Hpart index'. unfold slots_cost, level_cost. fold si.
  assert (si + pw (S l) <= b + pw (S (S l))).
  { unfold si. rewrite (pw_S (S l)). pose proof (pw_pos (S l)). unfold P_L2_SIZE in Hi. nia. }
  replace (b + Z.of_nat (S i) * pw (S l)) with (si + pw (S l)) by (unfold si; lia).
  replace (index' + (index + nb - index')) with (index + nb) by lia. unfold index'.
  destruct (Z.eqb_spec nb 0); [lia|]. cbn [orb].
  destruct (Z.eqb_spec index si), (Z.leb_spec (si + pw (S l)) (index + nb));
    cbn [orb]; repeat case_if; lia.
Qed.

Lemma set_slots_stop l i b gh t index nb :
  tree_ok gh t -> busy gh t l ->
  Z.min (index + nb) (b + pw (S l)) = index ->
  let index' := Z.min (index + nb) (b + pw (S l)) in
  exists gh' t',
    Some (t, index, nb) = Some (t', index', index + nb - index') /\
    filled l (slots_cost l i b index nb) gh t gh' t' index index' /\ busy gh' t' l.
Proof.
  intros Ht Hb -> index'. exists gh, t. unfold index'. split_and!; [do 2 f_equal; lia| |done].
  apply filled_nothing; [done|apply slots_cost_nonneg|lia].
Qed.

(** Pages beyond the filled range are as free as they were. *)
Lemma free_filled m c gh t gh' t' i i1 i2 :
  filled m c gh t gh' t' i i1 -> 0 <= i1 -> (forall p, i1 <= p < i2 -> is_free t p) -> i2 <= pw L ->
  forall p, i1 <= p < i2 -> is_free t' p.
Proof.
  intros Hf H1 Hfree H2 p Hp. unfold is_free.
  rewrite (filled_pages _ _ _ _ _ _ _ _ Hf), decide_False by lia. by apply Hfree.
Qed.

(** The loop over the slots of a node, given the calls one level down. *)
Lemma set_slots_ok descend k b l :
  (l < L)%nat ->
  (forall l', l = S l' -> level_spec l') ->
  (forall l' t lp index nb, l = S l' ->
     descend t lp index nb = phys_page_set_level t lp index nb leaf l') ->
  forall n i gh t index nb, (n + i = P_L2_SIZE)%nat ->
    gh !! k = Some (b, l) -> tree_ok gh t -> busy gh t l ->
    b <= index <= b + pw (S l) -> 0 <= nb -> index + nb <= pw L ->
    (0 < nb -> b + Z.of_nat i * pw l <= index < b + Z.of_nat i * pw l + pw l) ->
    (forall p, index <= p < index + nb -> is_free t p) ->
    Z.of_nat (length (nodes t)) + slots_cost l i b index nb <= nodes_nb_alloc t ->
    nodes_nb_alloc t <= PHYS_MAP_NODE_NIL ->
    let index' := Z.min (index + nb) (b + pw (S l)) in
    exists gh' t',
      set_slots descend (pw l) leaf k n t index nb = Some (t', index', index + nb - index') /\
      filled l (slots_cost l i b index nb) gh t gh' t' index index' /\ busy gh' t' l.
Proof.
  intros Hl Hspec Hdesc n. pose proof (pw_pos l) as Hw. pose proof (pw_S l) as HwS.
  induction n as [|n IH]; intros i gh t index nb Hni Hk Ht Hb Hin Hnb Hend Hpos Hfree Hcap Hnil.
  { apply set_slots_stop; [done..|]. unfold P_L2_SIZE in Hni.
    destruct (decide (nb = 0)); [lia|]. specialize (Hpos ltac:(lia)). nia. }
  cbn [set_slots]. destruct (Z.eqb_spec nb 0) as [->|Hnz]; [apply set_slots_stop; [done..|lia]|].
  specialize (Hpos ltac:(lia)). replace (P_L2_SIZE - S n)%nat with i by lia.
  set (si := b + Z.of_nat i * pw l) in *.
  assert (loc_at gh (slot k i) si l) as Hlp by (exists b; split_and!; [done|done|lia]).
  assert (si + pw l <= b + pw (S l)).
  { unfold si. unfold P_L2_SIZE in Hni. rewrite HwS. nia. }
  assert ((Z.land index (pw l - 1) =? 0) = (index =? si)) as ->.
  { destruct (tree_base _ _ Ht _ _ _ Hk) as ((q & ->) & _). by apply aligned_test. }
  pose proof (loc_range _ _ _ _ _ Ht Hlp) as (Hsi & _).
  destruct ((index =? si) && (pw l <=? nb)) eqn:Ew; bool_to_prop.
  - subst index. rewrite wrap_id by (unfold uint; lia).
    destruct (whole_slot gh t k i si l Ht Hlp Hb) as [Hf Hb'].
    { intros p Hp. apply Hfree. lia. }
    pose proof (slots_cost_whole l i b si nb eq_refl ltac:(lia)) as Hc.
    pose proof (filled_cost _ _ _ _ _ _ _ _ Hf) as Hn.
    edestruct (IH (S i) gh (set_entry t (slot k i) (mk_entry 0 leaf)) (si + pw l) (nb - pw l))
      as (gh' & t' & E & Hf' & Hb2); rewrite ?set_entry_alloc; try done; try lia.
    { exact (filled_ok _ _ _ _ _ _ _ _ Hf). }
    { eapply free_filled; [done|lia| |lia]. intros p Hp. apply Hfree. lia. }
    exists gh', t'. replace (si + pw l + (nb - pw l)) with (si + nb) in * by lia.
    split_and!; [done| |done].
    eapply filled_weaken; [reflexivity|exact Hc|]. eapply (filled_trans _ 0); [done|done|lia].
  - assert (index = si -> nb < pw l) as Hpart.
    { intros ->. rewrite Z.eqb_refl in Ew. bool_to_prop. lia. }
    destruct l as [|l']; [change (pw 0) with 1 in *; lia|].
    rewrite (Hdesc l') by done.
    pose proof (slots_cost_part l' i b index nb ltac:(lia) Hpos ltac:(lia) Hpart) as Hc.
    fold si in Hc. cbv zeta in Hc. set (i1 := Z.min (index + nb) (si + pw (S l'))) in *.
    pose proof (slots_cost_nonneg (S l') (S i) b i1 (index + nb - i1)).
    destruct (Hspec l' eq_refl gh t (slot k i) si index nb) as (gh1 & t1 & E & Hf & Hb1);
      [done..|lia|done|done|lia|done|]. fold i1 in E, Hf. rewrite E. cbn [mbind option_bind].
    pose proof (filled_cost _ _ _ _ _ _ _ _ Hf) as Hn.
    pose proof (filled_alloc _ _ _ _ _ _ _ _ Hf) as Ha.
    edestruct (IH (S i) gh1 t1 i1 (index + nb - i1)) as (gh' & t' & E' & Hf' & Hb2); try lia.
    { by eapply filled_mono. }
    { exact (filled_ok _ _ _ _ _ _ _ _ Hf). }
    { done. }
    { eapply free_filled; [done|lia| |lia]. intros p Hp. apply Hfree. lia. }
    exists gh', t'. replace (i1 + (index + nb - i1)) with (index + nb) in * by lia.
    split_and!; [done| |done].
    eapply filled_weaken; [reflexivity|exact Hc|]. eapply filled_trans; [done|done|lia].
Qed.

(** The call of [phys_page_set_level], once the entry leads to node [k]. *)
Definition enter_node t (k : nat) (index nb : Z) (l : nat) : option (page_table * Z * Z) :=
  set_slots
    (match l with
     | O => fun _ _ _ _ => None
     | S l => fun t lp index nb => phys_page_set_level t lp index nb leaf l
     end) (u64 (Z.shiftl 1 (Z.of_nat l * P_L2_BITS))) leaf k
    (P_L2_SIZE - page_idx l index) t index nb.

Lemma set_level_old gh t lp b l index nb k :
  tree_ok gh t -> entry t lp = Some (mk_entry 1 (Z.of_nat k)) -> gh !! k = Some (b, l) ->
  phys_page_set_level t lp index nb leaf l = enter_node t k index nb l.
Proof.
  intros Ht He Hk. destruct (levels_nodes _ _ _ (tree_levels _ _ Ht) k l) as (p & Hp & _).
  { by rewrite list_lookup_fmap, Hk. }
  pose proof (node_not_nil _ _ _ _ Ht Hk) as Hn.
  destruct l; cbn [phys_page_set_level]; rewrite He; cbn [mbind option_bind skip ptr];
    (destruct (Z.eqb_spec (Z.of_nat k) PHYS_MAP_NODE_NIL); [done|]);
    cbn [Z.eqb negb andb mbind option_bind]; rewrite He; cbn [mbind option_bind ptr];
    rewrite Nat2Z.id, Hp; done.
Qed.

Lemma set_level_new gh t lp b l index nb :
  tree_ok gh t -> loc_at gh lp b (S l) -> entry t lp = Some (mk_entry 1 PHYS_MAP_NODE_NIL) ->
  Z.of_nat (length (nodes t)) < nodes_nb_alloc t <= PHYS_MAP_NODE_NIL ->
  phys_page_set_level t lp index nb leaf l =
  enter_node (add_node t lp l) (length (nodes t)) index nb l.
Proof.
  intros Ht Hlp He Hcap.
  destruct (add_node_ok gh t lp b l Ht Hlp He ltac:(lia)) as [Ht' _].
  rewrite <- (set_level_old (gh ++ [(b, l)]) (add_node t lp l) lp b l index nb
    (length (nodes t)) Ht').
  - pose proof (node_alloc_run t l Hcap) as Ha.
    destruct l; cbn [phys_page_set_level]; rewrite He; cbn [mbind option_bind skip ptr];
      rewrite Z.eqb_refl; cbn [Z.eqb negb andb]; rewrite Ha; cbn [mbind option_bind];
      change (set_entry _ lp (mk_entry 1 _)) with (add_node t lp 0) ||
      change (set_entry _ lp (mk_entry 1 _)) with (add_node t lp (S l));
      rewrite (entry_add_node gh t lp b _ lp Ht Hlp), decide_True by done;
      cbn [mbind option_bind skip ptr];
      (destruct (Z.eqb_spec (Z.of_nat (length (nodes t))) PHYS_MAP_NODE_NIL); [lia|]);
      cbn [Z.eqb negb andb mbind option_bind];
      by rewrite (entry_add_node gh t lp b _ lp Ht Hlp), decide_True by done.
  - by rewrite (entry_add_node gh t lp b _ lp Ht Hlp), decide_True by done.
  - rewrite <- (tree_nodes _ _ Ht). by apply list_lookup_middle.
Qed.

Lemma enter_node_ok gh t k b l index nb :
  (l < L)%nat -> (forall l', l = S l' -> level_spec l') ->
  gh !! k = Some (b, l) -> tree_ok gh t -> busy gh t l ->
  b <= index < b + pw (S l) -> 0 < nb -> index + nb <= pw L ->
  (forall p, index <= p < index + nb -> is_free t p) ->
  Z.of_nat (length (nodes t)) + (level_cost l b index nb - 1) <= nodes_nb_alloc t ->
  nodes_nb_alloc t <= PHYS_MAP_NODE_NIL ->
  let index' := Z.min (index + nb) (b + pw (S l)) in
  exists gh' t',
    enter_node t k index nb l = Some (t', index', index + nb - index') /\
    filled l (level_cost l b index nb - 1) gh t gh' t' index index' /\ busy gh' t' l.
Proof.
  intros Hl Hspec Hk Ht Hb Hin Hnb Hend Hfree Hcap Hnil.
  destruct (loc_slot gh t k b l index Ht Hk Hin) as [_ Hr].
  pose proof (page_idx_lt l index) as Hi. set (i := page_idx l index) in *.
  assert (slots_cost l i b index nb <= level_cost l b index nb - 1) as Hc.
  { unfold slots_cost, level_cost. destruct (Z.eqb_spec index b) as [->|]; cbn [orb].
    - assert (i = 0%nat) as -> by (pose proof (pw_pos l); nia).
      rewrite Z.mul_0_l, Z.add_0_r, Z.eqb_refl. repeat case_if; lia.
    - repeat case_if; lia. }
  unfold enter_node. rewrite step_pw by done. fold i.
  edestruct (fun H => set_slots_ok (match l with
     | O => fun _ _ _ _ => None
     | S l => fun t lp index nb => phys_page_set_level t lp index nb leaf l
     end) k b l Hl Hspec H (P_L2_SIZE - i) i gh t index nb) as (gh' & t' & E & Hf & Hb');
    try done; try lia; [by intros l' ? ? ? ? ->|].
  exists gh', t'. split_and!; [exact E| |done]. by eapply filled_weaken.
Qed.

Lemma add_node_alloc t lp l : nodes_nb_alloc (add_node t lp l) = nodes_nb_alloc t.
Proof. unfold add_node. by rewrite set_entry_alloc. Qed.

(** The first part of [phys_page_set_level]: there is a node to enter, an
    existing one or a new one. *)
Lemma level_node gh t lp b l index nb :
  tree_ok gh t -> loc_at gh lp b (S l) -> busy gh t (S l) -> b <= index < b + pw (S l) ->
  is_free t index -> Z.of_nat (length (nodes t)) < nodes_nb_alloc t <= PHYS_MAP_NODE_NIL ->
  exists k gh1 t1,
    phys_page_set_level t lp index nb leaf l = enter_node t1 k index nb l /\
    gh1 !! k = Some (b, l) /\ filled (S l) 1 gh t gh1 t1 index index /\
    (forall k', (length gh <= k' < length gh1)%nat -> k' = k).
Proof.
  intros Ht Hlp Hb Hin Hfree Hcap.
  destruct (tree_entry gh t lp b (S l) Ht Hlp) as (e & He & Hs).
  destruct Hs as [s Hs|Hh|Hh|k Hh Hg]; [exfalso|lia| |].
  - assert (page_at t index = Some s) as Hi
      by (by rewrite (reach gh t lp b (S l) _ index Ht Hlp He Hin)).
    unfold is_free in Hfree. apply (HQ s Hs). congruence.
  - destruct (add_node_ok gh t lp b l Ht Hlp He ltac:(lia)) as [Ht1 Hp1].
    exists (length (nodes t)), (gh ++ [(b, l)]), (add_node t lp l).
    pose proof (tree_nodes _ _ Ht) as Hlen. pose proof (tree_nodes _ _ Ht1) as Hlen1.
    rewrite length_app in Hlen1. simpl in Hlen1.
    split_and!; [by eapply set_level_new| | |].
    + rewrite <- Hlen. by apply list_lookup_middle.
    + split; [|done| |lia|apply add_node_alloc|by destruct lp].
      * exists [(b, l)]. split; [done|]. repeat constructor.
      * intros p Hp. rewrite decide_False by lia. by apply Hp1.
    + intros k'. rewrite length_app. simpl. lia.
  - exists k, gh, t. split_and!; [by eapply set_level_old|done|by apply filled_nothing|lia].
Qed.

Lemma set_level_ok l : (l < L)%nat -> level_spec l.
Proof.
  induction l as [l IH] using lt_wf_ind. intros Hl gh t lp b index nb Ht Hlp Hb Hin Hnb Hend
    Hfree Hcap Hnil index'.
  assert (Z.of_nat l + 1 <= level_cost l b index nb) as Hcost.
  { unfold level_cost. case_if; lia. }
  destruct (level_node gh t lp b l index nb Ht Hlp Hb Hin) as (k & gh1 & t1 & -> & Hk & Hf1 & Hk1);
    [apply Hfree; lia|lia|].
  pose proof (filled_cost _ _ _ _ _ _ _ _ Hf1). pose proof (filled_alloc _ _ _ _ _ _ _ _ Hf1).
  pose proof (filled_ok _ _ _ _ _ _ _ _ Hf1) as Ht1.
  pose proof (loc_range _ _ _ _ _ Ht Hlp) as Hr.
  assert (busy gh1 t1 l) as Hb1.
  { eapply (busy_filled l); [exact Ht| |done|].
    - intros k' b' l' Hk' Hl'. eapply Hb; [done|lia].
    - intros k' b' l' Hge Hk' Hl'. assert (k' = k) as ->; [|simplify_eq; lia].
      apply Hk1. apply lookup_lt_Some in Hk'. lia. }
  destruct (enter_node_ok gh1 t1 k b l index nb) as (gh' & t' & E' & Hf & Hb'); try done; try lia.
  { intros l' ->. apply IH; lia. }
  { eapply (free_filled _ _ _ _ _ _ index); [done|lia|done|lia]. }
  assert (filled (S l) (level_cost l b index nb) gh t gh' t' index index') as Hfill.
  { replace (level_cost l b index nb) with (1 + (level_cost l b index nb - 1)) by lia.
    eapply filled_trans; [done| |lia]. eapply filled_weaken; [|reflexivity|done]. lia. }
  exists gh', t'. split_and!; [done|done|]. eapply (busy_filled (S l)); [exact Ht|done|done|].
  intros k' b' l' Hge Hg' Hl'. destruct (decide (l' < l)%nat); [by eapply Hb'|].
  destruct Hf as [(new & -> & Hnew) _ Hpages _ _ _].
  apply lookup_app_Some in Hg' as [Hg'|[_ Hg']].
  - assert (k' = k) as -> by (apply Hk1; apply lookup_lt_Some in Hg'; lia).
    simplify_eq. exists index. split; [done|]. unfold is_free.
    rewrite Hpages, decide_True by lia. intros [= E]. by apply (HQ leaf).
  - rewrite Forall_forall in Hnew. apply list_elem_of_lookup_2, Hnew in Hg'. simpl in Hg'. lia.
Qed.
End filling.

(** ** Compacting a tree *)

Section compacting.
Context (L : nat) (Q : Z -> Prop) (lv : list nat).
Context (HL : (L < 64)%nat) (HQ : forall s, Q s -> s <> PHYS_MAP_NODE_NIL).

Implicit Types (t : page_table) (lp : place).

(** The height of the entry at a place. *)
Definition height lp (h : nat) : Prop :=
  match lp with
  | root => h = L
  | slot k i => lv !! k = Some h /\ (i < P_L2_SIZE)%nat
  end.

Record ctree_ok t : Prop := mk_ctree_ok {
  ctree_nodes : levels_ok lv Q (nodes t);
  ctree_root : entry_ok lv Q L (phys_map t)
}.

(** The answer stays, unless there was no section. *)
Definition kept (o o' : option Z) : Prop :=
  exists s s', o = Some s /\ o' = Some s' /\ (s' = s \/ s = PHYS_SECTION_UNASSIGNED).

Lemma kept_trans o1 o2 o3 : kept o1 o2 -> kept o2 o3 -> kept o1 o3.
Proof.
  intros (s1 & s2 & -> & -> & H1) (? & s3 & [= <-] & -> & H2).
  exists s1, s3. split_and!; [done|done|]. destruct H1, H2; subst; auto.
Qed.

Lemma walk_total ns h e p :
  levels_ok lv Q ns -> entry_ok lv Q h e -> exists s, walk ns e h p = Some s.
Proof.
  intros Hl He. destruct (find_loop_total lv Q ns h e (S h) p Hl He) as (r & _ & E & _);
    [apply Nat.lt_succ_diag_r|by eexists].
Qed.

Lemma kept_walk ns h e p :
  levels_ok lv Q ns -> entry_ok lv Q h e -> kept (walk ns e h p) (walk ns e h p).
Proof.
  intros Hl He. destruct (walk_total ns h e p Hl He) as [s ->]. exists s, s. auto.
Qed.

Lemma ctree_entry t lp h e :
  ctree_ok t -> height lp h -> entry t lp = Some e -> entry_ok lv Q h e.
Proof.
  intros Ht Hh He. destruct lp as [|k i].
  - simpl in *. simplify_eq. apply Ht.
  - destruct Hh as [Hk _]. by eapply (levels_entries _ _ _ (ctree_nodes _ Ht)).
Qed.

Lemma ctree_lookup t lp h :
  ctree_ok t -> height lp h -> exists e, entry t lp = Some e /\ entry_ok lv Q h e.
Proof.
  intros Ht Hh. destruct lp as [|k i].
  - simpl in Hh. subst h. eexists. split; [done|apply Ht].
  - destruct Hh as [Hk Hi]. by apply (levels_entry _ _ _ k h i (ctree_nodes _ Ht)).
Qed.

Lemma ctree_set t lp h e' :
  ctree_ok t -> height lp h -> entry_ok lv Q h e' -> ctree_ok (set_entry t lp e').
Proof.
  intros Ht Hh He'. destruct (ctree_lookup t lp h Ht Hh) as (e & He & _).
  assert (forall lp' e0, entry (set_entry t lp e') lp' = Some e0 ->
    (lp' = lp /\ e0 = e') \/ entry t lp' = Some e0) as Hent.
  { intros lp' e0. rewrite entry_set by (by exists e). case_decide; [|by right].
    intros [= ->]. by left. }
  split; [split|].
  - intros k l Hk. destruct (levels_nodes _ _ _ (ctree_nodes _ Ht) _ _ Hk) as (p & Hp & Hlen).
    destruct lp as [|k' i]; [by exists p|]. simpl.
    destruct (decide (k = k')) as [->|Hne].
    + rewrite list_lookup_alter_eq, Hp. eexists. split; [done|]. by rewrite length_insert.
    + rewrite list_lookup_alter_ne by done. by exists p.
  - intros k l i e0 Hk He0. destruct (Hent (slot k i) e0 He0) as [[<- ->]|Hold].
    + destruct Hh as [Hk' _]. by simplify_eq.
    + by eapply (levels_entries _ _ _ (ctree_nodes _ Ht)).
  - destruct (Hent root (phys_map (set_entry t lp e')) eq_refl) as [[<- ->]|Hold].
    + simpl in Hh. by subst h.
    + simpl in Hold. injection Hold as <-. apply Ht.
Qed.

(** Replacing an entry by one whose walks are kept keeps all walks. *)
Lemma set_kept t lp h e e' p :
  ctree_ok t -> height lp h -> entry t lp = Some e -> entry_ok lv Q h e' ->
  kept (walk (nodes t) e h p) (walk (nodes t) e' h p) ->
  kept (page_at L t p) (page_at L (set_entry t lp e') p).
Proof.
  intros Ht Hh He He' Hk. pose proof (ctree_set t lp h e' Ht Hh He') as Ht'.
  assert (forall h0 e0, entry_ok lv Q h0 e0 ->
    kept (walk (nodes t) e0 h0 p) (walk (nodes (set_entry t lp e')) e0 h0 p)) as Hall.
  { intros h0. induction h0 as [h0 IH] using lt_wf_ind. intros e0 He0.
    destruct He0 as [s Hs|n Hn|n k Hn Hnil Hlv].
    - rewrite !walk_leaf. exists s, s. auto.
    - rewrite !walk_nil by done. eexists _, _. eauto.
    - destruct (ctree_lookup t (slot k (page_idx (h0 - n) p)) (h0 - n) Ht) as (e1 & He1 & Hok1);
        [split; [done|apply page_idx_lt]|].
      destruct (ctree_lookup _ (slot k (page_idx (h0 - n) p)) (h0 - n) Ht') as (e2 & He2 & Hok2);
        [split; [done|apply page_idx_lt]|].
      rewrite (walk_child _ _ _ _ _ _ _ e1 (ctree_nodes _ Ht)) by done.
      rewrite (walk_child _ _ _ _ _ _ _ e2 (ctree_nodes _ Ht')) by done.
      rewrite entry_set in He2 by (by exists e). case_decide as Hd; simplify_eq.
      + destruct Hh as [Hk' _]. simplify_eq. eapply kept_trans; [exact Hk|]. apply IH; [lia|done].
      + apply IH; [lia|done]. }
  unfold page_at. destruct (decide (lp = root)) as [->|Hne].
  - simpl in *. simplify_eq. done.
  - assert (phys_map (set_entry t lp e') = phys_map t) as -> by (by destruct lp).
    apply Hall, Ht.
Qed.

(** [compact] at a place of height [h]: the tree stays well formed and its
    answers are kept; places not below [h] keep their entries, the place
    itself stays empty or not. *)
Record compacted t lp h t' : Prop := mk_compacted {
  compacted_ok : ctree_ok t';
  compacted_kept : forall p, kept (page_at L t p) (page_at L t' p);
  compacted_frame : forall lp' h', height lp' h' -> (h <= h')%nat -> lp' <> lp ->
    entry t' lp' = entry t lp';
  compacted_entry : forall e, entry t lp = Some e ->
    exists e', entry t' lp = Some e' /\
      (ptr e' = PHYS_MAP_NODE_NIL <-> ptr e = PHYS_MAP_NODE_NIL)
}.

Lemma compacted_same t lp h : ctree_ok t -> compacted t lp h t.
Proof.
  intros Ht. split; [done| |done|].
  - intros p. apply kept_walk; apply Ht.
  - intros e He. by exists e.
Qed.

Definition is_nil t k i : Prop :=
  exists e, entry t (slot k i) = Some e /\ ptr e = PHYS_MAP_NODE_NIL.

(** What the loop knows of the first [i] entries of node [k]. *)
Definition scanned t (k i valid_ptr valid : nat) : Prop :=
  (valid = 0%nat -> forall j, (j < i)%nat -> is_nil t k j) /\
  (valid = 1%nat -> (valid_ptr < i)%nat /\ ~ is_nil t k valid_ptr /\
     forall j, (j < i)%nat -> j <> valid_ptr -> is_nil t k j).

(** The loop touches the entries of node [k] and what is below them. *)
Definition scan_frame t (k l : nat) t' : Prop :=
  ctree_ok t' /\ (forall p, kept (page_at L t p) (page_at L t' p)) /\
  forall lp' h', height lp' h' -> (l <= h')%nat -> (forall i, lp' <> slot k i) ->
    entry t' lp' = entry t lp'.

Lemma scan_next_nil t k i vp v :
  scanned t k i vp v -> is_nil t k i -> scanned t k (S i) vp v.
Proof.
  intros [H0 H1] Hn. split.
  - intros Hv j Hj. destruct (decide (j = i)) as [->|]; [done|]. apply H0; [done|lia].
  - intros Hv. destruct (H1 Hv) as (Hlt & Hnn & Hall). split_and!; [lia|done|].
    intros j Hj Hne. destruct (decide (j = i)) as [->|]; [done|]. apply Hall; [lia|done].
Qed.

Lemma scan_next_valid t k i vp v t' :
  scanned t k i vp v -> ~ is_nil t k i ->
  (forall j, (j <= i)%nat -> is_nil t' k j <-> is_nil t k j) -> scanned t' k (S i) i (S v).
Proof.
  intros [H0 H1] Hn Hsame. split; [done|]. intros [= ->]. split_and!; [lia| |].
  - by rewrite Hsame.
  - intros j Hj Hne. rewrite Hsame by lia. apply H0; [done|lia].
Qed.

Lemma compacted_nil t k i l t' j :
  ctree_ok t -> lv !! k = Some l -> (i < P_L2_SIZE)%nat -> (j < P_L2_SIZE)%nat ->
  compacted t (slot k i) l t' -> is_nil t' k j <-> is_nil t k j.
Proof.
  intros Ht Hk Hi Hj Hc. unfold is_nil. destruct (decide (j = i)) as [->|Hne].
  - destruct (ctree_lookup t (slot k i) l Ht) as (e & He & _); [done|].
    destruct (compacted_entry _ _ _ _ Hc e He) as (e' & He' & Hiff).
    rewrite He, He'. split; intros (? & [= <-] & E); eexists; split; try done; by apply Hiff.
  - by rewrite (compacted_frame _ _ _ _ Hc (slot k j) l) by (done || congruence).
Qed.

Lemma compact_slots_ok compact k l :
  lv !! k = Some l ->
  (forall t i e, ctree_ok t -> (i < P_L2_SIZE)%nat -> entry t (slot k i) = Some e -> skip e <> 0 ->
     exists t', compact t (slot k i) = Some t' /\ compacted t (slot k i) l t') ->
  forall n i t vp v, (n + i = P_L2_SIZE)%nat -> ctree_ok t -> scanned t k i vp v ->
    exists t' vp' v', compact_slots compact k n t vp v = Some (t', vp', v') /\
      scan_frame t k l t' /\ scanned t' k P_L2_SIZE vp' v'.
Proof.
  intros Hk Hcompact n. induction n as [|n IH]; intros i t vp v Hni Ht Hs.
  { exists t, vp, v. simpl in Hni. subst i. split_and!; [done| |done].
    split_and!; [done| |done]. intros p. apply kept_walk; apply Ht. }
  cbn [compact_slots]. replace (P_L2_SIZE - S n)%nat with i by lia.
  destruct (ctree_lookup t (slot k i) l Ht) as (e & He & Hok); [split; [done|lia]|].
  rewrite He. cbn [mbind option_bind].
  destruct (Z.eqb_spec (ptr e) PHYS_MAP_NODE_NIL) as [Hnil|Hnil].
  { apply (IH (S i)); [lia|done|]. apply scan_next_nil; [done|]. by exists e. }
  assert (~ is_nil t k i) as Hn by (intros (e' & He' & ?); congruence).
  assert (exists t1, (if negb (skip e =? 0) then compact t (slot k i) else Some t) = Some t1 /\
    compacted t (slot k i) l t1) as (t1 & -> & Hc).
  { destruct (Z.eqb_spec (skip e) 0); cbn [negb];
      [exists t; split; [done|by apply compacted_same]|].
    by apply (Hcompact t i e); [done|lia|done|]. }
  cbn [mbind option_bind].
  destruct (IH (S i) t1 i (S v)) as (t' & vp' & v' & E & (Ht' & Hk' & Hf) & Hs'); [lia|by apply Hc| |].
  { eapply scan_next_valid; [done|done|]. intros j Hj. by apply (compacted_nil t k i l); [done|done|lia|lia|]. }
  exists t', vp', v'. split_and!; [done| |done]. split_and!; [done| |].
  - intros p. eapply kept_trans; [by apply Hc|done].
  - intros lp' h' Hh Hle Hne. rewrite (Hf lp' h') by done.
    by apply (compacted_frame _ _ _ _ Hc lp' h').
Qed.

(** The entry that replaces one whose node has a single child [c]. *)
Definition merged (e c : PhysPageEntry) : PhysPageEntry :=
  if skip c =? 0 then mk_entry 0 (ptr c) else mk_entry (skip e + skip c) (ptr c).

Lemma merged_kept t n k h vp c :
  ctree_ok t -> (1 <= n <= h)%nat -> Z.of_nat k <> PHYS_MAP_NODE_NIL ->
  lv !! k = Some (h - n)%nat -> (vp < P_L2_SIZE)%nat -> entry t (slot k vp) = Some c ->
  ptr c <> PHYS_MAP_NODE_NIL ->
  (forall j, (j < P_L2_SIZE)%nat -> j <> vp -> is_nil t k j) ->
  let e := mk_entry (Z.of_nat n) (Z.of_nat k) in
  entry_ok lv Q h (merged e c) /\
  forall p, kept (walk (nodes t) e h p) (walk (nodes t) (merged e c) h p).
Proof.
  intros Ht Hn Hkn Hk Hvp Hc Hcn Hall e.
  assert (entry_ok lv Q (h - n) c) as Hok by (by eapply (ctree_entry t (slot k vp))).
  assert (entry_ok lv Q h (merged e c) /\ forall p,
    walk (nodes t) (merged e c) h p = walk (nodes t) c (h - n) p) as [Hm Hw].
  { unfold merged. destruct Hok as [s Hs|n' Hn'|n' k' Hn' Hkn' Hk']; [|done|].
    - by split; [constructor|].
    - cbn [skip ptr]. destruct (Z.eqb_spec (Z.of_nat n') 0); [lia|]. cbn [skip e].
      rewrite <- Nat2Z.inj_add.
      assert (h - n - n' = h - (n + n'))%nat as Eh by lia. rewrite Eh in Hk'.
      split; [apply ok_child; [lia|done|done]|]. intros p.
      destruct (levels_entry _ _ _ k' _ (page_idx (h - (n + n')) p) (ctree_nodes _ Ht) Hk')
        as (e1 & He1 & _); [apply page_idx_lt|].
      rewrite (walk_child _ _ _ _ _ _ _ e1 (ctree_nodes _ Ht)) by (done || lia).
      rewrite (walk_child _ _ _ _ _ _ _ e1 (ctree_nodes _ Ht)) by (rewrite ?Eh; done || lia).
      by rewrite Eh. }
  split; [done|]. intros p. set (i := page_idx (h - n) p).
  destruct (levels_entry _ _ _ k _ i (ctree_nodes _ Ht) Hk) as (e1 & He1 & Hok1);
    [apply page_idx_lt|].
  unfold e. rewrite (walk_child _ _ _ _ _ _ _ e1 (ctree_nodes _ Ht)) by done. fold e. rewrite Hw.
  destruct (decide (i = vp)) as [Hi|Hi].
  - simpl in Hc. rewrite Hi, Hc in He1. simplify_eq. by apply kept_walk; [apply Ht|].
  - destruct (Hall i (page_idx_lt _ _) Hi) as (e2 & He2 & Hnil). simpl in He2.
    rewrite He1 in He2. injection He2 as <-.
    destruct (walk_total (nodes t) (h - n) c p (ctree_nodes _ Ht) Hok) as [s' ->].
    exists PHYS_SECTION_UNASSIGNED, s'. split_and!; [|done|by right].
    destruct Hok1 as [s Hs|n' Hn'|n' k' Hn' Hk']; [by destruct (HQ s)|by apply walk_nil|done].
Qed.

Lemma phys_page_compact_ok fuel t lp h e :
  ctree_ok t -> height lp h -> entry t lp = Some e -> skip e <> 0 -> (h < fuel)%nat ->
  exists t', phys_page_compact L fuel t lp = Some t' /\ compacted t lp h t'.
Proof.
  revert t lp h e. induction fuel as [|fuel IH]; intros t lp h e Ht Hh He Hskip Hf; [lia|].
  cbn [phys_page_compact]. rewrite He. cbn [mbind option_bind].
  pose proof (ctree_entry t lp h e Ht Hh He) as Hok.
  destruct Hok as [s Hs|n Hn|n k Hn Hkn Hk]; [done| |].
  { rewrite Z.eqb_refl. exists t. split; [done|by apply compacted_same]. }
  cbn [ptr]. destruct (Z.eqb_spec (Z.of_nat k) PHYS_MAP_NODE_NIL); [done|].
  rewrite Nat2Z.id.
  destruct (compact_slots_ok (phys_page_compact L fuel) k (h - n) Hk) with (n := P_L2_SIZE)
    (i := 0%nat) (t := t) (vp := P_L2_SIZE) (v := 0%nat)
    as (t1 & vp & v & -> & (Ht1 & Hk1 & Hf1) & Hs1); [|done|done|by split; [lia|]|].
  { intros t0 i e0 Ht0 Hi He0 Hs0. eapply IH; [done|by split|done|done|lia]. }
  cbn [mbind option_bind].
  assert (forall lp' h', height lp' h' -> (h <= h')%nat -> entry t1 lp' = entry t lp') as Hsame.
  { intros lp' h' Hh' Hle. apply (Hf1 lp' h'); [done|lia|]. intros i ->.
    destruct Hh' as [Hk' _]. rewrite Hk in Hk'. injection Hk' as Hk'. lia. }
  assert (compacted t lp h t1) as Hc1.
  { split; [done|done|by intros lp' h' Hh' Hle _; eapply Hsame|].
    intros e' He'. exists e'. by rewrite (Hsame lp h). }
  destruct (Nat.eqb_spec v 1) as [->|]; cbn [negb]; [|by exists t1].
  destruct (proj2 Hs1 eq_refl) as (Hvp & Hvn & Hall).
  destruct (Nat.ltb_spec vp P_L2_SIZE); [|lia]. cbn [negb].
  assert (entry t1 lp = Some (mk_entry (Z.of_nat n) (Z.of_nat k))) as He1
    by (by rewrite (Hsame lp h)).
  rewrite He1. cbn [mbind option_bind].
  destruct (ctree_lookup t1 (slot k vp) (h - n) Ht1) as (c & Hc & _); [done|].
  rewrite Hc. cbn [mbind option_bind].
  replace (2 ^ 6 <=? Z.of_nat L) with false by (symmetry; apply Z.leb_gt; lia). cbn [andb].
  assert (ptr c <> PHYS_MAP_NODE_NIL) as Hcn by (intros ?; apply Hvn; by exists c).
  destruct (merged_kept t1 n k h vp c Ht1 Hn Hkn Hk Hvp Hc Hcn Hall) as [Hm Hkept].
  exists (set_entry t1 lp (merged (mk_entry (Z.of_nat n) (Z.of_nat k)) c)).
  split; [unfold merged; by destruct (skip c =? 0)|].
  pose proof (fun lp' => entry_set t1 lp lp'
    (merged (mk_entry (Z.of_nat n) (Z.of_nat k)) c) (mk_is_Some _ _ He1)) as Hent.
  split.
  - by eapply ctree_set.
  - intros p. eapply kept_trans; [apply Hk1|]. by eapply set_kept.
  - intros lp' h' Hh' Hle Hne. rewrite Hent, decide_False by done. by eapply Hsame.
  - intros e' He'. rewrite Hent, decide_True by done. eexists. split; [done|].
    rewrite He in He'. injection He' as <-. unfold merged. by destruct (skip c =? 0); cbn [ptr].
Qed.
End compacting.

(** ** The page table of a dispatch structure *)

Section table.
Context (TARGET_PAGE_BITS : Z) (Hbits : 1 <= TARGET_PAGE_BITS <= 63).
Context (Q : Z -> Prop).
Context (HQ : forall s, Q s -> s <> PHYS_SECTION_UNASSIGNED /\ s <> PHYS_MAP_NODE_NIL).

Abbreviation levels := (P_L2_LEVELS TARGET_PAGE_BITS).

(** The section number of a page. *)
Definition page_section (t : page_table) (p : Z) : option Z :=
  default PHYS_SECTION_UNASSIGNED <$> phys_page_walk TARGET_PAGE_BITS t p.

(** A tree under construction, whose leaves satisfy [Q] or are unassigned. *)
Record table_ok (t : page_table) : Prop := mk_table_ok {
  table_tree : exists gh, tree_ok levels Q gh t /\ busy levels gh t levels;
  table_nodes : Z.of_nat (length (nodes t)) <= nodes_nb_alloc t <= PHYS_MAP_NODE_NIL;
  table_hint : 0 <= alloc_hint t <= PHYS_MAP_NODE_NIL
}.

Lemma levels_range :
  (1 <= levels <= 7)%nat /\ 2 ^ (64 - TARGET_PAGE_BITS) <= pw levels < 2 ^ 64.
Proof.
  unfold P_L2_LEVELS, ADDR_SPACE_BITS, P_L2_BITS.
  pose proof (Z.mul_div_le (64 - TARGET_PAGE_BITS - 1) 9 ltac:(lia)).
  pose proof (Z.mul_succ_div_gt (64 - TARGET_PAGE_BITS - 1) 9 ltac:(lia)).
  split; [lia|]. unfold pw. rewrite Z2Nat.id by lia. split.
  - apply Z.pow_le_mono_r; lia.
  - apply Z.pow_lt_mono_r; lia.
Qed.

Lemma empty_table_ok hint :
  0 <= hint <= PHYS_MAP_NODE_NIL -> table_ok (empty_table hint).
Proof.
  intros Hh. split; [|done|done]. exists []. split; [|by intros k b l Hk].
  pose proof levels_range as [HL _].
  split; [done|done|done|done| |done]. intros [|k i] b h e; [|by intros (b0 & Hk & _)].
  intros [-> ->] [= <-]. apply so_nil. lia.
Qed.

Lemma page_section_empty hint p :
  page_section (empty_table hint) p = Some PHYS_SECTION_UNASSIGNED.
Proof.
  unfold page_section, phys_page_walk. cbn [nodes phys_map empty_table].
  rewrite (find_loop_nil _ _ 1); [done|]. pose proof levels_range. lia.
Qed.

Lemma reserve_ok t n :
  table_ok t -> 0 <= n -> Z.of_nat (length (nodes t)) + n <= PHYS_MAP_NODE_NIL ->
  table_ok (phys_map_node_reserve t n) /\
  nodes (phys_map_node_reserve t n) = nodes t /\
  phys_map (phys_map_node_reserve t n) = phys_map t /\
  Z.of_nat (length (nodes t)) + n <= nodes_nb_alloc (phys_map_node_reserve t n).
Proof.
  intros [(gh & Ht & Hb) Hn Hh] H0 Hsum. unfold phys_map_node_reserve.
  rewrite wrap_id by (change PHYS_MAP_NODE_NIL with (2 ^ 26 - 1) in Hsum; unfold uint; lia).
  case_if; [|split_and!; [by split; [exists gh|..]|done|done|lia]].
  split_and!; [|done|done|cbn; lia]. split; cbn [nodes nodes_nb_alloc alloc_hint]; [|lia|lia].
  exists gh. split; [|done]. destruct Ht as [H1 H2 H3 H4 H5 H6].
  split; [done|done|done|done| |].
  - intros [|k i]; [apply (H5 root)|apply (H5 (slot k i))].
  - intros k b l Hk. destruct (H6 k b l Hk) as ([|k' i] & Hlp & He);
      [exists root|exists (slot k' i)]; done.
Qed.

Lemma page_section_at t p : page_section t p = page_at levels t p.
Proof. done. Qed.

Lemma phys_page_set_ok t index nb leaf :
  table_ok t -> Q leaf -> 0 <= index -> 0 < nb -> index + nb <= 2 ^ (64 - TARGET_PAGE_BITS) ->
  (forall p, index <= p < index + nb -> page_section t p = Some PHYS_SECTION_UNASSIGNED) ->
  Z.of_nat (length (nodes t)) + 3 * Z.of_nat levels <= PHYS_MAP_NODE_NIL ->
  exists t', phys_page_set TARGET_PAGE_BITS t index nb leaf = Some t' /\ table_ok t' /\
    (forall p, 0 <= p < pw levels ->
       page_section t' p = if decide (index <= p < index + nb) then Some leaf
                           else page_section t p) /\
    Z.of_nat (length (nodes t')) <= Z.of_nat (length (nodes t)) + (2 * Z.of_nat levels - 1).
Proof.
  intros Ht Hleaf Hi Hnb Hend Hfree Hcap. destruct levels_range as [HL Hpw].
  destruct (reserve_ok t (3 * Z.of_nat levels) Ht) as (Ht0 & En & Er & Ha); [lia|done|].
  unfold phys_page_set. set (t0 := phys_map_node_reserve t _) in *.
  assert (forall p, page_at levels t0 p = page_section t p) as Hp0.
  { intros p. unfold page_at. by rewrite En, Er. }
  destruct Ht0 as [(gh & Htree & Hbusy) Hn0 Hh0].
  replace levels with (S (levels - 1)) in Hbusy at 2 by lia.
  assert (level_cost (levels - 1) 0 index nb <= 2 * Z.of_nat levels - 1) as Hc.
  { unfold level_cost. case_if; lia. }
  pose proof (set_level_ok levels Q ltac:(lia) leaf ltac:(intros; by apply HQ) Hleaf
    (levels - 1) ltac:(lia) gh t0 root 0 index nb Htree) as Hspec.
  replace (S (levels - 1)) with levels in Hspec by lia.
  destruct Hspec as (gh' & t' & E & Hf & Hb');
    [done|by replace (S (levels - 1)) with levels in Hbusy by lia|lia|done|lia| |rewrite En; lia|lia|].
  { intros p Hp. unfold is_free. rewrite Hp0. by apply Hfree. }
  rewrite Z.min_l in * by lia. rewrite E. cbn [mbind option_bind].
  pose proof (filled_cost _ _ _ _ _ _ _ _ _ _ _ Hf) as Hcost.
  pose proof (filled_alloc _ _ _ _ _ _ _ _ _ _ _ Hf) as Halloc.
  pose proof (filled_hint _ _ _ _ _ _ _ _ _ _ _ Hf) as Hhint. rewrite En in Hcost.
  exists t'. split_and!; [done| | |lia].
  - split; [|lia|by rewrite Hhint]. exists gh'. split; [|done].
    exact (filled_ok _ _ _ _ _ _ _ _ _ _ _ Hf).
  - intros p Hp. rewrite page_section_at, (filled_pages _ _ _ _ _ _ _ _ _ _ _ Hf) by lia.
    by rewrite Hp0.
Qed.

(** What remains true of the page table after compaction: every walk ends at
    a leaf, at the old section unless the page had none. *)
Lemma dispatch_compact_ok t :
  table_ok t ->
  exists t', address_space_dispatch_compact TARGET_PAGE_BITS t = Some t' /\
    forall p, exists s r, page_section t p = Some s /\
      phys_page_walk TARGET_PAGE_BITS t' p = Some r /\
      (forall s', r = Some s' -> Q s' \/ s' = PHYS_SECTION_UNASSIGNED) /\
      (default PHYS_SECTION_UNASSIGNED r = s \/ s = PHYS_SECTION_UNASSIGNED).
Proof.
  intros [(gh & Ht & _) _ _]. destruct levels_range as [HL _].
  assert (ctree_ok levels (leaf_ok Q) (gh.*2) t) as Hc.
  { split; [by eapply tree_levels|]. eapply slot_entry_ok; [done|].
    by apply (tree_slots _ _ _ _ Ht root 0). }
  assert (exists t', address_space_dispatch_compact TARGET_PAGE_BITS t = Some t' /\
    ctree_ok levels (leaf_ok Q) (gh.*2) t' /\
    forall p, kept (page_at levels t p) (page_at levels t' p)) as (t' & E & Hc' & Hk).
  { unfold address_space_dispatch_compact. destruct (Z.eqb_spec (skip (phys_map t)) 0); cbn [negb].
    - exists t. split_and!; [done|done|]. intros p. eapply kept_walk; apply Hc.
    - edestruct (phys_page_compact_ok levels (leaf_ok Q) (gh.*2)) with (lp := root)
        as (t' & E & [H1 H2]); [lia| |exact Hc|done|done|done|by apply Nat.lt_succ_diag_r|].
      + intros s [Hs| ->]; [by apply HQ|done].
      + by exists t'. }
  exists t'. split; [done|]. intros p. destruct (Hk p) as (s & s' & Es & Es' & Hs).
  destruct (find_loop_total _ _ _ _ _ (S levels) p (ctree_nodes _ _ _ _ Hc')
    (ctree_root _ _ _ _ Hc')) as (r & Er & Ew & Hr); [lia|].
  exists s, r. split_and!; [done|exact Er|exact Hr|].
  unfold page_at in Es'. rewrite Ew in Es'. injection Es' as ->. done.
Qed.
End table.

(** The sections in the leaves are those of some pages. *)
Lemma table_ok_image TARGET_PAGE_BITS Q t :
  table_ok TARGET_PAGE_BITS Q t ->
  table_ok TARGET_PAGE_BITS (fun s => Q s /\ exists p,
    0 <= p < pw (P_L2_LEVELS TARGET_PAGE_BITS) /\
    page_section TARGET_PAGE_BITS t p = Some s) t.
Proof.
  intros [(gh & Ht & Hb) Hn Hh]. split; [|done|done]. exists gh. split; [|done].
  split; [apply Ht..| |apply Ht]. intros lp b h e Hlp He.
  destruct (tree_slots _ _ _ _ Ht _ _ _ _ Hlp He) as [s Hs|Hz|Hz|k Hz Hk].
  - apply so_leaf. split; [done|]. exists b.
    pose proof (loc_range _ _ _ _ _ _ _ Ht Hlp) as (H1 & H2 & _). pose proof (pw_pos h).
    split; [lia|]. rewrite page_section_at, (reach _ _ _ _ _ b h _ b Ht Hlp He) by lia. done.
  - by apply so_free.
  - by apply so_nil.
  - by apply so_child.
Qed.

(** ** Properties *)

(** C4: [phys_page_set] on a page table under construction succeeds, that is
    no assertion fails and no entry outside the tree is touched, when the pages
    are not assigned yet: afterwards exactly these pages have the section, all
    others have the one they had, and at most [2 * P_L2_LEVELS - 1] nodes were
    added, fewer than the [3 * P_L2_LEVELS] the code reserves. *)
Theorem phys_page_set_correct TARGET_PAGE_BITS Q t index nb leaf :
  1 <= TARGET_PAGE_BITS <= 63 ->
  (forall s, Q s -> s <> PHYS_SECTION_UNASSIGNED /\ s <> PHYS_MAP_NODE_NIL) ->
  table_ok TARGET_PAGE_BITS Q t -> Q leaf ->
  0 <= index -> 0 < nb -> index + nb <= 2 ^ (64 - TARGET_PAGE_BITS) ->
  (forall p, index <= p < index + nb ->
     page_section TARGET_PAGE_BITS t p = Some PHYS_SECTION_UNASSIGNED) ->
  Z.of_nat (length (nodes t)) + 3 * Z.of_nat (P_L2_LEVELS TARGET_PAGE_BITS) <= PHYS_MAP_NODE_NIL ->
  exists t', phys_page_set TARGET_PAGE_BITS t index nb leaf = Some t' /\
    table_ok TARGET_PAGE_BITS Q t' /\
    (forall p, 0 <= p < 2 ^ (64 - TARGET_PAGE_BITS) ->
       page_section TARGET_PAGE_BITS t' p =
       if decide (index <= p < index + nb) then Some leaf
       else page_section TARGET_PAGE_BITS t p) /\
    Z.of_nat (length (nodes t')) <=
      Z.of_nat (length (nodes t)) + (2 * Z.of_nat (P_L2_LEVELS TARGET_PAGE_BITS) - 1).
Proof.
  intros Hbits HQ Ht Hleaf Hi Hnb Hend Hfree Hcap.
  destruct (phys_page_set_ok TARGET_PAGE_BITS Hbits Q HQ t index nb leaf)
    as (t' & E & Ht' & Hp & Hn); [done..|].
  destruct (levels_range TARGET_PAGE_BITS Hbits) as [_ Hpw].
  exists t'. split_and!; [done|done| |done]. intros p ?. apply Hp. lia.
Qed.

(** Section numbers that fit the 16 bits of a leaf. *)
Definition section_number (s : Z) : Prop := 0 < s < 2 ^ 16.

Lemma section_number_leaf s :
  section_number s -> s <> PHYS_SECTION_UNASSIGNED /\ s <> PHYS_MAP_NODE_NIL.
Proof.
  unfold section_number. change PHYS_MAP_NODE_NIL with (2 ^ 26 - 1).
  change PHYS_SECTION_UNASSIGNED with 0. lia.
Qed.

(** Pages 1000 to 3599 of 4 KiB: parts of two nodes and whole ones between. *)
Lemma phys_page_set_correct_witness :
  exists t', phys_page_set 12 (empty_table 0) 1000 2600 7 = Some t' /\
    page_section 12 t' 1000 = Some 7 /\ page_section 12 t' 3599 = Some 7 /\
    page_section 12 t' 999 = Some 0 /\ page_section 12 t' 3600 = Some 0 /\
    (length (nodes t') <= 11)%nat.
Proof.
  destruct (phys_page_set_correct 12 section_number (empty_table 0) 1000 2600 7)
    as (t' & E & _ & Hp & Hn).
  - lia.
  - apply section_number_leaf.
  - by apply empty_table_ok.
  - done.
  - done.
  - done.
  - vm_compute; discriminate.
  - intros p _. by apply page_section_empty.
  - vm_compute; discriminate.
  - exists t'. rewrite !Hp by lia. split_and!; [exact E|reflexivity..|].
    change (Z.of_nat (length (nodes t')) <= 11) in Hn. lia.
Defined.

(** C5: compaction never loses a page: [address_space_dispatch_compact] on a
    table under construction succeeds, every later walk ends at a leaf of the
    tree or at the unassigned section, and on a page that has a section it
    still ends at that section.  Only a walk to a page without a section may
    end somewhere else, which is why [phys_page_find] tests the section it
    found. *)
Theorem dispatch_compact_correct TARGET_PAGE_BITS Q t :
  1 <= TARGET_PAGE_BITS <= 63 ->
  (forall s, Q s -> s <> PHYS_SECTION_UNASSIGNED /\ s <> PHYS_MAP_NODE_NIL) ->
  table_ok TARGET_PAGE_BITS Q t ->
  exists t', address_space_dispatch_compact TARGET_PAGE_BITS t = Some t' /\
    forall p, exists s r, page_section TARGET_PAGE_BITS t p = Some s /\
      phys_page_walk TARGET_PAGE_BITS t' p = Some r /\
      (forall s', r = Some s' -> Q s' \/ s' = PHYS_SECTION_UNASSIGNED) /\
      (default PHYS_SECTION_UNASSIGNED r = s \/ s = PHYS_SECTION_UNASSIGNED).
Proof. intros Hbits HQ. by apply dispatch_compact_ok. Qed.

(** One page: the root leads to the node of the lowest level, and a page far off
    is answered with its section. *)
Definition one_page : option page_table := phys_page_set 12 (empty_table 0) 77 1 3.

Example one_page_compacted :
  (fun t => (skip (phys_map t), phys_page_walk 12 t 77, phys_page_walk 12 t (77 + 2 ^ 20)))
    <$> (one_page ≫= address_space_dispatch_compact 12) =
  Some (6, Some (Some 3), Some (Some 3)).
Proof. vm_compute. reflexivity. Qed.

Lemma dispatch_compact_correct_witness :
  exists t t', one_page = Some t /\ address_space_dispatch_compact 12 t = Some t' /\
    page_section 12 t 77 = Some 3 /\ phys_page_walk 12 t' 77 = Some (Some 3).
Proof.
  destruct (phys_page_set_ok 12 ltac:(lia) section_number section_number_leaf
    (empty_table 0) 77 1 3) as (t & E & Ht & Hp & _);
    [by apply empty_table_ok|done|done|done|vm_compute; discriminate| |
     vm_compute; discriminate|].
  { intros p _. by apply page_section_empty. }
  destruct (dispatch_compact_correct 12 section_number t) as (t' & E' & Hw);
    [lia|apply section_number_leaf|done|].
  exists t, t'. assert (page_section 12 t 77 = Some 3) as E3 by (rewrite Hp; [done|by change (pw (P_L2_LEVELS 12)) with (2 ^ 54)]).
  split_and!; [exact E|exact E'|exact E3|].
  destruct (Hw 77) as (s & r & Es & -> & _ & Hr). rewrite E3 in Es. injection Es as <-.
  destruct Hr as [Hr|Hr]; [|done]. destruct r as [s|]; [|done]. by cbn in Hr; subst s.
Defined.
