(* ===== verification/Dispatch.v ===== *)
(** * Dispatching addresses to sections ([qemu/exec.c])

    The dispatch structure of a flat view: the sections of its ranges, the page
    table of [PhysMap] over them, and the subpages for the pages that several
    ranges share.  [generate_memory_topology] fills it range by range and
    compacts it; the accesses of the CPU look addresses up in it, through a
    one-entry cache.  A failed assertion is [None].

    Main theorem: for every view the dispatch structure answers every address,
    whatever was looked up before, exactly as the view does. *)

From S2P Require Import Prelude FlatView PhysMap.

(** ** The target's page size *)

(** [TARGET_LONG_BITS] is the width of [target_ulong]. *)
Record target := mk_target { TARGET_PAGE_BITS : Z; TARGET_LONG_BITS : Z }.

Definition TARGET_PAGE_SIZE (tg : target) : Z := Z.shiftl 1 (TARGET_PAGE_BITS tg).

(** [((target_ulong)-1 << TARGET_PAGE_BITS)], converted to [hwaddr] where it is used. *)
Definition TARGET_PAGE_MASK (tg : target) : Z :=
  wrap (TARGET_LONG_BITS tg) (Z.shiftl (2 ^ TARGET_LONG_BITS tg - 1) (TARGET_PAGE_BITS tg)).

(** [((addr) & ~TARGET_PAGE_MASK)] *)
Definition SUBPAGE_IDX (tg : target) (addr : Z) : Z :=
  Z.land addr (wrap (TARGET_LONG_BITS tg) (Z.lnot (TARGET_PAGE_MASK tg))).

(** [ROUND_UP((addr), TARGET_PAGE_SIZE)] on a [hwaddr]. *)
Definition TARGET_PAGE_ALIGN (tg : target) (addr : Z) : Z :=
  Z.land (u64 (addr + TARGET_PAGE_SIZE tg - 1)) (u64 (- TARGET_PAGE_SIZE tg)).

(** ** Data *)

(** What [section->mr] points to: a region of the tree, the engine's
    [io_mem_unassigned], or the [iomem] of a subpage. *)
Inductive region_ref := mr_region (mr : Z) | mr_unassigned | mr_subpage (n : nat).

#[global] Instance region_ref_eq_dec : EqDecision region_ref.
Proof. solve_decision. Defined.

Record section := mk_sec {
  s_mr : region_ref;
  s_offset_within_region : Z;
  s_size : Z;
  s_offset_within_address_space : Z;
  s_readonly : bool
}.

(** [sub_section] has [TARGET_PAGE_SIZE] elements; [priority] is the one of
    the subpage's [iomem]. *)
Record subpage_t := mk_subpage { sp_base : Z; sub_section : list Z; sp_priority : Z }.

(** [sections] are those of the [PhysPageMap] ([sections_nb] is their number);
    [subpages] the subpages allocated so far; [mru_section] points into
    [sections]. *)
Record AddressSpaceDispatch := mk_dispatch {
  mru_section : option Z;
  table : page_table;
  sections : list section;
  sections_nb_alloc : Z;
  subpages : list subpage_t
}.

Definition with_table (t : page_table) (d : AddressSpaceDispatch) : AddressSpaceDispatch :=
  mk_dispatch (mru_section d) t (sections d) (sections_nb_alloc d) (subpages d).

Definition with_mru (m : option Z) (d : AddressSpaceDispatch) : AddressSpaceDispatch :=
  mk_dispatch m (table d) (sections d) (sections_nb_alloc d) (subpages d).

Definition with_subpages (l : list subpage_t) (d : AddressSpaceDispatch) : AddressSpaceDispatch :=
  mk_dispatch (mru_section d) (table d) (sections d) (sections_nb_alloc d) l.

(** ** Lookup *)

(** [range_get_last] wraps in 64 bits. *)
Definition range_covers_byte (offset len byte : Z) : bool :=
  (offset <=? byte) && (byte <=? u64 (offset + len - 1)).

(** [int128_gethi] and [int128_getlo] of the size. *)
Definition section_covers_addr (s : section) (addr : Z) : bool :=
  negb (Z.shiftr (s_size s) 64 =? 0) ||
  range_covers_byte (s_offset_within_address_space s) (u64 (s_size s)) addr.

(** The number of the section found. *)
Definition phys_page_find (tg : target) (d : AddressSpaceDispatch) (addr : Z) : option Z :=
  let index := Z.shiftr addr (TARGET_PAGE_BITS tg) in
  r ← phys_page_walk (TARGET_PAGE_BITS tg) (table d) index;
  match r with
  | None => Some PHYS_SECTION_UNASSIGNED
  | Some p =>
    s ← sections d !! Z.to_nat p;
    if section_covers_addr s addr then Some p else Some PHYS_SECTION_UNASSIGNED
  end.

(** Whether the cached section answers for the address. *)
Definition mru_hit (d : AddressSpaceDispatch) (addr : Z) : option (option Z) :=
  match mru_section d with
  | None => Some None
  | Some m =>
    if m =? PHYS_SECTION_UNASSIGNED then Some None else
    s ← sections d !! Z.to_nat m;
    Some (if section_covers_addr s addr then Some m else None)
  end.

(** The cached section or the one found, which is cached then. *)
Definition lookup_page (tg : target) (d : AddressSpaceDispatch) (addr : Z)
    : option (Z * AddressSpaceDispatch) :=
  hit ← mru_hit d addr;
  match hit with
  | Some m => Some (m, d)
  | None => p ← phys_page_find tg d addr; Some (p, with_mru (Some p) d)
  end.

Definition address_space_lookup_region (tg : target) (d : AddressSpaceDispatch) (addr : Z)
    (resolve_subpage : bool) : option (Z * AddressSpaceDispatch) :=
  '(p, d) ← lookup_page tg d addr;
  s ← sections d !! Z.to_nat p;
  match s_mr s with
  | mr_subpage n =>
    if resolve_subpage then
      sp ← subpages d !! n;
      p ← sub_section sp !! Z.to_nat (SUBPAGE_IDX tg addr);
      Some (p, d)
    else Some (p, d)
  | _ => Some (p, d)
  end.

(** Returns the section with its number, [*xlat], [*plen] and the structure;
    [is_ram] is [memory_region_is_ram]. *)
Definition address_space_translate_internal (is_ram : region_ref -> bool) (tg : target)
    (d : AddressSpaceDispatch) (addr plen : Z) (resolve_subpage : bool)
    : option (Z * section * Z * Z * AddressSpaceDispatch) :=
  '(p, d) ← address_space_lookup_region tg d addr resolve_subpage;
  s ← sections d !! Z.to_nat p;
  let addr := u64 (addr - s_offset_within_address_space s) in
  let xlat := u64 (addr + s_offset_within_region s) in
  plen ← (if is_ram (s_mr s) then int128_get64 (Z.min (s_size s - addr) plen) else Some plen);
  Some (p, s, xlat, plen, d).

(** ** Construction *)

Definition phys_section_add (tg : target) (d : AddressSpaceDispatch) (s : section)
    : option (Z * AddressSpaceDispatch) :=
  let nb := Z.of_nat (length (sections d)) in
  if negb (nb <? TARGET_PAGE_SIZE tg) then None else
  let alloc := if nb =? sections_nb_alloc d then Z.max (u32 (sections_nb_alloc d * 2)) 16
               else sections_nb_alloc d in
  Some (u16 nb, mk_dispatch (mru_section d) (table d) (sections d ++ [s]) alloc (subpages d)).

(** [for (; idx <= eidx; idx++) mmio->sub_section[idx] = section], [n] times. *)
Fixpoint set_sub_sections (n idx : nat) (v : Z) (l : list Z) : list Z :=
  match n with
  | O => l
  | S n => set_sub_sections n (S idx) v (<[idx := v]> l)
  end.

(** [start] and [end_] are [uint32_t]; the result code is ignored by the caller. *)
Definition subpage_register (tg : target) (sp : subpage_t) (start end_ s : Z) : subpage_t :=
  if (TARGET_PAGE_SIZE tg <=? start) || (TARGET_PAGE_SIZE tg <=? end_) then sp else
  let idx := SUBPAGE_IDX tg start in
  let eidx := SUBPAGE_IDX tg end_ in
  mk_subpage (sp_base sp)
    (set_sub_sections (Z.to_nat (eidx - idx + 1)) (Z.to_nat idx) s (sub_section sp))
    (sp_priority sp).

(** [sub_section] is zeroed: [PHYS_SECTION_UNASSIGNED]. *)
Definition subpage_init (tg : target) (snapshot_level base : Z) : subpage_t :=
  mk_subpage base (replicate (Z.to_nat (TARGET_PAGE_SIZE tg)) 0) snapshot_level.

(** The subpage of the page at [base], which must be one or unassigned. *)
Definition open_subpage (tg : target) (level : Z) (d : AddressSpaceDispatch) (base : Z)
    : option (nat * AddressSpaceDispatch) :=
  p ← phys_page_find tg d base;
  existing ← sections d !! Z.to_nat p;
  match s_mr existing with
  | mr_subpage n => Some (n, d)
  | mr_unassigned =>
    let n := length (subpages d) in
    let d := with_subpages (subpages d ++ [subpage_init tg level base]) d in
    '(p, d) ← phys_section_add tg d
                (mk_sec (mr_subpage n) 0 (TARGET_PAGE_SIZE tg) base false);
    t ← phys_page_set (TARGET_PAGE_BITS tg) (table d)
          (Z.shiftr base (TARGET_PAGE_BITS tg)) 1 p;
    Some (n, with_table t d)
  | mr_region _ => None
  end.

Definition register_subpage (tg : target) (level : Z) (d : AddressSpaceDispatch) (s : section)
    : option AddressSpaceDispatch :=
  let base := Z.land (s_offset_within_address_space s) (TARGET_PAGE_MASK tg) in
  '(n, d) ← open_subpage tg level d base;
  let start := SUBPAGE_IDX tg (s_offset_within_address_space s) in
  size ← int128_get64 (s_size s);
  let end_ := u64 (start + size - 1) in
  '(p, d) ← phys_section_add tg d s;
  Some (with_subpages
    (alter (fun sp => subpage_register tg sp (u32 start) (u32 end_) p) n (subpages d)) d).

Definition register_multipage (tg : target) (d : AddressSpaceDispatch) (s : section)
    : option AddressSpaceDispatch :=
  let start_addr := s_offset_within_address_space s in
  '(p, d) ← phys_section_add tg d s;
  num_pages ← int128_get64 (Z.shiftr (s_size s) (TARGET_PAGE_BITS tg));
  if num_pages =? 0 then None else
  t ← phys_page_set (TARGET_PAGE_BITS tg) (table d)
        (Z.shiftr start_addr (TARGET_PAGE_BITS tg)) num_pages p;
  Some (with_table t d).

(** The part of a section up to [size], and what remains after it. *)
Definition sec_resize (s : section) (size : Z) : section :=
  mk_sec (s_mr s) (s_offset_within_region s) size (s_offset_within_address_space s) (s_readonly s).

Definition sec_advance (s : section) (size : Z) : option section :=
  n ← int128_get64 size;
  Some (mk_sec (s_mr s) (u64 (s_offset_within_region s + n)) (s_size s - size)
          (u64 (s_offset_within_address_space s + n)) (s_readonly s)).

(** "register whole pages" and "register last subpage". *)
Definition add_pages (tg : target) (level : Z) (d : AddressSpaceDispatch) (remain : section)
    : option AddressSpaceDispatch :=
  if TARGET_PAGE_SIZE tg <=? s_size remain then
    let now := sec_resize remain (Z.land (s_size remain) (- TARGET_PAGE_SIZE tg)) in
    d ← register_multipage tg d now;
    if s_size remain =? s_size now then Some d else
    remain ← sec_advance remain (s_size now);
    register_subpage tg level d remain
  else register_subpage tg level d remain.

Definition flatview_add_to_dispatch (tg : target) (level : Z) (d : AddressSpaceDispatch)
    (s : section) : option AddressSpaceDispatch :=
  if negb (SUBPAGE_IDX tg (s_offset_within_address_space s) =? 0) then
    let left := u64 (TARGET_PAGE_ALIGN tg (s_offset_within_address_space s) -
                     s_offset_within_address_space s) in
    let now := sec_resize s (Z.min left (s_size s)) in
    d ← register_subpage tg level d now;
    if s_size s =? s_size now then Some d else
    remain ← sec_advance s (s_size now);
    add_pages tg level d remain
  else add_pages tg level d s.

(** The section of everything that nothing is mapped at. *)
Definition dummy_section : section := mk_sec mr_unassigned 0 int128_2_64 0 false.

Definition address_space_dispatch_new (tg : target) (hint : Z) : option AddressSpaceDispatch :=
  '(n, d) ← phys_section_add tg (mk_dispatch None (empty_table hint) [] 0 []) dummy_section;
  if n =? PHYS_SECTION_UNASSIGNED then Some d else None.

Definition section_from_flat_range (fr : FlatRange) : option section :=
  start ← int128_get64 (ar_start (fr_addr fr));
  Some (mk_sec (mr_region (fr_mr fr)) (offset_in_region fr) (ar_size (fr_addr fr)) start
          (fr_readonly fr)).

(** The loop of [generate_memory_topology] over the ranges of the view. *)
Definition add_ranges (tg : target) (level : Z) (l : list FlatRange) (d : AddressSpaceDispatch)
    : option AddressSpaceDispatch :=
  foreach (fun fr d => s ← section_from_flat_range fr; flatview_add_to_dispatch tg level d s) l d.

(** [generate_memory_topology] from the rendered view on. *)
Definition generate_dispatch (tg : target) (level hint : Z) (view : FlatView)
    : option AddressSpaceDispatch :=
  d ← address_space_dispatch_new tg hint;
  d ← add_ranges tg level (ranges view) d;
  t ← address_space_dispatch_compact (TARGET_PAGE_BITS tg) (table d);
  Some (with_table t d).

(** ** Destruction *)

(** The subpage that [phys_section_destroy] frees. *)
Definition phys_section_destroy (s : section) : list nat :=
  match s_mr s with mr_subpage n => [n] | _ => [] end.

(** [phys_sections_free]: the sections from the last to the first. *)
Definition address_space_dispatch_free (d : AddressSpaceDispatch) : list nat :=
  concat (phys_section_destroy <$> reverse (sections d)).

(** ** Page arithmetic *)

Lemma land_high a n b :
  0 <= b <= n -> Z.land a (2 ^ n - 2 ^ b) = 2 ^ b * ((a / 2 ^ b) mod 2 ^ (n - b)).
Proof.
  intros Hb. replace (2 ^ n - 2 ^ b) with (Z.shiftl (Z.ones (n - b)) b).
  2:{ rewrite Z.shiftl_mul_pow2, Z.ones_equiv by lia.
      rewrite <- (Z.sub_1_r (2 ^ (n - b))), Z.mul_sub_distr_r, <- Z.pow_add_r by lia.
      f_equal; [f_equal; lia|lia]. }
  rewrite <- Z.land_ones by lia. rewrite <- Z.shiftr_div_pow2, Z.mul_comm by lia.
  rewrite <- Z.shiftl_mul_pow2 by lia. apply Z.bits_inj'. intros i Hi.
  rewrite Z.land_spec, !Z.shiftl_spec by done.
  destruct (decide (i < b)); [rewrite !(Z.testbit_neg_r _ (i - b)) by lia; apply andb_false_r|].
  rewrite Z.land_spec, Z.shiftr_spec by lia. do 2 f_equal. lia.
Qed.

Section pages.
Context (tg : target).
Context (Hbits : 1 <= TARGET_PAGE_BITS tg <= 16).
Context (Hlong : 32 <= TARGET_LONG_BITS tg <= 64).

Abbreviation bits := (TARGET_PAGE_BITS tg).
Abbreviation ps := (2 ^ bits).

Lemma page_size : TARGET_PAGE_SIZE tg = ps.
Proof. unfold TARGET_PAGE_SIZE. rewrite Z.shiftl_mul_pow2 by lia. lia. Qed.

Lemma ps_range : 2 <= ps <= 2 ^ 16.
Proof.
  split; [change 2 with (2 ^ 1) at 1|]; apply Z.pow_le_mono_r; lia.
Qed.

(** The number of pages of the address space. *)
Lemma ps_pages : 2 ^ 64 = 2 ^ (64 - bits) * ps.
Proof. rewrite <- Z.pow_add_r by lia. f_equal. lia. Qed.

Lemma page_mask : TARGET_PAGE_MASK tg = 2 ^ TARGET_LONG_BITS tg - ps.
Proof.
  unfold TARGET_PAGE_MASK, wrap. rewrite Z.shiftl_mul_pow2 by lia.
  symmetry. apply (Z.mod_unique _ _ (ps - 1)).
  - left. split; [|pose proof ps_range; lia]. apply Z.le_0_sub, Z.pow_le_mono_r; lia.
  - lia.
Qed.

Lemma subpage_idx a : SUBPAGE_IDX tg a = a mod ps.
Proof.
  unfold SUBPAGE_IDX. rewrite page_mask.
  replace (wrap _ (Z.lnot _)) with (Z.ones bits); [apply Z.land_ones; lia|].
  unfold wrap. rewrite Z.ones_equiv. apply (Z.mod_unique _ _ (- (1))).
  - left. split; [pose proof ps_range; lia|].
    apply (Z.le_lt_trans _ ps); [lia|]. apply Z.pow_lt_mono_r; lia.
  - unfold Z.lnot. lia.
Qed.

Lemma page_base a :
  0 <= a < 2 ^ TARGET_LONG_BITS tg -> Z.land a (TARGET_PAGE_MASK tg) = a / ps * ps.
Proof.
  intros Ha. rewrite page_mask, land_high by lia. rewrite Z.mod_small; [lia|].
  split; [apply Z.div_pos; lia|]. apply Z.div_lt_upper_bound; [lia|].
  rewrite <- Z.pow_add_r by lia. replace (bits + (TARGET_LONG_BITS tg - bits))
    with (TARGET_LONG_BITS tg) by lia. lia.
Qed.

Lemma page_floor a : Z.land a (- TARGET_PAGE_SIZE tg) = a / ps * ps.
Proof.
  rewrite page_size. replace (- ps) with (Z.lnot (Z.ones bits))
    by (rewrite Z.ones_equiv; unfold Z.lnot; lia).
  rewrite <- Z.ldiff_land, Z.ldiff_ones_r, Z.shiftl_mul_pow2, Z.shiftr_div_pow2 by lia. done.
Qed.

(** The bytes from an unaligned address to the next page. *)
Lemma page_left a :
  0 <= a < 2 ^ 64 -> a mod ps <> 0 ->
  u64 (TARGET_PAGE_ALIGN tg a - a) = ps - a mod ps.
Proof.
  intros Ha Hm. unfold TARGET_PAGE_ALIGN. rewrite page_size. pose proof ps_range as Hps.
  replace (u64 (- ps)) with (2 ^ 64 - ps).
  2:{ unfold wrap. apply (Z.mod_unique _ _ (- (1))); [left|]; lia. }
  set (x := u64 (a + ps - 1)). assert (0 <= x < 2 ^ 64) as Hx by (apply wrap_range; lia).
  assert (Z.land x (2 ^ 64 - ps) = x - x mod ps) as ->.
  { rewrite land_high by lia. rewrite Z.mod_small; [rewrite (Z.mod_eq x ps) by lia; lia|].
    split; [apply Z.div_pos; lia|]. apply Z.div_lt_upper_bound; [lia|]. pose proof ps_pages. lia. }
  assert (x mod ps = a mod ps - 1) as ->.
  { unfold x, wrap. rewrite Z.mod_mod_divide by (exists (2 ^ (64 - bits)); apply ps_pages).
    symmetry. apply (Z.mod_unique _ _ (a / ps + 1)); [left; pose proof (Z.mod_pos_bound a ps); lia|].
    pose proof (Z.div_mod a ps). lia. }
  unfold x. replace (u64 (a + ps - 1) - (a mod ps - 1) - a)
    with (u64 (a + ps - 1) - (a mod ps - 1 + a)) by lia.
  rewrite wrap_sub_l. replace (a + ps - 1 - (a mod ps - 1 + a)) with (ps - a mod ps) by lia.
  apply wrap_id. unfold uint. pose proof (Z.mod_pos_bound a ps). lia.
Qed.

(** ** What a dispatch structure answers

    [U] is the section number of a page, [sv] what each address is served
    from: nothing at [hi] or above. *)

Definition U (d : AddressSpaceDispatch) (p : Z) : option Z := page_section bits (table d) p.

Abbreviation pages := (pw (P_L2_LEVELS bits)).

Definition in_page (p a : Z) : Prop := p * ps <= a < p * ps + ps.

Definition in_sec (s : section) (a : Z) : Prop :=
  s_offset_within_address_space s <= a < s_offset_within_address_space s + s_size s.

Definition sec_ok (s : section) : Prop :=
  0 <= s_offset_within_address_space s /\ 0 < s_size s /\
  s_offset_within_address_space s + s_size s <= 2 ^ 64.

(** What a section that is not a subpage serves at an address. *)
Definition sec_serves (s : section) (a : Z) : option serves :=
  match s_mr s with
  | mr_region m =>
    Some (m, s_offset_within_region s + (a - s_offset_within_address_space s), s_readonly s)
  | _ => None
  end.

(** Section [s] answers for page [p] as [sv] says, through its subpage if it
    has one. *)
Definition page_answers (d : AddressSpaceDispatch) (sv : Z -> option serves) (s : section)
    (p : Z) : Prop :=
  match s_mr s with
  | mr_subpage n =>
    exists sp, subpages d !! n = Some sp /\ length (sub_section sp) = Z.to_nat ps /\
      forall a, in_page p a -> exists i s2, sub_section sp !! Z.to_nat (a mod ps) = Some i /\
        sections d !! Z.to_nat i = Some s2 /\ (forall n, s_mr s2 <> mr_subpage n) /\
        in_sec s2 a /\ sv a = sec_serves s2 a
  | _ => forall a, in_page p a -> sv a = sec_serves s a
  end.

Definition page_ok (d : AddressSpaceDispatch) (hi : Z) (sv : Z -> option serves) (p : Z) : Prop :=
  exists i s, U d p = Some i /\ 0 <= i < 2 ^ 16 /\ sections d !! Z.to_nat i = Some s /\
    page_answers d sv s p /\
    (i <> 0 -> s_mr s <> mr_unassigned /\ p * ps < hi /\
       s_offset_within_address_space s <= p * ps /\
       p * ps + ps <= s_offset_within_address_space s + s_size s).

Record dinv (d : AddressSpaceDispatch) (hi : Z) (sv : Z -> option serves) : Prop := mk_dinv {
  d_table : table_ok bits section_number (table d);
  d_nodes : Z.of_nat (length (nodes (table d))) <= 13 * Z.of_nat (length (sections d));
  d_count : Z.of_nat (length (sections d)) <= ps;
  d_zero : sections d !! 0%nat = Some dummy_section;
  d_secs : forall i s, sections d !! i = Some s -> sec_ok s /\
    forall n, s_mr s = mr_subpage n -> (n < length (subpages d))%nat /\ s_size s = ps;
  d_unique : forall i j s s' n, sections d !! i = Some s -> sections d !! j = Some s' ->
    s_mr s = mr_subpage n -> s_mr s' = mr_subpage n -> i = j;
  d_pages : forall p, 0 <= p < pages -> page_ok d hi sv p;
  d_excl : forall p i s a, 0 <= p < pages -> U d p = Some i -> i <> 0 ->
    sections d !! Z.to_nat i = Some s -> in_sec s a -> U d (a / ps) = Some i;
  d_served : forall a, hi <= a -> sv a = None;
  d_mru : mru_section d = None;
  d_owner : forall n, (n < length (subpages d))%nat ->
    exists i s, sections d !! i = Some s /\ s_mr s = mr_subpage n
}.

Lemma page_of a p : in_page p a <-> a / ps = p.
Proof.
  pose proof ps_range as Hps. unfold in_page. pose proof (Z.mul_div_le a ps ltac:(lia)).
  pose proof (Z.mul_succ_div_gt a ps ltac:(lia)). split; [|intros <-; lia].
  intros Hp. symmetry. apply (Z.div_unique _ _ _ (a - p * ps)); lia.
Qed.

Lemma page_bound a : 0 <= a < 2 ^ 64 -> 0 <= a / ps < 2 ^ (64 - bits).
Proof.
  intros Ha. pose proof ps_range. pose proof ps_pages.
  split; [apply Z.div_pos; lia|apply Z.div_lt_upper_bound; lia].
Qed.

Lemma pages_bound : 2 ^ (64 - bits) <= pages.
Proof. apply levels_range. lia. Qed.

Lemma covers_iff s a :
  sec_ok s -> 0 <= a < 2 ^ 64 -> section_covers_addr s a = true <-> in_sec s a.
Proof.
  intros (H1 & H2 & H3) Ha. unfold section_covers_addr, range_covers_byte, in_sec.
  rewrite Z.shiftr_div_pow2 by lia. destruct (decide (s_size s = 2 ^ 64)) as [E|E].
  - rewrite E, Z.div_same by lia. cbn [Z.eqb negb orb]. split; [lia|done].
  - rewrite Z.div_small by lia. cbn [Z.eqb negb orb]. rewrite (wrap_id _ (s_size s)) by (unfold uint; lia).
    rewrite wrap_id by (unfold uint; lia). rewrite andb_true_iff, !Z.leb_le. lia.
Qed.

Lemma dummy_covers a : section_covers_addr dummy_section a = true.
Proof. done. Qed.

(** A tree over the same pages whose walks go wrong only on free pages. *)
Definition walks (u : Z -> option Z) (t : page_table) : Prop :=
  forall p, 0 <= p < 2 ^ (64 - bits) -> exists r, phys_page_walk bits t p = Some r /\
    (forall s, r = Some s -> s = 0 \/ s <> 0 /\ exists p', 0 <= p' < pages /\ u p' = Some s) /\
    (u p = Some (default PHYS_SECTION_UNASSIGNED r) \/ u p = Some 0).

(** [phys_page_find] finds the section of the page, before compaction and
    after it: the test of the section found makes up for the wrong walks. *)
Lemma phys_page_find_ok d hi sv t a :
  dinv d hi sv -> walks (U d) t -> 0 <= a < 2 ^ 64 ->
  phys_page_find tg (with_table t d) a = U d (a / ps).
Proof.
  intros Hd Hw Ha. pose proof (page_bound a Ha) as Hp. pose proof pages_bound as Hpb.
  destruct (Hw (a / ps) Hp) as (r & Er & Him & Hr). unfold phys_page_find.
  rewrite Z.shiftr_div_pow2 by lia. cbn [table with_table sections]. rewrite Er.
  cbn [mbind option_bind]. destruct r as [s|]; [|by destruct Hr as [-> | ->]].
  cbn [default] in Hr.
  destruct (Him s eq_refl) as [->|(Hs & p' & Hp' & Es)].
  { rewrite (d_zero _ _ _ Hd : sections d !! Z.to_nat 0 = _). cbn [mbind option_bind].
    rewrite dummy_covers. by destruct Hr as [-> | ->]. }
  destruct (d_pages _ _ _ Hd p' Hp') as (i & sec & Ei & Hi & Hsec & _ & _).
  rewrite Es in Ei. injection Ei as <-. rewrite Hsec. cbn [mbind option_bind].
  destruct (d_secs _ _ _ Hd _ _ Hsec) as [Hok _].
  destruct (section_covers_addr sec a) eqn:Ec.
  - apply covers_iff in Ec; [|done|done]. symmetry. by eapply d_excl.
  - destruct Hr as [Hr| ->]; [exfalso|done].
    destruct (d_pages _ _ _ Hd (a / ps) ltac:(lia)) as (i & sec' & Ei & _ & Hsec' & _ & Hcov).
    rewrite Hr in Ei. injection Ei as <-. rewrite Hsec in Hsec'. injection Hsec' as <-.
    destruct (Hcov Hs) as (_ & _ & H1 & H2).
    assert (section_covers_addr sec a = true); [|congruence].
    apply covers_iff; [done|done|]. assert (in_page (a / ps) a) as Hin by (by apply page_of).
    unfold in_page, in_sec in *. lia.
Qed.

Lemma walks_self d hi sv : dinv d hi sv -> walks (U d) (table d).
Proof.
  intros Hd p Hp. pose proof pages_bound.
  destruct (d_pages _ _ _ Hd p ltac:(lia)) as (i & s & Ei & _).
  pose proof Ei as Ew. unfold U, page_section in Ew.
  destruct (phys_page_walk bits (table d) p) as [r|] eqn:Er; [|done].
  exists r. split_and!; [done| |left; by rewrite Ei, <- Ew].
  intros s' ->. destruct (decide (s' = 0)); [by left|right]. split; [done|].
  exists p. split; [lia|]. by rewrite Ei, <- Ew.
Qed.

Lemma walks_compact d hi sv :
  dinv d hi sv -> exists t, address_space_dispatch_compact bits (table d) = Some t /\
    walks (U d) t.
Proof.
  intros Hd. edestruct (dispatch_compact_ok bits ltac:(lia))
    as (t & E & Hw); [|exact (table_ok_image _ _ _ (d_table _ _ _ Hd))|].
  { intros s [Hs _]. by apply section_number_leaf. }
  exists t. split; [done|]. intros p Hp. destruct (Hw p) as (s & r & Es & Er & Him & Hr).
  exists r. split_and!; [done| |].
  - intros s' ->. destruct (Him s' eq_refl) as [[Hs Hp']| ->]; [right|by left].
    split; [|done]. by apply section_number_leaf in Hs as [? _].
  - unfold U. rewrite Es. destruct Hr as [-> | ->]; auto.
Qed.

(** *** Adding a section *)

Definition push (d : AddressSpaceDispatch) (s : section) : AddressSpaceDispatch :=
  let nb := Z.of_nat (length (sections d)) in
  mk_dispatch (mru_section d) (table d) (sections d ++ [s])
    (if nb =? sections_nb_alloc d then Z.max (u32 (sections_nb_alloc d * 2)) 16
     else sections_nb_alloc d) (subpages d).

Lemma section_add_run d s :
  Z.of_nat (length (sections d)) < ps ->
  phys_section_add tg d s = Some (Z.of_nat (length (sections d)), push d s).
Proof.
  intros H. unfold phys_section_add. rewrite page_size. pose proof ps_range.
  destruct (Z.ltb_spec (Z.of_nat (length (sections d))) ps); [|lia]. cbn [negb].
  rewrite wrap_id by (unfold uint; lia). done.
Qed.

Lemma answers_mono d d' sv s p :
  (forall i x, sections d !! i = Some x -> sections d' !! i = Some x) ->
  (forall n x, subpages d !! n = Some x -> subpages d' !! n = Some x) ->
  page_answers d sv s p -> page_answers d' sv s p.
Proof.
  intros Hs Hn. unfold page_answers. destruct (s_mr s) as [m| |n]; [done|done|].
  intros (sp & Hsp & Hlen & H). exists sp. split_and!; [by apply Hn|done|].
  intros a Ha. destruct (H a Ha) as (i & s2 & H1 & H2 & H3).
  exists i, s2. split; [done|split; [by apply Hs|done]].
Qed.

(** What may come with a new section: nothing, or the subpage it stands for. *)
Definition new_subpages (d : AddressSpaceDispatch) (s : section) (new : list subpage_t) : Prop :=
  (new = [] /\ forall n, s_mr s <> mr_subpage n) \/
  (exists sp, new = [sp] /\ s_mr s = mr_subpage (length (subpages d)) /\ s_size s = ps).

Lemma dinv_push d hi sv s new :
  dinv d hi sv -> sec_ok s -> Z.of_nat (length (sections d)) < ps -> new_subpages d s new ->
  dinv (push (with_subpages (subpages d ++ new) d) s) hi sv.
Proof.
  intros Hd Hs Hlt Hnew.
  assert (forall i x, sections d !! i = Some x -> (sections d ++ [s]) !! i = Some x) as Hold
    by (intros; by apply lookup_app_l_Some).
  assert (forall n, s_mr s = mr_subpage n ->
    (length (subpages d) = n /\ length (subpages d ++ new) = S n /\ s_size s = ps)%nat) as Hsub.
  { intros n Hn. destruct Hnew as [[_ Hno]|(sp & -> & Hr & Hsz)]; [by destruct (Hno n)|].
    rewrite Hr in Hn. injection Hn as <-. rewrite length_app. simpl. split_and!; [done|lia|done]. }
  assert (forall i x, (sections d ++ [s]) !! i = Some x ->
    sections d !! i = Some x \/ (i = length (sections d) /\ x = s)) as Hcases
    by (intros; by apply lookup_snoc_cases).
  assert (forall i x n, sections d !! i = Some x -> s_mr x = mr_subpage n ->
    (n < length (subpages d))%nat) as Hlow by (intros i x n Hx; by apply (d_secs _ _ _ Hd _ _ Hx)).
  split; cbn [table sections subpages push with_subpages].
  - apply Hd.
  - rewrite length_app. simpl. pose proof (d_nodes _ _ _ Hd). lia.
  - rewrite length_app. simpl. lia.
  - apply Hold, Hd.
  - intros i x Hx. destruct (Hcases i x Hx) as [Hx'|[-> ->]].
    + destruct (d_secs _ _ _ Hd _ _ Hx') as [Hok Hn]. split; [done|].
      intros n Hr. destruct (Hn n Hr). rewrite length_app. split; [lia|done].
    + split; [done|]. intros n Hr. destruct (Hsub n Hr) as (? & ? & ?). split; [lia|done].
  - intros i j x y n Hx Hy Hrx Hry.
    destruct (Hcases i x Hx) as [Hx'|[-> ->]], (Hcases j y Hy) as [Hy'|[-> ->]].
    + by eapply (d_unique _ _ _ Hd).
    + pose proof (Hlow _ _ _ Hx' Hrx). pose proof (Hsub n Hry). lia.
    + pose proof (Hlow _ _ _ Hy' Hry). pose proof (Hsub n Hrx). lia.
    + done.
  - intros p Hp. destruct (d_pages _ _ _ Hd p Hp) as (i & x & Ei & Hi & Hx & Ha & Hc).
    exists i, x. split; [done|split; [done|split; [by apply Hold|split; [|done]]]].
    eapply answers_mono; [exact Hold| |done].
    intros n y Hy. by apply lookup_app_l_Some.
  - intros p i x a Hp Ei Hi Hx Hin. destruct (d_pages _ _ _ Hd p Hp) as (i' & y & Ei' & _ & Hy & _).
    change (U d p = Some i) in Ei. assert (i' = i) as -> by congruence.
    assert (y = x) as -> by (apply Hold in Hy; congruence).
    by eapply (d_excl _ _ _ Hd).
  - apply Hd.
  - apply Hd.
  - intros n Hn. destruct (decide (n < length (subpages d))%nat) as [Hn'|Hn'].
    + destruct (d_owner _ _ _ Hd n Hn') as (i & x & Hx & Hr). exists i, x. split; [by apply Hold|done].
    + destruct Hnew as [[-> _]|(sp & -> & Hr & _)]; rewrite length_app in Hn; simpl in Hn; [lia|].
      exists (length (sections d)), s. split; [by apply list_lookup_middle|].
      rewrite Hr. f_equal. lia.
Qed.

(** *** Giving pages to a section *)

Lemma answers_ext d sv sv' s p :
  (forall a, in_page p a -> sv' a = sv a) -> page_answers d sv s p -> page_answers d sv' s p.
Proof.
  intros E. unfold page_answers. destruct (s_mr s) as [m| |n].
  - intros H a Ha. rewrite E by done. by apply H.
  - intros H a Ha. rewrite E by done. by apply H.
  - intros (sp & Hsp & Hlen & H). exists sp. split_and!; [done|done|]. intros a Ha.
    rewrite E by done. by apply H.
Qed.

(** The addresses of a section of whole pages. *)
Lemma in_pages s p0 n a :
  s_offset_within_address_space s = p0 * ps -> s_size s = n * ps ->
  in_sec s a <-> p0 <= a / ps < p0 + n.
Proof.
  intros E1 E2. unfold in_sec. rewrite E1, E2. pose proof ps_range.
  assert (in_page (a / ps) a) as Hp by (by apply page_of). unfold in_page in Hp. nia.
Qed.

Lemma dinv_assign d hi sv s i p0 n hi' sv' :
  dinv d hi sv -> sections d !! Z.to_nat i = Some s -> 0 < i < 2 ^ 16 -> s_mr s <> mr_unassigned ->
  s_offset_within_address_space s = p0 * ps -> s_size s = n * ps ->
  (forall p, p0 <= p < p0 + n -> U d p = Some PHYS_SECTION_UNASSIGNED) ->
  hi <= hi' -> (p0 + n - 1) * ps < hi' ->
  (forall a, ~ in_sec s a -> sv' a = sv a) ->
  (forall p, p0 <= p < p0 + n -> page_answers d sv' s p) ->
  (forall a, hi' <= a -> sv' a = None) ->
  Z.of_nat (length (nodes (table d))) + 13 <= 13 * Z.of_nat (length (sections d)) ->
  exists t, phys_page_set bits (table d) p0 n i = Some t /\ dinv (with_table t d) hi' sv' /\
    forall p, p0 <= p < p0 + n -> U (with_table t d) p = Some i.
Proof.
  intros Hd Hs Hi Hun Eoff Esz Hfree Hhi Hlast Hsame Hans Hserved Hnodes.
  destruct (d_secs _ _ _ Hd _ _ Hs) as [(H1 & H2 & H3) _]. pose proof ps_range as Hps.
  pose proof ps_pages as Hpp. pose proof pages_bound as Hpb.
  destruct (levels_range bits ltac:(lia)) as [HL _].
  destruct (phys_page_set_ok bits ltac:(lia) section_number section_number_leaf (table d) p0 n i)
    as (t & E & Ht & Hp & Hn); [apply Hd|done|nia|nia|nia|exact Hfree| |].
  { pose proof (d_count _ _ _ Hd). change PHYS_MAP_NODE_NIL with (2 ^ 26 - 1). lia. }
  exists t. split; [done|].
  assert (forall p, 0 <= p < pages -> U (with_table t d) p =
    if decide (p0 <= p < p0 + n) then Some i else U d p) as HU by exact Hp.
  split; [|intros p Hpr; rewrite HU by nia; by apply decide_True].
  split; cbn [table sections subpages with_table]; try apply Hd; try done.
  - lia.
  - intros p Hpr. unfold page_ok. rewrite HU by done. case_decide as Hin.
    + exists i, s. split; [done|split; [lia|split; [done|split; [by apply Hans|]]]].
      intros _. rewrite Eoff, Esz. split; [done|]. nia.
    + destruct (d_pages _ _ _ Hd p Hpr) as (j & x & Ej & Hj & Hx & Ha & Hc).
      exists j, x. split; [done|split; [done|split; [done|split]]].
      * eapply answers_ext; [|exact Ha]. intros a Hpa. apply Hsame.
        rewrite (in_pages s p0 n a Eoff Esz). apply page_of in Hpa as ->. done.
      * intros Hnz. destruct (Hc Hnz) as (? & ? & ? & ?). split_and!; [done|lia|done|done].
  - intros p j x a Hpr. rewrite HU by done. intros Ej Hj Hx Hin.
    assert (0 <= a < 2 ^ 64) as Ha.
    { destruct (d_secs _ _ _ Hd _ _ Hx) as [(? & ? & ?) _]. unfold in_sec in Hin. lia. }
    pose proof (page_bound a Ha). rewrite HU by lia. case_decide as Hd1.
    + injection Ej as <-. rewrite Hs in Hx. injection Hx as <-.
      rewrite decide_True; [done|]. by apply (in_pages s p0 n a Eoff Esz).
    + pose proof (d_excl _ _ _ Hd p j x a Hpr Ej Hj Hx Hin) as Ea.
      rewrite decide_False; [done|]. intros Hr. rewrite (Hfree _ Hr) in Ea.
      by injection Ea as <-.
Qed.

(** *** Registering sections *)

#[local] Instance in_sec_dec s a : Decision (in_sec s a).
Proof. unfold in_sec. apply _. Defined.

(** The answers with a section added. *)
Definition extend (sv : Z -> option serves) (s : section) (a : Z) : option serves :=
  if decide (in_sec s a) then sec_serves s a else sv a.

(** Every section of a region is right for all its addresses. *)
Definition sound (d : AddressSpaceDispatch) (sv : Z -> option serves) : Prop :=
  forall s m a, s ∈ sections d -> s_mr s = mr_region m -> in_sec s a -> sv a = sec_serves s a.

Definition grown (d : AddressSpaceDispatch) (s : section) (d' : AddressSpaceDispatch) : Prop :=
  forall x, x ∈ sections d' -> x ∈ sections d \/ x = s \/ exists n, s_mr x = mr_subpage n.

Lemma sound_grown d hi sv s d' :
  dinv d hi sv -> sound d sv -> hi <= s_offset_within_address_space s -> grown d s d' ->
  sound d' (extend sv s).
Proof.
  intros Hd Hs Hhi Hg x m a Hx Hm Hin. unfold extend.
  destruct (Hg x Hx) as [Hx'|[-> |[n Hn]]]; [|by rewrite decide_True|congruence].
  pose proof (Hs x m a Hx' Hm Hin) as E. rewrite decide_False; [done|]. unfold in_sec. intros Ha.
  rewrite (d_served _ _ _ Hd a) in E by lia. unfold sec_serves in E. by rewrite Hm in E.
Qed.

Lemma push_none d hi sv s :
  dinv d hi sv -> sec_ok s -> Z.of_nat (length (sections d)) < ps ->
  (forall n, s_mr s <> mr_subpage n) -> dinv (push d s) hi sv.
Proof.
  intros Hd Hs Hlt Hn. pose proof (dinv_push d hi sv s [] Hd Hs Hlt ltac:(by left)) as H.
  replace (with_subpages (subpages d ++ []) d) with d in H; [done|].
  destruct d. unfold with_subpages. cbn. by rewrite app_nil_r.
Qed.

Lemma free_above d hi sv p :
  dinv d hi sv -> 0 <= p < pages -> hi <= p * ps -> U d p = Some PHYS_SECTION_UNASSIGNED.
Proof.
  intros Hd Hp Hhi. destruct (d_pages _ _ _ Hd p Hp) as (i & s & -> & _ & _ & _ & Hc).
  destruct (decide (i = 0)) as [->|Hi]; [done|]. destruct (Hc Hi) as (_ & ? & _). lia.
Qed.

Lemma register_multipage_ok d hi sv s m p0 n :
  dinv d hi sv -> sec_ok s -> s_mr s = mr_region m ->
  s_offset_within_address_space s = p0 * ps -> s_size s = n * ps ->
  hi <= s_offset_within_address_space s -> Z.of_nat (length (sections d)) < ps ->
  exists d', register_multipage tg d s = Some d' /\
    dinv d' (s_offset_within_address_space s + s_size s) (extend sv s) /\
    length (sections d') = S (length (sections d)) /\ grown d s d'.
Proof.
  intros Hd Hs Hm Eoff Esz Hhi Hlt. unfold register_multipage.
  rewrite section_add_run by done. cbn [mbind option_bind].
  pose proof ps_range as Hps. pose proof ps_pages. pose proof pages_bound.
  destruct Hs as (H1 & H2 & H3).
  assert (Z.shiftr (s_size s) bits = n) as ->.
  { rewrite Z.shiftr_div_pow2, Esz by lia. apply Z.div_mul. lia. }
  assert (Z.shiftr (s_offset_within_address_space s) bits = p0) as ->.
  { rewrite Z.shiftr_div_pow2, Eoff by lia. apply Z.div_mul. lia. }
  rewrite get64_Some by nia. cbn [mbind option_bind].
  destruct (Z.eqb_spec n 0); [nia|].
  pose proof (push_none d hi sv s Hd ltac:(done) Hlt ltac:(congruence)) as Hd1.
  assert (0 < length (sections d))%nat by (eapply lookup_lt_Some, d_zero, Hd).
  destruct (dinv_assign (push d s) hi sv s (Z.of_nat (length (sections d))) p0 n
    (s_offset_within_address_space s + s_size s) (extend sv s) Hd1) as (t & -> & Hd' & _);
    cbn [sections push table]; [| |congruence|done|done| |lia|nia| | | | |].
  - rewrite Nat2Z.id. by apply list_lookup_middle.
  - lia.
  - intros p Hp. change (U (push d s) p) with (U d p). apply (free_above d hi sv); [done|nia|nia].
  - intros a Ha. unfold extend. by rewrite decide_False.
  - intros p Hp. unfold page_answers. rewrite Hm. intros a Ha. unfold extend.
    rewrite decide_True; [done|]. apply (in_pages s p0 n a Eoff Esz). by apply page_of in Ha as ->.
  - intros a Ha. unfold extend. rewrite decide_False by (unfold in_sec; lia).
    apply (d_served _ _ _ Hd). lia.
  - pose proof (d_nodes _ _ _ Hd). rewrite length_app. simpl. lia.
  - eexists. split; [done|split; [done|]]. cbn [sections with_table push].
    rewrite length_app. split; [simpl; lia|]. intros x. cbn [sections with_table push].
    rewrite elem_of_app, list_elem_of_singleton. tauto.
Qed.

Lemma set_sub_sections_spec n idx v l :
  (idx + n <= length l)%nat ->
  length (set_sub_sections n idx v l) = length l /\
  forall j, set_sub_sections n idx v l !! j =
    if decide (idx <= j < idx + n)%nat then Some v else l !! j.
Proof.
  revert idx l. induction n as [|n IH]; intros idx l Hl; cbn [set_sub_sections].
  - split; [done|]. intros j. by rewrite decide_False by lia.
  - destruct (IH (S idx) (<[idx := v]> l)) as [H1 H2]; [rewrite length_insert; lia|].
    rewrite length_insert in H1. split; [done|]. intros j. rewrite H2.
    destruct (decide (j = idx)) as [->|Hne].
    + rewrite decide_False, decide_True by lia. apply list_lookup_insert_eq. lia.
    + rewrite list_lookup_insert_ne by done. repeat case_decide; done || lia.
Qed.

(** Entering a section into the subpage of its page. *)
Lemma dinv_fill d hi sv p i s n j s2 m :
  dinv d hi sv -> 0 <= p < pages -> U d p = Some i -> i <> 0 ->
  sections d !! Z.to_nat i = Some s -> s_mr s = mr_subpage n ->
  sections d !! Z.to_nat j = Some s2 -> s_mr s2 = mr_region m ->
  p * ps <= s_offset_within_address_space s2 ->
  s_offset_within_address_space s2 + s_size s2 <= p * ps + ps ->
  hi <= s_offset_within_address_space s2 + s_size s2 ->
  let start := s_offset_within_address_space s2 - p * ps in
  dinv (with_subpages (alter (fun sp => subpage_register tg sp start (start + s_size s2 - 1) j)
          n (subpages d)) d)
    (s_offset_within_address_space s2 + s_size s2) (extend sv s2).
Proof.
  intros Hd Hp Ei Hi Hs Hn Hj Hm Hlo Hup Hhi start. pose proof ps_range as Hps.
  destruct (d_secs _ _ _ Hd _ _ Hj) as [(_ & Hsz & _) _].
  destruct (d_secs _ _ _ Hd _ _ Hs) as [_ Hsn]. destruct (Hsn n Hn) as [_ Esz].
  destruct (d_pages _ _ _ Hd p Hp) as (i' & s' & Ei' & Hir & Hs' & Ha & Hc).
  rewrite Ei in Ei'. injection Ei' as <-. rewrite Hs in Hs'. injection Hs' as <-.
  destruct (Hc Hi) as (_ & Hphi & Hcov1 & Hcov2).
  split; cbn [table sections subpages with_subpages]; try apply Hd.
  - intros k x Hx. rewrite length_alter. by apply (d_secs _ _ _ Hd k).
  - intros p' Hp'. destruct (d_pages _ _ _ Hd p' Hp') as (i' & x & Ei' & Hir' & Hx & Ha' & Hc').
    exists i', x. split; [done|split; [done|split; [done|split]]].
    2:{ intros Hnz. destruct (Hc' Hnz) as (? & ? & ? & ?). split_and!; [done|lia|done|done]. }
    destruct (decide (p' = p)) as [->|Hne].
    + rewrite Ei in Ei'. injection Ei' as <-. rewrite Hs in Hx. injection Hx as <-.
      unfold page_answers in Ha' |- *. rewrite Hn in Ha' |- *.
      destruct Ha' as (sp & Hsp & Hlen & Hans). cbn [subpages sections with_subpages].
      rewrite list_lookup_alter_eq, Hsp. eexists. split; [done|]. unfold subpage_register.
      rewrite page_size, !subpage_idx, !Z.mod_small by lia.
      destruct (Z.leb_spec ps start), (Z.leb_spec ps (start + s_size s2 - 1)); try lia.
      cbn [orb sub_section].
      destruct (set_sub_sections_spec (Z.to_nat (start + s_size s2 - 1 - start + 1))
        (Z.to_nat start) j (sub_section sp)) as [Hl Hget]; [lia|].
      split; [lia|]. intros a Hpa. rewrite Hget. pose proof (proj1 (page_of a p) Hpa) as Ep.
      assert (a mod ps = a - p * ps) as -> by (rewrite Z.mod_eq by lia; rewrite Ep; lia).
      unfold in_page in Hpa. unfold extend. destruct (decide (in_sec s2 a)) as [Hin|Hin];
        unfold in_sec in Hin.
      * rewrite decide_True by lia. exists j, s2. split; [done|split; [done|split; [congruence|done]]].
      * rewrite decide_False by lia. destruct (Hans a Hpa) as (k & x & H1 & H2).
        exists k, x. split; [|done]. rewrite <- H1. f_equal.
        rewrite Z.mod_eq, Ep by lia. f_equal. lia.
    + assert (forall a, in_page p' a -> extend sv s2 a = sv a) as Hsame.
      { intros a Hpa. unfold extend. rewrite decide_False; [done|]. unfold in_sec. intros Hin.
        apply Hne. apply page_of in Hpa as <-. apply page_of. unfold in_page. lia. }
      apply (answers_ext _ sv); [done|].
      unfold page_answers in Ha' |- *. destruct (s_mr x) as [m'| |n'] eqn:Ex; [done|done|].
      destruct Ha' as (sp & Hsp & Hrest). exists sp. split; [|done].
      cbn [subpages with_subpages]. rewrite list_lookup_alter_ne; [done|]. intros <-.
      apply Hne. assert (i' = i) as -> by (pose proof (d_unique _ _ _ Hd _ _ _ _ _ Hx Hs Ex Hn); lia).
      rewrite Hs in Hx. injection Hx as <-. destruct (Hc' Hi) as (_ & _ & ? & ?). nia.
  - intros a Ha2. unfold extend. rewrite decide_False by (unfold in_sec; lia).
    apply (d_served _ _ _ Hd). lia.
  - intros k. rewrite length_alter. apply (d_owner _ _ _ Hd).
Qed.

Lemma dinv_hi d hi hi' sv : dinv d hi sv -> hi <= hi' -> dinv d hi' sv.
Proof.
  intros Hd Hle. split; try apply Hd.
  - intros p Hp. destruct (d_pages _ _ _ Hd p Hp) as (i & s & Ei & Hi & Hs & Ha & Hc).
    exists i, s. split; [done|split; [done|split; [done|split; [done|]]]].
    intros Hnz. destruct (Hc Hnz) as (? & ? & ? & ?). split_and!; [done|lia|done|done].
  - intros a Ha. apply (d_served _ _ _ Hd). lia.
Qed.

Lemma new_subpage_ok d hi sv level p off :
  dinv d hi sv -> 0 <= off < 2 ^ 64 -> hi <= off + 1 -> p = off / ps ->
  Z.of_nat (length (sections d)) < ps -> U d p = Some PHYS_SECTION_UNASSIGNED ->
  let s := mk_sec (mr_subpage (length (subpages d))) 0 ps (p * ps) false in
  let d1 := push (with_subpages (subpages d ++ [subpage_init tg level (p * ps)]) d) s in
  exists t, phys_page_set bits (table d1) p 1 (Z.of_nat (length (sections d))) = Some t /\
    dinv (with_table t d1) (off + 1) sv /\
    U (with_table t d1) p = Some (Z.of_nat (length (sections d))).
Proof.
  intros Hd Hoff Hhi Ep Hlt Hfree s d1. pose proof ps_range as Hps. pose proof ps_pages.
  pose proof (page_bound off Hoff) as Hpo. pose proof pages_bound as Hpb. rewrite <- Ep in Hpo.
  assert (in_page p off) as Hin by (by apply page_of).
  assert (sec_ok s) as Hs by (split_and!; cbn; nia).
  assert (dinv d1 hi sv) as Hd1.
  { apply dinv_push; [done|done|done|]. right. by exists (subpage_init tg level (p * ps)). }
  assert (0 < length (sections d))%nat by (eapply lookup_lt_Some, d_zero, Hd).
  unfold in_page in Hin.
  destruct (dinv_assign d1 hi sv s (Z.of_nat (length (sections d))) p 1 (off + 1) sv Hd1)
    as (t & Et & Hd' & HU); cbn [sections table d1 push with_subpages]; try done; try lia.
  - rewrite Nat2Z.id. by apply list_lookup_middle.
  - cbn. lia.
  - intros q Hq. assert (q = p) as -> by lia. exact Hfree.
  - intros q Hq. assert (q = p) as -> by lia. unfold page_answers. cbn [s_mr s].
    exists (subpage_init tg level (p * ps)). cbn [subpages push with_subpages d1].
    split; [by apply list_lookup_middle|]. cbn [sub_section subpage_init].
    rewrite page_size, length_replicate. split; [done|]. intros a Ha.
    exists 0, dummy_section. split; [apply lookup_replicate_2; pose proof (Z.mod_pos_bound a ps); lia|].
    split; [apply lookup_app_l_Some; exact (d_zero _ _ _ Hd)|]. split; [done|].
    split; [unfold in_sec, in_page in *; cbn; unfold int128_2_64; nia|].
    destruct (d_pages _ _ _ Hd p ltac:(lia)) as (i & x & Ei & _ & Hx & Hans & _).
    rewrite Hfree in Ei. injection Ei as <-.
    rewrite (d_zero _ _ _ Hd : sections d !! Z.to_nat PHYS_SECTION_UNASSIGNED = _) in Hx.
    injection Hx as <-. exact (Hans a Ha).
  - intros a Ha. apply (d_served _ _ _ Hd). lia.
  - pose proof (d_nodes _ _ _ Hd). rewrite length_app. simpl. lia.
  - exists t. split; [done|split; [done|]]. apply HU. lia.
Qed.

Lemma with_table_self d : with_table (table d) d = d.
Proof. by destruct d. Qed.

Lemma open_subpage_ok d hi sv level off :
  dinv d hi sv -> 0 <= off < 2 ^ 64 -> hi <= off -> Z.of_nat (length (sections d)) < ps ->
  exists n i s d', open_subpage tg level d (off / ps * ps) = Some (n, d') /\
    dinv d' (off + 1) sv /\ U d' (off / ps) = Some i /\ i <> 0 /\
    sections d' !! Z.to_nat i = Some s /\ s_mr s = mr_subpage n /\
    (length (sections d) <= length (sections d') <= S (length (sections d)))%nat /\
    (forall x, x ∈ sections d' -> x ∈ sections d \/ exists n, s_mr x = mr_subpage n).
Proof.
  intros Hd Hoff Hhi Hlt. pose proof ps_range as Hps. pose proof pages_bound.
  pose proof (page_bound off Hoff) as Hpo. pose proof ps_pages.
  unfold open_subpage.
  pose proof (phys_page_find_ok d hi sv (table d) (off / ps * ps) Hd (walks_self _ _ _ Hd)) as Ef.
  rewrite with_table_self, Z.div_mul in Ef by lia. rewrite Ef by nia.
  destruct (d_pages _ _ _ Hd (off / ps) ltac:(lia)) as (i & x & Ei & Hir & Hx & Hans & Hc).
  rewrite Ei. cbn [mbind option_bind]. rewrite Hx. cbn [mbind option_bind].
  assert (in_page (off / ps) off) as Hin by (by apply page_of).
  destruct (decide (i = 0)) as [->|Hi].
  - assert (x = dummy_section) as -> 
      by (rewrite (d_zero _ _ _ Hd : sections d !! Z.to_nat 0 = _) in Hx; congruence).
    cbn [s_mr dummy_section]. rewrite page_size.
    rewrite section_add_run by done. cbn [mbind option_bind].
    rewrite Z.shiftr_div_pow2, Z.div_mul by lia.
    destruct (new_subpage_ok d hi sv level (off / ps) off) as (t & Et & Hd' & HU);
      [done|done|lia|done|done|done|].
    change (sections (with_subpages _ d)) with (sections d). rewrite Et. cbn [mbind option_bind]. eexists _, _, _, _. split; [done|split; [exact Hd'|]].
    split; [exact HU|]. assert (0 < length (sections d))%nat by (eapply lookup_lt_Some, d_zero, Hd).
    split; [lia|]. cbn [sections with_table push with_subpages].
    rewrite Nat2Z.id, list_lookup_middle by done. split; [done|split; [done|]].
    rewrite length_app. split; [simpl; lia|]. intros x. rewrite elem_of_app, list_elem_of_singleton.
    intros [?| ->]; [by left|right; by eexists].
  - destruct (Hc Hi) as (Hun & _). destruct (s_mr x) as [m| |n] eqn:Em; [exfalso| done|].
    + unfold page_answers in Hans. rewrite Em in Hans. specialize (Hans off Hin).
      rewrite (d_served _ _ _ Hd off) in Hans by done. unfold sec_serves in Hans.
      by rewrite Em in Hans.
    + exists n, i, x, d. split_and!; try done; try lia; [eapply dinv_hi; [done|lia]|by left].
Qed.

(** A section within one page. *)
Lemma register_subpage_ok d hi sv level s m :
  dinv d hi sv -> sec_ok s -> s_mr s = mr_region m ->
  hi <= s_offset_within_address_space s ->
  s_offset_within_address_space s mod ps + s_size s <= ps ->
  s_offset_within_address_space s < 2 ^ TARGET_LONG_BITS tg ->
  Z.of_nat (length (sections d)) + 1 < ps ->
  exists d', register_subpage tg level d s = Some d' /\
    dinv d' (s_offset_within_address_space s + s_size s) (extend sv s) /\
    (length (sections d) < length (sections d') <= S (S (length (sections d))))%nat /\
    grown d s d'.
Proof.
  intros Hd (H1 & H2 & H3) Hm Hhi Hfit Hlong2 Hlt. unfold register_subpage.
  set (off := s_offset_within_address_space s) in *. pose proof ps_range as Hps.
  pose proof pages_bound. pose proof (page_bound off ltac:(lia)) as Hpo.
  pose proof (Z.mod_pos_bound off ps ltac:(lia)) as Hmod.
  rewrite page_base by lia.
  destruct (open_subpage_ok d hi sv level off Hd) as (n & i & x & d1 & -> & Hd1 & Ei & Hi & Hx & Hn & Hlen & Hgr);
    [lia|lia|lia|].
  cbn [mbind option_bind]. rewrite get64_Some by lia. cbn [mbind option_bind].
  rewrite subpage_idx, section_add_run by lia. cbn [mbind option_bind].
  rewrite (wrap_id 64) by (unfold uint; lia).
  rewrite !(wrap_id 32) by (unfold uint; lia).
  pose proof (push_none d1 (off + 1) sv s Hd1 ltac:(done) ltac:(lia) ltac:(congruence)) as Hd2.
  pose proof (Z.div_mod off ps ltac:(lia)) as Hdm.
  eexists. split; [done|]. split.
  2:{ cbn [sections with_subpages push]. rewrite length_app. split; [simpl; lia|].
      intros y. cbn [sections with_subpages push]. rewrite elem_of_app, list_elem_of_singleton.
      intros [Hy|Hy]; [|by right; left]. destruct (Hgr y Hy); auto. }
  pose proof (dinv_fill (push d1 s) (off + 1) sv (off / ps) i x n
    (Z.of_nat (length (sections d1))) s m Hd2) as Hf.
  fold off in Hf. replace (off - off / ps * ps) with (off mod ps) in Hf by lia.
  apply Hf; try done; try lia.
  - cbn [sections push]. by apply lookup_app_l_Some.
  - cbn [sections push]. rewrite Nat2Z.id. by apply list_lookup_middle.
Qed.

(** *** Whole ranges *)

Lemma dinv_ext d hi sv sv' : dinv d hi sv -> (forall a, sv' a = sv a) -> dinv d hi sv'.
Proof.
  intros Hd E. split; try apply Hd.
  - intros p Hp. destruct (d_pages _ _ _ Hd p Hp) as (i & s & Ei & Hi & Hs & Ha & Hc).
    exists i, s. split; [done|split; [done|split; [done|split; [|done]]]].
    by apply (answers_ext d sv).
  - intros a Ha. rewrite E. by apply (d_served _ _ _ Hd).
Qed.

Lemma sound_ext d sv sv' : sound d sv -> (forall a, sv a = sv' a) -> sound d sv'.
Proof. intros Hs E x m a Hx Hm Hin. rewrite <- E. by eapply Hs. Qed.

(** A section of a region whose offsets fit. *)
Definition range_ok (s : section) : Prop :=
  sec_ok s /\ (exists m, s_mr s = mr_region m) /\ 0 <= s_offset_within_region s /\
  s_offset_within_region s + s_size s <= 2 ^ 64.

(** What is entered when a section is cut in two. *)
Lemma advance_ok s k :
  range_ok s -> 0 < k < s_size s ->
  exists r, sec_advance s k = Some r /\ range_ok (sec_resize s k) /\ range_ok r /\
    s_offset_within_address_space r = s_offset_within_address_space s + k /\
    s_size r = s_size s - k /\
    forall sv a, extend (extend sv (sec_resize s k)) r a = extend sv s a.
Proof.
  intros ((H1 & H2 & H3) & (m & Hm) & H4 & H5) Hk. unfold sec_advance.
  rewrite get64_Some by lia. cbn [mbind option_bind].
  rewrite !wrap_id by (unfold uint; lia). eexists. split; [done|].
  split; [split; [split_and!; cbn; lia|split; [by exists m|cbn; lia]]|].
  split; [split; [split_and!; cbn; lia|split; [by exists m|cbn; lia]]|].
  split; [done|split; [done|]]. intros sv a. unfold extend, in_sec, sec_serves. cbn.
  rewrite Hm. repeat case_decide; try lia; try done. do 3 f_equal. lia.
Qed.

(** How many sections a range needs at most. *)
Definition sections_needed (off size : Z) : Z :=
  (if off mod ps =? 0 then 0 else 2) + 1 + (if (off + size) mod ps =? 0 then 0 else 2).

(** The subpage code masks addresses with the 32 or 64 bits of [target_ulong]. *)
Definition mask_ok (off size : Z) : Prop :=
  off + size <= 2 ^ TARGET_LONG_BITS tg \/ (off mod ps = 0 /\ size mod ps = 0).

Lemma add_pages_ok d hi sv level s :
  dinv d hi sv -> sound d sv -> range_ok s -> hi <= s_offset_within_address_space s ->
  s_offset_within_address_space s mod ps = 0 ->
  mask_ok (s_offset_within_address_space s) (s_size s) ->
  Z.of_nat (length (sections d)) +
    sections_needed (s_offset_within_address_space s) (s_size s) <= ps ->
  exists d', add_pages tg level d s = Some d' /\
    dinv d' (s_offset_within_address_space s + s_size s) (extend sv s) /\
    sound d' (extend sv s) /\
    Z.of_nat (length (sections d')) <= Z.of_nat (length (sections d)) +
      sections_needed (s_offset_within_address_space s) (s_size s).
Proof.
  intros Hd Hsd Hr Hhi Hal Hmask Hcnt. pose proof Hr as ((H1 & H2 & H3) & (m & Hm) & _).
  pose proof ps_range as Hps. set (off := s_offset_within_address_space s) in *.
  unfold add_pages. rewrite page_floor, page_size.
  assert (off = off / ps * ps) as Eoff by (pose proof (Z.div_mod off ps); lia).
  assert ((off + s_size s) mod ps = s_size s mod ps) as Eend.
  { rewrite Eoff, Z.add_comm. apply Z.mod_add. lia. }
  unfold sections_needed, mask_ok in *. rewrite Hal, Eend in *. cbn [Z.eqb] in *.
  pose proof (Z.div_mod (s_size s) ps ltac:(lia)) as Hdm.
  pose proof (Z.mod_pos_bound (s_size s) ps ltac:(lia)) as Hmod.
  destruct (Z.leb_spec ps (s_size s)) as [Hbig|Hsmall].
  2:{ assert (s_size s mod ps = s_size s) as Emod by (apply Z.mod_small; lia).
      destruct (Z.eqb_spec (s_size s mod ps) 0); [lia|].
      destruct (register_subpage_ok d hi sv level s m) as (d' & E & Hd' & Hlen & Hg);
        [done|done|done|done|fold off; lia|fold off; lia|lia|].
      exists d'. split_and!; [done|done|by eapply sound_grown|lia]. }
  cbn [s_size sec_resize].
  set (k := s_size s / ps * ps) in *.
  assert (0 < k) as Hk by (unfold k; pose proof (Z.div_str_pos (s_size s) ps); nia).
  assert (s_size s mod ps = s_size s - k) as Emod by (unfold k; lia).
  destruct (register_multipage_ok d hi sv (sec_resize s k) m (off / ps) (s_size s / ps))
    as (d1 & -> & Hd1 & Hlen1 & Hg1); [done|split_and!; cbn; fold off; lia|done|done|done|done| |].
  { destruct (s_size s mod ps =? 0); lia. }
  pose proof (sound_grown d hi sv (sec_resize s k) d1 Hd Hsd Hhi Hg1) as Hsd1.
  cbn [mbind option_bind s_offset_within_address_space s_size sec_resize] in *. fold off in Hd1.
  destruct (Z.eqb_spec (s_size s) k) as [Ek|Ek].
  { exists d1. split; [done|]. replace (sec_resize s k) with s in Hd1, Hsd1
      by (destruct s; cbn in *; by rewrite <- Ek).
    rewrite <- Ek in Hd1. split; [done|split; [done|]]. case_if; lia. }
  destruct (Z.eqb_spec (s_size s mod ps) 0); [lia|].
  destruct (advance_ok s k Hr ltac:(lia)) as (r & -> & _ & Hrr & Er1 & Er2 & Hext).
  cbn [mbind option_bind]. fold off in Er1. destruct Hrr as (Hrs & (m' & Hm') & _).
  destruct (register_subpage_ok d1 (off + k) (extend sv (sec_resize s k)) level r m')
    as (d' & E & Hd' & Hlen & Hg); [done|done|done|lia| |lia|lia|].
  { rewrite Er1, Er2. rewrite Eoff. unfold k at 1. rewrite <- Z.mul_add_distr_r, Z.mod_mul by lia. lia. }
  assert (sound d' (extend (extend sv (sec_resize s k)) r)) as Hsd'
    by (eapply sound_grown; [exact Hd1|done|lia|done]).
  exists d'. split; [done|]. split; [|split; [by eapply sound_ext|lia]].
  replace (off + s_size s) with (s_offset_within_address_space r + s_size r) by lia.
  eapply dinv_ext; [done|]. intros a. by rewrite Hext.
Qed.

Lemma add_to_dispatch_ok d hi sv level s :
  dinv d hi sv -> sound d sv -> range_ok s -> hi <= s_offset_within_address_space s ->
  mask_ok (s_offset_within_address_space s) (s_size s) ->
  Z.of_nat (length (sections d)) +
    sections_needed (s_offset_within_address_space s) (s_size s) <= ps ->
  exists d', flatview_add_to_dispatch tg level d s = Some d' /\
    dinv d' (s_offset_within_address_space s + s_size s) (extend sv s) /\
    sound d' (extend sv s) /\
    Z.of_nat (length (sections d')) <= Z.of_nat (length (sections d)) +
      sections_needed (s_offset_within_address_space s) (s_size s).
Proof.
  intros Hd Hsd Hr Hhi Hmask Hcnt. pose proof Hr as ((H1 & H2 & H3) & (m & Hm) & _).
  pose proof ps_range as Hps. unfold flatview_add_to_dispatch. rewrite subpage_idx.
  set (off := s_offset_within_address_space s) in *.
  destruct (Z.eqb_spec (off mod ps) 0) as [Hal|Hal]; cbn [negb]; [by eapply add_pages_ok|].
  assert (off + s_size s <= 2 ^ TARGET_LONG_BITS tg) as Hm64 by (destruct Hmask as [?|[? _]]; [done|lia]).
  pose proof (Z.mod_pos_bound off ps ltac:(lia)) as Hmod.
  unfold sections_needed in *. destruct (Z.eqb_spec (off mod ps) 0); [done|].
  rewrite page_left by lia. cbn [s_size sec_resize]. set (left := ps - off mod ps) in *.
  destruct (register_subpage_ok d hi sv level (sec_resize s (Z.min left (s_size s))) m)
    as (d1 & -> & Hd1 & Hlen1 & Hg1); cbn [s_offset_within_address_space s_size sec_resize s_mr]; fold off;
    [done|split_and!; cbn; fold off; lia|done|done|lia|lia| |].
  { destruct ((off + s_size s) mod ps =? 0); lia. }
  pose proof (sound_grown d hi sv (sec_resize s _) d1 Hd Hsd Hhi Hg1) as Hsd1.
  cbn [mbind option_bind s_offset_within_address_space s_size sec_resize] in *. fold off in Hd1.
  destruct (Z.eqb_spec (s_size s) (Z.min left (s_size s))) as [Ek|Ek].
  { exists d1. split; [done|]. rewrite <- Ek in Hd1, Hsd1.
    replace (sec_resize s (s_size s)) with s in Hd1, Hsd1 by (by destruct s).
    split; [done|split; [done|]]. case_if; lia. }
  assert (0 < left < s_size s) as Hleft by lia. rewrite Z.min_l in Hd1, Hsd1 |- * by lia.
  destruct (advance_ok s left Hr Hleft) as (r & -> & _ & Hrr & Er1 & Er2 & Hext).
  cbn [mbind option_bind]. fold off in Er1.
  assert ((off + left) mod ps = 0) as Hal2.
  { replace (off + left) with ((off / ps + 1) * ps); [apply Z.mod_mul; lia|].
    pose proof (Z.div_mod off ps). unfold left. lia. }
  assert (s_offset_within_address_space r + s_size r = off + s_size s) as Eend by lia.
  destruct (add_pages_ok d1 (off + left) (extend sv (sec_resize s left)) level r)
    as (d' & E & Hd' & Hsd' & Hlen); [done|done|done|lia|by rewrite Er1|left; lia| |].
  { unfold sections_needed. rewrite Eend, Er1, Hal2. cbn [Z.eqb]. lia. }
  exists d'. split; [done|]. unfold sections_needed in Hlen. rewrite Eend, Er1, Hal2 in Hlen.
  cbn [Z.eqb] in Hlen. rewrite Eend in Hd'.
  split; [|split; [by eapply sound_ext|lia]]. eapply dinv_ext; [done|]. intros a. by rewrite Hext.
Qed.

(** *** Whole views *)

Lemma dispatch_new_ok hint :
  0 <= hint <= PHYS_MAP_NODE_NIL ->
  exists d, address_space_dispatch_new tg hint = Some d /\
    dinv d 0 (fun _ => None) /\ sound d (fun _ => None) /\ length (sections d) = 1%nat.
Proof.
  intros Hh. pose proof ps_range as Hps. unfold address_space_dispatch_new.
  rewrite section_add_run by (cbn; lia). cbn [mbind option_bind sections length Z.of_nat].
  change (0 =? PHYS_SECTION_UNASSIGNED) with true. cbv iota. eexists. split; [done|].
  assert (forall i x, [dummy_section] !! i = Some x -> x = dummy_section) as Hone.
  { intros [|i] x; [by intros [= <-]|done]. }
  split; [|split; [|done]].
  2:{ intros x m a Hx Hm. cbn in Hx. apply list_elem_of_singleton in Hx as ->. done. }
  assert (forall p, U (push (mk_dispatch None (empty_table hint) [] 0 []) dummy_section) p =
    Some PHYS_SECTION_UNASSIGNED) as HU by (intros p; apply page_section_empty; lia).
  split; cbn [table sections subpages push app length].
  - apply empty_table_ok; [lia|done].
  - done.
  - lia.
  - done.
  - intros i x Hx%Hone. subst x. done.
  - intros i j x y n Hx%Hone _ Hn. by subst x.
  - intros p Hp. exists 0, dummy_section. split; [apply HU|]. split; [lia|]. split; [done|].
    split; [done|]. by intros [].
  - intros p i x a Hp. rewrite HU. by intros [= <-] [].
  - done.
  - done.
  - intros n. simpl. lia.
Qed.

Definition total_needed (l : list FlatRange) : Z :=
  foldr (fun r n => sections_needed (ar_start (fr_addr r)) (ar_size (fr_addr r)) + n) 0 l.

Lemma needed_pos off size : 1 <= sections_needed off size.
Proof. unfold sections_needed. repeat case_if; lia. Qed.

Lemma total_nonneg l : 0 <= total_needed l.
Proof.
  induction l as [|r l IH]; cbn; [done|].
  pose proof (needed_pos (ar_start (fr_addr r)) (ar_size (fr_addr r))). fold (total_needed l). lia.
Qed.

Definition ranges_ok (l : list FlatRange) : Prop :=
  Forall (fun r => addrrange_end (fr_addr r) <= 2 ^ 64 /\ 0 <= ar_start (fr_addr r) /\
    0 <= offset_in_region r /\ offset_in_region r + ar_size (fr_addr r) <= 2 ^ 64 /\
    mask_ok (ar_start (fr_addr r)) (ar_size (fr_addr r))) l.

Lemma add_ranges_cons level r l d :
  add_ranges tg level (r :: l) d =
  (s ← section_from_flat_range r; flatview_add_to_dispatch tg level d s) ≫=
    add_ranges tg level l.
Proof. done. Qed.

Lemma add_ranges_ok level l d hi sv :
  dinv d hi sv -> sound d sv -> sorted_from hi l -> ranges_ok l ->
  Z.of_nat (length (sections d)) + total_needed l <= ps ->
  exists d' hi', add_ranges tg level l d = Some d' /\
    let sv' := fun a => or_else (view_lookup l a) (sv a) in
    dinv d' hi' sv' /\ sound d' sv'.
Proof.
  revert d hi sv. induction l as [|r l IH]; intros d hi sv Hd Hs Hsort Hok Hcnt.
  { exists d, hi. done. }
  destruct Hsort as (Hlo & Hpos & Hsort). apply Forall_cons in Hok as [(H1 & H2 & H3 & H4 & H5) Hok].
  cbn [total_needed foldr] in Hcnt. fold (total_needed l) in Hcnt.
  pose proof (total_nonneg l) as Hnn. unfold addrrange_end in H1.
  rewrite add_ranges_cons.
  set (s := mk_sec (mr_region (fr_mr r)) (offset_in_region r) (ar_size (fr_addr r))
              (ar_start (fr_addr r)) (fr_readonly r)).
  assert (section_from_flat_range r = Some s) as ->.
  { unfold section_from_flat_range. by rewrite get64_Some by lia. }
  cbn [mbind option_bind].
  destruct (add_to_dispatch_ok d hi sv level s) as (d1 & -> & Hd1 & Hs1 & Hlen); try done.
  { split; [split_and!; cbn; lia|]. split; [by eexists|]. done. }
  { cbn. lia. }
  cbn [mbind option_bind]. destruct (IH d1 _ _ Hd1 Hs1 Hsort Hok) as (d' & hi' & E & Hd' & Hs').
  { cbn [s_offset_within_address_space s_size s] in Hlen. lia. }
  assert (forall a, or_else (view_lookup (r :: l) a) (sv a) =
    or_else (view_lookup l a) (extend sv s a)) as Eext.
  { intros a. cbn [view_lookup]. unfold extend.
    destruct (addrrange_contains (fr_addr r) a) eqn:Ec.
    - apply contains_spec in Ec. unfold addrrange_end in Ec.
      rewrite (lookup_below _ _ _ Hsort) by (unfold addrrange_end; lia). cbn [or_else].
      rewrite decide_True; [done|]. unfold in_sec. cbn. lia.
    - apply contains_false in Ec. unfold addrrange_end in Ec.
      rewrite decide_False; [done|]. unfold in_sec. cbn. lia. }
  exists d', hi'. split; [exact E|]. split; [by eapply dinv_ext|].
  eapply sound_ext; [exact Hs'|]. intros a. by rewrite Eext.
Qed.

(** ** A finished dispatch structure *)

(** It was filled, compacted, and its cache holds a section found before. *)
Definition ready (d : AddressSpaceDispatch) (sv : Z -> option serves) : Prop :=
  exists d0 hi t m, dinv d0 hi sv /\ sound d0 sv /\ walks (U d0) t /\
    d = with_mru m (with_table t d0) /\
    forall i, m = Some i -> exists p, 0 <= p < pages /\ U d0 p = Some i.

Lemma generate_dispatch_ok level hint view :
  0 <= hint <= PHYS_MAP_NODE_NIL -> sorted_from 0 (ranges view) -> ranges_ok (ranges view) ->
  1 + total_needed (ranges view) <= ps ->
  exists d, generate_dispatch tg level hint view = Some d /\ ready d (view_lookup (ranges view)).
Proof.
  intros Hh Hsort Hok Hcnt. unfold generate_dispatch.
  destruct (dispatch_new_ok hint Hh) as (d0 & -> & Hd0 & Hs0 & Hlen). cbn [mbind option_bind].
  destruct (add_ranges_ok level (ranges view) d0 0 (fun _ => None) Hd0 Hs0 Hsort Hok)
    as (d1 & hi & -> & Hd1 & Hs1); [lia|]. cbn [mbind option_bind].
  assert (forall a, view_lookup (ranges view) a = or_else (view_lookup (ranges view) a) None) as E.
  { intros a. by destruct (view_lookup _ a). }
  destruct (walks_compact d1 _ _ Hd1) as (t & -> & Hw). cbn [mbind option_bind].
  eexists. split; [done|]. exists d1, hi, t, None.
  split; [by eapply dinv_ext|]. split; [by eapply sound_ext|]. split; [done|].
  split; [|done]. unfold with_mru, with_table. by rewrite <- (d_mru _ _ _ Hd1).
Qed.

(** The section of the page of an address, before subpages are resolved. *)
Lemma mru_hit_ok d0 hi sv t m a :
  dinv d0 hi sv -> 0 <= a < 2 ^ 64 ->
  (forall i, m = Some i -> exists p, 0 <= p < pages /\ U d0 p = Some i) ->
  exists hit, mru_hit (with_mru m (with_table t d0)) a = Some hit /\
    forall i, hit = Some i -> U d0 (a / ps) = Some i /\ m = Some i.
Proof.
  intros Hd Ha Hm. unfold mru_hit. cbn [mru_section with_mru]. destruct m as [i|]; [|by exists None].
  destruct (Z.eqb_spec i PHYS_SECTION_UNASSIGNED) as [|Hi]; [by exists None|].
  destruct (Hm i eq_refl) as (p & Hp & Ep).
  destruct (d_pages _ _ _ Hd p Hp) as (i' & s & Ei & _ & Hs & _).
  assert (i' = i) as -> by congruence. cbn [sections with_mru with_table]. rewrite Hs.
  cbn [mbind option_bind]. eexists. split; [done|]. intros j.
  destruct (section_covers_addr s a) eqn:Ec; [|done]. intros [= <-]. split; [|done].
  apply covers_iff in Ec; [|by apply (d_secs _ _ _ Hd _ _ Hs)|done]. by eapply (d_excl _ _ _ Hd).
Qed.

Lemma lookup_page_ok d0 hi sv t m a :
  dinv d0 hi sv -> walks (U d0) t -> 0 <= a < 2 ^ 64 ->
  (forall i, m = Some i -> exists p, 0 <= p < pages /\ U d0 p = Some i) ->
  exists i m', lookup_page tg (with_mru m (with_table t d0)) a =
      Some (i, with_mru m' (with_table t d0)) /\ U d0 (a / ps) = Some i /\
    forall j, m' = Some j -> exists p, 0 <= p < pages /\ U d0 p = Some j.
Proof.
  intros Hd Hw Ha Hm. pose proof (page_bound a Ha) as Hp. pose proof pages_bound as Hpb.
  destruct (d_pages _ _ _ Hd (a / ps) ltac:(lia)) as (i & _ & Ei & _).
  destruct (mru_hit_ok d0 hi sv t m a Hd Ha Hm) as (hit & E & Hhit).
  unfold lookup_page. rewrite E. cbn [mbind option_bind]. exists i. destruct hit as [j|].
  - destruct (Hhit j eq_refl) as [Ej ->]. exists (Some j).
    assert (j = i) as -> by congruence. done.
  - change (phys_page_find tg (with_mru m (with_table t d0)) a)
      with (phys_page_find tg (with_table t d0) a).
    rewrite (phys_page_find_ok d0 hi sv t a Hd Hw Ha), Ei. cbn [mbind option_bind].
    exists (Some i). split; [done|]. split; [done|]. intros j [= <-]. exists (a / ps).
    split; [lia|done].
Qed.

(** Any lookup leaves a structure that answers the same. *)
Lemma lookup_ready d sv a resolve :
  ready d sv -> 0 <= a < 2 ^ 64 ->
  exists i d', address_space_lookup_region tg d a resolve = Some (i, d') /\ ready d' sv.
Proof.
  intros (d0 & hi & t & m & Hd & Hs & Hw & -> & Hm) Ha. unfold address_space_lookup_region.
  destruct (lookup_page_ok d0 hi sv t m a Hd Hw Ha Hm) as (i & m' & -> & Ei & Hm').
  assert (ready (with_mru m' (with_table t d0)) sv) as Hready by (exists d0, hi, t, m'; done).
  pose proof (page_bound a Ha) as Hp. pose proof pages_bound as Hpb.
  destruct (d_pages _ _ _ Hd (a / ps) ltac:(lia)) as (i' & s & Ei' & _ & Hsec & Hans & _).
  assert (i' = i) as -> by congruence.
  cbn [mbind option_bind sections with_mru with_table subpages]. rewrite Hsec.
  cbn [mbind option_bind]. unfold page_answers in Hans.
  destruct (s_mr s) as [ms| |n]; [by eexists _, _|by eexists _, _|].
  destruct resolve; [|by eexists _, _]. destruct Hans as (sp & -> & _ & Hsub).
  destruct (Hsub a) as (j & s2 & Hj & _); [by apply page_of|].
  cbn [mbind option_bind]. rewrite subpage_idx, Hj. by eexists _, _.
Qed.

(** The section found is right for the address and all its other addresses. *)
Definition right_section (sv : Z -> option serves) (s : section) (a : Z) : Prop :=
  (forall n, s_mr s <> mr_subpage n) /\ in_sec s a /\ sec_ok s /\ sv a = sec_serves s a /\
  forall b, in_sec s b -> s_mr s <> mr_unassigned -> sv b = sec_serves s b.

Lemma lookup_region_ok d sv a :
  ready d sv -> 0 <= a < 2 ^ 64 ->
  exists i s d', address_space_lookup_region tg d a true = Some (i, d') /\ ready d' sv /\
    sections d' !! Z.to_nat i = Some s /\ right_section sv s a.
Proof.
  intros (d0 & hi & t & m & Hd & Hs & Hw & -> & Hm) Ha. unfold address_space_lookup_region.
  destruct (lookup_page_ok d0 hi sv t m a Hd Hw Ha Hm) as (i & m' & -> & Ei & Hm').
  assert (ready (with_mru m' (with_table t d0)) sv) as Hready by (exists d0, hi, t, m'; done).
  pose proof (page_bound a Ha) as Hp. pose proof pages_bound as Hpb.
  assert (in_page (a / ps) a) as Hin by (by apply page_of).
  destruct (d_pages _ _ _ Hd (a / ps) ltac:(lia)) as (i' & s & Ei' & _ & Hsec & Hans & Hc).
  assert (i' = i) as -> by congruence.
  assert (forall k x, sections d0 !! k = Some x -> (forall n, s_mr x <> mr_subpage n) ->
    in_sec x a -> sv a = sec_serves x a -> right_section sv x a) as Hright.
  { intros k x Hx Hn Hi Hsv. split; [done|]. split; [done|].
    split; [by apply (d_secs _ _ _ Hd _ _ Hx)|]. split; [done|]. intros b Hb Hu.
    destruct (s_mr x) as [mx| |n] eqn:Ex; [|done|by destruct (Hn n)].
    eapply Hs; [by eapply list_elem_of_lookup_2|done|done]. }
  assert (in_sec s a) as Hia.
  { destruct (decide (i = 0)) as [->|Hi].
    - rewrite (d_zero _ _ _ Hd : sections d0 !! Z.to_nat 0 = _) in Hsec. injection Hsec as <-.
      unfold in_sec. cbn. unfold int128_2_64. lia.
    - destruct (Hc Hi) as (_ & _ & ? & ?). unfold in_sec, in_page in *. lia. }
  cbn [mbind option_bind sections with_mru with_table subpages]. rewrite Hsec.
  cbn [mbind option_bind]. unfold page_answers in Hans. destruct (s_mr s) as [ms| |n] eqn:Es.
  - exists i, s, (with_mru m' (with_table t d0)). do 3 (split; [done|]).
    eapply Hright; [done|congruence|done|by apply Hans].
  - exists i, s, (with_mru m' (with_table t d0)). do 3 (split; [done|]).
    eapply Hright; [done|congruence|done|by apply Hans].
  - destruct Hans as (sp & -> & _ & Hsub).
    destruct (Hsub a Hin) as (j & s2 & Hj & Hs2 & Hn2 & Hi2 & Hsv).
    cbn [mbind option_bind]. rewrite subpage_idx, Hj. cbn [mbind option_bind].
    exists j, s2, (with_mru m' (with_table t d0)). do 3 (split; [done|]). by eapply Hright.
Qed.

Definition lookups (history : list (Z * bool)) (d : AddressSpaceDispatch)
    : option AddressSpaceDispatch :=
  foreach (fun q d => snd <$> address_space_lookup_region tg d (fst q) (snd q)) history d.

Lemma lookups_ready history d sv :
  ready d sv -> Forall (fun q => 0 <= fst q < 2 ^ 64) history ->
  exists d', lookups history d = Some d' /\ ready d' sv.
Proof.
  intros Hd Hh. revert d Hd. induction Hh as [|[a r] l Ha _ IH]; intros d Hd; [by exists d|].
  destruct (lookup_ready d sv a r Hd Ha) as (i & d1 & E & Hd1).
  destruct (IH d1 Hd1) as (d' & E' & Hd'). exists d'. split; [|done].
  unfold lookups. cbn [foreach fst snd]. rewrite E. exact E'.
Qed.

(** What a translation must return. *)
Definition translated (is_ram : region_ref -> bool) (sv : Z -> option serves) (a plen : Z)
    (s : section) (xlat plen' : Z) : Prop :=
  match sv a with
  | Some (mr, off, ro) =>
    s_mr s = mr_region mr /\ xlat = off /\ s_readonly s = ro /\
    if is_ram (mr_region mr)
    then 0 < plen' <= plen /\ forall k, 0 <= k < plen' -> sv (a + k) = Some (mr, off + k, ro)
    else plen' = plen
  | None => s_mr s = mr_unassigned
  end.

Lemma translate_ok is_ram d sv a plen :
  ready d sv -> 0 <= a < 2 ^ 64 -> 0 < plen < 2 ^ 64 ->
  (forall mr off ro, sv a = Some (mr, off, ro) -> 0 <= off < 2 ^ 64) ->
  exists i s xlat plen' d', address_space_translate_internal is_ram tg d a plen true =
    Some (i, s, xlat, plen', d') /\ ready d' sv /\ translated is_ram sv a plen s xlat plen'.
Proof.
  intros Hd Ha Hplen Hoff.
  destruct (lookup_region_ok d sv a Hd Ha)
    as (i & s & d' & E & Hd' & Hs & Hn & Hin & (H1 & H2 & H3) & Hsv & Hall).
  unfold address_space_translate_internal. rewrite E. cbn [mbind option_bind]. rewrite Hs.
  cbn [mbind option_bind]. unfold in_sec in Hin.
  rewrite (wrap_id _ (a - s_offset_within_address_space s)) by (unfold uint; lia).
  set (k := a - s_offset_within_address_space s) in *.
  assert (exists plen', (if is_ram (s_mr s) then int128_get64 (Z.min (s_size s - k) plen)
    else Some plen) = Some plen' /\
    if is_ram (s_mr s) then plen' = Z.min (s_size s - k) plen else plen' = plen)
    as (plen' & -> & Hp).
  { destruct (is_ram (s_mr s)); [|by exists plen]. rewrite get64_Some by lia. by eexists. }
  cbn [mbind option_bind]. eexists _, _, _, _, _. split; [done|]. split; [done|]. unfold translated.
  destruct (s_mr s) as [m| |n] eqn:Em; [| |by destruct (Hn n)].
  - assert (forall b, sec_serves s b = Some (m, s_offset_within_region s +
      (b - s_offset_within_address_space s), s_readonly s)) as Esv
      by (intros b; unfold sec_serves; by rewrite Em).
    rewrite Hsv, Esv. fold k. pose proof (Hoff _ _ _ (eq_trans Hsv (Esv a))) as Ho. fold k in Ho.
    split; [done|]. split; [rewrite Z.add_comm; by apply wrap_id|]. split; [done|].
    destruct (is_ram (mr_region m)); [|done]. subst plen'. split; [lia|]. intros j Hj.
    rewrite Hall, Esv; [do 3 f_equal; unfold k; lia|unfold in_sec; lia|done].
  - unfold sec_serves in Hsv. rewrite Em in Hsv. by rewrite Hsv.
Qed.

(** The subpages freed with the structure. *)
Lemma dispatch_free_ok d sv :
  ready d sv -> address_space_dispatch_free d ≡ₚ seq 0 (length (subpages d)).
Proof.
  intros (d0 & hi & t & m & Hd & _ & _ & -> & _).
  unfold address_space_dispatch_free. cbn [sections subpages with_mru with_table].
  rewrite reverse_Permutation.
  assert (forall l, (forall i j s s' n, l !! i = Some s -> l !! j = Some s' ->
    s_mr s = mr_subpage n -> s_mr s' = mr_subpage n -> i = j) ->
    NoDup (concat (phys_section_destroy <$> l))) as Hnd.
  { induction l as [|x l IH]; intros Huniq; [constructor|]. cbn.
    assert (NoDup (concat (phys_section_destroy <$> l))) as Hl.
    { apply IH. intros i j s s' n Hi Hj H1 H2.
      pose proof (Huniq (S i) (S j) s s' n Hi Hj H1 H2). lia. }
    unfold phys_section_destroy at 1. destruct (s_mr x) as [mx| |n] eqn:Ex; [done|done|].
    constructor; [|done]. intros (xs & Hxs & Hn)%list_elem_of_concat.
    apply list_elem_of_fmap in Hxs as (y & -> & Hy). unfold phys_section_destroy in Hn.
    destruct (s_mr y) as [my| |n'] eqn:Ey; [by apply not_elem_of_nil in Hn..|].
    apply list_elem_of_singleton in Hn as <-. apply list_elem_of_lookup in Hy as [j Hj].
    by pose proof (Huniq 0%nat (S j) x y n eq_refl Hj Ex Ey). }
  apply NoDup_Permutation; [by apply Hnd, Hd|apply NoDup_seq|].
  intros n. rewrite elem_of_seq, list_elem_of_concat. split.
  - intros (xs & Hxs & Hn). apply list_elem_of_fmap in Hxs as (y & -> & Hy).
    apply list_elem_of_lookup in Hy as [j Hj]. unfold phys_section_destroy in Hn.
    destruct (s_mr y) as [my| |n'] eqn:Ey; [by apply not_elem_of_nil in Hn..|].
    apply list_elem_of_singleton in Hn as ->. destruct (d_secs _ _ _ Hd _ _ Hj) as [_ Hlt].
    destruct (Hlt n' Ey). lia.
  - intros Hn. destruct (d_owner _ _ _ Hd n ltac:(lia)) as (i & x & Hx & Hr).
    exists (phys_section_destroy x). split; [|unfold phys_section_destroy; rewrite Hr; by left].
    apply list_elem_of_fmap. exists x. split; [done|]. by eapply list_elem_of_lookup_2.
Qed.
End pages.

(** ** The number of sections *)

Lemma section_add_inv tg d s p d' :
  phys_section_add tg d s = Some (p, d') ->
  Z.of_nat (length (sections d)) < TARGET_PAGE_SIZE tg /\
  length (sections d') = S (length (sections d)).
Proof.
  unfold phys_section_add. case_if; [done|]. intros [= <- <-]. split; [done|].
  cbn. rewrite length_app. simpl. lia.
Qed.

(** [d'] has more sections than [d], within the page size. *)
Definition grew (tg : target) (d d' : AddressSpaceDispatch) : Prop :=
  (length (sections d) < length (sections d'))%nat /\
  Z.of_nat (length (sections d')) <= TARGET_PAGE_SIZE tg.

Lemma register_multipage_grew tg d s d' :
  register_multipage tg d s = Some d' -> grew tg d d'.
Proof.
  unfold register_multipage. intros H. apply bind_Some in H as ([p d1] & E & H).
  apply section_add_inv in E as [H1 H2]. inv_opt. case_match; [done|]. inv_opt.
  unfold grew. cbn. lia.
Qed.

Lemma open_subpage_grew tg level d base n d' :
  open_subpage tg level d base = Some (n, d') ->
  (length (sections d) <= length (sections d'))%nat.
Proof.
  unfold open_subpage. intros H. apply bind_Some in H as (p0 & _ & H).
  apply bind_Some in H as (x & _ & H). destruct (s_mr x); [done| |].
  - apply bind_Some in H as ([p d1] & E & H). apply section_add_inv in E as [_ H2].
    cbn in H2. inv_opt. cbn. lia.
  - simplify_eq. lia.
Qed.

Lemma register_subpage_grew tg level d s d' :
  register_subpage tg level d s = Some d' -> grew tg d d'.
Proof.
  unfold register_subpage. intros H. apply bind_Some in H as ([n d1] & E & H).
  apply open_subpage_grew in E. apply bind_Some in H as (size & _ & H).
  apply bind_Some in H as ([p d2] & E2 & H). apply section_add_inv in E2 as [H1 H2].
  simplify_eq. unfold grew. cbn. lia.
Qed.

Lemma add_to_dispatch_grew tg level d s d' :
  flatview_add_to_dispatch tg level d s = Some d' -> grew tg d d'.
Proof.
  assert (forall d s d', add_pages tg level d s = Some d' -> grew tg d d') as Hpages.
  { clear. intros d s d' H. unfold add_pages in H. case_match; [|by eapply register_subpage_grew].
    apply bind_Some in H as (d1 & E%register_multipage_grew & H). case_match; [by simplify_eq|].
    apply bind_Some in H as (r & _ & H%register_subpage_grew). unfold grew in *. lia. }
  unfold flatview_add_to_dispatch. intros H. case_match; [|by apply Hpages in H].
  apply bind_Some in H as (d1 & E%register_subpage_grew & H). case_match; [by simplify_eq|].
  apply bind_Some in H as (r & _ & H%Hpages). unfold grew in *. lia.
Qed.

Lemma add_ranges_grew tg level l d d' :
  add_ranges tg level l d = Some d' -> Z.of_nat (length (sections d)) <= TARGET_PAGE_SIZE tg ->
  Z.of_nat (length (sections d)) + Z.of_nat (length l) <= TARGET_PAGE_SIZE tg.
Proof.
  revert d. induction l as [|r l IH]; intros d H Hd; [simpl; lia|].
  rewrite add_ranges_cons in H. apply bind_Some in H as (d1 & H1 & H).
  apply bind_Some in H1 as (s & _ & [Hlt Hle]%add_to_dispatch_grew).
  specialize (IH d1 H Hle). simpl. lia.
Qed.

(** The view of a tree, and what it serves. *)
Lemma tree_view_ok tg region view :
  region_ok region -> generate_memory_topology (Some region) = Some view ->
  Forall (fun r => mask_ok tg (ar_start (fr_addr r)) (ar_size (fr_addr r))) (ranges view) ->
  sorted_from 0 (ranges view) /\ ranges_ok tg (ranges view) /\
  (forall a, ~ 0 <= a < 2 ^ 64 -> view_lookup (ranges view) a = None) /\
  forall a, 0 <= a < 2 ^ 64 -> view_lookup (ranges view) a = resolve region 0 false a.
Proof.
  intros Hreg Hview Hmask.
  destruct (generate_memory_topology_ok region Hreg) as (v & E & Hsort & Hfits & Hl & _).
  rewrite Hview in E. injection E as <-. split; [done|]. split; [|split].
  - apply Forall_lookup. intros i r Hr. destruct (Hfits i r Hr) as (? & ? & ? & ?).
    rewrite Forall_lookup in Hmask. split_and!; try done. by eapply Hmask.
  - intros a Ha. rewrite Hl. destruct (addrrange_contains _ a) eqn:Ec; [|done].
    apply contains_spec in Ec. unfold addrrange_end, int128_2_64 in Ec. simpl in Ec. lia.
  - intros a Ha. rewrite Hl. replace (addrrange_contains _ a) with true; [done|].
    symmetry. apply contains_spec. unfold addrrange_end, int128_2_64. simpl. lia.
Qed.

(** ** Properties *)

(** C3: the dispatch structure built for a region tree answers every one of
    the 2^64 addresses as the tree does.  For every tree whose view needs at
    most [TARGET_PAGE_SIZE] sections (and no subpage above the reach of
    [target_ulong]), rendering, filling and compacting succeed, and after any
    sequence of lookups, which leave their trace in the one-entry cache, a
    translation returns the region the tree gives the address to with the
    right offset and read-only flag, or the unassigned region where the tree
    has none; for RAM the length is cut so that all of the bytes belong to
    that region. *)
Theorem dispatch_refines_tree tg level hint region view history :
  1 <= TARGET_PAGE_BITS tg <= 16 -> 32 <= TARGET_LONG_BITS tg <= 64 ->
  0 <= hint <= PHYS_MAP_NODE_NIL -> region_ok region ->
  generate_memory_topology (Some region) = Some view ->
  Forall (fun r => mask_ok tg (ar_start (fr_addr r)) (ar_size (fr_addr r))) (ranges view) ->
  1 + total_needed tg (ranges view) <= TARGET_PAGE_SIZE tg ->
  Forall (fun q => 0 <= fst q < 2 ^ 64) history ->
  exists d d', generate_dispatch tg level hint view = Some d /\
    lookups tg history d = Some d' /\
    forall is_ram a plen, 0 <= a < 2 ^ 64 -> 0 < plen < 2 ^ 64 ->
      exists i s xlat plen' d'',
        address_space_translate_internal is_ram tg d' a plen true = Some (i, s, xlat, plen', d'') /\
        translated is_ram (resolve region 0 false) a plen s xlat plen'.
Proof.
  intros Hbits Hlong Hh Hreg Hview Hmask Hcnt Hhist. rewrite page_size in Hcnt by done.
  destruct (tree_view_ok tg region view Hreg Hview Hmask) as (Hsort & Hok & Hout & Heq).
  destruct (generate_dispatch_ok tg Hbits Hlong level hint view Hh Hsort Hok Hcnt) as (d & E & Hd).
  destruct (lookups_ready tg Hbits Hlong history d _ Hd Hhist) as (d' & E' & Hd').
  exists d, d'. split; [done|split; [done|]]. intros is_ram a plen Ha Hplen.
  destruct (translate_ok tg Hbits Hlong is_ram d' _ a plen Hd' Ha Hplen)
    as (i & s & xlat & plen' & d'' & E2 & _ & Ht).
  { intros mr off ro E3. rewrite Heq in E3 by done. by eapply resolve_offset. }
  exists i, s, xlat, plen', d''. split; [done|]. unfold translated in *. rewrite <- Heq by done.
  destruct (view_lookup (ranges view) a) as [[[mr off] ro]|] eqn:Ea; [|done].
  destruct Ht as (? & ? & ? & Ht). split_and!; try done.
  destruct (is_ram (mr_region mr)); [|done]. destruct Ht as [? Ht]. split; [done|].
  intros k Hk. pose proof (Ht k Hk) as Ek. rewrite <- Heq; [done|].
  destruct (decide (0 <= a + k < 2 ^ 64)); [done|]. by rewrite Hout in Ek.
Qed.

(** A target with 4 KiB pages and 64-bit addresses. *)
Definition target64 : target := mk_target 12 64.

(** Two areas that share the page at 0x3000, and one up to the last address. *)
Definition shared_tree : MemoryRegion :=
  mk_region 1 0 (2 ^ 64) true false false
    [mk_region 10 0x1000 0x2800 true true false [];
     mk_region 11 0x3800 0x100 true true true [];
     mk_region 12 (2 ^ 64 - 0x1800) 0x1800 true true false []].

Lemma shared_tree_ok : region_ok shared_tree.
Proof. simpl. lia. Qed.

Definition shared_view : FlatView :=
  mk_view [mk_flat 10 0 (addrrange_make 0x1000 0x2800) false;
           mk_flat 11 0 (addrrange_make 0x3800 0x100) true;
           mk_flat 12 0 (addrrange_make (2 ^ 64 - 0x1800) 0x1800) false] 10.

Lemma shared_view_eq : generate_memory_topology (Some shared_tree) = Some shared_view.
Proof. vm_compute. reflexivity. Qed.

Lemma shared_built :
  match generate_dispatch target64 0 0 shared_view with Some _ => true | None => false end = true.
Proof. vm_compute. reflexivity. Qed.

Lemma dispatch_refines_tree_witness :
  exists d d' i s xlat plen' d'',
    generate_dispatch target64 0 0 shared_view = Some d /\
    lookups target64 [(0x1000, true); (0x3900, false)] d = Some d' /\
    address_space_translate_internal (fun _ => true) target64 d' 0x37ff 0x1000 true =
      Some (i, s, xlat, plen', d'') /\
    s_mr s = mr_region 10 /\ xlat = 0x27ff.
Proof.
  destruct (dispatch_refines_tree target64 0 0 shared_tree shared_view
    [(0x1000, true); (0x3900, false)]) as (d & d' & E1 & E2 & H).
  - cbn. lia.
  - cbn. lia.
  - vm_compute. by split.
  - exact shared_tree_ok.
  - exact shared_view_eq.
  - cbn [ranges shared_view]. rewrite !Forall_cons, Forall_nil. split_and!; [left; vm_compute; discriminate..|done].
  - vm_compute. discriminate.
  - repeat constructor; cbn; lia.
  - destruct (H (fun _ => true) 0x37ff 0x1000) as (i & s & xlat & plen' & d'' & E3 & H1 & H2 & _);
      [lia|lia|].
    exists d, d', i, s, xlat, plen', d''. split_and!; [exact E1|exact E2|exact E3|exact H1|exact H2].
Defined.

(** The sections of a view are limited by the page size: when the
    dispatch structure of a view is built at all, the view has fewer than
    [TARGET_PAGE_SIZE] ranges, because every range needs a section number of
    its own below it; one range more fails the assertion in
    [phys_section_add]. *)
Theorem dispatch_section_limit tg level hint view d :
  1 <= TARGET_PAGE_BITS tg <= 16 ->
  generate_dispatch tg level hint view = Some d ->
  1 + Z.of_nat (nr view) <= TARGET_PAGE_SIZE tg.
Proof.
  intros Hbits H. unfold generate_dispatch in H. apply bind_Some in H as (d0 & E & H).
  apply bind_Some in H as (d1 & H & _). unfold address_space_dispatch_new in E.
  apply bind_Some in E as ([n d2] & E & E'). apply section_add_inv in E as [H1 H2].
  case_match; [|done]. injection E' as <-. apply add_ranges_grew in H; cbn in H1, H2.
  - rewrite H2 in H. unfold nr. lia.
  - rewrite H2, page_size by done. pose proof (ps_range tg Hbits). lia.
Qed.

Lemma dispatch_section_limit_witness :
  exists d, generate_dispatch target64 0 0 shared_view = Some d /\
    1 + Z.of_nat (nr shared_view) <= TARGET_PAGE_SIZE target64.
Proof.
  destruct (generate_dispatch target64 0 0 shared_view) as [d|] eqn:E.
  - exists d. split; [reflexivity|]. apply (dispatch_section_limit target64 0 0 shared_view d);
      [cbn; lia|exact E].
  - pose proof shared_built as H. rewrite E in H. discriminate H.
Defined.

(** Freeing a dispatch structure, at any time after it was built, frees
    every subpage it allocated exactly once, although the sections refer to
    regions of the engine as well. *)
Theorem dispatch_free_exact tg level hint view d history d' :
  1 <= TARGET_PAGE_BITS tg <= 16 -> 32 <= TARGET_LONG_BITS tg <= 64 ->
  0 <= hint <= PHYS_MAP_NODE_NIL ->
  sorted_from 0 (ranges view) -> ranges_ok tg (ranges view) ->
  1 + total_needed tg (ranges view) <= TARGET_PAGE_SIZE tg ->
  generate_dispatch tg level hint view = Some d ->
  Forall (fun q => 0 <= fst q < 2 ^ 64) history ->
  lookups tg history d = Some d' ->
  address_space_dispatch_free d' ≡ₚ seq 0 (length (subpages d')).
Proof.
  intros Hbits Hlong Hh Hsort Hok Hcnt E Hhist E'. rewrite page_size in Hcnt by done.
  destruct (generate_dispatch_ok tg Hbits Hlong level hint view Hh Hsort Hok Hcnt) as (d0 & E0 & Hd).
  rewrite E in E0. injection E0 as <-.
  destruct (lookups_ready tg Hbits Hlong history d _ Hd Hhist) as (d1 & E1 & Hd').
  rewrite E' in E1. injection E1 as <-. by eapply dispatch_free_ok.
Qed.

Lemma dispatch_free_exact_witness :
  exists d, generate_dispatch target64 0 0 shared_view = Some d /\
    address_space_dispatch_free d ≡ₚ seq 0 (length (subpages d)).
Proof.
  destruct (generate_dispatch target64 0 0 shared_view) as [d|] eqn:E.
  - exists d. split; [reflexivity|].
    apply (dispatch_free_exact target64 0 0 shared_view d [] d).
    + cbn. lia.
    + cbn. lia.
    + vm_compute. by split.
    + vm_compute. by split_and!.
    + unfold ranges_ok. cbn [ranges shared_view]. rewrite !Forall_cons, Forall_nil.
      split_and!; first [exact I|left; vm_compute; discriminate|vm_compute; discriminate].
    + vm_compute. discriminate.
    + exact E.
    + constructor.
    + reflexivity.
  - pose proof shared_built as H. rewrite E in H. discriminate H.
Defined.

(** With a 32-bit [target_ulong] the mask of [register_subpage] drops the high
    half of an address: an unaligned range above 4 GiB is registered at the
    page of its low half and not found. *)
Example subpage_above_4g :
  let view := mk_view [mk_flat 7 0 (addrrange_make (2 ^ 32 + 0x800) 0x100) false] 10 in
  let look tg := d ← generate_dispatch tg 0 0 view;
                 '(_, s, _, _, _) ← address_space_translate_internal (fun _ => true) tg d
                                   (2 ^ 32 + 0x800) 1 true; Some (s_mr s) in
  look (mk_target 12 32) = Some mr_unassigned /\ look target64 = Some (mr_region 7).
Proof. vm_compute. by split. Qed.
