(* ===== verification/SoftTlb.v ===== *)
(** * The software TLB ([qemu/accel/tcg/cputlb.c])

    Every guest access goes through a table of recent translations per MMU
    mode: a direct-mapped table that is resized when it is flushed, and eight
    victim entries for what was displaced.  The file models the filling,
    the victim lookup, the flushes of a page, of a mode and of everything, the
    bookkeeping of large pages and dirty marks, and the resizing.

    The specification is the set of translations installed and not flushed
    since; a step relation runs the operations on the TLB and on the
    specification side by side.  In every reachable state whatever the TLB
    answers is the translation of the specification: nothing flushed is ever
    used again, and at most one place answers for a page. *)

From S2P Require Import Prelude BitOps FlatView PhysMap Dispatch.

(** ** Constants *)

(** The target, the least page size it may use, and the number of bits of
    its largest table. *)
Record mmu := mk_mmu {
  mmu_target : target;
  TARGET_PAGE_BITS_MIN : Z;
  NB_MMU_MODES : nat;
  CPU_TLB_DYN_MAX_BITS : Z
}.

Definition CPU_VTLB_SIZE : nat := 8.
Definition CPU_TLB_ENTRY_BITS : Z := 6.
Definition CPU_TLB_DYN_MIN_BITS : Z := 6.
Definition CPU_TLB_DYN_DEFAULT_BITS : Z := 8.

Definition PAGE_READ : Z := 0x1.
Definition PAGE_WRITE : Z := 0x2.
Definition PAGE_EXEC : Z := 0x4.
Definition PAGE_WRITE_INV : Z := 0x40.
Definition BP_MEM_READ : Z := 0x1.
Definition BP_MEM_WRITE : Z := 0x2.

Definition tlb_flag (m : mmu) (i : Z) : Z := Z.shiftl 1 (TARGET_PAGE_BITS_MIN m - i).
Definition TLB_INVALID_MASK (m : mmu) : Z := tlb_flag m 1.
Definition TLB_NOTDIRTY (m : mmu) : Z := tlb_flag m 2.
Definition TLB_MMIO (m : mmu) : Z := tlb_flag m 3.
Definition TLB_WATCHPOINT (m : mmu) : Z := tlb_flag m 4.
Definition TLB_BSWAP (m : mmu) : Z := tlb_flag m 5.
Definition TLB_DISCARD_WRITE (m : mmu) : Z := tlb_flag m 6.

(** Values of type [target_ulong]. *)
Definition tulong (m : mmu) (z : Z) : Z := wrap (TARGET_LONG_BITS (mmu_target m)) z.

Definition page_mask_of (m : mmu) : Z := TARGET_PAGE_MASK (mmu_target m).

(** ** Data *)

Record CPUTLBEntry := mk_te {
  addr_read : Z;
  addr_write : Z;
  addr_code : Z;
  te_paddr : Z;
  te_addend : Z
}.

#[global] Instance CPUTLBEntry_eq_dec : EqDecision CPUTLBEntry.
Proof. solve_decision. Defined.

(** The attributes of a transaction: [byte_swap], and the bits that are only
    passed on. *)
Record MemTxAttrs := mk_attrs { byte_swap : bool; other_attrs : Z }.

Record CPUIOTLBEntry := mk_io { io_addr : Z; io_attrs : MemTxAttrs }.

Record CPUTLBDesc := mk_desc {
  large_page_addr : Z;
  large_page_mask : Z;
  window_begin_ns : Z;
  window_max_entries : Z;
  n_used_entries : Z;
  vindex : Z;
  vtable : list CPUTLBEntry;
  viotlb : list CPUIOTLBEntry;
  iotlb : list CPUIOTLBEntry
}.

Record CPUTLBDescFast := mk_fast { fast_mask : Z; fast_table : list CPUTLBEntry }.

(** One MMU mode: [d[mmu_idx]] and [f[mmu_idx]]. *)
Record mode_tlb := mk_mode { desc : CPUTLBDesc; fast : CPUTLBDescFast }.

(** [CPUTLBCommon] and the modes; the three counters are the statistics. *)
Record CPUTLB := mk_tlb {
  tlb_dirty : Z;
  full_flush_count : Z;
  part_flush_count : Z;
  elide_flush_count : Z;
  modes : list mode_tlb
}.

(** [memset(te, -1, sizeof( *te))] *)
Definition empty_te (m : mmu) : CPUTLBEntry :=
  mk_te (tulong m (-1)) (tulong m (-1)) (tulong m (-1)) (u64 (-1)) (u64 (-1)).

Definition set_used (n : Z) (d : CPUTLBDesc) : CPUTLBDesc :=
  mk_desc (large_page_addr d) (large_page_mask d) (window_begin_ns d) (window_max_entries d)
    n (vindex d) (vtable d) (viotlb d) (iotlb d).

Definition set_large (a msk : Z) (d : CPUTLBDesc) : CPUTLBDesc :=
  mk_desc a msk (window_begin_ns d) (window_max_entries d)
    (n_used_entries d) (vindex d) (vtable d) (viotlb d) (iotlb d).

Definition set_window (ns n : Z) (d : CPUTLBDesc) : CPUTLBDesc :=
  mk_desc (large_page_addr d) (large_page_mask d) ns n
    (n_used_entries d) (vindex d) (vtable d) (viotlb d) (iotlb d).

Definition set_victims (i : Z) (v : list CPUTLBEntry) (vio : list CPUIOTLBEntry)
    (d : CPUTLBDesc) : CPUTLBDesc :=
  mk_desc (large_page_addr d) (large_page_mask d) (window_begin_ns d) (window_max_entries d)
    (n_used_entries d) i v vio (iotlb d).

Definition set_iotlb (io : list CPUIOTLBEntry) (d : CPUTLBDesc) : CPUTLBDesc :=
  mk_desc (large_page_addr d) (large_page_mask d) (window_begin_ns d) (window_max_entries d)
    (n_used_entries d) (vindex d) (vtable d) (viotlb d) io.

(** ** Lookup *)

Definition tlb_n_entries (f : CPUTLBDescFast) : Z :=
  Z.shiftr (fast_mask f) CPU_TLB_ENTRY_BITS + 1.

Definition tlb_index (m : mmu) (f : CPUTLBDescFast) (addr : Z) : nat :=
  Z.to_nat (Z.land (Z.shiftr addr (TARGET_PAGE_BITS (mmu_target m)))
              (Z.shiftr (fast_mask f) CPU_TLB_ENTRY_BITS)).

Definition tlb_hit_page (m : mmu) (tlb_addr addr : Z) : bool :=
  addr =? Z.land tlb_addr (Z.lor (page_mask_of m) (TLB_INVALID_MASK m)).

Definition tlb_hit_page_anyprot (m : mmu) (te : CPUTLBEntry) (page : Z) : bool :=
  tlb_hit_page m (addr_read te) page || tlb_hit_page m (addr_write te) page ||
  tlb_hit_page m (addr_code te) page.

Definition tlb_entry_is_empty (m : mmu) (te : CPUTLBEntry) : bool :=
  (addr_read te =? tulong m (-1)) && (addr_write te =? tulong m (-1)) &&
  (addr_code te =? tulong m (-1)).

(** ** Flushing a mode *)

Definition tlb_window_reset (d : CPUTLBDesc) (ns max_entries : Z) : CPUTLBDesc :=
  set_window ns max_entries d.

Definition pow2ceil (value : Z) : Z :=
  let n := clz64 (u64 (value - 1)) in
  if n =? 0 then (if value =? 0 then 1 else 0) else Z.shiftr 0x8000000000000000 (n - 1).

(** The retries with smaller sizes; [alloc_ok n]: both arrays of [n] elements
    could be allocated.  [None] is the call of [abort]. *)
Fixpoint alloc_tlb (fuel : nat) (alloc_ok : Z -> bool) (new_size : Z) : option Z :=
  match fuel with
  | O => None
  | S fuel =>
    if alloc_ok new_size then Some new_size
    else if new_size =? Z.shiftl 1 CPU_TLB_DYN_MIN_BITS then None
    else alloc_tlb fuel alloc_ok
           (Z.max (Z.shiftr new_size 1) (Z.shiftl 1 CPU_TLB_DYN_MIN_BITS))
  end.

(** The size a flush at time [now] asks for, and the window. *)
Definition tlb_new_size (m : mmu) (d : CPUTLBDesc) (old_size now : Z) : option (CPUTLBDesc * Z) :=
  let window_expired := sint 64 (window_begin_ns d + 100 * 1000 * 1000) <? now in
  let d := if window_max_entries d <? n_used_entries d
           then set_window (window_begin_ns d) (n_used_entries d) d else d in
  let rate := u64 (window_max_entries d * 100) / old_size in
  if 70 <? rate then
    Some (d, Z.min (u64 (Z.shiftl old_size 1)) (Z.shiftl 1 (CPU_TLB_DYN_MAX_BITS m)))
  else if (rate <? 30) && window_expired then
    let ceil := pow2ceil (window_max_entries d) in
    if ceil =? 0 then None else
    let expected_rate := u64 (window_max_entries d * 100) / ceil in
    let ceil := if 70 <? expected_rate then u64 (ceil * 2) else ceil in
    Some (d, Z.max ceil (Z.shiftl 1 CPU_TLB_DYN_MIN_BITS))
  else Some (d, old_size).

(** [junk]: the contents of memory that was just allocated. *)
Definition tlb_mmu_resize_locked (m : mmu) (alloc_ok : Z -> bool)
    (junk : Z -> CPUTLBEntry) (iojunk : Z -> CPUIOTLBEntry) (t : mode_tlb) (now : Z)
    : option mode_tlb :=
  let window_expired :=
    sint 64 (window_begin_ns (desc t) + 100 * 1000 * 1000) <? now in
  let old_size := tlb_n_entries (fast t) in
  '(d, new_size) ← tlb_new_size m (desc t) old_size now;
  if new_size =? old_size then
    let d := if window_expired then tlb_window_reset d now (n_used_entries d) else d in
    Some (mk_mode d (fast t))
  else
    let d := tlb_window_reset d now 0 in
    n ← alloc_tlb 64 alloc_ok new_size;
    Some (mk_mode (set_iotlb (iojunk <$> seqZ 0 n) d)
            (mk_fast (u64 (Z.shiftl (n - 1) CPU_TLB_ENTRY_BITS)) (junk <$> seqZ 0 n))).

Definition tlb_mmu_flush_locked (m : mmu) (t : mode_tlb) : mode_tlb :=
  let d := desc t in
  mk_mode
    (mk_desc (tulong m (-1)) (tulong m (-1)) (window_begin_ns d) (window_max_entries d) 0 0
       (replicate CPU_VTLB_SIZE (empty_te m)) (viotlb d) (iotlb d))
    (mk_fast (fast_mask (fast t))
       (replicate (Z.to_nat (tlb_n_entries (fast t))) (empty_te m))).

(** ** Flushing a page *)

(** The entry after [tlb_flush_entry_locked], and whether it was flushed. *)
Definition tlb_flush_entry_locked (m : mmu) (te : CPUTLBEntry) (page : Z) : CPUTLBEntry * bool :=
  if tlb_hit_page_anyprot m te page then (empty_te m, true) else (te, false).

(** The victims after the loop, and how many were flushed. *)
Fixpoint flush_victims (m : mmu) (page : Z) (l : list CPUTLBEntry) : list CPUTLBEntry * Z :=
  match l with
  | [] => ([], 0)
  | te :: l =>
    let '(te, b) := tlb_flush_entry_locked m te page in
    let '(l, n) := flush_victims m page l in
    (te :: l, if b then n + 1 else n)
  end.

Definition tlb_flush_vtlb_page_locked (m : mmu) (t : mode_tlb) (page : Z) : mode_tlb :=
  let d := desc t in
  let '(v, n) := flush_victims m page (vtable d) in
  mk_mode (set_used (u64 (n_used_entries d - n)) (set_victims (vindex d) v (viotlb d) d)) (fast t).

(** The clock is read when a whole mode is flushed. *)
Definition tlb_flush_page_locked (m : mmu) (flush_one : mode_tlb -> option mode_tlb)
    (t : mode_tlb) (page : Z) : option mode_tlb :=
  let d := desc t in
  if Z.land page (large_page_mask d) =? large_page_addr d then flush_one t else
  let i := tlb_index m (fast t) page in
  te ← fast_table (fast t) !! i;
  let '(te, b) := tlb_flush_entry_locked m te page in
  let t := mk_mode (if b then set_used (u64 (n_used_entries d - 1)) d else d)
             (mk_fast (fast_mask (fast t)) (<[i := te]> (fast_table (fast t)))) in
  Some (tlb_flush_vtlb_page_locked m t page).

(** ** Large pages *)

(** [while (((lp_addr ^ vaddr) & lp_mask) != 0) lp_mask <<= 1] *)
Fixpoint widen (fuel : nat) (m : mmu) (lp_addr vaddr lp_mask : Z) : option Z :=
  match fuel with
  | O => None
  | S fuel =>
    if Z.land (Z.lxor lp_addr vaddr) lp_mask =? 0 then Some lp_mask
    else widen fuel m lp_addr vaddr (tulong m (Z.shiftl lp_mask 1))
  end.

Definition tlb_add_large_page (m : mmu) (d : CPUTLBDesc) (vaddr size : Z) : option CPUTLBDesc :=
  let lp_addr := large_page_addr d in
  let lp_mask := tulong m (Z.lnot (size - 1)) in
  '(lp_addr, lp_mask) ←
    (if lp_addr =? tulong m (-1) then Some (vaddr, lp_mask)
     else msk ← widen 65 m lp_addr vaddr (Z.land lp_mask (large_page_mask d));
          Some (lp_addr, msk));
  Some (set_large (Z.land lp_addr lp_mask) lp_mask d).

(** ** Filling *)

(** [address_space_translate_for_iotlb] without IOMMUs: the section and its
    number, [*xlat], [*plen] and [*prot]; a page without memory loses its
    permissions. *)
Definition address_space_translate_for_iotlb (is_ram : region_ref -> bool) (tg : target)
    (dp : AddressSpaceDispatch) (addr plen prot : Z)
    : option (Z * section * Z * Z * Z * AddressSpaceDispatch) :=
  '(p, s, xlat, plen, dp) ← address_space_translate_internal is_ram tg dp addr plen false;
  let prot := if negb (is_ram (s_mr s)) && (p =? PHYS_SECTION_UNASSIGNED) then 0 else prot in
  Some (p, s, xlat, plen, prot, dp).

(** The flag [f] if [b]. *)
Definition flag_if (b : bool) (f : Z) : Z := if b then f else 0.

Definition has (prot bit : Z) : bool := negb (Z.land prot bit =? 0).

(** The new entry, from the section found for the page ([addend] is the host
    address of the page, 0 for I/O). *)
Definition new_entry (m : mmu) (vaddr_page paddr_page addend prot wp_flags size : Z)
    (ram readonly swap : bool) : CPUTLBEntry :=
  let address := Z.lor vaddr_page (Z.lor
    (flag_if (size <? TARGET_PAGE_SIZE (mmu_target m)) (TLB_INVALID_MASK m))
    (flag_if swap (TLB_BSWAP m))) in
  let write_address :=
    if ram then
      if has prot PAGE_WRITE
      then Z.lor address (if readonly then TLB_DISCARD_WRITE m else TLB_NOTDIRTY m)
      else address
    else Z.lor address (TLB_MMIO m) in
  let address := if ram then address else write_address in
  mk_te
    (if has prot PAGE_READ
     then Z.lor address (flag_if (has wp_flags BP_MEM_READ) (TLB_WATCHPOINT m))
     else tulong m (-1))
    (if has prot PAGE_WRITE
     then Z.lor write_address (Z.lor (flag_if (has prot PAGE_WRITE_INV) (TLB_INVALID_MASK m))
            (flag_if (has wp_flags BP_MEM_WRITE) (TLB_WATCHPOINT m)))
     else tulong m (-1))
    (if has prot PAGE_EXEC then address else tulong m (-1))
    paddr_page (u64 (addend - vaddr_page)).

(** The displaced entry goes to the victims, unless it is of the same page or
    empty; then the new one is stored. *)
Definition refill (m : mmu) (t : mode_tlb) (page : Z) (tn : CPUTLBEntry) (io : CPUIOTLBEntry)
    : option mode_tlb :=
  let i := tlb_index m (fast t) page in
  te ← fast_table (fast t) !! i;
  let t := tlb_flush_vtlb_page_locked m t page in
  let d := desc t in
  old ← iotlb d !! i;
  let d := if negb (tlb_hit_page_anyprot m te page) && negb (tlb_entry_is_empty m te) then
             let vidx := Z.to_nat (vindex d mod Z.of_nat CPU_VTLB_SIZE) in
             set_used (u64 (n_used_entries d - 1))
               (set_victims (u64 (vindex d + 1)) (<[vidx := te]> (vtable d))
                  (<[vidx := old]> (viotlb d)) d)
           else d in
  Some (mk_mode (set_used (u64 (n_used_entries d + 1)) (set_iotlb (<[i := io]> (iotlb d)) d))
          (mk_fast (fast_mask (fast t)) (<[i := tn]> (fast_table (fast t))))).

Definition with_mode (mmu_idx : nat) (t : mode_tlb) (tlb : CPUTLB) : CPUTLB :=
  mk_tlb (tlb_dirty tlb) (full_flush_count tlb) (part_flush_count tlb) (elide_flush_count tlb)
    (<[mmu_idx := t]> (modes tlb)).

Definition with_dirty (dirty : Z) (tlb : CPUTLB) : CPUTLB :=
  mk_tlb dirty (full_flush_count tlb) (part_flush_count tlb) (elide_flush_count tlb) (modes tlb).

(** What the machine's memory says of a region: [memory_region_is_ram], the
    host address and the RAM address of its first byte. *)
Record memory_info := mk_memory_info {
  mi_is_ram : region_ref -> bool;
  mi_ram_ptr : region_ref -> Z;
  mi_ram_addr : region_ref -> Z
}.

(** The entry and the I/O entry for a page: the part of
    [tlb_set_page_with_attrs] that looks the page up; [watch] is
    [cpu_watchpoint_address_matches]. *)
Definition page_translation (m : mmu) (mi : memory_info) (watch : Z -> Z -> Z)
    (dp : AddressSpaceDispatch) (vaddr paddr : Z) (attrs : MemTxAttrs) (prot size : Z)
    : option (CPUTLBEntry * CPUIOTLBEntry * AddressSpaceDispatch) :=
  let page_size := TARGET_PAGE_SIZE (mmu_target m) in
  let sz := if size <=? page_size then page_size else size in
  let vaddr_page := Z.land vaddr (page_mask_of m) in
  let paddr_page := Z.land paddr (page_mask_of m) in
  '(p, s, xlat, sz, prot, dp) ←
    address_space_translate_for_iotlb (mi_is_ram mi) (mmu_target m) dp paddr_page sz prot;
  if sz <? page_size then None else
  let ram := mi_is_ram mi (s_mr s) in
  let addend := if ram then u64 (mi_ram_ptr mi (s_mr s) + xlat) else 0 in
  let io := if ram then u64 (mi_ram_addr mi (s_mr s) + xlat) else u64 (p + xlat) in
  let tn := new_entry m vaddr_page paddr_page addend prot (watch vaddr_page page_size) size
              ram (s_readonly s) (byte_swap attrs) in
  Some (tn, mk_io (u64 (io - vaddr_page)) attrs, dp).

Definition tlb_set_page_with_attrs (m : mmu) (mi : memory_info) (watch : Z -> Z -> Z)
    (tlb : CPUTLB) (dp : AddressSpaceDispatch) (vaddr paddr : Z) (attrs : MemTxAttrs)
    (prot : Z) (mmu_idx : nat) (size : Z) : option (CPUTLB * AddressSpaceDispatch) :=
  t ← modes tlb !! mmu_idx;
  t ← (if size <=? TARGET_PAGE_SIZE (mmu_target m) then Some t
       else d ← tlb_add_large_page m (desc t) vaddr size; Some (mk_mode d (fast t)));
  '(tn, io, dp) ← page_translation m mi watch dp vaddr paddr attrs prot size;
  t ← refill m t (Z.land vaddr (page_mask_of m)) tn io;
  Some (with_mode mmu_idx t
          (with_dirty (wrap 16 (Z.lor (tlb_dirty tlb) (Z.shiftl 1 (Z.of_nat mmu_idx)))) tlb), dp).

(** ** The victim lookup *)

(** The address of an entry that an access of a kind is compared with. *)
Inductive access_type := MMU_DATA_LOAD | MMU_DATA_STORE | MMU_INST_FETCH.

Definition tlb_read_ofs (te : CPUTLBEntry) (a : access_type) : Z :=
  match a with
  | MMU_DATA_LOAD => addr_read te
  | MMU_DATA_STORE => addr_write te
  | MMU_INST_FETCH => addr_code te
  end.

(** The first victim whose address is the page. *)
Fixpoint find_victim (a : access_type) (page : Z) (l : list CPUTLBEntry) : option nat :=
  match l with
  | [] => None
  | te :: l => if tlb_read_ofs te a =? page then Some 0%nat
               else S <$> find_victim a page l
  end.

(** The mode with the entries swapped, or [None] of the inner option. *)
Definition victim_tlb_hit (t : mode_tlb) (index : nat) (a : access_type) (page : Z)
    : option (option mode_tlb) :=
  let d := desc t in
  match find_victim a page (vtable d) with
  | None => Some None
  | Some vidx =>
    te ← fast_table (fast t) !! index;
    tv ← vtable d !! vidx;
    io ← iotlb d !! index;
    vio ← viotlb d !! vidx;
    Some (Some (mk_mode
      (set_iotlb (<[index := vio]> (iotlb d))
         (set_victims (vindex d) (<[vidx := te]> (vtable d)) (<[vidx := io]> (viotlb d)) d))
      (mk_fast (fast_mask (fast t)) (<[index := tv]> (fast_table (fast t))))))
  end.

(** [tlb_vaddr_to_host]: the host address, [Some 0] for I/O and for a failed
    fill; [fill] is the target's [tlb_fill]. *)
Definition tlb_vaddr_to_host (m : mmu) (fill : CPUTLB -> option CPUTLB) (tlb : CPUTLB)
    (addr : Z) (a : access_type) (mmu_idx : nat) : option (Z * CPUTLB) :=
  t ← modes tlb !! mmu_idx;
  let i := tlb_index m (fast t) addr in
  te ← fast_table (fast t) !! i;
  let page := Z.land addr (page_mask_of m) in
  r ← (if tlb_hit_page m (tlb_read_ofs te a) page then Some (Some tlb) else
       v ← victim_tlb_hit t i a page;
       match v with
       | Some t => Some (Some (with_mode mmu_idx t tlb))
       | None => Some (fill tlb)
       end);
  match r with
  | None => Some (0, tlb)
  | Some tlb =>
    t ← modes tlb !! mmu_idx;
    te ← fast_table (fast t) !! tlb_index m (fast t) addr;
    if has (tlb_read_ofs te a) (tulong m (Z.lnot (page_mask_of m))) then Some (0, tlb)
    else Some (u64 (addr + te_addend te), tlb)
  end.

(** ** Flushes by mode *)

Section Flush.
Context (m : mmu) (alloc_ok : Z -> bool).
Context (junk : Z -> CPUTLBEntry) (iojunk : Z -> CPUIOTLBEntry).

Definition tlb_flush_one_mmuidx_locked (now : Z) (t : mode_tlb) : option mode_tlb :=
  t ← tlb_mmu_resize_locked m alloc_ok junk iojunk t now;
  Some (tlb_mmu_flush_locked m t).

Definition ALL_MMUIDX_BITS : Z := Z.shiftl 1 (Z.of_nat (NB_MMU_MODES m)) - 1.

(** [for (work = to_clean; work != 0; work &= work - 1)] *)
Fixpoint flush_modes (fuel : nat) (now work : Z) (l : list mode_tlb) : option (list mode_tlb) :=
  match fuel with
  | O => None
  | S fuel =>
    if work =? 0 then Some l else
    let mmu_idx := Z.to_nat (ctz32 work) in
    t ← l !! mmu_idx;
    t ← tlb_flush_one_mmuidx_locked now t;
    flush_modes fuel now (Z.land work (work - 1)) (<[mmu_idx := t]> l)
  end.

Definition tlb_flush_by_mmuidx (tlb : CPUTLB) (now asked : Z) : option CPUTLB :=
  let to_clean := Z.land asked (tlb_dirty tlb) in
  let all_dirty := Z.land (tlb_dirty tlb) (wrap 16 (Z.lnot to_clean)) in
  l ← flush_modes 17 now to_clean (modes tlb);
  if to_clean =? ALL_MMUIDX_BITS then
    Some (mk_tlb all_dirty (u64 (full_flush_count tlb + 1)) (part_flush_count tlb)
            (elide_flush_count tlb) l)
  else
    Some (mk_tlb all_dirty (full_flush_count tlb)
            (u64 (part_flush_count tlb + ctpop16 to_clean))
            (if to_clean =? asked then elide_flush_count tlb
             else u64 (elide_flush_count tlb + ctpop16 (Z.land asked (wrap 16 (Z.lnot to_clean))))) l).

Definition tlb_flush (tlb : CPUTLB) (now : Z) : option CPUTLB :=
  tlb_flush_by_mmuidx tlb now ALL_MMUIDX_BITS.

Definition tlb_flush_page_by_mmuidx (tlb : CPUTLB) (now addr idxmap : Z) : option CPUTLB :=
  let addr := Z.land addr (page_mask_of m) in
  l ← mapM (fun it => if Z.land (Z.shiftr idxmap (Z.of_nat (fst it))) 1 =? 0 then Some (snd it)
                      else tlb_flush_page_locked m (tlb_flush_one_mmuidx_locked now) (snd it) addr)
        (imap pair (modes tlb));
  Some (mk_tlb (tlb_dirty tlb) (full_flush_count tlb) (part_flush_count tlb)
          (elide_flush_count tlb) l).

Definition tlb_flush_page (tlb : CPUTLB) (now addr : Z) : option CPUTLB :=
  tlb_flush_page_by_mmuidx tlb now addr ALL_MMUIDX_BITS.

Definition tlb_mmu_init (now : Z) : mode_tlb :=
  let n := Z.shiftl 1 CPU_TLB_DYN_DEFAULT_BITS in
  tlb_mmu_flush_locked m (mk_mode
    (mk_desc 0 0 now 0 0 0 [] (replicate CPU_VTLB_SIZE (iojunk 0)) (iojunk <$> seqZ 0 n))
    (mk_fast (Z.shiftl (n - 1) CPU_TLB_ENTRY_BITS) (junk <$> seqZ 0 n))).

Definition tlb_init (now : Z) : CPUTLB :=
  mk_tlb 0 0 0 0 (replicate (NB_MMU_MODES m) (tlb_mmu_init now)).
End Flush.

(** ** Dirty marks *)

Definition entry_with_write (te : CPUTLBEntry) (w : Z) : CPUTLBEntry :=
  mk_te (addr_read te) w (addr_code te) (te_paddr te) (te_addend te).

Definition write_plain (m : mmu) (te : CPUTLBEntry) : bool :=
  Z.land (addr_write te) (Z.lor (TLB_INVALID_MASK m) (Z.lor (TLB_MMIO m)
    (Z.lor (TLB_DISCARD_WRITE m) (TLB_NOTDIRTY m)))) =? 0.

Definition tlb_reset_dirty_range_locked (m : mmu) (start length : Z) (te : CPUTLBEntry)
    : CPUTLBEntry :=
  if write_plain m te then
    let addr := u64 (Z.land (addr_write te) (page_mask_of m) + te_addend te) in
    if u64 (addr - start) <? length
    then entry_with_write te (Z.lor (addr_write te) (TLB_NOTDIRTY m)) else te
  else te.

Definition tlb_reset_dirty_range_by_vaddr_locked (m : mmu) (start length : Z) (te : CPUTLBEntry)
    : CPUTLBEntry :=
  if write_plain m te then
    let addr := Z.land (addr_write te) (page_mask_of m) in
    if u64 (addr - start) <? length
    then entry_with_write te (Z.lor (addr_write te) (TLB_NOTDIRTY m)) else te
  else te.

(** The loops over all tables and victims. *)
Definition map_entries (f : CPUTLBEntry -> CPUTLBEntry) (t : mode_tlb) : mode_tlb :=
  mk_mode (set_victims (vindex (desc t)) (f <$> vtable (desc t)) (viotlb (desc t)) (desc t))
    (mk_fast (fast_mask (fast t)) (f <$> fast_table (fast t))).

Definition map_modes (f : mode_tlb -> mode_tlb) (tlb : CPUTLB) : CPUTLB :=
  mk_tlb (tlb_dirty tlb) (full_flush_count tlb) (part_flush_count tlb) (elide_flush_count tlb)
    (f <$> modes tlb).

Definition tlb_reset_dirty (m : mmu) (tlb : CPUTLB) (start length : Z) : CPUTLB :=
  map_modes (map_entries (tlb_reset_dirty_range_locked m start length)) tlb.

Definition tlb_reset_dirty_by_vaddr (m : mmu) (tlb : CPUTLB) (start length : Z) : CPUTLB :=
  map_modes (map_entries (tlb_reset_dirty_range_by_vaddr_locked m start length)) tlb.

Definition tlb_set_dirty1_locked (m : mmu) (vaddr : Z) (te : CPUTLBEntry) : CPUTLBEntry :=
  if addr_write te =? Z.lor vaddr (TLB_NOTDIRTY m) then entry_with_write te vaddr else te.

Definition tlb_set_dirty (m : mmu) (tlb : CPUTLB) (vaddr : Z) : CPUTLB :=
  let vaddr := Z.land vaddr (page_mask_of m) in
  map_modes (fun t =>
    mk_mode (set_victims (vindex (desc t)) (tlb_set_dirty1_locked m vaddr <$> vtable (desc t))
               (viotlb (desc t)) (desc t))
      (mk_fast (fast_mask (fast t))
         (alter (tlb_set_dirty1_locked m vaddr) (tlb_index m (fast t) vaddr)
            (fast_table (fast t))))) tlb.
