(* ===== verification/TlbCoherence.v ===== *)
(** * Coherence of the software TLB

    The invariant of [SoftTlb]: every place of the tables that answers for a
    page holds the translation last installed for it and not flushed since.
    The operations preserve it one by one, and so does every sequence of
    them. *)

From S2P Require Import Prelude BitOps FlatView PhysMap Dispatch SoftTlb.


(** ** Configurations *)

(** The limits every target of the engine keeps. *)
Record tlb_config (m : mmu) : Prop := mk_config {
  tc_bits : 1 <= TARGET_PAGE_BITS (mmu_target m) <= 16;
  tc_long : 32 <= TARGET_LONG_BITS (mmu_target m) <= 64;
  tc_min : 6 <= TARGET_PAGE_BITS_MIN m <= TARGET_PAGE_BITS (mmu_target m);
  tc_max : 8 <= CPU_TLB_DYN_MAX_BITS m <= 22;
  tc_modes : (NB_MMU_MODES m <= 16)%nat
}.

Section tlb.
Context (m : mmu).
Abbreviation tg := (mmu_target m).
Abbreviation bits := (TARGET_PAGE_BITS tg).
Abbreviation long := (TARGET_LONG_BITS tg).
Abbreviation minb := (TARGET_PAGE_BITS_MIN m).
Abbreviation ps := (2 ^ bits).
Context (Hcfg : tlb_config m).
Let Hbits : 1 <= bits <= 16 := tc_bits m Hcfg.
Let Hlong : 32 <= long <= 64 := tc_long m Hcfg.
Let Hmin : 6 <= minb <= bits := tc_min m Hcfg.
Let Hmax : 8 <= CPU_TLB_DYN_MAX_BITS m <= 22 := tc_max m Hcfg.
Let Hmodes : (NB_MMU_MODES m <= 16)%nat := tc_modes m Hcfg.

Definition is_page (P : Z) : Prop := 0 <= P < 2 ^ long /\ P mod ps = 0.

(** The page of an address. *)
Definition page_of_addr (a : Z) : Z := Z.land a (page_mask_of m).

Lemma long_ps : 2 ^ long = 2 ^ (long - bits) * ps.
Proof. rewrite <- Z.pow_add_r by lia. f_equal. lia. Qed.

Lemma page_of_addr_eq a : 0 <= a < 2 ^ long -> page_of_addr a = a / ps * ps.
Proof. intros Ha. by apply page_base. Qed.

Lemma page_of_addr_page a : 0 <= a < 2 ^ long -> is_page (page_of_addr a).
Proof.
  intros Ha. rewrite page_of_addr_eq by done. pose proof (ps_range tg Hbits).
  pose proof (Z.mul_div_le a ps ltac:(lia)). pose proof (Z.div_pos a ps ltac:(lia) ltac:(lia)).
  split; [nia|]. apply Z.mod_mul. lia.
Qed.

Lemma page_split P fl : is_page P -> 0 <= fl < ps -> 0 <= P + fl < 2 ^ long /\ page_of_addr (P + fl) = P.
Proof.
  intros [HP Hm] Hfl. pose proof (ps_range tg Hbits) as Hps.
  pose proof (Z.div_mod P ps ltac:(lia)) as E. pose proof long_ps as HL.
  assert (P + fl < 2 ^ long).
  { assert (P / ps < 2 ^ (long - bits)) by (apply Z.div_lt_upper_bound; lia). nia. }
  split; [lia|]. rewrite page_of_addr_eq by lia.
  replace (P + fl) with (fl + P / ps * ps) by lia. rewrite Z.div_add, (Z.div_small fl) by lia. lia.
Qed.

Lemma flag_range i : 1 <= i <= 6 -> 0 < tlb_flag m i < 2 ^ minb /\ 2 ^ minb <= ps.
Proof.
  intros Hi. unfold tlb_flag. rewrite Z.shiftl_1_l. split; [split|].
  - apply Z.pow_pos_nonneg; lia.
  - apply Z.pow_lt_mono_r; lia.
  - apply Z.pow_le_mono_r; lia.
Qed.

(** Two different flags share no bit. *)
Lemma flag_disjoint i j : 1 <= i <= 6 -> 1 <= j <= 6 -> i <> j -> Z.land (tlb_flag m i) (tlb_flag m j) = 0.
Proof.
  intros Hi Hj Hne. unfold tlb_flag. rewrite !Z.shiftl_1_l. apply Z.bits_inj'. intros k Hk.
  rewrite Z.land_spec, Z.bits_0. destruct (decide (k = minb - i)) as [->|].
  - rewrite (Z.pow2_bits_false (minb - j)) by lia. apply andb_false_r.
  - by rewrite (Z.pow2_bits_false (minb - i)) by lia.
Qed.

(** An address that hits a page: the page's, without the invalid flag. *)
Lemma hit_iff x P :
  is_page P -> 0 <= x < 2 ^ long ->
  tlb_hit_page m x P = true <-> page_of_addr x = P /\ Z.land x (TLB_INVALID_MASK m) = 0.
Proof.
  intros [HP Hm] Hx. unfold tlb_hit_page. rewrite Z.eqb_eq, Z.land_lor_distr_r.
  fold (page_of_addr x). destruct (page_of_addr_page x Hx) as [HA HAm].
  destruct (flag_range 1 ltac:(lia)) as [Hf Hfp].
  assert (0 <= Z.land x (TLB_INVALID_MASK m) < ps) as HI.
  { rewrite Z.land_comm. pose proof (land_nonneg_le (TLB_INVALID_MASK m) x) as H.
    unfold TLB_INVALID_MASK in *. lia. }
  rewrite (lor_low bits) by (lia || done). pose proof (ps_range tg Hbits) as Hps. split.
  - intros ->. rewrite Z.add_mod, HAm, Z.add_0_l, Z.mod_mod, (Z.mod_small (Z.land _ _)) in Hm by lia.
    split; [lia|done].
  - intros [-> ->]. lia.
Qed.

(** ** Large pages

    A large page of [2 ^ k] bytes is tested with the mask [2 ^ long - 2 ^ k]. *)

Lemma mask_land a k : 0 <= k <= long -> 0 <= a < 2 ^ long -> Z.land a (2 ^ long - 2 ^ k) = a / 2 ^ k * 2 ^ k.
Proof.
  intros Hk Ha. rewrite land_high by done. rewrite Z.mod_small; [lia|].
  split; [apply Z.div_pos; lia|]. apply Z.div_lt_upper_bound; [lia|].
  rewrite <- Z.pow_add_r by lia. replace (k + (long - k)) with long by lia. lia.
Qed.

Lemma size_mask k : 0 <= k <= long -> tulong m (Z.lnot (2 ^ k - 1)) = 2 ^ long - 2 ^ k.
Proof.
  intros Hk. unfold tulong, wrap. symmetry. apply (Z.mod_unique _ _ (-1)).
  - left. pose proof (Z.pow_pos_nonneg 2 k). pose proof (Z.pow_le_mono_r 2 k long). lia.
  - unfold Z.lnot. lia.
Qed.

Lemma mask_shift k : 0 <= k < long -> tulong m (Z.shiftl (2 ^ long - 2 ^ k) 1) = 2 ^ long - 2 ^ (k + 1).
Proof.
  intros Hk. unfold tulong, wrap. rewrite Z.shiftl_mul_pow2 by lia. symmetry.
  apply (Z.mod_unique _ _ 1); [left|rewrite Z.pow_add_r by lia; lia].
  pose proof (Z.pow_pos_nonneg 2 (k + 1)). pose proof (Z.pow_le_mono_r 2 (k + 1) long). lia.
Qed.

Lemma mask_mask k k' :
  0 <= k <= long -> 0 <= k' <= long ->
  Z.land (2 ^ long - 2 ^ k) (2 ^ long - 2 ^ k') = 2 ^ long - 2 ^ Z.max k k'.
Proof.
  assert (forall k k', 0 <= k <= k' -> k' <= long ->
    Z.land (2 ^ long - 2 ^ k) (2 ^ long - 2 ^ k') = 2 ^ long - 2 ^ k') as H.
  { intros i j Hi Hj. pose proof (Z.pow_pos_nonneg 2 i). pose proof (Z.pow_le_mono_r 2 i long).
    rewrite mask_land by lia.
    assert (2 ^ i = 2 ^ i * 1) as E1 by lia.
    pose proof (Z.pow_pos_nonneg 2 j). pose proof (Z.pow_le_mono_r 2 i j).
    assert (2 ^ long = 2 ^ (long - j) * 2 ^ j) as E2 by (rewrite <- Z.pow_add_r by lia; f_equal; lia).
    replace ((2 ^ long - 2 ^ i) / 2 ^ j) with (2 ^ (long - j) - 1); [lia|].
    apply (Z.div_unique _ _ _ (2 ^ j - 2 ^ i)); lia. }
  intros Hk Hk'. destruct (Z.max_spec k k') as [[? ->]|[? ->]]; [|rewrite Z.land_comm]; apply H; lia.
Qed.

(** Two addresses agree above bit [k]. *)
Lemma xor_mask a b k :
  0 <= k <= long -> 0 <= a < 2 ^ long -> 0 <= b < 2 ^ long ->
  Z.land (Z.lxor a b) (2 ^ long - 2 ^ k) = 0 <-> a / 2 ^ k = b / 2 ^ k.
Proof.
  intros Hk Ha Hb. assert (0 <= Z.lxor a b < 2 ^ long) as Hx.
  { split; [apply Z.lxor_nonneg; lia|].
    assert (Z.lxor a b = Z.land (Z.lxor a b) (Z.ones long)) as ->.
    { apply Z.bits_inj'. intros i Hi. rewrite Z.land_spec, Z.lxor_spec.
      destruct (decide (i < long)); [rewrite Z.ones_spec_low by lia; by rewrite andb_true_r|].
      rewrite Z.ones_spec_high by lia. rewrite andb_false_r.
      rewrite <- (Z.mod_small a (2 ^ long)), <- (Z.mod_small b (2 ^ long)) by lia.
      by rewrite !Z.mod_pow2_bits_high by lia. }
    rewrite Z.land_ones by lia. apply Z.mod_pos_bound. lia. }
  rewrite mask_land by done. pose proof (Z.pow_pos_nonneg 2 k).
  rewrite <- !Z.shiftr_div_pow2, Z.shiftr_lxor by lia. split; intros E.
  - apply Z.lxor_eq. nia.
  - rewrite E, Z.lxor_nilpotent. lia.
Qed.

Lemma widen_ok fuel a v k :
  0 <= k <= long -> 0 <= a < 2 ^ long -> 0 <= v < 2 ^ long -> long - k < Z.of_nat fuel ->
  exists k', k <= k' <= long /\ widen fuel m a v (2 ^ long - 2 ^ k) = Some (2 ^ long - 2 ^ k') /\
    a / 2 ^ k' = v / 2 ^ k'.
Proof.
  intros Hk Ha Hv. revert k Hk. induction fuel as [|fuel IH]; intros k Hk Hf; [lia|]. cbn [widen].
  case_if.
  - exists k. split; [lia|split; [done|]]. by apply xor_mask.
  - destruct (decide (k = long)) as [-> |].
    { exfalso. match goal with H : _ <> 0 |- _ => apply H end.
      apply xor_mask; [lia..|]. rewrite !Z.div_small by lia. done. }
    rewrite mask_shift by lia. destruct (IH (k + 1)) as (k' & Hk' & -> & E); [lia..|].
    exists k'. split; [lia|done].
Qed.

(** ** Entries *)

Lemma minus_one : tulong m (-1) = 2 ^ long - 1.
Proof.
  unfold tulong, wrap. symmetry. apply (Z.mod_unique _ _ (-1)); [left|lia].
  pose proof (Z.pow_pos_nonneg 2 long). lia.
Qed.

(** An address in an entry for the page [P]: the page with some flags, or
    none at all. *)
Definition flagged (P x : Z) : Prop := exists fl, 0 <= fl < 2 ^ minb /\ x = P + fl.

Definition addr_for (P x : Z) : Prop := x = tulong m (-1) \/ flagged P x.

Definition entry_for (P : Z) (te : CPUTLBEntry) : Prop :=
  addr_for P (addr_read te) /\ addr_for P (addr_write te) /\ addr_for P (addr_code te).

Lemma minus_one_no_hit Q : is_page Q -> tlb_hit_page m (tulong m (-1)) Q = false.
Proof.
  intros HQ. apply not_true_iff_false. rewrite minus_one.
  pose proof (Z.pow_pos_nonneg 2 long ltac:(lia) ltac:(lia)).
  rewrite hit_iff by (lia || done). intros [_ E]. revert E.
  rewrite Z.land_comm. replace (2 ^ long - 1) with (Z.ones long) by (rewrite Z.ones_equiv; lia).
  rewrite Z.land_ones by lia.
  destruct (flag_range 1 ltac:(lia)) as [Hf Hp].
  pose proof (Z.pow_le_mono_r 2 bits long ltac:(lia) ltac:(lia)).
  unfold TLB_INVALID_MASK. rewrite Z.mod_small; lia.
Qed.

Lemma addr_for_page P x fl : is_page P -> 0 <= fl < 2 ^ minb -> x = P + fl -> 0 <= x < 2 ^ long /\ page_of_addr x = P.
Proof. intros HP Hfl ->. apply page_split; [done|]. pose proof (flag_range 1). lia. Qed.

Lemma addr_for_hit P Q x : is_page P -> is_page Q -> addr_for P x -> tlb_hit_page m x Q = true -> Q = P.
Proof.
  intros HP HQ [-> |(fl & Hfl & Hx)] Hh; [by rewrite minus_one_no_hit in Hh|].
  destruct (addr_for_page P x fl HP Hfl Hx) as [Hr Hp]. apply hit_iff in Hh as [E _]; [congruence|done..].
Qed.

Lemma entry_for_hit P Q te :
  is_page P -> is_page Q -> entry_for P te -> tlb_hit_page_anyprot m te Q = true -> Q = P.
Proof.
  intros HP HQ (Hr & Hw & Hc) Hh. unfold tlb_hit_page_anyprot in Hh.
  rewrite !orb_true_iff in Hh. destruct Hh as [[Hh|Hh]|Hh]; eauto using addr_for_hit.
Qed.

Lemma empty_no_hit Q : is_page Q -> tlb_hit_page_anyprot m (empty_te m) Q = false.
Proof. intros HQ. unfold tlb_hit_page_anyprot. cbn. by rewrite !minus_one_no_hit. Qed.

(** The entry is for some page. *)
Definition shaped (te : CPUTLBEntry) : Prop := exists P, is_page P /\ entry_for P te.

Lemma zero_page : is_page 0.
Proof. split; [pose proof (Z.pow_pos_nonneg 2 long); lia|]. by rewrite Z.mod_0_l by (pose proof (ps_range tg Hbits); lia). Qed.

Lemma empty_shaped : shaped (empty_te m).
Proof. exists 0. split; [apply zero_page|]. repeat split; by left. Qed.

Lemma flagged_lor P x f : is_page P -> 0 <= f < 2 ^ minb -> flagged P x -> flagged P (Z.lor x f).
Proof.
  intros [HP Hm] Hf (fl & Hfl & ->). exists (Z.lor fl f).
  pose proof (lor_bound minb fl f ltac:(lia) Hfl Hf) as HL. split; [done|].
  pose proof (flag_range 1 ltac:(lia)). rewrite <- (lor_low bits P fl), <- Z.lor_assoc by (lia || done).
  by apply (lor_low bits); [lia| |lia].
Qed.

Lemma flagged_self P : flagged P P.
Proof. exists 0. pose proof (flag_range 1). lia. Qed.

Lemma flag_small i : 1 <= i <= 6 -> 0 <= tlb_flag m i < 2 ^ minb.
Proof. intros Hi. pose proof (flag_range i Hi). lia. Qed.

Lemma flag_if_small b f : 0 <= f < 2 ^ minb -> 0 <= flag_if b f < 2 ^ minb.
Proof. destruct b; simpl; lia. Qed.

(** Flags are added to a page one by one. *)
#[local] Ltac solve_flags :=
  repeat match goal with
  | |- flagged _ (Z.lor _ _) => apply flagged_lor; [done| |]
  | |- flagged ?P ?P => apply flagged_self
  | |- flagged _ (if ?b then _ else _) => destruct b
  | |- 0 <= Z.lor _ _ < _ => apply lor_bound; [lia| |]
  | |- 0 <= flag_if _ _ < _ => apply flag_if_small
  | |- 0 <= (if ?b then _ else _) < _ => destruct b
  | |- 0 <= _ < _ => apply flag_small; lia
  end.

(** The new entry of a page is an entry for that page. *)
Lemma new_entry_for P pp addend prot wp size ram ro swap :
  is_page P -> entry_for P (new_entry m P pp addend prot wp size ram ro swap).
Proof.
  intros HP. assert (forall b x, flagged P x -> addr_for P (if b : bool then x else tulong m (-1))) as Hif
    by (intros [] x Hx; [by right|by left]).
  unfold new_entry, entry_for. cbn [addr_read addr_write addr_code].
  split; [|split]; apply Hif; solve_flags.
Qed.

(** ** The invariant of a mode *)

(** How many entries of a list answer for [P]. *)
Fixpoint nhits (P : Z) (l : list CPUTLBEntry) : nat :=
  match l with
  | [] => 0
  | te :: l => (if tlb_hit_page_anyprot m te P then 1 else 0) + nhits P l
  end.

Lemma nhits_insert P l i x y :
  l !! i = Some x ->
  (nhits P (<[i := y]> l) + (if tlb_hit_page_anyprot m x P then 1 else 0) =
   nhits P l + (if tlb_hit_page_anyprot m y P then 1 else 0))%nat.
Proof.
  revert i. induction l as [|z l IH]; intros [|i] Hi; simplify_eq/=; [lia|].
  specialize (IH i Hi). lia.
Qed.

Lemma nhits_zero P l : (forall j te, l !! j = Some te -> tlb_hit_page_anyprot m te P = false) -> nhits P l = 0%nat.
Proof.
  induction l as [|x l IH]; intros H; [done|]. simpl. rewrite (H 0%nat x eq_refl), IH; [done|].
  intros j te Hj. by apply (H (S j)).
Qed.

Lemma nhits_slot P l i :
  (forall j te, l !! j = Some te -> tlb_hit_page_anyprot m te P = true -> j = i) -> (nhits P l <= 1)%nat.
Proof.
  revert i. induction l as [|x l IH]; intros i H; simpl; [lia|].
  destruct (tlb_hit_page_anyprot m x P) eqn:E.
  - rewrite nhits_zero; [lia|]. intros j te Hj. apply not_true_iff_false. intros Hh.
    pose proof (H 0%nat x eq_refl E). pose proof (H (S j) te Hj Hh). lia.
  - apply (IH (pred i)). intros j te Hj Hh. pose proof (H (S j) te Hj Hh). lia.
Qed.

(** What is installed: the entry of each page with the size of the page it
    was part of. *)
Definition translations := Z -> option (CPUTLBEntry * CPUIOTLBEntry * Z).

(** A large page of [sz] bytes at [P] lies in the area the descriptor
    remembers. *)
Definition covered (d : CPUTLBDesc) (P sz : Z) : Prop :=
  forall a, 0 <= a < 2 ^ long -> a / sz = P / sz -> Z.land a (large_page_mask d) = large_page_addr d.

(** Whatever the entry answers is what is installed. *)
Definition entry_ok (T : translations) (d : CPUTLBDesc) (te : CPUTLBEntry) (io : CPUIOTLBEntry) : Prop :=
  shaped te /\
  forall P, is_page P -> tlb_hit_page_anyprot m te P = true ->
    exists sz, T P = Some (te, io, sz) /\ (ps < sz -> covered d P sz).

(** The remembered area: none, or one large page. *)
Definition large_ok (d : CPUTLBDesc) : Prop :=
  (large_page_addr d = tulong m (-1) /\ large_page_mask d = tulong m (-1)) \/
  exists k, bits <= k <= long /\ large_page_mask d = 2 ^ long - 2 ^ k /\
    0 <= large_page_addr d < 2 ^ long /\ large_page_addr d mod 2 ^ k = 0.

(** The table has [2 ^ k] entries. *)
Definition table_size (t : mode_tlb) (k : Z) : Prop :=
  CPU_TLB_DYN_MIN_BITS <= k <= CPU_TLB_DYN_MAX_BITS m /\
  fast_mask (fast t) = Z.shiftl (2 ^ k - 1) CPU_TLB_ENTRY_BITS /\
  Z.of_nat (length (fast_table (fast t))) = 2 ^ k.

(** The counters, after [n] changes at most. *)
Definition used_ok (n : Z) (d : CPUTLBDesc) : Prop :=
  (exists x, Z.abs x <= n /\ n_used_entries d = u64 x) /\
  (exists y, Z.abs y <= n /\ window_max_entries d = u64 y).

Record mode_ok (n : Z) (T : translations) (t : mode_tlb) : Prop := mk_mode_ok {
  mo_size : exists k, table_size t k;
  mo_victims : length (vtable (desc t)) = CPU_VTLB_SIZE;
  mo_large : large_ok (desc t);
  mo_used : used_ok n (desc t);
  mo_main : Forall2 (entry_ok T (desc t)) (fast_table (fast t)) (iotlb (desc t));
  mo_vict : Forall2 (entry_ok T (desc t)) (vtable (desc t)) (viotlb (desc t));
  mo_slot : forall j te P, fast_table (fast t) !! j = Some te -> is_page P ->
    tlb_hit_page_anyprot m te P = true -> j = tlb_index m (fast t) P;
  mo_unique : forall P, is_page P ->
    (nhits P (fast_table (fast t)) + nhits P (vtable (desc t)) <= 1)%nat
}.

Lemma n_entries t k : table_size t k -> tlb_n_entries (fast t) = 2 ^ k.
Proof.
  intros (Hk & E & _). unfold tlb_n_entries. rewrite E, Z.shiftr_shiftl_l by done.
  rewrite Z.sub_diag, Z.shiftl_0_r. lia.
Qed.

Lemma index_eq t k a : table_size t k -> tlb_index m (fast t) a = Z.to_nat ((a / ps) mod 2 ^ k).
Proof.
  intros (Hk & E & _). unfold tlb_index. rewrite E, Z.shiftr_shiftl_l, Z.sub_diag, Z.shiftl_0_r by done.
  unfold CPU_TLB_DYN_MIN_BITS in Hk. replace (2 ^ k - 1) with (Z.ones k) by (rewrite Z.ones_equiv; lia).
  rewrite Z.land_ones, Z.shiftr_div_pow2 by lia. done.
Qed.

Lemma index_lt t k a : table_size t k -> (tlb_index m (fast t) a < length (fast_table (fast t)))%nat.
Proof.
  intros Hk. rewrite (index_eq t k) by done. destruct Hk as (Hk & _ & HL).
  unfold CPU_TLB_DYN_MIN_BITS in Hk. pose proof (Z.mod_pos_bound (a / ps) (2 ^ k)). lia.
Qed.

Lemma index_page t k a : table_size t k -> 0 <= a < 2 ^ long ->
  tlb_index m (fast t) a = tlb_index m (fast t) (page_of_addr a).
Proof.
  intros Hk Ha. rewrite !(index_eq t k) by done. rewrite page_of_addr_eq by done.
  pose proof (ps_range tg Hbits). by rewrite Z.div_mul by lia.
Qed.

(** An entry answers for one page only. *)
Lemma shaped_hits te P Q : shaped te -> is_page P -> is_page Q ->
  tlb_hit_page_anyprot m te P = true -> tlb_hit_page_anyprot m te Q = true -> P = Q.
Proof.
  intros (R & HR & He) HP HQ H1 H2. rewrite (entry_for_hit R P te) by done.
  by rewrite (entry_for_hit R Q te) by done.
Qed.

(** *** Emptying entries *)

Definition emptied (x y : CPUTLBEntry) : Prop := y = x \/ y = empty_te m.

Lemma emptied_hit x y P : is_page P -> emptied x y ->
  tlb_hit_page_anyprot m y P = true -> y = x /\ tlb_hit_page_anyprot m x P = true.
Proof. intros HP [-> | ->] Hh; [done|]. by rewrite empty_no_hit in Hh. Qed.

Lemma emptied_ok T T' d l l' k :
  Forall2 (entry_ok T d) l k -> Forall2 emptied l l' ->
  (forall te P, te ∈ l' -> is_page P -> tlb_hit_page_anyprot m te P = true -> T' P = T P) ->
  Forall2 (entry_ok T' d) l' k.
Proof.
  intros H. revert l'. induction H as [|x io l k [Hs Hx] _ IH]; intros l' Hl HT;
    inversion Hl as [|? y ? l1 Hy Hl1]; subst; constructor.
  - split; [destruct Hy as [-> | ->]; [done|apply empty_shaped]|]. intros P HP Hh.
    rewrite (HT y P) by (try done; left). destruct (emptied_hit x y P HP Hy Hh) as [-> Hh'].
    by apply Hx.
  - apply IH; [done|]. intros te P Hte. apply HT. by right.
Qed.

Lemma emptied_nhits P l l' : is_page P -> Forall2 emptied l l' -> (nhits P l' <= nhits P l)%nat.
Proof.
  intros HP. induction 1 as [|x y l l' Hy _ IH]; [done|]. simpl.
  destruct (tlb_hit_page_anyprot m y P) eqn:E; [|lia].
  destruct (emptied_hit x y P HP Hy E) as [_ ->]. lia.
Qed.

Lemma emptied_refl l : Forall2 emptied l l.
Proof. induction l as [|x l IH]; constructor; [by left|done]. Qed.

Lemma emptied_insert l i x y : l !! i = Some x -> emptied x y -> Forall2 emptied l (<[i := y]> l).
Proof.
  revert i. induction l as [|z l IH]; intros [|i] Hi Hxy; simplify_eq/=; constructor;
    try done; [apply emptied_refl|by left|by apply IH].
Qed.

Lemma mode_emptied n T n' T' t d' f' :
  mode_ok n T t ->
  Forall2 emptied (fast_table (fast t)) (fast_table f') -> fast_mask f' = fast_mask (fast t) ->
  Forall2 emptied (vtable (desc t)) (vtable d') -> viotlb d' = viotlb (desc t) ->
  iotlb d' = iotlb (desc t) -> large_page_addr d' = large_page_addr (desc t) ->
  large_page_mask d' = large_page_mask (desc t) -> used_ok n' d' ->
  (forall te P, te ∈ fast_table f' ++ vtable d' -> is_page P ->
     tlb_hit_page_anyprot m te P = true -> T' P = T P) ->
  mode_ok n' T' (mk_mode d' f').
Proof.
  intros [[k Hk] Hv Hl _ Hm Hvt Hsl Hu] HF Ef HV Ev Ei Ea Em Hn HT.
  assert (forall l k, Forall2 (entry_ok T' (desc t)) l k -> Forall2 (entry_ok T' d') l k) as Hd.
  { intros l k' HFo. apply (Forall2_impl _ _ _ _ HFo). intros te io [Hs He]. split; [done|]. intros P HP Hh.
    destruct (He P HP Hh) as (sz & E & Hc). exists sz. split; [done|].
    unfold covered in *. by rewrite Ea, Em. }
  constructor; cbn [desc fast].
  - exists k. destruct Hk as (? & ? & ?). split; [done|]. cbn [fast]. rewrite Ef, <- (Forall2_length _ _ _ HF). done.
  - by rewrite <- (Forall2_length _ _ _ HV).
  - unfold large_ok in *. by rewrite Ea, Em.
  - done.
  - apply Hd. rewrite Ei. eapply emptied_ok; [done..|]. intros te P Hte. apply HT. set_solver.
  - apply Hd. rewrite Ev. eapply emptied_ok; [done..|]. intros te P Hte. apply HT. set_solver.
  - intros j te P Hj HP Hh. destruct (Forall2_lookup_r _ _ _ _ _ HF Hj) as (x & Hx & Hy).
    destruct (emptied_hit x te P HP Hy Hh) as [_ Hh']. rewrite (Hsl j x P Hx HP Hh').
    unfold tlb_index. by rewrite Ef.
  - intros P HP. specialize (Hu P HP). pose proof (emptied_nhits P _ _ HP HF).
    pose proof (emptied_nhits P _ _ HP HV). lia.
Qed.

Lemma used_change n d c b : used_ok n d -> Z.abs c <= b -> used_ok (n + b) (set_used (u64 (n_used_entries d + c)) d).
Proof.
  intros [(x & Hx & E) (y & Hy & E')] Hc. split.
  - exists (x + c). split; [lia|]. simpl. by rewrite E, wrap_add_l.
  - exists y. split; [lia|done].
Qed.

Lemma used_mono n n' d : n <= n' -> used_ok n d -> used_ok n' d.
Proof. intros Hn [(x & Hx & E) (y & Hy & E')]. split; [exists x|exists y]; split; (lia || done). Qed.

Lemma mode_mono n n' T t : n <= n' -> mode_ok n T t -> mode_ok n' T t.
Proof. intros Hn []. constructor; try done. by apply (used_mono n). Qed.

Lemma flush_victims_ok P l :
  is_page P ->
  Forall2 emptied l (flush_victims m P l).1 /\
  Forall (fun te => tlb_hit_page_anyprot m te P = false) (flush_victims m P l).1 /\
  0 <= (flush_victims m P l).2 <= Z.of_nat (length l).
Proof.
  intros HP. induction l as [|x l (IH1 & IH2 & IH3)];
    [split; [constructor|split; [constructor|simpl; lia]]|]. cbn [flush_victims].
  unfold tlb_flush_entry_locked. destruct (flush_victims m P l) as [l' c]. cbn [fst snd] in *.
  destruct (tlb_hit_page_anyprot m x P) eqn:E; cbn [fst snd length].
  - split; [constructor; [by right|done]|]. split; [|lia]. constructor; [by apply empty_no_hit|done].
  - split; [constructor; [by left|done]|]. split; [|lia]. by constructor.
Qed.

(** Nothing among the victims answers for [P]. *)
Definition no_victim (P : Z) (t : mode_tlb) : Prop :=
  Forall (fun te => tlb_hit_page_anyprot m te P = false) (vtable (desc t)).

Lemma flush_vtlb_ok n T t P :
  mode_ok n T t -> is_page P ->
  mode_ok (n + 8) T (tlb_flush_vtlb_page_locked m t P) /\ no_victim P (tlb_flush_vtlb_page_locked m t P) /\
  fast (tlb_flush_vtlb_page_locked m t P) = fast t /\
  Forall2 emptied (vtable (desc t)) (vtable (desc (tlb_flush_vtlb_page_locked m t P))).
Proof.
  intros Hok HP. unfold no_victim, tlb_flush_vtlb_page_locked.
  destruct (flush_victims_ok P (vtable (desc t)) HP) as (H1 & H2 & H3).
  destruct (flush_victims m P (vtable (desc t))) as [v c]. cbn [fst snd] in *.
  rewrite (mo_victims _ _ _ Hok) in H3. unfold CPU_VTLB_SIZE in H3.
  split; [|done]. apply (mode_emptied n T _ _ t); try done; cbn.
  - apply emptied_refl.
  - apply (used_change n (set_victims (vindex (desc t)) v (viotlb (desc t)) (desc t)) (- c) 8); [|lia].
    apply (mo_used _ _ _ Hok).
Qed.

Lemma flush_vtlb_large t P :
  large_page_addr (desc (tlb_flush_vtlb_page_locked m t P)) = large_page_addr (desc t) /\
  large_page_mask (desc (tlb_flush_vtlb_page_locked m t P)) = large_page_mask (desc t).
Proof. unfold tlb_flush_vtlb_page_locked. by destruct (flush_victims _ _ _). Qed.

(** *** Emptying a mode *)

Lemma replicate_empty_ok T d k (l : list CPUIOTLBEntry) : k = length l -> Forall2 (entry_ok T d) (replicate k (empty_te m)) l.
Proof.
  intros ->. induction l as [|x l IH]; constructor; [|done]. split; [apply empty_shaped|].
  intros P HP Hh. by rewrite empty_no_hit in Hh.
Qed.

Lemma replicate_nhits P k : is_page P -> nhits P (replicate k (empty_te m)) = 0%nat.
Proof.
  intros HP. apply nhits_zero. intros j te Hj. apply lookup_replicate in Hj as [-> _]. by apply empty_no_hit.
Qed.

(** A mode that holds nothing. *)
Definition mode_empty (t : mode_tlb) : Prop :=
  forall te P, te ∈ fast_table (fast t) ++ vtable (desc t) -> is_page P -> tlb_hit_page_anyprot m te P = false.

Lemma flush_ok n T t k :
  table_size t k -> Z.of_nat (length (iotlb (desc t))) = 2 ^ k -> length (viotlb (desc t)) = CPU_VTLB_SIZE ->
  0 <= n -> (exists y, Z.abs y <= n /\ window_max_entries (desc t) = u64 y) ->
  mode_ok n T (tlb_mmu_flush_locked m t) /\ mode_empty (tlb_mmu_flush_locked m t).
Proof.
  intros Hk Hio Hvio Hn Hw. pose proof (n_entries t k Hk) as En. destruct Hk as (Hk & Em & HL).
  split.
  - constructor; cbn [tlb_mmu_flush_locked desc fast fast_table vtable viotlb iotlb].
    + exists k. split; [done|]. split; [done|]. cbn. rewrite length_replicate, En. lia.
    + done.
    + by left.
    + split; [|done]. exists 0. split; [lia|done].
    + apply replicate_empty_ok. rewrite En. lia.
    + by apply replicate_empty_ok.
    + intros j te P Hj HP Hh. apply lookup_replicate in Hj as [-> _]. by rewrite empty_no_hit in Hh.
    + intros P HP. rewrite !replicate_nhits by done. lia.
  - intros te P Hte HP. cbn in Hte. apply elem_of_app in Hte as [Hte|Hte].
    + apply elem_of_replicate in Hte as [-> _]. by apply empty_no_hit.
    + change (te ∈ replicate 8 (empty_te m)) in Hte. apply elem_of_replicate in Hte as [-> _]. by apply empty_no_hit.
Qed.

(** ** Remembering large pages *)

Lemma coarser a b k k' : 0 <= k <= k' -> a / 2 ^ k = b / 2 ^ k -> a / 2 ^ k' = b / 2 ^ k'.
Proof.
  intros Hk E. replace k' with (k + (k' - k)) by lia. rewrite Z.pow_add_r by lia.
  pose proof (Z.pow_pos_nonneg 2 k). pose proof (Z.pow_pos_nonneg 2 (k' - k)).
  rewrite <- !Z.div_div by lia. by rewrite E.
Qed.

Lemma aligned_not_minus_one a k : 1 <= k <= long -> a mod 2 ^ k = 0 -> a <> 2 ^ long - 1.
Proof.
  intros Hk Ha ->. revert Ha. pose proof (Z.pow_le_mono_r 2 1 k ltac:(lia) ltac:(lia)).
  rewrite <- (Z.mod_unique (2 ^ long - 1) (2 ^ k) (2 ^ (long - k) - 1) (2 ^ k - 1)); [lia|lia|].
  rewrite Z.mul_sub_distr_l, <- Z.pow_add_r by lia. replace (k + (long - k)) with long by lia. lia.
Qed.

Lemma covered_none d P sz :
  is_page P -> large_page_addr d = tulong m (-1) -> large_page_mask d = tulong m (-1) -> ~ covered d P sz.
Proof.
  intros [HP Hm] Ha Hk Hc. specialize (Hc P HP eq_refl). revert Hc. rewrite Ha, Hk, minus_one.
  replace (2 ^ long - 1) with (2 ^ long - 2 ^ 0) at 1 by lia. rewrite mask_land, Z.div_1_r, Z.mul_1_r by lia.
  apply (aligned_not_minus_one P bits); [lia|done].
Qed.

(** The area grows: what was covered stays covered, and the new large page is
    covered too. *)
Lemma add_large_page_ok d v j :
  large_ok d -> 0 <= v < 2 ^ long -> bits <= j <= long ->
  exists a k, tlb_add_large_page m d v (2 ^ j) = Some (set_large a k d) /\ large_ok (set_large a k d) /\
    (forall P sz, is_page P -> covered d P sz -> covered (set_large a k d) P sz) /\
    (forall P, P / 2 ^ j = v / 2 ^ j -> covered (set_large a k d) P (2 ^ j)).
Proof.
  intros Hd Hv Hj. unfold tlb_add_large_page. rewrite size_mask by lia.
  assert (forall k A, bits <= k <= long -> 0 <= A < 2 ^ long ->
    large_ok (set_large (Z.land A (2 ^ long - 2 ^ k)) (2 ^ long - 2 ^ k) d)) as Hlok.
  { intros k A Hk HA. right. exists k. split; [done|]. cbn. split; [done|].
    rewrite mask_land by lia. split.
    - pose proof (Z.mul_div_le A (2 ^ k)). pose proof (Z.pow_pos_nonneg 2 k).
      pose proof (Z.div_pos A (2 ^ k)). nia.
    - apply Z.mod_mul. pose proof (Z.pow_pos_nonneg 2 k). lia. }
  destruct Hd as [[Ha Hm]|(k & Hk & Hm & HA & Hal)].
  - rewrite Ha, Z.eqb_refl. cbn [mbind option_bind]. eexists _, _. split; [reflexivity|].
    split; [apply Hlok; lia|]. split; [intros P sz HP Hc; by destruct (covered_none d P sz)|].
    intros P HP a Hra E. cbn. rewrite !mask_land by lia. congruence.
  - rewrite (proj2 (Z.eqb_neq _ _)) by (rewrite minus_one; by apply aligned_not_minus_one with k; [lia|]).
    rewrite Hm, mask_mask by lia.
    destruct (widen_ok 65 (large_page_addr d) v (Z.max j k)) as (k' & Hk' & -> & E); [lia..|].
    cbn [mbind option_bind]. eexists _, _. split; [reflexivity|]. split; [apply Hlok; lia|]. split.
    + intros P sz HP Hc a Ha Hs. specialize (Hc a Ha Hs). rewrite Hm, mask_land in Hc by lia.
      cbn. rewrite !mask_land by lia. f_equal. apply (coarser _ _ k); [lia|].
      pose proof (Z.pow_pos_nonneg 2 k). rewrite <- Hc, Z.div_mul by lia. done.
    + intros P HP a Ha Hs. cbn. rewrite !mask_land by lia. f_equal. rewrite E.
      apply (coarser _ _ j); [lia|]. congruence.
Qed.

(** ** Filling *)

Lemma Forall2_insert_at {A B} (R R' : A -> B -> Prop) l k i x y :
  Forall2 R l k -> R' x y ->
  (forall j a b, j <> i -> l !! j = Some a -> k !! j = Some b -> R a b -> R' a b) ->
  Forall2 R' (<[i := x]> l) (<[i := y]> k).
Proof.
  intros H Hxy Hj. apply Forall2_same_length_lookup_2.
  { rewrite !length_insert. by eapply Forall2_length. }
  intros j a b Ha Hb. apply list_lookup_insert_Some in Ha as [(-> & <- & _)|[Hne Ha]].
  - apply list_lookup_insert_Some in Hb as [(_ & <- & _)|[Hne _]]; done.
  - apply list_lookup_insert_Some in Hb as [(-> & _)|[_ Hb]]; [done|].
    eapply Hj; [done..|]. by eapply Forall2_lookup_lr.
Qed.

Definition install (T : translations) (P : Z) (te : CPUTLBEntry) (io : CPUIOTLBEntry) (sz : Z)
    : translations :=
  fun Q => if decide (Q = P) then Some (te, io, sz) else T Q.

Lemma entry_ok_install T d P te io sz x y :
  is_page P -> entry_ok T d x y -> tlb_hit_page_anyprot m x P = false -> entry_ok (install T P te io sz) d x y.
Proof.
  intros HP [Hs Hx] Hn. split; [done|]. intros Q HQ Hh. unfold install.
  case_decide; [subst; congruence|]. by apply Hx.
Qed.

Lemma entry_ok_desc T d d' x y :
  large_page_addr d' = large_page_addr d -> large_page_mask d' = large_page_mask d ->
  entry_ok T d x y -> entry_ok T d' x y.
Proof.
  intros Ea Em [Hs Hx]. split; [done|]. intros P HP Hh. destruct (Hx P HP Hh) as (sz & E & Hc).
  exists sz. split; [done|]. unfold covered in *. by rewrite Ea, Em.
Qed.

Lemma store_unique tab vt i te tn P Q (evict : bool) vidx :
  is_page P -> is_page Q -> entry_for P tn -> tab !! i = Some te ->
  (forall j x, j <> i -> tab !! j = Some x -> tlb_hit_page_anyprot m x P = false) ->
  Forall (fun x => tlb_hit_page_anyprot m x P = false) vt ->
  (evict = true -> tlb_hit_page_anyprot m te P = false) -> (evict = true -> (vidx < length vt)%nat) ->
  (nhits Q tab + nhits Q vt <= 1)%nat ->
  (nhits Q (<[i := tn]> tab) + nhits Q (if evict then <[vidx := te]> vt else vt) <= 1)%nat.
Proof.
  intros HP HQ Htn Hte Hoth Hnv Hev Hvi Hu. rewrite Forall_lookup in Hnv.
  pose proof (nhits_insert Q tab i te tn Hte) as E1. destruct (decide (Q = P)) as [-> |HQne].
  - assert (nhits P vt = 0%nat) as Z0 by (by apply nhits_zero).
    assert (nhits P (<[i := tn]> tab) <= 1)%nat as L1.
    { apply (nhits_slot P _ i). intros j x Hj Hh.
      apply list_lookup_insert_Some in Hj as [(<- & _ & _)|[Hne Hj]]; [done|].
      by rewrite (Hoth j x) in Hh. }
    destruct evict; [|lia]. specialize (Hev eq_refl).
    rewrite (nhits_zero P (<[vidx := te]> vt)); [lia|]. intros j x Hj.
    apply list_lookup_insert_Some in Hj as [(-> & <- & _)|[Hne Hj]]; [done|by eapply Hnv].
  - destruct (tlb_hit_page_anyprot m tn Q) eqn:Eq; [by destruct HQne; apply (entry_for_hit P Q tn)|].
    destruct evict; [|lia].
    destruct (lookup_lt_is_Some_2 vt vidx) as [x Hx]; [by apply Hvi|].
    pose proof (nhits_insert Q vt vidx x te Hx). lia.
Qed.

(** The entry at the slot of [P] is replaced, and may have been moved to the
    victims. *)
Lemma store_ok n n' T t P tn io sz d' (evict : bool) te old vidx :
  mode_ok n T t -> is_page P -> entry_for P tn -> (ps < sz -> covered (desc t) P sz) -> no_victim P t ->
  fast_table (fast t) !! tlb_index m (fast t) P = Some te ->
  iotlb (desc t) !! tlb_index m (fast t) P = Some old ->
  (evict = true -> tlb_hit_page_anyprot m te P = false) ->
  vtable d' = (if evict then <[vidx := te]> (vtable (desc t)) else vtable (desc t)) ->
  viotlb d' = (if evict then <[vidx := old]> (viotlb (desc t)) else viotlb (desc t)) ->
  iotlb d' = <[tlb_index m (fast t) P := io]> (iotlb (desc t)) ->
  large_page_addr d' = large_page_addr (desc t) -> large_page_mask d' = large_page_mask (desc t) ->
  used_ok n' d' -> (evict = true -> (vidx < 8)%nat) ->
  mode_ok n' (install T P tn io sz)
    (mk_mode d' (mk_fast (fast_mask (fast t)) (<[tlb_index m (fast t) P := tn]> (fast_table (fast t))))).
Proof.
  intros Hok HP Htn Hc Hnv Hte Hold Hev Ev Evio Eio Ea Em Hn Hvi.
  pose proof Hok as [[k Hk] Hv Hl _ Hm Hvt Hsl Hu].
  remember (tlb_index m (fast t) P) as i eqn:Ei.
  assert (entry_ok T (desc t) te old) as Hte_ok by exact (Forall2_lookup_lr _ _ _ _ _ _ Hm Hte Hold).
  assert (shaped tn) as Hsh by (by exists P).
  assert (forall j x, j <> i -> fast_table (fast t) !! j = Some x -> tlb_hit_page_anyprot m x P = false) as Hoth.
  { intros j x Hj Hx. apply not_true_iff_false. intros Hh. apply Hj. rewrite Ei. by apply (Hsl j x P). }
  assert (forall l k, Forall2 (entry_ok (install T P tn io sz) (desc t)) l k ->
                      Forall2 (entry_ok (install T P tn io sz) d') l k) as Hd.
  { intros l k' HF. apply (Forall2_impl _ _ _ _ HF). intros x y. by apply entry_ok_desc. }
  assert (forall Q, is_page Q -> tlb_hit_page_anyprot m tn Q = true -> Q = P) as HQP
    by (intros Q HQ Hh; by apply (entry_for_hit P Q tn)).
  unfold no_victim in Hnv. pose proof Hnv as Hnv'. rewrite Forall_lookup in Hnv'.
  constructor; cbn [desc fast fast_table fast_mask].
  - exists k. destruct Hk as (? & ? & ?). split; [done|]. cbn. by rewrite length_insert.
  - rewrite Ev. destruct evict; [by rewrite length_insert|done].
  - unfold large_ok in *. by rewrite Ea, Em.
  - done.
  - apply Hd. rewrite Eio. eapply Forall2_insert_at; [exact Hm| |].
    + split; [done|]. intros Q HQ Hh. rewrite (HQP Q HQ Hh). exists sz. split; [|done].
      unfold install. by rewrite decide_True by done.
    + intros j x y Hj Hx _ Hxy. apply entry_ok_install; [done|done|by eapply Hoth].
  - apply Hd. rewrite Ev, Evio. assert (Forall2 (entry_ok (install T P tn io sz) (desc t)) (vtable (desc t)) (viotlb (desc t))) as HF.
    { apply Forall2_same_length_lookup_2; [by eapply Forall2_length|]. intros j x y Hx Hy.
      apply entry_ok_install; [done| |by eapply Hnv']. exact (Forall2_lookup_lr _ _ _ _ _ _ Hvt Hx Hy). }
    destruct evict; [|done]. eapply Forall2_insert_at; [exact HF| |done]. apply entry_ok_install; [done..|].
    by apply Hev.
  - intros j x Q Hj HQ Hh. change (j = tlb_index m (fast t) Q).
    apply list_lookup_insert_Some in Hj as [(<- & <- & _)|[Hne Hj]]; [by rewrite (HQP Q HQ Hh)|].
    by apply (Hsl j x Q).
  - intros Q HQ. rewrite Ev. apply (store_unique _ _ i te tn P); try done; [|by apply Hu].
    rewrite Hv. exact Hvi.
Qed.

(** Filling stores the entry at its slot and succeeds. *)
Lemma refill_ok n T t P tn io sz :
  mode_ok n T t -> is_page P -> entry_for P tn -> (ps < sz -> covered (desc t) P sz) ->
  exists t', refill m t P tn io = Some t' /\ mode_ok (n + 10) (install T P tn io sz) t' /\
    fast_table (fast t') !! tlb_index m (fast t') P = Some tn.
Proof.
  intros Hok HP Htn Hc. destruct (mo_size _ _ _ Hok) as [k Hk]. unfold refill.
  pose proof (index_lt t k P Hk) as Hi. destruct (lookup_lt_is_Some_2 _ _ Hi) as [te Hte]. rewrite Hte.
  cbn [mbind option_bind]. destruct (flush_vtlb_ok n T t P Hok HP) as (Hok1 & Hnv & Ef & _).
  destruct (flush_vtlb_large t P) as [Ea Em].
  set (t1 := tlb_flush_vtlb_page_locked m t P) in *. clearbody t1.
  assert (exists old, iotlb (desc t1) !! tlb_index m (fast t) P = Some old) as [old Hold].
  { apply lookup_lt_is_Some_2. rewrite <- (Forall2_length _ _ _ (mo_main _ _ _ Hok1)), Ef. done. }
  rewrite Hold. cbn [mbind option_bind]. rewrite <- Ef in *.
  set (ev := negb _ && negb _). eexists. split; [reflexivity|]. split.
  - eapply (store_ok (n + 8) _ T t1 P tn io sz _ ev te old (Z.to_nat (vindex (desc t1) mod 8)));
      try done; cycle -2.
    + replace (n + 10) with (n + 8 + 1 + 1) by lia. apply (used_change (n + 8 + 1) (set_iotlb _ _) 1 1); [|lia].
      destruct ev; [|apply (used_mono (n + 8)); [lia|apply (mo_used _ _ _ Hok1)]].
      apply (used_change (n + 8) (desc t1) (-1) 1); [apply (mo_used _ _ _ Hok1)|lia].
    + intros _. pose proof (Z.mod_pos_bound (vindex (desc t1)) 8). lia.
    + intros H. unfold covered. rewrite Ea, Em. by apply Hc.
    + unfold ev. intros H. by bool_to_prop.
    + by destruct ev.
    + by destruct ev.
    + by destruct ev.
    + by destruct ev.
    + by destruct ev.
  - change (<[tlb_index m (fast t1) P := tn]> (fast_table (fast t1)) !! tlb_index m (fast t1) P = Some tn).
    by rewrite list_lookup_insert_eq.
Qed.

(** ** The victim lookup *)

Lemma find_victim_spec a P l :
  match find_victim a P l with
  | Some v => exists te, l !! v = Some te /\ tlb_read_ofs te a = P
  | None => Forall (fun te => tlb_read_ofs te a <> P) l
  end.
Proof.
  induction l as [|x l IH]; cbn [find_victim]; [constructor|]. case_if.
  - exists x. done.
  - destruct (find_victim a P l) as [v|]; [done|]. by constructor.
Qed.

Lemma page_hits_self P : is_page P -> tlb_hit_page m P P = true.
Proof.
  intros HP. pose proof (page_split P 0 HP ltac:(pose proof (ps_range tg Hbits); lia)) as [Hr E].
  rewrite Z.add_0_r in *. apply hit_iff; [done..|]. split; [done|].
  pose proof (flag_range 1 ltac:(lia)). apply (land_low bits); [lia|apply HP|].
  unfold TLB_INVALID_MASK. lia.
Qed.

Lemma read_hits a te P : tlb_hit_page m (tlb_read_ofs te a) P = true -> tlb_hit_page_anyprot m te P = true.
Proof. unfold tlb_hit_page_anyprot. destruct a; cbn; intros ->; by rewrite ?orb_true_r. Qed.

(** The two entries swap places. *)
Lemma victim_hit_ok n T t a P :
  mode_ok n T t -> is_page P ->
  exists r, victim_tlb_hit t (tlb_index m (fast t) P) a P = Some r /\
    match r with
    | Some t' => mode_ok n T t' /\ fast_mask (fast t') = fast_mask (fast t) /\
        exists te, fast_table (fast t') !! tlb_index m (fast t) P = Some te /\ tlb_read_ofs te a = P
    | None => Forall (fun te => tlb_read_ofs te a <> P) (vtable (desc t))
    end.
Proof.
  intros Hok HP. pose proof Hok as [[k Hk] Hv Hl Hus Hm Hvt Hsl Hu]. unfold victim_tlb_hit.
  pose proof (find_victim_spec a P (vtable (desc t))) as Hf.
  destruct (find_victim a P (vtable (desc t))) as [v|]; [|by eexists].
  destruct Hf as (tv & Htv & Hr). remember (tlb_index m (fast t) P) as i eqn:Ei.
  destruct (lookup_lt_is_Some_2 (fast_table (fast t)) i) as [te Hte]; [subst i; by eapply index_lt|].
  destruct (Forall2_lookup_l _ _ _ _ _ Hm Hte) as (io & Hio & Hok1).
  destruct (Forall2_lookup_l _ _ _ _ _ Hvt Htv) as (vio & Hvio & Hok2).
  rewrite Hte, Htv, Hio, Hvio. cbn [mbind option_bind]. eexists. split; [reflexivity|]. cbn beta iota.
  assert (tlb_hit_page_anyprot m tv P = true) as HtvP.
  { apply (read_hits a). rewrite Hr. by apply page_hits_self. }
  split; [constructor; cbn [desc fast fast_table fast_mask set_iotlb set_victims vtable viotlb iotlb]|].
  - exists k. destruct Hk as (? & ? & ?). split; [done|]. cbn. by rewrite length_insert.
  - by rewrite length_insert.
  - done.
  - done.
  - eapply Forall2_insert_at; [exact Hm|done|done].
  - eapply Forall2_insert_at; [exact Hvt|done|done].
  - intros j x Q Hj HQ Hh. change (j = tlb_index m (fast t) Q).
    apply list_lookup_insert_Some in Hj as [(<- & <- & _)|[Hne Hj]]; [|by apply (Hsl j x Q)].
    rewrite (shaped_hits tv Q P); [done|apply Hok2|done..].
  - intros Q HQ. specialize (Hu Q HQ). pose proof (nhits_insert Q _ i te tv Hte).
    pose proof (nhits_insert Q _ v tv te Htv). lia.
  - split; [done|]. exists tv. split; [|done]. cbn. apply list_lookup_insert_eq. by eapply lookup_lt_Some.
Qed.

(** ** Dirty marks *)

(** A change of an entry that is not seen by the lookups. *)
Definition harmless (f : CPUTLBEntry -> CPUTLBEntry) : Prop :=
  forall te, shaped te -> shaped (f te) /\
    forall P, is_page P -> tlb_hit_page_anyprot m (f te) P = tlb_hit_page_anyprot m te P.

Definition mark (f : CPUTLBEntry -> CPUTLBEntry) (T : translations) : translations :=
  fun Q => (fun '(te, io, sz) => (f te, io, sz)) <$> T Q.

Lemma nhits_map f l P : harmless f -> is_page P -> Forall shaped l -> nhits P (f <$> l) = nhits P l.
Proof.
  intros Hf HP. induction 1 as [|x l Hx _ IH]; [done|]. cbn. rewrite IH.
  destruct (Hf x Hx) as [_ ->]; done.
Qed.

Lemma entries_shaped T d l k : Forall2 (entry_ok T d) l k -> Forall shaped l.
Proof. induction 1 as [|x y l k [Hx _] _ IH]; by constructor. Qed.

Lemma map_entries_ok n T f t : harmless f -> mode_ok n T t -> mode_ok n (mark f T) (map_entries f t).
Proof.
  intros Hf Hok. pose proof Hok as [[k Hk] Hv Hl Hus Hm Hvt Hsl Hu].
  assert (forall l k', Forall2 (entry_ok T (desc t)) l k' -> Forall2 (entry_ok (mark f T) (desc t)) (f <$> l) k') as Hmap.
  { intros l k' HF. apply Forall2_fmap_l. apply (Forall2_impl _ _ _ _ HF). intros te io [Hs Hx].
    destruct (Hf te Hs) as [Hs' Hh]. split; [done|]. intros P HP. rewrite Hh by done. intros HhP.
    destruct (Hx P HP HhP) as (sz & E & Hc). exists sz. split; [|done]. unfold mark. by rewrite E. }
  pose proof (entries_shaped _ _ _ _ Hm) as Sm. pose proof (entries_shaped _ _ _ _ Hvt) as Sv.
  constructor; cbn [map_entries desc fast fast_table fast_mask set_victims vtable viotlb iotlb]; try done.
  - exists k. destruct Hk as (? & ? & ?). split; [done|]. cbn. by rewrite length_fmap.
  - by rewrite length_fmap.
  - by apply Hmap.
  - by apply Hmap.
  - intros j te P Hj HP Hh. rewrite list_lookup_fmap in Hj. destruct (fast_table (fast t) !! j) as [x|] eqn:E; [|done].
    cbn in Hj. injection Hj as <-. change (j = tlb_index m (fast t) P). apply (Hsl j x P E HP).
    rewrite Forall_lookup in Sm. destruct (Hf x (Sm j x E)) as [_ <-]; done.
  - intros P HP. rewrite !nhits_map by done. by apply Hu.
Qed.

Lemma notdirty_hit x P : tlb_hit_page m (Z.lor x (TLB_NOTDIRTY m)) P = tlb_hit_page m x P.
Proof.
  unfold tlb_hit_page. rewrite (Z.land_lor_distr_l x).
  replace (Z.land (TLB_NOTDIRTY m) (Z.lor (page_mask_of m) (TLB_INVALID_MASK m))) with 0; [by rewrite Z.lor_0_r|].
  rewrite Z.land_lor_distr_r. unfold TLB_INVALID_MASK, TLB_NOTDIRTY. rewrite (flag_disjoint 2 1) by lia.
  rewrite Z.lor_0_r, Z.land_comm. pose proof (flag_range 2 ltac:(lia)). symmetry. apply (land_low bits); [lia| |lia].
  unfold page_mask_of. rewrite page_mask by lia. rewrite long_ps.
  rewrite <- (Z.mul_1_l ps) at 2. rewrite <- Z.mul_sub_distr_r. apply Z.mod_mul.
  pose proof (ps_range tg Hbits). lia.
Qed.

Lemma write_hits te w : (forall P, is_page P -> tlb_hit_page m w P = tlb_hit_page m (addr_write te) P) ->
  forall P, is_page P -> tlb_hit_page_anyprot m (entry_with_write te w) P = tlb_hit_page_anyprot m te P.
Proof. intros H P HP. unfold tlb_hit_page_anyprot, entry_with_write. cbn. by rewrite H. Qed.

Lemma plain_not_minus_one te : write_plain m te = true -> addr_write te <> tulong m (-1).
Proof.
  unfold write_plain. intros E. bool_to_prop. intros E1. rewrite E1, minus_one, Z.land_lor_distr_r in E.
  apply Z.lor_eq_0_iff in E as [E _]. revert E. rewrite Z.land_comm.
  replace (2 ^ long - 1) with (Z.ones long) by (rewrite Z.ones_equiv; lia). rewrite Z.land_ones by lia.
  destruct (flag_range 1 ltac:(lia)) as [Hf Hp].
  pose proof (Z.pow_le_mono_r 2 bits long ltac:(lia) ltac:(lia)).
  unfold TLB_INVALID_MASK. rewrite Z.mod_small; lia.
Qed.

Lemma mark_dirty_ok te (b : bool) :
  shaped te -> write_plain m te = true ->
  shaped (if b then entry_with_write te (Z.lor (addr_write te) (TLB_NOTDIRTY m)) else te) /\
  forall P, is_page P ->
    tlb_hit_page_anyprot m (if b then entry_with_write te (Z.lor (addr_write te) (TLB_NOTDIRTY m)) else te) P
    = tlb_hit_page_anyprot m te P.
Proof.
  intros (P & HP & Hr & Hw & Hc) Hp. destruct b; [|split; [by exists P|done]]. split.
  - exists P. split; [done|]. split; [done|]. split; [|done]. right. cbn.
    apply flagged_lor; [done|by apply flag_small; lia|].
    destruct Hw as [Hw|Hw]; [|done]. by destruct (plain_not_minus_one te Hp).
  - apply write_hits. intros Q _. apply notdirty_hit.
Qed.

Lemma reset_dirty_harmless start len : harmless (tlb_reset_dirty_range_locked m start len).
Proof.
  intros te Hs. unfold tlb_reset_dirty_range_locked. destruct (write_plain m te) eqn:E; [|done].
  by apply mark_dirty_ok.
Qed.

Lemma reset_dirty_vaddr_harmless start len : harmless (tlb_reset_dirty_range_by_vaddr_locked m start len).
Proof.
  intros te Hs. unfold tlb_reset_dirty_range_by_vaddr_locked. destruct (write_plain m te) eqn:E; [|done].
  by apply mark_dirty_ok.
Qed.

(** An entry marked for a page answers for it. *)
Lemma marked_hits te v : is_page v -> addr_write te = Z.lor v (TLB_NOTDIRTY m) -> tlb_hit_page_anyprot m te v = true.
Proof. intros Hv E. apply (read_hits MMU_DATA_STORE). cbn. by rewrite E, notdirty_hit, page_hits_self. Qed.

Lemma set_dirty_harmless v : is_page v -> harmless (tlb_set_dirty1_locked m v).
Proof.
  intros Hv te (P & HP & He). unfold tlb_set_dirty1_locked. case_if; [|split; [by exists P|done]].
  assert (v = P) as <- by (apply (entry_for_hit P v te); try done; by apply marked_hits).
  destruct He as (Hr & Hw & Hc). split.
  - exists v. split; [done|]. split; [done|]. split; [|done]. right. apply flagged_self.
  - apply write_hits. intros Q _.
    match goal with H : addr_write te = _ |- _ => rewrite H end. by rewrite notdirty_hit.
Qed.

(** Only the slot of the page can hold an entry marked for it. *)
Lemma set_dirty_slot n T t v : mode_ok n T t -> is_page v ->
  alter (tlb_set_dirty1_locked m v) (tlb_index m (fast t) v) (fast_table (fast t)) =
  tlb_set_dirty1_locked m v <$> fast_table (fast t).
Proof.
  intros Hok Hv. apply list_eq. intros j. rewrite list_lookup_fmap.
  destruct (decide (j = tlb_index m (fast t) v)) as [-> |Hne]; [by rewrite list_lookup_alter_eq|].
  rewrite list_lookup_alter_ne by done. destruct (fast_table (fast t) !! j) as [te|] eqn:E; [|done].
  cbn. f_equal. unfold tlb_set_dirty1_locked. case_if; [|done]. destruct Hne.
  apply (mo_slot _ _ _ Hok j te v E Hv). by apply marked_hits.
Qed.

(** ** Resizing *)

Lemma pow2ceil_eq w : 0 <= w < 2 ^ 62 -> pow2ceil w = 2 ^ Z.log2_up w.
Proof.
  intros Hw. destruct (decide (w = 0)) as [-> |]; [done|]. destruct (decide (w = 1)) as [-> |]; [done|].
  unfold pow2ceil, clz64. rewrite wrap_id by (unfold uint; lia).
  rewrite (proj2 (Z.eqb_neq (w - 1) 0)) by lia.
  pose proof (Z.log2_nonneg (w - 1)) as H0. pose proof (Z.log2_lt_pow2 (w - 1) 62 ltac:(lia)) as H1.
  rewrite (proj2 (Z.eqb_neq (63 - Z.log2 (w - 1)) 0)) by lia.
  rewrite Z.log2_up_eqn, <- Z.sub_1_r by lia. change 0x8000000000000000 with (2 ^ 63).
  rewrite Z.shiftr_div_pow2, <- Z.pow_sub_r by lia. f_equal. lia.
Qed.

Lemma pow2_max a b : 0 <= a -> 0 <= b -> Z.max (2 ^ a) (2 ^ b) = 2 ^ Z.max a b.
Proof.
  intros Ha Hb. destruct (Z.max_spec a b) as [[? ->]|[? ->]].
  - apply Z.max_r, Z.pow_le_mono_r; lia.
  - apply Z.max_l, Z.pow_le_mono_r; lia.
Qed.

Lemma pow2_min a b : 0 <= a -> 0 <= b -> Z.min (2 ^ a) (2 ^ b) = 2 ^ Z.min a b.
Proof.
  intros Ha Hb. destruct (Z.min_spec a b) as [[? ->]|[? ->]].
  - apply Z.min_l, Z.pow_le_mono_r; lia.
  - apply Z.min_r, Z.pow_le_mono_r; lia.
Qed.

(** The rate of a counter that ran below zero is above any threshold. *)
Lemma negative_rate y k : - 2 ^ 56 <= y < 0 -> 0 <= k <= 22 -> 70 < u64 (u64 y * 100) / 2 ^ k.
Proof.
  intros Hy Hk. unfold wrap. rewrite Zmult_mod_idemp_l.
  rewrite <- (Z.mod_unique (y * 100) (2 ^ 64) (-1) (2 ^ 64 + y * 100)) by lia.
  pose proof (Z.pow_le_mono_r 2 k 22 ltac:(lia) ltac:(lia)). pose proof (Z.pow_pos_nonneg 2 k).
  apply Z.lt_le_trans with (2 ^ 63 / 2 ^ 22); [vm_compute; done|].
  apply Z.div_le_lower_bound; [lia|]. change (2 ^ 63 / 2 ^ 22) with (2 ^ 41). nia.
Qed.

(** The new size is a power of two within the limits, and the division by the
    rounded use is never one by zero. *)
Lemma new_size_ok d k now n :
  CPU_TLB_DYN_MIN_BITS <= k <= CPU_TLB_DYN_MAX_BITS m -> used_ok n d -> n < 2 ^ 56 ->
  exists w j, tlb_new_size m d (2 ^ k) now = Some (set_window (window_begin_ns d) w d, 2 ^ j) /\
    CPU_TLB_DYN_MIN_BITS <= j <= CPU_TLB_DYN_MAX_BITS m /\
    (exists y, Z.abs y <= n /\ w = u64 y).
Proof.
  intros Hk [(x & Hx & Ex) (y & Hy & Ey)] Hn. unfold CPU_TLB_DYN_MIN_BITS in *.
  pose (d1 := if window_max_entries d <? n_used_entries d
              then set_window (window_begin_ns d) (n_used_entries d) d else d).
  assert (exists z, Z.abs z <= n /\ window_max_entries d1 = u64 z /\
    d1 = set_window (window_begin_ns d) (u64 z) d) as (z & Hz & Ez & Ed).
  { unfold d1. destruct (_ <? _); [exists x|exists y]; rewrite ?Ex, <- ?Ey; by destruct d. }
  unfold tlb_new_size. fold d1. cbv zeta. rewrite Ez, Ed.
  assert (forall j, 6 <= j <= CPU_TLB_DYN_MAX_BITS m ->
    exists w j', Some (set_window (window_begin_ns d) (u64 z) d, 2 ^ j) =
      Some (set_window (window_begin_ns d) w d, 2 ^ j') /\ 6 <= j' <= CPU_TLB_DYN_MAX_BITS m /\
      (exists y, Z.abs y <= n /\ w = u64 y)) as Hgo.
  { intros j Hj. exists (u64 z), j. split; [done|]. split; [done|]. by exists z. }
  pose proof (Z.pow_pos_nonneg 2 k ltac:(lia) ltac:(lia)) as Hp. case_if.
  - rewrite Z.shiftl_mul_pow2, (Z.shiftl_1_l (CPU_TLB_DYN_MAX_BITS m)), <- Z.pow_add_r by lia.
    pose proof (Z.pow_le_mono_r 2 (k + 1) 23 ltac:(lia) ltac:(lia)).
    rewrite (wrap_id 64 (2 ^ (k + 1))) by (unfold uint; pose proof (Z.pow_pos_nonneg 2 (k + 1)); lia).
    rewrite pow2_min by lia. apply Hgo. lia.
  - destruct (decide (z < 0)) as [Hneg|Hpos].
    { pose proof (negative_rate z k ltac:(lia) ltac:(lia)). lia. }
    rewrite (wrap_id 64 z) in * by (unfold uint; lia).
    rewrite (wrap_id 64 (z * 100)) in * by (unfold uint; lia).
    case_if; [|by apply Hgo].
    assert (z * 100 < 30 * 2 ^ k) as Hlt.
    { pose proof (Z.mul_succ_div_gt (z * 100) (2 ^ k)). nia. }
    rewrite pow2ceil_eq by lia. pose proof (Z.log2_up_nonneg z) as Hc0.
    assert (Z.log2_up z + 1 <= k) as Hck.
    { destruct (decide (z <= 1)); [rewrite Z.log2_up_eqn0 by lia; lia|].
      pose proof (Z.log2_up_spec z ltac:(lia)) as [Hs _].
      assert (2 ^ Z.pred (Z.log2_up z) < 2 ^ (k - 1)) as HH.
      { replace (2 ^ k) with (2 * 2 ^ (k - 1)) in * by (rewrite <- Z.pow_succ_r by lia; f_equal; lia). lia. }
      apply Z.pow_lt_mono_r_iff in HH; lia. }
    set (c := Z.log2_up z) in *. pose proof (Z.pow_pos_nonneg 2 c ltac:(lia) ltac:(lia)) as Hcp.
    rewrite (proj2 (Z.eqb_neq (2 ^ c) 0)) by lia.
    assert (exists c', 0 <= c' <= k /\
      (if 70 <? z * 100 / 2 ^ c then u64 (2 ^ c * 2) else 2 ^ c) = 2 ^ c') as (c' & Hc' & ->).
    { destruct (70 <? _); [exists (c + 1)|exists c]; [|split; [lia|done]].
      split; [lia|]. rewrite Z.pow_add_r by lia. apply wrap_id. unfold uint.
      pose proof (Z.pow_le_mono_r 2 c 22 ltac:(lia) ltac:(lia)). lia. }
    change (Z.shiftl 1 CPU_TLB_DYN_MIN_BITS) with (2 ^ 6). rewrite pow2_max by lia. apply Hgo. lia.
Qed.

Section flush.
Context (alloc_ok : Z -> bool) (junk : Z -> CPUTLBEntry) (iojunk : Z -> CPUIOTLBEntry).
(** The smallest table can always be allocated. *)
Context (Halloc : alloc_ok (2 ^ CPU_TLB_DYN_MIN_BITS) = true).

Lemma alloc_ok_min fuel j :
  CPU_TLB_DYN_MIN_BITS <= j -> j - CPU_TLB_DYN_MIN_BITS < Z.of_nat fuel ->
  exists i, alloc_tlb fuel alloc_ok (2 ^ j) = Some (2 ^ i) /\ CPU_TLB_DYN_MIN_BITS <= i <= j.
Proof.
  unfold CPU_TLB_DYN_MIN_BITS in *. revert j. induction fuel as [|fuel IH]; intros j Hj Hf; [lia|].
  cbn [alloc_tlb]. destruct (alloc_ok (2 ^ j)) eqn:E; [by exists j; split; [|lia]|].
  change (Z.shiftl 1 CPU_TLB_DYN_MIN_BITS) with (2 ^ 6).
  destruct (decide (j = 6)) as [-> |]; [congruence|].
  rewrite (proj2 (Z.eqb_neq (2 ^ j) (2 ^ 6))) by (intros EE; apply Z.pow_inj_r in EE; lia).
  rewrite Z.shiftr_div_pow2, <- Z.pow_sub_r, pow2_max by lia.
  destruct (IH (Z.max (j - 1) 6)) as (i & Hi & ?); [lia..|]. exists i. split; [exact Hi|lia].
Qed.

(** A flush of a mode succeeds and empties it. *)
Lemma flush_one_ok n T T' t now :
  mode_ok n T t -> n < 2 ^ 56 ->
  exists t', tlb_flush_one_mmuidx_locked m alloc_ok junk iojunk now t = Some t' /\
    mode_ok n T' t' /\ mode_empty t'.
Proof.
  intros [[k Hk] Hv Hl Hu Hm Hvt _ _] Hn. assert (0 <= n) as Hn0 by (destruct Hu as [(x & ? & _) _]; lia).
  pose proof (Forall2_length _ _ _ Hvt) as Lv. pose proof (Forall2_length _ _ _ Hm) as Lm.
  unfold tlb_flush_one_mmuidx_locked, tlb_mmu_resize_locked. rewrite (n_entries t k Hk).
  pose proof Hk as (Hr & Em & HL).
  destruct (new_size_ok (desc t) k now n Hr Hu Hn) as (w & j & -> & Hj & Hw). cbn [mbind option_bind].
  case_if; cbn [mbind option_bind].
  - eexists. split; [reflexivity|]. apply flush_ok with k; [done|..].
    + destruct (_ <? now); cbn; lia.
    + destruct (_ <? now); cbn; lia.
    + done.
    + destruct Hu as [Hu _]. destruct (_ <? now); cbn; done.
  - destruct (alloc_ok_min 64 j) as (i & -> & Hi); [lia|unfold CPU_TLB_DYN_MIN_BITS; lia|].
    cbn [mbind option_bind]. eexists. split; [reflexivity|]. unfold CPU_TLB_DYN_MIN_BITS in *.
    pose proof (Z.pow_pos_nonneg 2 i ltac:(lia) ltac:(lia)).
    apply flush_ok with i; cbn [desc fast iotlb viotlb set_iotlb tlb_window_reset set_window].
    + split; [unfold CPU_TLB_DYN_MIN_BITS; lia|]. cbn [fast fast_mask fast_table].
      rewrite length_fmap, length_seqZ. split; [|lia].
      apply wrap_id. unfold CPU_TLB_ENTRY_BITS. rewrite Z.shiftl_mul_pow2 by lia.
      pose proof (Z.pow_le_mono_r 2 i 22 ltac:(lia) ltac:(lia)). unfold uint. lia.
    + rewrite length_fmap, length_seqZ. lia.
    + lia.
    + done.
    + exists 0. split; [lia|done].
Qed.

(** ** Flushing a page *)

(** The page [P] and every page that was part of a large page around it are
    forgotten. *)
Definition forget_page (P : Z) (T : translations) : translations :=
  fun Q => match T Q with
           | Some (te, io, sz) =>
             if decide (Q / Z.max sz ps = P / Z.max sz ps) then None else Some (te, io, sz)
           | None => None
           end.

Lemma forget_page_keeps n T t P te Q :
  mode_ok n T t -> is_page P -> is_page Q ->
  Z.land P (large_page_mask (desc t)) <> large_page_addr (desc t) ->
  te ∈ fast_table (fast t) ++ vtable (desc t) -> tlb_hit_page_anyprot m te Q = true ->
  tlb_hit_page_anyprot m te P = false -> forget_page P T Q = T Q.
Proof.
  intros Hok HP HQ Hlp Hin Hh Hn. pose proof (ps_range tg Hbits).
  assert (exists io, entry_ok T (desc t) te io) as (io & _ & Hx).
  { apply elem_of_app in Hin as [Hin|Hin]; apply list_elem_of_lookup in Hin as [j Hj].
    - destruct (Forall2_lookup_l _ _ _ _ _ (mo_main _ _ _ Hok) Hj) as (io & _ & ?). by exists io.
    - destruct (Forall2_lookup_l _ _ _ _ _ (mo_vict _ _ _ Hok) Hj) as (io & _ & ?). by exists io. }
  destruct (Hx Q HQ Hh) as (sz & E & Hc). unfold forget_page. rewrite E. case_decide as Hd; [|done].
  exfalso. destruct (Z.max_spec sz ps) as [[Hlt Em]|[Hlt Em]]; rewrite Em in Hd.
  - destruct HP as [HP Hm], HQ as [HQ Hm'].
    assert (Q = P) by (rewrite (Z.div_mod P ps), (Z.div_mod Q ps) by lia; congruence). congruence.
  - destruct (decide (sz = ps)) as [-> |].
    + destruct HP as [HP Hm], HQ as [HQ Hm'].
      assert (Q = P) by (rewrite (Z.div_mod P ps), (Z.div_mod Q ps) by lia; congruence). congruence.
    + apply Hlp. apply Hc; [lia|apply HP|done].
Qed.

Lemma flush_page_ok n T t P now :
  mode_ok n T t -> n < 2 ^ 56 -> is_page P ->
  exists t', tlb_flush_page_locked m (tlb_flush_one_mmuidx_locked m alloc_ok junk iojunk now) t P = Some t' /\
    mode_ok (n + 9) (forget_page P T) t'.
Proof.
  intros Hok Hn HP. unfold tlb_flush_page_locked. case_if.
  { destruct (flush_one_ok n T (forget_page P T) t now Hok Hn) as (t' & E & H & _).
    exists t'. split; [exact E|]. by apply (mode_mono n); [lia|]. }
  destruct (mo_size _ _ _ Hok) as [k Hk]. pose proof (index_lt t k P Hk) as Hi.
  destruct (lookup_lt_is_Some_2 _ _ Hi) as [te Hte]. rewrite Hte. cbn [mbind option_bind].
  set (r := tlb_flush_entry_locked m te P).
  assert (emptied te r.1 /\ tlb_hit_page_anyprot m r.1 P = false) as [He Hn1].
  { unfold r, tlb_flush_entry_locked. destruct (tlb_hit_page_anyprot m te P) eqn:E; cbn.
    - split; [by right|by apply empty_no_hit].
    - split; [by left|done]. }
  destruct r as [te1 b]. cbn [fst] in *. set (t1 := mk_mode _ _). eexists. split; [reflexivity|].
  assert (mode_ok (n + 1) T t1) as Hok1.
  { apply (mode_emptied n T _ _ t); try done; try (by destruct b); cbn.
    - by eapply emptied_insert.
    - destruct b; apply emptied_refl.
    - destruct b; [|apply (used_mono n); [lia|apply (mo_used _ _ _ Hok)]].
      apply (used_change n (desc t) (-1) 1); [apply (mo_used _ _ _ Hok)|lia]. }
  destruct (flush_vtlb_ok (n + 1) T t1 P Hok1 HP) as (Hok2 & Hnv & Ef & _).
  destruct (flush_vtlb_large t1 P) as [Ea Em].
  set (t2 := tlb_flush_vtlb_page_locked m t1 P) in *. clearbody t2.
  replace t2 with (mk_mode (desc t2) (fast t2)) by (by destruct t2).
  apply (mode_emptied (n + 1 + 8) T _ _ t2); try done; try apply emptied_refl.
  { replace (n + 9) with (n + 1 + 8) by lia. apply (mo_used _ _ _ Hok2). }
  intros x Q Hin HQ Hh. apply (forget_page_keeps _ T t2 P x Q Hok2); try done.
  { rewrite Ea, Em. unfold t1. by destruct b. }
  apply elem_of_app in Hin as [Hin|Hin].
  - apply not_true_iff_false. intros HhP. apply list_elem_of_lookup in Hin as [j Hj].
    pose proof (mo_slot _ _ _ Hok2 j x P Hj HP HhP) as ->. rewrite Ef in Hj.
    unfold t1 in Hj. cbn [fast fast_table] in Hj. change (tlb_index m (mk_fast _ _) P) with (tlb_index m (fast t) P) in Hj.
    rewrite list_lookup_insert_eq in Hj by done. congruence.
  - unfold no_victim in Hnv. rewrite Forall_forall in Hnv. by apply Hnv.
Qed.

(** ** The whole TLB *)

(** What is installed in every mode. *)
Definition installed := nat -> translations.

Definition tlb_ok (n : Z) (S : installed) (tlb : CPUTLB) : Prop :=
  length (modes tlb) = NB_MMU_MODES m /\ uint (Z.of_nat (NB_MMU_MODES m)) (tlb_dirty tlb) /\
  forall i t, modes tlb !! i = Some t ->
    mode_ok n (S i) t /\ (Z.testbit (tlb_dirty tlb) (Z.of_nat i) = false -> mode_empty t).

Definition on_mode (i : nat) (T : translations) (S : installed) : installed :=
  fun j => if decide (j = i) then T else S j.

(** Nothing is installed in the modes of the set. *)
Definition forget_modes (asked : Z) (S : installed) : installed :=
  fun i => if Z.testbit asked (Z.of_nat i) then fun _ => None else S i.

Definition forget_page_in (idxmap P : Z) (S : installed) : installed :=
  fun i => if Z.testbit idxmap (Z.of_nat i) then forget_page P (S i) else S i.

Lemma mode_empty_any n T T' t : mode_ok n T t -> mode_empty t -> mode_ok n T' t.
Proof.
  intros Hok He. replace t with (mk_mode (desc t) (fast t)) by (by destruct t).
  apply (mode_emptied n T _ _ t); try done; try apply emptied_refl; [apply (mo_used _ _ _ Hok)|].
  intros te P Hin HP Hh. by rewrite (He te P) in Hh.
Qed.

(** *** The loop over the modes to clean *)

(** [work &= work - 1] clears the lowest bit. *)
Lemma clear_lowest w i j :
  0 < w -> 0 <= i -> Z.testbit w i = true -> (forall j, 0 <= j < i -> Z.testbit w j = false) -> 0 <= j ->
  Z.testbit (Z.land w (w - 1)) j = Z.testbit w j && negb (j =? i).
Proof.
  intros Hw Hi Hb Hlow Hj. rewrite Z.land_spec.
  assert (w mod 2 ^ i = 0) as Hm.
  { apply Z.bits_inj'. intros k Hk. rewrite Z.bits_0. destruct (decide (k < i)).
    - rewrite Z.mod_pow2_bits_low by lia. by apply Hlow.
    - apply Z.mod_pow2_bits_high. lia. }
  assert (Z.odd (w / 2 ^ i) = true) as Ho.
  { rewrite <- Z.bit0_odd, Z.div_pow2_bits by lia. by rewrite Z.add_0_l. }
  apply Z.odd_spec in Ho as [q Hq]. pose proof (Z.pow_pos_nonneg 2 i ltac:(lia) Hi).
  pose proof (Z.div_mod w (2 ^ i) ltac:(lia)).
  assert ((w - 1) / 2 ^ i = 2 * q) as Hq'.
  { symmetry. apply (Z.div_unique _ _ _ (2 ^ i - 1)); nia. }
  destruct (decide (j < i)) as [Hlt|Hge]; [by rewrite Hlow by lia|].
  replace j with (j - i + i) at 2 by lia. rewrite <- Z.div_pow2_bits, Hq' by lia.
  destruct (decide (j = i)) as [-> |Hne].
  - rewrite Z.eqb_refl, Z.sub_diag, Z.testbit_even_0, andb_false_r. by rewrite andb_false_r.
  - rewrite (proj2 (Z.eqb_neq j i)) by done. cbn [negb]. rewrite andb_true_r.
    replace j with (j - i + i) at 1 3 by lia. rewrite <- Z.div_pow2_bits, Hq by lia.
    replace (j - i) with (Z.succ (j - i - 1)) by lia.
    rewrite Z.testbit_odd_succ, Z.testbit_even_succ by lia. apply andb_diag.
Qed.

(** The loop flushes the modes of [work] and no other. *)
Lemma flush_modes_ok fuel now n work lo l (S : installed) :
  (length l <= 16)%nat -> uint (Z.of_nat (length l)) work ->
  (forall j, 0 <= j < lo -> Z.testbit work j = false) -> 0 <= lo <= 16 -> 17 <= lo + Z.of_nat fuel ->
  (forall i t, l !! i = Some t -> mode_ok n (S i) t) -> n < 2 ^ 56 ->
  exists l', flush_modes m alloc_ok junk iojunk fuel now work l = Some l' /\ length l' = length l /\
    forall i t', l' !! i = Some t' ->
      if Z.testbit work (Z.of_nat i) then mode_ok n (fun _ => None) t' /\ mode_empty t' else l !! i = Some t'.
Proof.
  revert work lo l S. induction fuel as [|fuel IH]; intros work lo l S HL Hw Hlow Hlo Hf Hok Hn; [lia|].
  cbn [flush_modes]. case_if.
  { subst work. exists l. split; [done|]. split; [done|]. intros i t' Hi. by rewrite Z.bits_0. }
  unfold uint in Hw. pose proof (Z.pow_le_mono_r 2 (Z.of_nat (length l)) 16 ltac:(lia) ltac:(lia)).
  destruct (first_set_spec 32 work ltac:(lia)) as (Hi & Hb & Hl). change (first_set 32 work) with (ctz32 work) in *. set (i := ctz32 work) in *.
  assert (i < Z.of_nat (length l)) as Hil.
  { apply Z.lt_nge. intros Hge. rewrite <- (Z.mod_small work (2 ^ Z.of_nat (length l))) in Hb by lia.
    by rewrite Z.mod_pow2_bits_high in Hb by lia. }
  assert (lo <= i) as Hloi.
  { apply Z.le_ngt. intros Hlt. rewrite Hlow in Hb by lia. done. }
  destruct (lookup_lt_is_Some_2 l (Z.to_nat i)) as [t Ht]; [lia|]. rewrite Ht. cbn [mbind option_bind].
  destruct (flush_one_ok n (S (Z.to_nat i)) (fun _ => None) t now (Hok _ _ Ht) Hn) as (t1 & -> & Ht1 & He1).
  cbn [mbind option_bind].
  pose proof (fun j => clear_lowest work i j ltac:(lia) ltac:(lia) Hb Hl) as Hcl.
  destruct (IH (Z.land work (work - 1)) (i + 1) (<[Z.to_nat i := t1]> l)
              (on_mode (Z.to_nat i) (fun _ => None) S)) as (l' & E & Hl' & Hall).
  - by rewrite length_insert.
  - rewrite length_insert. pose proof (land_nonneg_le work (work - 1)). unfold uint. lia.
  - intros j Hj. rewrite Hcl by lia. destruct (decide (j = i)) as [-> |]; [by rewrite Z.eqb_refl, andb_false_r|].
    by rewrite Hl by lia.
  - lia.
  - lia.
  - intros j tj Hj. unfold on_mode. apply list_lookup_insert_Some in Hj as [(<- & <- & _)|[Hne Hj]].
    + by rewrite decide_True.
    + rewrite decide_False by done. by apply Hok.
  - done.
  - exists l'. split; [exact E|]. rewrite length_insert in Hl'. split; [done|]. intros j t' Hj.
    specialize (Hall j t' Hj). rewrite Hcl in Hall by lia.
    destruct (decide (j = Z.to_nat i)) as [-> |Hne].
    + rewrite Z2Nat.id in * by lia. rewrite Hb. rewrite Z.eqb_refl, andb_false_r in Hall.
      rewrite list_lookup_insert_eq in Hall by lia. by injection Hall as <-.
    + rewrite (proj2 (Z.eqb_neq (Z.of_nat j) i)), andb_true_r in Hall by lia.
      destruct (Z.testbit work (Z.of_nat j)); [done|]. by rewrite list_lookup_insert_ne in Hall.
Qed.

(** A flush succeeds, and nothing of the modes asked for answers again. *)
Lemma tlb_flush_by_mmuidx_ok n S tlb now asked :
  tlb_ok n S tlb -> n < 2 ^ 56 -> uint 16 asked ->
  exists tlb', tlb_flush_by_mmuidx m alloc_ok junk iojunk tlb now asked = Some tlb' /\
    tlb_ok n (forget_modes asked S) tlb' /\
    forall i t, modes tlb' !! i = Some t -> Z.testbit asked (Z.of_nat i) = true -> mode_empty t.
Proof.
  intros (HL & Hd & Hok) Hn Ha. unfold tlb_flush_by_mmuidx.
  set (to_clean := Z.land asked (tlb_dirty tlb)).
  assert (uint (Z.of_nat (length (modes tlb))) to_clean) as Hc.
  { unfold uint, to_clean in *. rewrite HL, Z.land_comm. pose proof (land_nonneg_le (tlb_dirty tlb) asked). lia. }
  destruct (flush_modes_ok 17 now n to_clean 0 (modes tlb) S) as (l & -> & Hl & Hall);
    [lia|done|lia|lia|lia|by intros i t Hi; apply Hok|done|]. cbn [mbind option_bind].
  set (all_dirty := Z.land (tlb_dirty tlb) _).
  assert (forall i, (i < NB_MMU_MODES m)%nat -> Z.testbit all_dirty (Z.of_nat i) =
    Z.testbit (tlb_dirty tlb) (Z.of_nat i) && negb (Z.testbit asked (Z.of_nat i))) as Hbit.
  { intros i Hi. unfold all_dirty, wrap. rewrite Z.land_spec, Z.mod_pow2_bits_low by lia.
    rewrite Z.lnot_spec by lia. unfold to_clean. rewrite Z.land_spec.
    by destruct (Z.testbit asked _), (Z.testbit (tlb_dirty tlb) _). }
  assert (uint (Z.of_nat (NB_MMU_MODES m)) all_dirty) as Hda.
  { pose proof (land_nonneg_le (tlb_dirty tlb) (wrap 16 (Z.lnot to_clean))) as Hle. fold all_dirty in Hle.
    unfold uint in *. lia. }
  assert (forall i t, l !! i = Some t ->
    mode_ok n (forget_modes asked S i) t /\ (Z.testbit all_dirty (Z.of_nat i) = false -> mode_empty t) /\
    (Z.testbit asked (Z.of_nat i) = true -> mode_empty t)) as Hm.
  { intros i t Hi. pose proof (lookup_lt_Some _ _ _ Hi) as Hlt. rewrite Hbit by lia.
    specialize (Hall i t Hi). unfold to_clean in Hall. rewrite Z.land_spec in Hall.
    unfold forget_modes. destruct (Z.testbit asked (Z.of_nat i)) eqn:Ea; cbn [andb negb] in *.
    - destruct (Z.testbit (tlb_dirty tlb) (Z.of_nat i)) eqn:Ed; [by destruct Hall|].
      destruct (Hok i t Hall) as [Hm He]. specialize (He Ed).
      split; [by apply (mode_empty_any n (S i))|done].
    - destruct (Hok i t Hall) as [Hm He]. rewrite andb_true_r. done. }
  assert (forall a b c, tlb_ok n (forget_modes asked S) (mk_tlb all_dirty a b c l) /\
    forall i t, l !! i = Some t -> Z.testbit asked (Z.of_nat i) = true -> mode_empty t) as Hres.
  { intros a b c. split; [split; [cbn; lia|split; [done|]]|]; intros i t Hi; destruct (Hm i t Hi) as (? & ? & ?); done. }
  case_if; eexists; (split; [reflexivity|]); apply Hres.
Qed.

Lemma mapM_imap {A} (f : nat * A -> option A) (R : nat -> A -> Prop) l :
  (forall i x, l !! i = Some x -> exists y, f (i, x) = Some y /\ R i y) ->
  exists l', mapM f (imap pair l) = Some l' /\ length l' = length l /\ forall i y, l' !! i = Some y -> R i y.
Proof.
  intros H. destruct (mapM_is_Some_2 f (imap pair l)) as [l' Hl'].
  { apply Forall_lookup. intros i [j x] Hx. rewrite list_lookup_imap in Hx.
    destruct (l !! i) as [z|] eqn:E; [|done]. cbn in Hx. injection Hx as <- <-.
    destruct (H i z E) as (y & Hy & _). by exists y. }
  exists l'. apply mapM_Some_1 in Hl' as HF. split; [done|].
  split; [by rewrite <- (Forall2_length _ _ _ HF), length_imap|].
  intros i y Hy. destruct (Forall2_lookup_r _ _ _ _ _ HF Hy) as ([j x] & Hx & Hf).
  rewrite list_lookup_imap in Hx. destruct (l !! i) as [z|] eqn:E; [|done]. cbn in Hx.
  injection Hx as <- <-. destruct (H i z E) as (y' & Hy' & HR). congruence.
Qed.

Lemma bit_test v i : 0 <= i -> (Z.land (Z.shiftr v i) 1 =? 0) = negb (Z.testbit v i).
Proof.
  intros Hi. change 1 with (Z.ones 1). rewrite Z.land_ones by lia. change (2 ^ 1) with 2.
  rewrite <- Z.bit0_mod, Z.shiftr_spec, Z.add_0_l by lia. by destruct (Z.testbit v i).
Qed.

Lemma tlb_mono n n' S tlb : n <= n' -> tlb_ok n S tlb -> tlb_ok n' S tlb.
Proof.
  intros Hn (HL & Hd & Hok). split; [done|]. split; [done|]. intros i t Hi.
  destruct (Hok i t Hi). split; [by apply (mode_mono n)|done].
Qed.

(** A mode without entries stays so when a page is flushed. *)
Lemma flush_page_empty n T t P now t' :
  mode_ok n T t -> n < 2 ^ 56 -> is_page P -> mode_empty t ->
  tlb_flush_page_locked m (tlb_flush_one_mmuidx_locked m alloc_ok junk iojunk now) t P = Some t' -> mode_empty t'.
Proof.
  intros Hok Hn HP He E te Q Hin HQ. apply not_true_iff_false. intros Hh.
  destruct (flush_page_ok n (fun _ => None) t P now) as (t1 & E1 & Hok1);
    [by apply (mode_empty_any n T)|done..|]. rewrite E in E1. injection E1 as <-.
  apply elem_of_app in Hin as [Hin|Hin]; apply list_elem_of_lookup in Hin as [j Hj].
  - destruct (Forall2_lookup_l _ _ _ _ _ (mo_main _ _ _ Hok1) Hj) as (io & _ & _ & Hx).
    by destruct (Hx Q HQ Hh) as (? & ? & _).
  - destruct (Forall2_lookup_l _ _ _ _ _ (mo_vict _ _ _ Hok1) Hj) as (io & _ & _ & Hx).
    by destruct (Hx Q HQ Hh) as (? & ? & _).
Qed.

Lemma tlb_flush_page_ok n S tlb now addr idxmap :
  tlb_ok n S tlb -> n < 2 ^ 56 -> 0 <= addr < 2 ^ long ->
  exists tlb', tlb_flush_page_by_mmuidx m alloc_ok junk iojunk tlb now addr idxmap = Some tlb' /\
    tlb_ok (n + 9) (forget_page_in idxmap (page_of_addr addr) S) tlb'.
Proof.
  intros (HL & Hd & Hok) Hn Ha. unfold tlb_flush_page_by_mmuidx. fold (page_of_addr addr).
  pose proof (page_of_addr_page addr Ha) as HP.
  destruct (mapM_imap (fun it => if Z.land (Z.shiftr idxmap (Z.of_nat (fst it))) 1 =? 0 then Some (snd it)
      else tlb_flush_page_locked m (tlb_flush_one_mmuidx_locked m alloc_ok junk iojunk now) (snd it) (page_of_addr addr))
    (fun i t => mode_ok (n + 9) (forget_page_in idxmap (page_of_addr addr) S i) t /\
      (Z.testbit (tlb_dirty tlb) (Z.of_nat i) = false -> mode_empty t)) (modes tlb)) as (l & -> & Hl & Hall).
  - intros i t Hi. cbn [fst snd]. rewrite bit_test by lia. destruct (Hok i t Hi) as [Hm He].
    unfold forget_page_in. destruct (Z.testbit idxmap (Z.of_nat i)); cbn [negb].
    + destruct (flush_page_ok n (S i) t (page_of_addr addr) now Hm Hn HP) as (t' & E & Hok').
      exists t'. split; [done|]. split; [done|]. intros Hb.
      by apply (flush_page_empty n (S i) t (page_of_addr addr) now); [done..|apply He|].
    + exists t. split; [done|]. split; [by apply (mode_mono n); [lia|]|done].
  - cbn [mbind option_bind]. eexists. split; [reflexivity|]. split; [cbn; lia|]. by split.
Qed.
End flush.

(** *** Filling *)

(** The sizes a page may have: up to a target page, or a larger power of two. *)
Definition page_size_ok (size : Z) : Prop := size <= ps \/ exists j, size = 2 ^ j /\ bits <= j <= long.

Lemma mode_large_ok n T t a k :
  mode_ok n T t -> large_ok (set_large a k (desc t)) ->
  (forall P sz, is_page P -> covered (desc t) P sz -> covered (set_large a k (desc t)) P sz) ->
  mode_ok n T (mk_mode (set_large a k (desc t)) (fast t)).
Proof.
  intros [Hk Hv Hl Hus Hm Hvt Hsl Hu] Hlo Hc.
  assert (forall l k', Forall2 (entry_ok T (desc t)) l k' -> Forall2 (entry_ok T (set_large a k (desc t))) l k') as Hd.
  { intros l k' HF. apply (Forall2_impl _ _ _ _ HF). intros x y [Hs Hx]. split; [done|]. intros P HP Hh.
    destruct (Hx P HP Hh) as (sz & E & Hcv). exists sz. split; [done|]. intros Hsz. by apply Hc, Hcv. }
  constructor; try done; by apply Hd.
Qed.

Lemma page_translation_entry mi watch dp vaddr paddr attrs prot size tn io dp' :
  0 <= vaddr < 2 ^ long ->
  page_translation m mi watch dp vaddr paddr attrs prot size = Some (tn, io, dp') ->
  entry_for (page_of_addr vaddr) tn.
Proof.
  intros Hv. unfold page_translation.
  destruct (address_space_translate_for_iotlb _ _ _ _ _ _) as [[[[[[p s] xlat] sz] pr] d]|]; [|done].
  cbn [mbind option_bind]. case_if; [done|]. intros [= <- <- <-]. apply new_entry_for.
  by apply page_of_addr_page.
Qed.

Lemma dirty_bit d i : uint (Z.of_nat (NB_MMU_MODES m)) d -> (i < NB_MMU_MODES m)%nat ->
  uint (Z.of_nat (NB_MMU_MODES m)) (wrap 16 (Z.lor d (Z.shiftl 1 (Z.of_nat i)))) /\
  forall j, Z.testbit (wrap 16 (Z.lor d (Z.shiftl 1 (Z.of_nat i)))) (Z.of_nat j) =
    Z.testbit d (Z.of_nat j) || (j =? i)%nat.
Proof.
  intros Hd Hi. rewrite Z.shiftl_1_l.
  assert (uint (Z.of_nat (NB_MMU_MODES m)) (Z.lor d (2 ^ Z.of_nat i))) as Hr.
  { apply lor_bound; [lia|done|]. split; [apply Z.pow_nonneg; lia|apply Z.pow_lt_mono_r; lia]. }
  pose proof (Z.pow_le_mono_r 2 (Z.of_nat (NB_MMU_MODES m)) 16 ltac:(lia) ltac:(lia)).
  rewrite wrap_id by (unfold uint in *; lia). split; [done|]. intros j.
  rewrite Z.lor_spec, Z.pow2_bits_eqb by lia. f_equal.
  destruct (Nat.eqb_spec j i) as [-> |Hne]; [apply Z.eqb_refl|]. apply Z.eqb_neq. lia.
Qed.

(** Filling succeeds when the page can be translated; the entry is stored. *)
Lemma tlb_set_page_ok n S tlb mi watch dp vaddr paddr attrs prot i size tn io dp' :
  tlb_ok n S tlb -> 0 <= vaddr < 2 ^ long -> (i < NB_MMU_MODES m)%nat -> page_size_ok size ->
  page_translation m mi watch dp vaddr paddr attrs prot size = Some (tn, io, dp') ->
  exists tlb', tlb_set_page_with_attrs m mi watch tlb dp vaddr paddr attrs prot i size = Some (tlb', dp') /\
    tlb_ok (n + 10) (on_mode i (install (S i) (page_of_addr vaddr) tn io size) S) tlb' /\
    exists t, modes tlb' !! i = Some t /\
      fast_table (fast t) !! tlb_index m (fast t) (page_of_addr vaddr) = Some tn.
Proof.
  intros (HL & Hd & Hok) Hv Hi Hsz Ht. pose proof (page_of_addr_page vaddr Hv) as HP.
  pose proof (page_translation_entry _ _ _ _ _ _ _ _ _ _ _ Hv Ht) as Hent.
  unfold tlb_set_page_with_attrs. destruct (lookup_lt_is_Some_2 (modes tlb) i) as [t Hti]; [lia|].
  rewrite Hti. cbn [mbind option_bind]. rewrite page_size by lia.
  assert (exists d', (if size <=? ps then Some t
      else d ← tlb_add_large_page m (desc t) vaddr size; Some (mk_mode d (fast t))) = Some (mk_mode d' (fast t)) /\
    mode_ok n (S i) (mk_mode d' (fast t)) /\ (ps < size -> covered d' (page_of_addr vaddr) size))
    as (d' & -> & Hok1 & Hcov).
  { destruct (Hok i t Hti) as [Hm _]. case_if.
    - exists (desc t). split; [by destruct t|]. split; [by destruct t|lia].
    - destruct Hsz as [?|(j & -> & Hj)]; [lia|].
      destruct (add_large_page_ok (desc t) vaddr j (mo_large _ _ _ Hm) Hv Hj) as (a & k & -> & Hlo & Hmono & Hnew).
      cbn [mbind option_bind]. eexists. split; [reflexivity|]. split; [by apply mode_large_ok|].
      intros _. apply Hnew. apply (coarser _ _ bits); [lia|]. rewrite page_of_addr_eq by done.
      apply Z.div_mul. pose proof (ps_range tg Hbits). lia. }
  cbn [mbind option_bind]. rewrite Ht. cbn [mbind option_bind]. fold (page_of_addr vaddr).
  destruct (refill_ok n (S i) _ (page_of_addr vaddr) tn io size Hok1 HP Hent Hcov) as (t' & -> & Hok' & Hlk).
  cbn [mbind option_bind]. destruct (dirty_bit (tlb_dirty tlb) i Hd Hi) as [Hr Hb].
  eexists. split; [reflexivity|]. cbn [with_mode with_dirty modes]. split.
  - split; [cbn; by rewrite length_insert|]. split; [done|]. intros j tj Hj. unfold on_mode. cbn [tlb_dirty].
    cbn [with_mode with_dirty modes tlb_dirty] in *. rewrite Hb.
    apply list_lookup_insert_Some in Hj as [(<- & <- & _)|[Hne Hj]].
    + rewrite decide_True by done. split; [done|]. by rewrite Nat.eqb_refl, orb_true_r.
    + rewrite decide_False by done. destruct (Hok j tj Hj). split; [by apply (mode_mono n); [lia|]|].
      rewrite orb_false_iff. by intros [? _]; auto.
  - exists t'. split; [|done]. apply list_lookup_insert_eq. lia.
Qed.

(** *** Lookups and marks *)

Lemma swap_empty t t' a i P :
  victim_tlb_hit t i a P = Some (Some t') ->
  forall te, te ∈ fast_table (fast t') ++ vtable (desc t') -> te ∈ fast_table (fast t) ++ vtable (desc t).
Proof.
  unfold victim_tlb_hit. intros E. destruct (find_victim a P (vtable (desc t))) as [v|]; [|done].
  inv_opt. cbn in *. intros te Hin. apply elem_of_app in Hin as [Hin|Hin]; apply list_elem_of_lookup in Hin as [j Hj];
    apply list_lookup_insert_Some in Hj as [(_ & <- & _)|[_ Hj]]; apply elem_of_app; eauto using list_elem_of_lookup_2.
Qed.

Lemma lookup_ok n S tlb i t a addr t' :
  tlb_ok n S tlb -> modes tlb !! i = Some t -> 0 <= addr < 2 ^ long ->
  victim_tlb_hit t (tlb_index m (fast t) addr) a (page_of_addr addr) = Some (Some t') ->
  tlb_ok n S (with_mode i t' tlb).
Proof.
  intros (HL & Hd & Hok) Hi Ha Hv. pose proof (page_of_addr_page addr Ha) as HP.
  destruct (Hok i t Hi) as [Hm He]. destruct (mo_size _ _ _ Hm) as [k Hk].
  pose proof (swap_empty _ _ _ _ _ Hv) as Hsub. rewrite (index_page t k) in Hv by done.
  destruct (victim_hit_ok n (S i) t a _ Hm HP) as (r & Hr & Hres). rewrite Hr in Hv. injection Hv as ->.
  destruct Hres as (Hok' & _ & _). split; [cbn; by rewrite length_insert|]. split; [done|].
  intros j tj Hj. cbn in Hj. apply list_lookup_insert_Some in Hj as [(<- & <- & _)|[Hne Hj]]; [|by apply Hok].
  split; [done|]. cbn. intros Hb te Q Hin. apply (He Hb). by apply Hsub.
Qed.

Lemma map_modes_ok n S tlb f (g : mode_tlb -> mode_tlb) :
  tlb_ok n S tlb -> harmless f ->
  (forall i t, modes tlb !! i = Some t -> g t = map_entries f t) ->
  tlb_ok n (fun i => mark f (S i)) (map_modes g tlb).
Proof.
  intros (HL & Hd & Hok) Hf Hg. split; [cbn; by rewrite length_fmap|]. split; [done|]. intros i t Hi.
  cbn in Hi. rewrite list_lookup_fmap in Hi. destruct (modes tlb !! i) as [x|] eqn:E; [|done].
  cbn in Hi. injection Hi as <-. rewrite (Hg i x E). destruct (Hok i x E) as [Hm He].
  split; [by apply map_entries_ok|]. intros Hb te P Hin HP.
  change (te ∈ (f <$> fast_table (fast x)) ++ (f <$> vtable (desc x))) in Hin.
  rewrite <- fmap_app in Hin. apply list_elem_of_fmap in Hin as (y & -> & Hin).
  assert (Forall shaped (fast_table (fast x) ++ vtable (desc x))) as Hs.
  { apply Forall_app. split; [apply (entries_shaped _ _ _ _ (mo_main _ _ _ Hm))|apply (entries_shaped _ _ _ _ (mo_vict _ _ _ Hm))]. }
  rewrite Forall_forall in Hs. destruct (Hf y (Hs y Hin)) as [_ Hh]. rewrite Hh by done. by apply He.
Qed.

Lemma set_dirty_ok n S tlb vaddr :
  tlb_ok n S tlb -> 0 <= vaddr < 2 ^ long ->
  tlb_ok n (fun i => mark (tlb_set_dirty1_locked m (page_of_addr vaddr)) (S i)) (tlb_set_dirty m tlb vaddr).
Proof.
  intros Hok Hv. pose proof (page_of_addr_page vaddr Hv) as HP. unfold tlb_set_dirty.
  fold (page_of_addr vaddr). apply map_modes_ok; [done|by apply set_dirty_harmless|]. intros i t Hi.
  destruct Hok as (_ & _ & Hok). destruct (Hok i t Hi) as [Hm _].
  rewrite (set_dirty_slot _ _ _ _ Hm HP). done.
Qed.
End tlb.
