(* ===== verification/TlbRuns.v ===== *)
(** * Runs of the software TLB

    The operations of [SoftTlb] as steps on a TLB and on the set of
    translations that are installed.  Every run from [tlb_init] keeps the two
    in agreement; the theorems read off what that means for the lookups, the
    flushes, the sizes of the tables, and, with [Dispatch], for the host
    address the emulated program reaches. *)

From S2P Require Import Prelude BitOps FlatView PhysMap Dispatch SoftTlb TlbCoherence.

Section runs.
Context (m : mmu) (alloc_ok : Z -> bool) (junk : Z -> CPUTLBEntry) (iojunk : Z -> CPUIOTLBEntry).

(** ** Steps *)

(** Nothing is installed. *)
Definition nothing : installed := fun _ _ => None.

Inductive tlb_step : installed * CPUTLB -> installed * CPUTLB -> Prop :=
| step_set S tlb mi watch dp vaddr paddr attrs prot i size tn io tlb' dp' :
    0 <= vaddr < 2 ^ TARGET_LONG_BITS (mmu_target m) -> page_size_ok m size ->
    page_translation m mi watch dp vaddr paddr attrs prot size = Some (tn, io, dp') ->
    tlb_set_page_with_attrs m mi watch tlb dp vaddr paddr attrs prot i size = Some (tlb', dp') ->
    tlb_step (S, tlb) (on_mode i (install (S i) (page_of_addr m vaddr) tn io size) S, tlb')
| step_flush S tlb now asked tlb' :
    uint 16 asked ->
    tlb_flush_by_mmuidx m alloc_ok junk iojunk tlb now asked = Some tlb' ->
    tlb_step (S, tlb) (forget_modes asked S, tlb')
| step_flush_page S tlb now addr idxmap tlb' :
    0 <= addr < 2 ^ TARGET_LONG_BITS (mmu_target m) ->
    tlb_flush_page_by_mmuidx m alloc_ok junk iojunk tlb now addr idxmap = Some tlb' ->
    tlb_step (S, tlb) (forget_page_in m idxmap (page_of_addr m addr) S, tlb')
| step_victim S tlb i t a addr t' :
    0 <= addr < 2 ^ TARGET_LONG_BITS (mmu_target m) -> modes tlb !! i = Some t ->
    victim_tlb_hit t (tlb_index m (fast t) addr) a (page_of_addr m addr) = Some (Some t') ->
    tlb_step (S, tlb) (S, with_mode i t' tlb)
| step_reset_dirty S tlb start len :
    tlb_step (S, tlb) (fun i => mark (tlb_reset_dirty_range_locked m start len) (S i),
                       tlb_reset_dirty m tlb start len)
| step_reset_dirty_by_vaddr S tlb start len :
    tlb_step (S, tlb) (fun i => mark (tlb_reset_dirty_range_by_vaddr_locked m start len) (S i),
                       tlb_reset_dirty_by_vaddr m tlb start len)
| step_set_dirty S tlb vaddr :
    0 <= vaddr < 2 ^ TARGET_LONG_BITS (mmu_target m) ->
    tlb_step (S, tlb) (fun i => mark (tlb_set_dirty1_locked m (page_of_addr m vaddr)) (S i),
                       tlb_set_dirty m tlb vaddr).

(** [n] steps from a fresh TLB. *)
Inductive tlb_reach : Z -> installed -> CPUTLB -> Prop :=
| reach_init now : tlb_reach 0 nothing (tlb_init m junk iojunk now)
| reach_step n S tlb S' tlb' :
    tlb_reach n S tlb -> tlb_step (S, tlb) (S', tlb') -> tlb_reach (n + 1) S' tlb'.

Context (Hm : tlb_config m) (Halloc : alloc_ok (2 ^ CPU_TLB_DYN_MIN_BITS) = true).

Abbreviation tg := (mmu_target m).
Abbreviation bits := (TARGET_PAGE_BITS tg).
Abbreviation long := (TARGET_LONG_BITS tg).
Abbreviation ps := (2 ^ bits).

Let Hbits : 1 <= bits <= 16 := tc_bits m Hm.
Let Hlong : 32 <= long <= 64 := tc_long m Hm.
Let Hmin : 6 <= TARGET_PAGE_BITS_MIN m <= bits := tc_min m Hm.
Let Hmax : 8 <= CPU_TLB_DYN_MAX_BITS m <= 22 := tc_max m Hm.
Let Hmodes : (NB_MMU_MODES m <= 16)%nat := tc_modes m Hm.

Lemma tlb_init_ok now : tlb_ok m 0 nothing (tlb_init m junk iojunk now).
Proof.
  split; [apply length_replicate|].
  split; [split; [done|]; apply Z.pow_pos_nonneg; lia|]. intros i t Hi.
  apply lookup_replicate in Hi as [-> _]. unfold tlb_mmu_init.
  edestruct (flush_ok m Hm 0 (nothing i)) as [Hok He]; cycle -1; [by split|..].
  - instantiate (1 := CPU_TLB_DYN_DEFAULT_BITS). split; [unfold CPU_TLB_DYN_MIN_BITS, CPU_TLB_DYN_DEFAULT_BITS; lia|].
    split; [done|]. cbn [fast fast_table]. by rewrite length_fmap, length_seqZ.
  - cbn [desc iotlb]. by rewrite length_fmap, length_seqZ.
  - done.
  - done.
  - by exists 0.
Qed.

Lemma tlb_step_ok n S tlb S' tlb' :
  n < 2 ^ 56 -> tlb_ok m n S tlb -> tlb_step (S, tlb) (S', tlb') -> tlb_ok m (n + 10) S' tlb'.
Proof.
  intros Hn Hok Hst. inversion Hst; subst; clear Hst.
  - assert (i < NB_MMU_MODES m)%nat as Hi.
    { destruct Hok as (<- & _). unfold tlb_set_page_with_attrs in *. inv_opt.
      by eapply lookup_lt_Some. }
    edestruct (tlb_set_page_ok m) as (tlb1 & E & Hok1 & _); [done..|]. congruence.
  - edestruct (tlb_flush_by_mmuidx_ok m) as (tlb1 & E & Hok1 & _); [done..|].
    rewrite E in *. inv_opt. by apply (tlb_mono m Hm n); [lia|].
  - edestruct (tlb_flush_page_ok m) as (tlb1 & E & Hok1); [done..|].
    rewrite E in *. inv_opt. by apply (tlb_mono m Hm (n + 9)); [lia|].
  - apply (tlb_mono m Hm n); [lia|]. by eapply lookup_ok.
  - apply (tlb_mono m Hm n); [lia|]. apply map_modes_ok; [done|by apply reset_dirty_harmless|done].
  - apply (tlb_mono m Hm n); [lia|]. apply map_modes_ok; [done|by apply reset_dirty_vaddr_harmless|done].
  - apply (tlb_mono m Hm n); [lia|]. by apply set_dirty_ok.
Qed.

(** Every reachable state is in agreement with what is installed. *)
Lemma tlb_reach_ok n S tlb : tlb_reach n S tlb -> 0 <= n /\ (n < 2 ^ 50 -> tlb_ok m (10 * n) S tlb).
Proof.
  induction 1 as [now|n S tlb S' tlb' _ [Hn IH] Hst]; [split; [lia|]; intros _; apply tlb_init_ok|].
  split; [lia|]. intros Hlt. replace (10 * (n + 1)) with (10 * n + 10) by lia.
  eapply tlb_step_ok; [lia|apply IH; lia|done].
Qed.

(** ** Lookups *)

Lemma read_addr_hits P te : is_page m P -> addr_read te = P -> tlb_hit_page_anyprot m te P = true.
Proof.
  intros HP E. apply (read_hits m MMU_DATA_LOAD). cbn.
  rewrite E. by apply page_hits_self.
Qed.

Lemma page_offset_mask a : Z.land a (tulong m (Z.lnot (page_mask_of m))) = a mod ps.
Proof.
  apply subpage_idx; apply Hm.
Qed.

(** A load through the entry of its page that is in its slot: the host
    address if it carries no flag; 0 if it carries one, or if the page may not
    be read and it cannot be filled. *)
Lemma vaddr_to_host_ok n S tlb i t addr tn io sz :
  tlb_ok m n S tlb -> modes tlb !! i = Some t -> 0 <= addr < 2 ^ long ->
  fast_table (fast t) !! tlb_index m (fast t) (page_of_addr m addr) = Some tn ->
  S i (page_of_addr m addr) = Some (tn, io, sz) -> entry_for m (page_of_addr m addr) tn ->
  (addr_read tn = page_of_addr m addr ->
   tlb_vaddr_to_host m (fun _ => None) tlb addr MMU_DATA_LOAD i = Some (u64 (addr + te_addend tn), tlb)) /\
  (addr_read tn <> page_of_addr m addr ->
   tlb_vaddr_to_host m (fun _ => None) tlb addr MMU_DATA_LOAD i = Some (0, tlb)).
Proof.
  intros Hok Ht Ha Htn HS He.
  pose proof (page_of_addr_page m Hm addr Ha) as HP. set (P := page_of_addr m addr) in *.
  destruct Hok as (_ & _ & Hok). destruct (Hok i t Ht) as [Hmo _]. destruct (mo_size _ _ _ _ Hmo) as [k Hk].
  assert (tlb_index m (fast t) addr = tlb_index m (fast t) P) as Ei by (by eapply index_page).
  assert (P mod ps = 0) as HPm by apply HP. unfold tlb_vaddr_to_host. rewrite Ht. cbn [mbind option_bind].
  rewrite Ei, Htn. cbn [mbind option_bind tlb_read_ofs]. fold (page_of_addr m addr). fold P. split; intros E.
  - rewrite E, page_hits_self by done. cbn [mbind option_bind]. rewrite Ht. cbn [mbind option_bind].
    rewrite Ei, Htn. cbn [mbind option_bind]. unfold has. by rewrite E, page_offset_mask, HPm.
  - destruct (tlb_hit_page m (addr_read tn) P) eqn:Eh; cbn [mbind option_bind].
    + rewrite Ht. cbn [mbind option_bind]. rewrite Ei, Htn. cbn [mbind option_bind]. unfold has.
      rewrite page_offset_mask. destruct He as ([Hr|(fl & Hfl & Hr)] & _).
      { by rewrite Hr, (minus_one_no_hit m) in Eh. }
      destruct (flag_range m Hm 1 ltac:(lia)) as [_ Hle]. rewrite Hr, Z.add_mod, HPm, Z.add_0_l, Z.mod_mod by lia.
      rewrite (Z.mod_small fl) by lia. by rewrite (proj2 (Z.eqb_neq fl 0)) by lia.
    + unfold victim_tlb_hit. pose proof (find_victim_spec MMU_DATA_LOAD P (vtable (desc t))) as Hf.
      destruct (find_victim MMU_DATA_LOAD P (vtable (desc t))) as [v|]; [|done].
      destruct Hf as (tv & Htv & Er). exfalso.
      destruct (Forall2_lookup_l _ _ _ _ _ (mo_vict _ _ _ _ Hmo) Htv) as (vio & _ & _ & Hx).
      destruct (Hx P HP (read_addr_hits P tv HP Er)) as (sz' & E' & _). cbn in Er. congruence.
Qed.

(** ** Filling from the dispatch structure *)

(** The page of [a] as [tlb_set_page_with_attrs] finds it: when its section
    is RAM, the whole page is served from one region. *)
Lemma translate_page_ok is_ram d sv a plen :
  ready tg d sv -> 0 <= a < 2 ^ 64 -> a mod ps = 0 -> ps <= plen < 2 ^ 64 ->
  (forall n, is_ram (mr_subpage n) = false) -> is_ram mr_unassigned = false ->
  (forall mr off ro, sv a = Some (mr, off, ro) -> 0 <= off < 2 ^ 64) ->
  exists p s xlat plen' d', address_space_lookup_region tg d a false = Some (p, d') /\
    sections d' !! Z.to_nat p = Some s /\
    address_space_translate_internal is_ram tg d a plen false = Some (p, s, xlat, plen', d') /\
    ready tg d' sv /\ ps <= plen' /\
    (is_ram (s_mr s) = true -> exists mr, s_mr s = mr_region mr /\
       forall k, 0 <= k < ps -> sv (a + k) = Some (mr, xlat + k, s_readonly s)).
Proof.
  intros (d0 & hi & t & mru & Hd & Hs & Hw & -> & Hmru) Ha Hal Hplen Hsub Hun Hoff.
  destruct (lookup_page_ok tg Hbits d0 hi sv t mru a Hd Hw Ha Hmru) as (p & m' & El & Ep & Hm').
  pose proof (page_bound tg Hbits a Ha) as Hp. pose proof (pages_bound tg Hbits) as Hpb.
  destruct (d_pages _ _ _ _ Hd (a / ps) ltac:(lia)) as (p' & s & Ep' & _ & Hsec & Hans & Hc).
  assert (p' = p) as -> by congruence. pose proof (Z.div_mod a ps ltac:(lia)) as Hdm.
  assert (address_space_lookup_region tg (with_mru mru (with_table t d0)) a false =
    Some (p, with_mru m' (with_table t d0))) as Elr.
  { unfold address_space_lookup_region. rewrite El. cbn [mbind option_bind sections with_mru with_table].
    rewrite Hsec. cbn [mbind option_bind]. by destruct (s_mr s). }
  unfold address_space_translate_internal. rewrite Elr. cbn [mbind option_bind sections with_mru with_table].
  rewrite Hsec. cbn [mbind option_bind]. destruct (is_ram (s_mr s)) eqn:Er.
  - assert (p <> 0) as Hp0.
    { intros ->. rewrite (d_zero _ _ _ _ Hd : sections d0 !! Z.to_nat 0 = _) in Hsec. injection Hsec as <-.
      cbn in Er. congruence. }
    destruct (Hc Hp0) as (_ & _ & H1 & H2). destruct (d_secs _ _ _ _ Hd _ _ Hsec) as [(? & ? & ?) _].
    rewrite (wrap_id 64 (a - _)) by (unfold uint; lia).
    rewrite get64_Some by lia. cbn [mbind option_bind]. eexists _, s, _, _, _.
    split; [reflexivity|]. split; [exact Hsec|]. split; [reflexivity|]. split; [by exists d0, hi, t, m'|]. split; [lia|]. intros _.
    unfold page_answers in Hans. destruct (s_mr s) as [mr| |n] eqn:Es; [|congruence|by rewrite Hsub in Er].
    exists mr. split; [done|]. intros k Hk.
    assert (sv (a + k) = sec_serves s (a + k)) as Ek.
    { apply Hans. unfold in_page. lia. }
    assert (sv a = sec_serves s a) as E0.
    { apply Hans. unfold in_page. lia. }
    unfold sec_serves in Ek, E0. rewrite Es in Ek, E0. specialize (Hoff _ _ _ E0).
    rewrite Ek, wrap_id by (unfold uint; lia). do 3 f_equal. lia.
  - cbn [mbind option_bind]. eexists _, s, _, _, _.
    split; [reflexivity|]. split; [exact Hsec|]. split; [reflexivity|].
    split; [by exists d0, hi, t, m'|]. split; [lia|congruence].
Qed.

(** What the lookup of a page returns after it was filled. *)
Definition host_address (mi : memory_info) (region : MemoryRegion) (s : section) (phys h : Z) : Prop :=
  if mi_is_ram mi (s_mr s)
  then exists mr off ro, resolve region 0 false phys = Some (mr, off, ro) /\ s_mr s = mr_region mr /\
         h = u64 (mi_ram_ptr mi (mr_region mr) + off)
  else h = 0.

Lemma read_address P pp addend prot size ram ro :
  is_page m P -> ps <= size -> has prot PAGE_READ = true ->
  addr_read (new_entry m P pp addend prot 0 size ram ro false) =
    if ram then P else Z.lor P (TLB_MMIO m).
Proof.
  intros HP Hsz Hr. unfold new_entry. cbn [addr_read]. rewrite Hr, page_size by apply Hm.
  rewrite (proj2 (Z.ltb_ge size ps)) by lia. change (has 0 BP_MEM_READ) with false.
  cbn [flag_if]. rewrite !Z.lor_0_r. by destruct ram.
Qed.

Lemma mmio_address P : is_page m P -> Z.lor P (TLB_MMIO m) <> P.
Proof.
  intros [HP Hal]. destruct (flag_range m Hm 3 ltac:(lia)) as [Hf Hle].
  unfold TLB_MMIO. rewrite (lor_low bits) by (lia || done). lia.
Qed.

(** [dp] is the dispatch structure of the tree, after any lookups. *)
Definition dispatch_of (region : MemoryRegion) (dp : AddressSpaceDispatch) : Prop :=
  exists level hint view d history,
    0 <= hint <= PHYS_MAP_NODE_NIL /\ region_ok region /\
    generate_memory_topology (Some region) = Some view /\
    Forall (fun r => mask_ok tg (ar_start (fr_addr r)) (ar_size (fr_addr r))) (ranges view) /\
    1 + total_needed tg (ranges view) <= TARGET_PAGE_SIZE tg /\
    generate_dispatch tg level hint view = Some d /\
    Forall (fun q => 0 <= fst q < 2 ^ 64) history /\ lookups tg history d = Some dp.

(** The regions the dispatch structure makes itself have no memory. *)
Definition memory_info_ok (mi : memory_info) : Prop :=
  (forall n, mi_is_ram mi (mr_subpage n) = false) /\ mi_is_ram mi mr_unassigned = false.

Lemma dispatch_of_ready region dp :
  dispatch_of region dp ->
  exists sv, ready tg dp sv /\ region_ok region /\
    forall a, 0 <= a < 2 ^ 64 -> sv a = resolve region 0 false a.
Proof.
  intros (level & hint & view & d & history & Hh & Hreg & Hview & Hmask & Hcnt & Hd & Hhist & Hl).
  rewrite page_size in Hcnt by apply Hm.
  destruct (tree_view_ok tg region view Hreg Hview Hmask) as (Hsort & Hok & _ & Heq).
  destruct (generate_dispatch_ok tg Hbits Hlong level hint view Hh Hsort Hok Hcnt) as (d1 & E & Hd1).
  destruct (lookups_ready tg Hbits Hlong history d1 _ Hd1 Hhist) as (d' & E' & Hd').
  assert (d1 = d) as -> by congruence. assert (d' = dp) as -> by congruence.
  by exists (view_lookup (ranges view)).
Qed.

Lemma fill_ok n S tlb mi region dp vaddr paddr attrs prot i size :
  tlb_ok m n S tlb -> dispatch_of region dp -> memory_info_ok mi ->
  0 <= vaddr < 2 ^ long -> 0 <= paddr < 2 ^ long -> (i < NB_MMU_MODES m)%nat ->
  page_size_ok m size -> ps <= size < 2 ^ 64 -> has prot PAGE_READ = true -> byte_swap attrs = false ->
  exists tlb' dp' p s, address_space_lookup_region tg dp (page_of_addr m paddr) false = Some (p, dp') /\
    sections dp' !! Z.to_nat p = Some s /\
    tlb_set_page_with_attrs m mi (fun _ _ => 0) tlb dp vaddr paddr attrs prot i size = Some (tlb', dp') /\
    forall addr, 0 <= addr < 2 ^ long -> page_of_addr m addr = page_of_addr m vaddr ->
      exists h, tlb_vaddr_to_host m (fun _ => None) tlb' addr MMU_DATA_LOAD i = Some (h, tlb') /\
        host_address mi region s (page_of_addr m paddr + addr mod ps) h.
Proof.
  intros Hok Hdp [Hsub Hun] Hv Hpa Hi Hsz Hsize Hr Hswap. destruct (dispatch_of_ready _ _ Hdp) as (sv & Hrd & Hreg & Heq).
  pose proof (page_of_addr_page m Hm vaddr Hv) as HP. pose proof (page_of_addr_page m Hm paddr Hpa) as HPP.
  pose proof (Z.pow_le_mono_r 2 long 64 ltac:(lia) ltac:(lia)) as HL.
  destruct (translate_page_ok (mi_is_ram mi) dp _ (page_of_addr m paddr) size Hrd)
    as (p & s & xlat & plen & dp' & Elk & Hs & Etr & _ & Hplen & Hram).
  { destruct HPP. lia. }
  { apply HPP. }
  { lia. }
  { exact Hsub. }
  { exact Hun. }
  { intros mr off ro E. rewrite Heq in E by (destruct HPP; lia). by eapply resolve_offset. }
  assert (page_translation m mi (fun _ _ => 0) dp vaddr paddr attrs prot size =
    Some (let ram := mi_is_ram mi (s_mr s) in
      (new_entry m (page_of_addr m vaddr) (page_of_addr m paddr)
        (if ram then u64 (mi_ram_ptr mi (s_mr s) + xlat) else 0)
        (if negb ram && (p =? PHYS_SECTION_UNASSIGNED) then 0 else prot) 0 size ram (s_readonly s) false,
       mk_io (u64 ((if ram then u64 (mi_ram_addr mi (s_mr s) + xlat) else u64 (p + xlat))
                   - page_of_addr m vaddr)) attrs, dp'))) as Ept.
  { unfold page_translation, address_space_translate_for_iotlb. rewrite page_size by apply Hm.
    replace (if size <=? ps then ps else size) with size by (destruct (Z.leb_spec size ps); lia).
    fold (page_of_addr m paddr). fold (page_of_addr m vaddr). rewrite Etr. cbn [mbind option_bind].
    rewrite (proj2 (Z.ltb_ge plen ps)) by lia. by rewrite Hswap. }
  destruct (tlb_set_page_ok m Hm n S tlb mi _ dp vaddr paddr attrs prot i size _ _ _ Hok Hv Hi Hsz Ept)
    as (tlb' & Eset & Hok' & t & Ht & Hlk).
  exists tlb', dp', p, s. split; [exact Elk|]. split; [exact Hs|]. split; [exact Eset|]. intros addr Ha EP.
  rewrite <- EP in Hlk, Hok', HP.
  edestruct vaddr_to_host_ok as [Hyes Hno]; [exact Hok'|exact Ht|exact Ha|exact Hlk|..].
  { unfold on_mode, install. rewrite !decide_True by done. reflexivity. }
  { by apply new_entry_for. }
  unfold host_address. destruct (mi_is_ram mi (s_mr s)) eqn:Er.
  - eexists. split; [apply Hyes; by rewrite read_address by (done || lia)|].
    destruct (Hram eq_refl) as (mr & Emr & Hsv). exists mr, (xlat + addr mod ps), (s_readonly s).
    pose proof (Z.mod_pos_bound addr ps ltac:(lia)) as Hmod.
    split; [rewrite <- Heq; [by apply Hsv|]; pose proof (page_split m Hm _ _ HPP Hmod); lia|]. split; [done|]. cbn [te_addend new_entry]. rewrite Emr.
    rewrite !wrap_sub_l, wrap_add_r. f_equal. rewrite page_of_addr_eq by done.
    pose proof (Z.div_mod addr ps). lia.
  - exists 0. split; [|done]. apply Hno. cbn [negb andb]. destruct (p =? PHYS_SECTION_UNASSIGNED) eqn:Epp.
    + cbn [addr_read new_entry]. change (has 0 PAGE_READ) with false. cbn iota.
      rewrite minus_one by done. intros E. destruct HP as [_ HPm]. rewrite <- E in HPm.
      by apply (aligned_not_minus_one m Hm (2 ^ long - 1) bits) in HPm; [|lia].
    + rewrite read_address by (done || lia). by apply mmio_address.
Qed.
End runs.

Lemma nhits_app m P l l' : nhits m P (l ++ l') = (nhits m P l + nhits m P l')%nat.
Proof. induction l as [|x l IH]; [done|]. cbn. lia. Qed.

Lemma nhits_elem m P l te : te ∈ l -> tlb_hit_page_anyprot m te P = true -> (1 <= nhits m P l)%nat.
Proof.
  intros Hin Hh. induction l as [|y l IH]; [by apply elem_of_nil in Hin|].
  apply elem_of_cons in Hin as [<- |Hin]; cbn; [rewrite Hh; lia|]. specialize (IH Hin). lia.
Qed.

Lemma all_modes_bit m i : (i < NB_MMU_MODES m)%nat -> Z.testbit (ALL_MMUIDX_BITS m) (Z.of_nat i) = true.
Proof.
  intros Hi. unfold ALL_MMUIDX_BITS. rewrite Z.shiftl_1_l, Z.sub_1_r, <- Z.ones_equiv.
  apply Z.ones_spec_low. lia.
Qed.

(** What answers in a state that agrees with [S] is installed in [S]. *)
Lemma answers_installed m n S tlb i t te P :
  tlb_ok m n S tlb -> modes tlb !! i = Some t -> te ∈ fast_table (fast t) ++ vtable (desc t) ->
  is_page m P -> tlb_hit_page_anyprot m te P = true -> exists io sz, S i P = Some (te, io, sz).
Proof.
  intros (_ & _ & Hok) Hi Hin HP Hh. destruct (Hok i t Hi) as [Hmo _].
  apply elem_of_app in Hin as [Hin|Hin]; apply list_elem_of_lookup in Hin as [j Hj].
  - destruct (Forall2_lookup_l _ _ _ _ _ (mo_main _ _ _ _ Hmo) Hj) as (io & _ & _ & Hx).
    destruct (Hx P HP Hh) as (sz & E & _). by exists io, sz.
  - destruct (Forall2_lookup_l _ _ _ _ _ (mo_vict _ _ _ _ Hmo) Hj) as (io & _ & _ & Hx).
    destruct (Hx P HP Hh) as (sz & E & _). by exists io, sz.
Qed.

(** ** Properties *)

(** C6: as long as the smallest table can be allocated (where it cannot, a
    flush aborts), the TLB never answers with anything but the translation last
    installed for the page and not flushed since.  In every state reached
    from [tlb_init] by filling, flushing, victim lookups and dirty marks, in
    any order, whatever entry of a mode's table or victims answers for a page
    is, with its I/O part, the one that is installed for it, and at most one
    entry answers. *)
Theorem tlb_coherent m alloc_ok junk iojunk n S tlb :
  tlb_config m -> alloc_ok (2 ^ CPU_TLB_DYN_MIN_BITS) = true ->
  tlb_reach m alloc_ok junk iojunk n S tlb -> n < 2 ^ 50 ->
  forall i t P, modes tlb !! i = Some t -> is_page m P ->
    (forall te io, (te, io) ∈ zip (fast_table (fast t)) (iotlb (desc t)) ++
                             zip (vtable (desc t)) (viotlb (desc t)) ->
       tlb_hit_page_anyprot m te P = true -> exists sz, S i P = Some (te, io, sz)) /\
    (nhits m P (fast_table (fast t) ++ vtable (desc t)) <= 1)%nat.
Proof.
  intros Hm Ha Hr Hn i t P Hi HP. destruct (tlb_reach_ok m alloc_ok junk iojunk Hm Ha n S tlb Hr) as [_ Hok].
  destruct (Hok Hn) as (_ & _ & Hmo). destruct (Hmo i t Hi) as [H _]. split.
  - intros te io Hin Hh. assert (entry_ok m (S i) (desc t) te io) as [_ Hx].
    { apply elem_of_app in Hin as [Hin|Hin]; apply list_elem_of_lookup in Hin as [j Hj];
        apply lookup_zip_with_Some in Hj as (x & y & [= <- <-] & Hx & Hy).
      - exact (Forall2_lookup_lr _ _ _ _ _ _ (mo_main _ _ _ _ H) Hx Hy).
      - exact (Forall2_lookup_lr _ _ _ _ _ _ (mo_vict _ _ _ _ H) Hx Hy). }
    destruct (Hx P HP Hh) as (sz & E & _). by exists sz.
  - rewrite nhits_app. by apply (mo_unique _ _ _ _ H).
Qed.

(** C7: flushing a page succeeds where the smallest table can be allocated
    (a page inside a large page flushes the mode, which may resize its table,
    and that aborts when not even the smallest can be had), and afterwards no
    mode answers for that page or for any page that was filled as part of a large page around
    it: whatever still answers was installed for memory that does not contain
    the address. *)
Theorem tlb_flush_page_complete m alloc_ok junk iojunk n S tlb now addr :
  tlb_config m -> alloc_ok (2 ^ CPU_TLB_DYN_MIN_BITS) = true ->
  tlb_reach m alloc_ok junk iojunk n S tlb -> n < 2 ^ 50 ->
  0 <= addr < 2 ^ TARGET_LONG_BITS (mmu_target m) ->
  exists tlb', tlb_flush_page m alloc_ok junk iojunk tlb now addr = Some tlb' /\
    forall i t te P, modes tlb' !! i = Some t -> te ∈ fast_table (fast t) ++ vtable (desc t) ->
      is_page m P -> tlb_hit_page_anyprot m te P = true ->
      exists io sz, S i P = Some (te, io, sz) /\
        P / Z.max sz (TARGET_PAGE_SIZE (mmu_target m)) <>
        page_of_addr m addr / Z.max sz (TARGET_PAGE_SIZE (mmu_target m)).
Proof.
  intros Hm Ha Hr Hn Haddr. destruct (tlb_reach_ok m alloc_ok junk iojunk Hm Ha n S tlb Hr) as [H0 Hok].
  specialize (Hok Hn).
  destruct (tlb_flush_page_ok m Hm alloc_ok junk iojunk Ha (10 * n) S tlb now addr (ALL_MMUIDX_BITS m) Hok)
    as (tlb' & E & Hok'); [lia|done|]. exists tlb'. split; [exact E|]. intros i t te P Hi Hin HP Hh.
  destruct (answers_installed m _ _ _ i t te P Hok' Hi Hin HP Hh) as (io & sz & ES).
  assert (i < NB_MMU_MODES m)%nat as Hlt by (destruct Hok' as (<- & _); by eapply lookup_lt_Some).
  unfold forget_page_in, forget_page in ES. rewrite all_modes_bit in ES by done.
  destruct (S i P) as [[[te' io'] sz']|]; [|done]. case_decide as Hd; [done|].
  injection ES as -> -> ->. exists io, sz. split; [done|]. by rewrite page_size by apply Hm.
Qed.

(** C20: a full flush returns whenever a table of the smallest size can be
    allocated, whichever bigger sizes cannot (the resize then goes down to a
    size that can; it aborts only when the smallest cannot), and leaves nothing
    that answers in any mode, although modes that are not marked dirty are
    skipped. *)
Theorem tlb_flush_complete m alloc_ok junk iojunk n S tlb now :
  tlb_config m -> alloc_ok (2 ^ CPU_TLB_DYN_MIN_BITS) = true ->
  tlb_reach m alloc_ok junk iojunk n S tlb -> n < 2 ^ 50 ->
  exists tlb', tlb_flush m alloc_ok junk iojunk tlb now = Some tlb' /\
    forall i t te P, modes tlb' !! i = Some t -> te ∈ fast_table (fast t) ++ vtable (desc t) ->
      is_page m P -> tlb_hit_page_anyprot m te P = false.
Proof.
  intros Hm Ha Hr Hn. destruct (tlb_reach_ok m alloc_ok junk iojunk Hm Ha n S tlb Hr) as [H0 Hok].
  specialize (Hok Hn). pose proof (tc_modes m Hm) as Hmodes.
  destruct (tlb_flush_by_mmuidx_ok m Hm alloc_ok junk iojunk Ha (10 * n) S tlb now (ALL_MMUIDX_BITS m) Hok)
    as (tlb' & E & Hok' & He); [lia| |].
  { unfold ALL_MMUIDX_BITS, uint. rewrite Z.shiftl_1_l.
    pose proof (Z.pow_le_mono_r 2 (Z.of_nat (NB_MMU_MODES m)) 16 ltac:(lia) ltac:(lia)).
    pose proof (Z.pow_pos_nonneg 2 (Z.of_nat (NB_MMU_MODES m))). lia. }
  exists tlb'. split; [exact E|]. intros i t te P Hi Hin HP. apply (He i t Hi); try done.
  apply all_modes_bit. destruct Hok' as (<- & _). by eapply lookup_lt_Some.
Qed.

(** The table of a mode has [2 ^ k] entries with [k] between the limits,
    its I/O part and the mask always fit, and the index of any address is
    inside it; so neither a resize nor a failed allocation in one lets a
    lookup run out of the table. *)
Theorem tlb_size_bounds m alloc_ok junk iojunk n S tlb :
  tlb_config m -> alloc_ok (2 ^ CPU_TLB_DYN_MIN_BITS) = true ->
  tlb_reach m alloc_ok junk iojunk n S tlb -> n < 2 ^ 50 ->
  forall i t, modes tlb !! i = Some t ->
    exists k, CPU_TLB_DYN_MIN_BITS <= k <= CPU_TLB_DYN_MAX_BITS m /\ tlb_n_entries (fast t) = 2 ^ k /\
      Z.of_nat (length (fast_table (fast t))) = 2 ^ k /\ Z.of_nat (length (iotlb (desc t))) = 2 ^ k /\
      forall addr, (tlb_index m (fast t) addr < length (fast_table (fast t)))%nat.
Proof.
  intros Hm Ha Hr Hn i t Hi. destruct (tlb_reach_ok m alloc_ok junk iojunk Hm Ha n S tlb Hr) as [_ Hok].
  destruct (Hok Hn) as (_ & _ & Hmo). destruct (Hmo i t Hi) as [H _].
  destruct (mo_size _ _ _ _ H) as [k Hk]. exists k. pose proof Hk as (H1 & _ & H2).
  split; [done|]. split; [by apply (n_entries m)|]. split; [done|].
  split; [by rewrite <- (Forall2_length _ _ _ (mo_main _ _ _ _ H))|]. intros addr. by eapply index_lt.
Qed.

(** C19: from a guest address to host memory.  In any reachable state,
    filling a readable page from the dispatch structure of a region tree
    succeeds, and a load from any address of the page then finds the host
    address of the byte that the tree serves at the physical address, if the
    section of the page is RAM; otherwise the load is sent to the slow path
    (host address 0). *)
Theorem tlb_fill_reads_tree m alloc_ok junk iojunk n S tlb mi region dp vaddr paddr attrs prot i size :
  tlb_config m -> alloc_ok (2 ^ CPU_TLB_DYN_MIN_BITS) = true ->
  tlb_reach m alloc_ok junk iojunk n S tlb -> n < 2 ^ 50 ->
  dispatch_of m region dp -> memory_info_ok mi ->
  0 <= vaddr < 2 ^ TARGET_LONG_BITS (mmu_target m) -> 0 <= paddr < 2 ^ TARGET_LONG_BITS (mmu_target m) ->
  (i < NB_MMU_MODES m)%nat -> page_size_ok m size -> TARGET_PAGE_SIZE (mmu_target m) <= size < 2 ^ 64 ->
  has prot PAGE_READ = true -> byte_swap attrs = false ->
  exists tlb' dp' p s,
    address_space_lookup_region (mmu_target m) dp (page_of_addr m paddr) false = Some (p, dp') /\
    sections dp' !! Z.to_nat p = Some s /\
    tlb_set_page_with_attrs m mi (fun _ _ => 0) tlb dp vaddr paddr attrs prot i size = Some (tlb', dp') /\
    forall addr, 0 <= addr < 2 ^ TARGET_LONG_BITS (mmu_target m) ->
      page_of_addr m addr = page_of_addr m vaddr ->
      exists h, tlb_vaddr_to_host m (fun _ => None) tlb' addr MMU_DATA_LOAD i = Some (h, tlb') /\
        host_address mi region s (page_of_addr m paddr + addr mod TARGET_PAGE_SIZE (mmu_target m)) h.
Proof.
  intros Hm Ha Hr Hn Hdp Hmi Hv Hp Hi Hsz Hsize Hprot Hswap.
  destruct (tlb_reach_ok m alloc_ok junk iojunk Hm Ha n S tlb Hr) as [_ Hok].
  rewrite page_size in * by apply Hm. by apply (fill_ok m Hm (10 * n) S); [apply Hok|..].
Qed.

(** ** A concrete machine *)

(** Two modes, 4 KiB pages, 64-bit addresses. *)
Definition mmu64 : mmu := mk_mmu target64 12 2 22.

Lemma mmu64_ok : tlb_config mmu64.
Proof. split; cbn; lia. Qed.

Definition plain_attrs : MemTxAttrs := mk_attrs false 0.
Definition no_io (_ : Z) : CPUIOTLBEntry := mk_io 0 plain_attrs.
Definition no_entry (_ : Z) : CPUTLBEntry := empty_te mmu64.
Definition any_size (_ : Z) : bool := true.

(** Every region of [shared_tree] is RAM, at host address [id * 2^32]. *)
Definition info64 : memory_info :=
  mk_memory_info (fun r => match r with mr_region _ => true | _ => false end)
    (fun r => match r with mr_region id => id * 2 ^ 32 | _ => 0 end) (fun _ => 0).

Lemma info64_ok : memory_info_ok info64.
Proof. done. Qed.

Definition tlb0 : CPUTLB := tlb_init mmu64 no_entry no_io 0.

(** The dispatch structure of [shared_tree]. *)
Definition shared_dispatch : option AddressSpaceDispatch := generate_dispatch target64 0 0 shared_view.

Lemma shared_dispatch_of d : shared_dispatch = Some d -> dispatch_of mmu64 shared_tree d.
Proof.
  unfold shared_dispatch, dispatch_of. intros E. change (mmu_target mmu64) with target64.
  exists 0, 0, shared_view, d, []. split; [vm_compute; by split|]. split; [exact shared_tree_ok|].
  split; [exact shared_view_eq|]. split.
  { cbn [ranges shared_view]. rewrite !Forall_cons, Forall_nil. split_and!; [left; vm_compute; discriminate..|done]. }
  split; [vm_compute; discriminate|]. split; [exact E|]. split; [constructor|reflexivity].
Qed.

(** Map the guest page [vaddr] on the physical page [paddr]. *)
Definition fill64 (tlb : CPUTLB) (vaddr paddr : Z) : option CPUTLB :=
  d ← shared_dispatch;
  fst <$> tlb_set_page_with_attrs mmu64 info64 (fun _ _ => 0) tlb d vaddr paddr plain_attrs
            PAGE_READ 0 0x1000.

(** The page 0x7000 is found at its slot. *)
Lemma filled_check :
  match (d ← shared_dispatch;
         '(tn, io, d') ← page_translation mmu64 info64 (fun _ _ => 0) d 0x7000 0x1000 plain_attrs PAGE_READ 0x1000;
         '(tlb, d'') ← tlb_set_page_with_attrs mmu64 info64 (fun _ _ => 0) tlb0 d 0x7000 0x1000 plain_attrs
            PAGE_READ 0 0x1000;
         t ← modes tlb !! 0%nat; te ← fast_table (fast t) !! 7%nat;
         Some (tlb_hit_page_anyprot mmu64 te 0x7000))
  with Some b => b | None => false end = true.
Proof. vm_compute. reflexivity. Qed.

(** One page filled: the state, what is installed, and the entry. *)
Lemma filled_once :
  exists S tlb t te, tlb_reach mmu64 any_size no_entry no_io 1 S tlb /\
    modes tlb !! 0%nat = Some t /\ te ∈ fast_table (fast t) /\ tlb_hit_page_anyprot mmu64 te 0x7000 = true.
Proof.
  pose proof filled_check as H. destruct shared_dispatch as [d|]; [cbn [mbind option_bind] in H|done].
  destruct (page_translation _ _ _ _ _ _ _ _ _) as [[[tn io] d']|] eqn:Ept; [cbn [mbind option_bind] in H|done].
  destruct (tlb_set_page_with_attrs _ _ _ _ _ _ _ _ _ _ _) as [[tlb d'']|] eqn:Eset; [cbn [mbind option_bind] in H|done].
  destruct (modes tlb !! 0%nat) as [t|] eqn:Et; [cbn [mbind option_bind] in H|done].
  destruct (fast_table (fast t) !! 7%nat) as [te|] eqn:Ete; [cbn [mbind option_bind] in H|done].
  assert (d'' = d') as ->.
  { unfold tlb_set_page_with_attrs in Eset. inv_opt. congruence. }
  eexists _, tlb, t, te. split; [|split; [exact Et|split; [by eapply list_elem_of_lookup_2|exact H]]].
  apply (reach_step _ _ _ _ 0 nothing tlb0); [apply reach_init|].
  eapply (step_set mmu64 any_size no_entry no_io nothing tlb0 info64 (fun _ _ => 0) d 0x7000 0x1000
    plain_attrs PAGE_READ 0 0x1000); [split; [lia|reflexivity]|left; apply Z.le_refl|exact Ept|exact Eset].
Qed.

Lemma page7_ok : is_page mmu64 0x7000.
Proof. by split. Qed.

Lemma tlb_coherent_witness :
  exists S tlb t, tlb_reach mmu64 any_size no_entry no_io 1 S tlb /\ modes tlb !! 0%nat = Some t /\
    nhits mmu64 0x7000 (fast_table (fast t) ++ vtable (desc t)) = 1%nat.
Proof.
  destruct filled_once as (S & tlb & t & te & Hr & Ht & Hin & Hh). exists S, tlb, t.
  split; [exact Hr|]. split; [exact Ht|].
  destruct (tlb_coherent mmu64 any_size no_entry no_io 1 S tlb mmu64_ok eq_refl Hr ltac:(lia) 0%nat t 0x7000 Ht page7_ok)
    as [_ Hu].
  rewrite nhits_app in *. pose proof (nhits_elem mmu64 0x7000 _ te Hin Hh). lia.
Defined.

Lemma tlb_flush_page_complete_witness :
  exists S tlb tlb', tlb_reach mmu64 any_size no_entry no_io 1 S tlb /\
    tlb_flush_page mmu64 any_size no_entry no_io tlb 5 0x7abc = Some tlb'.
Proof.
  destruct filled_once as (S & tlb & t & te & Hr & _). exists S, tlb.
  destruct (tlb_flush_page_complete mmu64 any_size no_entry no_io 1 S tlb 5 0x7abc mmu64_ok eq_refl Hr)
    as (tlb' & E & _); [lia|split; [lia|reflexivity]|]. exists tlb'. split; [exact Hr|exact E].
Defined.

Lemma tlb_flush_complete_witness :
  exists S tlb tlb', tlb_reach mmu64 any_size no_entry no_io 1 S tlb /\
    tlb_flush mmu64 any_size no_entry no_io tlb 5 = Some tlb'.
Proof.
  destruct filled_once as (S & tlb & t & te & Hr & _). exists S, tlb.
  destruct (tlb_flush_complete mmu64 any_size no_entry no_io 1 S tlb 5 mmu64_ok eq_refl Hr)
    as (tlb' & E & _); [lia|]. exists tlb'. split; [exact Hr|exact E].
Defined.

Lemma tlb_size_bounds_witness :
  exists S tlb t, tlb_reach mmu64 any_size no_entry no_io 1 S tlb /\ modes tlb !! 0%nat = Some t /\
    (tlb_index mmu64 (fast t) 0x7abc < length (fast_table (fast t)))%nat.
Proof.
  destruct filled_once as (S & tlb & t & te & Hr & Ht & _). exists S, tlb, t. split; [exact Hr|]. split; [exact Ht|].
  destruct (tlb_size_bounds mmu64 any_size no_entry no_io 1 S tlb mmu64_ok eq_refl Hr ltac:(lia) 0%nat t Ht)
    as (k & _ & _ & _ & _ & H). apply H.
Defined.

(** The section of the physical page 0x1000 is RAM. *)
Lemma page1_section :
  (d ← shared_dispatch; '(p, d') ← address_space_lookup_region target64 d 0x1000 false;
   s ← sections d' !! Z.to_nat p; Some (s_mr s)) = Some (mr_region 10).
Proof. vm_compute. reflexivity. Qed.

Lemma page1_byte : resolve shared_tree 0 false 0x1abc = Some (10, 0xabc, false).
Proof. vm_compute. reflexivity. Qed.

Lemma tlb_fill_reads_tree_witness :
  exists S tlb d tlb' d', tlb_reach mmu64 any_size no_entry no_io 1 S tlb /\ dispatch_of mmu64 shared_tree d /\
    tlb_set_page_with_attrs mmu64 info64 (fun _ _ => 0) tlb d 0x9000 0x1000 plain_attrs PAGE_READ 0 0x1000
      = Some (tlb', d') /\
    tlb_vaddr_to_host mmu64 (fun _ => None) tlb' 0x9abc MMU_DATA_LOAD 0 = Some (10 * 2 ^ 32 + 0xabc, tlb').
Proof.
  destruct filled_once as (S & tlb & t & te & Hr & _). pose proof page1_section as H.
  destruct shared_dispatch as [d|] eqn:Ed; [cbn [mbind option_bind] in H|discriminate H].
  pose proof (shared_dispatch_of d Ed) as Hd.
  destruct (tlb_fill_reads_tree mmu64 any_size no_entry no_io 1 S tlb info64 shared_tree d 0x9000 0x1000
    plain_attrs PAGE_READ 0 0x1000 mmu64_ok eq_refl Hr ltac:(lia) Hd info64_ok)
    as (tlb' & d' & p & s & E1 & E2 & E3 & Hall).
  1-2: split; [lia|reflexivity].
  - cbn. lia.
  - left. apply Z.le_refl.
  - split; [apply Z.le_refl|reflexivity].
  - reflexivity.
  - reflexivity.
  - exists S, tlb, d, tlb', d'. split; [exact Hr|]. split; [exact Hd|]. split; [exact E3|].
    destruct (Hall 0x9abc) as (h & Eh & Hh); [split; [lia|reflexivity]|reflexivity|].
    change (page_of_addr mmu64 0x1000) with 0x1000 in E1. change (mmu_target mmu64) with target64 in E1.
    rewrite E1 in H. cbn [mbind option_bind] in H. rewrite E2 in H. cbn [mbind option_bind] in H.
    injection H as Es. unfold host_address in Hh. rewrite Es in Hh. cbn [mi_is_ram info64] in Hh.
    destruct Hh as (mr & off & ro & Hres & Emr & ->). injection Emr as <-.
    change (resolve shared_tree 0 false 0x1abc = Some (10, off, ro)) in Hres.
    rewrite page1_byte in Hres. injection Hres as <- <-. exact Eh.
Defined.

(** The counter of mode 0, and the size of its table. *)
Definition mode0 {A} (f : mode_tlb -> A) (tlb : CPUTLB) : option A := f <$> modes tlb !! 0%nat.

(** The count of used entries runs below zero.  An entry that is moved
    to the victims is counted off once when it is moved and once more when it
    is flushed there: after two pages of one slot were filled and both were
    flushed again, the empty table counts 2^64 - 1 entries, and the next flush
    of everything doubles its size. *)
Example tlb_used_underflows :
  (tlb ← fill64 tlb0 0x7000 0x1000;
   tlb ← fill64 tlb 0x107000 0x1000;
   tlb ← tlb_flush_page mmu64 any_size no_entry no_io tlb 1 0x107000;
   tlb ← tlb_flush_page mmu64 any_size no_entry no_io tlb 1 0x7000;
   used ← mode0 (fun t => n_used_entries (desc t)) tlb;
   before ← mode0 (fun t => tlb_n_entries (fast t)) tlb;
   tlb ← tlb_flush mmu64 any_size no_entry no_io tlb 2;
   after ← mode0 (fun t => tlb_n_entries (fast t)) tlb;
   Some (used, before, after)) = Some (2 ^ 64 - 1, 256, 512).
Proof. vm_compute. reflexivity. Qed.
