(* ===== verification/Qht.v ===== *)
(** * The hash table of translation blocks ([qemu/util/qht.c])

    A map has a power of two of head buckets; a bucket has four entries and
    leads to further buckets that were added when it was full.  Entries are
    kept without holes: a removed one is replaced by the last of its chain.
    When too many buckets were added the map is copied to one twice as big.

    A chain is the list of its entries, those of the first bucket first, four
    from each: a pair of a hash and a pointer, and the null pointer is 0. *)

From S2P Require Import Prelude SoftTlb.

(** ** Data *)

Abbreviation entry := (Z * Z)%type.
Abbreviation chain := (list entry).

Definition QHT_BUCKET_ENTRIES : nat := 4.
Definition QHT_NR_ADDED_BUCKETS_THRESHOLD_DIV : nat := 8.

Record qht_map := mk_qht_map {
  buckets : list chain;
  n_added_buckets : nat;
  n_added_buckets_threshold : nat
}.

Definition n_buckets (m : qht_map) : nat := length (buckets m).

Definition qht_elems_to_buckets (n_elems : Z) : nat := Z.to_nat (pow2ceil (n_elems / Z.of_nat QHT_BUCKET_ENTRIES)).

Definition CODE_GEN_HTABLE_SIZE : Z := Z.shiftl 1 15.

(** A zeroed bucket. *)
Definition qht_head_init : chain := replicate QHT_BUCKET_ENTRIES (0, 0).

(** The index of [qht_map_to_bucket]. *)
Definition qht_map_to_bucket (m : qht_map) (hash : Z) : nat := Z.to_nat (Z.land hash (Z.of_nat (n_buckets m) - 1)).

Definition qht_map_needs_resize (m : qht_map) : bool := (n_added_buckets_threshold m <? n_added_buckets m)%nat.

Definition qht_map_create (n : nat) : qht_map :=
  let threshold := (n / QHT_NR_ADDED_BUCKETS_THRESHOLD_DIV)%nat in
  mk_qht_map (replicate n qht_head_init) 0 (if (threshold =? 0)%nat then 1 else threshold).

(** [ht->cmp] is an argument of the operations; [ht->mode] is
    [QHT_MODE_AUTO_RESIZE] or not. *)
Record qht := mk_qht { map : qht_map; auto_resize : bool }.

Definition qht_init (n_elems : Z) (mode : bool) : qht := mk_qht (qht_map_create (qht_elems_to_buckets n_elems)) mode.

(** ** Lookup *)

Fixpoint qht_do_lookup (func : Z -> bool) (b : chain) (hash : Z) : option Z :=
  match b with
  | [] => None
  | (h, p) :: b =>
    if (h =? hash) && negb (p =? 0) && func p then Some p else qht_do_lookup func b hash
  end.

Definition qht_lookup_custom (func : Z -> bool) (ht : qht) (hash : Z) : option Z :=
  b ← buckets (map ht) !! qht_map_to_bucket (map ht) hash;
  qht_do_lookup func b hash.

(** ** Insertion *)

(** The walk of [qht_insert__locked]: an equal element, or the chain with the
    new one and whether a bucket was added. *)
Fixpoint insert_entry (cmp : Z -> Z -> bool) (b : chain) (p hash : Z) : Z + (chain * bool) :=
  match b with
  | [] => inr ((hash, p) :: replicate (QHT_BUCKET_ENTRIES - 1) (0, 0), true)
  | (h, q) :: b =>
    if q =? 0 then inr ((hash, p) :: b, false)
    else if (h =? hash) && cmp q p then inl q
    else match insert_entry cmp b p hash with
         | inl q' => inl q'
         | inr (b, added) => inr ((h, q) :: b, added)
         end
  end.

(** The element that is there already, the map, and [needs_resize]. *)
Definition qht_insert__locked (cmp : Z -> Z -> bool) (m : qht_map) (p hash : Z) : option (option Z * qht_map * bool) :=
  let i := qht_map_to_bucket m hash in
  head ← buckets m !! i;
  match insert_entry cmp head p hash with
  | inl q => Some (Some q, m, false)
  | inr (b, added) =>
    let m := mk_qht_map (<[i := b]> (buckets m)) (if added then S (n_added_buckets m) else n_added_buckets m) (n_added_buckets_threshold m) in
    Some (None, m, added && qht_map_needs_resize m)
  end.

(** ** Resizing *)

(** [qht_bucket_iter] with a function that only reads: the entries up to the
    first null pointer. *)
Fixpoint chain_entries (b : chain) : list entry :=
  match b with
  | [] => []
  | (h, p) :: b => if p =? 0 then [] else (h, p) :: chain_entries b
  end.

Definition map_entries (m : qht_map) : list entry := b ← buckets m; chain_entries b.

(** [qht_map_copy] for every entry. *)
Fixpoint copy_entries (cmp : Z -> Z -> bool) (new : qht_map) (es : list entry) : option qht_map :=
  match es with
  | [] => Some new
  | (h, p) :: es => '(_, new, _) ← qht_insert__locked cmp new p h; copy_entries cmp new es
  end.

Fixpoint qht_bucket_reset__locked (b : chain) : chain :=
  match b with
  | [] => []
  | (h, p) :: b => if p =? 0 then (h, p) :: b else (0, 0) :: qht_bucket_reset__locked b
  end.

Definition qht_map_reset__all_locked (m : qht_map) : qht_map :=
  mk_qht_map (qht_bucket_reset__locked <$> buckets m) (n_added_buckets m) (n_added_buckets_threshold m).

Definition qht_do_resize_reset (cmp : Z -> Z -> bool) (ht : qht) (new : option qht_map) (reset : bool) : option qht :=
  let old := if reset then qht_map_reset__all_locked (map ht) else map ht in
  match new with
  | None => Some (mk_qht old (auto_resize ht))
  | Some new =>
    if (n_buckets new =? n_buckets old)%nat then None
    else new ← copy_entries cmp new (map_entries old); Some (mk_qht new (auto_resize ht))
  end.

(** Whether the size changed, and the empty table. *)
Definition qht_reset_size (cmp : Z -> Z -> bool) (ht : qht) (n_elems : Z) : option (bool * qht) :=
  let n := qht_elems_to_buckets n_elems in
  let new := if negb (n =? n_buckets (map ht))%nat then Some (qht_map_create n) else None in
  ht ← qht_do_resize_reset cmp ht new true;
  Some (bool_decide (is_Some new), ht).

Definition qht_grow_maybe (cmp : Z -> Z -> bool) (ht : qht) : option qht :=
  if qht_map_needs_resize (map ht) then qht_do_resize_reset cmp ht (Some (qht_map_create (n_buckets (map ht) * 2))) false
  else Some ht.

(** The element that kept [p] out, and the table. *)
Definition qht_insert (cmp : Z -> Z -> bool) (ht : qht) (p hash : Z) : option (option Z * qht) :=
  '(prev, m, needs_resize) ← qht_insert__locked cmp (map ht) p hash;
  let ht := mk_qht m (auto_resize ht) in
  ht ← (if needs_resize && auto_resize ht then qht_grow_maybe cmp ht else Some ht);
  Some (prev, ht).

(** ** Removal *)

Definition null_at (b : chain) (i : nat) : bool := match b !! i with Some (_, p) => p =? 0 | None => true end.

(** The position of the first null pointer, or the end. *)
Fixpoint first_null (b : chain) : nat :=
  match b with
  | [] => 0
  | (_, p) :: b => if p =? 0 then 0 else S (first_null b)
  end.

(** [qht_entry_move(to, i, from, j)] *)
Definition qht_entry_move (b : chain) (i j : nat) : option chain :=
  e ← b !! j; Some (<[j := (0, 0)]> (<[i := e]> b)).

(** The search for the last entry starts at the bucket of [pos]; without an
    entry before the hole the code would use the null bucket [prev]. *)
Definition qht_bucket_remove_entry (b : chain) (pos : nat) : option chain :=
  if null_at b (S pos) then Some (<[pos := (0, 0)]> b)
  else
    let orig := (pos / QHT_BUCKET_ENTRIES * QHT_BUCKET_ENTRIES)%nat in
    match first_null (drop orig b) with
    | O => None
    | S j => qht_entry_move b pos (orig + j)
    end.

(** The position of [p], before the first null pointer. *)
Fixpoint find_pointer (b : chain) (p : Z) : option nat :=
  match b with
  | [] => None
  | (_, q) :: b => if q =? 0 then None else if q =? p then Some 0%nat else S <$> find_pointer b p
  end.

Definition qht_remove__locked (b : chain) (p : Z) : option (bool * chain) :=
  match find_pointer b p with
  | Some i => b ← qht_bucket_remove_entry b i; Some (true, b)
  | None => Some (false, b)
  end.

Definition qht_remove (ht : qht) (p hash : Z) : option (bool * qht) :=
  let m := map ht in
  let i := qht_map_to_bucket m hash in
  b ← buckets m !! i;
  '(ret, b) ← qht_remove__locked b p;
  Some (ret, mk_qht (mk_qht_map (<[i := b]> (buckets m)) (n_added_buckets m) (n_added_buckets_threshold m)) (auto_resize ht)).
