(* ===== verification/QhtProofs.v ===== *)
(** * The hash table keeps a set of pointers

    Whatever buckets, moves and copies the table uses, its entries are a set of
    pairs of a hash and a pointer: insertion adds one unless an equal element
    is there, removal takes out one, a lookup finds one if there is one.  The
    interface [HashTable] states it for the users of the table. *)

From S2P Require Import Prelude SoftTlb Qht.

(** ** Interface *)

(** Elements with the same hash are different for the table's comparison. *)
Definition cmp_ok (cmp : Z -> Z -> bool) (es : list (Z * Z)) : Prop :=
  forall h p q, (h, p) ∈ es -> (h, q) ∈ es -> p <> q -> cmp p q = false.

(** What an insertion of [(hash, p)] gives. *)
Definition inserted (cmp : Z -> Z -> bool) (es : list (Z * Z)) (p hash : Z) (prev : option Z) (es' : list (Z * Z)) : Prop :=
  match prev with
  | Some q => es' ≡ₚ es /\ (hash, q) ∈ es /\ cmp q p = true
  | None => es' ≡ₚ (hash, p) :: es /\ forall q, (hash, q) ∈ es -> cmp q p = false
  end.

Definition removed (es : list (Z * Z)) (p hash : Z) (ret : bool) (es' : list (Z * Z)) : Prop :=
  if ret then es ≡ₚ (hash, p) :: es' else es' ≡ₚ es /\ (hash, p) ∉ es.

Definition found (es : list (Z * Z)) (func : Z -> bool) (hash : Z) (r : option Z) : Prop :=
  match r with
  | Some p => (hash, p) ∈ es /\ func p = true
  | None => forall p, (hash, p) ∈ es -> func p = false
  end.

(** A table as its users see it: [ht_ok] is its invariant for a comparison. *)
Class HashTable (T : Type) := {
  ht_elems : T -> list (Z * Z);
  ht_ok : (Z -> Z -> bool) -> T -> Prop;
  ht_lookup : (Z -> bool) -> T -> Z -> option Z;
  ht_insert : (Z -> Z -> bool) -> T -> Z -> Z -> option (option Z * T);
  ht_remove : T -> Z -> Z -> option (bool * T);
  ht_reset : (Z -> Z -> bool) -> T -> option T
}.

Class HashTableLaws (T : Type) `{HashTable T} : Prop := {
  ht_facts cmp t : ht_ok cmp t ->
    cmp_ok cmp (ht_elems t) /\ NoDup (snd <$> ht_elems t) /\ forall h p, (h, p) ∈ ht_elems t -> uint 32 h /\ p <> 0;
  ht_ok_ext cmp cmp' t : (forall h p q, (h, p) ∈ ht_elems t -> (h, q) ∈ ht_elems t -> p <> q -> cmp' p q = false) ->
    ht_ok cmp t -> ht_ok cmp' t;
  ht_lookup_ok cmp func t hash : ht_ok cmp t -> uint 32 hash -> found (ht_elems t) func hash (ht_lookup func t hash);
  ht_insert_ok cmp t p hash : ht_ok cmp t -> (forall a b, cmp a b = cmp b a) ->
    uint 32 hash -> p <> 0 -> p ∉ snd <$> ht_elems t ->
    exists prev t', ht_insert cmp t p hash = Some (prev, t') /\ ht_ok cmp t' /\ inserted cmp (ht_elems t) p hash prev (ht_elems t');
  ht_remove_ok cmp t p hash : ht_ok cmp t -> uint 32 hash -> p <> 0 ->
    (forall h, (h, p) ∈ ht_elems t -> h = hash) ->
    exists ret t', ht_remove t p hash = Some (ret, t') /\ ht_ok cmp t' /\ removed (ht_elems t) p hash ret (ht_elems t');
  ht_reset_ok cmp t : ht_ok cmp t -> exists t', ht_reset cmp t = Some t' /\ ht_ok cmp t' /\ ht_elems t' = []
}.

(** ** Chains *)

Definition live (e : Z * Z) : Prop := e.2 <> 0.

(** Entries without a hole, and then null pointers. *)
Definition chain_ok (b : list (Z * Z)) : Prop := exists k, b = chain_entries b ++ replicate k (0, 0).

Lemma chain_entries_live b : Forall live (chain_entries b).
Proof.
  induction b as [|[h p] b IH]; simpl; [done|]. destruct (Z.eqb_spec p 0); [done|]. by constructor.
Qed.

Lemma chain_entries_app es k : Forall live es -> chain_entries (es ++ replicate k (0, 0)) = es.
Proof.
  induction 1 as [|[h p] es He _ IH]; simpl; [by destruct k|]. destruct (Z.eqb_spec p 0); [done|]. by rewrite IH.
Qed.

Lemma chain_ok_app es k : Forall live es -> chain_ok (es ++ replicate k (0, 0)).
Proof. intros H. exists k. by rewrite chain_entries_app. Qed.

(** A property of all chains is one of the chains of that form. *)
Lemma chain_cases b : chain_ok b -> exists es k, b = es ++ replicate k (0, 0) /\ Forall live es /\ chain_entries b = es.
Proof. intros [k Hk]. exists (chain_entries b), k. split; [done|]. split; [apply chain_entries_live|done]. Qed.

Lemma lookup_chain func b hash : chain_ok b -> found (chain_entries b) func hash (qht_do_lookup func b hash).
Proof.
  intros (es & k & -> & Hl & ->)%chain_cases. induction Hl as [|[h p] es He _ IH]; simpl.
  - assert (qht_do_lookup func (replicate k (0, 0)) hash = None) as ->; [|by intros ? ?%elem_of_nil].
    induction k as [|k IH]; [done|]. simpl. by rewrite andb_false_r.
  - unfold live in He. simpl in He. rewrite (proj2 (Z.eqb_neq p 0)) by done. cbn [negb]. rewrite andb_true_r.
    destruct (Z.eqb_spec h hash) as [->|Hh]; cbn [andb].
    + destruct (func p) eqn:Ef; [split; [left|done]|].
      destruct (qht_do_lookup _ _ _); simpl in *; [split; [right|]; tauto|].
      intros q [[= ->]|Hq]%elem_of_cons; [done|by apply IH].
    + destruct (qht_do_lookup _ _ _); simpl in *; [split; [right|]; tauto|].
      intros q [[= <- _]|Hq]%elem_of_cons; [done|by apply IH].
Qed.

Lemma insert_chain cmp b p hash :
  chain_ok b -> p <> 0 ->
  match insert_entry cmp b p hash with
  | inl q => (hash, q) ∈ chain_entries b /\ cmp q p = true
  | inr (b', _) => chain_ok b' /\ chain_entries b' = chain_entries b ++ [(hash, p)] /\ forall q, (hash, q) ∈ chain_entries b -> cmp q p = false
  end.
Proof.
  intros (es & k & -> & Hl & ->)%chain_cases Hp. induction Hl as [|[h q] es He Hl IH]; simpl.
  - assert (forall j, let b := (hash, p) :: replicate j (0, 0) in
      chain_ok b /\ chain_entries b = [(hash, p)] /\ forall q, (hash, q) ∈ @nil (Z * Z) -> cmp q p = false) as Hnew.
    { intros j b. assert (Forall live [(hash, p)]) as Hf by by repeat constructor.
      split; [apply (chain_ok_app [(hash, p)]), Hf|]. split; [apply (chain_entries_app [(hash, p)]), Hf|by intros ? ?%elem_of_nil]. }
    destruct k as [|k]; [apply Hnew|apply (Hnew k)].
  - unfold live in He. simpl in He. rewrite (proj2 (Z.eqb_neq q 0)) by done.
    destruct (Z.eqb_spec h hash) as [->|Hh]; cbn [andb]; [destruct (cmp q p) eqn:Ec; [split; [left|done]|]|].
    all: destruct (insert_entry _ _ _ _) as [q'|[b' added]]; [split; [right|]; tauto|].
    all: destruct IH as ((k' & Hk') & E & Hc); rewrite E in Hk'.
    all: split; [rewrite Hk'; apply (chain_ok_app ((_, q) :: es ++ [(hash, p)])); constructor;
           [done|]; rewrite <- E; apply chain_entries_live|].
    all: split; [cbn [chain_entries]; rewrite (proj2 (Z.eqb_neq q 0)), E by done; done|].
    + intros q' [[= ->]|Hq]%elem_of_cons; [done|by apply Hc].
    + intros q' [[= <- _]|Hq]%elem_of_cons; [done|by apply Hc].
Qed.

Lemma find_pointer_chain es k p :
  Forall live es ->
  match find_pointer (es ++ replicate k (0, 0)) p with
  | Some i => exists h, es !! i = Some (h, p)
  | None => forall h, (h, p) ∈ es -> p = 0
  end.
Proof.
  induction 1 as [|[h q] es He _ IH]; simpl; [destruct k; simpl; by intros ? ?%elem_of_nil|].
  unfold live in He. simpl in He. rewrite (proj2 (Z.eqb_neq q 0)) by done. destruct (Z.eqb_spec q p) as [->|Hq]; [by exists h|].
  destruct (find_pointer _ _); simpl; [done|]. intros h' [[= <- <-]|Hin]%elem_of_cons; [done|by apply (IH h')].
Qed.

Lemma first_null_chain es k : Forall live es -> first_null (es ++ replicate k (0, 0)) = length es.
Proof.
  induction 1 as [|[h q] es He _ IH]; simpl; [by destruct k|]. unfold live in He. simpl in He.
  by rewrite (proj2 (Z.eqb_neq q 0)), IH by done.
Qed.

Lemma null_at_chain es k i : Forall live es -> null_at (es ++ replicate k (0, 0)) i = bool_decide (length es <= i)%nat.
Proof.
  intros Hl. unfold null_at. case_bool_decide as Hi.
  - rewrite lookup_app_r by lia. destruct (replicate k (0, 0) !! (i - length es)%nat) as [[h p]|] eqn:E; [|done].
    by apply lookup_replicate in E as [[= -> ->] _].
  - destruct (es !! i) as [[h p]|] eqn:E; [|by apply lookup_ge_None in E].
    rewrite (lookup_app_l_Some _ _ _ _ E). eapply Forall_lookup_1 in Hl; [|exact E]. by apply Z.eqb_neq.
Qed.

(** The last entry takes the place of the one at [i]. *)
Definition swap_remove (es : list (Z * Z)) (i : nat) : list (Z * Z) :=
  match last es with
  | Some e => take (length es - 1) (<[i := e]> es)
  | None => []
  end.

Lemma swap_remove_perm es i x : es !! i = Some x -> es ≡ₚ x :: swap_remove es i.
Proof.
  intros Hi. unfold swap_remove. destruct (last es) as [e|] eqn:E; [|apply last_None in E; by subst].
  apply last_Some in E as [es' ->]. rewrite length_app. cbn [length]. replace (length es' + 1 - 1)%nat with (length es') by lia.
  pose proof (lookup_lt_Some _ _ _ Hi) as Hlt. rewrite length_app in Hlt. cbn in Hlt.
  destruct (decide (i < length es')%nat) as [H|H].
  - rewrite lookup_app_l in Hi by done. rewrite insert_app_l, take_app_le, take_ge by (rewrite ?length_insert; lia).
    rewrite (Permutation_app_comm es'). cbn [app]. rewrite <- (take_drop_middle es' i x Hi) at 1.
    rewrite insert_take_drop by done. rewrite !Permutation_middle. apply Permutation_app_head. constructor.
  - assert (i = length es') as -> by lia. rewrite list_lookup_middle in Hi by done. injection Hi as ->.
    rewrite <- (Nat.add_0_r (length es')) at 2. rewrite insert_app_r. rewrite take_app_length. apply Permutation_app_comm.
Qed.

Lemma remove_entry_chain es k i x :
  Forall live es -> es !! i = Some x ->
  exists k', qht_bucket_remove_entry (es ++ replicate k (0, 0)) i = Some (swap_remove es i ++ replicate k' (0, 0)).
Proof.
  intros Hl Hi. pose proof (lookup_lt_Some _ _ _ Hi) as Hlt. exists (S k).
  destruct (last es) as [e|] eqn:E; [|apply last_None in E; by subst].
  unfold qht_bucket_remove_entry, swap_remove. rewrite E, null_at_chain by done. apply last_Some in E as [es' ->].
  rewrite length_app in *. cbn [length] in *. replace (length es' + 1 - 1)%nat with (length es') by lia.
  case_bool_decide as Hd.
  - assert (i = length es') as -> by lia. f_equal. rewrite <- app_assoc. cbn [app].
    rewrite <- (Nat.add_0_r (length es')) at 1 3. rewrite !insert_app_r, take_app_length. done.
  - set (o := (i / QHT_BUCKET_ENTRIES * QHT_BUCKET_ENTRIES)%nat). assert (o <= i)%nat as Ho.
    { unfold o. rewrite Nat.mul_comm. apply Nat.Div0.mul_div_le. }
    clearbody o. rewrite drop_app_le by (rewrite length_app; cbn [length]; lia).
    rewrite first_null_chain by (by apply Forall_drop). rewrite length_drop, length_app. cbn [length].
    destruct (length es' + 1 - o)%nat as [|j] eqn:Ej; [lia|]. replace (o + j)%nat with (length es') by lia.
    unfold qht_entry_move. rewrite <- app_assoc. cbn [app]. rewrite list_lookup_middle by done. cbn [mbind option_bind]. f_equal.
    rewrite insert_app_l by lia. rewrite <- (length_insert es' i e) at 1. rewrite <- (Nat.add_0_r (length (<[i:=e]> es'))) at 1.
    rewrite insert_app_r. rewrite insert_app_l, take_app_le, take_ge by (rewrite ?length_insert; lia). done.
Qed.

Lemma remove_chain b p :
  chain_ok b -> p <> 0 ->
  exists ret b', qht_remove__locked b p = Some (ret, b') /\ chain_ok b' /\
  if ret then exists h, chain_entries b ≡ₚ (h, p) :: chain_entries b' else b' = b /\ forall h, (h, p) ∉ chain_entries b.
Proof.
  intros (es & k & -> & Hl & E)%chain_cases Hp. rewrite E. unfold qht_remove__locked.
  pose proof (find_pointer_chain es k p Hl) as Hf. destruct (find_pointer _ _) as [i|].
  - destruct Hf as [h Hi]. destruct (remove_entry_chain es k i (h, p) Hl Hi) as [k' ->]. cbn [mbind option_bind].
    pose proof (swap_remove_perm es i _ Hi) as Hperm.
    assert (Forall live (swap_remove es i)) as Hs by (rewrite Hperm in Hl; by apply Forall_cons in Hl as [_ ?]).
    exists true, (swap_remove es i ++ replicate k' (0, 0)). split; [done|]. split; [by apply chain_ok_app|].
    exists h. by rewrite chain_entries_app.
  - exists false, (es ++ replicate k (0, 0)). split; [done|]. split; [by apply chain_ok_app|]. split; [done|].
    intros h Hin. destruct Hp. by apply (Hf h).
Qed.

(** ** Maps *)

(** A list of lists in which one of them is replaced. *)
Lemma bind_insert_perm {A B} (f : A -> list B) (l : list A) i x y :
  l !! i = Some x -> (<[i := y]> l ≫= f) ++ f x ≡ₚ (l ≫= f) ++ f y.
Proof.
  intros Hi. rewrite <- (take_drop_middle l i x Hi) at 2. rewrite insert_take_drop by (by eapply lookup_lt_Some).
  rewrite !bind_app. cbn [mbind list_bind]. rewrite <- !app_assoc. apply Permutation_app_head.
  rewrite (Permutation_app_comm (f y)), (Permutation_app_comm (f x)), <- !app_assoc.
  apply Permutation_app_head, Permutation_app_comm.
Qed.

Record map_ok (m : qht_map) : Prop := {
  mo_size : exists k, n_buckets m = (2 ^ k)%nat;
  mo_chains : forall i b, buckets m !! i = Some b ->
    chain_ok b /\ forall h p, (h, p) ∈ chain_entries b -> uint 32 h /\ qht_map_to_bucket m h = i
}.

Lemma map_entries_in m i b e : buckets m !! i = Some b -> e ∈ chain_entries b -> e ∈ map_entries m.
Proof. intros Hb He. apply list_elem_of_bind. exists b. split; [done|]. by eapply list_elem_of_lookup_2. Qed.

(** Every hash has a bucket. *)
Lemma bucket_lt m h : map_ok m -> 0 <= h -> (qht_map_to_bucket m h < n_buckets m)%nat.
Proof.
  intros [[k Hk] _] Hh. unfold qht_map_to_bucket. rewrite Hk.
  replace (Z.of_nat (2 ^ k) - 1) with (Z.ones (Z.of_nat k)) by (rewrite Z.ones_equiv, Nat2Z.inj_pow; lia).
  rewrite Z.land_ones by lia. pose proof (Z.mod_pos_bound h (2 ^ Z.of_nat k) ltac:(lia)).
  rewrite <- (Nat2Z.id (2 ^ k)). rewrite Nat2Z.inj_pow. apply Z2Nat.inj_lt; lia.
Qed.

Lemma bucket_of m h : map_ok m -> 0 <= h -> exists b, buckets m !! qht_map_to_bucket m h = Some b.
Proof. intros Hm Hh. apply lookup_lt_is_Some_2, bucket_lt; done. Qed.

(** The entries with a hash are those of its bucket. *)
Lemma map_entries_bucket m h b p :
  map_ok m -> uint 32 h -> buckets m !! qht_map_to_bucket m h = Some b -> (h, p) ∈ map_entries m <-> (h, p) ∈ chain_entries b.
Proof.
  intros Hm Hh Hb. split; [|by eapply map_entries_in].
  intros (b' & Hp & Hb')%list_elem_of_bind. apply list_elem_of_lookup in Hb' as [i Hi].
  destruct (mo_chains _ Hm i b' Hi) as [_ Hc]. destruct (Hc h p Hp) as [_ E]. rewrite <- E in Hi. congruence.
Qed.

Lemma map_ok_update m i b b' n t :
  map_ok m -> buckets m !! i = Some b -> chain_ok b' ->
  (forall h p, (h, p) ∈ chain_entries b' -> uint 32 h /\ qht_map_to_bucket m h = i) ->
  map_ok (mk_qht_map (<[i := b']> (buckets m)) n t).
Proof.
  intros [Hk Hc] Hi Hb' Hin. assert (forall h, qht_map_to_bucket (mk_qht_map (<[i := b']> (buckets m)) n t) h = qht_map_to_bucket m h) as E.
  { intros h. unfold qht_map_to_bucket, n_buckets. simpl. by rewrite length_insert. }
  split; [unfold n_buckets; simpl; by rewrite length_insert|]. simpl. intros j c Hj. setoid_rewrite E.
  apply list_lookup_insert_Some in Hj as [(-> & -> & _)|[_ Hj]]; [done|by apply Hc].
Qed.

Lemma insert_map_ok cmp m p hash :
  map_ok m -> uint 32 hash -> p <> 0 ->
  exists prev m' nr, qht_insert__locked cmp m p hash = Some (prev, m', nr) /\ map_ok m' /\ n_buckets m' = n_buckets m /\
  inserted cmp (map_entries m) p hash prev (map_entries m').
Proof.
  intros Hm Hh Hp. destruct (bucket_of m hash Hm ltac:(unfold uint in Hh; lia)) as [b Hb].
  destruct (mo_chains _ Hm _ _ Hb) as [Hbo Hbi]. unfold qht_insert__locked. rewrite Hb. cbn [mbind option_bind].
  pose proof (insert_chain cmp b p hash Hbo Hp) as Hins. destruct (insert_entry cmp b p hash) as [q|[b' added]].
  - exists (Some q), m, false. split; [done|]. split; [done|]. split; [done|]. split; [done|].
    by rewrite (map_entries_bucket m hash b) by done.
  - destruct Hins as (Hb' & E & Hc). eexists None, _, _. split; [done|]. split; [|split].
    + apply (map_ok_update m _ b); [done..|]. intros h q. rewrite E, elem_of_app, list_elem_of_singleton.
      intros [Hq|[= -> ->]]; [by apply Hbi with q|done].
    + unfold n_buckets. simpl. by rewrite length_insert.
    + split; [|intros q Hq; apply Hc; by apply (map_entries_bucket m)].
      unfold map_entries. simpl. apply (Permutation_app_inv_r (chain_entries b)).
      rewrite (bind_insert_perm chain_entries _ _ _ _ Hb), E, Permutation_app_comm, <- app_assoc.
      by rewrite (Permutation_app_comm (chain_entries b)).
Qed.

Lemma remove_map_ok ht p hash :
  map_ok (map ht) -> uint 32 hash -> p <> 0 -> (forall h, (h, p) ∈ map_entries (map ht) -> h = hash) ->
  exists ret ht', qht_remove ht p hash = Some (ret, ht') /\ map_ok (map ht') /\
  removed (map_entries (map ht)) p hash ret (map_entries (map ht')).
Proof.
  intros Hm Hh Hp Hone. set (m := map ht) in *. destruct (bucket_of m hash Hm ltac:(unfold uint in Hh; lia)) as [b Hb].
  destruct (mo_chains _ Hm _ _ Hb) as [Hbo Hbi]. unfold qht_remove. fold m. rewrite Hb. cbn [mbind option_bind].
  destruct (remove_chain b p Hbo Hp) as (ret & b' & -> & Hb' & Hr). cbn [mbind option_bind].
  eexists ret, _. split; [done|]. simpl. destruct ret.
  - destruct Hr as [h Hr]. assert (h = hash) as ->.
    { apply Hone, (map_entries_in m _ b _ Hb). rewrite Hr. left. }
    split.
    + apply (map_ok_update m _ b); [done..|]. intros h q Hq. apply Hbi with q. rewrite Hr. by right.
    + unfold removed, map_entries. simpl. apply (Permutation_app_inv_r (chain_entries b')).
      rewrite <- (bind_insert_perm chain_entries _ _ _ b' Hb), Hr. cbn [app]. by rewrite <- Permutation_middle.
  - destruct Hr as [-> Hr]. rewrite list_insert_id by done. split; [by destruct m|]. split; [by destruct m|].
    rewrite (map_entries_bucket m hash b) by done. apply Hr.
Qed.

(** ** Tables *)

Record qht_ok (cmp : Z -> Z -> bool) (ht : qht) : Prop := {
  qo_map : map_ok (map ht);
  qo_cmp : cmp_ok cmp (map_entries (map ht));
  qo_ptrs : NoDup (snd <$> map_entries (map ht))
}.

Lemma map_entries_facts m h p : map_ok m -> (h, p) ∈ map_entries m -> uint 32 h /\ p <> 0.
Proof.
  intros Hm (b & Hp & Hb)%list_elem_of_bind. apply list_elem_of_lookup in Hb as [i Hi].
  destruct (mo_chains _ Hm _ _ Hi) as [_ Hc]. split; [by apply (Hc h p)|].
  pose proof (chain_entries_live b) as Hl. rewrite Forall_forall in Hl. by apply (Hl _ Hp).
Qed.

Lemma cmp_ok_perm cmp es es' : es ≡ₚ es' -> cmp_ok cmp es -> cmp_ok cmp es'.
Proof. intros E H h p q Hp Hq. rewrite <- E in Hp, Hq. by apply (H h). Qed.

Lemma head_init_ok n : chain_ok (replicate n (0, 0)) /\ chain_entries (replicate n (0, 0)) = [].
Proof. split; [apply (chain_ok_app [])|apply (chain_entries_app [])]; constructor. Qed.

Lemma bind_no_entries (bs : list (list (Z * Z))) : (forall b, b ∈ bs -> chain_entries b = []) -> (b ← bs; chain_entries b) = [].
Proof.
  induction bs as [|b bs IH]; intros H; [done|]. cbn [mbind list_bind]. rewrite H by left. apply IH. intros; apply H; by right.
Qed.

Lemma map_create_ok k : map_ok (qht_map_create (2 ^ k)) /\ n_buckets (qht_map_create (2 ^ k)) = (2 ^ k)%nat /\ map_entries (qht_map_create (2 ^ k)) = [].
Proof.
  assert (n_buckets (qht_map_create (2 ^ k)) = (2 ^ k)%nat) as En by apply length_replicate.
  destruct (head_init_ok QHT_BUCKET_ENTRIES) as [Hok He]. split; [|split; [done|]].
  - split; [by exists k|]. intros i b Hb. apply lookup_replicate in Hb as [-> _]. split; [done|].
    unfold qht_head_init. rewrite He. by intros ? ? ?%elem_of_nil.
  - apply bind_no_entries. intros b Hb. apply elem_of_replicate in Hb as [-> _]. done.
Qed.

Lemma copy_entries_ok cmp es : forall new,
  map_ok new -> (forall h p, (h, p) ∈ es -> uint 32 h /\ p <> 0) -> cmp_ok cmp (es ++ map_entries new) ->
  NoDup (snd <$> es ++ map_entries new) ->
  exists new', copy_entries cmp new es = Some new' /\ map_ok new' /\ map_entries new' ≡ₚ es ++ map_entries new.
Proof.
  induction es as [|[h p] es IH]; intros new Hm Hes Hc Hn; [by exists new|]. cbn [copy_entries].
  destruct (Hes h p) as [Hh Hp]; [left|].
  destruct (insert_map_ok cmp new p h Hm Hh Hp) as (prev & m' & nr & -> & Hm' & _ & Hins). cbn [mbind option_bind].
  cbn [app fmap list_fmap snd] in Hn. apply NoDup_cons in Hn as [Hnew Hn]. destruct prev as [q|].
  - destruct Hins as (_ & Hq & Ec). rewrite (Hc h q p) in Ec; [done|right; apply elem_of_app; by right|left|].
    intros ->. apply Hnew, list_elem_of_fmap. exists (h, p). split; [done|]. apply elem_of_app. by right.
  - destruct Hins as [Hp' _].
    assert (es ++ map_entries m' ≡ₚ ((h, p) :: es) ++ map_entries new) as E by (rewrite Hp'; cbn [app]; by rewrite Permutation_middle).
    destruct (IH m') as (new' & E1 & E2 & E3); [done|intros; apply Hes; by right| | |].
    + by apply (cmp_ok_perm cmp _ _ (symmetry E)).
    + rewrite E. cbn [app fmap list_fmap snd]. by constructor.
    + exists new'. split; [done|]. split; [done|]. by rewrite E3.
Qed.

(** Growing keeps the entries. *)
Lemma grow_ok cmp ht : qht_ok cmp ht -> exists ht', qht_grow_maybe cmp ht = Some ht' /\ qht_ok cmp ht' /\ map_entries (map ht') ≡ₚ map_entries (map ht).
Proof.
  intros [Hm Hc Hn]. unfold qht_grow_maybe. destruct (qht_map_needs_resize (map ht)); [|by exists ht].
  destruct (mo_size _ Hm) as [k Hk]. rewrite Hk. replace (2 ^ k * 2)%nat with (2 ^ S k)%nat by (simpl; lia).
  destruct (map_create_ok (S k)) as (Hm' & En & Ee). unfold qht_do_resize_reset. rewrite En, Hk.
  destruct (Nat.eqb_spec (2 ^ S k) (2 ^ k)) as [E|_]; [apply Nat.pow_inj_r in E; lia|].
  destruct (copy_entries_ok cmp (map_entries (map ht)) _ Hm') as (m' & -> & Hm2 & E).
  - intros h p. by apply map_entries_facts.
  - by rewrite Ee, app_nil_r.
  - by rewrite Ee, app_nil_r.
  - rewrite Ee, app_nil_r in E. eexists. split; [done|]. simpl. split; [|done]. split; simpl; [done| |by rewrite E].
    by apply (cmp_ok_perm cmp (map_entries (map ht))).
Qed.

Lemma qht_insert_ok cmp ht p hash :
  qht_ok cmp ht -> (forall a b, cmp a b = cmp b a) -> uint 32 hash -> p <> 0 -> p ∉ snd <$> map_entries (map ht) ->
  exists prev ht', qht_insert cmp ht p hash = Some (prev, ht') /\ qht_ok cmp ht' /\
  inserted cmp (map_entries (map ht)) p hash prev (map_entries (map ht')).
Proof.
  intros [Hm Hc Hn] Hsym Hh Hp Hnew. unfold qht_insert.
  destruct (insert_map_ok cmp (map ht) p hash Hm Hh Hp) as (prev & m' & nr & -> & Hm' & _ & Hins). cbn [mbind option_bind].
  set (ht1 := mk_qht m' (auto_resize ht)).
  assert (qht_ok cmp ht1) as Hok.
  { destruct prev as [q|]; destruct Hins as [E Hq]; split; simpl; [done|by apply (cmp_ok_perm cmp _ _ (symmetry E))|by rewrite E|done| |].
    - apply (cmp_ok_perm cmp _ _ (symmetry E)). intros h a b Ha Hb Hab. apply elem_of_cons in Ha as [Ha|Ha], Hb as [Hb|Hb]; simplify_eq.
      + rewrite Hsym. by apply Hq.
      + by apply Hq.
      + by apply (Hc h).
    - rewrite E. cbn [fmap list_fmap snd]. by constructor. }
  destruct (nr && auto_resize ht1).
  - destruct (grow_ok cmp ht1 Hok) as (ht2 & -> & Hok2 & E2). exists prev, ht2. split; [done|]. split; [done|].
    destruct prev; destruct Hins as [E Hq]; (split; [rewrite E2; exact E|done]).
  - by exists prev, ht1.
Qed.

Lemma reset_chain b : chain_ok b -> chain_ok (qht_bucket_reset__locked b) /\ chain_entries (qht_bucket_reset__locked b) = [].
Proof.
  intros (es & k & -> & Hl & _)%chain_cases.
  assert (qht_bucket_reset__locked (es ++ replicate k (0, 0)) = replicate (length es + k) (0, 0)) as ->; [|apply head_init_ok].
  induction Hl as [|[h p] es He _ IH]; simpl; [by destruct k|]. unfold live in He. simpl in He.
  by rewrite (proj2 (Z.eqb_neq p 0)), IH by done.
Qed.

Lemma qht_empty_ok cmp m auto : map_ok m -> map_entries m = [] -> qht_ok cmp (mk_qht m auto).
Proof. intros Hmo E. split; simpl; [done|rewrite E; by intros ? ? ? ?%elem_of_nil|rewrite E; constructor]. Qed.

Lemma qht_init_ok cmp n k mode : qht_elems_to_buckets n = (2 ^ k)%nat -> qht_ok cmp (qht_init n mode) /\ map_entries (map (qht_init n mode)) = [].
Proof. intros E. destruct (map_create_ok k) as (H1 & H2 & H3). unfold qht_init. rewrite E. split; [by apply qht_empty_ok|done]. Qed.

Lemma qht_reset_ok cmp ht k n :
  qht_elems_to_buckets n = (2 ^ k)%nat -> map_ok (map ht) ->
  exists resized ht', qht_reset_size cmp ht n = Some (resized, ht') /\ qht_ok cmp ht' /\ map_entries (map ht') = [].
Proof.
  intros En Hm. unfold qht_reset_size, qht_do_resize_reset. rewrite En.
  set (old := qht_map_reset__all_locked (map ht)).
  assert (n_buckets old = n_buckets (map ht)) as Eo by (apply length_fmap).
  assert (map_entries old = []) as Ee.
  { apply bind_no_entries. intros b (c & -> & Hc)%list_elem_of_fmap. apply list_elem_of_lookup in Hc as [i Hi].
    apply reset_chain. by apply (mo_chains _ Hm i). }
  destruct (Nat.eqb_spec (2 ^ k) (n_buckets (map ht))) as [E|E]; cbn [negb].
  - eexists _, _. split; [done|]. split; [|done]. apply qht_empty_ok; [|done].
    split; [rewrite Eo; exists k; done|]. unfold old. simpl. intros i b Hb. rewrite list_lookup_fmap in Hb.
    apply fmap_Some in Hb as (c & Hc & ->). destruct (reset_chain c) as [H1 H2]; [by apply (mo_chains _ Hm i)|].
    rewrite H2. split; [done|]. by intros ? ? ?%elem_of_nil.
  - destruct (map_create_ok k) as (Hm' & En' & Ee'). rewrite En', Eo. destruct (Nat.eqb_spec (2 ^ k) (n_buckets (map ht))); [done|].
    rewrite Ee. cbn [copy_entries mbind option_bind]. eexists _, _. split; [done|]. split; [by apply qht_empty_ok|done].
Qed.

Lemma htable_size : qht_elems_to_buckets CODE_GEN_HTABLE_SIZE = (2 ^ 13)%nat.
Proof. vm_compute. reflexivity. Qed.

#[export] Instance qht_table : HashTable qht := {
  ht_elems ht := map_entries (map ht);
  ht_ok := qht_ok;
  ht_lookup func ht hash := qht_lookup_custom func ht hash;
  ht_insert := qht_insert;
  ht_remove := qht_remove;
  ht_reset cmp ht := snd <$> qht_reset_size cmp ht CODE_GEN_HTABLE_SIZE
}.

Lemma qht_lookup_ok func ht hash : map_ok (map ht) -> uint 32 hash -> found (map_entries (map ht)) func hash (qht_lookup_custom func ht hash).
Proof.
  intros Hm Hh. unfold qht_lookup_custom. destruct (bucket_of (map ht) hash Hm ltac:(unfold uint in Hh; lia)) as [b Hb].
  rewrite Hb. cbn [mbind option_bind]. destruct (mo_chains _ Hm _ _ Hb) as [Hbo _].
  pose proof (lookup_chain func b hash Hbo) as Hf. destruct (qht_do_lookup _ _ _) as [p|]; simpl in *.
  - by rewrite (map_entries_bucket _ hash b) by done.
  - intros p. rewrite (map_entries_bucket _ hash b) by done. apply Hf.
Qed.

Lemma qht_remove_ok cmp t p hash : qht_ok cmp t -> uint 32 hash -> p <> 0 -> (forall h, (h, p) ∈ map_entries (map t) -> h = hash) ->
  exists ret t', qht_remove t p hash = Some (ret, t') /\ qht_ok cmp t' /\ removed (map_entries (map t)) p hash ret (map_entries (map t')).
Proof.
  intros [Hm Hc Hn] Hh Hp Hone. destruct (remove_map_ok t p hash Hm Hh Hp Hone) as (ret & t' & E & Hm' & Hr).
  exists ret, t'. split; [done|]. split; [|done]. split; [done| |]; destruct ret; simpl in Hr.
  - intros h a b Ha Hb. apply (Hc h); rewrite Hr; by right.
  - destruct Hr as [Hr _]. by apply (cmp_ok_perm cmp _ _ (symmetry Hr)).
  - rewrite Hr in Hn. cbn in Hn. by apply NoDup_cons in Hn as [_ ?].
  - destruct Hr as [Hr _]. by rewrite Hr.
Qed.

#[export] Instance qht_laws : HashTableLaws qht.
Proof.
  split; cbn -[qht_reset_size].
  - intros cmp t [Hm Hc Hn]. split; [done|]. split; [done|]. intros h p. by apply map_entries_facts.
  - intros cmp cmp' t H [Hm Hc Hn]. by split.
  - intros cmp func t hash [Hm _ _]. by apply qht_lookup_ok.
  - intros cmp t p hash. apply qht_insert_ok.
  - intros cmp t p hash. apply qht_remove_ok.
  - intros cmp t [Hm _ _]. destruct (qht_reset_ok cmp t 13 CODE_GEN_HTABLE_SIZE htable_size Hm) as (r & t' & -> & H1 & H2).
    by exists t'.
Qed.

(** ** A round trip *)

(** C14: an element that is inserted is found by its hash, lookups with other
    hashes see what they saw before, and removing it gives back the same
    entries; the invariant of the table holds all the way, also when the
    insertion made the table grow. *)
Theorem qht_insert_remove_roundtrip cmp func ht p hash :
  qht_ok cmp ht -> (forall a b, cmp a b = cmp b a) -> uint 32 hash -> p <> 0 -> p ∉ snd <$> map_entries (map ht) ->
  (forall q, (hash, q) ∈ map_entries (map ht) -> cmp q p = false /\ func q = false) -> func p = true ->
  exists ht1 ht2, qht_insert cmp ht p hash = Some (None, ht1) /\ qht_ok cmp ht1 /\ qht_lookup_custom func ht1 hash = Some p /\
  (forall f h, uint 32 h -> h <> hash -> qht_lookup_custom f ht1 h = None <-> qht_lookup_custom f ht h = None) /\
  qht_remove ht1 p hash = Some (true, ht2) /\ qht_ok cmp ht2 /\ map_entries (map ht2) ≡ₚ map_entries (map ht) /\ qht_lookup_custom func ht2 hash = None.
Proof.
  intros Hok Hsym Hh Hp Hnot Hfresh Hf. destruct (qht_insert_ok cmp ht p hash Hok Hsym Hh Hp Hnot) as (prev & ht1 & E1 & Hok1 & Hins).
  destruct prev as [q|]; [destruct Hins as (_ & Hq & Eq); by rewrite (proj1 (Hfresh q Hq)) in Eq|]. destruct Hins as (Hperm & _).
  assert (forall h q, (h, q) ∈ map_entries (map ht1) <-> (h, q) = (hash, p) \/ (h, q) ∈ map_entries (map ht)) as Hin by (intros h q; by rewrite Hperm, elem_of_cons).
  assert (forall h, (h, p) ∈ map_entries (map ht1) -> h = hash) as Hone.
  { intros h [[= ->]|Hx]%Hin; [done|]. destruct Hnot. apply list_elem_of_fmap. by exists (h, p). }
  destruct (qht_remove_ok cmp ht1 p hash Hok1 Hh Hp Hone) as (ret & ht2 & E2 & Hok2 & Hrem).
  assert (ret = true) as ->. { destruct ret; [done|]. destruct Hrem as [_ Hno]. destruct Hno. apply Hin. by left. }
  cbn in Hrem. rewrite Hperm in Hrem. apply Permutation_cons_inv in Hrem.
  exists ht1, ht2. split; [done|]. split; [done|]. split; [|split; [|split; [done|]; split; [done|]; split; [done|]]].
  - pose proof (qht_lookup_ok func ht1 hash (qo_map _ _ Hok1) Hh) as Hl. destruct (qht_lookup_custom func ht1 hash) as [q|].
    + destruct Hl as [[[= ->]|Hq]%Hin Hfq]; [done|]. by rewrite (proj2 (Hfresh q Hq)) in Hfq.
    + rewrite (Hl p) in Hf; [done|]. apply Hin. by left.
  - intros f h Hh' Hne. pose proof (qht_lookup_ok f ht1 h (qo_map _ _ Hok1) Hh') as Hl1. pose proof (qht_lookup_ok f ht h (qo_map _ _ Hok) Hh') as Hl.
    destruct (qht_lookup_custom f ht1 h) as [q|], (qht_lookup_custom f ht h) as [r|]; try done.
    + destruct Hl1 as [[[= ? _]|Hq]%Hin Hfq]; [done|]. by rewrite (Hl q Hq) in Hfq.
    + destruct Hl as [Hr Hfr]. rewrite (Hl1 r) in Hfr; [done|]. apply Hin. by right.
  - pose proof (qht_lookup_ok func ht2 hash (qo_map _ _ Hok2) Hh) as Hl. destruct (qht_lookup_custom func ht2 hash) as [q|]; [|done].
    destruct Hl as [Hq Hfq]. rewrite <- Hrem in Hq. by rewrite (proj2 (Hfresh q Hq)) in Hfq.
Qed.

(** A table of one bucket with eight elements, four of them in a bucket that was
    added; the next insertion makes it grow. *)
Definition example_table : qht :=
  foldl (fun ht p => match qht_insert Z.eqb ht p p with Some (_, ht) => ht | None => ht end) (qht_init 4 true) [3; 5; 7; 9; 11; 13; 15; 17].

Lemma example_table_eq : example_table = mk_qht (mk_qht_map [(fun p => (p, p)) <$> [3; 5; 7; 9; 11; 13; 15; 17]] 1 1) true.
Proof. vm_compute. reflexivity. Qed.

Lemma example_table_ok : qht_ok Z.eqb example_table.
Proof.
  rewrite example_table_eq. split.
  - split; [by exists 0%nat|]. intros [|i] b; [|by destruct i]. intros [= <-]. split; [by exists 0%nat|].
    intros h p Hx. repeat (apply elem_of_cons in Hx as [[= -> ->]|Hx]; [done|]). by apply elem_of_nil in Hx.
  - intros h p q _ _ Hne. by apply Z.eqb_neq.
  - vm_compute. repeat constructor; repeat (apply not_elem_of_cons; split; [done|]); apply not_elem_of_nil.
Qed.

Lemma qht_insert_remove_roundtrip_witness :
  exists ht1 ht2, qht_insert Z.eqb example_table 19 19 = Some (None, ht1) /\ qht_ok Z.eqb ht1 /\ qht_lookup_custom (Z.eqb 19) ht1 19 = Some 19 /\
  (forall f h, uint 32 h -> h <> 19 -> qht_lookup_custom f ht1 h = None <-> qht_lookup_custom f example_table h = None) /\
  qht_remove ht1 19 19 = Some (true, ht2) /\ qht_ok Z.eqb ht2 /\ map_entries (map ht2) ≡ₚ map_entries (map example_table) /\
  qht_lookup_custom (Z.eqb 19) ht2 19 = None.
Proof.
  apply (qht_insert_remove_roundtrip Z.eqb (Z.eqb 19) example_table 19 19).
  - apply example_table_ok.
  - apply Z.eqb_sym.
  - done.
  - done.
  - rewrite example_table_eq. vm_compute. repeat (apply not_elem_of_cons; split; [done|]). apply not_elem_of_nil.
  - rewrite example_table_eq. intros q Hq. repeat (apply elem_of_cons in Hq as [[=]|Hq]). by apply elem_of_nil in Hq.
  - done.
Defined.

(** The insertion gave the table a second bucket. *)
Example qht_grows : (fun r => (n_buckets (map r.2), qht_lookup_custom (Z.eqb 3) r.2 3)) <$> qht_insert Z.eqb example_table 19 19 = Some (2%nat, Some 3).
Proof. vm_compute. reflexivity. Qed.
