(* ===== verification/Bitmap.v ===== *)
(** * Bitmaps ([qemu/util/bitmap.c], [qemu/util/bitops.c])

    A bitmap is an array of 64-bit words; reading or writing past its end gives
    [None].  Searches and range updates work on words at a time. *)

From S2P Require Import Prelude BitOps.

Abbreviation bitmap := (list Z).

Definition BITS_PER_LONG : Z := 64.
Definition BIT_WORD (nr : Z) : Z := nr / BITS_PER_LONG.
Definition BITS_TO_LONGS (nr : Z) : Z := (nr + (BITS_PER_LONG - 1)) / BITS_PER_LONG.

(** [~0UL] and [~w] *)
Definition ALL_ONES : Z := 2 ^ 64 - 1.
Definition not64 (w : Z) : Z := u64 (Z.lnot w).

Definition BITMAP_FIRST_WORD_MASK (start : Z) : Z := u64 (Z.shiftl ALL_ONES (Z.land start (BITS_PER_LONG - 1))).
Definition BITMAP_LAST_WORD_MASK (nbits : Z) : Z := Z.shiftr ALL_ONES (Z.land (- nbits) (BITS_PER_LONG - 1)).

(** [bm[p]] and [bm[p] = f(bm[p])] *)
Definition word (bm : bitmap) (p : Z) : option Z := if 0 <=? p then bm !! Z.to_nat p else None.
Definition update_word (f : Z -> Z) (p : Z) (bm : bitmap) : option bitmap := w ← word bm p; Some (<[Z.to_nat p := f w]> bm).

(** [bitmap_new] *)
Definition bitmap_new (nbits : Z) : bitmap := replicate (Z.to_nat (BITS_TO_LONGS nbits)) 0.

(** [test_bit] *)
Definition test_bit (nr : Z) (bm : bitmap) : option bool := w ← word bm (BIT_WORD nr); Some (Z.testbit w (Z.land nr (BITS_PER_LONG - 1))).

(** ** Single bits *)

Definition BIT_MASK (nr : Z) : Z := Z.shiftl 1 (nr mod BITS_PER_LONG).

Definition set_bit (nr : Z) (bm : bitmap) : option bitmap := update_word (fun w => Z.lor w (BIT_MASK nr)) (BIT_WORD nr) bm.
Definition clear_bit (nr : Z) (bm : bitmap) : option bitmap := update_word (fun w => Z.land w (not64 (BIT_MASK nr))) (BIT_WORD nr) bm.
Definition change_bit (nr : Z) (bm : bitmap) : option bitmap := update_word (fun w => Z.lxor w (BIT_MASK nr)) (BIT_WORD nr) bm.

(** [test_and_set_bit], [test_and_clear_bit] and [test_and_change_bit] return
    the old value of the bit that the first argument changes. *)
Definition test_and (change : Z -> bitmap -> option bitmap) (nr : Z) (bm : bitmap) : option (bitmap * bool) :=
  old ← word bm (BIT_WORD nr); bm ← change nr bm; Some (bm, negb (Z.land old (BIT_MASK nr) =? 0)).

Definition test_and_set_bit := test_and set_bit.
Definition test_and_clear_bit := test_and clear_bit.
Definition test_and_change_bit := test_and change_bit.

(** ** Setting and clearing a range *)

(** [f mask w] is the word with the bits of the mask set or cleared. *)
Definition set_mask (mask w : Z) : Z := Z.lor w mask.
Definition clear_mask (mask w : Z) : Z := Z.land w (not64 mask).

Fixpoint range_loop (f : Z -> Z -> Z) (fuel : nat) (bm : bitmap) (p nr bits mask : Z) : option (bitmap * Z * Z * Z) :=
  match fuel with
  | O => None
  | S fuel =>
    if 0 <=? nr - bits then bm ← update_word (f mask) p bm; range_loop f fuel bm (p + 1) (nr - bits) BITS_PER_LONG ALL_ONES
    else Some (bm, p, nr, mask)
  end.

Definition update_range (f : Z -> Z -> Z) (bm : bitmap) (start nr : Z) : option bitmap :=
  if (0 <=? start) && (0 <=? nr) then
    let size := start + nr in
    '(bm, p, nr, mask) ← range_loop f (S (length bm)) bm (BIT_WORD start) nr (BITS_PER_LONG - start mod BITS_PER_LONG) (BITMAP_FIRST_WORD_MASK start);
    if negb (nr =? 0) then update_word (f (Z.land mask (BITMAP_LAST_WORD_MASK size))) p bm else Some bm
  else None.

Definition qemu_bitmap_set : bitmap -> Z -> Z -> option bitmap := update_range set_mask.
Definition qemu_bitmap_clear : bitmap -> Z -> Z -> option bitmap := update_range clear_mask.

(** The atomic variants write full words without reading them, or test them. *)
Fixpoint set_words (fuel : nat) (bm : bitmap) (p nr : Z) : option (bitmap * Z * Z) :=
  match fuel with
  | O => None
  | S fuel => if BITS_PER_LONG <=? nr then bm ← update_word (fun _ => ALL_ONES) p bm; set_words fuel bm (p + 1) (nr - BITS_PER_LONG) else Some (bm, p, nr)
  end.

Definition bitmap_set_atomic (bm : bitmap) (start nr : Z) : option bitmap :=
  if (0 <=? start) && (0 <=? nr) then
    let size := start + nr in
    let p := BIT_WORD start in
    let bits := BITS_PER_LONG - start mod BITS_PER_LONG in
    let mask := BITMAP_FIRST_WORD_MASK start in
    '(bm, p, nr, bits, mask) ← (if 0 <? nr - bits
      then bm ← update_word (set_mask mask) p bm; Some (bm, p + 1, nr - bits, BITS_PER_LONG, ALL_ONES)
      else Some (bm, p, nr, bits, mask));
    '(bm, p, nr) ← (if bits =? BITS_PER_LONG then set_words (S (length bm)) bm p nr else Some (bm, p, nr));
    if negb (nr =? 0) then update_word (set_mask (Z.land mask (BITMAP_LAST_WORD_MASK size))) p bm else Some bm
  else None.

Fixpoint clear_words (fuel : nat) (bm : bitmap) (p nr dirty : Z) : option (bitmap * Z * Z * Z) :=
  match fuel with
  | O => None
  | S fuel =>
    if BITS_PER_LONG <=? nr then
      w ← word bm p;
      '(bm, dirty) ← (if negb (w =? 0) then bm ← update_word (fun _ => 0) p bm; Some (bm, Z.lor dirty w) else Some (bm, dirty));
      clear_words fuel bm (p + 1) (nr - BITS_PER_LONG) dirty
    else Some (bm, p, nr, dirty)
  end.

Definition bitmap_test_and_clear_atomic (bm : bitmap) (start nr : Z) : option (bitmap * bool) :=
  if (0 <=? start) && (0 <=? nr) then
    let size := start + nr in
    let p := BIT_WORD start in
    let bits := BITS_PER_LONG - start mod BITS_PER_LONG in
    let mask := BITMAP_FIRST_WORD_MASK start in
    '(bm, p, nr, bits, mask, dirty) ← (if 0 <? nr - bits
      then w ← word bm p; bm ← update_word (clear_mask mask) p bm; Some (bm, p + 1, nr - bits, BITS_PER_LONG, ALL_ONES, Z.land w mask)
      else Some (bm, p, nr, bits, mask, 0));
    '(bm, p, nr, dirty) ← (if bits =? BITS_PER_LONG then clear_words (S (length bm)) bm p nr dirty else Some (bm, p, nr, dirty));
    if negb (nr =? 0) then
      let mask := Z.land mask (BITMAP_LAST_WORD_MASK size) in
      w ← word bm p;
      bm ← update_word (clear_mask mask) p bm;
      Some (bm, negb (Z.lor dirty (Z.land w mask) =? 0))
    else Some (bm, negb (dirty =? 0))
  else None.

(** ** Searches *)

(** Where a search ends: with the first bit of a word that is not zero. *)
Definition found_middle (result tmp : Z) : Z := result + ctz64 tmp.

Fixpoint skip4 (fuel : nat) (bm : bitmap) (p size result : Z) : option (Z + Z * Z * Z) :=
  match fuel with
  | O => None
  | S fuel =>
    if 4 * BITS_PER_LONG <=? size then
      tmp ← word bm p; d1 ← word bm (p + 1); d2 ← word bm (p + 2); d3 ← word bm (p + 3);
      if negb (tmp =? 0) then Some (inl (found_middle result tmp))
      else if negb (Z.lor (Z.lor d1 d2) d3 =? 0) then Some (inr (p, size, result))
      else skip4 fuel bm (p + 4) (size - 4 * BITS_PER_LONG) (result + 4 * BITS_PER_LONG)
    else Some (inr (p, size, result))
  end.

(** [w] is a word of the array, or its complement. *)
Fixpoint skip1 (g : Z -> Z) (fuel : nat) (bm : bitmap) (p size result : Z) : option (Z + Z * Z * Z) :=
  match fuel with
  | O => None
  | S fuel =>
    if BITS_PER_LONG <=? size then
      tmp ← word bm p;
      if negb (g tmp =? 0) then Some (inl (found_middle result (g tmp)))
      else skip1 g fuel bm (p + 1) (size - BITS_PER_LONG) (result + BITS_PER_LONG)
    else Some (inr (p, size, result))
  end.

(** [found_first] cuts the last word at [size]. *)
Definition found_first (tmp size result : Z) : Z :=
  let tmp := Z.land tmp (Z.shiftr ALL_ONES (BITS_PER_LONG - size)) in
  if tmp =? 0 then result + size else found_middle result tmp.

Definition found_first_zero (tmp size result : Z) : Z :=
  let tmp := Z.lor tmp (u64 (Z.shiftl ALL_ONES size)) in
  if tmp =? ALL_ONES then result + size else found_middle result (not64 tmp).

(** The search from word [p] on; what a loop has found is the result. *)
Definition search_last (first : Z -> Z -> Z -> Z) (bm : bitmap) (r : Z + Z * Z * Z) : option Z :=
  match r with
  | inl r => Some r
  | inr (p, size, result) => if size =? 0 then Some result else tmp ← word bm p; Some (first tmp size result)
  end.

Definition search_words (bm : bitmap) (p size result : Z) : option Z :=
  r ← skip4 (S (length bm)) bm p size result;
  match r with
  | inl r => Some r
  | inr (p, size, result) => r ← skip1 (fun w => w) (S (length bm)) bm p size result; search_last found_first bm r
  end.

Definition search_zero_words (bm : bitmap) (p size result : Z) : option Z :=
  r ← skip1 not64 (S (length bm)) bm p size result; search_last found_first_zero bm r.

Definition find_next_bit (bm : bitmap) (size offset : Z) : option Z :=
  if size <=? offset then Some size
  else
    let p := BIT_WORD offset in
    let result := offset - offset mod BITS_PER_LONG in
    let size := size - result in
    let offset := offset mod BITS_PER_LONG in
    if negb (offset =? 0) then
      tmp ← word bm p;
      let tmp := Z.land tmp (u64 (Z.shiftl ALL_ONES offset)) in
      if size <? BITS_PER_LONG then Some (found_first tmp size result)
      else if negb (tmp =? 0) then Some (found_middle result tmp)
      else search_words bm (p + 1) (size - BITS_PER_LONG) (result + BITS_PER_LONG)
    else search_words bm p size result.

Definition find_next_zero_bit (bm : bitmap) (size offset : Z) : option Z :=
  if size <=? offset then Some size
  else
    let p := BIT_WORD offset in
    let result := offset - offset mod BITS_PER_LONG in
    let size := size - result in
    let offset := offset mod BITS_PER_LONG in
    if negb (offset =? 0) then
      tmp ← word bm p;
      let tmp := Z.lor tmp (Z.shiftr ALL_ONES (BITS_PER_LONG - offset)) in
      if size <? BITS_PER_LONG then Some (found_first_zero tmp size result)
      else if negb (not64 tmp =? 0) then Some (found_middle result (not64 tmp))
      else search_zero_words bm (p + 1) (size - BITS_PER_LONG) (result + BITS_PER_LONG)
    else search_zero_words bm p size result.

Fixpoint find_first_bit_loop (fuel : nat) (bm : bitmap) (p size result : Z) : option Z :=
  match fuel with
  | O => None
  | S fuel =>
    if result <? size then
      tmp ← word bm p;
      if negb (tmp =? 0) then let result := result + ctz64 tmp in Some (if result <? size then result else size)
      else find_first_bit_loop fuel bm (p + 1) size (result + BITS_PER_LONG)
    else Some size
  end.

Definition find_first_bit (bm : bitmap) (size : Z) : option Z := find_first_bit_loop (S (length bm)) bm 0 size 0.
Definition find_first_zero_bit (bm : bitmap) (size : Z) : option Z := find_next_zero_bit bm size 0.

(** The loop of [find_last_bit] from below word [n]. *)
Fixpoint last_loop (bm : bitmap) (n : nat) (size : Z) : option Z :=
  match n with
  | O => Some size
  | S n =>
    tmp ← bm !! n;
    if negb (tmp =? 0) then Some (Z.of_nat n * BITS_PER_LONG + BITS_PER_LONG - 1 - clz64 tmp) else last_loop bm n size
  end.

Definition find_last_bit (bm : bitmap) (size : Z) : option Z :=
  let words := BIT_WORD size in
  if negb (Z.land size (BITS_PER_LONG - 1) =? 0) then
    w ← word bm words;
    let tmp := Z.land w (Z.shiftr ALL_ONES (BITS_PER_LONG - Z.land size (BITS_PER_LONG - 1))) in
    if negb (tmp =? 0) then Some (words * BITS_PER_LONG + BITS_PER_LONG - 1 - clz64 tmp) else last_loop bm (Z.to_nat words) size
  else last_loop bm (Z.to_nat words) size.

Definition ALIGN_MASK (x mask : Z) : Z := Z.land (u64 (x + mask)) (not64 mask).

(** The loop behind [again]. *)
Fixpoint zero_area_loop (fuel : nat) (bm : bitmap) (size start nr align_mask : Z) : option Z :=
  match fuel with
  | O => None
  | S fuel =>
    index ← find_next_zero_bit bm size start;
    let index := ALIGN_MASK index align_mask in
    let last := u64 (index + nr) in
    if size <? last then Some last
    else
      i ← find_next_bit bm last index;
      if i <? last then zero_area_loop fuel bm size (i + 1) nr align_mask else Some index
  end.

Definition bitmap_find_next_zero_area (bm : bitmap) (size start nr align_mask : Z) : option Z :=
  zero_area_loop (S (Z.to_nat size)) bm size start nr align_mask.

(** ** Whole bitmaps *)

(** The loops that stop at the first word for which [v] is not zero, and take
    the bits of the last word that count. *)
Fixpoint words_zero (v : nat -> option Z) (k n : nat) : option bool :=
  match n with
  | O => Some true
  | S n => w ← v k; if negb (w =? 0) then Some false else words_zero v (S k) n
  end.

Definition bits_zero (v : nat -> option Z) (bits : Z) : option bool :=
  let lim := Z.to_nat (bits / BITS_PER_LONG) in
  b ← words_zero v 0 lim;
  if b : bool then
    if negb (bits mod BITS_PER_LONG =? 0) then w ← v lim; Some (Z.land w (BITMAP_LAST_WORD_MASK bits) =? 0) else Some true
  else Some false.

Definition word2 (f : Z -> Z -> Z) (bm1 bm2 : bitmap) (k : nat) : option Z := w1 ← bm1 !! k; w2 ← bm2 !! k; Some (f w1 w2).

Definition slow_bitmap_empty (bm : bitmap) (bits : Z) : option bool := bits_zero (fun k => bm !! k) bits.
Definition slow_bitmap_full (bm : bitmap) (bits : Z) : option bool := bits_zero (fun k => w ← bm !! k; Some (not64 w)) bits.
Definition slow_bitmap_equal (bm1 bm2 : bitmap) (bits : Z) : option bool := bits_zero (word2 Z.lxor bm1 bm2) bits.
Definition slow_bitmap_intersects (bm1 bm2 : bitmap) (bits : Z) : option bool := negb <$> bits_zero (word2 Z.land bm1 bm2) bits.

(** [dst[k] = v(k)] for the words from [k] on; the results are or-ed. *)
Fixpoint fill_words (v : nat -> option Z) (k n : nat) (dst : bitmap) (result : Z) : option (bitmap * Z) :=
  match n with
  | O => Some (dst, result)
  | S n => w ← v k; dst ← update_word (fun _ => w) (Z.of_nat k) dst; fill_words v (S k) n dst (Z.lor result w)
  end.

Definition combine (f : Z -> Z -> Z) (dst bm1 bm2 : bitmap) (bits : Z) : option (bitmap * bool) :=
  '(dst, result) ← fill_words (word2 f bm1 bm2) 0 (Z.to_nat (BITS_TO_LONGS bits)) dst 0;
  Some (dst, negb (result =? 0)).

Definition slow_bitmap_and := combine Z.land.
Definition slow_bitmap_or dst bm1 bm2 bits := fst <$> combine Z.lor dst bm1 bm2 bits.
Definition slow_bitmap_xor dst bm1 bm2 bits := fst <$> combine Z.lxor dst bm1 bm2 bits.
Definition slow_bitmap_andnot := combine (fun w1 w2 => Z.land w1 (not64 w2)).

Definition slow_bitmap_complement (dst src : bitmap) (bits : Z) : option bitmap :=
  let lim := Z.to_nat (bits / BITS_PER_LONG) in
  '(dst, _) ← fill_words (fun k => w ← src !! k; Some (not64 w)) 0 lim dst 0;
  if negb (bits mod BITS_PER_LONG =? 0)
  then w ← src !! lim; update_word (fun _ => Z.land (not64 w) (BITMAP_LAST_WORD_MASK bits)) (Z.of_nat lim) dst
  else Some dst.

Fixpoint count_words (bm : bitmap) (k n : nat) (result : Z) : option Z :=
  match n with
  | O => Some result
  | S n => w ← bm !! k; count_words bm (S k) n (result + ctpop64 w)
  end.

Definition slow_bitmap_count_one (bm : bitmap) (nbits : Z) : option Z :=
  let lim := Z.to_nat (nbits / BITS_PER_LONG) in
  result ← count_words bm 0 lim 0;
  if negb (nbits mod BITS_PER_LONG =? 0) then w ← bm !! lim; Some (result + ctpop64 (Z.land w (BITMAP_LAST_WORD_MASK nbits))) else Some result.

(** ** Copies *)

Fixpoint copy_and_clear_loop (fuel : nat) (dst src : bitmap) (p nr : Z) : option (bitmap * bitmap) :=
  match fuel with
  | O => None
  | S fuel =>
    if 0 <? nr then
      w ← word src p;
      dst ← update_word (fun _ => w) p dst;
      src ← update_word (fun _ => 0) p src;
      copy_and_clear_loop fuel dst src (p + 1) (nr - BITS_PER_LONG)
    else Some (dst, src)
  end.

Definition bitmap_copy_and_clear_atomic (dst src : bitmap) (nr : Z) : option (bitmap * bitmap) :=
  copy_and_clear_loop (S (length src)) dst src 0 nr.

(** [memcpy] of [n] words to [dst + p] from [src + q] *)
Fixpoint copy_words (n : nat) (dst src : bitmap) (p q : Z) : option bitmap :=
  match n with
  | O => Some dst
  | S n => w ← word src q; dst ← update_word (fun _ => w) p dst; copy_words n dst src (p + 1) (q + 1)
  end.

Definition small_nbits (nbits : Z) : bool := nbits <=? BITS_PER_LONG.

(** [bitmap_copy(dst + p, src + q, nbits)] *)
Definition bitmap_copy (dst src : bitmap) (p q nbits : Z) : option bitmap :=
  if small_nbits nbits then w ← word src q; update_word (fun _ => w) p dst
  else copy_words (Z.to_nat (BITS_TO_LONGS nbits)) dst src p q.

(** [(1ul << n) - 1] *)
Definition low_mask (n : Z) : Z := Z.shiftl 1 n - 1.

(** The loop of [bitmap_copy_with_src_offset], where [q] is the word of [src]. *)
Fixpoint src_offset_loop (fuel : nat) (dst src : bitmap) (p q shift nbits : Z) : option (bitmap * Z * Z * Z) :=
  match fuel with
  | O => None
  | S fuel =>
    if BITS_PER_LONG <=? nbits then
      w ← word src q;
      dst ← update_word (fun _ => Z.shiftr (Z.land w (not64 (low_mask shift))) shift) p dst;
      w1 ← word src (q + 1);
      dst ← update_word (fun d => Z.lor d (u64 (Z.shiftl (Z.land w1 (low_mask shift)) (BITS_PER_LONG - shift)))) p dst;
      src_offset_loop fuel dst src (p + 1) (q + 1) shift (nbits - BITS_PER_LONG)
    else Some (dst, p, q, nbits)
  end.

(** The bits that do not fill a word *)
Definition src_offset_tail (dst src : bitmap) (p q shift nbits : Z) : option bitmap :=
  if BITS_PER_LONG - shift <? nbits then
    w ← word src q;
    dst ← update_word (fun _ => Z.shiftr (Z.land w (not64 (low_mask shift))) shift) p dst;
    let nbits := nbits - (BITS_PER_LONG - shift) in
    w1 ← word src (q + 1);
    update_word (fun d => Z.lor d (u64 (Z.shiftl (Z.land w1 (low_mask nbits)) (BITS_PER_LONG - shift)))) p dst
  else if negb (nbits =? 0) then w ← word src q; update_word (fun _ => Z.land (Z.shiftr w shift) (low_mask nbits)) p dst
  else Some dst.

Definition bitmap_copy_with_src_offset (dst src : bitmap) (shift nbits : Z) : option bitmap :=
  let q := BIT_WORD shift in
  let shift := shift mod BITS_PER_LONG in
  if shift =? 0 then bitmap_copy dst src 0 q nbits
  else '(dst, p, q, nbits) ← src_offset_loop (S (length src)) dst src 0 q shift nbits; src_offset_tail dst src p q shift nbits.

(** The loop of [bitmap_copy_with_dst_offset], where [p] is the word of [dst]. *)
Fixpoint dst_offset_loop (fuel : nat) (dst src : bitmap) (p q shift nbits : Z) : option (bitmap * Z * Z * Z) :=
  match fuel with
  | O => None
  | S fuel =>
    if BITS_PER_LONG <=? nbits then
      let right_mask := low_mask (BITS_PER_LONG - shift) in
      w ← word src q;
      dst ← update_word (fun d => Z.lor d (u64 (Z.shiftl (Z.land w right_mask) shift))) p dst;
      dst ← update_word (fun _ => Z.shiftr (Z.land w (not64 right_mask)) (BITS_PER_LONG - shift)) (p + 1) dst;
      dst_offset_loop fuel dst src (p + 1) (q + 1) shift (nbits - BITS_PER_LONG)
    else Some (dst, p, q, nbits)
  end.

Definition dst_offset_tail (dst src : bitmap) (p q shift nbits : Z) : option bitmap :=
  if BITS_PER_LONG - shift <? nbits then
    w ← word src q;
    dst ← update_word (fun d => Z.lor d (u64 (Z.shiftl (Z.land w (low_mask (BITS_PER_LONG - shift))) shift))) p dst;
    let nbits := nbits - (BITS_PER_LONG - shift) in
    let last_mask := u64 (Z.shiftl (low_mask nbits) (BITS_PER_LONG - shift)) in
    update_word (fun _ => Z.shiftr (Z.land w last_mask) (BITS_PER_LONG - shift)) (p + 1) dst
  else if negb (nbits =? 0) then w ← word src q; update_word (fun d => Z.lor d (u64 (Z.shiftl (Z.land w (low_mask nbits)) shift))) p dst
  else Some dst.

Definition bitmap_copy_with_dst_offset (dst src : bitmap) (shift nbits : Z) : option bitmap :=
  let p := BIT_WORD shift in
  let shift := shift mod BITS_PER_LONG in
  if shift =? 0 then bitmap_copy dst src p 0 nbits
  else
    dst ← update_word (fun d => Z.land d (low_mask shift)) p dst;
    '(dst, p, q, nbits) ← dst_offset_loop (S (length src)) dst src p 0 shift nbits; dst_offset_tail dst src p q shift nbits.

(** ** The inline variants of [include/qemu/bitmap.h]

    A bitmap of at most a word takes a short cut. *)
Definition bitmap_empty (src : bitmap) (nbits : Z) : option bool :=
  if small_nbits nbits then w ← word src 0; Some (Z.land w (BITMAP_LAST_WORD_MASK nbits) =? 0) else slow_bitmap_empty src nbits.

Definition bitmap_full (src : bitmap) (nbits : Z) : option bool :=
  if small_nbits nbits then w ← word src 0; Some (Z.land (not64 w) (BITMAP_LAST_WORD_MASK nbits) =? 0) else slow_bitmap_full src nbits.

Definition bitmap_equal (src1 src2 : bitmap) (nbits : Z) : option bool :=
  if small_nbits nbits then w ← word2 Z.lxor src1 src2 0; Some (Z.land w (BITMAP_LAST_WORD_MASK nbits) =? 0) else slow_bitmap_equal src1 src2 nbits.

Definition bitmap_intersects (src1 src2 : bitmap) (nbits : Z) : option bool :=
  if small_nbits nbits then w ← word2 Z.land src1 src2 0; Some (negb (Z.land w (BITMAP_LAST_WORD_MASK nbits) =? 0)) else slow_bitmap_intersects src1 src2 nbits.

Definition bitmap_count_one (bm : bitmap) (nbits : Z) : option Z :=
  if nbits =? 0 then Some 0
  else if small_nbits nbits then w ← word bm 0; Some (ctpop64 (Z.land w (BITMAP_LAST_WORD_MASK nbits))) else slow_bitmap_count_one bm nbits.

Definition bitmap_count_one_with_offset (bm : bitmap) (offset nbits : Z) : option Z :=
  let aligned_offset := offset / BITS_PER_LONG * BITS_PER_LONG in
  let redundant_bits := offset - aligned_offset in
  let bits_to_count := nbits + redundant_bits in
  let bitmap_start := drop (Z.to_nat (aligned_offset / BITS_PER_LONG)) bm in
  a ← bitmap_count_one bitmap_start bits_to_count;
  b ← bitmap_count_one bitmap_start redundant_bits;
  Some (a - b).

Definition bitmap_zero (dst : bitmap) (nbits : Z) : option bitmap :=
  if small_nbits nbits then update_word (fun _ => 0) 0 dst
  else fst <$> fill_words (fun _ => Some 0) 0 (Z.to_nat (BITS_TO_LONGS nbits)) dst 0.

Definition bitmap_fill (dst : bitmap) (nbits : Z) : option bitmap :=
  let nlongs := BITS_TO_LONGS nbits in
  dst ← (if negb (small_nbits nbits) then fst <$> fill_words (fun _ => Some ALL_ONES) 0 (Z.to_nat (nlongs - 1)) dst 0 else Some dst);
  update_word (fun _ => BITMAP_LAST_WORD_MASK nbits) (nlongs - 1) dst.
