(* ===== verification/BitmapProofs.v ===== *)
(** * Bitmaps as sets of bits

    The bits of a bitmap, the effect of a word update on them, and what the range
    updates and the searches do to single bits. *)

From S2P Require Import Prelude BitOps Bitmap.

(** The bit with number [k]; past the end all bits are clear. *)
Definition bit (bm : bitmap) (k : Z) : bool := from_option (fun w => Z.testbit w (k mod 64)) false (bm !! Z.to_nat (k / 64)).

(** Every word of the array has 64 bits. *)
Definition wf (bm : bitmap) : Prop := Forall (uint 64) bm.

(** The number of bits of the array *)
Definition bits_of (bm : bitmap) : Z := 64 * Z.of_nat (length bm).

(** [bm'] has the bits of [bm], those of word [p] changed by [g]. *)
Definition updated (g : Z -> bool -> bool) (p : Z) (bm bm' : bitmap) : Prop :=
  wf bm' /\ length bm' = length bm /\
  forall k, 0 <= k -> bit bm' k = if bool_decide (64 * p <= k < 64 * p + 64) then g (k - 64 * p) (bit bm k) else bit bm k.

Ltac zdiv := unfold BIT_WORD, BITS_TO_LONGS, BITS_PER_LONG, bits_of in *; Z.to_euclidean_division_equations; lia.

(** ** Words *)

Lemma word_testbit w j : uint 64 w -> 64 <= j -> Z.testbit w j = false.
Proof.
  intros Hw Hj. destruct (decide (w = 0)) as [->|]; [by rewrite Z.bits_0|].
  apply Z.bits_above_log2; unfold uint in *; [lia|]. assert (Z.log2 w < 64) by (apply Z.log2_lt_pow2; lia). lia.
Qed.

Lemma word_ext w w' : uint 64 w -> uint 64 w' -> (forall j, 0 <= j < 64 -> Z.testbit w j = Z.testbit w' j) -> w = w'.
Proof.
  intros Hw Hw' He. apply Z.bits_inj'. intros j Hj. destruct (decide (j < 64)); [apply He; lia|].
  rewrite !word_testbit by (done || lia). done.
Qed.

Lemma uint_bits w : 0 <= w -> (forall j, 64 <= j -> Z.testbit w j = false) -> uint 64 w.
Proof.
  intros Hw Hb. split; [done|]. destruct (decide (w = 0)) as [->|]; [lia|]. apply Z.log2_lt_pow2; [lia|].
  apply Z.nle_gt. intros Hl. specialize (Hb _ Hl). rewrite Z.bit_log2 in Hb by lia. done.
Qed.

Lemma bm_word_zero w : uint 64 w -> w = 0 <-> forall j, 0 <= j < 64 -> Z.testbit w j = false.
Proof.
  intros Hw. split; [intros -> j _; apply Z.bits_0|]. intros Hj. apply word_ext; [done|unfold uint; lia|].
  intros j Hj'. by rewrite Hj, Z.bits_0.
Qed.

Lemma word_nonzero w : uint 64 w -> negb (w =? 0) = true <-> exists j, 0 <= j < 64 /\ Z.testbit w j = true.
Proof.
  intros Hw. split.
  - intros H. apply negb_true_iff, Z.eqb_neq in H. exists (Z.log2 w). unfold uint in Hw.
    pose proof (Z.log2_nonneg w). pose proof (Z.log2_lt_pow2 w 64). rewrite Z.bit_log2 by lia. split; [lia|done].
  - intros (j & Hj & Hb). apply negb_true_iff, Z.eqb_neq. intros ->. by rewrite Z.bits_0 in Hb.
Qed.

Lemma u64_testbit z j : 0 <= j -> Z.testbit (u64 z) j = (j <? 64) && Z.testbit z j.
Proof. intros Hj. unfold wrap. destruct (Z.ltb_spec j 64); simpl; [by rewrite Z.mod_pow2_bits_low by lia|by rewrite Z.mod_pow2_bits_high by lia]. Qed.

Lemma ALL_ONES_testbit j : 0 <= j -> Z.testbit ALL_ONES j = (j <? 64).
Proof.
  intros Hj. unfold ALL_ONES. change (2 ^ 64 - 1) with (Z.ones 64).
  destruct (Z.ltb_spec j 64); [by rewrite Z.ones_spec_low by lia|by rewrite Z.ones_spec_high by lia].
Qed.

Lemma not64_testbit w j : 0 <= j < 64 -> Z.testbit (not64 w) j = negb (Z.testbit w j).
Proof. intros Hj. unfold not64. rewrite u64_testbit by lia. destruct (Z.ltb_spec j 64); [|lia]. simpl. by rewrite Z.lnot_spec by lia. Qed.

Lemma not64_uint w : uint 64 (not64 w).
Proof. apply wrap_range. lia. Qed.

Lemma ALL_ONES_uint : uint 64 ALL_ONES.
Proof. unfold uint, ALL_ONES. lia. Qed.

Lemma bm_lor_uint a b : uint 64 a -> uint 64 b -> uint 64 (Z.lor a b).
Proof. intros. by apply lor_bound. Qed.

Lemma bm_land_uint a b : uint 64 a -> uint 64 (Z.land a b).
Proof. intros Ha. pose proof (land_nonneg_le a b). unfold uint in *. lia. Qed.

Lemma bm_lxor_uint a b : uint 64 a -> uint 64 b -> uint 64 (Z.lxor a b).
Proof.
  intros Ha Hb. apply uint_bits; [unfold uint in *; apply Z.lxor_nonneg; lia|].
  intros j Hj. rewrite Z.lxor_spec, !word_testbit by done. done.
Qed.

Lemma shiftr_uint a n : uint 64 a -> 0 <= n -> uint 64 (Z.shiftr a n).
Proof.
  intros Ha Hn. apply uint_bits; [unfold uint in *; apply Z.shiftr_nonneg; lia|].
  intros j Hj. rewrite Z.shiftr_spec by lia. apply word_testbit; [done|lia].
Qed.

Create HintDb words.
#[export] Hint Resolve not64_uint ALL_ONES_uint bm_lor_uint bm_land_uint bm_lxor_uint shiftr_uint : words.
#[export] Hint Extern 4 (uint 64 (u64 _)) => (apply wrap_range; lia) : words.
#[export] Hint Extern 4 (uint 64 _) => (unfold uint; lia) : words.
#[export] Hint Extern 1 (0 <= _) => lia : words.

Lemma land_63 z : Z.land z 63 = z mod 64.
Proof. change 63 with (Z.ones 6). by rewrite Z.land_ones by lia. Qed.

Lemma first_mask_testbit start j : 0 <= j < 64 -> Z.testbit (BITMAP_FIRST_WORD_MASK start) j = (start mod 64 <=? j).
Proof.
  intros Hj. unfold BITMAP_FIRST_WORD_MASK. change (BITS_PER_LONG - 1) with 63. rewrite land_63, u64_testbit by lia.
  destruct (Z.ltb_spec j 64); [|lia]. simpl. rewrite Z.shiftl_spec by lia.
  destruct (Z.leb_spec (start mod 64) j); [rewrite ALL_ONES_testbit by lia; apply Z.ltb_lt; zdiv|apply Z.testbit_neg_r; lia].
Qed.

(** The mask of the last word of [nbits] bits: the whole word when none is
    left over. *)
Lemma last_mask_testbit nbits j : 0 <= j < 64 -> Z.testbit (BITMAP_LAST_WORD_MASK nbits) j = (j + (- nbits) mod 64 <? 64).
Proof.
  intros Hj. unfold BITMAP_LAST_WORD_MASK. change (BITS_PER_LONG - 1) with 63. rewrite land_63, Z.shiftr_spec by lia.
  rewrite ALL_ONES_testbit by zdiv. done.
Qed.

Lemma first_mask_uint start : uint 64 (BITMAP_FIRST_WORD_MASK start).
Proof. apply wrap_range. lia. Qed.

Lemma last_mask_uint nbits : uint 64 (BITMAP_LAST_WORD_MASK nbits).
Proof. unfold BITMAP_LAST_WORD_MASK. change (BITS_PER_LONG - 1) with 63. rewrite land_63. apply shiftr_uint; [apply ALL_ONES_uint|zdiv]. Qed.
#[export] Hint Resolve first_mask_uint last_mask_uint : words.

(** ** Words of a bitmap *)

Lemma word_bits bm p : wf bm -> 0 <= p < Z.of_nat (length bm) ->
  exists w, word bm p = Some w /\ bm !! Z.to_nat p = Some w /\ uint 64 w /\ forall j, 0 <= j < 64 -> Z.testbit w j = bit bm (64 * p + j).
Proof.
  intros Hwf Hp. destruct (lookup_lt_is_Some_2 bm (Z.to_nat p)) as [w Hw]; [lia|]. exists w. unfold word.
  destruct (Z.leb_spec 0 p); [|lia]. split_and!; [done|done|by eapply Forall_lookup_1|].
  intros j Hj. unfold bit. replace ((64 * p + j) / 64) with p by zdiv. replace ((64 * p + j) mod 64) with j by zdiv. by rewrite Hw.
Qed.

Lemma bit_past bm k : bits_of bm <= k -> bit bm k = false.
Proof. intros Hk. unfold bit. rewrite (proj2 (lookup_ge_None bm _)); [done|]. zdiv. Qed.

(** Bitmaps of one length are equal when their bits are. *)
Lemma bitmap_ext bm bm' : wf bm -> wf bm' -> length bm = length bm' -> (forall k, 0 <= k < bits_of bm -> bit bm k = bit bm' k) -> bm = bm'.
Proof.
  intros Hwf Hwf' Hl He. apply list_eq_same_length with (n := length bm); [done|done|]. intros i w w' Hi Hw Hw'.
  apply word_ext; [by eapply (Forall_lookup_1 _ bm)|by eapply (Forall_lookup_1 _ bm')|].
  intros j Hj. specialize (He (64 * Z.of_nat i + j)). unfold bit in He.
  replace (Z.to_nat ((64 * Z.of_nat i + j) / 64)) with i in He by zdiv. replace ((64 * Z.of_nat i + j) mod 64) with j in He by zdiv.
  rewrite Hw, Hw' in He. apply He. zdiv.
Qed.

Lemma update_word_ok f g p bm :
  wf bm -> 0 <= p < Z.of_nat (length bm) -> (forall w, word bm p = Some w -> uint 64 w -> uint 64 (f w)) ->
  (forall w j, word bm p = Some w -> 0 <= j < 64 -> Z.testbit (f w) j = g j (Z.testbit w j)) ->
  exists bm', update_word f p bm = Some bm' /\ updated g p bm bm'.
Proof.
  intros Hwf Hp Hf Hg. destruct (word_bits bm p Hwf Hp) as (w & Hw & Hl & Hu & Hb). unfold update_word. rewrite Hw. cbn [mbind option_bind].
  eexists. split; [done|]. split; [by apply Forall_insert; auto|]. split; [apply length_insert|].
  intros k Hk. case_bool_decide as Hkp.
  - assert (k / 64 = p) as Ek by zdiv. unfold bit at 1. rewrite Ek, list_lookup_insert_eq by lia. cbn [from_option].
    rewrite Hg by (done || zdiv). rewrite Hb by zdiv. f_equal; [zdiv|f_equal; zdiv].
  - unfold bit. rewrite list_lookup_insert_ne; [done|]. zdiv.
Qed.

(** ** Range updates *)

(** [bm'] is [bm] with the bits from [a] up to [b] set to [v]. *)
Definition filled (v : bool) (a b : Z) (bm bm' : bitmap) : Prop :=
  wf bm' /\ length bm' = length bm /\ forall k, 0 <= k -> bit bm' k = if bool_decide (a <= k < b) then v else bit bm k.

(** [f] sets the bits of a mask to [v]. *)
Definition masks (v : bool) (f : Z -> Z -> Z) : Prop := forall mask w, uint 64 mask -> uint 64 w ->
  uint 64 (f mask w) /\ forall j, 0 <= j < 64 -> Z.testbit (f mask w) j = if Z.testbit mask j then v else Z.testbit w j.

Lemma set_masks : masks true set_mask.
Proof. intros mask w Hm Hw. unfold set_mask. split; [auto with words|]. intros j Hj. rewrite Z.lor_spec. by destruct (Z.testbit mask j), (Z.testbit w j). Qed.

Lemma clear_masks : masks false clear_mask.
Proof.
  intros mask w Hm Hw. unfold clear_mask. split; [auto with words|]. intros j Hj. rewrite Z.land_spec, not64_testbit by done.
  by destruct (Z.testbit mask j), (Z.testbit w j).
Qed.

Lemma filled_empty v a b bm : wf bm -> b <= a -> filled v a b bm bm.
Proof. intros Hwf Hab. split_and!; [done|done|]. intros k Hk. case_bool_decide; [lia|done]. Qed.

Lemma filled_app v a b c bm bm' bm'' : filled v a b bm bm' -> filled v b c bm' bm'' -> a <= b <= c -> filled v a c bm bm''.
Proof.
  intros (_ & L1 & B1) (W2 & L2 & B2) Habc. split_and!; [done|congruence|]. intros k Hk. rewrite B2, B1 by done.
  repeat case_bool_decide; lia || done.
Qed.

(** There is only one such bitmap. *)
Lemma filled_unique v a b bm bm1 bm2 : filled v a b bm bm1 -> filled v a b bm bm2 -> bm1 = bm2.
Proof.
  intros (W1 & L1 & B1) (W2 & L2 & B2). apply bitmap_ext; [done|done|congruence|]. intros k Hk. rewrite B1, B2 by lia. done.
Qed.

Lemma update_mask_ok v f mask p a b bm :
  masks v f -> uint 64 mask -> wf bm -> 0 <= p < Z.of_nat (length bm) -> 64 * p <= a -> b <= 64 * p + 64 ->
  (forall j, 0 <= j < 64 -> Z.testbit mask j = bool_decide (a <= 64 * p + j < b)) ->
  exists bm', update_word (f mask) p bm = Some bm' /\ filled v a b bm bm'.
Proof.
  intros Hf Hm Hwf Hp Ha Hb Hbits.
  destruct (update_word_ok (f mask) (fun j x => if bool_decide (a <= 64 * p + j < b) then v else x) p bm Hwf Hp) as (bm' & -> & Hw' & Hl & Hbit).
  - intros w _ Hw. by apply Hf.
  - intros w j Hw Hj. destruct (word_bits bm p Hwf Hp) as (w' & Hw' & _ & Hu & _). simplify_eq. rewrite (proj2 (Hf mask w Hm Hu)), Hbits by done.
    by case_bool_decide.
  - exists bm'. split; [done|]. split_and!; [done|done|]. intros k Hk. rewrite Hbit by done.
    replace (64 * p + (k - 64 * p)) with k by lia. repeat case_bool_decide; lia || done.
Qed.

Lemma update_const_ok v p bm : wf bm -> 0 <= p < Z.of_nat (length bm) ->
  exists bm', update_word (fun _ => if v : bool then ALL_ONES else 0) p bm = Some bm' /\ filled v (64 * p) (64 * p + 64) bm bm'.
Proof.
  intros Hwf Hp. destruct (update_word_ok (fun _ => if v : bool then ALL_ONES else 0) (fun _ _ => v) p bm Hwf Hp) as (bm' & -> & Hw & Hl & Hb).
  - intros _ _ _. destruct v; auto with words.
  - intros _ j _ Hj. destruct v; [|apply Z.bits_0]. rewrite ALL_ONES_testbit by lia. apply Z.ltb_lt. lia.
  - by exists bm'.
Qed.

(** The mask of a word from [bits] below its end *)
Definition from_mask (bits mask : Z) : Prop := uint 64 mask /\ forall j, 0 <= j < 64 -> Z.testbit mask j = (64 - bits <=? j).

Lemma from_first start : from_mask (64 - start mod 64) (BITMAP_FIRST_WORD_MASK start).
Proof. split; [auto with words|]. intros j Hj. rewrite first_mask_testbit by done. f_equal. lia. Qed.

Lemma from_all : from_mask 64 ALL_ONES.
Proof. split; [auto with words|]. intros j Hj. rewrite ALL_ONES_testbit by lia. destruct (Z.ltb_spec j 64), (Z.leb_spec (64 - 64) j); lia || done. Qed.

(** Where the update of the range from [start] to [size] stands: the bits below
    [64 * p + (64 - bits)] are done, [nr] bits are left. *)
Record cursor (v : bool) (bm0 : bitmap) (start size : Z) (bm : bitmap) (p nr bits mask : Z) : Prop := mk_cursor {
  cu_mask : from_mask bits mask;
  cu_bits : 0 < bits <= 64;
  cu_p : 0 <= p;
  cu_nr : 0 <= nr;
  cu_start : start <= 64 * p + (64 - bits);
  cu_size : 64 * p + (64 - bits) + nr = size;
  cu_end : size <= bits_of bm0;
  cu_filled : filled v start (64 * p + (64 - bits)) bm0 bm
}.

Section cursors.
Context (v : bool) (bm0 : bitmap) (start size : Z).
Abbreviation cur := (cursor v bm0 start size).

Lemma cursor_first nr : wf bm0 -> 0 <= start -> 0 <= nr -> size = start + nr -> size <= bits_of bm0 ->
  cur bm0 (BIT_WORD start) nr (64 - start mod 64) (BITMAP_FIRST_WORD_MASK start).
Proof. intros Hwf Hs Hnr -> He. split; [apply from_first|zdiv..|]. apply filled_empty; [done|zdiv]. Qed.

(** The word of the cursor is in the bitmap as long as bits are left. *)
Lemma cursor_word bm p nr bits mask : cur bm p nr bits mask -> 0 < nr -> wf bm /\ 0 <= p < Z.of_nat (length bm).
Proof. intros [Hm Hb Hp Hn Hs Hz He (Hw & Hl & _)] Hnr. split; [done|]. unfold bits_of in *. lia. Qed.

(** The rest of a word is filled. *)
Lemma cursor_fill bm bm' p nr bits mask : cur bm p nr bits mask -> bits <= nr -> filled v (64 * p + (64 - bits)) (64 * p + 64) bm bm' ->
  cur bm' (p + 1) (nr - bits) 64 ALL_ONES.
Proof.
  intros [Hm Hb Hp Hn Hs Hz He Hf] Hnr Hfill. split; [apply from_all|lia..|].
  eapply filled_app; [exact Hf| |lia]. by replace (64 * (p + 1) + (64 - 64)) with (64 * p + 64) by lia.
Qed.

Lemma cursor_step f bm p nr bits mask : masks v f -> cur bm p nr bits mask -> bits <= nr ->
  exists bm', update_word (f mask) p bm = Some bm' /\ cur bm' (p + 1) (nr - bits) 64 ALL_ONES.
Proof.
  intros Hf Hc Hnr. destruct (cursor_word _ _ _ _ _ Hc) as [Hwf Hp]; [destruct Hc; lia|].
  destruct (update_mask_ok v f mask p (64 * p + (64 - bits)) (64 * p + 64) bm) as (bm' & -> & Hfill).
  1-6: first [done|apply Hc|destruct Hc; lia].
  { intros j Hj. rewrite (proj2 (cu_mask _ _ _ _ _ _ _ _ _ Hc)) by done. case_bool_decide; destruct (Z.leb_spec (64 - bits) j); lia || done. }
  exists bm'. split; [done|]. by eapply cursor_fill.
Qed.

(** The last word, cut at the end of the range *)
Lemma last_testbit bm p nr bits mask j : cur bm p nr bits mask -> 0 < nr <= bits -> 0 <= j < 64 ->
  Z.testbit (Z.land mask (BITMAP_LAST_WORD_MASK size)) j = bool_decide (size - nr <= 64 * p + j < size).
Proof.
  intros [[_ Hm] Hb _ _ _ <- _ _] Hnr Hj. rewrite Z.land_spec, Hm, last_mask_testbit by done.
  assert ((- (64 * p + (64 - bits) + nr)) mod 64 = bits - nr) as -> by zdiv.
  case_bool_decide; destruct (Z.leb_spec (64 - bits) j), (Z.ltb_spec (j + (bits - nr)) 64); lia || done.
Qed.

Lemma cursor_last f bm p nr bits mask : masks v f -> cur bm p nr bits mask -> 0 < nr <= bits ->
  exists bm', update_word (f (Z.land mask (BITMAP_LAST_WORD_MASK size))) p bm = Some bm' /\ filled v start size bm0 bm'.
Proof.
  intros Hf Hc Hnr. destruct (cursor_word _ _ _ _ _ Hc) as [Hwf Hp]; [lia|].
  destruct (update_mask_ok v f (Z.land mask (BITMAP_LAST_WORD_MASK size)) p (size - nr) size bm) as (bm' & -> & Hfill); [done| |done|done| | | |].
  - apply bm_land_uint, Hc.
  - destruct Hc; lia.
  - destruct Hc; lia.
  - intros j Hj. by eapply last_testbit.
  - exists bm'. split; [done|]. destruct Hc as [_ _ _ _ Hs Hz _ Hfi]. eapply filled_app; [exact Hfi| |lia]. by replace (64 * p + (64 - bits)) with (size - nr) by lia.
Qed.

Lemma cursor_done bm p bits mask : cur bm p 0 bits mask -> filled v start size bm0 bm.
Proof. intros [_ _ _ _ _ <- _ Hf]. by rewrite Z.add_0_r. Qed.

Lemma range_loop_ok f : masks v f -> forall fuel bm p nr bits mask, cur bm p nr bits mask -> Z.of_nat (length bm0) < p + Z.of_nat fuel ->
  exists bm' p' nr' bits' mask', range_loop f fuel bm p nr bits mask = Some (bm', p', nr', mask') /\ cur bm' p' nr' bits' mask' /\ nr' < bits'.
Proof.
  intros Hf. induction fuel as [|fuel IH]; intros bm p nr bits mask Hc Hfuel; [destruct Hc; unfold bits_of in *; lia|].
  cbn [range_loop]. destruct (Z.leb_spec 0 (nr - bits)).
  - destruct (cursor_step f bm p nr bits mask Hf Hc) as (bm1 & -> & Hc1); [lia|]. apply (IH _ _ _ _ _ Hc1). lia.
  - exists bm, p, nr, bits, mask. split_and!; [done..|lia].
Qed.

Lemma set_words_ok : v = true -> forall fuel bm p nr, cur bm p nr 64 ALL_ONES -> Z.of_nat (length bm0) < p + Z.of_nat fuel ->
  exists bm' p' nr', set_words fuel bm p nr = Some (bm', p', nr') /\ cur bm' p' nr' 64 ALL_ONES /\ nr' < 64.
Proof.
  intros Hv. induction fuel as [|fuel IH]; intros bm p nr Hc Hfuel; [destruct Hc; unfold bits_of in *; lia|].
  cbn [set_words]. unfold BITS_PER_LONG. destruct (Z.leb_spec 64 nr); [|by exists bm, p, nr].
  destruct (cursor_word _ _ _ _ _ Hc) as [Hwf Hp]; [lia|].
  destruct (update_const_ok true p bm Hwf Hp) as (bm1 & -> & Hfill). cbn [mbind option_bind].
  apply IH; [|lia]. eapply cursor_fill; [done|done|]. rewrite Hv. by replace (64 * p + (64 - 64)) with (64 * p) by lia.
Qed.
End cursors.

Lemma update_range_ok v f bm start nr : masks v f -> wf bm -> 0 <= start -> 0 <= nr -> start + nr <= bits_of bm ->
  exists bm', update_range f bm start nr = Some bm' /\ filled v start (start + nr) bm bm'.
Proof.
  intros Hf Hwf Hs Hnr Hsize. unfold update_range. destruct (Z.leb_spec 0 start), (Z.leb_spec 0 nr); [|lia..]. cbn [andb].
  pose proof (cursor_first v bm start (start + nr) nr Hwf Hs Hnr eq_refl Hsize) as Hc.
  destruct (range_loop_ok v bm start (start + nr) f Hf (S (length bm)) _ _ _ _ _ Hc) as (bm' & p' & nr' & bits' & mask' & E & Hc' & Hb); [zdiv|].
  unfold BITS_PER_LONG. rewrite E. cbn [mbind option_bind]. destruct (Z.eqb_spec nr' 0) as [->|]; cbn [negb].
  - exists bm'. split; [done|]. by eapply cursor_done.
  - eapply cursor_last; [done|done|]. destruct Hc'; lia.
Qed.

(** ** The atomic variants *)

Lemma set_atomic_ok bm start nr : wf bm -> 0 <= start -> 0 <= nr -> start + nr <= bits_of bm ->
  exists bm', bitmap_set_atomic bm start nr = Some bm' /\ filled true start (start + nr) bm bm'.
Proof.
  intros Hwf Hs Hnr Hsize. unfold bitmap_set_atomic. destruct (Z.leb_spec 0 start), (Z.leb_spec 0 nr); [|lia..]. cbn [andb].
  pose proof (cursor_first true bm start (start + nr) nr Hwf Hs Hnr eq_refl Hsize) as Hc. unfold BITS_PER_LONG.
  set (bits := 64 - start mod 64) in *. set (p := BIT_WORD start) in *. set (mask := BITMAP_FIRST_WORD_MASK start) in *.
  assert (exists bm1 p1 nr1 bits1 mask1,
    (if 0 <? nr - bits then bm ← update_word (set_mask mask) p bm; Some (bm, p + 1, nr - bits, 64, ALL_ONES) else Some (bm, p, nr, bits, mask)) = Some (bm1, p1, nr1, bits1, mask1) /\
    cursor true bm start (start + nr) bm1 p1 nr1 bits1 mask1 /\ (bits1 = 64 -> mask1 = ALL_ONES) /\ (bits1 <> 64 -> nr1 <= bits1)) as (bm1 & p1 & nr1 & bits1 & mask1 & -> & Hc1 & Hm1 & Hb1).
  { destruct (Z.ltb_spec 0 (nr - bits)).
    - destruct (cursor_step true bm start (start + nr) set_mask bm p nr bits mask set_masks Hc) as (bm1 & -> & Hc1); [lia|]. by do 5 eexists.
    - do 5 eexists. split; [done|]. split; [done|]. split; [|lia]. intros Hb64. apply word_ext; [apply Hc|auto with words|].
      intros j Hj. rewrite (proj2 (cu_mask _ _ _ _ _ _ _ _ _ Hc)), (proj2 from_all), Hb64 by done. done. }
  cbn [mbind option_bind].
  assert (exists bm2 p2 nr2, (if bits1 =? 64 then set_words (S (length bm1)) bm1 p1 nr1 else Some (bm1, p1, nr1)) = Some (bm2, p2, nr2) /\
    cursor true bm start (start + nr) bm2 p2 nr2 bits1 mask1 /\ nr2 <= bits1) as (bm2 & p2 & nr2 & -> & Hc2 & Hb2).
  { destruct (Z.eqb_spec bits1 64) as [->|]; [|by exists bm1, p1, nr1; auto]. rewrite Hm1 in * by done.
    destruct (set_words_ok true bm start (start + nr) eq_refl (S (length bm1)) bm1 p1 nr1 Hc1) as (bm2 & p2 & nr2 & -> & Hc2 & Hb2); [|exists bm2, p2, nr2; split_and!; [done|done|lia]].
    destruct Hc1 as [_ _ Hp _ _ _ _ (_ & -> & _)]. lia. }
  cbn [mbind option_bind]. destruct (Z.eqb_spec nr2 0) as [->|]; cbn [negb].
  - exists bm2. split; [done|]. by eapply cursor_done.
  - eapply cursor_last; [apply set_masks|done|]. destruct Hc2; lia.
Qed.

(** [dirty] shows whether one of the bits from [a] up to [b] was set. *)
Definition seen (bm0 : bitmap) (a b dirty : Z) : Prop := uint 64 dirty /\ (dirty <> 0 <-> exists k, a <= k < b /\ bit bm0 k = true).

Lemma lor_nonzero a b : Z.lor a b <> 0 <-> a <> 0 \/ b <> 0.
Proof. rewrite Z.lor_eq_0_iff. lia. Qed.

Lemma seen_step v bm0 start size bm p nr bits mask w m dirty b :
  0 <= start -> cursor v bm0 start size bm p nr bits mask -> word bm p = Some w -> wf bm -> 0 <= p < Z.of_nat (length bm) ->
  64 * p + (64 - bits) <= b <= 64 * p + 64 -> (forall j, 0 <= j < 64 -> Z.testbit m j = bool_decide (64 * p + (64 - bits) <= 64 * p + j < b)) ->
  seen bm0 start (64 * p + (64 - bits)) dirty -> seen bm0 start b (Z.lor dirty (Z.land w m)).
Proof.
  intros Hst Hc Hw Hwf Hp Hb Hm [Hd Hs]. destruct (word_bits bm p Hwf Hp) as (w' & Hw' & _ & Hu & Hbits). assert (w' = w) as -> by congruence.
  split; [auto with words|]. rewrite lor_nonzero, Hs. clear Hs.
  assert (Z.land w m <> 0 <-> exists k, 64 * p + (64 - bits) <= k < b /\ bit bm0 k = true) as ->.
  { rewrite <- Z.eqb_neq, <- negb_true_iff, word_nonzero by auto with words. destruct Hc as [_ Hbi _ _ Hs0 _ _ (_ & _ & Hfi)]. split.
    - intros (j & Hj & Ht). rewrite Z.land_spec, Hm, Hbits, Hfi in Ht by lia.
      apply andb_true_iff in Ht as [Ht1 Ht2]. apply bool_decide_eq_true in Ht2. case_bool_decide; [lia|]. eauto.
    - intros (k & Hk & Ht). exists (k - 64 * p). split; [lia|]. rewrite Z.land_spec, Hm, Hbits, Hfi by lia.
      replace (64 * p + (k - 64 * p)) with k by lia. rewrite bool_decide_false, bool_decide_true, Ht by lia. done. }
  destruct Hc as [_ Hbi _ _ Hs0 _ _ _]. split; [intros [(k & Hk & Ht)|(k & Hk & Ht)]; exists k; split; lia || done|].
  intros (k & Hk & Ht). destruct (decide (k < 64 * p + (64 - bits))); [left|right]; exists k; split; lia || done.
Qed.

Lemma clear_words_ok bm0 start size : 0 <= start -> forall fuel bm p nr dirty, cursor false bm0 start size bm p nr 64 ALL_ONES -> seen bm0 start (64 * p) dirty ->
  Z.of_nat (length bm0) < p + Z.of_nat fuel ->
  exists bm' p' nr' dirty', clear_words fuel bm p nr dirty = Some (bm', p', nr', dirty') /\ cursor false bm0 start size bm' p' nr' 64 ALL_ONES /\ nr' < 64 /\ seen bm0 start (64 * p') dirty'.
Proof.
  intros Hst. induction fuel as [|fuel IH]; intros bm p nr dirty Hc Hd Hfuel; [destruct Hc; unfold bits_of in *; lia|].
  cbn [clear_words]. unfold BITS_PER_LONG. destruct (Z.leb_spec 64 nr); [|by exists bm, p, nr, dirty].
  destruct (cursor_word _ _ _ _ _ _ _ _ _ Hc) as [Hwf Hp]; [lia|]. destruct (word_bits bm p Hwf Hp) as (w & Hw & _ & Hu & Hbits). rewrite Hw. cbn [mbind option_bind].
  assert (seen bm0 start (64 * (p + 1)) (Z.lor dirty w)) as Hd'.
  { replace w with (Z.land w ALL_ONES). 2:{ apply word_ext; [auto with words..|]. intros j Hj. rewrite Z.land_spec, ALL_ONES_testbit by lia. destruct (Z.ltb_spec j 64); [|lia]. by rewrite andb_true_r. }
    eapply (seen_step _ _ _ _ _ p); [done|exact Hc|done|done|done|lia| |by replace (64 * p + (64 - 64)) with (64 * p) by lia].
    intros j Hj. rewrite ALL_ONES_testbit by lia. case_bool_decide; destruct (Z.ltb_spec j 64); lia || done. }
  destruct (Z.eqb_spec w 0) as [->|]; cbn [negb mbind option_bind].
  - rewrite Z.lor_0_r in Hd'. apply IH; [|done|lia]. eapply cursor_fill; [done|done|]. split_and!; [done|done|]. intros k Hk. case_bool_decide as Hin; [|done].
    specialize (Hbits (k - 64 * p)). rewrite Z.bits_0 in Hbits. replace (64 * p + (k - 64 * p)) with k in Hbits by lia. symmetry. apply Hbits. lia.
  - destruct (update_const_ok false p bm Hwf Hp) as (bm1 & -> & Hfill). cbn [mbind option_bind].
    apply IH; [|done|lia]. eapply cursor_fill; [done|done|]. by replace (64 * p + (64 - 64)) with (64 * p) by lia.
Qed.

Lemma test_clear_ok bm start nr : wf bm -> 0 <= start -> 0 <= nr -> start + nr <= bits_of bm ->
  exists bm' b, bitmap_test_and_clear_atomic bm start nr = Some (bm', b) /\ filled false start (start + nr) bm bm' /\
    (b = true <-> exists k, start <= k < start + nr /\ bit bm k = true).
Proof.
  intros Hwf Hs Hnr Hsize. unfold bitmap_test_and_clear_atomic. destruct (Z.leb_spec 0 start), (Z.leb_spec 0 nr); [|lia..]. cbn [andb].
  pose proof (cursor_first false bm start (start + nr) nr Hwf Hs Hnr eq_refl Hsize) as Hc. unfold BITS_PER_LONG.
  set (bits := 64 - start mod 64) in *. set (p := BIT_WORD start) in *. set (mask := BITMAP_FIRST_WORD_MASK start) in *.
  assert (seen bm start (64 * p + (64 - bits)) 0) as Hd.
  { split; [unfold uint; lia|]. split; [done|]. intros (k & Hk & _). subst p bits. zdiv. }
  assert (exists bm1 p1 nr1 bits1 mask1 dirty1,
    (if 0 <? nr - bits then w ← word bm p; bm ← update_word (clear_mask mask) p bm; Some (bm, p + 1, nr - bits, 64, ALL_ONES, Z.land w mask) else Some (bm, p, nr, bits, mask, 0)) = Some (bm1, p1, nr1, bits1, mask1, dirty1) /\
    cursor false bm start (start + nr) bm1 p1 nr1 bits1 mask1 /\ (bits1 = 64 -> mask1 = ALL_ONES) /\ (bits1 <> 64 -> nr1 <= bits1) /\ seen bm start (64 * p1 + (64 - bits1)) dirty1)
    as (bm1 & p1 & nr1 & bits1 & mask1 & dirty1 & -> & Hc1 & Hm1 & Hb1 & Hd1).
  { destruct (Z.ltb_spec 0 (nr - bits)).
    - destruct (cursor_word _ _ _ _ _ _ _ _ _ Hc) as [_ Hp]; [destruct Hc; lia|]. destruct (word_bits bm p Hwf Hp) as (w & Hw & _). rewrite Hw. cbn [mbind option_bind].
      destruct (cursor_step false bm start (start + nr) clear_mask bm p nr bits mask clear_masks Hc) as (bm1 & -> & Hc1); [lia|]. cbn [mbind option_bind].
      do 6 eexists. split; [done|]. split_and!; [done|done|done|]. rewrite <- (Z.lor_0_l (Z.land w mask)). replace (64 * (p + 1) + (64 - 64)) with (64 * p + 64) by lia.
      eapply seen_step; [done|exact Hc|done|done|done|destruct Hc; lia| |done].
      intros j Hj. rewrite (proj2 (cu_mask _ _ _ _ _ _ _ _ _ Hc)) by done. case_bool_decide; destruct (Z.leb_spec (64 - bits) j); lia || done.
    - do 6 eexists. split; [done|]. split; [done|]. split_and!; [|lia|done]. intros Hb64. apply word_ext; [apply Hc|auto with words|].
      intros j Hj. rewrite (proj2 (cu_mask _ _ _ _ _ _ _ _ _ Hc)), (proj2 from_all), Hb64 by done. done. }
  cbn [mbind option_bind].
  assert (exists bm2 p2 nr2 dirty2, (if bits1 =? 64 then clear_words (S (length bm1)) bm1 p1 nr1 dirty1 else Some (bm1, p1, nr1, dirty1)) = Some (bm2, p2, nr2, dirty2) /\
    cursor false bm start (start + nr) bm2 p2 nr2 bits1 mask1 /\ nr2 <= bits1 /\ seen bm start (64 * p2 + (64 - bits1)) dirty2) as (bm2 & p2 & nr2 & dirty2 & -> & Hc2 & Hb2 & Hd2).
  { destruct (Z.eqb_spec bits1 64) as [->|]; [|by exists bm1, p1, nr1, dirty1; auto]. rewrite Hm1 in * by done. replace (64 * p1 + (64 - 64)) with (64 * p1) in Hd1 by lia.
    destruct (clear_words_ok bm start (start + nr) Hs (S (length bm1)) bm1 p1 nr1 dirty1 Hc1 Hd1) as (bm2 & p2 & nr2 & dirty2 & -> & Hc2 & Hb2 & Hd2).
    { destruct Hc1 as [_ _ Hp _ _ _ _ (_ & -> & _)]. lia. }
    exists bm2, p2, nr2, dirty2. split_and!; [done|done|lia|]. by replace (64 * p2 + (64 - 64)) with (64 * p2) by lia. }
  cbn [mbind option_bind]. destruct (Z.eqb_spec nr2 0) as [->|]; cbn [negb].
  - exists bm2, (negb (dirty2 =? 0)). split; [done|]. split; [by eapply cursor_done|]. destruct Hd2 as [_ Hd2]. rewrite negb_true_iff, Z.eqb_neq, Hd2.
    destruct Hc2 as [_ _ _ _ _ <- _ _]. by rewrite Z.add_0_r.
  - assert (0 < nr2) by (destruct Hc2; lia). destruct (cursor_word _ _ _ _ _ _ _ _ _ Hc2) as [Hwf2 Hp2]; [done|].
    destruct (word_bits bm2 p2 Hwf2 Hp2) as (w & Hw & _). rewrite Hw. cbn [mbind option_bind].
    destruct (cursor_last false bm start (start + nr) clear_mask bm2 p2 nr2 bits1 mask1 clear_masks Hc2) as (bm3 & -> & Hf3); [lia|]. cbn [mbind option_bind].
    eexists _, _. split; [done|]. split; [done|]. rewrite negb_true_iff, Z.eqb_neq. assert (64 * p2 + (64 - bits1) = start + nr - nr2) as Epos by (destruct Hc2; lia).
    refine (proj2 (seen_step _ _ _ _ _ _ _ _ _ w _ dirty2 (start + nr) Hs Hc2 Hw Hwf2 Hp2 _ _ Hd2)); [destruct Hc2; lia|].
    intros j Hj. rewrite (last_testbit _ _ _ _ _ _ _ _ _ _ Hc2) by lia. by rewrite Epos.
Qed.
