(* ===== verification/BitmapSearch.v ===== *)
(** * Searches in bitmaps

    The searches word by word, [find_next_bit], [find_next_zero_bit],
    [find_first_bit] and [find_last_bit], return the least or the greatest bit with
    the value sought, and [bitmap_find_next_zero_area] the first free area. *)

From S2P Require Import Prelude BitOps Bitmap BitmapProofs.

(** No bit from [a] up to [b] has the value [v]. *)
Definition none_in (v : bool) (bm : bitmap) (a b : Z) : Prop := forall k, a <= k < b -> bit bm k <> v.

(** [r] is the first bit with the value [v] from [a] on, or [b]. *)
Definition next_is (v : bool) (bm : bitmap) (a b r : Z) : Prop := a <= r <= b /\ none_in v bm a r /\ (r < b -> bit bm r = v).

Lemma none_app v bm a b c : none_in v bm a b -> none_in v bm b c -> none_in v bm a c.
Proof. intros H1 H2 k Hk. destruct (decide (k < b)); [apply H1|apply H2]; lia. Qed.

Lemma none_sub v bm a b a' b' : none_in v bm a b -> a <= a' -> b' <= b -> none_in v bm a' b'.
Proof. intros H1 Ha Hb k Hk. apply H1. lia. Qed.

Lemma next_app v bm a b c r : a <= b -> none_in v bm a b -> next_is v bm b c r -> next_is v bm a c r.
Proof. intros Hab Hn (Hr & Hn' & Hv). split; [lia|]. split; [by eapply none_app|done]. Qed.

Lemma next_end v bm a b : a <= b -> none_in v bm a b -> next_is v bm a b b.
Proof. intros Hab Hn. split; [lia|]. split; [done|lia]. Qed.

(** The word [w] has the bits of word [p] that count: those from [lo] up to [hi]
    with the value sought. *)
Definition shows (v : bool) (bm : bitmap) (p lo hi w : Z) : Prop :=
  uint 64 w /\ forall j, 0 <= j < 64 -> Z.testbit w j = bool_decide (lo <= 64 * p + j < hi) && Bool.eqb (bit bm (64 * p + j)) v.

Lemma shows_zero v bm p lo hi : 64 * p <= lo -> hi <= 64 * p + 64 -> shows v bm p lo hi 0 -> none_in v bm lo hi.
Proof.
  intros Hlo Hhi [_ Hb] k Hk Ev. specialize (Hb (k - 64 * p)). replace (64 * p + (k - 64 * p)) with k in Hb by lia.
  rewrite Z.bits_0, bool_decide_true, Ev, eqb_reflx in Hb by lia. discriminate Hb. lia.
Qed.

Lemma shows_found v bm p lo hi b w : 64 * p <= lo -> hi <= 64 * p + 64 -> hi <= b -> w <> 0 -> shows v bm p lo hi w -> next_is v bm lo b (found_middle (64 * p) w).
Proof.
  intros Hlo Hhi Hb Hw [Hu Hbits]. destruct (first_set_spec 64 w) as (Hr & Ht & Hmin); [unfold uint in Hu; lia|].
  unfold found_middle, ctz64. set (r := first_set 64 w) in *. rewrite Hbits in Ht by done. apply andb_true_iff in Ht as [Hin Heq].
  apply bool_decide_eq_true in Hin. apply eqb_prop in Heq. split; [lia|]. split; [|done].
  intros k Hk Ev. specialize (Hmin (k - 64 * p)). rewrite Hbits in Hmin by lia. replace (64 * p + (k - 64 * p)) with k in Hmin by lia.
  rewrite bool_decide_true, Ev, eqb_reflx in Hmin by lia. discriminate Hmin. lia.
Qed.

(** [g w] has the bits of [w] with the value [v]: [w] itself or [~w]. *)
Definition selects (v : bool) (g : Z -> Z) : Prop := forall w, uint 64 w -> uint 64 (g w) /\ forall j, 0 <= j < 64 -> Z.testbit (g w) j = Bool.eqb (Z.testbit w j) v.

Lemma selects_set : selects true (fun w => w).
Proof. intros w Hw. split; [done|]. intros j _. by destruct (Z.testbit w j). Qed.

Lemma selects_clear : selects false not64.
Proof. intros w Hw. split; [auto with words|]. intros j Hj. rewrite not64_testbit by done. by destruct (Z.testbit w j). Qed.

Lemma word_shows v g bm p : selects v g -> wf bm -> 0 <= p < Z.of_nat (length bm) ->
  exists w, word bm p = Some w /\ uint 64 w /\ shows v bm p (64 * p) (64 * p + 64) (g w).
Proof.
  intros Hg Hwf Hp. destruct (word_bits bm p Hwf Hp) as (w & Hw & _ & Hu & Hb). exists w. split_and!; [done|done|].
  destruct (Hg w Hu) as [Hgu Hgb]. split; [done|]. intros j Hj. rewrite Hgb, Hb by done. by rewrite bool_decide_true by lia.
Qed.

(** ** The loops *)

(** How a loop over the words from [p] ends: with the bit, or at a later word. *)
Definition loop_end (v : bool) (bm : bitmap) (p total : Z) (r : Z + Z * Z * Z) : Prop :=
  match r with
  | inl r => next_is v bm (64 * p) total r
  | inr (p', size', result') => p <= p' /\ 0 <= size' /\ result' = 64 * p' /\ 64 * p' + size' = total /\ none_in v bm (64 * p) (64 * p')
  end.

Lemma loop_end_shift v bm p p' total r : p <= p' -> none_in v bm (64 * p) (64 * p') -> loop_end v bm p' total r -> loop_end v bm p total r.
Proof.
  intros Hp Hn. destruct r as [r|[[q size] result]]; simpl.
  - intros Hr. eapply next_app; [|done..]. lia.
  - intros (Hq & Hs & -> & Ht & Hn'). split_and!; [lia..|]. by eapply none_app.
Qed.

Lemma skip1_ok v g bm total : selects v g -> wf bm -> total <= bits_of bm -> forall fuel p size,
  0 <= p -> 0 <= size -> 64 * p + size = total -> Z.of_nat (length bm) < p + Z.of_nat fuel ->
  exists r, skip1 g fuel bm p size (64 * p) = Some r /\ loop_end v bm p total r /\ match r with inl _ => True | inr (_, size', _) => size' < 64 end.
Proof.
  intros Hg Hwf Ht. induction fuel as [|fuel IH]; intros p size Hp Hs He Hfuel; [unfold bits_of in *; lia|].
  cbn [skip1]. unfold BITS_PER_LONG. destruct (Z.leb_spec 64 size).
  - destruct (word_shows v g bm p Hg Hwf) as (w & -> & Hu & Hsh); [unfold bits_of in *; lia|]. cbn [mbind option_bind].
    destruct (Z.eqb_spec (g w) 0) as [E0|En0]; cbn [negb].
    + rewrite E0 in Hsh. replace (64 * p + 64) with (64 * (p + 1)) by lia.
      destruct (IH (p + 1) (size - 64)) as (r & -> & Hr & Hr'); [lia..|]. exists r. split_and!; [done| |done].
      eapply loop_end_shift; [|by eapply shows_zero; [| |replace (64 * (p + 1)) with (64 * p + 64) by lia; exact Hsh]; lia|done]. lia.
    + eexists. split; [done|]. split; [|done]. eapply shows_found; [| | | |exact Hsh]; lia || done.
  - exists (inr (p, size, 64 * p)). split; [done|]. split; [|lia]. split_and!; [lia..|]. intros k. lia.
Qed.

Lemma skip4_ok bm total : wf bm -> total <= bits_of bm -> forall fuel p size,
  0 <= p -> 0 <= size -> 64 * p + size = total -> Z.of_nat (length bm) < p + Z.of_nat fuel ->
  exists r, skip4 fuel bm p size (64 * p) = Some r /\ loop_end true bm p total r.
Proof.
  intros Hwf Ht. induction fuel as [|fuel IH]; intros p size Hp Hs He Hfuel; [unfold bits_of in *; lia|].
  cbn [skip4]. unfold BITS_PER_LONG. destruct (Z.leb_spec (4 * 64) size).
  - assert (4 * 64 <= size /\ 64 * p + size <= bits_of bm) as Hin by lia. unfold bits_of in Hin.
    destruct (word_shows true _ bm p selects_set Hwf) as (w & -> & _ & Hsh); [lia|].
    destruct (word_shows true _ bm (p + 1) selects_set Hwf) as (w1 & -> & _ & Hsh1); [lia|].
    destruct (word_shows true _ bm (p + 2) selects_set Hwf) as (w2 & -> & _ & Hsh2); [lia|].
    destruct (word_shows true _ bm (p + 3) selects_set Hwf) as (w3 & -> & _ & Hsh3); [lia|]. cbn [mbind option_bind].
    destruct (Z.eqb_spec w 0) as [->|]; cbn [negb].
    2:{ eexists. split; [done|]. eapply shows_found; [| | | |exact Hsh]; lia || done. }
    destruct (Z.eqb_spec (Z.lor (Z.lor w1 w2) w3) 0) as [E0|]; cbn [negb].
    + apply Z.lor_eq_0_iff in E0 as [(-> & ->)%Z.lor_eq_0_iff ->].
      replace (64 * p + 4 * 64) with (64 * (p + 4)) by lia. destruct (IH (p + 4) (size - 4 * 64)) as (r & -> & Hr); [lia..|].
      exists r. split; [done|]. eapply (loop_end_shift _ _ _ (p + 4)); [lia| |done].
      apply shows_zero in Hsh, Hsh1, Hsh2, Hsh3; [|lia..]. intros k Hk.
      destruct (decide (k < 64 * (p + 1))); [apply Hsh; lia|]. destruct (decide (k < 64 * (p + 2))); [apply Hsh1; lia|].
      destruct (decide (k < 64 * (p + 3))); [apply Hsh2; lia|apply Hsh3; lia].
    + eexists. split; [done|]. split_and!; [lia..|]. intros k. lia.
  - eexists. split; [done|]. split_and!; [lia..|]. intros k. lia.
Qed.

(** ** The first word and the last one *)

(** [found_first] looks at the bits below [size] of word [p]. *)
Lemma first_set_ok bm p lo size w : 64 * p <= lo <= 64 * p + size -> 0 < size < 64 -> shows true bm p lo (64 * p + 64) w ->
  next_is true bm lo (64 * p + size)
    (if Z.land w (Z.shiftr ALL_ONES (64 - size)) =? 0 then 64 * p + size else found_middle (64 * p) (Z.land w (Z.shiftr ALL_ONES (64 - size)))).
Proof.
  intros Hlo Hs [Hu Hb]. assert (shows true bm p lo (64 * p + size) (Z.land w (Z.shiftr ALL_ONES (64 - size)))) as Hsh.
  { split; [auto with words|]. intros j Hj. rewrite Z.land_spec, Hb, Z.shiftr_spec, ALL_ONES_testbit by lia.
    repeat case_bool_decide; destruct (Z.ltb_spec (j + (64 - size)) 64); rewrite ?andb_true_r, ?andb_false_r; lia || done. }
  destruct (Z.eqb_spec (Z.land w (Z.shiftr ALL_ONES (64 - size))) 0) as [E|].
  - rewrite E in Hsh. apply next_end; [lia|]. eapply shows_zero; [| |exact Hsh]; lia.
  - eapply shows_found; [| | | |exact Hsh]; lia || done.
Qed.

Lemma first_clear_ok bm p lo size w : 64 * p <= lo <= 64 * p + size -> 0 < size < 64 -> uint 64 w -> shows false bm p lo (64 * p + 64) (not64 w) ->
  next_is false bm lo (64 * p + size)
    (if Z.lor w (u64 (Z.shiftl ALL_ONES size)) =? ALL_ONES then 64 * p + size else found_middle (64 * p) (not64 (Z.lor w (u64 (Z.shiftl ALL_ONES size))))).
Proof.
  intros Hlo Hs Hw [Hu Hb]. set (t := Z.lor w (u64 (Z.shiftl ALL_ONES size))). assert (uint 64 t) as Hut by (unfold t; auto with words).
  assert (shows false bm p lo (64 * p + size) (not64 t)) as Hsh.
  { split; [auto with words|]. intros j Hj. rewrite not64_testbit by done. unfold t. rewrite Z.lor_spec, u64_testbit, Z.shiftl_spec by lia.
    rewrite negb_orb, <- (not64_testbit w), Hb by done. destruct (Z.ltb_spec j 64); [|lia]. cbn [andb].
    destruct (decide (size <= j)); [rewrite ALL_ONES_testbit by lia; destruct (Z.ltb_spec (j - size) 64); [|lia]|rewrite Z.testbit_neg_r by lia];
      repeat case_bool_decide; rewrite ?andb_true_r, ?andb_false_r; lia || done. }
  destruct (Z.eqb_spec t ALL_ONES) as [E|En].
  - rewrite E in Hsh. apply next_end; [lia|]. eapply shows_zero; [| |exact Hsh]; lia.
  - eapply shows_found; [| | | |exact Hsh]; [lia..|]. intros E0. apply En, word_ext; [done|auto with words|]. intros j Hj.
    rewrite ALL_ONES_testbit by lia. assert (Z.testbit (not64 t) j = false) as E1 by (rewrite E0; apply Z.bits_0).
    rewrite not64_testbit in E1 by done. apply negb_false_iff in E1. rewrite E1. symmetry. apply Z.ltb_lt. lia.
Qed.

Lemma mask_from bm p offset w : 0 < offset < 64 -> uint 64 w -> (forall j, 0 <= j < 64 -> Z.testbit w j = bit bm (64 * p + j)) ->
  shows true bm p (64 * p + offset) (64 * p + 64) (Z.land w (u64 (Z.shiftl ALL_ONES offset))) /\
  shows false bm p (64 * p + offset) (64 * p + 64) (not64 (Z.lor w (Z.shiftr ALL_ONES (64 - offset)))).
Proof.
  intros Ho Hw Hb. split; (split; [auto with words|]); intros j Hj.
  - rewrite Z.land_spec, Hb, u64_testbit, Z.shiftl_spec by lia. destruct (Z.ltb_spec j 64); [|lia]. cbn [andb].
    destruct (decide (offset <= j)); [rewrite ALL_ONES_testbit by lia; destruct (Z.ltb_spec (j - offset) 64); [|lia]|rewrite Z.testbit_neg_r by lia];
      case_bool_decide; (lia || by destruct (bit bm (64 * p + j))).
  - rewrite not64_testbit, Z.lor_spec, Hb, Z.shiftr_spec, ALL_ONES_testbit by lia.
    case_bool_decide; destruct (Z.ltb_spec (j + (64 - offset)) 64); (lia || by destruct (bit bm (64 * p + j))).
Qed.

(** ** The searches *)

Lemma search_last_ok v g first bm p total r : selects v g -> wf bm -> 0 <= p -> total <= bits_of bm ->
  (forall q size w, 0 <= q -> 0 < size < 64 -> uint 64 w -> shows v bm q (64 * q) (64 * q + 64) (g w) -> next_is v bm (64 * q) (64 * q + size) (first w size (64 * q))) ->
  loop_end v bm p total r -> match r with inl _ => True | inr (_, size', _) => size' < 64 end ->
  exists r', search_last first bm r = Some r' /\ next_is v bm (64 * p) total r'.
Proof.
  intros Hg Hwf Hp Ht Hfirst Hr Hs. destruct r as [r|[[q s] ?]]; [by exists r|]. destruct Hr as (Hq & Hs0 & -> & Eq & Hn). cbn [search_last].
  destruct (Z.eqb_spec s 0) as [->|].
  - eexists. split; [done|]. replace total with (64 * q) by lia. apply next_end; [lia|done].
  - destruct (word_shows v g bm q Hg Hwf) as (w & -> & Hu & Hsh); [unfold bits_of in *; lia|]. cbn [mbind option_bind]. eexists. split; [done|].
    eapply next_app; [|exact Hn|]; [lia|]. rewrite <- Eq. apply Hfirst; [lia|lia|done|done].
Qed.

Lemma search_words_ok bm p size : wf bm -> 0 <= p -> 64 * p <= size -> size <= bits_of bm ->
  exists r, search_words bm p (size - 64 * p) (64 * p) = Some r /\ next_is true bm (64 * p) size r.
Proof.
  intros Hwf Hp Hs Hsize. unfold search_words. destruct (skip4_ok bm size Hwf Hsize (S (length bm)) p (size - 64 * p)) as (r & -> & Hr); [lia..|]. cbn [mbind option_bind].
  destruct r as [r|[[p2 s2] ?]]; [by exists r|]. destruct Hr as (Hp2 & Hs2 & -> & Ht2 & Hn2).
  destruct (skip1_ok true _ bm size selects_set Hwf Hsize (S (length bm)) p2 s2) as (r & -> & Hr & Hr'); [lia..|]. cbn [mbind option_bind].
  eapply search_last_ok; [apply selects_set|done|done|done| |by eapply loop_end_shift|done].
  intros q sz w Hq Hsz Hu Hsh. apply first_set_ok; lia || done.
Qed.

Lemma search_zero_words_ok bm p size : wf bm -> 0 <= p -> 64 * p <= size -> size <= bits_of bm ->
  exists r, search_zero_words bm p (size - 64 * p) (64 * p) = Some r /\ next_is false bm (64 * p) size r.
Proof.
  intros Hwf Hp Hs Hsize. unfold search_zero_words.
  destruct (skip1_ok false _ bm size selects_clear Hwf Hsize (S (length bm)) p (size - 64 * p)) as (r & -> & Hr & Hr'); [lia..|]. cbn [mbind option_bind].
  eapply search_last_ok; [apply selects_clear|done|done|done| |done|done].
  intros q sz w Hq Hsz Hu Hsh. apply first_clear_ok; lia || done.
Qed.

(** Both searches look at the first word from [offset] on. *)
Lemma offset_split bm size offset : 0 <= offset < size -> size <= bits_of bm ->
  exists p o, BIT_WORD offset = p /\ offset mod 64 = o /\ offset = 64 * p + o /\ 0 <= o < 64 /\ 0 <= p < Z.of_nat (length bm).
Proof. intros Ho Hs. exists (BIT_WORD offset), (offset mod 64). split_and!; done || zdiv. Qed.

Lemma find_next_ok bm size offset : wf bm -> 0 <= offset < size -> size <= bits_of bm ->
  exists r, find_next_bit bm size offset = Some r /\ next_is true bm offset size r.
Proof.
  intros Hwf Ho Hsize. unfold find_next_bit, BITS_PER_LONG. destruct (Z.leb_spec size offset); [lia|]. cbv zeta.
  destruct (offset_split bm size offset Ho Hsize) as (p & o & -> & -> & Eo & Hob & Hp). replace (offset - o) with (64 * p) by lia. set (s := size - 64 * p).
  destruct (Z.eqb_spec o 0) as [->|]; cbn [negb].
  { rewrite Eo, Z.add_0_r. apply search_words_ok; lia || done. }
  destruct (word_bits bm p Hwf Hp) as (w & -> & _ & Hu & Hb). cbn [mbind option_bind]. destruct (mask_from bm p o w) as [Hsh _]; [lia|done|done|].
  rewrite <- Eo in Hsh. destruct (Z.ltb_spec s 64).
  { eexists. split; [done|]. replace size with (64 * p + s) at 1 by lia. apply first_set_ok; lia || done. }
  destruct (Z.eqb_spec (Z.land w (u64 (Z.shiftl ALL_ONES o))) 0) as [E0|]; cbn [negb].
  - rewrite E0 in Hsh. destruct (search_words_ok bm (p + 1) size) as (r & Er & Hr); [lia || done..|]. replace (64 * (p + 1)) with (64 * p + 64) in * by lia.
    replace (size - (64 * p + 64)) with (s - 64) in Er by lia. rewrite Er. exists r. split; [done|]. eapply next_app; [|eapply shows_zero; [| |exact Hsh]|exact Hr]; lia.
  - eexists. split; [done|]. eapply shows_found; [| | | |exact Hsh]; lia || done.
Qed.

Lemma find_next_zero_ok bm size offset : wf bm -> 0 <= offset < size -> size <= bits_of bm ->
  exists r, find_next_zero_bit bm size offset = Some r /\ next_is false bm offset size r.
Proof.
  intros Hwf Ho Hsize. unfold find_next_zero_bit, BITS_PER_LONG. destruct (Z.leb_spec size offset); [lia|]. cbv zeta.
  destruct (offset_split bm size offset Ho Hsize) as (p & o & -> & -> & Eo & Hob & Hp). replace (offset - o) with (64 * p) by lia. set (s := size - 64 * p).
  destruct (Z.eqb_spec o 0) as [->|]; cbn [negb].
  { rewrite Eo, Z.add_0_r. apply search_zero_words_ok; lia || done. }
  destruct (word_bits bm p Hwf Hp) as (w & -> & _ & Hu & Hb). cbn [mbind option_bind]. destruct (mask_from bm p o w) as [_ Hsh]; [lia|done|done|].
  rewrite <- Eo in Hsh. destruct (Z.ltb_spec s 64).
  { eexists. split; [done|]. replace size with (64 * p + s) at 1 by lia. apply first_clear_ok; [lia|lia|auto with words|done]. }
  destruct (Z.eqb_spec (not64 (Z.lor w (Z.shiftr ALL_ONES (64 - o)))) 0) as [E0|]; cbn [negb].
  - rewrite E0 in Hsh. destruct (search_zero_words_ok bm (p + 1) size) as (r & Er & Hr); [lia || done..|]. replace (64 * (p + 1)) with (64 * p + 64) in * by lia.
    replace (size - (64 * p + 64)) with (s - 64) in Er by lia. rewrite Er. exists r. split; [done|]. eapply next_app; [|eapply shows_zero; [| |exact Hsh]|exact Hr]; lia.
  - eexists. split; [done|]. eapply shows_found; [| | | |exact Hsh]; lia || done.
Qed.

(** [find_first_bit] reads a whole word and cuts the result. *)
Lemma next_cut v bm a b b' r : next_is v bm a b' r -> b <= b' -> a <= b -> next_is v bm a b (if r <? b then r else b).
Proof.
  intros (Hr & Hn & Hv) Hb Ha. destruct (Z.ltb_spec r b); [split_and!; [lia..|done|intros _; apply Hv; lia]|].
  apply next_end; [done|]. eapply none_sub; [exact Hn|lia..].
Qed.

Lemma find_first_loop_ok bm size : wf bm -> size <= bits_of bm -> forall fuel p, 0 <= p <= Z.of_nat (length bm) -> Z.of_nat (length bm) < p + Z.of_nat fuel ->
  exists r, find_first_bit_loop fuel bm p size (64 * p) = Some r /\ (64 * p <= size -> next_is true bm (64 * p) size r) /\ (size < 64 * p -> r = size).
Proof.
  intros Hwf Hsize. induction fuel as [|fuel IH]; intros p Hp Hfuel; [lia|]. cbn [find_first_bit_loop].
  destruct (Z.ltb_spec (64 * p) size).
  - destruct (word_shows true _ bm p selects_set Hwf) as (w & -> & Hu & Hsh); [unfold bits_of in *; lia|]. cbn [mbind option_bind].
    destruct (Z.eqb_spec w 0) as [->|]; cbn [negb].
    + destruct (IH (p + 1)) as (r & Er & Hin & Hout); [unfold bits_of in *; lia..|]. unfold BITS_PER_LONG. replace (64 * p + 64) with (64 * (p + 1)) by lia. exists r. split; [done|].
      split; [intros _|lia]. assert (none_in true bm (64 * p) (64 * (p + 1))) as Hn by (eapply shows_zero; [| |replace (64 * (p + 1)) with (64 * p + 64) by lia; exact Hsh]; lia).
      destruct (decide (64 * (p + 1) <= size)); [eapply next_app; [|exact Hn|by apply Hin]; lia|].
      rewrite Hout by lia. apply next_end; [lia|]. eapply none_sub; [exact Hn|lia..].
    + eexists. split; [done|]. split; [intros _|lia]. eapply (next_cut _ _ _ _ (Z.max size (64 * p + 64))); [|lia..].
      eapply shows_found; [| | | |exact Hsh]; lia || done.
  - exists size. split; [done|]. split; [|done]. intros ?. apply next_end; [lia|]. intros k. lia.
Qed.

Lemma find_first_ok bm size : wf bm -> 0 <= size <= bits_of bm -> exists r, find_first_bit bm size = Some r /\ next_is true bm 0 size r.
Proof. intros Hwf Hs. destruct (find_first_loop_ok bm size Hwf (proj2 Hs) (S (length bm)) 0) as (r & E & Hr & _); [lia..|]. exists r. split; [done|]. apply Hr. lia. Qed.

(** ** The last bit *)

(** [r] is the greatest set bit below [size], or [size]. *)
Definition last_is (bm : bitmap) (size r : Z) : Prop :=
  (r = size /\ none_in true bm 0 size) \/ (0 <= r < size /\ bit bm r = true /\ none_in true bm (r + 1) size).

Lemma shows_last bm p hi w : 0 <= p -> 64 * p <= hi <= 64 * p + 64 -> w <> 0 -> shows true bm p (64 * p) hi w ->
  exists r, p * 64 + 64 - 1 - clz64 w = r /\ 0 <= r < hi /\ bit bm r = true /\ none_in true bm (r + 1) hi.
Proof.
  intros Hp Hhi Hw [Hu Hb]. eexists. split; [done|]. unfold clz64. destruct (Z.eqb_spec w 0); [done|].
  replace (p * 64 + 64 - 1 - (63 - Z.log2 w)) with (64 * p + Z.log2 w) by lia. unfold uint in Hu.
  pose proof (Z.log2_nonneg w). assert (Z.log2 w < 64) by (apply Z.log2_lt_pow2; lia).
  pose proof (Z.bit_log2 w ltac:(lia)) as Ht. rewrite Hb in Ht by lia. apply andb_true_iff in Ht as [Hin Heq]. apply bool_decide_eq_true in Hin. apply eqb_prop in Heq.
  split_and!; [lia..|done|]. intros k Hk Ek. assert (Z.testbit w (k - 64 * p) = false) as Hf by (apply Z.bits_above_log2; lia).
  rewrite Hb in Hf by lia. replace (64 * p + (k - 64 * p)) with k in Hf by lia. rewrite bool_decide_true, Ek in Hf by lia. discriminate Hf.
Qed.

Lemma last_loop_ok bm size : wf bm -> 0 <= size <= bits_of bm -> forall n, 64 * Z.of_nat n <= size -> none_in true bm (64 * Z.of_nat n) size ->
  exists r, last_loop bm n size = Some r /\ last_is bm size r.
Proof.
  intros Hwf Hs. induction n as [|n IH]; intros Hn Hnone; cbn [last_loop].
  - exists size. split; [done|]. left. split; [done|]. by eapply none_sub; [exact Hnone|..].
  - destruct (word_shows true _ bm (Z.of_nat n) selects_set Hwf) as (w & Hw & Hu & Hsh); [unfold bits_of in *; lia|].
    unfold word in Hw. destruct (Z.leb_spec 0 (Z.of_nat n)); [|lia]. rewrite Nat2Z.id in Hw. rewrite Hw. cbn [mbind option_bind].
    destruct (Z.eqb_spec w 0) as [->|]; cbn [negb].
    + apply IH; [lia|]. eapply none_app; [|exact Hnone]. replace (64 * Z.of_nat (S n)) with (64 * Z.of_nat n + 64) by lia. eapply shows_zero; [..|exact Hsh]; lia.
    + eexists. split; [done|]. unfold BITS_PER_LONG. destruct (shows_last bm (Z.of_nat n) (64 * Z.of_nat n + 64) w) as (r & -> & Hr & Hv & Hlast); [lia|lia|done|done|].
      right. split_and!; [lia..|done|]. eapply none_app; [exact Hlast|]. eapply none_sub; [exact Hnone|lia..].
Qed.

Lemma find_last_bit_ok bm size : wf bm -> 0 <= size <= bits_of bm -> exists r, find_last_bit bm size = Some r /\ last_is bm size r.
Proof.
  intros Hwf Hs. unfold find_last_bit. change (BITS_PER_LONG - 1) with 63. rewrite land_63. set (q := BIT_WORD size).
  assert (0 <= q /\ size = 64 * q + size mod 64 /\ 0 <= size mod 64 < 64) as (Hq & Eq & Hm) by (subst q; zdiv). set (m := size mod 64) in *.
  destruct (Z.eqb_spec m 0) as [E0|]; cbn [negb].
  - apply last_loop_ok; [done|lia|lia|]. intros k. lia.
  - destruct (word_shows true _ bm q selects_set Hwf) as (w & -> & Hu & [_ Hb]); [unfold bits_of in *; lia|]. cbn [mbind option_bind]. unfold BITS_PER_LONG.
    assert (shows true bm q (64 * q) size (Z.land w (Z.shiftr ALL_ONES (64 - m)))) as Hsh.
    { split; [auto with words|]. intros j Hj. rewrite Z.land_spec, Hb, Z.shiftr_spec, ALL_ONES_testbit by lia.
      repeat case_bool_decide; destruct (Z.ltb_spec (j + (64 - m)) 64); rewrite ?andb_true_r, ?andb_false_r; lia || done. }
    destruct (Z.eqb_spec (Z.land w (Z.shiftr ALL_ONES (64 - m))) 0) as [E0|]; cbn [negb].
    + rewrite E0 in Hsh. apply last_loop_ok; [done|lia|lia|]. rewrite Z2Nat.id by done. eapply shows_zero; [..|exact Hsh]; lia.
    + destruct (shows_last bm q size (Z.land w (Z.shiftr ALL_ONES (64 - m)))) as (r & -> & Hr); [lia|lia|done|done|]. exists r. split; [done|]. by right.
Qed.

(** ** Free areas *)

(** An aligned area of [nr] clear bits within the bitmap *)
Definition free_area (bm : bitmap) (size start nr align_mask i : Z) : Prop :=
  start <= i /\ i + nr <= size /\ i mod (align_mask + 1) = 0 /\ none_in true bm i (i + nr).

Lemma align_down y a : 0 <= a < 64 -> uint 64 y -> Z.land y (not64 (2 ^ a - 1)) = y / 2 ^ a * 2 ^ a.
Proof.
  intros Ha Hy. rewrite <- Z.shiftr_div_pow2, <- Z.shiftl_mul_pow2, <- Z.ldiff_ones_r by lia. replace (2 ^ a - 1) with (Z.ones a) by (rewrite Z.ones_equiv; lia).
  apply Z.bits_inj'. intros j Hj. rewrite Z.land_spec, Z.ldiff_spec. destruct (decide (j < 64)); [by rewrite not64_testbit by lia|].
  by rewrite (word_testbit y) by (done || lia).
Qed.

Lemma align_ok x a : 0 <= a < 64 -> 0 <= x -> x + 2 ^ a <= 2 ^ 64 ->
  x <= ALIGN_MASK x (2 ^ a - 1) < x + 2 ^ a /\ ALIGN_MASK x (2 ^ a - 1) mod 2 ^ a = 0 /\ forall i, x <= i -> i mod 2 ^ a = 0 -> ALIGN_MASK x (2 ^ a - 1) <= i.
Proof.
  intros Ha Hx Hb. unfold ALIGN_MASK. assert (0 < 2 ^ a) by lia. rewrite wrap_id by (unfold uint; lia). rewrite align_down by (done || unfold uint; lia).
  pose proof (Z.div_mod (x + (2 ^ a - 1)) (2 ^ a)). pose proof (Z.mod_pos_bound (x + (2 ^ a - 1)) (2 ^ a)). split; [lia|]. split; [apply Z.mod_mul; lia|].
  intros i Hi Hm. pose proof (Z.div_mod i (2 ^ a)). assert ((x + (2 ^ a - 1)) / 2 ^ a <= i / 2 ^ a); [|nia].
  apply Z.lt_succ_r, Z.div_lt_upper_bound; nia.
Qed.

(** What the search promises: the first free area, or a number above [size]
    when there is none. *)
Definition area_is (bm : bitmap) (size start nr align_mask r : Z) : Prop :=
  (r <= size /\ free_area bm size start nr align_mask r /\ forall i, free_area bm size start nr align_mask i -> r <= i) \/
  (size < r /\ forall i, ~ free_area bm size start nr align_mask i).

Lemma area_from bm size start start' nr m r : start <= start' -> (forall i, free_area bm size start nr m i -> start' <= i) ->
  area_is bm size start' nr m r -> area_is bm size start nr m r.
Proof.
  intros Hs Hi. assert (forall i, free_area bm size start nr m i -> free_area bm size start' nr m i) as Hsub.
  { intros i Hf. pose proof (Hi i Hf). destruct Hf as (? & ? & ? & ?). by split_and!. }
  intros [(Hr & (H1 & H2 & H3 & H4) & Hmin)|(Hr & Hno)]; [left|right]; split_and!; [done|split_and!; [lia|done..]|auto|done|].
  intros i Hf. by apply (Hno i), Hsub.
Qed.

Lemma zero_area_ok bm size nr a : wf bm -> 0 <= size <= bits_of bm -> 0 < nr -> 0 <= a < 64 -> size + 2 ^ a + nr <= 2 ^ 64 ->
  forall fuel start, 0 <= start -> size < start + Z.of_nat fuel -> (0 < fuel)%nat ->
  exists r, zero_area_loop fuel bm size start nr (2 ^ a - 1) = Some r /\ area_is bm size start nr (2 ^ a - 1) r.
Proof.
  intros Hwf Hs Hnr Ha Hov. induction fuel as [|fuel IH]; intros start Hst Hfuel Hpos; [lia|]. cbn [zero_area_loop].
  assert (exists z, find_next_zero_bit bm size start = Some z /\ 0 <= z <= size /\ (z < size -> start <= z) /\ forall i, free_area bm size start nr (2 ^ a - 1) i -> z <= i) as (z & -> & Hz & Hsz & Hzi).
  { destruct (decide (start < size)).
    - destruct (find_next_zero_ok bm size start Hwf) as (z & -> & Hz & Hn & _); [lia..|]. exists z. split_and!; [done|lia..|].
      intros i (Hi & Hie & _ & Hfree). apply Z.nlt_ge. intros Hlt. apply (Hn i); [lia|]. specialize (Hfree i). destruct (bit bm i); [by destruct Hfree; [lia|]|done].
    - exists size. split; [unfold find_next_zero_bit; by destruct (Z.leb_spec size start); [|lia]|]. split; [lia|]. split; [lia|].
      intros i (Hi & Hie & _). lia. }
  cbn [mbind option_bind]. destruct (align_ok z a) as (Hal & Hmod & Hmin); [done|lia|lia|]. set (x := ALIGN_MASK z (2 ^ a - 1)) in *.
  rewrite wrap_id by (unfold uint; lia). replace (2 ^ a - 1 + 1) with (2 ^ a) in * by lia.
  assert (forall i, free_area bm size start nr (2 ^ a - 1) i -> x <= i) as Hxi.
  { intros i Hf. apply Hmin; [by apply Hzi|]. destruct Hf as (_ & _ & Hm & _). by replace (2 ^ a - 1 + 1) with (2 ^ a) in Hm by lia. }
  destruct (Z.ltb_spec size (x + nr)).
  { eexists. split; [done|]. right. split; [lia|]. intros i Hf. pose proof (Hxi i Hf). destruct Hf as (_ & Hie & _). lia. }
  destruct (find_next_ok bm (x + nr) x Hwf) as (i & -> & Hi & Hn & Hv); [lia..|]. cbn [mbind option_bind]. destruct (Z.ltb_spec i (x + nr)).
  - destruct (IH (i + 1)) as (r & -> & Hr); [lia..|]. exists r. split; [done|]. eapply area_from; [| |exact Hr]; [lia|].
    intros j Hf. pose proof (Hxi j Hf). destruct Hf as (_ & Hje & _ & Hfree). apply Z.nlt_ge. intros Hlt. apply (Hfree i); [lia|]. by apply Hv.
  - eexists. split; [done|]. left. split; [lia|]. split; [|done].
    split_and!; [lia..|by replace (2 ^ a - 1 + 1) with (2 ^ a) by lia|]. by replace (x + nr) with i by lia.
Qed.
