(* ===== verification/BitmapSets.v ===== *)
(** * Operations on whole bitmaps

    Tests, combinations, counts and copies of bitmaps, as operations on the sets of
    their bits. *)

From S2P Require Import Prelude BitOps Bitmap BitmapProofs BitmapSearch.

(** The words [v k] that hold bits below [n] have the bits [B]. *)
Definition reads (v : nat -> option Z) (B : Z -> bool) (n : Z) : Prop := forall k, 64 * Z.of_nat k < n ->
  exists w, v k = Some w /\ uint 64 w /\ forall j, 0 <= j < 64 -> Z.testbit w j = B (64 * Z.of_nat k + j).

Lemma reads_words bm n : wf bm -> n <= bits_of bm -> reads (fun k => bm !! k) (bit bm) n.
Proof.
  intros Hwf Hn k Hk. destruct (word_bits bm (Z.of_nat k) Hwf) as (w & _ & Hw & Hu & Hb); [unfold bits_of in *; lia|].
  rewrite Nat2Z.id in Hw. by exists w.
Qed.

Lemma reads_not bm n : wf bm -> n <= bits_of bm -> reads (fun k => w ← bm !! k; Some (not64 w)) (fun k => negb (bit bm k)) n.
Proof.
  intros Hwf Hn k Hk. destruct (reads_words bm n Hwf Hn k Hk) as (w & -> & Hu & Hb). eexists. split; [done|]. split; [auto with words|].
  intros j Hj. by rewrite not64_testbit, Hb by done.
Qed.

(** [f] works on the bits of two words as [g] does. *)
Definition bitwise (f : Z -> Z -> Z) (g : bool -> bool -> bool) : Prop := forall w1 w2, uint 64 w1 -> uint 64 w2 ->
  uint 64 (f w1 w2) /\ forall j, 0 <= j < 64 -> Z.testbit (f w1 w2) j = g (Z.testbit w1 j) (Z.testbit w2 j).

Lemma bitwise_and : bitwise Z.land andb.
Proof. split; [auto with words|]. intros. apply Z.land_spec. Qed.

Lemma bitwise_or : bitwise Z.lor orb.
Proof. split; [auto with words|]. intros. apply Z.lor_spec. Qed.

Lemma bitwise_xor : bitwise Z.lxor xorb.
Proof. split; [auto with words|]. intros. apply Z.lxor_spec. Qed.

Lemma bitwise_andnot : bitwise (fun w1 w2 => Z.land w1 (not64 w2)) (fun b1 b2 => b1 && negb b2).
Proof. split; [auto with words|]. intros. by rewrite Z.land_spec, not64_testbit. Qed.

Lemma reads_word2 f g bm1 bm2 n : bitwise f g -> wf bm1 -> wf bm2 -> n <= bits_of bm1 -> n <= bits_of bm2 ->
  reads (word2 f bm1 bm2) (fun k => g (bit bm1 k) (bit bm2 k)) n.
Proof.
  intros Hf Hw1 Hw2 Hn1 Hn2 k Hk. destruct (reads_words bm1 n Hw1 Hn1 k Hk) as (w1 & E1 & Hu1 & Hb1), (reads_words bm2 n Hw2 Hn2 k Hk) as (w2 & E2 & Hu2 & Hb2).
  unfold word2. simpl in E1, E2. rewrite E1, E2. cbn [mbind option_bind]. eexists. split; [done|]. destruct (Hf w1 w2 Hu1 Hu2) as [Hu Hb]. split; [done|].
  intros j Hj. by rewrite Hb, Hb1, Hb2.
Qed.

Lemma reads_le v B n m : reads v B n -> m <= n -> reads v B m.
Proof. intros Hr Hm k Hk. apply Hr. lia. Qed.

(** ** Tests *)

Lemma words_zero_ok v B : forall n k, reads v B (64 * (Z.of_nat k + Z.of_nat n)) ->
  exists b, words_zero v k n = Some b /\ (b = true <-> forall i, 64 * Z.of_nat k <= i < 64 * (Z.of_nat k + Z.of_nat n) -> B i = false).
Proof.
  induction n as [|n IH]; intros k Hr; cbn [words_zero].
  { exists true. split; [done|]. split; [|done]. intros _ i. lia. }
  destruct (Hr k) as (w & -> & Hu & Hb); [lia|]. cbn [mbind option_bind].
  destruct (negb (w =? 0)) eqn:Ez.
  - exists false. split; [done|]. split; [done|]. intros Hall. apply word_nonzero in Ez as (j & Hj & Ht); [|done].
    rewrite Hb, Hall in Ht by lia. done.
  - apply negb_false_iff, Z.eqb_eq in Ez as ->. destruct (IH (S k)) as (b & -> & Hall). { eapply reads_le; [exact Hr|lia]. }
    exists b. split; [done|]. rewrite Hall. split; intros Hi i Hin; [|apply Hi; lia].
    destruct (decide (i < 64 * Z.of_nat (S k))); [|apply Hi; lia]. specialize (Hb (i - 64 * Z.of_nat k)). rewrite Z.bits_0 in Hb.
    replace (64 * Z.of_nat k + (i - 64 * Z.of_nat k)) with i in Hb by lia. symmetry. apply Hb. lia.
Qed.

Lemma last_word_testbit bits j : bits mod 64 <> 0 -> 0 <= j < 64 -> Z.testbit (BITMAP_LAST_WORD_MASK bits) j = (j <? bits mod 64).
Proof. intros Hm Hj. rewrite last_mask_testbit by done. assert ((- bits) mod 64 = 64 - bits mod 64) as -> by zdiv. destruct (Z.ltb_spec (j + (64 - bits mod 64)) 64), (Z.ltb_spec j (bits mod 64)); lia || done. Qed.

Lemma bits_zero_ok v B bits : 0 <= bits -> reads v B bits ->
  exists b, bits_zero v bits = Some b /\ (b = true <-> forall i, 0 <= i < bits -> B i = false).
Proof.
  intros Hbits Hr. unfold bits_zero, BITS_PER_LONG. set (q := bits / 64). set (m := bits mod 64). assert (bits = 64 * q + m /\ 0 <= m < 64 /\ 0 <= q) as (E & Hm & Hq) by (subst q m; zdiv).
  destruct (words_zero_ok v B (Z.to_nat q) 0) as (b & -> & Hb). { eapply reads_le; [exact Hr|lia]. }
  replace (64 * (Z.of_nat 0 + Z.of_nat (Z.to_nat q))) with (64 * q) in Hb by lia. cbn [mbind option_bind].
  destruct b; cbn iota. 2:{ exists false. split; [done|]. split; [done|]. intros Hall. apply Hb. intros i Hi. apply Hall. lia. }
  pose proof (proj1 Hb eq_refl) as Hlow. clear Hb. destruct (Z.eqb_spec m 0); cbn [negb].
  { exists true. split; [done|]. split; [|done]. intros _ i Hi. apply Hlow. lia. }
  destruct (Hr (Z.to_nat q)) as (w & -> & Hu & Hb); [lia|]. cbn [mbind option_bind]. eexists. split; [done|]. rewrite Z.eqb_eq, bm_word_zero by auto with words.
  rewrite Z2Nat.id in Hb by done. split; intros Hall.
  - intros i Hi. destruct (decide (i < 64 * q)); [apply Hlow; lia|]. specialize (Hall (i - 64 * q)).
    rewrite Z.land_spec, Hb, last_word_testbit in Hall by (done || lia). replace (64 * q + (i - 64 * q)) with i in Hall by lia.
    fold m in Hall. destruct (Z.ltb_spec (i - 64 * q) m); [|lia]. rewrite andb_true_r in Hall. apply Hall. lia.
  - intros j Hj. rewrite Z.land_spec, Hb, last_word_testbit by done. fold m. destruct (Z.ltb_spec j m); [|apply andb_false_r]. rewrite Hall by lia. done.
Qed.

(** ** Combinations *)

(** [dst'] is [dst] with the bits [B] from [a] up to [b]. *)
Definition overwritten (B : Z -> bool) (a b : Z) (dst dst' : bitmap) : Prop :=
  wf dst' /\ length dst' = length dst /\ forall i, 0 <= i -> bit dst' i = if bool_decide (a <= i < b) then B i else bit dst i.

Lemma overwrite_word B w p dst : wf dst -> 0 <= p < Z.of_nat (length dst) -> uint 64 w -> (forall j, 0 <= j < 64 -> Z.testbit w j = B (64 * p + j)) ->
  exists dst', update_word (fun _ => w) p dst = Some dst' /\ overwritten B (64 * p) (64 * p + 64) dst dst'.
Proof.
  intros Hwf Hp Hu Hb. destruct (update_word_ok (fun _ => w) (fun j _ => B (64 * p + j)) p dst Hwf Hp) as (dst' & -> & Hw & Hl & Hbits); [done|auto|].
  exists dst'. split; [done|]. split_and!; [done|done|]. intros i Hi. rewrite Hbits by done. by replace (64 * p + (i - 64 * p)) with i by lia.
Qed.

Lemma overwritten_app B a b c dst dst1 dst2 : a <= b <= c -> overwritten B a b dst dst1 -> overwritten B b c dst1 dst2 -> overwritten B a c dst dst2.
Proof.
  intros Habc (_ & L1 & B1) (W2 & L2 & B2). split_and!; [done|congruence|]. intros i Hi. rewrite B2, B1 by done. repeat case_bool_decide; lia || done.
Qed.

Lemma fill_words_ok v B : forall n k dst result, reads v B (64 * (Z.of_nat k + Z.of_nat n)) -> wf dst -> (k + n <= length dst)%nat ->
  exists dst' result', fill_words v k n dst result = Some (dst', result') /\ overwritten B (64 * Z.of_nat k) (64 * (Z.of_nat k + Z.of_nat n)) dst dst' /\
    (result' <> 0 <-> result <> 0 \/ exists i, 64 * Z.of_nat k <= i < 64 * (Z.of_nat k + Z.of_nat n) /\ B i = true).
Proof.
  induction n as [|n IH]; intros k dst result Hr Hwf Hl; cbn [fill_words].
  { exists dst, result. split; [done|]. split; [|split; [auto|intros [?|(i & Hi & _)]; [done|lia]]]. split_and!; [done|done|]. intros i Hi. case_bool_decide; [lia|done]. }
  destruct (Hr k) as (w & -> & Hu & Hb); [lia|]. cbn [mbind option_bind].
  destruct (overwrite_word B w (Z.of_nat k) dst Hwf) as (dst1 & -> & Ho1); [lia|done|done|]. cbn [mbind option_bind].
  destruct (IH (S k) dst1 (Z.lor result w)) as (dst2 & r2 & -> & Ho2 & Hr2); [eapply reads_le; [exact Hr|lia]|apply Ho1|destruct Ho1 as (_ & -> & _); lia|].
  exists dst2, r2. split; [done|]. split.
  - eapply overwritten_app; [|exact Ho1|]; [lia|]. replace (64 * Z.of_nat k + 64) with (64 * Z.of_nat (S k)) by lia.
    by replace (64 * (Z.of_nat k + Z.of_nat (S n))) with (64 * (Z.of_nat (S k) + Z.of_nat n)) by lia.
  - rewrite Hr2, lor_nonzero. assert (w <> 0 <-> exists i, 64 * Z.of_nat k <= i < 64 * Z.of_nat k + 64 /\ B i = true) as ->.
    { rewrite <- Z.eqb_neq, <- negb_true_iff, word_nonzero by done. split.
      - intros (j & Hj & Ht). exists (64 * Z.of_nat k + j). rewrite <- Hb by done. split; [lia|done].
      - intros (i & Hi & Ht). exists (i - 64 * Z.of_nat k). rewrite Hb by lia. replace (64 * Z.of_nat k + (i - 64 * Z.of_nat k)) with i by lia. split; [lia|done]. }
    split; [intros [[?|(i & Hi & Ht)]|(i & Hi & Ht)]; [by left|right; exists i; split; lia || done..]|].
    intros [?|(i & Hi & Ht)]; [by left; left|]. destruct (decide (i < 64 * Z.of_nat k + 64)); [left; right|right]; exists i; split; lia || done.
Qed.

(** The bits of the words that hold the first [bits] bits *)
Definition word_bits_of (bits : Z) : Z := 64 * BITS_TO_LONGS bits.

Lemma combine_ok f g dst bm1 bm2 bits : bitwise f g -> wf dst -> wf bm1 -> wf bm2 -> 0 <= bits ->
  bits <= bits_of dst -> bits <= bits_of bm1 -> bits <= bits_of bm2 ->
  exists dst' b, combine f dst bm1 bm2 bits = Some (dst', b) /\ overwritten (fun i => g (bit bm1 i) (bit bm2 i)) 0 (word_bits_of bits) dst dst' /\
    (b = true <-> exists i, 0 <= i < word_bits_of bits /\ g (bit bm1 i) (bit bm2 i) = true).
Proof.
  intros Hf Hwd Hw1 Hw2 Hb Hd H1 H2. unfold combine, word_bits_of. set (n := BITS_TO_LONGS bits). assert (0 <= n /\ 64 * n <= bits_of dst /\ 64 * n <= bits_of bm1 /\ 64 * n <= bits_of bm2) as (Hn & Hnd & Hn1 & Hn2) by (subst n; zdiv).
  destruct (fill_words_ok (word2 f bm1 bm2) (fun i => g (bit bm1 i) (bit bm2 i)) (Z.to_nat n) 0 dst 0) as (dst' & r & -> & Ho & Hr).
  { eapply reads_le; [eapply (reads_word2 f g bm1 bm2 (64 * n)); done|lia]. }
  { done. }
  { unfold bits_of in Hnd. lia. }
  cbn [mbind option_bind]. eexists _, _. split; [done|]. replace (64 * (Z.of_nat 0 + Z.of_nat (Z.to_nat n))) with (64 * n) in * by lia. split; [done|].
  rewrite negb_true_iff, Z.eqb_neq, Hr. split; [by intros [|]|by right].
Qed.

Lemma complement_ok dst src bits : wf dst -> wf src -> 0 <= bits -> bits <= bits_of dst -> bits <= bits_of src ->
  exists dst', slow_bitmap_complement dst src bits = Some dst' /\
    overwritten (fun i => bool_decide (i < bits) && negb (bit src i)) 0 (word_bits_of bits) dst dst'.
Proof.
  intros Hwd Hws Hb Hd Hs. unfold slow_bitmap_complement, word_bits_of, BITS_PER_LONG. set (q := bits / 64). set (m := bits mod 64).
  assert (bits = 64 * q + m /\ 0 <= m < 64 /\ 0 <= q /\ BITS_TO_LONGS bits = if bool_decide (m = 0) then q else q + 1) as (E & Hm & Hq & ->) by (subst q m; case_bool_decide; zdiv).
  set (B := fun i => bool_decide (i < bits) && negb (bit src i)).
  destruct (fill_words_ok (fun k => w ← src !! k; Some (not64 w)) B (Z.to_nat q) 0 dst 0) as (dst1 & r & -> & Ho & _).
  { intros k Hk. destruct (reads_not src bits Hws Hs k) as (w & -> & Hu & Hbits); [lia|]. exists w. split_and!; [done..|]. intros j Hj. rewrite Hbits by done. unfold B. by rewrite bool_decide_true by lia. }
  { done. }
  { unfold bits_of in Hd. lia. }
  replace (64 * (Z.of_nat 0 + Z.of_nat (Z.to_nat q))) with (64 * q) in * by lia. cbn [mbind option_bind].
  destruct (Z.eqb_spec m 0) as [E0|E0]; cbn [negb]; [rewrite bool_decide_true by done; by exists dst1|rewrite bool_decide_false by done].
  destruct (reads_not src bits Hws Hs (Z.to_nat q)) as (w & Ew & Hu & Hbits); [lia|]. destruct (src !! Z.to_nat q) as [w0|] eqn:Ew0; [|discriminate]. cbn [mbind option_bind] in *. injection Ew as <-.
  rewrite Z2Nat.id in * by done. destruct (overwrite_word B (Z.land (not64 w0) (BITMAP_LAST_WORD_MASK bits)) q dst1) as (dst2 & -> & Ho2).
  - apply Ho.
  - destruct Ho as (_ & -> & _). unfold bits_of in Hd. lia.
  - auto with words.
  - intros j Hj. rewrite Z.land_spec, Hbits, last_word_testbit by done. fold m. unfold B. rewrite andb_comm. f_equal. case_bool_decide; destruct (Z.ltb_spec j m); lia || done.
  - exists dst2. split; [done|]. eapply overwritten_app; [|exact Ho|]; [lia|]. by replace (64 * (q + 1)) with (64 * q + 64) by lia.
Qed.

(** ** Counts *)

Definition count_bits (B : Z -> bool) (a n : Z) : Z := Z.of_nat (length (filter (fun i => B i = true) (seqZ a n))).

Lemma count_app B a n m : 0 <= n -> 0 <= m -> count_bits B a (n + m) = count_bits B a n + count_bits B (a + n) m.
Proof. intros Hn Hm. unfold count_bits. rewrite seqZ_app, filter_app, length_app by done. lia. Qed.

Lemma count_set_ok n w : count_set n w = count_bits (Z.testbit w) 0 n.
Proof.
  unfold count_set, count_bits. induction (seqZ 0 n) as [|i l IH]; [done|]. cbn [foldr]. rewrite IH. rewrite filter_cons. destruct (decide (Z.testbit w i = true)) as [->|Hf]; [cbn [length]; lia|].
  apply not_true_iff_false in Hf as ->. lia.
Qed.

Lemma count_nat B a n : count_bits B a (Z.of_nat (S n)) = (if B a then 1 else 0) + count_bits B (a + 1) (Z.of_nat n).
Proof.
  replace (Z.of_nat (S n)) with (1 + Z.of_nat n) by lia. rewrite count_app by lia. f_equal. unfold count_bits. change (seqZ a 1) with [0 + a].
  rewrite filter_cons, Z.add_0_l, filter_nil. destruct (decide (B a = true)) as [->|Hf]; [done|]. apply not_true_iff_false in Hf as ->. done.
Qed.

Lemma count_ext B B' a a' n : 0 <= n -> (forall j, 0 <= j < n -> B (a + j) = B' (a' + j)) -> count_bits B a n = count_bits B' a' n.
Proof.
  intros Hn. rewrite <- (Z2Nat.id n Hn). generalize (Z.to_nat n). clear n Hn. intros n. revert a a'. induction n as [|n IH]; intros a a' He; [done|].
  rewrite !count_nat. f_equal; [specialize (He 0); rewrite !Z.add_0_r in He; rewrite He by lia; done|]. apply IH. intros j Hj.
  specialize (He (1 + j)). rewrite !Z.add_assoc in He. apply He. lia.
Qed.

Lemma ctpop_ok w B a m : uint 64 w -> 0 <= m <= 64 -> (forall j, 0 <= j < 64 -> Z.testbit w j = bool_decide (j < m) && B (a + j)) -> ctpop64 w = count_bits B a m.
Proof.
  intros Hu Hm Hb. unfold ctpop64. rewrite count_set_ok. replace 64 with (m + (64 - m)) by lia. rewrite count_app by lia.
  rewrite (count_ext (Z.testbit w) B 0 a m); [|lia|]. 2:{ intros j Hj. rewrite Z.add_0_l, Hb by lia. by rewrite bool_decide_true by lia. }
  rewrite (count_ext (Z.testbit w) (fun _ => false) (0 + m) 0 (64 - m)); [|lia|]. 2:{ intros j Hj. rewrite Hb by lia. by rewrite bool_decide_false by lia. }
  unfold count_bits. assert (filter (fun _ => false = true) (seqZ 0 (64 - m)) = []) as ->; [|simpl; lia].
  induction (seqZ 0 (64 - m)) as [|i l IH]; [done|]. by rewrite filter_cons_False.
Qed.

Lemma count_words_ok bm : wf bm -> forall n k result, (k + n <= length bm)%nat ->
  count_words bm k n result = Some (result + count_bits (bit bm) (64 * Z.of_nat k) (64 * Z.of_nat n)).
Proof.
  intros Hwf. induction n as [|n IH]; intros k result Hl; cbn [count_words].
  { f_equal. unfold count_bits. simpl. lia. }
  destruct (reads_words bm (bits_of bm) Hwf ltac:(done) k) as (w & Ew & Hu & Hb); [unfold bits_of; lia|]. rewrite Ew. cbn [mbind option_bind]. rewrite IH by lia.
  rewrite (ctpop_ok w (bit bm) (64 * Z.of_nat k) 64) by (first [done|lia|intros j Hj; rewrite Hb by done; by rewrite bool_decide_true by lia]).
  replace (64 * Z.of_nat (S n)) with (64 + 64 * Z.of_nat n) by lia. rewrite count_app by lia. replace (64 * Z.of_nat (S k)) with (64 * Z.of_nat k + 64) by lia. f_equal. lia.
Qed.

Lemma slow_count_ok bm nbits : wf bm -> 0 <= nbits <= bits_of bm -> slow_bitmap_count_one bm nbits = Some (count_bits (bit bm) 0 nbits).
Proof.
  intros Hwf Hn. unfold slow_bitmap_count_one, BITS_PER_LONG. set (q := nbits / 64). set (m := nbits mod 64). assert (nbits = 64 * q + m /\ 0 <= m < 64 /\ 0 <= q) as (E & Hm & Hq) by (subst q m; zdiv).
  rewrite count_words_ok by (done || unfold bits_of in *; lia). cbn [mbind option_bind]. rewrite Z2Nat.id by done. change (64 * Z.of_nat 0) with 0. rewrite Z.add_0_l.
  destruct (Z.eqb_spec m 0) as [E0|E0]; cbn [negb]; [do 2 f_equal; lia|].
  destruct (reads_words bm nbits Hwf ltac:(lia) (Z.to_nat q)) as (w & Ew & Hu & Hb); [lia|]. rewrite Ew. cbn [mbind option_bind]. f_equal. rewrite E at 2. rewrite count_app by lia. f_equal.
  rewrite Z2Nat.id in Hb by done. apply ctpop_ok; [auto with words|lia|]. intros j Hj. rewrite Z.land_spec, Hb, last_word_testbit by done. fold m. rewrite Z.add_0_l, andb_comm. f_equal.
  case_bool_decide; destruct (Z.ltb_spec j m); lia || done.
Qed.

Lemma count_one_ok bm nbits : wf bm -> 0 <= nbits <= bits_of bm -> bitmap_count_one bm nbits = Some (count_bits (bit bm) 0 nbits).
Proof.
  intros Hwf Hn. unfold bitmap_count_one, small_nbits, BITS_PER_LONG. destruct (Z.eqb_spec nbits 0) as [->|]; [done|]. destruct (Z.leb_spec nbits 64); [|by apply slow_count_ok].
  destruct (word_bits bm 0 Hwf) as (w & -> & _ & Hu & Hb); [unfold bits_of in *; lia|]. cbn [mbind option_bind]. f_equal. apply ctpop_ok; [auto with words|lia|].
  intros j Hj. rewrite Z.land_spec, Hb, last_mask_testbit by done. rewrite andb_comm. f_equal.
  case_bool_decide; destruct (Z.ltb_spec (j + (- nbits) mod 64) 64); zdiv || done.
Qed.

Lemma bit_drop n bm k : 0 <= k -> bit (drop n bm) k = bit bm (64 * Z.of_nat n + k).
Proof.
  intros Hk. unfold bit. rewrite lookup_drop. replace ((64 * Z.of_nat n + k) mod 64) with (k mod 64) by zdiv.
  by replace (Z.to_nat ((64 * Z.of_nat n + k) / 64)) with (n + Z.to_nat (k / 64))%nat by zdiv.
Qed.

(** Past the end of the array there is nothing to count. *)
Lemma count_offset_ok bm offset nbits : wf bm -> 0 <= offset -> 0 <= nbits -> offset + nbits <= bits_of bm ->
  bitmap_count_one_with_offset bm offset nbits = Some (count_bits (bit bm) offset nbits).
Proof.
  intros Hwf Ho Hn Hend. unfold bitmap_count_one_with_offset, BITS_PER_LONG. cbv zeta. rewrite Z.div_mul by lia. set (q := offset / 64). replace (offset - q * 64) with (offset mod 64) by (subst q; zdiv).
  set (m := offset mod 64). assert (offset = 64 * q + m /\ 0 <= m < 64 /\ 0 <= q) as (E & Hm & Hq) by (subst q m; zdiv).
  assert (wf (drop (Z.to_nat q) bm)) as Hwf' by (by apply Forall_drop). assert (bits_of (drop (Z.to_nat q) bm) = bits_of bm - 64 * q) as Hbo by (unfold bits_of in *; rewrite length_drop; lia).
  rewrite !count_one_ok by (done || lia). cbn [mbind option_bind]. f_equal. rewrite (Z.add_comm nbits m), count_app by lia.
  assert (count_bits (bit (drop (Z.to_nat q) bm)) (0 + m) nbits = count_bits (bit bm) offset nbits) as ->; [|lia].
  apply count_ext; [done|]. intros j Hj. rewrite bit_drop by lia. f_equal. lia.
Qed.

(** ** Copies *)

Lemma copy_words_ok src : wf src -> forall n dst p q, wf dst -> 0 <= p -> 0 <= q -> p + Z.of_nat n <= Z.of_nat (length dst) -> q + Z.of_nat n <= Z.of_nat (length src) ->
  exists dst', copy_words n dst src p q = Some dst' /\ overwritten (fun i => bit src (i - 64 * p + 64 * q)) (64 * p) (64 * (p + Z.of_nat n)) dst dst'.
Proof.
  intros Hws. induction n as [|n IH]; intros dst p q Hwd Hp Hq Hpl Hql; cbn [copy_words].
  { exists dst. split; [done|]. split_and!; [done|done|]. intros i Hi. case_bool_decide; [lia|done]. }
  destruct (word_bits src q Hws) as (w & -> & _ & Hu & Hb); [lia|]. cbn [mbind option_bind].
  destruct (overwrite_word (fun i => bit src (i - 64 * p + 64 * q)) w p dst Hwd) as (dst1 & -> & Ho1); [lia|done|intros j Hj; rewrite Hb by done; f_equal; lia|]. cbn [mbind option_bind].
  destruct (IH dst1 (p + 1) (q + 1)) as (dst2 & -> & Ho2); [apply Ho1|lia|lia|destruct Ho1 as (_ & -> & _); lia|lia|].
  exists dst2. split; [done|]. eapply overwritten_app; [|exact Ho1|]; [lia|]. replace (64 * (p + Z.of_nat (S n))) with (64 * (p + 1 + Z.of_nat n)) by lia.
  replace (64 * p + 64) with (64 * (p + 1)) by lia. destruct Ho2 as (W & L & Bi). split_and!; [done|done|]. intros i Hi. rewrite Bi by done. case_bool_decide; [|done]. f_equal. lia.
Qed.

Lemma bitmap_copy_ok dst src p q nbits : wf dst -> wf src -> 0 <= p -> 0 <= q -> 0 < nbits -> 64 * p + nbits <= bits_of dst -> 64 * q + nbits <= bits_of src ->
  exists dst', bitmap_copy dst src p q nbits = Some dst' /\ overwritten (fun i => bit src (i - 64 * p + 64 * q)) (64 * p) (64 * p + word_bits_of nbits) dst dst'.
Proof.
  intros Hwd Hws Hp Hq Hn Hd Hs. unfold bitmap_copy, small_nbits, BITS_PER_LONG, word_bits_of. destruct (Z.leb_spec nbits 64).
  - replace (BITS_TO_LONGS nbits) with 1 by zdiv. destruct (word_bits src q Hws) as (w & -> & _ & Hu & Hb); [unfold bits_of in *; lia|]. cbn [mbind option_bind].
    apply overwrite_word; [done|unfold bits_of in *; lia|done|]. intros j Hj. rewrite Hb by done. f_equal. lia.
  - assert (0 <= BITS_TO_LONGS nbits /\ 64 * p + 64 * BITS_TO_LONGS nbits <= bits_of dst /\ 64 * q + 64 * BITS_TO_LONGS nbits <= bits_of src) as (Hl & Hd' & Hs') by zdiv.
    destruct (copy_words_ok src Hws (Z.to_nat (BITS_TO_LONGS nbits)) dst p q) as (dst' & -> & Ho); [done|done|done|unfold bits_of in *; lia..|].
    exists dst'. split; [done|]. by replace (64 * p + 64 * BITS_TO_LONGS nbits) with (64 * (p + Z.of_nat (Z.to_nat (BITS_TO_LONGS nbits)))) by lia.
Qed.

Lemma low_mask_testbit n j : 0 <= n -> 0 <= j -> Z.testbit (low_mask n) j = (j <? n).
Proof.
  intros Hn Hj. unfold low_mask. rewrite Z.shiftl_1_l. replace (2 ^ n - 1) with (Z.ones n) by (rewrite Z.ones_equiv; lia).
  destruct (Z.ltb_spec j n); [by rewrite Z.ones_spec_low by lia|by rewrite Z.ones_spec_high by lia].
Qed.

(** Two writes to the same word *)
Lemma overwrite_twice B w1 w2 p dst : wf dst -> 0 <= p < Z.of_nat (length dst) -> uint 64 w1 -> uint 64 w2 ->
  (forall j, 0 <= j < 64 -> Z.testbit w1 j || Z.testbit w2 j = B (64 * p + j)) ->
  exists dst1 dst2, update_word (fun _ => w1) p dst = Some dst1 /\ update_word (fun d => Z.lor d w2) p dst1 = Some dst2 /\ overwritten B (64 * p) (64 * p + 64) dst dst2.
Proof.
  intros Hwf Hp H1 H2 Hb. destruct (update_word_ok (fun _ => w1) (fun j _ => Z.testbit w1 j) p dst Hwf Hp) as (dst1 & E1 & Hw1 & Hl1 & Hb1); [done|auto|].
  destruct (update_word_ok (fun d => Z.lor d w2) (fun j x => x || Z.testbit w2 j) p dst1 Hw1) as (dst2 & E2 & Hw2 & Hl2 & Hb2); [by rewrite Hl1|intros; auto with words|intros; apply Z.lor_spec|].
  exists dst1, dst2. split_and!; [done|done|]. split_and!; [done|congruence|]. intros i Hi. rewrite Hb2, Hb1 by done. case_bool_decide; [|done].
  rewrite Hb by lia. f_equal. lia.
Qed.

(** A word of [src] from [shift] on, followed by the bits of the next word. *)
Lemma joined_testbit src q shift n w w1 j : 0 < shift < 64 -> 0 <= n <= shift -> 0 <= j < 64 -> uint 64 w -> uint 64 w1 ->
  (forall j, 0 <= j < 64 -> Z.testbit w j = bit src (64 * q + j)) -> (forall j, 0 <= j < 64 -> Z.testbit w1 j = bit src (64 * (q + 1) + j)) ->
  Z.testbit (Z.shiftr (Z.land w (not64 (low_mask shift))) shift) j || Z.testbit (u64 (Z.shiftl (Z.land w1 (low_mask n)) (64 - shift))) j =
  bool_decide (j < 64 - shift + n) && bit src (64 * q + shift + j).
Proof.
  intros Hs Hn Hj Hu Hu1 Hb Hb1. rewrite Z.shiftr_spec, Z.land_spec, u64_testbit, Z.shiftl_spec by lia. destruct (Z.ltb_spec j 64); [|lia]. cbn [andb].
  destruct (decide (j < 64 - shift)).
  - rewrite (Z.testbit_neg_r _ (j - _)) by lia. rewrite Hb, not64_testbit, low_mask_testbit, bool_decide_true by lia. destruct (Z.ltb_spec (j + shift) shift); [lia|].
    rewrite andb_true_r, orb_false_r. cbn [andb]. f_equal. lia.
  - rewrite (word_testbit w), Z.land_spec, Hb1, low_mask_testbit by (done || lia). cbn [andb orb]. rewrite andb_comm. f_equal; [|f_equal; lia].
    case_bool_decide; destruct (Z.ltb_spec (j - (64 - shift)) n); lia || done.
Qed.

Lemma joined_uint w w1 shift n : uint 64 w -> 0 <= shift ->
  uint 64 (Z.shiftr (Z.land w (not64 (low_mask shift))) shift) /\ uint 64 (u64 (Z.shiftl (Z.land w1 (low_mask n)) (64 - shift))).
Proof. intros. split; auto with words. Qed.

Lemma src_loop_ok src q0 shift total : wf src -> 0 < shift < 64 -> 0 <= q0 -> 64 * q0 + shift + total <= bits_of src -> forall fuel dst p nbits,
  wf dst -> 0 <= p -> 0 <= nbits -> 64 * p + nbits = total -> total <= bits_of dst -> Z.of_nat (length src) < q0 + p + Z.of_nat fuel ->
  exists dst' p' nbits', src_offset_loop fuel dst src p (q0 + p) shift nbits = Some (dst', p', q0 + p', nbits') /\ p <= p' /\ 0 <= nbits' < 64 /\ 64 * p' + nbits' = total /\
    overwritten (fun i => bit src (64 * q0 + shift + i)) (64 * p) (64 * p') dst dst'.
Proof.
  intros Hws Hs Hq0 Hsrc. induction fuel as [|fuel IH]; intros dst p nbits Hwd Hp Hn Ht Hd Hfuel; [unfold bits_of in *; lia|].
  cbn [src_offset_loop]. unfold BITS_PER_LONG. destruct (Z.leb_spec 64 nbits).
  - destruct (word_bits src (q0 + p) Hws) as (w & -> & _ & Hu & Hb); [unfold bits_of in *; lia|]. cbn [mbind option_bind].
    destruct (word_bits src (q0 + p + 1) Hws) as (w1 & Ew1 & _ & Hu1 & Hb1); [unfold bits_of in *; lia|].
    destruct (joined_uint w w1 shift shift Hu) as [J1 J2]; [lia|].
    destruct (overwrite_twice (fun i => bit src (64 * q0 + shift + i)) _ _ p dst Hwd ltac:(unfold bits_of in *; lia) J1 J2) as (dst1 & dst2 & -> & E2 & Ho).
    { intros j Hj. rewrite (joined_testbit src (q0 + p)) by (done || lia). rewrite bool_decide_true by lia. cbn [andb]. f_equal. lia. }
    cbn [mbind option_bind]. rewrite Ew1. cbn [mbind option_bind]. rewrite E2. cbn [mbind option_bind].
    destruct (IH dst2 (p + 1) (nbits - 64)) as (dst3 & p' & n' & E3 & Hp' & Hn' & Ht' & Ho'); [apply Ho|lia..|destruct Ho as (_ & Hl & _); unfold bits_of in *; rewrite Hl; lia|lia|].
    exists dst3, p', n'. rewrite Z.add_assoc in E3. split_and!; [done|lia..|]. eapply overwritten_app; [|exact Ho|]; [lia|]. by replace (64 * p + 64) with (64 * (p + 1)) by lia.
  - exists dst, p, nbits. split_and!; [done|lia..|]. split_and!; [done|done|]. intros i Hi. case_bool_decide; [lia|done].
Qed.

Lemma src_tail_ok dst src p q shift n : wf dst -> wf src -> 0 < shift < 64 -> 0 <= n < 64 -> 0 <= p -> 0 <= q -> 64 * p + n <= bits_of dst -> 64 * q + shift + n <= bits_of src ->
  exists dst', src_offset_tail dst src p q shift n = Some dst' /\
    overwritten (fun i => bool_decide (i < 64 * p + n) && bit src (64 * q + shift + (i - 64 * p))) (64 * p) (if bool_decide (n = 0) then 64 * p else 64 * p + 64) dst dst'.
Proof.
  intros Hwd Hws Hs Hn Hp Hq Hd Hsrc. unfold src_offset_tail, BITS_PER_LONG. cbv zeta. destruct (Z.ltb_spec (64 - shift) n).
  - rewrite bool_decide_false by lia. destruct (word_bits src q Hws) as (w & -> & _ & Hu & Hb); [unfold bits_of in *; lia|]. cbn [mbind option_bind].
    destruct (word_bits src (q + 1) Hws) as (w1 & Ew1 & _ & Hu1 & Hb1); [unfold bits_of in *; lia|]. destruct (joined_uint w w1 shift (n - (64 - shift)) Hu) as [J1 J2]; [lia|].
    destruct (overwrite_twice (fun i => bool_decide (i < 64 * p + n) && bit src (64 * q + shift + (i - 64 * p))) _ _ p dst Hwd ltac:(unfold bits_of in *; lia) J1 J2) as (dst2 & dst3 & -> & E3 & Ho3).
    { intros j Hj. rewrite (joined_testbit src q) by (done || lia). f_equal; [|f_equal; lia]. repeat case_bool_decide; lia || done. }
    cbn [mbind option_bind]. rewrite Ew1. cbn [mbind option_bind]. by exists dst3.
  - destruct (Z.eqb_spec n 0) as [->|]; cbn [negb]; [rewrite bool_decide_true by done|rewrite bool_decide_false by done].
    { exists dst. split; [done|]. split_and!; [done|done|]. intros i Hi. case_bool_decide; [lia|done]. }
    destruct (word_bits src q Hws) as (w & -> & _ & Hu & Hb); [unfold bits_of in *; lia|]. cbn [mbind option_bind].
    apply overwrite_word; [done|unfold bits_of in *; lia|auto with words|]. intros j Hj. rewrite Z.land_spec, Z.shiftr_spec, low_mask_testbit, andb_comm by lia.
    case_bool_decide; destruct (Z.ltb_spec j n); try (exfalso; lia); cbn [andb]; [|done]. rewrite Hb by lia. f_equal. lia.
Qed.

(** [dst'] has [nbits] bits of [src] from [off] on at [at]; the other bits of the
    words that are written may change. *)
Definition copied (src : bitmap) (off at_ nbits : Z) (dst dst' : bitmap) : Prop :=
  wf dst' /\ length dst' = length dst /\ (forall i, 0 <= i < nbits -> bit dst' (at_ + i) = bit src (off + i)) /\
  forall i, 0 <= i < at_ \/ word_bits_of (at_ + nbits) <= i -> bit dst' i = bit dst i.

Lemma copied_whole src p q nbits dst dst' : 0 <= p -> 0 <= q -> 0 <= nbits ->
  overwritten (fun i => bit src (i - 64 * p + 64 * q)) (64 * p) (64 * p + word_bits_of nbits) dst dst' -> copied src (64 * q) (64 * p) nbits dst dst'.
Proof.
  intros Hp Hq Hn (W & L & Bi). assert (nbits <= word_bits_of nbits /\ word_bits_of (64 * p + nbits) = 64 * p + word_bits_of nbits) as [Hwb Hwb'] by (unfold word_bits_of; zdiv).
  split_and!; [done|done| |].
  - intros i Hi. rewrite Bi, bool_decide_true by lia. f_equal. lia.
  - intros i Hi. rewrite Bi, bool_decide_false by lia. done.
Qed.

Lemma copy_src_ok dst src shift nbits : wf dst -> wf src -> 0 <= shift -> 0 < nbits -> shift + nbits <= bits_of src -> nbits <= bits_of dst ->
  exists dst', bitmap_copy_with_src_offset dst src shift nbits = Some dst' /\ copied src shift 0 nbits dst dst'.
Proof.
  intros Hwd Hws Hs Hn Hsrc Hdst. unfold bitmap_copy_with_src_offset, BITS_PER_LONG. cbv zeta. set (q := BIT_WORD shift). set (m := shift mod 64).
  assert (shift = 64 * q + m /\ 0 <= m < 64 /\ 0 <= q) as (E & Hm & Hq) by (subst q m; zdiv). destruct (Z.eqb_spec m 0) as [E0|E0].
  { destruct (bitmap_copy_ok dst src 0 q nbits) as (dst' & -> & Ho); [done|done|lia..|]. exists dst'. split; [done|]. rewrite E, E0, Z.add_0_r. apply (copied_whole src 0 q); lia || done. }
  destruct (src_loop_ok src q m nbits Hws ltac:(lia) Hq ltac:(lia) (S (length src)) dst 0 nbits) as (dst1 & p & n & E1 & Hp & Hn' & Ht & W1 & L1 & B1); [done|lia..|].
  rewrite Z.add_0_r in E1. rewrite E1. cbn [mbind option_bind].
  destruct (src_tail_ok dst1 src p (q + p) m n) as (dst2 & -> & W2 & L2 & B2); [done|done|lia|lia|lia|lia|unfold bits_of in *; rewrite L1; lia|lia|].
  exists dst2. split; [done|]. unfold copied. rewrite Z.add_0_l. split_and!; [done|congruence| |].
  - intros i Hi. rewrite Z.add_0_l, B2, B1 by lia. destruct (bool_decide_reflect (n = 0)); repeat case_bool_decide; try (exfalso; lia); cbn [andb]; f_equal; lia.
  - intros i [Hi|Hi]; [lia|]. unfold word_bits_of in Hi. rewrite B2, B1 by zdiv. destruct (bool_decide_reflect (n = 0)); repeat case_bool_decide; zdiv || done.
Qed.

(** ** Copies to an offset *)

Section dst_offset.
Context (src dst0 : bitmap) (p0 m total : Z).
Context (Hws : wf src) (Hm : 0 < m < 64) (Hp0 : 0 <= p0) (Htotal : total <= bits_of src) (Hdst : 64 * p0 + m + total <= bits_of dst0).

Abbreviation start := (64 * p0 + m).

(** The copy has reached bit [e]; the bits up to [z] are clear. *)
Definition reached (e z : Z) (dst : bitmap) : Prop :=
  wf dst /\ length dst = length dst0 /\ forall i, 0 <= i ->
    bit dst i = if bool_decide (start <= i < e) then bit src (i - start) else if bool_decide (e <= i < z) then false else bit dst0 i.

Lemma or_word_ok (p x e : Z) dst : reached (64 * p + m) (64 * p + 64) dst -> p0 <= p < Z.of_nat (length dst0) -> uint 64 x -> 64 * p + m <= e <= 64 * p + 64 ->
  (forall j, 0 <= j < 64 -> Z.testbit x j = bool_decide (64 * p + m <= 64 * p + j < e) && bit src (64 * p + j - start)) ->
  exists dst', update_word (fun d => Z.lor d x) p dst = Some dst' /\ reached e (64 * p + 64) dst'.
Proof.
  intros (W & L & Bi) Hp Hx He Hb.
  destruct (update_word_ok (fun d => Z.lor d x) (fun j y => y || Z.testbit x j) p dst W) as (dst' & -> & W' & L' & B'); [rewrite L; lia|intros; auto with words|intros; apply Z.lor_spec|].
  exists dst'. split; [done|]. split_and!; [done|congruence|]. intros i Hi. rewrite B', Bi by done. case_bool_decide.
  - rewrite Hb by lia. replace (64 * p + (i - 64 * p)) with i by lia. repeat case_bool_decide; try (exfalso; lia); cbn [andb]; rewrite ?orb_false_r, ?orb_false_l; done.
  - repeat case_bool_decide; try (exfalso; lia); done.
Qed.

(** The next word of [dst] is overwritten. *)
Lemma next_word_ok (p y e : Z) dst : reached (64 * p + 64) (64 * p + 64) dst -> p0 <= p -> p + 1 < Z.of_nat (length dst0) -> uint 64 y -> 64 * p + 64 <= e <= 64 * (p + 1) + 64 ->
  (forall j, 0 <= j < 64 -> Z.testbit y j = bool_decide (64 * (p + 1) + j < e) && bit src (64 * (p + 1) + j - start)) ->
  exists dst', update_word (fun _ => y) (p + 1) dst = Some dst' /\ reached e (64 * (p + 1) + 64) dst'.
Proof.
  intros (W & L & Bi) Hp Hpl Hy He Hb.
  destruct (update_word_ok (fun _ => y) (fun j _ => Z.testbit y j) (p + 1) dst W) as (dst' & -> & W' & L' & B'); [rewrite L; lia|auto|auto|].
  exists dst'. split; [done|]. split_and!; [done|congruence|]. intros i Hi. rewrite B', Bi by done. case_bool_decide.
  - rewrite Hb by lia. replace (64 * (p + 1) + (i - 64 * (p + 1))) with i by lia. repeat case_bool_decide; try (exfalso; lia); done.
  - repeat case_bool_decide; try (exfalso; lia); done.
Qed.

(** The low bits of a word of [src], moved up by [m] *)
Lemma moved_up q n w j : 0 <= n <= 64 -> 0 <= j < 64 -> (forall j, 0 <= j < 64 -> Z.testbit w j = bit src (64 * q + j)) ->
  Z.testbit (u64 (Z.shiftl (Z.land w (low_mask n)) m)) j = bool_decide (m <= j < m + n) && bit src (64 * q + (j - m)).
Proof.
  intros Hn Hj Hb. rewrite u64_testbit, Z.shiftl_spec by lia. destruct (Z.ltb_spec j 64); [|lia]. cbn [andb].
  destruct (decide (m <= j)); [|rewrite Z.testbit_neg_r by lia; case_bool_decide; lia || done].
  rewrite Z.land_spec, Hb, low_mask_testbit by lia. rewrite andb_comm. f_equal. case_bool_decide; destruct (Z.ltb_spec (j - m) n); lia || done.
Qed.

Lemma dst_loop_ok : forall fuel dst p nbits,
  p0 <= p -> 0 <= nbits -> 64 * (p - p0) + nbits = total -> reached (64 * p + m) (64 * p + 64) dst -> Z.of_nat (length src) < p - p0 + Z.of_nat fuel ->
  exists dst' p' nbits', dst_offset_loop fuel dst src p (p - p0) m nbits = Some (dst', p', p' - p0, nbits') /\ p <= p' /\ 0 <= nbits' < 64 /\ 64 * (p' - p0) + nbits' = total /\
    reached (64 * p' + m) (64 * p' + 64) dst'.
Proof.
  induction fuel as [|fuel IH]; intros dst p nbits Hp Hn Ht Hr Hfuel; [unfold bits_of in *; lia|].
  cbn [dst_offset_loop]. unfold BITS_PER_LONG. cbv zeta. destruct (Z.leb_spec 64 nbits); [|by exists dst, p, nbits; split_and!; [done|lia..|done]].
  destruct (word_bits src (p - p0) Hws) as (w & -> & _ & Hu & Hb); [unfold bits_of in *; lia|]. cbn [mbind option_bind].
  destruct (or_word_ok p (u64 (Z.shiftl (Z.land w (low_mask (64 - m))) m)) (64 * p + 64) dst Hr) as (dst1 & -> & Hr1).
  { unfold bits_of in *. lia. } { auto with words. } { lia. }
  { intros j Hj. rewrite (moved_up (p - p0)) by (done || lia). f_equal; [|f_equal; lia]. repeat case_bool_decide; lia || done. }
  cbn [mbind option_bind]. destruct (next_word_ok p (Z.shiftr (Z.land w (not64 (low_mask (64 - m)))) (64 - m)) (64 * (p + 1) + m) dst1 Hr1) as (dst2 & -> & Hr2); [done|unfold bits_of in *; lia|auto with words|lia| |].
  { intros j Hj. rewrite Z.shiftr_spec, Z.land_spec by lia. case_bool_decide; cbn [andb]; [|rewrite (word_testbit w) by (done || lia); done].
    rewrite Hb, not64_testbit, low_mask_testbit by lia. destruct (Z.ltb_spec (j + (64 - m)) (64 - m)); [lia|]. cbn [negb]. rewrite andb_true_r. f_equal. lia. }
  cbn [mbind option_bind]. destruct (IH dst2 (p + 1) (nbits - 64)) as (dst3 & p' & n' & E3 & Hp' & Hn' & Ht' & Hr3); [lia..|done|lia|].
  replace (p + 1 - p0) with (p - p0 + 1) in E3 by lia. exists dst3, p', n'. split_and!; [done|lia..|done].
Qed.

Lemma dst_tail_ok dst p n : p0 <= p -> 0 <= n < 64 -> 64 * (p - p0) + n = total -> reached (64 * p + m) (64 * p + 64) dst ->
  exists dst', dst_offset_tail dst src p (p - p0) m n = Some dst' /\ reached (64 * p + m + n) (word_bits_of (64 * p + m + n)) dst'.
Proof.
  intros Hp Hn Ht Hr. unfold dst_offset_tail, BITS_PER_LONG. cbv zeta. destruct (Z.ltb_spec (64 - m) n).
  - replace (word_bits_of (64 * p + m + n)) with (64 * (p + 1) + 64) by (unfold word_bits_of; zdiv).
    destruct (word_bits src (p - p0) Hws) as (w & -> & _ & Hu & Hb); [unfold bits_of in *; lia|]. cbn [mbind option_bind].
    destruct (or_word_ok p (u64 (Z.shiftl (Z.land w (low_mask (64 - m))) m)) (64 * p + 64) dst Hr) as (dst1 & -> & Hr1).
    { unfold bits_of in *. lia. } { auto with words. } { lia. }
    { intros j Hj. rewrite (moved_up (p - p0)) by (done || lia). f_equal; [|f_equal; lia]. repeat case_bool_decide; lia || done. }
    cbn [mbind option_bind]. apply next_word_ok; [done|done|unfold bits_of in *; lia|auto with words|lia|].
    intros j Hj. rewrite Z.shiftr_spec, Z.land_spec, u64_testbit, Z.shiftl_spec, low_mask_testbit by lia.
    case_bool_decide; cbn [andb].
    + rewrite Hb by lia. destruct (Z.ltb_spec (j + (64 - m)) 64), (Z.ltb_spec (j + (64 - m) - (64 - m)) (n - (64 - m))); try lia. rewrite andb_true_r. f_equal. lia.
    + destruct (Z.ltb_spec (j + (64 - m) - (64 - m)) (n - (64 - m))); [lia|]. by rewrite !andb_false_r.
  - destruct (Z.eqb_spec n 0) as [->|]; cbn [negb].
    { exists dst. split; [done|]. rewrite Z.add_0_r. by replace (word_bits_of (64 * p + m)) with (64 * p + 64) by (unfold word_bits_of; zdiv). }
    replace (word_bits_of (64 * p + m + n)) with (64 * p + 64) by (unfold word_bits_of; zdiv).
    destruct (word_bits src (p - p0) Hws) as (w & -> & _ & Hu & Hb); [unfold bits_of in *; lia|]. cbn [mbind option_bind].
    apply (or_word_ok p); [done|unfold bits_of in *; lia|auto with words|lia|].
    intros j Hj. rewrite (moved_up (p - p0)) by (done || lia). f_equal; [|f_equal; lia]. repeat case_bool_decide; lia || done.
Qed.
End dst_offset.

Lemma copy_dst_ok dst src shift nbits : wf dst -> wf src -> 0 <= shift -> 0 < nbits -> nbits <= bits_of src -> shift + nbits <= bits_of dst ->
  exists dst', bitmap_copy_with_dst_offset dst src shift nbits = Some dst' /\ copied src 0 shift nbits dst dst'.
Proof.
  intros Hwd Hws Hs Hn Hsrc Hdst. unfold bitmap_copy_with_dst_offset, BITS_PER_LONG. cbv zeta. set (p0 := BIT_WORD shift). set (m := shift mod 64).
  assert (shift = 64 * p0 + m /\ 0 <= m < 64 /\ 0 <= p0) as (E & Hm & Hp0) by (subst p0 m; zdiv). destruct (Z.eqb_spec m 0) as [E0|E0].
  { destruct (bitmap_copy_ok dst src p0 0 nbits) as (dst' & -> & Ho); [done|done|lia..|]. exists dst'. split; [done|]. rewrite E, E0, Z.add_0_r. apply (copied_whole src p0 0); lia || done. }
  destruct (update_word_ok (fun d => Z.land d (low_mask m)) (fun j x => x && (j <? m)) p0 dst Hwd) as (dst1 & -> & W1 & L1 & B1).
  { unfold bits_of in *. lia. } { intros. auto with words. } { intros w j _ Hj. by rewrite Z.land_spec, low_mask_testbit by lia. }
  cbn [mbind option_bind]. assert (reached src dst p0 m (64 * p0 + m) (64 * p0 + 64) dst1) as Hr1.
  { split_and!; [done|done|]. intros i Hi. rewrite B1 by done. destruct (Z.ltb_spec (i - 64 * p0) m); repeat case_bool_decide; try (exfalso; lia); rewrite ?andb_true_r, ?andb_false_r; done. }
  destruct (dst_loop_ok src dst p0 m nbits Hws ltac:(lia) Hp0 ltac:(lia) ltac:(lia) (S (length src)) dst1 p0 nbits) as (dst2 & p & n & E2 & Hp & Hn' & Ht & Hr2); [lia..|done|lia|].
  replace (p0 - p0) with 0 in E2 by lia. rewrite E2. cbn [mbind option_bind].
  destruct (dst_tail_ok src dst p0 m nbits Hws ltac:(lia) Hp0 ltac:(lia) ltac:(lia) dst2 p n) as (dst3 & -> & W3 & L3 & B3); [lia|lia|done|done|].
  exists dst3. split; [done|]. replace (64 * p + m + n) with (shift + nbits) in * by lia. assert (shift + nbits <= word_bits_of (shift + nbits)) by (unfold word_bits_of; zdiv).
  split_and!; [done|done| |].
  - intros i Hi. rewrite B3, bool_decide_true by lia. f_equal. lia.
  - intros i Hi. rewrite B3, !bool_decide_false by lia. done.
Qed.

Lemma copy_clear_ok : forall fuel dst src p nr, wf dst -> wf src -> 0 <= p -> 64 * p + nr <= bits_of dst -> 64 * p + nr <= bits_of src -> p <= Z.of_nat (length src) ->
  Z.of_nat (length src) < p + Z.of_nat fuel ->
  exists dst' src', copy_and_clear_loop fuel dst src p nr = Some (dst', src') /\
    overwritten (bit src) (64 * p) (Z.max (64 * p) (word_bits_of (64 * p + nr))) dst dst' /\ overwritten (fun _ => false) (64 * p) (Z.max (64 * p) (word_bits_of (64 * p + nr))) src src'.
Proof.
  induction fuel as [|fuel IH]; intros dst src p nr Hwd Hws Hp Hd Hs Hpl Hfuel; [lia|]. cbn [copy_and_clear_loop]. unfold BITS_PER_LONG. destruct (Z.ltb_spec 0 nr).
  - destruct (word_bits src p Hws) as (w & -> & _ & Hu & Hb); [unfold bits_of in *; lia|]. cbn [mbind option_bind].
    destruct (overwrite_word (bit src) w p dst Hwd) as (dst1 & -> & Wd & Ld & Bd); [unfold bits_of in *; lia|done|done|]. cbn [mbind option_bind].
    destruct (overwrite_word (fun _ => false) 0 p src Hws) as (src1 & -> & Wsr & Lsr & Bsr); [unfold bits_of in *; lia|unfold uint; lia|intros; apply Z.bits_0|]. cbn [mbind option_bind].
    destruct (IH dst1 src1 (p + 1) (nr - 64)) as (dst2 & src2 & -> & (W2 & L2 & B2) & (W3 & L3 & B3)); [done|done|lia|unfold bits_of in *; rewrite ?Ld, ?Lsr; lia..|].
    replace (64 * (p + 1) + (nr - 64)) with (64 * p + nr) in * by lia. exists dst2, src2. split; [done|].
    assert (64 * (p + 1) <= word_bits_of (64 * p + nr)) by (unfold word_bits_of; zdiv).
    split; (split_and!; [done|congruence|]); intros i Hi; [rewrite B2, Bd, Bsr by done|rewrite B3, Bsr by done]; repeat case_bool_decide; try (exfalso; lia); done.
  - exists dst, src. split; [done|]. rewrite Z.max_l by (unfold word_bits_of; zdiv). split; (split_and!; [done|done|]); intros i Hi; (case_bool_decide; [lia|done]).
Qed.

(** ** The short cuts for bitmaps of at most one word *)

Lemma small_zero_ok v B bits : 0 < bits <= 64 -> reads v B bits -> (w ← v 0%nat; Some (Z.land w (BITMAP_LAST_WORD_MASK bits) =? 0)) = bits_zero v bits.
Proof.
  intros Hn Hr. destruct (bits_zero_ok v B bits ltac:(lia) Hr) as (b & -> & Hb). destruct (Hr 0%nat) as (w & -> & Hu & Hw); [lia|]. cbn [mbind option_bind]. f_equal.
  apply eq_true_iff_eq. rewrite Hb, Z.eqb_eq, bm_word_zero by auto with words. split; intros Hall.
  - intros i Hi. specialize (Hall i ltac:(lia)). rewrite Z.land_spec, Hw, last_mask_testbit in Hall by lia. simpl in Hall.
    destruct (Z.ltb_spec (i + (- bits) mod 64) 64); [by rewrite andb_true_r in Hall|zdiv].
  - intros j Hj. rewrite Z.land_spec, Hw, last_mask_testbit by done. simpl. destruct (Z.ltb_spec (j + (- bits) mod 64) 64); [|apply andb_false_r]. rewrite Hall by zdiv. done.
Qed.

Lemma word_head bm : word bm 0 = bm !! 0%nat.
Proof. done. Qed.

Lemma small_tests_ok bm1 bm2 nbits : wf bm1 -> wf bm2 -> 0 < nbits -> nbits <= bits_of bm1 -> nbits <= bits_of bm2 ->
  bitmap_empty bm1 nbits = slow_bitmap_empty bm1 nbits /\ bitmap_full bm1 nbits = slow_bitmap_full bm1 nbits /\
  bitmap_equal bm1 bm2 nbits = slow_bitmap_equal bm1 bm2 nbits /\ bitmap_intersects bm1 bm2 nbits = slow_bitmap_intersects bm1 bm2 nbits.
Proof.
  intros W1 W2 Hn H1 H2. unfold bitmap_empty, bitmap_full, bitmap_equal, bitmap_intersects, small_nbits, BITS_PER_LONG. destruct (Z.leb_spec nbits 64); [|done]. rewrite !word_head.
  split_and!.
  - apply (small_zero_ok (fun k => bm1 !! k) (bit bm1)); [lia|by apply reads_words].
  - unfold slow_bitmap_full. rewrite <- (small_zero_ok _ _ nbits) by (lia || by apply reads_not). by destruct (bm1 !! 0%nat).
  - eapply (small_zero_ok (word2 Z.lxor bm1 bm2)); [lia|by apply (reads_word2 _ _ _ _ _ bitwise_xor)].
  - unfold slow_bitmap_intersects. rewrite <- (small_zero_ok _ _ nbits) by (lia || by apply (reads_word2 _ _ _ _ _ bitwise_and)). by destruct (word2 Z.land bm1 bm2 0).
Qed.

Lemma reads_const B w n : uint 64 w -> (forall i j, 0 <= j < 64 -> Z.testbit w j = B i) -> reads (fun _ => Some w) B n.
Proof. intros Hu Hb k Hk. exists w. split_and!; [done..|]. auto. Qed.

Lemma bitmap_zero_ok dst nbits : wf dst -> 0 < nbits <= bits_of dst -> exists dst', bitmap_zero dst nbits = Some dst' /\ overwritten (fun _ => false) 0 (word_bits_of nbits) dst dst'.
Proof.
  intros Hwf Hn. unfold bitmap_zero, small_nbits, BITS_PER_LONG, word_bits_of. destruct (Z.leb_spec nbits 64).
  - replace (BITS_TO_LONGS nbits) with 1 by zdiv. apply (overwrite_word _ 0 0); [done|unfold bits_of in *; lia|unfold uint; lia|intros; apply Z.bits_0].
  - assert (0 <= BITS_TO_LONGS nbits /\ 64 * BITS_TO_LONGS nbits <= bits_of dst) as [Hl Hd] by zdiv.
    destruct (fill_words_ok (fun _ => Some 0) (fun _ => false) (Z.to_nat (BITS_TO_LONGS nbits)) 0 dst 0) as (dst' & r & -> & Ho & _).
    { apply reads_const; [unfold uint; lia|]. intros. apply Z.bits_0. } { done. } { unfold bits_of in *. lia. }
    cbn. exists dst'. split; [done|]. by replace (64 * BITS_TO_LONGS nbits) with (64 * (Z.of_nat 0 + Z.of_nat (Z.to_nat (BITS_TO_LONGS nbits)))) by lia.
Qed.

(** The bits above [nbits] of the last word are cleared. *)
Lemma bitmap_fill_ok dst nbits : wf dst -> 0 < nbits <= bits_of dst -> exists dst', bitmap_fill dst nbits = Some dst' /\ overwritten (fun i => bool_decide (i < nbits)) 0 (word_bits_of nbits) dst dst'.
Proof.
  intros Hwf Hn. unfold bitmap_fill, small_nbits, BITS_PER_LONG, word_bits_of. set (n := BITS_TO_LONGS nbits).
  assert (0 < n /\ 64 * n <= bits_of dst /\ 64 * n - 64 < nbits <= 64 * n) as (Hl & Hd & Hb) by (subst n; zdiv).
  assert (exists dst1, (if negb (nbits <=? 64) then fst <$> fill_words (fun _ => Some ALL_ONES) 0 (Z.to_nat (n - 1)) dst 0 else Some dst) = Some dst1 /\ overwritten (fun i => bool_decide (i < nbits)) 0 (64 * (n - 1)) dst dst1) as (dst1 & -> & W & L & Bi).
  { destruct (Z.leb_spec nbits 64); cbn [negb].
    - exists dst. split; [done|]. split_and!; [done|done|]. intros i Hi. case_bool_decide; [lia|done].
    - destruct (fill_words_ok (fun _ => Some ALL_ONES) (fun i => bool_decide (i < nbits)) (Z.to_nat (n - 1)) 0 dst 0) as (dst' & r & -> & Ho & _).
      { intros k Hk. exists ALL_ONES. split_and!; [done|auto with words|]. intros j Hj. rewrite ALL_ONES_testbit by lia. case_bool_decide; destruct (Z.ltb_spec j 64); lia || done. }
      { done. } { unfold bits_of in *. lia. }
      cbn. exists dst'. split; [done|]. by replace (64 * (n - 1)) with (64 * (Z.of_nat 0 + Z.of_nat (Z.to_nat (n - 1)))) by lia. }
  cbn [mbind option_bind]. destruct (overwrite_word (fun i => bool_decide (i < nbits)) (BITMAP_LAST_WORD_MASK nbits) (n - 1) dst1) as (dst2 & -> & Ho2).
  - done.
  - unfold bits_of in *. lia.
  - auto with words.
  - intros j Hj. rewrite last_mask_testbit by done. case_bool_decide; destruct (Z.ltb_spec (j + (- nbits) mod 64) 64); zdiv || done.
  - exists dst2. split; [done|]. eapply (overwritten_app _ 0 (64 * (n - 1)) (64 * n)); [lia|by split_and!|]. by replace (64 * n) with (64 * (n - 1) + 64) by lia.
Qed.
