(* ===== verification/BitmapTheorems.v ===== *)
(** * What the bitmaps promise

    The theorems on range updates, searches, set operations and copies, stated with
    [test_bit]. *)

From S2P Require Import Prelude BitOps Bitmap BitmapProofs BitmapSearch BitmapSets.

Lemma test_bit_ok bm k : wf bm -> 0 <= k < bits_of bm -> test_bit k bm = Some (bit bm k).
Proof.
  intros Hwf Hk. unfold test_bit. destruct (word_bits bm (BIT_WORD k) Hwf) as (w & -> & _ & _ & Hb); [zdiv|]. cbn [mbind option_bind].
  change (BITS_PER_LONG - 1) with 63. rewrite land_63, Hb by zdiv. do 2 f_equal. zdiv.
Qed.

Lemma filled_test v a b bm bm' k : wf bm -> filled v a b bm bm' -> 0 <= k < bits_of bm ->
  test_bit k bm' = if bool_decide (a <= k < b) then Some v else test_bit k bm.
Proof.
  intros Hwf (W & L & B) Hk. rewrite !test_bit_ok by (done || unfold bits_of in *; rewrite ?L; lia). rewrite B by lia. by case_bool_decide.
Qed.

(** ** Single bits *)

Lemma bit_mask_testbit nr j : 0 <= nr -> 0 <= j -> Z.testbit (BIT_MASK nr) j = bool_decide (64 * BIT_WORD nr + j = nr).
Proof.
  intros Hnr Hj. unfold BIT_MASK, BITS_PER_LONG. rewrite Z.shiftl_1_l, Z.pow2_bits_eqb by zdiv. case_bool_decide; [apply Z.eqb_eq|apply Z.eqb_neq]; zdiv.
Qed.

Lemma bit_mask_uint nr : 0 <= nr -> uint 64 (BIT_MASK nr).
Proof.
  intros Hnr. apply uint_bits; [unfold BIT_MASK; rewrite Z.shiftl_1_l; lia|]. intros j Hj. rewrite bit_mask_testbit by lia. case_bool_decide; zdiv || done.
Qed.
#[export] Hint Resolve bit_mask_uint : words.

(** [f] changes bit [nr] of a word by [g]. *)
Lemma single_update f g bm nr : wf bm -> 0 <= nr < bits_of bm -> (forall w, uint 64 w -> uint 64 (f w)) ->
  (forall w j, 0 <= j < 64 -> Z.testbit (f w) j = if Z.testbit (BIT_MASK nr) j then g (Z.testbit w j) else Z.testbit w j) ->
  exists bm', update_word f (BIT_WORD nr) bm = Some bm' /\ filled (g (bit bm nr)) nr (nr + 1) bm bm'.
Proof.
  intros Hwf Hnr Hf Hg. destruct (update_word_ok f (fun j y => if Z.testbit (BIT_MASK nr) j then g y else y) (BIT_WORD nr) bm Hwf) as (bm' & -> & W & L & B); [zdiv|auto|auto|].
  exists bm'. split; [done|]. split_and!; [done|done|]. intros k Hk. rewrite B by done. case_bool_decide.
  - rewrite bit_mask_testbit by lia. replace (64 * BIT_WORD nr + (k - 64 * BIT_WORD nr)) with k by lia. repeat case_bool_decide; subst; try (exfalso; lia); done.
  - case_bool_decide; [zdiv|done].
Qed.

Lemma old_bit bm nr : wf bm -> 0 <= nr < bits_of bm -> exists w, word bm (BIT_WORD nr) = Some w /\ negb (Z.land w (BIT_MASK nr) =? 0) = bit bm nr.
Proof.
  intros Hwf Hnr. destruct (word_bits bm (BIT_WORD nr) Hwf) as (w & Hw & _ & Hu & Hb); [zdiv|]. exists w. split; [done|].
  apply eq_true_iff_eq. rewrite word_nonzero by auto with words. split.
  - intros (j & Hj & Ht). rewrite Z.land_spec, Hb, bit_mask_testbit in Ht by lia. apply andb_true_iff in Ht as [Ht Ej]. apply bool_decide_eq_true in Ej. by rewrite Ej in Ht.
  - intros Ht. exists (nr mod 64). split; [zdiv|]. rewrite Z.land_spec, Hb, bit_mask_testbit by zdiv. replace (64 * BIT_WORD nr + nr mod 64) with nr by zdiv. by rewrite Ht, bool_decide_true.
Qed.

(** The operations of [bitops.h] on a bit change that bit only, and return its
    old value. *)
Theorem bitops_correct bm nr : wf bm -> 0 <= nr < bits_of bm ->
  exists s c x, set_bit nr bm = Some s /\ clear_bit nr bm = Some c /\ change_bit nr bm = Some x /\
    test_and_set_bit nr bm = Some (s, bit bm nr) /\ test_and_clear_bit nr bm = Some (c, bit bm nr) /\ test_and_change_bit nr bm = Some (x, bit bm nr) /\
    filled true nr (nr + 1) bm s /\ filled false nr (nr + 1) bm c /\ filled (negb (bit bm nr)) nr (nr + 1) bm x.
Proof.
  intros Hwf Hnr. destruct (old_bit bm nr Hwf Hnr) as (w & Hw & Hold). assert (0 <= nr) by lia.
  destruct (single_update (fun w => Z.lor w (BIT_MASK nr)) (fun _ => true) bm nr Hwf Hnr) as (s & Es & Fs).
  { intros. auto with words. } { intros w' j Hj. rewrite Z.lor_spec. destruct (Z.testbit (BIT_MASK nr) j); [apply orb_true_r|apply orb_false_r]. }
  destruct (single_update (fun w => Z.land w (not64 (BIT_MASK nr))) (fun _ => false) bm nr Hwf Hnr) as (c & Ec & Fc).
  { intros. auto with words. } { intros w' j Hj. rewrite Z.land_spec, not64_testbit by lia. destruct (Z.testbit (BIT_MASK nr) j); [apply andb_false_r|apply andb_true_r]. }
  destruct (single_update (fun w => Z.lxor w (BIT_MASK nr)) negb bm nr Hwf Hnr) as (x & Ex & Fx).
  { intros. auto with words. } { intros w' j Hj. rewrite Z.lxor_spec. destruct (Z.testbit (BIT_MASK nr) j); [apply xorb_true_r|apply xorb_false_r]. }
  exists s, c, x. unfold test_and_set_bit, test_and_clear_bit, test_and_change_bit, test_and. rewrite Hw. unfold set_bit, clear_bit, change_bit. rewrite Es, Ec, Ex. cbn [mbind option_bind].
  by rewrite Hold.
Qed.

(** C38: on a bitmap of 64-bit words that holds the range, [qemu_bitmap_set] and
    [bitmap_set_atomic] give the same bitmap, in which exactly the bits of the range
    are set besides those set before; [qemu_bitmap_clear] and
    [bitmap_test_and_clear_atomic] clear exactly the range, and the latter returns
    whether one of its bits was set. *)
Theorem bitmap_range_correct bm start nr : wf bm -> 0 <= start -> 0 <= nr -> start + nr <= bits_of bm ->
  exists s c hit, qemu_bitmap_set bm start nr = Some s /\ bitmap_set_atomic bm start nr = Some s /\
    qemu_bitmap_clear bm start nr = Some c /\ bitmap_test_and_clear_atomic bm start nr = Some (c, hit) /\
    (forall k, 0 <= k < bits_of bm ->
      test_bit k s = (if bool_decide (start <= k < start + nr) then Some true else test_bit k bm) /\
      test_bit k c = (if bool_decide (start <= k < start + nr) then Some false else test_bit k bm)) /\
    (hit = true <-> exists k, start <= k < start + nr /\ test_bit k bm = Some true).
Proof.
  intros Hwf Hs Hn He. destruct (update_range_ok true set_mask bm start nr set_masks Hwf Hs Hn He) as (s & Es & Fs), (update_range_ok false clear_mask bm start nr clear_masks Hwf Hs Hn He) as (c & Ec & Fc).
  destruct (set_atomic_ok bm start nr Hwf Hs Hn He) as (s' & Es' & Fs'), (test_clear_ok bm start nr Hwf Hs Hn He) as (c' & hit & Ec' & Fc' & Hhit).
  rewrite (filled_unique _ _ _ _ _ _ Fs' Fs) in Es'. rewrite (filled_unique _ _ _ _ _ _ Fc' Fc) in Ec'. exists s, c, hit. split_and!; [done..| |].
  - intros k Hk. split; by apply filled_test.
  - rewrite Hhit. split; intros (k & Hk & Hb); exists k; (split; [done|]); rewrite test_bit_ok in * by (done || lia); congruence.
Qed.

(** [r] is the first bit with the value [v] from [a] on, or [b] when there is none. *)
Definition first_is (v : bool) (bm : bitmap) (a b r : Z) : Prop :=
  a <= r <= b /\ (forall k, a <= k < r -> test_bit k bm = Some (negb v)) /\ (r < b -> test_bit r bm = Some v).

Lemma next_first v bm a b r : wf bm -> 0 <= a -> b <= bits_of bm -> next_is v bm a b r -> first_is v bm a b r.
Proof.
  intros Hwf Ha Hb (Hr & Hn & Hv). split; [done|]. split.
  - intros k Hk. rewrite test_bit_ok by (done || lia). specialize (Hn k Hk). by destruct (bit bm k), v.
  - intros Hlt. rewrite test_bit_ok by (done || lia). by rewrite Hv.
Qed.

(** C39: from an offset below [size], [find_next_bit] finds the first set bit and
    [find_next_zero_bit] the first clear one, [find_first_bit] and
    [find_first_zero_bit] do so from 0, and all return [size] when there is none;
    [find_last_bit] returns the greatest set bit, or [size]. *)
Theorem bitmap_search_correct bm size offset : wf bm -> 0 <= offset < size -> size <= bits_of bm ->
  exists n z f fz l,
    find_next_bit bm size offset = Some n /\ first_is true bm offset size n /\
    find_next_zero_bit bm size offset = Some z /\ first_is false bm offset size z /\
    find_first_bit bm size = Some f /\ first_is true bm 0 size f /\
    find_first_zero_bit bm size = Some fz /\ first_is false bm 0 size fz /\
    find_last_bit bm size = Some l /\ 0 <= l <= size /\ (l < size -> test_bit l bm = Some true) /\
    forall k, 0 <= k < size -> (l < k \/ l = size) -> test_bit k bm = Some false.
Proof.
  intros Hwf Ho Hs. destruct (find_next_ok bm size offset Hwf Ho Hs) as (n & En & Hn), (find_next_zero_ok bm size offset Hwf Ho Hs) as (z & Ez & Hz),
    (find_first_ok bm size Hwf ltac:(lia)) as (f & Ef & Hf), (find_next_zero_ok bm size 0 Hwf ltac:(lia) Hs) as (fz & Efz & Hfz), (find_last_bit_ok bm size Hwf ltac:(lia)) as (l & El & Hl).
  exists n, z, f, fz, l. assert (0 <= l <= size) by (destruct Hl as [[-> _]|[? _]]; lia).
  split_and!; try done; try (by apply next_first; lia || done); try lia.
  - intros Hlt. destruct Hl as [[-> _]|(_ & Hb & _)]; [lia|]. rewrite test_bit_ok by (done || lia). by rewrite Hb.
  - intros k Hk Hlk. rewrite test_bit_ok by (done || lia). f_equal. apply not_true_iff_false. destruct Hl as [[-> Hn0]|(? & _ & Hn0)]; apply Hn0; lia.
Qed.

(** An area of [nr] clear bits that begins at a multiple of [align] *)
Definition clear_area (bm : bitmap) (size start nr align i : Z) : Prop :=
  start <= i /\ i + nr <= size /\ i mod align = 0 /\ forall k, i <= k < i + nr -> test_bit k bm = Some false.

Lemma clear_area_free bm size start nr align i : wf bm -> 0 <= start -> size <= bits_of bm -> clear_area bm size start nr align i <-> free_area bm size start nr (align - 1) i.
Proof.
  intros Hwf Hs Hz. unfold clear_area, free_area. replace (align - 1 + 1) with align by lia. split; intros (H1 & H2 & H3 & H4); split_and!; try done.
  - intros k Hk. specialize (H4 k Hk). rewrite test_bit_ok in H4 by (done || lia). injection H4 as ->. done.
  - intros k Hk. specialize (H4 k Hk). rewrite test_bit_ok by (done || lia). f_equal. by apply not_true_iff_false.
Qed.

(** C40: [bitmap_find_next_zero_area] ends; when a free area of [nr] bits with the
    alignment [2^a] exists at or above [start], it returns the lowest one, and
    otherwise a number above [size]; the sums must not overflow. *)
Theorem bitmap_zero_area_correct bm size start nr a :
  wf bm -> 0 <= size <= bits_of bm -> 0 <= start -> 0 < nr -> 0 <= a < 64 -> size + 2 ^ a + nr <= 2 ^ 64 ->
  exists r, bitmap_find_next_zero_area bm size start nr (2 ^ a - 1) = Some r /\
    ((r <= size /\ clear_area bm size start nr (2 ^ a) r /\ forall i, clear_area bm size start nr (2 ^ a) i -> r <= i) \/
     (size < r /\ forall i, ~ clear_area bm size start nr (2 ^ a) i)).
Proof.
  intros Hwf Hz Hs Hn Ha Hov. destruct (zero_area_ok bm size nr a Hwf Hz Hn Ha Hov (S (Z.to_nat size)) start Hs) as (r & E & Hr); [lia..|]. exists r. split; [done|].
  destruct Hr as [(H1 & H2 & H3)|(H1 & H2)]; [left|right]; (split; [done|]).
  - split; [by apply clear_area_free; lia || done|]. intros i Hi. apply H3. by apply clear_area_free in Hi; [|lia || done..].
  - intros i Hi. apply (H2 i). by apply clear_area_free in Hi; [|lia || done..].
Qed.

(** ** Set operations *)

(** The tests look at the first [nbits] bits only, and the short cuts for small
    bitmaps agree with the loops. *)
Theorem bitmap_tests_correct bm1 bm2 nbits : wf bm1 -> wf bm2 -> 0 < nbits -> nbits <= bits_of bm1 -> nbits <= bits_of bm2 ->
  exists e f q i,
    bitmap_empty bm1 nbits = Some e /\ slow_bitmap_empty bm1 nbits = Some e /\ (e = true <-> forall k, 0 <= k < nbits -> bit bm1 k = false) /\
    bitmap_full bm1 nbits = Some f /\ slow_bitmap_full bm1 nbits = Some f /\ (f = true <-> forall k, 0 <= k < nbits -> bit bm1 k = true) /\
    bitmap_equal bm1 bm2 nbits = Some q /\ slow_bitmap_equal bm1 bm2 nbits = Some q /\ (q = true <-> forall k, 0 <= k < nbits -> bit bm1 k = bit bm2 k) /\
    bitmap_intersects bm1 bm2 nbits = Some i /\ slow_bitmap_intersects bm1 bm2 nbits = Some i /\ (i = false <-> forall k, 0 <= k < nbits -> bit bm1 k && bit bm2 k = false).
Proof.
  intros W1 W2 Hn H1 H2. destruct (small_tests_ok bm1 bm2 nbits W1 W2 Hn H1 H2) as (-> & -> & -> & ->).
  destruct (bits_zero_ok _ _ nbits ltac:(lia) (reads_words bm1 nbits W1 H1)) as (e & Ee & He), (bits_zero_ok _ _ nbits ltac:(lia) (reads_not bm1 nbits W1 H1)) as (f & Ef & Hf).
  destruct (bits_zero_ok _ _ nbits ltac:(lia) (reads_word2 _ _ bm1 bm2 nbits bitwise_xor W1 W2 H1 H2)) as (q & Eq & Hq), (bits_zero_ok _ _ nbits ltac:(lia) (reads_word2 _ _ bm1 bm2 nbits bitwise_and W1 W2 H1 H2)) as (i & Ei & Hi).
  exists e, f, q, (negb i). unfold slow_bitmap_empty, slow_bitmap_full, slow_bitmap_equal, slow_bitmap_intersects. rewrite Ee, Ef, Eq, Ei. split_and!; try done.
  - rewrite Hf. split; intros Hall k Hk; specialize (Hall k Hk); by destruct (bit bm1 k).
  - rewrite Hq. split; intros Hall k Hk; specialize (Hall k Hk); by destruct (bit bm1 k), (bit bm2 k).
  - by rewrite negb_false_iff.
Qed.

(** The combinations write whole words; of [slow_bitmap_and] and
    [slow_bitmap_andnot] the result counts all bits of these words. *)
Theorem bitmap_combine_correct dst bm1 bm2 nbits : wf dst -> wf bm1 -> wf bm2 -> 0 <= nbits -> nbits <= bits_of dst -> nbits <= bits_of bm1 -> nbits <= bits_of bm2 ->
  exists a ra o x n rn,
    slow_bitmap_and dst bm1 bm2 nbits = Some (a, ra) /\ overwritten (fun k => bit bm1 k && bit bm2 k) 0 (word_bits_of nbits) dst a /\
    (ra = true <-> exists k, 0 <= k < word_bits_of nbits /\ bit bm1 k && bit bm2 k = true) /\
    slow_bitmap_or dst bm1 bm2 nbits = Some o /\ overwritten (fun k => bit bm1 k || bit bm2 k) 0 (word_bits_of nbits) dst o /\
    slow_bitmap_xor dst bm1 bm2 nbits = Some x /\ overwritten (fun k => xorb (bit bm1 k) (bit bm2 k)) 0 (word_bits_of nbits) dst x /\
    slow_bitmap_andnot dst bm1 bm2 nbits = Some (n, rn) /\ overwritten (fun k => bit bm1 k && negb (bit bm2 k)) 0 (word_bits_of nbits) dst n /\
    (rn = true <-> exists k, 0 <= k < word_bits_of nbits /\ bit bm1 k && negb (bit bm2 k) = true).
Proof.
  intros Wd W1 W2 Hn Hd H1 H2. destruct (combine_ok _ _ dst bm1 bm2 nbits bitwise_and) as (a & ra & Ea & Oa & Ra), (combine_ok _ _ dst bm1 bm2 nbits bitwise_or) as (o & ro & Eo & Oo & _),
    (combine_ok _ _ dst bm1 bm2 nbits bitwise_xor) as (x & rx & Ex & Ox & _), (combine_ok _ _ dst bm1 bm2 nbits bitwise_andnot) as (n & rn & En & On & Rn); try done.
  exists a, ra, o, x, n, rn. unfold slow_bitmap_or, slow_bitmap_xor. rewrite Eo, Ex. by split_and!.
Qed.

(** ** Copies *)

(** What is copied into a bitmap at an offset is copied out again from that
    offset; nothing before the offset changes. *)
Theorem bitmap_copy_offset_roundtrip dst src back shift nbits :
  wf dst -> wf src -> wf back -> 0 <= shift -> 0 < nbits -> nbits <= bits_of src -> shift + nbits <= bits_of dst -> nbits <= bits_of back ->
  exists dst' back', bitmap_copy_with_dst_offset dst src shift nbits = Some dst' /\ bitmap_copy_with_src_offset back dst' shift nbits = Some back' /\
    (forall k, 0 <= k < nbits -> test_bit k back' = test_bit k src) /\ forall k, 0 <= k < shift -> test_bit k dst' = test_bit k dst.
Proof.
  intros Wd Ws Wb Hs Hn Hsrc Hd Hb. destruct (copy_dst_ok dst src shift nbits) as (dst' & E1 & Wd' & Ld & C1 & K1); try done.
  destruct (copy_src_ok back dst' shift nbits) as (back' & E2 & Wb' & Lb & C2 & K2); try done; [unfold bits_of in *; rewrite Ld; lia|].
  exists dst', back'. split_and!; [done|done| |].
  - intros k Hk. rewrite !test_bit_ok by (done || unfold bits_of in *; rewrite ?Lb; lia). specialize (C2 k Hk). rewrite Z.add_0_l in C2. rewrite C2, C1 by done. by rewrite Z.add_0_l.
  - intros k Hk. rewrite !test_bit_ok by (done || unfold bits_of in *; rewrite ?Ld; lia). f_equal. apply K1. by left.
Qed.

(** ** Witnesses and examples *)

Definition sample : bitmap := [2 ^ 63; 0; 5; ALL_ONES].

Lemma sample_wf : wf sample.
Proof. repeat constructor; unfold uint, ALL_ONES; lia. Qed.

Lemma bitmap_range_correct_witness :
  (exists s c hit, qemu_bitmap_set sample 60 80 = Some s /\ bitmap_set_atomic sample 60 80 = Some s /\
    qemu_bitmap_clear sample 60 80 = Some c /\ bitmap_test_and_clear_atomic sample 60 80 = Some (c, hit) /\
    (forall k, 0 <= k < bits_of sample ->
      test_bit k s = (if bool_decide (60 <= k < 60 + 80) then Some true else test_bit k sample) /\
      test_bit k c = (if bool_decide (60 <= k < 60 + 80) then Some false else test_bit k sample)) /\
    (hit = true <-> exists k, 60 <= k < 60 + 80 /\ test_bit k sample = Some true)) /\
  qemu_bitmap_set sample 60 80 = Some [15 * 2 ^ 60; ALL_ONES; 2 ^ 12 - 1; ALL_ONES] /\ bitmap_test_and_clear_atomic sample 60 80 = Some ([0; 0; 0; ALL_ONES], true).
Proof. split; [apply (bitmap_range_correct sample 60 80); [apply sample_wf|vm_compute; intuition discriminate..]|]. split; vm_compute; reflexivity. Defined.

Lemma bitmap_search_correct_witness :
  (exists n z f fz l,
    find_next_bit sample 250 64 = Some n /\ first_is true sample 64 250 n /\
    find_next_zero_bit sample 250 64 = Some z /\ first_is false sample 64 250 z /\
    find_first_bit sample 250 = Some f /\ first_is true sample 0 250 f /\
    find_first_zero_bit sample 250 = Some fz /\ first_is false sample 0 250 fz /\
    find_last_bit sample 250 = Some l /\ 0 <= l <= 250 /\ (l < 250 -> test_bit l sample = Some true) /\
    forall k, 0 <= k < 250 -> (l < k \/ l = 250) -> test_bit k sample = Some false) /\
  find_next_bit sample 250 64 = Some 128 /\ find_next_zero_bit sample 256 192 = Some 256 /\ find_last_bit sample 192 = Some 130 /\ find_first_bit sample 250 = Some 63.
Proof. split; [apply (bitmap_search_correct sample 250 64); [apply sample_wf|lia|vm_compute; intuition discriminate]|]. split_and!; vm_compute; reflexivity. Defined.

Lemma bitmap_zero_area_correct_witness :
  (exists r, bitmap_find_next_zero_area sample 192 10 50 (2 ^ 3 - 1) = Some r /\
    ((r <= 192 /\ clear_area sample 192 10 50 (2 ^ 3) r /\ forall i, clear_area sample 192 10 50 (2 ^ 3) i -> r <= i) \/
     (192 < r /\ forall i, ~ clear_area sample 192 10 50 (2 ^ 3) i))) /\
  bitmap_find_next_zero_area sample 192 10 50 7 = Some 64 /\ bitmap_find_next_zero_area sample 192 10 70 7 = Some 206.
Proof.
  split; [apply (bitmap_zero_area_correct sample 192 10 50 3); [apply sample_wf|vm_compute; intuition discriminate|lia..]|]. split; vm_compute; reflexivity.
Defined.

(** The result of [slow_bitmap_and] counts bits above the size of the bitmaps. *)
Example bitmap_and_unused_bits : slow_bitmap_and [0] [2 ^ 63] [2 ^ 63] 1 = Some ([2 ^ 63], true) /\ slow_bitmap_empty [2 ^ 63] 1 = Some true.
Proof. split; reflexivity. Qed.

(** With no bits at all the short cut looks at a whole word, and [bitmap_fill]
    writes below the array. *)
Example bitmap_no_bits : bitmap_empty [1] 0 = Some false /\ slow_bitmap_empty [1] 0 = Some true /\ bitmap_fill [0] 0 = None.
Proof. split_and!; reflexivity. Qed.

(** A request for almost 2^64 bits makes the end of the area wrap
    around, so that the index returned is not in the bitmap. *)
Example zero_area_wraps : bitmap_find_next_zero_area [0] 64 0 (2 ^ 64 - 8) 15 = Some (2 ^ 64 - 8) /\ bitmap_find_next_zero_area [1] 64 0 (2 ^ 64 - 8) 15 = Some 16.
Proof. split; vm_compute; reflexivity. Qed.
