(* ===== verification/TbPages.v ===== *)
(** * Page descriptors of translated code ([qemu/accel/tcg/translate-all.c])

    Every page of RAM that holds translated code has a descriptor: the list of
    its translation blocks, and a bitmap of the bytes they cover, built when the
    page is written often.  The descriptors are found by page number in a table
    of several levels, whose lower levels are allocated when needed.

    A pointer into a list of blocks carries in its lowest bit which of two
    fields of the block continues the list; it is a pair of the block (0 is the
    null pointer) and that bit. *)

From S2P Require Import Prelude Bitmap.

Abbreviation link := (Z * bool)%type.
Definition null_link : link := (0, false).

Record PageDesc := mk_pd {
  first_tb : link;
  code_bitmap : option bitmap;  (* a bit for every byte of the page *)
  code_write_count : Z
}.

(** A zeroed descriptor. *)
Definition pd_zero : PageDesc := mk_pd null_link None 0.

(** ** The table *)

Inductive l2_table :=
  | L2_null
  | L2_dir (p : Z -> l2_table)
  | L2_page (pd : Z -> PageDesc).

Abbreviation l1_table := (Z -> l2_table).

Definition V_L2_BITS : Z := 10.
Definition V_L2_SIZE : Z := Z.shiftl 1 V_L2_BITS.
Definition V_L1_MIN_BITS : Z := 4.
Definition V_L1_MAX_BITS : Z := V_L2_BITS + 3.

Record page_config := mk_config { v_l1_size : Z; v_l1_shift : Z; v_l2_levels : nat }.

Section pages.
Context (L1_MAP_ADDR_SPACE_BITS TARGET_PAGE_BITS : Z).

Definition page_table_config_init : option page_config :=
  if TARGET_PAGE_BITS =? 0 then None
  else
    let v_l1_bits := (L1_MAP_ADDR_SPACE_BITS - TARGET_PAGE_BITS) mod V_L2_BITS in
    let v_l1_bits := if v_l1_bits <? V_L1_MIN_BITS then v_l1_bits + V_L2_BITS else v_l1_bits in
    let shift := L1_MAP_ADDR_SPACE_BITS - TARGET_PAGE_BITS - v_l1_bits in
    let levels := shift / V_L2_BITS - 1 in
    if (v_l1_bits <=? V_L1_MAX_BITS) && (shift mod V_L2_BITS =? 0) && (0 <=? levels)
    then Some (mk_config (Z.shiftl 1 v_l1_bits) shift (Z.to_nat levels))
    else None.
End pages.

(** [table[i] = x] *)
Definition upd {A} (i : Z) (x : A) (f : Z -> A) : Z -> A := fun j => if j =? i then x else f j.

(** The entry of an index at level [i]. *)
Definition l2_slot (i : nat) (index : Z) : Z := Z.land (Z.shiftr index (Z.of_nat i * V_L2_BITS)) (V_L2_SIZE - 1).

(** [page_find_alloc(uc, index, 0)] from level [i] on. *)
Fixpoint l2_find (i : nat) (index : Z) (t : l2_table) : option PageDesc :=
  match i, t with
  | O, L2_page pd => Some (pd (l2_slot 0 index))
  | S i', L2_dir p => l2_find i' index (p (l2_slot i index))
  | _, _ => None
  end.

(** [page_find_alloc(uc, index, 1)]: null tables on the way are allocated. *)
Fixpoint l2_alloc (i : nat) (index : Z) (t : l2_table) : l2_table :=
  match i, t with
  | O, L2_null => L2_page (fun _ => pd_zero)
  | S i', L2_null => L2_dir (upd (l2_slot i index) (l2_alloc i' index L2_null) (fun _ => L2_null))
  | S i', L2_dir p => L2_dir (upd (l2_slot i index) (l2_alloc i' index (p (l2_slot i index))) p)
  | _, _ => t
  end.

(** Writing a descriptor through a pointer that was found. *)
Fixpoint l2_write (i : nat) (index : Z) (d : PageDesc) (t : l2_table) : l2_table :=
  match i, t with
  | O, L2_page pd => L2_page (upd (l2_slot 0 index) d pd)
  | S i', L2_dir p => L2_dir (upd (l2_slot i index) (l2_write i' index d (p (l2_slot i index))) p)
  | _, _ => t
  end.

Section table.
Context (c : page_config).

Definition l1_slot (index : Z) : Z := Z.land (Z.shiftr index (v_l1_shift c)) (v_l1_size c - 1).

Definition page_find (l1_map : l1_table) (index : Z) : option PageDesc := l2_find (v_l2_levels c) index (l1_map (l1_slot index)).

Definition page_alloc (l1_map : l1_table) (index : Z) : l1_table :=
  upd (l1_slot index) (l2_alloc (v_l2_levels c) index (l1_map (l1_slot index))) l1_map.

Definition page_write (l1_map : l1_table) (index : Z) (d : PageDesc) : l1_table :=
  upd (l1_slot index) (l2_write (v_l2_levels c) index d (l1_map (l1_slot index))) l1_map.

Definition invalidate_page_bitmap (p : PageDesc) : PageDesc := mk_pd (first_tb p) None 0.

(** [page_flush_tb_1]: all lists become empty, nothing is freed. *)
Fixpoint page_flush_tb_1 (level : nat) (t : l2_table) : l2_table :=
  match level, t with
  | O, L2_page pd => L2_page (fun i => if (0 <=? i) && (i <? V_L2_SIZE) then invalidate_page_bitmap (mk_pd null_link (code_bitmap (pd i)) (code_write_count (pd i))) else pd i)
  | S level, L2_dir p => L2_dir (fun i => if (0 <=? i) && (i <? V_L2_SIZE) then page_flush_tb_1 level (p i) else p i)
  | _, _ => t
  end.

Definition page_flush_tb (l1_map : l1_table) : l1_table :=
  fun i => if (0 <=? i) && (i <? v_l1_size c) then page_flush_tb_1 (v_l2_levels c) (l1_map i) else l1_map i.
End table.

(** ** The table is a map of descriptors *)

(** The descriptor of a page; a page without one has no blocks. *)
Definition page_at (c : page_config) (l1_map : l1_table) (index : Z) : PageDesc := default pd_zero (page_find c l1_map index).

(** Tables of the right depth. *)
Fixpoint l2_ok (i : nat) (t : l2_table) : Prop :=
  match i, t with
  | _, L2_null => True
  | O, L2_page _ => True
  | S i, L2_dir p => forall k, l2_ok i (p k)
  | _, _ => False
  end.

Lemma upd_eq {A} i (x : A) f : upd i x f i = x.
Proof. unfold upd. by rewrite Z.eqb_refl. Qed.

Lemma upd_ne {A} i j (x : A) f : j <> i -> upd i x f j = f j.
Proof. intros H. unfold upd. by apply Z.eqb_neq in H as ->. Qed.

Lemma l2_null_ok i : l2_ok i L2_null.
Proof. by destruct i. Qed.

Lemma l2_alloc_ok i : forall index t, l2_ok i t -> l2_ok i (l2_alloc i index t).
Proof.
  induction i as [|i IH]; intros index [|p|pd] Ht; simpl in *; try done; intros k; unfold upd; destruct (_ =? _);
    first [done|apply l2_null_ok|apply IH, Ht|apply IH, l2_null_ok].
Qed.

Lemma l2_write_ok i d : forall index t, l2_ok i t -> l2_ok i (l2_write i index d t).
Proof.
  induction i as [|i IH]; intros index [|p|pd] Ht; simpl in *; try done; intros k; unfold upd; destruct (_ =? _);
    first [done|apply l2_null_ok|apply IH, Ht|apply IH, l2_null_ok].
Qed.

(** The page of an index at the lowest [i + 1] levels. *)
Definition l2_index (i : nat) (index : Z) : Z := index mod 2 ^ (10 * Z.of_nat (S i)).

Lemma l2_slot_eq i index : l2_slot i index = index / 2 ^ (10 * Z.of_nat i) mod 2 ^ 10.
Proof.
  unfold l2_slot, V_L2_SIZE, V_L2_BITS. replace (Z.shiftl 1 10 - 1) with (Z.ones 10) by done.
  rewrite Z.land_ones, Z.shiftr_div_pow2 by lia. do 2 f_equal. f_equal. lia.
Qed.

(** Two indices agree on [i + 2] levels when they agree on the entry of the
    highest of them and below. *)
Lemma l2_index_S i a b : l2_index (S i) a = l2_index (S i) b <-> l2_slot (S i) a = l2_slot (S i) b /\ l2_index i a = l2_index i b.
Proof.
  rewrite !l2_slot_eq. unfold l2_index. set (k := 10 * Z.of_nat (S i)).
  assert (2 ^ (10 * Z.of_nat (S (S i))) = 2 ^ k * 2 ^ 10) as -> by (rewrite <- Z.pow_add_r by lia; f_equal; lia).
  assert (0 < 2 ^ k) as Hk by (apply Z.pow_pos_nonneg; lia).
  rewrite !Z.rem_mul_r by lia.
  pose proof (Z.mod_pos_bound a (2 ^ k) Hk). pose proof (Z.mod_pos_bound b (2 ^ k) Hk).
  split; [|by intros [-> ->]]. intros E. assert (a / 2 ^ k mod 2 ^ 10 = b / 2 ^ k mod 2 ^ 10); [|split; [done|lia]].
  apply (f_equal (fun z => z / 2 ^ k)) in E. rewrite !(Z.mul_comm (2 ^ k)), !Z.div_add, !(Z.div_small (_ mod _)) in E by lia. lia.
Qed.

Lemma l2_find_alloc i : forall index j t, l2_ok i t ->
  l2_find i index (l2_alloc i index t) = Some (default pd_zero (l2_find i index t)) /\
  default pd_zero (l2_find i j (l2_alloc i index t)) = default pd_zero (l2_find i j t).
Proof.
  induction i as [|i IH]; intros index j [|p|pd] Ht; try done.
  - cbn [l2_find l2_alloc]. rewrite upd_eq. destruct (IH index j L2_null (l2_null_ok i)) as [E1 E2].
    assert (l2_find i index L2_null = None /\ l2_find i j L2_null = None) as [N1 N2] by (by destruct i). rewrite N1 in E1. rewrite N2 in E2.
    split; [done|]. destruct (decide (l2_slot (S i) j = l2_slot (S i) index)) as [E|E]; [by rewrite E, upd_eq|].
    rewrite upd_ne by done. by rewrite N2.
  - cbn [l2_find l2_alloc]. rewrite upd_eq. destruct (IH index j (p (l2_slot (S i) index)) (Ht _)) as [E1 E2]. split; [done|].
    destruct (decide (l2_slot (S i) j = l2_slot (S i) index)) as [E|E]; [by rewrite E, upd_eq|by rewrite upd_ne].
Qed.

Lemma l2_alloc_found i : forall index j t, is_Some (l2_find i j t) -> is_Some (l2_find i j (l2_alloc i index t)).
Proof.
  induction i as [|i IH]; intros index j [|p|pd] [d Hd]; try done. cbn [l2_find l2_alloc] in *. unfold upd.
  destruct (Z.eqb_spec (l2_slot (S i) j) (l2_slot (S i) index)) as [E|E]; [|done]. apply IH. by rewrite <- E, Hd.
Qed.

Lemma l2_find_write i d : forall index t, is_Some (l2_find i index t) -> forall j,
  l2_find i j (l2_write i index d t) = if decide (l2_index i j = l2_index i index) then Some d else l2_find i j t.
Proof.
  induction i as [|i IH]; intros index [|p|pd] [x Hx] j; try done.
  - cbn [l2_find l2_write]. unfold upd. assert (forall z, l2_slot 0 z = l2_index 0 z) as E.
    { intros z. rewrite l2_slot_eq. unfold l2_index. cbn. by rewrite Z.div_1_r. }
    rewrite !E. destruct (Z.eqb_spec (l2_index 0 j) (l2_index 0 index)); [by rewrite decide_True|by rewrite decide_False].
  - cbn [l2_find l2_write] in *. unfold upd. destruct (Z.eqb_spec (l2_slot (S i) j) (l2_slot (S i) index)) as [E|E].
    + rewrite (IH index) by (by rewrite Hx). rewrite E. destruct (decide (l2_index i j = l2_index i index)).
      * rewrite decide_True; [done|by apply l2_index_S].
      * rewrite decide_False; [done|]. by intros [_ ?]%l2_index_S.
    + rewrite decide_False; [done|]. by intros [? _]%l2_index_S.
Qed.

Lemma l2_flush_find i : forall j t, l2_ok i t -> default pd_zero (l2_find i j (page_flush_tb_1 i t)) = pd_zero.
Proof.
  assert (forall k z, (0 <=? l2_slot k z) && (l2_slot k z <? V_L2_SIZE) = true) as Hslot.
  { intros k z. rewrite l2_slot_eq. pose proof (Z.mod_pos_bound (z / 2 ^ (10 * Z.of_nat k)) (2 ^ 10) ltac:(lia)).
    apply andb_true_iff. unfold V_L2_SIZE, V_L2_BITS. rewrite Z.leb_le, Z.ltb_lt. change (Z.shiftl 1 10) with (2 ^ 10). lia. }
  induction i as [|i IH]; intros j [|p|pd] Ht; try done.
  - cbn [page_flush_tb_1 l2_find]. by rewrite Hslot.
  - cbn [page_flush_tb_1 l2_find]. rewrite Hslot. apply IH, Ht.
Qed.

Lemma l2_flush_ok i : forall t, l2_ok i t -> l2_ok i (page_flush_tb_1 i t).
Proof. induction i as [|i IH]; intros [|p|pd] Ht; try done. intros k. cbn. destruct (_ && _); [apply IH, Ht|apply Ht]. Qed.

(** ** Laws of the table *)

Section laws.
Context (A P : Z) (c : page_config) (Hc : page_table_config_init A P = Some c).

Definition table_ok (m : l1_table) : Prop := forall k, l2_ok (v_l2_levels c) (m k).

(** A page number of the address space. *)
Definition page_index (index : Z) : Prop := 0 <= index < 2 ^ (A - P).

Lemma config_facts :
  exists bits, 0 < bits /\ v_l1_size c = 2 ^ bits /\ v_l1_shift c = 10 * Z.of_nat (S (v_l2_levels c)) /\ A - P = v_l1_shift c + bits.
Proof.
  unfold page_table_config_init, V_L2_BITS, V_L1_MIN_BITS, V_L1_MAX_BITS in Hc. destruct (P =? 0); [done|].
  set (bits := if _ <? _ then _ else _) in Hc. destruct (_ && _) eqn:E; [|done]. injection Hc as <-. bool_to_prop. simpl.
  assert (4 <= bits) as Hb.
  { unfold bits. pose proof (Z.mod_pos_bound (A - P) 10 ltac:(lia)). destruct (Z.ltb_spec ((A - P) mod 10) 4); unfold V_L2_BITS; lia. }
  exists bits. split; [lia|]. rewrite Z.shiftl_1_l. split; [done|].
  pose proof (Z.div_mod (A - P - bits) 10 ltac:(lia)). unfold V_L2_BITS in *. lia.
Qed.

Lemma same_page a b : page_index a -> page_index b -> l1_slot c a = l1_slot c b -> l2_index (v_l2_levels c) a = l2_index (v_l2_levels c) b -> a = b.
Proof.
  intros Ha Hb E1 E2. destruct config_facts as (bits & Hbits & Es & Esh & EA). unfold page_index in *. rewrite EA in *.
  unfold l1_slot, l2_index in *. rewrite Es, <- Esh in *. replace (2 ^ bits - 1) with (Z.ones bits) in E1 by (rewrite Z.ones_equiv; lia).
  rewrite !Z.land_ones, !Z.shiftr_div_pow2 in E1 by lia. set (k := v_l1_shift c) in *.
  rewrite Z.pow_add_r in Ha, Hb by lia. assert (0 < 2 ^ k) by (apply Z.pow_pos_nonneg; lia).
  rewrite !Z.mod_small in E1 by (split; [apply Z.div_pos; lia|apply Z.div_lt_upper_bound; lia]).
  rewrite (Z.div_mod a (2 ^ k)), (Z.div_mod b (2 ^ k)) by lia. by rewrite E1, E2.
Qed.

Lemma page_alloc_ok m index : table_ok m ->
  table_ok (page_alloc c m index) /\ page_find c (page_alloc c m index) index = Some (page_at c m index) /\
  forall j, page_at c (page_alloc c m index) j = page_at c m j.
Proof.
  intros Hm. unfold page_alloc, page_at, page_find. split; [|split].
  - intros k. unfold upd. destruct (_ =? _); [apply l2_alloc_ok, Hm|apply Hm].
  - rewrite upd_eq. by apply l2_find_alloc.
  - intros j. unfold upd. destruct (Z.eqb_spec (l1_slot c j) (l1_slot c index)) as [E|E]; [|done]. rewrite E. by apply l2_find_alloc.
Qed.

(** No descriptor is lost. *)
Lemma page_alloc_found m index j : is_Some (page_find c m j) -> is_Some (page_find c (page_alloc c m index) j).
Proof.
  intros Hj. unfold page_alloc, page_find in *. unfold upd. destruct (Z.eqb_spec (l1_slot c j) (l1_slot c index)) as [E|E]; [|done].
  rewrite E in Hj. by apply l2_alloc_found.
Qed.

Lemma page_write_ok m index d : table_ok m -> page_index index -> is_Some (page_find c m index) ->
  table_ok (page_write c m index d) /\
  forall j, page_index j -> page_find c (page_write c m index d) j = if decide (j = index) then Some d else page_find c m j.
Proof.
  intros Hm Hi Hf. unfold page_write, page_find in *. split.
  - intros k. unfold upd. destruct (_ =? _); [apply l2_write_ok, Hm|apply Hm].
  - intros j Hj. unfold upd. destruct (Z.eqb_spec (l1_slot c j) (l1_slot c index)) as [E|E].
    + rewrite l2_find_write by done. rewrite E. destruct (decide (j = index)) as [->|Hn]; [by rewrite decide_True|].
      rewrite decide_False; [done|]. intros E2. by apply Hn, same_page.
    + rewrite decide_False; [done|congruence].
Qed.

Lemma page_flush_ok m : table_ok m -> table_ok (page_flush_tb c m) /\ forall j, page_at c (page_flush_tb c m) j = pd_zero.
Proof.
  intros Hm. unfold page_flush_tb, page_at, page_find. split.
  - intros k. destruct (_ && _); [apply l2_flush_ok, Hm|apply Hm].
  - intros j. destruct config_facts as (bits & Hbits & Es & _).
    assert ((0 <=? l1_slot c j) && (l1_slot c j <? v_l1_size c) = true) as ->.
    { unfold l1_slot. rewrite Es. replace (2 ^ bits - 1) with (Z.ones bits) by (rewrite Z.ones_equiv; lia). rewrite Z.land_ones by lia.
      pose proof (Z.mod_pos_bound (Z.shiftr j (v_l1_shift c)) (2 ^ bits) ltac:(lia)). apply andb_true_iff. rewrite Z.leb_le, Z.ltb_lt. lia. }
    apply l2_flush_find, Hm.
Qed.
End laws.
