(* ===== verification/TbCache.v ===== *)
(** * The cache of translation blocks

    ([qemu/accel/tcg/translate-all.c], [cpu-exec.c], [exec/tb-lookup.h],
    [exec/tb-hash.h], [qemu/xxhash.h])

    A translation block is found by its address and state in a hash table, in a
    small cache by address, and through the jumps that were patched into other
    blocks.  So that code which is written again is not run any more, each page
    has a list of its blocks and each block a list of the jumps to it; a block
    that is invalidated is taken out of all of them.

    Blocks are in a store by their address.  The hash table is used through its
    interface.  [None] is a failed assertion, the use of a block that is gone or
    a list without an end.  Locks, which one thread does not need, and the
    protection of the code buffer are left out, and so is the stop of a block
    that writes itself ([TARGET_HAS_PRECISE_SMC], for one target). *)

From S2P Require Import Prelude BitOps Bitmap SoftTlb QhtProofs TbPages.

(** ** Data *)

(** The two elements of an array of two. *)
Definition sel {A} (n : bool) (p : A * A) : A := if n then p.2 else p.1.
Definition put {A} (n : bool) (x : A) (p : A * A) : A * A := if n then (p.1, x) else (x, p.2).

(** What does not change after the code was generated. *)
Record tb_code := mk_code {
  tb_pc : Z; tb_cs_base : Z; tb_flags : Z; tb_size : Z; tb_dstate : Z; tb_tc_ptr : Z;
  jmp_reset_offset : Z * Z
}.

(** [jmp_target] is where each of the two jumps of the code leads; the pointer
    in [jmp_dest] is marked when the block is being invalidated. *)
Record TranslationBlock := mk_tb {
  code : tb_code;
  tb_cflags : Z;
  page_next : link * link;
  page_addr : Z * Z;
  jmp_target : Z * Z;
  jmp_list_head : link;
  jmp_list_next : link * link;
  jmp_dest : link * link;
  tb_hash : Z
}.

Definition with_cflags x tb := mk_tb (code tb) x (page_next tb) (page_addr tb) (jmp_target tb) (jmp_list_head tb) (jmp_list_next tb) (jmp_dest tb) (tb_hash tb).
Definition with_page_next n x tb := mk_tb (code tb) (tb_cflags tb) (put n x (page_next tb)) (page_addr tb) (jmp_target tb) (jmp_list_head tb) (jmp_list_next tb) (jmp_dest tb) (tb_hash tb).
Definition with_page_addr n x tb := mk_tb (code tb) (tb_cflags tb) (page_next tb) (put n x (page_addr tb)) (jmp_target tb) (jmp_list_head tb) (jmp_list_next tb) (jmp_dest tb) (tb_hash tb).
Definition with_jmp_target n x tb := mk_tb (code tb) (tb_cflags tb) (page_next tb) (page_addr tb) (put n x (jmp_target tb)) (jmp_list_head tb) (jmp_list_next tb) (jmp_dest tb) (tb_hash tb).
Definition with_jmp_list_head x tb := mk_tb (code tb) (tb_cflags tb) (page_next tb) (page_addr tb) (jmp_target tb) x (jmp_list_next tb) (jmp_dest tb) (tb_hash tb).
Definition with_jmp_list_next n x tb := mk_tb (code tb) (tb_cflags tb) (page_next tb) (page_addr tb) (jmp_target tb) (jmp_list_head tb) (put n x (jmp_list_next tb)) (jmp_dest tb) (tb_hash tb).
Definition with_jmp_dest n x tb := mk_tb (code tb) (tb_cflags tb) (page_next tb) (page_addr tb) (jmp_target tb) (jmp_list_head tb) (jmp_list_next tb) (put n x (jmp_dest tb)) (tb_hash tb).
Definition with_hash x tb := mk_tb (code tb) (tb_cflags tb) (page_next tb) (page_addr tb) (jmp_target tb) (jmp_list_head tb) (jmp_list_next tb) (jmp_dest tb) x.

Definition CF_COUNT_MASK : Z := 0x7fff.
Definition CF_LAST_IO : Z := 0x8000.
Definition CF_NOCACHE : Z := 0x10000.
Definition CF_USE_ICOUNT : Z := 0x20000.
Definition CF_INVALID : Z := 0x40000.
Definition CF_PARALLEL : Z := 0x80000.
Definition CF_CLUSTER_MASK : Z := 0xff000000.
Definition CF_CLUSTER_SHIFT : Z := 24.
Definition CF_HASH_MASK : Z := Z.lor (Z.lor (Z.lor (Z.lor CF_COUNT_MASK CF_LAST_IO) CF_USE_ICOUNT) CF_PARALLEL) CF_CLUSTER_MASK.

Definition TB_JMP_RESET_OFFSET_INVALID : Z := 0xffff.
Definition TCG_MAX_INSNS : Z := 512.

Definition cf_set (tb : TranslationBlock) (f : Z) : bool := negb (Z.land (tb_cflags tb) f =? 0).

(** The page address -1. *)
Definition NO_PAGE : Z := 2 ^ 64 - 1.

(** ** Hashes *)

Definition PRIME32_1 : Z := 2654435761.
Definition PRIME32_2 : Z := 2246822519.
Definition PRIME32_3 : Z := 3266489917.
Definition PRIME32_4 : Z := 668265263.
Definition QEMU_XXHASH_SEED : Z := 1.

Definition xxhash_lane (v x : Z) : Z := u32 (rol32 (u32 (v + x * PRIME32_2)) 13 * PRIME32_1).
Definition xxhash_word (h x : Z) : Z := u32 (rol32 (u32 (h + x * PRIME32_3)) 17 * PRIME32_4).

Definition qemu_xxhash7 (ab cd e f g : Z) : Z :=
  let v1 := xxhash_lane (u32 (QEMU_XXHASH_SEED + PRIME32_1 + PRIME32_2)) (u32 ab) in
  let v2 := xxhash_lane (u32 (QEMU_XXHASH_SEED + PRIME32_2)) (u32 (Z.shiftr ab 32)) in
  let v3 := xxhash_lane QEMU_XXHASH_SEED (u32 cd) in
  let v4 := xxhash_lane (u32 (QEMU_XXHASH_SEED - PRIME32_1)) (u32 (Z.shiftr cd 32)) in
  let h32 := u32 (rol32 v1 1 + rol32 v2 7 + rol32 v3 12 + rol32 v4 18 + 28) in
  let h32 := xxhash_word (xxhash_word (xxhash_word h32 e) f) g in
  let h32 := u32 (Z.lxor h32 (Z.shiftr h32 15) * PRIME32_2) in
  let h32 := u32 (Z.lxor h32 (Z.shiftr h32 13) * PRIME32_3) in
  Z.lxor h32 (Z.shiftr h32 16).

Definition tb_hash_func (phys_pc pc flags cf_mask trace_vcpu_dstate : Z) : Z := qemu_xxhash7 phys_pc pc flags cf_mask trace_vcpu_dstate.

Definition TB_JMP_CACHE_BITS : Z := 12.
Definition TB_JMP_PAGE_BITS : Z := TB_JMP_CACHE_BITS / 2.
Definition TB_JMP_PAGE_SIZE : Z := Z.shiftl 1 TB_JMP_PAGE_BITS.
Definition TB_JMP_ADDR_MASK : Z := TB_JMP_PAGE_SIZE - 1.
Definition TB_JMP_CACHE_SIZE : Z := Z.shiftl 1 TB_JMP_CACHE_BITS.
Definition TB_JMP_PAGE_MASK : Z := TB_JMP_CACHE_SIZE - TB_JMP_PAGE_SIZE.

(** ** State *)

(** [tlb_protect_code] and [tlb_unprotect_code], which make writes to a page
    slow and fast. *)
Inductive tlb_call := tlb_protect_code (addr : Z) | tlb_unprotect_code (addr : Z).

Section cache.
Context {T : Type} `{HashTable T}.
(** The bits of a guest address and of a page, [TARGET_PAGE_MASK] in 64 bits,
    and the table of pages.  The mask of a target with 32 bits is zero-extended
    where the page size is fixed. *)
Context (L P page_mask : Z) (c : page_config).

Record tb_state := mk_state {
  tbs : gmap Z TranslationBlock;
  l1_map : l1_table;
  htable : T;
  tb_jmp_cache : Z -> Z;
  tb_phys_invalidate_count : Z;
  tlb_calls : list tlb_call
}.

Definition with_tbs x st := mk_state x (l1_map st) (htable st) (tb_jmp_cache st) (tb_phys_invalidate_count st) (tlb_calls st).
Definition with_l1 x st := mk_state (tbs st) x (htable st) (tb_jmp_cache st) (tb_phys_invalidate_count st) (tlb_calls st).
Definition with_htable x st := mk_state (tbs st) (l1_map st) x (tb_jmp_cache st) (tb_phys_invalidate_count st) (tlb_calls st).
Definition with_jmp_cache x st := mk_state (tbs st) (l1_map st) (htable st) x (tb_phys_invalidate_count st) (tlb_calls st).
Definition with_count x st := mk_state (tbs st) (l1_map st) (htable st) (tb_jmp_cache st) x (tlb_calls st).
Definition with_call x st := mk_state (tbs st) (l1_map st) (htable st) (tb_jmp_cache st) (tb_phys_invalidate_count st) (tlb_calls st ++ [x]).

(** Writing fields of the block [t]. *)
Definition set_tb (t : Z) (f : TranslationBlock -> TranslationBlock) (st : tb_state) : option tb_state :=
  tb ← tbs st !! t; Some (with_tbs (<[t := f tb]> (tbs st)) st).

(** Writing the descriptor of a page. *)
Definition set_page (index : Z) (f : PageDesc -> PageDesc) (st : tb_state) : option tb_state :=
  d ← page_find c (l1_map st) index; Some (with_l1 (page_write c (l1_map st) index (f d)) st).

Definition with_first_tb (l : link) (d : PageDesc) : PageDesc := mk_pd l (code_bitmap d) (code_write_count d).

Definition page_of (addr : Z) : Z := Z.shiftr addr P.
Definition TARGET_PAGE_SIZE : Z := 2 ^ P.
(** [x & TARGET_PAGE_MASK] for an address of RAM and [x & ~TARGET_PAGE_MASK] *)
Definition page_start (addr : Z) : Z := Z.land addr page_mask.
Definition page_offset (x : Z) : Z := Z.land x (TARGET_PAGE_SIZE - 1).

Definition tb_jmp_cache_hash_page (pc : Z) : Z :=
  let tmp := Z.lxor pc (Z.shiftr pc (P - TB_JMP_PAGE_BITS)) in
  Z.land (Z.shiftr tmp (P - TB_JMP_PAGE_BITS)) TB_JMP_PAGE_MASK.

Definition tb_jmp_cache_hash_func (pc : Z) : Z :=
  let tmp := Z.lxor pc (Z.shiftr pc (P - TB_JMP_PAGE_BITS)) in
  Z.lor (Z.land (Z.shiftr tmp (P - TB_JMP_PAGE_BITS)) TB_JMP_PAGE_MASK) (Z.land tmp TB_JMP_ADDR_MASK).

(** The hash of a block at [phys_pc]. *)
Definition hash_of (tb : TranslationBlock) (phys_pc : Z) : Z :=
  tb_hash_func phys_pc (tb_pc (code tb)) (tb_flags (code tb)) (Z.land (tb_cflags tb) CF_HASH_MASK) (tb_dstate (code tb)).

Definition same_block (a b : TranslationBlock) : bool :=
  (tb_pc (code a) =? tb_pc (code b)) && (tb_cs_base (code a) =? tb_cs_base (code b)) && (tb_flags (code a) =? tb_flags (code b)) &&
  (Z.land (tb_cflags a) CF_HASH_MASK =? Z.land (tb_cflags b) CF_HASH_MASK) && (tb_dstate (code a) =? tb_dstate (code b)) &&
  (sel false (page_addr a) =? sel false (page_addr b)) && (sel true (page_addr a) =? sel true (page_addr b)).

Definition tb_cmp (st : tb_state) (a b : Z) : bool :=
  match tbs st !! a, tbs st !! b with
  | Some a, Some b => same_block a b
  | _, _ => false
  end.

(** ** Lists of tagged pointers *)

Definition page_next_of (st : tb_state) (l : link) : option link := tb ← tbs st !! l.1; Some (sel l.2 (page_next tb)).
Definition jmp_next_of (st : tb_state) (l : link) : option link := tb ← tbs st !! l.1; Some (sel l.2 (jmp_list_next tb)).

(** A list has at most two entries for every block. *)
Definition list_fuel (st : tb_state) : nat := S (2 * size (tbs st)).

(** The loops that take an entry out of a list: where the pointer to it is
    stored ([None] is the head of the list), and the pointer behind it. *)
Fixpoint unlink_loop (next : link -> option link) (hit : link -> bool) (fuel : nat) (pprev : option link) (cur : link) :
    option (option link * link) :=
  match fuel with
  | O => None
  | S fuel =>
    if cur.1 =? 0 then None
    else
      nx ← next cur;
      if hit cur then Some (pprev, nx) else unlink_loop next hit fuel (Some cur) nx
  end.

Definition tb_page_remove (index t : Z) (st : tb_state) : option tb_state :=
  d ← page_find c (l1_map st) index;
  '(pprev, nx) ← unlink_loop (page_next_of st) (fun l => l.1 =? t) (list_fuel st) None (first_tb d);
  match pprev with
  | None => set_page index (with_first_tb nx) st
  | Some (t1, n1) => set_tb t1 (with_page_next n1 nx) st
  end.

Definition tb_page_add (index t : Z) (n : bool) (addr : Z) (st : tb_state) : option tb_state :=
  d ← page_find c (l1_map st) index;
  st ← set_tb t (fun tb => with_page_next n (first_tb d) (with_page_addr n addr tb)) st;
  st ← set_page index (fun d => invalidate_page_bitmap (with_first_tb (t, n) d)) st;
  Some (if (first_tb d).1 =? 0 then with_call (tlb_protect_code addr) st else st).

(** ** Jumps *)

Definition tb_set_jmp_target (t : Z) (n : bool) (addr : Z) (st : tb_state) : option tb_state := set_tb t (with_jmp_target n addr) st.

(** Patch the jump [n] of [t] to [tb_next]. *)
Definition tb_add_jump (t : Z) (n : bool) (t_next : Z) (st : tb_state) : option tb_state :=
  tb ← tbs st !! t;
  next ← tbs st !! t_next;
  if cf_set next CF_INVALID then Some st
  else if negb (bool_decide (sel n (jmp_dest tb) = null_link)) then Some st
  else
    st ← set_tb t (with_jmp_dest n (t_next, false)) st;
    st ← tb_set_jmp_target t n (tb_tc_ptr (code next)) st;
    next ← tbs st !! t_next;
    st ← set_tb t (with_jmp_list_next n (jmp_list_head next)) st;
    set_tb t_next (with_jmp_list_head (t, n)) st.

(** [orig] leaves the list of the block that its jump [n] leads to. *)
Definition tb_remove_from_jmp_list (orig : Z) (n : bool) (st : tb_state) : option tb_state :=
  tb ← tbs st !! orig;
  let dest := (sel n (jmp_dest tb)).1 in
  st ← set_tb orig (with_jmp_dest n (dest, true)) st;
  if dest =? 0 then Some st
  else
    d ← tbs st !! dest;
    '(pprev, nx) ← unlink_loop (jmp_next_of st) (fun l => (l.1 =? orig) && Bool.eqb l.2 n) (list_fuel st) None (jmp_list_head d);
    match pprev with
    | None => set_tb dest (with_jmp_list_head nx) st
    | Some (t1, n1) => set_tb t1 (with_jmp_list_next n1 nx) st
    end.

Definition tb_reset_jump (t : Z) (n : bool) (st : tb_state) : option tb_state :=
  tb ← tbs st !! t;
  tb_set_jmp_target t n (u64 (tb_tc_ptr (code tb) + sel n (jmp_reset_offset (code tb)))) st.

Fixpoint jmp_unlink_loop (fuel : nat) (cur : link) (st : tb_state) : option tb_state :=
  match fuel with
  | O => None
  | S fuel =>
    if cur.1 =? 0 then Some st
    else
      st ← tb_reset_jump cur.1 cur.2 st;
      st ← set_tb cur.1 (fun tb => with_jmp_dest cur.2 (0, (sel cur.2 (jmp_dest tb)).2) tb) st;
      nx ← jmp_next_of st cur;
      jmp_unlink_loop fuel nx st
  end.

Definition tb_jmp_unlink (dest : Z) (st : tb_state) : option tb_state :=
  d ← tbs st !! dest;
  st ← jmp_unlink_loop (list_fuel st) (jmp_list_head d) st;
  set_tb dest (with_jmp_list_head null_link) st.

(** ** Invalidation *)

(** [tb_page_remove] and [invalidate_page_bitmap] for a page of the block. *)
Definition leave_page (index t : Z) (st : tb_state) : option tb_state :=
  st ← tb_page_remove index t st; set_page index invalidate_page_bitmap st.

Definition leave_pages (t : Z) (st : tb_state) : option tb_state :=
  tb ← tbs st !! t;
  st ← leave_page (page_of (sel false (page_addr tb))) t st;
  if negb (sel true (page_addr tb) =? NO_PAGE) then leave_page (page_of (sel true (page_addr tb))) t st else Some st.

(** What follows once the block is out of the hash table. *)
Definition drop_block (t : Z) (rm_from_page_list : bool) (st : tb_state) : option tb_state :=
  tb ← tbs st !! t;
  st ← (if rm_from_page_list then leave_pages t st else Some st);
  let h := tb_jmp_cache_hash_func (tb_pc (code tb)) in
  let st := if tb_jmp_cache st h =? t then with_jmp_cache (upd h 0 (tb_jmp_cache st)) st else st in
  st ← tb_remove_from_jmp_list t false st;
  st ← tb_remove_from_jmp_list t true st;
  st ← tb_jmp_unlink t st;
  Some (with_count (tb_phys_invalidate_count st + 1) st).

Definition do_tb_phys_invalidate (t : Z) (rm_from_page_list : bool) (st : tb_state) : option tb_state :=
  st ← set_tb t (fun tb => with_cflags (Z.lor (tb_cflags tb) CF_INVALID) tb) st;
  tb ← tbs st !! t;
  let phys_pc := u64 (sel false (page_addr tb) + page_offset (tb_pc (code tb))) in
  if cf_set tb CF_NOCACHE then drop_block t rm_from_page_list st
  else
    '(ret, ht) ← ht_remove (htable st) t (hash_of tb phys_pc);
    if ret : bool then drop_block t rm_from_page_list (with_htable ht st) else Some st.

Definition tb_phys_invalidate (t addr : Z) (st : tb_state) : option tb_state :=
  tb ← tbs st !! t;
  do_tb_phys_invalidate t ((addr =? NO_PAGE) && negb (sel false (page_addr tb) =? NO_PAGE)) st.

(** The bytes of RAM that an entry of a page list stands for. *)
Definition tb_range (tb : TranslationBlock) (n : bool) : Z * Z :=
  if n then
    let tb_start := sel true (page_addr tb) in
    (tb_start, u64 (tb_start + page_offset (wrap L (tb_pc (code tb) + tb_size (code tb)))))
  else
    let tb_start := u64 (sel false (page_addr tb) + page_offset (tb_pc (code tb))) in
    (tb_start, u64 (tb_start + tb_size (code tb))).

Fixpoint invalidate_loop (fuel : nat) (cur : link) (first last : Z) (st : tb_state) : option tb_state :=
  match fuel with
  | O => None
  | S fuel =>
    if cur.1 =? 0 then Some st
    else
      tb ← tbs st !! cur.1;
      let '(tb_start, tb_end) := tb_range tb cur.2 in
      st ← (if negb ((tb_end <=? first) || (last <=? tb_start)) || (tb_start =? tb_end)
            then do_tb_phys_invalidate cur.1 true st else Some st);
      nx ← page_next_of st cur;
      invalidate_loop fuel nx first last st
  end.

Definition tb_invalidate_phys_page_range__locked (index first last : Z) (st : tb_state) : option tb_state :=
  d ← page_find c (l1_map st) index;
  st ← invalidate_loop (list_fuel st) (first_tb d) first last st;
  d ← page_find c (l1_map st) index;
  if (first_tb d).1 =? 0 then st ← set_page index invalidate_page_bitmap st; Some (with_call (tlb_unprotect_code first) st)
  else Some st.

Definition tb_invalidate_phys_page_range (first last : Z) (st : tb_state) : option tb_state :=
  match page_find c (l1_map st) (page_of first) with
  | None => Some st
  | Some _ => tb_invalidate_phys_page_range__locked (page_of first) first last st
  end.

Fixpoint phys_range_loop (fuel : nat) (first next last : Z) (st : tb_state) : option tb_state :=
  match fuel with
  | O => None
  | S fuel =>
    if sint 64 (last - first) <=? 0 then Some st
    else
      st ← match page_find c (l1_map st) (page_of first) with
           | None => Some st
           | Some _ => tb_invalidate_phys_page_range__locked (page_of first) first (Z.min next last) st
           end;
      phys_range_loop fuel next (u64 (next + TARGET_PAGE_SIZE)) last st
  end.

Definition tb_invalidate_phys_range (first last : Z) (st : tb_state) : option tb_state :=
  phys_range_loop (Z.to_nat ((last - first) / TARGET_PAGE_SIZE) + 3) first (u64 (page_start first + TARGET_PAGE_SIZE)) last st.

(** ** Writes to pages with code *)

Definition SMC_BITMAP_USE_THRESHOLD : Z := 10.

(** The bytes of its page that an entry of a page list stands for. *)
Definition bitmap_range (tb : TranslationBlock) (n : bool) : Z * Z :=
  if n then (0, page_offset (wrap L (tb_pc (code tb) + tb_size (code tb))))
  else
    let tb_start := page_offset (tb_pc (code tb)) in
    (tb_start, Z.min (tb_start + tb_size (code tb)) TARGET_PAGE_SIZE).

Fixpoint bitmap_loop (st : tb_state) (fuel : nat) (cur : link) (bm : bitmap) : option bitmap :=
  match fuel with
  | O => None
  | S fuel =>
    if cur.1 =? 0 then Some bm
    else
      tb ← tbs st !! cur.1;
      let '(tb_start, tb_end) := bitmap_range tb cur.2 in
      bm ← qemu_bitmap_set bm tb_start (tb_end - tb_start);
      bitmap_loop st fuel (sel cur.2 (page_next tb)) bm
  end.

Definition build_page_bitmap (index : Z) (st : tb_state) : option tb_state :=
  d ← page_find c (l1_map st) index;
  b ← bitmap_loop st (list_fuel st) (first_tb d) (bitmap_new TARGET_PAGE_SIZE);
  set_page index (fun d => mk_pd (first_tb d) (Some b) (code_write_count d)) st.

(** A write of [len] bytes at [start]. *)
Definition tb_invalidate_phys_page_fast (start len : Z) (st : tb_state) : option tb_state :=
  let index := page_of start in
  match page_find c (l1_map st) index with
  | None => Some st
  | Some d =>
    st ← match code_bitmap d with
         | Some _ => Some st
         | None =>
           let count := u32 (code_write_count d + 1) in
           st ← set_page index (fun d => mk_pd (first_tb d) (code_bitmap d) count) st;
           if SMC_BITMAP_USE_THRESHOLD <=? count then build_page_bitmap index st else Some st
         end;
    d ← page_find c (l1_map st) index;
    match code_bitmap d with
    | Some bm =>
      let nr := page_offset start in
      w ← word bm (BIT_WORD nr);
      let b := Z.shiftr w (Z.land nr (BITS_PER_LONG - 1)) in
      if negb (Z.land b (Z.shiftl 1 len - 1) =? 0)
      then tb_invalidate_phys_page_range__locked index start (u64 (start + len)) st
      else Some st
    | None => tb_invalidate_phys_page_range__locked index start (u64 (start + len)) st
    end
  end.

(** ** Linking *)

(** The block that is used: [t], or one that is there already. *)
Definition tb_link_page (t phys_pc phys_page2 : Z) (st : tb_state) : option (Z * tb_state) :=
  tb ← tbs st !! t;
  if phys_pc =? NO_PAGE then
    if cf_set tb CF_NOCACHE
    then st ← set_tb t (fun tb => with_page_addr false NO_PAGE (with_page_addr true NO_PAGE tb)) st; Some (t, st)
    else None
  else
    let p := page_of phys_pc in
    let p2 := page_of phys_page2 in
    let two := negb (phys_page2 =? NO_PAGE) in
    let m := page_alloc c (l1_map st) p in
    let st := with_l1 (if two && negb (p2 =? p) then page_alloc c m p2 else m) st in
    st ← tb_page_add p t false (page_start phys_pc) st;
    st ← (if two then tb_page_add p2 t true phys_page2 st else set_tb t (with_page_addr true NO_PAGE) st);
    tb ← tbs st !! t;
    if cf_set tb CF_NOCACHE then Some (t, st)
    else
      let h := hash_of tb phys_pc in
      st ← set_tb t (with_hash h) st;
      '(existing, ht) ← ht_insert (tb_cmp st) (htable st) t h;
      let st := with_htable ht st in
      match existing with
      | None => Some (t, st)
      | Some e =>
        st ← leave_page p t st;
        st ← (if two then leave_page p2 t st else Some st);
        Some (e, st)
      end.

(** *** A new block *)

(** The flags of a block that [tb_gen_code] makes, and its number of
    instructions at most. *)
Definition gen_cflags (cflags phys_pc cluster_index : Z) : Z :=
  let cflags := if phys_pc =? NO_PAGE then Z.lor cflags CF_NOCACHE else cflags in
  Z.lor (Z.ldiff cflags CF_CLUSTER_MASK) (u32 (Z.shiftl cluster_index CF_CLUSTER_SHIFT)).

Definition gen_max_insns (cflags : Z) (singlestep : bool) : Z :=
  let max_insns := Z.land cflags CF_COUNT_MASK in
  let max_insns := if max_insns =? 0 then CF_COUNT_MASK else max_insns in
  if singlestep then 1 else Z.min max_insns TCG_MAX_INSNS.

Definition reset_target (n : bool) (tb : TranslationBlock) : TranslationBlock :=
  if sel n (jmp_reset_offset (code tb)) =? TB_JMP_RESET_OFFSET_INVALID then tb
  else with_jmp_target n (u64 (tb_tc_ptr (code tb) + sel n (jmp_reset_offset (code tb)))) tb.

Definition init_jumps (tb : TranslationBlock) : TranslationBlock :=
  let tb := with_jmp_list_next true null_link (with_jmp_list_next false null_link (with_jmp_list_head null_link tb)) in
  reset_target true (reset_target false (with_jmp_dest true null_link (with_jmp_dest false null_link tb))).

(** [x & TARGET_PAGE_MASK] for a guest address *)
Definition virt_page (x : Z) : Z := x - page_offset x.

(** [tb_gen_code] from where the code of the block [tb] was generated at [t]: a
    block that is there already is used instead, and the memory is free. *)
Definition tb_gen_code_link (get_page_addr_code : Z -> Z) (t : Z) (tb : TranslationBlock) (st : tb_state) : option (Z * tb_state) :=
  let pc := tb_pc (code tb) in
  let phys_pc := get_page_addr_code pc in
  let tb := init_jumps tb in
  let virt_page2 := virt_page (wrap L (pc + tb_size (code tb) - 1)) in
  let phys_page2 := if negb (virt_page pc =? virt_page2) then get_page_addr_code virt_page2 else NO_PAGE in
  '(existing, st) ← tb_link_page t phys_pc phys_page2 (with_tbs (<[t := tb]> (tbs st)) st);
  Some (existing, if existing =? t then st else with_tbs (delete t (tbs st)) st).

(** [cpu_tb_jmp_cache_clear], [qht_reset_size], [page_flush_tb] and
    [tcg_region_reset_all], which gives up all blocks. *)
Definition tb_flush (st : tb_state) : option tb_state :=
  ht ← ht_reset (tb_cmp st) (htable st);
  Some (mk_state ∅ (page_flush_tb c (l1_map st)) ht (fun i => if (0 <=? i) && (i <? TB_JMP_CACHE_SIZE) then 0 else tb_jmp_cache st i)
    (tb_phys_invalidate_count st) (tlb_calls st)).

Definition tb_jmp_cache_clear_page (page : Z) (st : tb_state) : tb_state :=
  let i0 := tb_jmp_cache_hash_page page in
  with_jmp_cache (fun i => if (i0 <=? i) && (i <? i0 + TB_JMP_PAGE_SIZE) then 0 else tb_jmp_cache st i) st.

Definition tb_flush_jmp_cache (addr : Z) (st : tb_state) : tb_state :=
  tb_jmp_cache_clear_page addr (tb_jmp_cache_clear_page (wrap L (addr - TARGET_PAGE_SIZE)) st).

(** ** Lookup *)

(** [get_page_addr_code] gives the address of the RAM at a guest address. *)
Definition tb_lookup_cmp (get_page_addr_code : Z -> Z) (st : tb_state) (pc cs_base flags cf_mask phys_page1 dstate : Z) (t : Z) : bool :=
  match tbs st !! t with
  | None => false
  | Some tb =>
    (tb_pc (code tb) =? pc) && (sel false (page_addr tb) =? phys_page1) && (tb_cs_base (code tb) =? cs_base) &&
    (tb_flags (code tb) =? flags) && (tb_dstate (code tb) =? dstate) &&
    (Z.land (tb_cflags tb) (Z.lor CF_HASH_MASK CF_INVALID) =? cf_mask) &&
    ((sel true (page_addr tb) =? NO_PAGE) ||
     (sel true (page_addr tb) =? get_page_addr_code (wrap L (wrap L (pc - page_offset pc) + TARGET_PAGE_SIZE))))
  end.

Definition tb_htable_lookup (get_page_addr_code : Z -> Z) (st : tb_state) (pc cs_base flags cf_mask dstate : Z) : option Z :=
  let phys_pc := get_page_addr_code pc in
  if phys_pc =? NO_PAGE then None
  else
    ht_lookup (tb_lookup_cmp get_page_addr_code st pc cs_base flags cf_mask (page_start phys_pc) dstate) (htable st)
      (tb_hash_func phys_pc pc flags cf_mask dstate).

Definition cluster_mask (cf_mask cluster_index : Z) : Z :=
  Z.lor (Z.ldiff cf_mask CF_CLUSTER_MASK) (u32 (Z.shiftl cluster_index CF_CLUSTER_SHIFT)).

(** The block and the state with its entry in the jump cache. *)
Definition tb_lookup__cpu_state (get_page_addr_code : Z -> Z) (pc cs_base flags cf_mask cluster_index dstate : Z) (st : tb_state) : option Z * tb_state :=
  let hash := tb_jmp_cache_hash_func pc in
  let cf_mask := cluster_mask cf_mask cluster_index in
  let t := tb_jmp_cache st hash in
  let hit := match tbs st !! t with
             | Some tb =>
               negb (t =? 0) && (tb_pc (code tb) =? pc) && (tb_cs_base (code tb) =? cs_base) && (tb_flags (code tb) =? flags) &&
               (tb_dstate (code tb) =? dstate) && (Z.land (tb_cflags tb) (Z.lor CF_HASH_MASK CF_INVALID) =? cf_mask)
             | None => false
             end in
  if hit then (Some t, st)
  else
    match tb_htable_lookup get_page_addr_code st pc cs_base flags cf_mask dstate with
    | None => (None, st)
    | Some t => (Some t, with_jmp_cache (upd hash t (tb_jmp_cache st)) st)
    end.

(** Of the engine API: blocks at a range of guest addresses; [None] is a fault
    of [get_page_addr_code], which is ignored. *)
Definition uc_invalidate_tb (get_page_addr_code : Z -> option Z) (start_addr len : Z) (st : tb_state) : option tb_state :=
  match get_page_addr_code start_addr with
  | None => Some st
  | Some start =>
    let start := wrap L start in
    let last := wrap L (start + len) in
    if last <? start then Some st else tb_invalidate_phys_range start last st
  end.
End cache.
