(* ===== verification/TbLists.v ===== *)
(** * Lists of tagged pointers

    The lists of a page and of the jumps to a block run through fields of the
    blocks.  [linked next cur l]: following [next] from [cur] gives the entries
    [l] and then a null pointer. *)

From S2P Require Import Prelude SoftTlb QhtProofs TbPages TbCache.

Inductive linked (next : link -> option link) : link -> list link -> Prop :=
  | linked_nil n : linked next (0, n) []
  | linked_cons x nx l : x.1 <> 0 -> next x = Some nx -> linked next nx l -> linked next x (x :: l).

Lemma linked_fun next cur l l' : linked next cur l -> linked next cur l' -> l = l'.
Proof.
  intros H. revert l'. induction H as [n|x nx l Hx Hn _ IH]; intros l' H'; inversion H'; subst; try done.
  f_equal. apply IH. congruence.
Qed.

Lemma linked_frame next next' cur l : linked next cur l -> (forall z, z ∈ l -> next' z = next z) -> linked next' cur l.
Proof.
  induction 1 as [n|x nx l Hx Hn _ IH]; intros Hf; [constructor|]. econstructor; [done|rewrite Hf; [done|left]|].
  apply IH. intros z Hz. apply Hf. by right.
Qed.

Lemma linked_app next cur l1 x l2 : linked next cur (l1 ++ x :: l2) -> x.1 <> 0 /\ exists nx, next x = Some nx /\ linked next nx l2.
Proof.
  revert cur. induction l1 as [|y l1 IH]; intros cur H; inversion H; subst; [by split; [|eexists]|by eapply IH].
Qed.

(** Two stores that are the same as far as [f] shows. *)
Lemma same_lookup {B C} (f : B -> C) (m m' : gmap Z B) k x :
  f <$> m' = f <$> m -> m !! k = Some x -> exists x', m' !! k = Some x' /\ f x' = f x.
Proof.
  intros E Hx. apply (f_equal (lookup k)) in E. rewrite !lookup_fmap, Hx in E. cbn in E.
  apply fmap_Some in E as (x' & H1 & H2). by exists x'.
Qed.

Lemma same_insert {B C} (f : B -> C) (m : gmap Z B) k x y : m !! k = Some x -> f y = f x -> f <$> <[k := y]> m = f <$> m.
Proof. intros Hx E. rewrite fmap_insert, E. apply insert_id. by rewrite lookup_fmap, Hx. Qed.

Lemma same_trans {B C D} (g : C -> D) (f : B -> C) (m m' : gmap Z B) : f <$> m' = f <$> m -> (fun x => g (f x)) <$> m' = (fun x => g (f x)) <$> m.
Proof. intros E. rewrite !(map_fmap_compose f g). by rewrite E. Qed.

(** The loop finds the first entry that is hit. *)
Lemma unlink_ok next hit l1 x l2 : forall fuel pprev cur,
  linked next cur (l1 ++ x :: l2) -> (forall y, y ∈ l1 -> hit y = false) -> hit x = true -> (length l1 < fuel)%nat ->
  exists nx, next x = Some nx /\ linked next nx l2 /\
  unlink_loop next hit fuel pprev cur = Some (match last l1 with Some y => Some y | None => pprev end, nx).
Proof.
  induction l1 as [|y l1 IH]; intros [|fuel] pprev cur Hl Hno Hx Hf; simpl in Hf; try lia;
    inversion Hl as [|? nx ? H0 Hn Hl']; subst; cbn [unlink_loop]; rewrite (proj2 (Z.eqb_neq _ _)), Hn by done; cbn [mbind option_bind].
  - rewrite Hx. by exists nx.
  - rewrite Hno by left. destruct (IH fuel (Some y) nx) as (nx' & H1 & H2 & H3); [done| |done|lia|].
    { intros z Hz. apply Hno. by right. }
    exists nx'. split; [done|]. split; [done|]. rewrite H3. cbn [last]. destruct l1 as [|z l1]; [done|].
    cbn [last]. by destruct (last (z :: l1)) eqn:E; [|by apply last_None in E].
Qed.

(** An entry whose predecessor leads past it is out of the list. *)
Lemma linked_skip next next' y x l2 nx l1 : forall cur,
  linked next cur (l1 ++ y :: x :: l2) -> NoDup (l1 ++ y :: x :: l2) -> next x = Some nx -> next' y = Some nx ->
  (forall z, z <> y -> next' z = next z) -> linked next' cur (l1 ++ y :: l2).
Proof.
  induction l1 as [|z l1 IH]; intros cur Hl Hnd Hx Hy Hf; inversion Hl as [|? n1 ? H0 Hn Hl']; subst.
  - cbn [app]. econstructor; [done|done|]. inversion Hl' as [|? n2 ? H0' Hn' Hl2]; subst. rewrite Hx in Hn'. injection Hn' as <-.
    eapply linked_frame; [exact Hl2|]. intros z Hz. apply Hf. intros ->. apply NoDup_cons in Hnd as [Hnd _]. apply Hnd. by right.
  - cbn [app] in *. apply NoDup_cons in Hnd as [Hz Hnd]. econstructor; [done| |by eapply IH].
    rewrite Hf; [done|]. intros ->. apply Hz, elem_of_app. right. left.
Qed.

(** The pointer that the loop found is overwritten: a new head of the list, or
    a new pointer of the entry before. *)
Lemma linked_unlink next next' cur cur' l1 x l2 nx :
  linked next cur (l1 ++ x :: l2) -> NoDup (l1 ++ x :: l2) -> next x = Some nx ->
  match last l1 with
  | None => cur' = nx /\ forall z, next' z = next z
  | Some y => cur' = cur /\ next' y = Some nx /\ forall z, z <> y -> next' z = next z
  end -> linked next' cur' (l1 ++ l2).
Proof.
  intros Hl Hnd Hx H. destruct (last l1) as [y|] eqn:E.
  - apply last_Some in E as [l1' ->]. destruct H as (-> & Hy & Hf). rewrite <- app_assoc in *. cbn [app] in *. by eapply linked_skip.
  - apply last_None in E as ->. destruct H as (-> & Hf). cbn [app] in *. apply (linked_app _ _ []) in Hl as (_ & nx' & Hn & Hl).
    rewrite Hx in Hn. injection Hn as <-. eapply linked_frame; [exact Hl|]. intros z _. apply Hf.
Qed.

(** ** Fuel *)

Section fuel.
Context {T : Type} `{HashTable T}.
Implicit Types st : tb_state (T := T).

(** A list without repetition is shorter than twice the number of blocks. *)
Lemma list_fuel_ok st (l : list link) :
  NoDup l -> (forall x, x ∈ l -> is_Some (tbs st !! x.1)) -> (length l < list_fuel st)%nat.
Proof.
  intros Hnd Hin. unfold list_fuel.
  pose (all := (fun t => (t, false)) <$> elements (dom (tbs st)) : list link).
  pose (all' := (fun t => (t, true)) <$> elements (dom (tbs st)) : list link).
  assert (length l <= length (all ++ all'))%nat as Hle.
  { apply submseteq_length, NoDup_submseteq; [done|]. intros [t n] Hx. apply Hin in Hx. simpl in Hx.
    apply elem_of_dom, elem_of_elements in Hx. apply elem_of_app.
    destruct n; [right|left]; apply list_elem_of_fmap; by exists t. }
  unfold all, all' in Hle. rewrite length_app, !length_fmap in Hle.
  change (length (elements (dom (tbs st)))) with (size (dom (tbs st))) in Hle. rewrite size_dom in Hle. lia.
Qed.
End fuel.
