(* ===== verification/TbPageLists.v ===== *)
(** * The blocks of a page

    [pages_ok E st]: the list of every page has the entries of [E] whose address
    is on the page, each once.  Adding and removing a block change [E]. *)

From S2P Require Import Prelude SoftTlb QhtProofs TbPages TbCache TbLists.

Section pages.
Context {T : Type} `{HashTable T}.
Context (L P page_mask A : Z) (c : page_config) (Hc : page_table_config_init A P = Some c).
Implicit Types st : tb_state (T := T).

Abbreviation page_index := (TbPages.page_index A P).

(** ** What the operations on pages leave alone *)

(** A block but for the pointers of its page lists. *)
Definition no_next (tb : TranslationBlock) : TranslationBlock :=
  mk_tb (code tb) (tb_cflags tb) (null_link, null_link) (page_addr tb) (jmp_target tb) (jmp_list_head tb) (jmp_list_next tb) (jmp_dest tb) (tb_hash tb).

Record page_step st st' : Prop := {
  ps_tbs : no_next <$> tbs st' = no_next <$> tbs st;
  ps_htable : htable st' = htable st;
  ps_cache : tb_jmp_cache st' = tb_jmp_cache st
}.

#[export] Instance page_step_preorder : PreOrder page_step.
Proof.
  split; [done|]. intros a b d [A1 A2 A3] [B1 B2 B3]. split; congruence.
Qed.

Lemma no_next_eq tb tb' : no_next tb = no_next tb' ->
  code tb = code tb' /\ tb_cflags tb = tb_cflags tb' /\ page_addr tb = page_addr tb' /\ jmp_target tb = jmp_target tb' /\
  jmp_list_head tb = jmp_list_head tb' /\ jmp_list_next tb = jmp_list_next tb' /\ jmp_dest tb = jmp_dest tb' /\ tb_hash tb = tb_hash tb'.
Proof. unfold no_next. intros E. injection E as ? ? ? ? ? ? ? ?. done. Qed.

Lemma page_step_lookup st st' t tb : page_step st st' -> tbs st !! t = Some tb -> exists tb', tbs st' !! t = Some tb' /\ no_next tb' = no_next tb.
Proof.
  intros [E _ _] Ht. by apply (same_lookup no_next (tbs st)).
Qed.

Lemma page_step_back st st' t tb : page_step st st' -> tbs st' !! t = Some tb -> exists tb', tbs st !! t = Some tb' /\ no_next tb' = no_next tb.
Proof. intros [E E2 E3]. apply page_step_lookup. by split. Qed.

(** ** Page lists *)

(** The block [t] has an address on the page [i] in its field [n]. *)
Definition entry st (x : link) (i : Z) : Prop :=
  exists tb, tbs st !! x.1 = Some tb /\ sel x.2 (page_addr tb) <> NO_PAGE /\ page_of P (sel x.2 (page_addr tb)) = i.

Lemma entry_fun st x i j : entry st x i -> entry st x j -> i = j.
Proof. intros (a & A1 & _ & A2) (b & B1 & _ & B2). congruence. Qed.

Lemma entry_step st st' x i : page_step st st' -> entry st' x i <-> entry st x i.
Proof.
  intros Hs. split; intros (tb & H1 & H2 & H3).
  - destruct (page_step_back _ _ _ _ Hs H1) as (tb' & E & (_ & _ & Ea & _)%no_next_eq). exists tb'. by rewrite Ea.
  - destruct (page_step_lookup _ _ _ _ Hs H1) as (tb' & E & (_ & _ & Ea & _)%no_next_eq). exists tb'. by rewrite Ea.
Qed.

Definition page_list (E : link -> Prop) st (i : Z) (l : list link) : Prop :=
  linked (page_next_of st) (first_tb (page_at c (l1_map st) i)) l /\ NoDup l /\ forall x, x ∈ l <-> E x /\ entry st x i.

Record pages_ok (E : link -> Prop) st : Prop := {
  po_table : table_ok c (l1_map st);
  po_lists : forall i, page_index i -> exists l, page_list E st i l
}.

Lemma page_list_blocks E st i l x : page_list E st i l -> x ∈ l -> is_Some (tbs st !! x.1).
Proof. intros (_ & _ & Hl) Hx. apply Hl in Hx as (_ & tb & Ht & _). by rewrite Ht. Qed.

(** An entry shows that the page has a descriptor. *)
Lemma page_list_found E st i l x : page_list E st i l -> x ∈ l -> exists d, page_find c (l1_map st) i = Some d /\ page_at c (l1_map st) i = d.
Proof.
  intros (Hl & _) Hx. unfold page_at in *. destruct (page_find c (l1_map st) i) as [d|]; [by exists d|].
  cbn in Hl. inversion Hl; subst; [by apply elem_of_nil in Hx|done].
Qed.

(** ** Writing *)

Lemma set_tb_next st t tb n nx :
  tbs st !! t = Some tb ->
  let st' := with_tbs (<[t := with_page_next n nx tb]> (tbs st)) st in
  set_tb t (with_page_next n nx) st = Some st' /\ page_step st st' /\ l1_map st' = l1_map st /\
  page_next_of st' (t, n) = Some nx /\ (forall z, z <> (t, n) -> page_next_of st' z = page_next_of st z).
Proof.
  intros Ht st'. unfold set_tb. rewrite Ht. split; [done|]. split; [|split; [done|]; split].
  - split; [|done..]. simpl. by apply (same_insert no_next _ _ tb).
  - unfold page_next_of. simpl. rewrite lookup_insert_eq. cbn. f_equal. by destruct n.
  - intros [u m] Hz. unfold page_next_of. simpl. destruct (decide (u = t)) as [->|Hu]; [|by rewrite lookup_insert_ne].
    rewrite lookup_insert_eq, Ht. cbn. f_equal. by destruct n, m.
Qed.

Lemma set_page_ok st i f d :
  table_ok c (l1_map st) -> page_index i -> page_find c (l1_map st) i = Some d ->
  let st' := with_l1 (page_write c (l1_map st) i (f d)) st in
  set_page c i f st = Some st' /\ page_step st st' /\ table_ok c (l1_map st') /\ tbs st' = tbs st /\
  forall j, page_index j -> page_find c (l1_map st') j = if decide (j = i) then Some (f d) else page_find c (l1_map st) j.
Proof.
  intros Hm Hi Hd st'. unfold set_page. rewrite Hd. split; [done|]. split; [by split|].
  destruct (page_write_ok A P c Hc (l1_map st) i (f d) Hm Hi) as [H1 H2]; [by rewrite Hd|]. by split.
Qed.

Lemma page_next_tbs st st' : tbs st' = tbs st -> forall x, page_next_of st' x = page_next_of st x.
Proof. intros E x. unfold page_next_of. by rewrite E. Qed.

(** ** Removing a block *)

(** The page descriptors but for the head of the list of [i]. *)
Definition pages_same st st' (i : Z) : Prop :=
  forall j, page_index j ->
    (is_Some (page_find c (l1_map st') j) <-> is_Some (page_find c (l1_map st) j)) /\
    code_bitmap (page_at c (l1_map st') j) = code_bitmap (page_at c (l1_map st) j) /\
    (j <> i -> page_find c (l1_map st') j = page_find c (l1_map st) j).

Lemma page_remove_ok E st i t n l1 l2 :
  table_ok c (l1_map st) -> page_index i -> page_list E st i (l1 ++ (t, n) :: l2) -> (forall y, y ∈ l1 -> y.1 <> t) ->
  exists st', tb_page_remove c i t st = Some st' /\ page_step st st' /\ table_ok c (l1_map st') /\ pages_same st st' i /\
  linked (page_next_of st') (first_tb (page_at c (l1_map st') i)) (l1 ++ l2) /\
  forall x, x ∉ l1 -> page_next_of st' x = page_next_of st x.
Proof.
  intros Hm Hi Hpl Hfirst. pose proof Hpl as (Hl & Hnd & _).
  destruct (page_list_found _ _ _ _ (t, n) Hpl) as (d & Hd & Ed); [apply elem_of_app; right; left|].
  rewrite Ed in Hl. unfold tb_page_remove. rewrite Hd. cbn [mbind option_bind].
  pose proof (list_fuel_ok st _ Hnd (fun x => page_list_blocks _ _ _ _ x Hpl)) as Hfuel. rewrite length_app in Hfuel.
  destruct (unlink_ok (page_next_of st) (fun l => l.1 =? t) l1 (t, n) l2 (list_fuel st) None (first_tb d)) as (nx & Hx & Hl2 & ->);
    [done|intros y Hy; by apply Z.eqb_neq, Hfirst|apply Z.eqb_refl|lia|].
  cbn [mbind option_bind]. destruct (last l1) as [[t1 n1]|] eqn:El.
  - assert ((t1, n1) ∈ l1) as Hin by (apply last_Some in El as [? ->]; apply elem_of_app; right; left).
    destruct (page_list_blocks _ _ _ _ (t1, n1) Hpl) as [tb1 Htb1]; [apply elem_of_app; by left|]. simpl in Htb1.
    destruct (set_tb_next st t1 tb1 n1 nx Htb1) as (Es & Hs & Em & Hn1 & Hother). eexists. split; [exact Es|].
    set (st' := with_tbs _ _) in *. split; [done|]. rewrite Em. split; [done|]. split; [by intros j Hj; rewrite Em|].
    rewrite Ed. split; [|intros x Hx'; apply Hother; by intros ->].
    eapply (linked_unlink (page_next_of st) _ (first_tb d)); [done..|]. by rewrite El.
  - destruct (set_page_ok st i (with_first_tb nx) d Hm Hi Hd) as (Es & Hs & Hm' & Et & Hf). eexists. split; [exact Es|].
    set (st' := with_l1 _ _) in *. split; [done|]. split; [done|].
    assert (page_find c (l1_map st') i = Some (with_first_tb nx d)) as Hfi by (rewrite Hf by done; by rewrite decide_True).
    split; [|split].
    + intros j Hj. rewrite Hf by done. unfold page_at. rewrite Hf by done. destruct (decide (j = i)) as [->|Hj']; [|done].
      rewrite Hd. split; [|split; [done|done]]. split; intros _; by eexists.
    + unfold page_at. rewrite Hfi. cbn. apply last_None in El as ->. cbn [app].
      eapply linked_frame; [exact Hl2|]. intros z _. by apply page_next_tbs.
    + intros x _. by apply page_next_tbs.
Qed.

Lemma page_list_ext (E E' : link -> Prop) st i l :
  (forall x, entry st x i -> E x <-> E' x) -> page_list E st i l -> page_list E' st i l.
Proof.
  intros He (H1 & H2 & H3). split; [done|]. split; [done|]. intros x. rewrite H3. specialize (He x). tauto.
Qed.

Lemma pages_ok_ext (E E' : link -> Prop) st : (forall x i, entry st x i -> E x <-> E' x) -> pages_ok E st -> pages_ok E' st.
Proof.
  intros He [Ht Hl]. split; [done|]. intros i Hi. destruct (Hl i Hi) as [l H1]. exists l. eapply page_list_ext; [|done]. intros x. apply He.
Qed.

(** What [leave_page] does: the list of the page loses the entry, other lists
    stay, and behind the entry no pointer changes. *)
Record left_page (E : link -> Prop) st st' (i : Z) (x : link) (l1 l2 : list link) : Prop := {
  lp_step : page_step st st';
  lp_ok : pages_ok (fun y => E y /\ y <> x) st';
  lp_list : page_list (fun y => E y /\ y <> x) st' i (l1 ++ l2);
  lp_others : forall j l, page_index j -> j <> i -> page_list E st j l -> page_list (fun y => E y /\ y <> x) st' j l;
  lp_next : forall y, y ∉ l1 -> page_next_of st' y = page_next_of st y;
  lp_bitmap : forall j, page_index j -> code_bitmap (page_at c (l1_map st') j) = if decide (j = i) then None else code_bitmap (page_at c (l1_map st) j);
  lp_found : forall j, page_index j -> is_Some (page_find c (l1_map st') j) <-> is_Some (page_find c (l1_map st) j)
}.

Lemma leave_page_ok E st i t n l1 l2 :
  pages_ok E st -> page_index i -> page_list E st i (l1 ++ (t, n) :: l2) -> (forall y, y ∈ l1 -> y.1 <> t) ->
  exists st', leave_page c i t st = Some st' /\ left_page E st st' i (t, n) l1 l2.
Proof.
  intros [Hm Hlists] Hi Hpl Hfirst. pose proof Hpl as (_ & Hnd & Hin).
  destruct (page_remove_ok E st i t n l1 l2 Hm Hi Hpl Hfirst) as (st1 & E1 & Hs1 & Hm1 & Hsame & Hlink & Hnext).
  unfold leave_page. rewrite E1. cbn [mbind option_bind].
  destruct (page_list_found _ _ _ _ (t, n) Hpl) as (d & Hd & _); [apply elem_of_app; right; left|].
  destruct (proj2 (proj1 (Hsame i Hi))) as [d1 Hd1]; [by rewrite Hd|].
  destruct (set_page_ok st1 i invalidate_page_bitmap d1 Hm1 Hi Hd1) as (E2 & Hs2 & Hm2 & Et & Hf). rewrite E2.
  set (st2 := with_l1 _ _) in *. exists st2. split; [done|].
  assert (page_step st st2) as Hs by (by etrans).
  assert (forall y, page_next_of st2 y = page_next_of st1 y) as Hn2 by (by apply page_next_tbs).
  assert (page_list (fun y => E y /\ y <> (t, n)) st2 i (l1 ++ l2)) as Hlist.
  { split; [|split].
    - unfold page_at. rewrite Hf, decide_True by done. cbn. unfold page_at in Hlink. rewrite Hd1 in Hlink. cbn in Hlink.
      eapply linked_frame; [exact Hlink|]. intros z _. apply Hn2.
    - apply NoDup_app in Hnd as (N1 & N2 & N3). apply NoDup_cons in N3 as [_ N3]. apply NoDup_app. split; [done|]. split; [|done].
      intros y Hy Hy'. apply (N2 y Hy). by right.
    - intros y. rewrite (entry_step st st2) by done. specialize (Hin y). rewrite !elem_of_app, elem_of_cons in *.
      assert (y ∈ l1 \/ y ∈ l2 -> y <> (t, n)) as Hne.
      { intros [Hy|Hy] ->; [by apply (Hfirst _ Hy)|]. apply NoDup_app in Hnd as (_ & _ & Hnd). by apply NoDup_cons in Hnd as [? _]. }
      tauto. }
  assert (forall j l, page_index j -> j <> i -> page_list E st j l -> page_list (fun y => E y /\ y <> (t, n)) st2 j l) as Hothers.
  { intros j l Hj Hne (L1 & L2 & L3). split; [|split; [done|]].
    - unfold page_at. rewrite Hf, decide_False by done. destruct (Hsame j Hj) as (_ & _ & ->); [|done]. fold (page_at c (l1_map st) j).
      eapply linked_frame; [exact L1|]. intros z Hz. rewrite Hn2. apply Hnext. intros Hz1.
      apply L3 in Hz as [_ Hz]. assert (z ∈ l1 ++ (t, n) :: l2) as [_ Hz']%Hin by (apply elem_of_app; by left). by eapply Hne, entry_fun.
    - intros y. rewrite L3, (entry_step st st2) by done. assert (entry st y j -> y <> (t, n)) as Hy; [|tauto].
      intros He ->. assert ((t, n) ∈ l1 ++ (t, n) :: l2) as [_ Hz']%Hin by (apply elem_of_app; right; left). by eapply Hne, entry_fun. }
  split; [done| |done|done|intros y Hy; rewrite Hn2; by apply Hnext| |].
  - split; [done|]. intros j Hj. destruct (decide (j = i)) as [->|Hne]; [by eexists|].
    destruct (Hlists j Hj) as [l Hjl]. exists l. by apply Hothers.
  - intros j Hj. unfold page_at at 1. rewrite Hf by done. destruct (decide (j = i)) as [->|Hne]; [done|].
    apply Hsame; done.
  - intros j Hj. rewrite Hf by done. destruct (decide (j = i)) as [->|Hne]; [|by apply Hsame].
    rewrite <- (proj1 (Hsame i Hi)), Hd1. by split; intros _; eexists.
Qed.

Lemma split_unique {B} (x : B) l1 l2 : forall l1' l2', NoDup (l1 ++ x :: l2) -> l1 ++ x :: l2 = l1' ++ x :: l2' -> l1 = l1' /\ l2 = l2'.
Proof.
  induction l1 as [|y l1 IH]; intros [|y' l1'] l2' Hnd E; cbn in *; simplify_eq; [done| | |].
  - apply NoDup_cons in Hnd as [[] _]. apply elem_of_app. right. left.
  - apply NoDup_cons in Hnd as [[] _]. apply elem_of_app. right. left.
  - apply NoDup_cons in Hnd as [_ Hnd]. destruct (IH l1' l2' Hnd) as [-> ->]; done.
Qed.

(** ** A block leaves its pages *)

Definition of_set (R : gset Z) (x : link) : Prop := x.1 ∈ R.

(** Its pages are pages of the address space, and two different ones. *)
Definition placed (tb : TranslationBlock) : Prop :=
  sel false (page_addr tb) <> NO_PAGE /\ page_index (page_of P (sel false (page_addr tb))) /\
  (sel true (page_addr tb) <> NO_PAGE ->
   page_index (page_of P (sel true (page_addr tb))) /\ page_of P (sel true (page_addr tb)) <> page_of P (sel false (page_addr tb))).

Record left_pages (R : gset Z) st st' (t : Z) : Prop := {
  ls_step : page_step st st';
  ls_ok : pages_ok (of_set (R ∖ {[t]})) st';
  ls_at : forall i l1 n l2, page_index i -> page_list (of_set R) st i (l1 ++ (t, n) :: l2) ->
    page_list (of_set (R ∖ {[t]})) st' i (l1 ++ l2) /\ forall y, y ∈ (t, n) :: l2 -> page_next_of st' y = page_next_of st y;
  ls_others : forall i l, page_index i -> page_list (of_set R) st i l -> (forall n, (t, n) ∉ l) -> page_list (of_set (R ∖ {[t]})) st' i l;
  ls_bitmap : forall j b, page_index j -> code_bitmap (page_at c (l1_map st') j) = Some b -> code_bitmap (page_at c (l1_map st) j) = Some b;
  ls_found : forall j, page_index j -> is_Some (page_find c (l1_map st') j) <-> is_Some (page_find c (l1_map st) j)
}.

(** The entry of a block is in one place of one list. *)
Lemma entry_split E st t n tb :
  pages_ok E st -> tbs st !! t = Some tb -> E (t, n) -> sel n (page_addr tb) <> NO_PAGE -> page_index (page_of P (sel n (page_addr tb))) ->
  exists l1 l2, page_list E st (page_of P (sel n (page_addr tb))) (l1 ++ (t, n) :: l2).
Proof.
  intros [_ Hl] Ht HE Hno Hi. destruct (Hl _ Hi) as [l Hpl]. pose proof Hpl as (_ & _ & Hin).
  assert ((t, n) ∈ l) as [l1 [l2 ->]]%list_elem_of_split; [|by exists l1, l2]. apply Hin. split; [done|]. by exists tb.
Qed.

Lemma entry_of_block st t n tb i : tbs st !! t = Some tb -> entry st (t, n) i -> sel n (page_addr tb) <> NO_PAGE /\ i = page_of P (sel n (page_addr tb)).
Proof. intros Ht (tb' & Ht' & H1 & H2). simpl in *. rewrite Ht in Ht'. injection Ht' as <-. done. Qed.

Lemma page_list_unique E st i l l' : page_list E st i l -> page_list E st i l' -> l = l'.
Proof. intros (H1 & _) (H2 & _). by eapply linked_fun. Qed.

(** Before and behind an entry of a placed block there is no other of it. *)
Lemma one_entry E st t n tb i l1 l2 :
  tbs st !! t = Some tb -> placed tb -> page_list E st i (l1 ++ (t, n) :: l2) -> forall y, y ∈ l1 ++ l2 -> y.1 <> t.
Proof.
  intros Ht (P0 & P1 & P2) (_ & Hnd & Hin) [u m] Hy Eu. simpl in Eu. subst u.
  assert ((t, m) ∈ l1 ++ (t, n) :: l2) as [_ Hm]%Hin by (rewrite elem_of_app, elem_of_cons in *; tauto).
  assert ((t, n) ∈ l1 ++ (t, n) :: l2) as [_ Hn]%Hin by (apply elem_of_app; right; left).
  apply (entry_of_block _ _ _ tb) in Hm as [M1 M2], Hn as [N1 N2]; [|done..].
  destruct (decide (m = n)) as [->|Hne].
  - apply NoDup_app in Hnd as (_ & D1 & D2). apply NoDup_cons in D2 as [D2 _]. apply elem_of_app in Hy as [Hy|Hy]; [|done].
    apply (D1 _ Hy). left.
  - destruct m, n; try done; destruct (P2 ltac:(done)) as [_ P3]; congruence.
Qed.

(** Where the list of a page has an entry of the block. *)
Lemma entry_place E st t tb n i l1 l2 :
  tbs st !! t = Some tb -> page_list E st i (l1 ++ (t, n) :: l2) ->
  entry st (t, n) i /\ sel n (page_addr tb) <> NO_PAGE /\ i = page_of P (sel n (page_addr tb)).
Proof.
  intros Ht (_ & _ & Hin). assert ((t, n) ∈ l1 ++ (t, n) :: l2) as [_ Hen]%Hin by (apply elem_of_app; right; left).
  split; [done|]. by apply (entry_of_block st t n tb i).
Qed.

(** A part of the list of one page is not in that of another. *)
Lemma lists_apart E E' st st' i j l l' y :
  page_step st st' -> page_list E st i l -> page_list E' st' j l' -> i <> j -> y ∈ l -> y ∉ l'.
Proof.
  intros Hs (_ & _ & Hi) (_ & _ & Hj) Hne Hy Hy'. apply Hi in Hy as [_ Hy]. apply Hj in Hy' as [_ Hy'].
  rewrite (entry_step st st') in Hy' by done. by eapply Hne, entry_fun.
Qed.

(** The entries behind a block's own are not before it. *)
Lemma behind_not_before E st t n i l1 l2 y : page_list E st i (l1 ++ (t, n) :: l2) -> y ∈ (t, n) :: l2 -> y ∉ l1.
Proof. intros (_ & Hnd & _) Hy Hy'. apply NoDup_app in Hnd as (_ & Hnd & _). by apply (Hnd y). Qed.

Lemma leave_one_page R st t tb :
  pages_ok (of_set R) st -> tbs st !! t = Some tb -> t ∈ R -> placed tb -> sel true (page_addr tb) = NO_PAGE ->
  exists st', leave_page c (page_of P (sel false (page_addr tb))) t st = Some st' /\ left_pages R st st' t.
Proof.
  intros Hok Ht HR Hpl Hno. pose proof Hpl as (P0 & P1 & _).
  destruct (entry_split _ st t false tb Hok Ht HR P0 P1) as (l1 & l2 & Hl).
  destruct (leave_page_ok _ st _ t false l1 l2 Hok P1 Hl) as (st1 & E1 & Q1).
  { intros y Hy. apply (one_entry _ _ _ _ _ _ _ _ Ht Hpl Hl). apply elem_of_app. by left. }
  exists st1. split; [done|]. destruct Q1 as [Q1 Q2 Q3 Q4 Q5 Q6 Q7].
  assert (forall y i, entry st1 y i -> of_set R y /\ y <> (t, false) <-> of_set (R ∖ {[t]}) y) as Heq.
  { intros [u m] i He. rewrite (entry_step st st1) in He by done. unfold of_set. simpl. rewrite elem_of_difference, elem_of_singleton.
    split; [intros [Hu Hne]; split; [done|]; intros ->|intros [Hu Hne]; split; [done|congruence]].
    destruct m; [|done]. by apply (entry_of_block _ _ _ tb) in He as [? _]. }
  split; [done|by apply (pages_ok_ext _ _ _ Heq)| | | |done].
  - intros i l1' n l2' Hi Hpl'. destruct (entry_place _ _ _ _ _ _ _ _ Ht Hpl') as (_ & N1 & ->). destruct n; [done|].
    destruct (split_unique (t, false) l1 l2 l1' l2' (proj1 (proj2 Hl)) (page_list_unique _ _ _ _ _ Hl Hpl')) as [<- <-].
    split; [eapply page_list_ext; [|exact Q3]; intros y; apply Heq|]. intros y Hy. apply Q5. by eapply behind_not_before.
  - intros i l Hi Hpl' Hnot. destruct (decide (i = page_of P (sel false (page_addr tb)))) as [->|Hne].
    + destruct (Hnot false). rewrite <- (page_list_unique _ _ _ _ _ Hl Hpl'). apply elem_of_app. right. left.
    + eapply page_list_ext; [|by apply Q4]. intros y. apply Heq.
  - intros j b Hj. rewrite Q6 by done. by destruct (decide _).
Qed.

Lemma leave_two_pages R st t tb :
  pages_ok (of_set R) st -> tbs st !! t = Some tb -> t ∈ R -> placed tb -> sel true (page_addr tb) <> NO_PAGE ->
  exists st1 st2, leave_page c (page_of P (sel false (page_addr tb))) t st = Some st1 /\
  leave_page c (page_of P (sel true (page_addr tb))) t st1 = Some st2 /\ left_pages R st st2 t.
Proof.
  intros Hok Ht HR Hpl Hyes. pose proof Hpl as (P0 & P1 & P2). destruct (P2 Hyes) as [P3 P4].
  set (i0 := page_of P (sel false (page_addr tb))) in *. set (i1 := page_of P (sel true (page_addr tb))) in *.
  destruct (entry_split _ st t false tb Hok Ht HR P0 P1) as (l1 & l2 & Hl). fold i0 in Hl.
  destruct (leave_page_ok _ st i0 t false l1 l2 Hok P1 Hl) as (st1 & E1 & [Q1 Q2 Q3 Q4 Q5 Q6 Q7]).
  { intros y Hy. apply (one_entry _ _ _ _ _ _ _ _ Ht Hpl Hl). apply elem_of_app. by left. }
  destruct (entry_split _ st t true tb Hok Ht HR Hyes P3) as (l3 & l4 & Hl'). fold i1 in Hl'.
  pose proof (Q4 i1 _ P3 P4 Hl') as Hl1.
  destruct (leave_page_ok _ st1 i1 t true l3 l4 Q2 P3 Hl1) as (st2 & E2 & [S1 S2 S3 S4 S5 S6 S7]).
  { intros y Hy. apply (one_entry _ _ _ _ _ _ _ _ Ht Hpl Hl'). apply elem_of_app. by left. }
  exists st1, st2. split; [done|]. split; [done|].
  assert (page_step st st2) as Hs by (by etrans).
  assert (forall y i, entry st2 y i -> (of_set R y /\ y <> (t, false)) /\ y <> (t, true) <-> of_set (R ∖ {[t]}) y) as Heq.
  { intros [u m] i He. unfold of_set. simpl. rewrite elem_of_difference, elem_of_singleton.
    split; [intros [[Hu H1] H2]; split; [done|]; intros ->; by destruct m|intros [Hu Hne]; split; [split; [done|]|]; congruence]. }
  split; [done|by apply (pages_ok_ext _ _ _ Heq)| | | |].
  - intros i l1' n l2' Hi Hpl'. destruct (entry_place _ _ _ _ _ _ _ _ Ht Hpl') as (_ & N1 & ->). destruct n.
    + fold i1 in Hpl' |- *. destruct (split_unique (t, true) l3 l4 l1' l2' (proj1 (proj2 Hl')) (page_list_unique _ _ _ _ _ Hl' Hpl')) as [<- <-].
      split; [eapply page_list_ext; [|exact S3]; intros y; apply Heq|]. intros y Hy.
      rewrite S5 by (by eapply behind_not_before). apply Q5. intros Hy'.
      eapply (lists_apart _ _ st st i1 i0); [done|exact Hl'|exact Hl|done| |apply elem_of_app; by left]. apply elem_of_app. by right.
    + fold i0 in Hpl' |- *. destruct (split_unique (t, false) l1 l2 l1' l2' (proj1 (proj2 Hl)) (page_list_unique _ _ _ _ _ Hl Hpl')) as [<- <-].
      split; [eapply page_list_ext; [|apply (S4 i0); [done|by apply not_eq_sym|exact Q3]]; intros y; apply Heq|]. intros y Hy.
      rewrite S5; [apply Q5; by eapply behind_not_before|]. intros Hy'.
      eapply (lists_apart _ _ st st i0 i1); [done|exact Hl|exact Hl'|by apply not_eq_sym| |apply elem_of_app; by left]. apply elem_of_app. by right.
  - intros i l Hi Hpl' Hnot. destruct (decide (i = i0)) as [->|Hne0].
    { destruct (Hnot false). rewrite <- (page_list_unique _ _ _ _ _ Hl Hpl'). apply elem_of_app. right. left. }
    destruct (decide (i = i1)) as [->|Hne1].
    { destruct (Hnot true). rewrite <- (page_list_unique _ _ _ _ _ Hl' Hpl'). apply elem_of_app. right. left. }
    eapply page_list_ext; [|apply (S4 i); [done|done|by apply Q4]]. intros y. apply Heq.
  - intros j b Hj. rewrite S6 by done. destruct (decide _); [done|]. rewrite Q6 by done. by destruct (decide _).
  - intros j Hj. by rewrite S7, Q7.
Qed.

Lemma leave_pages_ok R st t tb :
  pages_ok (of_set R) st -> tbs st !! t = Some tb -> t ∈ R -> placed tb ->
  exists st', leave_pages P c t st = Some st' /\ left_pages R st st' t.
Proof.
  intros Hok Ht HR Hpl. unfold leave_pages. rewrite Ht. cbn [mbind option_bind].
  destruct (Z.eqb_spec (sel true (page_addr tb)) NO_PAGE) as [Hno|Hyes]; cbn [negb].
  - destruct (leave_one_page R st t tb) as (st' & -> & Hl); [done..|]. by exists st'.
  - destruct (leave_two_pages R st t tb) as (st1 & st2 & -> & E2 & Hl); [done..|]. exists st2. by split.
Qed.

(** ** A block is added to a page *)

Definition block_added (tb : TranslationBlock) (n : bool) (addr : Z) (head : link) : TranslationBlock :=
  with_page_next n head (with_page_addr n addr tb).

Lemma sel_put {B} (n m : bool) (x : B) p : sel m (put n x p) = if Bool.eqb n m then x else sel m p.
Proof. by destruct n, m. Qed.

Lemma page_add_ok E st i t n tb addr d :
  pages_ok E st -> page_index i -> page_find c (l1_map st) i = Some d -> tbs st !! t = Some tb -> t <> 0 -> ~ E (t, n) ->
  addr <> NO_PAGE -> page_of P addr = i ->
  exists st', tb_page_add c i t n addr st = Some st' /\
  tbs st' = <[t := block_added tb n addr (first_tb d)]> (tbs st) /\ htable st' = htable st /\ tb_jmp_cache st' = tb_jmp_cache st /\
  pages_ok (fun x => E x \/ x = (t, n)) st' /\
  (forall j, page_index j -> code_bitmap (page_at c (l1_map st') j) = if decide (j = i) then None else code_bitmap (page_at c (l1_map st) j)) /\
  (forall j, page_index j -> is_Some (page_find c (l1_map st') j) <-> is_Some (page_find c (l1_map st) j)).
Proof.
  intros [Hm Hlists] Hi Hd Ht H0 HnE Hno Ep. unfold tb_page_add. rewrite Hd. cbn [mbind option_bind].
  unfold set_tb. rewrite Ht. cbn [mbind option_bind]. fold (block_added tb n addr (first_tb d)).
  set (st1 := with_tbs (<[t := block_added tb n addr (first_tb d)]> (tbs st)) st).
  destruct (set_page_ok st1 i (fun d => invalidate_page_bitmap (with_first_tb (t, n) d)) d Hm Hi Hd) as (E2 & _ & Hm2 & Et & Hf).
  rewrite E2. cbn [mbind option_bind]. set (st2 := with_l1 _ _) in *.
  assert (exists st3, (if (first_tb d).1 =? 0 then with_call (tlb_protect_code addr) st2 else st2) = st3 /\
    tbs st3 = tbs st1 /\ l1_map st3 = l1_map st2 /\ htable st3 = htable st /\ tb_jmp_cache st3 = tb_jmp_cache st) as (st3 & -> & E3 & E4 & E5 & E6).
  { destruct (_ =? 0); by eexists. }
  exists st3. split; [done|]. split; [done|]. split; [done|]. split; [done|].
  assert (forall x, x <> (t, n) -> page_next_of st3 x = page_next_of st x) as Hnext.
  { intros [u m] Hne. unfold page_next_of. rewrite E3. simpl. destruct (decide (u = t)) as [->|Hu]; [|by rewrite lookup_insert_ne].
    rewrite lookup_insert_eq, Ht. cbn. rewrite sel_put. destruct (Bool.eqb n m) eqn:Eb; [|done]. apply eqb_prop in Eb. congruence. }
  assert (forall x j, x <> (t, n) -> entry st3 x j <-> entry st x j) as Hent.
  { intros [u m] j Hne. unfold entry. rewrite E3. simpl. destruct (decide (u = t)) as [->|Hu]; [|by rewrite lookup_insert_ne].
    rewrite lookup_insert_eq, Ht. assert (sel m (page_addr (block_added tb n addr (first_tb d))) = sel m (page_addr tb)) as Em.
    { cbn. rewrite sel_put. destruct (Bool.eqb n m) eqn:Eb; [|done]. apply eqb_prop in Eb. congruence. }
    split; intros (tb' & [= <-] & ?); eexists; (split; [done|]); [by rewrite Em in *|by rewrite Em]. }
  assert (entry st3 (t, n) i) as Hmine.
  { eexists. rewrite E3. simpl. rewrite lookup_insert_eq. split; [done|]. cbn. rewrite sel_put. by rewrite eqb_reflx. }
  assert (page_next_of st3 (t, n) = Some (first_tb d)) as Hn.
  { unfold page_next_of. rewrite E3. simpl. rewrite lookup_insert_eq. cbn. by rewrite sel_put, eqb_reflx. }
  split; [|rewrite E4; split; intros j Hj; unfold page_at; rewrite Hf by done; destruct (decide (j = i)) as [->|Hj']; try done].
  - split; [by rewrite E4|]. intros j Hj. destruct (Hlists j Hj) as (l & L1 & L2 & L3).
    assert ((t, n) ∉ l) as Hnot by (by intros [? _]%L3).
    assert (linked (page_next_of st3) (first_tb (page_at c (l1_map st) j)) l) as Hl.
    { eapply linked_frame; [exact L1|]. intros z Hz. apply Hnext. congruence. }
    destruct (decide (j = i)) as [->|Hne].
    + exists ((t, n) :: l). split; [|split; [by constructor|]].
      * unfold page_at. rewrite E4, Hf, decide_True by done. cbn. econstructor; [done|exact Hn|]. unfold page_at in Hl. by rewrite Hd in Hl.
      * intros x. rewrite elem_of_cons, L3. destruct (decide (x = (t, n))) as [->|Hx]; [tauto|]. rewrite (Hent x i Hx). tauto.
    + exists l. split; [|split; [done|]].
      * unfold page_at. rewrite E4, Hf, decide_False by done. done.
      * intros x. rewrite L3. destruct (decide (x = (t, n))) as [->|Hx]; [|rewrite (Hent x j Hx); tauto].
        split; [tauto|]. intros [_ He]. destruct Hne. by eapply entry_fun.
Qed.
End pages.
