(* ===== verification/TbJumps.v ===== *)
(** * The jumps between blocks

    [jumps_ok st]: the list of every block has the jumps that lead to it, each
    once, and every jump that is not marked leads where its [jmp_dest] says.
    Patching, unlinking and resetting jumps keep it. *)

From S2P Require Import Prelude SoftTlb QhtProofs TbPages TbCache TbLists.

Section jumps.
Context {T : Type} `{HashTable T}.
Implicit Types st : tb_state (T := T).

(** A block but for its jumps. *)
Definition no_jmp (tb : TranslationBlock) : TranslationBlock :=
  mk_tb (code tb) (tb_cflags tb) (page_next tb) (page_addr tb) (0, 0) null_link (null_link, null_link) (null_link, null_link) (tb_hash tb).

Record jump_step st st' : Prop := {
  js_tbs : no_jmp <$> tbs st' = no_jmp <$> tbs st;
  js_l1 : l1_map st' = l1_map st;
  js_htable : htable st' = htable st;
  js_cache : tb_jmp_cache st' = tb_jmp_cache st
}.

#[export] Instance jump_step_preorder : PreOrder jump_step.
Proof. split; [done|]. intros a b d [A1 A2 A3 A4] [B1 B2 B3 B4]. split; congruence. Qed.

Lemma no_jmp_eq tb tb' : no_jmp tb = no_jmp tb' ->
  code tb = code tb' /\ tb_cflags tb = tb_cflags tb' /\ page_next tb = page_next tb' /\ page_addr tb = page_addr tb' /\ tb_hash tb = tb_hash tb'.
Proof. unfold no_jmp. intros E. injection E as ? ? ? ? ?. done. Qed.

Lemma jump_step_lookup st st' t tb : jump_step st st' -> tbs st !! t = Some tb -> exists tb', tbs st' !! t = Some tb' /\ no_jmp tb' = no_jmp tb.
Proof.
  intros [E _ _ _] Ht. by apply (same_lookup no_jmp (tbs st)).
Qed.

Lemma jump_step_back st st' t tb : jump_step st st' -> tbs st' !! t = Some tb -> exists tb', tbs st !! t = Some tb' /\ no_jmp tb' = no_jmp tb.
Proof. intros [E1 E2 E3 E4]. apply jump_step_lookup. by split. Qed.

(** A write to a jump field of one block. *)
Lemma set_jmp_step st t f tb :
  tbs st !! t = Some tb -> no_jmp (f tb) = no_jmp tb ->
  set_tb t f st = Some (with_tbs (<[t := f tb]> (tbs st)) st) /\ jump_step st (with_tbs (<[t := f tb]> (tbs st)) st).
Proof.
  intros Ht Hf. unfold set_tb. rewrite Ht. split; [done|]. split; [|done..]. simpl. by apply (same_insert no_jmp _ _ tb).
Qed.

(** ** The invariant *)

(** The jump [x] leads to the block [d]. *)
Definition jumps st (x : link) (d : Z) : Prop := exists tb, tbs st !! x.1 = Some tb /\ sel x.2 (jmp_dest tb) = (d, false).

Definition jmp_list st (d : Z) (l : list link) : Prop :=
  exists dtb, tbs st !! d = Some dtb /\ linked (jmp_next_of st) (jmp_list_head dtb) l /\ NoDup l /\ forall x, x ∈ l <-> jumps st x d.

Definition reset_addr (tb : TranslationBlock) (n : bool) : Z := u64 (tb_tc_ptr (code tb) + sel n (jmp_reset_offset (code tb))).

(** Where the code of a block goes. *)
Definition target_ok st (tb : TranslationBlock) (n : bool) : Prop :=
  match sel n (jmp_dest tb) with
  | (d, false) =>
    if d =? 0 then sel n (jmp_reset_offset (code tb)) <> TB_JMP_RESET_OFFSET_INVALID -> sel n (jmp_target tb) = reset_addr tb n
    else exists dtb, tbs st !! d = Some dtb /\ sel n (jmp_target tb) = tb_tc_ptr (code dtb)
  | (_, true) => True
  end.

Record jumps_ok st : Prop := {
  jo_null : tbs st !! 0 = None;
  jo_lists : forall d dtb, tbs st !! d = Some dtb -> exists l, jmp_list st d l;
  jo_targets : forall t tb n, tbs st !! t = Some tb -> target_ok st tb n
}.

Lemma jumps_fun st x d e : jumps st x d -> jumps st x e -> d = e.
Proof. intros (a & A1 & A2) (b & B1 & B2). congruence. Qed.

Lemma jmp_list_blocks st d l x : jmp_list st d l -> x ∈ l -> is_Some (tbs st !! x.1).
Proof. intros (dtb & _ & _ & _ & Hl) Hx. apply Hl in Hx as (tb & Ht & _). by rewrite Ht. Qed.

(** The fields that the lists are made of. *)
Lemma jmp_next_insert st t tb tb' z :
  tbs st !! t = Some tb -> jmp_next_of (with_tbs (<[t := tb']> (tbs st)) st) z =
  if z.1 =? t then Some (sel z.2 (jmp_list_next tb')) else jmp_next_of st z.
Proof.
  intros Ht. unfold jmp_next_of. simpl. destruct (Z.eqb_spec z.1 t) as [->|Hz]; [by rewrite lookup_insert_eq|by rewrite lookup_insert_ne].
Qed.

(** ** A jump leaves the list of its destination *)

(** A pointer that leads past an entry is written: the head of the list of [d]
    or a field of the entry before. *)
Definition unlink_write st (d : Z) (pprev : option link) (nx : link) : option tb_state :=
  match pprev with
  | None => set_tb d (with_jmp_list_head nx) st
  | Some (t1, n1) => set_tb t1 (with_jmp_list_next n1 nx) st
  end.

(** It changes this pointer only. *)
Lemma unlink_write_ok st d dtb pprev nx :
  tbs st !! d = Some dtb -> (forall x, pprev = Some x -> is_Some (tbs st !! x.1)) ->
  exists st', unlink_write st d pprev nx = Some st' /\ jump_step st st' /\
  (forall u tb, tbs st !! u = Some tb -> exists tb', tbs st' !! u = Some tb' /\ jmp_dest tb' = jmp_dest tb /\ jmp_target tb' = jmp_target tb /\
     jmp_list_head tb' = (if bool_decide (pprev = None) && (u =? d) then nx else jmp_list_head tb)) /\
  match pprev with
  | None => forall z, jmp_next_of st' z = jmp_next_of st z
  | Some y => jmp_next_of st' y = Some nx /\ forall z, z <> y -> jmp_next_of st' z = jmp_next_of st z
  end.
Proof.
  intros Hd Hp. unfold unlink_write. destruct pprev as [[t1 n1]|].
  - destruct (Hp _ eq_refl) as [tb1 Ht1]. simpl in Ht1.
    destruct (set_jmp_step st t1 (with_jmp_list_next n1 nx) tb1 Ht1) as [Es Hs]; [done|]. eexists. split; [exact Es|]. split; [done|]. split.
    + intros u tb Hu. simpl. destruct (decide (u = t1)) as [->|Hne]; [rewrite lookup_insert_eq|rewrite lookup_insert_ne by done].
      * rewrite Ht1 in Hu. injection Hu as <-. by eexists.
      * by exists tb.
    + rewrite (jmp_next_insert st t1 tb1) by done. simpl. rewrite Z.eqb_refl. split; [cbn; by destruct n1|].
      intros [u m] Hz. rewrite (jmp_next_insert st t1 tb1) by done. simpl. destruct (Z.eqb_spec u t1) as [->|]; [|done].
      unfold jmp_next_of. simpl. rewrite Ht1. cbn. by destruct n1, m.
  - destruct (set_jmp_step st d (with_jmp_list_head nx) dtb Hd) as [Es Hs]; [done|]. eexists. split; [exact Es|]. split; [done|]. split.
    + intros u tb Hu. simpl. destruct (Z.eqb_spec u d) as [->|Hne]; [rewrite lookup_insert_eq|rewrite lookup_insert_ne by done].
      * rewrite Hd in Hu. injection Hu as <-. by eexists.
      * by exists tb.
    + intros z. rewrite (jmp_next_insert st d dtb) by done. destruct (Z.eqb_spec z.1 d) as [E|]; [|done].
      unfold jmp_next_of. by rewrite E, Hd.
Qed.

(** Jumps after a step that changes the destination of [x] only. *)
Lemma jumps_marked st st' x dest :
  jump_step st st' ->
  (forall u tb, tbs st !! u = Some tb -> exists tb', tbs st' !! u = Some tb' /\
     forall m, sel m (jmp_dest tb') = if decide ((u, m) = x) then (dest, true) else sel m (jmp_dest tb)) ->
  forall y d, jumps st' y d <-> jumps st y d /\ y <> x.
Proof.
  intros Hs Hb [u m] d. split.
  - intros (tb' & Hu & Hd). simpl in *. destruct (jump_step_back _ _ _ _ Hs Hu) as (tb & Ht & _).
    destruct (Hb u tb Ht) as (tb2 & Hu2 & Hsel). rewrite Hu in Hu2. injection Hu2 as <-. rewrite Hsel in Hd.
    destruct (decide _); [done|]. split; [by exists tb|done].
  - intros ((tb & Ht & Hd) & Hne). simpl in *. destruct (Hb u tb Ht) as (tb' & Hu & Hsel). exists tb'. split; [done|].
    simpl. by rewrite Hsel, decide_False.
Qed.

(** The targets do not depend on the lists. *)
Lemma target_ok_step st st' tb tb' n :
  jump_step st st' -> code tb' = code tb -> sel n (jmp_dest tb') = sel n (jmp_dest tb) -> sel n (jmp_target tb') = sel n (jmp_target tb) ->
  target_ok st tb n -> target_ok st' tb' n.
Proof.
  intros Hs Ec Ed Et. unfold target_ok, reset_addr. rewrite Ec, Ed, Et. destruct (sel n (jmp_dest tb)) as [d []]; [done|].
  destruct (d =? 0); [done|]. intros (dtb & Hd & E). destruct (jump_step_lookup _ _ _ _ Hs Hd) as (dtb' & Hd' & (Ec' & _)%no_jmp_eq).
  exists dtb'. by rewrite Ec'.
Qed.

(** Marking the jump [n] of [t]. *)
Record marked st st' (t : Z) (n : bool) (dest : Z) : Prop := {
  mk_step : jump_step st st';
  mk_blocks : forall u b, tbs st !! u = Some b -> exists b', tbs st' !! u = Some b' /\ jmp_list_head b' = jmp_list_head b /\
    jmp_target b' = jmp_target b /\ forall m, sel m (jmp_dest b') = if decide ((u, m) = (t, n)) then (dest, true) else sel m (jmp_dest b);
  mk_next : forall z, jmp_next_of st' z = jmp_next_of st z
}.

Lemma mark_ok st t n tb dest : tbs st !! t = Some tb ->
  exists st', set_tb t (with_jmp_dest n (dest, true)) st = Some st' /\ marked st st' t n dest.
Proof.
  intros Ht. destruct (set_jmp_step st t (with_jmp_dest n (dest, true)) tb Ht) as [-> Hs1]; [done|]. eexists. split; [done|].
  split; [done| |].
  - intros u b Hu. simpl. destruct (decide (u = t)) as [->|Hne]; [rewrite lookup_insert_eq|rewrite lookup_insert_ne by done].
    + rewrite Ht in Hu. injection Hu as <-. eexists. repeat (split; [done|]). intros m. cbn.
      destruct n, m; cbn; first [by rewrite decide_True|by rewrite decide_False by congruence].
    + exists b. repeat (split; [done|]). intros m. rewrite decide_False; [done|congruence].
  - intros z. rewrite (jmp_next_insert st t tb) by done. destruct (Z.eqb_spec z.1 t) as [E|]; [|done].
    unfold jmp_next_of. by rewrite E, Ht.
Qed.

(** What holds after the mark and a write to a list. *)
Lemma marked_rest st st1 st2 t n tb dest :
  jumps_ok st -> tbs st !! t = Some tb -> marked st st1 t n dest -> jump_step st1 st2 ->
  (forall u b, tbs st1 !! u = Some b -> exists b', tbs st2 !! u = Some b' /\ jmp_dest b' = jmp_dest b /\ jmp_target b' = jmp_target b) ->
  tbs st2 !! 0 = None /\ (forall u b m, tbs st2 !! u = Some b -> target_ok st2 b m) /\
  (forall y d, jumps st2 y d <-> jumps st y d /\ y <> (t, n)) /\
  (forall u m b b', (u, m) <> (t, n) -> tbs st !! u = Some b -> tbs st2 !! u = Some b' -> sel m (jmp_dest b') = sel m (jmp_dest b)).
Proof.
  intros [Hnull _ Htargets] Ht [Hs1 H1 _] Hs2 H2. assert (jump_step st st2) as Hs by (by etrans).
  assert (forall u b, tbs st !! u = Some b -> exists b', tbs st2 !! u = Some b' /\ jmp_target b' = jmp_target b /\
    forall m, sel m (jmp_dest b') = if decide ((u, m) = (t, n)) then (dest, true) else sel m (jmp_dest b)) as H12.
  { intros u b Hu. destruct (H1 u b Hu) as (b1 & Hu1 & _ & Et1 & Hd1). destruct (H2 u b1 Hu1) as (b2 & Hu2 & Ed2 & Et2).
    exists b2. split; [done|]. split; [congruence|]. intros m. by rewrite Ed2. }
  split; [|split; [|split]].
  - destruct (tbs st2 !! 0) as [b|] eqn:E; [|done]. destruct (jump_step_back _ _ _ _ Hs E) as (b' & E' & _). congruence.
  - intros u b m Hu. destruct (jump_step_back _ _ _ _ Hs Hu) as (b0 & Hu0 & (Ec & _)%no_jmp_eq).
    destruct (H12 u b0 Hu0) as (b2 & Hu2 & Et & Ed). rewrite Hu in Hu2. injection Hu2 as <-.
    destruct (decide ((u, m) = (t, n))) as [Heq|Hne].
    + unfold target_ok. by rewrite Ed, decide_True.
    + apply (target_ok_step st st2 b0); [done|done| |by rewrite Et|by apply (Htargets u)]. by rewrite Ed, decide_False.
  - apply (jumps_marked st st2 _ dest Hs). intros u b Hu. destruct (H12 u b Hu) as (b' & ? & _ & ?). by exists b'.
  - intros u m b b' Hne Hu Hu2. destruct (H12 u b Hu) as (b2 & Hu2' & _ & Ed). rewrite Hu2 in Hu2'. injection Hu2' as <-.
    by rewrite Ed, decide_False.
Qed.

(** A list that the jump is not in is not touched. *)
Lemma jmp_list_kept st st' d l (x : link) dtb' :
  jmp_list st d l -> tbs st' !! d = Some dtb' -> (forall dtb, tbs st !! d = Some dtb -> jmp_list_head dtb' = jmp_list_head dtb) ->
  (forall z, z ∈ l -> jmp_next_of st' z = jmp_next_of st z) -> (forall y, jumps st' y d <-> jumps st y d /\ y <> x) -> ~ jumps st x d ->
  jmp_list st' d l.
Proof.
  intros (dtb & Hd & Hl & Hnd & Hin) Hd' Hh Hn Hj Hx. exists dtb'. split; [done|]. rewrite (Hh dtb Hd).
  split; [by eapply linked_frame|]. split; [done|]. intros y. rewrite Hin, Hj. split; [|tauto]. intros Hy. split; [done|]. by intros ->.
Qed.

(** Every list after the mark and the write, for a jump that leads to [dest]. *)
Lemma marked_lists st st1 st2 t n dest l1 l2 dtb nx :
  jumps_ok st -> marked st st1 t n dest -> tbs st !! dest = Some dtb -> jmp_list st dest (l1 ++ (t, n) :: l2) ->
  jmp_next_of st (t, n) = Some nx -> jump_step st st2 ->
  (forall u b, tbs st1 !! u = Some b -> exists b', tbs st2 !! u = Some b' /\
     jmp_list_head b' = (if bool_decide (last l1 = None) && (u =? dest) then nx else jmp_list_head b)) ->
  match last l1 with
  | None => forall z, jmp_next_of st2 z = jmp_next_of st1 z
  | Some y => jmp_next_of st2 y = Some nx /\ forall z, z <> y -> jmp_next_of st2 z = jmp_next_of st1 z
  end ->
  (forall y d, jumps st2 y d <-> jumps st y d /\ y <> (t, n)) ->
  forall d b, tbs st2 !! d = Some b -> exists l, jmp_list st2 d l.
Proof.
  intros [_ Hlists _] [_ H1 Hn1] Hd Hjl Hnx Hs Hh Hn Hj d b Hb. destruct (jump_step_back _ _ _ _ Hs Hb) as (b0 & Hb0 & _).
  destruct (H1 _ _ Hb0) as (b1 & Hb1 & Eh1 & _). destruct (Hh _ _ Hb1) as (b2 & Hb2 & Eh2). rewrite Hb in Hb2. injection Hb2 as <-.
  pose proof Hjl as (dtb' & Hd' & Hl & Hnd & Hin). rewrite Hd in Hd'. injection Hd' as <-.
  assert ((t, n) ∈ l1 ++ (t, n) :: l2) as Hmine by (apply elem_of_app; right; left).
  destruct (decide (d = dest)) as [->|Hne].
  - exists (l1 ++ l2), b. split; [done|]. rewrite Hd in Hb0. injection Hb0 as <-. split; [|split].
    + eapply (linked_unlink (jmp_next_of st)); [exact Hl|done|done|]. rewrite Eh2, Z.eqb_refl, andb_true_r.
      destruct (last l1) as [y|]; cbn.
      * destruct Hn as [A1 A2]. split; [done|]. split; [done|]. intros z Hz. by rewrite A2, Hn1.
      * split; [done|]. intros z. by rewrite Hn, Hn1.
    + apply NoDup_app in Hnd as (N1 & N2 & N3). apply NoDup_cons in N3 as [_ N3]. apply NoDup_app. split; [done|]. split; [|done].
      intros y Hy Hy'. apply (N2 y Hy). by right.
    + intros y. rewrite Hj, <- Hin, !elem_of_app, elem_of_cons.
      assert (y ∈ l1 \/ y ∈ l2 -> y <> (t, n)); [|tauto]. apply NoDup_app in Hnd as (N1 & N2 & N3). apply NoDup_cons in N3 as [N3 _].
      intros [Hy|Hy] ->; [apply (N2 _ Hy); left|done].
  - destruct (Hlists d b0 Hb0) as [l Hdl]. exists l. apply (jmp_list_kept st st2 d l (t, n) b); [done|done| | |by intros y; apply Hj|].
    + intros b' Hb'. rewrite Hb0 in Hb'. injection Hb' as <-. apply Z.eqb_neq in Hne. by rewrite Eh2, Hne, andb_false_r.
    + intros z Hz. destruct (last l1) as [y|] eqn:El; [|by rewrite Hn, Hn1]. destruct Hn as [_ A2]. rewrite A2, Hn1; [done|].
      intros ->. destruct Hdl as (_ & _ & _ & _ & Hdin). apply Hne. apply (jumps_fun st y); [by apply Hdin|].
      apply Hin, elem_of_app. left. apply last_Some in El as [? ->]. apply elem_of_app. right. left.
    + intros Hjd. apply Hne. apply (jumps_fun st (t, n)); [done|by apply Hin].
Qed.

(** What [tb_remove_from_jmp_list] does. *)
Record jump_removed st st' (t : Z) (n : bool) : Prop := {
  jr_step : jump_step st st';
  jr_ok : jumps_ok st';
  jr_jumps : forall y d, jumps st' y d <-> jumps st y d /\ y <> (t, n);
  jr_other : forall u m b b', (u, m) <> (t, n) -> tbs st !! u = Some b -> tbs st' !! u = Some b' -> sel m (jmp_dest b') = sel m (jmp_dest b)
}.

Lemma jmp_remove_ok st t n tb :
  jumps_ok st -> tbs st !! t = Some tb -> (sel n (jmp_dest tb)).2 = false ->
  exists st', tb_remove_from_jmp_list t n st = Some st' /\ jump_removed st st' t n.
Proof.
  intros Hok Ht Hm. unfold tb_remove_from_jmp_list. rewrite Ht. cbn [mbind option_bind].
  destruct (sel n (jmp_dest tb)) as [dest m] eqn:Edest. simpl in Hm. subst m. cbn [fst].
  destruct (mark_ok st t n tb dest Ht) as (st1 & -> & Hmk). cbn [mbind option_bind]. pose proof Hmk as [Hs1 H1 Hn1].
  destruct (Z.eqb_spec dest 0) as [->|Hd0].
  - exists st1. split; [done|].
    destruct (marked_rest st st1 st1 t n tb 0 Hok Ht Hmk) as (R1 & R2 & R3 & R4); [done|by intros u b Hu; exists b|].
    split; [done| |done|done]. split; [done| |done].
    intros d b Hb. destruct (jump_step_back _ _ _ _ Hs1 Hb) as (b0 & Hb0 & _). destruct (jo_lists st Hok d b0 Hb0) as [l Hl].
    exists l. apply (jmp_list_kept st st1 d l (t, n) b); [done|done| |by intros z _; apply Hn1|by intros y; apply R3|].
    + intros b' Hb'. destruct (H1 d b' Hb') as (b2 & Hb2 & Eh & _). congruence.
    + intros (tb' & Htb' & E'). simpl in *. assert (d = 0) as -> by congruence. by rewrite (jo_null st Hok) in Hb0.
  - pose proof (jo_targets st Hok t tb n Ht) as Htgt. unfold target_ok in Htgt. rewrite Edest in Htgt.
    rewrite (proj2 (Z.eqb_neq dest 0) Hd0) in Htgt. destruct Htgt as (dtb & Hdtb & _).
    destruct (jo_lists st Hok dest dtb Hdtb) as [l Hjl]. pose proof Hjl as (dtb' & Hd' & Hl & Hnd & Hin).
    rewrite Hdtb in Hd'. injection Hd' as <-.
    assert ((t, n) ∈ l) as [l1 [l2 ->]]%list_elem_of_split by (apply Hin; by exists tb).
    destruct (H1 dest dtb Hdtb) as (d1 & Hd1 & Eh1 & _). rewrite Hd1. cbn [mbind option_bind].
    assert (jump_step st st1) as Hst1 by done.
    assert (length (l1 ++ (t, n) :: l2) < list_fuel st1)%nat as Hfuel.
    { apply list_fuel_ok; [done|]. intros x Hx. destruct (jmp_list_blocks _ _ _ _ Hjl Hx) as [xb Hxb].
      destruct (H1 _ _ Hxb) as (xb' & Hxb' & _). by eexists. }
    rewrite length_app in Hfuel.
    destruct (unlink_ok (jmp_next_of st1) (fun l => (l.1 =? t) && Bool.eqb l.2 n) l1 (t, n) l2 (list_fuel st1) None (jmp_list_head d1))
      as (nx & Hx & Hl2 & ->).
    { rewrite Eh1. eapply linked_frame; [exact Hl|]. intros z _. apply Hn1. }
    { intros [u m] Hy. simpl. destruct (Z.eqb_spec u t) as [->|]; [|done]. destruct (Bool.eqb m n) eqn:Eb; [|done].
      apply eqb_prop in Eb as ->. apply NoDup_app in Hnd as (_ & N2 & _). destruct (N2 _ Hy). left. }
    { simpl. by rewrite Z.eqb_refl, eqb_reflx. }
    { lia. }
    cbn [mbind option_bind]. replace (match last l1 with Some y => Some y | None => None end) with (last l1) by (by destruct (last l1)).
    destruct (unlink_write_ok st1 dest d1 (last l1) nx Hd1) as (st2 & E2 & Hs2 & Hb2 & Hw).
    { intros x Hl1. assert (x ∈ l1 ++ (t, n) :: l2) as Hx1
        by (apply elem_of_app; left; apply last_Some in Hl1 as [? ->]; apply elem_of_app; right; left).
      destruct (jmp_list_blocks _ _ _ _ Hjl Hx1) as [xb Hxb]. destruct (H1 _ _ Hxb) as (xb' & Hxb' & _). by eexists. }
    exists st2. split; [exact E2|]. assert (jump_step st st2) as Hs by (by etrans).
    destruct (marked_rest st st1 st2 t n tb dest Hok Ht Hmk Hs2) as (R1 & R2 & R3 & R4).
    { intros u b Hu. destruct (Hb2 u b Hu) as (b' & ? & ? & ? & _). by exists b'. }
    split; [done| |done|done]. split; [done| |done].
    apply (marked_lists st st1 st2 t n dest l1 l2 dtb nx); try done.
    + by rewrite <- Hn1.
    + intros u b Hu. destruct (Hb2 u b Hu) as (b' & ? & _ & _ & ?). by exists b'.
Qed.

(** ** The jumps to a block are reset *)

(** The jumps in [X] lead nowhere any more; nothing else changes. *)
Record jumps_reset st st' (X : list link) : Prop := {
  jz_step : jump_step st st';
  jz_blocks : forall u b, tbs st !! u = Some b -> exists b', tbs st' !! u = Some b' /\ jmp_list_head b' = jmp_list_head b /\
    (forall m, sel m (jmp_dest b') = if decide ((u, m) ∈ X) then (0, (sel m (jmp_dest b)).2) else sel m (jmp_dest b)) /\
    (forall m, sel m (jmp_target b') = if decide ((u, m) ∈ X) then reset_addr b m else sel m (jmp_target b));
  jz_next : forall z, jmp_next_of st' z = jmp_next_of st z
}.

Lemma sel_put_eq {B} n (x : B) p : sel n (put n x p) = x.
Proof. by destruct n. Qed.

Lemma sel_put_ne {B} n m (x : B) p : m <> n -> sel m (put n x p) = sel m p.
Proof. by destruct n, m. Qed.

(** The body of the loop. *)
Lemma reset_one st t n tb :
  tbs st !! t = Some tb ->
  exists st1 st', tb_reset_jump t n st = Some st1 /\ set_tb t (fun tb => with_jmp_dest n (0, (sel n (jmp_dest tb)).2) tb) st1 = Some st' /\
  jumps_reset st st' [(t, n)].
Proof.
  intros Ht. unfold tb_reset_jump, tb_set_jmp_target, set_tb. rewrite Ht. cbn [mbind option_bind]. eexists _, _. split; [done|].
  simpl. rewrite lookup_insert_eq. cbn [mbind option_bind]. split; [done|]. rewrite insert_insert_eq.
  split; [split; [|done..]| |]; simpl.
  - by apply (same_insert no_jmp _ _ tb).
  - intros u b Hu. destruct (decide (u = t)) as [->|Hne].
    + rewrite Ht in Hu. injection Hu as <-. rewrite lookup_insert_eq. eexists. split; [done|]. split; [done|]. split; intros m; cbn.
      * destruct (decide (m = n)) as [->|Hm]; [by rewrite sel_put_eq, decide_True by left|].
        rewrite sel_put_ne, decide_False; [done| |done]. rewrite list_elem_of_singleton. congruence.
      * destruct (decide (m = n)) as [->|Hm]; [by rewrite sel_put_eq, decide_True by left|].
        rewrite sel_put_ne, decide_False; [done| |done]. rewrite list_elem_of_singleton. congruence.
    + rewrite lookup_insert_ne by done. exists b. do 2 (split; [done|]).
      split; intros m; (rewrite decide_False; [done|]); rewrite list_elem_of_singleton; congruence.
  - intros z. unfold jmp_next_of. simpl. destruct (decide (z.1 = t)) as [->|Hz]; [by rewrite lookup_insert_eq, Ht|by rewrite lookup_insert_ne].
Qed.

Lemma jumps_reset_trans st st1 st2 x X : jumps_reset st st1 [x] -> jumps_reset st1 st2 X -> jumps_reset st st2 (x :: X).
Proof.
  intros [A1 A2 A3] [B1 B2 B3]. split; [by etrans| |intros z; by rewrite B3].
  intros u b Hu. destruct (A2 u b Hu) as (b1 & Hu1 & Eh1 & Ed1 & Et1). destruct (B2 u b1 Hu1) as (b2 & Hu2 & Eh2 & Ed2 & Et2).
  destruct (jump_step_lookup _ _ _ _ A1 Hu) as (b1' & Hu1' & (Ec & _)%no_jmp_eq). rewrite Hu1 in Hu1'. injection Hu1' as <-.
  exists b2. split; [done|]. split; [congruence|]. split; intros m.
  - rewrite Ed2, Ed1. destruct (decide ((u, m) ∈ X)) as [Hin|Hin]; [rewrite (decide_True (P := (u, m) ∈ x :: X)) by (by right); by destruct (decide _)|].
    destruct (decide ((u, m) ∈ [x])) as [->%list_elem_of_singleton|Hx]; [by rewrite decide_True by left|].
    rewrite decide_False; [done|]. rewrite elem_of_cons. rewrite list_elem_of_singleton in Hx. tauto.
  - rewrite Et2, Et1. unfold reset_addr. rewrite Ec.
    destruct (decide ((u, m) ∈ X)) as [Hin|Hin]; [by rewrite (decide_True (P := (u, m) ∈ x :: X)) by (by right)|].
    destruct (decide ((u, m) ∈ [x])) as [->%list_elem_of_singleton|Hx]; [by rewrite decide_True by left|].
    rewrite decide_False; [done|]. rewrite elem_of_cons. rewrite list_elem_of_singleton in Hx. tauto.
Qed.

Lemma jmp_unlink_loop_ok l : forall fuel cur st,
  linked (jmp_next_of st) cur l -> (length l < fuel)%nat -> (forall x, x ∈ l -> is_Some (tbs st !! x.1)) ->
  exists st', jmp_unlink_loop fuel cur st = Some st' /\ jumps_reset st st' l.
Proof.
  induction l as [|x l IH]; intros [|fuel] cur st Hl Hf Hb; simpl in Hf; try lia;
    inversion Hl as [|? nx ? H0 Hn Hl']; subst; cbn [jmp_unlink_loop].
  - exists st. simpl. split; [done|]. split; [done| |done]. intros u b Hu. exists b. do 2 (split; [done|]). split; intros m; by rewrite decide_False by apply not_elem_of_nil.
  - rewrite (proj2 (Z.eqb_neq _ _)) by done. destruct (Hb x) as [tb Ht]; [left|].
    destruct (reset_one st x.1 x.2 tb Ht) as (st1 & st2 & -> & E2 & Hr). cbn [mbind option_bind]. rewrite E2. cbn [mbind option_bind].
    rewrite (jz_next _ _ _ Hr), Hn. cbn [mbind option_bind]. destruct (IH fuel nx st2) as (st' & -> & Hr').
    + eapply linked_frame; [exact Hl'|]. intros z _. apply Hr.
    + lia.
    + intros y Hy. destruct (Hb y) as [yb Hyb]; [by right|]. destruct (jump_step_lookup _ _ _ _ (jz_step _ _ _ Hr) Hyb) as (? & -> & _). done.
    + exists st'. split; [done|]. destruct x as [u m]. by eapply jumps_reset_trans.
Qed.

(** What [tb_jmp_unlink] does: the code of a block that led to [t] leads to its
    own exit. *)
Record jumps_unlinked st st' (t : Z) : Prop := {
  ju_step : jump_step st st';
  ju_ok : jumps_ok st';
  ju_jumps : forall y d, d <> 0 -> jumps st' y d <-> jumps st y d /\ d <> t;
  ju_reset : forall y, jumps st y t -> jumps st' y 0;
  ju_marks : forall u m b b', tbs st !! u = Some b -> tbs st' !! u = Some b' -> (sel m (jmp_dest b')).2 = (sel m (jmp_dest b)).2
}.

Lemma jmp_unlink_ok st t tb : jumps_ok st -> tbs st !! t = Some tb ->
  exists st', tb_jmp_unlink t st = Some st' /\ jumps_unlinked st st' t.
Proof.
  intros Hok Ht. unfold tb_jmp_unlink. rewrite Ht. cbn [mbind option_bind].
  destruct (jo_lists st Hok t tb Ht) as (l & Hjl). pose proof Hjl as (tb' & Ht' & Hl & Hnd & Hin). rewrite Ht in Ht'. injection Ht' as <-.
  destruct (jmp_unlink_loop_ok l (list_fuel st) (jmp_list_head tb) st Hl) as (st1 & -> & [Hs1 H1 Hn1]).
  { apply list_fuel_ok; [done|]. intros x. apply jmp_list_blocks with t. done. }
  { intros x. apply jmp_list_blocks with t. done. }
  cbn [mbind option_bind]. destruct (H1 t tb Ht) as (tb1 & Ht1 & _).
  destruct (set_jmp_step st1 t (with_jmp_list_head null_link) tb1 Ht1) as [-> Hs2]; [done|]. eexists. split; [done|].
  set (st2 := with_tbs _ _) in *. assert (jump_step st st2) as Hs by (by etrans).
  assert (forall u b, tbs st !! u = Some b -> exists b', tbs st2 !! u = Some b' /\ jmp_list_head b' = (if u =? t then null_link else jmp_list_head b) /\
    (forall m, sel m (jmp_dest b') = if decide ((u, m) ∈ l) then (0, false) else sel m (jmp_dest b)) /\
    (forall m, sel m (jmp_target b') = if decide ((u, m) ∈ l) then reset_addr b m else sel m (jmp_target b))) as H2.
  { intros u b Hu. destruct (H1 u b Hu) as (b1 & Hu1 & Eh & Ed & Et). unfold st2. simpl.
    assert (forall m, sel m (jmp_dest b1) = if decide ((u, m) ∈ l) then (0, false) else sel m (jmp_dest b)) as Ed'.
    { intros m. rewrite Ed. destruct (decide _) as [Hx|]; [|done]. apply Hin in Hx as (bx & Hbx & Ex). simpl in *. rewrite Hu in Hbx. injection Hbx as <-. by rewrite Ex. }
    destruct (Z.eqb_spec u t) as [->|Hne].
    - rewrite lookup_insert_eq. rewrite Ht1 in Hu1. injection Hu1 as <-. by eexists.
    - rewrite lookup_insert_ne by done. by exists b1. }
  assert (forall z, jmp_next_of st2 z = jmp_next_of st z) as Hn2.
  { intros z. unfold st2. rewrite (jmp_next_insert st1 t tb1) by done. destruct (Z.eqb_spec z.1 t) as [E|]; [|apply Hn1].
    rewrite <- Hn1. unfold jmp_next_of. by rewrite E, Ht1. }
  assert (forall y d, d <> 0 -> jumps st2 y d <-> jumps st y d /\ d <> t) as Hj.
  { intros [u m] d Hd. split.
    - intros (b2 & Hb2 & Ed). simpl in *. destruct (jump_step_back _ _ _ _ Hs Hb2) as (b & Hb & _). destruct (H2 u b Hb) as (b2' & Hb2' & _ & Ed2 & _).
      rewrite Hb2 in Hb2'. injection Hb2' as <-. rewrite Ed2 in Ed. destruct (decide _) as [Hx|Hx]; [congruence|].
      assert (jumps st (u, m) d) as Hjd by (by exists b). split; [done|]. intros ->. by apply Hx, Hin.
    - intros [(b & Hb & Ed) Hdt]. simpl in *. destruct (H2 u b Hb) as (b2 & Hb2 & _ & Ed2 & _). exists b2. split; [done|]. simpl. rewrite Ed2, decide_False; [done|].
      intros Hx%Hin. apply Hdt. apply (jumps_fun st (u, m)); [by exists b|done]. }
  split; [done| |done| |].
  - split.
    + destruct (tbs st2 !! 0) as [b|] eqn:E; [|done]. destruct (jump_step_back _ _ _ _ Hs E) as (b' & E' & _). by rewrite (jo_null st Hok) in E'.
    + intros d b Hb. destruct (jump_step_back _ _ _ _ Hs Hb) as (b0 & Hb0 & _). destruct (H2 d b0 Hb0) as (b2 & Hb2 & Eh & _).
      rewrite Hb in Hb2. injection Hb2 as <-. assert (d <> 0) as Hd0 by (intros ->; by rewrite (jo_null st Hok) in Hb0).
      destruct (Z.eqb_spec d t) as [->|Hne].
      * exists [], b. split; [done|]. rewrite Eh. split; [constructor|]. split; [constructor|]. intros y. rewrite Hj by done. split; [by intros ?%elem_of_nil|tauto].
      * destruct (jo_lists st Hok d b0 Hb0) as (ld & b0' & Hb0' & Hld & Hndd & Hind). rewrite Hb0 in Hb0'. injection Hb0' as <-.
        exists ld, b. split; [done|]. rewrite Eh. split; [eapply linked_frame; [exact Hld|by intros z _; apply Hn2]|]. split; [done|].
        intros y. rewrite Hind, Hj by done. tauto.
    + intros u b m Hb. destruct (jump_step_back _ _ _ _ Hs Hb) as (b0 & Hb0 & (Ec & _)%no_jmp_eq). destruct (H2 u b0 Hb0) as (b2 & Hb2 & _ & Ed & Et).
      rewrite Hb in Hb2. injection Hb2 as <-. specialize (Ed m). specialize (Et m). destruct (decide ((u, m) ∈ l)) as [Hx|Hx].
      * unfold target_ok. rewrite Ed. simpl. intros _. rewrite Et. unfold reset_addr. by rewrite Ec.
      * by apply (target_ok_step st st2 b0); [done|done|done|done|apply (jo_targets st Hok u)].
  - intros [u m] Hy. pose proof Hy as (b & Hb & _). simpl in Hb. destruct (H2 u b Hb) as (b2 & Hb2 & _ & Ed & _). exists b2. split; [done|].
    simpl. rewrite Ed, decide_True; [done|]. by apply Hin.
  - intros u m b b' Hu Hu'. destruct (H2 u b Hu) as (b2 & Hb2 & _ & Ed & _). rewrite Hu' in Hb2. injection Hb2 as <-. rewrite Ed.
    destruct (decide _) as [Hx|]; [|done]. apply Hin in Hx as (bx & Hbx & Ex). simpl in *. rewrite Hu in Hbx. injection Hbx as <-. by rewrite Ex.
Qed.

(** ** A block loses all its jumps and the jumps to it *)

Record jumps_dropped st st' (t : Z) : Prop := {
  jd_step : jump_step st st';
  jd_ok : jumps_ok st';
  jd_jumps : forall y d, d <> 0 -> jumps st' y d <-> jumps st y d /\ d <> t /\ y.1 <> t;
  jd_marks : forall u m b b', u <> t -> tbs st !! u = Some b -> tbs st' !! u = Some b' -> (sel m (jmp_dest b')).2 = (sel m (jmp_dest b)).2
}.

Lemma drop_jumps_ok st t tb :
  jumps_ok st -> tbs st !! t = Some tb -> (forall n, (sel n (jmp_dest tb)).2 = false) ->
  exists st1 st2 st3, tb_remove_from_jmp_list t false st = Some st1 /\ tb_remove_from_jmp_list t true st1 = Some st2 /\
  tb_jmp_unlink t st2 = Some st3 /\ jumps_dropped st st3 t.
Proof.
  intros Hok Ht Hm. destruct (jmp_remove_ok st t false tb Hok Ht (Hm false)) as (st1 & E1 & [S1 O1 J1 M1]).
  destruct (jump_step_lookup _ _ _ _ S1 Ht) as (tb1 & Ht1 & _).
  destruct (jmp_remove_ok st1 t true tb1 O1 Ht1) as (st2 & E2 & [S2 O2 J2 M2]).
  { rewrite (M1 t true tb tb1) by done. apply Hm. }
  destruct (jump_step_lookup _ _ _ _ S2 Ht1) as (tb2 & Ht2 & _).
  destruct (jmp_unlink_ok st2 t tb2 O2 Ht2) as (st3 & E3 & [S3 O3 J3 _ M3]).
  exists st1, st2, st3. do 3 (split; [done|]). split; [by do 2 (etrans; [done|])|done| |].
  - intros [u m] d Hd. rewrite J3, J2, J1 by done. simpl. split; [|intros (? & ? & ?); repeat split; congruence].
    intros [[[? ?] ?] ?]. repeat split; [done..|]. intros ->. by destruct m.
  - intros u m b b' Hne Hu Hu3. destruct (jump_step_lookup _ _ _ _ S1 Hu) as (b1 & Hb1 & _).
    destruct (jump_step_lookup _ _ _ _ S2 Hb1) as (b2 & Hb2 & _). rewrite (M3 u m b2 b') by done.
    rewrite (M2 u m b1 b2), (M1 u m b b1) by (done || congruence). done.
Qed.

(** ** A jump is patched *)

(** The blocks after the five writes. *)
Definition jump_patched st (t : Z) (n : bool) (t_next : Z) (tb next : TranslationBlock) : gmap Z TranslationBlock :=
  let tb' := with_jmp_list_next n (jmp_list_head next) (with_jmp_target n (tb_tc_ptr (code next)) (with_jmp_dest n (t_next, false) tb)) in
  if t_next =? t then <[t := with_jmp_list_head (t, n) tb']> (tbs st)
  else <[t_next := with_jmp_list_head (t, n) next]> (<[t := tb']> (tbs st)).

Lemma add_jump_eq st t n t_next tb next :
  tbs st !! t = Some tb -> tbs st !! t_next = Some next -> cf_set next CF_INVALID = false -> sel n (jmp_dest tb) = null_link ->
  tb_add_jump t n t_next st = Some (with_tbs (jump_patched st t n t_next tb next) st).
Proof.
  intros Ht Hnext Hv Hd. unfold tb_add_jump, tb_set_jmp_target, set_tb. rewrite Ht, Hnext. cbn [mbind option_bind].
  rewrite Hv, bool_decide_true by done. cbn [negb tbs with_tbs]. rewrite !lookup_insert_eq. cbn [mbind option_bind tbs with_tbs].
  unfold jump_patched. destruct (Z.eqb_spec t_next t) as [->|Hne].
  - rewrite Ht in Hnext. injection Hnext as <-. do 3 (rewrite ?lookup_insert_eq; cbn). by rewrite !insert_insert_eq.
  - do 3 (rewrite ?lookup_insert_eq, ?lookup_insert_ne, ?Hnext by done; cbn). by rewrite !insert_insert_eq.
Qed.

Lemma jump_patched_block st t n t_next tb next u b :
  tbs st !! t = Some tb -> tbs st !! t_next = Some next -> tbs st !! u = Some b ->
  exists b', jump_patched st t n t_next tb next !! u = Some b' /\ no_jmp b' = no_jmp b /\
  jmp_list_head b' = (if u =? t_next then (t, n) else jmp_list_head b) /\
  forall m, sel m (jmp_dest b') = (if decide ((u, m) = (t, n)) then (t_next, false) else sel m (jmp_dest b)) /\
    sel m (jmp_target b') = (if decide ((u, m) = (t, n)) then tb_tc_ptr (code next) else sel m (jmp_target b)) /\
    sel m (jmp_list_next b') = (if decide ((u, m) = (t, n)) then jmp_list_head next else sel m (jmp_list_next b)).
Proof.
  intros Ht Hnext Hu. unfold jump_patched.
  assert (forall m, m <> n -> (t, m) <> (t, n)) as Hmn by congruence.
  destruct (Z.eqb_spec t_next t) as [->|Hne], (decide (u = t)) as [->|Hut].
  - rewrite Ht in Hu. injection Hu as <-. rewrite lookup_insert_eq, Z.eqb_refl. eexists. do 3 (split; [done|]). intros m. cbn.
    destruct (decide (m = n)) as [->|Hm]; [by rewrite !sel_put_eq, !decide_True|]. rewrite !sel_put_ne, !decide_False by auto. done.
  - rewrite lookup_insert_ne by done. rewrite (proj2 (Z.eqb_neq u t)) by done. exists b. do 3 (split; [done|]). intros m. rewrite !decide_False by congruence. done.
  - rewrite Ht in Hu. injection Hu as <-. rewrite lookup_insert_ne, lookup_insert_eq by done.
    rewrite (proj2 (Z.eqb_neq t t_next)) by congruence. eexists. do 3 (split; [done|]). intros m. cbn.
    destruct (decide (m = n)) as [->|Hm]; [by rewrite !sel_put_eq, !decide_True|]. rewrite !sel_put_ne, !decide_False by auto. done.
  - destruct (Z.eqb_spec u t_next) as [->|Hu2].
    + rewrite Hnext in Hu. injection Hu as <-. rewrite lookup_insert_eq. eexists. do 3 (split; [done|]). intros m. cbn. rewrite !decide_False by congruence. done.
    + rewrite !lookup_insert_ne by done. exists b. do 3 (split; [done|]). intros m. rewrite !decide_False by congruence. done.
Qed.

(** What [tb_add_jump] does when the jump is free and the block valid. *)
Record jump_added st st' (t : Z) (n : bool) (t_next : Z) : Prop := {
  ja_step : jump_step st st';
  ja_ok : jumps_ok st';
  ja_jumps : forall y d, jumps st' y d <-> if decide (y = (t, n)) then d = t_next else jumps st y d
}.

Lemma jump_patched_step st t n t_next tb next :
  tbs st !! t = Some tb -> tbs st !! t_next = Some next -> jump_step st (with_tbs (jump_patched st t n t_next tb next) st).
Proof.
  intros Ht Hnext. split; [|done..]. simpl. apply map_eq. intros u. rewrite !lookup_fmap.
  destruct (tbs st !! u) as [b|] eqn:Hu.
  - destruct (jump_patched_block st t n t_next tb next u b Ht Hnext Hu) as (b' & -> & E & _). simpl. by rewrite E.
  - unfold jump_patched. destruct (t_next =? t); rewrite ?lookup_insert_ne by congruence; by rewrite Hu.
Qed.

Lemma add_jump_ok st t n t_next tb next :
  jumps_ok st -> tbs st !! t = Some tb -> tbs st !! t_next = Some next -> cf_set next CF_INVALID = false -> sel n (jmp_dest tb) = null_link ->
  exists st', tb_add_jump t n t_next st = Some st' /\ jump_added st st' t n t_next.
Proof.
  intros Hok Ht Hnext Hv Hd. rewrite (add_jump_eq st t n t_next tb next) by done. eexists. split; [done|].
  set (st' := with_tbs _ _). pose proof (jump_patched_step st t n t_next tb next Ht Hnext) as Hs. fold st' in Hs.
  assert (forall u b, tbs st !! u = Some b -> _) as Hblk by (intros u b; exact (jump_patched_block st t n t_next tb next u b Ht Hnext)).
  change (jump_patched st t n t_next tb next) with (tbs st') in Hblk. clearbody st'.
  assert (t <> 0 /\ t_next <> 0) as [Ht0 Hn0] by (split; intros ->; rewrite (jo_null st Hok) in *; done).
  assert (forall y d, jumps st' y d <-> if decide (y = (t, n)) then d = t_next else jumps st y d) as Hj.
  { intros [u m] d. destruct (tbs st !! u) as [b|] eqn:Hu.
    - destruct (Hblk u b Hu) as (b' & Hu' & _ & _ & Hm). destruct (Hm m) as (Ed & _). unfold jumps. simpl. rewrite Hu', Hu.
      destruct (decide _) as [Heq|_].
      + split; [intros (? & [= <-] & E); congruence|intros ->; by exists b'].
      + split; intros (? & [= <-] & E); eexists; (split; [done|]); congruence.
    - destruct (decide _) as [Heq|_]; [congruence|]. assert (tbs st' !! u = None) as Hu'.
      { destruct (tbs st' !! u) as [b'|] eqn:E'; [|done]. destruct (jump_step_back _ _ _ _ Hs E') as (? & ? & _). congruence. }
      unfold jumps. simpl. rewrite Hu', Hu. done. }
  assert (forall z, z <> (t, n) -> jmp_next_of st' z = jmp_next_of st z) as Hnx.
  { intros [u m] Hz. unfold jmp_next_of. simpl fst. destruct (tbs st !! u) as [b|] eqn:Hu.
    - destruct (Hblk u b Hu) as (b' & -> & _ & _ & Hm). destruct (Hm m) as (_ & _ & E). rewrite decide_False in E by done. cbn. by rewrite E.
    - destruct (tbs st' !! u) as [b'|] eqn:E'; [|done]. destruct (jump_step_back _ _ _ _ Hs E') as (? & ? & _). congruence. }
  split; [done| |done]. split.
  - destruct (tbs st' !! 0) as [b|] eqn:E; [|done]. destruct (jump_step_back _ _ _ _ Hs E) as (b' & E' & _). by rewrite (jo_null st Hok) in E'.
  - intros d b Hb. destruct (jump_step_back _ _ _ _ Hs Hb) as (b0 & Hb0 & _). destruct (Hblk d b0 Hb0) as (b' & Hb' & _ & Eh & _).
    rewrite Hb in Hb'. injection Hb' as <-. destruct (jo_lists st Hok d b0 Hb0) as (l & b0' & Hb0' & Hl & Hnd & Hin).
    rewrite Hb0 in Hb0'. injection Hb0' as <-.
    assert ((t, n) ∉ l) as Hnot.
    { intros (tb' & Ht' & E)%Hin. simpl in *. rewrite Ht in Ht'. injection Ht' as <-. rewrite Hd in E. injection E as <-. by rewrite (jo_null st Hok) in Hb0. }
    assert (linked (jmp_next_of st') (jmp_list_head b0) l) as Hl' by (eapply linked_frame; [exact Hl|intros z Hz; apply Hnx; congruence]).
    destruct (Z.eqb_spec d t_next) as [->|Hne].
    + rewrite Hnext in Hb0. injection Hb0 as <-. exists ((t, n) :: l), b. split; [done|]. rewrite Eh. split; [|split; [by constructor|]].
      * econstructor; [done| |exact Hl']. destruct (Hblk t tb Ht) as (tb' & Ht' & _ & _ & Hm). destruct (Hm n) as (_ & _ & E).
        unfold jmp_next_of. simpl fst. rewrite Ht'. cbn. by rewrite E, decide_True.
      * intros y. rewrite elem_of_cons, Hj, Hin. destruct (decide (y = (t, n))) as [->|Hy]; tauto.
    + exists l, b. split; [done|]. rewrite Eh. split; [done|]. split; [done|]. intros y. rewrite Hj. destruct (decide (y = (t, n))) as [->|Hy]; [|apply Hin].
      tauto.
  - intros u b m Hb. destruct (jump_step_back _ _ _ _ Hs Hb) as (b0 & Hb0 & (Ec & _)%no_jmp_eq). destruct (Hblk u b0 Hb0) as (b' & Hb' & _ & _ & Hm).
    rewrite Hb in Hb'. injection Hb' as <-. destruct (Hm m) as (Ed & Et & _). destruct (decide ((u, m) = (t, n))) as [Heq|Hne].
    + unfold target_ok. rewrite Ed, (proj2 (Z.eqb_neq t_next 0)) by done.
      destruct (jump_step_lookup _ _ _ _ Hs Hnext) as (next' & Hnext' & (Ec' & _)%no_jmp_eq). exists next'. by rewrite Ec', Et.
    + by apply (target_ok_step st st' b0); [done|done|done|done|apply (jo_targets st Hok u)].
Qed.
End jumps.
