(* ===== verification/TbInvariant.v ===== *)
(** * The invariant of the translation block cache

    [tb_inv R st]: [R] is the set of the blocks that are linked.  They and no
    others are in the lists of their pages and in the hash table; jumps and the
    jump cache lead to them only; a bitmap has
    a bit for every byte of code.  Invalidating a block takes it out of [R]. *)

From S2P Require Import Prelude Bitmap BitmapProofs SoftTlb QhtProofs TbPages TbCache TbLists TbPageLists TbJumps.

(** ** What parts of a block the parts of the invariant are about *)

Definition pg (tb : TranslationBlock) := (page_next tb, page_addr tb).
Definition jm (tb : TranslationBlock) := (code tb, jmp_target tb, jmp_list_head tb, jmp_list_next tb, jmp_dest tb).
(** What the hash table knows a block by. *)
Definition id (tb : TranslationBlock) := (code tb, Z.land (tb_cflags tb) CF_HASH_MASK, page_addr tb).

Lemma id_eq a b : id a = id b -> code a = code b /\ Z.land (tb_cflags a) CF_HASH_MASK = Z.land (tb_cflags b) CF_HASH_MASK /\ page_addr a = page_addr b.
Proof. unfold id. intros E. by injection E. Qed.

Lemma same_block_id a a' b b' : id a = id a' -> id b = id b' -> same_block a b = same_block a' b'.
Proof. intros (A1 & A2 & A3)%id_eq (B1 & B2 & B3)%id_eq. unfold same_block. by rewrite A1, A2, A3, B1, B2, B3. Qed.

Lemma hash_of_id a b p : id a = id b -> hash_of a p = hash_of b p.
Proof. intros (A1 & A2 & _)%id_eq. unfold hash_of. by rewrite A1, A2. Qed.

Definition invalid (tb : TranslationBlock) : TranslationBlock := with_cflags (Z.lor (tb_cflags tb) CF_INVALID) tb.

Lemma land_lor_other f g m : Z.land g m = 0 -> Z.land (Z.lor f g) m = Z.land f m.
Proof. intros E. by rewrite Z.land_lor_distr_l, E, Z.lor_0_r. Qed.

Lemma id_invalid tb : id (invalid tb) = id tb.
Proof. unfold id, invalid, with_cflags. cbn [code tb_cflags page_addr]. by rewrite land_lor_other. Qed.

Lemma nocache_invalid tb : cf_set (invalid tb) CF_NOCACHE = cf_set tb CF_NOCACHE.
Proof. unfold cf_set, invalid, with_cflags. cbn [tb_cflags]. by rewrite land_lor_other. Qed.

Lemma invalid_invalid tb : cf_set (invalid tb) CF_INVALID = true.
Proof.
  unfold cf_set, invalid, with_cflags. cbn [tb_cflags]. rewrite Z.land_lor_distr_l, Z.land_diag.
  destruct (Z.eqb_spec (Z.lor (Z.land (tb_cflags tb) CF_INVALID) CF_INVALID) 0) as [E|]; [|done].
  apply Z.lor_eq_0_iff in E as [_ E]. done.
Qed.

Section frames.
Context {T : Type} `{HashTable T}.
Implicit Types st : tb_state (T := T).

Lemma page_next_pg st st' : pg <$> tbs st' = pg <$> tbs st -> forall x, page_next_of st' x = page_next_of st x.
Proof.
  intros E x. apply (f_equal (lookup x.1)) in E. rewrite !lookup_fmap in E. unfold page_next_of.
  destruct (tbs st' !! x.1), (tbs st !! x.1); try done. cbn in *. unfold pg in E. injection E as E _. by rewrite E.
Qed.

Lemma entry_pg P st st' x i : pg <$> tbs st' = pg <$> tbs st -> entry P st' x i <-> entry P st x i.
Proof.
  intros E. apply (f_equal (lookup x.1)) in E. rewrite !lookup_fmap in E. unfold entry.
  destruct (tbs st' !! x.1) as [a|], (tbs st !! x.1) as [b|]; try done.
  cbn in E. unfold pg in E. injection E as _ E. split; intros (? & [= <-] & ?); [exists b|exists a]; by rewrite ?E in *.
Qed.

Lemma page_list_pg P c E st st' i l : pg <$> tbs st' = pg <$> tbs st -> l1_map st' = l1_map st -> page_list P c E st i l -> page_list P c E st' i l.
Proof.
  intros Et Em (H1 & H2 & H3). split; [|split; [done|]].
  - rewrite Em. eapply linked_frame; [exact H1|]. intros z _. by apply page_next_pg.
  - intros x. by rewrite (entry_pg P st st').
Qed.

Lemma pages_ok_pg P A c E st st' : pg <$> tbs st' = pg <$> tbs st -> l1_map st' = l1_map st -> pages_ok P A c E st -> pages_ok P A c E st'.
Proof.
  intros Et Em [H1 H2]. split; [by rewrite Em|]. intros i Hi. destruct (H2 i Hi) as [l Hl]. exists l. by eapply page_list_pg.
Qed.

Lemma jumps_jm st st' y d : jm <$> tbs st' = jm <$> tbs st -> jumps st' y d <-> jumps st y d.
Proof.
  intros E. apply (f_equal (lookup y.1)) in E. rewrite !lookup_fmap in E. unfold jumps.
  destruct (tbs st' !! y.1) as [a|], (tbs st !! y.1) as [b|]; try done.
  cbn in E. unfold jm in E. injection E as _ _ _ _ E. split; intros (? & [= <-] & ?); [exists b|exists a]; by rewrite ?E in *.
Qed.

Lemma jmp_next_jm st st' : jm <$> tbs st' = jm <$> tbs st -> forall x, jmp_next_of st' x = jmp_next_of st x.
Proof.
  intros E x. apply (f_equal (lookup x.1)) in E. rewrite !lookup_fmap in E. unfold jmp_next_of.
  destruct (tbs st' !! x.1), (tbs st !! x.1); try done. cbn in *. unfold jm in E. injection E as _ _ _ E _. by rewrite E.
Qed.

Lemma jumps_ok_jm st st' : jm <$> tbs st' = jm <$> tbs st -> jumps_ok st -> jumps_ok st'.
Proof.
  intros E [H1 H2 H3]. assert (jm <$> tbs st = jm <$> tbs st') as E' by done. split.
  - destruct (tbs st' !! 0) as [b|] eqn:Hb; [|done]. destruct (same_lookup jm _ _ _ _ E' Hb) as (b' & Hb' & _). congruence.
  - intros d b Hb. destruct (same_lookup jm _ _ _ _ E' Hb) as (b0 & Hb0 & Eb). destruct (H2 d b0 Hb0) as (l & b0' & Hb0' & Hl & Hnd & Hin).
    rewrite Hb0 in Hb0'. injection Hb0' as <-. unfold jm in Eb. injection Eb as _ _ Eh _ _. exists l, b. split; [done|]. rewrite <- Eh.
    split; [eapply linked_frame; [exact Hl|by intros z _; apply jmp_next_jm]|]. split; [done|]. intros x. by rewrite Hin, (jumps_jm st st').
  - intros t b n Hb. destruct (same_lookup jm _ _ _ _ E' Hb) as (b0 & Hb0 & Eb). specialize (H3 t b0 n Hb0).
    unfold target_ok, reset_addr in *. unfold jm in Eb. injection Eb as Ec Et _ _ Ed. rewrite <- Ec, <- Et, <- Ed.
    destruct (sel n (jmp_dest b0)) as [d []]; [done|]. destruct (d =? 0); [done|]. destruct H3 as (dtb & Hd & E3).
    destruct (same_lookup jm _ _ _ _ E Hd) as (dtb' & Hd' & Ed'). unfold jm in Ed'. injection Ed' as Ec' _ _ _ _. exists dtb'. by rewrite Ec'.
Qed.

Lemma tb_cmp_id st st' a b : id <$> tbs st' = id <$> tbs st -> tb_cmp st' a b = tb_cmp st a b.
Proof.
  intros E. unfold tb_cmp.
  pose proof (f_equal (lookup a) E) as Ea. pose proof (f_equal (lookup b) E) as Eb. rewrite !lookup_fmap in Ea, Eb.
  destruct (tbs st' !! a), (tbs st !! a); try done. destruct (tbs st' !! b), (tbs st !! b); try done.
  cbn in *. apply same_block_id; congruence.
Qed.

(** Steps on the page lists and on the jumps. *)
Lemma page_step_jm st st' : page_step st st' -> jm <$> tbs st' = jm <$> tbs st /\ id <$> tbs st' = id <$> tbs st /\ tb_cflags <$> tbs st' = tb_cflags <$> tbs st.
Proof.
  intros [E _ _]. split; [|split].
  - apply (same_trans jm no_next) in E. exact E.
  - apply (same_trans id no_next) in E. exact E.
  - apply (same_trans tb_cflags no_next) in E. exact E.
Qed.

Lemma jump_step_pg st st' : jump_step st st' -> pg <$> tbs st' = pg <$> tbs st /\ id <$> tbs st' = id <$> tbs st /\ tb_cflags <$> tbs st' = tb_cflags <$> tbs st.
Proof.
  intros [E _ _ _]. split; [|split].
  - apply (same_trans pg no_jmp) in E. exact E.
  - apply (same_trans id no_jmp) in E. exact E.
  - apply (same_trans tb_cflags no_jmp) in E. exact E.
Qed.
End frames.

(** ** The invariant *)

Section invariant.
Context {T : Type} `{HashTable T, !HashTableLaws T}.
Context (L P A : Z) (c : page_config) (Hc : page_table_config_init A P = Some c).
Implicit Types st : tb_state (T := T).

Abbreviation page_index := (TbPages.page_index A P).

Definition pc_offset (tb : TranslationBlock) : Z := page_offset P (tb_pc (code tb)).

(** The start of a page of RAM; blocks may end on the next page. *)
Definition ram_page (addr : Z) : Prop := addr mod 2 ^ P = 0 /\ 0 <= addr /\ addr + 2 * 2 ^ P <= 2 ^ 64.

(** Code starts on the first page; it has a second page if it ends on one, and
    does not fill it.  A block without instructions at the start of a page may
    have the page before as its second one, because [tb_gen_code] takes the page
    of the byte before its end. *)
Record shape (tb : TranslationBlock) : Prop := {
  sh_pc : uint L (tb_pc (code tb));
  sh_size : 0 <= tb_size (code tb);
  sh_page : ram_page (sel false (page_addr tb));
  sh_one : sel true (page_addr tb) = NO_PAGE -> pc_offset tb + tb_size (code tb) <= 2 ^ P;
  sh_two : sel true (page_addr tb) <> NO_PAGE -> ram_page (sel true (page_addr tb)) /\
    (2 ^ P < pc_offset tb + tb_size (code tb) < 2 * 2 ^ P \/ pc_offset tb + tb_size (code tb) = 0)
}.

(** A block that is linked. *)
Record live_block (tb : TranslationBlock) : Prop := {
  lb_placed : placed P A tb;
  lb_shape : shape tb;
  lb_valid : cf_set tb CF_INVALID = false;
  lb_cached : cf_set tb CF_NOCACHE = false;
  lb_unmarked : forall n, (sel n (jmp_dest tb)).2 = false
}.

(** Where the code of a block starts. *)
Definition phys_of (tb : TranslationBlock) : Z := u64 (sel false (page_addr tb) + pc_offset tb).

Lemma phys_of_id a b : id a = id b -> phys_of a = phys_of b.
Proof. intros (A1 & _ & A3)%id_eq. unfold phys_of, pc_offset. by rewrite A1, A3. Qed.

Lemma shape_id a b : id a = id b -> shape b -> shape a.
Proof.
  intros (A1 & _ & A3)%id_eq [S1 S2 S3 S4 S5]. unfold pc_offset in *. split; unfold pc_offset; rewrite ?A1, ?A3; done.
Qed.

Lemma placed_id a b : id a = id b -> placed P A b -> placed P A a.
Proof. intros (_ & _ & A3)%id_eq. unfold placed. by rewrite A3. Qed.

(** A bitmap has a bit for every byte of a page. *)
Definition page_bitmap (b : bitmap) : Prop := wf b /\ 2 ^ P <= bits_of b.

Definition covers (b : bitmap) (tb : TranslationBlock) (n : bool) : Prop :=
  forall k, (bitmap_range L P tb n).1 <= k < (bitmap_range L P tb n).2 -> bit b k = true.

Lemma covers_id b x y n : id x = id y -> covers b y n -> covers b x n.
Proof. intros (A1 & _ & _)%id_eq. unfold covers, bitmap_range. by rewrite A1. Qed.

Definition bitmaps_ok (R : gset Z) st : Prop :=
  forall i b, page_index i -> code_bitmap (page_at c (l1_map st) i) = Some b ->
  page_bitmap b /\ forall x tb, x.1 ∈ R -> entry P st x i -> tbs st !! x.1 = Some tb -> covers b tb x.2.

Record tb_inv (R : gset Z) st : Prop := {
  ti_pages : pages_ok P A c (of_set R) st;
  ti_blocks : forall t, t ∈ R -> exists tb, tbs st !! t = Some tb /\ live_block tb;
  ti_jumps : jumps_ok st;
  ti_dests : forall y d, jumps st y d -> d <> 0 -> d ∈ R;
  ti_table : ht_ok (tb_cmp st) (htable st);
  ti_elems : forall h t, (h, t) ∈ ht_elems (htable st) <-> t ∈ R /\ exists tb, tbs st !! t = Some tb /\ h = hash_of tb (phys_of tb);
  ti_cache : forall i, tb_jmp_cache st i <> 0 -> tb_jmp_cache st i ∈ R /\
    forall tb, tbs st !! tb_jmp_cache st i = Some tb -> tb_jmp_cache_hash_func P (tb_pc (code tb)) = i;
  ti_bitmaps : bitmaps_ok R st
}.

(** What [do_tb_phys_invalidate] does with a linked block. *)
Record invalidated (R : gset Z) st st' (t : Z) : Prop := {
  iv_inv : tb_inv (R ∖ {[t]}) st';
  iv_same : id <$> tbs st' = id <$> tbs st;
  iv_flags : forall u tb', tbs st' !! u = Some tb' -> exists tb, tbs st !! u = Some tb /\ tb_cflags tb' = if decide (u = t) then Z.lor (tb_cflags tb) CF_INVALID else tb_cflags tb;
  iv_jumps : forall y d, d <> 0 -> jumps st' y d <-> jumps st y d /\ d <> t /\ y.1 <> t;
  iv_at : forall i l1 n l2, page_index i -> page_list P c (of_set R) st i (l1 ++ (t, n) :: l2) ->
    page_list P c (of_set (R ∖ {[t]})) st' i (l1 ++ l2) /\ forall y, y ∈ (t, n) :: l2 -> page_next_of st' y = page_next_of st y;
  iv_found : forall j, page_index j -> is_Some (page_find c (l1_map st') j) <-> is_Some (page_find c (l1_map st) j)
}.

(** *** The parts that depend on what blocks are known by *)

Lemma elems_id (R : gset Z) st st' (es : list (Z * Z)) : id <$> tbs st' = id <$> tbs st ->
  (forall h t, (h, t) ∈ es <-> t ∈ R /\ exists tb, tbs st !! t = Some tb /\ h = hash_of tb (phys_of tb)) ->
  forall h t, (h, t) ∈ es <-> t ∈ R /\ exists tb, tbs st' !! t = Some tb /\ h = hash_of tb (phys_of tb).
Proof.
  intros E He h t. rewrite He. split; intros (Ht & b & Hb & ->); (split; [done|]).
  - destruct (same_lookup id _ _ _ _ E Hb) as (b' & Hb' & Eb). exists b'. split; [done|]. by rewrite (phys_of_id b' b), (hash_of_id b' b).
  - destruct (same_lookup id _ _ _ _ (eq_sym E) Hb) as (b' & Hb' & Eb). exists b'. split; [done|]. by rewrite (phys_of_id b' b), (hash_of_id b' b).
Qed.

Lemma ht_ok_id st st' ht : id <$> tbs st' = id <$> tbs st -> ht_ok (tb_cmp st) ht -> ht_ok (tb_cmp st') ht.
Proof.
  intros E Hok. apply (ht_ok_ext (tb_cmp st)); [|done]. intros h p q Hp Hq Hpq. rewrite (tb_cmp_id st) by done.
  destruct (ht_facts _ _ Hok) as (Hcmp & _). by apply (Hcmp h).
Qed.

Lemma bitmaps_id (R R' : gset Z) st st' : id <$> tbs st' = id <$> tbs st -> R' ⊆ R ->
  (forall j b, page_index j -> code_bitmap (page_at c (l1_map st') j) = Some b -> code_bitmap (page_at c (l1_map st) j) = Some b) ->
  bitmaps_ok R st -> bitmaps_ok R' st'.
Proof.
  intros E HR Hbm Hok i b Hpi Hb. destruct (Hok i b Hpi (Hbm i b Hpi Hb)) as [B1 B2]. split; [done|]. intros x b' Hx (b2 & Hb2 & He) Hb'. destruct (same_lookup id _ _ _ _ (eq_sym E) Hb') as (b0 & Hb0 & E0).
  rewrite Hb' in Hb2. injection Hb2 as <-. pose proof E0 as (_ & _ & Ea)%id_eq.
  apply (covers_id b b' b0); [done|]. apply B2; [set_solver| |done]. exists b0. by rewrite Ea.
Qed.

Lemma live_id b b' : id b' = id b -> tb_cflags b' = tb_cflags b -> (forall m, (sel m (jmp_dest b')).2 = (sel m (jmp_dest b)).2) -> live_block b -> live_block b'.
Proof.
  intros E Ef Em [L1 L2 L3 L4 L5]. split; [by apply (placed_id b' b)|by apply (shape_id b' b)| | |]; unfold cf_set in *; rewrite ?Ef; try done.
  intros n. by rewrite Em.
Qed.

Lemma table_of R st t tb : tb_inv R st -> t ∈ R -> tbs st !! t = Some tb -> (hash_of tb (phys_of tb), t) ∈ ht_elems (htable st).
Proof. intros Hi HR Ht. apply (ti_elems R st Hi). split; [done|]. by exists tb. Qed.

(** The entry of a block is taken out of the table. *)
Lemma table_remove R st t tb : tb_inv R st -> t ∈ R -> tbs st !! t = Some tb ->
  exists ht, ht_remove (htable st) t (hash_of tb (phys_of tb)) = Some (true, ht) /\ ht_ok (tb_cmp st) ht /\
  forall h u, (h, u) ∈ ht_elems ht <-> u ∈ R ∖ {[t]} /\ exists b, tbs st !! u = Some b /\ h = hash_of b (phys_of b).
Proof.
  intros Hi HR Ht. pose proof (table_of R st t tb Hi HR Ht) as Hin. destruct (ht_facts _ _ (ti_table R st Hi)) as (_ & Hnd & Hfacts).
  destruct (Hfacts _ _ Hin) as [Hh H0]. destruct (ht_remove_ok _ _ t (hash_of tb (phys_of tb)) (ti_table R st Hi) Hh H0) as (ret & ht & -> & Hok & Hr).
  { intros h (_ & b & Hb & ->)%(ti_elems R st Hi). congruence. }
  destruct ret; cbn in Hr; [|by destruct Hr]. exists ht. split; [done|]. split; [done|]. intros h u.
  rewrite elem_of_difference, elem_of_singleton. rewrite Hr in Hnd. cbn in Hnd. apply NoDup_cons in Hnd as [Hnot _].
  pose proof (ti_elems R st Hi h u) as He. rewrite Hr, elem_of_cons in He. split.
  - intros Hu. assert (u <> t) as Hne. { intros ->. apply Hnot. apply list_elem_of_fmap. by exists (h, t). }
    destruct He as [He _]. destruct He as [H1 H2]; [by right|]. done.
  - intros [[Hu Hne] Hb]. destruct He as [_ He]. destruct He as [Heq|]; [done|congruence|done].
Qed.

(** The invariant of the state after: what the parts of the operation give. *)
Lemma invalidated_inv R st st' t tb ht :
  tb_inv R st -> tbs st !! t = Some tb -> id <$> tbs st' = id <$> tbs st ->
  (forall u b b', u <> t -> tbs st !! u = Some b -> tbs st' !! u = Some b' -> tb_cflags b' = tb_cflags b /\ forall m, (sel m (jmp_dest b')).2 = (sel m (jmp_dest b)).2) ->
  pages_ok P A c (of_set (R ∖ {[t]})) st' -> (forall j b, page_index j -> code_bitmap (page_at c (l1_map st') j) = Some b -> code_bitmap (page_at c (l1_map st) j) = Some b) ->
  jumps_ok st' -> (forall y d, d <> 0 -> jumps st' y d <-> jumps st y d /\ d <> t /\ y.1 <> t) ->
  htable st' = ht -> ht_ok (tb_cmp st) ht ->
  (forall h u, (h, u) ∈ ht_elems ht <-> u ∈ R ∖ {[t]} /\ exists b, tbs st !! u = Some b /\ h = hash_of b (phys_of b)) ->
  (forall i, tb_jmp_cache st' i = let h := tb_jmp_cache_hash_func P (tb_pc (code tb)) in if (i =? h) && (tb_jmp_cache st h =? t) then 0 else tb_jmp_cache st i) ->
  tb_inv (R ∖ {[t]}) st'.
Proof.
  intros Hi Ht Eid Hothers Hpages Hbm Hj Hjumps Eht Htok Hel Hcache.
  assert (id <$> tbs st = id <$> tbs st') as Eid' by done.
  split; [done| |done| | | | |].
  - intros u [Hu Hne%not_elem_of_singleton]%elem_of_difference. destruct (ti_blocks R st Hi u Hu) as (b & Hb & Hlb).
    destruct (same_lookup id _ _ _ _ Eid Hb) as (b' & Hb' & Eb). destruct (Hothers u b b' Hne Hb Hb') as [Ef Em]. exists b'. split; [done|].
    by apply (live_id b b').
  - intros y d Hyd Hd0. apply Hjumps in Hyd as (Hyd & Hd & _); [|done]. pose proof (ti_dests R st Hi y d Hyd Hd0). set_solver.
  - rewrite Eht. by apply (ht_ok_id st).
  - rewrite Eht. by apply (elems_id (R ∖ {[t]}) st).
  - intros i. rewrite Hcache. cbn zeta. destruct (_ && _) eqn:Ec; [done|]. intros Hnz. destruct (ti_cache R st Hi i Hnz) as [Hv Hpc].
    assert (tb_jmp_cache st i <> t) as Hne.
    { intros E. rewrite E in Hpc. rewrite (Hpc tb Ht), Z.eqb_refl, E, Z.eqb_refl in Ec. done. }
    split; [set_solver|]. intros b' Hb'. destruct (same_lookup id _ _ _ _ Eid' Hb') as (b & Hb & (Ecode & _)%id_eq).
    rewrite <- Ecode. by apply Hpc.
  - apply (bitmaps_id R _ st); [done|set_solver|done|apply Hi].
Qed.

(** Setting the flag changes what no other part looks at. *)
Lemma mark_invalid st t tb : tbs st !! t = Some tb ->
  let st1 := with_tbs (<[t := invalid tb]> (tbs st)) st in
  pg <$> tbs st1 = pg <$> tbs st /\ jm <$> tbs st1 = jm <$> tbs st /\ id <$> tbs st1 = id <$> tbs st.
Proof.
  intros Ht. simpl. split; [by apply (same_insert pg _ _ tb)|]. split; [by apply (same_insert jm _ _ tb)|].
  apply (same_insert id _ _ tb); [done|apply id_invalid].
Qed.

Lemma drop_cache_tbs st h t : let st' := if tb_jmp_cache st h =? t then with_jmp_cache (upd h 0 (tb_jmp_cache st)) st else st in
  tbs st' = tbs st /\ l1_map st' = l1_map st /\ htable st' = htable st /\
  forall i, tb_jmp_cache st' i = if (i =? h) && (tb_jmp_cache st h =? t) then 0 else tb_jmp_cache st i.
Proof.
  cbn zeta. destruct (tb_jmp_cache st h =? t); (repeat split); intros i; simpl; unfold upd; destruct (i =? h); done.
Qed.

Lemma do_invalidate_ok R st t : tb_inv R st -> t ∈ R ->
  exists st', do_tb_phys_invalidate P c t true st = Some st' /\ invalidated R st st' t.
Proof.
  intros Hi HR. destruct (ti_blocks R st Hi t HR) as (tb & Ht & Hlb).
  unfold do_tb_phys_invalidate, set_tb. rewrite Ht. cbn [mbind option_bind]. fold (invalid tb).
  destruct (mark_invalid st t tb Ht) as (Epg1 & Ejm1 & Eid1). set (st1 := with_tbs _ _) in *.
  assert (tbs st1 !! t = Some (invalid tb)) as Ht1 by apply lookup_insert_eq. rewrite Ht1. cbn [mbind option_bind].
  rewrite nocache_invalid, (lb_cached tb Hlb). change (u64 (sel false (page_addr (invalid tb)) + page_offset P (tb_pc (code (invalid tb))))) with (phys_of tb).
  rewrite (hash_of_id (invalid tb) tb) by apply id_invalid.
  destruct (table_remove R st t tb Hi HR Ht) as (ht & E2 & Htok & Hel). change (htable st1) with (htable st). rewrite E2. cbn [mbind option_bind].
  set (st2 := with_htable ht st1). unfold drop_block. change (tbs st2) with (tbs st1). rewrite Ht1. cbn [mbind option_bind].
  destruct (leave_pages_ok P A c Hc R st2 t (invalid tb)) as (st3 & E3 & [Hs3 Hok3 Hat3 _ Hbm3 Hf3]);
    [by apply (pages_ok_pg P A c _ st); [| |apply Hi]|done|done|apply (placed_id _ tb), Hlb; apply id_invalid|].
  rewrite E3. cbn [mbind option_bind]. change (tb_pc (code (invalid tb))) with (tb_pc (code tb)).
  destruct (page_step_jm st2 st3 Hs3) as (Ejm3 & Eid3 & Ef3). destruct (page_step_lookup _ _ _ _ Hs3 Ht1) as (tb3 & Ht3 & Etb3).
  destruct (drop_cache_tbs st3 (tb_jmp_cache_hash_func P (tb_pc (code tb))) t) as (Et4 & Em4 & Eht4 & Ec4). set (st4 := if _ =? _ then _ else _) in *.
  assert (jm <$> tbs st4 = jm <$> tbs st) as Ejm4 by (rewrite Et4, Ejm3; exact Ejm1).
  destruct (drop_jumps_ok st4 t tb3) as (st5 & st6 & st7 & -> & E6 & E7 & [Hs7 Hok7 Hj7 Hm7]).
  { apply (jumps_ok_jm st); [done|apply Hi]. }
  { by rewrite Et4. }
  { intros n. apply no_next_eq in Etb3 as (_ & _ & _ & _ & _ & _ & Ed & _). rewrite Ed. apply (lb_unmarked tb Hlb). }
  cbn [mbind option_bind]. rewrite E6. cbn [mbind option_bind]. rewrite E7. cbn [mbind option_bind]. eexists. split; [done|].
  destruct (jump_step_pg st4 st7 Hs7) as (Epg7 & Eid7 & Ef7).
  assert (id <$> tbs st7 = id <$> tbs st) as Eid by (rewrite Eid7, Et4, Eid3; exact Eid1).
  assert (forall u b b', tbs st !! u = Some b -> tbs st7 !! u = Some b' -> tb_cflags b' = if decide (u = t) then Z.lor (tb_cflags b) CF_INVALID else tb_cflags b) as Hflags.
  { intros u b b' Hb Hb'. apply (f_equal (lookup u)) in Ef7. rewrite Et4, Ef3, !lookup_fmap, Hb' in Ef7. simpl in Ef7.
    destruct (decide (u = t)) as [->|Hne].
    - rewrite lookup_insert_eq in Ef7. injection Ef7 as ->. rewrite Ht in Hb. by injection Hb as <-.
    - rewrite lookup_insert_ne, Hb in Ef7 by done. by injection Ef7. }
  set (st8 := with_count _ _). change (tbs st7) with (tbs st8) in *.
  assert (forall y d, d <> 0 -> jumps st8 y d <-> jumps st y d /\ d <> t /\ y.1 <> t) as Hj8.
  { intros y d Hd. change (jumps st8 y d) with (jumps st7 y d). rewrite Hj7, (jumps_jm st st4) by done. done. }
  split; [|done| |done| |].
  - apply (invalidated_inv R st st8 t tb ht); try done.
    + intros u b b' Hne Hb Hb'. split; [by rewrite (Hflags u b b'), decide_False|]. intros m.
      destruct (same_lookup jm _ _ _ _ Ejm4 Hb) as (b4 & Hb4 & Eb4). rewrite (Hm7 u m b4 b') by done. unfold jm in Eb4. injection Eb4 as _ _ _ _ Ed. by rewrite Ed.
    + apply (pages_ok_pg P A c _ st3); [by rewrite Epg7, Et4|by rewrite <- Em4; apply (js_l1 _ _ Hs7)|done].
    + intros j b Hj. change (l1_map st8) with (l1_map st7). rewrite (js_l1 _ _ Hs7), Em4. by apply Hbm3.
    + apply (jumps_ok_jm st7); done.
    + change (htable st8) with (htable st7). by rewrite (js_htable _ _ Hs7), Eht4, (ps_htable _ _ Hs3).
    + intros i. change (tb_jmp_cache st8) with (tb_jmp_cache st7). rewrite (js_cache _ _ Hs7), Ec4, (ps_cache _ _ Hs3). done.
  - intros u b' Hb'. destruct (same_lookup id _ _ _ _ (eq_sym Eid) Hb') as (b & Hb & _). exists b. split; [done|]. by apply (Hflags u b b').
  - intros i l1 n l2 Hpi Hpl. destruct (Hat3 i l1 n l2 Hpi) as [H1 H2]; [by apply (page_list_pg P c _ st)|].
    assert (pg <$> tbs st8 = pg <$> tbs st3) as Epg8 by (by rewrite Epg7, Et4).
    split; [apply (page_list_pg P c _ st3); [done|by rewrite <- Em4; apply (js_l1 _ _ Hs7)|done]|].
    intros y Hy. rewrite (page_next_pg st3 st8), H2 by done. by apply (page_next_pg st).
  - intros j Hj. change (l1_map st8) with (l1_map st7). rewrite (js_l1 _ _ Hs7), Em4. by apply Hf3.
Qed.
End invariant.
