(* ===== verification/TbInvalidate.v ===== *)
(** * Invalidation by address

    After a write to RAM no linked block has code there: the list of the page is
    walked and the blocks that overlap the range are invalidated, with them the
    blocks without instructions on the page; the others stay.  A bitmap of the
    page saves the walk when there is no code in the bytes, and then blocks
    without instructions stay too. *)

From S2P Require Import Prelude Bitmap BitmapProofs SoftTlb QhtProofs TbPages TbCache TbLists TbPageLists TbJumps TbInvariant.

Section invalidate.
Context {T : Type} `{HashTable T, !HashTableLaws T}.
Context (L P A : Z) (c : page_config) (Hc : page_table_config_init A P = Some c).
Implicit Types st : tb_state (T := T).

Abbreviation page_index := (TbPages.page_index A P).
Abbreviation tb_inv := (TbInvariant.tb_inv L P A c).
Abbreviation page_list := (TbPageLists.page_list P c).
Abbreviation entry := (TbPageLists.entry P).

(** ** Several blocks are dropped *)

(** The blocks [R] were linked, now [R'] are; the blocks that are gone are
    invalid and no jump leads to them or from them. *)
Record dropped (R : gset Z) st (R' : gset Z) st' : Prop := {
  dr_inv : tb_inv R' st';
  dr_sub : R' ⊆ R;
  dr_same : id <$> tbs st' = id <$> tbs st;
  dr_flags : forall u b', tbs st' !! u = Some b' -> exists b, tbs st !! u = Some b /\
    tb_cflags b' = if decide (u ∈ R ∖ R') then Z.lor (tb_cflags b) CF_INVALID else tb_cflags b;
  dr_jumps : forall y d, d <> 0 -> jumps st' y d <-> jumps st y d /\ (d ∉ R ∖ R') /\ (y.1 ∉ R ∖ R');
  dr_found : forall j, page_index j -> is_Some (page_find c (l1_map st') j) <-> is_Some (page_find c (l1_map st) j)
}.

Lemma dropped_one R st st' t : t ∈ R -> invalidated L P A c R st st' t -> dropped R st (R ∖ {[t]}) st'.
Proof.
  intros HR [H1 H2 H3 H4 _ H6]. assert (forall u, u ∈ R ∖ (R ∖ {[t]}) <-> u = t) as Hu by (intros u; destruct (decide (u = t)); set_solver).
  split; [done|set_solver|done| | |done].
  - intros u b' Hb'. destruct (H3 u b' Hb') as (b & Hb & ->). exists b. split; [done|].
    destruct (decide (u = t)) as [->|Hne]; [rewrite decide_True by set_solver|rewrite decide_False by set_solver]; done.
  - intros y d Hd. rewrite H4, !Hu by done. done.
Qed.

Lemma dropped_refl R st : tb_inv R st -> dropped R st R st.
Proof.
  intros Hi. split; [done|done|done| | |done].
  - intros u b Hb. exists b. rewrite decide_False by set_solver. done.
  - intros y d _. set_solver.
Qed.

Lemma dropped_trans R st R1 st1 R2 st2 : dropped R st R1 st1 -> dropped R1 st1 R2 st2 -> dropped R st R2 st2.
Proof.
  intros [A1 A2 A3 A4 A5 A6] [B1 B2 B3 B4 B5 B6]. split; [done|set_solver|congruence| | |].
  - intros u b2 Hb2. destruct (B4 u b2 Hb2) as (b1 & Hb1 & E1). destruct (A4 u b1 Hb1) as (b & Hb & E). exists b. split; [done|].
    rewrite E1, E. destruct (decide (u ∈ R1 ∖ R2)).
    + rewrite (decide_True (P := u ∈ R ∖ R2)), decide_False by set_solver. done.
    + destruct (decide (u ∈ R ∖ R1)); [by rewrite decide_True by set_solver|by rewrite decide_False by set_solver].
  - intros y d Hd. rewrite B5, A5 by done. assert (forall u, u ∈ R ∖ R2 <-> u ∈ R ∖ R1 \/ u ∈ R1 ∖ R2) as Hu.
    { intros u. destruct (decide (u ∈ R1)); set_solver. }
    rewrite !Hu. tauto.
  - intros j Hj. by rewrite B6, A6.
Qed.

(** ** Changes of a descriptor but for its list *)

Lemma set_page_inv R st i d f :
  tb_inv R st -> page_index i -> page_find c (l1_map st) i = Some d -> first_tb (f d) = first_tb d ->
  (forall b, code_bitmap (f d) = Some b -> page_bitmap P b /\ forall x tb, x.1 ∈ R -> entry st x i -> tbs st !! x.1 = Some tb -> covers L P b tb x.2) ->
  exists st', set_page c i f st = Some st' /\ dropped R st R st' /\ tbs st' = tbs st /\ page_find c (l1_map st') i = Some (f d).
Proof.
  intros Hi Hpi Hd Ef Hb. destruct (set_page_ok P A c Hc st i f d (po_table _ _ _ _ _ (ti_pages _ _ _ _ _ _ Hi)) Hpi Hd) as (Es & Hs & Hm & Et & Hf).
  eexists. split; [exact Es|]. set (st' := with_l1 _ _) in *.
  assert (forall j, page_index j -> first_tb (page_at c (l1_map st') j) = first_tb (page_at c (l1_map st) j)) as Hfirst.
  { intros j Hj. unfold page_at. rewrite Hf by done. destruct (decide (j = i)) as [->|]; [|done]. by rewrite Hd. }
  destruct Hi as [[I1 I1'] I2 I3 I4 I5 I6 I7 I8]. split; [|split; [done|]; by rewrite Hf, decide_True].
  assert (tb_inv R st') as Hi'.
  { split; try done.
    - split; [done|]. intros j Hj. destruct (I1' j Hj) as (l & L1 & L2 & L3). exists l. split; [by rewrite Hfirst|done].
    - by apply (jumps_ok_jm st).
    - intros j b Hj. unfold page_at. rewrite Hf by done. destruct (decide (j = i)) as [->|]; [|by apply I8]. cbn. intros Eb. by apply Hb. }
  split; [done|done|done| | |].
  - intros u b Hu. exists b. rewrite decide_False by set_solver. done.
  - intros y d' _. change (jumps st' y d') with (jumps st y d'). set_solver.
  - intros j Hj. rewrite Hf by done. destruct (decide (j = i)) as [->|]; [|done]. by rewrite Hd.
Qed.

Lemma with_call_inv R st R' st' call : dropped R st R' st' -> dropped R st R' (with_call call st').
Proof.
  intros [[I1 I2 I3 I4 I5 I6 I7 I8] H2 H3 H4 H5 H6]. split; [|done..].
  split; try done; [by apply (pages_ok_pg P A c _ st')|by apply (jumps_ok_jm st')].
Qed.

(** ** The walk over the list of a page *)

Definition hit (first last : Z) (tb : TranslationBlock) (n : bool) : bool :=
  let '(tb_start, tb_end) := tb_range L P tb n in negb ((tb_end <=? first) || (last <=? tb_start)) || (tb_start =? tb_end).

Lemma hit_id first last a b n : id a = id b -> hit first last a n = hit first last b n.
Proof. intros (A1 & _ & A3)%id_eq. unfold hit, tb_range. by rewrite A1, A3. Qed.

Lemma invalidate_loop_ok i first last : page_index i -> forall rest fuel cur kept R st,
  tb_inv R st -> page_list (of_set R) st i (kept ++ rest) -> linked (page_next_of st) cur rest -> (length rest < fuel)%nat ->
  exists R' st', invalidate_loop L P c fuel cur first last st = Some st' /\ dropped R st R' st' /\
  forall t, t ∈ R' <-> t ∈ R /\ forall n tb, (t, n) ∈ rest -> tbs st !! t = Some tb -> hit first last tb n = false.
Proof.
  intros Hpi. induction rest as [|[t n] rest IH]; intros [|fuel] cur kept R st Hi Hpl Hl Hf; simpl in Hf; try lia;
    inversion Hl as [|? nx ? H0 Hn Hl']; subst; cbn [invalidate_loop].
  - exists R, st. split; [done|]. split; [by apply dropped_refl|]. intros t. split; [|tauto]. intros Ht. split; [done|]. by intros ? ? ?%elem_of_nil.
  - rewrite (proj2 (Z.eqb_neq _ _) H0). assert ((t, n) ∈ kept ++ (t, n) :: rest) as Hin by (apply elem_of_app; right; left).
    pose proof (page_list_blocks P c _ _ _ _ (t, n) Hpl Hin) as [tb Ht]. cbn [fst snd] in *. rewrite Ht. cbn [mbind option_bind].
    destruct (tb_range L P tb n) as [s e] eqn:Er.
    assert (hit first last tb n = negb ((e <=? first) || (last <=? s)) || (s =? e)) as Eh by (unfold hit; by rewrite Er).
    rewrite <- Eh. destruct (hit first last tb n) eqn:Ehit.
    + assert (t ∈ R) as HR. { destruct Hpl as (_ & _ & Hx). apply Hx in Hin as [Hin _]. done. }
      destruct (do_invalidate_ok L P A c Hc R st t Hi HR) as (st1 & -> & Hv). cbn [mbind option_bind].
      destruct (iv_at _ _ _ _ _ _ _ _ Hv i kept n rest Hpi Hpl) as [Hpl1 Hnext].
      rewrite Hnext by left. rewrite Hn. cbn [mbind option_bind].
      destruct (IH fuel nx kept (R ∖ {[t]}) st1) as (R' & st' & -> & Hdr & Hmem); [apply Hv|done| |lia|].
      { eapply linked_frame; [exact Hl'|]. intros z Hz. apply Hnext. by right. }
      exists R', st'. split; [done|]. split; [eapply dropped_trans; [by eapply dropped_one|done]|].
      intros u. rewrite Hmem, elem_of_difference, elem_of_singleton. split.
      * intros [[Hu Hne] Hno]. split; [done|]. intros m b [Heq|Hm]%elem_of_cons Hb; [congruence|].
        destruct (same_lookup id _ _ _ _ (iv_same _ _ _ _ _ _ _ _ Hv) Hb) as (b' & Hb' & Eb). rewrite <- (hit_id _ _ b' b) by done. by apply (Hno m).
      * intros [Hu Hno]. split; [split; [done|]; intros ->; by rewrite (Hno n tb) in Ehit; [|left|]|].
        intros m b' Hm Hb'. destruct (same_lookup id _ _ _ _ (eq_sym (iv_same _ _ _ _ _ _ _ _ Hv)) Hb') as (b & Hb & Eb).
        rewrite <- (hit_id _ _ b b') by done. apply (Hno m); [by right|done].
    + cbn [mbind option_bind]. rewrite Hn. cbn [mbind option_bind].
      destruct (IH fuel nx (kept ++ [(t, n)]) R st) as (R' & st' & -> & Hdr & Hmem); [done|by rewrite <- app_assoc|done|lia|].
      exists R', st'. split; [done|]. split; [done|]. intros u. rewrite Hmem. split; intros [Hu Hno]; (split; [done|]).
      * intros m b [Heq|Hm]%elem_of_cons Hb; [congruence|]. by apply (Hno m).
      * intros m b Hm. apply (Hno m). by right.
Qed.

(** The blocks with an entry of the page that overlaps the range go. *)
Definition range_dropped (i first last : Z) (R : gset Z) st (R' : gset Z) st' : Prop :=
  dropped R st R' st' /\
  forall t, t ∈ R' <-> t ∈ R /\ forall n tb, entry st (t, n) i -> tbs st !! t = Some tb -> hit first last tb n = false.

Lemma range_locked_ok R st i d first last :
  tb_inv R st -> page_index i -> page_find c (l1_map st) i = Some d ->
  exists R' st', tb_invalidate_phys_page_range__locked L P c i first last st = Some st' /\ range_dropped i first last R st R' st'.
Proof.
  intros Hi Hpi Hd. unfold tb_invalidate_phys_page_range__locked. rewrite Hd. cbn [mbind option_bind].
  destruct (po_lists _ _ _ _ _ (ti_pages _ _ _ _ _ _ Hi) i Hpi) as [l Hpl]. pose proof Hpl as (Hl & Hnd & Hin). unfold page_at in Hl. rewrite Hd in Hl.
  destruct (invalidate_loop_ok i first last Hpi l (list_fuel st) (first_tb d) [] R st) as (R' & st' & -> & Hdr & Hmem); [done..| |].
  { apply list_fuel_ok; [done|]. intros x. by eapply page_list_blocks. }
  assert (range_dropped i first last R st R' st') as Hrd.
  { split; [done|]. intros t. rewrite Hmem. split; intros [Ht Hno]; (split; [done|]); intros n tb Hx Hb; apply (Hno n); try done.
    - by apply Hin.
    - by apply Hin in Hx as [_ Hx]. }
  cbn [mbind option_bind]. destruct (proj2 (dr_found _ _ _ _ Hdr i Hpi)) as [d' Hd']; [by rewrite Hd|]. rewrite Hd'. cbn [mbind option_bind].
  destruct ((first_tb d').1 =? 0); [|by exists R', st'].
  destruct (set_page_inv R' st' i d' invalidate_page_bitmap) as (st2 & -> & Hdr2 & _); [apply Hdr|done|done|done|done|].
  cbn [mbind option_bind]. eexists R', _. split; [done|]. split; [|apply Hrd]. apply with_call_inv. by eapply dropped_trans.
Qed.

(** ** The bytes of code *)

(** The address in RAM of byte [k] of a block. *)
Definition tb_byte (tb : TranslationBlock) (k : Z) : Z :=
  let x := pc_offset P tb + k in
  if x <? 2 ^ P then sel false (page_addr tb) + x else sel true (page_addr tb) + (x - 2 ^ P).

(** The block has code in the range. *)
Definition code_in (tb : TranslationBlock) (first last : Z) : Prop :=
  exists k, 0 <= k < tb_size (code tb) /\ first <= tb_byte tb k < last.

Lemma tb_byte_id a b k : id a = id b -> tb_byte a k = tb_byte b k.
Proof. intros (A1 & _ & A3)%id_eq. unfold tb_byte, pc_offset. by rewrite A1, A3. Qed.

Lemma code_in_id a b first last : id a = id b -> code_in a first last -> code_in b first last.
Proof.
  intros E (k & Hk & Hb). pose proof E as (A1 & _)%id_eq. exists k. rewrite <- A1. split; [done|]. by rewrite <- (tb_byte_id a b).
Qed.

Context (HP : 6 <= P <= L).

Lemma page_size_pos : 0 < 2 ^ P.
Proof. apply Z.pow_pos_nonneg; lia. Qed.

Lemma page_offset_mod x : page_offset P x = x mod 2 ^ P.
Proof. unfold page_offset, TARGET_PAGE_SIZE. replace (2 ^ P - 1) with (Z.ones P) by (rewrite Z.ones_equiv; lia). apply Z.land_ones. lia. Qed.

Lemma page_of_div x : page_of P x = x / 2 ^ P.
Proof. unfold page_of. apply Z.shiftr_div_pow2. lia. Qed.

Lemma pc_offset_bound tb : 0 <= pc_offset P tb < 2 ^ P.
Proof. unfold pc_offset. rewrite page_offset_mod. apply Z.mod_pos_bound, page_size_pos. Qed.

(** Where a block ends on its second page. *)
Definition tail (tb : TranslationBlock) : Z := page_offset P (wrap L (tb_pc (code tb) + tb_size (code tb))).

Lemma tail_mod tb : tail tb = (pc_offset P tb + tb_size (code tb)) mod 2 ^ P.
Proof.
  unfold tail. rewrite page_offset_mod. unfold wrap, pc_offset in *. rewrite page_offset_mod in *.
  pose proof page_size_pos. replace (2 ^ L) with (2 ^ P * 2 ^ (L - P)) by (rewrite <- Z.pow_add_r by lia; f_equal; lia).
  rewrite Z.rem_mul_r by (try apply Z.pow_pos_nonneg; lia). rewrite Z.mul_comm, Z.mod_add, Z.mod_mod by lia.
  by rewrite <- Z.add_mod_idemp_l by lia.
Qed.

Lemma tail_bound tb : 0 <= tail tb < 2 ^ P.
Proof. rewrite tail_mod. apply Z.mod_pos_bound, page_size_pos. Qed.

Lemma two_pages tb : shape L P tb -> sel true (page_addr tb) <> NO_PAGE -> 0 < tb_size (code tb) ->
  ram_page P (sel true (page_addr tb)) /\ 2 ^ P < pc_offset P tb + tb_size (code tb) < 2 * 2 ^ P /\
  tail tb = pc_offset P tb + tb_size (code tb) - 2 ^ P.
Proof.
  intros Hs Hno Hsz. pose proof (pc_offset_bound tb). destruct (sh_two L P tb Hs Hno) as [Hp [H2|H2]]; [|lia]. split; [done|]. split; [done|].
  rewrite tail_mod. symmetry. apply Z.mod_unique with 1; lia.
Qed.

Lemma tb_range_first tb : shape L P tb ->
  tb_range L P tb false = (sel false (page_addr tb) + pc_offset P tb, sel false (page_addr tb) + pc_offset P tb + tb_size (code tb)).
Proof.
  intros Hs. pose proof (pc_offset_bound tb). destruct (sh_page L P tb Hs) as (_ & Hlo & H64). pose proof (sh_size L P tb Hs).
  assert (pc_offset P tb + tb_size (code tb) < 2 * 2 ^ P) as Hsz.
  { destruct (decide (sel true (page_addr tb) = NO_PAGE)) as [E|E]; [pose proof (sh_one L P tb Hs E); lia|destruct (sh_two L P tb Hs E) as [_ [?|?]]; lia]. }
  unfold tb_range. fold (pc_offset P tb). unfold wrap. rewrite !Z.mod_small by lia. done.
Qed.

Lemma tb_range_second tb : shape L P tb -> sel true (page_addr tb) <> NO_PAGE ->
  tb_range L P tb true = (sel true (page_addr tb), sel true (page_addr tb) + tail tb).
Proof.
  intros Hs Hno. destruct (sh_two L P tb Hs Hno) as [(_ & Hlo & H64) _]. unfold tb_range. fold (tail tb). pose proof (tail_bound tb).
  unfold wrap. rewrite Z.mod_small by lia. done.
Qed.

(** A page that has a byte of code is one of the pages of the block. *)
Lemma ram_page_offset addr x : ram_page P addr -> 0 <= x < 2 ^ P -> page_of P (addr + x) = page_of P addr.
Proof.
  intros (Hm & _ & _) Hx. rewrite !page_of_div. apply Z.mod_divide in Hm as [q ->]; [|lia].
  rewrite Z.add_comm, Z.div_add, Z.div_mul, Z.div_small by lia. done.
Qed.

Lemma page_bounds addr i x : ram_page P addr -> page_of P addr = i -> page_of P x = i -> addr <= x < addr + 2 ^ P.
Proof.
  intros (Hm & _ & _) E Ex. rewrite page_of_div in *. pose proof page_size_pos. pose proof (Z.div_mod addr (2 ^ P) ltac:(lia)) as D1.
  pose proof (Z.div_mod x (2 ^ P) ltac:(lia)) as D2. pose proof (Z.mod_pos_bound x (2 ^ P) ltac:(lia)). rewrite E in D1. rewrite Ex in D2. lia.
Qed.

(** The test of the walk finds every block without instructions. *)
Lemma hit_empty tb n first last :
  shape L P tb -> tb_size (code tb) = 0 -> sel n (page_addr tb) <> NO_PAGE -> hit first last tb n = true.
Proof.
  intros Hs E Hno. unfold hit. destruct n.
  - rewrite tb_range_second by done. pose proof (pc_offset_bound tb). destruct (sh_two L P tb Hs Hno) as [_ [?|H2]]; [lia|].
    rewrite tail_mod, H2, Z.mod_0_l, Z.add_0_r, Z.eqb_refl, orb_true_r by lia. done.
  - by rewrite tb_range_first, E, Z.add_0_r, Z.eqb_refl, orb_true_r.
Qed.

(** Of the others it finds exactly those with code in the range. *)
Lemma hit_bytes tb i first last :
  shape L P tb -> 0 < tb_size (code tb) -> first < last -> page_of P first = i -> page_of P (last - 1) = i ->
  code_in tb first last <-> exists n, sel n (page_addr tb) <> NO_PAGE /\ page_of P (sel n (page_addr tb)) = i /\ hit first last tb n = true.
Proof.
  intros Hs Hsz Hlt E1 E2. pose proof (pc_offset_bound tb) as Hoff. pose proof (sh_page L P tb Hs) as Hp0.
  assert (forall n s e, tb_range L P tb n = (s, e) -> s < e -> hit first last tb n = true <-> first < e /\ s < last) as Hhit.
  { intros n s e Er Hse. unfold hit. rewrite Er. rewrite (proj2 (Z.eqb_neq s e)), orb_false_r by lia. rewrite negb_true_iff, orb_false_iff, !Z.leb_gt. tauto. }
  assert (sel false (page_addr tb) <> NO_PAGE) as Hno0.
  { intros E. rewrite E in Hp0. destruct Hp0 as (_ & _ & ?). unfold NO_PAGE in *. lia. }
  split.
  - intros (k & Hk & Hb). unfold tb_byte in Hb. destruct (Z.ltb_spec (pc_offset P tb + k) (2 ^ P)) as [Hx|Hx].
    + exists false. split; [done|]. split.
      * rewrite <- (ram_page_offset _ (pc_offset P tb + k)) by (done || lia). rewrite page_of_div in *.
        apply Z.le_antisymm; [rewrite <- E2|rewrite <- E1]; apply Z.div_le_mono; lia.
      * apply (Hhit _ _ _ (tb_range_first tb Hs)); lia.
    + assert (sel true (page_addr tb) <> NO_PAGE) as Hno by (intros E; pose proof (sh_one L P tb Hs E); lia).
      destruct (two_pages tb Hs Hno Hsz) as (Hp1 & Hsz2 & Et). exists true. split; [done|]. split.
      * rewrite <- (ram_page_offset _ (pc_offset P tb + k - 2 ^ P)) by (done || lia). rewrite page_of_div in *.
        apply Z.le_antisymm; [rewrite <- E2|rewrite <- E1]; apply Z.div_le_mono; lia.
      * apply (Hhit _ _ _ (tb_range_second tb Hs Hno)); lia.
  - intros ([] & Hno & Hi & Hh).
    + destruct (two_pages tb Hs Hno Hsz) as (Hp1 & Hsz2 & Et). apply (Hhit _ _ _ (tb_range_second tb Hs Hno)) in Hh as [H1 H2]; [|lia].
      pose proof (page_bounds _ _ _ Hp1 Hi E1). exists (Z.max first (sel true (page_addr tb)) - sel true (page_addr tb) + 2 ^ P - pc_offset P tb).
      split; [lia|]. unfold tb_byte. destruct (Z.ltb_spec (pc_offset P tb + (Z.max first (sel true (page_addr tb)) - sel true (page_addr tb) + 2 ^ P - pc_offset P tb)) (2 ^ P)); lia.
    + apply (Hhit _ _ _ (tb_range_first tb Hs)) in Hh as [H1 H2]; [|lia]. pose proof (page_bounds _ _ _ Hp0 Hi E1). pose proof (page_bounds _ _ _ Hp0 Hi E2).
      exists (Z.max first (sel false (page_addr tb) + pc_offset P tb) - sel false (page_addr tb) - pc_offset P tb).
      split; [lia|]. unfold tb_byte. destruct (Z.ltb_spec (pc_offset P tb + (Z.max first (sel false (page_addr tb) + pc_offset P tb) - sel false (page_addr tb) - pc_offset P tb)) (2 ^ P)); lia.
Qed.

(** ** Ranges *)

(** A block that an invalidation of the range is for: it has code there, or it
    has no instructions and is on a page of the range. *)
Definition empty_on (tb : TranslationBlock) (i : Z) : Prop :=
  tb_size (code tb) = 0 /\ exists n, sel n (page_addr tb) <> NO_PAGE /\ page_of P (sel n (page_addr tb)) = i.

Definition touched (tb : TranslationBlock) (first last : Z) : Prop :=
  code_in tb first last \/ exists x, first <= x < last /\ empty_on tb (page_of P x).

Lemma touched_id a b first last : id a = id b -> touched a first last -> touched b first last.
Proof.
  intros E [Hin|(x & Hx & H1)]; [left; by apply (code_in_id a b)|right; exists x; split; [done|]].
  apply id_eq in E as (A1 & _ & A3). unfold empty_on in *. by rewrite <- A1, <- A3.
Qed.

(** Blocks with instructions are touched when they have code there. *)
Lemma touched_code tb first last : 0 < tb_size (code tb) -> touched tb first last <-> code_in tb first last.
Proof. intros Hs. split; [|by left]. intros [?|(x & _ & E & _)]; [done|lia]. Qed.

(** These blocks are dropped, and no others. *)
Definition code_dropped (first last : Z) (R : gset Z) st (R' : gset Z) st' : Prop :=
  dropped R st R' st' /\ forall t, t ∈ R' <-> t ∈ R /\ forall tb, tbs st !! t = Some tb -> ~ touched tb first last.

(** The blocks with code in the range are dropped, and no block that is not
    touched. *)
Definition write_dropped (first last : Z) (R : gset Z) st (R' : gset Z) st' : Prop :=
  dropped R st R' st' /\ forall t tb, t ∈ R -> tbs st !! t = Some tb ->
  (code_in tb first last -> t ∉ R') /\ (~ touched tb first last -> t ∈ R').

Lemma dropped_write first last R st R' st' : code_dropped first last R st R' st' -> write_dropped first last R st R' st'.
Proof.
  intros [H1' H2']. split; [done|]. intros t tb Ht Hb. rewrite H2'. split.
  - intros Hin [_ Hno]. apply (Hno tb Hb). by left.
  - intros Hno. split; [done|]. intros b Hb'. rewrite Hb in Hb'. by injection Hb' as <-.
Qed.

Lemma touched_hit tb i first last :
  shape L P tb -> first < last -> page_of P first = i -> page_of P (last - 1) = i ->
  touched tb first last <-> exists n, sel n (page_addr tb) <> NO_PAGE /\ page_of P (sel n (page_addr tb)) = i /\ hit first last tb n = true.
Proof.
  intros Hs Hlt E1 E2. destruct (decide (tb_size (code tb) = 0)) as [E0|E0].
  - split.
    + intros [(k & Hk & _)|(x & Hx & _ & n & Hno & Hp)]; [lia|]. exists n. split; [done|]. split; [|by apply hit_empty].
      rewrite Hp. rewrite page_of_div in *. apply Z.le_antisymm; [rewrite <- E2|rewrite <- E1]; apply Z.div_le_mono; lia.
    + intros (n & Hno & Hp & _). right. exists first. split; [lia|]. split; [done|]. exists n. by rewrite E1.
  - pose proof (sh_size L P tb Hs). rewrite touched_code by lia. apply hit_bytes; [done|lia|done..].
Qed.

Lemma range_dropped_code R st R' st' i first last :
  tb_inv R st -> first < last -> page_of P first = i -> page_of P (last - 1) = i ->
  range_dropped i first last R st R' st' -> code_dropped first last R st R' st'.
Proof.
  intros Hi Hlt E1 E2 [Hdr Hmem]. split; [done|]. intros t. rewrite Hmem. split; intros [Ht Hno]; (split; [done|]).
  - intros tb Hb Hc'. destruct (ti_blocks _ _ _ _ _ _ Hi t Ht) as (tb' & Hb' & Hlb). rewrite Hb in Hb'. injection Hb' as <-.
    apply (touched_hit tb i) in Hc' as (n & H1 & H2 & H3); [|apply Hlb|done..]. rewrite (Hno n tb) in H3; [done| |done]. by exists tb.
  - intros n tb (b & Hb & H1 & H2) Ht'. simpl in *. rewrite Hb in Ht'. injection Ht' as <-.
    destruct (ti_blocks _ _ _ _ _ _ Hi t Ht) as (tb' & Hb' & Hlb). rewrite Hb in Hb'. injection Hb' as <-.
    destruct (hit first last b n) eqn:Eh; [|done]. destruct (Hno b Hb). apply (touched_hit b i); [apply Hlb|done..|]. by exists n.
Qed.

(** A page without a descriptor has no code. *)
Lemma no_page_dropped R st i first last : tb_inv R st -> page_index i -> page_find c (l1_map st) i = None -> range_dropped i first last R st R st.
Proof.
  intros Hi Hpi Hno. split; [by apply dropped_refl|]. intros t. split; [|tauto]. intros Ht. split; [done|]. intros n tb He.
  destruct (po_lists _ _ _ _ _ (ti_pages _ _ _ _ _ _ Hi) i Hpi) as (l & Hl & _ & Hin). unfold page_at in Hl. rewrite Hno in Hl. cbn in Hl.
  assert ((t, n) ∈ l) as Hx by (by apply Hin). inversion Hl; subst; [by apply elem_of_nil in Hx|done].
Qed.

Lemma page_or_none_ok R st i first last :
  tb_inv R st -> page_index i -> first < last -> page_of P first = i -> page_of P (last - 1) = i ->
  exists R' st', match page_find c (l1_map st) i with None => Some st | Some _ => tb_invalidate_phys_page_range__locked L P c i first last st end = Some st' /\
  code_dropped first last R st R' st'.
Proof.
  intros Hi Hpi Hlt E1 E2. destruct (page_find c (l1_map st) i) as [d|] eqn:Hd.
  - destruct (range_locked_ok R st i d first last Hi Hpi Hd) as (R' & st' & -> & Hr). exists R', st'. split; [done|]. by apply (range_dropped_code R st R' st' i).
  - exists R, st. split; [done|]. apply (range_dropped_code R st R st i); [done..|]. by apply no_page_dropped.
Qed.

Lemma page_range_ok R st first last :
  tb_inv R st -> page_index (page_of P first) -> first < last -> page_of P (last - 1) = page_of P first ->
  exists R' st', tb_invalidate_phys_page_range L P c first last st = Some st' /\ code_dropped first last R st R' st'.
Proof. intros Hi Hpi Hlt E. by apply page_or_none_ok. Qed.

Lemma code_in_split tb first mid last : first <= mid <= last -> code_in tb first last <-> code_in tb first mid \/ code_in tb mid last.
Proof.
  intros Hm. split.
  - intros (k & Hk & Hb). destruct (Z.lt_ge_cases (tb_byte tb k) mid); [left|right]; exists k; (split; [done|lia]).
  - intros [(k & Hk & Hb)|(k & Hk & Hb)]; exists k; (split; [done|lia]).
Qed.

Lemma touched_split tb first mid last : first <= mid <= last -> touched tb first last <-> touched tb first mid \/ touched tb mid last.
Proof.
  intros Hm. unfold touched. rewrite (code_in_split tb first mid last) by done. split.
  - intros [[?|?]|(x & Hx & He)]; [by left; left|by right; left|]. destruct (Z.lt_ge_cases x mid); [left|right]; right; exists x; (split; [lia|done]).
  - intros [[?|(x & Hx & He)]|[?|(x & Hx & He)]]; [by left; left|right; exists x; split; [lia|done]|by left; right|right; exists x; split; [lia|done]].
Qed.

Lemma code_dropped_trans first mid last R st R1 st1 R2 st2 :
  first <= mid <= last -> code_dropped first mid R st R1 st1 -> code_dropped mid last R1 st1 R2 st2 -> code_dropped first last R st R2 st2.
Proof.
  intros Hm [A1 A2] [B1 B2]. split; [by eapply dropped_trans|]. intros t. rewrite B2, A2. split.
  - intros [[Ht H1] H2]. split; [done|]. intros tb Hb. rewrite (touched_split tb first mid last) by done. intros [Hin|Hin]; [by apply (H1 tb)|].
    destruct (same_lookup id _ _ _ _ (dr_same _ _ _ _ A1) Hb) as (tb' & Hb' & E). apply (H2 tb'); [done|]. by apply (touched_id tb tb').
  - intros [Ht Hno]. split; [split; [done|]|].
    + intros tb Hb Hin. apply (Hno tb Hb). rewrite (touched_split tb first mid last) by done. by left.
    + intros tb' Hb' Hin. destruct (same_lookup id _ _ _ _ (eq_sym (dr_same _ _ _ _ A1)) Hb') as (tb & Hb & E). apply (Hno tb Hb).
      rewrite (touched_split tb first mid last) by done. right. by apply (touched_id tb' tb).
Qed.

Lemma code_dropped_empty first last R st : tb_inv R st -> last <= first -> code_dropped first last R st R st.
Proof.
  intros Hi Hle. split; [by apply dropped_refl|]. intros t. split; [|tauto]. intros Ht. split; [done|]. intros tb _ [(k & _ & Hb)|(x & Hx & _)]; lia.
Qed.

Lemma page_index_bound x : 0 <= x < 2 ^ A -> page_index (page_of P x).
Proof.
  intros Hx. rewrite page_of_div. destruct (config_facts A P c Hc) as (bits & Hb & _ & Es & EA). pose proof page_size_pos. unfold TbPages.page_index.
  split; [apply Z.div_pos; lia|]. apply Z.div_lt_upper_bound; [done|]. rewrite <- Z.pow_add_r by lia. replace (P + (A - P)) with A by lia. lia.
Qed.

Lemma page_end first : first < (first / 2 ^ P + 1) * 2 ^ P <= first + 2 ^ P.
Proof. pose proof page_size_pos. pose proof (Z.div_mod first (2 ^ P) ltac:(lia)). pose proof (Z.mod_pos_bound first (2 ^ P) ltac:(lia)). nia. Qed.

Lemma same_page_below first x : first <= x < (first / 2 ^ P + 1) * 2 ^ P -> page_of P x = page_of P first.
Proof.
  intros Hx. rewrite !page_of_div. pose proof page_size_pos. apply Z.le_antisymm; [|apply Z.div_le_mono; lia].
  apply Z.lt_succ_r, Z.div_lt_upper_bound; [done|]. lia.
Qed.

Lemma sint_small x : - 2 ^ 63 <= x < 2 ^ 63 -> sint 64 x = x.
Proof.
  intros Hx. unfold sint, wrap. destruct (Z.lt_ge_cases x 0).
  - rewrite <- (Z.mod_add x 1), Z.mod_small by lia. change (2 ^ (64 - 1)) with (2 ^ 63). destruct (Z.ltb_spec (x + 1 * 2 ^ 64) (2 ^ 63)); lia.
  - rewrite Z.mod_small by lia. change (2 ^ (64 - 1)) with (2 ^ 63). destruct (Z.ltb_spec x (2 ^ 63)); lia.
Qed.

Lemma phys_range_loop_ok last : 0 <= last <= 2 ^ A -> last + 2 * 2 ^ P <= 2 ^ 63 -> forall fuel first R st,
  tb_inv R st -> 0 <= first -> first / 2 ^ P <= last / 2 ^ P + 1 -> last / 2 ^ P - first / 2 ^ P + 1 < Z.of_nat fuel ->
  exists R' st', phys_range_loop L P c fuel first ((first / 2 ^ P + 1) * 2 ^ P) last st = Some st' /\ code_dropped (Z.min first last) last R st R' st'.
Proof.
  intros Hl Hl63. pose proof page_size_pos. pose proof (page_end last) as Hend.
  assert (0 <= last / 2 ^ P) by (apply Z.div_pos; lia).
  induction fuel as [|fuel IH]; intros first R st Hi Hf0 Hfl Hfuel; [lia|]. cbn [phys_range_loop]. pose proof (page_end first) as Hpe.
  rewrite sint_small by nia. destruct (Z.leb_spec (last - first) 0) as [Hle|Hlt].
  - exists R, st. split; [done|]. apply code_dropped_empty; [done|lia].
  - set (next := (first / 2 ^ P + 1) * 2 ^ P) in *.
    destruct (page_or_none_ok R st (page_of P first) first (Z.min next last)) as (R1 & st1 & -> & Hd1);
      [done|apply page_index_bound; lia|lia|done|apply same_page_below; fold next; lia|].
    cbn [mbind option_bind]. assert (next / 2 ^ P = first / 2 ^ P + 1) as En by (unfold next; by rewrite Z.div_mul by lia).
    assert (u64 (next + TARGET_PAGE_SIZE P) = (next / 2 ^ P + 1) * 2 ^ P) as ->.
    { unfold wrap, TARGET_PAGE_SIZE. rewrite En, Z.mod_small by nia. unfold next. lia. }
    destruct (IH next R1 st1) as (R2 & st2 & -> & Hd2); [apply Hd1|lia| |lia|].
    { rewrite En. pose proof (Z.div_le_mono first last (2 ^ P)). lia. }
    exists R2, st2. split; [done|]. rewrite (Z.min_l first) by lia. eapply code_dropped_trans; [|exact Hd1|exact Hd2]. lia.
Qed.

Lemma phys_range_ok page_mask R st first last :
  tb_inv R st -> 0 <= first -> Z.land first page_mask = first - first mod 2 ^ P -> first <= last <= 2 ^ A -> last + 2 * 2 ^ P <= 2 ^ 63 ->
  exists R' st', tb_invalidate_phys_range L P page_mask c first last st = Some st' /\ code_dropped first last R st R' st'.
Proof.
  intros Hi Hf0 Hmask Hl Hl63. pose proof page_size_pos. unfold tb_invalidate_phys_range, page_start. rewrite Hmask.
  pose proof (Z.div_mod first (2 ^ P) ltac:(lia)). pose proof (page_end first).
  replace (u64 (first - first mod 2 ^ P + TARGET_PAGE_SIZE P)) with ((first / 2 ^ P + 1) * 2 ^ P).
  2: { unfold wrap, TARGET_PAGE_SIZE. rewrite Z.mod_small; lia. }
  assert (0 <= (last - first) / 2 ^ P) by (apply Z.div_pos; lia).
  assert (last / 2 ^ P <= first / 2 ^ P + (last - first) / 2 ^ P + 1).
  { pose proof (Z.mod_pos_bound first (2 ^ P)). pose proof (Z.div_mod (last - first) (2 ^ P) ltac:(lia)). pose proof (Z.mod_pos_bound (last - first) (2 ^ P)).
    apply Z.lt_succ_r, Z.div_lt_upper_bound; [done|]. nia. }
  destruct (phys_range_loop_ok last ltac:(lia) Hl63 (Z.to_nat ((last - first) / TARGET_PAGE_SIZE P) + 3) first R st Hi Hf0) as (R' & st' & -> & Hd).
  { pose proof (Z.div_le_mono first last (2 ^ P)). lia. }
  { unfold TARGET_PAGE_SIZE. rewrite Nat2Z.inj_add, Z2Nat.id by lia. lia. }
  exists R', st'. split; [done|]. by rewrite Z.min_l in Hd by lia.
Qed.

(** ** Bitmaps *)

Lemma new_bitmap_ok : page_bitmap P (bitmap_new (TARGET_PAGE_SIZE P)).
Proof.
  split; [by apply Forall_replicate; unfold uint; lia|]. unfold bits_of, bitmap_new, TARGET_PAGE_SIZE. rewrite length_replicate. pose proof page_size_pos. zdiv.
Qed.

Lemma bitmap_range_ok tb n : shape L P tb -> (n = true -> sel true (page_addr tb) <> NO_PAGE) -> 0 <= (bitmap_range L P tb n).1 <= (bitmap_range L P tb n).2 /\ (bitmap_range L P tb n).2 <= 2 ^ P.
Proof.
  intros Hs Hn. pose proof (pc_offset_bound tb). pose proof (sh_size L P tb Hs). unfold bitmap_range. destruct n; cbn [fst snd].
  - fold (tail tb). pose proof (tail_bound tb). lia.
  - fold (pc_offset P tb). unfold TARGET_PAGE_SIZE. lia.
Qed.

Lemma bitmap_loop_ok st l : forall fuel cur b,
  linked (page_next_of st) cur l -> (length l < fuel)%nat -> page_bitmap P b ->
  (forall x, x ∈ l -> exists tb, tbs st !! x.1 = Some tb /\ shape L P tb /\ sel x.2 (page_addr tb) <> NO_PAGE) ->
  exists b', bitmap_loop L P st fuel cur b = Some b' /\ page_bitmap P b' /\ (forall k, 0 <= k -> bit b k = true -> bit b' k = true) /\
  forall x tb, x ∈ l -> tbs st !! x.1 = Some tb -> covers L P b' tb x.2.
Proof.
  induction l as [|x l IH]; intros [|fuel] cur b Hl Hf Hb Hblk; simpl in Hf; try lia;
    inversion Hl as [|? nx ? Hx0 Hn Hl']; subst; cbn [bitmap_loop].
  - exists b. split; [done|]. split; [done|]. split; [done|]. by intros ? ? ?%elem_of_nil.
  - rewrite (proj2 (Z.eqb_neq _ _) Hx0). destruct (Hblk x) as (tb & Ht & Hs & Hno); [left|]. rewrite Ht. cbn [mbind option_bind].
    unfold page_next_of in Hn. rewrite Ht in Hn. injection Hn as Hn. rewrite Hn.
    destruct (bitmap_range_ok tb x.2 Hs) as [R1 R2]; [by intros <-|]. destruct Hb as [Hbw Hbl]. destruct (bitmap_range L P tb x.2) as [s e] eqn:Er. cbn [fst snd] in *.
    destruct (update_range_ok true set_mask b s (e - s) set_masks Hbw) as (b1 & E1 & Hb1 & Hlen & Hbits); [lia..|]. unfold qemu_bitmap_set. rewrite E1. cbn [mbind option_bind].
    destruct (IH fuel nx b1 Hl') as (b' & -> & Hb' & Hmono & Hcov); [lia|by split; [|unfold bits_of; rewrite Hlen]|intros y Hy; apply Hblk; by right|].
    exists b'. split; [done|]. split; [done|]. split.
    + intros k Hk Hbk. apply Hmono; [done|]. rewrite Hbits, Hbk by done. by case_bool_decide.
    + intros y yb [->|Hy]%elem_of_cons Hyb; [|by apply Hcov]. rewrite Ht in Hyb. injection Hyb as <-. intros k. rewrite Er. cbn [fst snd]. intros Hk.
      apply Hmono; [lia|]. rewrite Hbits by lia. by rewrite bool_decide_true by lia.
Qed.

Lemma build_bitmap_ok R st i d :
  tb_inv R st -> page_index i -> page_find c (l1_map st) i = Some d ->
  exists st', build_page_bitmap L P c i st = Some st' /\ dropped R st R st' /\ tbs st' = tbs st /\ is_Some (page_find c (l1_map st') i).
Proof.
  intros Hi Hpi Hd. unfold build_page_bitmap. rewrite Hd. cbn [mbind option_bind].
  destruct (po_lists _ _ _ _ _ (ti_pages _ _ _ _ _ _ Hi) i Hpi) as [l Hpl]. pose proof Hpl as (Hl & Hnd & Hin). unfold page_at in Hl. rewrite Hd in Hl.
  destruct (bitmap_loop_ok st l (list_fuel st) (first_tb d) (bitmap_new (TARGET_PAGE_SIZE P)) Hl) as (b & -> & Hb & _ & Hcov).
  { apply list_fuel_ok; [done|]. intros x. by eapply page_list_blocks. }
  { apply new_bitmap_ok. }
  { intros x (Hx & tb & Ht & Hno & _)%Hin. exists tb. split; [done|]. destruct (ti_blocks _ _ _ _ _ _ Hi x.1 Hx) as (tb' & Ht' & Hlb).
    rewrite Ht in Ht'. injection Ht' as <-. split; [apply Hlb|done]. }
  cbn [mbind option_bind]. destruct (set_page_inv R st i d (fun d => mk_pd (first_tb d) (Some b) (code_write_count d))) as (st' & -> & Hdr & Et & Hf); [done..| |].
  - intros b' [= <-]. split; [done|]. intros x tb Hx He Ht. apply Hcov; [by apply Hin|done].
  - exists st'. split; [done|]. split; [done|]. split; [done|]. by rewrite Hf.
Qed.

(** The test of the bits of a write that is in one word. *)
Lemma bitmap_test b nr len :
  page_bitmap P b -> 0 <= nr < 2 ^ P -> 0 < len -> nr mod 64 + len <= 64 ->
  exists w, word b (BIT_WORD nr) = Some w /\
    (Z.land (Z.shiftr w (Z.land nr (BITS_PER_LONG - 1))) (Z.shiftl 1 len - 1) = 0 -> forall k, nr <= k < nr + len -> bit b k = false).
Proof.
  intros [Hwf Hsz] Hnr Hlen Hw. destruct (word_bits b (BIT_WORD nr) Hwf) as (w & -> & _ & Hu & Hb); [zdiv|]. exists w. split; [done|]. intros E k Hk.
  assert (nr = 64 * BIT_WORD nr + nr mod 64 /\ 0 <= nr mod 64 < 64) as [Hdm Hmb] by zdiv. change (BITS_PER_LONG - 1) with 63 in E. rewrite land_63 in E.
  apply (f_equal (fun z => Z.testbit z (k - nr))) in E. rewrite Z.shiftl_1_l in E. replace (2 ^ len - 1) with (Z.ones len) in E by (rewrite Z.ones_equiv; lia).
  rewrite Z.land_spec, Z.ones_spec_low, andb_true_r, Z.shiftr_spec, Z.bits_0, Hb in E by lia. rewrite <- E. f_equal. lia.
Qed.

(** A byte that a write hits is on its page and has one of its offsets. *)
Lemma write_page addr x start len :
  ram_page P addr -> 0 <= x < 2 ^ P -> start mod 2 ^ P + len <= 2 ^ P -> start <= addr + x < start + len ->
  page_of P addr = page_of P start /\ start mod 2 ^ P <= x < start mod 2 ^ P + len.
Proof.
  intros (Hm & _ & _) Hx Hfit Hin. pose proof page_size_pos. pose proof (Z.div_mod start (2 ^ P) ltac:(lia)) as Hdm.
  pose proof (Z.mod_pos_bound start (2 ^ P) ltac:(lia)). apply Z.mod_divide in Hm as [q ->]; [|lia]. rewrite !page_of_div, Z.div_mul by lia.
  assert (q = start / 2 ^ P) as ->; [|split; [done|lia]].
  transitivity ((q * 2 ^ P + x) / 2 ^ P); [rewrite Z.add_comm, Z.div_add, Z.div_small; lia|].
  symmetry. apply Z.div_unique with (q * 2 ^ P + x - 2 ^ P * (start / 2 ^ P)); lia.
Qed.

Lemma word_in_page start len : start mod 64 + len <= 64 -> start mod 2 ^ P + len <= 2 ^ P.
Proof.
  intros Hw. replace (2 ^ P) with (64 * 2 ^ (P - 6)) by (change 64 with (2 ^ 6); rewrite <- Z.pow_add_r by lia; f_equal; lia).
  assert (0 < 2 ^ (P - 6)) by (apply Z.pow_pos_nonneg; lia). rewrite Z.rem_mul_r by lia.
  pose proof (Z.mod_pos_bound (start / 64) (2 ^ (P - 6)) ltac:(lia)). nia.
Qed.

(** A write is on one page. *)
Lemma write_one_page start len x : start mod 64 + len <= 64 -> start <= x < start + len -> page_of P x = page_of P start.
Proof.
  intros Hw Hx. pose proof page_size_pos. rewrite !page_of_div.
  pose proof (word_in_page start len Hw).
  pose proof (Z.div_mod start (2 ^ P) ltac:(lia)). pose proof (Z.mod_pos_bound start (2 ^ P) ltac:(lia)).
  symmetry. apply Z.div_unique with (x - 2 ^ P * (start / 2 ^ P)); lia.
Qed.

(** A bitmap without a bit for the write shows that there is no code. *)
Lemma bitmap_no_code R st i d b start len :
  tb_inv R st -> page_index i -> page_find c (l1_map st) i = Some d -> code_bitmap d = Some b -> page_of P start = i ->
  start mod 64 + len <= 64 -> (forall k, start mod 2 ^ P <= k < start mod 2 ^ P + len -> bit b k = false) ->
  write_dropped start (start + len) R st R st.
Proof.
  intros Hi Hpi Hd Hb Ep Hw Hbits. split; [by apply dropped_refl|]. intros t tb Ht Htb. split; [|done]. intros (k & Hk & Hin) _.
  destruct (ti_blocks _ _ _ _ _ _ Hi t Ht) as (tb' & Htb' & Hlb). rewrite Htb in Htb'. injection Htb' as <-. pose proof (lb_shape _ _ _ _ Hlb) as Hs.
  pose proof (pc_offset_bound tb) as Hoff. pose proof (word_in_page start len Hw) as Hfit.
  assert (forall n, sel n (page_addr tb) <> NO_PAGE -> page_of P (sel n (page_addr tb)) = page_of P start -> covers L P b tb n) as Hcov.
  { intros n Hno Hpn. destruct (ti_bitmaps _ _ _ _ _ _ Hi i b Hpi) as [_ Hcv]; [by unfold page_at; rewrite Hd|]. apply (Hcv (t, n)); [done| |done]. exists tb. simpl. by rewrite Hpn, Ep. }
  unfold tb_byte in Hin. destruct (Z.ltb_spec (pc_offset P tb + k) (2 ^ P)) as [Hx|Hx].
  - pose proof (sh_page _ _ _ Hs) as Hp0. destruct (write_page _ (pc_offset P tb + k) start len Hp0 ltac:(lia) Hfit Hin) as [Epg Hk2].
    assert (bit b (pc_offset P tb + k) = true) as Hbit; [|by rewrite Hbits in Hbit].
    apply (Hcov false); [intros E; destruct Hp0 as (_ & _ & Hp0); rewrite E in Hp0; unfold NO_PAGE in Hp0; lia|done|].
    unfold bitmap_range. fold (pc_offset P tb). unfold TARGET_PAGE_SIZE. cbn [fst snd]. lia.
  - assert (sel true (page_addr tb) <> NO_PAGE) as Hno by (intros E; pose proof (sh_one L P tb Hs E); lia).
    destruct (two_pages tb Hs Hno ltac:(lia)) as (Hp1 & Hsz2 & Et). destruct (write_page _ (pc_offset P tb + k - 2 ^ P) start len Hp1 ltac:(lia) Hfit Hin) as [Epg Hk2].
    assert (bit b (pc_offset P tb + k - 2 ^ P) = true) as Hbit; [|by rewrite Hbits in Hbit].
    apply (Hcov true); [done|done|]. unfold bitmap_range. fold (tail tb). cbn [fst snd]. lia.
Qed.

(** The writes that count on the way to a bitmap change nothing else. *)
Lemma bitmap_built R st i d :
  tb_inv R st -> page_index i -> page_find c (l1_map st) i = Some d ->
  exists st', match code_bitmap d with
    | Some _ => Some st
    | None =>
      st ← set_page c i (fun d0 => mk_pd (first_tb d0) (code_bitmap d0) (u32 (code_write_count d + 1))) st;
      if SMC_BITMAP_USE_THRESHOLD <=? u32 (code_write_count d + 1) then build_page_bitmap L P c i st else Some st
    end = Some st' /\ dropped R st R st' /\ tbs st' = tbs st /\ is_Some (page_find c (l1_map st') i).
Proof.
  intros Hi Hpi Hd. destruct (code_bitmap d) as [b|] eqn:Eb.
  - exists st. split; [done|]. split; [by apply dropped_refl|]. split; [done|]. by rewrite Hd.
  - destruct (set_page_inv R st i d (fun d => mk_pd (first_tb d) (code_bitmap d) (u32 (code_write_count d + 1)))) as (st1 & E1 & Hdr1 & Et1 & Hf1); [done..| |].
    { simpl. rewrite Eb. done. }
    assert (set_page c i (fun d0 => mk_pd (first_tb d0) (code_bitmap d0) (u32 (code_write_count d + 1))) st = Some st1) as ->.
    { revert E1. unfold set_page. by rewrite Hd. }
    cbn [mbind option_bind]. destruct (_ <=? _).
    + destruct (build_bitmap_ok R st1 i _ (dr_inv _ _ _ _ Hdr1) Hpi Hf1) as (st2 & -> & Hdr2 & Et2 & Hf2). exists st2.
      split; [done|]. split; [by eapply dropped_trans|]. split; [congruence|done].
    + exists st1. split; [done|]. split; [done|]. split; [done|]. by rewrite Hf1.
Qed.

Lemma write_dropped_same first last R st st1 R' st' : dropped R st R st1 -> tbs st1 = tbs st -> write_dropped first last R st1 R' st' -> write_dropped first last R st R' st'.
Proof. intros Hdr Et [H1' H2']. split; [by eapply dropped_trans|]. intros t tb Ht. rewrite <- Et. by apply H2'. Qed.

Lemma page_fast_ok R st start len :
  tb_inv R st -> page_index (page_of P start) -> 0 <= start -> 0 < len -> start mod 64 + len <= 64 -> start + len < 2 ^ 64 ->
  exists R' st', tb_invalidate_phys_page_fast L P c start len st = Some st' /\ write_dropped start (start + len) R st R' st'.
Proof.
  intros Hi Hpi Hs0 Hlen Hw H64. unfold tb_invalidate_phys_page_fast. cbn zeta. pose proof page_size_pos. pose proof (word_in_page start len Hw) as Hfit.
  pose proof (Z.div_mod start (2 ^ P) ltac:(lia)). assert (page_of P (start + len - 1) = page_of P start) as Elast by (apply same_page_below; lia).
  destruct (page_find c (l1_map st) (page_of P start)) as [d|] eqn:Hd.
  2: { exists R, st. split; [done|]. apply dropped_write, (range_dropped_code R st R st (page_of P start)); [done|lia|done|done|]. by apply no_page_dropped. }
  destruct (bitmap_built R st _ d Hi Hpi Hd) as (st1 & -> & Hdr1 & Et1 & [d1 Hd1]). cbn [mbind option_bind]. rewrite Hd1. cbn [mbind option_bind].
  destruct (range_locked_ok R st1 _ d1 start (start + len) (dr_inv _ _ _ _ Hdr1) Hpi Hd1) as (R' & st' & Er & Hr).
  assert (write_dropped start (start + len) R st R' st') as Hrange.
  { apply (write_dropped_same _ _ R st st1); [done|done|]. apply dropped_write, (range_dropped_code R st1 R' st' (page_of P start)); [apply Hdr1|lia|done|done|done]. }
  assert (u64 (start + len) = start + len) as -> by (apply Z.mod_small; lia).
  destruct (code_bitmap d1) as [b|] eqn:Eb; [|by exists R', st'].
  destruct (ti_bitmaps _ _ _ _ _ _ (dr_inv _ _ _ _ Hdr1) (page_of P start) b Hpi) as [Hpb _]; [by unfold page_at; rewrite Hd1|].
  rewrite page_offset_mod. destruct (bitmap_test b (start mod 2 ^ P) len Hpb) as (w & -> & Hbits); [apply Z.mod_pos_bound; lia|lia| |].
  { replace (2 ^ P) with (64 * 2 ^ (P - 6)) by (change 64 with (2 ^ 6); rewrite <- Z.pow_add_r by lia; f_equal; lia).
    assert (0 < 2 ^ (P - 6)) by (apply Z.pow_pos_nonneg; lia). rewrite Z.rem_mul_r by lia. rewrite Z.mul_comm, Z.mod_add, Z.mod_mod by lia. done. }
  cbn [mbind option_bind]. destruct (Z.eqb_spec (Z.land (Z.shiftr w (Z.land (start mod 2 ^ P) (BITS_PER_LONG - 1))) (Z.shiftl 1 len - 1)) 0) as [Ez|Ez]; cbn [negb]; [|by exists R', st'].
  exists R, st1. split; [done|]. apply (write_dropped_same _ _ R st st1); [done|done|].
  apply (bitmap_no_code R st1 (page_of P start) d1 b); [apply Hdr1|done..|]. by apply Hbits.
Qed.
End invalidate.
