(* ===== verification/TbLink.v ===== *)
(** * Linking, chaining and finding blocks

    A block that is linked joins the set of the invariant unless one for the
    same code is there already; patched jumps lead to valid blocks; what a
    lookup finds was never invalidated; a flush leaves nothing. *)

From S2P Require Import Prelude Bitmap BitmapProofs SoftTlb QhtProofs TbPages TbCache TbLists TbPageLists TbJumps TbInvariant TbInvalidate.

(** ** Hashes *)

Lemma lxor_range w a b : 0 <= w -> uint w a -> uint w b -> uint w (Z.lxor a b).
Proof.
  intros Hw Ha Hb. unfold uint in *. assert (Z.lxor a b = Z.lxor a b mod 2 ^ w) as ->; [|apply Z.mod_pos_bound, Z.pow_pos_nonneg; lia].
  apply Z.bits_inj'. intros k Hk. destruct (Z.lt_ge_cases k w); [by rewrite Z.mod_pow2_bits_low|].
  rewrite Z.mod_pow2_bits_high by lia. rewrite Z.lxor_spec.
  rewrite <- (Z.mod_small a (2 ^ w)), <- (Z.mod_small b (2 ^ w)) by lia. by rewrite !Z.mod_pow2_bits_high by lia.
Qed.

Lemma hash_range phys_pc pc flags cf_mask dstate : uint 32 (tb_hash_func phys_pc pc flags cf_mask dstate).
Proof.
  unfold tb_hash_func, qemu_xxhash7. cbv zeta. set (h := u32 _). assert (uint 32 h) as Hh by (apply wrap_range; lia). 
  apply lxor_range; [lia|done|]. rewrite Z.shiftr_div_pow2 by lia. unfold uint in *. split; [apply Z.div_pos; lia|].
  apply Z.div_lt_upper_bound; lia.
Qed.

Section link.
Context {T : Type} `{HashTable T, !HashTableLaws T}.
Context (L P A : Z) (c : page_config) (Hc : page_table_config_init A P = Some c) (HP : 6 <= P <= L).
Implicit Types st : tb_state (T := T).

Abbreviation page_index := (TbPages.page_index A P).
Abbreviation tb_inv := (TbInvariant.tb_inv L P A c).
Abbreviation entry := (TbPageLists.entry P).

(** What is needed for the invariant of another set of blocks, when their code
    and jumps are the same. *)
Lemma relink_inv R R' st st' :
  tb_inv R st -> R ⊆ R' -> jm <$> tbs st' = jm <$> tbs st -> tb_jmp_cache st' = tb_jmp_cache st ->
  pages_ok P A c (of_set R') st' -> (forall t, t ∈ R' -> exists tb, tbs st' !! t = Some tb /\ live_block L P A tb) ->
  ht_ok (tb_cmp st') (htable st') ->
  (forall h t, (h, t) ∈ ht_elems (htable st') <-> t ∈ R' /\ exists tb, tbs st' !! t = Some tb /\ h = hash_of tb (phys_of P tb)) ->
  bitmaps_ok L P A c R' st' -> tb_inv R' st'.
Proof.
  intros Hi HR Ejm Ec Hp Hb Ht He Hbm.
  split; try done.
  - apply (jumps_ok_jm st); [done|apply Hi].
  - intros y d Hj Hd. apply HR. apply (ti_dests _ _ _ _ _ _ Hi y); [|done]. by apply (jumps_jm st st').
  - intros i. rewrite Ec. intros Hnz. destruct (ti_cache _ _ _ _ _ _ Hi i Hnz) as [V1 V2]. split; [by apply HR|].
    intros b' Hb'. destruct (same_lookup jm _ _ _ _ (eq_sym Ejm) Hb') as (b & Hbt & E). unfold jm in E. injection E as Ecode _ _ _ _.
    rewrite <- Ecode. by apply V2.
Qed.

(** ** Jumps *)

Lemma add_jump_inv R st t n t_next tb next :
  tb_inv R st -> tbs st !! t = Some tb -> tbs st !! t_next = Some next -> (cf_set next CF_INVALID = false -> t_next ∈ R) ->
  exists st', tb_add_jump t n t_next st = Some st' /\ tb_inv R st' /\
  forall y d, jumps st' y d <-> if bool_decide (y = (t, n) /\ cf_set next CF_INVALID = false /\ sel n (jmp_dest tb) = null_link) then d = t_next else jumps st y d.
Proof.
  intros Hi Ht Hnext HnR.
  assert (forall y d, (cf_set next CF_INVALID = true \/ sel n (jmp_dest tb) <> null_link) -> jumps st y d <->
    if bool_decide (y = (t, n) /\ cf_set next CF_INVALID = false /\ sel n (jmp_dest tb) = null_link) then d = t_next else jumps st y d) as Hno.
  { intros y d Hd. rewrite bool_decide_false; [done|]. intros (_ & E1 & E2). destruct Hd; congruence. }
  destruct (cf_set next CF_INVALID) eqn:Hv.
  { exists st. split; [|split; [done|]; intros y d; apply Hno; by left]. unfold tb_add_jump. rewrite Ht, Hnext. cbn. by rewrite Hv. }
  destruct (decide (sel n (jmp_dest tb) = null_link)) as [Hd|Hd].
  2: { exists st. split; [|split; [done|]; intros y d; apply Hno; by right]. unfold tb_add_jump. rewrite Ht, Hnext. cbn. rewrite Hv. by rewrite bool_decide_false. }
  destruct (add_jump_ok st t n t_next tb next (ti_jumps _ _ _ _ _ _ Hi) Ht Hnext Hv Hd) as (st' & -> & [Hs Hok Hj]). exists st'. split; [done|].
  destruct (jump_step_pg _ _ Hs) as (Epg & Eid & Ef). destruct Hs as [_ Em Eht Ec].
  destruct Hi as [I1 I2 I3 I4 I5 I6 I7 I8]. split.
  2: { intros y d. rewrite Hj. destruct (decide (y = (t, n))); [by rewrite bool_decide_true|by rewrite bool_decide_false by tauto]. }
  split; [by apply (pages_ok_pg P A c _ st)| |done| | | | |].
  - intros u Hu. destruct (I2 u Hu) as (b & Hb & Hlb). destruct (same_lookup id _ _ _ _ Eid Hb) as (b' & Hb' & Eb).
    destruct (same_lookup tb_cflags _ _ _ _ Ef Hb) as (b2 & Hb2 & Ef2). rewrite Hb' in Hb2. injection Hb2 as <-. exists b'. split; [done|].
    apply (live_id L P A b b'); [done|done| |done]. pose proof (lb_unmarked _ _ _ _ Hlb) as B5. intros m. rewrite B5.
    destruct (sel m (jmp_dest b')) as [d mk] eqn:Em'. simpl. destruct mk; [|done].
    destruct (sel m (jmp_dest b)) as [d0 mk0] eqn:E0. specialize (B5 m). rewrite E0 in B5. simpl in B5. subst mk0.
    destruct (decide ((u, m) = (t, n))) as [Heq|Hne].
    + assert (jumps st' (u, m) t_next) as (b2 & Hb2 & E2) by (apply Hj; by rewrite decide_True). simpl in *. congruence.
    + assert (jumps st' (u, m) d0) as (b2 & Hb2 & E2) by (apply Hj; rewrite decide_False by done; by exists b). simpl in *. congruence.
  - intros y d Hyd Hd0. apply Hj in Hyd. destruct (decide (y = (t, n))) as [_|_]; [|by apply (I4 y)]. subst d. by apply HnR.
  - rewrite Eht. by apply (ht_ok_id st).
  - rewrite Eht. by apply (elems_id P R st).
  - intros i. rewrite Ec. intros Hnz. destruct (I7 i Hnz) as [V1 V2]. split; [done|]. intros b' Hb'.
    destruct (same_lookup id _ _ _ _ (eq_sym Eid) Hb') as (b & Hb & (E & _)%id_eq). rewrite <- E. by apply V2.
  - apply (bitmaps_id L P A c Hc R R st); [done|done|by rewrite Em|done].
Qed.

(** ** The jump cache *)

Lemma hash_page_same a b : Z.shiftr a P = Z.shiftr b P -> tb_jmp_cache_hash_page P a = tb_jmp_cache_hash_page P b.
Proof.
  intros E. unfold tb_jmp_cache_hash_page, TB_JMP_PAGE_BITS, TB_JMP_CACHE_BITS. change (12 / 2) with 6. apply Z.bits_inj'. intros k Hk.
  rewrite !Z.land_spec. destruct (Z.lt_ge_cases k 6) as [Hlow|Hhigh].
  - assert (Z.testbit TB_JMP_PAGE_MASK k = false) as ->; [|by rewrite !andb_false_r].
    change TB_JMP_PAGE_MASK with (Z.shiftl 63 6). by rewrite Z.shiftl_spec_low.
  - f_equal. rewrite !Z.shiftr_spec, !Z.lxor_spec, !Z.shiftr_spec by lia.
    assert (forall j, P <= j -> Z.testbit a j = Z.testbit b j) as Hbits.
    { intros j Hj. apply (f_equal (fun z => Z.testbit z (j - P))) in E. rewrite !Z.shiftr_spec in E by lia. by replace (j - P + P) with j in E by lia. }
    by rewrite !Hbits by lia.
Qed.

Lemma hash_func_split pc : exists r, tb_jmp_cache_hash_func P pc = tb_jmp_cache_hash_page P pc + r /\ 0 <= r < TB_JMP_PAGE_SIZE.
Proof.
  unfold tb_jmp_cache_hash_func. fold (tb_jmp_cache_hash_page P pc). set (tmp := Z.lxor _ _). exists (Z.land tmp TB_JMP_ADDR_MASK). split.
  - assert (Z.land (tb_jmp_cache_hash_page P pc) (Z.land tmp TB_JMP_ADDR_MASK) = 0) as E.
    { unfold tb_jmp_cache_hash_page. apply Z.bits_inj'. intros k Hk. rewrite !Z.land_spec, Z.bits_0.
      change TB_JMP_PAGE_MASK with (Z.shiftl 63 6). change TB_JMP_ADDR_MASK with (Z.ones 6). destruct (Z.lt_ge_cases k 6).
      - rewrite Z.shiftl_spec_low by done. by rewrite !andb_false_r.
      - rewrite Z.ones_spec_high by lia. by rewrite !andb_false_r. }
    by rewrite Z.add_nocarry_lxor, Z.lxor_lor by done.
  - change TB_JMP_ADDR_MASK with (Z.ones 6). rewrite Z.land_ones by lia. change TB_JMP_PAGE_SIZE with (2 ^ 6). apply Z.mod_pos_bound. lia.
Qed.

Lemma hash_page_range a : 0 <= tb_jmp_cache_hash_page P a <= TB_JMP_CACHE_SIZE - TB_JMP_PAGE_SIZE.
Proof.
  unfold tb_jmp_cache_hash_page. set (x := Z.shiftr _ _). change (TB_JMP_CACHE_SIZE - TB_JMP_PAGE_SIZE) with 4032. change TB_JMP_PAGE_MASK with (Z.land (Z.ones 12) (Z.shiftl 63 6)).
  rewrite Z.land_assoc, Z.land_ones by lia. set (y := x mod 2 ^ 12). assert (0 <= y < 2 ^ 12) as Hy by (apply Z.mod_pos_bound; lia). clearbody y.
  assert (Z.land y (Z.shiftl 63 6) = 64 * (y / 64)) as ->.
  { replace (64 * (y / 64)) with (Z.shiftl (Z.shiftr y 6) 6) by (rewrite Z.shiftl_mul_pow2, Z.shiftr_div_pow2 by lia; change (2 ^ 6) with 64; lia).
    apply Z.bits_inj'. intros k Hk. rewrite Z.land_spec. destruct (Z.lt_ge_cases k 6); [by rewrite !Z.shiftl_spec_low, andb_false_r by done|].
    rewrite !Z.shiftl_spec, Z.shiftr_spec by lia. replace (k - 6 + 6) with k by lia. destruct (Z.lt_ge_cases k 12).
    - change 63 with (Z.ones 6). by rewrite Z.ones_spec_low, andb_true_r by lia.
    - rewrite <- (Z.mod_small y (2 ^ 12)), Z.mod_pow2_bits_high by lia. done. }
  pose proof (Z.div_pos y 64). assert (y / 64 < 64) by (apply Z.div_lt_upper_bound; lia). lia.
Qed.

Lemma hash_func_range pc : 0 <= tb_jmp_cache_hash_func P pc < TB_JMP_CACHE_SIZE.
Proof. destruct (hash_func_split pc) as (r & -> & Hr). pose proof (hash_page_range pc). lia. Qed.

(** Entries of the jump cache may be dropped. *)
Lemma cache_inv R st f : tb_inv R st -> (forall i, f i = 0 \/ f i = tb_jmp_cache st i) -> tb_inv R (with_jmp_cache f st).
Proof.
  intros Hi Hf. pose proof (ti_cache _ _ _ _ _ _ Hi) as Hcache. destruct Hi as [I1 I2 I3 I4 I5 I6 _ I8].
  split; try done; [by apply (pages_ok_pg P A c _ st)|by apply (jumps_ok_jm st)|]. intros i. simpl. destruct (Hf i) as [->| ->]; [done|]. apply Hcache.
Qed.

Lemma clear_page_ok R st page :
  tb_inv R st -> tb_inv R (tb_jmp_cache_clear_page P page st) /\
  forall pc, Z.shiftr pc P = Z.shiftr page P -> tb_jmp_cache (tb_jmp_cache_clear_page P page st) (tb_jmp_cache_hash_func P pc) = 0.
Proof.
  intros Hi. split.
  - apply cache_inv; [done|]. intros i. cbn. destruct (_ && _); [by left|by right].
  - intros pc E. cbn. destruct (hash_func_split pc) as (r & -> & Hr). rewrite (hash_page_same pc page) by done.
    destruct (Z.leb_spec (tb_jmp_cache_hash_page P page) (tb_jmp_cache_hash_page P page + r)); [|lia].
    destruct (Z.ltb_spec (tb_jmp_cache_hash_page P page + r) (tb_jmp_cache_hash_page P page + TB_JMP_PAGE_SIZE)); [done|lia].
Qed.

Lemma clear_page_zero st page i : tb_jmp_cache st i = 0 -> tb_jmp_cache (tb_jmp_cache_clear_page P page st) i = 0.
Proof. intros E. simpl. rewrite E. by destruct (_ && _). Qed.

Lemma flush_jmp_cache_ok R st addr :
  tb_inv R st -> tb_inv R (tb_flush_jmp_cache L P addr st) /\
  forall pc, Z.shiftr pc P = Z.shiftr addr P \/ Z.shiftr pc P = Z.shiftr (wrap L (addr - 2 ^ P)) P ->
    tb_jmp_cache (tb_flush_jmp_cache L P addr st) (tb_jmp_cache_hash_func P pc) = 0.
Proof.
  intros Hi. unfold tb_flush_jmp_cache. destruct (clear_page_ok R st (wrap L (addr - TARGET_PAGE_SIZE P)) Hi) as [H1' H2'].
  destruct (clear_page_ok R _ addr H1') as [H3' H4']. split; [done|]. intros pc [E|E]; [by apply H4'|].
  by apply clear_page_zero, H2'.
Qed.

(** ** Flush *)

Lemma cache_flush_ok R st : tb_inv R st -> exists st', tb_flush c st = Some st' /\ tb_inv ∅ st' /\ forall i, tb_jmp_cache st' i = 0.
Proof.
  intros Hi. unfold tb_flush. destruct (ht_reset_ok _ _ (ti_table _ _ _ _ _ _ Hi)) as (ht & -> & Hok & Hel). cbn [mbind option_bind]. eexists. split; [done|].
  set (st' := mk_state _ _ _ _ _ _). destruct (page_flush_ok A P c Hc (l1_map st) (po_table _ _ _ _ _ (ti_pages _ _ _ _ _ _ Hi))) as [Hm Hz].
  assert (forall i, tb_jmp_cache st' i = 0) as Hcache.
  { intros i. simpl. destruct ((0 <=? i) && (i <? TB_JMP_CACHE_SIZE)) eqn:E; [done|]. destruct (decide (tb_jmp_cache st i = 0)) as [|Hnz]; [done|].
    destruct (ti_cache _ _ _ _ _ _ Hi i Hnz) as [HR Hpc]. destruct (ti_blocks _ _ _ _ _ _ Hi _ HR) as (tb & Ht & _). pose proof (hash_func_range (tb_pc (code tb))) as Hr. rewrite (Hpc tb Ht) in Hr.
    apply andb_false_iff in E. rewrite Z.leb_gt, Z.ltb_ge in E. lia. }
  split; [|done]. split.
  - split; [done|]. intros i Hi'. exists []. split; [|split; [constructor|]].
    + unfold page_at. simpl. fold (page_at c (page_flush_tb c (l1_map st)) i). rewrite Hz. constructor.
    + intros x. split; [by intros ?%elem_of_nil|]. intros [Hx _]. unfold of_set in Hx. set_solver.
  - set_solver.
  - split; [done|by intros ? ? ?|by intros ? ? ? ?].
  - intros y d (tb & Ht & _). done.
  - apply (ht_ok_ext (tb_cmp st)); [|done]. intros h p q. change (htable st') with ht. rewrite Hel. by intros ?%elem_of_nil.
  - intros h t. simpl. rewrite Hel, elem_of_nil. set_solver.
  - intros i. by rewrite Hcache.
  - intros i b _ Hb. change (l1_map st') with (page_flush_tb c (l1_map st)) in Hb. by rewrite Hz in Hb.
Qed.

(** ** Lookups *)

Lemma flags_valid_back f cf_mask : Z.land f CF_INVALID = 0 -> Z.land f (Z.lor CF_HASH_MASK CF_INVALID) = cf_mask -> Z.land f CF_HASH_MASK = cf_mask.
Proof. intros Hz E. by rewrite <- E, Z.land_lor_distr_r, Hz, Z.lor_0_r. Qed.

Section lookup.
Context (page_mask : Z) (get_page_addr_code : Z -> Z).
Context (pc cs_base flags cf_mask dstate : Z).

(** The block is for the code that is asked for. *)
Definition wanted (tb : TranslationBlock) : Prop :=
  tb_pc (code tb) = pc /\ tb_cs_base (code tb) = cs_base /\ tb_flags (code tb) = flags /\ tb_dstate (code tb) = dstate /\
  Z.land (tb_cflags tb) (Z.lor CF_HASH_MASK CF_INVALID) = cf_mask.

(** Its pages are where the guest addresses lead. *)
Definition in_place (tb : TranslationBlock) : Prop :=
  sel false (page_addr tb) = page_start page_mask (get_page_addr_code pc) /\
  (sel true (page_addr tb) = NO_PAGE \/ sel true (page_addr tb) = get_page_addr_code (wrap L (wrap L (pc - page_offset P pc) + TARGET_PAGE_SIZE P))).

Lemma lookup_cmp_spec st t tb : tbs st !! t = Some tb ->
  tb_lookup_cmp L P get_page_addr_code st pc cs_base flags cf_mask (page_start page_mask (get_page_addr_code pc)) dstate t = true <-> wanted tb /\ in_place tb.
Proof.
  intros Ht. unfold tb_lookup_cmp, wanted, in_place. rewrite Ht. rewrite !andb_true_iff, orb_true_iff, !Z.eqb_eq. tauto.
Qed.

Lemma htable_lookup_ok R st :
  tb_inv R st -> (get_page_addr_code pc <> NO_PAGE -> uint 64 (get_page_addr_code pc) /\ page_start page_mask (get_page_addr_code pc) + page_offset P pc = get_page_addr_code pc) ->
  match tb_htable_lookup L P page_mask get_page_addr_code st pc cs_base flags cf_mask dstate with
  | Some t => t ∈ R /\ exists tb, tbs st !! t = Some tb /\ wanted tb /\ in_place tb
  | None => get_page_addr_code pc = NO_PAGE \/ forall t tb, t ∈ R -> tbs st !! t = Some tb -> ~ (wanted tb /\ in_place tb)
  end.
Proof.
  intros Hi Hphys. unfold tb_htable_lookup. destruct (Z.eqb_spec (get_page_addr_code pc) NO_PAGE) as [E|E]; [by left|].
  destruct (Hphys E) as [H64 Hsum]. set (cmp := tb_lookup_cmp _ _ _ _ _ _ _ _ _ _).
  pose proof (ht_lookup_ok _ cmp (htable st) _ (ti_table _ _ _ _ _ _ Hi) (hash_range (get_page_addr_code pc) pc flags cf_mask dstate)) as Hf. destruct (ht_lookup _ _ _) as [t|]; cbn in Hf.
  - destruct Hf as [Hin Hcmp]. apply (ti_elems _ _ _ _ _ _ Hi) in Hin as (HR & tb & Ht & _). split; [done|]. exists tb. split; [done|]. by apply (lookup_cmp_spec st t).
  - right. intros t tb HR Ht [Hw Hp]. assert (cmp t = true) as Hcmp by (by apply (lookup_cmp_spec st t tb)). rewrite Hf in Hcmp; [done|].
    apply (ti_elems _ _ _ _ _ _ Hi). split; [done|]. exists tb. split; [done|].
    destruct (ti_blocks _ _ _ _ _ _ Hi t HR) as (tb' & Ht' & Hlb). rewrite Ht in Ht'. injection Ht' as <-.
    destruct Hw as (W1 & W2 & W3 & W4 & W5). destruct Hp as [P1 _].
    assert (Z.land (tb_cflags tb) CF_HASH_MASK = cf_mask) as Ef.
    { apply flags_valid_back; [|done]. pose proof (lb_valid _ _ _ _ Hlb) as Hv. unfold cf_set in Hv. by apply negb_false_iff, Z.eqb_eq in Hv. }
    unfold hash_of, phys_of, pc_offset. rewrite W1, W3, W4, Ef, P1, Hsum. by rewrite wrap_id.
Qed.
End lookup.

(** The lookup of the emulation loop: whatever it finds is linked and for the
    code that is asked for. *)
Lemma cpu_lookup_ok page_mask g pc cs_base flags cf_mask cluster dstate R st :
  tb_inv R st -> (g pc <> NO_PAGE -> uint 64 (g pc) /\ page_start page_mask (g pc) + page_offset P pc = g pc) ->
  let '(r, st') := tb_lookup__cpu_state L P page_mask g pc cs_base flags cf_mask cluster dstate st in
  tb_inv R st' /\ tbs st' = tbs st /\
  match r with
  | Some t => t ∈ R /\ exists tb, tbs st !! t = Some tb /\ wanted pc cs_base flags (cluster_mask cf_mask cluster) dstate tb
  | None => g pc = NO_PAGE \/ forall t tb, t ∈ R -> tbs st !! t = Some tb ->
      ~ (wanted pc cs_base flags (cluster_mask cf_mask cluster) dstate tb /\ in_place page_mask g pc tb)
  end.
Proof.
  intros Hi Hphys. unfold tb_lookup__cpu_state. cbv zeta. set (m := cluster_mask cf_mask cluster) in *. set (h := tb_jmp_cache_hash_func P pc).
  destruct (match tbs st !! tb_jmp_cache st h with Some tb => _ | None => false end) eqn:Ehit.
  - destruct (tbs st !! tb_jmp_cache st h) as [tb|] eqn:Ht; [|done]. split; [done|]. split; [done|].
    rewrite !andb_true_iff, negb_true_iff, Z.eqb_neq, !Z.eqb_eq in Ehit. split; [apply (ti_cache _ _ _ _ _ _ Hi); tauto|]. exists tb. split; [done|].
    unfold wanted. tauto.
  - pose proof (htable_lookup_ok page_mask g pc cs_base flags m dstate R st Hi Hphys) as Hl. destruct (tb_htable_lookup _ _ _ _ _ _ _ _ _ _) as [t|]; [|done].
    destruct Hl as (HR & tb & Ht & Hw & Hp). split; [|split; [done|]; split; [done|]; by exists tb].
    pose proof (ti_cache _ _ _ _ _ _ Hi) as Hcache. destruct Hi as [I1 I2 I3 I4 I5 I6 _ I8].
    split; try done; [by apply (pages_ok_pg P A c _ st)|by apply (jumps_ok_jm st)|]. intros i. cbn. unfold upd. destruct (Z.eqb_spec i h) as [->|]; [|apply Hcache].
    intros _. split; [done|]. intros tb' Ht'. cbn in Ht'. rewrite Ht in Ht'. injection Ht' as <-. destruct Hw as (-> & _). done.
Qed.

(** ** Linking *)

(** Another table with the same descriptors. *)
Lemma with_l1_inv R st m : tb_inv R st -> table_ok c m -> (forall j, page_at c m j = page_at c (l1_map st) j) -> tb_inv R (with_l1 m st).
Proof.
  intros Hi Hm Hat. destruct Hi as [[_ I1] I2 I3 I4 I5 I6 I7 I8]. split; try done.
  - split; [done|]. intros i Hpi. destruct (I1 i Hpi) as (l & L1 & L2). exists l. split; [|done]. simpl. by rewrite Hat.
  - by apply (jumps_ok_jm st).
  - intros i b Hpi. simpl. rewrite Hat. by apply I8.
Qed.

(** A field of a block that is in no list. *)
Lemma page_addr_ok (E : link -> Prop) st t n tb a : pages_ok P A c E st -> tbs st !! t = Some tb -> ~ E (t, n) ->
  pages_ok P A c E (with_tbs (<[t := with_page_addr n a tb]> (tbs st)) st).
Proof.
  intros [Hm Hl] Ht HnE. split; [done|]. intros i Hpi. destruct (Hl i Hpi) as (l & L1 & L2 & L3). exists l. split; [|split; [done|]].
  - simpl. eapply linked_frame; [exact L1|]. intros z _. unfold page_next_of. simpl. destruct (decide (z.1 = t)) as [->|Hz]; [by rewrite lookup_insert_eq, Ht|by rewrite lookup_insert_ne].
  - intros [u m]. rewrite L3. unfold TbPageLists.entry. simpl. destruct (decide (u = t)) as [->|Hu]; [|by rewrite lookup_insert_ne].
    rewrite lookup_insert_eq, Ht. destruct (decide (m = n)) as [->|Hm']; [tauto|].
    split; intros (HE & b & [= <-] & Hb); (split; [done|]); eexists; (split; [done|]); cbn in *; by rewrite sel_put_ne in *.
Qed.

(** The descriptors that linking allocates. *)
Definition link_table (m : l1_table) (p p2 : Z) (two : bool) : l1_table :=
  if two && negb (p2 =? p) then page_alloc c (page_alloc c m p) p2 else page_alloc c m p.

Lemma link_table_ok m p p2 two : table_ok c m ->
  table_ok c (link_table m p p2 two) /\ (forall j, page_at c (link_table m p p2 two) j = page_at c m j) /\
  is_Some (page_find c (link_table m p p2 two) p) /\ (two = true -> is_Some (page_find c (link_table m p p2 two) p2)).
Proof.
  intros Hm. destruct (page_alloc_ok c m p Hm) as (H1' & H2' & H3'). destruct (page_alloc_ok c _ p2 H1') as (H4' & H5' & H6').
  unfold link_table. destruct two; cbn [andb].
  - destruct (Z.eqb_spec p2 p) as [->|Hne]; cbn [negb]; [by rewrite H2'|]. split; [done|]. split; [intros j; by rewrite H6'|].
    rewrite H5'. split; [|done]. apply page_alloc_found. by rewrite H2'.
  - by rewrite H2'.
Qed.

(** The block with the addresses of its pages. *)
Definition at_pages (tb : TranslationBlock) (addr addr2 : Z) : TranslationBlock := with_page_addr true addr2 (with_page_addr false addr tb).

Record pages_added (R : gset Z) st st' (t : Z) (tb : TranslationBlock) (addr addr2 : Z) : Prop := {
  pa_pages : pages_ok P A c (of_set (R ∪ {[t]})) st';
  pa_tbs : exists tb', tbs st' = <[t := tb']> (tbs st) /\ page_addr tb' = (addr, addr2) /\ jm tb' = jm tb /\ tb_cflags tb' = tb_cflags tb;
  pa_htable : htable st' = htable st;
  pa_cache : tb_jmp_cache st' = tb_jmp_cache st;
  pa_bitmaps : forall j, page_index j ->
    code_bitmap (page_at c (l1_map st') j) = if decide (j = page_of P addr \/ addr2 <> NO_PAGE /\ j = page_of P addr2) then None else code_bitmap (page_at c (l1_map st) j)
}.

Lemma link_pages_ok R st t tb addr addr2 :
  tb_inv R st -> t ∉ R -> t <> 0 -> tbs st !! t = Some tb -> placed P A (at_pages tb addr addr2) ->
  exists st1 st2, let p := page_of P addr in let p2 := page_of P addr2 in let two := negb (addr2 =? NO_PAGE) in
    tb_page_add c p t false addr (with_l1 (link_table (l1_map st) p p2 two) st) = Some st1 /\
    (if two then tb_page_add c p2 t true addr2 st1 else set_tb t (with_page_addr true NO_PAGE) st1) = Some st2 /\
    pages_added R st st2 t tb addr addr2.
Proof.
  intros Hi HR Ht0 Ht (P0 & P1 & P2). cbn in P0, P1, P2. cbn zeta. set (p := page_of P addr) in *. set (p2 := page_of P addr2) in *. set (two := negb (addr2 =? NO_PAGE)).
  destruct (link_table_ok (l1_map st) p p2 two (po_table _ _ _ _ _ (ti_pages _ _ _ _ _ _ Hi))) as (Hm & Hat & [d Hd] & Hd2).
  pose proof (with_l1_inv R st _ Hi Hm Hat) as Hi0. set (st0 := with_l1 _ st) in *.
  destruct (page_add_ok P A c Hc (of_set R) st0 p t false tb addr d) as (st1 & E1 & Et1 & Eht1 & Ec1 & Hp1 & Hb1 & Hf1);
    [apply Hi0|done|done|done|done|done|done|done|].
  set (tb1 := block_added tb false addr (first_tb d)) in *. assert (tbs st1 !! t = Some tb1) as Ht1 by (rewrite Et1; apply lookup_insert_eq).
  exists st1. unfold two in *. destruct (Z.eqb_spec addr2 NO_PAGE) as [E2|E2]; cbn [negb] in *.
  - eexists. split; [done|]. unfold set_tb. rewrite Ht1. cbn [mbind option_bind]. split; [done|]. split; cbn [tbs with_tbs htable tb_jmp_cache l1_map].
    + apply (pages_ok_ext P A c (fun x => of_set R x \/ x = (t, false))); [|apply page_addr_ok; [done|done|]; intros [?|?]; done].
      intros [u m] i (b & Hb & Hno & _). simpl in *. unfold of_set. simpl. rewrite elem_of_union, elem_of_singleton. split; [intros [?|[= -> _]]; tauto|].
      intros [?| ->]; [by left|]. right. destruct m; [|done]. rewrite lookup_insert_eq in Hb. injection Hb as <-. done.
    + rewrite Et1, insert_insert_eq. eexists. split; [done|]. by subst addr2.
    + done.
    + done.
    + intros j Hj. rewrite Hb1 by done. change (l1_map st0) with (link_table (l1_map st) p p2 false) in *. rewrite Hat.
      destruct (decide (j = p)) as [->|Hne]; [by rewrite decide_True by (by left)|rewrite decide_False; [done|]]. intros [?|[? _]]; done.
  - destruct (P2 E2) as [P3 P4]. destruct (Hd2 eq_refl) as [d2 Hd2'].
    destruct (proj2 (Hf1 p2 P3)) as [d2' Hd2'']; [by exists d2|].
    destruct (page_add_ok P A c Hc _ st1 p2 t true tb1 addr2 d2' Hp1 P3 Hd2'' Ht1) as (st2 & E3 & Et2 & Eht2 & Ec2 & Hp2 & Hb2 & Hf2);
      [done|intros [?|?]; done|done|done|].
    exists st2. split; [done|]. split; [done|]. split.
    + eapply pages_ok_ext; [|exact Hp2]. intros [u m] i _. unfold of_set. simpl. rewrite elem_of_union, elem_of_singleton.
      split; [intros [[?|[= -> _]]|[= -> _]]; tauto|]. intros [?| ->]; [by left; left|]. destruct m; [by right|by left; right].
    + rewrite Et2, Et1, insert_insert_eq. by eexists.
    + by rewrite Eht2, Eht1.
    + by rewrite Ec2, Ec1.
    + intros j Hj. rewrite Hb2, Hb1 by done. change (l1_map st0) with (link_table (l1_map st) p p2 true) in *. rewrite Hat.
      destruct (decide (j = p2)) as [->|Hne2]; [by rewrite decide_True by (by right)|]. destruct (decide (j = p)) as [->|Hne]; [by rewrite decide_True by (by left)|].
      rewrite decide_False; [done|tauto].
Qed.

Lemma bitmaps_added (R : gset Z) st st' t addr addr2 :
  bitmaps_ok L P A c R st ->
  (forall u b', u <> t -> tbs st' !! u = Some b' -> exists b, tbs st !! u = Some b /\ id b' = id b) ->
  (forall b', tbs st' !! t = Some b' -> page_addr b' = (addr, addr2)) ->
  (forall j b, page_index j -> code_bitmap (page_at c (l1_map st') j) = Some b ->
     code_bitmap (page_at c (l1_map st) j) = Some b /\ ~ (j = page_of P addr \/ addr2 <> NO_PAGE /\ j = page_of P addr2)) ->
  bitmaps_ok L P A c (R ∪ {[t]}) st'.
Proof.
  intros Hok Hothers Hmine Hbm i b Hpi Hb. destruct (Hbm i b Hpi Hb) as [Hb0 Hno]. destruct (Hok i b Hpi Hb0) as [B1 B2]. split; [done|]. intros x b' Hx He Hb'.
  destruct (decide (x.1 = t)) as [Ex|Ex].
  - destruct Hno. destruct He as (b2 & Hb2 & He1 & He2). rewrite Ex in Hb2. rewrite (Hmine b2 Hb2) in He1, He2. destruct x as [u []]; cbn in *; [by right|by left].
  - destruct (Hothers x.1 b' Ex Hb') as (b0 & Hb0' & E0). apply (covers_id L P b b' b0); [done|]. apply B2; [set_solver| |done].
    destruct He as (b2 & Hb2 & He). rewrite Hb' in Hb2. injection Hb2 as <-. exists b0. apply id_eq in E0 as (_ & _ & <-). done.
Qed.

(** Blocks that the table takes for the same have the same hash. *)
Lemma same_block_hash a b : same_block a b = true -> hash_of a (phys_of P a) = hash_of b (phys_of P b).
Proof.
  unfold same_block. rewrite !andb_true_iff, !Z.eqb_eq. intros ((((((E1 & E2) & E3) & E4) & E5) & E6) & E7).
  unfold hash_of, phys_of, pc_offset. by rewrite E1, E3, E4, E5, E6.
Qed.

Lemma same_block_sym a b : same_block a b = same_block b a.
Proof.
  unfold same_block. rewrite (Z.eqb_sym (tb_pc _)), (Z.eqb_sym (tb_cs_base _)), (Z.eqb_sym (tb_flags _)), (Z.eqb_sym (Z.land _ _)), (Z.eqb_sym (tb_dstate _)).
  by rewrite (Z.eqb_sym (sel false _)), (Z.eqb_sym (sel true _)).
Qed.

Lemma tb_cmp_sym st a b : tb_cmp st a b = tb_cmp st b a.
Proof. unfold tb_cmp. destruct (tbs st !! a), (tbs st !! b); try done. apply same_block_sym. Qed.

(** The table with a new block, or the block that it has already. *)
Lemma link_insert R st st3 t tb3 :
  tb_inv R st -> t ∉ R -> t <> 0 -> tbs st3 = <[t := tb3]> (tbs st) -> htable st3 = htable st ->
  exists prev ht, ht_insert (tb_cmp st3) (htable st3) t (hash_of tb3 (phys_of P tb3)) = Some (prev, ht) /\ ht_ok (tb_cmp st3) ht /\
  match prev with
  | None => (forall e b, e ∈ R -> tbs st !! e = Some b -> same_block b tb3 = false) /\
      forall h u, (h, u) ∈ ht_elems ht <-> u ∈ R ∪ {[t]} /\ exists b, tbs st3 !! u = Some b /\ h = hash_of b (phys_of P b)
  | Some e => (e ∈ R /\ exists b, tbs st !! e = Some b /\ same_block b tb3 = true) /\
      forall h u, (h, u) ∈ ht_elems ht <-> u ∈ R /\ exists b, tbs st3 !! u = Some b /\ h = hash_of b (phys_of P b)
  end.
Proof.
  intros Hi HR Ht0 Et Eht. rewrite Eht.
  assert (forall u, u ∈ R -> tbs st3 !! u = tbs st !! u) as Hu by (intros u Hu; rewrite Et, lookup_insert_ne by set_solver; done).
  assert (tbs st3 !! t = Some tb3) as Ht3 by (rewrite Et; apply lookup_insert_eq).
  assert (forall h u, (h, u) ∈ ht_elems (htable st) <-> u ∈ R /\ exists b, tbs st3 !! u = Some b /\ h = hash_of b (phys_of P b)) as Hel.
  { intros h u. rewrite (ti_elems _ _ _ _ _ _ Hi). split; intros (Hr & b & Hb & Eb); (split; [done|]); exists b; [by rewrite Hu|by rewrite <- Hu]. }
  assert (ht_ok (tb_cmp st3) (htable st)) as Hok.
  { apply (ht_ok_ext (tb_cmp st)); [|apply Hi]. intros h p q Hp Hq Hpq. destruct (ht_facts _ _ (ti_table _ _ _ _ _ _ Hi)) as (Hcmp & _).
    rewrite <- (Hcmp h p q Hp Hq Hpq). apply Hel in Hp as [Hp _], Hq as [Hq _]. unfold tb_cmp. by rewrite !Hu. }
  destruct (ht_insert_ok _ _ t (hash_of tb3 (phys_of P tb3)) Hok (tb_cmp_sym st3) (hash_range _ _ _ _ _) Ht0) as (prev & ht & E & Hok' & Hins).
  { intros ([h u] & Eu & [Hr _]%Hel)%list_elem_of_fmap. simpl in Eu. by subst u. }
  exists prev, ht. split; [done|]. split; [done|]. destruct prev as [e|]; destruct Hins as (Hperm & H3).
  - destruct H3 as (Hin & Hcmp). apply Hel in Hin as (Hr & b & Hb & _). unfold tb_cmp in Hcmp. rewrite Ht3, Hb in Hcmp. rewrite Hu in Hb by done.
    split; [split; [done|]; by exists b|]. intros h u. by rewrite Hperm.
  - split.
    + intros e b Hr Hb. destruct (same_block b tb3) eqn:Es; [|done]. pose proof (same_block_hash _ _ Es) as Ehash.
      assert (tb_cmp st3 e t = false) as Hcmp by (apply H3, Hel; split; [done|]; exists b; by rewrite Hu). unfold tb_cmp in Hcmp. rewrite Ht3, Hu, Hb in Hcmp by done. congruence.
    + intros h u. rewrite Hperm, elem_of_cons, Hel, elem_of_union, elem_of_singleton. split.
      * intros [[= -> ->]|[Hr Hb]]; [split; [by right|by exists tb3]|split; [by left|done]].
      * intros [[Hr| ->] Hb]; [by right|]. left. destruct Hb as (b & Hb & ->). rewrite Ht3 in Hb. injection Hb as <-. done.
Qed.

(** What linking gives: the block, or one for the same code that was there. *)
Definition linked_result (R : gset Z) st (t : Z) (tb : TranslationBlock) (r : Z) st' : Prop :=
  jm <$> tbs st' = jm <$> tbs st /\ tb_cflags <$> tbs st' = tb_cflags <$> tbs st /\ tb_jmp_cache st' = tb_jmp_cache st /\
  ((r = t /\ tb_inv (R ∪ {[t]}) st' /\ forall e b, e ∈ R -> tbs st !! e = Some b -> same_block b tb = false) \/
   (r ∈ R /\ tb_inv R st' /\ exists b, tbs st !! r = Some b /\ same_block b tb = true)).

(** The state in which the block is on its pages. *)
Lemma linked_new R st st4 t tb tb3 addr addr2 :
  tb_inv R st -> tbs st !! t = Some tb -> tbs st4 = <[t := tb3]> (tbs st) -> jm tb3 = jm tb -> tb_cflags tb3 = tb_cflags tb ->
  tb_jmp_cache st4 = tb_jmp_cache st -> pages_ok P A c (of_set (R ∪ {[t]})) st4 -> live_block L P A tb3 -> page_addr tb3 = (addr, addr2) ->
  ht_ok (tb_cmp st4) (htable st4) ->
  (forall h u, (h, u) ∈ ht_elems (htable st4) <-> u ∈ R ∪ {[t]} /\ exists b, tbs st4 !! u = Some b /\ h = hash_of b (phys_of P b)) ->
  bitmaps_ok L P A c (R ∪ {[t]}) st4 -> tb_inv (R ∪ {[t]}) st4.
Proof.
  intros Hi Ht Et Ejm Ef Ec Hp Hlb Epa Hok Hel Hbm. apply (relink_inv R _ st); try done.
  - set_solver.
  - rewrite Et. by apply (same_insert jm _ _ tb).
  - intros u [Hu| ->%elem_of_singleton]%elem_of_union.
    + destruct (decide (u = t)) as [->|Hne]; [exists tb3; rewrite Et, lookup_insert_eq; done|].
      rewrite Et, lookup_insert_ne by done. by apply (ti_blocks _ _ _ _ _ _ Hi).
    + exists tb3. by rewrite Et, lookup_insert_eq.
Qed.

(** Leaving the pages again. *)
Lemma leave_again R st4 t tb3 :
  pages_ok P A c (of_set (R ∪ {[t]})) st4 -> tbs st4 !! t = Some tb3 -> placed P A tb3 ->
  exists st5 st6, leave_page c (page_of P (sel false (page_addr tb3))) t st4 = Some st5 /\
  (if negb (sel true (page_addr tb3) =? NO_PAGE) then leave_page c (page_of P (sel true (page_addr tb3))) t st5 else Some st5) = Some st6 /\
  left_pages P A c (R ∪ {[t]}) st4 st6 t.
Proof.
  intros Hp Ht Hpl. assert (t ∈ R ∪ {[t]}) as Hin by set_solver. destruct (Z.eqb_spec (sel true (page_addr tb3)) NO_PAGE) as [E|E]; cbn [negb].
  - destruct (leave_one_page P A c Hc (R ∪ {[t]}) st4 t tb3 Hp Ht Hin Hpl E) as (st5 & E5 & Hl). by exists st5, st5.
  - destruct (leave_two_pages P A c Hc (R ∪ {[t]}) st4 t tb3 Hp Ht Hin Hpl E) as (st5 & st6 & E5 & E6 & Hl). by exists st5, st6.
Qed.

Lemma linked_again R st st4 st6 t tb tb3 :
  tb_inv R st -> t ∉ R -> tbs st !! t = Some tb -> tbs st4 = <[t := tb3]> (tbs st) -> jm tb3 = jm tb -> tb_cflags tb3 = tb_cflags tb ->
  tb_jmp_cache st4 = tb_jmp_cache st -> left_pages P A c (R ∪ {[t]}) st4 st6 t -> ht_ok (tb_cmp st4) (htable st4) ->
  (forall h u, (h, u) ∈ ht_elems (htable st4) <-> u ∈ R /\ exists b, tbs st4 !! u = Some b /\ h = hash_of b (phys_of P b)) ->
  bitmaps_ok L P A c (R ∪ {[t]}) st4 ->
  tb_inv R st6 /\ jm <$> tbs st6 = jm <$> tbs st /\ tb_cflags <$> tbs st6 = tb_cflags <$> tbs st.
Proof.
  intros Hi HR Ht Et Ejm Ef Ec [Q1 Q2 _ _ Q5 _] Hok Hel Hbm. destruct (page_step_jm _ _ Q1) as (Ejm6 & Eid6 & Ef6).
  assert (jm <$> tbs st6 = jm <$> tbs st) as Hjm by (rewrite Ejm6, Et; by apply (same_insert jm _ _ tb)).
  assert (tb_cflags <$> tbs st6 = tb_cflags <$> tbs st) as Hf by (rewrite Ef6, Et; by apply (same_insert tb_cflags _ _ tb)).
  split; [|done]. apply (relink_inv R _ st); try done.
  - by rewrite (ps_cache _ _ Q1).
  - eapply pages_ok_ext; [|exact Q2]. intros x i _. unfold of_set. set_solver.
  - intros u Hu. destruct (ti_blocks _ _ _ _ _ _ Hi u Hu) as (b & Hb & Hlb). assert (tbs st4 !! u = Some b) as Hb4 by (rewrite Et, lookup_insert_ne by set_solver; done).
    destruct (page_step_lookup _ _ _ _ Q1 Hb4) as (b6 & Hb6 & E6). exists b6. split; [done|]. apply no_next_eq in E6 as (E1 & E2 & E3 & _ & _ & _ & E7 & _).
    apply (live_id L P A b b6); [unfold id; by rewrite E1, E2, E3|done|intros m; by rewrite E7|done].
  - rewrite (ps_htable _ _ Q1). by apply (ht_ok_id st4).
  - rewrite (ps_htable _ _ Q1). by apply (elems_id P R st4).
  - apply (bitmaps_id L P A c Hc (R ∪ {[t]}) R st4); [done|set_solver|done|done].
Qed.

Lemma link_page_ok page_mask R st t tb phys_pc phys_page2 :
  tb_inv R st -> t ∉ R -> t <> 0 -> tbs st !! t = Some tb -> phys_pc <> NO_PAGE -> uint 64 phys_pc ->
  page_start page_mask phys_pc + pc_offset P tb = phys_pc -> live_block L P A (at_pages tb (page_start page_mask phys_pc) phys_page2) ->
  exists r st', tb_link_page P page_mask c t phys_pc phys_page2 st = Some (r, st') /\
  linked_result R st t (at_pages tb (page_start page_mask phys_pc) phys_page2) r st'.
Proof.
  intros Hi HR Ht0 Ht Hno H64 Hsum Hlb. set (addr := page_start page_mask phys_pc) in *. pose proof (lb_placed _ _ _ _ Hlb) as Hpl. pose proof (lb_shape _ _ _ _ Hlb) as Hsh.
  assert (page_of P phys_pc = page_of P addr) as Epg. { rewrite <- Hsum. apply (ram_page_offset L P HP); [apply (sh_page _ _ _ Hsh)|apply (pc_offset_bound L P HP)]. }
  unfold tb_link_page. rewrite Ht. cbn [mbind option_bind]. rewrite (proj2 (Z.eqb_neq _ _) Hno). cbn zeta. rewrite Epg. fold addr.
  destruct (link_pages_ok R st t tb addr phys_page2 Hi HR Ht0 Ht Hpl) as (st1 & st2 & E1 & E2 & [A1 (tb2 & A2 & A3 & A4 & A5) A6 A7 A8]).
  unfold link_table in E1. rewrite E1. cbn [mbind option_bind]. rewrite E2. cbn [mbind option_bind].
  assert (tbs st2 !! t = Some tb2) as Ht2 by (rewrite A2; apply lookup_insert_eq). rewrite Ht2. cbn [mbind option_bind].
  assert (id tb2 = id (at_pages tb addr phys_page2)) as Eid2. { unfold id. rewrite A3, A5. unfold jm in A4. injection A4 as -> _ _ _ _. done. }
  assert (cf_set tb2 CF_NOCACHE = false) as ->. { unfold cf_set. rewrite A5. apply (lb_cached _ _ _ _ Hlb). }
  assert (phys_of P tb2 = phys_pc) as Ephys. { rewrite (phys_of_id P tb2 _ Eid2). change (u64 (addr + pc_offset P tb) = phys_pc). rewrite Hsum. by apply wrap_id. }
  unfold set_tb at 1. rewrite Ht2. cbn [mbind option_bind]. set (h := hash_of tb2 phys_pc). set (tb3 := with_hash h tb2). set (st3 := with_tbs _ st2).
  assert (tbs st3 = <[t := tb3]> (tbs st)) as Et3 by (unfold st3; simpl; by rewrite A2, insert_insert_eq).
  assert (id tb3 = id tb2) as Eid3 by reflexivity. 
  destruct (link_insert R st st3 t tb3 Hi HR Ht0 Et3 A6) as (prev & ht & E3 & Hok & Hprev).
  rewrite (hash_of_id tb3 tb2 _ Eid3), (phys_of_id P tb3 tb2 Eid3), Ephys in E3. fold h in E3. rewrite E3. cbn [mbind option_bind].
  set (st4 := with_htable ht st3). assert (live_block L P A tb3) as Hlb3.
  { apply (live_id L P A (at_pages tb addr phys_page2) tb3); [exact Eid2|exact A5| |done]. intros m. cbn. unfold jm in A4. injection A4 as _ _ _ _ E. cbn. by rewrite E. }
  assert (pages_ok P A c (of_set (R ∪ {[t]})) st4) as Hp4. { apply (pages_ok_pg P A c _ st2); [|done|done]. apply (same_insert pg _ _ tb2); done. }
  assert (bitmaps_ok L P A c (R ∪ {[t]}) st4) as Hbm4.
  { apply (bitmaps_added R st st4 t addr phys_page2); [apply Hi| | |].
    - intros u b' Hne. change (tbs st4) with (tbs st3). rewrite Et3, lookup_insert_ne by done. intros Hb. by exists b'.
    - intros b'. change (tbs st4) with (tbs st3). rewrite Et3, lookup_insert_eq. intros [= <-]. done.
    - intros j b Hj. change (l1_map st4) with (l1_map st2). rewrite A8 by done. by destruct (decide _). }
  assert (forall x, same_block x (at_pages tb addr phys_page2) = same_block x tb3) as Hsame by (intros x; by apply same_block_id; [|rewrite Eid3]).
  destruct prev as [e|]; destruct Hprev as [Hprev Hel].
  - destruct (leave_again R st4 t tb3 Hp4) as (st5 & st6 & E5 & E6 & Hl); [change (tbs st4) with (tbs st3); by rewrite Et3, lookup_insert_eq|apply Hlb3|].
    change (page_addr tb3) with (page_addr tb2) in E5, E6. rewrite A3 in E5, E6. cbn [sel fst snd] in E5, E6. rewrite E5. cbn [mbind option_bind]. rewrite E6. cbn [mbind option_bind].
    exists e, st6. split; [done|].
    destruct (linked_again R st st4 st6 t tb tb3 Hi HR Ht) as (H1' & H2' & H3'); [done..|]. split; [done|]. split; [done|].
    split; [by rewrite (ps_cache _ _ (ls_step _ _ _ _ _ _ _ Hl))|]. right. split; [apply Hprev|]. split; [done|].
    destruct Hprev as (_ & b & Hb & Es). exists b. by rewrite Hsame.
  - exists t, st4. split; [done|]. assert (jm <$> tbs st4 = jm <$> tbs st /\ tb_cflags <$> tbs st4 = tb_cflags <$> tbs st) as [Hjm4 Hf4].
    { change (tbs st4) with (tbs st3). rewrite Et3. split; [by apply (same_insert jm _ _ tb)|by apply (same_insert tb_cflags _ _ tb)]. }
    split; [done|]. split; [done|]. split; [done|]. left. split; [done|]. split; [by apply (linked_new R st st4 t tb tb3 addr phys_page2)|].
    intros e b Hr Hb. rewrite Hsame. by apply (Hprev e).
Qed.
End link.
