(* ===== verification/TbSteps.v ===== *)
(** * Blocks that are generated, and all steps

    A new block that is linked, or given up for one that is there already, keeps
    the invariant; so do all operations on the cache, in any order. *)

From S2P Require Import Prelude SoftTlb QhtProofs TbPages TbCache TbLists TbPageLists TbJumps TbInvariant TbInvalidate TbLink.

Section steps.
Context {T : Type} `{HashTable T, !HashTableLaws T}.
Context (L P A : Z) (c : page_config) (Hc : page_table_config_init A P = Some c) (HP : 6 <= P < L).
Implicit Types st : tb_state (T := T).

Abbreviation page_index := (TbPages.page_index A P).
Abbreviation tb_inv := (TbInvariant.tb_inv L P A c).

(** ** A store with a block more or less *)

(** Two stores that are the same but for the block [t], without jumps. *)
Record one_more (t : Z) st st' : Prop := {
  om_others : forall u, u <> t -> tbs st' !! u = tbs st !! u;
  om_l1 : l1_map st' = l1_map st;
  om_htable : htable st' = htable st;
  om_cache : tb_jmp_cache st' = tb_jmp_cache st;
  om_self : forall tb n, tbs st !! t = Some tb -> sel n (jmp_dest tb) = null_link
}.

Lemma one_more_pages R t st st' : one_more t st st' -> t ∉ R -> pages_ok P A c (of_set R) st -> pages_ok P A c (of_set R) st'.
Proof.
  intros [Ho Em _ _ _] HR [Hm Hl]. split; [by rewrite Em|]. intros i Hpi. destruct (Hl i Hpi) as (l & L1 & L2 & L3). exists l. split; [|split; [done|]].
  - rewrite Em. eapply linked_frame; [exact L1|]. intros z [Hz _]%L3. unfold page_next_of. rewrite Ho; [done|]. unfold of_set in Hz. congruence.
  - intros x. rewrite L3. unfold of_set, entry. destruct (decide (x.1 = t)) as [->|Hx]; [tauto|]. by rewrite Ho.
Qed.

(** Jumps to blocks are the same. *)
Lemma one_more_jumps t st st' y d : one_more t st st' -> (forall tb n, tbs st' !! t = Some tb -> sel n (jmp_dest tb) = null_link) -> d <> 0 ->
  jumps st' y d <-> jumps st y d.
Proof.
  intros [Ho _ _ _ Hself] Hself' Hd. unfold jumps. destruct (decide (y.1 = t)) as [->|Hy]; [|by rewrite Ho].
  split; intros (tb & Ht & E); [rewrite (Hself' tb y.2 Ht) in E|rewrite (Hself tb y.2 Ht) in E]; injection E as E; congruence.
Qed.

Lemma one_more_jumps_ok t st st' :
  one_more t st st' -> jumps_ok st -> t <> 0 -> (forall y, ~ jumps st y t) ->
  (forall tb, tbs st' !! t = Some tb -> (forall n, sel n (jmp_dest tb) = null_link /\ target_ok st' tb n) /\ jmp_list_head tb = null_link) ->
  jumps_ok st'.
Proof.
  intros Hom [J1 J2 J3] Ht0 Hno Hnew. pose proof Hom as [Ho _ _ _ _].
  assert (forall tb n, tbs st' !! t = Some tb -> sel n (jmp_dest tb) = null_link) as Hself' by (intros tb n Ht; apply (Hnew tb Ht)).
  split.
  - by rewrite Ho by done.
  - intros d b Hb. assert (d <> 0) as Hd0 by (intros ->; rewrite Ho, J1 in Hb by done; done). destruct (decide (d = t)) as [->|Hd].
    + exists [], b. split; [done|]. destruct (Hnew b Hb) as [_ ->]. split; [constructor|]. split; [constructor|]. intros y.
      rewrite (one_more_jumps t st) by done. split; [by intros ?%elem_of_nil|by intros ?%Hno].
    + rewrite Ho in Hb by done. destruct (J2 d b Hb) as (l & b' & Hb' & L1 & L2 & L3). exists l, b'. rewrite Ho by done. split; [done|].
      assert (forall z, z ∈ l -> z.1 <> t) as Hz.
      { intros z (tb & Htb & E)%L3 Ez. rewrite Ez in Htb. rewrite (om_self _ _ _ Hom tb z.2 Htb) in E. injection E as E. congruence. }
      split; [eapply linked_frame; [exact L1|]; intros z Hzl; unfold jmp_next_of; rewrite Ho; [done|by apply Hz]|]. split; [done|].
      intros y. by rewrite L3, (one_more_jumps t st st').
  - intros u b n Hb. destruct (decide (u = t)) as [->|Hu]; [by apply (Hnew b Hb)|]. rewrite Ho in Hb by done. specialize (J3 u b n Hb).
    unfold target_ok in *. destruct (sel n (jmp_dest b)) as [d []] eqn:Ed; [done|]. destruct (Z.eqb_spec d 0) as [|Hd0]; [done|].
    destruct (decide (d = t)) as [->|Hd]; [|by rewrite Ho]. destruct (Hno (u, n)). by exists b.
Qed.

Lemma one_more_inv R t st st' :
  tb_inv R st -> one_more t st st' -> t ∉ R -> t <> 0 ->
  (forall tb, tbs st' !! t = Some tb -> (forall n, sel n (jmp_dest tb) = null_link /\ target_ok st' tb n) /\ jmp_list_head tb = null_link) ->
  tb_inv R st'.
Proof.
  intros Hi Hom HR Ht0 Hnew. pose proof Hom as [Ho Em Eht Ec _].
  assert (forall u, u ∈ R -> tbs st' !! u = tbs st !! u) as HuR by (intros u Hu; apply Ho; congruence).
  assert (forall y, ~ jumps st y t) as Hno by (intros y Hy; by apply HR, (ti_dests _ _ _ _ _ _ Hi y)).
  destruct Hi as [I1 I2 I3 I4 I5 I6 I7 I8]. split.
  - by apply (one_more_pages R t st).
  - intros u Hu. rewrite HuR by done. by apply I2.
  - by apply (one_more_jumps_ok t st).
  - intros y d Hj Hd. rewrite (one_more_jumps t st st') in Hj; [|done|intros tb n Ht; apply (Hnew tb Ht)|done]. by apply (I4 y).
  - rewrite Eht. apply (ht_ok_ext (tb_cmp st)); [|done]. intros h p q Hp Hq Hpq. destruct (ht_facts _ _ I5) as (Hcmp & _). rewrite <- (Hcmp h p q Hp Hq Hpq).
    apply I6 in Hp as [Hp _], Hq as [Hq _]. unfold tb_cmp. by rewrite !HuR.
  - intros h u. rewrite Eht, I6. split; intros (Hu & b & Hb & ->); (split; [done|]); exists b; [by rewrite HuR|by rewrite <- HuR].
  - intros i. rewrite Ec. intros Hnz. destruct (I7 i Hnz) as [V1 V2]. split; [done|]. intros tb. rewrite HuR by done. apply V2.
  - intros i b Hpi. rewrite Em. intros Hb. destruct (I8 i b Hpi Hb) as [B1 B2]. split; [done|]. intros x tb Hx (b2 & Hb2 & He) Htb. rewrite HuR in Hb2, Htb by done.
    apply (B2 x tb Hx); [by exists b2|done].
Qed.

(** ** A new block *)

Lemma reset_target_eq n tb : exists tgt, reset_target n tb = mk_tb (code tb) (tb_cflags tb) (page_next tb) (page_addr tb) tgt (jmp_list_head tb) (jmp_list_next tb) (jmp_dest tb) (tb_hash tb) /\
  (sel n (jmp_reset_offset (code tb)) <> TB_JMP_RESET_OFFSET_INVALID -> sel n tgt = reset_addr tb n) /\ sel (negb n) tgt = sel (negb n) (jmp_target tb).
Proof.
  unfold reset_target. destruct (Z.eqb_spec (sel n (jmp_reset_offset (code tb))) TB_JMP_RESET_OFFSET_INVALID) as [E|E].
  - exists (jmp_target tb). destruct tb. done.
  - eexists. split; [done|]. rewrite sel_put_eq, sel_put_ne by (by destruct n). done.
Qed.

Lemma init_jumps_ok tb : code (init_jumps tb) = code tb /\ tb_cflags (init_jumps tb) = tb_cflags tb /\ jmp_list_head (init_jumps tb) = null_link /\
  jmp_dest (init_jumps tb) = (null_link, null_link) /\
  forall n, sel n (jmp_reset_offset (code tb)) <> TB_JMP_RESET_OFFSET_INVALID -> sel n (jmp_target (init_jumps tb)) = reset_addr tb n.
Proof.
  unfold init_jumps. set (tb0 := with_jmp_dest true _ _). cbn zeta. destruct (reset_target_eq false tb0) as (tgt & -> & R1 & _).
  set (tb1 := mk_tb _ _ _ _ _ _ _ _ _). destruct (reset_target_eq true tb1) as (tgt' & -> & R2 & R3). repeat split. intros [] Hn; [by apply R2|].
  change (negb true) with false in R3. cbn [jmp_target]. rewrite R3. by apply R1.
Qed.

Lemma new_block_inv R st t tb : tb_inv R st -> tbs st !! t = None -> t <> 0 -> tb_inv R (with_tbs (<[t := init_jumps tb]> (tbs st)) st).
Proof.
  intros Hi Hnone Ht0. destruct (init_jumps_ok tb) as (E1 & E2 & E3 & E4 & E5). apply (one_more_inv R t st); [done| | |done|].
  - split; try done; [intros u Hu; simpl; by rewrite lookup_insert_ne|]. intros tb' n Ht. congruence.
  - intros HR. destruct (ti_blocks _ _ _ _ _ _ Hi t HR) as (b & Hb & _). congruence.
  - intros tb' Ht. simpl in Ht. rewrite lookup_insert_eq in Ht. injection Ht as <-. split; [|done]. intros n. rewrite E4. split; [by destruct n|].
    unfold target_ok. rewrite E4. replace (sel n (null_link, null_link)) with null_link by (by destruct n). simpl. rewrite E1. intros Hn. rewrite (E5 n Hn). unfold reset_addr. by rewrite E1.
Qed.

(** ** Linking a new block *)

Context (page_mask : Z) (get_page_addr_code : Z -> Z).

Lemma bits_ok : 6 <= P <= L.
Proof. lia. Qed.

(** Where an address leads: to RAM, on the page at the same offset. *)
Definition maps_to_ram (x : Z) : Prop :=
  let a := get_page_addr_code x in
  a <> NO_PAGE /\ uint 64 a /\ page_start page_mask a + page_offset P x = a /\ ram_page P (page_start page_mask a) /\ page_index (page_of P (page_start page_mask a)).

(** What the translator makes: code on one page or on two that are mapped to
    different pages of RAM, and without the flags of other blocks.  It may have
    no instructions; at the start of a page such a block is also put on the page
    before, where there may be no RAM. *)
Record generated (tb : TranslationBlock) : Prop := {
  ge_pc : uint L (tb_pc (code tb));
  ge_size : 0 <= tb_size (code tb) /\ pc_offset P tb + tb_size (code tb) < 2 * 2 ^ P;
  ge_first : maps_to_ram (tb_pc (code tb));
  ge_second : 2 ^ P < pc_offset P tb + tb_size (code tb) ->
    let v := virt_page P (wrap L (tb_pc (code tb) + tb_size (code tb) - 1)) in
    maps_to_ram v /\ page_of P (get_page_addr_code v) <> page_of P (page_start page_mask (get_page_addr_code (tb_pc (code tb))));
  ge_before : pc_offset P tb + tb_size (code tb) = 0 ->
    let v := virt_page P (wrap L (tb_pc (code tb) + tb_size (code tb) - 1)) in
    get_page_addr_code v = NO_PAGE \/
    maps_to_ram v /\ page_of P (get_page_addr_code v) <> page_of P (page_start page_mask (get_page_addr_code (tb_pc (code tb))));
  ge_flags : cf_set tb CF_INVALID = false /\ cf_set tb CF_NOCACHE = false
}.

Lemma virt_page_div x : virt_page P x = 2 ^ P * (x / 2 ^ P).
Proof.
  unfold virt_page. rewrite (page_offset_mod L P bits_ok). pose proof (page_size_pos L P bits_ok). pose proof (Z.div_mod x (2 ^ P) ltac:(lia)). lia.
Qed.

(** The last byte is on the first page exactly when the code fits there; the
    byte before the start of a page is not on it. *)
Lemma second_page pc size :
  uint L pc -> 0 <= size -> pc mod 2 ^ P + size < 2 * 2 ^ P ->
  virt_page P pc = virt_page P (wrap L (pc + size - 1)) <-> 0 < pc mod 2 ^ P + size <= 2 ^ P.
Proof.
  intros Hpc Hsz Hlt. rewrite !virt_page_div. pose proof (page_size_pos L P bits_ok) as Hps. unfold uint in Hpc.
  assert (2 ^ L = 2 ^ P * 2 ^ (L - P)) as EL by (rewrite <- Z.pow_add_r by lia; f_equal; lia).
  assert (2 <= 2 ^ (L - P)) as H2L. { change 2 with (2 ^ 1) at 1. apply Z.pow_le_mono_r; lia. }
  pose proof (Z.div_mod pc (2 ^ P) ltac:(lia)) as Hdm. pose proof (Z.mod_pos_bound pc (2 ^ P) Hps) as Hmb. set (q := pc / 2 ^ P) in *. set (off := pc mod 2 ^ P) in *.
  assert (0 <= q) by (apply Z.div_pos; lia). assert (q < 2 ^ (L - P)) as Hq by (apply Z.div_lt_upper_bound; lia).
  destruct (Z.eq_dec (off + size) 0) as [Hz|Hnz].
  { split; [|lia]. intros E. exfalso. apply Z.mul_reg_l in E; [|lia]. unfold wrap in E. destruct (Z.eq_dec q 0) as [Hq0|Hq0].
    - replace (pc + size - 1) with (-1) in E by nia. rewrite <- (Z.mod_add _ 1), Z.mod_small in E by nia.
      assert (2 ^ (L - P) - 1 <= (-1 + 1 * 2 ^ L) / 2 ^ P) by (apply Z.div_le_lower_bound; nia). lia.
    - rewrite Z.mod_small in E by nia. assert ((pc + size - 1) / 2 ^ P < q) by (apply Z.div_lt_upper_bound; nia). lia. }
  destruct (Z.le_gt_cases (off + size) (2 ^ P)) as [Hone|Htwo].
  - split; [lia|]. intros _. unfold wrap. rewrite Z.mod_small by nia. f_equal. apply Z.div_unique with (off + size - 1); lia.
  - split; [|lia]. intros E. exfalso. apply Z.mul_reg_l in E; [|lia]. unfold wrap in E. destruct (Z.le_gt_cases (2 ^ (L - P)) (q + 1)) as [Hw|Hw].
    + assert (q = 2 ^ (L - P) - 1) as Eq by lia. replace (pc + size - 1) with (off + size - 1 - 2 ^ P + 1 * 2 ^ L) in E by nia. rewrite Z.mod_add in E by lia.
      rewrite Z.mod_small in E by nia. rewrite Z.div_small in E by lia. lia.
    + rewrite Z.mod_small in E by nia. replace ((pc + size - 1) / 2 ^ P) with (q + 1) in E; [lia|]. apply Z.div_unique with (off + size - 1 - 2 ^ P); lia.
Qed.

Definition phys_page2 (tb : TranslationBlock) : Z :=
  let v := virt_page P (wrap L (tb_pc (code tb) + tb_size (code tb) - 1)) in
  if negb (virt_page P (tb_pc (code tb)) =? v) then get_page_addr_code v else NO_PAGE.

(** The block as it is linked. *)
Definition linked_tb (tb : TranslationBlock) : TranslationBlock :=
  at_pages (init_jumps tb) (page_start page_mask (get_page_addr_code (tb_pc (code tb)))) (phys_page2 tb).

Lemma ram_page_no a : ram_page P a -> a <> NO_PAGE.
Proof. intros (_ & _ & Hx) ->. pose proof (page_size_pos L P bits_ok). unfold NO_PAGE in Hx. lia. Qed.

(** The second page of a block, if it has one. *)
Lemma phys_page2_ok tb : generated tb ->
  if decide (phys_page2 tb = NO_PAGE) then pc_offset P tb + tb_size (code tb) <= 2 ^ P
  else ram_page P (phys_page2 tb) /\ page_index (page_of P (phys_page2 tb)) /\ (2 ^ P < pc_offset P tb + tb_size (code tb) \/ pc_offset P tb + tb_size (code tb) = 0) /\
    page_of P (phys_page2 tb) <> page_of P (page_start page_mask (get_page_addr_code (tb_pc (code tb)))).
Proof.
  intros [G1 [G2 G3] G4 G5 G6 _]. unfold phys_page2. cbn zeta in *. set (v := virt_page P (wrap L (tb_pc (code tb) + tb_size (code tb) - 1))) in *.
  pose proof (second_page (tb_pc (code tb)) (tb_size (code tb)) G1 G2) as Hsp. unfold pc_offset in *. rewrite (page_offset_mod L P bits_ok) in *. specialize (Hsp G3). fold v in Hsp.
  destruct (Z.eqb_spec (virt_page P (tb_pc (code tb))) v) as [E|E]; cbn [negb].
  - rewrite decide_True by done. lia.
  - destruct (decide (get_page_addr_code v = NO_PAGE)) as [Eno|Eno].
    { destruct (Z.le_gt_cases (tb_pc (code tb) mod 2 ^ P + tb_size (code tb)) (2 ^ P)); [done|]. by destruct G5 as [(N1 & _) _]. }
    assert (2 ^ P < tb_pc (code tb) mod 2 ^ P + tb_size (code tb) \/ tb_pc (code tb) mod 2 ^ P + tb_size (code tb) = 0) as Hcase.
    { pose proof (Z.mod_pos_bound (tb_pc (code tb)) (2 ^ P) (page_size_pos L P bits_ok)). lia. }
    assert (maps_to_ram v /\ page_of P (get_page_addr_code v) <> page_of P (page_start page_mask (get_page_addr_code (tb_pc (code tb))))) as [(N1 & N2 & N3 & N4 & N5) N6].
    { destruct Hcase as [Hc1|Hc1]; [by apply G5|]. by destruct (G6 Hc1). }
    assert (page_offset P v = 0) as Ev.
    { unfold v. rewrite virt_page_div, (page_offset_mod L P bits_ok), Z.mul_comm. apply Z.mod_mul. pose proof (page_size_pos L P bits_ok). lia. }
    rewrite Ev, Z.add_0_r in N3. rewrite N3 in N4, N5. done.
Qed.

Lemma generated_live tb : generated tb -> live_block L P A (linked_tb tb).
Proof.
  intros Hg. pose proof (phys_page2_ok tb Hg) as H2'. destruct Hg as [G1 [G2 G3] (M1 & M2 & M3 & M4 & M5) _ _ [G6 G7]].
  destruct (init_jumps_ok tb) as (E1 & E2 & _ & E4 & _). pose proof (ram_page_no _ M4) as Hno.
  assert (pc_offset P (linked_tb tb) = pc_offset P tb) as Eo by (unfold pc_offset; cbn; by rewrite E1).
  split.
  - unfold placed. cbn. split; [done|]. split; [done|]. intros Hn. rewrite decide_False in H2' by done. destruct H2' as (_ & A1 & _ & A2). done.
  - split; rewrite ?Eo; cbn; rewrite ?E1; try done.
    + intros E. by rewrite decide_True in H2'.
    + intros E. rewrite decide_False in H2' by done. destruct H2' as (A1 & _ & A2 & _). split; [done|]. lia.
  - unfold cf_set in *. cbn. by rewrite E2.
  - unfold cf_set in *. cbn. by rewrite E2.
  - intros n. cbn. rewrite E4. by destruct n.
Qed.

(** A block that nothing leads to may go. *)
Lemma discard_inv R st t : tb_inv R st -> t ∉ R -> t <> 0 ->
  (forall tb n, tbs st !! t = Some tb -> sel n (jmp_dest tb) = null_link) -> tb_inv R (with_tbs (delete t (tbs st)) st).
Proof.
  intros Hi HR Ht0 Hself. apply (one_more_inv R t st); [done| |done|done|].
  - split; try done. intros u Hu; simpl; by rewrite lookup_delete_ne.
  - intros tb. simpl. by rewrite lookup_delete_eq.
Qed.

(** What generating a block gives: the new block, linked, or the block for the
    same code that is linked already. *)
Definition generated_result (R : gset Z) st (t : Z) (tb : TranslationBlock) (r : Z) (R' : gset Z) st' : Prop :=
  tb_inv R' st' /\ r ∈ R' /\
  ((r = t /\ R' = R ∪ {[t]} /\ forall e b, e ∈ R -> tbs st !! e = Some b -> same_block b (linked_tb tb) = false) \/
   (r ∈ R /\ R' = R /\ tbs st' !! t = None /\ exists b, tbs st !! r = Some b /\ same_block b (linked_tb tb) = true)).

Lemma gen_link_ok R st t tb :
  tb_inv R st -> tbs st !! t = None -> t <> 0 -> generated tb ->
  exists r R' st', tb_gen_code_link L P page_mask c get_page_addr_code t tb st = Some (r, st') /\ generated_result R st t tb r R' st'.
Proof.
  intros Hi Hnone Ht0 Hg. destruct (init_jumps_ok tb) as (E1 & E2 & E3 & E4 & _).
  pose proof (new_block_inv R st t tb Hi Hnone Ht0) as Hi0. set (st0 := with_tbs _ st) in *.
  assert (t ∉ R) as HR. { intros HR. destruct (ti_blocks _ _ _ _ _ _ Hi t HR) as (b & Hb & _). congruence. }
  assert (tbs st0 !! t = Some (init_jumps tb)) as Ht by apply lookup_insert_eq.
  assert (forall u, u ∈ R -> tbs st0 !! u = tbs st !! u) as HuR by (intros u Hu; apply lookup_insert_ne; congruence).
  destruct (ge_first tb Hg) as (M1 & M2 & M3 & M4 & M5).
  destruct (link_page_ok L P A c Hc bits_ok page_mask R st0 t (init_jumps tb) (get_page_addr_code (tb_pc (code tb))) (phys_page2 tb)) as (r & st1 & Er & Ejm & Ef & Ec & Hres);
    [done|done|done|done|done|done|unfold pc_offset; by rewrite E1|by apply generated_live|].
  unfold tb_gen_code_link. cbv zeta. rewrite E1. fold (phys_page2 tb). fold st0. rewrite Er. cbn [mbind option_bind]. fold (linked_tb tb) in Hres.
  destruct Hres as [(-> & Hi1 & Hnew)|(HrR & Hi1 & b & Hb & Hsame)].
  - exists t, (R ∪ {[t]}), st1. rewrite Z.eqb_refl. split; [done|]. split; [done|]. split; [set_solver|]. left. split; [done|]. split; [done|].
    intros e b' He Hb'. apply (Hnew e); [done|]. by rewrite HuR.
  - assert (r <> t) as Hrt by congruence. rewrite (proj2 (Z.eqb_neq r t) Hrt). exists r, R, (with_tbs (delete t (tbs st1)) st1). split; [done|].
    split; [|split; [done|]; right; split; [done|]; split; [done|]; split; [apply lookup_delete_eq|exists b; by rewrite <- HuR]].
    apply discard_inv; [done..|]. intros tb' n Ht'. destruct (same_lookup jm _ _ _ _ (eq_sym Ejm) Ht') as (b0 & Hb0 & E0). rewrite Ht in Hb0. injection Hb0 as <-.
      unfold jm in E0. injection E0 as _ _ _ _ Ed. rewrite <- Ed, E4. by destruct n.
Qed.
End steps.

(** ** The operations on the cache, in any order *)

Section reach.
Context {T : Type} `{HashTable T, !HashTableLaws T}.
Context (L P A page_mask : Z) (c : page_config) (Hc : page_table_config_init A P = Some c) (HP : 6 <= P < L).
Implicit Types st : tb_state (T := T).

Abbreviation page_index := (TbPages.page_index A P).
Abbreviation tb_inv := (TbInvariant.tb_inv L P A c).

Inductive tb_op :=
  | op_gen (get_page_addr_code : Z -> Z) (t : Z) (tb : TranslationBlock)
  | op_add_jump (t : Z) (n : bool) (t_next : Z)
  | op_lookup (get_page_addr_code : Z -> Z) (pc cs_base flags cf_mask cluster_index dstate : Z)
  | op_write (start len : Z)
  | op_range (first last : Z)
  | op_invalidate (t : Z)
  | op_flush_page (addr : Z)
  | op_flush.

Definition run_op (op : tb_op) st : option tb_state :=
  match op with
  | op_gen g t tb => snd <$> tb_gen_code_link L P page_mask c g t tb st
  | op_add_jump t n t_next => tb_add_jump t n t_next st
  | op_lookup g pc cs_base flags cf_mask cluster_index dstate => Some (tb_lookup__cpu_state L P page_mask g pc cs_base flags cf_mask cluster_index dstate st).2
  | op_write start len => tb_invalidate_phys_page_fast L P c start len st
  | op_range first last => tb_invalidate_phys_range L P page_mask c first last st
  | op_invalidate t => tb_phys_invalidate P c t NO_PAGE st
  | op_flush_page addr => Some (tb_flush_jmp_cache L P addr st)
  | op_flush => tb_flush c st
  end.

(** A block that the table has. *)
Definition in_table st (t : Z) : Prop := exists h, (h, t) ∈ ht_elems (htable st).

(** A write has at most eight bytes, in one word of a page, and is not at the
    end of all addresses; a range may have any length. *)
Definition write_ok (start len : Z) : Prop :=
  page_index (page_of P start) /\ 0 <= start /\ 0 < len <= 8 /\ start mod 64 + len <= 64 /\ start + len < 2 ^ 64.

Definition range_ok (first last : Z) : Prop :=
  0 <= first <= last /\ last <= 2 ^ A /\ last + 2 * 2 ^ P <= 2 ^ 63 /\ Z.land first page_mask = first - first mod 2 ^ P.

(** An address is mapped to RAM at the same offset of a page, or not to RAM. *)
Definition lookup_ok (g : Z -> Z) (pc : Z) : Prop :=
  g pc <> NO_PAGE -> uint 64 (g pc) /\ page_start page_mask (g pc) + page_offset P pc = g pc.

(** What the callers see to: memory for a new block is free, blocks that are
    used are there or marked as invalid, addresses are of RAM. *)
Definition op_ok (op : tb_op) st : Prop :=
  match op with
  | op_gen g t tb => tbs st !! t = None /\ t <> 0 /\ generated L P A page_mask g tb
  | op_add_jump t n t_next => is_Some (tbs st !! t) /\ exists next, tbs st !! t_next = Some next /\ (cf_set next CF_INVALID = true \/ in_table st t_next)
  | op_lookup g pc _ _ _ _ _ => lookup_ok g pc
  | op_write start len => write_ok start len
  | op_range first last => range_ok first last
  | op_invalidate t => in_table st t
  | op_flush_page _ | op_flush => True
  end.

Lemma in_table_inv R st t : tb_inv R st -> in_table st t <-> t ∈ R.
Proof.
  intros Hi. split; [by intros (h & [HR _]%(ti_elems _ _ _ _ _ _ Hi))|]. intros HR. destruct (ti_blocks _ _ _ _ _ _ Hi t HR) as (tb & Ht & _).
  eexists. apply (ti_elems _ _ _ _ _ _ Hi). split; [done|]. by exists tb.
Qed.

Lemma phys_invalidate_ok R st t : tb_inv R st -> t ∈ R -> exists st', tb_phys_invalidate P c t NO_PAGE st = Some st' /\ invalidated L P A c R st st' t.
Proof.
  intros Hi HR. destruct (ti_blocks _ _ _ _ _ _ Hi t HR) as (tb & Ht & Hlb). unfold tb_phys_invalidate. rewrite Ht. cbn [mbind option_bind].
  destruct (lb_placed _ _ _ _ Hlb) as (P0 & _). rewrite Z.eqb_refl, (proj2 (Z.eqb_neq _ _) P0). by apply do_invalidate_ok.
Qed.

(** Every operation returns and keeps the invariant. *)
Lemma run_op_ok R st op : tb_inv R st -> op_ok op st -> exists R' st', run_op op st = Some st' /\ tb_inv R' st'.
Proof.
  intros Hi Hop. pose proof (bits_ok L P HP) as HP'. destruct op as [g t tb|t n t_next|g pc cs_base flags cf_mask cluster dstate|start len|first last|t|addr|]; cbn in Hop |- *.
  - destruct Hop as (H1' & H2' & H3'). destruct (gen_link_ok L P A c Hc HP page_mask g R st t tb Hi H1' H2' H3') as (r & R' & st' & -> & Hres & _). by exists R', st'.
  - destruct Hop as ([tb Ht] & next & Hn & Hval).
    destruct (add_jump_inv L P A c Hc HP' R st t n t_next tb next Hi Ht Hn) as (st' & -> & Hi' & _); [|by exists R, st'].
    intros E. destruct Hval as [?|Hin]; [congruence|]. by apply (in_table_inv R st).
  - pose proof (cpu_lookup_ok L P A c HP' page_mask g pc cs_base flags cf_mask cluster dstate R st Hi Hop) as Hl.
    destruct (tb_lookup__cpu_state _ _ _ _ _ _ _ _ _ _ _) as [r st']. exists R, st'. split; [done|]. apply Hl.
  - destruct Hop as (H1' & H2' & [H3' _] & H4' & H5'). destruct (page_fast_ok L P A c Hc HP' R st start len) as (R' & st' & -> & Hd & _); try done. exists R', st'. split; [done|]. apply Hd.
  - destruct Hop as ([H1' H2'] & H3' & H4' & H5'). destruct (phys_range_ok L P A c Hc HP' page_mask R st first last) as (R' & st' & -> & Hd & _); try done. exists R', st'. split; [done|]. apply Hd.
  - apply (in_table_inv R st) in Hop; [|done]. destruct (phys_invalidate_ok R st t Hi Hop) as (st' & -> & Hv). eexists _, st'. split; [done|]. apply Hv.
  - destruct (flush_jmp_cache_ok L P A c HP' R st addr Hi) as [Hi' _]. by eexists R, _.
  - destruct (cache_flush_ok L P A c Hc HP' R st Hi) as (st' & -> & Hi' & _). by eexists _, st'.
Qed.

(** The state after [page_init], [tb_htable_init] and [cpu_tb_jmp_cache_clear]. *)
Definition tb_start (ht : T) : tb_state := mk_state ∅ (fun _ => L2_null) ht (fun _ => 0) 0 [].

Lemma start_inv ht : (forall cmp, ht_ok cmp ht) -> ht_elems ht = [] -> tb_inv ∅ (tb_start ht).
Proof.
  intros Hok Hel. split.
  - split; [intros k; apply l2_null_ok|]. intros i Hi. exists []. split; [|split; [constructor|]].
    + unfold page_at, page_find. simpl. destruct (v_l2_levels c); constructor.
    + intros x. split; [by intros ?%elem_of_nil|]. intros [Hx _]. unfold of_set in Hx. set_solver.
  - set_solver.
  - split; [done|by intros ? ? ?|by intros ? ? ? ?].
  - by intros y d (tb & ? & _).
  - apply Hok.
  - intros h t. simpl. rewrite Hel. set_solver.
  - done.
  - intros i b _. unfold page_at, page_find. simpl. by destruct (v_l2_levels c).
Qed.

(** The states that the operations reach. *)
Inductive reachable (ht : T) : tb_state -> Prop :=
  | reach_start : reachable ht (tb_start ht)
  | reach_step st op st' : reachable ht st -> op_ok op st -> run_op op st = Some st' -> reachable ht st'.

Lemma reachable_ok ht st : (forall cmp, ht_ok cmp ht) -> ht_elems ht = [] -> reachable ht st -> exists R, tb_inv R st.
Proof.
  intros Hok Hel. induction 1 as [|st op st' _ [R IH] Hop Hrun]; [exists ∅; by apply start_inv|].
  destruct (run_op_ok R st op IH Hop) as (R' & st2 & E & Hi). rewrite Hrun in E. injection E as <-. by exists R'.
Qed.
End reach.
