(* ===== verification/TbTheorems.v ===== *)
(** * What the cache of translation blocks promises

    The theorems are for any hash table with the laws of [HashTable]; the
    examples use the table of the program. *)

From S2P Require Import Prelude SoftTlb Qht QhtProofs TbPages TbCache TbLists TbPageLists TbJumps TbInvariant TbInvalidate TbLink TbSteps.

Section theorems.
Context {T : Type} `{HashTable T, !HashTableLaws T}.
Implicit Types st : tb_state (T := T).

(** [R] and [R'] are the linked blocks before and after: those that are gone are
    marked as invalid and no jump leads from or to them, all other jumps are
    there. *)
Definition unlinked (L P A : Z) (c : page_config) (R : gset Z) st (R' : gset Z) st' : Prop :=
  tb_inv L P A c R' st' /\ R' ⊆ R /\
  (forall y d, d <> 0 -> jumps st' y d <-> jumps st y d /\ (d ∉ R ∖ R') /\ (y.1 ∉ R ∖ R')) /\
  (forall t tb, t ∈ R ∖ R' -> tbs st' !! t = Some tb -> cf_set tb CF_INVALID = true).

Lemma dropped_unlinked L P A c R st R' st' : dropped L P A c R st R' st' -> unlinked L P A c R st R' st'.
Proof.
  intros [D1 D2 D3 D4 D5 _]. split; [done|]. split; [done|]. split; [done|]. intros t tb Ht Hb. destruct (D4 t tb Hb) as (b & _ & Ef).
  rewrite decide_True in Ef by done. pose proof (invalid_invalid b) as Hv. unfold cf_set, invalid in Hv. cbn in Hv. unfold cf_set. by rewrite Ef.
Qed.

(** C9: a write to RAM ([tb_invalidate_phys_page_fast]) always returns; after it
    no block with code in the bytes written is linked, and every block that has
    instructions, but none of them in these bytes, stays linked.  A block without
    instructions stays if it is not on the page that is written (if it is, it
    goes when the list of the page is walked, and stays when the bitmap of the
    page shows that there is no code).  A block that went is marked as invalid,
    and jumps from and to it are gone, all others stay. *)
Theorem tb_write_drops_code L P A c R st start len :
  page_table_config_init A P = Some c -> 6 <= P <= L -> tb_inv L P A c R st -> write_ok P A start len ->
  exists R' st', tb_invalidate_phys_page_fast L P c start len st = Some st' /\ unlinked L P A c R st R' st' /\
  forall t tb, t ∈ R -> tbs st !! t = Some tb ->
    (code_in P tb start (start + len) -> t ∉ R') /\
    (0 < tb_size (code tb) -> ~ code_in P tb start (start + len) -> t ∈ R') /\
    (tb_size (code tb) = 0 -> ~ empty_on P tb (page_of P start) -> t ∈ R').
Proof.
  intros Hc HP Hi (W1 & W2 & [W3 _] & W4 & W5). destruct (page_fast_ok L P A c Hc HP R st start len Hi W1 W2 W3 W4 W5) as (R' & st' & E & Hd & Hmem).
  exists R', st'. split; [done|]. split; [by apply dropped_unlinked|]. intros t tb Ht Hb. destruct (Hmem t tb Ht Hb) as [M1 M2].
  split; [done|]. split; intros Hsz Hno; apply M2.
  - by rewrite touched_code.
  - intros [(k & Hk & _)|(x & Hx & He)]; [lia|]. destruct Hno.
    pose proof (write_one_page L P HP start len x W4 Hx) as <-. done.
Qed.

(** C13: [uc_invalidate_tb] of a range of guest addresses, whose RAM does not
    wrap around and ends within the addresses of the page table, drops exactly
    the blocks with code in the RAM from where the first address leads, and the
    blocks without instructions on the pages of that range; without RAM there it
    changes nothing. *)
Theorem uc_invalidate_tb_correct L P A page_mask c (g : Z -> option Z) R st addr len :
  page_table_config_init A P = Some c -> 6 <= P <= L -> tb_inv L P A c R st -> 0 <= len ->
  (forall first, g addr = Some first -> first + len < 2 ^ L /\ range_ok P A page_mask first (first + len)) ->
  exists R' st', uc_invalidate_tb L P page_mask c g addr len st = Some st' /\
  match g addr with
  | None => st' = st
  | Some first => unlinked L P A c R st R' st' /\
      forall t, t ∈ R' <-> t ∈ R /\ forall tb, tbs st !! t = Some tb -> ~ touched P tb first (first + len)
  end.
Proof.
  intros Hc HP Hi Hlen Hg. unfold uc_invalidate_tb. destruct (g addr) as [first|]; [|by exists R, st].
  destruct (Hg first eq_refl) as (HL & [R1 R2] & R3 & R4 & R5). rewrite (wrap_id L first), (wrap_id L) by (unfold uint; lia).
  destruct (Z.ltb_spec (first + len) first); [lia|]. destruct (phys_range_ok L P A c Hc HP page_mask R st first (first + len)) as (R' & st' & -> & Hd & Hmem); [done..|].
  exists R', st'. split; [done|]. split; [by apply dropped_unlinked|done].
Qed.

(** C11: a block that was generated at a free place is linked, or there is a
    block for the same code, and then that one is used and the new one is given
    up; never are two blocks for the same code linked. *)
Theorem tb_gen_code_correct L P A page_mask c g R st t tb :
  page_table_config_init A P = Some c -> 6 <= P < L -> tb_inv L P A c R st -> tbs st !! t = None -> t <> 0 ->
  generated L P A page_mask g tb ->
  exists r R' st', tb_gen_code_link L P page_mask c g t tb st = Some (r, st') /\ tb_inv L P A c R' st' /\ r ∈ R' /\
  ((r = t /\ R' = R ∪ {[t]} /\ forall e b, e ∈ R -> tbs st !! e = Some b -> same_block b (linked_tb L P page_mask g tb) = false) \/
   (r ∈ R /\ R' = R /\ tbs st' !! t = None /\ exists b, tbs st !! r = Some b /\ same_block b (linked_tb L P page_mask g tb) = true)).
Proof. intros Hc HP Hi Hn Ht0 Hg. exact (gen_link_ok L P A c Hc HP page_mask g R st t tb Hi Hn Ht0 Hg). Qed.

(** C12: what [tb_lookup__cpu_state] finds, in the jump cache or in the hash
    table, is a linked block with the address, state and flags that are asked
    for; it finds nothing only if the address is not in RAM or no linked block
    for it is in place.  The lookup keeps the invariant. *)
Theorem tb_lookup_correct L P A page_mask c g pc cs_base flags cf_mask cluster dstate R st :
  6 <= P <= L -> tb_inv L P A c R st -> lookup_ok P page_mask g pc ->
  let '(r, st') := tb_lookup__cpu_state L P page_mask g pc cs_base flags cf_mask cluster dstate st in
  tb_inv L P A c R st' /\ tbs st' = tbs st /\
  match r with
  | Some t => t ∈ R /\ exists tb, tbs st !! t = Some tb /\ wanted pc cs_base flags (cluster_mask cf_mask cluster) dstate tb
  | None => g pc = NO_PAGE \/ forall t tb, t ∈ R -> tbs st !! t = Some tb ->
      ~ (wanted pc cs_base flags (cluster_mask cf_mask cluster) dstate tb /\ in_place L P page_mask g pc tb)
  end.
Proof. intros HP Hi Hl. exact (cpu_lookup_ok L P A c HP page_mask g pc cs_base flags cf_mask cluster dstate R st Hi Hl). Qed.

(** When a page is flushed from the TLB, no block that starts on it or on
    the page before (and may end on it) is in the jump cache any more. *)
Theorem tb_flush_jmp_cache_correct L P A c R st addr pc :
  6 <= P <= L -> tb_inv L P A c R st -> page_of P pc = page_of P addr \/ page_of P pc = page_of P (wrap L (addr - 2 ^ P)) ->
  tb_inv L P A c R (tb_flush_jmp_cache L P addr st) /\
  forall t tb i, tb_jmp_cache (tb_flush_jmp_cache L P addr st) i = t -> t <> 0 -> tbs st !! t = Some tb -> tb_pc (code tb) <> pc.
Proof.
  intros HP Hi Hpc. destruct (flush_jmp_cache_ok L P A c HP R st addr Hi) as [Hi' Hz]. split; [done|]. intros t tb i E Ht0 Ht Epc.
  destruct (ti_cache _ _ _ _ _ _ Hi' i) as [_ Hh]; [congruence|]. rewrite E in Hh. specialize (Hh tb Ht). rewrite Epc in Hh. rewrite <- Hh, (Hz pc Hpc) in E. congruence.
Qed.

(** C10: from an empty table on, generating, chaining, looking up and
    invalidating blocks in any order never fails, and keeps the invariant: the
    lists of pages, the hash table, jumps and the jump cache have the linked
    blocks and no others. *)
Theorem tb_cache_invariant L P A page_mask c (ht : T) st :
  page_table_config_init A P = Some c -> 6 <= P < L -> (forall cmp, ht_ok cmp ht) -> ht_elems ht = [] -> reachable L P A page_mask c ht st ->
  (exists R, tb_inv L P A c R st) /\ forall op, op_ok L P A page_mask op st -> is_Some (run_op L P page_mask c op st).
Proof.
  intros Hc HP Hok Hel Hr. destruct (reachable_ok L P A page_mask c Hc HP ht st Hok Hel Hr) as [R Hi]. split; [by exists R|].
  intros op Hop. destruct (run_op_ok L P A page_mask c Hc HP R st op Hi Hop) as (R' & st' & -> & _). done.
Qed.

(** C8: code that was overwritten is not run: after a write in a reachable
    state, neither a lookup nor a jump leads to a block that has code in the
    bytes written. *)
Theorem no_stale_code L P A page_mask c (ht : T) st start len :
  page_table_config_init A P = Some c -> 6 <= P < L -> (forall cmp, ht_ok cmp ht) -> ht_elems ht = [] -> reachable L P A page_mask c ht st -> write_ok P A start len ->
  exists st', tb_invalidate_phys_page_fast L P c start len st = Some st' /\
  (forall g pc cs_base flags cf_mask cluster dstate t tb, lookup_ok P page_mask g pc ->
     (tb_lookup__cpu_state L P page_mask g pc cs_base flags cf_mask cluster dstate st').1 = Some t -> tbs st' !! t = Some tb -> ~ code_in P tb start (start + len)) /\
  (forall y d tb, jumps st' y d -> tbs st' !! d = Some tb -> ~ code_in P tb start (start + len)).
Proof.
  intros Hc HP Hok Hel Hr (W1 & W2 & [W3 _] & W4 & W5). assert (6 <= P <= L) as HP' by lia. destruct (reachable_ok L P A page_mask c Hc HP ht st Hok Hel Hr) as [R Hi].
  destruct (page_fast_ok L P A c Hc HP' R st start len Hi W1 W2 W3 W4 W5) as (R' & st' & E & [Hd Hmem]). exists st'. split; [done|].
  assert (forall t tb, t ∈ R' -> tbs st' !! t = Some tb -> ~ code_in P tb start (start + len)) as Hno.
  { intros t tb Hn Ht Hin. destruct (same_lookup id _ _ _ _ (eq_sym (dr_same _ _ _ _ _ _ _ _ Hd)) Ht) as (b & Hb & Eb).
    apply (proj1 (Hmem t b (dr_sub _ _ _ _ _ _ _ _ Hd t Hn) Hb)); [|done]. by apply (code_in_id P tb b). }
  pose proof (dr_inv _ _ _ _ _ _ _ _ Hd) as Hi'. split.
  - intros g pc cs_base flags cf_mask cluster dstate t tb Hl Er Ht. pose proof (cpu_lookup_ok L P A c HP' page_mask g pc cs_base flags cf_mask cluster dstate R' st' Hi' Hl) as Hlook.
    destruct (tb_lookup__cpu_state _ _ _ _ _ _ _ _ _ _ _) as [r st2]. cbn in Er. subst r. destruct Hlook as (_ & _ & HR & _). by apply (Hno t).
  - intros y d tb Hj Ht. destruct (decide (d = 0)) as [->|Hd0]; [by rewrite (jo_null _ (ti_jumps _ _ _ _ _ _ Hi')) in Ht|].
    apply (Hno d); [|done]. by apply (ti_dests _ _ _ _ _ _ Hi' y).
Qed.
End theorems.

(** ** An example *)

(** Two pages of code at 0x401000 and 0x402000, in RAM at 0x5000 and 0x9000. *)
Definition example_map (x : Z) : Z :=
  if x / 4096 =? 0x401 then 0x5000 + x mod 4096 else if x / 4096 =? 0x402 then 0x9000 + x mod 4096 else NO_PAGE.

Definition example_mask : Z := 2 ^ 64 - 4096.
Definition example_config : page_config := mk_config 1024 30 2.

(** 32 bytes of code, the second half on the second page. *)
Definition example_tb : TranslationBlock :=
  mk_tb (mk_code 0x401ff0 0 0 32 0 0x700000 (0x40, 0x60)) 0 (null_link, null_link) (0, 0) (0, 0) null_link (null_link, null_link) (null_link, null_link) 0.

Definition example_ht : qht := qht_init CODE_GEN_HTABLE_SIZE true.
Definition example_start : tb_state := tb_start example_ht.

Definition example_state : tb_state :=
  default example_start (snd <$> tb_gen_code_link 64 12 example_mask example_config example_map 0x6ffe00 example_tb example_start).

Lemma example_config_ok : page_table_config_init 52 12 = Some example_config.
Proof. reflexivity. Qed.

Lemma example_ht_ok : (forall cmp, ht_ok cmp example_ht) /\ ht_elems example_ht = [].
Proof. split; [intros cmp|]; [exact (proj1 (qht_init_ok cmp _ 13 true htable_size))|exact (proj2 (qht_init_ok Z.eqb _ 13 true htable_size))]. Qed.

Lemma example_start_ok : tb_inv 64 12 52 example_config ∅ example_start.
Proof. destruct example_ht_ok. by apply start_inv. Qed.

Lemma example_generated : generated 64 12 52 example_mask example_map example_tb.
Proof.
  split; [done|done| | |done|done].
  - repeat split; vm_compute; done.
  - intros _. cbn zeta. repeat split; vm_compute; done.
Qed.

(** The block is linked. *)
Definition example_set : gset Z := ∅ ∪ {[0x6ffe00]}.

Lemma example_state_ok : exists R, tb_gen_code_link 64 12 example_mask example_config example_map 0x6ffe00 example_tb example_start = Some (0x6ffe00, example_state) /\
  tb_inv 64 12 52 example_config R example_state /\ R = example_set.
Proof.
  destruct (gen_link_ok 64 12 52 example_config example_config_ok ltac:(lia) example_mask example_map ∅ example_start 0x6ffe00 example_tb) as (r & R' & st' & E & Hi & Hr & Hres);
    [apply example_start_ok|done|done|apply example_generated|].
  assert (example_state = st') as -> by (unfold example_state; rewrite E; reflexivity).
  destruct Hres as [(-> & -> & _)|(Hr' & _)]; [|destruct (not_elem_of_empty (C := gset Z) _ Hr')]. exists example_set. split; [exact E|]. split; [exact Hi|reflexivity].
Qed.

Lemma example_inv : tb_inv 64 12 52 example_config example_set example_state.
Proof. by destruct example_state_ok as (R & _ & Hi & ->). Qed.

Lemma example_reachable : reachable 64 12 52 example_mask example_config example_ht example_state.
Proof.
  apply (reach_step _ _ _ _ _ _ example_start (op_gen example_map 0x6ffe00 example_tb)); [apply reach_start| |].
  - split; [done|]. split; [done|]. apply example_generated.
  - destruct example_state_ok as (R & E & _). cbn [run_op]. by rewrite E.
Qed.

(** Its byte 24 is at 0x9008. *)
Lemma example_bytes : exists tb, tbs example_state !! 0x6ffe00 = Some tb /\ code_in 12 tb 0x9008 (0x9008 + 8).
Proof.
  assert ((fun tb => (tb_byte 12 tb 24, tb_size (code tb))) <$> tbs example_state !! 0x6ffe00 = Some (0x9008, 32)) as E by (vm_compute; reflexivity).
  apply fmap_Some in E as (tb & Etb & E). injection E as E1 E2. exists tb. split; [exact Etb|]. exists 24. rewrite <- E1, <- E2. lia.
Qed.

Lemma tb_write_drops_code_witness :
  exists R' st', tb_invalidate_phys_page_fast 64 12 example_config 0x9008 8 example_state = Some st' /\
  (0x6ffe00 ∉ R') /\ tb_inv 64 12 52 example_config R' st'.
Proof.
  destruct (tb_write_drops_code 64 12 52 example_config example_set example_state 0x9008 8) as (R' & st' & E & [Hu _] & Hmem);
    [reflexivity|lia|apply example_inv|repeat split; vm_compute; done|].
  exists R', st'. split; [exact E|]. split; [|exact Hu].
  destruct example_bytes as (tb & Etb & Hin). apply (Hmem 0x6ffe00 tb); [apply elem_of_union_r, elem_of_singleton_2; reflexivity|exact Etb|exact Hin].
Defined.

Lemma uc_invalidate_tb_correct_witness :
  exists R' st', uc_invalidate_tb 64 12 example_mask example_config (fun x => Some (example_map x)) 0x401000 0x800 example_state = Some st' /\
  (unlinked 64 12 52 example_config example_set example_state R' st' /\
   forall t, t ∈ R' <-> t ∈ example_set /\ forall tb, tbs example_state !! t = Some tb -> ~ touched 12 tb 0x5000 (0x5000 + 0x800)).
Proof.
  apply (uc_invalidate_tb_correct 64 12 52 example_mask example_config (fun x => Some (example_map x)) example_set example_state 0x401000 0x800);
    [reflexivity|lia|apply example_inv|lia|].
  intros first E. injection E as <-. repeat split; vm_compute; done.
Defined.

Lemma tb_gen_code_correct_witness :
  exists r R' st', tb_gen_code_link 64 12 example_mask example_config example_map 0x6fff00 example_tb example_state = Some (r, st') /\
  tb_inv 64 12 52 example_config R' st' /\ r ∈ R' /\
  ((r = 0x6fff00 /\ R' = example_set ∪ {[0x6fff00]} /\ forall e b, e ∈ example_set -> tbs example_state !! e = Some b ->
     same_block b (linked_tb 64 12 example_mask example_map example_tb) = false) \/
   (r ∈ example_set /\ R' = example_set /\ tbs st' !! 0x6fff00 = None /\
    exists b, tbs example_state !! r = Some b /\ same_block b (linked_tb 64 12 example_mask example_map example_tb) = true)).
Proof.
  apply (tb_gen_code_correct 64 12 52 example_mask example_config example_map example_set example_state 0x6fff00 example_tb);
    [reflexivity|lia|apply example_inv|vm_compute; reflexivity|lia|apply example_generated].
Defined.

Lemma tb_lookup_correct_witness :
  (tb_lookup__cpu_state 64 12 example_mask example_map 0x401ff0 0 0 0 0 0 example_state).1 = Some 0x6ffe00 /\
  let '(r, st') := tb_lookup__cpu_state 64 12 example_mask example_map 0x401ff0 0 0 0 0 0 example_state in
  tb_inv 64 12 52 example_config example_set st' /\ tbs st' = tbs example_state /\
  match r with
  | Some t => t ∈ example_set /\ exists tb, tbs example_state !! t = Some tb /\ wanted 0x401ff0 0 0 (cluster_mask 0 0) 0 tb
  | None => example_map 0x401ff0 = NO_PAGE \/ forall t tb, t ∈ example_set -> tbs example_state !! t = Some tb ->
      ~ (wanted 0x401ff0 0 0 (cluster_mask 0 0) 0 tb /\ in_place 64 12 example_mask example_map 0x401ff0 tb)
  end.
Proof.
  split; [vm_compute; reflexivity|].
  apply (tb_lookup_correct 64 12 52 example_mask example_config example_map 0x401ff0 0 0 0 0 0 example_set example_state); [lia|apply example_inv|].
  intros _. split; vm_compute; done.
Defined.

Lemma tb_flush_jmp_cache_correct_witness :
  tb_inv 64 12 52 example_config example_set (tb_flush_jmp_cache 64 12 0x402000 example_state) /\
  forall t tb i, tb_jmp_cache (tb_flush_jmp_cache 64 12 0x402000 example_state) i = t -> t <> 0 -> tbs example_state !! t = Some tb -> tb_pc (code tb) <> 0x401ff0.
Proof.
  apply (tb_flush_jmp_cache_correct 64 12 52 example_config example_set example_state 0x402000 0x401ff0); [lia|apply example_inv|].
  right. vm_compute. reflexivity.
Defined.

Lemma tb_cache_invariant_witness :
  (exists R, tb_inv 64 12 52 example_config R example_state) /\
  forall op, op_ok 64 12 52 example_mask op example_state -> is_Some (run_op 64 12 example_mask example_config op example_state).
Proof.
  apply (tb_cache_invariant 64 12 52 example_mask example_config example_ht example_state); [reflexivity|lia|apply example_ht_ok|apply example_ht_ok|apply example_reachable].
Defined.

Lemma no_stale_code_witness :
  exists st', tb_invalidate_phys_page_fast 64 12 example_config 0x9008 8 example_state = Some st' /\
  (forall g pc cs_base flags cf_mask cluster dstate t tb, lookup_ok 12 example_mask g pc ->
     (tb_lookup__cpu_state 64 12 example_mask g pc cs_base flags cf_mask cluster dstate st').1 = Some t -> tbs st' !! t = Some tb -> ~ code_in 12 tb 0x9008 (0x9008 + 8)) /\
  (forall y d tb, jumps st' y d -> tbs st' !! d = Some tb -> ~ code_in 12 tb 0x9008 (0x9008 + 8)).
Proof.
  apply (no_stale_code 64 12 52 example_mask example_config example_ht example_state 0x9008 8);
    [reflexivity|lia|apply example_ht_ok|apply example_ht_ok|apply example_reachable|].
  repeat split; vm_compute; done.
Defined.

(** The write hits the second half of the block, and it is not found any more. *)
Example overwritten_block_gone :
  (fun st => (tb_lookup__cpu_state 64 12 example_mask example_map 0x401ff0 0 0 0 0 0 st).1) <$>
    tb_invalidate_phys_page_fast 64 12 example_config 0x9008 8 example_state = Some None.
Proof. vm_compute. reflexivity. Qed.

(** A block without instructions at 0x401000, the start of a page: it is on the
    list of that page only, since there is no RAM on the page before, and any
    write to the page drops it. *)
Definition empty_tb : TranslationBlock :=
  mk_tb (mk_code 0x401000 0 0 0 0 0x700000 (0x40, 0x60)) 0 (null_link, null_link) (0, 0) (0, 0) null_link (null_link, null_link) (null_link, null_link) 0.

Lemma empty_generated : generated 64 12 52 example_mask example_map empty_tb.
Proof.
  split; [done|done| |by intros ?|by left|done]. repeat split; vm_compute; done.
Qed.

Example empty_block_gone :
  ('(_, st) ← tb_gen_code_link 64 12 example_mask example_config example_map 0x6ffe00 empty_tb example_start;
   st' ← tb_invalidate_phys_page_fast 64 12 example_config 0x5800 8 st;
   let found st := (tb_lookup__cpu_state 64 12 example_mask example_map 0x401000 0 0 0 0 0 st).1 in Some (found st, found st'))
  = Some (Some 0x6ffe00, None).
Proof. vm_compute. reflexivity. Qed.

(** ** RAM above 4 GiB with guest addresses of 32 bits *)

(** There [TARGET_PAGE_MASK] is an unsigned 32-bit value; the page address of a
    block in RAM above 4 GiB loses its high half, the block is on the list of
    the right page but its address is of another, and a write to its code does
    not invalidate it. *)
Definition mask_32 : Z := 2 ^ 32 - 4096.
Definition high_map (x : Z) : Z := if x / 4096 =? 0x401 then 0x100005000 + x mod 4096 else NO_PAGE.

Definition high_tb : TranslationBlock :=
  mk_tb (mk_code 0x401000 0 0 32 0 0x700000 (0x40, 0x60)) 0 (null_link, null_link) (0, 0) (0, 0) null_link (null_link, null_link) (null_link, null_link) 0.

Definition high_run (mask : Z) : option (option Z) :=
  '(_, st) ← tb_gen_code_link 32 12 mask example_config high_map 0x6ffe00 high_tb example_start;
  st ← tb_invalidate_phys_page_fast 32 12 example_config 0x100005000 8 st;
  Some (tb_lookup__cpu_state 32 12 mask high_map 0x401000 0 0 0 0 0 st).1.

Example stale_code_above_4g : high_run mask_32 = Some (Some 0x6ffe00) /\ high_run example_mask = Some None.
Proof. split; vm_compute; reflexivity. Qed.
