(* ===== verification/SoftmmuAccess.v ===== *)
(** * Loads and stores of the emulated CPU ([qemu/accel/tcg/cputlb.c])

    [load_helper] and [store_helper], which generated code calls for every
    access that it does not do inline: they look the address up in the TLB,
    fill it, ask the engine for the region at the physical address, run the
    user's hooks, check the permissions, and read or write host memory, splitting
    accesses that cross a page.  A helper either returns or leaves to the
    execution loop; [None] is the use of a pointer that is no longer valid: the
    helpers keep a pointer into the TLB's table while callbacks run, and a flush
    that resizes the table frees it.  Left out is [cpu_restore_state], which
    brings the CPU's program counter up to date for callbacks: the
    registers of the CPU are not part of this state.

    What the helpers need of the rest of the engine, of the CPU target and of
    the user's callbacks is the interface [AccessEnv]. *)

From S2P Require Import Prelude UcTypes LinkedList Hooks FlatView PhysMap Dispatch SoftTlb.

(** ** Data *)

(** [MemOp]: the size (its logarithm) and the byte order. *)
Record MemOp := mk_memop { mo_log : Z; mo_be : bool }.

Definition memop_size (op : MemOp) : Z := Z.shiftl 1 (mo_log op).

(** [op ^ MO_BSWAP] *)
Definition op_swap (b : bool) (op : MemOp) : MemOp := mk_memop (mo_log op) (xorb b (mo_be op)).

Inductive uc_mem_type :=
| UC_MEM_READ | UC_MEM_WRITE | UC_MEM_FETCH
| UC_MEM_READ_UNMAPPED | UC_MEM_WRITE_UNMAPPED | UC_MEM_FETCH_UNMAPPED
| UC_MEM_WRITE_PROT | UC_MEM_READ_PROT | UC_MEM_FETCH_PROT | UC_MEM_READ_AFTER.

#[global] Instance uc_mem_type_eq_dec : EqDecision uc_mem_type.
Proof. solve_decision. Defined.

(** The fields of a region the helpers read. *)
Record mem_region := mk_mem_region { mr_perms : Z; mr_ram : bool; mr_priority : Z }.

(** The engine as the helpers see it; [E] is all the rest. *)
Record vm (E : Type) := mk_vm {
  v_tlb : CPUTLB;
  v_host : Z -> Z;
  v_error : uc_err;
  v_error_addr : Z;
  v_stop : bool;
  v_exit : bool;
  v_recur : Z;
  v_env : E
}.
Arguments mk_vm {E} _ _ _ _ _ _ _ _.
Arguments v_tlb {E} _.
Arguments v_host {E} _ _.
Arguments v_error {E} _.
Arguments v_error_addr {E} _.
Arguments v_stop {E} _.
Arguments v_exit {E} _.
Arguments v_recur {E} _.
Arguments v_env {E} _.

(** How a helper ends: it returns, or [longjmp]s to the execution loop. *)
Inductive outcome (A : Type) := Returns (a : A) | Leaves.
Arguments Returns {A} _.
Arguments Leaves {A}.

(** What the helpers call.  [memory_mapping] is the engine's and gives a pointer
    to a region, whose fields are read with [region_at]; the nodes of the hook
    lists are read one by one, since a callback may change the lists;
    [cpu_tlb_fill] is the target's, [run_hook] the user's callback; [cow]
    copies a page on write ([None]: no memory); [io_read] and [io_write] go to
    the device callbacks; [check_watchpoint] and [unaligned] are the target's
    reactions; [invalidate_code] drops translated code of a written area. *)
Class AccessEnv (E : Type) := {
  memory_mapping : E -> Z -> option Z;
  region_at : E -> Z -> option mem_region;
  snapshot_level : E -> Z;
  cpu_running : E -> bool;
  hook_head : E -> uc_mem_type -> Z;
  hook_node : E -> Z -> option list_item;
  hook_object : E -> Z -> option hook;
  mem_hook_installed : E -> Z -> bool;
  run_hook : hook -> uc_mem_type -> Z -> Z -> Z -> vm E -> option (bool * vm E);
  cpu_tlb_fill : Z -> Z -> access_type -> nat -> vm E -> option (outcome unit * vm E);
  cow : Z -> Z -> vm E -> option (option Z * vm E);
  io_read : CPUIOTLBEntry -> nat -> Z -> MemOp -> vm E -> option (Z * vm E);
  io_write : CPUIOTLBEntry -> nat -> Z -> Z -> MemOp -> vm E -> option (vm E);
  check_watchpoint : Z -> Z -> Z -> vm E -> option (outcome unit * vm E);
  unaligned : Z -> access_type -> nat -> vm E -> option (outcome unit * vm E);
  invalidate_code : Z -> Z -> vm E -> vm E
}.

(** ** Host memory *)

Fixpoint le_value (l : list Z) : Z :=
  match l with
  | [] => 0
  | b :: l => b + 256 * le_value l
  end.

Fixpoint le_bytes (n : nat) (v : Z) : list Z :=
  match n with
  | O => []
  | S n => v mod 256 :: le_bytes n (v / 256)
  end.

Definition host_bytes (h : Z -> Z) (haddr : Z) (n : nat) : list Z :=
  (fun i => h (haddr + Z.of_nat i)) <$> seq 0 n.

Definition load_memop (h : Z -> Z) (haddr : Z) (op : MemOp) : Z :=
  let l := host_bytes h haddr (Z.to_nat (memop_size op)) in
  le_value (if mo_be op then reverse l else l).

Definition host_store (h : Z -> Z) (haddr : Z) (l : list Z) : Z -> Z :=
  fun a => if haddr <=? a then default (h a) (l !! Z.to_nat (a - haddr)) else h a.

Definition store_memop (h : Z -> Z) (haddr val : Z) (op : MemOp) : Z -> Z :=
  let l := le_bytes (Z.to_nat (memop_size op)) val in
  host_store h haddr (if mo_be op then reverse l else l).

(** ** Computations *)

Section access.
Context {E : Type} `{!AccessEnv E} (m : mmu) (hook_fuel : nat).

(** A computation of a helper. *)
Definition helper (A : Type) : Type := vm E -> option (outcome A * vm E).

Definition hret {A} (a : A) : helper A := fun v => Some (Returns a, v).
Definition hfail {A} : helper A := fun _ => None.
Definition hleave {A} : helper A := fun v => Some (Leaves, v).
Definition hbind {A B} (x : helper A) (f : A -> helper B) : helper B := fun v =>
  match x v with
  | Some (Returns a, v) => f a v
  | Some (Leaves, v) => Some (Leaves, v)
  | None => None
  end.
Definition hget : helper (vm E) := fun v => Some (Returns v, v).
Definition hmod (f : vm E -> vm E) : helper unit := fun v => Some (Returns tt, f v).
Definition hlift {A} (x : option A) : helper A := fun v => a ← x; Some (Returns a, v).

#[local] Notation "'do' x <- a ; b" := (hbind a (fun x => b))
  (at level 10, x pattern, a at level 100, b at level 200).
#[local] Notation "'doing' a ; b" := (hbind a (fun _ => b))
  (at level 10, a at level 100, b at level 200).

Definition hwhen (b : bool) (x : helper unit) : helper unit := if b then x else hret tt.

Definition with_tlb (t : CPUTLB) (v : vm E) : vm E :=
  mk_vm t (v_host v) (v_error v) (v_error_addr v) (v_stop v) (v_exit v) (v_recur v) (v_env v).
Definition with_mem (h : Z -> Z) (v : vm E) : vm E :=
  mk_vm (v_tlb v) h (v_error v) (v_error_addr v) (v_stop v) (v_exit v) (v_recur v) (v_env v).
Definition with_error (e : uc_err) (v : vm E) : vm E :=
  mk_vm (v_tlb v) (v_host v) e (v_error_addr v) (v_stop v) (v_exit v) (v_recur v) (v_env v).
Definition with_error_addr (a : Z) (v : vm E) : vm E :=
  mk_vm (v_tlb v) (v_host v) (v_error v) a (v_stop v) (v_exit v) (v_recur v) (v_env v).
Definition with_exit (v : vm E) : vm E :=
  mk_vm (v_tlb v) (v_host v) (v_error v) (v_error_addr v) (v_stop v) true (v_recur v) (v_env v).
Definition with_recur (n : Z) (v : vm E) : vm E :=
  mk_vm (v_tlb v) (v_host v) (v_error v) (v_error_addr v) (v_stop v) (v_exit v) n (v_env v).

(** ** Entries of the TLB *)

(** A pointer into the table of a mode: it is valid while the table has the
    size it had when the pointer was taken. *)
Record entry_ptr := mk_ep { ep_index : nat; ep_size : Z }.

Definition mode_of (mmu_idx : nat) : helper mode_tlb := do v <- hget; hlift (modes (v_tlb v) !! mmu_idx).

(** [tlb_entry(env, mmu_idx, addr)] *)
Definition tlb_entry (mmu_idx : nat) (addr : Z) : helper entry_ptr :=
  do t <- mode_of mmu_idx;
  hret (mk_ep (tlb_index m (fast t) addr) (tlb_n_entries (fast t))).

Definition read_entry (mmu_idx : nat) (p : entry_ptr) : helper CPUTLBEntry :=
  do t <- mode_of mmu_idx;
  if tlb_n_entries (fast t) =? ep_size p then hlift (fast_table (fast t) !! ep_index p) else hfail.

Definition tlb_hit (tlb_addr addr : Z) : bool := tlb_hit_page m tlb_addr (Z.land addr (page_mask_of m)).

Definition page_offset (addr : Z) : Z := Z.land addr (tulong m (Z.lnot (page_mask_of m))).

Definition drop_invalid (tlb_addr : Z) : Z := Z.ldiff tlb_addr (TLB_INVALID_MASK m).

Definition do_victim (mmu_idx index : nat) (a : access_type) (page : Z) : helper bool :=
  do t <- mode_of mmu_idx;
  do r <- hlift (victim_tlb_hit t index a page);
  match r with
  | Some t => doing hmod (fun v => with_tlb (with_mode mmu_idx t (v_tlb v)) v); hret true
  | None => hret false
  end.

(** [if (!tlb_hit(...)) { ... }]: the entry and its address afterwards. *)
Definition reload (a : access_type) (mmu_idx : nat) (addr size : Z) (p : entry_ptr) (tlb_addr : Z)
    : helper (entry_ptr * Z) :=
  if tlb_hit tlb_addr addr then hret (p, tlb_addr) else
  do hit <- do_victim mmu_idx (ep_index p) a (Z.land addr (page_mask_of m));
  do p <- (if hit : bool then hret p
           else doing (cpu_tlb_fill addr size a mmu_idx : helper unit); tlb_entry mmu_idx addr);
  do te <- read_entry mmu_idx p;
  hret (p, drop_invalid (tlb_read_ofs te a)).

(** The start of both helpers: the entry of the address, the alignment check and
    the reload. *)
Definition lookup_entry (a : access_type) (mmu_idx : nat) (a_bits addr size : Z) : helper (entry_ptr * Z) :=
  do p <- tlb_entry mmu_idx addr;
  do te <- read_entry mmu_idx p;
  doing hwhen (negb (Z.land addr (Z.shiftl 1 a_bits - 1) =? 0)) (unaligned addr a mmu_idx);
  reload a mmu_idx addr size p (tlb_read_ofs te a).

(** ** Hooks *)

(** [HOOK_FOREACH]: run the callbacks for [ty] on [paddr] until one of them
    handles the event ([stop_handled]) or stops the engine. *)
Fixpoint hook_loop (fuel : nat) (stop_handled : bool) (ty : uc_mem_type) (paddr size val : Z) (cur : Z)
    : helper bool :=
  match fuel with
  | O => hfail
  | S fuel =>
    if cur =? 0 then hret false else
    do v <- hget;
    do it <- hlift (hook_node (v_env v) cur);
    if data it =? 0 then hret false else
    do hk <- hlift (hook_object (v_env v) (data it));
    do handled <- (if to_delete hk || negb (HOOK_BOUND_CHECK hk paddr) then hret None
                   else fun v => r ← run_hook hk ty paddr size val v; Some (Returns (Some r.1), r.2));
    do v <- hget;
    let handled_now := match handled with Some b => stop_handled && b | None => false end in
    if handled_now then hret true
    else if (match handled with Some _ => true | None => false end) && v_stop v then hret false
    else do it <- hlift (hook_node (v_env v) cur);
         hook_loop fuel stop_handled ty paddr size val (next it)
  end.

Definition run_hooks (stop_handled : bool) (ty : uc_mem_type) (paddr size val : Z) : helper bool :=
  do v <- hget; hook_loop hook_fuel stop_handled ty paddr size val (hook_head (v_env v) ty).

(** [uc->invalid_addr = paddr; uc->invalid_error = e], and the way out of a
    load: through the execution loop while the emulation runs. *)
Definition report (e : uc_err) (paddr : Z) : helper unit :=
  hmod (fun v => with_error e (with_error_addr paddr v)).

Definition load_exit : helper Z :=
  do v <- hget;
  if cpu_running (v_env v) then doing hmod with_exit; hleave else hret 0.

Definition read_region (mr : Z) : helper mem_region := do v <- hget; hlift (region_at (v_env v) mr).

(** [entry->paddr | (addr & ~TARGET_PAGE_MASK)] *)
Definition physical (te : CPUTLBEntry) (addr : Z) : Z := Z.lor (te_paddr te) (page_offset addr).

(** The physical address and the region there, if any. *)
Definition find_region (mmu_idx : nat) (p : entry_ptr) (addr : Z) : helper (Z * option Z) :=
  do te <- read_entry mmu_idx p;
  do v <- hget;
  hret (physical te addr, memory_mapping (v_env v) (physical te addr)).

(** ** Loads *)

(** The region of a load, with the hooks for unmapped memory; [None]: the
    error is set and the load ends. *)
Definition load_region (code_read : bool) (a : access_type) (mmu_idx : nat) (addr size : Z)
    (p : entry_ptr) (tlb_addr : Z) : helper (option (entry_ptr * Z * Z * Z)) :=
  do (paddr, mr) <- find_region mmu_idx p addr;
  match mr with
  | Some mr => hret (Some (p, tlb_addr, paddr, mr))
  | None =>
    do v <- hget;
    do (handled, error_code) <-
      (if bool_decide (v_error v = UC_ERR_OK) then
         do h <- run_hooks true (if code_read then UC_MEM_FETCH_UNMAPPED else UC_MEM_READ_UNMAPPED)
                   paddr size 0;
         hret (h, if code_read then UC_ERR_FETCH_UNMAPPED else UC_ERR_READ_UNMAPPED)
       else hret (false, v_error v));
    if handled : bool then
      doing hmod (with_error UC_ERR_OK);
      do (p, tlb_addr) <- reload a mmu_idx addr size p tlb_addr;
      do (paddr, mr) <- find_region mmu_idx p addr;
      match mr with
      | Some mr => hret (Some (p, tlb_addr, paddr, mr))
      | None => doing hmod (with_error UC_ERR_MAP); hret None
      end
    else doing report error_code paddr; hret None
  end.

(** The hooks and the permissions of a load from mapped memory. *)
Definition load_checks (code_read : bool) (a : access_type) (mmu_idx : nat) (addr size : Z)
    (p : entry_ptr) (tlb_addr paddr mr : Z) : helper (option (entry_ptr * Z)) :=
  do v <- hget;
  if negb code_read && (v_recur v =? 0) then
    doing run_hooks false UC_MEM_READ paddr size 0;
    do te <- read_entry mmu_idx p;
    do (p, tlb_addr) <-
      (if tlb_entry_is_empty m te then
         doing (cpu_tlb_fill addr size a mmu_idx : helper unit);
         do p <- tlb_entry mmu_idx addr;
         do te <- read_entry mmu_idx p;
         hret (p, drop_invalid (tlb_read_ofs te a))
       else hret (p, tlb_addr));
    do r <- read_region mr;
    if has (mr_perms r) UC_PROT_READ then hret (Some (p, tlb_addr)) else
    do handled <- run_hooks true UC_MEM_READ_PROT paddr size 0;
    if handled : bool then
      doing hmod (with_error UC_ERR_OK);
      do r <- reload a mmu_idx addr size p tlb_addr;
      hret (Some r)
    else doing report UC_ERR_READ_PROT paddr; hret None
  else if code_read then
    do r <- read_region mr;
    if has (mr_perms r) UC_PROT_EXEC then hret (Some (p, tlb_addr)) else
    do handled <- run_hooks true UC_MEM_FETCH_PROT paddr size 0;
    if handled : bool then doing hmod (with_error UC_ERR_OK); hret (Some (p, tlb_addr))
    else doing report UC_ERR_FETCH_PROT paddr; hret None
  else hret (Some (p, tlb_addr)).

(** [do_unaligned_access]: two aligned loads, combined. *)
Definition load_split (full_load : Z -> helper Z) (addr : Z) (op : MemOp) : helper Z :=
  let size := memop_size op in
  let addr1 := Z.land addr (tulong m (Z.lnot (size - 1))) in
  let addr2 := tulong m (addr1 + size) in
  do v <- hget;
  doing hmod (with_recur size);
  do r1 <- full_load addr1;
  do r2 <- full_load addr2;
  doing hmod (with_recur (v_recur v));
  let shift := Z.land addr (size - 1) * 8 in
  hret (Z.land (if mo_be op
                then Z.lor (u64 (Z.shiftl r1 shift)) (Z.shiftr r2 (size * 8 - shift))
                else Z.lor (Z.shiftr r1 shift) (u64 (Z.shiftl r2 (size * 8 - shift))))
               (2 ^ (size * 8) - 1)).

(** The address in host memory of a guest address. *)
Definition host_of (te : CPUTLBEntry) (addr : Z) : Z := u64 (addr + te_addend te).

Definition load_direct (mmu_idx : nat) (p : entry_ptr) (addr : Z) (op : MemOp) : helper Z :=
  do te <- read_entry mmu_idx p;
  do v <- hget;
  hret (load_memop (v_host v) (host_of te addr) op).

Definition crosses_page (addr size : Z) : bool :=
  (1 <? size) && (TARGET_PAGE_SIZE (mmu_target m) <=? page_offset addr + size - 1).

Definition read_iotlb (mmu_idx index : nat) : helper CPUIOTLBEntry :=
  do t <- mode_of mmu_idx; hlift (iotlb (desc t) !! index).

(** The access itself. *)
Definition load_access (full_load : Z -> helper Z) (mmu_idx : nat) (addr : Z) (op : MemOp)
    (p : entry_ptr) (tlb_addr : Z) : helper Z :=
  let size := memop_size op in
  if negb (page_offset tlb_addr =? 0) then
    if negb (Z.land addr (size - 1) =? 0) then load_split full_load addr op else
    do io <- read_iotlb mmu_idx (ep_index p);
    doing hwhen (has tlb_addr (TLB_WATCHPOINT m)) (check_watchpoint addr size BP_MEM_READ);
    let need_swap := (1 <? size) && has tlb_addr (TLB_BSWAP m) in
    if has tlb_addr (TLB_MMIO m) then
      fun v => r ← io_read io mmu_idx addr (op_swap need_swap op) v; Some (Returns r.1, r.2)
    else load_direct mmu_idx p addr (op_swap need_swap op)
  else if crosses_page addr size then load_split full_load addr op
  else load_direct mmu_idx p addr op.

Definition load_body (full_load : Z -> helper Z) (code_read : bool) (mmu_idx : nat) (a_bits : Z)
    (op : MemOp) (addr : Z) : helper Z :=
  let a := if code_read then MMU_INST_FETCH else MMU_DATA_LOAD in
  let size := memop_size op in
  do (p, tlb_addr) <- lookup_entry a mmu_idx a_bits addr size;
  do r <- load_region code_read a mmu_idx addr size p tlb_addr;
  match r with
  | None => load_exit
  | Some (p, tlb_addr, paddr, mr) =>
    do r <- load_checks code_read a mmu_idx addr size p tlb_addr paddr mr;
    match r with
    | None => load_exit
    | Some (p, tlb_addr) =>
      do res <- load_access full_load mmu_idx addr op p tlb_addr;
      do v <- hget;
      doing (if negb code_read && (v_recur v =? 0)
             then do _ <- run_hooks false UC_MEM_READ_AFTER paddr size res; hret tt else hret tt);
      hret res
    end
  end.

(** [load_helper] with its recursion through [full_load]. *)
Fixpoint load_helper (depth : nat) (code_read : bool) (mmu_idx : nat) (a_bits : Z) (op : MemOp) (addr : Z)
    : helper Z :=
  match depth with
  | O => hfail
  | S depth => load_body (load_helper depth code_read mmu_idx a_bits op) code_read mmu_idx a_bits op addr
  end.

(** ** Stores *)

Definition store_exit : helper unit := hmod with_exit.

(** The region of a store, after the write hooks, with the hooks for unmapped
    memory. *)
Definition store_region (mmu_idx : nat) (addr size val : Z) (p : entry_ptr) (tlb_addr : Z)
    : helper (option (entry_ptr * Z * Z * Z)) :=
  do (paddr, mr) <- find_region mmu_idx p addr;
  do v <- hget;
  doing (if v_recur v =? 0 then do _ <- run_hooks false UC_MEM_WRITE paddr size val; hret tt else hret tt);
  match mr with
  | Some mr => hret (Some (p, tlb_addr, paddr, mr))
  | None =>
    do handled <- run_hooks true UC_MEM_WRITE_UNMAPPED paddr size val;
    if handled : bool then
      doing hmod (with_error UC_ERR_OK);
      do (p, tlb_addr) <- reload MMU_DATA_STORE mmu_idx addr size p tlb_addr;
      do (paddr, mr) <- find_region mmu_idx p addr;
      match mr with
      | Some mr => hret (Some (p, tlb_addr, paddr, mr))
      | None => doing hmod (with_error UC_ERR_MAP); doing store_exit; hret None
      end
    else doing report UC_ERR_WRITE_UNMAPPED paddr; doing store_exit; hret None
  end.

(** The permissions of a store. *)
Definition store_checks (mmu_idx : nat) (addr size val : Z) (p : entry_ptr) (tlb_addr paddr mr : Z)
    : helper (option (entry_ptr * Z)) :=
  do r <- read_region mr;
  if has (mr_perms r) UC_PROT_WRITE then hret (Some (p, tlb_addr)) else
  do handled <- run_hooks true UC_MEM_WRITE_PROT paddr size val;
  if handled : bool then
    do r <- reload MMU_DATA_STORE mmu_idx addr size p tlb_addr;
    doing hmod (with_error UC_ERR_OK);
    hret (Some r)
  else doing report UC_ERR_WRITE_PROT paddr; doing store_exit; hret None.

(** Copy on write while a snapshot is held. *)
Definition store_cow (mmu_idx : nat) (addr size : Z) (p : entry_ptr) (tlb_addr paddr mr : Z)
    : helper (option (entry_ptr * Z)) :=
  do v <- hget;
  if snapshot_level (v_env v) =? 0 then hret (Some (p, tlb_addr)) else
  do r <- read_region mr;
  if mr_ram r && (mr_priority r <? snapshot_level (v_env v)) then
    do c <- (fun v => r ← cow mr (Z.land paddr (page_mask_of m)) v; Some (Returns r.1, r.2));
    match c with
    | None => doing report UC_ERR_NOMEM paddr; doing store_exit; hret None
    | Some _ =>
      doing (cpu_tlb_fill addr size MMU_DATA_STORE mmu_idx : helper unit);
      do p <- tlb_entry mmu_idx addr;
      do te <- read_entry mmu_idx p;
      hret (Some (p, addr_write te))
    end
  else hret (Some (p, tlb_addr)).

(** [for (i = 0; i < size; ++i)], from [i] on. *)
Fixpoint store_bytes (store_byte : Z -> Z -> helper unit) (addr val : Z) (op : MemOp) (i : Z) (n : nat)
    : helper unit :=
  match n with
  | O => hret tt
  | S n =>
    let size := memop_size op in
    let val8 := u8 (Z.shiftr val (if mo_be op then (size - 1) * 8 - i * 8 else i * 8)) in
    doing store_byte (tulong m (addr + i)) val8;
    store_bytes store_byte addr val op (i + 1) n
  end.

(** [do_unaligned_access]: the second page is filled, watchpoints are checked
    on both, then the bytes are stored one by one. *)
Definition store_split (store_byte : Z -> Z -> helper unit) (mmu_idx : nat) (addr val : Z) (op : MemOp)
    (tlb_addr : Z) : helper unit :=
  let size := memop_size op in
  let page2 := Z.land (tulong m (addr + size)) (page_mask_of m) in
  let size2 := page_offset (tulong m (addr + size)) in
  do p2 <- tlb_entry mmu_idx page2;
  do te2 <- read_entry mmu_idx p2;
  do tlb_addr2 <-
    (if tlb_hit_page m (addr_write te2) page2 then hret (addr_write te2) else
     do hit <- do_victim mmu_idx (ep_index p2) MMU_DATA_STORE page2;
     do p2 <- (if hit : bool then hret p2
               else doing (cpu_tlb_fill page2 size2 MMU_DATA_STORE mmu_idx : helper unit);
                    tlb_entry mmu_idx page2);
     do te2 <- read_entry mmu_idx p2; hret (addr_write te2));
  doing hwhen (has tlb_addr (TLB_WATCHPOINT m)) (check_watchpoint addr (size - size2) BP_MEM_WRITE);
  doing hwhen (has tlb_addr2 (TLB_WATCHPOINT m)) (check_watchpoint page2 size2 BP_MEM_WRITE);
  do v <- hget;
  doing hmod (with_recur size);
  doing store_bytes store_byte addr val op 0 (Z.to_nat size);
  hmod (with_recur (v_recur v)).

Definition notdirty_write (mmu_idx : nat) (addr size : Z) (io : CPUIOTLBEntry) (p : entry_ptr)
    : helper unit :=
  do te <- read_entry mmu_idx p;
  do v <- hget;
  let mr := memory_mapping (v_env v) (physical te addr) in
  do r <- match mr with Some mr => do r <- read_region mr; hret (Some r) | None => hret None end;
  doing hwhen (match r with Some r => has (mr_perms r) UC_PROT_EXEC | None => false end)
    (hmod (invalidate_code (u64 (addr + io_addr io)) size));
  do te <- read_entry mmu_idx p;
  do v <- hget;
  let keep := match r with
              | None => true
              | Some r => negb (addr_write te =? tulong m (-1)) && (mr_priority r <? snapshot_level (v_env v))
              end in
  if negb keep && (addr_code te =? tulong m (-1)) &&
     negb (mem_hook_installed (v_env v) (physical te addr))
  then hmod (fun v => with_tlb (tlb_set_dirty m (v_tlb v) addr) v)
  else hret tt.

Definition store_direct (mmu_idx : nat) (p : entry_ptr) (addr val : Z) (op : MemOp) : helper unit :=
  do te <- read_entry mmu_idx p;
  hmod (fun v => with_mem (store_memop (v_host v) (host_of te addr) val op) v).

Definition store_access (store_byte : Z -> Z -> helper unit) (mmu_idx : nat) (addr val : Z) (op : MemOp)
    (p : entry_ptr) (tlb_addr : Z) : helper unit :=
  let size := memop_size op in
  if negb (page_offset tlb_addr =? 0) then
    if negb (Z.land addr (size - 1) =? 0) then store_split store_byte mmu_idx addr val op tlb_addr else
    do io <- read_iotlb mmu_idx (ep_index p);
    doing hwhen (has tlb_addr (TLB_WATCHPOINT m)) (check_watchpoint addr size BP_MEM_WRITE);
    let need_swap := (1 <? size) && has tlb_addr (TLB_BSWAP m) in
    if has tlb_addr (TLB_MMIO m) then
      fun v => v ← io_write io mmu_idx val addr (op_swap need_swap op) v; Some (Returns tt, v)
    else if has tlb_addr (TLB_DISCARD_WRITE m) then hret tt
    else
      doing hwhen (has tlb_addr (TLB_NOTDIRTY m)) (notdirty_write mmu_idx addr size io p);
      store_direct mmu_idx p addr val (op_swap need_swap op)
  else if crosses_page addr size then store_split store_byte mmu_idx addr val op tlb_addr
  else store_direct mmu_idx p addr val op.

Definition store_body (store_byte : Z -> Z -> helper unit) (mmu_idx : nat) (a_bits : Z) (op : MemOp)
    (addr val : Z) : helper unit :=
  let size := memop_size op in
  do (p, tlb_addr) <- lookup_entry MMU_DATA_STORE mmu_idx a_bits addr size;
  do r <- store_region mmu_idx addr size val p tlb_addr;
  match r with
  | None => hret tt
  | Some (p, tlb_addr, paddr, mr) =>
    do r <- store_checks mmu_idx addr size val p tlb_addr paddr mr;
    match r with
    | None => hret tt
    | Some (p, tlb_addr) =>
      do r <- store_cow mmu_idx addr size p tlb_addr paddr mr;
      match r with
      | None => hret tt
      | Some (p, tlb_addr) => store_access store_byte mmu_idx addr val op p tlb_addr
      end
    end
  end.

(** [store_helper], which stores single bytes through itself. *)
Fixpoint store_helper (depth : nat) (mmu_idx : nat) (a_bits : Z) (op : MemOp) (addr val : Z) : helper unit :=
  match depth with
  | O => hfail
  | S depth =>
    store_body (store_helper depth mmu_idx a_bits (mk_memop 0 false)) mmu_idx a_bits op addr val
  end.
End access.
