(* ===== verification/AccessProofs.v ===== *)
(** * Loads and stores reach the right bytes

    Without hooks, on pages that are in the TLB: [load_helper] returns the
    value of the bytes at the address, also when the access crosses a page and
    is put together from two loads; [store_helper] changes exactly those bytes;
    what is stored is loaded again.  On memory that is not mapped or not
    permitted, the error is set and nothing else changes. *)

From S2P Require Import Prelude UcTypes LinkedList Hooks FlatView PhysMap Dispatch SoftTlb TlbCoherence TlbRuns.
From S2P Require Import SoftmmuAccess.

(** ** Values of byte lists *)

Definition bytes_ok (l : list Z) : Prop := Forall (fun b => 0 <= b < 256) l.

Lemma le_value_range l : bytes_ok l -> 0 <= le_value l < 2 ^ (8 * Z.of_nat (length l)).
Proof.
  induction 1 as [|b l Hb _ IH]; [done|]. cbn [le_value length].
  replace (8 * Z.of_nat (S (length l))) with (8 + 8 * Z.of_nat (length l)) by lia.
  rewrite Z.pow_add_r by lia. change (2 ^ 8) with 256. lia.
Qed.

Lemma le_value_app l l' : le_value (l ++ l') = le_value l + 2 ^ (8 * Z.of_nat (length l)) * le_value l'.
Proof.
  induction l as [|b l IH]; [cbn; lia|]. cbn [le_value length app]. rewrite IH.
  replace (8 * Z.of_nat (S (length l))) with (8 + 8 * Z.of_nat (length l)) by lia.
  rewrite (Z.pow_add_r 2 8) by lia. change (2 ^ 8) with 256. lia.
Qed.

Lemma le_value_split l k : bytes_ok l -> (k <= length l)%nat ->
  le_value l mod 2 ^ (8 * Z.of_nat k) = le_value (take k l) /\
  le_value l / 2 ^ (8 * Z.of_nat k) = le_value (drop k l).
Proof.
  intros Hl Hk. assert (bytes_ok (take k l)) as Ht by (by apply Forall_take).
  pose proof (le_value_range _ Ht) as Hr. rewrite length_take_le in Hr by done.
  pose proof (le_value_app (take k l) (drop k l)) as E. rewrite take_drop, length_take_le in E by done.
  pose proof (Z.pow_pos_nonneg 2 (8 * Z.of_nat k)). rewrite E. split.
  - rewrite (Z.mul_comm (2 ^ _)), Z.mod_add by lia. by apply Z.mod_small.
  - rewrite (Z.mul_comm (2 ^ _)), Z.div_add by lia. rewrite Z.div_small by lia. lia.
Qed.

Lemma le_value_bytes n v : le_value (le_bytes n v) = v mod 2 ^ (8 * Z.of_nat n).
Proof.
  revert v. induction n as [|n IH]; intros v; [cbn; by rewrite Z.mod_1_r|]. cbn [le_bytes le_value].
  rewrite IH. replace (8 * Z.of_nat (S n)) with (8 + 8 * Z.of_nat n) by lia.
  rewrite Z.pow_add_r by lia. change (2 ^ 8) with 256.
  rewrite Z.rem_mul_r by (pose proof (Z.pow_pos_nonneg 2 (8 * Z.of_nat n)); lia). lia.
Qed.

Lemma le_bytes_length n v : length (le_bytes n v) = n.
Proof. revert v. induction n as [|n IH]; intros v; [done|]. cbn. by rewrite IH. Qed.

Lemma le_bytes_lookup n v k : (k < n)%nat -> le_bytes n v !! k = Some (v / 2 ^ (8 * Z.of_nat k) mod 256).
Proof.
  revert v k. induction n as [|n IH]; intros v k Hk; [lia|]. destruct k as [|k]; cbn.
  - by rewrite Z.div_1_r.
  - rewrite IH by lia. replace (8 * Z.of_nat (S k)) with (8 + 8 * Z.of_nat k) by lia.
    pose proof (Z.pow_pos_nonneg 2 (8 * Z.of_nat k)). rewrite Z.pow_add_r, <- Z.div_div by lia. done.
Qed.

(** The value in the byte order of an operation. *)
Definition op_value (be : bool) (l : list Z) : Z := le_value (if be then reverse l else l).

Lemma join_num s N X V :
  0 <= s <= N -> N <= 64 -> 0 <= X < 2 ^ s ->
  Z.land (Z.lor X (u64 (Z.shiftl V s))) (2 ^ N - 1) = X + 2 ^ s * (V mod 2 ^ (N - s)).
Proof.
  intros Hs HN HX. rewrite Z.shiftl_mul_pow2 by lia. pose proof (Z.pow_pos_nonneg 2 s ltac:(lia) ltac:(lia)) as Hp.
  assert (u64 (V * 2 ^ s) = 2 ^ s * (V mod 2 ^ (64 - s))) as E64.
  { unfold wrap. replace 64 with (s + (64 - s)) at 1 by lia. rewrite Z.pow_add_r by lia.
    rewrite (Z.mul_comm V), Z.mul_mod_distr_l by (try apply Z.pow_nonzero; lia). done. }
  rewrite Z.lor_comm, (lor_low s), E64 by (try lia; rewrite E64, Z.mul_comm; apply Z.mod_mul; lia).
  replace (2 ^ N - 1) with (Z.ones N) by (rewrite Z.ones_equiv; lia). rewrite Z.land_ones by lia.
  replace (2 ^ N) with (2 ^ s * 2 ^ (N - s)) by (rewrite <- Z.pow_add_r by lia; f_equal; lia).
  pose proof (Z.pow_pos_nonneg 2 (N - s) ltac:(lia) ltac:(lia)).
  rewrite Z.add_comm, (Z.mul_comm (2 ^ s) (V mod _)), Z.rem_mul_r by lia.
  rewrite Z.add_comm, Z.mod_add, (Z.mod_small X) by lia. rewrite Z.add_comm, Z.div_add, Z.div_small, Z.add_0_l by lia.
  do 2 f_equal. apply Z.mod_mod_divide. exists (2 ^ (64 - N)). rewrite <- Z.pow_add_r by lia. f_equal. lia.
Qed.

(** Two aligned words, shifted and joined: the middle [n] bytes. *)
Lemma join_words (be : bool) (l1 l2 : list Z) n k :
  bytes_ok l1 -> bytes_ok l2 -> length l1 = n -> length l2 = n -> (k < n)%nat -> (n <= 8)%nat ->
  Z.land (if be then Z.lor (u64 (Z.shiftl (op_value be l1) (Z.of_nat k * 8)))
                       (Z.shiftr (op_value be l2) (Z.of_nat n * 8 - Z.of_nat k * 8))
          else Z.lor (Z.shiftr (op_value be l1) (Z.of_nat k * 8))
                 (u64 (Z.shiftl (op_value be l2) (Z.of_nat n * 8 - Z.of_nat k * 8))))
         (2 ^ (Z.of_nat n * 8) - 1)
  = op_value be (drop k l1 ++ take k l2).
Proof.
  intros H1 H2 L1 L2 Hk Hn. unfold op_value. destruct be.
  - assert (bytes_ok (reverse l1)) as R1 by (by apply Forall_reverse).
    assert (bytes_ok (reverse l2)) as R2 by (by apply Forall_reverse).
    destruct (le_value_split (reverse l2) (n - k) R2) as [_ D2]; [rewrite length_reverse; lia|].
    destruct (le_value_split (reverse l1) (n - k) R1) as [D1 _]; [rewrite length_reverse; lia|].
    assert (bytes_ok (drop (n - k) (reverse l2))) as Rd by (by apply Forall_drop).
    pose proof (le_value_range _ Rd) as Hr. rewrite length_drop, length_reverse in Hr.
    rewrite Z.lor_comm. replace (Z.of_nat n * 8 - Z.of_nat k * 8) with (8 * Z.of_nat (n - k)) by lia.
    rewrite (Z.shiftr_div_pow2 _ (8 * Z.of_nat (n - k))), D2 by lia.
    rewrite join_num; [|lia|lia|split; [lia|eapply Z.lt_le_trans; [apply Hr|apply Z.pow_le_mono_r; lia]]].
    replace (Z.of_nat n * 8 - Z.of_nat k * 8) with (8 * Z.of_nat (n - k)) by lia. rewrite D1.
    rewrite reverse_app, le_value_app, length_reverse, length_take_le by lia.
    rewrite (Z.mul_comm (Z.of_nat k) 8). f_equal; [f_equal|do 2 f_equal].
    + rewrite <- (take_drop k l2) at 1. rewrite reverse_app, drop_app_ge, length_reverse, length_drop, L2 by (rewrite length_reverse, length_drop; lia).
      rewrite Nat.sub_diag. done.
    + rewrite <- (take_drop k l1) at 1. rewrite reverse_app, take_app_le by (rewrite length_reverse, length_drop; lia).
      rewrite take_ge by (rewrite length_reverse, length_drop; lia). done.
  - destruct (le_value_split l1 k H1) as [_ D1]; [lia|]. destruct (le_value_split l2 k H2) as [D2 _]; [lia|].
    assert (bytes_ok (drop k l1)) as Rd by (by apply Forall_drop).
    pose proof (le_value_range _ Rd) as Hr. rewrite length_drop in Hr.
    rewrite (Z.mul_comm (Z.of_nat k)), (Z.mul_comm (Z.of_nat n)).
    rewrite (Z.shiftr_div_pow2 _ (8 * Z.of_nat k)), D1 by lia.
    rewrite join_num; [|lia|lia|split; [lia|eapply Z.lt_le_trans; [apply Hr|apply Z.pow_le_mono_r; lia]]].
    replace (8 * Z.of_nat n - (8 * Z.of_nat n - 8 * Z.of_nat k)) with (8 * Z.of_nat k) by lia. rewrite D2.
    rewrite le_value_app, length_drop, L1. do 2 f_equal. f_equal. lia.
Qed.

(** The bytes of a value in the order of an operation. *)
Definition op_bytes (be : bool) (n : nat) (val : Z) : list Z :=
  if be then reverse (le_bytes n val) else le_bytes n val.

Lemma op_bytes_length be n val : length (op_bytes be n val) = n.
Proof. unfold op_bytes. destruct be; rewrite ?length_reverse; apply le_bytes_length. Qed.

Lemma op_bytes_value be n val : op_value be (op_bytes be n val) = val mod 2 ^ (8 * Z.of_nat n).
Proof. unfold op_value, op_bytes. destruct be; rewrite ?reverse_involutive; apply le_value_bytes. Qed.

Lemma op_bytes_lookup (be : bool) n val k : (k < n)%nat ->
  op_bytes be n val !! k =
    Some (u8 (Z.shiftr val (if be then (Z.of_nat n - 1) * 8 - Z.of_nat k * 8 else Z.of_nat k * 8))).
Proof.
  intros Hk. unfold op_bytes, wrap. change (2 ^ 8) with 256. rewrite Z.shiftr_div_pow2 by (destruct be; lia). destruct be.
  - rewrite reverse_lookup by (by rewrite le_bytes_length). rewrite le_bytes_length, le_bytes_lookup by lia.
    do 4 f_equal. lia.
  - rewrite le_bytes_lookup by done. do 4 f_equal. lia.
Qed.

Lemma op_bytes_ok be n val : bytes_ok (op_bytes be n val).
Proof.
  apply Forall_lookup_2. intros k b Hk. pose proof (lookup_lt_Some _ _ _ Hk) as Hlt. rewrite op_bytes_length in Hlt.
  rewrite op_bytes_lookup in Hk by done. injection Hk as <-. apply (wrap_range 8). lia.
Qed.

(** ** Runs of the helpers *)

Section runs.
Context {E : Type} `{!AccessEnv E} (m : mmu) (hook_fuel : nat).
Context (Hcfg : tlb_config m) (Hfuel : (0 < hook_fuel)%nat).
Let Hbits : 1 <= TARGET_PAGE_BITS (mmu_target m) <= 16 := tc_bits m Hcfg.
Let Hlong : 32 <= TARGET_LONG_BITS (mmu_target m) <= 64 := tc_long m Hcfg.

Abbreviation bits := (TARGET_PAGE_BITS (mmu_target m)).
Abbreviation long := (TARGET_LONG_BITS (mmu_target m)).
Abbreviation ps := (2 ^ bits).

Lemma hbind_run {A B} (x : helper A) (f : A -> helper B) (v v' : vm E) a :
  x v = Some (Returns a, v') -> hbind x f v = f a v'.
Proof. intros Hx. unfold hbind. by rewrite Hx. Qed.

Definition no_hooks (e : E) : Prop := forall ty, hook_head e ty = 0.

Lemma run_hooks_none sh ty paddr size val (v : vm E) :
  no_hooks (v_env v) -> run_hooks hook_fuel sh ty paddr size val v = Some (Returns false, v).
Proof.
  intros Hn. unfold run_hooks, hbind, hget. rewrite Hn. by destruct hook_fuel; [lia|].
Qed.

(** The page of [addr] is in its slot of the TLB, without flags. *)
Definition cached (a : access_type) (i : nat) (tlb : CPUTLB) (addr : Z) (te : CPUTLBEntry) : Prop :=
  (exists t, modes tlb !! i = Some t /\ fast_table (fast t) !! tlb_index m (fast t) addr = Some te) /\
  tlb_read_ofs te a = page_of_addr m addr.

(** Moreover a region is mapped there. *)
Record plain_page (a : access_type) (i : nat) (tlb : CPUTLB) (e : E) (addr : Z) (te : CPUTLBEntry)
    (r : mem_region) : Prop := mk_plain {
  pp_cached : cached a i tlb addr te;
  pp_region : exists mr, memory_mapping e (physical m te addr) = Some mr /\ region_at e mr = Some r
}.

Lemma page_offset_eq addr : page_offset m addr = addr mod ps.
Proof. apply (page_offset_mask m Hcfg). Qed.

Lemma page_offset_page addr : 0 <= addr < 2 ^ long -> page_offset m (page_of_addr m addr) = 0.
Proof. intros Ha. rewrite page_offset_eq. by apply (page_of_addr_page m Hcfg). Qed.

Lemma plain_hit addr : 0 <= addr < 2 ^ long -> tlb_hit m (page_of_addr m addr) addr = true.
Proof. intros Ha. apply (page_hits_self m Hcfg). by apply page_of_addr_page. Qed.

Lemma cached_not_empty a i tlb addr te :
  cached a i tlb addr te -> 0 <= addr < 2 ^ long -> tlb_entry_is_empty m te = false.
Proof.
  intros [_ Ha] Hr. apply not_true_iff_false. unfold tlb_entry_is_empty. intros H. bool_to_prop.
  assert (tlb_read_ofs te a = tulong m (-1)) as E1 by (by destruct a).
  destruct (page_of_addr_page m Hcfg addr Hr) as [_ Hal]. rewrite <- Ha, E1, minus_one in Hal by done.
  by apply (aligned_not_minus_one m Hcfg (2 ^ long - 1) bits) in Hal; [|lia].
Qed.

Lemma crosses_false addr size : addr mod ps + size <= ps -> crosses_page m addr size = false.
Proof.
  intros H. unfold crosses_page. rewrite page_size by apply Hcfg. rewrite page_offset_eq.
  apply andb_false_iff. right. apply Z.leb_gt. lia.
Qed.

Lemma crosses_true op addr : ps < addr mod ps + memop_size op -> crosses_page m addr (memop_size op) = true.
Proof.
  intros H2. pose proof (Z.mod_pos_bound addr ps ltac:(lia)). unfold crosses_page. rewrite page_size by apply Hcfg. rewrite page_offset_eq.
  apply andb_true_iff. split; [apply Z.ltb_lt|apply Z.leb_le]; lia.
Qed.

(** The slot of an address, as the helpers point to it. *)
Definition slot_of (t : mode_tlb) (addr : Z) : entry_ptr := mk_ep (tlb_index m (fast t) addr) (tlb_n_entries (fast t)).

Lemma tlb_entry_run i t addr (v : vm E) :
  modes (v_tlb v) !! i = Some t -> tlb_entry m i addr v = Some (Returns (slot_of t addr), v).
Proof. intros Ht. unfold tlb_entry, mode_of, hbind, hget, hlift. by rewrite Ht. Qed.

Lemma read_entry_run i t addr te (v : vm E) :
  modes (v_tlb v) !! i = Some t -> fast_table (fast t) !! tlb_index m (fast t) addr = Some te ->
  read_entry i (slot_of t addr) v = Some (Returns te, v).
Proof.
  intros Ht Hte. unfold read_entry, mode_of, hbind, hget, hlift. rewrite Ht.
  cbn [mbind option_bind slot_of ep_size ep_index]. by rewrite Z.eqb_refl, Hte.
Qed.

Lemma find_region_run i t addr te mr (v : vm E) :
  modes (v_tlb v) !! i = Some t -> fast_table (fast t) !! tlb_index m (fast t) addr = Some te ->
  memory_mapping (v_env v) (physical m te addr) = mr ->
  find_region m i (slot_of t addr) addr v = Some (Returns (physical m te addr, mr), v).
Proof.
  intros Ht Hte Hmr. unfold find_region. rewrite (hbind_run _ _ _ _ _ (read_entry_run i t addr te v Ht Hte)).
  unfold hbind, hget, hret. by rewrite Hmr.
Qed.

Lemma read_region_run mr r (v : vm E) : region_at (v_env v) mr = Some r -> read_region mr v = Some (Returns r, v).
Proof. intros Hr. unfold read_region, hbind, hget, hlift. by rewrite Hr. Qed.

Lemma lookup_entry_run a i t addr te size (v : vm E) :
  cached a i (v_tlb v) addr te -> modes (v_tlb v) !! i = Some t -> 0 <= addr < 2 ^ long ->
  fast_table (fast t) !! tlb_index m (fast t) addr = Some te /\
  lookup_entry m a i 0 addr size v = Some (Returns (slot_of t addr, page_of_addr m addr), v).
Proof.
  intros [(t' & Ht' & Hte) Hadr] Ht Ha. assert (t' = t) as -> by congruence. split; [done|]. unfold lookup_entry.
  rewrite (hbind_run _ _ _ _ _ (tlb_entry_run i t addr v Ht)), (hbind_run _ _ _ _ _ (read_entry_run i t addr te v Ht Hte)).
  change (Z.shiftl 1 0 - 1) with 0. rewrite Z.land_0_r. cbn [Z.eqb negb hwhen].
  rewrite (hbind_run _ _ v v tt) by done. unfold reload. by rewrite Hadr, plain_hit.
Qed.

(** On a plain page a load passes all checks. *)
Lemma load_body_plain full i op addr te r t x (v v' : vm E) :
  plain_page MMU_DATA_LOAD i (v_tlb v) (v_env v) addr te r -> modes (v_tlb v) !! i = Some t ->
  no_hooks (v_env v) -> (v_recur v = 0 -> has (mr_perms r) UC_PROT_READ = true) ->
  0 <= addr < 2 ^ long ->
  load_access m full i addr op (slot_of t addr) (page_of_addr m addr) v = Some (Returns x, v') ->
  no_hooks (v_env v') ->
  load_body m hook_fuel full false i 0 op addr v = Some (Returns x, v').
Proof.
  intros [Hc (mr & Hmr & Hr)] Ht Hn Hperm Ha Hacc Hn'.
  pose proof (cached_not_empty _ _ _ _ _ Hc Ha) as Hne.
  destruct (lookup_entry_run _ i t addr te (memop_size op) v Hc Ht Ha) as [Hte E1].
  pose proof (read_entry_run i t addr te v Ht Hte) as E2.
  pose proof (find_region_run i t addr te _ v Ht Hte Hmr) as E3. set (p := slot_of t addr) in *. unfold load_body.
  rewrite (hbind_run _ _ _ _ _ E1). cbn beta iota.
  rewrite (hbind_run _ _ v v (Some (p, page_of_addr m addr, physical m te addr, mr)))
    by (unfold load_region; by rewrite (hbind_run _ _ _ _ _ E3)).
  cbn beta iota. rewrite (hbind_run _ _ v v (Some (p, page_of_addr m addr))).
  - cbn beta iota. rewrite (hbind_run _ _ v v' x Hacc), (hbind_run _ _ v' v' v') by done.
    cbn [negb andb]. destruct (v_recur v' =? 0); [|done]. unfold hbind. by rewrite run_hooks_none.
  - unfold load_checks. rewrite (hbind_run _ _ v v v) by done. cbn [negb andb].
    destruct (v_recur v =? 0) eqn:Er; [|done]. bool_to_prop.
    rewrite (hbind_run _ _ v v false) by (by apply run_hooks_none).
    rewrite (hbind_run _ _ _ _ _ E2), Hne. rewrite (hbind_run _ _ v v (p, page_of_addr m addr)) by done.
    cbn beta iota. rewrite (hbind_run _ _ v v r) by (by apply read_region_run).
    by rewrite Hperm.
Qed.

(** A load that stays in its page. *)
Lemma load_plain d i op addr te r (v : vm E) :
  plain_page MMU_DATA_LOAD i (v_tlb v) (v_env v) addr te r -> no_hooks (v_env v) ->
  (v_recur v = 0 -> has (mr_perms r) UC_PROT_READ = true) ->
  0 <= addr < 2 ^ long -> addr mod ps + memop_size op <= ps ->
  load_helper m hook_fuel (S d) false i 0 op addr v =
    Some (Returns (load_memop (v_host v) (host_of te addr) op), v).
Proof.
  intros Hp Hn Hperm Ha Hsz. destruct (pp_cached _ _ _ _ _ _ _ Hp) as [(t & Ht & Hte) _].
  cbn [load_helper]. eapply load_body_plain; [done..| |done].
  unfold load_access. rewrite page_offset_page by done. cbn [Z.eqb negb].
  rewrite crosses_false by done. unfold load_direct. by rewrite (hbind_run _ _ _ _ _ (read_entry_run i t addr te v Ht Hte)).
Qed.

(** ** Bytes of the guest *)

(** The host memory of a page does not wrap around. *)
Definition host_ok (te : CPUTLBEntry) (P : Z) : Prop := host_of te P + ps <= 2 ^ 64.

Lemma host_step te addr k :
  0 <= addr < 2 ^ long -> host_ok te (page_of_addr m addr) -> 0 <= k -> addr mod ps + k < ps ->
  host_of te (addr + k) = host_of te addr + k.
Proof.
  intros Ha Hh Hk Hlt. unfold host_ok, host_of in *. rewrite page_of_addr_eq in Hh by done.
  pose proof (Z.div_mod addr ps ltac:(lia)) as Hd. set (B := addr / ps * ps + te_addend te) in *.
  pose proof (wrap_range 64 B ltac:(lia)) as HB. unfold uint in HB.
  pose proof (Z.mod_pos_bound addr ps ltac:(lia)) as Hm.
  assert (forall j, 0 <= j < ps -> u64 (B + j) = u64 B + j) as Hj.
  { intros j Hj. rewrite <- wrap_add_l. apply wrap_id. unfold uint. lia. }
  replace (addr + k + te_addend te) with (B + (addr mod ps + k)) by (unfold B; lia).
  replace (addr + te_addend te) with (B + addr mod ps) by (unfold B; lia). rewrite !Hj by lia. lia.
Qed.

(** The bytes from a guest address on, each through the entry of its page. *)
Definition guest_byte (h : Z -> Z) (te : Z -> CPUTLBEntry) (a : Z) : Z :=
  h (host_of (te (page_of_addr m a)) a).

Definition guest_bytes (h : Z -> Z) (te : Z -> CPUTLBEntry) (addr : Z) (n : nat) : list Z :=
  (fun k => guest_byte h te (addr + Z.of_nat k)) <$> seq 0 n.

Lemma in_page_of addr k : 0 <= addr < 2 ^ long -> 0 <= k -> addr mod ps + k < ps ->
  0 <= addr + k < 2 ^ long /\ page_of_addr m (addr + k) = page_of_addr m addr.
Proof.
  intros Ha Hk Hlt. pose proof (Z.mod_pos_bound addr ps ltac:(lia)) as Hm.
  pose proof (page_of_addr_page m Hcfg addr Ha) as HP.
  pose proof (Z.div_mod addr ps ltac:(lia)) as Hd.
  assert (addr = page_of_addr m addr + addr mod ps) as E1 by (rewrite page_of_addr_eq by done; lia).
  destruct (page_split m Hcfg _ (addr mod ps + k) HP ltac:(lia)) as [H1 H2].
  replace (page_of_addr m addr + (addr mod ps + k)) with (addr + k) in * by lia. done.
Qed.

Lemma guest_bytes_page h te addr n :
  0 <= addr < 2 ^ long -> host_ok (te (page_of_addr m addr)) (page_of_addr m addr) ->
  addr mod ps + Z.of_nat n <= ps ->
  host_bytes h (host_of (te (page_of_addr m addr)) addr) n = guest_bytes h te addr n.
Proof.
  intros Ha Hh Hn. unfold host_bytes, guest_bytes. apply list_fmap_ext. intros j k Hj.
  apply lookup_seq in Hj as [-> Hj]. rewrite Nat.add_0_l. unfold guest_byte.
  destruct (in_page_of addr (Z.of_nat j)) as [_ ->]; [done|lia|lia|].
  by rewrite host_step by (done || lia).
Qed.

Lemma guest_bytes_ok h te addr n : (forall a, 0 <= h a < 256) -> bytes_ok (guest_bytes h te addr n).
Proof. intros Hh. apply Forall_fmap, Forall_true. intros k. apply Hh. Qed.

Lemma guest_bytes_drop h te addr n k : drop k (guest_bytes h te addr n) = guest_bytes h te (addr + Z.of_nat k) (n - k).
Proof.
  apply list_eq. intros j. unfold guest_bytes. rewrite lookup_drop, !list_lookup_fmap.
  destruct (decide (k + j < n)%nat).
  - rewrite !lookup_seq_lt by lia. cbn. do 2 f_equal. lia.
  - rewrite !lookup_seq_ge by lia. done.
Qed.

Lemma guest_bytes_take h te addr n k : (k <= n)%nat -> take k (guest_bytes h te addr n) = guest_bytes h te addr k.
Proof. intros Hk. unfold guest_bytes. rewrite <- fmap_take, take_seq, Nat.min_l by lia. done. Qed.

Lemma guest_bytes_app h te addr j k :
  guest_bytes h te addr j ++ guest_bytes h te (addr + Z.of_nat j) k = guest_bytes h te addr (j + k).
Proof.
  unfold guest_bytes. rewrite seq_app, fmap_app. f_equal. rewrite Nat.add_0_l.
  replace (seq j k) with (Nat.add j <$> seq 0 k) by (rewrite fmap_add_seq; f_equal; lia).
  rewrite <- list_fmap_compose. apply list_fmap_ext. intros x y _. cbn. f_equal. lia.
Qed.

(** ** Accesses that cross a page *)

Definition op_ok (op : MemOp) : Prop := 0 <= mo_log op <= 3.

Lemma op_size op : op_ok op -> memop_size op = 2 ^ mo_log op /\ 1 <= memop_size op <= 8 /\ memop_size op <= ps.
Proof.
  intros Hop. unfold memop_size, op_ok in *. rewrite Z.shiftl_1_l.
  pose proof (Z.pow_le_mono_r 2 0 (mo_log op)). pose proof (Z.pow_le_mono_r 2 (mo_log op) 3).
  pose proof (tc_min m Hcfg). pose proof (Z.pow_le_mono_r 2 3 bits). split; [done|]. lia.
Qed.

(** The word before the boundary and the word after it. *)
Lemma crossing_words op addr :
  op_ok op -> 0 <= addr -> addr + memop_size op <= 2 ^ long -> ps < addr mod ps + memop_size op ->
  exists addr1 k, Z.land addr (tulong m (Z.lnot (memop_size op - 1))) = addr1 /\
    addr = addr1 + k /\ Z.land addr (memop_size op - 1) = k /\ 0 < k < memop_size op /\
    0 <= addr1 /\ addr1 mod ps + memop_size op = ps /\
    page_of_addr m addr1 = page_of_addr m addr /\
    tulong m (addr1 + memop_size op) = addr1 + memop_size op /\ addr1 + memop_size op < 2 ^ long /\
    (addr1 + memop_size op) mod ps = 0 /\
    page_of_addr m (addr1 + memop_size op) = page_of_addr m (addr + memop_size op - 1).
Proof.
  intros Hop Ha Hend Hc. destruct (op_size op Hop) as (Es & Hs & Hsp). rewrite Es in *. unfold op_ok in Hop.
  set (s := 2 ^ mo_log op) in *. pose proof (tc_min m Hcfg) as Hmin.
  assert (ps = 2 ^ (bits - mo_log op) * s) as Eq by (unfold s; rewrite <- Z.pow_add_r by lia; f_equal; lia).
  set (q := 2 ^ (bits - mo_log op)) in *.
  pose proof (Z.pow_pos_nonneg 2 (bits - mo_log op) ltac:(lia) ltac:(lia)) as Hq. fold q in Hq.
  pose proof (Z.div_mod addr s ltac:(lia)) as D1. pose proof (Z.mod_pos_bound addr s ltac:(lia)) as M1.
  set (A := addr / s) in *. set (k := addr mod s) in *.
  pose proof (Z.div_mod A q ltac:(lia)) as D2. pose proof (Z.mod_pos_bound A q ltac:(lia)) as M2.
  set (P := A / q) in *. set (j := A mod q) in *.
  assert (addr mod ps = j * s + k) as Eoff.
  { symmetry. apply (Z.mod_unique _ _ P); [left; nia|]. rewrite Eq. nia. }
  assert (q < j + 2) as Hj2 by (apply (Z.mul_lt_mono_pos_r s); lia).
  assert (j = q - 1) as Ej by lia. rewrite Ej in *. assert (0 < k) as Hk by nia.
  assert (Z.land addr (tulong m (Z.lnot (s - 1))) = A * s) as E1.
  { unfold s. rewrite size_mask, mask_land by (done || lia). done. }
  assert ((A * s) mod ps = j * s) as Em1.
  { symmetry. apply (Z.mod_unique _ _ P); [left; nia|]. rewrite Eq. nia. }
  assert (A * s + s = (P + 1) * ps) as E2 by (rewrite Eq; nia).
  assert (0 <= A) as HA by (apply Z.div_pos; lia). assert (0 <= A * s) as HAs by nia.
  exists (A * s), k. split; [exact E1|]. split; [lia|]. split.
  { replace (s - 1) with (Z.ones (mo_log op)) by (rewrite Z.ones_equiv; unfold s; lia). by rewrite Z.land_ones by lia. }
  split; [lia|]. split; [done|]. split; [lia|].
  assert (0 <= A * s < 2 ^ long) as R1 by lia.
  split.
  { destruct (in_page_of (A * s) k R1) as [_ E3]; [lia|nia|]. rewrite <- E3. f_equal. lia. }
  assert (0 <= A * s + s < 2 ^ long) as R2 by lia.
  split; [unfold tulong; apply wrap_id; exact R2|]. split; [lia|].
  assert ((A * s + s) mod ps = 0) as Em2 by (rewrite E2; apply Z.mod_mul; lia). split; [done|].
  destruct (in_page_of (A * s + s) (k - 1) R2) as [_ E3]; [lia|rewrite Em2; lia|].
  rewrite <- E3. f_equal. lia.
Qed.

(** ** Loads *)

(** Both pages of an access are plain. *)
Definition pages_plain (a : access_type) (i : nat) (te : Z -> CPUTLBEntry) (rg : Z -> mem_region)
    (addr size : Z) (v : vm E) : Prop :=
  forall b, 0 <= b < 2 ^ long ->
    page_of_addr m b = page_of_addr m addr \/ page_of_addr m b = page_of_addr m (addr + size - 1) ->
    plain_page a i (v_tlb v) (v_env v) b (te (page_of_addr m b)) (rg (page_of_addr m b)) /\
    host_ok (te (page_of_addr m b)) (page_of_addr m b).

Lemma load_memop_page op h te addr :
  op_ok op -> 0 <= addr < 2 ^ long -> host_ok (te (page_of_addr m addr)) (page_of_addr m addr) ->
  addr mod ps + memop_size op <= ps ->
  load_memop h (host_of (te (page_of_addr m addr)) addr) op =
    op_value (mo_be op) (guest_bytes h te addr (Z.to_nat (memop_size op))).
Proof.
  intros Hop Ha Hh Hsz. destruct (op_size op Hop) as (_ & Hs & _).
  unfold load_memop. rewrite guest_bytes_page by (done || lia). done.
Qed.

Lemma helper_load_ok d i op addr te rg (v : vm E) :
  op_ok op -> 0 <= addr -> addr + memop_size op <= 2 ^ long ->
  pages_plain MMU_DATA_LOAD i te rg addr (memop_size op) v -> no_hooks (v_env v) ->
  (forall a, 0 <= v_host v a < 256) ->
  (v_recur v = 0 -> has (mr_perms (rg (page_of_addr m addr))) UC_PROT_READ = true) ->
  load_helper m hook_fuel (S (S d)) false i 0 op addr v =
    Some (Returns (op_value (mo_be op) (guest_bytes (v_host v) te addr (Z.to_nat (memop_size op)))), v).
Proof.
  intros Hop Ha Hend Hpl Hn Hh Hperm. destruct (op_size op Hop) as (_ & Hs & Hsp).
  assert (0 <= addr < 2 ^ long) as Har by lia. destruct (Hpl addr Har ltac:(by left)) as [Hp Hho].
  destruct (decide (addr mod ps + memop_size op <= ps)) as [Hin|Hcr].
  { rewrite (load_plain (S d) i op addr _ _ v Hp Hn Hperm Har Hin). by rewrite (load_memop_page op _ te) by done. }
  destruct (crossing_words op addr Hop Ha Hend ltac:(lia))
    as (addr1 & k & E1 & Ek & Ek' & Hk & H1 & Hoff1 & Hp1 & E2 & H2 & Hoff2 & Hp2).
  set (s := memop_size op) in *. set (v1 := with_recur s v).
  destruct (pp_cached _ _ _ _ _ _ _ Hp) as [(t & Ht & Hte) _].
  change (load_helper m hook_fuel (S (S d)) false i 0 op addr v) with
    (load_body m hook_fuel (load_helper m hook_fuel (S d) false i 0 op) false i 0 op addr v).
  eapply load_body_plain; [done..| |done].
  unfold load_access. rewrite page_offset_page by done. cbn [Z.eqb negb].
  rewrite crosses_true by (fold s; lia).
  unfold load_split. rewrite (hbind_run _ _ v v v) by done. rewrite (hbind_run _ _ v v1 tt) by done.
  fold s. rewrite E1, E2. assert (v_recur v1 <> 0) as Hr1 by (cbn; lia).
  destruct (Hpl addr1 ltac:(lia) ltac:(by left)) as [Hpp1 Hho1].
  destruct (Hpl (addr1 + s) ltac:(lia) ltac:(by right)) as [Hpp2 Hho2].
  rewrite (hbind_run _ _ v1 v1 (op_value (mo_be op) (guest_bytes (v_host v) te addr1 (Z.to_nat s)))).
  2:{ rewrite (load_plain d i op addr1 _ _ v1 Hpp1 Hn) by (done || lia).
      by rewrite (load_memop_page op _ te) by (done || lia). }
  rewrite (hbind_run _ _ v1 v1 (op_value (mo_be op) (guest_bytes (v_host v) te (addr1 + s) (Z.to_nat s)))).
  2:{ rewrite (load_plain d i op (addr1 + s) _ _ v1 Hpp2 Hn) by (done || fold s; lia).
      by rewrite (load_memop_page op _ te) by (done || fold s; lia). }
  rewrite (hbind_run _ _ v1 v tt) by (unfold v1; by destruct v). unfold hret. do 3 f_equal. rewrite Ek'.
  replace (s * 8) with (Z.of_nat (Z.to_nat s) * 8) by lia. replace (k * 8) with (Z.of_nat (Z.to_nat k) * 8) by lia.
  rewrite join_words by (try apply guest_bytes_ok; try done; try lia; unfold guest_bytes; by rewrite length_fmap, length_seq).
  f_equal. rewrite guest_bytes_drop, guest_bytes_take by lia. rewrite Z2Nat.id by lia. rewrite <- Ek.
  replace (addr1 + s) with (addr + Z.of_nat (Z.to_nat s - Z.to_nat k)) by lia. rewrite guest_bytes_app. f_equal. lia.
Qed.

(** ** Stores *)

(** On a plain page a store passes all checks. *)
Lemma store_body_plain byte i op addr val te r t res (v : vm E) :
  plain_page MMU_DATA_STORE i (v_tlb v) (v_env v) addr te r -> modes (v_tlb v) !! i = Some t ->
  no_hooks (v_env v) -> has (mr_perms r) UC_PROT_WRITE = true -> snapshot_level (v_env v) = 0 ->
  0 <= addr < 2 ^ long ->
  store_access m byte i addr val op (slot_of t addr) (page_of_addr m addr) v = res ->
  store_body m hook_fuel byte i 0 op addr val v = res.
Proof.
  intros Hp Ht Hn Hperm Hsn Ha Hacc.
  destruct Hp as [Hc (mr & Hmr & Hr)].
  destruct (lookup_entry_run _ i t addr te (memop_size op) v Hc Ht Ha) as [Hte E1].
  pose proof (find_region_run i t addr te _ v Ht Hte Hmr) as E3. set (p := slot_of t addr) in *. unfold store_body.
  rewrite (hbind_run _ _ _ _ _ E1). cbn beta iota.
  rewrite (hbind_run _ _ v v (Some (p, page_of_addr m addr, physical m te addr, mr))).
  2:{ unfold store_region. rewrite (hbind_run _ _ _ _ _ E3). cbn beta iota.
      rewrite (hbind_run _ _ v v v) by done.
      rewrite (hbind_run _ _ v v tt); [done|]. destruct (v_recur v =? 0); [|done].
      unfold hbind. by rewrite run_hooks_none. }
  cbn beta iota. rewrite (hbind_run _ _ v v (Some (p, page_of_addr m addr))).
  2:{ unfold store_checks. rewrite (hbind_run _ _ v v r) by (by apply read_region_run). by rewrite Hperm. }
  cbn beta iota. rewrite (hbind_run _ _ v v (Some (p, page_of_addr m addr))); [exact Hacc|].
  unfold store_cow. rewrite (hbind_run _ _ v v v) by done. by rewrite Hsn.
Qed.

(** A store that stays in its page. *)
Lemma store_plain d i op addr val te r (v : vm E) :
  plain_page MMU_DATA_STORE i (v_tlb v) (v_env v) addr te r -> no_hooks (v_env v) ->
  has (mr_perms r) UC_PROT_WRITE = true -> snapshot_level (v_env v) = 0 ->
  0 <= addr < 2 ^ long -> addr mod ps + memop_size op <= ps ->
  store_helper m hook_fuel (S d) i 0 op addr val v =
    Some (Returns tt, with_mem (store_memop (v_host v) (host_of te addr) val op) v).
Proof.
  intros Hp Hn Hperm Hsn Ha Hsz. destruct (pp_cached _ _ _ _ _ _ _ Hp) as [(t & Ht & Hte) _].
  cbn [store_helper]. eapply store_body_plain; [done..|].
  unfold store_access. rewrite page_offset_page by done. cbn [Z.eqb negb].
  rewrite crosses_false by done. unfold store_direct. by rewrite (hbind_run _ _ _ _ _ (read_entry_run i t addr te v Ht Hte)).
Qed.

(** Where the bytes of an access lie in host memory. *)
Definition host_at (te : Z -> CPUTLBEntry) (addr : Z) (k : nat) : Z :=
  host_of (te (page_of_addr m (addr + Z.of_nat k))) (addr + Z.of_nat k).

(** [h'] holds the first [n] of the bytes [l] at the guest address, and is
    [h] elsewhere. *)
Definition stored (h h' : Z -> Z) (te : Z -> CPUTLBEntry) (addr : Z) (l : list Z) (n : nat) : Prop :=
  (forall k b, (k < n)%nat -> l !! k = Some b -> h' (host_at te addr k) = b) /\
  (forall a, (forall k, (k < n)%nat -> a <> host_at te addr k) -> h' a = h a).

Lemma host_store_spec h haddr l :
  (forall k b, l !! k = Some b -> host_store h haddr l (haddr + Z.of_nat k) = b) /\
  (forall a, (forall k, (k < length l)%nat -> a <> haddr + Z.of_nat k) -> host_store h haddr l a = h a).
Proof.
  unfold host_store. split.
  - intros k b Hk. rewrite (proj2 (Z.leb_le _ _)) by lia.
    replace (Z.to_nat (haddr + Z.of_nat k - haddr)) with k by lia. by rewrite Hk.
  - intros a Ha. case_if; [|done]. destruct (l !! Z.to_nat (a - haddr)) as [b|] eqn:Eb; [|done].
    apply lookup_lt_Some in Eb. exfalso. apply (Ha (Z.to_nat (a - haddr)) Eb). lia.
Qed.

Lemma store_memop_page op h te addr val :
  op_ok op -> 0 <= addr < 2 ^ long -> host_ok (te (page_of_addr m addr)) (page_of_addr m addr) ->
  addr mod ps + memop_size op <= ps ->
  stored h (store_memop h (host_of (te (page_of_addr m addr)) addr) val op) te addr
    (op_bytes (mo_be op) (Z.to_nat (memop_size op)) val) (Z.to_nat (memop_size op)).
Proof.
  intros Hop Ha Hh Hsz. destruct (op_size op Hop) as (_ & Hs & _). set (n := Z.to_nat (memop_size op)).
  assert (forall k, (k < n)%nat -> host_at te addr k = host_of (te (page_of_addr m addr)) addr + Z.of_nat k) as Hat.
  { intros k Hk. unfold host_at. destruct (in_page_of addr (Z.of_nat k)) as [_ ->]; [done|lia|lia|].
    apply host_step; (done || lia). }
  unfold store_memop. fold n. change (if mo_be op then reverse (le_bytes n val) else le_bytes n val)
    with (op_bytes (mo_be op) n val).
  destruct (host_store_spec h (host_of (te (page_of_addr m addr)) addr) (op_bytes (mo_be op) n val)) as [H1 H2].
  split.
  - intros k b Hk Hb. rewrite Hat by done. by apply H1.
  - intros a Hna. apply H2. rewrite op_bytes_length. intros k Hk. rewrite <- Hat by done. by apply Hna.
Qed.

(** The bytes of the access lie at different places of host memory. *)
Definition host_distinct (te : Z -> CPUTLBEntry) (addr : Z) (n : nat) : Prop :=
  forall j k, (j < n)%nat -> (k < n)%nat -> host_at te addr j = host_at te addr k -> j = k.

Lemma stored_step h h' te addr l n k b :
  host_distinct te addr n -> (k < n)%nat -> l !! k = Some b -> 0 <= b < 256 -> stored h h' te addr l k ->
  stored h (store_memop h' (host_at te addr k) b (mk_memop 0 false)) te addr l (S k).
Proof.
  intros Hd Hk Hl Hb [H1 H2].
  assert (forall a, store_memop h' (host_at te addr k) b (mk_memop 0 false) a =
    if a =? host_at te addr k then b else h' a) as E1.
  { intros a. destruct (host_store_spec h' (host_at te addr k) [b]) as [S1 S2]. unfold store_memop.
    cbn [mo_be]. change (le_bytes (Z.to_nat (memop_size (mk_memop 0 false))) b) with [b mod 256].
    rewrite Z.mod_small by done. case_if; bool_to_prop; simplify_eq.
    - rewrite <- (S1 0%nat b eq_refl) at 2. f_equal. lia.
    - apply S2. intros j Hj. cbn in Hj. lia. }
  split.
  - intros j c Hj Hc. rewrite E1. case_if; bool_to_prop.
    + assert (j = k) as -> by (apply Hd; (done || lia)). congruence.
    + assert (j <> k) by congruence. apply H1; [lia|done].
  - intros a Ha. rewrite E1, (proj2 (Z.eqb_neq _ _)) by (apply Ha; lia). apply H2. intros j Hj. apply Ha. lia.
Qed.

Definition bytes_writable (i : nat) (te : Z -> CPUTLBEntry) (rg : Z -> mem_region) (addr : Z) (n : nat)
    (v : vm E) : Prop :=
  forall j, (j < n)%nat ->
    let P := page_of_addr m (addr + Z.of_nat j) in
    plain_page MMU_DATA_STORE i (v_tlb v) (v_env v) (addr + Z.of_nat j) (te P) (rg P) /\
    has (mr_perms (rg P)) UC_PROT_WRITE = true.

Lemma store_bytes_run d i op addr val te rg h0 n k (v : vm E) :
  op_ok op -> 0 <= addr -> addr + memop_size op <= 2 ^ long -> (k + n)%nat = Z.to_nat (memop_size op) ->
  bytes_writable i te rg addr (k + n) v ->
  no_hooks (v_env v) -> snapshot_level (v_env v) = 0 -> host_distinct te addr (k + n) ->
  stored h0 (v_host v) te addr (op_bytes (mo_be op) (k + n) val) k ->
  exists h', store_bytes m (store_helper m hook_fuel (S d) i 0 (mk_memop 0 false)) addr val op (Z.of_nat k) n v =
      Some (Returns tt, with_mem h' v) /\
    stored h0 h' te addr (op_bytes (mo_be op) (k + n) val) (k + n).
Proof.
  intros Hop Ha Hend Hn Hp Hnh Hsn Hd. destruct (op_size op Hop) as (_ & Hs & _).
  assert (Z.of_nat (k + n) = memop_size op) as Esz by lia. clear Hn.
  revert k v Hp Hnh Hsn Hd Esz. induction n as [|n IH]; intros k v Hp Hnh Hsn Hd Esz Hst.
  { exists (v_host v). rewrite Nat.add_0_r in *. split; [|done]. cbn. by destruct v. }
  replace (k + S n)%nat with (S k + n)%nat in * by lia.
  destruct (Hp k ltac:(lia)) as [Hpk Hwk].
  pose proof (op_bytes_lookup (mo_be op) (S k + n) val k ltac:(lia)) as Hl.
  cbn [store_bytes]. rewrite <- Esz. set (b := u8 _) in *.
  assert (0 <= b < 256) as Hb by (apply (wrap_range 8); lia).
  assert (tulong m (addr + Z.of_nat k) = addr + Z.of_nat k) as -> by (apply wrap_id; unfold uint; lia).
  pose proof (Z.mod_pos_bound (addr + Z.of_nat k) ps ltac:(lia)).
  rewrite (hbind_run _ _ _ _ _ (store_plain d i (mk_memop 0 false) _ b _ _ v Hpk Hnh Hwk Hsn ltac:(lia)
             ltac:(change (memop_size (mk_memop 0 false)) with 1; lia))).
  replace (Z.of_nat k + 1) with (Z.of_nat (S k)) by lia.
  set (v' := with_mem _ v). destruct (IH (S k) v' Hp Hnh Hsn Hd Esz) as (h' & -> & Hh').
  { eapply stored_step; (done || lia). }
  by exists h'.
Qed.

Lemma byte_page op addr j :
  op_ok op -> 0 <= addr -> addr + memop_size op <= 2 ^ long -> 0 <= j < memop_size op ->
  page_of_addr m (addr + j) = page_of_addr m addr \/
  page_of_addr m (addr + j) = page_of_addr m (addr + memop_size op - 1).
Proof.
  intros Hop Ha Hend Hj. pose proof (op_size op Hop) as (_ & Hs & _).
  destruct (decide (addr mod ps + j < ps)) as [Hin|Hout]; [left; by apply in_page_of; try lia|].
  destruct (crossing_words op addr Hop Ha Hend ltac:(lia))
    as (addr1 & k & _ & Ek & _ & Hk & H1 & Hoff1 & Hp1 & _ & H2 & Hoff2 & <-). right.
  pose proof (op_size op Hop) as (_ & _ & Hsp). pose proof (Z.div_mod addr1 ps ltac:(lia)).
  assert (addr mod ps = addr1 mod ps + k) as Em.
  { pose proof (Z.mod_pos_bound addr1 ps ltac:(lia)). symmetry. apply (Z.mod_unique _ _ (addr1 / ps)); [left; lia|lia]. }
  replace (addr + j) with (addr1 + memop_size op + (k + j - memop_size op)) by lia.
  apply in_page_of; [lia|lia|rewrite Hoff2; lia].
Qed.

Lemma pages_writable i te rg op addr (v : vm E) :
  op_ok op -> 0 <= addr -> addr + memop_size op <= 2 ^ long ->
  pages_plain MMU_DATA_STORE i te rg addr (memop_size op) v ->
  has (mr_perms (rg (page_of_addr m addr))) UC_PROT_WRITE = true ->
  has (mr_perms (rg (page_of_addr m (addr + memop_size op - 1)))) UC_PROT_WRITE = true ->
  bytes_writable i te rg addr (Z.to_nat (memop_size op)) v.
Proof.
  intros Hop Ha Hend Hpl Hw1 Hw2 j Hj. destruct (op_size op Hop) as (_ & Hs & _).
  pose proof (byte_page op addr (Z.of_nat j) Hop Ha Hend ltac:(lia)) as Hor.
  split; [by apply Hpl; [lia|]|]. by destruct Hor as [-> | ->].
Qed.

(** The second page of a store is found in the TLB, and neither page has a
    watchpoint. *)
Lemma store_split_run d i op addr val te rg (v : vm E) :
  op_ok op -> 0 <= addr -> addr + memop_size op <= 2 ^ long -> ps < addr mod ps + memop_size op ->
  pages_plain MMU_DATA_STORE i te rg addr (memop_size op) v ->
  bytes_writable i te rg addr (Z.to_nat (memop_size op)) v -> no_hooks (v_env v) -> snapshot_level (v_env v) = 0 ->
  host_distinct te addr (Z.to_nat (memop_size op)) ->
  exists h', store_split m (store_helper m hook_fuel (S d) i 0 (mk_memop 0 false)) i addr val op
      (page_of_addr m addr) v = Some (Returns tt, with_mem h' v) /\
    stored (v_host v) h' te addr (op_bytes (mo_be op) (Z.to_nat (memop_size op)) val) (Z.to_nat (memop_size op)).
Proof.
  intros Hop Ha Hend Hcr Hpl Hbw Hn Hsn Hd. pose proof (op_size op Hop) as (_ & Hs & Hsp).
  destruct (crossing_words op addr Hop Ha Hend Hcr)
    as (addr1 & k & _ & Ek & _ & Hk & H1 & Hoff1 & _ & _ & H2 & Hoff2 & Hp2).
  destruct (in_page_of (addr1 + memop_size op) k) as [Hr2 Hpg2]; [lia|lia|rewrite Hoff2; lia|].
  replace (addr1 + memop_size op + k) with (addr + memop_size op) in * by lia.
  assert (is_page m (page_of_addr m (addr + memop_size op))) as Hpage by (by apply page_of_addr_page).
  set (P := page_of_addr m (addr + memop_size op)) in *.
  assert (page_of_addr m P = P) as EPP.
  { destruct (page_split m Hcfg P 0 Hpage ltac:(lia)) as [_ E0]. by rewrite Z.add_0_r in E0. }
  assert (0 <= P < 2 ^ long) as HPr by apply Hpage.
  destruct (Hpl P HPr) as [Hpp _]; [right; congruence|]. rewrite EPP in Hpp.
  destruct Hpp as [[(t & Ht & Hte) Had] _]. cbn in Had. rewrite EPP in Had.
  assert (forall Q, is_page m Q -> has Q (TLB_WATCHPOINT m) = false) as Hwp.
  { intros Q [_ HQ]. unfold has, TLB_WATCHPOINT. pose proof (flag_range m Hcfg 4 ltac:(lia)).
    rewrite (land_low bits) by (done || lia). done. }
  unfold store_split. assert (tulong m (addr + memop_size op) = addr + memop_size op) as -> by (by apply wrap_id).
  change (Z.land (addr + memop_size op) (page_mask_of m)) with P.
  rewrite (hbind_run _ _ _ _ _ (tlb_entry_run i t P v Ht)), (hbind_run _ _ _ _ _ (read_entry_run i t P _ v Ht Hte)).
  rewrite Had, page_hits_self by (done || apply Hcfg). rewrite (hbind_run _ _ v v P) by done.
  rewrite !Hwp by (done || (apply page_of_addr_page; [apply Hcfg|lia])). cbn [hwhen].
  rewrite (hbind_run _ _ v v tt) by done. rewrite (hbind_run _ _ v v tt) by done. rewrite (hbind_run _ _ v v v) by done.
  set (v1 := with_recur (memop_size op) v). rewrite (hbind_run _ _ v v1 tt) by done.
  destruct (store_bytes_run d i op addr val te rg (v_host v) (Z.to_nat (memop_size op)) 0 v1) as (h' & E1 & Hst);
    try done; [split; [lia|done]|]. cbn [Nat.add] in *. rewrite (hbind_run _ _ _ _ _ E1). exists h'. split; [by destruct v|done].
Qed.

Lemma helper_store_ok d i op addr val te rg (v : vm E) :
  op_ok op -> 0 <= addr -> addr + memop_size op <= 2 ^ long ->
  pages_plain MMU_DATA_STORE i te rg addr (memop_size op) v -> no_hooks (v_env v) -> snapshot_level (v_env v) = 0 ->
  has (mr_perms (rg (page_of_addr m addr))) UC_PROT_WRITE = true ->
  has (mr_perms (rg (page_of_addr m (addr + memop_size op - 1)))) UC_PROT_WRITE = true ->
  host_distinct te addr (Z.to_nat (memop_size op)) ->
  exists h', store_helper m hook_fuel (S (S d)) i 0 op addr val v = Some (Returns tt, with_mem h' v) /\
    stored (v_host v) h' te addr (op_bytes (mo_be op) (Z.to_nat (memop_size op)) val) (Z.to_nat (memop_size op)).
Proof.
  intros Hop Ha Hend Hpl Hn Hsn Hw1 Hw2 Hd. destruct (op_size op Hop) as (_ & Hs & Hsp).
  assert (0 <= addr < 2 ^ long) as Har by lia. destruct (Hpl addr Har ltac:(by left)) as [Hp Hho].
  destruct (decide (addr mod ps + memop_size op <= ps)) as [Hin|Hcr].
  { rewrite (store_plain (S d) i op addr val _ _ v Hp Hn Hw1 Hsn Har Hin). eexists. split; [done|].
    by apply store_memop_page. }
  destruct (store_split_run d i op addr val te rg v) as (h' & E1 & Hst); try done; [lia|by apply pages_writable|].
  exists h'. split; [|done]. destruct (pp_cached _ _ _ _ _ _ _ Hp) as [(t & Ht & Hte) _].
  change (store_helper m hook_fuel (S (S d)) i 0 op addr val v) with
    (store_body m hook_fuel (store_helper m hook_fuel (S d) i 0 (mk_memop 0 false)) i 0 op addr val v).
  eapply store_body_plain; [done..|]. unfold store_access. rewrite page_offset_page by done. cbn [Z.eqb negb].
  rewrite crosses_true by (done || lia). done.
Qed.
End runs.
