(* ===== verification/AccessRuns.v ===== *)
(** * What loads and stores guarantee

    The claims about [load_helper] and [store_helper]: the value of a load,
    the effect of a store, what is stored is loaded again, and the errors of
    accesses to memory that is not mapped or not permitted. *)

From S2P Require Import Prelude UcTypes LinkedList Hooks FlatView PhysMap Dispatch SoftTlb TlbCoherence TlbRuns.
From S2P Require Import SoftmmuAccess AccessProofs.

Section faults.
Context {E : Type} `{!AccessEnv E} (m : mmu) (hook_fuel : nat).
Context (Hcfg : tlb_config m) (Hfuel : (0 < hook_fuel)%nat).
Abbreviation long := (TARGET_LONG_BITS (mmu_target m)).

(** An access of [op] at [addr] by the entries [te] to the regions [rg], with no
    hooks installed: both pages are in the TLB, and no byte is above the end of
    the address space. *)
Record access_ok (a : access_type) (i : nat) (op : MemOp) (addr : Z) (te : Z -> CPUTLBEntry)
    (rg : Z -> mem_region) (v : vm E) : Prop := mk_access {
  ao_op : op_ok op;
  ao_lo : 0 <= addr;
  ao_hi : addr + memop_size op <= 2 ^ long;
  ao_pages : pages_plain m a i te rg addr (memop_size op) v;
  ao_hooks : no_hooks (v_env v)
}.

(** The first and the last page of an access are in a region with [perm]. *)
Definition permits (perm : Z) (rg : Z -> mem_region) (addr size : Z) : Prop :=
  has (mr_perms (rg (page_of_addr m addr))) perm = true /\
  has (mr_perms (rg (page_of_addr m (addr + size - 1)))) perm = true.

(** The bytes of an access are distinct, and host memory consists of bytes. *)
Definition memory_ok (te : Z -> CPUTLBEntry) (addr size : Z) (h : Z -> Z) : Prop :=
  host_distinct m te addr (Z.to_nat size) /\ forall a, 0 <= h a < 256.

(** The error of an access to a physical address. *)
Definition fault (unmapped denied : uc_err) (perm : Z) (e : E) (paddr : Z) : option uc_err :=
  match memory_mapping e paddr with
  | None => Some unmapped
  | Some mr => r ← region_at e mr; if has (mr_perms r) perm then None else Some denied
  end.

Definition load_fault := fault UC_ERR_READ_UNMAPPED UC_ERR_READ_PROT UC_PROT_READ.
Definition store_fault := fault UC_ERR_WRITE_UNMAPPED UC_ERR_WRITE_PROT UC_PROT_WRITE.

Definition failed (e : uc_err) (paddr : Z) (v : vm E) : vm E := with_error e (with_error_addr paddr v).

(** How a failed load ends. *)
Definition load_failed (v : vm E) : outcome Z * vm E :=
  if cpu_running (v_env v) then (Leaves, with_exit v) else (Returns 0, v).

Lemma load_exit_run (v : vm E) : load_exit v = Some (load_failed v).
Proof. unfold load_exit, load_failed, hbind, hget. by destruct (cpu_running (v_env v)). Qed.

(** ** The entry of an access *)

(** The slot of [addr] holds [te]. *)
Definition in_slot (i : nat) (tlb : CPUTLB) (addr : Z) (te : CPUTLBEntry) : Prop :=
  exists t, modes tlb !! i = Some t /\ fast_table (fast t) !! tlb_index m (fast t) addr = Some te.

(** How the helpers come to the entry [te] of an address, whatever flags it has:
    it answers at once, it comes back from the victims, or the target fills the
    TLB.  [v'] is the machine afterwards.  The entry that a fill leaves may answer
    for no access, when nothing is mapped at the physical address. *)
Inductive found (a : access_type) (i : nat) (addr size : Z) (te : CPUTLBEntry) (v : vm E) : vm E -> Prop :=
  | found_hit : in_slot i (v_tlb v) addr te -> tlb_hit m (tlb_read_ofs te a) addr = true -> found a i addr size te v v
  | found_victim te0 t t' : modes (v_tlb v) !! i = Some t -> fast_table (fast t) !! tlb_index m (fast t) addr = Some te0 ->
      tlb_hit m (tlb_read_ofs te0 a) addr = false ->
      victim_tlb_hit t (tlb_index m (fast t) addr) a (Z.land addr (page_mask_of m)) = Some (Some t') ->
      fast_table (fast t') !! tlb_index m (fast t') addr = Some te ->
      found a i addr size te v (with_tlb (with_mode i t' (v_tlb v)) v)
  | found_fill te0 t v' : modes (v_tlb v) !! i = Some t -> fast_table (fast t) !! tlb_index m (fast t) addr = Some te0 ->
      tlb_hit m (tlb_read_ofs te0 a) addr = false ->
      victim_tlb_hit t (tlb_index m (fast t) addr) a (Z.land addr (page_mask_of m)) = Some None ->
      cpu_tlb_fill addr size a i v = Some (Returns tt, v') -> in_slot i (v_tlb v') addr te ->
      tlb_entry_is_empty m te = false \/ memory_mapping (v_env v') (physical m te addr) = None ->
      found a i addr size te v v'.

Lemma find_victim_read a page l k te : find_victim a page l = Some k -> l !! k = Some te -> tlb_read_ofs te a = page.
Proof.
  revert k. induction l as [|x l IH]; [done|]. intros k. cbn. destruct (Z.eqb_spec (tlb_read_ofs x a) page).
  - intros [= <-] [= <-]. done.
  - intros (k' & Hk & ->)%fmap_Some. cbn. by apply IH.
Qed.

(** An entry that answers is not an empty one, whose bits are all set. *)
Lemma hit_not_empty a te addr :
  0 <= addr < 2 ^ long -> tlb_hit m (tlb_read_ofs te a) addr = true -> tlb_entry_is_empty m te = false.
Proof.
  intros Ha Hh. apply not_true_iff_false. unfold tlb_entry_is_empty. intros H. bool_to_prop.
  assert (tlb_read_ofs te a = tulong m (-1)) as E1 by (by destruct a).
  unfold tlb_hit in Hh. rewrite E1 in Hh. fold (page_of_addr m addr) in Hh.
  by rewrite (minus_one_no_hit m Hcfg) in Hh by (by apply page_of_addr_page).
Qed.

Lemma found_lookup a i addr size te v v' :
  0 <= addr < 2 ^ long -> found a i addr size te v v' ->
  exists t tlb_addr, modes (v_tlb v') !! i = Some t /\ fast_table (fast t) !! tlb_index m (fast t) addr = Some te /\
    (tlb_entry_is_empty m te = false \/ memory_mapping (v_env v') (physical m te addr) = None) /\
    lookup_entry m a i 0 addr size v = Some (Returns (slot_of m t addr, tlb_addr), v').
Proof.
  intros Ha Hf.
  assert (forall t te0 v, modes (v_tlb v) !! i = Some t -> fast_table (fast t) !! tlb_index m (fast t) addr = Some te0 ->
    lookup_entry m a i 0 addr size v = reload m a i addr size (slot_of m t addr) (tlb_read_ofs te0 a) v) as Hl.
  { intros t te0 w Ht Hte. unfold lookup_entry.
    rewrite (hbind_run _ _ _ _ _ (tlb_entry_run m i t addr w Ht)), (hbind_run _ _ _ _ _ (read_entry_run m i t addr te0 w Ht Hte)).
    change (Z.shiftl 1 0 - 1) with 0. rewrite Z.land_0_r. cbn [Z.eqb negb hwhen]. by rewrite (hbind_run _ _ w w tt). }
  destruct Hf as [(t & Ht & Hte) Hh|te0 t t' Ht Hte0 Hm Hv Hte|te0 t v' Ht Hte0 Hm Hv Hfill (t' & Ht' & Hte) Hne].
  - exists t, (tlb_read_ofs te a). split; [done|]. split; [done|]. split; [left; by eapply hit_not_empty|].
    rewrite (Hl t te v Ht Hte). unfold reload. by rewrite Hh.
  - set (v' := with_tlb _ v). exists t', (drop_invalid m (tlb_read_ofs te a)).
    assert (modes (v_tlb v') !! i = Some t') as Ht'.
    { cbn. apply list_lookup_insert_eq. by eapply lookup_lt_Some. }
    assert (fast_mask (fast t') = fast_mask (fast t)) as Emask.
    { unfold victim_tlb_hit in Hv. destruct (find_victim _ _ _); [|done]. inv_opt. done. }
    assert (slot_of m t' addr = slot_of m t addr) as Es by (unfold slot_of, tlb_index, tlb_n_entries; by rewrite Emask).
    split; [done|]. split; [done|]. split.
    { left. eapply (hit_not_empty a); [done|]. unfold victim_tlb_hit in Hv.
      destruct (find_victim _ _ _) as [k|] eqn:Ek; [|done]. inv_opt. unfold tlb_index in Hte. cbn [fast fast_mask fast_table] in Hte.
      rewrite list_lookup_insert_eq in Hte by (by eapply lookup_lt_Some). injection Hte as ->.
      erewrite find_victim_read by done. apply (page_hits_self m Hcfg), (page_of_addr_page m Hcfg _ Ha). }
    rewrite (Hl t te0 v Ht Hte0). unfold reload. rewrite Hm.
    rewrite (hbind_run _ _ v v' true).
    2:{ unfold do_victim, mode_of, hbind, hget, hlift. rewrite Ht. cbn [mbind option_bind ep_index slot_of]. by rewrite Hv. }
    rewrite (hbind_run _ _ v' v' (slot_of m t addr)) by done. rewrite <- Es.
    by rewrite (hbind_run _ _ _ _ _ (read_entry_run m i t' addr te v' Ht' Hte)).
  - exists t', (drop_invalid m (tlb_read_ofs te a)). split; [done|]. split; [done|]. split; [done|].
    rewrite (Hl t te0 v Ht Hte0). unfold reload. rewrite Hm.
    rewrite (hbind_run _ _ v v false).
    2:{ unfold do_victim, mode_of, hbind, hget, hlift. rewrite Ht. cbn [mbind option_bind ep_index slot_of]. by rewrite Hv. }
    rewrite (hbind_run _ _ v v' (slot_of m t' addr)).
    2:{ rewrite (hbind_run _ _ _ _ _ Hfill). by apply tlb_entry_run. }
    by rewrite (hbind_run _ _ _ _ _ (read_entry_run m i t' addr te v' Ht' Hte)).
Qed.

(** ** Errors *)

Lemma load_error d i op addr te err (v0 v : vm E) :
  found MMU_DATA_LOAD i addr (memop_size op) te v0 v -> 0 <= addr < 2 ^ long -> no_hooks (v_env v) ->
  v_recur v = 0 -> v_error v = UC_ERR_OK -> load_fault (v_env v) (physical m te addr) = Some err ->
  load_helper m hook_fuel (S d) false i 0 op addr v0 = Some (load_failed (failed err (physical m te addr) v)).
Proof.
  intros Hc Ha Hn Hr0 He Hf. destruct (found_lookup _ _ _ _ _ _ _ Ha Hc) as (t & ta & Ht & Hte & Hne & E1).
  pose proof (read_entry_run m i t addr te v Ht Hte) as E2.
  pose proof (find_region_run m i t addr te _ v Ht Hte eq_refl) as E3.
  cbn [load_helper]. unfold load_body. rewrite (hbind_run _ _ _ _ _ E1). cbn beta iota.
  unfold load_fault, fault in Hf. set (pa := physical m te addr) in *.
  destruct (memory_mapping (v_env v) pa) as [mr|] eqn:Emr.
  - rewrite (hbind_run _ _ v v (Some (slot_of m t addr, ta, pa, mr)))
      by (unfold load_region; by rewrite (hbind_run _ _ _ _ _ E3)).
    destruct (region_at (v_env v) mr) as [r|] eqn:Er; [cbn in Hf|done].
    rewrite (hbind_run _ _ v (failed err pa v) None); [apply load_exit_run|].
    unfold load_checks. rewrite (hbind_run _ _ v v v), Hr0 by done. cbn [negb andb Z.eqb].
    rewrite (hbind_run _ _ v v false) by (by apply run_hooks_none).
    destruct Hne as [Hne|?]; [|congruence]. rewrite (hbind_run _ _ _ _ _ E2), Hne.
    rewrite (hbind_run _ _ v v (slot_of m t addr, ta)) by done.
    rewrite (hbind_run _ _ v v r) by (by apply read_region_run).
    destruct (has (mr_perms r) UC_PROT_READ); [done|]. injection Hf as <-.
    by rewrite (hbind_run _ _ v v false) by (by apply run_hooks_none).
  - injection Hf as <-. rewrite (hbind_run _ _ v (failed UC_ERR_READ_UNMAPPED pa v) None); [apply load_exit_run|].
    unfold load_region. rewrite (hbind_run _ _ _ _ _ E3), (hbind_run _ _ v v v), He by done.
    rewrite bool_decide_true by done. rewrite (hbind_run _ _ v v (false, UC_ERR_READ_UNMAPPED)); [done|].
    by rewrite (hbind_run _ _ v v false) by (by apply run_hooks_none).
Qed.

Lemma store_error d i op addr val te err (v0 v : vm E) :
  found MMU_DATA_STORE i addr (memop_size op) te v0 v -> 0 <= addr < 2 ^ long -> no_hooks (v_env v) ->
  store_fault (v_env v) (physical m te addr) = Some err ->
  store_helper m hook_fuel (S d) i 0 op addr val v0 =
    Some (Returns tt, with_exit (failed err (physical m te addr) v)).
Proof.
  intros Hc Ha Hn Hf. destruct (found_lookup _ _ _ _ _ _ _ Ha Hc) as (t & ta & Ht & Hte & _ & E1).
  pose proof (find_region_run m i t addr te _ v Ht Hte eq_refl) as E3.
  cbn [store_helper]. unfold store_body. rewrite (hbind_run _ _ _ _ _ E1). cbn beta iota.
  unfold store_fault, fault in Hf. set (pa := physical m te addr) in *. set (p := slot_of m t addr) in *.
  set (v' := with_exit (failed err pa v)).
  assert (forall sh ty val, run_hooks hook_fuel sh ty pa (memop_size op) val v = Some (Returns false, v)) as Hh
    by (intros; by apply run_hooks_none).
  destruct (memory_mapping (v_env v) pa) as [mr|] eqn:Emr.
  - rewrite (hbind_run _ _ v v (Some (p, ta, pa, mr))).
    2:{ unfold store_region. rewrite (hbind_run _ _ _ _ _ E3), (hbind_run _ _ v v v) by done.
        rewrite (hbind_run _ _ v v tt); [done|]. destruct (v_recur v =? 0); [by rewrite (hbind_run _ _ _ _ _ (Hh _ _ _))|done]. }
    destruct (region_at (v_env v) mr) as [r|] eqn:Er; [cbn in Hf|done].
    rewrite (hbind_run _ _ v v' None); [done|]. unfold store_checks.
    rewrite (hbind_run _ _ v v r) by (by apply read_region_run).
    destruct (has (mr_perms r) UC_PROT_WRITE); [done|]. injection Hf as <-. by rewrite (hbind_run _ _ _ _ _ (Hh _ _ _)).
  - injection Hf as <-. rewrite (hbind_run _ _ v v' None); [done|]. unfold store_region.
    rewrite (hbind_run _ _ _ _ _ E3), (hbind_run _ _ v v v) by done.
    rewrite (hbind_run _ _ v v tt); [by rewrite (hbind_run _ _ _ _ _ (Hh _ _ _))|].
    destruct (v_recur v =? 0); [by rewrite (hbind_run _ _ _ _ _ (Hh _ _ _))|done].
Qed.

(** ** What is stored is loaded *)

Lemma stored_bytes h h' te addr l n : length l = n -> stored m h h' te addr l n -> guest_bytes m h' te addr n = l.
Proof.
  intros Hl [H1 _]. apply list_eq. intros k. unfold guest_bytes. rewrite list_lookup_fmap.
  destruct (decide (k < n)%nat) as [Hk|Hk].
  - rewrite lookup_seq_lt by done. destruct (lookup_lt_is_Some_2 l k ltac:(lia)) as [b Hb].
    rewrite Hb. cbn. f_equal. by apply H1.
  - rewrite lookup_seq_ge by lia. symmetry. apply lookup_ge_None. lia.
Qed.

Lemma stored_is_bytes h h' te addr l n :
  length l = n -> bytes_ok l -> (forall a, 0 <= h a < 256) -> stored m h h' te addr l n -> forall a, 0 <= h' a < 256.
Proof.
  intros Hl Hb Hh [H1 H2] a.
  destruct (decide (Exists (fun k => a = host_at m te addr k) (seq 0 n))) as [Hex|Hno].
  - apply Exists_exists in Hex as (k & Hk & ->). apply elem_of_seq in Hk.
    destruct (lookup_lt_is_Some_2 l k ltac:(lia)) as [b Hlb]. rewrite (H1 k b ltac:(lia) Hlb).
    by eapply (Forall_lookup_1 _ _ _ _ Hb).
  - rewrite H2; [apply Hh|]. intros k Hk ->. apply Hno, Exists_exists. exists k. split; [apply elem_of_seq; lia|done].
Qed.

End faults.

(** ** Claims *)

(** C21: a load returns the value, in its byte order, of the bytes at the guest
    address, each read through the TLB entry of its page, and changes nothing;
    also when the access crosses a page and is put together from two aligned
    loads.  Only the first page needs the read permission. *)
Theorem load_correct {E : Type} `{!AccessEnv E} m hook_fuel d i op addr te rg (v : vm E) :
  tlb_config m -> (0 < hook_fuel)%nat -> access_ok m MMU_DATA_LOAD i op addr te rg v ->
  (forall a, 0 <= v_host v a < 256) ->
  (v_recur v = 0 -> has (mr_perms (rg (page_of_addr m addr))) UC_PROT_READ = true) ->
  load_helper m hook_fuel (S (S d)) false i 0 op addr v =
    Some (Returns (op_value (mo_be op) (guest_bytes m (v_host v) te addr (Z.to_nat (memop_size op)))), v).
Proof. intros Hm Hf [Hop Hlo Hhi Hp Hn] Hb Hr. by eapply helper_load_ok. Qed.

(** C22: a store changes exactly the bytes of the guest address to the bytes
    of the value in its byte order, and nothing else of the machine; also
    when it crosses a page and is done byte by byte. *)
Theorem store_correct {E : Type} `{!AccessEnv E} m hook_fuel d i op addr val te rg (v : vm E) :
  tlb_config m -> (0 < hook_fuel)%nat -> access_ok m MMU_DATA_STORE i op addr te rg v ->
  permits m UC_PROT_WRITE rg addr (memop_size op) -> snapshot_level (v_env v) = 0 ->
  memory_ok m te addr (memop_size op) (v_host v) ->
  exists h', store_helper m hook_fuel (S (S d)) i 0 op addr val v = Some (Returns tt, with_mem h' v) /\
    stored m (v_host v) h' te addr (op_bytes (mo_be op) (Z.to_nat (memop_size op)) val) (Z.to_nat (memop_size op)).
Proof. intros Hm Hf [Hop Hlo Hhi Hp Hn] [Hw1 Hw2] Hs [Hd _]. by eapply helper_store_ok. Qed.

(** C23: what is stored is loaded again, cut to the size of the access, from
    any address and in both byte orders. *)
Theorem store_load_roundtrip {E : Type} `{!AccessEnv E} m hook_fuel d i op addr val te rg (v : vm E) :
  tlb_config m -> (0 < hook_fuel)%nat ->
  access_ok m MMU_DATA_STORE i op addr te rg v -> access_ok m MMU_DATA_LOAD i op addr te rg v ->
  permits m UC_PROT_WRITE rg addr (memop_size op) -> permits m UC_PROT_READ rg addr (memop_size op) ->
  snapshot_level (v_env v) = 0 -> memory_ok m te addr (memop_size op) (v_host v) ->
  exists v', store_helper m hook_fuel (S (S d)) i 0 op addr val v = Some (Returns tt, v') /\
    load_helper m hook_fuel (S (S d)) false i 0 op addr v' =
      Some (Returns (val mod 2 ^ (8 * memop_size op)), v').
Proof.
  intros Hm Hf [Hop Hlo Hhi Hps Hn] [_ _ _ Hpl _] [Hw1 Hw2] [Hr1 _] Hs [Hd Hb].
  destruct (helper_store_ok m hook_fuel Hm Hf d i op addr val te rg v Hop Hlo Hhi Hps Hn Hs Hw1 Hw2 Hd) as (h' & -> & Hst).
  exists (with_mem h' v). split; [done|]. destruct (op_size m hook_fuel Hm Hf op Hop) as (_ & Hsz & _).
  pose proof (stored_is_bytes m hook_fuel Hf _ _ _ _ _ _ (op_bytes_length _ _ _) (op_bytes_ok _ _ _) Hb Hst) as Hb'.
  rewrite (helper_load_ok m hook_fuel Hm Hf d i op addr te rg (with_mem h' v)) by done.
  cbn [v_host with_mem]. rewrite (stored_bytes m hook_fuel Hf _ _ _ _ _ _ (op_bytes_length _ _ _) Hst), op_bytes_value.
  by rewrite Z2Nat.id by lia.
Qed.

(** C24: no hooks being installed, an access whose first byte is in memory that
    is not mapped, or whose region lacks the permission, sets the error and the
    faulting physical address and leaves all memory as it is; a load (which is
    not part of a split one, after no earlier error) leaves to the execution loop
    while the emulation runs and otherwise returns 0, a store asks the CPU to
    exit.  This is so whether the entry of the page is in the TLB, with any
    flags, among the victims, or filled by the target; the TLB is only changed by
    that.  (The second page of a load that crosses is not checked:
    [crossing_load_unchecked].) *)
Theorem access_errors {E : Type} `{!AccessEnv E} m hook_fuel d i op addr val te err (v v' : vm E) :
  tlb_config m -> (0 < hook_fuel)%nat -> 0 <= addr < 2 ^ TARGET_LONG_BITS (mmu_target m) -> no_hooks (v_env v') ->
  let paddr := physical m te addr in
  (found m MMU_DATA_LOAD i addr (memop_size op) te v v' -> v_recur v' = 0 -> v_error v' = UC_ERR_OK ->
   load_fault (v_env v') paddr = Some err ->
   load_helper m hook_fuel (S d) false i 0 op addr v = Some (load_failed (failed err paddr v'))) /\
  (found m MMU_DATA_STORE i addr (memop_size op) te v v' -> store_fault (v_env v') paddr = Some err ->
   store_helper m hook_fuel (S d) i 0 op addr val v = Some (Returns tt, with_exit (failed err paddr v'))).
Proof. intros Hm Hf Ha Hn. cbn zeta. split; intros; [by apply load_error|by apply store_error]. Qed.

(** A load that crosses into a page without the read permission returns
    the bytes of that page, although the same load fails at the start of the page:
    the permission is only checked outside of the recursion. *)
Theorem crossing_load_unchecked {E : Type} `{!AccessEnv E} m hook_fuel d i op addr te rg (v : vm E) :
  tlb_config m -> (0 < hook_fuel)%nat -> access_ok m MMU_DATA_LOAD i op addr te rg v ->
  (forall a, 0 <= v_host v a < 256) -> v_recur v = 0 -> v_error v = UC_ERR_OK ->
  let last := page_of_addr m (addr + memop_size op - 1) in
  has (mr_perms (rg (page_of_addr m addr))) UC_PROT_READ = true ->
  has (mr_perms (rg last)) UC_PROT_READ = false ->
  load_helper m hook_fuel (S (S d)) false i 0 op addr v =
    Some (Returns (op_value (mo_be op) (guest_bytes m (v_host v) te addr (Z.to_nat (memop_size op)))), v) /\
  load_helper m hook_fuel (S (S d)) false i 0 op last v =
    Some (load_failed (failed UC_ERR_READ_PROT (physical m (te last) last) v)).
Proof.
  intros Hm Hf [Hop Hlo Hhi Hp Hn] Hb H0 He. cbn zeta. intros Hr1 Hr2.
  destruct (op_size m hook_fuel Hm Hf op Hop) as (_ & Hsz & _). split; [by eapply helper_load_ok|].
  set (b := addr + memop_size op - 1) in *. assert (0 <= b < 2 ^ TARGET_LONG_BITS (mmu_target m)) as Hbr by lia.
  pose proof (page_of_addr_page m Hm b Hbr) as Hpage. pose proof (tc_bits m Hm).
  assert (page_of_addr m (page_of_addr m b) = page_of_addr m b) as EP.
  { destruct (page_split m Hm _ 0 Hpage ltac:(lia)) as [_ E0]. by rewrite Z.add_0_r in E0. }
  destruct (Hp (page_of_addr m b) ltac:(apply Hpage) ltac:(right; fold b; exact EP)) as [[Hc (mr & Hmr & Hr)] _].
  rewrite EP in *. apply load_error; try done; [|apply Hpage|].
  { destruct Hc as [Hs Hadr]. apply found_hit; [done|]. rewrite Hadr. apply (plain_hit m Hm), Hpage. }
  unfold load_fault, fault. rewrite Hmr, Hr. cbn. by rewrite Hr2.
Qed.

(** ** A concrete machine *)

(** Pages 0 and 1 may be read and written, page 2 only written; nothing else
    is mapped.  A region is named by its page. *)
Definition three_pages (p : Z) : option mem_region :=
  if (p =? 0) || (p =? 1) then Some (mk_mem_region 3 true 0)
  else if p =? 2 then Some (mk_mem_region 2 true 0) else None.

Definition demo_env := unit.

#[local] Instance demo_access : AccessEnv demo_env := {|
  memory_mapping := fun _ paddr => (fun _ => paddr / 0x1000) <$> three_pages (paddr / 0x1000);
  region_at := fun _ => three_pages;
  snapshot_level := fun _ => 0;
  cpu_running := fun _ => true;
  hook_head := fun _ _ => 0;
  hook_node := fun _ _ => None;
  hook_object := fun _ _ => None;
  mem_hook_installed := fun _ _ => false;
  run_hook := fun _ _ _ _ _ v => Some (false, v);
  cpu_tlb_fill := fun _ _ _ _ v => Some (Leaves, v);
  cow := fun _ _ v => Some (None, v);
  io_read := fun _ _ _ _ v => Some (0, v);
  io_write := fun _ _ _ _ _ v => Some v;
  check_watchpoint := fun _ _ _ v => Some (Returns tt, v);
  unaligned := fun _ _ _ v => Some (Returns tt, v);
  invalidate_code := fun _ _ v => v
|}.

(** The first 64 guest pages are their own physical pages, at host address
    0x10000. *)
Definition demo_te (P : Z) : CPUTLBEntry := mk_te P P P P 0x10000.

Definition demo_mode : mode_tlb :=
  mk_mode (mk_desc 0 0 0 0 0 0 [] [] [])
    (mk_fast (Z.shiftl 63 CPU_TLB_ENTRY_BITS) ((fun k => demo_te (k * 0x1000)) <$> seqZ 0 64)).

Definition demo_vm : vm demo_env :=
  mk_vm (mk_tlb 0 0 0 0 [demo_mode]) (fun a => a mod 251) UC_ERR_OK 0 false false 0 tt.

Definition demo_region (P : Z) : mem_region := default (mk_mem_region 0 true 0) (three_pages (P / 0x1000)).

Lemma demo_cached a b : 0 <= b < 0x40000 -> cached mmu64 a 0 (v_tlb demo_vm) b (demo_te (page_of_addr mmu64 b)).
Proof.
  intros Hb. assert (0 <= b < 2 ^ 64) as Hb' by lia. pose proof (page_of_addr_eq mmu64 mmu64_ok b Hb') as EP.
  change (2 ^ TARGET_PAGE_BITS (mmu_target mmu64)) with 0x1000 in EP.
  split; [|by destruct a]. exists demo_mode. split; [done|].
  assert (0 <= b / 0x1000 < 64) as Hp by (split; [apply Z.div_pos; lia|apply Z.div_lt_upper_bound; lia]).
  assert (tlb_index mmu64 (fast demo_mode) b = Z.to_nat (b / 0x1000)) as ->.
  { unfold tlb_index. rewrite Z.shiftr_div_pow2 by done.
    change (Z.shiftr (fast_mask (fast demo_mode)) CPU_TLB_ENTRY_BITS) with (Z.ones 6).
    change (2 ^ TARGET_PAGE_BITS (mmu_target mmu64)) with 0x1000.
    rewrite Z.land_ones, Z.mod_small by lia. done. }
  unfold demo_mode. cbn [fast fast_table]. rewrite list_lookup_fmap, lookup_seqZ_lt by lia.
  cbn [fmap option_fmap option_map]. by rewrite EP, Z.add_0_l, Z2Nat.id by lia.
Qed.

Lemma demo_plain a b : 0 <= b < 0x3000 ->
  plain_page mmu64 a 0 (v_tlb demo_vm) (v_env demo_vm) b (demo_te (page_of_addr mmu64 b)) (demo_region (page_of_addr mmu64 b)).
Proof.
  intros Hb. split; [apply demo_cached; lia|]. assert (0 <= b < 2 ^ 64) as Hb' by lia.
  pose proof (page_of_addr_eq mmu64 mmu64_ok b Hb') as EP.
  change (2 ^ TARGET_PAGE_BITS (mmu_target mmu64)) with 0x1000 in EP.
  assert (physical mmu64 (demo_te (page_of_addr mmu64 b)) b / 0x1000 = b / 0x1000) as E1.
  { unfold physical. rewrite (page_offset_eq mmu64 mmu64_ok). cbn [te_paddr demo_te].
    change (2 ^ TARGET_PAGE_BITS (mmu_target mmu64)) with 0x1000. pose proof (Z.mod_pos_bound b 0x1000).
    rewrite EP, (lor_low 12) by (try lia; apply Z.mod_mul; lia). pose proof (Z.div_mod b 0x1000). f_equal. lia. }
  assert (b / 0x1000 = 0 \/ b / 0x1000 = 1 \/ b / 0x1000 = 2) as Hp.
  { assert (0 <= b / 0x1000 < 3); [|lia]. split; [apply Z.div_pos; lia|apply Z.div_lt_upper_bound; lia]. }
  unfold demo_region. rewrite EP, Z.div_mul by done. cbn [memory_mapping region_at demo_access]. rewrite <- EP, E1.
  destruct Hp as [-> | [-> | ->]]; by eexists.
Qed.

Lemma demo_ok a op addr : op_ok op -> 0 <= addr -> addr + memop_size op <= 0x3000 ->
  access_ok mmu64 a 0 op addr demo_te demo_region demo_vm.
Proof.
  intros Hop Ha Hend. pose proof (op_size mmu64 1 mmu64_ok ltac:(lia) op Hop) as (_ & Hs & _).
  split; [done|done|change (2 ^ _) with (2 ^ 64); lia| |done].
  assert (forall c, 0 <= c < 0x3000 -> 0 <= page_of_addr mmu64 c <= c /\ c < page_of_addr mmu64 c + 0x1000) as Hpg.
  { intros c Hc. assert (0 <= c < 2 ^ 64) as Hc' by lia. rewrite (page_of_addr_eq mmu64 mmu64_ok) by exact Hc'.
    change (2 ^ TARGET_PAGE_BITS (mmu_target mmu64)) with 0x1000.
    pose proof (Z.div_mod c 0x1000). pose proof (Z.mod_pos_bound c 0x1000). pose proof (Z.div_pos c 0x1000). lia. }
  intros b Hb HP. change (2 ^ _) with (2 ^ 64) in Hb.
  assert (0 <= b < 0x3000) as Hb3.
  { pose proof (page_of_addr_eq mmu64 mmu64_ok b Hb) as EP. rewrite EP in HP.
    rewrite !(page_of_addr_eq mmu64 mmu64_ok) in HP by (change (2 ^ _) with (2 ^ 64); lia).
    change (2 ^ TARGET_PAGE_BITS (mmu_target mmu64)) with 0x1000 in HP.
    assert (addr / 0x1000 < 3) by (apply Z.div_lt_upper_bound; lia).
    assert ((addr + memop_size op - 1) / 0x1000 < 3) by (apply Z.div_lt_upper_bound; lia).
    pose proof (Z.div_mod b 0x1000). pose proof (Z.mod_pos_bound b 0x1000). lia. }
  split; [by apply demo_plain|]. unfold host_ok, host_of. cbn [te_addend demo_te].
  pose proof (Hpg b Hb3). rewrite wrap_id by (unfold uint; lia). change (2 ^ TARGET_PAGE_BITS _) with 0x1000. lia.
Qed.

Lemma demo_memory addr size : 0 <= addr -> addr + size <= 0x3000 -> memory_ok mmu64 demo_te addr size (v_host demo_vm).
Proof.
  intros Ha Hend. split; [|intros a; cbn [v_host demo_vm]; pose proof (Z.mod_pos_bound a 251); lia].
  intros j k Hj Hk. unfold host_at, host_of. cbn [te_addend demo_te]. rewrite !wrap_id by (unfold uint; lia). lia.
Qed.

(** A word of 8 bytes, 4 of them on each of the pages 0 and 1. *)
Definition le64 : MemOp := mk_memop 3 false.

Lemma le64_ok a : access_ok mmu64 a 0 le64 0xffc demo_te demo_region demo_vm.
Proof. apply demo_ok; [by split|lia|by vm_compute]. Qed.

Lemma load_correct_witness :
  load_helper mmu64 1 2 false 0 0 le64 0xffc demo_vm = Some (Returns 0x6c6b6a6968676665, demo_vm).
Proof.
  assert (forall a, 0 <= v_host demo_vm a < 256) as Hb by apply (demo_memory 0 0 ltac:(lia) ltac:(lia)).
  pose proof (load_correct mmu64 1 0 0 le64 0xffc demo_te demo_region demo_vm mmu64_ok ltac:(lia) (le64_ok _) Hb
    (fun _ => eq_refl)) as H. refine (eq_trans H _). by vm_compute.
Defined.

Lemma store_correct_witness :
  exists h', store_helper mmu64 1 2 0 0 le64 0xffc 0x1122334455667788 demo_vm = Some (Returns tt, with_mem h' demo_vm) /\
    h' 0x11000 = 0x44.
Proof.
  destruct (store_correct mmu64 1 0 0 le64 0xffc 0x1122334455667788 demo_te demo_region demo_vm mmu64_ok ltac:(lia)
    (le64_ok _) (conj eq_refl eq_refl) eq_refl (demo_memory 0xffc 8 ltac:(lia) ltac:(lia))) as (h' & E1 & H1 & _).
  exists h'. split; [exact E1|]. apply (H1 4%nat); [by vm_compute; lia|reflexivity].
Defined.

Lemma store_load_roundtrip_witness :
  exists v', store_helper mmu64 1 2 0 0 le64 0xffc (2 ^ 64 + 42) demo_vm = Some (Returns tt, v') /\
    load_helper mmu64 1 2 false 0 0 le64 0xffc v' = Some (Returns 42, v').
Proof.
  exact (store_load_roundtrip mmu64 1 0 0 le64 0xffc (2 ^ 64 + 42) demo_te demo_region demo_vm mmu64_ok ltac:(lia)
    (le64_ok _) (le64_ok _) (conj eq_refl eq_refl) (conj eq_refl eq_refl) eq_refl
    (demo_memory 0xffc 8 ltac:(lia) ltac:(lia))).
Defined.

(** A machine whose TLB is filled from the dispatch structure: page 1 is RAM,
    page 2 is RAM that may only be read, and nothing is mapped elsewhere. *)
Definition fault_tree : MemoryRegion :=
  mk_region 1 0 (2 ^ 64) true false false
    [mk_region 10 0x1000 0x1000 true true false []; mk_region 11 0x2000 0x1000 true true true []].

Definition fault_dispatch : option AddressSpaceDispatch :=
  view ← generate_memory_topology (Some fault_tree); generate_dispatch target64 0 0 view.

Definition two_pages (p : Z) : option mem_region :=
  if p =? 1 then Some (mk_mem_region 7 true 0) else if p =? 2 then Some (mk_mem_region 1 true 0) else None.

(** Guest addresses are physical ones, and every page is filled with all
    permissions. *)
Definition fill_page (addr : Z) (i : nat) (v : vm demo_env) : option (outcome unit * vm demo_env) :=
  d ← fault_dispatch;
  '(tlb, _) ← tlb_set_page_with_attrs mmu64 info64 (fun _ _ => 0) (v_tlb v) d addr addr plain_attrs 7 i 0x1000;
  Some (Returns tt, with_tlb tlb v).

Definition filling_access : AccessEnv demo_env := {|
  memory_mapping := fun _ paddr => (fun _ => paddr / 0x1000) <$> two_pages (paddr / 0x1000);
  region_at := fun _ => two_pages;
  snapshot_level := fun _ => 0;
  cpu_running := fun _ => true;
  hook_head := fun _ _ => 0;
  hook_node := fun _ _ => None;
  hook_object := fun _ _ => None;
  mem_hook_installed := fun _ _ => false;
  run_hook := fun _ _ _ _ _ v => Some (false, v);
  cpu_tlb_fill := fun addr _ _ i => fill_page addr i;
  cow := fun _ _ v => Some (None, v);
  io_read := fun _ _ _ _ v => Some (0, v);
  io_write := fun _ _ _ _ _ v => Some v;
  check_watchpoint := fun _ _ _ v => Some (Returns tt, v);
  unaligned := fun _ _ _ v => Some (Returns tt, v);
  invalidate_code := fun _ _ v => v
|}.

Definition fresh_vm : vm demo_env := mk_vm tlb0 (fun a => a mod 251) UC_ERR_OK 0 false false 0 tt.

Definition filled_vm (addr : Z) : vm demo_env :=
  match fill_page addr 0 fresh_vm with Some (_, v) => v | None => fresh_vm end.

Lemma fill_page_run addr :
  match fill_page addr 0 fresh_vm with Some (Returns tt, _) => true | _ => false end = true ->
  fill_page addr 0 fresh_vm = Some (Returns tt, filled_vm addr).
Proof. unfold filled_vm. by destruct (fill_page addr 0 fresh_vm) as [[[[]|] v]|]. Qed.

Lemma filled_vm_rest addr : v_recur (filled_vm addr) = 0 /\ v_error (filled_vm addr) = UC_ERR_OK.
Proof.
  unfold filled_vm, fill_page. destruct fault_dispatch as [d|]; [|done]. cbn [mbind option_bind].
  by destruct (tlb_set_page_with_attrs _ _ _ _ _ _ _ _ _ _ _) as [[tlb d']|].
Qed.

(** The entries that the fill makes: that of page 5, where nothing is mapped, is
    without permissions, writes to page 2 are discarded. *)
Definition unmapped_te : CPUTLBEntry := new_entry mmu64 0x5000 0x5000 0 0 0 0x1000 false false false.
Definition readonly_te : CPUTLBEntry := new_entry mmu64 0x2000 0x2000 (11 * 2 ^ 32) 7 0 0x1000 true true false.

Lemma filled_entries :
  match fill_page 0x5008 0 fresh_vm with Some (Returns tt, _) => true | _ => false end = true /\
  (t ← modes (v_tlb (filled_vm 0x5008)) !! 0%nat; fast_table (fast t) !! tlb_index mmu64 (fast t) 0x5008) = Some unmapped_te /\
  (t ← modes (v_tlb (filled_vm 0x2000)) !! 0%nat; fast_table (fast t) !! tlb_index mmu64 (fast t) 0x2010) = Some readonly_te /\
  (t ← modes (v_tlb fresh_vm) !! 0%nat; fast_table (fast t) !! tlb_index mmu64 (fast t) 0x5008) = Some (empty_te mmu64) /\
  (t ← modes (v_tlb fresh_vm) !! 0%nat;
   victim_tlb_hit t (tlb_index mmu64 (fast t) 0x5008) MMU_DATA_LOAD 0x5000) = Some None.
Proof. vm_compute. by repeat split. Qed.

(** A load from page 5 fills the TLB and fails; a store to page 2, whose entry
    discards writes, fails. *)
Lemma access_errors_witness :
  @load_helper _ filling_access mmu64 1 1 false 0 0 le64 0x5008 fresh_vm =
    Some (Leaves, with_exit (failed UC_ERR_READ_UNMAPPED 0x5008 (filled_vm 0x5008))) /\
  @store_helper _ filling_access mmu64 1 1 0 0 le64 0x2010 7 (filled_vm 0x2000) =
    Some (Returns tt, with_exit (failed UC_ERR_WRITE_PROT 0x2010 (filled_vm 0x2000))).
Proof.
  destruct filled_entries as (F1 & (t1 & Ht1 & Hte1)%bind_Some & (t2 & Ht2 & Hte2)%bind_Some &
    (t0 & Ht0 & Hte0)%bind_Some & (t0' & Ht0' & Hv)%bind_Some).
  assert (t0' = t0) as -> by congruence. split.
  - apply (@access_errors _ filling_access mmu64 1 0 0 le64 0x5008 7 unmapped_te UC_ERR_READ_UNMAPPED fresh_vm (filled_vm 0x5008)
      mmu64_ok ltac:(lia) ltac:(split; [lia|reflexivity]) ltac:(by intros ?)).
    + eapply (@found_fill _ filling_access mmu64 _ _ _ _ _ _ (empty_te mmu64) t0 _ Ht0 Hte0); [reflexivity|exact Hv|exact (fill_page_run 0x5008 F1)|exact (ex_intro _ t1 (conj Ht1 Hte1))|right; reflexivity].
    + exact (proj1 (filled_vm_rest 0x5008)).
    + exact (proj2 (filled_vm_rest 0x5008)).
    + reflexivity.
  - apply (@access_errors _ filling_access mmu64 1 0 0 le64 0x2010 7 readonly_te UC_ERR_WRITE_PROT (filled_vm 0x2000) (filled_vm 0x2000)
      mmu64_ok ltac:(lia) ltac:(split; [lia|reflexivity]) ltac:(by intros ?)).
    + apply found_hit; [exact (ex_intro _ t2 (conj Ht2 Hte2))|reflexivity].
    + reflexivity.
Defined.

(** Four bytes across the boundary of the pages 1 and 2. *)
Lemma crossing_load_unchecked_witness :
  load_helper mmu64 1 2 false 0 0 (mk_memop 2 true) 0x1ffe demo_vm = Some (Returns 0xb7b8b9ba, demo_vm) /\
  load_helper mmu64 1 2 false 0 0 (mk_memop 2 true) 0x2000 demo_vm =
    Some (Leaves, with_exit (failed UC_ERR_READ_PROT 0x2000 demo_vm)).
Proof.
  assert (forall a, 0 <= v_host demo_vm a < 256) as Hb by apply (demo_memory 0 0 ltac:(lia) ltac:(lia)).
  assert (access_ok mmu64 MMU_DATA_LOAD 0 (mk_memop 2 true) 0x1ffe demo_te demo_region demo_vm) as Hok
    by (apply demo_ok; [by split|lia|by vm_compute]).
  destruct (crossing_load_unchecked mmu64 1 0 0 (mk_memop 2 true) 0x1ffe demo_te demo_region demo_vm mmu64_ok
    ltac:(lia) Hok Hb eq_refl eq_refl eq_refl eq_refl) as [E1 E2].
  split; [refine (eq_trans E1 _); by vm_compute|exact E2].
Defined.

(** A read hook that flushes a TLB which is then resized leaves the load with
    a pointer to the freed table: the check for an emptied entry, meant for
    this case, reads it. *)
Definition read_hook : hook := Hook 0 0 1 0 0 false 1 0 0 0 [].

Definition resized : mode_tlb :=
  mk_mode (desc demo_mode)
    (mk_fast (Z.shiftl 127 CPU_TLB_ENTRY_BITS) (replicate 128 (empty_te mmu64))).

Definition flushing_access : AccessEnv demo_env := {|
  memory_mapping := @memory_mapping _ demo_access;
  region_at := @region_at _ demo_access;
  snapshot_level := fun _ => 0;
  cpu_running := fun _ => true;
  hook_head := fun _ ty => if bool_decide (ty = UC_MEM_READ) then 1 else 0;
  hook_node := fun _ _ => Some (ListItem 0 1);
  hook_object := fun _ _ => Some read_hook;
  mem_hook_installed := fun _ _ => true;
  run_hook := fun _ _ _ _ _ v => Some (false, with_tlb (mk_tlb 0 0 0 0 [resized]) v);
  cpu_tlb_fill := fun _ _ _ _ v => Some (Leaves, v);
  cow := fun _ _ v => Some (None, v);
  io_read := fun _ _ _ _ v => Some (0, v);
  io_write := fun _ _ _ _ _ v => Some v;
  check_watchpoint := fun _ _ _ v => Some (Returns tt, v);
  unaligned := fun _ _ _ v => Some (Returns tt, v);
  invalidate_code := fun _ _ v => v
|}.

Example hook_flush_dangles : @load_helper _ flushing_access mmu64 2 2 false 0 0 le64 0x800 demo_vm = None.
Proof. vm_compute. reflexivity. Qed.
