(* ===== verification/Regions.v ===== *)
(** * Memory regions of an engine ([qemu/softmmu/memory.c], [qemu/exec.c])

    The mutable side of the memory topology: the store of memory regions with
    their containers and priorities, the functions that map, unmap, copy on
    write and move regions, the lookup of the region at an address and the
    physical accesses through the flat view.

    A region is known by a number (its pointer); freed regions leave the store,
    so the use of a dangling pointer has no result.  Host memory is one array of
    bytes, in which RAM blocks are pointers, so that blocks handed in by the
    user may alias.  Obtaining anonymous host memory is a parameter, as are the
    user's MMIO callbacks.  Every change of the tree is committed: the flat view
    and the dispatch structure are built again.  The translation of an address
    is the lookup in the flat view of the current tree. *)

From S2P Require Import Prelude UcTypes FlatView PhysMap Dispatch.

(** ** State *)

Record RAMBlock := mk_block { host : Z; max_length : Z; prealloc : bool }.

(** [mmio_cbs]: the callbacks and their user data. *)
Record mmio_cbs := mk_cbs {
  cb_read : option Z; user_data_read : Z;
  cb_write : option Z; user_data_write : Z
}.

Record region := mk_reg {
  r_ram : bool;
  r_readonly : bool;
  r_ram_block : option RAMBlock;
  r_opaque : option mmio_cbs;
  r_container : option Z;
  r_size : Z;
  r_addr : Z;
  r_terminates : bool;
  r_enabled : bool;
  r_priority : Z;
  r_subregions : list Z;
  r_perms : Z;
  r_end : Z
}.

(** Effects on the CPU: flushes of the TLB and of translated code, and the
    request to leave the current block. *)
Inductive flush_event :=
| cpu_exit
| tlb_flush
| tlb_flush_page (addr : Z)
| uc_invalidate_tb (addr size : Z).

(** A call of an MMIO write callback. *)
Record mmio_write_event := mk_mmio { mw_cb : Z; mw_data : Z; mw_addr : Z; mw_size : Z; mw_val : Z }.

Record uc_struct := mk_uc {
  regions : gmap Z region;
  next_region : Z;
  system_memory : Z;
  mapped_blocks : list Z;
  unmapped_regions : list Z;
  snapshot_level : Z;
  hostmem : Z -> Z;
  live_ram : list (Z * Z);
  cpu : bool;
  flushes : list flush_event;
  mmio_writes : list mmio_write_event;
  target_page_size : Z;
  target_long_bits : Z;
  host_page_size : Z;
  pc : Z;
  emulation_done : bool;
  quit_request : bool;
  stop_request : bool
}.

Definition target_page_align (uc : uc_struct) : Z := target_page_size uc - 1.

(** Setters. *)
Definition with_regions (f : gmap Z region -> gmap Z region) (u : uc_struct) : uc_struct :=
  mk_uc (f (regions u)) (next_region u) (system_memory u) (mapped_blocks u)
    (unmapped_regions u) (snapshot_level u) (hostmem u) (live_ram u) (cpu u) (flushes u)
    (mmio_writes u) (target_page_size u) (target_long_bits u) (host_page_size u) (pc u) (emulation_done u)
    (quit_request u) (stop_request u).
Definition with_next (n : Z) (u : uc_struct) : uc_struct :=
  mk_uc (regions u) n (system_memory u) (mapped_blocks u)
    (unmapped_regions u) (snapshot_level u) (hostmem u) (live_ram u) (cpu u) (flushes u)
    (mmio_writes u) (target_page_size u) (target_long_bits u) (host_page_size u) (pc u) (emulation_done u)
    (quit_request u) (stop_request u).
Definition with_mapped (l : list Z) (u : uc_struct) : uc_struct :=
  mk_uc (regions u) (next_region u) (system_memory u) l
    (unmapped_regions u) (snapshot_level u) (hostmem u) (live_ram u) (cpu u) (flushes u)
    (mmio_writes u) (target_page_size u) (target_long_bits u) (host_page_size u) (pc u) (emulation_done u)
    (quit_request u) (stop_request u).
Definition with_unmapped (l : list Z) (u : uc_struct) : uc_struct :=
  mk_uc (regions u) (next_region u) (system_memory u) (mapped_blocks u)
    l (snapshot_level u) (hostmem u) (live_ram u) (cpu u) (flushes u)
    (mmio_writes u) (target_page_size u) (target_long_bits u) (host_page_size u) (pc u) (emulation_done u)
    (quit_request u) (stop_request u).
Definition with_level (n : Z) (u : uc_struct) : uc_struct :=
  mk_uc (regions u) (next_region u) (system_memory u) (mapped_blocks u)
    (unmapped_regions u) n (hostmem u) (live_ram u) (cpu u) (flushes u)
    (mmio_writes u) (target_page_size u) (target_long_bits u) (host_page_size u) (pc u) (emulation_done u)
    (quit_request u) (stop_request u).
Definition with_host (h : Z -> Z) (live : list (Z * Z)) (u : uc_struct) : uc_struct :=
  mk_uc (regions u) (next_region u) (system_memory u) (mapped_blocks u)
    (unmapped_regions u) (snapshot_level u) h live (cpu u) (flushes u)
    (mmio_writes u) (target_page_size u) (target_long_bits u) (host_page_size u) (pc u) (emulation_done u)
    (quit_request u) (stop_request u).
Definition with_flushes (l : list flush_event) (u : uc_struct) : uc_struct :=
  mk_uc (regions u) (next_region u) (system_memory u) (mapped_blocks u)
    (unmapped_regions u) (snapshot_level u) (hostmem u) (live_ram u) (cpu u) l
    (mmio_writes u) (target_page_size u) (target_long_bits u) (host_page_size u) (pc u) (emulation_done u)
    (quit_request u) (stop_request u).
Definition with_mmio (l : list mmio_write_event) (u : uc_struct) : uc_struct :=
  mk_uc (regions u) (next_region u) (system_memory u) (mapped_blocks u)
    (unmapped_regions u) (snapshot_level u) (hostmem u) (live_ram u) (cpu u) (flushes u)
    l (target_page_size u) (target_long_bits u) (host_page_size u) (pc u) (emulation_done u)
    (quit_request u) (stop_request u).
Definition with_quit (q s : bool) (u : uc_struct) : uc_struct :=
  mk_uc (regions u) (next_region u) (system_memory u) (mapped_blocks u)
    (unmapped_regions u) (snapshot_level u) (hostmem u) (live_ram u) (cpu u) (flushes u)
    (mmio_writes u) (target_page_size u) (target_long_bits u) (host_page_size u) (pc u) (emulation_done u)
    q s.

(** ** Operations that may abort *)

(** A computation on the engine; no result stands for a failed assertion or the
    use of a dangling or null pointer. *)
Definition M (A : Type) : Type := uc_struct -> option (A * uc_struct).

#[global] Instance M_ret : MRet M := fun A x u => Some (x, u).
#[global] Instance M_bind : MBind M := fun A B f m u =>
  match m u with Some (x, u) => f x u | None => None end.

Definition get : M uc_struct := fun u => Some (u, u).
Definition modify (f : uc_struct -> uc_struct) : M unit := fun u => Some (tt, f u).
Definition abort {A} : M A := fun _ => None.
Definition lift {A} (x : option A) : M A := fun u =>
  match x with Some x => Some (x, u) | None => None end.
Definition run {A} (f : uc_struct -> option (A * uc_struct)) : M A := f.
Definition assert_ (b : bool) : M unit := if b then mret tt else abort.
Definition when (b : bool) (m : M unit) : M unit := if b then m else mret tt.

Definition get_region (id : Z) : M region := u ← get; lift (regions u !! id).
Definition set_region (id : Z) (r : region) : M unit := modify (with_regions <[id := r]>).
Definition upd_region (id : Z) (f : region -> region) : M unit :=
  r ← get_region id; set_region id (f r).

(** [for] loops over a list. *)
Fixpoint iterM {A} (f : A -> M unit) (l : list A) : M unit :=
  match l with
  | [] => mret tt
  | x :: l => _ ← f x; iterM f l
  end.

(** Remove the first occurrence. *)
Fixpoint remove_first (x : Z) (l : list Z) : list Z :=
  match l with
  | [] => []
  | y :: l => if y =? x then l else y :: remove_first x l
  end.

(** Fields of a region. *)
Definition r_with_container (c : option Z) (r : region) : region :=
  mk_reg (r_ram r) (r_readonly r) (r_ram_block r) (r_opaque r) c (r_size r) (r_addr r)
    (r_terminates r) (r_enabled r) (r_priority r) (r_subregions r) (r_perms r) (r_end r).
Definition r_with_addr (a e : Z) (r : region) : region :=
  mk_reg (r_ram r) (r_readonly r) (r_ram_block r) (r_opaque r) (r_container r) (r_size r) a
    (r_terminates r) (r_enabled r) (r_priority r) (r_subregions r) (r_perms r) e.
Definition r_with_priority (p : Z) (r : region) : region :=
  mk_reg (r_ram r) (r_readonly r) (r_ram_block r) (r_opaque r) (r_container r) (r_size r)
    (r_addr r) (r_terminates r) (r_enabled r) p (r_subregions r) (r_perms r) (r_end r).
Definition r_with_subregions (l : list Z) (r : region) : region :=
  mk_reg (r_ram r) (r_readonly r) (r_ram_block r) (r_opaque r) (r_container r) (r_size r)
    (r_addr r) (r_terminates r) (r_enabled r) (r_priority r) l (r_perms r) (r_end r).
Definition r_with_perms (p : Z) (r : region) : region :=
  mk_reg (r_ram r) (r_readonly r) (r_ram_block r) (r_opaque r) (r_container r) (r_size r)
    (r_addr r) (r_terminates r) (r_enabled r) (r_priority r) (r_subregions r) p (r_end r).
Definition r_with_readonly (b : bool) (r : region) : region :=
  mk_reg (r_ram r) b (r_ram_block r) (r_opaque r) (r_container r) (r_size r)
    (r_addr r) (r_terminates r) (r_enabled r) (r_priority r) (r_subregions r) (r_perms r)
    (r_end r).

(** ** Regions *)

(** [g_new(MemoryRegion, 1)] followed by an initialisation. *)
Definition g_new (r : region) : M Z :=
  u ← get;
  let id := next_region u in
  _ ← modify (fun u => with_next (id + 1) (with_regions <[id := r]> u));
  mret id.

Definition UINT64_MAX : Z := 2 ^ 64 - 1.

(** [memory_region_init]. *)
Definition memory_region_init (size : Z) : region :=
  mk_reg false false None None None (if size =? UINT64_MAX then int128_2_64 else size)
    0 false true 0 [] 0 0.

(** [memory_map_init]: the state of an engine with an empty system memory. *)
Definition memory_map_init (page long_bits host_page : Z) (running : bool) : uc_struct :=
  mk_uc {[ 0 := memory_region_init UINT64_MAX ]} 1 0 [] [] 0 (fun _ => 0) [] running [] []
    page long_bits host_page 0 true false false.

(** ** The tree and the commit of a change *)

(** The tree below region [id]; a dangling subregion gives no tree. *)
Fixpoint tree_of (fuel : nat) (rs : gmap Z region) (id : Z) : option MemoryRegion :=
  match fuel with
  | O => None
  | S fuel =>
    r ← rs !! id;
    subs ← mapM (tree_of fuel rs) (r_subregions r);
    Some (mk_region id (r_addr r) (r_size r) (r_enabled r) (r_terminates r)
            (r_readonly r) subs)
  end.

(** The view of the address space, rebuilt from the tree. *)
Definition current_map (u : uc_struct) : option FlatView :=
  tree ← tree_of (S (size (regions u))) (regions u) (system_memory u);
  generate_memory_topology (Some tree).

(** The page size and the width of addresses, for the dispatch structure. *)
Definition engine_target (u : uc_struct) : target :=
  mk_target (Z.log2 (target_page_size u)) (target_long_bits u).

(** The hint of [phys_map_node_reserve], 16 at first and later what the node
    array had before: it sizes that array and nothing else. *)
Definition alloc_hint : Z := 16.

(** [memory_region_transaction_commit] with an update pending, through
    [flatviews_reset] and [generate_memory_topology]: the view and its dispatch
    structure are built anew, which ends the process when a section number is
    not below the page size.  [flatview_update], which the code tries first,
    changes one range in place and builds the dispatch structure for the same
    ranges. *)
Definition memory_region_transaction_commit : M unit :=
  u ← get;
  view ← lift (current_map u);
  _ ← lift (generate_dispatch (engine_target u) (snapshot_level u) alloc_hint view);
  mret tt.

(** ** Containers *)

(** The insertion of [memory_region_update_container_subregions]: before the
    first subregion whose priority is not higher. *)
Fixpoint insert_by_priority (rs : gmap Z region) (id prio : Z) (subs : list Z)
    : option (list Z) :=
  match subs with
  | [] => Some [id]
  | other :: rest =>
    r ← rs !! other;
    if r_priority r <=? prio then Some (id :: subs)
    else rest ← insert_by_priority rs id prio rest; Some (other :: rest)
  end.

Definition memory_region_update_container_subregions (id : Z) : M unit :=
  sub ← get_region id;
  mr ← lift (r_container sub);
  u ← get;
  container ← get_region mr;
  l ← lift (insert_by_priority (regions u) id (r_priority sub) (r_subregions container));
  _ ← upd_region mr (r_with_subregions l);
  memory_region_transaction_commit.

Definition memory_region_add_subregion_common (mr offset id : Z) : M unit :=
  sub ← get_region id;
  _ ← assert_ (bool_decide (r_container sub = None));
  n ← lift (int128_get64 (r_size sub));
  _ ← upd_region id (fun r => r_with_addr offset (u64 (offset + n))
                                (r_with_container (Some mr) r));
  memory_region_update_container_subregions id.

Definition memory_region_add_subregion_overlap (mr offset id priority : Z) : M unit :=
  _ ← upd_region id (r_with_priority priority);
  memory_region_add_subregion_common mr offset id.

Definition memory_region_add_subregion (mr offset id : Z) : M unit :=
  _ ← upd_region id (r_with_priority 0);
  memory_region_add_subregion_common mr offset id.

(** Without a commit, for the callers that commit themselves or restore a
    view. *)
Definition memory_region_remove_subregion (mr id : Z) : M unit :=
  sub ← get_region id;
  _ ← assert_ (bool_decide (r_container sub = Some mr));
  _ ← upd_region id (r_with_container None);
  upd_region mr (fun r => r_with_subregions (filter (fun s => s <> id) (r_subregions r)) r).

Definition memory_region_del_subregion (mr id : Z) : M unit :=
  _ ← memory_region_remove_subregion mr id;
  memory_region_transaction_commit.

Definition memory_region_set_readonly (id : Z) (readonly : bool) : M unit :=
  mr ← get_region id;
  when (negb (Bool.eqb (r_readonly mr) readonly)) (
    _ ← set_region id (r_with_readonly readonly mr);
    when (r_enabled mr) memory_region_transaction_commit).

(** ** The lookup of an address *)

(** The range of a view that contains an address. *)
Definition view_find (l : list FlatRange) (a : Z) : option FlatRange :=
  first_some (fun r => if addrrange_contains (fr_addr r) a then Some r else None) l.

(** [find_memory_mapping]: no region stands for [io_mem_unassigned]. *)
Definition memory_mapping (address : Z) : M (option Z) :=
  u ← get;
  view ← lift (current_map u);
  mret (fr_mr <$> view_find (ranges view) address).

(** ** Host memory *)

Section Host.
(** Anonymous host memory: the pointer for a size, given the live blocks. *)
Context (os_alloc : list (Z * Z) -> Z -> option Z).
(** The user's MMIO callbacks: callback, user data, address, size. *)
Context (mmio_cb_read : Z -> Z -> Z -> Z -> Z).

Definition HOST_PAGE_ALIGN (u : uc_struct) (size : Z) : Z :=
  (size + host_page_size u - 1) / host_page_size u * host_page_size u.

(** [qemu_ram_alloc]: fresh zeroed memory, or nothing. *)
Definition qemu_ram_alloc (size : Z) : M (option RAMBlock) :=
  u ← get;
  let len := HOST_PAGE_ALIGN u size in
  match os_alloc (live_ram u) len with
  | Some p =>
    _ ← modify (fun u => with_host
          (fun a => if (p <=? a) && (a <? p + len) then 0 else hostmem u a)
          ((p, len) :: live_ram u) u);
    mret (Some (mk_block p len false))
  | None => mret None
  end.

Definition qemu_ram_free (block : option RAMBlock) : M unit :=
  match block with
  | Some b =>
    if prealloc b then mret tt
    else modify (fun u => with_host (hostmem u)
                  (filter (fun bl => bl.1 <> host b) (live_ram u)) u)
  | None => mret tt
  end.

Definition add_flush (e : flush_event) : M unit :=
  u ← get; when (cpu u) (modify (fun u => with_flushes (flushes u ++ [e]) u)).

(** [memory_map]. *)
Definition memory_map (begin size perms : Z) : M (option Z) :=
  block ← qemu_ram_alloc size;
  match block with
  | None => mret None
  | Some b =>
    let r := memory_region_init size in
    ram ← g_new (mk_reg true (Z.land perms UC_PROT_WRITE =? 0) (Some b) None None
                   (r_size r) 0 true true 0 [] perms 0);
    u ← get;
    _ ← memory_region_add_subregion_overlap (system_memory u) begin ram (snapshot_level u);
    _ ← add_flush tlb_flush;
    mret (Some ram)
  end.

(** [memory_map_ptr]; the length of the block is the size given. *)
Definition memory_map_ptr (begin size perms ptr : Z) : M (option Z) :=
  let r := memory_region_init size in
  ram ← g_new (mk_reg true false (Some (mk_block ptr size true)) None None
                 (r_size r) 0 true true 0 [] perms 0);
  u ← get;
  _ ← memory_region_add_subregion (system_memory u) begin ram;
  _ ← add_flush tlb_flush;
  mret (Some ram).

(** [memory_map_io]: the callbacks decide the permissions. *)
Definition memory_map_io (begin size : Z) (cbs : mmio_cbs) : M (option Z) :=
  let r := memory_region_init size in
  let perms := Z.lor (if bool_decide (is_Some (cb_read cbs)) then UC_PROT_READ else 0)
                     (if bool_decide (is_Some (cb_write cbs)) then UC_PROT_WRITE else 0) in
  mmio ← g_new (mk_reg false false None (Some cbs) None (r_size r) 0 true true 0 [] perms 0);
  u ← get;
  _ ← memory_region_add_subregion (system_memory u) begin mmio;
  _ ← add_flush tlb_flush;
  mret (Some mmio).

(** [for (addr = mr->addr; (int64_t)(mr->end - addr) > 0; addr += page)] *)
Fixpoint flush_pages (fuel : nat) (addr end_ page : Z) : list flush_event :=
  match fuel with
  | O => []
  | S fuel =>
    if 0 <? sint 64 (end_ - addr)
    then tlb_flush_page addr :: flush_pages fuel (u64 (addr + page)) end_ page
    else []
  end.

(** Drop the translated code and the TLB entries of a region. *)
Definition flush_region (r : region) : M unit :=
  u ← get;
  when (cpu u) (
    n ← lift (int128_get64 (r_size r));
    modify (fun u => with_flushes (flushes u ++ uc_invalidate_tb (r_addr r) n ::
      flush_pages (S (Z.to_nat (n / target_page_size u))) (r_addr r) (r_end r)
        (target_page_size u)) u)).

(** [g_free] of a region. *)
Definition g_free_region (id : Z) : M unit := modify (with_regions (delete id)).

(** [memory_region_filter_subregions]: unlink, destroy and free every
    subregion of at least the given priority.  The destructor of a region
    destroys its own subregions, then frees its RAM block; [fuel] bounds the
    depth of the tree. *)
Fixpoint memory_region_filter_subregions (fuel : nat) (id level : Z) : M unit :=
  match fuel with
  | O => abort
  | S fuel =>
    mr ← get_region id;
    iterM (fun s =>
      sub ← get_region s;
      when (level <=? r_priority sub) (
        _ ← memory_region_remove_subregion id s;
        _ ← memory_region_filter_subregions fuel s 0;
        _ ← qemu_ram_free (r_ram_block sub);
        g_free_region s)) (r_subregions mr)
  end.

(** The depth of containers and copies: engine, container, RAM, and one. *)
Definition tree_depth : nat := 4.

(** [mr->destructor(mr); g_free(mr)]. *)
Definition destroy_region (id : Z) : M unit :=
  mr ← get_region id;
  _ ← memory_region_filter_subregions tree_depth id 0;
  _ ← qemu_ram_free (r_ram_block mr);
  g_free_region id.

(** [memory_region_remove_mapped_block]: drop the first entry that is [id]. *)
Definition memory_region_remove_mapped_block (id : Z) (free : bool) : M unit :=
  u ← get;
  when (bool_decide (id ∈ mapped_blocks u)) (
    _ ← modify (with_mapped (remove_first id (mapped_blocks u)));
    when free (destroy_region id)).

Definition memory_unmap (id : Z) : M unit :=
  mr ← get_region id;
  _ ← flush_region mr;
  u ← get;
  _ ← memory_region_del_subregion (system_memory u) id;
  memory_region_remove_mapped_block id true.

(** [memory_moveout]; the number of the level is kept in place of the
    container pointer, here negated so that it is no region. *)
Definition memory_moveout (id : Z) : M unit :=
  mr ← get_region id;
  let mr_block := default id (head (r_subregions mr)) in
  _ ← flush_region mr;
  u ← get;
  _ ← memory_region_del_subregion (system_memory u) id;
  _ ← modify (fun u => with_unmapped (unmapped_regions u ++ [id]) u);
  _ ← memory_region_remove_mapped_block mr_block false;
  _ ← memory_region_transaction_commit;
  upd_region id (r_with_container (Some (- snapshot_level u))).

Definition memory_movein (id : Z) : M unit :=
  mr ← get_region id;
  u ← get;
  _ ← memory_region_add_subregion_overlap (system_memory u) (r_addr mr) id (r_priority mr);
  memory_region_transaction_commit.

(** [make_contained]: put a region of the system memory in a container. *)
Definition make_contained (id : Z) : M unit :=
  current ← get_region id;
  n ← lift (int128_get64 (r_size current));
  container ← g_new (memory_region_init n);
  u ← get;
  _ ← memory_region_del_subregion (system_memory u) id;
  _ ← memory_region_add_subregion_overlap container 0 id (r_priority current);
  memory_region_add_subregion (system_memory u) (r_addr current) container.

(** [memcpy] within host memory. *)
Definition host_copy (dst src len : Z) : M unit :=
  modify (fun u => with_host
    (fun a => if (dst <=? a) && (a <? dst + len) then hostmem u (src + (a - dst))
              else hostmem u a) (live_ram u) u).

Definition memory_cow (id begin size : Z) : M (option Z) :=
  u ← get;
  _ ← assert_ (Z.land begin (target_page_align u) =? 0);
  _ ← assert_ (Z.land size (target_page_align u) =? 0);
  current ← get_region id;
  _ ← when (bool_decide (r_container current = Some (system_memory u))) (make_contained id);
  current ← get_region id;
  cid ← lift (r_container current);
  container ← get_region cid;
  let offset := u64 (begin - r_addr container) in
  let current_offset := u64 (offset - r_addr current) in
  block ← qemu_ram_alloc size;
  match block with
  | None => mret None
  | Some b =>
    let r := memory_region_init size in
    ram ← g_new (mk_reg true (Z.land (r_perms current) UC_PROT_WRITE =? 0) (Some b) None
                   None (r_size r) 0 true true 0 [] (r_perms current) 0);
    src ← lift (r_ram_block current);
    _ ← host_copy (host b) (host src + current_offset) size;
    _ ← memory_region_add_subregion_overlap cid offset ram (snapshot_level u);
    u ← get;
    ramr ← get_region ram;
    _ ← when (cpu u) (modify (fun u => with_flushes (flushes u ++
           flush_pages (S (Z.to_nat (size / target_page_size u))) (r_addr ramr)
             (r_end ramr) (target_page_size u)) u));
    mret (Some ram)
  end.

(** ** Physical accesses *)

(** [memory_access_size] for regions with the default limits. *)
Definition memory_access_size (l addr : Z) : Z :=
  let access_size_max := 4 in
  let align_size_max := u32 (Z.land addr (- addr)) in
  let access_size_max :=
    if negb (align_size_max =? 0) && (align_size_max <? access_size_max)
    then align_size_max else access_size_max in
  let l := Z.min (u32 l) access_size_max in
  if l =? 0 then 0 else 2 ^ Z.log2 l.

(** [n] bytes of [v], least significant first ([stn_he_p]), and back. *)
Fixpoint le_bytes (n : nat) (v : Z) : list Z :=
  match n with O => [] | S n => Z.land v 0xff :: le_bytes n (Z.shiftr v 8) end.
Definition le_value (bs : list Z) : Z := foldr (fun b v => b + 256 * v) 0 bs.

(** [mmio_read_wrapper], then the mask of the access size. *)
Definition mmio_read (u : uc_struct) (cbs : mmio_cbs) (addr size : Z) : Z :=
  let addr := wrap (target_long_bits u) addr in
  match cb_read cbs with
  | Some cb => wrap (8 * size) (mmio_cb_read cb (user_data_read cbs) addr size)
  | None => 0
  end.

Definition mmio_write (cbs : mmio_cbs) (addr size val : Z) (u : uc_struct) : uc_struct :=
  let addr := wrap (target_long_bits u) addr in
  match cb_write cbs with
  | Some cb =>
    with_mmio (mmio_writes u ++ [mk_mmio cb (user_data_write cbs) addr size val]) u
  | None => u
  end.

(** [flatview_translate]: the region, the offset in it and, for RAM, the
    length clipped to the range. *)
Definition flatview_translate (u : uc_struct) (view : FlatView) (addr len : Z)
    : option (option region * Z * Z) :=
  match view_find (ranges view) addr with
  | None => Some (None, addr, len)
  | Some fr =>
    r ← regions u !! fr_mr fr;
    let xlat := u64 (offset_in_region fr + (addr - ar_start (fr_addr fr))) in
    Some (Some r, xlat,
          if r_ram r then Z.min len (addrrange_end (fr_addr fr) - addr) else len)
  end.

(** [flatview_read_continue]: the result flag and the bytes read. *)
Fixpoint flatview_read (fuel : nat) (u : uc_struct) (view : FlatView) (addr len : Z)
    : option (bool * list Z) :=
  match fuel with
  | O => None
  | S fuel =>
    '(r, addr1, l) ← flatview_translate u view addr len;
    '(ok, bytes) ←
      (match r with
       | Some r =>
         if r_ram r then
           b ← r_ram_block r;
           let l := Z.min l (max_length b - addr1) in
           Some (true, map (fun i => hostmem u (host b + addr1 + i)) (seqZ 0 l))
         else
           cbs ← r_opaque r;
           let l := memory_access_size l addr1 in
           Some (true, le_bytes (Z.to_nat l) (mmio_read u cbs addr1 l))
       | None =>
         let l := memory_access_size l addr1 in
         Some (false, le_bytes (Z.to_nat l) 0)
       end);
    let len := len - Z.of_nat (length bytes) in
    if len =? 0 then Some (ok, bytes)
    else
      '(ok', bytes') ← flatview_read fuel u view
        (u64 (addr + Z.of_nat (length bytes))) len;
      Some (ok && ok', bytes ++ bytes')
  end.

(** [flatview_write_continue]: the result flag; a RAM region that is
    read-only is not accessed directly and refuses the write. *)
Fixpoint flatview_write (fuel : nat) (view : FlatView) (addr : Z) (buf : list Z)
    (u : uc_struct) : option (bool * uc_struct) :=
  match fuel with
  | O => None
  | S fuel =>
    '(r, addr1, l) ← flatview_translate u view addr (Z.of_nat (length buf));
    '(ok, l, u) ←
      (match r with
       | Some r =>
         if r_ram r && negb (r_readonly r) then
           b ← r_ram_block r;
           let l := Z.min l (max_length b - addr1) in
           let dst := host b + addr1 in
           Some (true, l, with_host (fun a => if (dst <=? a) && (a <? dst + l)
             then buf !!! Z.to_nat (a - dst) else hostmem u a) (live_ram u) u)
         else
           let l := memory_access_size l addr1 in
           match r_opaque r with
           | Some cbs =>
             Some (true, l, mmio_write cbs addr1 l (le_value (take (Z.to_nat l) buf)) u)
           | None => Some (false, l, u)
           end
       | None => Some (false, memory_access_size l addr1, u)
       end);
    let buf := drop (Z.to_nat l) buf in
    if (length buf =? 0)%nat then Some (ok, u)
    else
      '(ok', u) ← flatview_write fuel view (u64 (addr + l)) buf u;
      Some (ok && ok', u)
  end.

(** [cpu_physical_mem_read] and [cpu_physical_mem_write]. *)
Definition read_mem (addr len : Z) : M (bool * list Z) :=
  u ← get;
  if 0 <? len then
    view ← lift (current_map u);
    lift (flatview_read (S (Z.to_nat len)) u view addr len)
  else mret (true, []).

Definition write_mem (addr : Z) (buf : list Z) : M bool :=
  u ← get;
  if (0 <? length buf)%nat then
    view ← lift (current_map u);
    run (flatview_write (S (length buf)) view addr buf)
  else mret true.
End Host.
