(* ===== verification/UcMem.v ===== *)
(** * The memory API of [uc.c]

    [uc_mem_map], [uc_mem_map_ptr], [uc_mmio_map], [uc_mem_unmap],
    [uc_mem_protect], [uc_mem_read], [uc_mem_write], [uc_mem_regions] and the
    snapshots, over the regions of [Regions].

    The loops over the parts of an area have [area_fuel] rounds, which is more
    than the number of regions: every round but the last goes to the end of a
    region.  [uc_mem_unmap] and the functions that split a region call each
    other; the recursion is two deep, since a split unmaps a whole region, for
    which no further split is needed. *)

From S2P Require Import Prelude UcTypes FlatView Regions.

(** ** The sorted array of mapped blocks *)

Definition mapped_block_count (u : uc_struct) : Z := Z.of_nat (length (mapped_blocks u)).

(** [uc->mapped_blocks[i]]. *)
Definition mapped_block (u : uc_struct) (i : Z) : option region :=
  id ← mapped_blocks u !! Z.to_nat i; regions u !! id.

Fixpoint bsearch_loop (fuel : nat) (u : uc_struct) (address left right : Z) : option Z :=
  match fuel with
  | O => None
  | S fuel =>
    if left <? right then
      let mid := left + (right - left) / 2 in
      mapping ← mapped_block u mid;
      if u64 (r_end mapping - 1) <? address
      then bsearch_loop fuel u address (mid + 1) right
      else if r_addr mapping >? address
      then bsearch_loop fuel u address left mid
      else Some mid
    else Some left
  end.

Definition bsearch_mapped_blocks (u : uc_struct) (address : Z) : option Z :=
  bsearch_loop (S (length (mapped_blocks u))) u address 0 (mapped_block_count u).

Definition memory_overlap (u : uc_struct) (begin size : Z) : option bool :=
  let end_ := u64 (begin + size - 1) in
  i ← bsearch_mapped_blocks u begin;
  if i >=? mapped_block_count u then Some false
  else
    b ← mapped_block u i;
    Some (end_ >=? r_addr b).

(** [mem_map]: insert the block at its place; growing the array does not fail. *)
Definition mem_map (block : option Z) : M uc_err :=
  match block with
  | None => mret UC_ERR_NOMEM
  | Some id =>
    r ← get_region id;
    u ← get;
    pos ← lift (bsearch_mapped_blocks u (r_addr r));
    let l := mapped_blocks u in
    _ ← modify (with_mapped (take (Z.to_nat pos) l ++ id :: drop (Z.to_nat pos) l));
    mret UC_ERR_OK
  end.

Definition mem_map_check (u : uc_struct) (address size perms : Z) : option uc_err :=
  if size =? 0 then Some UC_ERR_ARG
  else if u64 (address + size - 1) <? address then Some UC_ERR_ARG
  else if negb (Z.land address (target_page_align u) =? 0) then Some UC_ERR_ARG
  else if negb (Z.land size (target_page_align u) =? 0) then Some UC_ERR_ARG
  else if negb (Z.land perms (u32 (Z.lnot UC_PROT_ALL)) =? 0) then Some UC_ERR_ARG
  else
    o ← memory_overlap u address size;
    Some (if o : bool then UC_ERR_MAP else UC_ERR_OK).

(** The result of an access loop: all done, left early, or an error returned
    from within. *)
Inductive loop_result :=
| loop_done
| loop_break
| loop_return (err : uc_err).

Section Api.
Context (os_alloc : list (Z * Z) -> Z -> option Z).
Context (mmio_cb_read : Z -> Z -> Z -> Z -> Z).
(** Whether [g_malloc0] obtains the memory for a copy of the given size. *)
Context (malloc_ok : uc_struct -> Z -> bool).

(** ** Mapping *)

Definition uc_mem_map (address size perms : Z) : M uc_err :=
  u ← get;
  res ← lift (mem_map_check u address size perms);
  if bool_decide (res = UC_ERR_OK)
  then block ← memory_map os_alloc address size perms; mem_map block
  else mret res.

(** The null pointer is 0. *)
Definition uc_mem_map_ptr (address size perms ptr : Z) : M uc_err :=
  if ptr =? 0 then mret UC_ERR_ARG
  else
    u ← get;
    res ← lift (mem_map_check u address size perms);
    if bool_decide (res = UC_ERR_OK)
    then block ← memory_map_ptr address size perms ptr; mem_map block
    else mret res.

Definition uc_mmio_map (address size : Z) (cbs : mmio_cbs) : M uc_err :=
  u ← get;
  res ← lift (mem_map_check u address size UC_PROT_ALL);
  if bool_decide (res = UC_ERR_OK)
  then block ← memory_map_io address size cbs; mem_map block
  else mret res.

(** ** Areas *)

(** The end of a region in the address space: up through its containers. *)
Fixpoint region_end_loop (fuel : nat) (u : uc_struct) (mr : region) (end_ : Z) : option Z :=
  match fuel with
  | O => None
  | S fuel =>
    if bool_decide (r_container mr = Some (system_memory u)) then Some end_
    else
      c ← r_container mr;
      mr ← regions u !! c;
      region_end_loop fuel u mr (u64 (end_ + r_addr mr))
  end.

Definition memory_region_len (u : uc_struct) (mr : region) (address count : Z) : option Z :=
  end_ ← region_end_loop (S (size (regions u))) u mr (r_end mr);
  Some (Z.min count (u64 (end_ - address))).

Fixpoint check_mem_loop (fuel : nat) (address size count : Z) : M bool :=
  match fuel with
  | O => abort
  | S fuel =>
    if count <? size then
      mr ← memory_mapping address;
      match mr with
      | Some id =>
        u ← get;
        r ← get_region id;
        len ← lift (memory_region_len u r address (size - count));
        check_mem_loop fuel (u64 (address + len)) size (count + len)
      | None => mret false
      end
    else mret true
  end.

Definition area_fuel (u : uc_struct) : nat := 2 * size (regions u) + 2.

Definition check_mem_area (address size : Z) : M bool :=
  u ← get; check_mem_loop (area_fuel u) address size 0.

(** ** Reading and writing *)

Fixpoint mem_read_loop (fuel : nat) (address size count : Z) (bytes : list Z)
    : M (loop_result * list Z) :=
  match fuel with
  | O => abort
  | S fuel =>
    if count <? size then
      mr ← memory_mapping address;
      match mr with
      | Some id =>
        u ← get;
        r ← get_region id;
        len ← lift (memory_region_len u r address (size - count));
        '(ok, bs) ← read_mem mmio_cb_read address len;
        if ok : bool
        then mem_read_loop fuel (u64 (address + len)) size (count + len) (bytes ++ bs)
        else mret (loop_break, bytes ++ bs)
      | None => mret (loop_break, bytes)
      end
    else mret (loop_done, bytes)
  end.

(** The error and the bytes written to the buffer. *)
Definition uc_mem_read (address size : Z) : M (uc_err * list Z) :=
  ok ← check_mem_area address size;
  if ok : bool then
    u ← get;
    '(res, bytes) ← mem_read_loop (area_fuel u) address size 0 [];
    match res with
    | loop_done => mret (UC_ERR_OK, bytes)
    | _ => mret (UC_ERR_READ_UNMAPPED, bytes)
    end
  else mret (UC_ERR_READ_UNMAPPED, []).

(** One round of the loop of [uc_mem_write] on the region at [address]: the
    bytes written, or how the loop ends. *)
Definition mem_write_step (id address : Z) (bytes : list Z) : M (loop_result + Z) :=
  u ← get;
  mr ← get_region id;
  let align := target_page_align u in
  let protected := Z.land (r_perms mr) UC_PROT_WRITE =? 0 in
  _ ← when protected (memory_region_set_readonly id false);
  len ← lift (memory_region_len u mr address (Z.of_nat (length bytes)));
  target ←
    (if negb (snapshot_level u =? 0) && (r_priority mr <? snapshot_level u)
     then memory_cow os_alloc id (Z.land address (u64 (Z.lnot align)))
            (Z.land (u64 (len + Z.land address align + align)) (u64 (Z.lnot align)))
     else mret (Some id));
  match target with
  | None => mret (inl (loop_return UC_ERR_NOMEM))
  | Some mr =>
    ok ← write_mem address (take (Z.to_nat len) bytes);
    if ok : bool then
      _ ← when protected (memory_region_set_readonly mr true);
      mret (inr len)
    else mret (inl loop_break)
  end.

Fixpoint mem_write_loop (fuel : nat) (address : Z) (bytes : list Z) : M loop_result :=
  match fuel with
  | O => abort
  | S fuel =>
    if (0 <? length bytes)%nat then
      mr ← memory_mapping address;
      match mr with
      | Some id =>
        res ← mem_write_step id address bytes;
        match res with
        | inr len => mem_write_loop fuel (u64 (address + len)) (drop (Z.to_nat len) bytes)
        | inl stop => mret stop
        end
      | None => mret loop_break
      end
    else mret loop_done
  end.

(** [count == size] holds when no byte is left. *)
Definition uc_mem_write (address : Z) (bytes : list Z) : M uc_err :=
  ok ← check_mem_area address (Z.of_nat (length bytes));
  if ok : bool then
    u ← get;
    res ← mem_write_loop (area_fuel u) address bytes;
    match res with
    | loop_done => mret UC_ERR_OK
    | loop_break => mret UC_ERR_WRITE_UNMAPPED
    | loop_return err => mret err
    end
  else mret UC_ERR_WRITE_UNMAPPED.

(** ** Splitting, unmapping and protecting *)

(** A step that must return [UC_ERR_OK] for the next to run. *)
Definition and_then (m : M uc_err) (k : M bool) : M bool :=
  err ← m; if bool_decide (err = UC_ERR_OK) then k else mret false.

(** [copy_region]: the bytes of a region, or nothing for the null pointer. *)
Definition copy_region (mr : region) : M (option (list Z)) :=
  n ← lift (int128_get64 (r_size mr));
  u ← get;
  if malloc_ok u n then
    '(err, bytes) ← uc_mem_read (r_addr mr) n;
    mret (if bool_decide (err = UC_ERR_OK) then Some bytes else None)
  else mret None.

(** The sizes of the parts before, in and after the range, and the range
    clipped to the region. *)
Definition split_parts (begin end_ address chunk_end : Z) : Z * Z * Z * Z * Z :=
  let address := if address <? begin then begin else address in
  let chunk_end := if chunk_end >? end_ then end_ else chunk_end in
  (address, chunk_end, u64 (address - begin), u64 (chunk_end - address),
   u64 (end_ - chunk_end)).

(** Remap the parts of an unmapped region that remain: left, middle (unless it
    is deleted) and right. *)
Definition remap_parts (map_part : Z -> Z -> Z -> M bool -> M bool)
    (begin end_ address chunk_end : Z) (do_delete : bool) : M bool :=
  let '(address, chunk_end, l_size, m_size, r_size) :=
    split_parts begin end_ address chunk_end in
  let right := if 0 <? r_size then map_part chunk_end r_size (l_size + m_size) (mret true)
               else mret true in
  let middle := if (0 <? m_size) && negb do_delete
                then map_part address m_size l_size right else right in
  if 0 <? l_size then map_part begin l_size 0 middle else middle.

Section Split.
(** The unmapping of a whole region. *)
Context (unmap : Z -> Z -> M uc_err).

Definition split_mmio_region (mr : region) (address size : Z) (do_delete : bool) : M bool :=
  let chunk_end := u64 (address + size) in
  if (address <=? r_addr mr) && (chunk_end >=? r_end mr) then mret true
  else if size =? 0 then mret false
  else
    backup ← lift (r_opaque mr);
    n ← lift (int128_get64 (r_size mr));
    and_then (unmap (r_addr mr) n)
      (remap_parts (fun addr n _ k => and_then (uc_mmio_map addr n backup) k)
         (r_addr mr) (r_end mr) address chunk_end do_delete).

(** One part of a RAM region: mapped afresh and filled from the backup, or
    mapped on the memory of the user. *)
Definition map_ram_part (perms : Z) (backup : list Z) (addr n off : Z) (k : M bool) : M bool :=
  and_then (uc_mem_map addr n perms)
    (and_then (uc_mem_write addr (take (Z.to_nat n) (drop (Z.to_nat off) backup))) k).

Definition map_ptr_part (perms backup addr n off : Z) (k : M bool) : M bool :=
  and_then (uc_mem_map_ptr addr n perms (backup + off)) k.

Definition split_region (mr : region) (address size : Z) (do_delete : bool) : M bool :=
  let chunk_end := u64 (address + size) in
  if (address <=? r_addr mr) && (chunk_end >=? r_end mr) then mret true
  else if size =? 0 then mret true
  else if (address >=? r_end mr) || (chunk_end <=? r_addr mr) then mret false
  else
    match r_ram_block mr with
    | None => mret false
    | Some block =>
      n ← lift (int128_get64 (r_size mr));
      if prealloc block then
        and_then (unmap (r_addr mr) n)
          (remap_parts (map_ptr_part (r_perms mr) (host block))
             (r_addr mr) (r_end mr) address chunk_end do_delete)
      else
        backup ← copy_region mr;
        match backup with
        | None => mret false
        | Some backup =>
          and_then (unmap (r_addr mr) n)
            (remap_parts (map_ram_part (r_perms mr) backup)
               (r_addr mr) (r_end mr) address chunk_end do_delete)
        end
    end.
End Split.

(** The region at the top of the containers of a region. *)
Fixpoint top_container (fuel : nat) (u : uc_struct) (id : Z) : option Z :=
  match fuel with
  | O => None
  | S fuel =>
    mr ← regions u !! id;
    if bool_decide (r_container mr = Some (system_memory u)) then Some id
    else c ← r_container mr; top_container fuel u c
  end.

Definition uc_mem_unmap_snapshot (address size : Z) : M uc_err :=
  mr ← memory_mapping address;
  id ← lift mr;
  u ← get;
  id ← lift (top_container (S (base.size (regions u))) u id);
  mr ← get_region id;
  n ← lift (int128_get64 (r_size mr));
  if negb (r_addr mr =? address) || negb (n =? size) then mret UC_ERR_ARG
  else _ ← memory_moveout id; mret UC_ERR_OK.

Section Unmap.
Context (unmap : Z -> Z -> M uc_err).

Fixpoint unmap_loop (fuel : nat) (addr size count : Z) : M uc_err :=
  match fuel with
  | O => abort
  | S fuel =>
    if count <? size then
      mr ← memory_mapping addr;
      id ← lift mr;
      u ← get;
      r ← get_region id;
      len ← lift (memory_region_len u r addr (size - count));
      ok ← (if r_ram r then split_region unmap r addr len true
            else split_mmio_region unmap r addr len true);
      if ok : bool then
        mr ← memory_mapping addr;
        _ ← (match mr with Some id => memory_unmap id | None => mret tt end);
        unmap_loop fuel (u64 (addr + len)) size (count + len)
      else mret UC_ERR_NOMEM
    else mret UC_ERR_OK
  end.

Definition mem_unmap (address size : Z) : M uc_err :=
  u ← get;
  if size =? 0 then mret UC_ERR_OK
  else if negb (Z.land address (target_page_align u) =? 0) then mret UC_ERR_ARG
  else if negb (Z.land size (target_page_align u) =? 0) then mret UC_ERR_ARG
  else
    ok ← check_mem_area address size;
    if ok : bool then
      if 0 <? snapshot_level u then uc_mem_unmap_snapshot address size
      else unmap_loop (area_fuel u) address size 0
    else mret UC_ERR_NOMEM.
End Unmap.

Fixpoint uc_mem_unmap_depth (depth : nat) (address size : Z) : M uc_err :=
  match depth with
  | O => abort
  | S depth => mem_unmap (uc_mem_unmap_depth depth) address size
  end.

Definition uc_mem_unmap : Z -> Z -> M uc_err := uc_mem_unmap_depth 3.

(** [uc_emu_stop]. *)
Definition uc_emu_stop : M uc_err :=
  u ← get;
  _ ← modify (fun u => with_quit (quit_request u) true u);
  _ ← when (negb (emulation_done u)) (add_flush cpu_exit);
  mret UC_ERR_OK.

(** The loop of [uc_mem_protect]: whether execution permission was removed, or
    nothing after an error. *)
Fixpoint protect_loop (fuel : nat) (perms addr size count : Z) (remove_exec : bool)
    : M (option bool) :=
  match fuel with
  | O => abort
  | S fuel =>
    if count <? size then
      mr ← memory_mapping addr;
      id ← lift mr;
      u ← get;
      r ← get_region id;
      len ← lift (memory_region_len u r addr (size - count));
      ok ← (if r_ram r then split_region uc_mem_unmap r addr len false
            else split_mmio_region uc_mem_unmap r addr len false);
      if ok : bool then
        mr ← memory_mapping addr;
        id ← lift mr;
        now ← get_region id;
        let removes := r_ram r && negb (Z.land (r_perms now) UC_PROT_EXEC =? 0)
                       && (Z.land perms UC_PROT_EXEC =? 0) in
        _ ← upd_region id (r_with_perms perms);
        _ ← when (r_ram r) (memory_region_set_readonly id (Z.land perms UC_PROT_WRITE =? 0));
        protect_loop fuel perms (u64 (addr + len)) size (count + len) (remove_exec || removes)
      else mret None
    else mret (Some remove_exec)
  end.

Definition uc_mem_protect (address size perms : Z) : M uc_err :=
  u ← get;
  if 0 <? snapshot_level u then mret UC_ERR_ARG
  else if size =? 0 then mret UC_ERR_OK
  else if negb (Z.land address (target_page_align u) =? 0) then mret UC_ERR_ARG
  else if negb (Z.land size (target_page_align u) =? 0) then mret UC_ERR_ARG
  else if negb (Z.land perms (u32 (Z.lnot UC_PROT_ALL)) =? 0) then mret UC_ERR_ARG
  else
    ok ← check_mem_area address size;
    if ok : bool then
      res ← protect_loop (area_fuel u) perms address size 0 false;
      match res with
      | None => mret UC_ERR_NOMEM
      | Some remove_exec =>
        _ ← when (remove_exec && (pc u <? u64 (address + size)) && (pc u >=? address)) (
              _ ← modify (fun u => with_quit true (stop_request u) u);
              _ ← uc_emu_stop; mret tt);
        mret UC_ERR_OK
      end
    else mret UC_ERR_NOMEM.

(** ** Listing *)

(** [uc_mem_region]: begin, last address and permissions. *)
Definition uc_mem_regions : M (list (Z * Z * Z)) :=
  u ← get;
  rs ← lift (mapM (fun id => regions u !! id) (mapped_blocks u));
  mret (map (fun r => (r_addr r, u64 (r_end r - 1), r_perms r)) rs).

(** ** Snapshots *)

Definition INT32_MAX : Z := 2 ^ 31 - 1.

Definition uc_snapshot : M uc_err :=
  u ← get;
  if snapshot_level u =? INT32_MAX then mret UC_ERR_RESOURCE
  else _ ← modify (with_level (snapshot_level u + 1)); mret UC_ERR_OK.

(** The first loop of [uc_restore_latest_snapshot]: drop what was mapped or
    copied since the snapshot. *)
Definition drop_newer (level : Z) : M unit :=
  u ← get;
  sys ← get_region (system_memory u);
  iterM (fun s =>
    _ ← memory_region_filter_subregions tree_depth s level;
    sub ← get_region s;
    when ((level <=? r_priority sub)
          || (negb (r_terminates sub) && (length (r_subregions sub) =? 0)%nat))
      (memory_unmap s)) (r_subregions sys).

(** The second loop, for the [i] oldest unmapped regions: put back what was
    unmapped since the snapshot.  After the first loop [subregion] is null, so
    that its unmapping has no result. *)
Fixpoint put_back (level : Z) (i : nat) : M uc_err :=
  match i with
  | O => mret UC_ERR_OK
  | S i =>
    u ← get;
    id ← lift (unmapped_regions u !! i);
    mr ← get_region id;
    let initial_mr := default id (head (r_subregions mr)) in
    let saved := match r_container mr with Some c => - c | None => 0 end in
    _ ← upd_region id (r_with_container None);
    if saved <? level then mret UC_ERR_OK
    else
      n ← lift (int128_get64 (r_size mr));
      u ← get;
      overlap ← lift (memory_overlap u (r_addr mr) n);
      if overlap : bool then mret UC_ERR_MAP
      else
        _ ← memory_movein id;
        _ ← memory_region_filter_subregions tree_depth id level;
        mr ← get_region id;
        _ ← when (negb (initial_mr =? id) && (length (r_subregions mr) =? 0)%nat) abort;
        _ ← mem_map (Some initial_mr);
        _ ← modify (fun u => with_unmapped (delete i (unmapped_regions u)) u);
        put_back level i
  end.

Definition uc_restore_latest_snapshot : M uc_err :=
  u ← get;
  let level := snapshot_level u in
  _ ← drop_newer level;
  u ← get;
  err ← put_back level (length (unmapped_regions u));
  if bool_decide (err = UC_ERR_OK)
  then _ ← modify (with_level (level - 1)); mret UC_ERR_OK
  else mret err.
End Api.
