(* ===== verification/MemInv.v ===== *)
(** * The invariant of the memory map and the lookup of an address

    The state of the memory API outside of snapshots: the blocks of
    [mapped_blocks] are disjoint, in order of address, and are the subregions of
    the system memory.  [memory_mapping], which goes through the flat view of
    the region tree, finds the block that holds an address, and the binary
    search of [uc.c] finds it too. *)

From S2P Require Import Prelude UcTypes FlatView Regions UcMem.

(** ** The invariant *)

(** An address is in a block. *)
Definition holds (r : region) (a : Z) : bool := (r_addr r <=? a) && (a <? r_addr r + r_size r).

Record block_ok (u : uc_struct) (r : region) : Prop := {
  bo_container : r_container r = Some (system_memory u);
  bo_enabled : r_enabled r = true;
  bo_terminates : r_terminates r = true;
  bo_leaf : r_subregions r = [];
  bo_priority : r_priority r = 0;
  bo_addr : 0 <= r_addr r;
  bo_size : 0 < r_size r < 2 ^ 64;
  bo_fits : r_addr r + r_size r <= 2 ^ 64;
  bo_end : r_end r = u64 (r_addr r + r_size r);
  bo_align : (target_page_size u | r_addr r);
  bo_pages : (target_page_size u | r_size r);
  bo_perms : 0 <= r_perms r <= UC_PROT_ALL;
  bo_readonly : r_ram r = true -> r_readonly r = true -> Z.land (r_perms r) UC_PROT_WRITE = 0;
  bo_kind : if r_ram r
            then exists b, r_ram_block r = Some b /\ r_size r <= max_length b /\ r_opaque r = None
            else r_ram_block r = None /\ exists cbs, r_opaque r = Some cbs
}.

(** One block lies before another. *)
Definition before (rs : gmap Z region) (i j : Z) : Prop :=
  forall ri rj, rs !! i = Some ri -> rs !! j = Some rj -> r_addr ri + r_size ri <= r_addr rj.

(** The regions of [mapped_blocks] are what the system memory contains.  The
    page sizes are those the dispatch structure is shown right for. *)
Record layout (u : uc_struct) : Prop := {
  wf_level : snapshot_level u = 0;
  wf_page : exists k, 1 <= k <= 16 /\ target_page_size u = 2 ^ k;
  wf_long : 32 <= target_long_bits u <= 64;
  wf_host_page : 0 < host_page_size u;
  wf_sys : exists subs,
    regions u !! system_memory u = Some (r_with_subregions subs (memory_region_init UINT64_MAX))
    /\ Permutation subs (mapped_blocks u);
  wf_blocks : forall id, id ∈ mapped_blocks u ->
    exists r, regions u !! id = Some r /\ block_ok u r;
  wf_sorted : StronglySorted (before (regions u)) (mapped_blocks u)
}.

(** Between calls there are no other regions. *)
Record wf (u : uc_struct) : Prop := {
  wf_layout :> layout u;
  wf_dom : forall id r, regions u !! id = Some r ->
    id < next_region u /\ (id = system_memory u \/ id ∈ mapped_blocks u)
}.

#[export] Hint Extern 0 (layout _) => apply wf_layout; assumption : core.

(** The id of a block when it holds the address. *)
Definition block_at (rs : gmap Z region) (a : Z) (id : Z) : option Z :=
  r ← rs !! id; if holds r a then Some id else None.

Definition find_block (u : uc_struct) (a : Z) : option Z :=
  first_some (block_at (regions u) a) (mapped_blocks u).

(** ** Running computations *)

Lemma bind_run {A B} (m : M A) (f : A -> M B) u x u' :
  m u = Some (x, u') -> (m ≫= f) u = f x u'.
Proof. unfold mbind, M_bind. by intros ->. Qed.

Lemma bind_get {B} (f : uc_struct -> M B) u : (get ≫= f) u = f u u.
Proof. done. Qed.

Lemma bind_lift {A B} (x : option A) (f : A -> M B) u y :
  x = Some y -> (lift x ≫= f) u = f y u.
Proof. by intros ->. Qed.

Lemma get_region_run id u r : regions u !! id = Some r -> get_region id u = Some (r, u).
Proof. unfold get_region. rewrite bind_get. unfold lift. by intros ->. Qed.

Lemma bind_region {B} id (f : region -> M B) u r :
  regions u !! id = Some r -> (get_region id ≫= f) u = f r u.
Proof. intros H. apply bind_run. by apply get_region_run. Qed.

(** ** Blocks *)

Lemma holds_spec r a : holds r a = true <-> r_addr r <= a < r_addr r + r_size r.
Proof. unfold holds. rewrite andb_true_iff, Z.leb_le, Z.ltb_lt. done. Qed.

Lemma block_at_Some rs a id id' :
  block_at rs a id = Some id' <-> id' = id /\ exists r, rs !! id = Some r /\ holds r a = true.
Proof.
  unfold block_at. destruct (rs !! id) as [r|]; simpl; [|split; [done|by intros (_ & ? & ? & _)]].
  destruct (holds r a) eqn:E; split.
  - intros [= <-]. eauto.
  - by intros (-> & _).
  - done.
  - intros (_ & ? & ? & ?). congruence.
Qed.

Section Wf.
Context (u : uc_struct) (Hwf : layout u).

Lemma sys_not_block : system_memory u ∉ mapped_blocks u.
Proof.
  intros (r & Hr & Hok)%(wf_blocks _ Hwf). destruct (wf_sys _ Hwf) as (subs & Hs & _).
  rewrite Hs in Hr. simplify_eq. by pose proof (bo_container _ _ Hok).
Qed.

Lemma block_exists id : id ∈ mapped_blocks u -> exists r, regions u !! id = Some r /\ block_ok u r.
Proof. apply (wf_blocks _ Hwf). Qed.

(** Distinct positions hold disjoint blocks. *)
Lemma blocks_before i j x y rx ry :
  (i < j)%nat -> mapped_blocks u !! i = Some x -> mapped_blocks u !! j = Some y ->
  regions u !! x = Some rx -> regions u !! y = Some ry ->
  r_addr rx + r_size rx <= r_addr ry.
Proof.
  intros Hij Hi Hj Hx Hy. pose proof (wf_sorted _ Hwf) as Hs.
  by apply (StronglySorted_lookup _ _ _ _ _ _ Hs Hi Hj Hij).
Qed.

(** At most one block holds an address. *)
Lemma block_unique x y rx ry a :
  x ∈ mapped_blocks u -> y ∈ mapped_blocks u ->
  regions u !! x = Some rx -> regions u !! y = Some ry ->
  holds rx a = true -> holds ry a = true -> x = y.
Proof.
  intros [i Hi]%list_elem_of_lookup [j Hj]%list_elem_of_lookup Hx Hy Ha%holds_spec Hb%holds_spec.
  destruct (lt_eq_lt_dec i j) as [[Hij| ->]|Hij]; [|by simplify_eq|].
  - pose proof (blocks_before _ _ _ _ _ _ Hij Hi Hj Hx Hy). lia.
  - pose proof (blocks_before _ _ _ _ _ _ Hij Hj Hi Hy Hx). lia.
Qed.

Lemma blocks_NoDup : NoDup (mapped_blocks u).
Proof.
  apply NoDup_alt. intros i j x Hi Hj.
  destruct (block_exists x) as (r & Hr & Hok); [by eapply list_elem_of_lookup_2|].
  pose proof (bo_size _ _ Hok).
  destruct (lt_eq_lt_dec i j) as [[Hij| ->]|Hij]; [|done|].
  - pose proof (blocks_before _ _ _ _ _ _ Hij Hi Hj Hr Hr). lia.
  - pose proof (blocks_before _ _ _ _ _ _ Hij Hj Hi Hr Hr). lia.
Qed.

(** The block found in any order of the blocks is the one that holds the
    address. *)
Lemma first_block l a id r :
  (forall x, x ∈ l -> x ∈ mapped_blocks u) -> id ∈ l ->
  regions u !! id = Some r -> holds r a = true ->
  first_some (block_at (regions u) a) l = Some id.
Proof.
  intros Hl Hin Hr Ha. destruct (first_some _ l) as [id'|] eqn:E.
  - apply first_some_inv in E as (x & Hx & (-> & rx & Hrx & Hax)%block_at_Some).
    f_equal. symmetry. eapply block_unique; eauto.
  - exfalso. revert E Hin. clear Hl. induction l as [|y l IH]; [by intros _ ?%not_elem_of_nil|].
    simpl. intros E. destruct (block_at (regions u) a y) eqn:Ey; [done|]. simpl in E.
    intros [-> | ?]%elem_of_cons; [|by apply IH].
    assert (block_at (regions u) a y = Some y) by (apply block_at_Some; eauto). congruence.
Qed.

Lemma first_block_perm l a :
  Permutation l (mapped_blocks u) ->
  first_some (block_at (regions u) a) l = find_block u a.
Proof.
  intros Hp. unfold find_block.
  destruct (first_some _ (mapped_blocks u)) as [id|] eqn:E.
  - apply first_some_inv in E as (x & Hx & (-> & r & Hr & Ha)%block_at_Some).
    eapply first_block; eauto; [|by rewrite Hp]. intros y. by rewrite Hp.
  - destruct (first_some _ l) as [id|] eqn:E'; [|done].
    apply first_some_inv in E' as (x & Hx & (-> & r & Hr & Ha)%block_at_Some).
    rewrite Hp in Hx. rewrite (first_block (mapped_blocks u) a x r) in E; auto.
Qed.

Lemma find_block_Some a id :
  find_block u a = Some id <->
  id ∈ mapped_blocks u /\ exists r, regions u !! id = Some r /\ holds r a = true.
Proof.
  split.
  - intros (x & Hx & (-> & r & Hr & Ha)%block_at_Some)%first_some_inv. eauto.
  - intros (Hin & r & Hr & Ha). by apply (first_block _ a id r).
Qed.

Lemma find_block_None a :
  find_block u a = None <->
  forall id r, id ∈ mapped_blocks u -> regions u !! id = Some r -> holds r a = false.
Proof.
  split.
  - intros E id r Hin Hr. apply not_true_is_false. intros Ha.
    assert (find_block u a = Some id) by (apply find_block_Some; eauto). congruence.
  - intros H. destruct (find_block u a) as [id|] eqn:E; [|done].
    apply find_block_Some in E as (Hin & r & Hr & Ha). by rewrite (H id r) in Ha.
Qed.

(** ** The region tree and the flat view *)

Definition leaf (id : Z) (r : region) : MemoryRegion :=
  mk_region id (r_addr r) (r_size r) true true (r_readonly r) [].

Lemma tree_of_block fuel id r :
  regions u !! id = Some r -> block_ok u r ->
  tree_of (S fuel) (regions u) id = Some (leaf id r).
Proof.
  intros Hr Hok. cbn [tree_of]. rewrite Hr. cbn [mbind option_bind].
  rewrite (bo_leaf _ _ Hok). cbn [mapM mbind option_bind mret option_ret].
  by rewrite (bo_enabled _ _ Hok), (bo_terminates _ _ Hok).
Qed.

(** The leaves of the tree, in the order of the subregions. *)
Lemma tree_of_blocks fuel l :
  (forall x, x ∈ l -> x ∈ mapped_blocks u) ->
  exists ts, mapM (tree_of (S fuel) (regions u)) l = Some ts /\
    Forall2 (fun id t => exists r, regions u !! id = Some r /\ block_ok u r /\ t = leaf id r) l ts.
Proof.
  induction l as [|id l IH]; intros Hl; [by exists []|].
  destruct (block_exists id) as (r & Hr & Hok); [apply Hl; left|].
  destruct IH as (ts & E & HF); [intros; apply Hl; by right|].
  exists (leaf id r :: ts). cbn [mapM]. rewrite (tree_of_block _ _ _ Hr Hok), E.
  split; [done|]. constructor; eauto.
Qed.

(** What the view answers at an address. *)
Definition served (a : Z) : option serves :=
  id ← find_block u a; r ← regions u !! id; Some (id, a - r_addr r, r_readonly r).

Lemma resolve_leaf id r a :
  resolve (leaf id r) 0 false a =
  if holds r a then Some (id, a - r_addr r, r_readonly r) else None.
Proof. done. Qed.

Lemma resolve_leaves l ts a :
  Forall2 (fun id t => exists r, regions u !! id = Some r /\ block_ok u r /\ t = leaf id r) l ts ->
  first_some (fun s => resolve s 0 false a) ts =
  (id ← first_some (block_at (regions u) a) l;
   r ← regions u !! id; Some (id, a - r_addr r, r_readonly r)).
Proof.
  induction 1 as [|id t l ts (r & Hr & _ & ->) _ IH]; [done|]. cbn [first_some].
  rewrite resolve_leaf, IH. unfold block_at at 2. rewrite Hr. cbn [mbind option_bind].
  destruct (holds r a); cbn [or_else mbind option_bind]; [by rewrite Hr|done].
Qed.

Lemma leaves_ok l ts :
  Forall2 (fun id t => exists r, regions u !! id = Some r /\ block_ok u r /\ t = leaf id r) l ts ->
  foldr (fun s P => region_ok s /\ P) True ts.
Proof.
  induction 1 as [|id t l ts (r & Hr & Hok & ->) _ IH]; [done|]. cbn [foldr].
  split; [|done]. destruct Hok. cbn [region_ok leaf foldr]. lia.
Qed.

(** The view exists, has sorted ranges and answers with the blocks. *)
Lemma current_map_ok :
  exists view, current_map u = Some view /\ sorted_from 0 (ranges view) /\
    view_fits (ranges view) /\
    (forall i r1 r2, ranges view !! i = Some r1 -> ranges view !! S i = Some r2 ->
       can_merge r1 r2 = false) /\
    forall a, view_lookup (ranges view) a =
      if (0 <=? a) && (a <? 2 ^ 64) then served a else None.
Proof.
  destruct (wf_sys _ Hwf) as (subs & Hs & Hp). unfold current_map.
  assert (exists n, size (regions u) = S n) as [n Hn].
  { destruct (size (regions u)) eqn:E; [|eauto]. apply map_size_empty_iff in E.
    by rewrite E, lookup_empty in Hs. }
  rewrite Hn. cbn [tree_of]. rewrite Hs. cbn [mbind option_bind].
  change (r_subregions (r_with_subregions subs (memory_region_init UINT64_MAX))) with subs.
  destruct (tree_of_blocks n subs) as (ts & Ets & HF); [intros x; by rewrite Hp|].
  cbn [tree_of] in Ets. rewrite Ets. cbn [mbind option_bind].
  set (tree := mk_region _ _ _ _ _ _ ts).
  assert (region_ok tree) as Hok.
  { split; [|split; [|split; [|by eapply leaves_ok]]]; [..|done];
      split; vm_compute; congruence. }
  destruct (generate_memory_topology_ok tree Hok) as (view & -> & Hso & Hfits & Hl & Hm).
  exists view. split_and!; [done..|]. intros a. rewrite Hl.
  change (addrrange_contains (addrrange_make 0 int128_2_64) a)
    with ((0 <=? a) && (a <? 2 ^ 64)).
  destruct ((0 <=? a) && (a <? 2 ^ 64)) eqn:Ea; [|done]. unfold tree. cbn [resolve].
  change (addrrange_contains (addrrange_make (0 + _) _) a) with ((0 <=? a) && (a <? 2 ^ 64)).
  rewrite Ea. cbn [andb orb r_readonly r_with_subregions memory_region_init].
  change (0 + _) with 0. rewrite (resolve_leaves subs ts a HF).
  rewrite first_block_perm by done. unfold served. by destruct (_ ≫= _).
Qed.

Lemma view_lookup_find l a : view_lookup l a = (fun r => serve r a) <$> view_find l a.
Proof.
  induction l as [|r l IH]; [done|]. unfold view_find. cbn [view_lookup first_some].
  by destruct (addrrange_contains (fr_addr r) a).
Qed.

Lemma memory_mapping_ok a : 0 <= a < 2 ^ 64 -> memory_mapping a u = Some (find_block u a, u).
Proof.
  intros Ha. destruct current_map_ok as (view & Hv & _ & _ & _ & Hl). unfold memory_mapping.
  cbn [mbind M_bind get lift]. unfold get, lift, mret, M_ret, mbind, M_bind. rewrite Hv.
  do 2 f_equal. specialize (Hl a). rewrite view_lookup_find in Hl.
  rewrite (proj2 (Z.leb_le 0 a)), (proj2 (Z.ltb_lt a _)) in Hl by lia. cbn [andb] in Hl.
  unfold served in Hl. destruct (find_block u a) as [id|] eqn:E.
  - apply find_block_Some in E as (_ & r & Hr & _). cbn [mbind option_bind] in Hl.
    rewrite Hr in Hl. cbn [mbind option_bind] in Hl.
    destruct (view_find (ranges view) a) as [fr|]; simplify_eq/=. done.
  - cbn [mbind option_bind] in Hl. by destruct (view_find (ranges view) a).
Qed.

(** ** The rest of a block *)

Lemma memory_region_len_ok r a n :
  block_ok u r -> holds r a = true ->
  memory_region_len u r a n = Some (Z.min n (r_addr r + r_size r - a)).
Proof.
  intros Hok Ha%holds_spec. destruct Hok. unfold memory_region_len. cbn [region_end_loop].
  rewrite bool_decide_true by done. cbn [mbind option_bind]. rewrite bo_end0.
  rewrite wrap_sub_l, wrap_id by (unfold uint; lia). done.
Qed.

(** ** Walking an area *)

(** The area of [n] bytes from [a], modulo 2^64. *)
Definition in_area (a n x : Z) : bool := u64 (x - a) <? n.

(** The blocks whose last byte lies in an area: those still to be left. *)
Definition ends_in (rs : gmap Z region) (a n id : Z) : bool :=
  match rs !! id with
  | Some r => in_area a n (r_addr r + r_size r - 1)
  | None => false
  end.

Definition pending (a n : Z) : nat :=
  length (filter (fun id => ends_in (regions u) a n id = true) (mapped_blocks u)).

Lemma pending_bound a n : (pending a n <= length (mapped_blocks u))%nat.
Proof. apply length_filter. Qed.

Lemma blocks_bound : (length (mapped_blocks u) <= size (regions u))%nat.
Proof.
  rewrite <- size_dom, <- (size_list_to_set (C := gset Z) _ blocks_NoDup).
  apply subseteq_size. intros id. rewrite elem_of_list_to_set, elem_of_dom.
  intros (r & -> & _)%block_exists. eauto.
Qed.

(** After the rest of a block its end is left behind, and no other comes up. *)
Lemma in_area_step a n len x :
  0 <= len <= n -> n < 2 ^ 64 -> in_area (u64 (a + len)) (n - len) x = true ->
  in_area a n x = true /\ u64 (x - a) = u64 (x - u64 (a + len)) + len.
Proof.
  unfold in_area. intros Hl Hn H. bool_to_prop. rewrite wrap_sub_r in *.
  replace (x - a) with (x - (a + len) + len) by lia. rewrite <- (wrap_add_l 64).
  pose proof (wrap_range 64 (x - (a + len)) ltac:(lia)) as Hr. unfold uint in Hr.
  rewrite (wrap_id 64 (u64 _ + len)) by (unfold uint; lia).
  split; [apply Z.ltb_lt; lia|done].
Qed.

Lemma pending_step a n id r :
  0 <= a < 2 ^ 64 -> n < 2 ^ 64 -> id ∈ mapped_blocks u -> regions u !! id = Some r ->
  holds r a = true -> r_addr r + r_size r - a <= n ->
  (pending (u64 (a + (r_addr r + r_size r - a))) (n - (r_addr r + r_size r - a))
   < pending a n)%nat.
Proof.
  intros Ha Hn Hin Hr Hh%holds_spec Hle. apply (filter_length_lt _ _ _ id); [|done|..].
  - intros x _. unfold ends_in. destruct (regions u !! x) as [rx|]; [|done].
    intros E. apply in_area_step in E as [? _]; [done|lia..].
  - unfold ends_in. rewrite Hr. unfold in_area. rewrite wrap_sub_r.
    replace (_ - _) with (-1) by lia. intros E. bool_to_prop.
    replace (u64 (-1)) with (2 ^ 64 - 1) in E by reflexivity. lia.
  - unfold ends_in. rewrite Hr. unfold in_area. apply Z.ltb_lt.
    destruct (block_exists id Hin) as (r' & Hr' & Hok). simplify_eq. destruct Hok.
    rewrite wrap_id by (unfold uint; lia). lia.
Qed.

(** ** [check_mem_area] *)

(** Every byte of the area is in a block. *)
Definition area_mapped (a n : Z) : Prop :=
  forall x, uint 64 x -> in_area a n x = true -> is_Some (find_block u x).

Lemma in_area_cases a n len x :
  0 <= len <= n -> n < 2 ^ 64 ->
  in_area a n x = in_area a len x || in_area (u64 (a + len)) (n - len) x.
Proof.
  intros Hl Hn. destruct (in_area (u64 (a + len)) (n - len) x) eqn:E.
  - apply in_area_step in E as [-> _]; [|lia..]. by rewrite orb_true_r.
  - rewrite orb_false_r. unfold in_area in *. bool_to_prop. rewrite wrap_sub_r in *.
    pose proof (wrap_range 64 (x - a) ltac:(lia)) as Hr. unfold uint in Hr.
    destruct (Z.ltb_spec (u64 (x - a)) len); [apply Z.ltb_lt; lia|].
    apply Z.ltb_ge. rewrite Z.sub_add_distr, <- (wrap_sub_l 64), wrap_id in E
      by (unfold uint; lia). lia.
Qed.

(** The part of an area in the block of its first byte. *)
Lemma in_area_block a len x r :
  block_ok u r -> holds r a = true -> 0 <= len <= r_addr r + r_size r - a -> uint 64 x ->
  in_area a len x = true -> holds r x = true /\ a <= x < a + len.
Proof.
  intros Hok Hh%holds_spec Hlen Hx. unfold in_area. intros E. bool_to_prop. destruct Hok.
  unfold uint in Hx. rewrite holds_spec. destruct (Z.le_gt_cases a x).
  - rewrite wrap_id in E by (unfold uint; lia). lia.
  - exfalso. revert E. unfold wrap.
    rewrite <- (Z_mod_plus_full (x - a) 1), Z.mod_small by lia. lia.
Qed.

(** Enough rounds for an area: one more for its last part, and the test. *)
Definition rounds (a n : Z) : nat := if n <=? 0 then 1 else pending a n + 2.

Lemma rounds_fuel a n : (rounds a n <= area_fuel u)%nat.
Proof.
  unfold rounds, area_fuel. pose proof (pending_bound a n). pose proof blocks_bound.
  case_if; lia.
Qed.

Lemma rounds_pos a n : (1 <= rounds a n)%nat.
Proof. unfold rounds. case_if; lia. Qed.

Lemma rounds_step fuel a n id r :
  0 <= a < 2 ^ 64 -> 0 < n < 2 ^ 64 -> id ∈ mapped_blocks u -> regions u !! id = Some r ->
  holds r a = true -> (rounds a n <= S fuel)%nat ->
  let len := Z.min n (r_addr r + r_size r - a) in
  (rounds (u64 (a + len)) (n - len) <= fuel)%nat.
Proof.
  intros Ha Hn Hin Hr Hh Hf len. unfold rounds in *. revert Hf.
  rewrite (proj2 (Z.leb_gt n 0)) by lia. intros Hf. case_if; [lia|].
  pose proof (pending_step a n id r Ha ltac:(lia) Hin Hr Hh ltac:(lia)) as Hp.
  replace len with (r_addr r + r_size r - a) by lia. lia.
Qed.

Lemma in_area_nil a n x : n <= 0 -> in_area a n x = false.
Proof.
  intros Hn. unfold in_area. apply Z.ltb_ge.
  pose proof (wrap_range 64 (x - a) ltac:(lia)). unfold uint in *. lia.
Qed.

Lemma in_area_first a n : 0 < n -> in_area a n a = true.
Proof. intros Hn. unfold in_area. rewrite Z.sub_diag. by apply Z.ltb_lt. Qed.

(** The first part of an area lies in the block of its first byte. *)
Lemma area_mapped_step a n id r :
  0 <= a < 2 ^ 64 -> 0 < n < 2 ^ 64 -> id ∈ mapped_blocks u -> regions u !! id = Some r ->
  holds r a = true ->
  let len := Z.min n (r_addr r + r_size r - a) in
  area_mapped a n <-> area_mapped (u64 (a + len)) (n - len).
Proof.
  intros Ha Hn Hin Hr Hh len. pose proof Hh as Hh'. apply holds_spec in Hh'.
  destruct (block_exists id Hin) as (r' & Hr' & Hok). simplify_eq.
  assert (0 <= len <= n) as Hlen by lia. unfold area_mapped.
  setoid_rewrite (in_area_cases a n len); [|lia..]. split; intros H x Hx E.
  - apply H; [done|]. rewrite E. apply orb_true_r.
  - apply orb_true_iff in E as [E|E]; [|by apply H]. exists id. apply find_block_Some.
    split; [done|]. exists r. split; [done|].
    by destruct (in_area_block a len x r Hok Hh ltac:(lia) Hx E).
Qed.

Lemma find_block_region a id :
  find_block u a = Some id ->
  exists r, id ∈ mapped_blocks u /\ regions u !! id = Some r /\ holds r a = true /\ block_ok u r.
Proof.
  intros (Hin & r & Hr & Hh)%find_block_Some.
  destruct (block_exists id Hin) as (r' & Hr' & Hok). simplify_eq. eauto 10.
Qed.

Lemma check_mem_loop_ok fuel a size count :
  0 <= a < 2 ^ 64 -> 0 <= count <= size -> size < 2 ^ 64 ->
  (rounds a (size - count) <= fuel)%nat ->
  exists b, check_mem_loop fuel a size count u = Some (b, u) /\
    (b = true <-> area_mapped a (size - count)).
Proof.
  revert a count. induction fuel as [|fuel IH]; intros a count Ha Hc Hs Hf.
  { pose proof (rounds_pos a (size - count)). lia. }
  cbn [check_mem_loop]. case_if.
  2:{ exists true. split; [done|]. split; [|done]. intros _ x Hx E.
      by rewrite in_area_nil in E by lia. }
  erewrite bind_run by (by apply memory_mapping_ok).
  destruct (find_block u a) as [id|] eqn:Ef.
  2:{ exists false. split; [done|]. split; [done|]. intros H.
      destruct (H a) as [id E]; [done|apply in_area_first; lia|congruence]. }
  apply find_block_region in Ef as (r & Hin & Hr & Hh & Hok).
  rewrite bind_get. erewrite bind_region by done.
  erewrite bind_lift by (by apply memory_region_len_ok).
  pose proof (rounds_step fuel a (size - count) id r Ha ltac:(lia) Hin Hr Hh Hf) as Hf'.
  pose proof (area_mapped_step a (size - count) id r Ha ltac:(lia) Hin Hr Hh) as Hm.
  cbn zeta in Hf', Hm. apply holds_spec in Hh.
  set (len := Z.min (size - count) (r_addr r + r_size r - a)) in *.
  replace (size - count - len) with (size - (count + len)) in * by lia.
  destruct (IH (u64 (a + len)) (count + len)) as (b & E & Hb);
    [apply (wrap_range 64); lia|lia|lia|done|]. exists b. split; [done|tauto].
Qed.

Lemma check_mem_area_ok a size :
  0 <= a < 2 ^ 64 -> 0 <= size < 2 ^ 64 ->
  exists b, check_mem_area a size u = Some (b, u) /\ (b = true <-> area_mapped a size).
Proof.
  intros Ha Hs. unfold check_mem_area. rewrite bind_get.
  pose proof (check_mem_loop_ok (area_fuel u) a size 0 Ha ltac:(lia) ltac:(lia)) as H.
  rewrite Z.sub_0_r in H. apply H, rounds_fuel.
Qed.

(** ** The binary search *)

Lemma block_last r : block_ok u r -> u64 (r_end r - 1) = r_addr r + r_size r - 1.
Proof.
  intros []. rewrite bo_end0, wrap_sub_l. apply wrap_id. unfold uint. lia.
Qed.

Lemma mapped_block_ok i :
  0 <= i < mapped_block_count u ->
  exists id r, mapped_blocks u !! Z.to_nat i = Some id /\ regions u !! id = Some r /\
    block_ok u r /\ mapped_block u i = Some r.
Proof.
  intros Hi. unfold mapped_block_count in Hi.
  destruct (lookup_lt_is_Some_2 (mapped_blocks u) (Z.to_nat i)) as [id Hid]; [lia|].
  destruct (block_exists id) as (r & Hr & Hok); [by eapply list_elem_of_lookup_2|].
  exists id, r. split_and!; [done..|]. unfold mapped_block. by rewrite Hid, <- Hr.
Qed.

(** Position [i] is between the blocks that end before [a] and the others. *)
Definition place (a i : Z) : Prop :=
  0 <= i <= mapped_block_count u /\
  forall j r, 0 <= j -> mapped_block u j = Some r ->
    (j < i <-> r_addr r + r_size r - 1 < a).

Lemma mapped_before i j ri rj :
  0 <= i -> mapped_block u i = Some ri -> mapped_block u j = Some rj -> i < j ->
  r_addr ri + r_size ri <= r_addr rj.
Proof.
  unfold mapped_block. intros Hi Ei Ej Hij.
  destruct (mapped_blocks u !! Z.to_nat i) as [x|] eqn:Ex; [|done].
  destruct (mapped_blocks u !! Z.to_nat j) as [y|] eqn:Ey; [|done].
  by apply (blocks_before (Z.to_nat i) (Z.to_nat j) x y); [lia|..].
Qed.

Lemma mapped_block_lt j r : 0 <= j -> mapped_block u j = Some r -> j < mapped_block_count u.
Proof.
  unfold mapped_block. intros Hj E.
  destruct (mapped_blocks u !! Z.to_nat j) as [x|] eqn:Ex; [|done].
  apply lookup_lt_Some in Ex. unfold mapped_block_count. lia.
Qed.

Lemma mapped_block_size j r : 0 <= j -> mapped_block u j = Some r -> block_ok u r.
Proof.
  intros Hj E. pose proof (mapped_block_lt j r Hj E).
  destruct (mapped_block_ok j) as (id & r' & _ & _ & Hok & E'); [lia|]. by simplify_eq.
Qed.

Lemma bsearch_loop_ok fuel a left right :
  0 <= left <= right -> right <= mapped_block_count u -> right - left < Z.of_nat fuel ->
  (forall j r, 0 <= j < left -> mapped_block u j = Some r -> r_addr r + r_size r - 1 < a) ->
  (forall j r, right <= j -> mapped_block u j = Some r -> a < r_addr r) ->
  exists i, bsearch_loop fuel u a left right = Some i /\ place a i.
Proof.
  revert left right. induction fuel as [|fuel IH]; intros left right Hl Hr Hf Hlo Hhi; [lia|].
  cbn [bsearch_loop]. case_if.
  2:{ exists left. split; [done|]. split; [lia|]. intros j r Hj E. split.
      - intros ?. by apply (Hlo j r).
      - intros ?. destruct (Z.lt_ge_cases j left) as [|Hge]; [done|].
        specialize (Hhi j r ltac:(lia) E). pose proof (bo_size _ _ (mapped_block_size j r Hj E)).
        lia. }
  pose proof (Z.div_pos (right - left) 2 ltac:(lia) ltac:(lia)).
  pose proof (Z.div_lt_upper_bound (right - left) 2 (right - left) ltac:(lia) ltac:(lia)).
  set (mid := left + (right - left) / 2) in *. cbn zeta.
  destruct (mapped_block_ok mid) as (id & r & _ & _ & Hok & E); [lia|].
  rewrite E. cbn [mbind option_bind]. rewrite block_last by done.
  pose proof (bo_size _ _ Hok). rewrite Z.gtb_ltb. case_if; [|case_if].
  - apply IH; [lia|lia|lia| |done]. intros j rj Hj Ej.
    destruct (Z.lt_ge_cases j mid).
    + pose proof (mapped_before j mid rj r ltac:(lia) Ej E ltac:(lia)). lia.
    + assert (j = mid) as -> by lia. simplify_eq. lia.
  - apply IH; [lia|lia|lia|done|]. intros j rj Hj Ej.
    destruct (decide (j = mid)) as [-> |]; [simplify_eq; lia|].
    pose proof (mapped_before mid j r rj ltac:(lia) E Ej ltac:(lia)). lia.
  - exists mid. split; [done|]. split; [lia|]. intros j rj Hj Ej. split.
    + intros ?. pose proof (mapped_before j mid rj r Hj Ej E ltac:(lia)). lia.
    + intros ?. destruct (Z.lt_ge_cases j mid); [done|].
      destruct (decide (j = mid)) as [-> |]; [simplify_eq; lia|].
      pose proof (mapped_before mid j r rj ltac:(lia) E Ej ltac:(lia)).
      pose proof (bo_size _ _ (mapped_block_size j rj Hj Ej)). lia.
Qed.

Lemma bsearch_mapped_blocks_ok a :
  exists i, bsearch_mapped_blocks u a = Some i /\ place a i.
Proof.
  unfold bsearch_mapped_blocks. apply bsearch_loop_ok; unfold mapped_block_count; try lia.
  intros j r Hj E. pose proof (mapped_block_lt j r ltac:(lia) E) as H.
  unfold mapped_block_count in H. lia.
Qed.

Lemma mapped_block_index id r :
  id ∈ mapped_blocks u -> regions u !! id = Some r ->
  exists j, 0 <= j /\ mapped_block u j = Some r.
Proof.
  intros [j Hj]%list_elem_of_lookup Hr. exists (Z.of_nat j). split; [lia|].
  unfold mapped_block. by rewrite Nat2Z.id, Hj, <- Hr.
Qed.

Lemma mapped_block_inv j r :
  mapped_block u j = Some r -> exists id, id ∈ mapped_blocks u /\ regions u !! id = Some r.
Proof.
  unfold mapped_block. destruct (mapped_blocks u !! Z.to_nat j) as [id|] eqn:E; [|done].
  intros Hr. exists id. split; [by eapply list_elem_of_lookup_2|done].
Qed.

(** A range overlaps iff one of its addresses is mapped. *)
Lemma memory_overlap_ok begin size :
  0 <= begin -> 0 < size -> begin + size <= 2 ^ 64 ->
  exists b, memory_overlap u begin size = Some b /\
    (b = true <-> exists x, begin <= x < begin + size /\ is_Some (find_block u x)).
Proof.
  intros Hb Hs Hf. unfold memory_overlap. rewrite wrap_id by (unfold uint; lia).
  destruct (bsearch_mapped_blocks_ok begin) as (i & -> & Hi & Hp). cbn [mbind option_bind].
  rewrite Z.geb_leb. case_if.
  - exists false. split; [done|]. split; [done|]. intros (x & Hx & id & E). exfalso.
    apply find_block_region in E as (r & Hin & Hr & Hh%holds_spec & Hok).
    destruct (mapped_block_index id r Hin Hr) as (j & Hj & Ej).
    pose proof (mapped_block_lt j r Hj Ej). pose proof (proj1 (Hp j r Hj Ej)). lia.
  - destruct (mapped_block_ok i) as (id & r & Hi' & Hr & Hok & ->); [lia|].
    cbn [mbind option_bind]. eexists. split; [done|]. rewrite Z.geb_leb, Z.leb_le.
    assert (mapped_block u i = Some r) as Ei.
    { unfold mapped_block. by rewrite Hi'. }
    pose proof (Hp i r ltac:(lia) Ei) as Hpi. pose proof (bo_size _ _ Hok). split.
    + intros Hle. exists (Z.max begin (r_addr r)). split; [lia|]. exists id.
      apply find_block_Some. split; [by eapply list_elem_of_lookup_2|]. exists r.
      split; [done|]. apply holds_spec. lia.
    + intros (x & Hx & id' & E).
      apply find_block_region in E as (r' & Hin & Hr' & Hh%holds_spec & Hok').
      destruct (mapped_block_index id' r' Hin Hr') as (j & Hj & Ej).
      pose proof (Hp j r' Hj Ej). destruct (decide (i = j)) as [<- |].
      { simplify_eq. lia. }
      pose proof (mapped_before i j r r' ltac:(lia) Ei Ej ltac:(lia)). lia.
Qed.
End Wf.
