(* ===== verification/MemCommit.v ===== *)
(** * Committing a change of the memory map

    [memory_region_transaction_commit] builds the flat view and its dispatch
    structure anew.  For the regions of the memory API, page-aligned leaves of
    the system memory, the ranges of the view are exactly the blocks; every
    range takes one section number besides the one of unassigned memory, so that
    the commit succeeds exactly when there are fewer blocks than bytes in a
    page. *)

From S2P Require Import Prelude UcTypes FlatView PhysMap Dispatch Regions UcMem MemInv.

(** A range of a view is the block [id], from its first to its last byte. *)
Definition range_of (rs : gmap Z region) (fr : FlatRange) (id : Z) : Prop :=
  fr_mr fr = id /\ exists r, rs !! id = Some r /\
    ar_start (fr_addr fr) = r_addr r /\ ar_size (fr_addr fr) = r_size r.

(** What a list of blocks answers at an address. *)
Definition blocks_serve (rs : gmap Z region) (l : list Z) (a : Z) : option serves :=
  id ← first_some (block_at rs a) l; r ← rs !! id; Some (id, a - r_addr r, r_readonly r).

Section Ranges.
Context (rs : gmap Z region).

(** A block of the list, not empty. *)
Definition sized (id : Z) : Prop := exists r, rs !! id = Some r /\ 0 < r_size r.

Lemma blocks_serve_at l a id off ro :
  blocks_serve rs l a = Some (id, off, ro) ->
  id ∈ l /\ exists r, rs !! id = Some r /\ holds r a = true /\ off = a - r_addr r /\
    ro = r_readonly r.
Proof.
  unfold blocks_serve. intros (x & E & H)%bind_Some. apply bind_Some in H as (r & Hr & [= -> <- <-]).
  apply first_some_inv in E as (y & Hy & (-> & r' & Hr' & Hh)%block_at_Some). simplify_eq. eauto 10.
Qed.

Lemma blocks_serve_first id r l a :
  rs !! id = Some r -> holds r a = true ->
  blocks_serve rs (id :: l) a = Some (id, a - r_addr r, r_readonly r).
Proof.
  intros Hr Hh. unfold blocks_serve. cbn [first_some].
  assert (block_at rs a id = Some id) as -> by (apply block_at_Some; eauto).
  cbn [or_else mbind option_bind]. by rewrite Hr.
Qed.

Lemma blocks_serve_rest id r l a :
  rs !! id = Some r -> holds r a = false -> blocks_serve rs (id :: l) a = blocks_serve rs l a.
Proof.
  intros Hr Hh. unfold blocks_serve, block_at. cbn [first_some]. rewrite Hr. cbn [mbind option_bind].
  by rewrite Hh.
Qed.

(** Neighbours that could be one range. *)
Definition separate (frs : list FlatRange) : Prop :=
  forall i r1 r2, frs !! i = Some r1 -> frs !! S i = Some r2 -> can_merge r1 r2 = false.

Lemma view_lookup_first fr frs a :
  ar_start (fr_addr fr) <= a < addrrange_end (fr_addr fr) ->
  view_lookup (fr :: frs) a = Some (serve fr a).
Proof. intros H. cbn [view_lookup]. by rewrite (proj2 (contains_spec _ _)). Qed.

Lemma sorted_at_start fr frs lo : sorted_from lo (fr :: frs) -> sorted_from (ar_start (fr_addr fr)) (fr :: frs).
Proof. cbn [sorted_from]. intuition lia. Qed.

(** The first range and the first block start at the same address. *)
Lemma first_starts lo fr frs x rx l :
  sorted_from lo (fr :: frs) -> StronglySorted (before rs) (x :: l) -> Forall sized (x :: l) ->
  rs !! x = Some rx -> lo <= r_addr rx ->
  (forall a, lo <= a -> view_lookup (fr :: frs) a = blocks_serve rs (x :: l) a) ->
  ar_start (fr_addr fr) = r_addr rx.
Proof.
  intros Hs Hso Hsz Hx Hlo Heq. pose proof Hs as (Hlo' & Hpos & _).
  apply Forall_cons in Hsz as [(r' & Hr' & Hsz) _]. assert (r' = rx) as -> by congruence.
  apply Z.le_antisymm.
  - apply Z.le_ngt. intros Hlt. specialize (Heq (r_addr rx) Hlo).
    rewrite (lookup_below (ar_start (fr_addr fr))), (blocks_serve_first x rx) in Heq;
      [done|done|apply holds_spec; lia|by eapply sorted_at_start|done].
  - apply Z.le_ngt. intros Hlt. specialize (Heq (ar_start (fr_addr fr)) Hlo').
    rewrite view_lookup_first in Heq by (unfold addrrange_end; lia).
    symmetry in Heq. apply blocks_serve_at in Heq as (Hin & r & Hr & Hh%holds_spec & _).
    apply elem_of_cons in Hin as [E|Hin]; [rewrite E in Hr; simplify_eq; lia|].
    inversion_clear Hso as [|? ? _ HF]. rewrite Forall_forall in HF.
    pose proof (HF _ Hin rx r Hx Hr). lia.
Qed.

(** ... and end at the same address. *)
Lemma first_ends fr frs x rx l :
  sorted_from (r_addr rx) (fr :: frs) -> separate (fr :: frs) -> rs !! x = Some rx ->
  0 < r_size rx -> ar_start (fr_addr fr) = r_addr rx ->
  (forall a, r_addr rx <= a -> view_lookup (fr :: frs) a = blocks_serve rs (x :: l) a) ->
  fr_mr fr = x /\ ar_size (fr_addr fr) = r_size rx.
Proof.
  intros Hs Hm Hx Hsz Hst Heq. pose proof Hs as (_ & Hpos & Hs').
  assert (forall a, r_addr rx <= a < r_addr rx + r_size rx ->
    view_lookup (fr :: frs) a = Some (x, a - r_addr rx, r_readonly rx)) as Hin.
  { intros a Ha. rewrite Heq by lia. apply blocks_serve_first; [done|]. by apply holds_spec. }
  pose proof (Hin (r_addr rx) ltac:(lia)) as H0.
  rewrite view_lookup_first in H0 by (unfold addrrange_end; lia). injection H0 as Emr Eoff Ero.
  split; [done|]. apply Z.le_antisymm; apply Z.le_ngt; intros Hlt.
  - specialize (Heq (r_addr rx + r_size rx) ltac:(lia)).
    rewrite view_lookup_first in Heq by (unfold addrrange_end; lia).
    symmetry in Heq. apply blocks_serve_at in Heq as (_ & r & Hr & Hh%holds_spec & _).
    rewrite Emr in Hr. simplify_eq. lia.
  - pose proof (Hin (addrrange_end (fr_addr fr))) as He. unfold addrrange_end in He at 1 2.
    specialize (He ltac:(lia)). cbn [view_lookup] in He.
    rewrite (proj2 (contains_false _ _)) in He by lia.
    destruct frs as [|fr2 frs]; [done|]. pose proof Hs' as (Hlo2 & Hpos2 & _).
    destruct (Z.lt_ge_cases (addrrange_end (fr_addr fr)) (ar_start (fr_addr fr2))).
    { by rewrite (lookup_below (ar_start (fr_addr fr2))) in He; [|eapply sorted_at_start|]. }
    rewrite view_lookup_first in He by (unfold addrrange_end in *; lia). injection He as Emr2 Eoff2 Ero2.
    assert (can_merge fr fr2 = true); [|by rewrite (Hm 0%nat fr fr2) in *].
    apply can_merge_spec. unfold addrrange_end in *. split_and!; try congruence; lia.
Qed.

Lemma ranges_are_blocks lo frs l :
  sorted_from lo frs -> separate frs -> StronglySorted (before rs) l -> Forall sized l ->
  (forall id r, id ∈ l -> rs !! id = Some r -> lo <= r_addr r) ->
  (forall a, lo <= a -> view_lookup frs a = blocks_serve rs l a) ->
  Forall2 (range_of rs) frs l.
Proof.
  revert lo l. induction frs as [|fr frs IH]; intros lo l Hs Hm Hso Hsz Hlo Heq.
  - destruct l as [|x l]; [done|]. exfalso. apply Forall_cons in Hsz as [(r & Hr & Hsz) _].
    specialize (Heq (r_addr r) (Hlo x r ltac:(left) Hr)).
    rewrite (blocks_serve_first x r) in Heq; [done|done|apply holds_spec; lia].
  - pose proof Hs as (Hlo' & Hpos & Hs'). destruct l as [|x l].
    { specialize (Heq _ Hlo'). rewrite view_lookup_first in Heq; [done|unfold addrrange_end; lia]. }
    pose proof Hsz as [(rx & Hx & Hszx) Hsz']%Forall_cons.
    pose proof (Hlo x rx ltac:(left) Hx) as Hlx.
    pose proof (first_starts lo fr frs x rx l Hs Hso Hsz Hx Hlx Heq) as Est.
    destruct (first_ends fr frs x rx l) as [Emr Esz]; try done.
    { rewrite <- Est. by eapply sorted_at_start. }
    { intros a Ha. apply Heq. lia. }
    constructor; [split; [done|]; by exists rx|].
    inversion_clear Hso as [|? ? Hso' HF]. rewrite Forall_forall in HF.
    apply (IH (addrrange_end (fr_addr fr))); [done| |done|done|..].
    + intros i r1 r2 H1 H2. by apply (Hm (S i) r1 r2).
    + intros id r Hid Hr. pose proof (HF id Hid rx r Hx Hr). unfold addrrange_end. lia.
    + intros a Ha. unfold addrrange_end in Ha. specialize (Heq a ltac:(lia)).
      cbn [view_lookup] in Heq. rewrite (proj2 (contains_false _ _)) in Heq
        by (unfold addrrange_end; lia).
      rewrite Heq. apply (blocks_serve_rest x rx); [done|]. apply not_true_is_false.
      rewrite holds_spec. lia.
Qed.
End Ranges.

(** ** The commit *)

(** The blocks that the tables of sections have room for. *)
Definition room (u : uc_struct) (n : nat) : Prop := 1 + Z.of_nat n <= target_page_size u.

#[export] Instance room_dec u n : Decision (room u n).
Proof. unfold room. apply _. Defined.

Section Commit.
Context (u : uc_struct) (Hlay : layout u).

Lemma view_ranges :
  exists view, current_map u = Some view /\ sorted_from 0 (ranges view) /\
    view_fits (ranges view) /\ Forall2 (range_of (regions u)) (ranges view) (mapped_blocks u).
Proof.
  destruct (current_map_ok u Hlay) as (view & Hv & Hs & Hf & Hm & Hl).
  exists view. split_and!; [done..|]. apply (ranges_are_blocks _ 0); [done|done|apply Hlay|..].
  - apply Forall_forall. intros id (r & Hr & Hok)%(block_exists u Hlay). exists r.
    split; [done|apply Hok].
  - intros id r (r' & Hr' & Hok)%(block_exists u Hlay) Hr. simplify_eq. apply Hok.
  - intros a Ha. rewrite Hl, (proj2 (Z.leb_le 0 a)) by done. cbn [andb].
    change (served u a) with (blocks_serve (regions u) (mapped_blocks u) a). case_if; [done|].
    destruct (blocks_serve _ _ a) as [[[id off] ro]|] eqn:E; [|done]. exfalso.
    apply blocks_serve_at in E as (Hin & r & Hr & Hh%holds_spec & _).
    destruct (block_exists u Hlay id Hin) as (r' & Hr' & Hok). simplify_eq.
    pose proof (bo_fits _ _ Hok). lia.
Qed.

Lemma engine_page :
  1 <= TARGET_PAGE_BITS (engine_target u) <= 16 /\
  2 ^ TARGET_PAGE_BITS (engine_target u) = target_page_size u.
Proof.
  destruct (wf_page _ Hlay) as (k & Hk & E). cbn [engine_target TARGET_PAGE_BITS].
  rewrite E, Z.log2_pow2 by lia. done.
Qed.

(** A range of pages takes one section. *)
Lemma block_sections fr id :
  range_of (regions u) fr id -> id ∈ mapped_blocks u ->
  sections_needed (engine_target u) (ar_start (fr_addr fr)) (ar_size (fr_addr fr)) = 1 /\
  mask_ok (engine_target u) (ar_start (fr_addr fr)) (ar_size (fr_addr fr)).
Proof.
  intros (_ & r & Hr & Ea & Es) Hin. destruct (block_exists u Hlay id Hin) as (r' & Hr' & Hok).
  assert (r' = r) as -> by congruence. destruct engine_page as [_ Eps].
  unfold sections_needed, mask_ok. rewrite Ea, Es, Eps. pose proof (bo_align _ _ Hok) as Hal.
  pose proof (bo_pages _ _ Hok) as Hpg. destruct (wf_page _ Hlay) as (k & Hk & E).
  assert (target_page_size u <> 0) as Hnz by lia.
  rewrite (proj2 (Z.mod_divide _ _ Hnz) Hal), (proj2 (Z.mod_divide _ _ Hnz) Hpg).
  rewrite (proj2 (Z.mod_divide (r_addr r + r_size r) _ Hnz)) by by apply Z.divide_add_r.
  split; [done|by right].
Qed.

Lemma blocks_sections frs l :
  Forall2 (range_of (regions u)) frs l -> (forall x, x ∈ l -> x ∈ mapped_blocks u) ->
  total_needed (engine_target u) frs = Z.of_nat (length l) /\
  Forall (fun r => mask_ok (engine_target u) (ar_start (fr_addr r)) (ar_size (fr_addr r))) frs.
Proof.
  induction 1 as [|fr id frs l Hfr _ IH]; intros Hl; [done|].
  destruct IH as [Et Hm]; [intros; apply Hl; by right|].
  destruct (block_sections fr id Hfr) as [E1 Hm1]; [apply Hl; left|]. split; [|by constructor].
  cbn [total_needed foldr length]. fold (total_needed (engine_target u) frs). rewrite E1, Et. lia.
Qed.

(** The commit changes nothing that is visible, and fails when there is no
    section number left. *)
Lemma commit_layout :
  memory_region_transaction_commit u =
  if decide (room u (length (mapped_blocks u))) then Some (tt, u) else None.
Proof.
  destruct view_ranges as (view & Hv & Hs & Hf & HF). destruct engine_page as [Hb Eps].
  destruct (blocks_sections _ _ HF (fun _ H => H)) as [Et Hm].
  unfold memory_region_transaction_commit, mbind, M_bind, get, lift, mret, M_ret. rewrite Hv.
  unfold room. case_decide as Hroom.
  - destruct (generate_dispatch_ok (engine_target u) Hb (wf_long _ Hlay) (snapshot_level u)
      alloc_hint view) as (d & -> & _); [done|done| | |done].
    + apply Forall_lookup. intros i r Hr. destruct (Hf i r Hr) as (? & ? & ? & ?).
      rewrite Forall_lookup in Hm. split_and!; try done. by eapply Hm.
    + rewrite Et, Eps. lia.
  - destruct (generate_dispatch _ _ _ _) as [d|] eqn:E; [|done]. exfalso. apply Hroom.
    apply dispatch_section_limit in E; [|done]. rewrite page_size, Eps in E by done.
    unfold nr in E. apply Forall2_length in HF. lia.
Qed.
End Commit.

(** The commit between two entries of the array of blocks. *)
Lemma commit_run u l :
  layout (with_mapped l u) ->
  memory_region_transaction_commit u = if decide (room u (length l)) then Some (tt, u) else None.
Proof.
  intros Hlay. pose proof (commit_layout _ Hlay) as H.
  unfold memory_region_transaction_commit, mbind, M_bind, get, lift, mret, M_ret in *.
  change (current_map (with_mapped l u)) with (current_map u) in H.
  change (engine_target (with_mapped l u)) with (engine_target u) in H.
  change (snapshot_level (with_mapped l u)) with (snapshot_level u) in H.
  change (mapped_blocks (with_mapped l u)) with l in H.
  change (room (with_mapped l u)) with (room u) in H.
  destruct (current_map u); [|by destruct (decide (room u (length l)))].
  destruct (generate_dispatch _ _ _ _); by destruct (decide (room u (length l))).
Qed.
