(* ===== verification/MemMap.v ===== *)
(** * Mapping memory: [mem_map_check], [uc_mem_map], [uc_mem_map_ptr],
    [uc_mmio_map]

    What the three functions do to the memory map on every branch, in terms of
    the cell found at each address. *)

From S2P Require Import Prelude UcTypes FlatView Regions UcMem MemInv MemCommit.

(** ** What a program sees of the memory map *)

(** RAM has permissions and a byte; an MMIO cell has permissions, callbacks and
    the offset handed to them. *)
Inductive cell :=
| Ram (perms byte : Z)
| Mmio (perms : Z) (cbs : mmio_cbs) (offset : Z).

Definition cell_of (h : Z -> Z) (r : region) (x : Z) : option cell :=
  if r_ram r
  then b ← r_ram_block r; Some (Ram (r_perms r) (h (host b + (x - r_addr r))))
  else cbs ← r_opaque r; Some (Mmio (r_perms r) cbs (x - r_addr r)).

Definition cell_at (u : uc_struct) (x : Z) : option cell :=
  id ← find_block u x; r ← regions u !! id; cell_of (hostmem u) r x.

(** ** Arguments *)

(** The arguments [mem_map_check] accepts. *)
Definition map_args_ok (u : uc_struct) (address size perms : Z) : Prop :=
  0 < size /\ address + size <= 2 ^ 64 /\
  (target_page_size u | address) /\ (target_page_size u | size) /\ perms <= UC_PROT_ALL.

Definition unmapped (u : uc_struct) (address size : Z) : Prop :=
  forall x, address <= x < address + size -> find_block u x = None.

Lemma page_aligned u a :
  wf u -> (Z.land a (target_page_align u) =? 0) = true <-> (target_page_size u | a).
Proof.
  intros Hwf. destruct (wf_page _ Hwf) as (k & Hk & E). unfold target_page_align.
  replace (target_page_size u - 1) with (Z.ones k) by (rewrite Z.ones_equiv; lia).
  rewrite Z.land_ones, E, Z.eqb_eq by lia. apply Z.mod_divide. lia.
Qed.

Lemma perms_ok perms :
  uint 32 perms ->
  (Z.land perms (u32 (Z.lnot UC_PROT_ALL)) =? 0) = true <-> perms <= UC_PROT_ALL.
Proof.
  intros Hp. unfold wrap. rewrite <- Z.land_ones, Z.land_assoc, (Z.land_comm perms),
    <- Z.land_assoc, Z.land_ones, Z.mod_small, Z.land_comm, <- Z.ldiff_land by done.
  change UC_PROT_ALL with (Z.ones 3). rewrite Z.ldiff_ones_r by lia. change (Z.ones 3) with 7.
  rewrite Z.shiftl_mul_pow2, Z.shiftr_div_pow2, Z.eqb_eq by lia. change (2 ^ 3) with 8.
  unfold uint in Hp. pose proof (Z.div_mod perms 8 ltac:(lia)).
  pose proof (Z.mod_pos_bound perms 8 ltac:(lia)). lia.
Qed.

(** The check accepts exactly the valid and free ranges, and tells an invalid
    argument from an overlap. *)
Lemma mem_map_check_ok u address size perms :
  wf u -> uint 64 address -> uint 64 size -> uint 32 perms ->
  exists err, mem_map_check u address size perms = Some err /\
    match err with
    | UC_ERR_OK => map_args_ok u address size perms /\ unmapped u address size
    | UC_ERR_MAP => map_args_ok u address size perms /\ ~ unmapped u address size
    | UC_ERR_ARG => ~ map_args_ok u address size perms
    | _ => False
    end.
Proof.
  intros Hwf Ha Hs Hp. unfold mem_map_check, map_args_ok. unfold uint in Ha, Hs.
  case_if; [eexists; split; [done|]; intros [? _]; lia|].
  case_if.
  { eexists. split; [done|]. intros (_ & Hle & _).
    rewrite wrap_id in * by (unfold uint; lia). lia. }
  destruct (Z.land address (target_page_align u) =? 0) eqn:E1; cbn [negb].
  2:{ eexists. split; [done|]. intros (_ & _ & H & _). apply page_aligned in H; congruence. }
  destruct (Z.land size (target_page_align u) =? 0) eqn:E2; cbn [negb].
  2:{ eexists. split; [done|]. intros (_ & _ & _ & H & _). apply page_aligned in H; congruence. }
  destruct (Z.land perms (u32 (Z.lnot UC_PROT_ALL)) =? 0) eqn:E3; cbn [negb].
  2:{ eexists. split; [done|]. intros (_ & _ & _ & _ & H). apply perms_ok in H; congruence. }
  apply page_aligned in E1, E2; [|done..]. apply perms_ok in E3; [|done].
  assert (address + size <= 2 ^ 64) as Hfit.
  { destruct (Z.le_gt_cases (address + size) (2 ^ 64)) as [|Hgt]; [done|].
    exfalso. revert select (address <= _). unfold wrap.
    rewrite <- (Z_mod_plus_full _ (-1)), Z.mod_small by lia. lia. }
  destruct (memory_overlap_ok u Hwf address size) as (b & -> & Hb); [lia..|].
  cbn [mbind option_bind]. eexists. split; [done|]. unfold unmapped. destruct b.
  - split; [split_and!; [lia|done..]|]. intros H. destruct (proj1 Hb eq_refl) as (x & Hx & id & E).
    rewrite (H x Hx) in E. done.
  - split; [split_and!; [lia|done..]|]. intros x Hx. destruct (find_block u x) eqn:E; [|done].
    assert (false = true) by (apply Hb; eauto). done.
Qed.

(** ** Adding a block *)

(** A new region placed in the system memory. *)
Definition placed (sys begin prio : Z) (r : region) : region :=
  r_with_addr begin (u64 (begin + r_size r))
    (r_with_container (Some sys) (r_with_priority prio r)).

Lemma insert_by_priority_ok rs id prio subs :
  (forall x, x ∈ subs -> is_Some (rs !! x)) ->
  exists l, insert_by_priority rs id prio subs = Some l /\ Permutation l (id :: subs).
Proof.
  induction subs as [|x subs IH]; intros H; [by exists [id]|]. cbn [insert_by_priority].
  destruct (H x) as [r ->]; [left|]. cbn [mbind option_bind]. case_if; [by eexists|].
  destruct IH as (l & -> & Hp); [intros; apply H; by right|]. cbn [mbind option_bind].
  eexists. split; [done|]. rewrite Hp. apply perm_swap.
Qed.

Lemma set_region_run id r u :
  set_region id r u = Some (tt, with_regions <[id := r]> u).
Proof. done. Qed.

Lemma upd_region_run id f u r :
  regions u !! id = Some r -> upd_region id f u = Some (tt, with_regions <[id := f r]> u).
Proof. intros H. unfold upd_region. by erewrite bind_region by done. Qed.

Lemma with_regions_comp f g u :
  with_regions f (with_regions g u) = with_regions (fun rs => f (g rs)) u.
Proof. done. Qed.

Lemma add_subregion_run u sys begin id prio r s l :
  regions u !! id = Some r -> regions u !! sys = Some s -> id <> sys ->
  r_container r = None -> 0 <= r_size r < 2 ^ 64 ->
  insert_by_priority (<[id := placed sys begin prio r]> (regions u)) id prio (r_subregions s)
    = Some l ->
  memory_region_add_subregion_overlap sys begin id prio u =
  memory_region_transaction_commit (with_regions (fun rs => <[sys := r_with_subregions l s]>
                                     (<[id := placed sys begin prio r]> rs)) u).
Proof.
  intros Hr Hs Hne Hc Hsz Hl. unfold memory_region_add_subregion_overlap.
  erewrite bind_run by (by apply upd_region_run).
  unfold memory_region_add_subregion_common.
  erewrite bind_region by (apply lookup_insert_eq).
  erewrite bind_run.
  2:{ cbn [r_container r_with_priority]. rewrite Hc. done. }
  erewrite bind_lift by (apply get64_Some; done).
  erewrite bind_run by (apply upd_region_run, lookup_insert_eq).
  unfold memory_region_update_container_subregions. rewrite with_regions_comp.
  erewrite bind_region.
  2:{ cbn [regions with_regions]. rewrite insert_insert_eq. apply lookup_insert_eq. }
  erewrite bind_lift by done. rewrite bind_get.
  erewrite bind_region.
  2:{ cbn [regions with_regions]. rewrite !lookup_insert_ne by done. exact Hs. }
  erewrite bind_lift.
  2:{ cbn [regions with_regions]. rewrite insert_insert_eq. exact Hl. }
  erewrite bind_run.
  2:{ apply upd_region_run. cbn [regions with_regions]. rewrite !lookup_insert_ne by done. exact Hs. }
  f_equal. unfold with_regions. cbn. by rewrite insert_insert_eq.
Qed.

(** What the operations on blocks leave alone. *)
Record same_config (u u' : uc_struct) : Prop := {
  sc_sys : system_memory u' = system_memory u;
  sc_level : snapshot_level u' = snapshot_level u;
  sc_page : target_page_size u' = target_page_size u;
  sc_long : target_long_bits u' = target_long_bits u;
  sc_host_page : host_page_size u' = host_page_size u
}.

(** Flags that tell the CPU to stop, and what they depend on. *)
Definition same_flags (u u' : uc_struct) : Prop :=
  pc u' = pc u /\ emulation_done u' = emulation_done u /\
  quit_request u' = quit_request u /\ stop_request u' = stop_request u /\ cpu u' = cpu u.

#[export] Instance same_flags_trans : Transitive same_flags.
Proof. intros u v w (? & ? & ? & ? & ?) (? & ? & ? & ? & ?). split_and!; congruence. Qed.

Lemma block_ok_config u u' r : same_config u u' -> block_ok u r -> block_ok u' r.
Proof.
  intros [] []. constructor; try done; by rewrite ?sc_sys0, ?sc_page0.
Qed.

Section Add.
Context (u u' : uc_struct) (r : region) (subs l : list Z) (pos : Z).
Let id := next_region u.
Context (Hwf : wf u) (Hok : block_ok u r).
Context (Hs : regions u !! system_memory u =
              Some (r_with_subregions subs (memory_region_init UINT64_MAX))).
Context (Hsubs : Permutation subs (mapped_blocks u)) (Hl : Permutation l (id :: subs)).
Context (Hfree : forall x, holds r x = true -> find_block u x = None).
Context (Hpos : place u (r_addr r) pos).
Context (Hregions : regions u' = <[system_memory u := r_with_subregions l
                       (memory_region_init UINT64_MAX)]> (<[id := r]> (regions u))).
Context (Hmapped : mapped_blocks u' = take (Z.to_nat pos) (mapped_blocks u) ++
                     id :: drop (Z.to_nat pos) (mapped_blocks u)).
Context (Hnext : next_region u' = id + 1) (Hsame : same_config u u').

Lemma add_fresh : regions u !! id = None.
Proof.
  destruct (regions u !! id) as [r'|] eqn:E; [|done].
  apply (wf_dom _ Hwf) in E as [? _]. unfold id in *. lia.
Qed.

Lemma add_id_sys : id <> system_memory u.
Proof. intros E. pose proof add_fresh as H. rewrite E, Hs in H. done. Qed.

Lemma add_id_block x : x ∈ mapped_blocks u -> x <> id /\ x <> system_memory u.
Proof.
  intros Hx. split; intros ->.
  - destruct (block_exists u Hwf _ Hx) as (r' & E & _). rewrite add_fresh in E. done.
  - by apply (sys_not_block u Hwf).
Qed.

Lemma add_lookup x : x ∈ mapped_blocks u -> regions u' !! x = regions u !! x.
Proof.
  intros [? ?]%add_id_block. rewrite Hregions. by rewrite !lookup_insert_ne by done.
Qed.

Lemma add_lookup_new : regions u' !! id = Some r.
Proof.
  rewrite Hregions, lookup_insert_ne by (apply not_eq_sym, add_id_sys). apply lookup_insert_eq.
Qed.

Lemma add_mapped : Permutation (mapped_blocks u') (id :: mapped_blocks u).
Proof.
  rewrite Hmapped, <- Permutation_middle. by rewrite take_drop.
Qed.

Lemma add_order x rx :
  x ∈ mapped_blocks u -> regions u !! x = Some rx ->
  (x ∈ take (Z.to_nat pos) (mapped_blocks u) -> r_addr rx + r_size rx <= r_addr r) /\
  (x ∈ drop (Z.to_nat pos) (mapped_blocks u) -> r_addr r + r_size r <= r_addr rx).
Proof.
  intros Hx Hrx. destruct Hpos as [Hp Hplace]. pose proof (bo_size _ _ Hok). split.
  - intros [j Hj]%list_elem_of_lookup. apply lookup_take_Some in Hj as [Hj Hlt].
    assert (mapped_block u (Z.of_nat j) = Some rx) as Ej.
    { unfold mapped_block. by rewrite Nat2Z.id, Hj, <- Hrx. }
    pose proof (proj1 (Hplace (Z.of_nat j) rx ltac:(lia) Ej)). lia.
  - intros [j Hj]%list_elem_of_lookup. rewrite lookup_drop in Hj.
    assert (mapped_block u (Z.of_nat (Z.to_nat pos + j)) = Some rx) as Ej.
    { unfold mapped_block. by rewrite Nat2Z.id, Hj, <- Hrx. }
    pose proof (proj2 (Hplace (Z.of_nat (Z.to_nat pos + j)) rx ltac:(lia) Ej)) as Hge.
    destruct (Z.le_gt_cases (r_addr r + r_size r) (r_addr rx)); [done|]. exfalso.
    destruct (block_exists u Hwf x Hx) as (? & ? & Hokx). simplify_eq.
    pose proof (bo_size _ _ Hokx).
    assert (find_block u (Z.max (r_addr r) (r_addr rx)) = Some x) as E.
    { apply find_block_Some; [done|]. split; [done|]. exists rx. split; [done|].
      apply holds_spec. lia. }
    rewrite Hfree in E; [done|]. apply holds_spec. lia.
Qed.

Lemma add_sorted : StronglySorted (before (regions u')) (mapped_blocks u').
Proof.
  rewrite Hmapped.
  assert (StronglySorted (before (regions u')) (mapped_blocks u)) as Hold.
  { eapply StronglySorted_impl_in; [|apply (wf_sorted _ Hwf)]. intros x y Hx Hy H rx ry.
    rewrite !add_lookup by done. apply H. }
  rewrite <- (take_drop (Z.to_nat pos) (mapped_blocks u)) in Hold.
  apply StronglySorted_app in Hold as (Hb & H1 & H2).
  assert (forall x, x ∈ take (Z.to_nat pos) (mapped_blocks u) \/
                    x ∈ drop (Z.to_nat pos) (mapped_blocks u) -> x ∈ mapped_blocks u) as Hin.
  { intros x. rewrite <- elem_of_app, take_drop. done. }
  apply StronglySorted_app. split_and!; [|done|].
  - intros x y Hx. rewrite elem_of_cons. intros [-> | Hy]; [|by apply Hb].
    intros rx ry. rewrite add_lookup, add_lookup_new by auto. intros Hrx [= <-].
    destruct (add_order x rx) as [H _]; auto.
  - constructor; [done|]. rewrite Forall_forall. intros y Hy rx ry.
    rewrite add_lookup_new, add_lookup by auto. intros [= <-] Hry.
    destruct (add_order y ry) as [_ H]; auto.
Qed.

Lemma wf_add : wf u'.
Proof.
  pose proof Hsame as [Esys Elev Epage Elong Ehost]. constructor; [constructor|].
  - rewrite Elev. apply (wf_level _ Hwf).
  - rewrite Epage. apply (wf_page _ Hwf).
  - rewrite Elong. apply (wf_long _ Hwf).
  - rewrite Ehost. apply (wf_host_page _ Hwf).
  - exists l. rewrite Esys, Hregions, lookup_insert_eq. split; [done|].
    by rewrite Hl, add_mapped, Hsubs.
  - intros x. rewrite add_mapped, elem_of_cons. intros [-> | Hx].
    + exists r. rewrite add_lookup_new. split; [done|]. by apply (block_ok_config u).
    + destruct (block_exists u Hwf x Hx) as (rx & Hrx & Hokx). exists rx.
      rewrite add_lookup by done. split; [done|]. by apply (block_ok_config u).
  - apply add_sorted.
  - intros x rx. rewrite Hregions, Hnext, Esys, add_mapped, elem_of_cons.
    destruct (decide (x = system_memory u)) as [-> |Hne].
    { intros _. split; [|by left]. apply (wf_dom _ Hwf) in Hs. unfold id. lia. }
    rewrite lookup_insert_ne by done. destruct (decide (x = id)) as [-> |Hni].
    { intros _. split; [lia|auto]. }
    rewrite lookup_insert_ne by done. intros [? Hd]%(wf_dom _ Hwf).
    split; [unfold id; lia|]. destruct Hd; auto.
Qed.

Lemma find_block_add x : find_block u' x = if holds r x then Some id else find_block u x.
Proof.
  pose proof wf_add as Hwf'. destruct (holds r x) eqn:E.
  - apply find_block_Some; [done|]. split; [rewrite add_mapped; left|]. exists r.
    by rewrite add_lookup_new.
  - destruct (find_block u x) as [y|] eqn:Ef.
    + apply find_block_Some in Ef as (Hin & ry & Hry & Hh); [|done].
      apply find_block_Some; [done|]. split; [rewrite add_mapped; by right|]. exists ry.
      by rewrite add_lookup.
    + apply find_block_None; [done|]. intros y ry. rewrite add_mapped, elem_of_cons.
      intros [-> | Hy].
      * rewrite add_lookup_new. by intros [= <-].
      * rewrite add_lookup by done. intros Hry. by eapply (find_block_None u Hwf x).
Qed.
End Add.

(** ** Attaching a block and entering it in the array *)

(** The state after regions, blocks and flushes have changed. *)
Definition remapped (u : uc_struct) (rs : gmap Z region) (n : Z) (blocks : list Z)
    (fl : list flush_event) : uc_struct :=
  with_mapped blocks (with_flushes fl (with_next n (with_regions (fun _ => rs) u))).

(** The common part of [memory_map], [memory_map_ptr] and [memory_map_io]. *)
Definition attach (r : region) (begin : Z) (prio : uc_struct -> Z) : M (option Z) :=
  id ← g_new r;
  u ← get;
  _ ← memory_region_add_subregion_overlap (system_memory u) begin id (prio u);
  _ ← add_flush tlb_flush;
  mret (Some id).

Lemma add_flush_run e u :
  add_flush e u = Some (tt, with_flushes (flushes u ++ (if cpu u then [e] else [])) u).
Proof.
  unfold add_flush. rewrite bind_get. unfold when. destruct (cpu u); [done|].
  rewrite app_nil_r. by destruct u.
Qed.

Lemma bsearch_loop_ext u u' a fuel left right :
  (forall j, mapped_block u' j = mapped_block u j) ->
  bsearch_loop fuel u' a left right = bsearch_loop fuel u a left right.
Proof.
  intros H. revert left right. induction fuel as [|fuel IH]; intros left right; [done|].
  cbn [bsearch_loop]. rewrite H. case_if; [|done].
  destruct (mapped_block u _) as [r|]; cbn [mbind option_bind]; [|done]. by rewrite !IH.
Qed.

Lemma bsearch_mapped_blocks_ext u u' a :
  mapped_blocks u' = mapped_blocks u ->
  (forall x, x ∈ mapped_blocks u -> regions u' !! x = regions u !! x) ->
  bsearch_mapped_blocks u' a = bsearch_mapped_blocks u a.
Proof.
  intros Hm Hr. unfold bsearch_mapped_blocks, mapped_block_count. rewrite Hm.
  apply bsearch_loop_ext. intros j. unfold mapped_block. rewrite Hm.
  destruct (mapped_blocks u !! Z.to_nat j) as [x|] eqn:E; [|done]. cbn [mbind option_bind].
  apply Hr. by eapply list_elem_of_lookup_2.
Qed.

(** There is a section number left for another block. *)
Definition one_more (u : uc_struct) : Prop := room u (S (length (mapped_blocks u))).

#[export] Instance one_more_dec u : Decision (one_more u).
Proof. unfold one_more. apply _. Defined.

(** The new block [id] with region [r] is in the map of [u']. *)
Record added (u u' : uc_struct) (r : region) : Prop := {
  ad_wf : wf u';
  ad_find : forall x, find_block u' x = if holds r x then Some (next_region u) else find_block u x;
  ad_new : regions u' !! next_region u = Some r;
  ad_old : forall x, x ∈ mapped_blocks u -> regions u' !! x = regions u !! x;
  ad_mapped : Permutation (mapped_blocks u') (next_region u :: mapped_blocks u);
  ad_state : exists rs n blocks fl, u' = remapped u rs n blocks fl
}.

Lemma map_block_run u r begin prio :
  wf u -> r_container r = None -> prio (with_next (next_region u + 1)
     (with_regions <[next_region u := r]> u)) = r_priority r ->
  block_ok u (placed (system_memory u) begin (r_priority r) r) ->
  unmapped u begin (r_size r) ->
  if decide (one_more u)
  then exists u', (attach r begin prio ≫= mem_map) u = Some (UC_ERR_OK, u') /\
    added u u' (placed (system_memory u) begin (r_priority r) r)
  else attach r begin prio u = None.
Proof.
  intros Hwf Hc Hprio Hok Hun. set (id := next_region u).
  set (r' := placed (system_memory u) begin (r_priority r) r) in *.
  destruct (wf_sys _ Hwf) as (subs & Hs & Hp).
  pose proof (add_fresh u Hwf) as Hfresh. pose proof (add_id_sys u subs Hwf Hs) as Hne.
  destruct (insert_by_priority_ok (<[id := r']> (<[id := r]> (regions u))) id (r_priority r) subs)
    as (l & Hl & Hlp).
  { intros x Hx. rewrite Hp in Hx. destruct (block_exists u Hwf x Hx) as (rx & Hrx & _).
    rewrite insert_insert_eq, lookup_insert_ne; [eauto|].
    intros <-. unfold id in Hrx. congruence. }
  pose proof (bo_size _ _ Hok) as Hsize.
  set (u1 := with_next (id + 1) (with_regions <[id := r]> u)).
  set (s := r_with_subregions subs (memory_region_init UINT64_MAX)) in *.
  set (uc := with_regions (fun rs => <[system_memory u := r_with_subregions l s]>
                             (<[id := r']> rs)) u1).
  assert (memory_region_add_subregion_overlap (system_memory u) begin id (r_priority r) u1 =
    memory_region_transaction_commit uc) as Hadd.
  { apply (add_subregion_run u1 (system_memory u) begin id (r_priority r) r s l);
      [apply lookup_insert_eq| |done|done| |exact Hl].
    - unfold u1. cbn [regions with_next with_regions]. by rewrite lookup_insert_ne.
    - split; [|apply Hsize]. apply Z.lt_le_incl, Hsize. }
  assert (regions uc = <[system_memory u := r_with_subregions l s]> (<[id := r']> (regions u)))
    as Hrc.
  { unfold uc, u1. cbn [regions with_regions with_next]. by rewrite insert_insert_eq. }
  destruct (bsearch_mapped_blocks_ok u Hwf begin) as (pos & Hb & Hplace).
  set (blocks := take (Z.to_nat pos) (mapped_blocks u) ++
                 id :: drop (Z.to_nat pos) (mapped_blocks u)).
  assert (forall x, holds r' x = true -> find_block u x = None) as Hfree.
  { intros x Hx%holds_spec. apply Hun. exact Hx. }
  assert (forall u', regions u' = regions uc -> mapped_blocks u' = blocks ->
    next_region u' = id + 1 -> same_config u u' -> wf u') as Hnew.
  { intros u' E ? ? ?. rewrite Hrc in E. by apply (wf_add u u' r' subs l pos Hwf Hok Hs Hp Hlp). }
  assert (length blocks = S (length (mapped_blocks u))) as Elen.
  { unfold blocks. by rewrite length_app, length_cons, Nat.add_succ_r, <- length_app, take_drop. }
  pose proof (commit_run uc blocks) as Hcom. rewrite Elen in Hcom.
  change (room uc) with (room u) in Hcom.
  specialize (Hcom (Hnew (with_mapped blocks uc) eq_refl eq_refl eq_refl ltac:(done))).
  rewrite <- Hadd in Hcom. fold (one_more u) in Hcom. destruct (decide (one_more u)) as [Hroom|Hroom].
  2:{ unfold attach. rewrite (bind_run (g_new r) _ u id u1) by done. rewrite bind_get.
      fold id u1 in Hprio. rewrite Hprio. unfold mbind, M_bind.
      change (system_memory u1) with (system_memory u). by rewrite Hcom. }
  set (u2 := with_flushes (flushes u ++ (if cpu u then [tlb_flush] else [])) uc).
  assert (attach r begin prio u = Some (Some id, u2)) as Hat.
  { unfold attach. rewrite (bind_run (g_new r) _ u id u1) by done. rewrite bind_get.
    fold id u1 in Hprio. rewrite Hprio.
    erewrite bind_run by exact Hcom. by erewrite bind_run by apply add_flush_run. }
  assert (regions u2 = regions uc) as Hr2 by done. rewrite Hrc in Hr2.
  exists (with_mapped blocks u2).
  assert (forall x, x ∈ mapped_blocks u -> regions u2 !! x = regions u !! x) as Hold.
  { apply (add_lookup u u2 r' l Hwf Hr2). }
  split.
  { erewrite bind_run by exact Hat. unfold mem_map.
    erewrite bind_region.
    2:{ rewrite Hr2, lookup_insert_ne by done. apply lookup_insert_eq. }
    rewrite bind_get. erewrite bind_lift; [done|].
    rewrite <- Hb. by apply bsearch_mapped_blocks_ext. }
  set (u3 := with_mapped _ u2). assert (same_config u u3) as Hsame by done.
  constructor.
  - by apply Hnew.
  - by apply (find_block_add u u3 r' subs l pos).
  - unfold u3. cbn [regions with_mapped]. rewrite Hr2, lookup_insert_ne by done.
    apply lookup_insert_eq.
  - exact Hold.
  - by apply (add_mapped u u3 pos).
  - by eexists _, _, _, _.
Qed.

(** ** Host memory *)

(** What the engine relies on when it asks for host memory: the block returned
    is apart from the live ones and from the memory of the user, which does not
    contain the null pointer. *)
Class HostAlloc (os_alloc : list (Z * Z) -> Z -> option Z) (user : Z -> Prop) : Prop := {
  alloc_live : forall live len p q n, os_alloc live len = Some p -> (q, n) ∈ live ->
    p + len <= q \/ q + n <= p;
  alloc_user : forall live len p x, os_alloc live len = Some p -> p <= x < p + len -> ~ user x;
  user_pos : forall x, user x -> 0 < x
}.

(** A RAM block of the map. *)
Definition ram_block (u : uc_struct) (id : Z) (b : RAMBlock) : Prop :=
  id ∈ mapped_blocks u /\ exists r, regions u !! id = Some r /\ r_ram_block r = Some b.

Definition apart (b c : RAMBlock) : Prop :=
  host b + max_length b <= host c \/ host c + max_length c <= host b.

(** Blocks the engine allocated are live and apart from every other; the
    others are the user's, who may map the same memory twice. *)
Record host_ok (user : Z -> Prop) (u : uc_struct) : Prop := {
  ho_length : forall id b, ram_block u id b -> 0 < max_length b;
  ho_live : forall id b, ram_block u id b -> prealloc b = false ->
    (host b, max_length b) ∈ live_ram u;
  ho_user : forall id b, ram_block u id b -> prealloc b = true ->
    forall x, host b <= x < host b + max_length b -> user x;
  ho_own : forall id b, ram_block u id b -> prealloc b = false ->
    forall x, host b <= x < host b + max_length b -> ~ user x;
  ho_apart : forall id b, ram_block u id b -> forall id' b', ram_block u id' b' -> id <> id' ->
    prealloc b = false -> apart b b'
}.

Lemma cell_of_block u id r x :
  wf u -> find_block u x = Some id -> regions u !! id = Some r ->
  cell_at u x = cell_of (hostmem u) r x.
Proof. intros Hwf Hf Hr. unfold cell_at. rewrite Hf. cbn [mbind option_bind]. by rewrite Hr. Qed.

(** The cells after a block has been added. *)
Lemma cell_at_added u u' r x :
  wf u -> added u u' r ->
  cell_at u' x = if holds r x then cell_of (hostmem u) r x else cell_at u x.
Proof.
  intros Hwf []. unfold cell_at. rewrite ad_find0.
  assert (hostmem u' = hostmem u) as -> by (by destruct ad_state0 as (? & ? & ? & ? & ->)).
  destruct (holds r x); cbn [mbind option_bind]; [by rewrite ad_new0|].
  destruct (find_block u x) as [id|] eqn:E; [|done]. cbn [mbind option_bind].
  apply find_block_Some in E as (Hin & _); [|done]. by rewrite ad_old0.
Qed.

Lemma ram_block_added u u' r id b :
  added u u' r -> wf u ->
  ram_block u' id b <-> (id = next_region u /\ r_ram_block r = Some b) \/ ram_block u id b.
Proof.
  intros [] Hwf. unfold ram_block. rewrite ad_mapped0, elem_of_cons. split.
  - intros [[-> | Hin] (r' & Hr' & Hb)]; [left|right].
    + rewrite ad_new0 in Hr'. by simplify_eq.
    + rewrite ad_old0 in Hr' by done. eauto.
  - intros [[-> Hb]|[Hin (r' & Hr' & Hb)]]; [eauto|]. rewrite ad_old0 by done. eauto.
Qed.

Lemma ram_block_fresh u b : wf u -> ~ ram_block u (next_region u) b.
Proof.
  intros Hwf [Hin _]. destruct (block_exists u Hwf _ Hin) as (r & Hr & _).
  by rewrite (add_fresh u Hwf) in Hr.
Qed.

Lemma apart_sym b c : apart b c -> apart c b.
Proof. unfold apart. tauto. Qed.

Lemma apart_user (user : Z -> Prop) b c :
  0 < max_length b -> 0 < max_length c ->
  (forall x, host b <= x < host b + max_length b -> ~ user x) ->
  (forall x, host c <= x < host c + max_length c -> user x) -> apart b c.
Proof.
  intros Hb Hc Hn Hu. unfold apart.
  destruct (Z.le_gt_cases (host b + max_length b) (host c)); [by left|].
  destruct (Z.le_gt_cases (host c + max_length c) (host b)); [by right|]. exfalso.
  apply (Hn (Z.max (host b) (host c))); [|apply Hu]; lia.
Qed.

(** A block apart from the others keeps the host memory in order. *)
Lemma host_ok_added user u u' r b :
  wf u -> added u u' r -> host_ok user u -> r_ram_block r = Some b -> 0 < max_length b ->
  (prealloc b = false -> (host b, max_length b) ∈ live_ram u /\
     (forall x, host b <= x < host b + max_length b -> ~ user x) /\
     forall id c, ram_block u id c -> apart b c) ->
  (prealloc b = true -> forall x, host b <= x < host b + max_length b -> user x) ->
  host_ok user u'.
Proof.
  intros Hwf Had Hh Hb Hlen Hnew Huser.
  assert (live_ram u' = live_ram u) as El by (by destruct (ad_state _ _ _ Had) as (?&?&?&?& ->)).
  constructor; intros id c Hc; apply (ram_block_added u u' r) in Hc; try done;
    destruct Hc as [[-> E]|Hc]; simplify_eq; rewrite ?El; try (by eapply Hh); try (by apply Hnew);
    try done; intros id' b' Hb' Hne Hp; apply (ram_block_added u u' r) in Hb'; try done;
    destruct Hb' as [[-> E]|Hb']; simplify_eq; try (by eapply Hh); try (by eapply Hnew).
  match goal with |- apart c ?d => destruct (prealloc d) eqn:Ep end.
  - apply (apart_user user); [by eapply Hh|done|by eapply Hh|by apply Huser].
  - apply apart_sym. by eapply Hnew.
Qed.

(** ** The three mapping functions *)

Lemma wf_ext u u' :
  wf u -> regions u' = regions u -> next_region u' = next_region u ->
  mapped_blocks u' = mapped_blocks u -> same_config u u' -> wf u'.
Proof.
  intros Hwf Er En Em Hsame. pose proof Hsame as [Es El Ep Ea Eh].
  constructor; [constructor|]; rewrite ?Er, ?En, ?Em, ?Es, ?El, ?Ep, ?Ea, ?Eh; try apply Hwf.
  intros id Hin. destruct (wf_blocks _ Hwf id Hin) as (r & Hr & Hok). exists r.
  split; [done|]. by apply (block_ok_config u).
Qed.

Lemma wf_with_host u h live : wf u -> wf (with_host h live u).
Proof. intros Hwf. by apply (wf_ext u). Qed.

(** A page-aligned size is its own region size. *)
Lemma aligned_size u size :
  wf u -> (target_page_size u | size) -> r_size (memory_region_init size) = size.
Proof.
  intros Hwf [q Hq]. destruct (wf_page _ Hwf) as (k & Hk & E). unfold memory_region_init, r_size.
  case_if; [|done]. exfalso. rewrite E in Hq.
  replace k with (Z.succ (k - 1)) in Hq by lia. rewrite Z.pow_succ_r in Hq by lia.
  unfold UINT64_MAX in *. lia.
Qed.

Lemma page_size_gt u : wf u -> 1 < target_page_size u.
Proof. intros Hwf. destruct (wf_page _ Hwf) as (k & Hk & ->). apply Z.pow_gt_1; lia. Qed.

(** The record of a new block of RAM or of callbacks. *)
Definition ram_region (size perms : Z) (readonly : bool) (b : RAMBlock) : region :=
  mk_reg true readonly (Some b) None None (r_size (memory_region_init size))
    0 true true 0 [] perms 0.

Definition mmio_perms (cbs : mmio_cbs) : Z :=
  Z.lor (if bool_decide (is_Some (cb_read cbs)) then UC_PROT_READ else 0)
        (if bool_decide (is_Some (cb_write cbs)) then UC_PROT_WRITE else 0).

Definition mmio_region (size : Z) (cbs : mmio_cbs) : region :=
  mk_reg false false None (Some cbs) None (r_size (memory_region_init size))
    0 true true 0 [] (mmio_perms cbs) 0.

Lemma new_block_ok u address size perms r :
  wf u -> uint 64 address -> uint 64 size -> map_args_ok u address size perms ->
  r_size r = size -> r_enabled r = true -> r_terminates r = true -> r_subregions r = [] ->
  r_priority r = 0 -> 0 <= r_perms r <= UC_PROT_ALL ->
  (r_ram r = true -> r_readonly r = true -> Z.land (r_perms r) UC_PROT_WRITE = 0) ->
  (if r_ram r
   then exists b, r_ram_block r = Some b /\ r_size r <= max_length b /\ r_opaque r = None
   else r_ram_block r = None /\ exists cbs, r_opaque r = Some cbs) ->
  block_ok u (placed (system_memory u) address 0 r).
Proof.
  intros Hwf [Ha _] [_ Hs] (Hpos & Hfit & Hal & Hpg & _) Er He Ht Hsub Hp Hpe Hro Hk.
  constructor; try done; cbn [placed r_with_addr r_size r_addr r_with_container
    r_with_priority r_end]; rewrite ?Er; first [done|lia].
Qed.

(** The cells of a range are replaced, the others stay. *)
Definition cells_set (u u' : uc_struct) (address size : Z) (f : Z -> option cell) : Prop :=
  forall x, cell_at u' x =
    if (address <=? x) && (x <? address + size) then f x else cell_at u x.

Lemma mem_map_ptr_run u address size perms ptr :
  wf u -> uint 64 address -> uint 64 size -> 0 <= perms -> map_args_ok u address size perms ->
  unmapped u address size ->
  if decide (one_more u)
  then exists u', (memory_map_ptr address size perms ptr ≫= mem_map) u = Some (UC_ERR_OK, u') /\
    added u u' (placed (system_memory u) address 0
                  (ram_region size perms false (mk_block ptr size true)))
  else memory_map_ptr address size perms ptr u = None.
Proof.
  intros Hwf Ha Hs Hp0 Hargs Hun. pose proof Hargs as (Hpos & Hfit & Hal & Hpg & Hpm).
  assert (r_size (ram_region size perms false (mk_block ptr size true)) = size) as E
    by by apply (aligned_size u).
  pose proof (map_block_run u (ram_region size perms false (mk_block ptr size true)) address
    (fun _ => 0) Hwf eq_refl eq_refl) as Hrun. rewrite E in Hrun. apply Hrun; [|done].
  apply (new_block_ok u address size perms); try done.
  eexists. split_and!; [done| |done]. rewrite E. cbn. lia.
Qed.

Lemma mmio_map_run u address size cbs :
  wf u -> uint 64 address -> uint 64 size -> map_args_ok u address size UC_PROT_ALL ->
  unmapped u address size ->
  if decide (one_more u)
  then exists u', (memory_map_io address size cbs ≫= mem_map) u = Some (UC_ERR_OK, u') /\
    added u u' (placed (system_memory u) address 0 (mmio_region size cbs))
  else memory_map_io address size cbs u = None.
Proof.
  intros Hwf Ha Hs Hargs Hun. pose proof Hargs as (Hpos & Hfit & Hal & Hpg & _).
  assert (r_size (mmio_region size cbs) = size) as E by by apply (aligned_size u).
  pose proof (map_block_run u (mmio_region size cbs) address (fun _ => 0) Hwf eq_refl eq_refl)
    as Hrun. rewrite E in Hrun. apply Hrun; [|done].
  apply (new_block_ok u address size UC_PROT_ALL); try done; [|split; [done|by eexists]].
  cbn. unfold mmio_perms. by repeat case_bool_decide.
Qed.

Section Map.
Context (os_alloc : list (Z * Z) -> Z -> option Z) (user : Z -> Prop).
Context `{HA : !HostAlloc os_alloc user}.

Lemma host_page_align u size :
  wf u -> 0 < size -> size <= HOST_PAGE_ALIGN u size.
Proof.
  intros Hwf Hs. pose proof (wf_host_page _ Hwf). unfold HOST_PAGE_ALIGN.
  pose proof (Z.div_mod (size + host_page_size u - 1) (host_page_size u) ltac:(lia)).
  pose proof (Z.mod_pos_bound (size + host_page_size u - 1) (host_page_size u) ltac:(lia)). lia.
Qed.

(** The state after the allocation of a zeroed block. *)
Definition allocated (u : uc_struct) (p len : Z) : uc_struct :=
  with_host (fun a => if (p <=? a) && (a <? p + len) then 0 else hostmem u a)
    ((p, len) :: live_ram u) u.

Lemma mem_map_run u address size perms p :
  wf u -> uint 64 address -> uint 64 size -> 0 <= perms -> map_args_ok u address size perms ->
  unmapped u address size -> os_alloc (live_ram u) (HOST_PAGE_ALIGN u size) = Some p ->
  if decide (one_more u)
  then exists u', (memory_map os_alloc address size perms ≫= mem_map) u = Some (UC_ERR_OK, u') /\
    added (allocated u p (HOST_PAGE_ALIGN u size)) u' (placed (system_memory u) address 0
      (ram_region size perms (Z.land perms UC_PROT_WRITE =? 0)
         (mk_block p (HOST_PAGE_ALIGN u size) false)))
  else memory_map os_alloc address size perms u = None.
Proof.
  intros Hwf Ha Hs Hp0 Hargs Hun Hp. pose proof Hargs as (Hpos & Hfit & Hal & Hpg & Hpm).
  set (len := HOST_PAGE_ALIGN u size) in *. set (ua := allocated u p len).
  set (r := ram_region size perms (Z.land perms UC_PROT_WRITE =? 0) (mk_block p len false)).
  assert (r_size r = size) as E by by apply (aligned_size u).
  assert (wf ua) as Hwfa by by apply wf_with_host.
  assert (memory_map os_alloc address size perms u = attach r address snapshot_level ua) as Erun.
  { unfold memory_map, qemu_ram_alloc, attach, mbind, M_bind, get. fold len. by rewrite Hp. }
  pose proof (map_block_run ua r address snapshot_level Hwfa eq_refl (wf_level _ Hwf)) as Hrun.
  rewrite E in Hrun. unfold mbind at 1, M_bind at 1. rewrite Erun. apply Hrun; [|done].
  apply (new_block_ok ua address size perms); try done.
  { intros _ ?%Z.eqb_eq. done. }
  eexists. split_and!; [done| |done]. rewrite E. by apply host_page_align.
Qed.

(** The invariant of the memory map, its host memory included; the blocks have
    section numbers. *)
Record inv (u : uc_struct) : Prop := {
  inv_wf : wf u;
  inv_host : host_ok user u;
  inv_room : room u (length (mapped_blocks u))
}.

Lemma room_added u u' r : added u u' r -> one_more u -> room u' (length (mapped_blocks u')).
Proof.
  intros [] Hroom. rewrite (Permutation_length ad_mapped0). cbn [length].
  by destruct ad_state0 as (? & ? & ? & ? & ->).
Qed.

(** Fresh memory is apart from every block of the map. *)
Lemma alloc_apart u len p id b :
  host_ok user u -> 0 < len -> os_alloc (live_ram u) len = Some p -> ram_block u id b ->
  p + len <= host b \/ host b + max_length b <= p.
Proof.
  intros Hh Hlen Hp Hb. destruct (prealloc b) eqn:E.
  - destruct (Z.le_gt_cases (p + len) (host b)); [by left|].
    destruct (Z.le_gt_cases (host b + max_length b) p); [by right|]. exfalso.
    pose proof (ho_length _ _ Hh _ _ Hb).
    eapply (alloc_user _ len p (Z.max p (host b))); [done|lia|].
    eapply (ho_user _ _ Hh); [done|done|lia].
  - eapply alloc_live; [done|]. by eapply (ho_live _ _ Hh).
Qed.

(** The host address of a cell lies in the block's memory. *)
Lemma ram_cell u id r b x :
  wf u -> find_block u x = Some id -> regions u !! id = Some r -> r_ram r = true ->
  r_ram_block r = Some b ->
  ram_block u id b /\ host b <= host b + (x - r_addr r) < host b + max_length b.
Proof.
  intros Hwf Hf Hr Hram Hb.
  apply find_block_region in Hf as (r' & Hin & Hr' & Hh%holds_spec & Hok); [|done]. simplify_eq.
  split; [by split; eauto|]. pose proof (bo_kind _ _ Hok) as Hk. rewrite Hram in Hk.
  destruct Hk as (b' & Hb' & Hle & _). simplify_eq. lia.
Qed.

(** Changes of host memory outside of the blocks of the map are not seen. *)
Lemma cell_at_host u h live :
  wf u ->
  (forall id b x, ram_block u id b -> host b <= x < host b + max_length b -> h x = hostmem u x) ->
  forall x, cell_at (with_host h live u) x = cell_at u x.
Proof.
  intros Hwf Hh x. unfold cell_at. change (find_block (with_host h live u) x) with (find_block u x).
  destruct (find_block u x) as [id|] eqn:Ef; [|done]. cbn [mbind option_bind].
  change (regions (with_host h live u)) with (regions u).
  destruct (regions u !! id) as [r|] eqn:Hr; [|done]. cbn [mbind option_bind].
  unfold cell_of. destruct (r_ram r) eqn:Hram; [|done].
  destruct (r_ram_block r) as [b|] eqn:Hb; [|done]. cbn [mbind option_bind].
  destruct (ram_cell u id r b x Hwf Ef Hr Hram Hb) as [Hblk Hx].
  do 2 f_equal. by apply (Hh id b).
Qed.

Lemma cell_at_allocated u len p x :
  inv u -> 0 < len -> os_alloc (live_ram u) len = Some p ->
  cell_at (allocated u p len) x = cell_at u x.
Proof.
  intros [Hwf Hh _] Hlen Hp. apply cell_at_host; [done|]. intros id b y Hb Hy.
  pose proof (alloc_apart u len p id b Hh Hlen Hp Hb). case_if; [lia|done].
Qed.

Lemma host_ok_allocated u len p :
  host_ok user u -> host_ok user (allocated u p len).
Proof.
  intros Hh. constructor; try apply Hh. intros id b Hb Hp. apply elem_of_cons. right.
  by eapply Hh.
Qed.

Lemma added_range u u' r address size f :
  wf u -> added u u' r -> r_addr r = address -> r_size r = size ->
  (forall x, address <= x < address + size -> cell_of (hostmem u) r x = f x) ->
  cells_set u u' address size f.
Proof.
  intros Hwf Had <- <- Hf x. rewrite (cell_at_added u u' r x Hwf Had). unfold holds.
  case_if; [|done]. apply Hf. lia.
Qed.

(** A new block of zeroed RAM. *)
Lemma uc_mem_map_ok u address size perms p :
  inv u -> uint 64 address -> uint 64 size -> 0 <= perms -> map_args_ok u address size perms ->
  unmapped u address size -> os_alloc (live_ram u) (HOST_PAGE_ALIGN u size) = Some p ->
  one_more u ->
  exists u', (memory_map os_alloc address size perms ≫= mem_map) u = Some (UC_ERR_OK, u') /\
    added (allocated u p (HOST_PAGE_ALIGN u size)) u' (placed (system_memory u) address 0
      (ram_region size perms (Z.land perms UC_PROT_WRITE =? 0)
         (mk_block p (HOST_PAGE_ALIGN u size) false))) /\
    inv u' /\ cells_set u u' address size (fun _ => Some (Ram perms 0)).
Proof.
  intros [Hwf Hh Hl] Ha Hs Hp0 Hargs Hun Hp Hroom.
  pose proof (mem_map_run u address size perms p Hwf Ha Hs Hp0 Hargs Hun Hp) as Hmap.
  rewrite decide_True in Hmap by done. destruct Hmap as (u' & Hrun & Had).
  set (len := HOST_PAGE_ALIGN u size) in *.
  assert (0 < len) as Hlen.
  { pose proof (host_page_align u size Hwf (proj1 Hargs)). pose proof (proj1 Hargs).
    unfold len. lia. }
  assert (wf (allocated u p len)) as Hwfa by by apply wf_with_host.
  exists u'. split_and!; [done|done| |].
  - split; [apply Had| |by apply (room_added _ _ _ Had)].
    eapply (host_ok_added user (allocated u p len) u' _ (mk_block p len false));
      [done|exact Had|by apply host_ok_allocated|done|done| |done].
    intros _. split_and!; [left|intros x Hx; by eapply alloc_user|].
    intros id c Hc. by apply (alloc_apart u len p id c Hh Hlen Hp).
  - intros x. rewrite <- (cell_at_allocated u len p x) by done.
    revert x. apply (added_range (allocated u p len) u' _ address size
      (fun _ => Some (Ram perms 0)) Hwfa Had eq_refl).
    + apply (aligned_size u); [done|apply Hargs].
    + intros y Hy. cbn. do 2 f_equal. case_if; [done|].
      pose proof (host_page_align u size Hwf (proj1 Hargs)). fold len in H.
      apply andb_false_iff in Heqb as [E|E]; bool_to_prop; lia.
Qed.

Lemma uc_mem_map_ptr_ok u address size perms ptr :
  inv u -> uint 64 address -> uint 64 size -> 0 <= perms -> map_args_ok u address size perms ->
  unmapped u address size -> (forall x, ptr <= x < ptr + size -> user x) ->
  one_more u ->
  exists u', (memory_map_ptr address size perms ptr ≫= mem_map) u = Some (UC_ERR_OK, u') /\
    added u u' (placed (system_memory u) address 0
                  (ram_region size perms false (mk_block ptr size true))) /\
    inv u' /\
    cells_set u u' address size (fun x => Some (Ram perms (hostmem u (ptr + (x - address))))).
Proof.
  intros [Hwf Hh Hl] Ha Hs Hp0 Hargs Hun Hptr Hroom.
  pose proof (mem_map_ptr_run u address size perms ptr Hwf Ha Hs Hp0 Hargs Hun) as Hmap.
  rewrite decide_True in Hmap by done. destruct Hmap as (u' & Hrun & Had).
  exists u'. split_and!; [done|done| |].
  - split; [apply Had| |by apply (room_added _ _ _ Had)].
    by eapply (host_ok_added user u u' _ (mk_block ptr size true)); [..|apply Hargs|done|].
  - apply (added_range u u' _ address size _ Hwf Had eq_refl); [|done].
    apply (aligned_size u); [done|apply Hargs].
Qed.

Lemma host_ok_added_mmio u u' r :
  wf u -> added u u' r -> host_ok user u -> r_ram_block r = None -> host_ok user u'.
Proof.
  intros Hwf Had Hh Hb.
  assert (live_ram u' = live_ram u) as El by (by destruct (ad_state _ _ _ Had) as (?&?&?&?& ->)).
  assert (forall id b, ram_block u' id b -> ram_block u id b) as H.
  { intros id b [[_ ?]|?]%(ram_block_added u u' r); [congruence|done..]. }
  constructor; intros id b Hid; apply H in Hid; rewrite ?El; try (by eapply Hh).
  intros id' b' Hid'%H. by eapply Hh.
Qed.

Lemma uc_mmio_map_ok u address size cbs :
  inv u -> uint 64 address -> uint 64 size -> map_args_ok u address size UC_PROT_ALL ->
  unmapped u address size ->
  one_more u ->
  exists u', (memory_map_io address size cbs ≫= mem_map) u = Some (UC_ERR_OK, u') /\
    added u u' (placed (system_memory u) address 0 (mmio_region size cbs)) /\
    inv u' /\
    cells_set u u' address size (fun x => Some (Mmio (mmio_perms cbs) cbs (x - address))).
Proof.
  intros [Hwf Hh Hl] Ha Hs Hargs Hun Hroom.
  pose proof (mmio_map_run u address size cbs Hwf Ha Hs Hargs Hun) as Hmap.
  rewrite decide_True in Hmap by done. destruct Hmap as (u' & Hrun & Had).
  exists u'. split_and!; [done|done| |].
  - split; [apply Had| |by apply (room_added _ _ _ Had)]. by eapply host_ok_added_mmio.
  - apply (added_range u u' _ address size _ Hwf Had eq_refl); [|done].
    apply (aligned_size u); [done|apply Hargs].
Qed.

(** ** Properties *)

(** Replace the run that the goal is about by its result. *)
Ltac run_with H :=
  match type of H with
  | _ = ?res => match goal with |- match ?t with _ => _ end =>
      replace t with res by (symmetry; exact H) end
  end.


(** [uc_mem_map_ptr] on every branch: the null pointer and invalid
    arguments give [UC_ERR_ARG], an overlap [UC_ERR_MAP], and nothing changes;
    otherwise, when a section number is left, the range shows the user's memory,
    byte for byte, with the permissions asked for, and every other cell is as
    before. *)
Theorem uc_mem_map_ptr_correct u address size perms ptr :
  inv u -> uint 64 address -> uint 64 size -> uint 32 perms ->
  (forall x, ptr <= x < ptr + size -> user x) ->
  match uc_mem_map_ptr address size perms ptr u with
  | Some (err, u') => inv u' /\
    match err with
    | UC_ERR_OK => ptr <> 0 /\ map_args_ok u address size perms /\ unmapped u address size /\
        one_more u /\
        cells_set u u' address size (fun x => Some (Ram perms (hostmem u (ptr + (x - address)))))
    | UC_ERR_MAP => map_args_ok u address size perms /\ ~ unmapped u address size /\ u' = u
    | UC_ERR_ARG => (ptr = 0 \/ ~ map_args_ok u address size perms) /\ u' = u
    | _ => False
    end
  | None => ptr <> 0 /\ map_args_ok u address size perms /\ unmapped u address size /\
      ~ one_more u
  end.
Proof.
  intros Hinv Ha Hs Hp Hptr. pose proof (inv_wf _ Hinv) as Hwf. unfold uc_mem_map_ptr.
  case_if; [split_and!; auto|].
  destruct (mem_map_check_ok u address size perms) as (err & Hc & Herr); try done.
  rewrite bind_get. erewrite bind_lift by done.
  destruct err; try done; simpl bool_decide; cbn iota.
  2:{ split_and!; try done; apply Herr. }
  2:{ split_and!; try done. by right. }
  destruct Herr as [Hargs Hun]. rewrite bool_decide_true by done.
  destruct (decide (one_more u)) as [Hroom|Hroom].
  - destruct (uc_mem_map_ptr_ok u address size perms ptr) as (u' & Hrun & _ & Hinv' & Hset);
      try done; [apply Hp|]. run_with Hrun. by split_and!.
  - pose proof (mem_map_ptr_run u address size perms ptr Hwf Ha Hs (proj1 Hp) Hargs Hun) as Hmap.
    rewrite decide_False in Hmap by done. unfold mbind, M_bind. rewrite Hmap. by split_and!.
Qed.

(** [uc_mmio_map] on every branch: after success the range reaches the
    callbacks with the offset from its start, readable or writable according to
    the callbacks present; on an error nothing has changed. *)
Theorem uc_mmio_map_correct u address size cbs :
  inv u -> uint 64 address -> uint 64 size ->
  match uc_mmio_map address size cbs u with
  | Some (err, u') => inv u' /\
    match err with
    | UC_ERR_OK => map_args_ok u address size UC_PROT_ALL /\ unmapped u address size /\
        one_more u /\
        cells_set u u' address size (fun x => Some (Mmio (mmio_perms cbs) cbs (x - address)))
    | UC_ERR_MAP => map_args_ok u address size UC_PROT_ALL /\ ~ unmapped u address size /\ u' = u
    | UC_ERR_ARG => ~ map_args_ok u address size UC_PROT_ALL /\ u' = u
    | _ => False
    end
  | None => map_args_ok u address size UC_PROT_ALL /\ unmapped u address size /\ ~ one_more u
  end.
Proof.
  intros Hinv Ha Hs. pose proof (inv_wf _ Hinv) as Hwf. unfold uc_mmio_map.
  destruct (mem_map_check_ok u address size UC_PROT_ALL) as (err & Hc & Herr); try done.
  rewrite bind_get. erewrite bind_lift by done.
  destruct err; try done; simpl bool_decide; cbn iota.
  2:{ split_and!; try done; apply Herr. }
  destruct Herr as [Hargs Hun]. rewrite bool_decide_true by done.
  destruct (decide (one_more u)) as [Hroom|Hroom].
  - destruct (uc_mmio_map_ok u address size cbs) as (u' & Hrun & _ & Hinv' & Hset); try done.
    run_with Hrun. by split_and!.
  - pose proof (mmio_map_run u address size cbs Hwf Ha Hs Hargs Hun) as Hmap.
    rewrite decide_False in Hmap by done. unfold mbind, M_bind. rewrite Hmap. by split_and!.
Qed.
End Map.

(** ** An engine with nothing mapped *)

Lemma inv_initial user long_bits host_page running k :
  1 <= k <= 16 -> 32 <= long_bits <= 64 -> 0 < host_page ->
  inv user (memory_map_init (2 ^ k) long_bits host_page running).
Proof.
  intros Hk Hb Hh. split.
  - constructor; [constructor|]; cbn [memory_map_init snapshot_level target_page_size host_page_size
      target_long_bits system_memory regions next_region mapped_blocks]; try done.
    + by exists k.
    + exists []. split; [by rewrite lookup_singleton_eq|done].
    + by intros id ?%elem_of_nil.
    + constructor.
    + intros id r [<- <-]%lookup_singleton_Some. split; [lia|by left].
  - assert (forall id b,
      ~ ram_block (memory_map_init (2 ^ k) long_bits host_page running) id b) as H.
    { by intros id b [?%elem_of_nil _]. }
    constructor; intros id b Hb'; by destruct (H id b).
  - unfold room. cbn. pose proof (Z.pow_pos_nonneg 2 k). lia.
Qed.

(** An allocator that takes the memory above all live blocks; the user's
    memory is below 64 KiB. *)
Definition bump (live : list (Z * Z)) (n : Z) : option Z :=
  Some (foldr (fun b m => Z.max (b.1 + b.2) m) 0x10000 live).

Definition low (x : Z) : Prop := 0 < x < 0x10000.

Lemma bump_base live : 0x10000 <= foldr (fun b m => Z.max (b.1 + b.2) m) 0x10000 live.
Proof. induction live as [|b live IH]; cbn [foldr]; lia. Qed.

Lemma bump_above live q n :
  (q, n) ∈ live -> q + n <= foldr (fun b m => Z.max (b.1 + b.2) m) 0x10000 live.
Proof.
  induction live as [|b live IH]; [by intros ?%elem_of_nil|]. cbn [foldr].
  intros [<- | Hin]%elem_of_cons; cbn; [lia|]. specialize (IH Hin). lia.
Qed.

#[export] Instance bump_alloc : HostAlloc bump low.
Proof.
  split.
  - intros live len p q n [= <-] Hin. right. by apply bump_above.
  - intros live len p x [= <-] Hx. pose proof (bump_base live). unfold low. lia.
  - unfold low. lia.
Qed.

Definition engine : uc_struct := memory_map_init (2 ^ 12) 64 0x1000 true.

Lemma engine_inv : inv low engine.
Proof. by apply (inv_initial low 64 0x1000 true 12). Qed.

(** The result of a call that is known to return [UC_ERR_OK]. *)
Lemma ok_result (m : option (uc_err * uc_struct)) :
  fst <$> m = Some UC_ERR_OK -> exists u', m = Some (UC_ERR_OK, u').
Proof. destruct m as [[e u']|]; cbn; [|done]. intros [= ->]. by exists u'. Qed.


Lemma uc_mem_map_ptr_correct_witness :
  exists u', uc_mem_map_ptr 0x4000 0x2000 3 0x800 engine = Some (UC_ERR_OK, u') /\
    inv low u' /\ cell_at u' 0x4fff = Some (Ram 3 0).
Proof.
  pose proof (uc_mem_map_ptr_correct low engine 0x4000 0x2000 3 0x800 engine_inv
    ltac:(by vm_compute) ltac:(by vm_compute) ltac:(by vm_compute) ltac:(unfold low; lia)) as H.
  destruct (ok_result (uc_mem_map_ptr 0x4000 0x2000 3 0x800 engine)) as [u' E];
    [vm_compute; reflexivity|].
  rewrite E in H. destruct H as (Hinv & _ & _ & _ & _ & Hset).
  exists u'. split_and!; [exact E|exact Hinv|]. clear E. by rewrite Hset.
Defined.

(** Callbacks for reading only. *)
Definition reader : mmio_cbs := mk_cbs (Some 1) 0 None 0.

Lemma uc_mmio_map_correct_witness :
  exists u', uc_mmio_map 0x4000 0x2000 reader engine = Some (UC_ERR_OK, u') /\
    inv low u' /\ cell_at u' 0x4fff = Some (Mmio 1 reader 0xfff).
Proof.
  pose proof (uc_mmio_map_correct low engine 0x4000 0x2000 reader engine_inv
    ltac:(by vm_compute) ltac:(by vm_compute)) as H.
  destruct (ok_result (uc_mmio_map 0x4000 0x2000 reader engine)) as [u' E];
    [vm_compute; reflexivity|].
  rewrite E in H. destruct H as (Hinv & _ & _ & _ & Hset).
  exists u'. split_and!; [exact E|exact Hinv|]. clear E. by rewrite Hset.
Defined.
