(* ===== verification/MemAccess.v ===== *)
(** * Reading and writing memory: [uc_mem_read] and [uc_mem_write]

    The access loops of [uc.c] over the accesses through the flat view of
    [exec.c]: what is read is what the cells of the area hold, and a write
    changes the bytes of its area and nothing else, whatever the permissions. *)

From S2P Require Import Prelude UcTypes FlatView Regions UcMem MemInv MemCommit MemMap.

(** The addresses of an area, in order. *)
Definition area (a n : Z) : list Z := (fun i => u64 (a + i)) <$> seqZ 0 n.

(** The byte of a RAM cell. *)
Definition ram_byte (u : uc_struct) (x : Z) : option Z :=
  match cell_at u x with Some (Ram _ b) => Some b | _ => None end.

Definition area_ram (u : uc_struct) (a n : Z) : Prop :=
  forall x, uint 64 x -> in_area a n x = true -> is_Some (ram_byte u x).

(** ** Areas *)

Lemma area_app a n len :
  0 <= len <= n -> area a n = area a len ++ area (u64 (a + len)) (n - len).
Proof.
  intros Hl. unfold area. rewrite (fmap_seqZ_app _ len) by lia. f_equal.
  apply list_fmap_ext. intros _ i _. rewrite wrap_add_l. f_equal. lia.
Qed.

Lemma area_block a n :
  0 <= a -> a + n <= 2 ^ 64 -> area a n = (fun i => a + i) <$> seqZ 0 n.
Proof.
  intros Ha Hn. apply list_fmap_ext. intros j i Hi%lookup_seqZ. apply wrap_id. unfold uint. lia.
Qed.

Lemma area_length a n : length (area a n) = Z.to_nat n.
Proof. unfold area. by rewrite length_fmap, length_seqZ. Qed.

Section Access.
Context (u : uc_struct) (Hwf : wf u).

Lemma ram_byte_block x id r b :
  find_block u x = Some id -> regions u !! id = Some r -> r_ram r = true ->
  r_ram_block r = Some b -> ram_byte u x = Some (hostmem u (host b + (x - r_addr r))).
Proof.
  intros Hf Hr Hram Hb. unfold ram_byte. rewrite (cell_of_block u id r x Hwf Hf Hr).
  unfold cell_of. by rewrite Hram, Hb.
Qed.

Lemma ram_byte_inv x :
  is_Some (ram_byte u x) ->
  exists id r b, find_block u x = Some id /\ id ∈ mapped_blocks u /\ regions u !! id = Some r /\
    holds r x = true /\ block_ok u r /\ r_ram r = true /\ r_ram_block r = Some b /\
    r_size r <= max_length b.
Proof.
  unfold ram_byte, cell_at. destruct (find_block u x) as [id|] eqn:Ef; [|by intros []].
  destruct (find_block_region u Hwf x id Ef) as (r & Hin & Hr & Hh & Hok).
  cbn [mbind option_bind]. rewrite Hr. cbn [mbind option_bind]. unfold cell_of.
  pose proof (bo_kind _ _ Hok) as Hk. destruct (r_ram r) eqn:Hram.
  - destruct Hk as (b & Hb & Hle & _). intros _. by exists id, r, b.
  - destruct (r_opaque r); by intros [].
Qed.

(** ** Through the flat view *)

(** Translation inside a block of RAM. *)
Lemma translate_ram view a len id r b :
  (forall x, view_lookup (ranges view) x =
     if (0 <=? x) && (x <? 2 ^ 64) then served u x else None) ->
  find_block u a = Some id -> regions u !! id = Some r -> block_ok u r -> holds r a = true ->
  r_ram r = true -> r_ram_block r = Some b -> 0 < len -> a + len <= r_addr r + r_size r ->
  exists l, flatview_translate u view a len = Some (Some r, a - r_addr r, l) /\ 1 <= l <= len.
Proof.
  intros Hl Hf Hr Hok Hh Hram Hb Hlen Hfit. pose proof Hh as Hh'. apply holds_spec in Hh'.
  specialize (Hl a). rewrite view_lookup_find in Hl. destruct Hok.
  rewrite (proj2 (Z.leb_le 0 a)), (proj2 (Z.ltb_lt a _)) in Hl by lia. cbn [andb] in Hl.
  unfold served in Hl. rewrite Hf in Hl. cbn [mbind option_bind] in Hl. rewrite Hr in Hl.
  cbn [mbind option_bind] in Hl. unfold flatview_translate.
  destruct (view_find (ranges view) a) as [fr|] eqn:Efr; [|done].
  cbn [fmap option_fmap option_map] in Hl. unfold serve in Hl. injection Hl as Eid Eoff _.
  subst id. rewrite Hr. cbn [mbind option_bind]. rewrite Hram.
  assert (addrrange_contains (fr_addr fr) a = true) as Hc%contains_spec.
  { unfold view_find in Efr. apply first_some_inv in Efr as (fr' & _ & E).
    destruct (addrrange_contains (fr_addr fr') a) eqn:Ec; by simplify_eq. }
  rewrite Eoff, wrap_id by (unfold uint; lia).
  eexists. split; [done|]. lia.
Qed.

Context (mmio_cb_read : Z -> Z -> Z -> Z -> Z).

Lemma flatview_read_ram view fuel a len id r b :
  (forall x, view_lookup (ranges view) x =
     if (0 <=? x) && (x <? 2 ^ 64) then served u x else None) ->
  id ∈ mapped_blocks u -> regions u !! id = Some r -> block_ok u r ->
  r_ram r = true -> r_ram_block r = Some b -> r_size r <= max_length b ->
  r_addr r <= a -> 0 < len -> a + len <= r_addr r + r_size r -> len <= Z.of_nat fuel ->
  flatview_read mmio_cb_read fuel u view a len =
    Some (true, (fun i => hostmem u (host b + (a + i - r_addr r))) <$> seqZ 0 len).
Proof.
  intros Hl Hin Hr Hok Hram Hb Hmax. revert a len.
  induction fuel as [|fuel IH]; intros a len Ha Hlen Hfit Hfuel; [lia|].
  assert (holds r a = true) as Hh by (apply holds_spec; lia).
  destruct (translate_ram view a len id r b) as (l & Ht & Hl1); try done.
  { apply find_block_Some; eauto. }
  cbn [flatview_read]. rewrite Ht. cbn [mbind option_bind]. rewrite Hram, Hb.
  cbn [mbind option_bind]. rewrite Z.min_l by lia.
  rewrite length_map, length_seqZ, Z2Nat.id by lia.
  replace (map (fun i => hostmem u (host b + (a - r_addr r) + i)) (seqZ 0 l))
    with ((fun i => hostmem u (host b + (a + i - r_addr r))) <$> seqZ 0 l).
  2:{ apply list_fmap_ext. intros _ i _. f_equal. lia. }
  case_if; [by replace len with l by lia|]. pose proof (bo_fits _ _ Hok).
  pose proof (bo_addr _ _ Hok). rewrite wrap_id by (unfold uint; lia).
  rewrite (IH (a + l) (len - l)) by lia. cbn [mbind option_bind andb]. do 2 f_equal.
  rewrite (fmap_seqZ_app _ l len) by lia. f_equal.
  apply list_fmap_ext. intros _ i _. f_equal. lia.
Qed.

Lemma read_mem_ram a len id r b :
  find_block u a = Some id -> regions u !! id = Some r -> r_ram r = true ->
  r_ram_block r = Some b -> 0 < len -> a + len <= r_addr r + r_size r ->
  read_mem mmio_cb_read a len u =
    Some ((true, (fun i => hostmem u (host b + (a + i - r_addr r))) <$> seqZ 0 len), u).
Proof.
  intros Hf Hr Hram Hb Hlen Hfit. apply find_block_region in Hf as (r' & Hin & Hr' & Hh & Hok); [|done].
  assert (r' = r) as -> by congruence. apply holds_spec in Hh.
  pose proof (bo_kind _ _ Hok) as Hk. rewrite Hram in Hk.
  destruct Hk as (b' & Hb' & Hle & _). assert (b' = b) as -> by congruence.
  destruct (current_map_ok u Hwf) as (view & Hv & _ & _ & _ & Hl).
  unfold read_mem. rewrite bind_get. case_if; [|lia]. erewrite bind_lift by done.
  unfold lift. rewrite (flatview_read_ram view _ a len id r b); try done; lia.
Qed.

(** ** The loop of [uc_mem_read] *)

(** The bytes of RAM in an area. *)
Definition area_bytes (a n : Z) (bytes : list Z) : Prop :=
  Forall2 (fun x b => ram_byte u x = Some b) (area a n) bytes.

Lemma area_ram_step a n len :
  0 <= len <= n -> n < 2 ^ 64 -> area_ram u a n -> area_ram u (u64 (a + len)) (n - len).
Proof.
  intros Hl Hn H x Hx E. apply H; [done|]. rewrite (in_area_cases a n len) by done.
  rewrite E. apply orb_true_r.
Qed.

Lemma block_bytes a len id r b :
  find_block u a = Some id -> regions u !! id = Some r -> r_ram r = true ->
  r_ram_block r = Some b -> 0 <= len -> a + len <= r_addr r + r_size r ->
  area_bytes a len ((fun i => hostmem u (host b + (a + i - r_addr r))) <$> seqZ 0 len).
Proof.
  intros Hf Hr Hram Hb Hlen Hfit.
  pose proof Hf as (r' & Hin & Hr' & Hh%holds_spec & Hok)%(find_block_region u Hwf).
  assert (r' = r) as -> by congruence. destruct Hok. unfold area_bytes. rewrite area_block by lia. apply Forall2_fmap, Forall_Forall2_diag.
  apply Forall_forall. intros i Hi%elem_of_seqZ. apply (ram_byte_block _ id r b); try done.
  apply find_block_Some; [done|]. split; [done|]. exists r. split; [done|].
  apply holds_spec. lia.
Qed.

Lemma mem_read_loop_ok fuel a size count acc :
  0 <= a < 2 ^ 64 -> 0 <= count <= size -> size < 2 ^ 64 ->
  area_ram u a (size - count) -> (rounds u a (size - count) <= fuel)%nat ->
  exists bytes, mem_read_loop mmio_cb_read fuel a size count acc u =
      Some ((loop_done, acc ++ bytes), u) /\ area_bytes a (size - count) bytes.
Proof.
  revert a count acc. induction fuel as [|fuel IH]; intros a count acc Ha Hc Hs Hram Hf.
  { pose proof (rounds_pos u a (size - count)). lia. }
  cbn [mem_read_loop]. case_if.
  2:{ exists []. rewrite app_nil_r. split; [done|]. replace (size - count) with 0 by lia.
      constructor. }
  destruct (ram_byte_inv a) as (id & r & b & Ef & Hin & Hr & Hh & Hok & Hr_ram & Hb & Hmax).
  { apply Hram; [done|]. apply in_area_first. lia. }
  erewrite bind_run by (by apply memory_mapping_ok). rewrite Ef.
  rewrite bind_get. erewrite bind_region by done.
  erewrite bind_lift by (by apply memory_region_len_ok).
  pose proof (rounds_step u Hwf fuel a (size - count) id r Ha ltac:(lia) Hin Hr Hh Hf) as Hf'.
  cbn zeta in Hf'. pose proof Hh as Hh'. apply holds_spec in Hh'.
  set (len := Z.min (size - count) (r_addr r + r_size r - a)) in *.
  erewrite bind_run by (apply (read_mem_ram a len id r b); try done; lia). cbn iota beta.
  replace (size - count - len) with (size - (count + len)) in * by lia.
  destruct (IH (u64 (a + len)) (count + len)
    (acc ++ ((fun i => hostmem u (host b + (a + i - r_addr r))) <$> seqZ 0 len)))
    as (bytes & E & HB); [apply (wrap_range 64); lia|lia|lia| |done|].
  { replace (size - (count + len)) with (size - count - len) by lia.
    apply area_ram_step; [lia..|done]. }
  eexists. rewrite E, <- app_assoc. split; [done|]. unfold area_bytes.
  rewrite (area_app a (size - count) len) by lia. apply Forall2_app.
  - apply (block_bytes a len id r b); try done; lia.
  - by replace (size - count - len) with (size - (count + len)) by lia.
Qed.
End Access.

(** ** Changing the record of a block *)

Lemma first_some_ext {A B} (f g : A -> option B) l :
  (forall x, f x = g x) -> first_some f l = first_some g l.
Proof. intros H. induction l as [|x l IH]; [done|]. cbn [first_some]. by rewrite H, IH. Qed.

Section Update.
Context (u : uc_struct) (id : Z) (r r' : region).
Context (Hwf : wf u) (Hin : id ∈ mapped_blocks u) (Hr : regions u !! id = Some r).
Context (Haddr : r_addr r' = r_addr r) (Hsize : r_size r' = r_size r) (Hok : block_ok u r').
Let u' := with_regions <[id := r']> u.

Lemma update_sys : id <> system_memory u.
Proof. intros ->. by apply (sys_not_block u Hwf). Qed.

(** A lookup gives a record at the same place. *)
Lemma update_lookup x rx :
  regions u' !! x = Some rx ->
  exists ry, regions u !! x = Some ry /\ r_addr rx = r_addr ry /\ r_size rx = r_size ry.
Proof.
  unfold u'. cbn [regions with_regions]. destruct (decide (x = id)) as [-> |Hne].
  - rewrite lookup_insert_eq. intros [= <-]. eauto.
  - rewrite lookup_insert_ne by done. eauto.
Qed.

Lemma wf_update : wf u'.
Proof.
  pose proof update_sys as Hne. constructor; [constructor|]; try apply Hwf.
  - destruct (wf_sys _ Hwf) as (subs & Hs & Hp). exists subs. split; [|done].
    unfold u'. cbn [regions with_regions system_memory]. by rewrite lookup_insert_ne.
  - intros x Hx. change (mapped_blocks u') with (mapped_blocks u) in Hx.
    unfold u'. cbn [regions with_regions]. destruct (decide (x = id)) as [-> |Hx'].
    + exists r'. rewrite lookup_insert_eq. split; [done|]. by apply (block_ok_config u).
    + rewrite lookup_insert_ne by done. destruct (wf_blocks _ Hwf x Hx) as (rx & Hrx & Hokx).
      exists rx. split; [done|]. by apply (block_ok_config u).
  - eapply StronglySorted_impl_in; [|apply (wf_sorted _ Hwf)].
    intros x y _ _ H rx ry (sx & Hsx & -> & ->)%update_lookup (sy & Hsy & -> & _)%update_lookup.
    by apply H.
  - intros x rx (ry & Hry & _)%update_lookup. by apply (wf_dom _ Hwf) in Hry.
Qed.

Lemma find_block_update x : find_block u' x = find_block u x.
Proof.
  apply first_some_ext. intros y. unfold block_at, u'. cbn [regions with_regions].
  destruct (decide (y = id)) as [-> |Hy]; [|by rewrite lookup_insert_ne].
  rewrite lookup_insert_eq, Hr. cbn [mbind option_bind]. unfold holds. by rewrite Haddr, Hsize.
Qed.
End Update.

(** ** Maps that differ in read-only flags *)

Definition ro_equiv (rs rs' : gmap Z region) : Prop :=
  forall id, r_with_readonly false <$> rs' !! id = r_with_readonly false <$> rs !! id.

Record mem_equiv (u u' : uc_struct) : Prop := {
  me_regions : ro_equiv (regions u) (regions u');
  me_mapped : mapped_blocks u' = mapped_blocks u;
  me_live : live_ram u' = live_ram u;
  me_next : next_region u' = next_region u;
  me_config : same_config u u';
  me_flags : same_flags u u'
}.

#[export] Instance mem_equiv_refl : Reflexive mem_equiv.
Proof. intros u. by constructor. Qed.

#[export] Instance mem_equiv_trans : Transitive mem_equiv.
Proof.
  intros u v w [Hr Hm Hl Hn [? ? ? ? ?] Hf] [Hr' Hm' Hl' Hn' [? ? ? ? ?] Hf'].
  constructor; [|congruence..|constructor; congruence|by etrans].
  intros id. by rewrite Hr', Hr.
Qed.

(** The record of a block up to the read-only flag. *)
Lemma ro_equiv_lookup rs rs' id r :
  ro_equiv rs rs' -> rs !! id = Some r ->
  exists ro, rs' !! id = Some (r_with_readonly ro r).
Proof.
  intros H Hr. specialize (H id). rewrite Hr in H.
  destruct (rs' !! id) as [r'|]; [|done]. injection H as H. exists (r_readonly r').
  f_equal. destruct r', r. cbn in *. by simplify_eq.
Qed.

Lemma ro_equiv_sym rs rs' : ro_equiv rs rs' -> ro_equiv rs' rs.
Proof. intros H id. by rewrite (H id). Qed.

Lemma find_block_equiv u u' x : mem_equiv u u' -> find_block u' x = find_block u x.
Proof.
  intros []. unfold find_block. rewrite me_mapped0. apply first_some_ext. intros y.
  unfold block_at. destruct (regions u !! y) as [r|] eqn:E.
  - by destruct (ro_equiv_lookup _ _ y r me_regions0 E) as [ro ->].
  - destruct (regions u' !! y) as [r|] eqn:E'; [|done].
    destruct (ro_equiv_lookup _ _ y r (ro_equiv_sym _ _ me_regions0) E') as [ro ?].
    congruence.
Qed.

Lemma cell_at_equiv u u' x :
  mem_equiv u u' ->
  cell_at u' x = (id ← find_block u x; r ← regions u !! id; cell_of (hostmem u') r x).
Proof.
  intros Heq. unfold cell_at. rewrite (find_block_equiv u u' x Heq).
  destruct (find_block u x) as [id|]; [|done]. cbn [mbind option_bind].
  destruct (regions u !! id) as [r|] eqn:E.
  - by destruct (ro_equiv_lookup _ _ id r (me_regions _ _ Heq) E) as [ro ->].
  - destruct (regions u' !! id) as [r|] eqn:E'; [|done].
    destruct (ro_equiv_lookup _ _ id r (ro_equiv_sym _ _ (me_regions _ _ Heq)) E') as [ro ?].
    congruence.
Qed.

Lemma ram_block_equiv u u' id b : mem_equiv u u' -> ram_block u' id b -> ram_block u id b.
Proof.
  intros [] [Hin (r & Hr & Hb)]. rewrite me_mapped0 in Hin. split; [done|].
  destruct (ro_equiv_lookup _ _ id r (ro_equiv_sym _ _ me_regions0) Hr) as [ro E].
  exists (r_with_readonly ro r). by split.
Qed.

Lemma host_ok_equiv user u u' : mem_equiv u u' -> host_ok user u -> host_ok user u'.
Proof.
  intros Heq Hh. constructor; intros id b Hb; apply (ram_block_equiv u) in Hb; try done;
    rewrite ?(me_live _ _ Heq); try (by eapply Hh).
  intros id' b' Hb'%(ram_block_equiv u); [|done]. by eapply Hh.
Qed.

(** ** Writing to a block *)

Lemma room_equiv u u' :
  mem_equiv u u' -> room u (length (mapped_blocks u)) -> room u' (length (mapped_blocks u')).
Proof. intros []. unfold room. by rewrite me_mapped0, (sc_page _ _ me_config0). Qed.

Lemma block_ok_readonly u r ro :
  (ro = true -> Z.land (r_perms r) UC_PROT_WRITE = 0) ->
  block_ok u r -> block_ok u (r_with_readonly ro r).
Proof. intros H []. by constructor; cbn; auto. Qed.

(** Changing the read-only flag of a block. *)
Lemma set_readonly_ok u id r ro :
  wf u -> room u (length (mapped_blocks u)) -> id ∈ mapped_blocks u -> regions u !! id = Some r -> block_ok u r ->
  (ro = true -> Z.land (r_perms r) UC_PROT_WRITE = 0) ->
  let u' := with_regions <[id := r_with_readonly ro r]> u in
  memory_region_set_readonly id ro u = Some (tt, u') /\ wf u' /\ mem_equiv u u'.
Proof.
  intros Hwf Hroom Hin Hr Hok Hro u'.
  assert (wf u') as Hwf' by (apply (wf_update u id r); try done; by apply block_ok_readonly).
  split_and!; [|done|].
  - unfold memory_region_set_readonly. erewrite bind_region by done.
    destruct (Bool.eqb_spec (r_readonly r) ro) as [<- |]; cbn [negb when].
    + unfold mret, M_ret, u', with_regions. rewrite insert_id; [by destruct u|].
      rewrite Hr. by destruct r.
    + erewrite bind_run by apply set_region_run. rewrite (bo_enabled _ _ Hok). cbn [when].
      pose proof (commit_layout u' Hwf') as Hc. by rewrite decide_True in Hc by exact Hroom.
  - constructor; try done. intros x. cbn [u' regions with_regions].
    destruct (decide (x = id)) as [-> |]; [|by rewrite lookup_insert_ne].
    by rewrite lookup_insert_eq, Hr.
Qed.

(** The bytes [buf] stored at [dst] in host memory. *)
Definition stored (h : Z -> Z) (dst : Z) (buf : list Z) (p : Z) : Z :=
  if (dst <=? p) && (p <? dst + Z.of_nat (length buf)) then buf !!! Z.to_nat (p - dst) else h p.

Lemma stored_split h h1 dst l buf p :
  0 <= l <= Z.of_nat (length buf) ->
  (forall p, h1 p = if (dst <=? p) && (p <? dst + l) then buf !!! Z.to_nat (p - dst) else h p) ->
  stored h1 (dst + l) (drop (Z.to_nat l) buf) p = stored h dst buf p.
Proof.
  intros Hl H. unfold stored. rewrite length_drop, H.
  destruct ((dst + l <=? p) && _) eqn:E1; destruct ((dst <=? p) && (p <? dst + Z.of_nat _)) eqn:E2;
    bool_to_prop.
  - rewrite lookup_total_drop. f_equal. lia.
  - exfalso. apply andb_false_iff in E2 as [E2|E2]; bool_to_prop; lia.
  - rewrite (proj2 (Z.leb_le dst p)), (proj2 (Z.ltb_lt p _)); [done| |lia].
    apply andb_false_iff in E1 as [E1|E1]; bool_to_prop; lia.
  - case_if; [|done]. exfalso. apply andb_false_iff in E2 as [E2|E2]; bool_to_prop; lia.
Qed.

Lemma flatview_write_ram view fuel u a buf id r b :
  wf u -> (forall x, view_lookup (ranges view) x =
     if (0 <=? x) && (x <? 2 ^ 64) then served u x else None) ->
  id ∈ mapped_blocks u -> regions u !! id = Some r -> block_ok u r ->
  r_ram r = true -> r_readonly r = false -> r_ram_block r = Some b -> r_size r <= max_length b ->
  r_addr r <= a -> buf <> [] -> a + Z.of_nat (length buf) <= r_addr r + r_size r ->
  (length buf <= fuel)%nat ->
  exists h, flatview_write fuel view a buf u = Some (true, with_host h (live_ram u) u) /\
    forall p, h p = stored (hostmem u) (host b + (a - r_addr r)) buf p.
Proof.
  intros Hwf Hl Hin Hr Hok Hram Hro Hb Hmax. revert u a buf Hwf Hl Hin Hr Hok.
  induction fuel as [|fuel IH]; intros u a buf Hwf Hl Hin Hr Hok Ha Hne Hfit Hfuel.
  { destruct buf; [done|cbn in Hfuel; lia]. }
  assert (0 < Z.of_nat (length buf)) as Hlen by (destruct buf; [done|cbn; lia]).
  assert (holds r a = true) as Hh by (apply holds_spec; lia).
  destruct (translate_ram u view a (Z.of_nat (length buf)) id r b) as (l & Ht & Hl1); try done.
  { apply find_block_Some; eauto. }
  cbn [flatview_write]. rewrite Ht. cbn [mbind option_bind]. rewrite Hram, Hro, Hb.
  cbn [andb negb mbind option_bind]. rewrite Z.min_l by lia.
  set (dst := host b + (a - r_addr r)).
  set (h1 := fun a0 => if (dst <=? a0) && (a0 <? dst + l) then buf !!! Z.to_nat (a0 - dst)
                       else hostmem u a0).
  rewrite length_drop. destruct (length buf - Z.to_nat l =? 0)%nat eqn:E.
  { apply Nat.eqb_eq in E. exists h1. split; [done|]. intros p. unfold h1, stored.
    by replace l with (Z.of_nat (length buf)) by lia. }
  apply Nat.eqb_neq in E. pose proof (bo_fits _ _ Hok). pose proof (bo_addr _ _ Hok).
  rewrite wrap_id by (unfold uint; lia).
  destruct (IH (with_host h1 (live_ram u) u) (a + l) (drop (Z.to_nat l) buf))
    as (h & Hrun & Hst); try done; try (rewrite ?length_drop; lia).
  - by apply wf_with_host.
  - by apply (block_ok_config u).
  - intros Hd. apply (f_equal length) in Hd. rewrite length_drop in Hd. cbn in Hd. lia.
  - rewrite Hrun. cbn [mbind option_bind andb]. exists h. split; [done|]. intros p.
    rewrite Hst. cbn [hostmem with_host].
    replace (host b + (a + l - r_addr r)) with (dst + l) by lia.
    apply stored_split; [lia|done].
Qed.

Lemma write_mem_ram u a buf id r b :
  wf u -> find_block u a = Some id -> regions u !! id = Some r -> r_ram r = true ->
  r_readonly r = false -> r_ram_block r = Some b -> buf <> [] ->
  a + Z.of_nat (length buf) <= r_addr r + r_size r ->
  exists h, write_mem a buf u = Some (true, with_host h (live_ram u) u) /\
    forall p, h p = stored (hostmem u) (host b + (a - r_addr r)) buf p.
Proof.
  intros Hwf Hf Hr Hram Hro Hb Hne Hfit.
  pose proof Hf as (r' & Hin & Hr' & Hh%holds_spec & Hok)%(find_block_region u Hwf).
  assert (r' = r) as -> by congruence. pose proof (bo_kind _ _ Hok) as Hk. rewrite Hram in Hk.
  destruct Hk as (b' & Hb' & Hle & _). assert (b' = b) as -> by congruence.
  destruct (current_map_ok u Hwf) as (view & Hv & _ & _ & _ & Hl).
  unfold write_mem. rewrite bind_get.
  rewrite (proj2 (Nat.ltb_lt 0 (length buf))) by (destruct buf; [done|cbn; lia]).
  erewrite bind_lift by done. unfold run.
  apply (flatview_write_ram view _ u a buf id r b); try done; lia.
Qed.

(** ** The loop of [uc_mem_write] *)

Section Write.
Context (os_alloc : list (Z * Z) -> Z -> option Z) (user : Z -> Prop).

Lemma mem_equiv_host u h : mem_equiv u (with_host h (live_ram u) u).
Proof. by constructor. Qed.

(** One round: the flag is lifted when the block is protected, the bytes are
    stored, and the flag is set again. *)
Lemma mem_write_step_ok u a bytes id r b :
  wf u -> room u (length (mapped_blocks u)) -> find_block u a = Some id -> regions u !! id = Some r -> r_ram r = true ->
  r_ram_block r = Some b -> bytes <> [] ->
  let len := Z.min (Z.of_nat (length bytes)) (r_addr r + r_size r - a) in
  exists u', mem_write_step os_alloc id a bytes u = Some (inr len, u') /\
    wf u' /\ mem_equiv u u' /\
    forall p, hostmem u' p =
      stored (hostmem u) (host b + (a - r_addr r)) (take (Z.to_nat len) bytes) p.
Proof.
  intros Hwf Hroom Hf Hr Hram Hb Hne len.
  pose proof Hf as (r' & Hin & Hr' & Hh & Hok)%(find_block_region u Hwf).
  assert (r' = r) as -> by congruence. pose proof Hh as Hh'. apply holds_spec in Hh'.
  assert (0 < Z.of_nat (length bytes)) by (destruct bytes; [done|cbn; lia]).
  assert (length (take (Z.to_nat len) bytes) = Z.to_nat len) as Htake
    by (rewrite length_take; lia).
  assert (take (Z.to_nat len) bytes <> []) as Hnt.
  { intros E. apply (f_equal length) in E. rewrite Htake in E. cbn in E. lia. }
  set (r1 := r_with_readonly false r).
  set (protected := Z.land (r_perms r) UC_PROT_WRITE =? 0).
  assert (exists u1, (when protected (memory_region_set_readonly id false)) u = Some (tt, u1) /\
    wf u1 /\ mem_equiv u u1 /\ regions u1 !! id = Some r1 /\ hostmem u1 = hostmem u)
    as (u1 & Hset & Hwf1 & Heq1 & Hr1 & Hh1).
  { destruct (set_readonly_ok u id r false) as (Hrun & Hwf' & Heq); try done.
    destruct protected eqn:Ep; [eexists; split_and!; [exact Hrun|done..|apply lookup_insert_eq|done]|].
    exists u. split_and!; try done. rewrite Hr. unfold r1.
    destruct (r_readonly r) eqn:Ero; [|by destruct r; cbn in *; subst].
    pose proof (bo_readonly _ _ Hok Hram Ero). unfold protected in Ep. bool_to_prop. done. }
  destruct (write_mem_ram u1 a (take (Z.to_nat len) bytes) id r1 b)
    as (h & Hw & Hst); try done; [by rewrite (find_block_equiv u)|rewrite Htake; cbn; lia|].
  set (u2 := with_host h (live_ram u1) u1) in *.
  assert (wf u2) as Hwf2 by by apply wf_with_host.
  assert (mem_equiv u u2) as Heq2 by (etrans; [exact Heq1|apply mem_equiv_host]).
  assert (mapped_blocks u2 = mapped_blocks u) as Em by apply Heq2.
  assert (exists u3, (when protected (memory_region_set_readonly id true)) u2 = Some (tt, u3) /\
    wf u3 /\ mem_equiv u2 u3 /\ hostmem u3 = hostmem u2) as (u3 & Hset' & Hwf3 & Heq3 & Hh3).
  { destruct protected eqn:Ep; [|by exists u2].
    destruct (set_readonly_ok u2 id r1 true) as (Hrun & Hwf' & Heq); try done.
    - by apply (room_equiv u).
    - by rewrite Em.
    - apply (block_ok_config u); [apply Heq2|]. by apply block_ok_readonly.
    - intros _. unfold protected in Ep. bool_to_prop. done.
    - eexists. split_and!; [exact Hrun|done..]. }
  exists u3. split_and!; [|done|by etrans|].
  - unfold mem_write_step. rewrite bind_get. erewrite bind_region by done. fold protected.
    erewrite bind_run by exact Hset. erewrite bind_lift by (by apply memory_region_len_ok).
    rewrite (wf_level _ Hwf). cbn [Z.eqb negb andb]. erewrite bind_run by done. fold len.
    cbn iota beta. erewrite bind_run by exact Hw. cbn iota beta.
    by erewrite bind_run by exact Hset'.
  - intros p. rewrite Hh3. cbn [u2 hostmem with_host]. rewrite Hst, Hh1. done.
Qed.

(** The memory of the blocks of an area belongs to no other block. *)
Definition area_private (u : uc_struct) (a n : Z) : Prop :=
  forall x id b id' b', uint 64 x -> in_area a n x = true -> find_block u x = Some id ->
    ram_block u id b -> ram_block u id' b' -> id <> id' -> apart b b'.

(** The cells after the bytes of an area have been written. *)
Definition cells_written (u u' : uc_struct) (a : Z) (bytes : list Z) : Prop :=
  forall x, uint 64 x -> cell_at u' x =
    if in_area a (Z.of_nat (length bytes)) x
    then match cell_at u x with
         | Some (Ram perms _) => Some (Ram perms (bytes !!! Z.to_nat (u64 (x - a))))
         | c => c
         end
    else cell_at u x.

(** Storing to the memory of one block. *)
Lemma cells_stored u u' a bytes id r b :
  wf u -> mem_equiv u u' -> 0 <= a < 2 ^ 64 ->
  find_block u a = Some id -> regions u !! id = Some r -> r_ram r = true ->
  r_ram_block r = Some b -> a + Z.of_nat (length bytes) <= r_addr r + r_size r ->
  (forall id' b', ram_block u id' b' -> id <> id' -> apart b b') ->
  (forall p, hostmem u' p = stored (hostmem u) (host b + (a - r_addr r)) bytes p) ->
  cells_written u u' a bytes.
Proof.
  intros Hwf Heq Ha Hf Hr Hram Hb Hfit Hpriv Hst x Hx.
  pose proof Hf as (r' & Hin & Hr' & Hh & Hok)%(find_block_region u Hwf).
  assert (r' = r) as -> by congruence. pose proof Hh as Hh'. apply holds_spec in Hh'.
  rewrite (cell_at_equiv u u' x Heq). unfold cell_at.
  destruct (in_area a (Z.of_nat (length bytes)) x) eqn:Ea.
  - destruct (in_area_block u a (Z.of_nat (length bytes)) x r Hok Hh) as [Hhx Hxa]; [lia|done..|].
    assert (find_block u x = Some id) as -> by (apply find_block_Some; eauto).
    cbn [mbind option_bind]. rewrite Hr. cbn [mbind option_bind]. unfold cell_of.
    rewrite Hram, Hb. cbn [mbind option_bind]. do 2 f_equal. rewrite Hst. unfold stored.
    rewrite (proj2 (Z.leb_le _ _)), (proj2 (Z.ltb_lt _ _)) by lia. cbn [andb]. f_equal.
    rewrite wrap_id by (unfold uint in *; lia). lia.
  - destruct (find_block u x) as [y|] eqn:Ef; [|done]. cbn [mbind option_bind].
    destruct (regions u !! y) as [ry|] eqn:Ery; [|done]. cbn [mbind option_bind]. unfold cell_of.
    destruct (r_ram ry) eqn:Hramy; [|done]. destruct (r_ram_block ry) as [c|] eqn:Hc; [|done].
    cbn [mbind option_bind]. do 2 f_equal. rewrite Hst. unfold stored. case_if; [|done]. exfalso.
    destruct (ram_cell u y ry c x Hwf Ef Ery Hramy Hc) as [Hbc Hxc].
    destruct (ram_cell u id r b a Hwf Hf Hr Hram Hb) as [Hbb _].
    pose proof (bo_kind _ _ Hok) as Hk. rewrite Hram in Hk. destruct Hk as (b' & ? & Hmax & _).
    assert (b' = b) as -> by congruence.
    destruct (decide (id = y)) as [<- |Hne].
    + assert (ry = r) as -> by congruence. assert (c = b) as -> by congruence.
      unfold in_area in Ea. bool_to_prop. rewrite wrap_id in Ea by (unfold uint in *; lia). lia.
    + destruct (Hpriv y c Hbc Hne); lia.
Qed.

Lemma cells_written_app u u1 u' a bytes len :
  0 <= len <= Z.of_nat (length bytes) -> Z.of_nat (length bytes) < 2 ^ 64 ->
  cells_written u u1 a (take (Z.to_nat len) bytes) ->
  cells_written u1 u' (u64 (a + len)) (drop (Z.to_nat len) bytes) ->
  cells_written u u' a bytes.
Proof.
  intros Hl Hn H1 H2 x Hx. rewrite (H2 x Hx), (H1 x Hx).
  rewrite length_drop, length_take, (in_area_cases a (Z.of_nat (length bytes)) len x) by lia.
  replace (Z.of_nat (length bytes - Z.to_nat len)) with (Z.of_nat (length bytes) - len) by lia.
  replace (Z.of_nat (Z.to_nat len `min` length bytes)) with len by lia.
  destruct (in_area (u64 (a + len)) _ x) eqn:E2.
  - pose proof E2 as [_ Eq]%in_area_step; [|lia..]. rewrite orb_true_r.
    assert (in_area a len x = false) as ->.
    { unfold in_area. apply Z.ltb_ge. pose proof (wrap_range 64 (x - u64 (a + len)) ltac:(lia)).
      unfold uint in *. lia. }
    rewrite lookup_total_drop. pose proof (wrap_range 64 (x - u64 (a + len)) ltac:(lia)) as Hr.
    unfold uint in Hr. by replace (Z.to_nat len + Z.to_nat (u64 (x - u64 (a + len))))%nat
      with (Z.to_nat (u64 (x - a))) by lia.
  - rewrite orb_false_r. destruct (in_area a len x) eqn:E1; [|done].
    unfold in_area in E1. bool_to_prop. rewrite lookup_total_take_lt; [done|].
    pose proof (wrap_range 64 (x - a) ltac:(lia)). unfold uint in *. lia.
Qed.

Lemma ram_byte_equiv u u' x :
  mem_equiv u u' -> is_Some (ram_byte u x) -> is_Some (ram_byte u' x).
Proof.
  intros Heq. unfold ram_byte. rewrite (cell_at_equiv u u' x Heq). unfold cell_at.
  destruct (find_block u x) as [id|]; [|done]. cbn [mbind option_bind].
  destruct (regions u !! id) as [r|]; [|done]. cbn [mbind option_bind]. unfold cell_of.
  destruct (r_ram r); [destruct (r_ram_block r)|destruct (r_opaque r)]; cbn; eauto.
Qed.

Lemma rounds_equiv u u' a n : mem_equiv u u' -> rounds u' a n = rounds u a n.
Proof.
  intros Heq. unfold rounds, pending. rewrite (me_mapped _ _ Heq).
  rewrite (list_filter_iff_in _ (fun id => ends_in (regions u) a n id = true)); [done|].
  intros id _. unfold ends_in. pose proof (me_regions _ _ Heq id) as E.
  destruct (regions u !! id) as [r|], (regions u' !! id) as [r'|]; try done.
  injection E as E. destruct r, r'. cbn in *. by simplify_eq.
Qed.

Lemma area_private_step u u' a n len :
  0 <= len <= n -> n < 2 ^ 64 -> mem_equiv u u' ->
  area_private u a n -> area_private u' (u64 (a + len)) (n - len).
Proof.
  intros Hl Hn Heq H x id b id' b' Hx E Hf Hb Hb'. rewrite (find_block_equiv u u' x Heq) in Hf.
  apply (ram_block_equiv u) in Hb, Hb'; [|done..]. eapply H; eauto.
  rewrite (in_area_cases a n len) by done. rewrite E. apply orb_true_r.
Qed.

Lemma mem_write_loop_ok fuel u a bytes :
  wf u -> room u (length (mapped_blocks u)) -> 0 <= a < 2 ^ 64 -> Z.of_nat (length bytes) < 2 ^ 64 ->
  area_ram u a (Z.of_nat (length bytes)) -> area_private u a (Z.of_nat (length bytes)) ->
  (rounds u a (Z.of_nat (length bytes)) <= fuel)%nat ->
  exists u', mem_write_loop os_alloc fuel a bytes u = Some (loop_done, u') /\
    wf u' /\ mem_equiv u u' /\ cells_written u u' a bytes.
Proof.
  revert u a bytes. induction fuel as [|fuel IH]; intros u a bytes Hwf Hroom Ha Hn Hram Hpriv Hf.
  { pose proof (rounds_pos u a (Z.of_nat (length bytes))). lia. }
  cbn [mem_write_loop]. destruct bytes as [|byte bytes].
  { exists u. split_and!; [done..|]. intros x Hx. by rewrite in_area_nil. }
  set (bs := byte :: bytes) in *. set (n := Z.of_nat (length bs)) in *.
  assert (0 < n) as Hpos by (unfold n, bs; cbn; lia).
  destruct (ram_byte_inv u Hwf a) as (id & r & b & Ef & Hin & Hr & Hh & Hok & Hr_ram & Hb & Hmax).
  { apply Hram; [done|]. by apply in_area_first. }
  rewrite (proj2 (Nat.ltb_lt 0 (length bs))) by (unfold bs; cbn; lia).
  erewrite bind_run by (by apply memory_mapping_ok). rewrite Ef.
  destruct (mem_write_step_ok u a bs id r b) as (u1 & Hstep & Hwf1 & Heq1 & Hst); try done.
  cbn zeta in Hstep, Hst. fold n in Hstep, Hst.
  erewrite bind_run by exact Hstep. cbn iota beta.
  pose proof (rounds_step u Hwf fuel a n id r Ha ltac:(lia) Hin Hr Hh Hf) as Hf'. cbn zeta in Hf'.
  pose proof Hh as Hh'. apply holds_spec in Hh'.
  set (len := Z.min n (r_addr r + r_size r - a)) in *.
  assert (Z.of_nat (length (drop (Z.to_nat len) bs)) = n - len) as Hrest
    by (rewrite length_drop; unfold n; lia).
  assert (cells_written u u1 a (take (Z.to_nat len) bs)) as Hw1.
  { eapply (cells_stored u u1 a _ id r b); try done; [rewrite length_take; lia|].
    intros id' b' Hb' Hne. eapply (Hpriv a); eauto; [by apply in_area_first|]. by split; eauto. }
  destruct (IH u1 (u64 (a + len)) (drop (Z.to_nat len) bs)) as (u' & Hrun & Hwf' & Heq' & Hw2);
    rewrite ?Hrest; [done|by apply (room_equiv u)|apply (wrap_range 64); lia|lia|..].
  - intros x Hx E. apply (ram_byte_equiv u); [done|]. eapply (area_ram_step u a n len); [lia|lia|done..].
  - apply (area_private_step u u1 a n len); [lia|lia|done|done].
  - by rewrite (rounds_equiv u).
  - exists u'. split_and!; [done..|by etrans|].
    by apply (cells_written_app u u1 u' a bs len); [unfold n in *; lia..| |].
Qed.

(** ** Properties *)

Lemma area_ram_mapped u a n : wf u -> area_ram u a n -> area_mapped u a n.
Proof.
  intros Hwf H x Hx E. destruct (ram_byte_inv u Hwf x (H x Hx E)) as (id & _ & _ & -> & _). eauto.
Qed.

Lemma uc_mem_write_ok u a bytes :
  inv user u -> uint 64 a -> Z.of_nat (length bytes) < 2 ^ 64 ->
  area_ram u a (Z.of_nat (length bytes)) -> area_private u a (Z.of_nat (length bytes)) ->
  exists u', uc_mem_write os_alloc a bytes u = Some (UC_ERR_OK, u') /\
    inv user u' /\ mem_equiv u u' /\ cells_written u u' a bytes.
Proof.
  intros [Hwf Hh Hroom] Ha Hn Hram Hpriv.
  destruct (check_mem_area_ok u Hwf a (Z.of_nat (length bytes)) Ha ltac:(lia)) as (c & Hc & Hcm).
  rewrite (proj2 Hcm) in Hc by by apply area_ram_mapped.
  destruct (mem_write_loop_ok (area_fuel u) u a bytes) as (u' & Hrun & Hwf' & Heq & Hw);
    try done; [by apply rounds_fuel|].
  exists u'. split_and!; [|split; [done|by apply (host_ok_equiv user u)|by apply (room_equiv u)]|done..].
  unfold uc_mem_write. erewrite bind_run by exact Hc. cbn iota. rewrite bind_get.
  by erewrite bind_run by exact Hrun.
Qed.

Lemma uc_mem_read_ok mmio_cb_read u a size :
  wf u -> uint 64 a -> 0 <= size < 2 ^ 64 -> area_ram u a size ->
  exists bytes, uc_mem_read mmio_cb_read a size u = Some ((UC_ERR_OK, bytes), u) /\
    area_bytes u a size bytes.
Proof.
  intros Hwf Ha Hs Hram.
  destruct (check_mem_area_ok u Hwf a size Ha Hs) as (c & Hc & Hcm).
  rewrite (proj2 Hcm) in Hc by by apply area_ram_mapped.
  destruct (mem_read_loop_ok u Hwf mmio_cb_read (area_fuel u) a size 0 []) as (bytes & Hrun & Hb);
    try done; [lia|lia|by rewrite Z.sub_0_r|by apply rounds_fuel|].
  exists bytes. rewrite Z.sub_0_r in Hb. split; [|done].
  unfold uc_mem_read. erewrite bind_run by exact Hc. cbn iota. rewrite bind_get.
  by erewrite bind_run by exact Hrun.
Qed.

(** C29: [uc_mem_read] never changes the engine; an area with an unmapped byte
    is refused with [UC_ERR_READ_UNMAPPED] and no byte is delivered, and an area
    of RAM, however many blocks it spans and whatever their permissions, is read
    in full: byte by byte what its cells hold. *)
Theorem uc_mem_read_correct mmio_cb_read u a size :
  inv user u -> uint 64 a -> uint 64 size ->
  (~ area_mapped u a size ->
     uc_mem_read mmio_cb_read a size u = Some ((UC_ERR_READ_UNMAPPED, []), u)) /\
  (area_ram u a size ->
     exists bytes, uc_mem_read mmio_cb_read a size u = Some ((UC_ERR_OK, bytes), u) /\
       area_bytes u a size bytes).
Proof.
  intros [Hwf Hh] Ha Hs. split; [|by apply uc_mem_read_ok].
  intros Hnot. destruct (check_mem_area_ok u Hwf a size Ha Hs) as (c & Hc & Hcm).
  destruct c; [by destruct Hnot; apply Hcm|]. unfold uc_mem_read.
  by erewrite bind_run by exact Hc.
Qed.

(** C28: [uc_mem_write] refuses an area with an unmapped byte with
    [UC_ERR_WRITE_UNMAPPED] and changes nothing.  In an area of RAM that no other
    block shares it stores every byte, in write-protected blocks too, leaves the
    permissions and every cell outside of the area as they were, and keeps the
    invariant. *)
Theorem uc_mem_write_correct u a bytes :
  inv user u -> uint 64 a -> Z.of_nat (length bytes) < 2 ^ 64 ->
  (~ area_mapped u a (Z.of_nat (length bytes)) ->
     uc_mem_write os_alloc a bytes u = Some (UC_ERR_WRITE_UNMAPPED, u)) /\
  (area_ram u a (Z.of_nat (length bytes)) -> area_private u a (Z.of_nat (length bytes)) ->
     exists u', uc_mem_write os_alloc a bytes u = Some (UC_ERR_OK, u') /\
       inv user u' /\ cells_written u u' a bytes).
Proof.
  intros Hinv Ha Hn. split.
  - intros Hnot. pose proof (inv_wf _ _ Hinv) as Hwf.
    destruct (check_mem_area_ok u Hwf a (Z.of_nat (length bytes)) Ha ltac:(lia)) as (c & Hc & Hcm).
    destruct c; [by destruct Hnot; apply Hcm|]. unfold uc_mem_write.
    by erewrite bind_run by exact Hc.
  - intros Hram Hpriv. destruct (uc_mem_write_ok u a bytes) as (u' & ? & ? & _ & ?); eauto.
Qed.

(** C30: what was written is read back: after [uc_mem_write] of some bytes,
    [uc_mem_read] of the same area returns exactly these bytes. *)
Theorem uc_mem_write_read mmio_cb_read u a bytes :
  inv user u -> uint 64 a -> Z.of_nat (length bytes) < 2 ^ 64 ->
  area_ram u a (Z.of_nat (length bytes)) -> area_private u a (Z.of_nat (length bytes)) ->
  exists u', uc_mem_write os_alloc a bytes u = Some (UC_ERR_OK, u') /\
    uc_mem_read mmio_cb_read a (Z.of_nat (length bytes)) u' = Some ((UC_ERR_OK, bytes), u').
Proof.
  intros Hinv Ha Hn Hram Hpriv.
  destruct (uc_mem_write_ok u a bytes) as (u' & Hw & Hinv' & Heq & Hc); try done.
  exists u'. split; [done|]. set (n := Z.of_nat (length bytes)) in *.
  destruct (uc_mem_read_ok mmio_cb_read u' a n) as (bytes' & Hr & HB).
  - apply Hinv'.
  - done.
  - lia.
  - intros x Hx E. apply (ram_byte_equiv u); [done|]. by apply Hram.
  - rewrite Hr. do 3 f_equal. apply list_eq_same_length with (n := length bytes); [done| |].
    { apply Forall2_length in HB. rewrite area_length in HB. unfold n in HB. lia. }
    intros i x y Hi Hx Hy. eapply Forall2_lookup_r in HB as (z & Hz & Ez); [|exact Hx].
    unfold area in Hz. apply list_lookup_fmap_Some in Hz as (j & -> & Hj).
    apply lookup_seqZ in Hj as [-> Hlt]. rewrite Z.add_0_l in Ez.
    assert (uint 64 (u64 (a + Z.of_nat i))) as Hu by (apply wrap_range; lia).
    assert (in_area a n (u64 (a + Z.of_nat i)) = true) as Hin.
    { unfold in_area. rewrite wrap_sub_l. replace (a + Z.of_nat i - a) with (Z.of_nat i) by lia.
      rewrite wrap_id by (unfold uint; lia). apply Z.ltb_lt. lia. }
    unfold ram_byte in Ez. rewrite (Hc _ Hu) in Ez. fold n in Ez. rewrite Hin in Ez.
    destruct (Hram _ Hu Hin) as [c Hcell]. unfold ram_byte in Hcell.
    destruct (cell_at u (u64 (a + Z.of_nat i))) as [[perms c'|]|]; [|done..].
    injection Ez as <-. rewrite wrap_sub_l.
    replace (a + Z.of_nat i - a) with (Z.of_nat i) by lia. rewrite wrap_id by (unfold uint; lia).
    rewrite Nat2Z.id. by apply list_lookup_total_correct.
Qed.
End Write.

(** ** An engine with one write-protected block *)

Definition block_engine : uc_struct :=
  match uc_mem_map bump 0x4000 0x2000 5 engine with Some (_, u) => u | None => engine end.

Lemma block_engine_ok :
  inv low block_engine /\
  (forall x, 0x4000 <= x < 0x6000 -> cell_at block_engine x = Some (Ram 5 0)) /\
  (forall x, 0x6000 <= x -> cell_at block_engine x = None).
Proof.
  destruct (uc_mem_map_ok bump low engine 0x4000 0x2000 5 0x10000 engine_inv)
    as (u' & Hrun & _ & Hinv & Hset); [by vm_compute..| | |done|by vm_compute|].
  - split_and!; try done; [by exists 4|by exists 2].
  - by intros x _.
  - assert (block_engine = u') as ->; [|split_and!; [done|..]].
    + unfold block_engine, uc_mem_map. rewrite bind_get.
      erewrite (bind_lift _ _ _ UC_ERR_OK) by (by vm_compute).
      rewrite bool_decide_true by done. cbn iota.
      change (fun block => mem_map block) with mem_map. by rewrite Hrun.
    + intros x Hx. rewrite Hset. case_if; [done|].
      apply andb_false_iff in Heqb as [?|?]; bool_to_prop; lia.
    + intros x Hx. rewrite Hset. case_if; [lia|done].
Qed.

Lemma block_engine_area : area_ram block_engine 0x4ffe 4.
Proof.
  intros x Hx E. unfold in_area in E. bool_to_prop. unfold uint in Hx.
  destruct (Z.le_gt_cases 0x4ffe x).
  - rewrite wrap_id in E by (unfold uint; lia). unfold ram_byte.
    rewrite (proj1 (proj2 block_engine_ok)) by lia. eauto.
  - exfalso. revert E. unfold wrap. rewrite <- (Z_mod_plus_full (x - 0x4ffe) 1), Z.mod_small by lia.
    lia.
Qed.

Lemma block_engine_private a n : area_private block_engine a n.
Proof.
  assert (mapped_blocks block_engine = [1]) as E by (by vm_compute).
  intros x id b id' b' _ _ _ [Hid _] [Hid' _] Hne. rewrite E in Hid, Hid'.
  apply list_elem_of_singleton in Hid, Hid'. congruence.
Qed.

Lemma uc_mem_read_correct_witness :
  exists bytes, uc_mem_read (fun _ _ _ _ => 0) 0x4ffe 4 block_engine =
    Some ((UC_ERR_OK, bytes), block_engine) /\ area_bytes block_engine 0x4ffe 4 bytes.
Proof.
  destruct (uc_mem_read_correct low (fun _ _ _ _ => 0) block_engine 0x4ffe 4
    (proj1 block_engine_ok)) as [_ H]; [by vm_compute..|]. apply H, block_engine_area.
Defined.

Lemma uc_mem_write_correct_witness :
  exists u', uc_mem_write bump 0x4ffe [1; 2; 3; 4] block_engine = Some (UC_ERR_OK, u') /\
    inv low u' /\ cell_at u' 0x5001 = Some (Ram 5 4).
Proof.
  destruct (uc_mem_write_correct bump low block_engine 0x4ffe [1; 2; 3; 4]
    (proj1 block_engine_ok)) as [_ H]; [by vm_compute..|].
  destruct (H block_engine_area (block_engine_private _ _)) as (u' & Hrun & Hinv & Hc).
  exists u'. split_and!; [exact Hrun|exact Hinv|]. clear Hrun Hinv H.
  rewrite Hc, (proj1 (proj2 block_engine_ok)) by (unfold uint; lia). reflexivity.
Defined.

Lemma uc_mem_write_read_witness :
  exists u', uc_mem_write bump 0x4ffe [1; 2; 3; 4] block_engine = Some (UC_ERR_OK, u') /\
    uc_mem_read (fun _ _ _ _ => 0) 0x4ffe 4 u' = Some ((UC_ERR_OK, [1; 2; 3; 4]), u').
Proof.
  apply (uc_mem_write_read bump low (fun _ _ _ _ => 0) block_engine 0x4ffe [1; 2; 3; 4]
    (proj1 block_engine_ok)); [by vm_compute..|apply block_engine_area|apply block_engine_private].
Defined.
