(* ===== verification/MemCut.v ===== *)
(** * Cutting blocks: [split_region] and the removal of blocks

    [uc_mem_unmap] and [uc_mem_protect] cut the blocks at the ends of a range: a
    block that is partly in the range is unmapped and its parts are mapped
    again.  This file shows what the removal of a block, the mapping of a part
    and a cut do to the memory map, and that a round of the loops over a range
    leaves fewer blocks to visit. *)

From S2P Require Import Prelude UcTypes FlatView Regions UcMem MemInv MemCommit MemMap MemAccess.

(** ** Removing a block *)

Lemma remove_block_filter x (l : list Z) :
  NoDup l -> remove_first x l = filter (fun y => y <> x) l.
Proof.
  induction 1 as [|y l Hy _ IH]; [done|]. cbn [remove_first]. rewrite filter_cons. case_if.
  - subst. rewrite decide_False by tauto. symmetry. apply list_filter_all.
    apply Forall_forall. intros z Hz ->. done.
  - rewrite decide_True by done. by rewrite IH.
Qed.

Lemma StronglySorted_filter {A} (R : relation A) (P : A -> Prop) `{!forall x, Decision (P x)} l :
  StronglySorted R l -> StronglySorted R (filter P l).
Proof.
  induction 1 as [|x l Hs IH HF]; [constructor|]. rewrite filter_cons. case_decide; [|done].
  constructor; [done|]. rewrite Forall_forall in *. intros y [_ Hy]%list_elem_of_filter. auto.
Qed.

Lemma flush_region_run u r :
  0 <= r_size r < 2 ^ 64 -> exists fl, flush_region r u = Some (tt, with_flushes fl u).
Proof.
  intros Hs. unfold flush_region. rewrite bind_get. unfold when. destruct (cpu u).
  - erewrite bind_lift by (by apply get64_Some). by eexists.
  - exists (flushes u). by destruct u.
Qed.

(** The live blocks after a block has been freed. *)
Definition live_after (b : option RAMBlock) (live : list (Z * Z)) : list (Z * Z) :=
  match b with
  | Some b => if prealloc b then live else filter (fun bl => bl.1 <> host b) live
  | None => live
  end.

Lemma qemu_ram_free_run b u :
  qemu_ram_free b u = Some (tt, with_host (hostmem u) (live_after b (live_ram u)) u).
Proof. destruct b as [b|]; cbn; [destruct (prealloc b)|]; destruct u; done. Qed.

(** The block [id] with region [r] is gone from the map of [u']. *)
Record removed (u u' : uc_struct) (id : Z) (r : region) : Prop := {
  rm_wf : wf u';
  rm_find : forall x, find_block u' x = if holds r x then None else find_block u x;
  rm_mapped : mapped_blocks u' = filter (fun y => y <> id) (mapped_blocks u);
  rm_old : forall x, x <> id -> x ∈ mapped_blocks u -> regions u' !! x = regions u !! x;
  rm_host : hostmem u' = hostmem u;
  rm_live : live_ram u' = live_after (r_ram_block r) (live_ram u);
  rm_config : same_config u u';
  rm_flags : same_flags u u'
}.

Section Remove.
Context (u : uc_struct) (id : Z) (r : region).
Context (Hwf : wf u) (Hin : id ∈ mapped_blocks u) (Hr : regions u !! id = Some r).

Lemma remove_sys : id <> system_memory u.
Proof. intros ->. by apply (sys_not_block u Hwf). Qed.

Lemma remove_block_ok : block_ok u r.
Proof. destruct (block_exists u Hwf id Hin) as (r' & Hr' & Hok). congruence. Qed.

Lemma layout_remove u' subs :
  Permutation subs (mapped_blocks u) ->
  regions u' !! system_memory u = Some (r_with_subregions (filter (fun y => y <> id) subs)
                                          (memory_region_init UINT64_MAX)) ->
  (forall x, x <> id -> x <> system_memory u -> regions u' !! x = regions u !! x) ->
  mapped_blocks u' = filter (fun y => y <> id) (mapped_blocks u) -> same_config u u' ->
  layout u' /\ forall x, x <> id -> x ∈ mapped_blocks u -> regions u' !! x = regions u !! x.
Proof.
  intros Hp Es Er Em Hsame. pose proof Hsame as [Esys Elev Epage Elong Ehost].
  assert (forall x, x <> id -> x ∈ mapped_blocks u -> regions u' !! x = regions u !! x) as Hold.
  { intros x Hx Hxin. apply Er; [done|]. intros ->. by apply (sys_not_block u Hwf). }
  split; [|done]. constructor.
  - rewrite Elev. apply (wf_level _ Hwf).
  - rewrite Epage. apply (wf_page _ Hwf).
  - rewrite Elong. apply (wf_long _ Hwf).
  - rewrite Ehost. apply (wf_host_page _ Hwf).
  - eexists. rewrite Esys. split; [exact Es|]. by rewrite Em, Hp.
  - intros x. rewrite Em, list_elem_of_filter. intros [Hx Hxin].
    destruct (block_exists u Hwf x Hxin) as (rx & Hrx & Hok). exists rx.
    rewrite Hold by done. split; [done|]. by apply (block_ok_config u).
  - rewrite Em. eapply StronglySorted_impl_in; [|apply StronglySorted_filter, (wf_sorted _ Hwf)].
    intros x y [Hx Hxin]%list_elem_of_filter [Hy Hyin]%list_elem_of_filter H rx ry.
    rewrite !Hold by done. apply H.
Qed.

Lemma wf_remove u' subs :
  regions u !! system_memory u = Some (r_with_subregions subs (memory_region_init UINT64_MAX)) ->
  Permutation subs (mapped_blocks u) ->
  regions u' = <[system_memory u := r_with_subregions (filter (fun y => y <> id) subs)
                   (memory_region_init UINT64_MAX)]> (delete id (regions u)) ->
  mapped_blocks u' = filter (fun y => y <> id) (mapped_blocks u) ->
  next_region u' = next_region u -> same_config u u' ->
  wf u' /\ forall x, x <> id -> x ∈ mapped_blocks u -> regions u' !! x = regions u !! x.
Proof.
  intros Hs Hp Er Em En Hsame.
  destruct (layout_remove u' subs Hp) as [Hlay Hold]; [..|done|done|].
  { by rewrite Er, lookup_insert_eq. }
  { intros x Hx Hxs. by rewrite Er, lookup_insert_ne, lookup_delete_ne. }
  split; [|done]. constructor; [done|].
  intros x rx. rewrite Er, En, (sc_sys _ _ Hsame), Em, list_elem_of_filter.
  destruct (decide (x = system_memory u)) as [-> |Hne].
  { intros _. split; [|by left]. by apply (wf_dom _ Hwf) in Hs as [? _]. }
  rewrite lookup_insert_ne by done. intros [Hx Hrx]%lookup_delete_Some.
  destruct (wf_dom _ Hwf x rx Hrx) as [? [|]]; [done|]. split; [done|]. right. by split.
Qed.

Lemma memory_unmap_run :
  room u (length (mapped_blocks u)) ->
  exists u', memory_unmap id u = Some (tt, u') /\ removed u u' id r.
Proof.
  intros Hroom.
  pose proof remove_block_ok as Hok. pose proof remove_sys as Hne.
  destruct (wf_sys _ Hwf) as (subs & Hs & Hp). pose proof (bo_size _ _ Hok) as Hsz.
  destruct (flush_region_run u r) as [fl Hfl]; [lia|].
  set (s' := r_with_subregions (filter (fun y => y <> id) subs) (memory_region_init UINT64_MAX)).
  set (r0 := r_with_container None r).
  set (u2 := with_regions (fun rs => <[system_memory u := s']> (<[id := r0]> rs))
               (with_flushes fl u)).
  set (rest := filter (fun y => y <> id) (mapped_blocks u)).
  assert (memory_region_del_subregion (system_memory u) id (with_flushes fl u) = Some (tt, u2))
    as Hdel.
  { unfold memory_region_del_subregion. erewrite bind_run.
    2:{ unfold memory_region_remove_subregion. erewrite bind_region by exact Hr.
        erewrite bind_run by (rewrite (bo_container _ _ Hok), bool_decide_true by done; done).
        erewrite bind_run by (by apply upd_region_run).
        apply (upd_region_run _ _ _ (r_with_subregions subs (memory_region_init UINT64_MAX))).
        cbn [regions with_regions with_flushes]. by rewrite lookup_insert_ne. }
    destruct (layout_remove (with_mapped rest u2) subs Hp) as [Hlay _]; try done.
    { cbn [u2 regions with_mapped with_regions with_flushes]. by rewrite lookup_insert_eq. }
    { intros x Hx Hxs. cbn [u2 regions with_mapped with_regions with_flushes].
      by rewrite !lookup_insert_ne. }
    pose proof (commit_run u2 rest Hlay) as Hc. rewrite decide_True in Hc; [exact Hc|].
    pose proof (length_filter (fun y => y <> id) (mapped_blocks u)).
    unfold room in *. change (target_page_size u2) with (target_page_size u). unfold rest. lia. }
  set (u3 := with_mapped (remove_first id (mapped_blocks u)) u2).
  set (u4 := with_host (hostmem u) (live_after (r_ram_block r) (live_ram u)) u3).
  set (u5 := with_regions (delete id) u4).
  assert (destroy_region id u3 = Some (tt, u5)) as Hdes.
  { assert (regions u3 !! id = Some r0) as Hr3.
    { unfold u3, u2. cbn [regions with_mapped with_regions with_flushes].
      rewrite lookup_insert_ne by done. apply lookup_insert_eq. }
    unfold destroy_region. erewrite bind_region by exact Hr3.
    erewrite bind_run.
    2:{ cbn [memory_region_filter_subregions tree_depth]. erewrite bind_region by exact Hr3.
        cbn [r0 r_subregions r_with_container]. rewrite (bo_leaf _ _ Hok). done. }
    erewrite bind_run by apply qemu_ram_free_run. done. }
  exists u5. split.
  { unfold memory_unmap. erewrite bind_region by done. erewrite bind_run by exact Hfl.
    rewrite bind_get. change (system_memory (with_flushes fl u)) with (system_memory u).
    erewrite bind_run by exact Hdel. unfold memory_region_remove_mapped_block. rewrite bind_get.
    change (mapped_blocks u2) with (mapped_blocks u). rewrite bool_decide_true by done.
    unfold when. erewrite bind_run by done. exact Hdes. }
  assert (mapped_blocks u5 = filter (fun y => y <> id) (mapped_blocks u)) as Em
    by (apply remove_block_filter, blocks_NoDup, Hwf).
  assert (regions u5 = <[system_memory u := s']> (delete id (regions u))) as Er.
  { unfold u5, u4, u3, u2. cbn [regions with_mapped with_host with_regions with_flushes].
    by rewrite delete_insert_ne, delete_insert_eq. }
  destruct (wf_remove u5 subs Hs Hp Er Em) as [Hwf' Hold]; [done..|].
  constructor; try done. intros x. destruct (holds r x) eqn:Hh.
  - apply find_block_None; [done|]. intros y ry. rewrite Em, list_elem_of_filter. intros [Hy Hyin].
    rewrite Hold by done. intros Hry. apply not_true_is_false. intros Hhy.
    apply Hy. by eapply (block_unique u Hwf y id).
  - unfold find_block. rewrite Em.
    destruct (first_some (block_at (regions u) x) (mapped_blocks u)) as [y|] eqn:E.
    + apply first_some_inv in E as (z & Hz & (-> & rz & Hrz & Hhz)%block_at_Some).
      assert (z <> id) by congruence. rewrite <- Em.
      apply (find_block_Some u5 Hwf'). rewrite Em, list_elem_of_filter. split; [done|].
      exists rz. by rewrite Hold.
    + rewrite <- Em. apply (find_block_None u5 Hwf'). intros y ry.
      rewrite Em, list_elem_of_filter. intros [Hy Hyin]. rewrite Hold by done.
      by apply (find_block_None u Hwf).
Qed.
End Remove.

Lemma cell_at_removed u u' id r x :
  wf u -> removed u u' id r -> regions u !! id = Some r ->
  cell_at u' x = if holds r x then None else cell_at u x.
Proof.
  intros Hwf [] Hr. unfold cell_at. rewrite rm_find0, rm_host0.
  destruct (holds r x) eqn:Hh; [done|].
  destruct (find_block u x) as [y|] eqn:E; [|done]. cbn [mbind option_bind].
  apply find_block_Some in E as (Hin & ry & Hry & Hhy); [|done].
  rewrite rm_old0; [done| |done]. intros ->. congruence.
Qed.

Lemma ram_block_removed u u' id r y b :
  removed u u' id r -> ram_block u' y b -> y <> id /\ ram_block u y b.
Proof.
  intros [] [Hin (ry & Hry & Hb)]. rewrite rm_mapped0, list_elem_of_filter in Hin.
  destruct Hin as [Hne Hin]. rewrite rm_old0 in Hry by done. split; [done|]. split; eauto.
Qed.

Lemma removed_count u u' id r :
  wf u -> removed u u' id r -> id ∈ mapped_blocks u ->
  S (length (mapped_blocks u')) = length (mapped_blocks u).
Proof.
  intros Hwf [] Hin. rewrite rm_mapped0.
  assert (mapped_blocks u ≡ₚ id :: filter (fun y => y <> id) (mapped_blocks u)) as Hp.
  { apply NoDup_Permutation; [apply blocks_NoDup, Hwf| |].
    - constructor; [by intros [? _]%list_elem_of_filter|]. apply NoDup_filter, blocks_NoDup, Hwf.
    - intros x. rewrite elem_of_cons, list_elem_of_filter. destruct (decide (x = id)); naive_solver. }
  by rewrite (Permutation_length Hp).
Qed.

Lemma room_le u u' m n : same_config u u' -> (m <= n)%nat -> room u n -> room u' m.
Proof. intros Hc Hle. unfold room. rewrite (sc_page _ _ Hc). lia. Qed.

Lemma host_ok_removed user u u' id r :
  host_ok user u -> removed u u' id r -> id ∈ mapped_blocks u -> regions u !! id = Some r ->
  host_ok user u'.
Proof.
  intros Hh Hrm Hin Hr.
  constructor; intros y b Hb; apply (ram_block_removed u u' id r) in Hb as [Hne Hb]; try done;
    try (by eapply Hh).
  - intros Hp. rewrite (rm_live _ _ _ _ Hrm). pose proof (ho_live _ _ Hh _ _ Hb Hp) as Hlive.
    unfold live_after. destruct (r_ram_block r) as [c|] eqn:Hc; [|done].
    destruct (prealloc c) eqn:Ep; [done|]. apply list_elem_of_filter. split; [|done]. cbn.
    assert (ram_block u id c) as Hbc by (split; eauto).
    pose proof (ho_length _ _ Hh _ _ Hb). pose proof (ho_length _ _ Hh _ _ Hbc).
    destruct (ho_apart _ _ Hh _ _ Hb _ _ Hbc Hne Hp); lia.
  - intros y' b' Hb'. apply (ram_block_removed u u' id r) in Hb' as [_ Hb']; [|done].
    by eapply Hh.
Qed.

(** ** Cutting a block *)

(** Every block of [u'] is a block of [u] other than [id], or lies in the place
    of [id]. *)
Definition recut (u u' : uc_struct) (id : Z) (r : region) : Prop :=
  forall y ry, y ∈ mapped_blocks u' -> regions u' !! y = Some ry ->
    (y ∈ mapped_blocks u /\ y <> id /\
       exists r0, regions u !! y = Some r0 /\ r_addr r0 = r_addr ry /\ r_size r0 = r_size ry) \/
    (r_addr r <= r_addr ry /\ r_addr ry + r_size ry <= r_addr r + r_size r).

Lemma inv_removed user u u' id r :
  inv user u -> removed u u' id r -> id ∈ mapped_blocks u -> regions u !! id = Some r ->
  inv user u'.
Proof.
  intros [Hwf Hh Hroom] Hrm Hin Hr. split; [apply Hrm|by eapply host_ok_removed|].
  pose proof (removed_count u u' id r Hwf Hrm Hin).
  eapply room_le; [apply Hrm| |exact Hroom]. lia.
Qed.

Lemma recut_removed u u' id r : removed u u' id r -> recut u u' id r.
Proof.
  intros [] y ry Hy Hry. left. rewrite rm_mapped0, list_elem_of_filter in Hy.
  destruct Hy as [Hne Hy]. rewrite rm_old0 in Hry by done. eauto 10.
Qed.

Lemma recut_added u u1 u' id r r' :
  recut u u1 id r -> added u1 u' r' -> r_addr r <= r_addr r' ->
  r_addr r' + r_size r' <= r_addr r + r_size r -> recut u u' id r.
Proof.
  intros Hrc Had Hlo Hhi y ry Hy Hry. rewrite (ad_mapped _ _ _ Had), elem_of_cons in Hy.
  destruct Hy as [-> | Hy].
  - right. rewrite (ad_new _ _ _ Had) in Hry. by simplify_eq.
  - apply (Hrc y ry); [done|]. by rewrite <- (ad_old _ _ _ Had).
Qed.

Lemma recut_equiv u u1 u' id r : recut u u1 id r -> mem_equiv u1 u' -> recut u u' id r.
Proof.
  intros Hrc Heq y ry Hy Hry. rewrite (me_mapped _ _ Heq) in Hy.
  destruct (ro_equiv_lookup _ _ y ry (ro_equiv_sym _ _ (me_regions _ _ Heq)) Hry) as [ro E].
  apply (Hrc y _ Hy E).
Qed.

(** ** Unmapping a whole block *)

Lemma block_end u r : block_ok u r -> r_addr r + r_size r < 2 ^ 64 -> r_end r = r_addr r + r_size r.
Proof. intros Hok H. rewrite (bo_end _ _ Hok). apply wrap_id. destruct Hok. unfold uint. lia. Qed.

(** The last byte of the block is the last of the address space: its [end] is
    0. *)
Definition at_top (r : region) : Prop := r_addr r + r_size r = 2 ^ 64.

#[export] Instance at_top_dec r : Decision (at_top r).
Proof. unfold at_top. apply _. Defined.

Lemma top_end u r : block_ok u r -> at_top r -> r_end r = 0.
Proof. intros Hok E. rewrite (bo_end _ _ Hok), E. reflexivity. Qed.

Lemma below_top u r : block_ok u r -> ~ at_top r -> r_addr r + r_size r < 2 ^ 64.
Proof. intros Hok H. pose proof (bo_fits _ _ Hok). unfold at_top in H. lia. Qed.

Section Unmap.
Context (os_alloc : list (Z * Z) -> Z -> option Z) (user : Z -> Prop).
Context (mmio_cb_read : Z -> Z -> Z -> Z -> Z) (malloc_ok : uc_struct -> Z -> bool).
Context (unmap : Z -> Z -> M uc_err).

(** A block inside the range needs no cut; one that ends at the last address
    counts as inside of every range from its start. *)
Lemma split_whole u r size del :
  block_ok u r -> size = r_size r \/ at_top r ->
  (if r_ram r then split_region os_alloc mmio_cb_read malloc_ok unmap r (r_addr r) size del
   else split_mmio_region unmap r (r_addr r) size del) u = Some (true, u).
Proof.
  intros Hok Hw. unfold split_region, split_mmio_region. rewrite Z.leb_refl, Z.geb_leb.
  assert ((r_end r <=? u64 (r_addr r + size)) = true) as ->; [|by destruct (r_ram r)].
  apply Z.leb_le. destruct Hw as [-> |Ht].
  - by rewrite (bo_end _ _ Hok).
  - rewrite (top_end u r Hok Ht). apply (wrap_range 64). lia.
Qed.

(** A range that starts inside of such a block is refused. *)
Lemma split_top u r address size del :
  block_ok u r -> at_top r -> r_ram r = true -> r_addr r < address -> 0 < size ->
  split_region os_alloc mmio_cb_read malloc_ok unmap r address size del u = Some (false, u).
Proof.
  intros Hok Ht Hram Ha Hs. unfold split_region. rewrite (top_end u r Hok Ht), !Z.geb_leb.
  pose proof (bo_addr _ _ Hok). rewrite (proj2 (Z.leb_gt address _)) by lia. cbn [andb].
  rewrite (proj2 (Z.eqb_neq size 0)), (proj2 (Z.leb_le 0 address)) by lia. done.
Qed.

Lemma unmap_whole u id r :
  wf u -> room u (length (mapped_blocks u)) -> id ∈ mapped_blocks u -> regions u !! id = Some r ->
  exists u', mem_unmap os_alloc mmio_cb_read malloc_ok unmap (r_addr r) (r_size r) u
      = Some (UC_ERR_OK, u')
    /\ removed u u' id r.
Proof.
  intros Hwf Hroom Hin Hr. pose proof (remove_block_ok u id r Hwf Hin Hr) as Hok.
  pose proof (bo_fits _ _ Hok) as He. pose proof (bo_size _ _ Hok). pose proof (bo_addr _ _ Hok).
  destruct (memory_unmap_run u id r Hwf Hin Hr Hroom) as (u' & Hrun & Hrm).
  exists u'. split; [|done].
  assert (find_block u (r_addr r) = Some id) as Hf.
  { apply find_block_Some; [done|]. split; [done|]. exists r. split; [done|]. apply holds_spec. lia. }
  destruct (check_mem_area_ok u Hwf (r_addr r) (r_size r)) as (c & Hc & Hcm); [lia..|].
  rewrite (proj2 Hcm) in Hc.
  2:{ intros x Hx E. exists id. apply find_block_Some; [done|]. split; [done|]. exists r.
      split; [done|].
      by destruct (in_area_block u (r_addr r) (r_size r) x r Hok) as [Hh _];
        [apply holds_spec; lia|lia|..]. }
  unfold mem_unmap. rewrite bind_get. case_if; [lia|].
  rewrite (proj2 (page_aligned u (r_addr r) Hwf)), (proj2 (page_aligned u (r_size r) Hwf))
    by apply Hok. cbn [negb]. erewrite bind_run by exact Hc. cbn iota.
  rewrite (wf_level _ Hwf). change (0 <? 0) with false. cbn iota.
  unfold area_fuel. rewrite Nat.add_comm. cbn [unmap_loop Nat.add]. case_if; [|lia].
  erewrite bind_run by (apply memory_mapping_ok; [done|lia]). rewrite Hf.
  erewrite bind_lift by done. rewrite bind_get. erewrite bind_region by done.
  erewrite bind_lift by (apply memory_region_len_ok; [done|apply holds_spec; lia]).
  rewrite Z.sub_0_r. replace (Z.min (r_size r) (r_addr r + r_size r - r_addr r))
    with (r_size r) by lia.
  erewrite bind_run by (by apply split_whole; [|left]). cbn iota.
  erewrite bind_run by (apply memory_mapping_ok; [done|lia]). rewrite Hf.
  erewrite bind_run by exact Hrun. case_if; [lia|done].
Qed.
End Unmap.

(** ** Mapping the parts of a block *)

Lemma and_then_run (m : M uc_err) (k : M bool) u u' :
  m u = Some (UC_ERR_OK, u') -> and_then m k u = k u'.
Proof. intros H. unfold and_then. erewrite bind_run by exact H. by rewrite bool_decide_true. Qed.

Lemma mem_map_check_pass u address size perms :
  wf u -> uint 64 address -> uint 64 size -> uint 32 perms ->
  map_args_ok u address size perms -> unmapped u address size ->
  mem_map_check u address size perms = Some UC_ERR_OK.
Proof.
  intros Hwf Ha Hs Hp Hargs Hun.
  destruct (mem_map_check_ok u address size perms) as (err & -> & Herr); try done.
  by destruct err; try done; destruct Herr as [_ Hn]; destruct Hn.
Qed.

Section Parts.
Context (os_alloc : list (Z * Z) -> Z -> option Z) (user : Z -> Prop).
Context `{HA : !HostAlloc os_alloc user}.

(** A block of [n] bytes at [addr] has joined the map of [u]. *)
Record part_added (u u' : uc_struct) (addr n perms : Z) (f : Z -> option cell) : Prop := {
  pa_inv : inv user u';
  pa_cells : cells_set u u' addr n f;
  pa_recut : forall v id r, recut v u id r -> r_addr r <= addr ->
    addr + n <= r_addr r + r_size r -> recut v u' id r;
  pa_block : exists id r, find_block u' addr = Some id /\ regions u' !! id = Some r /\
    r_addr r = addr /\ r_size r = n /\ r_perms r = perms /\ r_ram r = true;
  pa_keep : forall x id r, find_block u x = Some id -> regions u !! id = Some r ->
    find_block u' x = Some id /\ exists ro, regions u' !! id = Some (r_with_readonly ro r);
  pa_find : forall x, ~ (addr <= x < addr + n) -> find_block u' x = find_block u x;
  pa_count : length (mapped_blocks u') = S (length (mapped_blocks u));
  pa_config : same_config u u';
  pa_flags : same_flags u u'
}.

(** A block added to the map, apart from changes of host memory. *)
Lemma added_part u h live u' r addr n perms f :
  wf u -> inv user u' -> added (with_host h live u) u' r -> unmapped u addr n -> 0 < n ->
  r_addr r = addr -> r_size r = n -> r_perms r = perms -> r_ram r = true ->
  cells_set u u' addr n f -> part_added u u' addr n perms f.
Proof.
  intros Hwf Hinv Had Hun Hn <- <- Hp Hram Hset.
  assert (same_config u u' /\ same_flags u u') as [Hcfg Hfl]
    by (by destruct (ad_state _ _ _ Had) as (? & ? & ? & ? & ->)).
  pose proof (ad_find _ _ _ Had) as Hfind.
  change (find_block (with_host h live u)) with (find_block u) in Hfind.
  constructor; try done.
  - intros v id ry Hrc Hlo Hhi. by apply (recut_added v (with_host h live u) u' id ry r).
  - eexists _, _. rewrite Hfind. rewrite (proj2 (holds_spec _ (r_addr r))) by lia.
    split_and!; [done|apply Had|done..].
  - intros x id ry Hf Hr. rewrite Hfind. destruct (holds r x) eqn:Hh.
    { apply holds_spec in Hh. by rewrite Hun in Hf. }
    split; [done|]. exists (r_readonly ry). rewrite (ad_old _ _ _ Had).
    + change (regions u !! id = Some (r_with_readonly (r_readonly ry) ry)). rewrite Hr.
      by destruct ry.
    + by apply find_block_Some in Hf as [? _].
  - intros x Hx. rewrite Hfind. destruct (holds r x) eqn:Hh; [|done].
    apply holds_spec in Hh. lia.
  - by rewrite (Permutation_length (ad_mapped _ _ _ Had)).
Qed.

Lemma ptr_part_ok u addr n perms ptr off k :
  inv user u -> uint 64 addr -> uint 64 n -> uint 32 perms -> map_args_ok u addr n perms ->
  unmapped u addr n -> one_more u -> ptr + off <> 0 ->
  (forall x, ptr + off <= x < ptr + off + n -> user x) ->
  exists u', map_ptr_part perms ptr addr n off k u = k u' /\ hostmem u' = hostmem u /\
    part_added u u' addr n perms (fun x => Some (Ram perms (hostmem u (ptr + off + (x - addr))))).
Proof.
  intros Hinv Ha Hn Hp Hargs Hun Hroom Hz Huser. pose proof (inv_wf _ _ Hinv) as Hwf.
  destruct (uc_mem_map_ptr_ok user u addr n perms (ptr + off)) as (u' & Hrun & Had & Hinv' & Hset);
    try done; [apply Hp|].
  exists u'. split_and!.
  - unfold map_ptr_part. apply and_then_run. unfold uc_mem_map_ptr. case_if; [done|].
    rewrite bind_get. erewrite bind_lift by by apply mem_map_check_pass.
    by rewrite bool_decide_true.
  - by destruct (ad_state _ _ _ Had) as (? & ? & ? & ? & ->).
  - apply (added_part u (hostmem u) (live_ram u) u' (placed (system_memory u) addr 0
      (ram_region n perms false (mk_block (ptr + off) n true)))); try done; [|apply Hargs|].
    + replace (with_host (hostmem u) (live_ram u) u) with u by (by destruct u). exact Had.
    + apply (aligned_size u); [done|apply Hargs].
Qed.

Lemma cell_at_outside u x : wf u -> ~ uint 64 x -> cell_at u x = None.
Proof.
  intros Hwf Hx. unfold cell_at. destruct (find_block u x) as [id|] eqn:E; [|done].
  apply find_block_region in E as (r & _ & _ & Hh%holds_spec & Hok); [|done].
  destruct Hok. unfold uint in Hx. lia.
Qed.

Lemma in_area_range addr n x :
  0 <= addr -> 0 <= n -> addr + n <= 2 ^ 64 -> uint 64 x ->
  in_area addr n x = (addr <=? x) && (x <? addr + n).
Proof.
  intros Ha Hn Hfit Hx. unfold in_area, uint in *. destruct (Z.le_gt_cases addr x).
  - rewrite wrap_id by (unfold uint; lia). rewrite (proj2 (Z.leb_le addr x)) by done. cbn.
    destruct (Z.ltb_spec (x - addr) n), (Z.ltb_spec x (addr + n)); try done; lia.
  - rewrite (proj2 (Z.leb_gt addr x)) by done. cbn. apply Z.ltb_ge. unfold wrap.
    rewrite <- (Z_mod_plus_full (x - addr) 1), Z.mod_small by lia. lia.
Qed.

(** The block has the bytes that were written after it was mapped. *)
Lemma part_written u u1 u' addr n perms bytes :
  wf u -> part_added u u1 addr n perms (fun _ => Some (Ram perms 0)) -> inv user u' ->
  0 <= addr -> addr + n <= 2 ^ 64 -> Z.of_nat (length bytes) = n ->
  mem_equiv u1 u' -> cells_written u1 u' addr bytes ->
  part_added u u' addr n perms (fun x => Some (Ram perms (bytes !!! Z.to_nat (x - addr)))).
Proof.
  intros Hwf Hpa Hinv Ha Hfit Hlen Heq Hw. pose proof (inv_wf _ _ Hinv) as Hwf'. constructor.
  - done.
  - intros x. destruct (decide (0 <= x < 2 ^ 64)) as [Hx|Hx].
    + rewrite (Hw x Hx), Hlen, (pa_cells _ _ _ _ _ _ Hpa x), in_area_range by (done || lia).
      case_if; [|done]. by rewrite wrap_id by (unfold uint; lia).
    + rewrite !cell_at_outside by done. case_if; [lia|done].
  - intros v id r Hrc Hlo Hhi. eapply recut_equiv; [|exact Heq]. by apply Hpa.
  - destruct (pa_block _ _ _ _ _ _ Hpa) as (id & r & Hf & Hr & ? & ? & ? & ?).
    destruct (ro_equiv_lookup _ _ id r (me_regions _ _ Heq) Hr) as [ro Hr'].
    exists id, (r_with_readonly ro r). by rewrite (find_block_equiv u1).
  - intros x id r Hf Hr.
    destruct (pa_keep _ _ _ _ _ _ Hpa x id r Hf Hr) as (Hf1 & ro & Hr1).
    destruct (ro_equiv_lookup _ _ id _ (me_regions _ _ Heq) Hr1) as [ro' Hr'].
    split; [by rewrite (find_block_equiv u1)|]. by exists ro'.
  - intros x Hx. rewrite (find_block_equiv u1) by done. by apply Hpa.
  - rewrite (me_mapped _ _ Heq). apply Hpa.
  - destruct (pa_config _ _ _ _ _ _ Hpa), (me_config _ _ Heq). constructor; congruence.
  - etrans; [apply Hpa|apply Heq].
Qed.

Lemma ram_part_ok u addr n perms backup off k :
  inv user u -> uint 64 addr -> uint 64 n -> uint 32 perms -> map_args_ok u addr n perms ->
  unmapped u addr n -> one_more u -> 0 <= off -> off + n <= Z.of_nat (length backup) ->
  (exists u', map_ram_part os_alloc perms backup addr n off k u = k u' /\
    part_added u u' addr n perms
      (fun x => Some (Ram perms (backup !!! Z.to_nat (off + (x - addr)))))) \/
  (map_ram_part os_alloc perms backup addr n off k u = Some (false, u) /\
   exists live len, os_alloc live len = None).
Proof.
  intros Hinv Ha Hn Hp Hargs Hun Hroom Hoff Hlen. pose proof (inv_wf _ _ Hinv) as Hwf.
  destruct (os_alloc (live_ram u) (HOST_PAGE_ALIGN u n)) as [p|] eqn:Hos.
  2:{ right. split; [|eauto]. unfold map_ram_part, and_then. rewrite (bind_run _ _ u UC_ERR_NOMEM u); [done|].
      unfold uc_mem_map. rewrite bind_get. erewrite bind_lift by by apply mem_map_check_pass.
      rewrite bool_decide_true by done.
      unfold memory_map, qemu_ram_alloc, mbind, M_bind, get. by rewrite Hos. }
  left.
  destruct (uc_mem_map_ok os_alloc user u addr n perms p) as (u1 & Hrun & Had & Hinv1 & Hset);
    try done; [apply Hp|].
  set (bytes := take (Z.to_nat n) (drop (Z.to_nat off) backup)).
  assert (Z.of_nat (length bytes) = n) as Hbytes.
  { unfold bytes. rewrite length_take, length_drop. unfold uint in Hn. lia. }
  set (r := placed (system_memory u) addr 0 (ram_region n perms (Z.land perms UC_PROT_WRITE =? 0)
         (mk_block p (HOST_PAGE_ALIGN u n) false))) in *.
  assert (r_size r = n) as Esz by (apply (aligned_size u); [done|apply Hargs]).
  assert (part_added u u1 addr n perms (fun _ => Some (Ram perms 0))) as Hpa.
  { eapply (added_part u _ _ u1 r); try done; apply Hargs. }
  assert (forall x, addr <= x < addr + n -> find_block u1 x = Some (next_region u)) as Hnew.
  { intros x Hx. rewrite (ad_find _ _ _ Had), (proj2 (holds_spec r x)); [done|].
    by rewrite Esz. }
  pose proof Hargs as (Hpos & Hfit & _).
  destruct (uc_mem_write_ok os_alloc user u1 addr bytes) as (u2 & Hw & Hinv2 & Heq & Hcw);
    rewrite ?Hbytes; try done.
  - apply Hn.
  - intros x Hx Hin. rewrite in_area_range in Hin by (done || apply Ha || lia).
    unfold ram_byte. rewrite (Hset x), Hin. eauto.
  - intros x id b id' b' Hx Hin Hf Hb Hb' Hne. rewrite in_area_range in Hin by (done || apply Ha || lia).
    bool_to_prop. rewrite Hnew in Hf by lia. injection Hf as <-.
    eapply (ho_apart _ _ (inv_host _ _ Hinv1)); [exact Hb|exact Hb'|done|].
    destruct Hb as [_ (r' & Hr' & Hb)]. change (next_region (allocated _ _ _)) with (next_region u) in *.
    pose proof (ad_new _ _ _ Had) as Hr1. cbn [next_region allocated with_host] in Hr1.
    assert (r' = r) as -> by congruence. unfold r in Hb. cbn in Hb. by simplify_eq/=.
  - exists u2. split.
    + unfold map_ram_part. erewrite and_then_run.
      2:{ unfold uc_mem_map. rewrite bind_get. erewrite bind_lift by by apply mem_map_check_pass.
          rewrite bool_decide_true by done. exact Hrun. }
      by apply and_then_run.
    + assert (part_added u u2 addr n perms
        (fun x => Some (Ram perms (bytes !!! Z.to_nat (x - addr))))) as [].
      { apply (part_written u u1 u2); try done. apply Ha. }
      constructor; try done. intros x. rewrite (pa_cells0 x). case_if; [|done]. do 2 f_equal.
      unfold bytes. rewrite lookup_total_take_lt, lookup_total_drop by lia. f_equal. lia.
Qed.

(** ** Mapping the parts again *)

Section Remap.
(** The block [id] of [u] is being cut; [keeps] is what mapping a part needs of
    the state, and gives back, and [fails] what is known when it fails. *)
Context (u : uc_struct) (id : Z) (r : region) (keeps : uc_struct -> Prop) (fails : Prop).
Context (Hinv : inv user u) (Hin : id ∈ mapped_blocks u) (Hr : regions u !! id = Some r).
Context (Hend : r_addr r + r_size r < 2 ^ 64).
Context (map_part : Z -> Z -> Z -> M bool -> M bool).
Context (Hpart : forall v addr n k, inv user v -> keeps v -> same_config u v ->
  uint 64 addr -> uint 64 n -> map_args_ok v addr n (r_perms r) -> unmapped v addr n ->
  one_more v -> r_addr r <= addr -> addr + n <= r_addr r + r_size r ->
  (exists v', map_part addr n (addr - r_addr r) k v = k v' /\ keeps v' /\
    part_added v v' addr n (r_perms r) (cell_at u)) \/
  (map_part addr n (addr - r_addr r) k v = Some (false, v) /\ fails)).

(** The state while the parts are mapped: the cells in [back] are back, the
    others of the block are gone. *)
Record cutting (v : uc_struct) (back : Z -> bool) (count : nat) : Prop := {
  cu_inv : inv user v;
  cu_keeps : keeps v;
  cu_config : same_config u v;
  cu_flags : same_flags u v;
  cu_recut : recut u v id r;
  cu_cells : forall x, cell_at v x = if holds r x && negb (back x) then None else cell_at u x;
  cu_find : forall x, holds r x = true -> back x = false -> find_block v x = None;
  cu_count : length (mapped_blocks v) = count
}.

Definition between (lo hi x : Z) : bool := (lo <=? x) && (x <? hi).

Lemma cut_part v back c addr n k :
  cutting v back c -> room u (S c) -> (target_page_size u | addr) -> (target_page_size u | n) ->
  0 < n -> r_addr r <= addr -> addr + n <= r_addr r + r_size r ->
  (forall x, addr <= x < addr + n -> back x = false) ->
  (exists v', map_part addr n (addr - r_addr r) k v = k v' /\
    cutting v' (fun x => back x || between addr (addr + n) x) (S c) /\
    part_added v v' addr n (r_perms r) (cell_at u)) \/
  (map_part addr n (addr - r_addr r) k v = Some (false, v) /\ fails).
Proof.
  intros [Hiv Hkv Hcv Hfv Hrv Hev Hnv Hc] Hroom Hda Hdn Hn Hlo Hhi Hback.
  destruct (block_exists u (inv_wf _ _ Hinv) id Hin) as (r' & Hr' & Hok).
  assert (r' = r) as -> by congruence. pose proof (bo_perms _ _ Hok) as Hp.
  pose proof (bo_addr _ _ Hok) as Ha. pose proof (bo_size _ _ Hok) as Hs.
  destruct (Hpart v addr n k) as [(v' & Hrun & Hkv' & Hpa)|Hfail]; try done; [..|by right].
  - unfold uint. lia.
  - unfold uint. lia.
  - unfold map_args_ok. rewrite (sc_page _ _ Hcv). split_and!; [lia|lia|done..|lia].
  - intros x Hx. apply Hnv; [apply holds_spec; lia|by apply Hback].
  - unfold one_more. eapply room_le; [exact Hcv| |exact Hroom]. lia.
  - left. exists v'. split_and!; [done| |done]. destruct Hpa. constructor; try done.
    + destruct Hcv, pa_config0. constructor; congruence.
    + by etrans.
    + by apply pa_recut0.
    + intros x. rewrite (pa_cells0 x), (Hev x). unfold between.
      destruct ((addr <=? x) && (x <? addr + n)) eqn:E; [|by rewrite orb_false_r].
      by rewrite orb_true_r, andb_false_r.
    + intros x Hh E. apply orb_false_iff in E as [E1 E2]. rewrite pa_find0; [by apply Hnv|].
      unfold between in E2. intros Hx. apply andb_false_iff in E2 as [?|?]; bool_to_prop; lia.
    + by rewrite pa_count0, Hc.
Qed.

(** How many blocks a part is. *)
Definition piece (n : Z) : nat := if 0 <? n then 1 else 0.

(** A part that may be empty. *)
Lemma cut_opt v back c addr n k :
  cutting v back c -> room u (piece n + c) ->
  (target_page_size u | addr) -> (target_page_size u | n) -> 0 <= n ->
  r_addr r <= addr -> addr + n <= r_addr r + r_size r ->
  (forall x, addr <= x < addr + n -> back x = false) ->
  (exists v', (if 0 <? n then map_part addr n (addr - r_addr r) k else k) v = k v' /\
    cutting v' (fun x => back x || between addr (addr + n) x) (piece n + c) /\
    (forall x y ry, find_block v x = Some y -> regions v !! y = Some ry ->
       find_block v' x = Some y /\ exists ro, regions v' !! y = Some (r_with_readonly ro ry))) \/
  ((if 0 <? n then map_part addr n (addr - r_addr r) k else k) v = Some (false, v) /\ fails).
Proof.
  unfold piece. intros Hcut Hroom Hda Hdn Hn Hlo Hhi Hback. destruct (Z.ltb_spec 0 n).
  - destruct (cut_part v back c addr n k) as [(v' & Hrun & Hcut' & Hpa)|Hfail]; try done; [|by right].
    left. exists v'. split_and!; [done..|apply Hpa].
  - left. exists v. split_and!; [done| |].
    + assert (forall x, between addr (addr + n) x = false) as Hb.
      { intros x. unfold between. apply andb_false_iff.
        destruct (Z.le_gt_cases addr x); [right; apply Z.ltb_ge|left; apply Z.leb_gt]; lia. }
      destruct Hcut. constructor; try done; intros x; rewrite Hb, orb_false_r; auto.
    + intros x y ry Hf Hry. split; [done|]. exists (r_readonly ry). rewrite Hry. by destruct ry.
Qed.

(** What is back after the parts have been mapped. *)
Definition back_after (addr chunk_end : Z) (del : bool) (x : Z) : bool :=
  between (r_addr r) addr x || (negb del && between addr chunk_end x)
  || between chunk_end (r_addr r + r_size r) x.

Lemma cutting_ext v back back' c :
  (forall x, back x = back' x) -> cutting v back c -> cutting v back' c.
Proof.
  intros Hb []. constructor; try done; intros x; rewrite <- Hb; auto.
Qed.

(** The blocks that take the place of the one that is cut. *)
Definition pieces (addr chunk_end : Z) (del : bool) : nat :=
  piece (r_addr r + r_size r - chunk_end) + ((if del then 0 else 1) + piece (addr - r_addr r)).

(** The middle part, which stays away when it is deleted. *)
Lemma cut_middle v c addr chunk_end (del : bool) k :
  cutting v (fun x => between (r_addr r) addr x) c -> room u ((if del then 0 else 1) + c) ->
  (target_page_size u | addr) -> (target_page_size u | chunk_end) ->
  r_addr r <= addr < chunk_end -> chunk_end <= r_addr r + r_size r ->
  let middle := if (0 <? chunk_end - addr) && negb del
                then map_part addr (chunk_end - addr) (addr - r_addr r) k else k in
  (exists v', middle v = k v' /\
    cutting v' (fun x => between (r_addr r) addr x || (negb del && between addr chunk_end x))
      ((if del then 0 else 1) + c) /\
    (del = false -> exists y ry, find_block v' addr = Some y /\ regions v' !! y = Some ry /\
       r_addr ry = addr /\ r_size ry = chunk_end - addr /\ r_perms ry = r_perms r /\
       r_ram ry = true)) \/
  (middle v = Some (false, v) /\ fails).
Proof.
  intros Hcut Hroom Hda Hdc Hlo Hhi. cbv zeta.
  rewrite (proj2 (Z.ltb_lt 0 (chunk_end - addr))) by lia. cbn [andb]. destruct del; cbn [negb].
  - left. exists v. split_and!; [done| |done]. eapply cutting_ext; [|exact Hcut]. intros x.
    cbn [andb]. by rewrite orb_false_r.
  - destruct (cut_part v _ c addr (chunk_end - addr) k Hcut) as [(v2 & Hrun2 & Hcut2 & Hpa)|Hfail];
      [done|done|by apply Z.divide_sub_r|lia..| | |by right].
    { intros x Hx. unfold between. apply andb_false_iff. right. apply Z.ltb_ge. lia. }
    left. exists v2. split_and!; [done| |].
    + eapply cutting_ext; [|exact Hcut2]. intros x.
      by replace (addr + (chunk_end - addr)) with chunk_end by lia.
    + intros _. destruct (pa_block _ _ _ _ _ _ Hpa) as (y & ry & ?). by exists y, ry.
Qed.

Lemma remap_ok v c addr chunk_end del :
  cutting v (fun _ => false) c -> room u (pieces addr chunk_end del + c) ->
  (target_page_size u | addr) -> (target_page_size u | chunk_end) ->
  r_addr r <= addr < chunk_end -> chunk_end <= r_addr r + r_size r ->
  (exists v', remap_parts map_part (r_addr r) (r_addr r + r_size r) addr chunk_end del v
      = Some (true, v') /\
    cutting v' (back_after addr chunk_end del) (pieces addr chunk_end del + c) /\
    (del = false -> exists y ry, find_block v' addr = Some y /\ regions v' !! y = Some ry /\
       r_addr ry = addr /\ r_size ry = chunk_end - addr /\ r_perms ry = r_perms r /\
       r_ram ry = true)) \/
  (exists v' back c', remap_parts map_part (r_addr r) (r_addr r + r_size r) addr chunk_end del v
      = Some (false, v') /\ cutting v' back c' /\ fails).
Proof.
  intros Hcut Hroom Hda Hdc Hlo Hhi. unfold pieces in *.
  destruct (block_exists u (inv_wf _ _ Hinv) id Hin) as (r' & Hr' & Hok).
  assert (r' = r) as -> by congruence. pose proof (bo_addr _ _ Hok) as Ha.
  pose proof (bo_align _ _ Hok) as Hdr. pose proof (bo_pages _ _ Hok) as Hds.
  assert (same_config u u) as Hrefl by done.
  unfold remap_parts, split_parts. rewrite Z.gtb_ltb.
  rewrite (proj2 (Z.ltb_ge addr _)), (proj2 (Z.ltb_ge _ chunk_end)) by lia.
  rewrite !wrap_id by (unfold uint; lia).
  replace (addr - r_addr r + (chunk_end - addr)) with (chunk_end - r_addr r) by lia.
  set (right_ := if 0 <? r_addr r + r_size r - chunk_end then _ else _).
  set (middle := if (0 <? chunk_end - addr) && negb del then _ else right_).
  destruct (cut_opt v (fun _ => false) c (r_addr r) (addr - r_addr r) middle)
    as [(v1 & Hrun1 & Hcut1 & _)|[Hrun1 Hfail]]; try done; [|by apply Z.divide_sub_r|lia..| |].
  { eapply room_le; [exact Hrefl| |exact Hroom]. lia. }
  2:{ right. rewrite Z.sub_diag in Hrun1. eauto 10. }
  rewrite Z.sub_diag in Hrun1. rewrite Hrun1. replace (r_addr r + (addr - r_addr r)) with addr in Hcut1 by lia.
  cbn [orb] in Hcut1.
  destruct (cut_middle v1 _ addr chunk_end del right_ Hcut1)
    as [(v2 & Hrun2 & Hcut2 & Hblk)|[Hrun2 Hfail]]; try done.
  { eapply room_le; [exact Hrefl| |exact Hroom]. lia. }
  2:{ right. exists v1. eauto 10. }
  change (middle v1 = right_ v2) in Hrun2. rewrite Hrun2.
  destruct (cut_opt v2 _ _ chunk_end (r_addr r + r_size r - chunk_end) (mret true) Hcut2)
    as [(v3 & Hrun3 & Hcut3 & Hkeep)|[Hrun3 Hfail]]; [|done|..|lia|lia|lia| | |].
  { eapply room_le; [exact Hrefl| |exact Hroom]. lia. }
  { apply Z.divide_sub_r; [|done]. by apply Z.divide_add_r. }
  { intros x Hx. unfold between. rewrite (proj2 (Z.ltb_ge x addr)), (proj2 (Z.ltb_ge x chunk_end))
      by lia. by rewrite !andb_false_r. }
  2:{ right. eauto 10. }
  left. exists v3. split_and!.
  - exact Hrun3.
  - rewrite <- !Nat.add_assoc. eapply cutting_ext; [|exact Hcut3]. intros x. unfold back_after.
    by replace (chunk_end + (r_addr r + r_size r - chunk_end)) with (r_addr r + r_size r) by lia.
  - intros Hdel. destruct (Hblk Hdel) as (y & ry & Hf & Hry & ? & ? & ? & ?).
    destruct (Hkeep addr y ry Hf Hry) as (Hf' & ro & Hry'). by exists y, (r_with_readonly ro ry).
Qed.
End Remap.

(** ** [split_region] *)

Lemma part_added_ext v v' addr n perms f g :
  (forall x, addr <= x < addr + n -> f x = g x) ->
  part_added v v' addr n perms f -> part_added v v' addr n perms g.
Proof.
  intros Hfg []. constructor; try done. intros x. rewrite (pa_cells0 x). case_if; [|done].
  apply Hfg. lia.
Qed.

(** The cells of a block of RAM. *)
Lemma block_cell u id r b x :
  wf u -> id ∈ mapped_blocks u -> regions u !! id = Some r -> r_ram r = true ->
  r_ram_block r = Some b -> holds r x = true ->
  cell_at u x = Some (Ram (r_perms r) (hostmem u (host b + (x - r_addr r)))).
Proof.
  intros Hwf Hin Hr Hram Hb Hh. rewrite (cell_of_block u id r x Hwf).
  - unfold cell_of. by rewrite Hram, Hb.
  - apply find_block_Some; eauto.
  - done.
Qed.

(** The backup of a block has the bytes of its cells. *)
Lemma copy_region_ok mmio_cb_read malloc_ok u id r :
  wf u -> id ∈ mapped_blocks u -> regions u !! id = Some r -> r_ram r = true ->
  malloc_ok u (r_size r) = true ->
  exists bytes, copy_region mmio_cb_read malloc_ok r u = Some (Some bytes, u) /\
    Z.of_nat (length bytes) = r_size r /\
    forall x, holds r x = true ->
      cell_at u x = Some (Ram (r_perms r) (bytes !!! Z.to_nat (x - r_addr r))).
Proof.
  intros Hwf Hin Hr Hram Hmal. pose proof (remove_block_ok u id r Hwf Hin Hr) as Hok.
  pose proof (bo_kind _ _ Hok) as Hk. rewrite Hram in Hk. destruct Hk as (b & Hb & Hmax & _).
  pose proof (bo_addr _ _ Hok). pose proof (bo_size _ _ Hok). pose proof (bo_fits _ _ Hok).
  assert (forall x, holds r x = true -> cell_at u x =
    Some (Ram (r_perms r) (hostmem u (host b + (x - r_addr r))))) as Hcell
    by (intros; by eapply block_cell).
  destruct (uc_mem_read_ok mmio_cb_read u (r_addr r) (r_size r)) as (bytes & Hrun & HB);
    [done|unfold uint; lia|lia| |].
  { intros x Hx E. rewrite in_area_range in E by (done || lia). unfold ram_byte.
    rewrite Hcell by done. eauto. }
  assert (Z.of_nat (length bytes) = r_size r) as Hlen.
  { apply Forall2_length in HB. rewrite area_length in HB. lia. }
  exists bytes. split_and!; [|done|].
  - unfold copy_region. erewrite bind_lift by (apply get64_Some; lia).
    rewrite bind_get, Hmal. erewrite bind_run by exact Hrun. cbn iota beta. by rewrite bool_decide_true.
  - intros x Hh. pose proof Hh as Hh'%holds_spec. rewrite (Hcell x Hh). do 2 f_equal.
    destruct (lookup_lt_is_Some_2 bytes (Z.to_nat (x - r_addr r))) as [byte Hbyte]; [lia|].
    eapply Forall2_lookup_r in HB as (z & Hz & Ez); [|exact Hbyte].
    rewrite (list_lookup_total_correct _ _ _ Hbyte).
    unfold area in Hz. apply list_lookup_fmap_Some in Hz as (j & -> & Hj).
    apply lookup_seqZ in Hj as [-> _]. rewrite wrap_id in Ez by (unfold uint; lia).
    unfold ram_byte in Ez.
    replace (r_addr r + (0 + Z.of_nat (Z.to_nat (x - r_addr r)))) with x in Ez by lia.
    rewrite Hcell in Ez by done. by injection Ez as <-.
Qed.

Lemma copy_region_none mmio_cb_read malloc_ok u r :
  block_ok u r -> malloc_ok u (r_size r) = false ->
  copy_region mmio_cb_read malloc_ok r u = Some (None, u).
Proof.
  intros Hok Hmal. pose proof (bo_size _ _ Hok). unfold copy_region.
  erewrite bind_lift by (apply get64_Some; lia). by rewrite bind_get, Hmal.
Qed.

Lemma cutting_removed u u' id r (keeps : uc_struct -> Prop) :
  inv user u -> id ∈ mapped_blocks u -> regions u !! id = Some r -> removed u u' id r ->
  keeps u' -> cutting u id r keeps u' (fun _ => false) (length (mapped_blocks u')).
Proof.
  intros Hinv Hin Hr Hrm Hk. constructor; try done.
  - by eapply inv_removed.
  - apply Hrm.
  - apply Hrm.
  - by apply recut_removed.
  - intros x. rewrite (cell_at_removed u u' id r x) by (done || apply Hinv). cbn [negb].
    by rewrite andb_true_r.
  - intros x Hx _. by rewrite (rm_find _ _ _ _ Hrm), Hx.
Qed.

Lemma cutting_weaken u id r (keeps : uc_struct -> Prop) v back c :
  cutting u id r keeps v back c -> cutting u id r (fun _ => True) v back c.
Proof. intros []. by constructor. Qed.

(** A cut that failed: the invariant holds, and every cell is as before or, in
    the block, gone. *)
Record broken (u u' : uc_struct) (id : Z) (r : region) : Prop := {
  bk_inv : inv user u';
  bk_config : same_config u u';
  bk_flags : same_flags u u';
  bk_recut : recut u u' id r;
  bk_cells : forall x, cell_at u' x = cell_at u x \/ (holds r x = true /\ cell_at u' x = None)
}.

Lemma broken_cutting u id r keeps v back c : cutting u id r keeps v back c -> broken u v id r.
Proof.
  intros []. constructor; try done. intros x. rewrite cu_cells0.
  destruct (holds r x); [|by left]. destruct (back x); [by left|by right].
Qed.

Lemma broken_same u id r : inv user u -> regions u !! id = Some r -> broken u u id r.
Proof.
  intros Hinv Hr. constructor; try done; [|by left]. intros y ry Hy Hry.
  destruct (decide (y = id)) as [-> |Hne]; [|left; eauto 10]. right. simplify_eq. lia.
Qed.

(** The host did not give the memory asked for. *)
Definition refused (malloc_ok : uc_struct -> Z -> bool) : Prop :=
  (exists live len, os_alloc live len = None) \/ (exists v len, malloc_ok v len = false).

Section Split.
Context (mmio_cb_read : Z -> Z -> Z -> Z -> Z) (malloc_ok : uc_struct -> Z -> bool).
Context (unmap : Z -> Z -> M uc_err).

(** What a cut of [len] bytes at [address] from the block [id] gives. *)
Definition cut_result (u : uc_struct) (id : Z) (r : region) (address len : Z) (del : bool)
    (res : option (bool * uc_struct)) : Prop :=
  (exists u', res = Some (true, u') /\
    cutting u id r (fun _ => True) u' (back_after r address (address + len) del)
      (pieces r address (address + len) del + pred (length (mapped_blocks u))) /\
    (del = false -> exists y ry, find_block u' address = Some y /\ regions u' !! y = Some ry /\
       r_addr ry = address /\ r_size ry = len /\ r_perms ry = r_perms r /\ r_ram ry = true)) \/
  (exists u', res = Some (false, u') /\ broken u u' id r /\ refused malloc_ok).

Context (u u1 : uc_struct) (id : Z) (r : region) (b : RAMBlock) (address len : Z) (del : bool).
Context (Hinv : inv user u) (Hin : id ∈ mapped_blocks u) (Hr : regions u !! id = Some r).
Context (Hend : r_addr r + r_size r < 2 ^ 64) (Hram : r_ram r = true).
Context (Hb : r_ram_block r = Some b) (Hmax : r_size r <= max_length b).
Context (Hun : unmap (r_addr r) (r_size r) u = Some (UC_ERR_OK, u1)) (Hrm : removed u u1 id r).
Context (Hda : (target_page_size u | address)) (Hdl : (target_page_size u | len)).
Context (Hlo : r_addr r <= address) (Hlen : 0 < len) (Hhi : address + len <= r_addr r + r_size r).
Context (Hroom : room u (pieces r address (address + len) del + pred (length (mapped_blocks u)))).

Let chunk_aligned : (target_page_size u | address + len).
Proof. by apply Z.divide_add_r. Qed.

Let after_unmap : length (mapped_blocks u1) = pred (length (mapped_blocks u)).
Proof. pose proof (removed_count u u1 id r (inv_wf _ _ Hinv) Hrm Hin). lia. Qed.

Let perms32 : uint 32 (r_perms r).
Proof.
  pose proof (bo_perms _ _ (remove_block_ok u id r (inv_wf _ _ Hinv) Hin Hr)) as H.
  unfold UC_PROT_ALL in H. unfold uint. lia.
Qed.

Lemma remap_ptr_ok :
  prealloc b = true ->
  cut_result u id r address len del
    (remap_parts (map_ptr_part (r_perms r) (host b)) (r_addr r) (r_addr r + r_size r)
       address (address + len) del u1).
Proof.
  intros Hpre. assert (ram_block u id b) as Hblk by (split; eauto).
  pose proof (inv_wf _ _ Hinv) as Hwf.
  assert (forall x, host b <= x < host b + max_length b -> user x) as Huser
    by by apply (ho_user _ _ (inv_host _ _ Hinv) id b).
  destruct (remap_ok u id r (fun v => hostmem v = hostmem u) False Hinv Hin Hr Hend
    (map_ptr_part (r_perms r) (host b))) with (v := u1) (c := pred (length (mapped_blocks u)))
    (addr := address) (chunk_end := address + len) (del := del)
    as [(u' & Hrun & Hcut & Hmid)|(? & ? & ? & _ & _ & [])]; try done; [| |lia|].
  - intros v addr n k Hv Hhv Hcv Ha Hn Hargs Hunm Hone Hlo' Hhi'. left.
    destruct (ptr_part_ok v addr n (r_perms r) (host b) (addr - r_addr r) k)
      as (v' & Hrun & Hhost & Hpa); try done.
    + destruct Hargs as [? _]. pose proof (user_pos (host b + (addr - r_addr r))
        ltac:(apply Huser; lia)). lia.
    + intros x Hx. apply Huser. lia.
    + exists v'. split_and!; [done|congruence|]. eapply part_added_ext; [|exact Hpa].
      intros x Hx. rewrite (block_cell u id r b x) by (done || apply holds_spec; lia).
      rewrite Hhv. do 3 f_equal. lia.
  - rewrite <- after_unmap. apply cutting_removed; try done. apply Hrm.
  - left. exists u'. split_and!; [done|by eapply cutting_weaken|].
    by replace (address + len - address) with len in Hmid by lia.
Qed.

Lemma remap_ram_ok backup :
  Z.of_nat (length backup) = r_size r ->
  (forall x, holds r x = true ->
     cell_at u x = Some (Ram (r_perms r) (backup !!! Z.to_nat (x - r_addr r)))) ->
  cut_result u id r address len del
    (remap_parts (map_ram_part os_alloc (r_perms r) backup) (r_addr r) (r_addr r + r_size r)
       address (address + len) del u1).
Proof.
  intros Hlb Hcells.
  destruct (remap_ok u id r (fun _ => True) (exists live n, os_alloc live n = None) Hinv Hin Hr Hend
    (map_ram_part os_alloc (r_perms r) backup)) with (v := u1)
    (c := pred (length (mapped_blocks u))) (addr := address) (chunk_end := address + len)
    (del := del) as [(u' & Hrun & Hcut & Hmid)|(u' & back & c & Hrun & Hcut & Hno)];
    try done; [| |lia|..].
  - intros v addr n k Hv _ Hcv Ha Hn Hargs Hunm Hone Hlo' Hhi'.
    destruct (ram_part_ok v addr n (r_perms r) backup (addr - r_addr r) k)
      as [(v' & Hrun & Hpa)|Hno]; try done; [lia..| |by right].
    left. exists v'. split_and!; [done..|]. eapply part_added_ext; [|exact Hpa].
    intros x Hx. rewrite Hcells by (apply holds_spec; lia). do 3 f_equal. lia.
  - rewrite <- after_unmap. by apply cutting_removed.
  - left. exists u'. split_and!; [done..|].
    by replace (address + len - address) with len in Hmid by lia.
  - right. exists u'. split_and!; [done|by eapply broken_cutting|by left].
Qed.

Lemma split_region_ok :
  len < r_size r ->
  cut_result u id r address len del
    (split_region os_alloc mmio_cb_read malloc_ok unmap r address len del u).
Proof.
  intros Hpartial. pose proof (inv_wf _ _ Hinv) as Hwf.
  pose proof (remove_block_ok u id r Hwf Hin Hr) as Hok.
  pose proof (bo_addr _ _ Hok). pose proof (bo_size _ _ Hok).
  unfold split_region. rewrite (block_end u r Hok Hend), (wrap_id 64 (address + len))
    by (unfold uint; lia). rewrite !Z.geb_leb.
  replace ((address <=? r_addr r) && (r_addr r + r_size r <=? address + len)) with false
    by (symmetry; apply andb_false_iff; destruct (Z.le_gt_cases (r_addr r + r_size r) (address + len));
        [left; apply Z.leb_gt|right; apply Z.leb_gt]; lia).
  rewrite (proj2 (Z.eqb_neq len 0)), (proj2 (Z.leb_gt _ address)), (proj2 (Z.leb_gt _ (r_addr r)))
    by lia. cbn [orb]. rewrite Hb. erewrite bind_lift by (apply get64_Some; lia).
  destruct (prealloc b) eqn:Hpre.
  - erewrite and_then_run by exact Hun. by apply remap_ptr_ok.
  - destruct (malloc_ok u (r_size r)) eqn:Hmal.
    + destruct (copy_region_ok mmio_cb_read malloc_ok u id r) as (backup & Hcp & Hlb & Hcells); try done.
      erewrite bind_run by exact Hcp. cbn iota. erewrite and_then_run by exact Hun.
      by apply remap_ram_ok.
    + erewrite bind_run by (by apply copy_region_none). cbn iota. right. exists u.
      split_and!; [done|by apply broken_same|]. right. eauto.
Qed.
End Split.

(** ** One round of the loops *)

Lemma pending_recut u u' id r addr n :
  wf u -> wf u' -> recut u u' id r -> id ∈ mapped_blocks u -> regions u !! id = Some r ->
  holds r addr = true -> 0 <= addr -> r_addr r + r_size r - addr <= n -> addr + n <= 2 ^ 64 ->
  (pending u' (r_addr r + r_size r) (n - (r_addr r + r_size r - addr)) < pending u addr n)%nat.
Proof.
  intros Hwf Hwf' Hrc Hin Hr Hh%holds_spec Ha Hle Hfit.
  set (addr' := r_addr r + r_size r). set (n' := n - (addr' - addr)).
  assert (forall y, y ∈ filter (fun y => ends_in (regions u') addr' n' y = true) (mapped_blocks u') ->
    y <> id /\ y ∈ filter (fun y => ends_in (regions u) addr n y = true) (mapped_blocks u)) as H.
  { intros y [Hends Hy]%list_elem_of_filter. unfold ends_in in Hends.
    destruct (regions u' !! y) as [ry|] eqn:Hry; [|done].
    destruct (block_exists u' Hwf' y Hy) as (ry' & E & Hok). assert (ry' = ry) as -> by congruence.
    pose proof (bo_addr _ _ Hok). pose proof (bo_size _ _ Hok). pose proof (bo_fits _ _ Hok).
    rewrite in_area_range in Hends by (unfold uint; lia).
    destruct (Hrc y ry Hy Hry) as [(Hyin & Hne & r0 & Hr0 & Ea & Es)|[? ?]];
      [|bool_to_prop; lia].
    split; [done|]. apply list_elem_of_filter. split; [|done]. unfold ends_in. rewrite Hr0, Ea, Es.
    rewrite in_area_range by (unfold uint; lia). bool_to_prop.
    apply andb_true_iff. rewrite Z.leb_le, Z.ltb_lt. lia. }
  apply (submseteq_length (id :: filter _ (mapped_blocks u'))). apply NoDup_submseteq.
  - constructor; [intros Hid; by apply (proj1 (H id Hid))|].
    apply NoDup_filter, blocks_NoDup, Hwf'.
  - intros y [-> | Hy]%elem_of_cons; [|by apply H]. apply list_elem_of_filter. split; [|done].
    unfold ends_in. rewrite Hr. pose proof (bo_fits _ _ (remove_block_ok u id r Hwf Hin Hr)).
    rewrite in_area_range by (unfold uint; lia). apply andb_true_iff.
    rewrite Z.leb_le, Z.ltb_lt. lia.
Qed.

Lemma rounds_recut fuel u u' id r addr n :
  wf u -> wf u' -> recut u u' id r -> id ∈ mapped_blocks u -> regions u !! id = Some r ->
  holds r addr = true -> 0 <= addr -> 0 < n -> addr + n <= 2 ^ 64 ->
  (rounds u addr n <= S fuel)%nat ->
  let len := Z.min n (r_addr r + r_size r - addr) in
  (rounds u' (addr + len) (n - len) <= fuel)%nat.
Proof.
  intros Hwf Hwf' Hrc Hin Hr Hh Ha Hn Hfit Hf len. revert Hf. unfold rounds.
  rewrite (proj2 (Z.leb_gt n 0)) by lia. intros Hf. case_if; [lia|].
  pose proof (pending_recut u u' id r addr n Hwf Hwf' Hrc Hin Hr Hh Ha ltac:(lia) Hfit).
  replace len with (r_addr r + r_size r - addr) by lia.
  replace (addr + (r_addr r + r_size r - addr)) with (r_addr r + r_size r) by lia. lia.
Qed.

(** The cells of a range are changed by [f], the others stay. *)
Definition cells_change (u u' : uc_struct) (addr n : Z) (f : option cell -> option cell) : Prop :=
  forall x, cell_at u' x = if between addr (addr + n) x then f (cell_at u x) else cell_at u x.

(** What a round leaves behind, with at most [count] blocks. *)
Record round (u u' : uc_struct) (id : Z) (r : region) (addr len : Z)
    (f : option cell -> option cell) (count : nat) : Prop := {
  rd_inv : inv user u';
  rd_recut : recut u u' id r;
  rd_config : same_config u u';
  rd_flags : same_flags u u';
  rd_cells : cells_change u u' addr len f;
  rd_count : (length (mapped_blocks u') <= count)%nat
}.

(** The block at [x] meets the range of [n] bytes from [a]. *)
Definition meets (u : uc_struct) (a n x : Z) : Prop :=
  exists id r, find_block u x = Some id /\ regions u !! id = Some r /\
    r_addr r < a + n /\ a < r_addr r + r_size r.

(** After a failure every cell is as before, or changed and in the range, or
    gone with a block that meets the range. *)
Definition cells_lost (u u' : uc_struct) (a n : Z) (f : option cell -> option cell) : Prop :=
  forall x, cell_at u' x = cell_at u x \/
    (a <= x < a + n /\ cell_at u' x = f (cell_at u x)) \/
    (meets u a n x /\ cell_at u' x = None).

Lemma between_holds r x : between (r_addr r) (r_addr r + r_size r) x = holds r x.
Proof. done. Qed.

Lemma between_spec lo hi x : between lo hi x = true <-> lo <= x < hi.
Proof. unfold between. rewrite andb_true_iff, Z.leb_le, Z.ltb_lt. done. Qed.

(** The cells of a block that are not back after a cut. *)
Lemma back_after_deleted r addr chunk_end x :
  r_addr r <= addr -> addr <= chunk_end -> chunk_end <= r_addr r + r_size r ->
  holds r x && negb (back_after r addr chunk_end true x) = between addr chunk_end x.
Proof.
  intros H1 H2 H3. apply Bool.eq_iff_eq_true. unfold back_after. cbn [negb andb orb].
  rewrite orb_false_r, andb_true_iff, negb_true_iff, orb_false_iff.
  rewrite <- !not_true_iff_false, !between_spec, holds_spec. lia.
Qed.

Lemma back_after_kept r addr chunk_end x :
  r_addr r <= addr -> addr <= chunk_end -> chunk_end <= r_addr r + r_size r ->
  holds r x && negb (back_after r addr chunk_end false x) = false.
Proof.
  intros H1 H2 H3. apply not_true_is_false. unfold back_after. cbn [negb andb].
  rewrite andb_true_iff, negb_true_iff, !orb_false_iff.
  rewrite <- !not_true_iff_false, !between_spec, holds_spec. lia.
Qed.
End Parts.
