(* ===== verification/MemUnmap.v ===== *)
(** * Unmapping and protecting: [uc_mem_unmap] and [uc_mem_protect]

    Outside of snapshots and for ranges of RAM that do not wrap around,
    [uc_mem_unmap] removes exactly the cells of the range and [uc_mem_protect]
    changes exactly their permissions.  The exceptions of the code are part of
    the statements: a block that ends at the last address is never cut, and a
    cut for which the host refuses memory loses what was unmapped before. *)

From S2P Require Import Prelude UcTypes FlatView Regions UcMem MemInv MemCommit MemMap MemAccess MemCut.

Section Ranges.
Context (os_alloc : list (Z * Z) -> Z -> option Z) (user : Z -> Prop).
Context `{HA : !HostAlloc os_alloc user}.
Context (mmio_cb_read : Z -> Z -> Z -> Z -> Z) (malloc_ok : uc_struct -> Z -> bool).

(** ** Ranges *)

Lemma cells_change_app u u1 u' a len n f :
  0 <= len <= n -> cells_change u u1 a len f -> cells_change u1 u' (a + len) (n - len) f ->
  cells_change u u' a n f.
Proof.
  intros Hl H1 H2 x. rewrite (H2 x), (H1 x). replace (a + len + (n - len)) with (a + n) by lia.
  destruct (between (a + len) (a + n) x) eqn:E2; destruct (between a (a + len) x) eqn:E1;
    destruct (between a (a + n) x) eqn:E; try done;
    rewrite <- ?not_true_iff_false, ?between_spec in *; lia.
Qed.

Lemma cells_change_nil u a f : cells_change u u a 0 f.
Proof.
  intros x. destruct (between a (a + 0) x) eqn:E; [|done]. apply between_spec in E. lia.
Qed.

(** RAM beyond the part that was changed is as it was. *)
Lemma area_ram_rest u u1 a len n f :
  0 <= a -> 0 <= len <= n -> a + n <= 2 ^ 64 -> cells_change u u1 a len f ->
  area_ram u a n -> area_ram u1 (a + len) (n - len).
Proof.
  intros Ha Hl Hfit Hc Hram x Hx E. rewrite in_area_range in E by (done || lia).
  unfold ram_byte. rewrite (Hc x). destruct (between a (a + len) x) eqn:Eb.
  { apply between_spec in Eb. bool_to_prop. lia. }
  apply Hram; [done|]. rewrite in_area_range by (done || lia). bool_to_prop.
  apply andb_true_iff. rewrite Z.leb_le, Z.ltb_lt. lia.
Qed.

(** The block found at an address of another block's place is that block. *)
Lemma recut_find u u' id r x y ry :
  wf u -> wf u' -> recut u u' id r -> id ∈ mapped_blocks u -> regions u !! id = Some r ->
  find_block u' x = Some y -> regions u' !! y = Some ry ->
  (holds r x = true /\ r_addr r <= r_addr ry /\ r_addr ry + r_size ry <= r_addr r + r_size r) \/
  (y <> id /\ find_block u x = Some y /\
   exists r0, regions u !! y = Some r0 /\ r_addr r0 = r_addr ry /\ r_size r0 = r_size ry).
Proof.
  intros Hwf Hwf' Hrc Hin Hr Hf Hry.
  pose proof Hf as (ry' & Hy & Hry' & Hh%holds_spec & _)%(find_block_region u' Hwf').
  assert (ry' = ry) as -> by congruence.
  destruct (Hrc y ry Hy Hry) as [(Hy0 & Hne & r0 & Hr0 & Ea & Es)|[? ?]].
  - right. split_and!; [done| |eauto]. apply find_block_Some; [done|]. split; [done|]. exists r0.
    split; [done|]. apply holds_spec. lia.
  - left. split_and!; [apply holds_spec; lia|done..].
Qed.

(** After a round that went to the end of a block another block starts. *)
Lemma next_starts u u' id r y ry :
  wf u -> wf u' -> recut u u' id r -> id ∈ mapped_blocks u -> regions u !! id = Some r ->
  find_block u' (r_addr r + r_size r) = Some y -> regions u' !! y = Some ry ->
  r_addr ry = r_addr r + r_size r.
Proof.
  intros Hwf Hwf' Hrc Hin Hr Hf Hry. pose proof (remove_block_ok u id r Hwf Hin Hr) as Hok.
  pose proof (bo_size _ _ Hok).
  destruct (recut_find u u' id r _ y ry Hwf Hwf' Hrc Hin Hr Hf Hry)
    as [(Hh%holds_spec & _)|(Hne & Hf0 & r0 & Hr0 & Ea & Es)]; [lia|].
  pose proof Hf0 as (r0' & Hy & Hr0' & Hh%holds_spec & _)%(find_block_region u Hwf).
  assert (r0' = r0) as -> by congruence. rewrite <- Ea.
  destruct (Z.eq_dec (r_addr r0) (r_addr r + r_size r)) as [|Hlt]; [done|]. destruct Hne.
  eapply (block_unique u Hwf y id r0 r (r_addr r + r_size r - 1)); try done; apply holds_spec; lia.
Qed.

(** A failed cut of the block at the start of a range. *)
Lemma cells_lost_broken u u' id r a n f :
  wf u -> find_block u a = Some id -> regions u !! id = Some r -> 0 < n ->
  broken user u u' id r -> cells_lost u u' a n f.
Proof.
  intros Hwf Hf Hr Hn [_ _ _ _ Hc] x.
  pose proof Hf as (r' & Hin & Hr' & Hh%holds_spec & _)%(find_block_region u Hwf).
  assert (r' = r) as -> by congruence. destruct (Hc x) as [?|[Hx ?]]; [by left|].
  right. right. split; [|done]. exists id, r. split_and!; [|done|lia|lia].
  apply find_block_Some; eauto.
Qed.

Lemma cells_lost_app u u1 u' id r a len n f c :
  wf u -> find_block u a = Some id -> regions u !! id = Some r -> 0 <= len < n ->
  round user u u1 id r a len f c -> cells_lost u1 u' (a + len) (n - len) f ->
  cells_lost u u' a n f.
Proof.
  intros Hwf Hf Hr Hl [Hinv Hrc _ _ Hc _] Hlost x.
  pose proof Hf as (r' & Hin & Hr' & Hh%holds_spec & _)%(find_block_region u Hwf).
  assert (r' = r) as -> by congruence. specialize (Hc x).
  destruct (Hlost x) as [E|[[Hx E]|[(y & ry & Hfy & Hry & Hlo & Hhi) E]]].
  - rewrite E, Hc. destruct (between a (a + len) x) eqn:Eb; [|by left]. apply between_spec in Eb.
    right. left. split; [lia|done].
  - right. left. split; [lia|]. rewrite E, Hc. destruct (between a (a + len) x) eqn:Eb; [|done].
    apply between_spec in Eb. lia.
  - right. right. split; [|done].
    destruct (recut_find u u1 id r x y ry Hwf (inv_wf _ _ Hinv) Hrc Hin Hr Hfy Hry)
      as [(Hx & _)|(_ & Hf0 & r0 & Hr0 & Ea & Es)].
    + exists id, r. split_and!; [|done|lia|lia]. apply find_block_Some; eauto.
    + exists y, r0. split_and!; [done|done|lia|lia].
Qed.

(** The length of the range that is affected: up to the last address when the
    block of its last byte ends there. *)
Definition covered (u : uc_struct) (a n : Z) : Z :=
  match find_block u (a + n - 1) ≫= (fun id => regions u !! id) with
  | Some r => if decide (at_top r) then 2 ^ 64 - a else n
  | None => n
  end.

Lemma covered_at u a n id r :
  find_block u (a + n - 1) = Some id -> regions u !! id = Some r ->
  covered u a n = if decide (at_top r) then 2 ^ 64 - a else n.
Proof. intros Hf Hr. unfold covered. rewrite Hf. cbn [mbind option_bind]. by rewrite Hr. Qed.

(** A round that leaves a part of the range does not change it. *)
Lemma covered_rest u u1 id r a len n :
  wf u -> wf u1 -> recut u u1 id r -> id ∈ mapped_blocks u -> regions u !! id = Some r ->
  r_addr r + r_size r = a + len -> len < n -> is_Some (find_block u1 (a + n - 1)) ->
  covered u1 (a + len) (n - len) = covered u a n - len /\ n <= covered u a n.
Proof.
  intros Hwf Hwf1 Hrc Hin Hr Hend Hl [y Hf].
  pose proof Hf as (ry & _ & Hry & Hh%holds_spec & Hok)%(find_block_region u1 Hwf1).
  destruct (recut_find u u1 id r _ y ry Hwf Hwf1 Hrc Hin Hr Hf Hry)
    as [(Hx%holds_spec & _)|(_ & Hf0 & r0 & Hr0 & Ea & Es)]; [lia|].
  rewrite (covered_at u a n y r0) by done. rewrite (covered_at u1 (a + len) (n - len) y ry); [|..|done].
  2:{ rewrite <- Hf. f_equal. lia. }
  pose proof (bo_fits _ _ Hok). unfold at_top in *. repeat case_decide; lia.
Qed.

Lemma piece_le n : (piece n <= 1)%nat.
Proof. unfold piece. case_if; lia. Qed.

Lemma elem_of_pos (x : Z) l : x ∈ l -> (0 < length l)%nat.
Proof. destruct l; [by intros ?%elem_of_nil|cbn; lia]. Qed.

(** ** Unmapping *)

Section Round.
Context (unmap : Z -> Z -> M uc_err).
Context (Hunmap : forall u id r, wf u -> room u (length (mapped_blocks u)) ->
  id ∈ mapped_blocks u -> regions u !! id = Some r ->
  exists u1, unmap (r_addr r) (r_size r) u = Some (UC_ERR_OK, u1) /\ removed u u1 id r).

(** The part of a block that a round takes. *)
Definition part (r : region) (len : Z) : Z := if decide (at_top r) then r_size r else len.

Lemma unmap_round u id r addr len :
  inv user u -> one_more u -> find_block u addr = Some id -> regions u !! id = Some r ->
  r_ram r = true -> (target_page_size u | addr) -> (target_page_size u | len) ->
  0 < len -> addr + len <= r_addr r + r_size r -> (at_top r -> r_addr r = addr) ->
  (exists u1 m u',
    split_region os_alloc mmio_cb_read malloc_ok unmap r addr len true u = Some (true, u1) /\
    memory_mapping addr u1 = Some (m, u1) /\
    (match m with Some id => memory_unmap id | None => mret tt end) u1 = Some (tt, u') /\
    round user u u' id r addr (part r len) (fun _ => None)
      (pieces r addr (addr + len) true + pred (length (mapped_blocks u)))) \/
  (exists u', split_region os_alloc mmio_cb_read malloc_ok unmap r addr len true u
      = Some (false, u') /\ broken user u u' id r /\ refused os_alloc malloc_ok).
Proof.
  intros Hinv Hone Hf Hr Hram Hda Hdl Hlen Hfit Htop. pose proof (inv_wf _ _ Hinv) as Hwf.
  pose proof Hf as (r' & Hin & Hr' & Hh & Hok)%(find_block_region u Hwf).
  assert (r' = r) as -> by congruence. pose proof Hh as Hh'%holds_spec.
  pose proof (bo_addr _ _ Hok). pose proof (bo_fits _ _ Hok). unfold part.
  destruct (decide (len = r_size r \/ at_top r)) as [Hw|Hw].
  - assert (addr = r_addr r) as -> by (destruct Hw; [lia|by symmetry; auto]).
    assert ((if decide (at_top r) then r_size r else len) = r_size r) as ->
      by (case_decide; [done|by destruct Hw]).
    destruct (memory_unmap_run u id r Hwf Hin Hr (inv_room _ _ Hinv)) as (u' & Hrun & Hrm).
    left. exists u, (Some id), u'.
    split_and!; [|rewrite <- Hf; apply memory_mapping_ok; [done|lia]|done|].
    + pose proof (split_whole os_alloc mmio_cb_read malloc_ok unmap u r len true Hok Hw) as Hs.
      by rewrite Hram in Hs.
    + constructor; [by eapply inv_removed|by apply recut_removed|apply Hrm|apply Hrm| |].
      * intros x. by apply (cell_at_removed u u' id r x).
      * pose proof (removed_count u u' id r Hwf Hrm Hin). lia.
  - assert (~ at_top r) as Hnt by tauto. rewrite decide_False by done.
    destruct (Hunmap u id r Hwf (inv_room _ _ Hinv) Hin Hr) as (u0 & Hun & Hrm).
    pose proof (bo_kind _ _ Hok) as Hk. rewrite Hram in Hk. destruct Hk as (b & Hb & Hmax & _).
    pose proof (removed_count u u0 id r Hwf Hrm Hin) as Hcnt.
    destruct (split_region_ok os_alloc user mmio_cb_read malloc_ok unmap u u0 id r b addr len true)
      as [(u' & Hrun & Hcut & _)|Hfail]; try done.
    + by apply (below_top u).
    + lia.
    + eapply (room_le u u); [done| |exact Hone]. unfold pieces, piece. repeat case_if; lia.
    + lia.
    + left.
      assert (find_block u' addr = None) as Hf'.
      { eapply cu_find; [exact Hcut|done|]. unfold back_after. cbn [negb andb].
        rewrite orb_false_r. apply orb_false_iff. rewrite <- !not_true_iff_false, !between_spec. lia. }
      exists u', None, u'. split_and!; [done| |done|].
      * rewrite <- Hf'. apply memory_mapping_ok; [apply Hcut|lia].
      * constructor; [apply Hcut|apply Hcut|apply Hcut|apply Hcut| |].
        -- intros x. rewrite (cu_cells _ _ _ _ _ _ _ _ Hcut x), back_after_deleted by lia. done.
        -- by rewrite (cu_count _ _ _ _ _ _ _ _ Hcut).
    + by right.
Qed.

Lemma page_min u addr n r :
  block_ok u r -> (target_page_size u | addr) -> (target_page_size u | n) ->
  (target_page_size u | Z.min n (r_addr r + r_size r - addr)).
Proof.
  intros Hok Ha Hn. destruct (Z.min_spec n (r_addr r + r_size r - addr)) as [[_ ->]|[_ ->]]; [done|].
  apply Z.divide_sub_r; [|done]. apply Z.divide_add_r; apply Hok.
Qed.

(** A range that starts in a block which ends at the last address starts with
    it. *)
Definition starts (u : uc_struct) (addr : Z) : Prop :=
  forall id r, find_block u addr = Some id -> regions u !! id = Some r -> at_top r ->
    r_addr r = addr.

(** The outcome of unmapping [n] bytes: they are gone, or the host refused
    memory and what was being cut may be lost. *)
Definition unmap_result (u : uc_struct) (a n : Z) (res : option (uc_err * uc_struct)) : Prop :=
  exists err u', res = Some (err, u') /\ inv user u' /\
    ((err = UC_ERR_OK /\ cells_change u u' a (covered u a n) (fun _ => None)) \/
     (err = UC_ERR_NOMEM /\ refused os_alloc malloc_ok /\ cells_lost u u' a n (fun _ => None))).

(** The round that reaches the end of the range takes what is covered. *)
Lemma part_covered u addr n id r :
  wf u -> find_block u addr = Some id -> regions u !! id = Some r -> 0 < n ->
  addr + n <= r_addr r + r_size r -> (at_top r -> r_addr r = addr) ->
  part r n = covered u addr n.
Proof.
  intros Hwf Hf Hr Hn Hfit Htop.
  pose proof Hf as (r' & Hin & Hr' & Hh%holds_spec & _)%(find_block_region u Hwf).
  assert (r' = r) as -> by congruence. rewrite (covered_at u addr n id r); [|..|done].
  - unfold part. case_decide as Ht; [|done]. unfold at_top in Ht. specialize (Htop Ht). lia.
  - apply find_block_Some; [done|]. split; [done|]. exists r. split; [done|]. apply holds_spec. lia.
Qed.

(** A round that leaves a part of the range is in a block below the top, and
    does not add a block when the middle is deleted. *)
Lemma part_inner r addr n len :
  r_addr r + r_size r <= 2 ^ 64 -> len = Z.min n (r_addr r + r_size r - addr) -> len < n ->
  addr + n <= 2 ^ 64 -> part r len = len /\ r_addr r + r_size r = addr + len /\
  forall del, pieces r addr (addr + len) del = ((if del then 0 else 1) + piece (addr - r_addr r))%nat.
Proof.
  intros Hle -> Hlt Hfit. unfold part, at_top, pieces. rewrite decide_False by lia.
  split_and!; [done|lia|]. intros del. unfold piece at 1. case_if; [lia|done].
Qed.

Lemma unmap_loop_ok fuel u addr size count :
  inv user u -> one_more u -> 0 <= addr -> 0 <= count < size ->
  addr + (size - count) <= 2 ^ 64 -> (target_page_size u | addr) ->
  (target_page_size u | size - count) -> area_ram u addr (size - count) -> starts u addr ->
  (rounds u addr (size - count) <= fuel)%nat ->
  unmap_result u addr (size - count)
    (unmap_loop os_alloc mmio_cb_read malloc_ok unmap fuel addr size count u).
Proof.
  revert u addr count.
  induction fuel as [|fuel IH]; intros u addr count Hinv Hone Ha Hc Hfit Hda Hdn Hram Hst Hf.
  { pose proof (rounds_pos u addr (size - count)). lia. }
  pose proof (inv_wf _ _ Hinv) as Hwf. cbn [unmap_loop]. case_if; [|lia].
  set (n := size - count) in *.
  destruct (ram_byte_inv u Hwf addr) as (id & r & b & Ef & Hin & Hr & Hh & Hok & Hr_ram & _).
  { apply Hram; [unfold uint; lia|]. apply in_area_first. lia. }
  erewrite bind_run by (apply memory_mapping_ok; [done|lia]). rewrite Ef.
  erewrite bind_lift by done. rewrite bind_get. erewrite bind_region by done.
  erewrite bind_lift by (by apply memory_region_len_ok). fold n. rewrite Hr_ram.
  pose proof (page_min u addr n r Hok Hda Hdn) as Hdl. pose proof Hh as Hh'%holds_spec.
  pose proof (part_inner r addr n _ (bo_fits _ _ Hok) eq_refl) as Hinner.
  set (len := Z.min n (r_addr r + r_size r - addr)) in *.
  destruct (unmap_round u id r addr len)
    as [(u1 & m & u2 & Hs & Hm & Hu & Hrd)|(u' & Hs & Hbk & Hno)]; try done; [lia|lia|by eapply Hst|..].
  2:{ erewrite bind_run by exact Hs. cbn iota. exists UC_ERR_NOMEM, u'.
      split_and!; [done|apply Hbk|]. right. split_and!; [done..|].
      eapply cells_lost_broken; eauto; lia. }
  erewrite bind_run by exact Hs. cbn iota. erewrite bind_run by exact Hm.
  erewrite bind_run by exact Hu.
  pose proof (rounds_recut fuel u u2 id r addr n Hwf (inv_wf _ _ (rd_inv _ _ _ _ _ _ _ _ _ Hrd))
    (rd_recut _ _ _ _ _ _ _ _ _ Hrd) Hin Hr Hh Ha ltac:(lia) ltac:(lia) Hf) as Hf'.
  cbn zeta in Hf'. fold len in Hf'. destruct (Z.eq_dec len n) as [El|Hl].
  - destruct fuel as [|fuel]; [pose proof (rounds_pos u2 (addr + len) (n - len)); lia|].
    cbn [unmap_loop]. case_if; [lia|]. exists UC_ERR_OK, u2. split_and!; [done|apply Hrd|]. left.
    split; [done|]. rewrite <- (part_covered u addr n id r), <- El; try done; [apply Hrd|lia|lia|].
    by eapply Hst.
  - rewrite wrap_id by (unfold uint; lia).
    destruct (Hinner ltac:(lia) ltac:(lia)) as (Ep & Eend & Epc). rewrite Ep, Epc in Hrd.
    pose proof (inv_wf _ _ (rd_inv _ _ _ _ _ _ _ _ _ Hrd)) as Hwf2.
    assert (area_ram u2 (addr + len) (n - len)) as Hram2
      by (eapply (area_ram_rest u u2 addr len n); [done|lia|lia|apply Hrd|done]).
    destruct (covered_rest u u2 id r addr len n) as [Ecov Hcov]; try done; [apply Hrd|lia|..].
    { destruct (ram_byte_inv u2 Hwf2 (addr + n - 1)) as (y & _ & _ & -> & _); [|eauto].
      apply Hram2; [unfold uint; lia|]. rewrite in_area_range by (unfold uint; lia).
      apply andb_true_iff. rewrite Z.leb_le, Z.ltb_lt. lia. }
    destruct (IH u2 (addr + len) (count + len)) as (err & u' & Hrun & Hinv' & Hres);
      replace (size - (count + len)) with (n - len) in * by lia; try done; try lia.
    + apply Hrd.
    + eapply room_le; [apply Hrd| |exact Hone]. pose proof (rd_count _ _ _ _ _ _ _ _ _ Hrd).
      pose proof (piece_le (addr - r_addr r)). pose proof (elem_of_pos id _ Hin). lia.
    + rewrite (sc_page _ _ (rd_config _ _ _ _ _ _ _ _ _ Hrd)). by apply Z.divide_add_r.
    + rewrite (sc_page _ _ (rd_config _ _ _ _ _ _ _ _ _ Hrd)). by apply Z.divide_sub_r.
    + intros y ry Hfy Hry _. rewrite <- Eend in Hfy |- *.
      eapply (next_starts u u2 id r y ry); try done. apply Hrd.
    + exists err, u'. split_and!; [done..|]. destruct Hres as [[-> Hcells]|(-> & Hno & Hlost)].
      * left. split; [done|]. rewrite Ecov in Hcells.
        eapply (cells_change_app u u2 u' addr len); [lia|apply Hrd|done].
      * right. split_and!; [done..|]. eapply cells_lost_app; eauto. lia.
Qed.

(** A range that starts inside of a block which ends at the last address. *)
Definition inside_top (u : uc_struct) (a : Z) : Prop :=
  exists id r, find_block u a = Some id /\ regions u !! id = Some r /\ at_top r /\ r_addr r < a.

Lemma starts_outside u a : wf u -> ~ inside_top u a -> starts u a.
Proof.
  intros Hwf Hout id r Hf Hr Ht.
  pose proof Hf as (r' & _ & Hr' & Hh%holds_spec & _)%(find_block_region u Hwf).
  assert (r' = r) as -> by congruence.
  destruct (Z.eq_dec (r_addr r) a) as [|Hne]; [done|]. destruct Hout. exists id, r.
  split_and!; [done..|lia].
Qed.

Lemma unmap_loop_top fuel u a size :
  wf u -> inside_top u a -> uint 64 a -> 0 < size -> area_ram u a size ->
  unmap_loop os_alloc mmio_cb_read malloc_ok unmap (S fuel) a size 0 u = Some (UC_ERR_NOMEM, u).
Proof.
  intros Hwf (id & r & Hf & Hr & Ht & Hlt) Ha Hs Hram. unfold uint in Ha.
  pose proof Hf as (r' & Hin & Hr' & Hh & Hok)%(find_block_region u Hwf).
  assert (r' = r) as -> by congruence. pose proof Hh as Hh'%holds_spec.
  destruct (ram_byte_inv u Hwf a) as (id' & r' & b & Ef & _ & Hr2 & _ & _ & Hr_ram & _).
  { apply Hram; [done|]. apply in_area_first. lia. }
  simplify_eq. cbn [unmap_loop]. case_if; [|lia].
  erewrite bind_run by (apply memory_mapping_ok; [done|lia]). rewrite Hf.
  erewrite bind_lift by done. rewrite bind_get. erewrite bind_region by done.
  erewrite bind_lift by (by apply memory_region_len_ok). rewrite Hr_ram.
  erewrite bind_run by (apply split_top; try done; lia). done.
Qed.
End Round.

Lemma uc_mem_unmap_block d u id r :
  wf u -> room u (length (mapped_blocks u)) -> id ∈ mapped_blocks u -> regions u !! id = Some r ->
  exists u1, uc_mem_unmap_depth os_alloc mmio_cb_read malloc_ok (S d) (r_addr r) (r_size r) u
    = Some (UC_ERR_OK, u1) /\ removed u u1 id r.
Proof. intros. by apply unmap_whole. Qed.

(** The arguments of a range. *)
Definition aligned (u : uc_struct) (a n : Z) : Prop :=
  (target_page_size u | a) /\ (target_page_size u | n).

Lemma aligned_tests u a n :
  wf u ->
  (aligned u a n /\ (Z.land a (target_page_align u) =? 0) = true
                 /\ (Z.land n (target_page_align u) =? 0) = true) \/
  (~ aligned u a n /\ ((Z.land a (target_page_align u) =? 0) = false \/
     (Z.land a (target_page_align u) =? 0) = true /\ (Z.land n (target_page_align u) =? 0) = false)).
Proof.
  intros Hwf. unfold aligned. rewrite <- !(page_aligned u _ Hwf).
  destruct (Z.land a (target_page_align u) =? 0), (Z.land n (target_page_align u) =? 0); naive_solver.
Qed.

(** ** Protecting *)

(** A cell with other permissions. *)
Definition set_perms (perms : Z) (c : option cell) : option cell :=
  match c with
  | Some (Ram _ b) => Some (Ram perms b)
  | Some (Mmio _ cbs off) => Some (Mmio perms cbs off)
  | None => None
  end.

(** Setting the permissions of a block of RAM. *)
Lemma set_perms_ok u id r perms :
  inv user u -> id ∈ mapped_blocks u -> regions u !! id = Some r -> r_ram r = true ->
  0 <= perms <= UC_PROT_ALL ->
  exists u', (_ ← upd_region id (r_with_perms perms);
              memory_region_set_readonly id (Z.land perms UC_PROT_WRITE =? 0)) u = Some (tt, u') /\
    round user u u' id r (r_addr r) (r_size r) (set_perms perms) (length (mapped_blocks u)).
Proof.
  intros [Hwf Hh Hroom] Hin Hr Hram Hp. pose proof (remove_block_ok u id r Hwf Hin Hr) as Hok.
  set (ro := Z.land perms UC_PROT_WRITE =? 0). set (rp := r_with_perms perms r).
  set (r' := r_with_readonly ro rp). set (u' := with_regions <[id := r']> u).
  assert (block_ok u r') as Hok'.
  { destruct Hok. constructor; try done; cbn. by intros _ ?%Z.eqb_eq. }
  assert (wf u') as Hwf' by by apply (wf_update u id r).
  exists u'. split.
  - erewrite bind_run by (by apply upd_region_run). unfold memory_region_set_readonly.
    erewrite bind_region by apply lookup_insert_eq. fold rp.
    destruct (Bool.eqb_spec (r_readonly rp) ro) as [E|]; cbn [negb when].
    + unfold mret, M_ret, u', r'. rewrite <- E. by destruct r.
    + erewrite bind_run by apply set_region_run. change (r_enabled rp) with (r_enabled r).
      rewrite (bo_enabled _ _ Hok). cbn [when]. rewrite with_regions_comp.
      pose proof (commit_layout u' Hwf') as Hc. rewrite decide_True in Hc by exact Hroom.
      unfold u', with_regions in Hc |- *. cbn. rewrite insert_insert_eq. exact Hc.
  - assert (forall y b, ram_block u' y b -> ram_block u y b) as Hblk.
    { intros y b [Hy (ry & Hry & Hb)]. split; [done|]. cbn [u' regions with_regions] in Hry.
      destruct (decide (y = id)) as [-> |].
      - rewrite lookup_insert_eq in Hry. simplify_eq. eauto.
      - rewrite lookup_insert_ne in Hry by done. eauto. }
    constructor; try done.
    + split; [done| |exact Hroom].
      constructor; intros y b Hb%Hblk; try (by eapply Hh). intros y' b' Hb'%Hblk. by eapply Hh.
    + intros y ry Hy Hry. destruct (decide (y = id)) as [-> |Hne].
      * right. cbn [u' regions with_regions] in Hry. rewrite lookup_insert_eq in Hry.
        injection Hry as <-. cbn. lia.
      * left. cbn [u' regions with_regions] in Hry. rewrite lookup_insert_ne in Hry by done. eauto 10.
    + intros x. unfold cell_at. rewrite (find_block_update u id r r') by done.
      rewrite between_holds. destruct (find_block u x) as [y|] eqn:Hf; [|by destruct (holds r x)].
      pose proof Hf as (ry & Hy & Hry & Hhy & _)%(find_block_region u Hwf).
      cbn [mbind option_bind u' regions with_regions]. rewrite Hry. cbn [mbind option_bind].
      destruct (holds r x) eqn:Hhx.
      * assert (y = id) as -> by (by eapply (block_unique u Hwf)). rewrite lookup_insert_eq.
        assert (ry = r) as -> by congruence. cbn [mbind option_bind]. unfold cell_of. cbn.
        rewrite Hram. by destruct (r_ram_block r).
      * rewrite lookup_insert_ne, Hry; [done|]. intros <-. congruence.
Qed.

Lemma bind_two {A} (m1 m2 : M unit) (k : unit -> M A) u u' :
  (_ ← m1; m2) u = Some (tt, u') -> (_ ← m1; x ← m2; k x) u = k tt u'.
Proof. unfold mbind, M_bind. destruct (m1 u) as [[[] v]|]; [|done]. by intros ->. Qed.

Lemma recut_trans u u1 u' id r y ry :
  recut u u1 id r -> recut u1 u' y ry -> r_addr r <= r_addr ry ->
  r_addr ry + r_size ry <= r_addr r + r_size r -> recut u u' id r.
Proof.
  intros H1 H2 Hlo Hhi z rz Hz Hrz.
  destruct (H2 z rz Hz Hrz) as [(Hz1 & _ & r1 & Hr1 & Ea & Es)|]; [|right; lia].
  rewrite <- Ea, <- Es. by apply H1.
Qed.

Lemma round_count u u' id r addr len f c c' :
  round user u u' id r addr len f c -> (c <= c')%nat -> round user u u' id r addr len f c'.
Proof. intros [] Hle. constructor; try done. lia. Qed.

Lemma protect_round u id r addr len perms :
  inv user u -> room u (pieces r addr (addr + len) false + pred (length (mapped_blocks u))) ->
  find_block u addr = Some id -> regions u !! id = Some r ->
  r_ram r = true -> (target_page_size u | addr) -> (target_page_size u | len) ->
  0 < len -> addr + len <= r_addr r + r_size r -> (at_top r -> r_addr r = addr) ->
  0 <= perms <= UC_PROT_ALL ->
  let split := split_region os_alloc mmio_cb_read malloc_ok
                 (uc_mem_unmap os_alloc mmio_cb_read malloc_ok) r addr len false in
  (exists u1 y now u', split u = Some (true, u1) /\
    memory_mapping addr u1 = Some (Some y, u1) /\ regions u1 !! y = Some now /\
    r_perms now = r_perms r /\
    (_ ← upd_region y (r_with_perms perms);
     memory_region_set_readonly y (Z.land perms UC_PROT_WRITE =? 0)) u1 = Some (tt, u') /\
    round user u u' id r addr (part r len) (set_perms perms)
      (pieces r addr (addr + len) false + pred (length (mapped_blocks u)))) \/
  (exists u', split u = Some (false, u') /\ broken user u u' id r /\
    refused os_alloc malloc_ok).
Proof.
  intros Hinv Hroom Hf Hr Hram Hda Hdl Hlen Hfit Htop Hp split.
  pose proof (inv_wf _ _ Hinv) as Hwf.
  pose proof Hf as (r' & Hin & Hr' & Hh & Hok)%(find_block_region u Hwf).
  assert (r' = r) as -> by congruence. pose proof Hh as Hh'%holds_spec.
  pose proof (bo_addr _ _ Hok). pose proof (bo_fits _ _ Hok). unfold part.
  destruct (decide (len = r_size r \/ at_top r)) as [Hw|Hw].
  - assert (addr = r_addr r) as -> by (destruct Hw; [lia|by symmetry; auto]).
    assert ((if decide (at_top r) then r_size r else len) = r_size r) as ->
      by (case_decide; [done|by destruct Hw]).
    destruct (set_perms_ok u id r perms) as (u' & Hrun & Hrd); try done.
    left. exists u, id, r, u'.
    split_and!; [|rewrite <- Hf; apply memory_mapping_ok; [done|lia]|done..|].
    + pose proof (split_whole os_alloc mmio_cb_read malloc_ok
        (uc_mem_unmap os_alloc mmio_cb_read malloc_ok) u r len false Hok Hw) as Hs.
      by rewrite Hram in Hs.
    + eapply round_count; [exact Hrd|]. unfold pieces. lia.
  - assert (~ at_top r) as Hnt by tauto. rewrite decide_False by done.
    destruct (uc_mem_unmap_block 2 u id r Hwf (inv_room _ _ Hinv) Hin Hr) as (u0 & Hun & Hrm).
    pose proof (bo_kind _ _ Hok) as Hk. rewrite Hram in Hk. destruct Hk as (b & Hb & Hmax & _).
    destruct (split_region_ok os_alloc user mmio_cb_read malloc_ok
      (uc_mem_unmap os_alloc mmio_cb_read malloc_ok) u u0 id r b addr len false)
      as [(u1 & Hrun & Hcut & Hblk)|Hfail]; try done; [by apply (below_top u)|lia|lia| |by right].
    destruct (Hblk eq_refl) as (y & ry & Hfy & Hry & Ea & Es & Ep & Hramy). clear Hblk.
    pose proof (inv_wf _ _ (cu_inv _ _ _ _ _ _ _ _ Hcut)) as Hwf1.
    destruct (set_perms_ok u1 y ry perms) as (u' & Hset & Hrd); try done; [apply Hcut|..].
    { by apply find_block_Some in Hfy as [? _]. }
    left. exists u1, y, ry, u'. split_and!; try done.
    { rewrite <- Hfy. apply memory_mapping_ok; [done|lia]. }
    rewrite Ea, Es in Hrd. destruct Hrd as [Hi Hrc Hcf Hfl Hcells Hcnt].
    destruct (cu_config _ _ _ _ _ _ _ _ Hcut), Hcf. constructor.
    + done.
    + eapply recut_trans; [apply Hcut|exact Hrc|lia..].
    + constructor; congruence.
    + etrans; [apply Hcut|done].
    + intros x. rewrite (Hcells x), (cu_cells _ _ _ _ _ _ _ _ Hcut x), back_after_kept by lia. done.
    + by rewrite <- (cu_count _ _ _ _ _ _ _ _ Hcut).
Qed.

(** Execution permission is taken from a cell of the range. *)
Definition loses_exec (u : uc_struct) (a n perms : Z) : Prop :=
  Z.land perms UC_PROT_EXEC = 0 /\
  exists x p b, a <= x < a + n /\ cell_at u x = Some (Ram p b) /\ Z.land p UC_PROT_EXEC <> 0.

(** The first part of the range is in one block; the rest is as before. *)
Lemma loses_exec_step u u1 a len n perms id r f :
  wf u -> find_block u a = Some id -> regions u !! id = Some r -> r_ram r = true ->
  0 < len <= n -> a + len <= r_addr r + r_size r -> cells_change u u1 a len f ->
  (loses_exec u a n perms <->
   (Z.land (r_perms r) UC_PROT_EXEC <> 0 /\ Z.land perms UC_PROT_EXEC = 0) \/
   loses_exec u1 (a + len) (n - len) perms).
Proof.
  intros Hwf Hf Hr Hram Hl Hfit Hc.
  pose proof Hf as (r' & Hin & Hr' & Hh%holds_spec & Hok)%(find_block_region u Hwf).
  assert (r' = r) as -> by congruence. pose proof (bo_kind _ _ Hok) as Hk. rewrite Hram in Hk.
  destruct Hk as (blk & Hb & _).
  assert (forall x, a <= x < a + len -> exists b, cell_at u x = Some (Ram (r_perms r) b)) as Hcell.
  { intros x Hx. eexists. eapply block_cell; eauto. apply holds_spec. lia. }
  assert (forall x, ~ (a <= x < a + len) -> cell_at u1 x = cell_at u x) as Hrest.
  { intros x Hx. rewrite (Hc x). destruct (between a (a + len) x) eqn:E; [|done].
    apply between_spec in E. lia. }
  unfold loses_exec. split.
  - intros (Hp & x & p & b & Hx & Hcx & Hpx). destruct (decide (x < a + len)).
    + left. destruct (Hcell x) as [b' E]; [lia|]. rewrite E in Hcx. by simplify_eq.
    + right. split; [done|]. exists x, p, b. rewrite Hrest by lia. split_and!; [lia..|done|done].
  - intros [[Hpr Hp]|(Hp & x & p & b & Hx & Hcx & Hpx)]; (split; [done|]).
    + destruct (Hcell a) as [b E]; [lia|]. exists a, (r_perms r), b. split_and!; [lia..|done|done].
    + exists x, p, b. rewrite Hrest in Hcx by lia. split_and!; [lia..|done|done].
Qed.

Lemma loses_exec_block u a n perms id r :
  wf u -> find_block u a = Some id -> regions u !! id = Some r -> r_ram r = true ->
  0 < n -> a + n <= r_addr r + r_size r ->
  (loses_exec u a n perms <->
   Z.land (r_perms r) UC_PROT_EXEC <> 0 /\ Z.land perms UC_PROT_EXEC = 0).
Proof.
  intros Hwf Hf Hr Hram Hn Hfit.
  rewrite (loses_exec_step u u a n n perms id r (fun c => c)); try done.
  - split; [|by left]. intros [?|(_ & x & _ & _ & ? & _)]; [done|lia].
  - intros x. by destruct (between a (a + n) x).
Qed.

(** The outcome of protecting [n] bytes: whether execution permission was
    removed, or nothing after the host refused memory. *)
Definition protect_result (u : uc_struct) (perms a n : Z) (before : bool)
    (res : option (option bool * uc_struct)) : Prop :=
  exists ans u', res = Some (ans, u') /\ inv user u' /\ same_flags u u' /\
    match ans with
    | Some b => cells_change u u' a (covered u a n) (set_perms perms) /\
        (b = true <-> before = true \/ loses_exec u a n perms)
    | None => refused os_alloc malloc_ok /\ cells_lost u u' a n (set_perms perms)
    end.

(** The blocks that cutting a range which starts at [addr] can add. *)
Definition cut_room (u : uc_struct) (addr : Z) : Prop :=
  forall id r, find_block u addr = Some id -> regions u !! id = Some r ->
    room u (S (piece (addr - r_addr r)) + length (mapped_blocks u)).

(** The flag after a round. *)
Lemma removes_iff before p perms :
  before || (negb (Z.land p UC_PROT_EXEC =? 0) && (Z.land perms UC_PROT_EXEC =? 0)) = true <->
  before = true \/ (Z.land p UC_PROT_EXEC <> 0 /\ Z.land perms UC_PROT_EXEC = 0).
Proof. by rewrite orb_true_iff, andb_true_iff, negb_true_iff, Z.eqb_eq, Z.eqb_neq. Qed.

Lemma protect_loop_ok fuel u perms addr size count before :
  inv user u -> cut_room u addr -> 0 <= addr -> 0 <= count < size ->
  addr + (size - count) <= 2 ^ 64 -> (target_page_size u | addr) ->
  (target_page_size u | size - count) -> area_ram u addr (size - count) -> starts u addr ->
  0 <= perms <= UC_PROT_ALL -> (rounds u addr (size - count) <= fuel)%nat ->
  protect_result u perms addr (size - count) before
    (protect_loop os_alloc mmio_cb_read malloc_ok fuel perms addr size count before u).
Proof.
  revert u addr count before.
  induction fuel as [|fuel IH]; intros u addr count bef Hinv Hroom Ha Hc Hfit Hda Hdn Hram Hst Hp Hf.
  { pose proof (rounds_pos u addr (size - count)). lia. }
  pose proof (inv_wf _ _ Hinv) as Hwf. cbn [protect_loop]. case_if; [|lia].
  set (n := size - count) in *.
  destruct (ram_byte_inv u Hwf addr) as (id & r & b & Ef & Hin & Hr & Hh & Hok & Hr_ram & _).
  { apply Hram; [unfold uint; lia|]. apply in_area_first. lia. }
  erewrite bind_run by (apply memory_mapping_ok; [done|lia]). rewrite Ef.
  erewrite bind_lift by done. rewrite bind_get. erewrite bind_region by done.
  erewrite bind_lift by (by apply memory_region_len_ok). fold n. rewrite Hr_ram.
  pose proof (page_min u addr n r Hok Hda Hdn) as Hdl. pose proof Hh as Hh'%holds_spec.
  pose proof (part_inner r addr n _ (bo_fits _ _ Hok) eq_refl) as Hinner.
  pose proof (elem_of_pos id _ Hin) as Hpos. specialize (Hroom id r Ef Hr).
  set (len := Z.min n (r_addr r + r_size r - addr)) in *.
  destruct (protect_round u id r addr len perms)
    as [(u1 & y & now & u2 & Hs & Hm & Hnow & Hpn & Hu & Hrd)|(u' & Hs & Hbk & Hno)];
    try done; [|lia|lia|by eapply Hst|..].
  { eapply (room_le u u); [done| |exact Hroom]. unfold pieces.
    pose proof (piece_le (r_addr r + r_size r - (addr + len))). lia. }
  2:{ erewrite bind_run by exact Hs. cbn iota. exists None, u'.
      split_and!; [done|apply Hbk|apply Hbk|done|]. eapply cells_lost_broken; eauto; lia. }
  erewrite bind_run by exact Hs. cbn iota. erewrite bind_run by exact Hm.
  erewrite bind_lift by done. erewrite bind_region by exact Hnow. unfold when.
  erewrite bind_two by exact Hu. rewrite Hpn. cbn [andb].
  pose proof (removes_iff bef (r_perms r) perms) as Hrem. set (bef' := bef || _) in *.
  pose proof (rounds_recut fuel u u2 id r addr n Hwf (inv_wf _ _ (rd_inv _ _ _ _ _ _ _ _ _ Hrd))
    (rd_recut _ _ _ _ _ _ _ _ _ Hrd) Hin Hr Hh Ha ltac:(lia) ltac:(lia) Hf) as Hf'.
  cbn zeta in Hf'. fold len in Hf'. destruct (Z.eq_dec len n) as [El|Hl].
  - destruct fuel as [|fuel]; [pose proof (rounds_pos u2 (addr + len) (n - len)); lia|].
    cbn [protect_loop]. case_if; [lia|]. exists (Some bef'), u2.
    split_and!; [done|apply Hrd|apply Hrd| |].
    + rewrite <- (part_covered u addr n id r), <- El; try done; [apply Hrd|lia|lia|by eapply Hst].
    + rewrite Hrem, (loses_exec_block u addr n perms id r); try done; lia.
  - rewrite wrap_id by (unfold uint; lia).
    destruct (Hinner ltac:(lia) ltac:(lia)) as (Ep & Eend & Epc). rewrite Ep, Epc in Hrd.
    pose proof (inv_wf _ _ (rd_inv _ _ _ _ _ _ _ _ _ Hrd)) as Hwf2.
    assert (area_ram u2 (addr + len) (n - len)) as Hram2
      by (eapply (area_ram_rest u u2 addr len n); [done|lia|lia|apply Hrd|done]).
    destruct (covered_rest u u2 id r addr len n) as [Ecov Hcov]; try done; [apply Hrd|lia|..].
    { destruct (ram_byte_inv u2 Hwf2 (addr + n - 1)) as (z & _ & _ & -> & _); [|eauto].
      apply Hram2; [unfold uint; lia|]. rewrite in_area_range by (unfold uint; lia).
      apply andb_true_iff. rewrite Z.leb_le, Z.ltb_lt. lia. }
    assert (forall z rz, find_block u2 (addr + len) = Some z -> regions u2 !! z = Some rz ->
      r_addr rz = addr + len) as Hnext.
    { intros z rz Hfz Hrz. rewrite <- Eend in Hfz |- *.
      eapply (next_starts u u2 id r z rz); try done. apply Hrd. }
    pose proof (loses_exec_step u u2 addr len n perms id r _ Hwf Ef Hr Hr_ram ltac:(lia) ltac:(lia)
      (rd_cells _ _ _ _ _ _ _ _ _ Hrd)) as Hex.
    destruct (IH u2 (addr + len) (count + len) bef') as (ans & u' & Hrun & Hinv' & Hfl & Hres);
      replace (size - (count + len)) with (n - len) in * by lia; try done; try lia.
    + apply Hrd.
    + intros z rz Hfz Hrz. rewrite (Hnext z rz Hfz Hrz), Z.sub_diag.
      eapply room_le; [apply Hrd| |exact Hroom].
      pose proof (rd_count _ _ _ _ _ _ _ _ _ Hrd). cbn in *. lia.
    + rewrite (sc_page _ _ (rd_config _ _ _ _ _ _ _ _ _ Hrd)). by apply Z.divide_add_r.
    + rewrite (sc_page _ _ (rd_config _ _ _ _ _ _ _ _ _ Hrd)). by apply Z.divide_sub_r.
    + intros z rz Hfz Hrz _. by eapply Hnext.
    + exists ans, u'. split_and!; [done..|etrans; [apply Hrd|done]|]. destruct ans as [b'|].
      * destruct Hres as [Hcells Hb']. rewrite Ecov in Hcells. split.
        -- eapply (cells_change_app u u2 u' addr len); [lia|apply Hrd|done].
        -- rewrite Hb', Hex, Hrem. tauto.
      * destruct Hres as [Hno Hlost]. split; [done|]. eapply cells_lost_app; eauto. lia.
Qed.

(** Leaving the current block does not touch the memory map. *)
Lemma stop_run u :
  exists fl, (_ ← modify (fun u => with_quit true (stop_request u) u);
              _ ← uc_emu_stop; mret tt) u = Some (tt, with_quit true true (with_flushes fl u)).
Proof.
  erewrite bind_run by done. unfold uc_emu_stop, mbind, M_bind, get, modify, when, mret, M_ret.
  cbn [emulation_done with_quit]. destruct (emulation_done u); cbn [negb].
  - exists (flushes u). by destruct u.
  - rewrite add_flush_run. by eexists.
Qed.

Lemma inv_quit u q s fl : inv user u -> inv user (with_quit q s (with_flushes fl u)).
Proof.
  intros [Hwf Hh Hroom]. split; [by apply (wf_ext u)| |done].
  constructor; intros id b Hb; by eapply Hh.
Qed.

Lemma protect_loop_top fuel u a size perms :
  wf u -> inside_top u a -> uint 64 a -> 0 < size -> area_ram u a size ->
  protect_loop os_alloc mmio_cb_read malloc_ok (S fuel) perms a size 0 false u = Some (None, u).
Proof.
  intros Hwf (id & r & Hf & Hr & Ht & Hlt) Ha Hs Hram. unfold uint in Ha.
  pose proof Hf as (r' & Hin & Hr' & Hh & Hok)%(find_block_region u Hwf).
  assert (r' = r) as -> by congruence. pose proof Hh as Hh'%holds_spec.
  destruct (ram_byte_inv u Hwf a) as (id' & r' & b & Ef & _ & Hr2 & _ & _ & Hr_ram & _).
  { apply Hram; [done|]. apply in_area_first. lia. }
  simplify_eq. cbn [protect_loop]. case_if; [|lia].
  erewrite bind_run by (apply memory_mapping_ok; [done|lia]). rewrite Hf.
  erewrite bind_lift by done. rewrite bind_get. erewrite bind_region by done.
  erewrite bind_lift by (by apply memory_region_len_ok). rewrite Hr_ram.
  erewrite bind_run by (apply split_top; try done; lia). done.
Qed.

(** There are section numbers left for two more blocks. *)
Definition two_more (u : uc_struct) : Prop := room u (S (S (length (mapped_blocks u)))).

Lemma two_more_cut u a : two_more u -> cut_room u a.
Proof.
  intros H id r _ _. eapply (room_le u u); [done| |exact H].
  pose proof (piece_le (a - r_addr r)). lia.
Qed.

End Ranges.

(** ** A block cut in two *)

Lemma block_engine_below id r : regions block_engine !! id = Some r -> id = 1 -> ~ at_top r.
Proof.
  intros Hr ->. unfold at_top.
  assert ((r_addr <$> regions block_engine !! 1) = Some 0x4000) as Ha by (vm_compute; reflexivity).
  assert ((r_size <$> regions block_engine !! 1) = Some 0x2000) as Hs by (vm_compute; reflexivity).
  rewrite Hr in Ha, Hs. injection Ha as ->. injection Hs as ->. done.
Qed.

Lemma block_engine_outside a : ~ inside_top block_engine a.
Proof.
  assert (mapped_blocks block_engine = [1]) as E by (vm_compute; reflexivity).
  intros (id & r & (Hin & _)%find_block_Some & Hr & Ht & _); [|apply block_engine_ok].
  rewrite E in Hin. apply list_elem_of_singleton in Hin. by eapply block_engine_below.
Qed.

Lemma block_engine_upper : area_ram block_engine 0x5000 0x1000.
Proof.
  intros x Hx E. rewrite in_area_range in E by (done || lia). bool_to_prop.
  unfold ram_byte. rewrite (proj1 (proj2 block_engine_ok)) by lia. eauto.
Qed.

Lemma block_engine_room : two_more block_engine.
Proof. vm_compute. discriminate. Qed.

Lemma block_engine_covered : covered block_engine 0x5000 0x1000 = 0x1000.
Proof. vm_compute. reflexivity. Qed.

Lemma bump_gives : ~ refused bump (fun _ _ => true).
Proof. by intros [(live & n & E)|(v & n & E)]. Qed.


