(* ===== verification/MemCases.v ===== *)
(** * Behaviour at the edges of the memory API

    Sequences of calls, evaluated on an engine with nothing mapped, where the
    code does something other than its comments or its other branches lead one
    to expect: blocks that end at the last address, cuts without host memory,
    MMIO blocks that are cut, and snapshots with copy on write. *)

From S2P Require Import Prelude UcTypes FlatView Regions UcMem MemInv MemMap.

(** The results of calls on the engine of [MemMap]. *)
Definition results {A} (m : M A) : option A := fst <$> m engine.

Definition no_read (_ _ _ _ : Z) : Z := 0.

(** Callbacks for reading and writing. *)
Definition both : mmio_cbs := mk_cbs (Some 1) 0 (Some 2) 0.

(** The last three pages of the address space. *)
Definition top : Z := 2 ^ 64 - 0x3000.

(** A read or write of the snapshot tests. *)
Definition write : Z -> list Z -> M uc_err := uc_mem_write bump.
Definition read : Z -> Z -> M (uc_err * list Z) := uc_mem_read no_read.
Definition map_ : Z -> Z -> Z -> M uc_err := uc_mem_map bump.
Definition unmap : Z -> Z -> M uc_err := uc_mem_unmap bump no_read (fun _ _ => true).
Definition protect : Z -> Z -> Z -> M uc_err := uc_mem_protect bump no_read (fun _ _ => true).

(** The memory part of [uc_context_save] and [uc_context_restore]: a snapshot is
    taken; later its level is set and it is restored and taken again. *)
Definition save : M Z :=
  _ ← uc_snapshot; u ← get; mret (snapshot_level u).
Definition restore (level : Z) : M uc_err :=
  _ ← modify (with_level level);
  err ← uc_restore_latest_snapshot;
  if bool_decide (err = UC_ERR_OK) then _ ← uc_snapshot; mret UC_ERR_OK else mret err.

(** ** The last address *)

(** A block that ends at the last address has the end 0.  Unmapping or
    protecting its first page counts as covering it, so that the whole block is
    unmapped or changes its permissions; unmapping its last page fails with
    [UC_ERR_NOMEM] although it is mapped. *)
Theorem last_block_not_split :
  results (_ ← map_ top 0x3000 7; e ← unmap top 0x1000; rs ← uc_mem_regions; mret (e, rs))
    = Some (UC_ERR_OK, []) /\
  results (_ ← map_ top 0x3000 7; e ← protect top 0x1000 1; rs ← uc_mem_regions; mret (e, rs))
    = Some (UC_ERR_OK, [(top, 2 ^ 64 - 1, 1)]) /\
  results (_ ← map_ top 0x3000 7; e ← unmap (top + 0x2000) 0x1000; rs ← uc_mem_regions; mret (e, rs))
    = Some (UC_ERR_NOMEM, [(top, 2 ^ 64 - 1, 7)]).
Proof. by vm_compute. Qed.

(** ** Host memory that runs out *)

(** A host with memory for a single block. *)
Definition scarce (live : list (Z * Z)) (n : Z) : option Z :=
  match live with [] => Some 0x10000 | _ => None end.

(** The middle page of a block of three pages is to be unmapped or protected,
    and there is no memory for the right part: the call fails, and the block has
    lost its last page, for [uc_mem_protect] its middle page too.  Without memory
    for the copy nothing changes. *)
Theorem failed_cut_loses_pages :
  results (_ ← uc_mem_map scarce 0x4000 0x3000 7;
           e ← uc_mem_unmap scarce no_read (fun _ _ => true) 0x5000 0x1000;
           rs ← uc_mem_regions; mret (e, rs))
    = Some (UC_ERR_NOMEM, [(0x4000, 0x4fff, 7)]) /\
  results (_ ← uc_mem_map scarce 0x4000 0x3000 7;
           e ← uc_mem_protect scarce no_read (fun _ _ => true) 0x5000 0x1000 1;
           rs ← uc_mem_regions; mret (e, rs))
    = Some (UC_ERR_NOMEM, [(0x4000, 0x4fff, 7)]) /\
  results (_ ← uc_mem_map scarce 0x4000 0x3000 7;
           e ← uc_mem_unmap scarce no_read (fun _ _ => false) 0x5000 0x1000;
           rs ← uc_mem_regions; mret (e, rs))
    = Some (UC_ERR_NOMEM, [(0x4000, 0x6fff, 7)]).
Proof. by vm_compute. Qed.

(** ** MMIO blocks that are cut *)

(** The parts of an MMIO block that is cut start again at offset 0 and get
    the permissions of its callbacks: after the first page is unmapped, a write
    to the third reaches the callback with another offset than before, and the
    pages that [uc_mem_protect] had closed are open again. *)
Theorem mmio_split_forgets :
  (mmio_writes ∘ snd) <$> (_ ← uc_mmio_map 0x4000 0x3000 both; _ ← write 0x6000 [5];
     _ ← unmap 0x4000 0x1000; write 0x6000 [5]) engine
    = Some [mk_mmio 2 0 0x2000 1 5; mk_mmio 2 0 0x1000 1 5] /\
  results (_ ← uc_mmio_map 0x4000 0x3000 both; _ ← protect 0x4000 0x3000 0; r1 ← uc_mem_regions;
           _ ← unmap 0x4000 0x1000; r2 ← uc_mem_regions; mret (r1, r2))
    = Some ([(0x4000, 0x6fff, 0)], [(0x5000, 0x6fff, 3)]).
Proof. by vm_compute. Qed.

(** ** Snapshots *)

(** A snapshot protects the memory written after it, and what is unmapped
    after it is mapped again by the restoration. *)
Example snapshot_restores :
  results (_ ← map_ 0x4000 0x3000 7; _ ← write 0x5000 [1; 2]; l ← save;
           _ ← write 0x5000 [3; 4]; r1 ← read 0x5000 2; e ← restore l; r2 ← read 0x5000 2;
           mret (r1, e, r2))
    = Some ((UC_ERR_OK, [3; 4]), UC_ERR_OK, (UC_ERR_OK, [1; 2])) /\
  results (_ ← map_ 0x4000 0x3000 7; _ ← write 0x5000 [1; 2]; l ← save;
           _ ← unmap 0x4000 0x3000; r1 ← read 0x5000 2; e ← restore l; r2 ← read 0x5000 2;
           mret (r1, e, r2))
    = Some ((UC_ERR_READ_UNMAPPED, []), UC_ERR_OK, (UC_ERR_OK, [1; 2])).
Proof. by vm_compute. Qed.

(** Copy on write moves the block of [mapped_blocks] into a container, at
    offset 0.  From then on [uc_mem_regions] lists it at address 0, mapping page
    0 is refused as an overlap, and mapping its own first page is accepted. *)
Theorem cow_moves_block :
  results (_ ← map_ 0x4000 0x3000 7; _ ← save; _ ← write 0x5000 [1]; rs ← uc_mem_regions;
           e1 ← map_ 0 0x1000 7; e2 ← map_ 0x4000 0x1000 7; mret (rs, e1, e2))
    = Some ([(0, 0x2fff, 7)], UC_ERR_MAP, UC_ERR_OK).
Proof. by vm_compute. Qed.

(** A write that starts before a page already copied at this snapshot
    level copies that page again from the original block: the bytes written to
    it before are lost. *)
Theorem cow_loses_bytes :
  results (_ ← map_ 0x4000 0x3000 7; _ ← save; _ ← write 0x5000 [1; 2; 3; 4];
           e ← write 0x4fff [9; 9]; r ← read 0x4fff 6; mret (e, r))
    = Some (UC_ERR_OK, (UC_ERR_OK, [9; 9; 0; 0; 0; 0])).
Proof. by vm_compute. Qed.

(** [memory_moveout] takes the first subregion of a container for the
    initial block, but the list is sorted by descending priority: after a copy
    on write the unmapped block stays in [mapped_blocks] and its range cannot be
    mapped again. *)
Theorem moveout_keeps_block :
  results (_ ← map_ 0 0x3000 7; _ ← save; _ ← write 0x1000 [1]; e1 ← unmap 0 0x3000;
           r ← read 0 1; e2 ← map_ 0 0x1000 7; mret (e1, r, e2))
    = Some (UC_ERR_OK, (UC_ERR_READ_UNMAPPED, []), UC_ERR_MAP).
Proof. by vm_compute. Qed.

(** The restoration of an inner snapshot clears the level noted in a
    region that was unmapped before it, so that the outer snapshot does not map
    the region again. *)
Theorem restore_forgets_level :
  results (_ ← map_ 0x4000 0x3000 7; outer ← save; _ ← unmap 0x4000 0x3000; inner ← save;
           e1 ← restore inner; e2 ← restore outer; rs ← uc_mem_regions; mret (e1, e2, rs))
    = Some (UC_ERR_OK, UC_ERR_OK, []) /\
  results (_ ← map_ 0x4000 0x3000 7; outer ← save; _ ← unmap 0x4000 0x3000;
           e ← restore outer; rs ← uc_mem_regions; mret (e, rs))
    = Some (UC_ERR_OK, [(0x4000, 0x6fff, 7)]).
Proof. by vm_compute. Qed.

(** A block mapped after an outer snapshot and copied after an inner one is
    freed with its container when the outer snapshot is restored, but stays in
    [mapped_blocks]: the next search of the array uses a freed region. *)
Theorem restore_leaves_dangling :
  results (outer ← save; _ ← map_ 0x4000 0x3000 7; inner ← save; _ ← write 0x5000 [1];
           e1 ← restore inner; e2 ← restore outer; u ← get;
           mret (e1, e2, (fun id => bool_decide (is_Some (regions u !! id))) <$> mapped_blocks u))
    = Some (UC_ERR_OK, UC_ERR_OK, [false]) /\
  results (outer ← save; _ ← map_ 0x4000 0x3000 7; inner ← save; _ ← write 0x5000 [1];
           _ ← restore inner; _ ← restore outer; map_ 0x4000 0x3000 7) = None.
Proof. by vm_compute. Qed.
